(* ===== verification/_CoqProject ===== *)
-Q . S2P
Prelude.v
U256.v
Rlp.v
RlpProofs.v
EvmMachine.v
EvmOpcodes.v
EvmArith.v
EvmInterp.v
EvmSafety.v
EvmAlu.v
EvmMemory.v
EvmSound.v
EvmProps.v
EvmProps2.v
Precompiled.v
Types.v
TxPool.v
TxPoolProofs.v
Eip7691.v
Eip7002.v
Crypto.v
Transaction.v
TransactionProofs.v
Block.v
BlockProofs.v
ForkChoice.v
ForkChoiceProofs.v
Storage.v
Nibbles.v
Trie.v
TrieProofs.v
TrieProps.v
TrieCodec.v
Verkle.v
VerkleProofs.v
VerkleProps.v
VerkleWitness.v
VerkleMigration.v
Das.v
DasPeer.v
Mev.v
MevProofs.v
F64.v
SsfValidator.v
SsfCommittee.v
SsfProofs.v
HistoryExpiry.v
HistoryProofs.v
DasNet.v
DasNetProofs.v
HistoryArchive.v
HistoryPortal.v
HistoryArchiveProofs.v
Discv5.v
Discv5Proofs.v
SsfBls.v
SsfBlsProofs.v
SsfAggregator.v
SsfFinality.v
SsfFinalityProofs.v
Filter.v
FilterProofs.v
Verification.v
VerificationProofs.v
Engine.v
EngineProofs.v
Eip7251.v
Eip7251Proofs.v
ConsensusEngine.v
Consensus.v
ConsensusProofs.v
Scheduler.v
SchedulerProofs.v
ParallelState.v
ParallelExecutor.v
ParallelExecutorProofs.v
Authorization.v
Sync.v
SyncProofs.v
