(* ===== verification/Prelude.v ===== *)
(** Verification of the ethereum-rust execution client.

    The program.  ethereum-rust is an Ethereum client in Rust, split into
    crates.  This development models the crates that carry the client's own
    deterministic logic, from the bottom up:
    - serialisation: the RLP codec (crates/rlp), hashes and signatures
      (crates/crypto), data types (crates/types);
    - execution: the EVM (crates/evm) with gas, stack, memory, state database,
      opcode table, interpreter and precompiled contracts;
    - blocks and transactions (crates/core), the transaction pool
      (crates/txpool), blob gas (EIP-7691) and withdrawal requests (EIP-7002);
    - consensus (crates/consensus): the fork-choice rules, the proof-of-stake
      and proof-of-authority engines, block validation and the validator
      balances of EIP-7251; block verification (crates/verification);
    - the interface to the consensus client: fork-choice store, payloads and
      handlers (crates/engine); filters and subscriptions (crates/filter);
    - storage and commitments: the key-value store (crates/storage), the
      Merkle-Patricia trie (crates/trie), Verkle trees with their proofs,
      witnesses and migration (crates/verkle);
    - parallel execution: dependency graph, scheduler, conflict detection,
      state manager, executor and validator (crates/parallel-execution);
    - data availability: erasure code, reconstruction, custody, sampling and
      distribution of columns (crates/das);
    - block building: bundles, auctions and the choice of the transactions of
      a block (crates/mev);
    - single-slot finality: the validator set, its committees, the
      aggregation of their signatures and the rounds that finalize a slot
      (crates/ssf);
    - history expiry: what expires, how it is pruned, archived and retrieved
      (crates/history-expiry);
    - node discovery: the routing table and messages of discovery version 5
      (crates/network);
    - synchronisation: the modes full, fast, snap and light (crates/sync).
    Blocks and transactions are encoded with the RLP codec and hashed; the EVM
    reads and writes accounts through the [StateDB] trait; the tries stand on
    the hash function and the key-value store; the migration moves accounts
    from a state source into a Verkle tree; the peer stores columns the
    erasure code made; a block is built from the winners of an auction and the
    transaction pool; committees are formed from the active validators and their
    signatures aggregated; what is pruned is archived first; the consensus
    interface runs an engine and then the block validator; a synchronizer
    downloads headers, bodies and state into the database; the engine API
    imports what the consensus engine accepts; filters read the blocks and
    receipts of the database.

    Files.
    - Prelude: results, panics and state passing ([outcome], [SM] and their
      notations), weakest preconditions, machine integers with the two build
      profiles ([Profile]: overflow panics or wraps), byte strings, big-endian
      numbers, and the tactics and hints the other files share.
    - U256: interfaces of the crates primitive-types and sha3, as operation
      classes with classes of laws and a concrete instance of each; and
      keccak256 of crates/crypto/src/lib.rs.
    - Rlp, RlpProofs: crates/rlp.  [Encoder] and [Decoder] are records, the
      traits Encode and Decode the record [RlpImpl], each [impl] a definition;
      the theorems are the round trips, prefix-freedom, termination and the
      overflow behaviour of the length arithmetic.
    - EvmMachine: error.rs, gas.rs, stack.rs, memory.rs, state.rs and the
      accounts of lib.rs.  EvmOpcodes: opcodes.rs.  EvmArith: the signed and
      shift helpers of interpreter.rs and what they compute.
    - EvmInterp: execution.rs, interpreter.rs, lib.rs.  The object
      [Interpreter] is the record [Interp]; each arm of execute_opcode is a
      definition [op_X]; [run] is the loop with fuel.
    - EvmSafety: the well-formedness invariant [wf], what a method may change
      ([trans]) and triples ([spec], [ends]) that track stack height, static
      mode, gas, progress and panics.  EvmAlu: the word operations as integer
      arithmetic.  EvmMemory: the memory as an unbounded array of bytes.
      EvmSound: the triple of every arm, execute_opcode and run.
      EvmProps, EvmProps2: the theorems on the interpreter and its departures
      from the EVM, with machines that witness them; the tests of
      crates/evm/src/tests.rs evaluate in EvmProps.
    - Precompiled: precompiled.rs over the hash, curve and big-integer crates.
    - Types: bloom.rs, uint.rs, hash.rs, address.rs of crates/types.
    - TxPool, TxPoolProofs: crates/txpool/src/lib.rs, its consistency
      invariant, reachability by the public methods, block selection.
    - Eip7691: the blob fee market, blob transactions and the blob pool; the
      fee is the integer Taylor series, and the pool keeps its invariant.
    - Eip7002: withdrawal requests, the exit queue and the validator registry;
      exits are scheduled, sorted and processed, the queue is a FIFO.
    - Crypto: signatures over the interface of the secp256k1 crate.
      Transaction, TransactionProofs: the five transaction types of
      crates/core; hashes and signing hashes bind every field.
      Block, BlockProofs: headers, withdrawals, blocks and their hashes.
    - ForkChoice, ForkChoiceProofs: the rules longest chain, GHOST, Casper FFG
      and LMD GHOST over the tree of blocks; what each selects and what
      pruning keeps.
    - Storage: the in-memory database as a map and the keys of the tables.
    - Nibbles: the paths of the trie.  Trie: node.rs, trie.rs, proof.rs of
      crates/trie.  TrieProofs: lookup as a map, well-formed nodes.
      TrieProps: the trie in memory as a finite map, and what survives over a
      database.  TrieCodec: what decoding makes of an encoded node, commits and
      Merkle proofs.
    - Verkle: node.rs, tree.rs and commitment.rs of crates/verkle.
      VerkleProofs: the map a tree denotes and its invariant.  VerkleProps:
      the tree as a map, what its root commits to and what its proofs show.
      VerkleWitness: proof.rs and witness.rs.  VerkleMigration: migration.rs
      over a class of state sources.
    - Das: erasure.rs of crates/das over a class of Reed-Solomon codes.
      DasPeer: reconstruction.rs and peer_das.rs.  DasNet: sampling.rs and
      distribution.rs over records of network functions.  DasNetProofs: the
      cache never shows, batches change nothing, the index of custodians is
      exact.
    - Mev: bundle.rs, auction.rs and the transactions of builder.rs of
      crates/mev.  MevProofs: the auction as a greedy reference, what a sealed
      bid commits to, what a built block holds.
    - F64: the operations of [f64] the sources use, as binary64 numbers of the
      library SpecFloat.  SsfValidator, SsfCommittee: validator.rs and
      committee.rs of crates/ssf; the active list is exact.  SsfProofs:
      committees partition the validators, quorums intersect.
    - HistoryExpiry: pruning.rs and expiry_manager.rs of
      crates/history-expiry.  HistoryProofs: the policies agree, what they
      list, and that a round completes.  HistoryArchive: the archives of
      archival.rs as implementations of one trait.  HistoryPortal:
      portal_integration.rs and retrieval.rs.  HistoryArchiveProofs: what an
      archive gives back, and what retrieval finds once blocks are pruned.
    - Discv5, Discv5Proofs: discovery_v5.rs of crates/network; the invariant
      of the routing table, the closest nodes as a sorted reference, what
      datagrams change and where maintenance stops.
    - SsfBls, SsfBlsProofs: signature_aggregation.rs of crates/ssf; the three
      strategies sign for the same keys, and what verifies.
    - SsfAggregator: the four strategies of aggregator.rs of crates/ssf.
      SsfFinality: finality.rs, from a block to its vote and its checkpoint.
      SsfFinalityProofs: what finalizes a slot, for whom a tree signs, and
      the bounds of the state that is kept.
    - Filter: the five files of crates/filter.  FilterProofs: what the bloom
      check lets through and when that is every log; polls and subscriptions
      deliver every log once.
    - Verification: the five files of crates/verification.
      VerificationProofs: which headers pass, what a verified chain, state
      transition and block satisfy.
    - Engine: types.rs, forkchoice.rs, payload.rs and api.rs of crates/engine.
      EngineProofs: what the named blocks are, the round trip of payloads, the
      base fee, the canonical test.
    - Eip7251, Eip7251Proofs: the registry of crates/consensus/src/eip7251.rs,
      its caps and its consolidations.  ConsensusEngine: the
      errors, configuration and engine trait of the crate and both engines.
      Consensus: validator.rs and lib.rs.  ConsensusProofs: rotation of
      signers and proposers, votes, committees, justification, and that the
      engines and the validator accept no block together.
    - Scheduler, SchedulerProofs: dependency_graph.rs, scheduler.rs and the
      batches they make.  ParallelState: conflict_detector.rs and
      state_manager.rs; what counts as a conflict, and that changes whose
      access sets have none commute.
    - ParallelExecutor: executor.rs and validator.rs of
      crates/parallel-execution.  ParallelExecutorProofs: what a batch leaves
      of the accounts, which transactions are found in conflict, and which
      results the validator passes.
    - Authorization: the authorizations of crates/core/src/eip7702.rs, their
      signatures and the delegations they give.
    - Sync: lib.rs, block_downloader.rs, fast_sync.rs, snap_sync.rs and
      state_sync.rs of crates/sync.  SyncProofs: which modes complete and where
      the others stop.

    Conventions.  A method on [&mut self] returns its result and the object
    afterwards, also when it fails, since the caller of a failed method sees
    what it changed before.  Unsigned integers are the [Z] they denote; plain
    [+], [-], [*] go through [uadd], [usub], [umul], which panic or wrap with
    the profile; [wrapping], [saturating] and [checked] operations are written
    out.  A range or index out of bounds, [unwrap] on [None] and a vector
    longer than [isize::MAX] bytes are [Panic].  Hash maps are [gmap]s; where
    the code iterates over one, the order is a parameter or, where it cannot
    be seen, the one of [map_to_list].  Asynchronous methods are modelled as
    the sequence of what they do: each runs alone.  Locks show only where a
    task asks for one it holds itself ([relocked]): it waits for ever or
    panics, since the standard library promises neither ([Relock]).

    Bounds and fuel.  [run] takes one unit of fuel per iteration;
    [EvmProps.run_terminates] shows that [(gas_limit + 1) * (code length + 1)]
    units are enough below the gas limit [u64::MAX], and
    [EvmProps2.unmetered_loop_diverges] that none are at it.  [decode_item] and
    the loop of [decode_list] take fuel bounded by the length of the input,
    which [RlpProofs.rlp_decode_terminates] shows to be enough.  Walks through
    the tree of blocks take fuel, and the theorems show that some amount is
    enough where there are no cycles.  Walks through a trie take a unit per
    node, at most one more than the nibbles of the longest key; walks through
    a Verkle tree 66 units for keys of 32 bytes; the worker of a migration as
    many rounds as there are accounts and one; the loop of identify_by_size
    50002 rounds, since each frees two million of at most 10^11 bytes; the
    canonical test of the engine API the number of the block and two; the
    levels of a tree of signatures the length of their list, since the parts
    of a list are shorter; the loop over the headers of a sync 1002 turns, since
    the head is fixed at 1000.  The loops that fetch blocks and heal tries never
    end, and the theorems show that of any amount of fuel.  Lengths
    of buffers are at most [isize::MAX], the bound Rust puts on allocations.

    Parameters.  Code outside the repository (primitive-types, sha3, sha2,
    ripemd, secp256k1, num-bigint, priority-queue, petgraph, bincode,
    reed-solomon, blst, the compression crates, the IPFS and HTTP clients) is a
    class of operations with a class of laws, or an argument of the
    definitions, and the laws state documented behaviour; a concrete instance
    shows that they can hold.  So is the logarithm of [f64], whose result the
    standard library leaves to the platform ([LogarithmLaws]).  The constants
    of eip7251.rs, whose literals exceed their type, are a class with an
    instance for the values they mean and one for the values they wrap to.  Random choices, clocks, iteration
    orders of hash maps, cron schedules, random payload ids, serialised forms
    and implementations of traits the sources only declare (state sources,
    chains, archives) are arguments too.  Some crates name fields and methods
    of headers, transactions and signatures, or functions such as the
    recovery of an authority from the parts of a signature, that crates/core
    and crates/crypto do not have; their models hold the fields they use in records of their own
    and take the missing functions as parameters.

    Not modelled.  Text forms (hex, checksums, Display), serde, logging, the
    interleaving of tasks and the locks between them.  The allocator: an allocation below
    [isize::MAX] succeeds.  The RocksDB store, the network crate apart from its
    discovery version 5, the RPC crate and the node binary, which are I/O over
    other crates; the tokens and relays of crates/engine; the relays of
    crates/mev and the header and payload its builder wraps around the
    transactions.  The file beacon_sync.rs, which crates/sync does not declare
    as a module.  The remaining crates are prototypes around external provers
    and models. *)
From stdpp Require Import base list numbers option.
From Stdlib Require Import ZArith Lia Sorted.

(** * Results, panics and state *)

(** What a Rust call can do: return a value ([Ok]), return an error ([Err]),
    panic, or never return.  [Diverge] is only produced by a loop that has
    used up its fuel and by a task that waits for itself; the termination
    theorems show where it cannot occur. *)
Inductive outcome (E A : Type) : Type :=
| Ok (a : A)
| Err (e : E)
| Panic
| Diverge.
Arguments Ok {E A} a.
Arguments Err {E A} e.
Arguments Panic {E A}.
Arguments Diverge {E A}.

(** The error type of code that has no [Result]. *)
Notation Infallible A := (outcome Empty_set A).

Definition obind {E A B} (m : outcome E A) (k : A -> outcome E B) : outcome E B :=
  match m with
  | Ok a => k a
  | Err e => Err e
  | Panic => Panic
  | Diverge => Diverge
  end.

(** A call to code with no [Result] from code with one. *)
Definition lift_ok {E A} (m : Infallible A) : outcome E A :=
  match m with
  | Ok a => Ok a
  | Err e => match e with end
  | Panic => Panic
  | Diverge => Diverge
  end.

(** A thread that asks for a lock of the standard library it holds itself waits
    for ever or panics, which the library leaves open. *)
Class Relock := { relock_panics : bool }.
Definition relocked `{Relock} {E A} : outcome E A := if relock_panics then Panic else Diverge.

(** [let? x := m in k] returned a value. *)
Lemma obind_ok {E A B} (m : outcome E A) (k : A -> outcome E B) b :
  obind m k = Ok b -> exists a, m = Ok a /\ k a = Ok b.
Proof. destruct m; simpl; naive_solver. Qed.
Lemma lift_ok_inv {E A} (m : Infallible A) a : lift_ok (E := E) m = Ok a <-> m = Ok a.
Proof. destruct m as [|[]| |]; simpl; naive_solver. Qed.

(** Opens the hypothesis that a chain of calls returned a value. *)
Ltac opened H :=
  let a := fresh "r" in let Ha := fresh "Hr" in
  apply obind_ok in H as (a & Ha & H); rewrite ?lift_ok_inv in Ha.

(** Methods on [&mut self]: the result and the object afterwards.  The object
    is returned on errors too, since the caller of a failed method still sees
    what the method changed before it failed. *)
Definition SM (S E A : Type) : Type := S -> outcome E A * S.

Definition sret {S E A} (a : A) : SM S E A := fun s => (Ok a, s).
Definition sbind {S E A B} (m : SM S E A) (k : A -> SM S E B) : SM S E B :=
  fun s =>
    match m s with
    | (Ok a, s') => k a s'
    | (Err e, s') => (Err e, s')
    | (Panic, s') => (Panic, s')
    | (Diverge, s') => (Diverge, s')
    end.
Definition sget {S E} : SM S E S := fun s => (Ok s, s).
Definition sput {S E} (s : S) : SM S E unit := fun _ => (Ok tt, s).
Definition smodify {S E} (f : S -> S) : SM S E unit := fun s => (Ok tt, f s).
Definition sfail {S E A} (e : E) : SM S E A := fun s => (Err e, s).
Definition slift {S E A} (m : outcome E A) : SM S E A := fun s => (m, s).

Declare Scope rust_scope.
Delimit Scope rust_scope with rust.
Notation "'let?' x := m 'in' k" := (obind m (fun x => k))
  (at level 10, x pattern, k at level 200) : rust_scope.
Notation "'let!' x := m 'in' k" := (sbind m (fun x => k))
  (at level 10, x pattern, k at level 200) : rust_scope.
Notation "m ';;!' k" := (sbind m (fun _ => k))
  (at level 100, right associativity) : rust_scope.
Open Scope rust_scope.
Open Scope Z_scope.

(** Weakest preconditions of stateful methods: the shape of every invariant
    proof below. *)
Definition wp {S E A} (m : SM S E A) (Q : outcome E A -> S -> Prop) (s : S) : Prop :=
  Q (m s).1 (m s).2.

Section wp_rules.
Context {S E A B : Type}.
Implicit Types (s : S).

Lemma wp_bind (m : SM S E A) (k : A -> SM S E B) (Q : outcome E B -> S -> Prop) s :
  wp m (fun r s' => match r with
                    | Ok a => wp (k a) Q s'
                    | Err e => Q (Err e) s'
                    | Panic => Q Panic s'
                    | Diverge => Q Diverge s'
                    end) s ->
  wp (sbind m k) Q s.
Proof. unfold wp, sbind. destruct (m s) as [[] ?]; auto. Qed.

Lemma wp_mono (m : SM S E A) (Q Q' : outcome E A -> S -> Prop) s :
  wp m Q s -> (forall r s', Q r s' -> Q' r s') -> wp m Q' s.
Proof. unfold wp; auto. Qed.

Lemma wp_elim (m : SM S E A) (Q : outcome E A -> S -> Prop) s r s' :
  wp m Q s -> m s = (r, s') -> Q r s'.
Proof. intros H Hm. unfold wp in H. rewrite Hm in H. exact H. Qed.

Lemma sbind_ok (m : SM S E A) (k : A -> SM S E B) s a s' :
  m s = (Ok a, s') -> sbind m k s = k a s'.
Proof. unfold sbind. by intros ->. Qed.

Lemma sbind_inv (m : SM S E A) (k : A -> SM S E B) s b s'' :
  sbind m k s = (Ok b, s'') -> exists a s', m s = (Ok a, s') /\ k a s' = (Ok b, s'').
Proof. unfold sbind. destruct (m s) as [[] ?]; naive_solver. Qed.

(** One step of a method at a time. *)
Lemma sbind_lift (x : A) (k : A -> SM S E B) s : sbind (slift (Ok x)) k s = k x s.
Proof. done. Qed.
Lemma sbind_modify (f : S -> S) (k : unit -> SM S E B) s : sbind (smodify f) k s = k tt (f s).
Proof. done. Qed.
Lemma sbind_get (k : S -> SM S E B) s : sbind sget k s = k s s.
Proof. done. Qed.
Lemma sbind_assoc {C} (m : SM S E A) (k : A -> SM S E B) (h : B -> SM S E C) s :
  sbind (sbind m k) h s = sbind m (fun x => sbind (k x) h) s.
Proof. unfold sbind. by destruct (m s) as [[] ?]. Qed.
End wp_rules.

(** * Machine integers *)

(** [lia] with division and remainder by their defining equations. *)
Ltac zlia := Z.to_euclidean_division_equations; lia.

(** An unsigned integer of [w] bits is the [Z] it denotes. *)
Definition uint (w x : Z) : Prop := 0 <= x < 2 ^ w.
Definition usize_max : Z := 2 ^ 64 - 1.
(** [isize::MAX]: the longest allocation Rust accepts, on a 64-bit target. *)
Definition isize_max : Z := 2 ^ 63 - 1.

(** [x as u8], [x as u64]: truncation to the width. *)
Definition wrap (w x : Z) : Z := x mod 2 ^ w.

(** The build profile: plain [+], [-], [*] on machine integers panic on
    overflow with overflow checks on (the [dev] profile) and wrap with them
    off (the [release] profile of the workspace). *)
Class Profile := { overflow_checks : bool }.
Definition dev_profile : Profile := {| overflow_checks := true |}.
Definition release_profile : Profile := {| overflow_checks := false |}.

Definition checked_arith `{Profile} {E} (w x : Z) : outcome E Z :=
  if (0 <=? x) && (x <? 2 ^ w) then Ok x
  else if overflow_checks then Panic else Ok (wrap w x).
Definition uadd `{Profile} {E} (w a b : Z) : outcome E Z := checked_arith w (a + b).
Definition usub `{Profile} {E} (w a b : Z) : outcome E Z := checked_arith w (a - b).
Definition umul `{Profile} {E} (w a b : Z) : outcome E Z := checked_arith w (a * b).
(** [a / b] and [a % b]: a zero divisor panics in every profile. *)
Definition udiv {E} (a b : Z) : outcome E Z := if b =? 0 then Panic else Ok (a / b).
Definition urem {E} (a b : Z) : outcome E Z := if b =? 0 then Panic else Ok (a mod b).

Definition saturating_add (w a b : Z) : Z := Z.min (a + b) (2 ^ w - 1).
Definition saturating_sub (a b : Z) : Z := Z.max (a - b) 0.
Definition saturating_mul (w a b : Z) : Z := Z.min (a * b) (2 ^ w - 1).
Definition checked_add (w a b : Z) : option Z :=
  if a + b <? 2 ^ w then Some (a + b) else None.

Lemma checked_arith_ok `{Profile} {E} w x : uint w x -> checked_arith (E := E) w x = Ok x.
Proof.
  unfold uint, checked_arith. intros ?.
  destruct (Z.leb_spec 0 x), (Z.ltb_spec x (2 ^ w)); simpl; auto; lia.
Qed.
(** Arithmetic whose results are in range is exact in both profiles. *)
Ltac exact_arith := repeat (rewrite checked_arith_ok by (unfold uint; lia); cbn [obind]).

(** * Bytes, slices and vectors *)

(** A [Vec<u8>] or [&[u8]] is a list of integers below 256. *)
Definition byte (b : Z) : Prop := 0 <= b < 256.
Definition bytes (l : list Z) : Prop := Forall byte l.

Definition len {A} (l : list A) : Z := Z.of_nat (length l).

Lemma len_app {A} (l k : list A) : len (l ++ k) = len l + len k.
Proof. unfold len. rewrite length_app. lia. Qed.
Lemma len_cons {A} (x : A) l : len (x :: l) = 1 + len l.
Proof. unfold len. simpl. lia. Qed.
Lemma len_nil {A} : len (@nil A) = 0.
Proof. done. Qed.
Lemma len_snoc {A} (l : list A) x : len (l ++ [x]) = len l + 1.
Proof. by rewrite len_app. Qed.
Lemma len_nonneg {A} (l : list A) : 0 <= len l.
Proof. unfold len. lia. Qed.

(** [&l[a..b]] and [l[i]]: a range or an index out of bounds panics. *)
Definition slice {E A} (l : list A) (a b : Z) : outcome E (list A) :=
  if (0 <=? a) && (a <=? b) && (b <=? len l)
  then Ok (take (Z.to_nat (b - a)) (drop (Z.to_nat a) l))
  else Panic.
Definition index {E A} (l : list A) (i : Z) : outcome E A :=
  match l !! Z.to_nat i with
  | Some x => if 0 <=? i then Ok x else Panic
  | None => Panic
  end.
(** [vec![0; n]]: a length above [isize::MAX] panics with a capacity overflow. *)
Definition vec_zeros {E} (n : Z) : outcome E (list Z) :=
  if n <=? isize_max then Ok (replicate (Z.to_nat n) 0) else Panic.
(** [v.resize(n, 0)] on a vector of bytes. *)
Definition vec_resize {E} (v : list Z) (n : Z) : outcome E (list Z) :=
  if n <=? isize_max
  then Ok (take (Z.to_nat n) v ++ replicate (Z.to_nat n - length v) 0)
  else Panic.
(** [iter().position(p)] and [Option::unwrap]. *)
Definition position {A} (p : A -> bool) (l : list A) : option nat :=
  fst <$> list_find (fun x => p x = true) l.
Definition unwrap {E A} (o : option A) : outcome E A :=
  match o with Some x => Ok x | None => Panic end.

(** * Big-endian encodings: [from_be_bytes] and [to_be_bytes] *)

Definition from_be (l : list Z) : Z := foldl (fun acc b => acc * 256 + b) 0 l.
Fixpoint to_be (n : nat) (z : Z) : list Z :=
  match n with
  | O => []
  | S n' => (z / 256 ^ Z.of_nat n') mod 256 :: to_be n' z
  end.

Lemma from_be_acc a l :
  foldl (fun acc b => acc * 256 + b) a l = a * 256 ^ len l + from_be l.
Proof.
  unfold from_be. revert a. induction l as [|b l IH]; intros a; simpl.
  - rewrite len_nil. lia.
  - rewrite IH, (IH (0 * 256 + b)), len_cons, Z.pow_add_r by (auto using len_nonneg; lia). lia.
Qed.

Lemma from_be_cons b l : from_be (b :: l) = b * 256 ^ len l + from_be l.
Proof. unfold from_be at 1. simpl. by rewrite from_be_acc. Qed.

Lemma from_be_app l k : from_be (l ++ k) = from_be l * 256 ^ len k + from_be k.
Proof. unfold from_be at 1. by rewrite foldl_app, from_be_acc. Qed.

Lemma from_be_bound l : bytes l -> 0 <= from_be l < 256 ^ len l.
Proof.
  induction 1 as [|b l Hb _ IH]; [done|].
  rewrite from_be_cons, len_cons, Z.pow_add_r by (auto using len_nonneg; lia).
  unfold byte in Hb. nia.
Qed.

Lemma length_to_be n z : length (to_be n z) = n.
Proof. induction n; simpl; auto. Qed.

Lemma bytes_to_be n z : bytes (to_be n z).
Proof. induction n; constructor; auto. apply Z.mod_pos_bound. lia. Qed.

Lemma from_be_to_be n z : from_be (to_be n z) = z mod 256 ^ Z.of_nat n.
Proof.
  induction n as [|n IH]; [by rewrite Z.mod_1_r|].
  cbn [to_be]. rewrite from_be_cons, IH. unfold len. rewrite length_to_be.
  rewrite Nat2Z.inj_succ, Z.pow_succ_r by lia.
  assert (0 < 256 ^ Z.of_nat n) by (apply Z.pow_pos_nonneg; lia).
  rewrite (Z.mul_comm 256), Z.rem_mul_r by lia. lia.
Qed.

Lemma to_be_from_be l : bytes l -> to_be (length l) (from_be l) = l.
Proof.
  assert (Hmod : forall n m z, to_be n (z + m * 256 ^ Z.of_nat n) = to_be n z).
  { induction n as [|n IH]; intros m z; simpl; [done|]. f_equal.
    - replace (z + m * 256 ^ Z.of_nat (S n)) with (z + (m * 256) * 256 ^ Z.of_nat n)
        by (rewrite Nat2Z.inj_succ, Z.pow_succ_r by lia; ring).
      rewrite Z.div_add by (apply Z.pow_nonzero; lia).
      by rewrite Z.mod_add.
    - rewrite <- (IH (m * 256) z). f_equal.
      rewrite Nat2Z.inj_succ, Z.pow_succ_r by lia. ring. }
  induction 1 as [|b l Hb Hl IH]; [done|]. simpl. rewrite from_be_cons. f_equal.
  - pose proof (from_be_bound l Hl) as Hbd. unfold byte in Hb. unfold len in *.
    rewrite Z.div_add_l, Z.div_small, Z.add_0_r, Z.mod_small by lia. done.
  - rewrite Z.add_comm. unfold len. by rewrite Hmod.
Qed.

Lemma from_be_zeros n : from_be (replicate n 0) = 0.
Proof. induction n as [|n IH]; [done|]. cbn [replicate]. rewrite from_be_cons. lia. Qed.

(** Dropping the leading zeros of a big-endian number: the value is kept, and
    what is left has no leading zero. *)
Lemma position_nonzero (l : list Z) i :
  position (fun b => negb (b =? 0)) l = Some i ->
  exists b, drop i l = b :: drop (S i) l /\ b <> 0 /\ l = replicate i 0 ++ drop i l.
Proof.
  unfold position. intros Hp. apply fmap_Some in Hp as ([j b] & Hf & ->). simpl in *.
  apply list_find_Some in Hf as (Hl & Hb & Hlt).
  exists b. split_and!.
  - by apply drop_S.
  - intros ->. done.
  - rewrite <- (take_drop j l) at 1. f_equal.
    apply lookup_lt_Some in Hl as Hj.
    apply list_eq. intros k. destruct (decide (k < j)%nat) as [Hk|Hk].
    + rewrite lookup_take_lt, lookup_replicate_2 by lia.
      destruct (lookup_lt_is_Some_2 l k) as [x Hx]; [lia|].
      specialize (Hlt _ _ Hx Hk). rewrite Hx. f_equal.
      destruct (Z.eqb_spec x 0); [done|]. by destruct Hlt.
    + rewrite !lookup_ge_None_2; [done| |]; rewrite ?length_replicate, ?length_take; lia.
Qed.

Lemma position_nonzero_is_some (l : list Z) :
  from_be l <> 0 -> exists i, position (fun b => negb (b =? 0)) l = Some i.
Proof.
  unfold position. intros Hnz.
  destruct (list_find _ l) as [[i b]|] eqn:Hf; [by exists i|]. exfalso. apply Hnz.
  apply list_find_None in Hf. clear Hnz. induction Hf as [|b l Hb _ IH]; [done|].
  rewrite from_be_cons, IH. destruct (Z.eqb_spec b 0); [lia|]. by destruct Hb.
Qed.

Lemma from_be_drop_zeros l i : from_be (replicate i 0 ++ l) = from_be l.
Proof. rewrite from_be_app, from_be_zeros. lia. Qed.

Lemma bytes_app l k : bytes (l ++ k) <-> bytes l /\ bytes k.
Proof. apply Forall_app. Qed.
Lemma bytes_drop n l : bytes l -> bytes (drop n l).
Proof. apply Forall_drop. Qed.
Lemma bytes_take n l : bytes l -> bytes (take n l).
Proof. apply Forall_take. Qed.
Lemma bytes_zeros n : bytes (replicate n 0).
Proof. apply Forall_replicate. unfold byte. lia. Qed.

(** Every byte is below 256, so a property of all bytes is checked byte by
    byte. *)
Lemma all_bytes (P : Z -> bool) :
  forallb P (map Z.of_nat (seq 0 256)) = true -> forall b, byte b -> P b = true.
Proof.
  intros Hall b Hb. rewrite forallb_forall in Hall. apply Hall.
  apply in_map_iff. exists (Z.to_nat b). unfold byte in Hb.
  split; [lia|]. apply in_seq. lia.
Qed.

Lemma slice_mid {E A} (pre mid post : list A) :
  slice (E := E) (pre ++ mid ++ post) (len pre) (len pre + len mid) = Ok mid.
Proof.
  unfold slice. rewrite !len_app.
  destruct (Z.leb_spec 0 (len pre)), (Z.leb_spec (len pre) (len pre + len mid)),
    (Z.leb_spec (len pre + len mid) (len pre + (len mid + len post)));
    simpl; try (unfold len in *; lia).
  f_equal. rewrite drop_app_length' by (unfold len; lia).
  by rewrite take_app_length' by (unfold len; lia).
Qed.

Lemma index_mid {E A} (pre post : list A) x :
  index (E := E) (pre ++ x :: post) (len pre) = Ok x.
Proof.
  unfold index, len. rewrite Nat2Z.id, list_lookup_middle by done.
  by rewrite (proj2 (Z.leb_le _ _)) by lia.
Qed.

Lemma index_spec {E A} (l : list A) i x : index (E := E) l i = Ok x <-> 0 <= i /\ l !! Z.to_nat i = Some x.
Proof.
  unfold index. destruct (l !! Z.to_nat i); [|by split; [|intros [_ ?]]].
  destruct (Z.leb_spec 0 i); naive_solver lia.
Qed.

Create HintDb rust.
#[export] Hint Resolve bytes_to_be bytes_drop bytes_take bytes_zeros len_nonneg : rust.
#[export] Hint Rewrite @len_app @len_cons @len_nil : rust.

(** Case analysis on the boolean comparisons of the code. *)
Ltac case_bool :=
  repeat match goal with
  | |- context [Z.leb ?a ?b] => destruct (Z.leb_spec a b); simpl
  | |- context [Z.ltb ?a ?b] => destruct (Z.ltb_spec a b); simpl
  | |- context [Z.eqb ?a ?b] => destruct (Z.eqb_spec a b); simpl
  end.

(** * Stable sorting *)

(** [sort_by_key] and [sort_by]: Rust's sort is stable, so insertion sort from
    the back, where an element goes before the equal ones behind it, computes
    the same vector. *)
Section sort_by_key.
Context {A : Type} (key : A -> Z).

Fixpoint insert_by_key (x : A) (l : list A) : list A :=
  match l with
  | [] => [x]
  | y :: rest => if key y <? key x then y :: insert_by_key x rest else x :: l
  end.
Definition sort_by_key (l : list A) : list A := foldr insert_by_key [] l.
Definition key_le (x y : A) : Prop := key x <= key y.

Lemma insert_by_key_perm x l : insert_by_key x l ≡ₚ x :: l.
Proof.
  induction l as [|y l IH]; simpl; [done|]. case_bool; [|done].
  rewrite IH. apply Permutation_swap.
Qed.
Lemma sort_by_key_perm l : sort_by_key l ≡ₚ l.
Proof. induction l as [|x l IH]; simpl; [done|]. by rewrite insert_by_key_perm, IH. Qed.

Lemma insert_by_key_front x l : Forall (key_le x) l -> insert_by_key x l = x :: l.
Proof.
  destruct 1 as [|y l Hy _]; simpl; [done|]. unfold key_le in Hy. case_bool; [lia|done].
Qed.

Lemma insert_by_key_sorted x l : StronglySorted key_le l -> StronglySorted key_le (insert_by_key x l).
Proof.
  induction 1 as [|y l Hl IH Hy]; simpl; [by repeat constructor|].
  unfold key_le in *. case_bool.
  - constructor; [done|]. rewrite insert_by_key_perm. constructor; [lia|done].
  - constructor; [by constructor|]. constructor; [lia|].
    eapply Forall_impl; [|exact Hy]. simpl. lia.
Qed.
Lemma sort_by_key_sorted l : StronglySorted key_le (sort_by_key l).
Proof. induction l; simpl; [constructor|]. by apply insert_by_key_sorted. Qed.

(** A new last element goes behind the ones with the same key. *)
Lemma sort_by_key_snoc l x : StronglySorted key_le l ->
  exists l1 l2, l = l1 ++ l2 /\ sort_by_key (l ++ [x]) = l1 ++ x :: l2 /\
    Forall (fun y => key y <= key x) l1 /\ Forall (fun y => key x < key y) l2.
Proof.
  induction 1 as [|y l Hl IH Hy]; simpl.
  { exists [], []. simpl. auto. }
  destruct IH as (l1 & l2 & -> & Hs & H1 & H2). rewrite Hs.
  destruct (Z.lt_ge_cases (key x) (key y)) as [Hlt|Hge].
  - destruct l1 as [|z l1].
    + exists [], (y :: l2). simpl in *. rewrite (proj2 (Z.ltb_lt _ _)) by done.
      rewrite insert_by_key_front by done. auto.
    + apply Forall_cons_1 in H1 as [H1 _]. apply Forall_cons_1 in Hy as [Hy _].
      unfold key_le in *. lia.
  - exists (y :: l1), l2. split_and!; [done| | |done]; [|constructor; [lia|done]].
    rewrite insert_by_key_front; [done|]. apply Forall_app in Hy as [? ?].
    apply Forall_app. split; [done|]. constructor; [unfold key_le; lia|done].
Qed.

Lemma sublist_Forall {B} (P : B -> Prop) l k : sublist l k -> Forall P k -> Forall P l.
Proof.
  induction 1 as [|x l k _ IH|x l k _ IH]; intros HP; [done| |]; inversion HP; subst; auto.
Qed.
Lemma sublist_sorted l k : sublist l k -> StronglySorted key_le k -> StronglySorted key_le l.
Proof.
  induction 1 as [|x l k Hlk IH|x l k Hlk IH]; [done| |];
    inversion 1 as [|? ? Hk Hx]; subst; auto.
  constructor; [auto|]. by apply (sublist_Forall _ l k).
Qed.
Lemma take_drop_sublist {B} i (l : list B) : sublist (take i l ++ drop (S i) l) l.
Proof.
  rewrite <- (take_drop i l) at 3. apply sublist_app; [done|].
  replace (S i) with (i + 1)%nat by lia. rewrite <- drop_drop. apply sublist_drop.
Qed.
End sort_by_key.

(** * Byte strings in lexicographic order: [Ord] of [Vec<u8>] and [H256] *)

Fixpoint bytes_lt (a b : list Z) : bool :=
  match a, b with
  | [], [] => false
  | [], _ :: _ => true
  | _ :: _, [] => false
  | x :: a, y :: b => (x <? y) || ((x =? y) && bytes_lt a b)
  end.

Lemma bytes_lt_irrefl a : bytes_lt a a = false.
Proof. induction a as [|x a IH]; [done|]. simpl. rewrite Z.ltb_irrefl, Z.eqb_refl. done. Qed.
Lemma bytes_lt_cons x y a b : bytes_lt (x :: a) (y :: b) = true <->
  x < y \/ (x = y /\ bytes_lt a b = true).
Proof. simpl. rewrite orb_true_iff, andb_true_iff, Z.ltb_lt, Z.eqb_eq. done. Qed.
Lemma bytes_lt_trans a b c : bytes_lt a b = true -> bytes_lt b c = true -> bytes_lt a c = true.
Proof.
  revert b c. induction a as [|x a IH]; intros [|y b] [|z c]; try done.
  rewrite !bytes_lt_cons. intros [?|[-> ?]] [?|[-> ?]]; [left; lia|left; lia|left; lia|right; eauto].
Qed.
Lemma bytes_lt_antisym a b : bytes_lt a b = false -> bytes_lt b a = false -> a = b.
Proof.
  revert b. induction a as [|x a IH]; intros [|y b]; try done. simpl.
  rewrite !orb_false_iff, !andb_false_iff, !Z.ltb_ge, !Z.eqb_neq. intros [? ?] [? ?].
  assert (x = y) as -> by lia. f_equal. apply IH; naive_solver.
Qed.

(** [a] comes before [b] or is [b]. *)
Definition bytes_le (a b : list Z) : Prop := bytes_lt b a = false.
Lemma bytes_le_trans a b c : bytes_le a b -> bytes_le b c -> bytes_le a c.
Proof.
  unfold bytes_le. intros Hab Hbc. destruct (bytes_lt c a) eqn:Hca; [|done].
  destruct (bytes_lt a b) eqn:Hlt; [by rewrite (bytes_lt_trans _ _ _ Hca Hlt) in Hbc|].
  rewrite <- (bytes_lt_antisym a b Hlt Hab) in Hbc. congruence.
Qed.
Lemma bytes_lt_le a b : bytes_lt a b = true -> bytes_le a b.
Proof.
  unfold bytes_le. intros Hab. destruct (bytes_lt b a) eqn:Hba; [|done].
  pose proof (bytes_lt_trans _ _ _ Hab Hba) as Haa. by rewrite bytes_lt_irrefl in Haa.
Qed.

(** * Sums *)

(** The sum of [f] over a list. *)
Section zsum.
Context {A : Type} (f : A -> Z).
Definition zsum (l : list A) : Z := foldr (fun x s => f x + s) 0 l.

Lemma zsum_app l k : zsum (l ++ k) = zsum l + zsum k.
Proof. induction l as [|x l IH]; simpl; [done|]. rewrite IH. lia. Qed.
Lemma zsum_snoc l x : zsum (l ++ [x]) = zsum l + f x.
Proof. rewrite zsum_app. simpl. lia. Qed.
#[export] Instance zsum_perm : Proper ((≡ₚ) ==> (=)) zsum.
Proof. intros l k Hp. induction Hp; simpl; lia. Qed.
Lemma zsum_nonneg l : Forall (fun x => 0 <= f x) l -> 0 <= zsum l.
Proof. induction 1; simpl; lia. Qed.
Lemma zsum_sublist l k : sublist l k -> Forall (fun x => 0 <= f x) k -> zsum l <= zsum k.
Proof. induction 1 as [|x l k _ IH|x l k _ IH]; intros Hk; [done|..]; apply Forall_cons_1 in Hk as [? Hk]; simpl; specialize (IH Hk); lia. Qed.
Lemma zsum_elem l x : x ∈ l -> Forall (fun x => 0 <= f x) l -> f x <= zsum l.
Proof.
  intros Hx. induction l as [|y l IH]; [by apply not_elem_of_nil in Hx|]. intros [Hy Hl]%Forall_cons_1.
  pose proof (zsum_nonneg l Hl). apply elem_of_cons in Hx as [-> |Hx]; simpl; [lia|]. specialize (IH Hx Hl). lia.
Qed.
Lemma zsum_filter (P : A -> Prop) `{!forall x, Decision (P x)} l : Forall (fun x => 0 <= f x) l -> zsum (filter P l) <= zsum l.
Proof. apply zsum_sublist, sublist_filter. Qed.
End zsum.
