(* ===== verification/U256.v ===== *)
(** The interfaces of the third-party crates the modelled code builds on.

    [primitive_types::U256] and [U512] (re-exported by crates/types/src/uint.rs)
    and the Keccak-256 digest of the [sha3] crate are not part of the
    repository.  They enter the development as the operation classes
    [U256Ops] and [KeccakOps]; the classes [U256Laws] and [KeccakLaws] state the
    documented behaviour the code relies on.  A [U256] is the integer it
    denotes.  [U256_model] and [keccak_model] are concrete implementations that
    satisfy the laws, so nothing proved from them is vacuous. *)
From stdpp Require Import base list numbers option.
From Stdlib Require Import ZArith Lia Zpow_facts.
From S2P Require Import Prelude.

Notation U256 := (uint 256).
Notation U256_MAX := (2 ^ 256 - 1).

(** The operations of [U256] the code calls.  An [option] result is [None]
    where the operation panics. *)
Class U256Ops := {
  u_overflowing_add : Z -> Z -> Z * bool;
  u_overflowing_sub : Z -> Z -> Z * bool;
  u_overflowing_mul : Z -> Z -> Z * bool;
  u_overflowing_pow : Z -> Z -> Z * bool;
  u_saturating_add : Z -> Z -> Z;
  u_saturating_sub : Z -> Z -> Z;
  u_checked_add : Z -> Z -> option Z;
  u_add : Z -> Z -> option Z;
  u_sub : Z -> Z -> option Z;
  u_mul : Z -> Z -> option Z;
  u_div : Z -> Z -> option Z;
  u_rem : Z -> Z -> option Z;
  u_full_mul : Z -> Z -> Z;
  u512_overflowing_add : Z -> Z -> Z * bool;
  u512_div_mod : Z -> Z -> option (Z * Z);
  u512_try_into : Z -> option Z;
  u_bits : Z -> Z;
  u_bit : Z -> Z -> bool;
  u_byte : Z -> Z -> Z;
  u_and : Z -> Z -> Z;
  u_or : Z -> Z -> Z;
  u_xor : Z -> Z -> Z;
  u_not : Z -> Z;
  u_shl : Z -> Z -> Z;
  u_shr : Z -> Z -> Z;
  u_as_u64 : Z -> option Z;
  u_as_usize : Z -> option Z;
  u_to_big_endian : Z -> list Z;
  u_from_big_endian : list Z -> option Z;
}.

(** Their documented behaviour on 256-bit (and, for [U512], 512-bit) values. *)
Class U256Laws `{U256Ops} : Prop := {
  overflowing_add_law a b : U256 a -> U256 b ->
    u_overflowing_add a b = ((a + b) mod 2 ^ 256, 2 ^ 256 <=? a + b);
  overflowing_sub_law a b : U256 a -> U256 b ->
    u_overflowing_sub a b = ((a - b) mod 2 ^ 256, a <? b);
  overflowing_mul_law a b : U256 a -> U256 b ->
    u_overflowing_mul a b = ((a * b) mod 2 ^ 256, 2 ^ 256 <=? a * b);
  overflowing_pow_law a b : U256 a -> U256 b ->
    fst (u_overflowing_pow a b) = a ^ b mod 2 ^ 256;
  saturating_add_law a b : U256 a -> U256 b ->
    u_saturating_add a b = Z.min (a + b) U256_MAX;
  saturating_sub_law a b : U256 a -> U256 b -> u_saturating_sub a b = Z.max (a - b) 0;
  checked_add_law a b : U256 a -> U256 b ->
    u_checked_add a b = if a + b <? 2 ^ 256 then Some (a + b) else None;
  add_law a b : U256 a -> U256 b ->
    u_add a b = if a + b <? 2 ^ 256 then Some (a + b) else None;
  sub_law a b : U256 a -> U256 b ->
    u_sub a b = if b <=? a then Some (a - b) else None;
  mul_law a b : U256 a -> U256 b ->
    u_mul a b = if a * b <? 2 ^ 256 then Some (a * b) else None;
  div_law a b : U256 a -> U256 b ->
    u_div a b = if b =? 0 then None else Some (a / b);
  rem_law a b : U256 a -> U256 b ->
    u_rem a b = if b =? 0 then None else Some (a mod b);
  full_mul_law a b : U256 a -> U256 b -> u_full_mul a b = a * b;
  u512_overflowing_add_law a b : uint 512 a -> uint 512 b ->
    u512_overflowing_add a b = ((a + b) mod 2 ^ 512, 2 ^ 512 <=? a + b);
  u512_div_mod_law a b : uint 512 a -> uint 512 b ->
    u512_div_mod a b = if b =? 0 then None else Some (a / b, a mod b);
  u512_try_into_law a : uint 512 a ->
    u512_try_into a = if a <? 2 ^ 256 then Some a else None;
  bits_law a : U256 a -> u_bits a = if a =? 0 then 0 else Z.log2 a + 1;
  bit_law a i : U256 a -> 0 <= i < 256 -> u_bit a i = Z.testbit a i;
  (** byte 0 is the least significant one *)
  byte_law a i : U256 a -> 0 <= i < 32 -> u_byte a i = (a / 256 ^ i) mod 256;
  and_law a b : U256 a -> U256 b -> u_and a b = Z.land a b;
  or_law a b : U256 a -> U256 b -> u_or a b = Z.lor a b;
  xor_law a b : U256 a -> U256 b -> u_xor a b = Z.lxor a b;
  not_law a : U256 a -> u_not a = U256_MAX - a;
  shl_law a n : U256 a -> uint 64 n -> u_shl a n = Z.shiftl a n mod 2 ^ 256;
  shr_law a n : U256 a -> uint 64 n -> u_shr a n = Z.shiftr a n;
  as_u64_law a : U256 a -> u_as_u64 a = if a <? 2 ^ 64 then Some a else None;
  as_usize_law a : U256 a -> u_as_usize a = if a <? 2 ^ 64 then Some a else None;
  to_big_endian_law a : U256 a -> u_to_big_endian a = to_be 32 a;
  from_big_endian_law l : bytes l ->
    u_from_big_endian l = if len l <=? 32 then Some (from_be l) else None;
}.

(** [sha3::Keccak256::digest]. *)
Class KeccakOps := { keccak_digest : list Z -> list Z }.
Class KeccakLaws `{KeccakOps} : Prop := {
  keccak_length l : length (keccak_digest l) = 32%nat;
  keccak_bytes l : bytes (keccak_digest l);
}.

(** crates/crypto/src/lib.rs: [keccak256] and [keccak256_concat].  An [H256]
    is its 32 bytes. *)
Definition keccak256 `{KeccakOps} (data : list Z) : list Z := keccak_digest data.
Definition keccak256_concat `{KeccakOps} (data : list (list Z)) : list Z :=
  keccak_digest (mjoin data).

(** * A concrete [U256] *)

#[export] Instance U256_model : U256Ops := {|
  u_overflowing_add a b := ((a + b) mod 2 ^ 256, 2 ^ 256 <=? a + b);
  u_overflowing_sub a b := ((a - b) mod 2 ^ 256, a <? b);
  u_overflowing_mul a b := ((a * b) mod 2 ^ 256, 2 ^ 256 <=? a * b);
  u_overflowing_pow a b :=
    (Zpow_mod a b (2 ^ 256),
     if a <=? 1 then false else if 256 <=? b then true else 2 ^ 256 <=? a ^ b);
  u_saturating_add a b := Z.min (a + b) U256_MAX;
  u_saturating_sub a b := Z.max (a - b) 0;
  u_checked_add a b := if a + b <? 2 ^ 256 then Some (a + b) else None;
  u_add a b := if a + b <? 2 ^ 256 then Some (a + b) else None;
  u_sub a b := if b <=? a then Some (a - b) else None;
  u_mul a b := if a * b <? 2 ^ 256 then Some (a * b) else None;
  u_div a b := if b =? 0 then None else Some (a / b);
  u_rem a b := if b =? 0 then None else Some (a mod b);
  u_full_mul a b := a * b;
  u512_overflowing_add a b := ((a + b) mod 2 ^ 512, 2 ^ 512 <=? a + b);
  u512_div_mod a b := if b =? 0 then None else Some (a / b, a mod b);
  u512_try_into a := if a <? 2 ^ 256 then Some a else None;
  u_bits a := if a =? 0 then 0 else Z.log2 a + 1;
  u_bit a i := Z.testbit a i;
  u_byte a i := (a / 256 ^ i) mod 256;
  u_and := Z.land;
  u_or := Z.lor;
  u_xor := Z.lxor;
  u_not a := U256_MAX - a;
  u_shl a n := if n <? 256 then Z.shiftl a n mod 2 ^ 256 else 0;
  u_shr a n := if n <? 256 then Z.shiftr a n else 0;
  u_as_u64 a := if a <? 2 ^ 64 then Some a else None;
  u_as_usize a := if a <? 2 ^ 64 then Some a else None;
  u_to_big_endian a := to_be 32 a;
  u_from_big_endian l := if len l <=? 32 then Some (from_be l) else None;
|}.

#[export] Instance U256_model_laws : U256Laws.
Proof.
  split; simpl; auto.
  - intros a b Ha Hb. rewrite Zpow_mod_correct; [done|].
    intros H. discriminate H.
  - intros a n Ha Hn. case_bool; [done|].
    rewrite Z.shiftl_mul_pow2 by (unfold uint in Hn; lia).
    replace n with (256 + (n - 256)) by lia. rewrite Z.pow_add_r by lia.
    rewrite (Z.mul_comm (2 ^ 256)), Z.mul_assoc. symmetry. apply Z_mod_mult.
  - intros a n Ha Hn. case_bool; [done|]. symmetry.
    rewrite Z.shiftr_div_pow2 by lia. apply Z.div_small. unfold uint in Ha.
    split; [lia|]. apply Z.lt_le_trans with (2 ^ 256); [lia|].
    apply Z.pow_le_mono_r; lia.
Qed.

(** A stand-in digest with the documented output shape. *)
#[export] Instance keccak_model : KeccakOps := {|
  keccak_digest l := to_be 32 (from_be l * 2 + 1)
|}.

#[export] Instance keccak_model_laws : KeccakLaws.
Proof. split; intros; [apply length_to_be|apply bytes_to_be]. Qed.

(** [U256::to_be_bytes::<32>], which the [U256] of crates/types does not have;
    the name is the one of the ruint crate, whose documentation gives the law. *)
Class ToBeBytes := { u_to_be_bytes32 : Z -> list Z }.
Class ToBeBytesLaws `{ToBeBytes} : Prop := {
  to_be_bytes32_law a : U256 a -> u_to_be_bytes32 a = to_be 32 a
}.
#[export] Instance to_be_bytes_model : ToBeBytes := {| u_to_be_bytes32 := to_be 32 |}.
#[export] Instance to_be_bytes_model_laws : ToBeBytesLaws.
Proof. by split. Qed.

(** * Consequences of the laws *)

Section laws.
Context `{U256Laws}.

(** Every operation whose result is a [U256] stays in range. *)
Lemma wrap_in_range x : U256 (x mod 2 ^ 256).
Proof. apply Z.mod_pos_bound. lia. Qed.

Lemma bitop_in_range (f : Z -> Z -> Z) (g : bool -> bool -> bool) a b :
  (forall a b, 0 <= a -> 0 <= b -> 0 <= f a b) ->
  (forall a b i, Z.testbit (f a b) i = g (Z.testbit a i) (Z.testbit b i)) ->
  g false false = false -> U256 a -> U256 b -> U256 (f a b).
Proof.
  intros Hnn Hbit Hg Ha Hb. unfold uint in *.
  assert (Hpos : 0 <= f a b) by (apply Hnn; lia). split; [done|].
  destruct (Z.eq_dec (f a b) 0) as [->|Hnz]; [lia|].
  apply Z.log2_lt_pow2; [lia|]. apply Z.nle_gt. intros Hlog.
  assert (Hhi : forall x, 0 <= x < 2 ^ 256 -> Z.testbit x (Z.log2 (f a b)) = false).
  { intros x Hx. destruct (Z.eq_dec x 0) as [->|]; [apply Z.testbit_0_l|].
    apply Z.bits_above_log2; [lia|].
    apply Z.lt_le_trans with 256; [apply Z.log2_lt_pow2; lia|lia]. }
  assert (Ht : Z.testbit (f a b) (Z.log2 (f a b)) = true) by (apply Z.bit_log2; lia).
  rewrite Hbit, (Hhi a), (Hhi b), Hg in Ht by lia. discriminate.
Qed.

Lemma land_in_range a b : U256 a -> U256 b -> U256 (Z.land a b).
Proof.
  apply (bitop_in_range _ andb); [|apply Z.land_spec|done].
  intros; apply Z.land_nonneg; auto.
Qed.
Lemma lor_in_range a b : U256 a -> U256 b -> U256 (Z.lor a b).
Proof.
  apply (bitop_in_range _ orb); [|apply Z.lor_spec|done].
  intros; apply Z.lor_nonneg; auto.
Qed.
Lemma lxor_in_range a b : U256 a -> U256 b -> U256 (Z.lxor a b).
Proof.
  apply (bitop_in_range _ xorb); [|apply Z.lxor_spec|done].
  intros; apply Z.lxor_nonneg; tauto.
Qed.
Lemma shiftr_in_range a n : 0 <= n -> U256 a -> U256 (Z.shiftr a n).
Proof.
  unfold uint. intros Hn Ha. rewrite Z.shiftr_div_pow2 by lia.
  assert (0 < 2 ^ n) by (apply Z.pow_pos_nonneg; lia).
  split; [apply Z.div_pos; lia|]. apply Z.div_lt_upper_bound; nia.
Qed.
Lemma from_be_in_range l : bytes l -> len l <= 32 -> U256 (from_be l).
Proof.
  intros Hl Hlen. pose proof (from_be_bound l Hl). unfold uint. split; [lia|].
  apply Z.lt_le_trans with (256 ^ len l); [lia|].
  change (2 ^ 256) with (256 ^ 32). apply Z.pow_le_mono_r; lia.
Qed.
End laws.

#[export] Hint Resolve wrap_in_range land_in_range lor_in_range lxor_in_range : rust.
