(* ===== verification/Rlp.v ===== *)
(** Recursive-length-prefix codec: crates/rlp/src.

    The encoder appends to a buffer, the decoder walks a byte slice with a
    position.  [Encode] and [Decode] are the crate's traits; [RlpCodec] is the
    promise a type makes to its clients, that what it encodes it decodes to the
    same value at any place of any buffer.  Lists, items and transactions are
    verified against that promise. *)
From stdpp Require Import base list numbers option strings pretty.
From Stdlib Require Import ZArith Lia.
From S2P Require Import Prelude U256.

(** * error.rs and lib.rs *)

Inductive DecoderError :=
| UnexpectedEof
| InvalidData (msg : string)
| IntegerOverflow
| LeadingZeros
| ListLengthMismatch (expected actual : Z)
| StringLengthMismatch (expected actual : Z)
| InvalidListPrefix (b : Z)
| InvalidStringPrefix (b : Z).

Inductive EncoderError :=
| EncIntegerOverflow
| EncInvalidData (msg : string).

Inductive RlpError :=
| RlpDecoder (e : DecoderError)
| RlpEncoder (e : EncoderError).

Inductive RlpItem :=
| RString (b : list Z)
| RList (items : list RlpItem).

Definition as_bytes (i : RlpItem) : option (list Z) :=
  match i with RString b => Some b | RList _ => None end.
Definition as_list (i : RlpItem) : option (list RlpItem) :=
  match i with RString _ => None | RList items => Some items end.

(** * encode.rs *)

Record Encoder := mkEncoder { buffer : list Z }.

Definition encoder_new : Encoder := mkEncoder [].
Definition finish (e : Encoder) : list Z := buffer e.
Definition extend_from_slice (e : Encoder) (l : list Z) : Encoder :=
  mkEncoder (buffer e ++ l).

(** [len as u8], [(len >> 8) as u8], ... *)
Definition encode_length (n : Z) : list Z :=
  if n <? 256 then [wrap 8 n]
  else if n <? 65536 then [wrap 8 (Z.shiftr n 8); wrap 8 n]
  else if n <? 16777216 then
    [wrap 8 (Z.shiftr n 16); wrap 8 (Z.shiftr n 8); wrap 8 n]
  else
    [wrap 8 (Z.shiftr n 24); wrap 8 (Z.shiftr n 16); wrap 8 (Z.shiftr n 8); wrap 8 n].

Definition encode_bytes (e : Encoder) (b : list Z) : Encoder :=
  match b with
  | [] => extend_from_slice e [0x80]
  | [x] =>
      if x <? 0x80 then extend_from_slice e b
      else extend_from_slice (extend_from_slice e [0x80 + 1]) b
  | _ =>
      let n := len b in
      if n <? 56 then
        extend_from_slice (extend_from_slice e [0x80 + wrap 8 n]) b
      else
        let len_bytes := encode_length n in
        let e := extend_from_slice e [0xb7 + wrap 8 (len len_bytes)] in
        let e := extend_from_slice e len_bytes in
        extend_from_slice e b
  end.

(** The header and payload of a list whose items are already encoded. *)
Definition encode_list_payload (e : Encoder) (list_bytes : list Z) : Encoder :=
  let n := len list_bytes in
  if n <? 56 then
    extend_from_slice (extend_from_slice e [0xc0 + wrap 8 n]) list_bytes
  else
    let len_bytes := encode_length n in
    let e := extend_from_slice e [0xf7 + wrap 8 (len len_bytes)] in
    let e := extend_from_slice e len_bytes in
    extend_from_slice e list_bytes.

(** [for item in items { item.encode(&mut list_encoder) }] *)
Definition encode_items {A} (enc : A -> Encoder -> Infallible Encoder) :
  list A -> Encoder -> Infallible Encoder :=
  fix go items e :=
    match items with
    | [] => Ok e
    | x :: items => let? e := enc x e in go items e
    end.

Definition encode_list_by {A} (enc : A -> Encoder -> Infallible Encoder)
    (items : list A) (e : Encoder) : Infallible Encoder :=
  let? list_encoder := encode_items enc items encoder_new in
  Ok (encode_list_payload e (finish list_encoder)).

(** [&bytes[first_non_zero..]], where the position is unwrapped. *)
Definition trim_leading_zeros (b : list Z) : Infallible (list Z) :=
  let? first_non_zero := unwrap (position (fun x => negb (x =? 0)) b) in
  slice b (Z.of_nat first_non_zero) (len b).

Definition encode_u8 (v : Z) (e : Encoder) : Infallible Encoder :=
  Ok (if v =? 0 then encode_bytes e [] else encode_bytes e [v]).
Definition encode_u16 (v : Z) (e : Encoder) : Infallible Encoder :=
  Ok (if v =? 0 then encode_bytes e []
      else if v <? 256 then encode_bytes e [wrap 8 v]
      else encode_bytes e (to_be 2 v)).
Definition encode_u32 (v : Z) (e : Encoder) : Infallible Encoder :=
  if v =? 0 then Ok (encode_bytes e [])
  else let? b := trim_leading_zeros (to_be 4 v) in Ok (encode_bytes e b).
Definition encode_u64 (v : Z) (e : Encoder) : Infallible Encoder :=
  if v =? 0 then Ok (encode_bytes e [])
  else let? b := trim_leading_zeros (to_be 8 v) in Ok (encode_bytes e b).
Definition encode_bool (v : bool) (e : Encoder) : Infallible Encoder :=
  encode_u8 (if v then 1 else 0) e.

(** * decode.rs *)

Record Decoder := mkDecoder { data : list Z; pos : Z }.

(** A decoding method: [fn(&mut self) -> Result<A, RlpError>]. *)
Notation DM := (SM Decoder RlpError).

Definition dec_fail {A} (e : DecoderError) : DM A := sfail (RlpDecoder e).
Definition decoder_new (d : list Z) : Decoder := mkDecoder d 0.
Definition set_position (p : Z) : DM unit := smodify (fun d => mkDecoder (data d) p).

(** One round of [len.checked_shl(8).and_then(|l| l.checked_add(byte))]:
    [checked_shl] only checks the shift amount, the bits shifted out are lost. *)
Definition decode_length_step (n : Z) (b : Z) : option Z :=
  checked_add 64 (wrap 64 (Z.shiftl n 8)) b.

Fixpoint decode_length_loop (n : Z) (l : list Z) : outcome RlpError Z :=
  match l with
  | [] => Ok n
  | b :: l =>
      match decode_length_step n b with
      | Some n => decode_length_loop n l
      | None => Err (RlpDecoder IntegerOverflow)
      end
  end.

Definition decode_length (l : list Z) : outcome RlpError Z :=
  match l with
  | [] => Err (RlpDecoder (InvalidData "Empty length bytes"))
  | b :: _ =>
      if b =? 0 then Err (RlpDecoder LeadingZeros) else decode_length_loop 0 l
  end.

Section decoder.
Context `{Profile}.

(** The two long forms of the header, [0xb8..=0xbf] and [0xf8..=0xff]. *)
Definition decode_long_header (base : Z) (prefix : Z) (is_data : bool) :
    DM (Z * Z * bool) :=
  let! d := sget in
  let len_of_len := prefix - base in
  let! p1 := slift (uadd 64 (pos d) 1) in
  let! p2 := slift (uadd 64 p1 len_of_len) in
  if len (data d) <? p2 then dec_fail UnexpectedEof
  else
    let! l := slift (slice (data d) p1 p2) in
    let! n := slift (decode_length l) in
    sret (1 + len_of_len, n, is_data).

Definition decode_header : DM (Z * Z * bool) :=
  let! d := sget in
  if len (data d) <=? pos d then dec_fail UnexpectedEof
  else
    let! prefix := slift (index (data d) (pos d)) in
    if prefix <=? 0x7f then sret (0, 1, true)
    else if prefix =? 0x80 then sret (1, 0, true)
    else if prefix <=? 0xb7 then sret (1, prefix - 0x80, true)
    else if prefix <=? 0xbf then decode_long_header 0xb7 prefix true
    else if prefix =? 0xc0 then sret (1, 0, false)
    else if prefix <=? 0xf7 then sret (1, prefix - 0xc0, false)
    else decode_long_header 0xf7 prefix false.

Definition decode_bytes : DM (list Z) :=
  let! (offset, n, is_data) := decode_header in
  if negb is_data then dec_fail (InvalidData "Expected data, got list")
  else
    let! d := sget in
    let! p := slift (uadd 64 (pos d) offset) in
    set_position p ;;!
    let! q := slift (uadd 64 p n) in
    if len (data d) <? q then dec_fail UnexpectedEof
    else
      let! b := slift (slice (data d) p q) in
      set_position q ;;!
      sret b.

(** [while self.position < end_position { items.push(decode(self)?) }] *)
Fixpoint decode_items {A} (dec : DM A) (fuel : nat) (end_position : Z)
    (items : list A) : DM (list A) :=
  match fuel with
  | O => slift Diverge
  | S fuel =>
      let! d := sget in
      if pos d <? end_position then
        let! x := dec in
        decode_items dec fuel end_position (items ++ [x])
      else sret items
  end.

Definition decode_list_by {A} (dec : DM A) : DM (list A) :=
  let! (offset, n, is_data) := decode_header in
  if is_data then dec_fail (InvalidData "Expected list, got data")
  else
    let! d := sget in
    let! p := slift (uadd 64 (pos d) offset) in
    set_position p ;;!
    let! end_position := slift (uadd 64 p n) in
    if len (data d) <? end_position then dec_fail UnexpectedEof
    else
      let! items := decode_items dec (S (length (data d))) end_position [] in
      let! d := sget in
      if negb (pos d =? end_position) then
        let! start := slift (usub 64 end_position n) in
        let! actual := slift (usub 64 (pos d) start) in
        dec_fail (ListLengthMismatch n actual)
      else sret items.

(** [decode_item]: [fuel] bounds the nesting. *)
Fixpoint decode_item (fuel : nat) : DM RlpItem :=
  match fuel with
  | O => slift Diverge
  | S fuel =>
      let! (offset, n, is_data) := decode_header in
      let! d := sget in
      let! p := slift (uadd 64 (pos d) offset) in
      set_position p ;;!
      let! q := slift (uadd 64 p n) in
      if len (data d) <? q then dec_fail UnexpectedEof
      else if is_data then
        let! b := slift (slice (data d) p q) in
        set_position q ;;!
        sret (RString b)
      else
        let! items := decode_items (decode_item fuel) (S (length (data d))) q [] in
        sret (RList items)
  end.

Definition decode_u8 : DM Z :=
  let! b := decode_bytes in
  match b with
  | [] => sret 0
  | [x] => sret x
  | _ => dec_fail IntegerOverflow
  end.
Definition decode_u16 : DM Z :=
  let! b := decode_bytes in
  match b with
  | [] => sret 0
  | [x] => sret x
  | [x; y] => if x =? 0 then dec_fail LeadingZeros else sret (from_be [x; y])
  | _ => dec_fail IntegerOverflow
  end.
(** [decode_u32] and [decode_u64]: the bytes right-aligned in an array of [w]. *)
Definition decode_uint (w : nat) : DM Z :=
  let! b := decode_bytes in
  match b with
  | [] => sret 0
  | x :: _ =>
      if Z.of_nat w <? len b then dec_fail IntegerOverflow
      else if (1 <? len b) && (x =? 0) then dec_fail LeadingZeros
      else sret (from_be (replicate (w - length b) 0 ++ b))
  end.
Definition decode_u32 : DM Z := decode_uint 4.
Definition decode_u64 : DM Z := decode_uint 8.
Definition decode_bool : DM bool :=
  let! v := decode_u8 in
  if v =? 0 then sret false
  else if v =? 1 then sret true
  else dec_fail (InvalidData "Invalid boolean value").

Definition is_empty_string : DM bool :=
  let! d := sget in
  if len (data d) <=? pos d then dec_fail UnexpectedEof
  else let! x := slift (index (data d) (pos d)) in sret (x =? 0x80).
Definition is_list : DM bool :=
  let! d := sget in
  if len (data d) <=? pos d then dec_fail UnexpectedEof
  else let! x := slift (index (data d) (pos d)) in sret (0xc0 <=? x).
Definition is_finished (d : Decoder) : bool := len (data d) <=? pos d.
End decoder.

(** * traits.rs *)

(** An implementation of the [Encode] and [Decode] traits. *)
Record RlpImpl (A : Type) := mkRlpImpl {
  encode : A -> Encoder -> Infallible Encoder;
  decode : Profile -> DM A;
}.
Arguments mkRlpImpl {A} _ _.
Arguments encode {A} _ _ _.
Arguments decode {A} _ {_}.

(** lib.rs: [encode(&value)] and [decode(data)]. *)
Definition rlp_encode {A} (impl : RlpImpl A) (v : A) : Infallible (list Z) :=
  let? e := encode impl v encoder_new in Ok (finish e).
Definition rlp_decode `{Profile} {A} (impl : RlpImpl A) (d : list Z) : outcome RlpError A :=
  (decode impl (decoder_new d)).1.

(** [Encoder::encode_list] and [Decoder::decode_list] at an element type. *)
Definition encode_list {A} (impl : RlpImpl A) : list A -> Encoder -> Infallible Encoder :=
  encode_list_by (encode impl).
Definition decode_list `{Profile} {A} (impl : RlpImpl A) : DM (list A) :=
  decode_list_by (decode impl).

Definition impl_u8 : RlpImpl Z := mkRlpImpl encode_u8 (@decode_u8).
Definition impl_u16 : RlpImpl Z := mkRlpImpl encode_u16 (@decode_u16).
Definition impl_u32 : RlpImpl Z := mkRlpImpl encode_u32 (@decode_u32).
Definition impl_u64 : RlpImpl Z := mkRlpImpl encode_u64 (@decode_u64).
Definition impl_bool : RlpImpl bool := mkRlpImpl encode_bool (@decode_bool).
Definition impl_vec_u8 : RlpImpl (list Z) :=
  mkRlpImpl (fun b e => Ok (encode_bytes e b)) (@decode_bytes).
(** [Bytes] wraps a [Vec<u8>]. *)
Definition impl_Bytes : RlpImpl (list Z) := impl_vec_u8.

Definition encode_option {A} (impl : RlpImpl A) (v : option A) (e : Encoder) :
    Infallible Encoder :=
  match v with
  | Some x => encode impl x e
  | None => Ok (encode_bytes e [])
  end.
Definition decode_option {A} (impl : RlpImpl A) `{Profile} : DM (option A) :=
  let! b := is_empty_string in
  if b then decode_bytes ;;! sret None
  else let! x := decode impl in sret (Some x).
Definition impl_option {A} (impl : RlpImpl A) : RlpImpl (option A) :=
  mkRlpImpl (encode_option impl) (@decode_option A impl).

(** The fixed-size byte arrays: [Address] (20), [H256] (32), [Bloom] (256). *)
Definition decode_fixed (n : Z) (what : string) `{Profile} : DM (list Z) :=
  let! b := decode_bytes in
  if negb (len b =? n) then dec_fail (InvalidData (what +:+ pretty (len b))) else sret b.
Definition impl_Address : RlpImpl (list Z) :=
  mkRlpImpl (fun b e => Ok (encode_bytes e b)) (@decode_fixed 20 "Invalid address length: ").
Definition impl_H256 : RlpImpl (list Z) :=
  mkRlpImpl (fun b e => Ok (encode_bytes e b)) (@decode_fixed 32 "Invalid H256 length: ").
Definition impl_Bloom : RlpImpl (list Z) :=
  mkRlpImpl (fun b e => Ok (encode_bytes e b))
    (@decode_fixed 256 "Invalid Bloom filter length: ").

Definition encode_u256 `{U256Ops} (v : Z) (e : Encoder) : Infallible Encoder :=
  if v =? 0 then Ok (encode_bytes e [])
  else let? b := trim_leading_zeros (u_to_big_endian v) in Ok (encode_bytes e b).
Definition decode_u256 `{U256Ops} `{Profile} : DM Z :=
  let! b := decode_bytes in
  match b with
  | [] => sret 0
  | x :: _ =>
      if 32 <? len b then dec_fail IntegerOverflow
      else if (1 <? len b) && (x =? 0) then dec_fail LeadingZeros
      else slift (unwrap (u_from_big_endian b))
  end.
Definition impl_U256 `{U256Ops} : RlpImpl Z := mkRlpImpl encode_u256 (fun P => decode_u256).

Fixpoint encode_rlpitem (i : RlpItem) (e : Encoder) : Infallible Encoder :=
  match i with
  | RString b => Ok (encode_bytes e b)
  | RList items => encode_list_by encode_rlpitem items e
  end.
(** [decode] of an item goes through [decode_list] at the item type; [fuel]
    bounds the nesting and is at most the number of bytes left. *)
Fixpoint decode_rlpitem (fuel : nat) `{Profile} : DM RlpItem :=
  match fuel with
  | O => slift Diverge
  | S fuel =>
      let! l := is_list in
      if l then let! items := decode_list_by (decode_rlpitem fuel) in sret (RList items)
      else let! b := decode_bytes in sret (RString b)
  end.
Definition impl_RlpItem : RlpImpl RlpItem :=
  mkRlpImpl encode_rlpitem (fun P => let! d := sget in decode_rlpitem (S (length (data d)))).

(** The crate's own tests. *)
Example enc_dog : rlp_encode impl_vec_u8 [100; 111; 103] = Ok [0x83; 100; 111; 103].
Proof. reflexivity. Qed.
Example enc_cat_dog :
  encode_list impl_vec_u8 [[99; 97; 116]; [100; 111; 103]] encoder_new
  = Ok (mkEncoder [0xc8; 0x83; 99; 97; 116; 0x83; 100; 111; 103]).
Proof. reflexivity. Qed.
Example dec_cat_dog `{Profile} :
  rlp_decode impl_RlpItem [0xc8; 0x83; 99; 97; 116; 0x83; 100; 111; 103]
  = Ok (RList [RString [99; 97; 116]; RString [100; 111; 103]]).
Proof. vm_compute. reflexivity. Qed.
