(* ===== verification/RlpProofs.v ===== *)
(** Correctness of the RLP codec: headers, strings, integers, lists and items
    decode to what was encoded, at any place of any buffer; decoding any input
    terminates. *)
From stdpp Require Import base list numbers option strings pretty.
From Stdlib Require Import ZArith Lia.
From S2P Require Import Prelude U256 Rlp.

(** * What an encoder appends *)

Definition string_header (b : list Z) : list Z :=
  match b with
  | [x] => if x <? 0x80 then [] else [0x81]
  | _ =>
      if len b <? 56 then [0x80 + len b]
      else (0xb7 + len (encode_length (len b))) :: encode_length (len b)
  end.
Definition list_header (n : Z) : list Z :=
  if n <? 56 then [0xc0 + n] else (0xf7 + len (encode_length n)) :: encode_length n.

Lemma extend_extend e l k :
  extend_from_slice (extend_from_slice e l) k = extend_from_slice e (l ++ k).
Proof. unfold extend_from_slice; simpl. by rewrite app_assoc. Qed.

Lemma encode_length_len n : 0 <= n -> 1 <= len (encode_length n) <= 4.
Proof. intros. unfold encode_length, len. case_bool; lia. Qed.

Lemma wrap_small w x : 0 <= x < 2 ^ w -> wrap w x = x.
Proof. apply Z.mod_small. Qed.

Lemma encode_bytes_eq e b :
  encode_bytes e b = extend_from_slice e (string_header b ++ b).
Proof.
  unfold encode_bytes, string_header.
  destruct b as [|x [|y b]]; simpl; [done|by case_bool; rewrite ?extend_extend|].
  pose proof (len_nonneg (x :: y :: b)).
  pose proof (encode_length_len (len (x :: y :: b))).
  case_bool; rewrite ?extend_extend, wrap_small by lia; simpl; rewrite ?app_assoc; done.
Qed.

Lemma encode_list_payload_eq e p :
  encode_list_payload e p = extend_from_slice e (list_header (len p) ++ p).
Proof.
  unfold encode_list_payload, list_header. pose proof (len_nonneg p).
  pose proof (encode_length_len (len p)).
  case_bool; rewrite ?extend_extend, wrap_small by lia; simpl; rewrite ?app_assoc; done.
Qed.

(** * The length prefix *)

Lemma encode_length_bytes n : bytes (encode_length n).
Proof.
  unfold encode_length, wrap, bytes, byte.
  case_bool; repeat constructor; apply Z.mod_pos_bound; lia.
Qed.

Lemma encode_length_spec n : 0 < n < 2 ^ 32 ->
  from_be (encode_length n) = n /\ exists b l, encode_length n = b :: l /\ b <> 0.
Proof.
  intros Hn. unfold encode_length, wrap, from_be. rewrite !Z.shiftr_div_pow2 by lia.
  change (2 ^ 8) with 256. change (2 ^ 16) with 65536. change (2 ^ 24) with 16777216.
  change (2 ^ 32) with 4294967296 in Hn.
  case_bool; simpl; (split; [zlia|eexists _, _; split; [done|zlia]]).
Qed.

Lemma decode_length_loop_spec l n :
  bytes l -> 0 <= n -> n * 256 ^ len l + from_be l < 2 ^ 64 ->
  decode_length_loop n l = Ok (n * 256 ^ len l + from_be l).
Proof.
  revert n. induction l as [|b l IH]; intros n Hl Hn Hlt.
  - simpl. rewrite len_nil. f_equal. unfold from_be. simpl. lia.
  - inversion Hl as [|? ? Hb Hl']; subst. rewrite from_be_cons, len_cons in *.
    pose proof (from_be_bound l Hl'). unfold byte in Hb.
    assert (1 <= 256 ^ len l) by (apply (Z.pow_le_mono_r 256 0); auto using len_nonneg; lia).
    rewrite Z.pow_add_r in * by (auto using len_nonneg; lia).
    simpl. unfold decode_length_step, checked_add.
    rewrite Z.shiftl_mul_pow2, wrap_small by nia.
    rewrite (proj2 (Z.ltb_lt _ _)) by nia.
    rewrite IH by (auto; nia). f_equal. ring.
Qed.

Lemma decode_length_spec b l :
  bytes (b :: l) -> b <> 0 -> len (b :: l) <= 8 ->
  decode_length (b :: l) = Ok (from_be (b :: l)).
Proof.
  intros Hl Hb Hlen. unfold decode_length.
  rewrite (proj2 (Z.eqb_neq b 0)) by done.
  rewrite decode_length_loop_spec; [f_equal; lia|done|lia|].
  pose proof (from_be_bound _ Hl).
  assert (256 ^ len (b :: l) <= 256 ^ 8) by (apply Z.pow_le_mono_r; lia). lia.
Qed.

(** * Headers *)

(** A decoder standing in front of [bs], and the same decoder past it. *)
Definition before (pre bs post : list Z) : Decoder := mkDecoder (pre ++ bs ++ post) (len pre).
Definition after (pre bs post : list Z) : Decoder :=
  mkDecoder (pre ++ bs ++ post) (len pre + len bs).

Section headers.
Context `{Profile}.

Lemma uadd_ok {E} a b : 0 <= a -> 0 <= b -> a + b <= isize_max ->
  uadd (E := E) 64 a b = Ok (a + b).
Proof. intros. apply checked_arith_ok. unfold uint, isize_max in *. lia. Qed.

(** The first step of [decode_header], in front of a byte. *)
Lemma decode_header_first pre x post :
  decode_header (mkDecoder (pre ++ x :: post) (len pre)) =
  (if x <=? 0x7f then sret (0, 1, true)
   else if x =? 0x80 then sret (1, 0, true)
   else if x <=? 0xb7 then sret (1, x - 0x80, true)
   else if x <=? 0xbf then decode_long_header 0xb7 x true
   else if x =? 0xc0 then sret (1, 0, false)
   else if x <=? 0xf7 then sret (1, x - 0xc0, false)
   else decode_long_header 0xf7 x false) (mkDecoder (pre ++ x :: post) (len pre)).
Proof.
  unfold decode_header, sbind, sget, slift; simpl. rewrite index_mid.
  rewrite (proj2 (Z.leb_gt _ _)); [done|].
  rewrite len_app, len_cons. pose proof (len_nonneg post). lia.
Qed.

Lemma decode_long_header_spec base n is_data pre post :
  0 < n < 2 ^ 32 -> let h := (base + len (encode_length n)) :: encode_length n in
  len (pre ++ h ++ post) <= isize_max ->
  decode_long_header base (base + len (encode_length n)) is_data (before pre h post)
  = (Ok (len h, n, is_data), before pre h post).
Proof.
  intros Hn h Hsz. subst h. destruct (encode_length_spec n Hn) as (Hbe & b & l & Hbl & Hb).
  pose proof (encode_length_len n) as Hll. autorewrite with rust in Hsz.
  pose proof (len_nonneg pre). pose proof (len_nonneg post). pose proof (len_nonneg (encode_length n)).
  unfold decode_long_header, before, sbind, sget, slift; simpl.
  rewrite !uadd_ok by lia. autorewrite with rust. rewrite (proj2 (Z.ltb_ge _ _)) by lia.
  replace (len pre + 1) with (len (pre ++ [base + len (encode_length n)]))
    by (autorewrite with rust; lia).
  replace (base + len (encode_length n) - base) with (len (encode_length n)) by lia.
  replace (pre ++ base + len (encode_length n) :: encode_length n ++ post)
    with ((pre ++ [base + len (encode_length n)]) ++ encode_length n ++ post)
    by (by rewrite <- app_assoc).
  rewrite slice_mid. rewrite Hbl at 1. rewrite decode_length_spec; [|rewrite <- Hbl; apply encode_length_bytes|done|rewrite <- Hbl; lia].
  rewrite <- Hbl, Hbe. done.
Qed.

Lemma decode_header_string b pre post :
  bytes b -> len b < 2 ^ 32 ->
  len (pre ++ string_header b ++ b ++ post) <= isize_max ->
  decode_header (mkDecoder (pre ++ string_header b ++ b ++ post) (len pre))
  = (Ok (len (string_header b), len b, true),
     mkDecoder (pre ++ string_header b ++ b ++ post) (len pre)).
Proof.
  intros Hb Hlen Hsz. pose proof (len_nonneg b).
  assert (Hgen : len b <> 1 ->
    let h := if len b <? 56 then [0x80 + len b]
             else (0xb7 + len (encode_length (len b))) :: encode_length (len b) in
    len (pre ++ h ++ b ++ post) <= isize_max ->
    decode_header (mkDecoder (pre ++ h ++ b ++ post) (len pre))
    = (Ok (len h, len b, true), mkDecoder (pre ++ h ++ b ++ post) (len pre))).
  { clear Hsz. intros H1 h Hsz. subst h. destruct (Z.ltb_spec (len b) 56).
    - simpl. rewrite decode_header_first. case_bool; try lia; unfold sret; repeat f_equal; lia.
    - pose proof (encode_length_len (len b)). simpl. rewrite decode_header_first.
      case_bool; try lia. by apply (decode_long_header_spec 0xb7 (len b) true pre (b ++ post)); [lia|]. }
  destruct b as [|x [|y b]]; [by apply Hgen| |apply Hgen; [rewrite !len_cons; pose proof (len_nonneg b); lia|done]].
  apply Forall_cons in Hb as [Hx _]. unfold byte in Hx. unfold string_header in *.
  destruct (Z.ltb_spec x 0x80); simpl; rewrite decode_header_first; case_bool; try lia; done.
Qed.

Lemma decode_header_list n pre post :
  0 <= n < 2 ^ 32 -> len (pre ++ list_header n ++ post) <= isize_max ->
  decode_header (before pre (list_header n) post)
  = (Ok (len (list_header n), n, false), before pre (list_header n) post).
Proof.
  intros Hn Hsz. unfold list_header, before in *. destruct (Z.ltb_spec n 56); simpl in *.
  - rewrite decode_header_first. case_bool; try lia; unfold sret; repeat f_equal; lia.
  - pose proof (encode_length_len n). rewrite decode_header_first. case_bool; try lia.
    by apply (decode_long_header_spec 0xf7 n false); [lia|].
Qed.
End headers.

(** * The promise of a codec *)

Definition parses {A} (dec : DM A) (bs : list Z) (a : A) : Prop :=
  forall pre post, len (pre ++ bs ++ post) <= isize_max ->
  dec (before pre bs post) = (Ok a, after pre bs post).

(** What [impl] encodes, it decodes to the same value, at any place of any
    buffer and in either build profile; [wf] are the values it promises this
    for. *)
Class RlpCodec {A} (impl : RlpImpl A) (wf : A -> Prop) : Prop := {
  codec_roundtrip a : wf a -> exists bs,
    (forall e, encode impl a e = Ok (extend_from_slice e bs)) /\
    bs <> [] /\ bytes bs /\ forall P : Profile, parses (decode impl) bs a
}.

Section strings.
Context `{Profile}.

Lemma decode_bytes_parses b : bytes b -> len b < 2 ^ 32 ->
  parses decode_bytes (string_header b ++ b) b.
Proof.
  intros Hb Hlen pre post Hsz. unfold decode_bytes, sbind, before, after in *.
  rewrite <- !app_assoc in *. rewrite decode_header_string by done. simpl.
  unfold slift, set_position, smodify. simpl. autorewrite with rust in *.
  pose proof (len_nonneg pre). pose proof (len_nonneg post). pose proof (len_nonneg b).
  pose proof (len_nonneg (string_header b)).
  rewrite !uadd_ok by lia. simpl.
  rewrite (proj2 (Z.ltb_ge _ _)) by lia.
  rewrite (app_assoc pre). replace (len pre + len (string_header b))
    with (len (pre ++ string_header b)) by (autorewrite with rust; lia).
  rewrite slice_mid. unfold sret. do 2 f_equal. autorewrite with rust. lia.
Qed.

(** The encodings of a decoding function that post-processes the bytes. *)
Lemma decode_bytes_map {A} (k : list Z -> DM A) b a :
  bytes b -> len b < 2 ^ 32 -> (forall d, k b d = (Ok a, d)) ->
  parses (sbind decode_bytes k) (string_header b ++ b) a.
Proof.
  intros Hb Hlen Hk pre post Hsz. erewrite sbind_ok; [|by apply decode_bytes_parses].
  apply Hk.
Qed.
End strings.

Lemma string_header_bytes b : len b < 2 ^ 32 -> bytes (string_header b).
Proof.
  intros Hlen. unfold string_header.
  assert (Hg : bytes (if len b <? 56 then [0x80 + len b]
    else (0xb7 + len (encode_length (len b))) :: encode_length (len b))).
  { pose proof (len_nonneg b). pose proof (encode_length_len (len b)).
    case_bool; repeat constructor; unfold byte; try lia. apply encode_length_bytes. }
  destruct b as [|x [|y b]]; auto. case_bool; repeat constructor; unfold byte; lia.
Qed.

Lemma string_not_nil b : string_header b ++ b <> [].
Proof.
  unfold string_header. destruct b as [|x [|y b]]; [done|by case_bool|].
  case_bool; discriminate.
Qed.

(** Every codec below encodes a value as a string. *)
Lemma string_codec {A} (impl : RlpImpl A) (wf : A -> Prop) (f : A -> list Z) :
  (forall a e, wf a -> encode impl a e = Ok (encode_bytes e (f a))) ->
  (forall a, wf a -> bytes (f a) /\ len (f a) < 2 ^ 32) ->
  (forall a (P : Profile), wf a -> exists k, (forall d, decode impl d = sbind decode_bytes k d) /\ forall d, k (f a) d = (Ok a, d)) ->
  RlpCodec impl wf.
Proof.
  intros Henc Hf Hdec. split. intros a Ha. destruct (Hf a Ha) as [Hb Hl].
  exists (string_header (f a) ++ f a). split_and!.
  - intros e. rewrite Henc by done. by rewrite encode_bytes_eq.
  - apply string_not_nil.
  - apply bytes_app. auto using string_header_bytes.
  - intros P. destruct (Hdec a P Ha) as (k & Hd & Hk).
    intros pre post Hsz. rewrite Hd. by apply (decode_bytes_map k (f a)).
Qed.

Definition wf_vec (b : list Z) : Prop := bytes b /\ len b < 2 ^ 32.
Definition wf_fixed (n : Z) (b : list Z) : Prop := bytes b /\ len b = n.

Lemma sbind_ret_r {S E A} (m : SM S E A) s : sbind m sret s = m s.
Proof. unfold sbind, sret. by destruct (m s) as [[] ?]. Qed.

#[export] Instance vec_codec : RlpCodec impl_vec_u8 wf_vec.
Proof.
  split. intros b [Hb Hl]. exists (string_header b ++ b). split_and!.
  - intros e. simpl. by rewrite encode_bytes_eq.
  - apply string_not_nil.
  - apply bytes_app. auto using string_header_bytes.
  - intros P. by apply decode_bytes_parses.
Qed.

Lemma fixed_codec n what :
  0 <= n < 2 ^ 32 ->
  RlpCodec (mkRlpImpl (fun b e => Ok (encode_bytes e b)) (@decode_fixed n what)) (wf_fixed n).
Proof.
  intros Hn. apply (string_codec _ _ id); [done| |].
  - intros b [Hb Hl]. unfold id. split; [done|lia].
  - intros b P [Hb Hl]. eexists. split; [done|]. intros d. cbn. unfold id.
    rewrite Hl, Z.eqb_refl. done.
Qed.
#[export] Instance Address_codec : RlpCodec impl_Address (wf_fixed 20).
Proof. by apply fixed_codec. Qed.
#[export] Instance H256_codec : RlpCodec impl_H256 (wf_fixed 32).
Proof. by apply fixed_codec. Qed.
#[export] Instance Bloom_codec : RlpCodec impl_Bloom (wf_fixed 256).
Proof. by apply fixed_codec. Qed.

(** * Integers *)

(** The minimal big-endian form of an integer of [w] bytes. *)
Definition minimal_be (w : nat) (v : Z) : list Z :=
  if v =? 0 then []
  else match position (fun x => negb (x =? 0)) (to_be w v) with
       | Some i => drop i (to_be w v)
       | None => []
       end.

Lemma minimal_be_spec w v : 0 <= v < 256 ^ Z.of_nat w ->
  bytes (minimal_be w v) /\ len (minimal_be w v) <= Z.of_nat w /\
  from_be (minimal_be w v) = v /\
  (v = 0 /\ minimal_be w v = [] \/
   exists b l, minimal_be w v = b :: l /\ b <> 0 /\
     trim_leading_zeros (to_be w v) = Ok (minimal_be w v)).
Proof.
  intros Hv. unfold minimal_be. destruct (Z.eqb_spec v 0) as [->|Hnz].
  { split_and!; [constructor|rewrite len_nil; lia|done|by left]. }
  assert (Hbe : from_be (to_be w v) = v) by (rewrite from_be_to_be; by apply Z.mod_small).
  destruct (position_nonzero_is_some (to_be w v)) as [i Hi]; [by rewrite Hbe|].
  rewrite Hi. destruct (position_nonzero _ _ Hi) as (b & Hd & Hb & Hl).
  split_and!; auto with rust.
  - unfold len. rewrite length_drop, length_to_be. lia.
  - transitivity (from_be (to_be w v)); [|done]. rewrite Hl at 2. by rewrite from_be_drop_zeros.
  - right. exists b, (drop (S i) (to_be w v)). split_and!; [done|done|].
    unfold trim_leading_zeros. rewrite Hi. simpl. unfold slice.
    assert (i <= length (to_be w v))%nat by
      (destruct (decide (i <= length (to_be w v))%nat); [done|];
       rewrite drop_ge in Hd by lia; discriminate).
    rewrite !(proj2 (Z.leb_le _ _)) by (unfold len; lia). simpl. f_equal.
    rewrite Nat2Z.id, take_ge; [done|]. rewrite length_drop. unfold len. lia.
Qed.

Lemma decode_uint_parses (w : nat) v `{Profile} :
  0 <= v < 256 ^ Z.of_nat w -> Z.of_nat w < 2 ^ 32 ->
  exists k, (forall d, decode_uint w d = sbind decode_bytes k d) /\ forall d, k (minimal_be w v) d = (Ok v, d).
Proof.
  intros Hv Hw. destruct (minimal_be_spec w v Hv) as (Hb & Hl & Hbe & Hcase).
  eexists. split; [done|]. intros d.
  destruct Hcase as [[-> ->]|(b & l & Hbl & Hnz & _)]; [done|].
  rewrite Hbl in *. simpl. rewrite (proj2 (Z.ltb_ge _ _)) by lia.
  rewrite (proj2 (Z.eqb_neq b 0)), andb_false_r by done.
  unfold sret. rewrite from_be_drop_zeros. by rewrite Hbe.
Qed.

Lemma uint_codec (w : nat) (impl : RlpImpl Z) :
  Z.of_nat w < 2 ^ 32 ->
  (forall v e, 0 <= v < 256 ^ Z.of_nat w ->
    encode impl v e = if v =? 0 then Ok (encode_bytes e [])
      else let? b := trim_leading_zeros (to_be w v) in Ok (encode_bytes e b)) ->
  (forall v (P : Profile), 0 <= v < 256 ^ Z.of_nat w ->
    exists k, (forall d, decode impl d = sbind decode_bytes k d) /\ forall d, k (minimal_be w v) d = (Ok v, d)) ->
  RlpCodec impl (fun v => 0 <= v < 256 ^ Z.of_nat w).
Proof.
  intros Hw Henc Hdec. apply (string_codec _ _ (minimal_be w)); [| |done].
  - intros v e Hv. rewrite Henc by done.
    destruct (minimal_be_spec w v Hv) as (_ & _ & _ & [[-> ->]|(b & l & Hbl & Hnz & ->)]); [done|].
    destruct (Z.eqb_spec v 0) as [->|]; [discriminate|done].
  - intros v Hv. destruct (minimal_be_spec w v Hv) as (Hb & Hl & _). split; [done|lia].
Qed.

#[export] Instance u32_codec : RlpCodec impl_u32 (uint 32).
Proof. apply (uint_codec 4); [done|done|]. intros; by apply decode_uint_parses. Qed.
#[export] Instance u64_codec : RlpCodec impl_u64 (uint 64).
Proof. apply (uint_codec 8); [done|done|]. intros; by apply decode_uint_parses. Qed.

#[export] Instance u8_codec : RlpCodec impl_u8 (uint 8).
Proof.
  apply (string_codec _ _ (fun v => if v =? 0 then [] else [v])); unfold uint.
  - intros v e _. simpl. unfold encode_u8. by case_bool.
  - intros v Hv. case_bool; (split; [repeat constructor; unfold byte; lia|done]).
  - intros v P Hv. eexists. split; [done|]. intros d. by case_bool; subst.
Qed.

#[export] Instance u16_codec : RlpCodec impl_u16 (uint 16).
Proof.
  apply (string_codec _ _ (fun v => if v =? 0 then [] else if v <? 256 then [v] else to_be 2 v)); unfold uint.
  - intros v e Hv. simpl. unfold encode_u16. destruct (Z.eqb_spec v 0); [done|].
    destruct (Z.ltb_spec v 256); [|done]. by rewrite wrap_small by lia.
  - intros v Hv. destruct (Z.eqb_spec v 0); [split; [constructor|done]|].
    destruct (Z.ltb_spec v 256); (split; [|done]); [|apply bytes_to_be].
    repeat constructor; unfold byte; lia.
  - intros v P Hv. eexists. split; [done|]. intros d.
    destruct (Z.eqb_spec v 0) as [->|]; [done|]. destruct (Z.ltb_spec v 256); [done|].
    change (2 ^ 16) with 65536 in Hv. cbn [to_be Z.of_nat].
    change (256 ^ Z.pos _) with 256. change (256 ^ 0) with 1.
    rewrite (proj2 (Z.eqb_neq _ _)) by zlia.
    unfold sret, from_be. simpl. repeat f_equal. zlia.
Qed.

#[export] Instance bool_codec : RlpCodec impl_bool (fun _ => True).
Proof.
  apply (string_codec _ _ (fun v : bool => if v then [1] else [])).
  - by intros [] e.
  - intros [] _; (split; [repeat constructor; unfold byte; lia|done]).
  - intros v P _. eexists. split; [intros d; apply sbind_assoc|]. by destruct v.
Qed.

#[export] Instance u256_codec `{U256Laws} : RlpCodec impl_U256 (uint 256).
Proof.
  apply (uint_codec 32); [done| |].
  - intros v e Hv. simpl. unfold encode_u256. by rewrite to_big_endian_law.
  - intros v P Hv. destruct (minimal_be_spec 32 v Hv) as (Hb & Hl & Hbe & Hcase).
    eexists. split; [done|]. intros d.
    destruct Hcase as [[-> ->]|(b & l & Hbl & Hnz & _)]; [done|].
    rewrite Hbl in *. simpl. rewrite (proj2 (Z.ltb_ge _ _)) by lia.
    rewrite (proj2 (Z.eqb_neq b 0)), andb_false_r by done.
    rewrite from_big_endian_law, (proj2 (Z.leb_le _ _)) by (done || lia).
    by rewrite Hbe.
Qed.

(** * Options, lists and items *)

(** [None] is the empty string, so [Some x] is only recovered when [x] does
    not encode as one. *)
Definition wf_option {A} (impl : RlpImpl A) (wf : A -> Prop) (o : option A) : Prop :=
  match o with
  | None => True
  | Some a => wf a /\ forall e, encode impl a encoder_new = Ok e -> head (buffer e) <> Some 0x80
  end.

Lemma peek_first `{Profile} {A} (f : Z -> A) pre x post :
  (let! d := sget in
   if len (data d) <=? pos d then dec_fail UnexpectedEof
   else let! x := slift (index (data d) (pos d)) in sret (f x))
    (mkDecoder (pre ++ x :: post) (len pre))
  = (Ok (f x), mkDecoder (pre ++ x :: post) (len pre)).
Proof.
  unfold sbind, sget, slift; simpl. rewrite index_mid.
  rewrite (proj2 (Z.leb_gt _ _)); [done|].
  rewrite len_app, len_cons. pose proof (len_nonneg post). lia.
Qed.

#[export] Instance option_codec {A} (impl : RlpImpl A) wf :
  RlpCodec impl wf -> RlpCodec (impl_option impl) (wf_option impl wf).
Proof.
  intros Hc. split. intros [a|] Ha.
  - destruct Ha as [Ha Hne]. destruct (codec_roundtrip a Ha) as (bs & Henc & Hnil & Hb & Hp).
    exists bs. split_and!; [done|done|done|]. intros P pre post Hsz. simpl.
    destruct bs as [|x bs]; [done|].
    unfold decode_option, before. simpl. erewrite sbind_ok; [|apply (peek_first (fun x => x =? 0x80))].
    rewrite (proj2 (Z.eqb_neq x 0x80)).
    + erewrite sbind_ok; [|by apply Hp]. done.
    + intros ->. apply (Hne (extend_from_slice encoder_new (0x80 :: bs))); [apply Henc|done].
  - exists [0x80]. split_and!; [done|done|repeat constructor; unfold byte; lia|].
    intros P pre post Hsz. simpl. unfold decode_option, before. simpl.
    erewrite sbind_ok; [|apply (peek_first (fun x => x =? 0x80))]. simpl.
    erewrite sbind_ok; [done|].
    apply (decode_bytes_parses []); [constructor|done|done].
Qed.

Definition good {A} (dec : DM A) (a : A) (bs : list Z) : Prop := bs <> [] /\ parses dec bs a.

Lemma before_app pre bs bs' post :
  before pre (bs ++ bs') post = before pre bs (bs' ++ post).
Proof. unfold before. by rewrite <- app_assoc. Qed.
Lemma after_before pre bs bs' post :
  after pre bs (bs' ++ post) = before (pre ++ bs) bs' post.
Proof. unfold before, after. by rewrite len_app, <- app_assoc. Qed.
Lemma after_after pre bs bs' post :
  after (pre ++ bs) bs' post = after pre (bs ++ bs') post.
Proof. unfold after. rewrite !len_app, <- !app_assoc. f_equal. lia. Qed.

Lemma decode_items_parses `{Profile} {A} (dec : DM A) l bss :
  Forall2 (good dec) l bss -> forall fuel pre post acc,
  (length l < fuel)%nat -> len (pre ++ concat bss ++ post) <= isize_max ->
  decode_items dec fuel (len pre + len (concat bss)) acc (before pre (concat bss) post)
  = (Ok (acc ++ l), after pre (concat bss) post).
Proof.
  induction 1 as [|a bs l bss [Hne Hp] _ IH]; intros fuel pre post acc Hf Hsz;
    (destruct fuel as [|fuel]; simpl in Hf; [lia|]); cbn [decode_items].
  - unfold sbind, sget, before, after; simpl. rewrite len_nil, Z.add_0_r, Z.ltb_irrefl.
    unfold sret. by rewrite app_nil_r.
  - cbn [concat] in *. unfold sbind at 1, sget.
    assert (0 < len bs) by (unfold len; destruct bs; simpl; [done|lia]).
    pose proof (len_nonneg (concat bss)).
    unfold before at 1; simpl. rewrite len_app, (proj2 (Z.ltb_lt _ _)) by lia.
    rewrite before_app. rewrite <- app_assoc in Hsz.
    erewrite sbind_ok; [|by apply Hp]. rewrite after_before, Z.add_assoc, <- len_app.
    rewrite IH; [|lia|by rewrite <- app_assoc]. by rewrite after_after, <- app_assoc.
Qed.

Lemma good_length {A} (dec : DM A) l bss :
  Forall2 (good dec) l bss -> (length l <= length (concat bss))%nat.
Proof.
  induction 1 as [|a bs l bss [Hne _] _ IH]; simpl; [lia|].
  rewrite length_app. destruct bs; simpl; [done|lia].
Qed.

#[local] Arguments decode_items : simpl never.

Lemma decode_list_by_parses `{Profile} {A} (dec : DM A) l bss :
  Forall2 (good dec) l bss -> len (concat bss) < 2 ^ 32 ->
  parses (decode_list_by dec) (list_header (len (concat bss)) ++ concat bss) l.
Proof.
  intros Hg Hlen pre post Hsz. unfold decode_list_by. set (p := concat bss) in *.
  rewrite before_app. pose proof (len_nonneg p).
  erewrite sbind_ok; [|apply decode_header_list; [lia|by rewrite <- app_assoc in Hsz]]. simpl.
  unfold sbind, sget, slift, set_position, smodify; simpl.
  autorewrite with rust in Hsz. pose proof (len_nonneg pre). pose proof (len_nonneg post).
  pose proof (len_nonneg (list_header (len p))).
  rewrite !uadd_ok by lia. simpl. autorewrite with rust. rewrite (proj2 (Z.ltb_ge _ _)) by lia.
  change (mkDecoder (pre ++ list_header (len p) ++ p ++ post) (len pre + len (list_header (len p))))
    with (after pre (list_header (len p)) (p ++ post)).
  rewrite after_before, <- len_app. change p with (concat bss).
  rewrite (decode_items_parses dec l bss Hg); fold p.
  - rewrite after_after. unfold after; simpl. rewrite !len_app, Z.add_assoc, Z.eqb_refl. done.
  - pose proof (good_length _ _ _ Hg) as Hgl. fold p in Hgl. rewrite !length_app. lia.
  - autorewrite with rust. lia.
Qed.

Definition impl_list {A} (impl : RlpImpl A) : RlpImpl (list A) :=
  mkRlpImpl (encode_list impl) (fun P => decode_list impl).

(** A list whose elements are promised and whose payload is below 2^32 bytes,
    the longest length [encode_length] can write. *)
Definition wf_list {A} (impl : RlpImpl A) (wf : A -> Prop) (l : list A) : Prop :=
  Forall wf l /\
  forall e, encode_items (encode impl) l encoder_new = Ok e -> len (buffer e) < 2 ^ 32.

Lemma list_header_bytes n : 0 <= n -> bytes (list_header n).
Proof.
  intros Hn. unfold list_header. pose proof (encode_length_len n).
  case_bool; repeat constructor; unfold byte; try lia. apply encode_length_bytes.
Qed.

Lemma encode_items_codec {A} (impl : RlpImpl A) wf l :
  RlpCodec impl wf -> Forall wf l -> exists bss,
    (forall e, encode_items (encode impl) l e = Ok (extend_from_slice e (concat bss))) /\
    bytes (concat bss) /\ forall P : Profile, Forall2 (good (decode impl)) l bss.
Proof.
  intros Hc. induction 1 as [|a l Ha _ (bss & IHe & IHb & IHp)].
  { exists []. split_and!; [|constructor|constructor].
    intros [b]. simpl. unfold extend_from_slice. simpl. by rewrite app_nil_r. }
  destruct (codec_roundtrip a Ha) as (bs & Henc & Hne & Hb & Hp).
  exists (bs :: bss). split_and!.
  - intros e. cbn [encode_items]. rewrite Henc. simpl. by rewrite IHe, extend_extend.
  - by apply bytes_app.
  - intros P. constructor; [|done]. by split.
Qed.

#[export] Instance list_codec {A} (impl : RlpImpl A) wf :
  RlpCodec impl wf -> RlpCodec (impl_list impl) (wf_list impl wf).
Proof.
  intros Hc. split. intros l [Hl Hsz].
  destruct (encode_items_codec impl wf l Hc Hl) as (bss & He & Hb & Hp).
  specialize (Hsz _ (He encoder_new)). simpl in Hsz.
  exists (list_header (len (concat bss)) ++ concat bss). split_and!.
  - intros e. simpl. unfold encode_list, encode_list_by. rewrite He. simpl.
    by rewrite encode_list_payload_eq.
  - unfold list_header. case_bool; discriminate.
  - apply bytes_app. auto using list_header_bytes, len_nonneg.
  - intros P. by apply decode_list_by_parses.
Qed.

(** ** Items *)

Section item_ind.
Variable P : RlpItem -> Prop.
Hypothesis Hstring : forall b, P (RString b).
Hypothesis Hlist : forall items, Forall P items -> P (RList items).
Fixpoint RlpItem_nested_ind (i : RlpItem) : P i :=
  match i with
  | RString b => Hstring b
  | RList items =>
      Hlist items ((fix go l : Forall P l :=
        match l with
        | [] => Forall_nil_2 P
        | x :: l => Forall_cons_2 P x l (RlpItem_nested_ind x) (go l)
        end) items)
  end.
End item_ind.

(** The encoding of an item, and the items whose strings and payloads are
    below 2^32 bytes. *)
Fixpoint item_bytes (i : RlpItem) : list Z :=
  match i with
  | RString b => string_header b ++ b
  | RList items =>
      let p := concat (map item_bytes items) in list_header (len p) ++ p
  end.
Fixpoint wf_item (i : RlpItem) : Prop :=
  match i with
  | RString b => wf_vec b
  | RList items =>
      len (concat (map item_bytes items)) < 2 ^ 32 /\
      (fix go l := match l with [] => True | x :: l => wf_item x /\ go l end) items
  end.

Lemma wf_item_list items :
  wf_item (RList items) <->
  len (concat (map item_bytes items)) < 2 ^ 32 /\ Forall wf_item items.
Proof.
  simpl. apply and_iff_compat_l. induction items as [|x l IH]; [done|].
  by rewrite Forall_cons, IH.
Qed.

Lemma encode_rlpitem_eq i e : encode_rlpitem i e = Ok (extend_from_slice e (item_bytes i)).
Proof.
  revert e. induction i as [b|items IH] using RlpItem_nested_ind; intros e; simpl.
  { by rewrite encode_bytes_eq. }
  unfold encode_list_by.
  assert (Hi : forall e, encode_items encode_rlpitem items e
    = Ok (extend_from_slice e (concat (map item_bytes items)))).
  { clear e. induction IH as [|x l Hx _ IHl]; intros e; simpl.
    - destruct e. unfold extend_from_slice. simpl. by rewrite app_nil_r.
    - rewrite Hx. simpl. by rewrite IHl, extend_extend. }
  rewrite Hi. simpl. by rewrite encode_list_payload_eq.
Qed.

Lemma item_bytes_not_nil i : item_bytes i <> [].
Proof.
  destruct i; simpl; [apply string_not_nil|]. unfold list_header. case_bool; discriminate.
Qed.

Lemma string_first_byte b : bytes b -> len b < 2 ^ 32 ->
  exists x l, string_header b ++ b = x :: l /\ x < 0xc0.
Proof.
  intros Hb Hl. pose proof (string_not_nil b) as Hne.
  pose proof (len_nonneg b). pose proof (encode_length_len (len b)).
  unfold string_header in *. destruct b as [|x [|y b]]; simpl in *;
    [by exists 0x80, []| |case_bool; eexists _, _; (split; [done|lia])].
  case_bool; eexists _, _; (split; [done|lia]).
Qed.

Lemma list_first_byte n : 0 <= n -> exists x l, list_header n = x :: l /\ 0xc0 <= x.
Proof.
  intros Hn. unfold list_header. pose proof (encode_length_len n).
  case_bool; eexists _, _; (split; [done|lia]).
Qed.

Lemma is_list_before `{Profile} pre bs post x l : bs = x :: l ->
  is_list (before pre bs post) = (Ok (0xc0 <=? x), before pre bs post).
Proof. intros ->. apply (peek_first (fun x => 0xc0 <=? x)). Qed.

Lemma item_bytes_le_payload i items :
  i ∈ items -> (length (item_bytes i) <= length (concat (map item_bytes items)))%nat.
Proof.
  induction 1 as [i l|i j l _ IH]; simpl; rewrite length_app; lia.
Qed.

Lemma decode_rlpitem_parses `{Profile} i : wf_item i ->
  forall fuel, (length (item_bytes i) <= fuel)%nat -> parses (decode_rlpitem fuel) (item_bytes i) i.
Proof.
  induction i as [b|items IH] using RlpItem_nested_ind; intros Hwf fuel Hf pre post Hsz.
  - destruct Hwf as [Hb Hl]. destruct (string_first_byte b Hb Hl) as (x & l & Hx & Hlt).
    destruct fuel as [|fuel]; [simpl in Hf; rewrite Hx in Hf; simpl in Hf; lia|].
    cbn [decode_rlpitem item_bytes] in *. erewrite sbind_ok; [|by eapply is_list_before].
    rewrite (proj2 (Z.leb_gt _ _)) by lia.
    erewrite sbind_ok; [|by apply decode_bytes_parses]. done.
  - apply wf_item_list in Hwf as [Hl Hwf]. cbn [item_bytes] in *.
    set (p := concat (map item_bytes items)) in *.
    destruct (list_first_byte (len p) (len_nonneg p)) as (x & l & Hx & Hge).
    rewrite Hx in Hf. simpl in Hf. rewrite length_app in Hf.
    destruct fuel as [|fuel]; [lia|]. cbn [decode_rlpitem].
    erewrite sbind_ok; [|eapply is_list_before; by rewrite Hx].
    rewrite (proj2 (Z.leb_le _ _)) by lia.
    erewrite sbind_ok; [|apply decode_list_by_parses; [|done|done]]; [done|].
    clear - IH Hwf Hf. assert (Hle : forall i, i ∈ items -> (length (item_bytes i) <= fuel)%nat).
    { intros i Hi. pose proof (item_bytes_le_payload i items Hi) as Hp. fold p in Hp. lia. }
    clear p Hf. induction items as [|i items IHi]; simpl; constructor.
    + apply Forall_cons in IH as [IH _], Hwf as [Hwf _]. split; [apply item_bytes_not_nil|].
      apply IH; [done|]. apply Hle. left.
    + apply Forall_cons in IH as [_ IH], Hwf as [_ Hwf]. apply IHi; [done|done|].
      intros j Hj. apply Hle. by right.
Qed.

#[export] Instance RlpItem_codec : RlpCodec impl_RlpItem wf_item.
Proof.
  split. intros i Hi. exists (item_bytes i). split_and!.
  - apply encode_rlpitem_eq.
  - apply item_bytes_not_nil.
  - revert Hi. induction i as [b|items IH] using RlpItem_nested_ind; intros Hi; simpl.
    + apply bytes_app. destruct Hi. auto using string_header_bytes.
    + apply wf_item_list in Hi as [_ Hi]. apply bytes_app.
      split; [apply list_header_bytes, len_nonneg|].
      induction items as [|i items IHi]; simpl; [constructor|]. apply bytes_app.
      apply Forall_cons in IH as [? ?], Hi as [? ?]. auto.
  - intros P pre post Hsz. cbn [decode impl_RlpItem].
    unfold sbind, sget. cbn beta iota.
    apply (decode_rlpitem_parses i Hi); [|done]. simpl. rewrite !length_app. lia.
Qed.

(** * Decoding terminates *)

(** [dec] neither loops nor stays in place, on the decoders with fewer than
    [m] bytes left. *)
Definition progresses {A} (dec : DM A) (m : Z) : Prop :=
  forall d, bytes (data d) -> len (data d) <= isize_max -> 0 <= pos d -> len (data d) - pos d < m ->
  wp dec (fun r d' => match r with
                      | Ok _ => data d' = data d /\ pos d < pos d'
                      | Diverge => False
                      | _ => True
                      end) d.

Section termination.
Context `{Profile}.

Lemma wp_slift {S E A} (m : outcome E A) (Q : outcome E A -> S -> Prop) s :
  Q m s -> wp (slift m) Q s.
Proof. done. Qed.

Lemma checked_arith_range {E} w x : 0 < w ->
  match checked_arith (E := E) w x with
  | Ok y => uint w y /\ (uint w x -> y = x)
  | Panic => True
  | _ => False
  end.
Proof.
  intros Hw. unfold checked_arith, uint, wrap.
  assert (0 < 2 ^ w) by (apply Z.pow_pos_nonneg; lia).
  case_bool; try destruct overflow_checks; simpl; try done; split; try lia;
    apply Z.mod_pos_bound; lia.
Qed.

Lemma decode_length_loop_range l n :
  bytes l -> 0 <= n ->
  match decode_length_loop n l with Ok m => 0 <= m | Err _ => True | _ => False end.
Proof.
  revert n. induction l as [|b l IH]; intros n Hl Hn; simpl; [done|].
  apply Forall_cons in Hl as [Hb Hl]. unfold decode_length_step, checked_add, byte in *.
  assert (0 <= wrap 64 (Z.shiftl n 8)) by (apply Z.mod_pos_bound; lia).
  case_bool; [|done]. apply IH; [done|lia].
Qed.

Lemma slice_bytes {E} l a b :
  bytes l -> match slice (E := E) l a b with Ok k => bytes k | Panic => True | _ => False end.
Proof. intros Hl. unfold slice. case_bool; auto with rust. Qed.

(** The header of any input: an offset, a length, and no movement. *)
Definition header_post (d : Decoder) (r : outcome RlpError (Z * Z * bool)) (d' : Decoder) : Prop :=
  d' = d /\
  match r with
  | Ok (o, n, is_data) =>
      pos d < len (data d) /\ 0 <= o <= 9 /\ 0 <= n /\ (o = 0 -> n = 1) /\ (is_data = false -> 0 < o)
  | Diverge => False
  | _ => True
  end.

Lemma decode_long_header_wp d base x is_data :
  bytes (data d) -> 0 < x - base <= 8 -> pos d < len (data d) ->
  wp (decode_long_header base x is_data) (header_post d) d.
Proof.
  intros Hb Hx Hp. unfold wp, decode_long_header, sbind, sget, slift, uadd; simpl.
  pose proof (checked_arith_range (E := RlpError) 64 (pos d + 1) ltac:(lia)) as H1.
  destruct (checked_arith 64 (pos d + 1)) as [p1| | |]; try done.
  pose proof (checked_arith_range (E := RlpError) 64 (p1 + (x - base)) ltac:(lia)) as H2.
  destruct (checked_arith 64 (p1 + (x - base))) as [p2| | |]; try done.
  case_bool; [done|].
  pose proof (slice_bytes (E := RlpError) (data d) p1 p2 Hb) as Hs.
  destruct (slice (data d) p1 p2) as [l| | |]; try done.
  unfold decode_length. destruct l as [|b l]; [done|]. destruct (b =? 0); [done|].
  pose proof (decode_length_loop_range (b :: l) 0 Hs ltac:(lia)) as Hl.
  destruct (decode_length_loop 0 (b :: l)); try done.
  unfold header_post; simpl. split_and!; (done || lia).
Qed.

Lemma decode_header_wp d :
  bytes (data d) -> 0 <= pos d -> wp decode_header (header_post d) d.
Proof.
  intros Hb Hp. unfold decode_header. apply wp_bind. unfold wp at 1, sget; simpl.
  destruct (Z.leb_spec (len (data d)) (pos d)); [done|].
  apply wp_bind. unfold wp at 1, slift; simpl. unfold index.
  destruct (data d !! Z.to_nat (pos d)) as [x|] eqn:Hx; [|done].
  rewrite (proj2 (Z.leb_le _ _)) by done.
  assert (byte x) as Hbx by (eapply Forall_lookup_1; eauto). unfold byte in Hbx.
  case_bool; try (apply decode_long_header_wp; [done|lia|done]);
    (split; [done|simpl; split_and!; (lia || done)]).
Qed.

(** After the header, the start of the payload and its end. *)
Lemma payload_start_wp d o : 0 <= pos d < len (data d) -> 0 <= o <= 9 -> len (data d) <= isize_max ->
  uadd (E := RlpError) 64 (pos d) o = Ok (pos d + o).
Proof. intros. apply checked_arith_ok. unfold uint, isize_max in *. lia. Qed.

Lemma decode_items_wp {A} (dec : DM A) (m : Z) end_position fuel acc d :
  progresses dec m -> bytes (data d) -> len (data d) <= isize_max -> 0 <= pos d ->
  end_position <= len (data d) -> len (data d) - pos d < m ->
  len (data d) - pos d < Z.of_nat fuel -> (0 < fuel)%nat ->
  wp (decode_items dec fuel end_position acc)
    (fun r d' => match r with
                 | Ok _ => data d' = data d /\ pos d <= pos d'
                 | Diverge => False
                 | _ => True
                 end) d.
Proof.
  intros Hdec. revert acc d. induction fuel as [|fuel IH]; intros acc d Hb Hl Hp He Hm Hf Hf0; [lia|].
  cbn [decode_items]. apply wp_bind. unfold wp at 1, sget; simpl.
  case_bool; [|by unfold wp; simpl]. apply wp_bind.
  eapply wp_mono; [by apply Hdec|]. intros [a| | |] d'; try done. intros [Hd Hpos].
  rewrite <- Hd in Hb, Hl, He, Hm, Hf. eapply wp_mono; [apply IH; try done; lia|].
  intros [] d''; try done. intros [? ?]. split; [congruence|lia].
Qed.

Lemma decode_bytes_progresses m : progresses decode_bytes m.
Proof.
  intros d Hb Hl Hp Hm. unfold decode_bytes. apply wp_bind.
  eapply wp_mono; [by apply decode_header_wp|]. intros [[[o n] is_data]| | |] d' [-> Hr]; try done.
  destruct Hr as (Hlt & Ho & Hn & Hon & _). destruct is_data; [|done]. simpl.
  unfold wp, sbind, sget, slift, set_position, smodify, sret; simpl.
  rewrite payload_start_wp by lia. simpl.
  pose proof (checked_arith_range (E := RlpError) 64 (pos d + o + n) ltac:(lia)) as H1.
  unfold uadd. destruct (checked_arith 64 (pos d + o + n)) as [q| | |]; try done.
  simpl. case_bool; [done|]. unfold slice. case_bool; try done. split; [done|].
  destruct H1 as [_ H1]. unfold uint, isize_max in *. destruct (Z.eq_dec o 0); lia.
Qed.

(** The list decoder progresses when the element decoder does: its header is
    at least one byte, so the elements have fewer bytes left. *)
Lemma decode_list_by_progresses {A} (dec : DM A) m :
  progresses dec (m - 1) -> progresses (decode_list_by dec) m.
Proof.
  intros Hdec d Hb Hl Hp Hm. unfold decode_list_by. apply wp_bind.
  eapply wp_mono; [by apply decode_header_wp|]. intros [[[o n] is_data]| | |] d' [-> Hr]; try done.
  destruct Hr as (Hlt & Ho & Hn & _ & Hlist). destruct is_data; [done|].
  specialize (Hlist eq_refl). apply wp_bind; unfold wp at 1, sget; simpl.
  apply wp_bind; apply wp_slift. rewrite payload_start_wp by lia.
  apply wp_bind; unfold wp at 1, set_position, smodify; simpl.
  apply wp_bind; apply wp_slift.
  pose proof (checked_arith_range (E := RlpError) 64 (pos d + o + n) ltac:(lia)) as H1.
  unfold uadd. destruct (checked_arith 64 (pos d + o + n)) as [q| | |]; try done.
  simpl. case_bool; [done|]. apply wp_bind.
  eapply wp_mono; [apply (decode_items_wp dec (m - 1)); simpl; try done; unfold len in *; lia|].
  intros [items| | |] d' Hd'; try done. simpl in Hd'. apply wp_bind; unfold wp at 1, sget; simpl.
  case_bool; [unfold wp; simpl; split; [naive_solver|lia]|].
  apply wp_bind, wp_slift.
  pose proof (checked_arith_range (E := RlpError) 64 (q - n) ltac:(lia)) as H2.
  unfold usub. destruct (checked_arith 64 (q - n)) as [st| | |]; try done.
  apply wp_bind, wp_slift.
  pose proof (checked_arith_range (E := RlpError) 64 (pos d' - st) ltac:(lia)) as H3.
  by destruct (checked_arith 64 (pos d' - st)).
Qed.

Lemma is_list_wp d : 0 <= pos d ->
  wp is_list (fun r d' => d' = d /\ match r with
    | Ok _ => pos d < len (data d) | Diverge => False | _ => True end) d.
Proof.
  intros Hp. unfold wp, is_list, sbind, sget, slift; simpl. case_bool; [done|].
  unfold index. destruct (data d !! Z.to_nat (pos d)); [|done]. by case_bool.
Qed.

Lemma decode_rlpitem_progresses fuel : progresses (decode_rlpitem (S fuel)) (Z.of_nat (S fuel)).
Proof.
  induction fuel as [|fuel IH]; intros d Hb Hl Hp Hm; cbn [decode_rlpitem]; apply wp_bind;
    (eapply wp_mono; [by apply is_list_wp|]);
    intros [[]| | |] d' [-> Hr]; try done; try lia; apply wp_bind.
  - eapply wp_mono; [apply (decode_list_by_progresses _ (Z.of_nat (S (S fuel)))); try done|].
    + replace (Z.of_nat (S (S fuel)) - 1) with (Z.of_nat (S fuel)) by lia. apply IH.
    + by intros [] d' Hd'.
  - eapply wp_mono; [by apply (decode_bytes_progresses (Z.of_nat (S (S fuel))))|].
    by intros [] d' Hd'.
Qed.

Lemma decode_item_progresses fuel : progresses (decode_item (S fuel)) (Z.of_nat (S fuel)).
Proof.
  induction fuel as [|fuel IH]; intros d Hb Hl Hp Hm; cbn [decode_item]; apply wp_bind;
    (eapply wp_mono; [by apply decode_header_wp|]);
    intros [[[o n] is_data]| | |] d' [-> Hr]; try done;
    destruct Hr as (Hlt & Ho & Hn & Hon & Hlist); [lia|].
  apply wp_bind; unfold wp at 1, sget; simpl.
  apply wp_bind; apply wp_slift. rewrite payload_start_wp by lia.
  apply wp_bind; unfold wp at 1, set_position, smodify; simpl.
  apply wp_bind; apply wp_slift.
  pose proof (checked_arith_range (E := RlpError) 64 (pos d + o + n) ltac:(lia)) as H1.
  unfold uadd. destruct (checked_arith 64 (pos d + o + n)) as [q| | |]; try done.
  simpl. case_bool; [done|]. destruct is_data.
  - apply wp_bind, wp_slift. unfold slice. case_bool; try done. unfold wp; simpl.
    split; [done|]. destruct H1 as [_ H1]. unfold uint, isize_max in *.
    destruct (Z.eq_dec o 0); lia.
  - specialize (Hlist eq_refl). apply wp_bind.
    eapply wp_mono; [apply (decode_items_wp _ (Z.of_nat (S fuel))); simpl; try done;
      unfold len in *; lia|].
    intros [items| | |] d' Hd'; try done. simpl in Hd'. unfold wp; simpl. split; [naive_solver|lia].
Qed.
End termination.

(** * [decode_item] on encoded items *)

Lemma decode_item_parses `{Profile} i : wf_item i ->
  forall fuel, (length (item_bytes i) <= fuel)%nat -> parses (decode_item fuel) (item_bytes i) i.
Proof.
  induction i as [b|items IH] using RlpItem_nested_ind; intros Hwf fuel Hf pre post Hsz.
  - destruct Hwf as [Hb Hl]. destruct fuel as [|fuel].
    { pose proof (string_not_nil b). cbn [item_bytes] in Hf.
      destruct (string_header b ++ b); simpl in Hf; [done|lia]. }
    pose proof (decode_bytes_parses b Hb Hl pre post Hsz) as Hd. revert Hd.
    cbn [decode_item item_bytes] in *. unfold decode_bytes, before. rewrite <- !app_assoc in *.
    unfold sbind. rewrite decode_header_string by done. simpl.
    unfold slift, set_position, smodify; simpl.
    destruct (uadd 64 _ (len (string_header b))); try done. destruct (uadd 64 a (len b)); try done.
    case_bool; [done|]. destruct (slice _ _ _); try done. unfold sret. intros Hd. apply pair_equal_spec in Hd as [[= ->] Hd]. by rewrite Hd.
  - apply wf_item_list in Hwf as [Hl Hwf]. cbn [item_bytes] in *.
    set (p := concat (map item_bytes items)) in *. pose proof (len_nonneg p).
    destruct (list_first_byte (len p) (len_nonneg p)) as (x & l & Hx & Hge).
    rewrite Hx in Hf. simpl in Hf. rewrite length_app in Hf.
    destruct fuel as [|fuel]; [lia|]. cbn [decode_item]. rewrite before_app.
    erewrite sbind_ok; [|apply decode_header_list; [lia|by rewrite <- app_assoc in Hsz]].
    cbn beta iota. autorewrite with rust in Hsz.
    pose proof (len_nonneg pre). pose proof (len_nonneg post).
    pose proof (len_nonneg (list_header (len p))).
    unfold sbind, sget, slift, set_position, smodify, before; simpl.
    rewrite !uadd_ok by lia. simpl. autorewrite with rust. rewrite (proj2 (Z.ltb_ge _ _)) by lia.
    change (mkDecoder (pre ++ list_header (len p) ++ p ++ post) (len pre + len (list_header (len p))))
      with (after pre (list_header (len p)) (p ++ post)).
    rewrite after_before, <- len_app. change p with (concat (map item_bytes items)).
    rewrite (decode_items_parses _ items (map item_bytes items)); fold p.
    + rewrite after_after. done.
    + clear - IH Hwf Hf. assert (Hle : forall i, i ∈ items -> (length (item_bytes i) <= fuel)%nat).
      { intros i Hi. pose proof (item_bytes_le_payload i items Hi) as Hp. fold p in Hp. lia. }
      clear p Hf. induction items as [|i items IHi]; simpl; constructor.
      * apply Forall_cons in IH as [IH _], Hwf as [Hwf _]. split; [apply item_bytes_not_nil|].
        apply IH; [done|]. apply Hle. left.
      * apply Forall_cons in IH as [_ IH], Hwf as [_ Hwf]. apply IHi; [done|done|].
        intros j Hj. apply Hle. by right.
    + assert (length items <= length p)%nat.
      { unfold p. clear. induction items as [|i items IH]; simpl; [lia|]. rewrite length_app.
        pose proof (item_bytes_not_nil i). destruct (item_bytes i); simpl; [done|lia]. }
      rewrite !length_app. lia.
    + autorewrite with rust. lia.
Qed.

(** * The properties *)

Lemma codec_rlp_roundtrip {A} (impl : RlpImpl A) wf `{RlpCodec A impl wf} `{Profile} a :
  wf a -> exists bs, rlp_encode impl a = Ok bs /\ bytes bs /\
    (len bs <= isize_max -> rlp_decode impl bs = Ok a).
Proof.
  intros Ha. destruct (codec_roundtrip a Ha) as (bs & Henc & _ & Hb & Hp).
  exists bs. split_and!; [|done|].
  - unfold rlp_encode. by rewrite Henc.
  - intros Hsz. unfold rlp_decode, decoder_new.
    specialize (Hp _ [] []). unfold before, after in Hp. simpl in Hp.
    rewrite app_nil_r in Hp. change (len (@nil Z)) with 0 in Hp. by rewrite Hp.
Qed.

(** C3: an RLP item whose strings and list payloads are below 2^32 bytes is
    encoded without a panic, and both item decoders of the crate ([Decode for
    RlpItem] and [Decoder::decode_item]) read the encoding back to the same
    item, in either build profile, and leave the decoder at its end. *)
Theorem rlp_item_roundtrip `{Profile} (i : RlpItem) :
  wf_item i -> len (item_bytes i) <= isize_max -> exists bs,
    rlp_encode impl_RlpItem i = Ok bs /\
    decode impl_RlpItem (decoder_new bs) = (Ok i, mkDecoder bs (len bs)) /\
    decode_item (S (length bs)) (decoder_new bs) = (Ok i, mkDecoder bs (len bs)).
Proof.
  intros Hi Hsz. exists (item_bytes i).
  assert (Hd : decoder_new (item_bytes i) = before [] (item_bytes i) []).
  { unfold decoder_new, before. simpl. by rewrite app_nil_r. }
  assert (Ha : mkDecoder (item_bytes i) (len (item_bytes i)) = after [] (item_bytes i) []).
  { unfold after. simpl. by rewrite app_nil_r. }
  split_and!.
  - unfold rlp_encode. cbn [encode impl_RlpItem]. by rewrite encode_rlpitem_eq.
  - rewrite Ha. cbn [decode impl_RlpItem]. unfold sbind, sget. cbn beta iota. rewrite Hd.
    apply decode_rlpitem_parses; [done|simpl; rewrite app_nil_r; lia|simpl; by rewrite app_nil_r].
  - rewrite Hd, Ha. apply decode_item_parses; [done|lia|simpl; by rewrite app_nil_r].
Qed.

Lemma rlp_item_roundtrip_witness :
  let i := RList [RString [0x80]; RList []; RString [1; 2; 3]] in
  exists bs, rlp_encode impl_RlpItem i = Ok bs /\
    @decode _ impl_RlpItem dev_profile (decoder_new bs) = (Ok i, mkDecoder bs (len bs)) /\
    @decode_item dev_profile (S (length bs)) (decoder_new bs) = (Ok i, mkDecoder bs (len bs)).
Proof.
  apply (@rlp_item_roundtrip dev_profile).
  - repeat split; repeat constructor; unfold byte; try lia; done.
  - vm_compute. discriminate.
Defined.

(** The trait implementations of traits.rs with the values they promise to
    round-trip, closed under [Option<T>] and under lists of [T]. *)
Inductive supported `{U256Ops} : forall {A : Type}, RlpImpl A -> (A -> Prop) -> Prop :=
| s_u8 : supported impl_u8 (uint 8)
| s_u16 : supported impl_u16 (uint 16)
| s_u32 : supported impl_u32 (uint 32)
| s_u64 : supported impl_u64 (uint 64)
| s_bool : supported impl_bool (fun _ => True)
| s_u256 : supported impl_U256 (uint 256)
| s_address : supported impl_Address (wf_fixed 20)
| s_h256 : supported impl_H256 (wf_fixed 32)
| s_bloom : supported impl_Bloom (wf_fixed 256)
| s_vec : supported impl_vec_u8 wf_vec
| s_bytes : supported impl_Bytes wf_vec
| s_item : supported impl_RlpItem wf_item
| s_option A (impl : RlpImpl A) wf : supported impl wf -> supported (impl_option impl) (wf_option impl wf)
| s_list A (impl : RlpImpl A) wf : supported impl wf -> supported (impl_list impl) (wf_list impl wf).

Lemma supported_codec `{U256Laws} {A} (impl : RlpImpl A) wf : supported impl wf -> RlpCodec impl wf.
Proof. induction 1; apply _. Qed.

(** every implementation of the [Encode] and [Decode] traits (integers,
    [bool], [U256], [Address], [H256], [Bloom], byte vectors, items, and
    options and lists of these) round-trips: encoding a promised value does not
    panic and yields bytes, and decoding those bytes gives the value back. *)
Theorem rlp_trait_roundtrip `{U256Laws} `{Profile} {A} (impl : RlpImpl A) wf a :
  supported impl wf -> wf a -> exists bs, rlp_encode impl a = Ok bs /\ bytes bs /\
    (len bs <= isize_max -> rlp_decode impl bs = Ok a).
Proof. intros Hs Ha. apply supported_codec in Hs. by apply (codec_rlp_roundtrip impl wf). Qed.

Lemma rlp_trait_roundtrip_witness :
  exists bs, rlp_encode (impl_list impl_U256) [0; 2 ^ 200; 128] = Ok bs /\ bytes bs /\
    (len bs <= isize_max -> @rlp_decode dev_profile _ (impl_list impl_U256) bs = Ok [0; 2 ^ 200; 128]).
Proof.
  apply (@rlp_trait_roundtrip U256_model U256_model_laws dev_profile _
    (impl_list impl_U256) (wf_list impl_U256 (uint 256))).
  - apply s_list, s_u256.
  - split; [repeat constructor; unfold uint; lia|].
    intros e He. vm_compute in He. injection He as <-. vm_compute. reflexivity.
Defined.

(** decoding terminates on every input: both item decoders, at any
    position of any byte buffer of a size Rust can allocate, return a value or
    an error or panic, in either build profile. *)
Theorem rlp_decode_terminates `{Profile} (input : list Z) (p : Z) :
  bytes input -> len input <= isize_max -> 0 <= p ->
  (decode impl_RlpItem (mkDecoder input p)).1 <> Diverge /\
  (decode_item (S (length input)) (mkDecoder input p)).1 <> Diverge.
Proof.
  intros Hb Hl Hp. split.
  - cbn [decode impl_RlpItem]. unfold sbind, sget. cbn beta iota.
    pose proof (decode_rlpitem_progresses (length input) (mkDecoder input p) Hb Hl Hp) as Hpr.
    unfold wp in Hpr. cbn [data] in *. intros Hd. rewrite Hd in Hpr. apply Hpr.
    unfold len; simpl; lia.
  - pose proof (decode_item_progresses (length input) (mkDecoder input p) Hb Hl Hp) as Hpr.
    unfold wp in Hpr. intros Hd. rewrite Hd in Hpr. apply Hpr. unfold len; simpl; lia.
Qed.

Lemma rlp_decode_terminates_witness :
  (@decode _ impl_RlpItem release_profile (mkDecoder [0xc2; 0xc1; 0xc0] 0)).1 <> Diverge /\
  (@decode_item release_profile 4 (mkDecoder [0xc2; 0xc1; 0xc0] 0)).1 <> Diverge.
Proof.
  apply (@rlp_decode_terminates release_profile [0xc2; 0xc1; 0xc0] 0).
  - repeat constructor; unfold byte; lia.
  - vm_compute. discriminate.
  - lia.
Defined.

Lemma item_prefix_free (i j : RlpItem) (k l : list Z) :
  wf_item i -> wf_item j -> item_bytes i ++ k = item_bytes j ++ l ->
  len (item_bytes i ++ k) <= isize_max -> i = j /\ k = l.
Proof.
  intros Hi Hj Heq Hsz.
  assert (Hd : before [] (item_bytes i) k = before [] (item_bytes j) l).
  { unfold before. simpl. by rewrite Heq. }
  set (n := (length (item_bytes i) + length (item_bytes j))%nat).
  pose proof (@decode_rlpitem_parses dev_profile i Hi n ltac:(lia) [] k Hsz) as H1.
  rewrite Heq in Hsz.
  pose proof (@decode_rlpitem_parses dev_profile j Hj n ltac:(lia) [] l Hsz) as H2.
  rewrite Hd, H2 in H1. injection H1 as <- Hdat Hpos. split; [done|].
  by apply app_inv_head in Heq.
Qed.

Lemma concat_items_inj (xs ys : list RlpItem) : Forall wf_item xs -> Forall wf_item ys ->
  len (concat (map item_bytes xs)) <= isize_max ->
  concat (map item_bytes xs) = concat (map item_bytes ys) -> xs = ys.
Proof.
  intros Hx. revert ys. induction Hx as [|i xs Hi _ IH]; intros [|j ys] Hy Hsz Heq; simpl in *.
  - done.
  - symmetry in Heq. apply app_eq_nil in Heq as [Hn _]. by apply item_bytes_not_nil in Hn.
  - apply app_eq_nil in Heq as [Hn _]. by apply item_bytes_not_nil in Hn.
  - inversion Hy; subst. destruct (item_prefix_free i j _ _ Hi ltac:(done) Heq Hsz) as [-> Hk].
    f_equal. apply IH; [done| |done]. rewrite len_app in Hsz.
    pose proof (len_nonneg (item_bytes j)). lia.
Qed.

(** encodings are uniquely decodable: no encoding of an item is a prefix
    of the encoding of another one, whatever bytes follow, and a sequence of
    items is determined by the concatenation of their encodings. *)
Theorem item_bytes_prefix_free (i j : RlpItem) (k l : list Z) (xs ys : list RlpItem) :
  wf_item i -> wf_item j -> Forall wf_item xs -> Forall wf_item ys ->
  len (item_bytes i ++ k) <= isize_max -> len (concat (map item_bytes xs)) <= isize_max ->
  (item_bytes i ++ k = item_bytes j ++ l -> i = j /\ k = l) /\
  (concat (map item_bytes xs) = concat (map item_bytes ys) -> xs = ys).
Proof.
  intros Hi Hj Hxs Hys Hsz Hsz'. split; [intros Heq; by apply item_prefix_free|].
  by apply concat_items_inj.
Qed.

Lemma item_bytes_prefix_free_witness :
  (RString [200] = RString [200] /\ @nil Z = []) /\ [RList []; RString [1]] = [RList []; RString [1]].
Proof.
  assert (Hs : forall b, byte b -> wf_item (RString [b])).
  { intros b Hb. split; [constructor; [done|constructor]|]. unfold len. simpl. lia. }
  assert (Hl : Forall wf_item [RList []; RString [1]]).
  { constructor; [|constructor; [|constructor]].
    - apply wf_item_list. split; [unfold len; simpl; lia|constructor].
    - apply Hs. unfold byte. lia. }
  destruct (item_bytes_prefix_free (RString [200]) (RString [200]) [] []
    [RList []; RString [1]] [RList []; RString [1]]) as [H1 H2].
  - apply Hs. unfold byte. lia.
  - apply Hs. unfold byte. lia.
  - exact Hl.
  - exact Hl.
  - vm_compute. discriminate.
  - vm_compute. discriminate.
  - split; [by apply H1|by apply H2].
Defined.

(** A header that claims 2^64 - 1 bytes of payload. *)
Definition huge_length : list Z := [255; 255; 255; 255; 255; 255; 255; 255].

Lemma huge_header `{Profile} x rest :
  x = 0xbf \/ x = 0xff -> len rest <= isize_max - 9 ->
  decode_header (decoder_new (x :: huge_length ++ rest))
  = (Ok (9, 2 ^ 64 - 1, x =? 0xbf), decoder_new (x :: huge_length ++ rest)).
Proof.
  intros Hx Hsz. pose proof (len_nonneg rest) as Hr. unfold isize_max in *.
  assert (Hl : forall base b, x - base = 8 ->
    decode_long_header base x b (decoder_new (x :: huge_length ++ rest))
    = (Ok (9, 2 ^ 64 - 1, b), decoder_new (x :: huge_length ++ rest))).
  { intros base b Hb. unfold decode_long_header, sbind, sget, slift, decoder_new; simpl.
    rewrite Hb, !uadd_ok by (unfold isize_max; lia).
    rewrite !len_cons. rewrite (proj2 (Z.ltb_ge _ _)) by lia.
    change (x :: 255 :: _) with ([x] ++ huge_length ++ rest).
    change (0 + 1) with (len [x]). change (1 + 8) with (len [x] + len huge_length).
    by rewrite slice_mid. }
  unfold decoder_new. pose proof (decode_header_first [] x (huge_length ++ rest)) as Hf.
  simpl in Hf. change (len (@nil Z)) with 0 in Hf. simpl. rewrite Hf.
  destruct Hx as [->| ->]; simpl; by apply Hl.
Qed.

(** nine bytes of input, a string header whose length is 2^64 - 1, make
    the decoder panic in both build profiles instead of returning an error:
    with overflow checks the addition [position + len] panics, without them it
    wraps around and bounds a slice that ends before it starts. *)
Theorem decode_bytes_overflow_panics `{Profile} (rest : list Z) :
  len rest <= isize_max - 9 ->
  (decode_bytes (decoder_new (0xbf :: huge_length ++ rest))).1 = Panic.
Proof.
  intros Hsz. unfold decode_bytes. erewrite sbind_ok; [|by apply huge_header; [left|]].
  pose proof (len_nonneg rest).
  assert (Hq : uadd (E := RlpError) 64 9 (2 ^ 64 - 1) = if overflow_checks then Panic else Ok 8)
    by (by destruct H as [[]]).
  assert (H9 : uadd (E := RlpError) 64 0 9 = Ok 9) by reflexivity.
  unfold sbind, sget, slift, set_position, smodify, decoder_new.
  cbn [negb Z.eqb Pos.eqb pos data]. rewrite H9, Hq.
  destruct overflow_checks; [done|].
  rewrite (proj2 (Z.ltb_ge _ _)) by (simpl; rewrite !len_cons; lia). done.
Qed.

Lemma decode_bytes_overflow_panics_witness :
  (@decode_bytes release_profile (decoder_new (0xbf :: huge_length ++ [7]))).1 = Panic.
Proof. apply (@decode_bytes_overflow_panics release_profile [7]). vm_compute. discriminate. Defined.

(** with the release profile, the same wrap-around makes [decode_item]
    accept a list header that claims 2^64 - 1 bytes as an empty list, where
    [decode_list] refuses it. *)
Theorem decode_item_accepts_forged_list (rest : list Z) :
  len rest <= isize_max - 9 ->
  let d := decoder_new (0xff :: huge_length ++ rest) in
  @decode_item release_profile (S (length (data d))) d = (Ok (RList []), mkDecoder (data d) 9) /\
  exists e, (@decode_list release_profile _ impl_RlpItem d).1 = Err e.
Proof.
  intros Hsz d. pose proof (len_nonneg rest) as Hr.
  assert (Hh := @huge_header release_profile 0xff rest ltac:(by right) Hsz). fold d in Hh.
  assert (H9 : @uadd release_profile RlpError 64 (pos d) 9 = Ok 9) by reflexivity.
  assert (Hq : @uadd release_profile RlpError 64 9 (2 ^ 64 - 1) = Ok 8) by reflexivity.
  assert (Hlt : len (data d) <? 8 = false).
  { apply Z.ltb_ge. unfold d. simpl. rewrite !len_cons. lia. }
  split.
  - cbn [decode_item]. erewrite sbind_ok; [|exact Hh].
    unfold sbind, sget, slift, set_position, smodify.
    cbn [negb Z.eqb Pos.eqb]. rewrite H9, Hq, Hlt. done.
  - unfold decode_list, decode_list_by. erewrite sbind_ok; [|exact Hh].
    unfold sbind, sget, slift, set_position, smodify.
    cbn [negb Z.eqb Pos.eqb]. rewrite H9, Hq, Hlt. by eexists.
Qed.

Lemma decode_item_accepts_forged_list_witness :
  let d := decoder_new (0xff :: huge_length ++ []) in
  @decode_item release_profile (S (length (data d))) d = (Ok (RList []), mkDecoder (data d) 9) /\
  exists e, (@decode_list release_profile _ impl_RlpItem d).1 = Err e.
Proof. apply (decode_item_accepts_forged_list []). vm_compute. discriminate. Defined.

(** [encode_length] keeps only the low 32 bits of a length, so the header
    of a payload of 2^32 bytes or more announces another length. *)
Theorem encode_length_truncates n :
  2 ^ 32 <= n -> from_be (encode_length n) = n mod 2 ^ 32 /\ len (encode_length n) = 4.
Proof.
  intros Hn. unfold encode_length, from_be, wrap.
  rewrite !(proj2 (Z.ltb_ge _ _)) by lia. split; [|done].
  rewrite !Z.shiftr_div_pow2 by lia. simpl.
  change (2 ^ 8) with 256. change (2 ^ 16) with 65536. change (2 ^ 24) with 16777216.
  change (2 ^ 32) with 4294967296. zlia.
Qed.

Lemma encode_length_truncates_witness :
  from_be (encode_length (2 ^ 32 + 5)) = (2 ^ 32 + 5) mod 2 ^ 32 /\ len (encode_length (2 ^ 32 + 5)) = 4.
Proof. apply (encode_length_truncates (2 ^ 32 + 5)). lia. Defined.
