(* ===== verification/EvmMachine.v ===== *)
(** The machine the EVM interpreter runs on: crates/evm/src/error.rs, gas.rs,
    stack.rs, memory.rs, state.rs and the account type of lib.rs. *)
From stdpp Require Import base list numbers option gmap strings.
From Stdlib Require Import ZArith Lia.
From S2P Require Import Prelude U256.

(** * error.rs *)

Inductive EvmError :=
| StackOverflow
| StackUnderflow
| InvalidJump (dest : Z)
| InvalidOpcode (op : Z)
| OutOfGas
| InsufficientBalance
| ContractCreationFailed
| CallDepthExceeded
| InvalidMemoryAccess
| WriteProtection
| ReturnDataOutOfBounds
| StaticCallStateModification
| PrecompileFailed (msg : string)
| InvalidSignature
| CodeSizeExceeded
| InvalidInitCode
| NonceOverflow
| InvalidInput.

(** [Option::unwrap_or]-free conversions of [U256]: [None] is a panic. *)
Definition or_panic {S E A} (o : option A) : SM S E A := slift (unwrap o).

(** * gas.rs *)

Record Gas := mkGas { g_limit : Z; g_used : Z }.

Definition gas_new (limit : Z) : Gas := mkGas limit 0.
Definition gas_consume (amount : Z) : SM Gas EvmError unit :=
  let! g := sget in
  let new_used := saturating_add 64 (g_used g) amount in
  if g_limit g <? new_used then sfail OutOfGas
  else sput (mkGas (g_limit g) new_used).
Definition gas_remaining (g : Gas) : Z := saturating_sub (g_limit g) (g_used g).
Definition gas_refund (amount : Z) (g : Gas) : Gas :=
  mkGas (g_limit g) (saturating_sub (g_used g) amount).

Module GasCost.
Definition ZERO : Z := 0.
Definition BASE : Z := 2.
Definition VERYLOW : Z := 3.
Definition LOW : Z := 5.
Definition MID : Z := 8.
Definition HIGH : Z := 10.
Definition EXTCODE : Z := 2600.
Definition BALANCE : Z := 2600.
Definition SLOAD : Z := 2100.
Definition JUMPDEST : Z := 1.
Definition SSET : Z := 20000.
Definition SRESET : Z := 2900.
Definition SCLEAR_REFUND : Z := 15000.
Definition SELFDESTRUCT : Z := 5000.
Definition SELFDESTRUCT_NEWACCOUNT : Z := 25000.
Definition CREATE : Z := 32000.
Definition CODEDEPOSIT : Z := 200.
Definition CALL : Z := 2600.
Definition CALLVALUE : Z := 9000.
Definition CALLSTIPEND : Z := 2300.
Definition NEWACCOUNT : Z := 25000.
Definition EXP : Z := 10.
Definition EXPBYTE : Z := 50.
Definition MEMORY : Z := 3.
Definition TXCREATE : Z := 32000.
Definition TXDATAZERO : Z := 4.
Definition TXDATANONZERO : Z := 16.
Definition TRANSACTION : Z := 21000.
Definition LOG : Z := 375.
Definition LOGDATA : Z := 8.
Definition LOGTOPIC : Z := 375.
Definition KECCAK256 : Z := 30.
Definition KECCAK256WORD : Z := 6.
Definition COPY : Z := 3.
Definition BLOCKHASH : Z := 20.
Definition CODESIZE : Z := 2.
Definition EXTCODESIZE : Z := 2600.
Definition EXTCODECOPY : Z := 2600.
Definition RETURNDATASIZE : Z := 2.
Definition RETURNDATACOPY : Z := 3.
Definition EXTCODEHASH : Z := 2600.
Definition CHAINID : Z := 2.
Definition SELFBALANCE : Z := 5.
Definition BASEFEE : Z := 2.
Definition WARM_STORAGE_READ_COST : Z := 100.
Definition COLD_SLOAD_COST : Z := 2100.
Definition COLD_ACCOUNT_ACCESS_COST : Z := 2600.
Definition WARM_STORAGE_WRITE_COST : Z := 100.
End GasCost.

Section gas_cost.
Context `{U256Ops} `{Profile}.

(** [(size.as_u64() + 31) / 32] *)
Definition word_count (size : Z) : outcome EvmError Z :=
  let? size_u64 := unwrap (u_as_u64 size) in
  let? n := uadd 64 size_u64 31 in
  Ok (n / 32).
Definition memory_gas_cost (size : Z) : outcome EvmError Z :=
  let? memory_size_word := word_count size in
  let linear_cost := saturating_mul 64 memory_size_word GasCost.MEMORY in
  let quadratic_cost := saturating_mul 64 memory_size_word memory_size_word / 512 in
  Ok (saturating_add 64 linear_cost quadratic_cost).
Definition exp_gas_cost (exponent : Z) : Z :=
  let byte_size := (u_bits exponent + 7) / 8 in
  saturating_add 64 GasCost.EXP (saturating_mul 64 GasCost.EXPBYTE byte_size).
Definition keccak256_gas_cost (data_size : Z) : outcome EvmError Z :=
  let? word_size := word_count data_size in
  Ok (saturating_add 64 GasCost.KECCAK256 (saturating_mul 64 GasCost.KECCAK256WORD word_size)).
Definition copy_gas_cost (data_size : Z) : outcome EvmError Z :=
  let? word_size := word_count data_size in
  Ok (saturating_mul 64 GasCost.COPY word_size).
Definition log_gas_cost (topic_count data_size : Z) : outcome EvmError Z :=
  let? size_u64 := unwrap (u_as_u64 data_size) in
  Ok (saturating_add 64
        (saturating_add 64 GasCost.LOG (saturating_mul 64 GasCost.LOGTOPIC topic_count))
        (saturating_mul 64 GasCost.LOGDATA size_u64)).
End gas_cost.

(** * stack.rs *)

Definition STACK_LIMIT : Z := 1024.

(** The [Vec] of the stack: its last element is the top. *)
Record Stack := mkStack { st_data : list Z }.

Definition stack_new : Stack := mkStack [].
Definition stack_push (v : Z) : SM Stack EvmError unit :=
  let! s := sget in
  if STACK_LIMIT <=? len (st_data s) then sfail StackOverflow
  else sput (mkStack (st_data s ++ [v])).
Definition stack_pop : SM Stack EvmError Z :=
  let! s := sget in
  match reverse (st_data s) with
  | [] => sfail StackUnderflow
  | x :: rest => sput (mkStack (reverse rest)) ;;! sret x
  end.
Definition stack_peek (i : Z) (s : Stack) : outcome EvmError Z :=
  if len (st_data s) <=? i then Err StackUnderflow
  else index (st_data s) (len (st_data s) - 1 - i).
(** A write through [peek_mut]. *)
Definition stack_peek_mut (i v : Z) : SM Stack EvmError unit :=
  let! s := sget in
  if len (st_data s) <=? i then sfail StackUnderflow
  else sput (mkStack (<[Z.to_nat (len (st_data s) - 1 - i) := v]> (st_data s))).
(** [data.swap(i, j)] *)
Definition vec_swap {E} (l : list Z) (i j : Z) : outcome E (list Z) :=
  let? x := index l i in
  let? y := index l j in
  Ok (<[Z.to_nat j := x]> (<[Z.to_nat i := y]> l)).
Definition stack_swap (n : Z) : SM Stack EvmError unit :=
  let! s := sget in
  let l := len (st_data s) in
  if l <=? n then sfail StackUnderflow
  else
    let! d := slift (vec_swap (st_data s) (l - 1) (l - 1 - n)) in
    sput (mkStack d).
Definition stack_dup (n : Z) : SM Stack EvmError unit :=
  let! s := sget in
  if len (st_data s) <=? n then sfail StackUnderflow
  else if STACK_LIMIT <=? len (st_data s) then sfail StackOverflow
  else
    let! v := slift (index (st_data s) (len (st_data s) - 1 - n)) in
    sput (mkStack (st_data s ++ [v])).
Definition stack_require (n : Z) : SM Stack EvmError unit :=
  let! s := sget in
  if len (st_data s) <? n then sfail StackUnderflow else sret tt.
Definition stack_limit_check (n : Z) : SM Stack EvmError unit :=
  let! s := sget in
  if STACK_LIMIT <? len (st_data s) + n then sfail StackOverflow else sret tt.

(** * memory.rs *)

Record Memory := mkMemory { m_data : list Z }.

Definition memory_new : Memory := mkMemory [].
Definition memory_len (m : Memory) : Z := len (m_data m).

(** Only grows; [Vec::resize] panics above [isize::MAX]. *)
Definition memory_resize (new_size : Z) : SM Memory EvmError unit :=
  let! m := sget in
  if len (m_data m) <? new_size then
    let! d := slift (vec_resize (m_data m) new_size) in sput (mkMemory d)
  else sret tt.

Definition memory_get (offset size : Z) (m : Memory) : outcome EvmError (list Z) :=
  if size =? 0 then Ok []
  else
    let end_ := saturating_add 64 offset size in
    if len (m_data m) <=? offset then vec_zeros size
    else if len (m_data m) <? end_ then
      let? result := slice (m_data m) offset (len (m_data m)) in
      vec_resize result size
    else slice (m_data m) offset end_.

(** [self.data[a..b].copy_from_slice(src)], with [b - a = src.len()]. *)
Definition copy_from_slice {E} (l : list Z) (a : Z) (src : list Z) : outcome E (list Z) :=
  if (0 <=? a) && (a + len src <=? len l)
  then Ok (take (Z.to_nat a) l ++ src ++ drop (Z.to_nat (a + len src)) l)
  else Panic.

Definition memory_set (offset : Z) (d : list Z) : SM Memory EvmError unit :=
  match d with
  | [] => sret tt
  | _ =>
      match checked_add 64 offset (len d) with
      | None => sfail InvalidMemoryAccess
      | Some end_ =>
          memory_resize end_ ;;!
          let! m := sget in
          let! d := slift (copy_from_slice (m_data m) offset d) in
          sput (mkMemory d)
      end
  end.
Definition memory_set_byte (offset b : Z) : SM Memory EvmError unit :=
  match checked_add 64 offset 1 with
  | None => sfail InvalidMemoryAccess
  | Some end_ =>
      memory_resize end_ ;;!
      let! m := sget in
      let! _ := slift (index (m_data m) offset) in
      sput (mkMemory (<[Z.to_nat offset := b]> (m_data m)))
  end.
Definition memory_copy_within (dst src n : Z) : SM Memory EvmError unit :=
  if n =? 0 then sret tt
  else
    match checked_add 64 src n with
    | None => sfail InvalidMemoryAccess
    | Some src_end =>
        match checked_add 64 dst n with
        | None => sfail InvalidMemoryAccess
        | Some dst_end =>
            memory_resize (Z.max src_end dst_end) ;;!
            let! m := sget in
            let! d := slift (memory_get src n m) in
            let! d := slift (copy_from_slice (m_data m) dst d) in
            sput (mkMemory d)
        end
    end.

Section memory_words.
Context `{U256Ops}.
Definition memory_get_u256 (offset : Z) (m : Memory) : outcome EvmError Z :=
  let? d := memory_get offset 32 m in unwrap (u_from_big_endian d).
Definition memory_set_u256 (offset v : Z) : SM Memory EvmError unit :=
  memory_set offset (u_to_big_endian v).
(** [(end + 31) / 32 * 32] on [U256] *)
Definition memory_required_size (offset size : Z) : outcome EvmError (option Z) :=
  if size =? 0 then Ok (Some 0)
  else
    match u_checked_add offset size with
    | None => Ok None
    | Some end_ =>
        let? a := unwrap (u_add end_ 31) in
        let? b := unwrap (u_div a 32) in
        let? c := unwrap (u_mul b 32) in
        Ok (Some c)
    end.
End memory_words.

(** * state.rs and the accounts of lib.rs *)

(** An [Address] is its 20 bytes, an [H256] its 32 bytes. *)
Notation Address := (list Z).
Notation H256 := (list Z).
Definition H256_zero : H256 := replicate 32 0.

Record Account := mkAccount {
  balance : Z;
  nonce : Z;
  code : list Z;
  storage : gmap H256 H256;
}.
Definition account_default : Account := mkAccount 0 0 [] ∅.

(** The [StateDB] trait. *)
Class StateDB (S : Type) := {
  get_account : S -> Address -> option Account;
  set_account : Address -> Account -> S -> S;
  get_storage : S -> Address -> H256 -> H256;
  set_storage : Address -> H256 -> H256 -> S -> S;
  exists_ : S -> Address -> bool;
  is_empty : S -> Address -> bool;
  remove_account : Address -> S -> S;
}.

(** Its implementation for [HashMap<Address, Account>]. *)
Definition hm_get_storage (s : gmap Address Account) (a : Address) (k : H256) : H256 :=
  match s !! a with
  | Some acc => default H256_zero (storage acc !! k)
  | None => H256_zero
  end.
Definition hm_set_storage (a : Address) (k v : H256) (s : gmap Address Account) :
    gmap Address Account :=
  let acc := default account_default (s !! a) in
  <[a := mkAccount (balance acc) (nonce acc) (code acc) (<[k := v]> (storage acc))]> s.
Definition hm_is_empty (s : gmap Address Account) (a : Address) : bool :=
  match s !! a with
  | Some acc => (balance acc =? 0) && (nonce acc =? 0) && bool_decide (code acc = [])
  | None => true
  end.
#[export] Instance hashmap_StateDB : StateDB (gmap Address Account) := {|
  get_account s a := s !! a;
  set_account a acc s := <[a := acc]> s;
  get_storage := hm_get_storage;
  set_storage := hm_set_storage;
  exists_ s a := bool_decide (is_Some (s !! a));
  is_empty := hm_is_empty;
  remove_account a s := delete a s;
|}.

(** What the interpreter relies on of its state database. *)
Class StateDBLaws (S : Type) `{StateDB S} : Prop := {
  get_set_storage_same s a k v : get_storage (set_storage a k v s) a k = v;
  get_set_storage_other s a k v a' k' :
    (a, k) <> (a', k') -> get_storage (set_storage a k v s) a' k' = get_storage s a' k';
}.

#[export] Instance hashmap_StateDBLaws : StateDBLaws (gmap Address Account).
Proof.
  split.
  - intros s a k v. simpl. unfold hm_get_storage, hm_set_storage.
    rewrite lookup_insert_eq. simpl. by rewrite lookup_insert_eq.
  - intros s a k v a' k' Hne. simpl. unfold hm_get_storage, hm_set_storage.
    destruct (decide (a = a')) as [->|Ha]; [|by rewrite lookup_insert_ne].
    rewrite lookup_insert_eq. simpl. rewrite lookup_insert_ne by congruence.
    by destruct (s !! a').
Qed.

(** Well-formed databases: what the Rust types guarantee of the values a
    database returns. *)
Definition h256_ok (h : H256) : Prop := length h = 32%nat /\ bytes h.
Definition account_ok (acc : Account) : Prop :=
  U256 (balance acc) /\ bytes (code acc) /\ len (code acc) <= isize_max.
Class StateInv (S : Type) `{StateDB S} := {
  state_ok : S -> Prop;
  state_ok_account s a acc : state_ok s -> get_account s a = Some acc -> account_ok acc;
  state_ok_storage s a k : state_ok s -> h256_ok (get_storage s a k);
  state_ok_set_storage s a k v : state_ok s -> h256_ok v -> state_ok (set_storage a k v s);
}.

Lemma h256_ok_zero : h256_ok H256_zero.
Proof. split; [done|apply bytes_zeros]. Qed.

Definition hm_ok (s : gmap Address Account) : Prop :=
  map_Forall (fun _ acc => account_ok acc /\ map_Forall (fun _ v => h256_ok v) (storage acc)) s.

Lemma account_ok_default : account_ok account_default.
Proof. split_and!; [unfold uint; simpl; lia|constructor|unfold len, isize_max; simpl; lia]. Qed.

#[export] Instance hashmap_StateInv : StateInv (gmap Address Account).
Proof.
  refine {| state_ok := hm_ok |}.
  - intros s a acc Hs Ha. apply (Hs a acc Ha).
  - intros s a k Hs. simpl. unfold hm_get_storage.
    destruct (s !! a) as [acc|] eqn:Ha; [|apply h256_ok_zero].
    destruct (storage acc !! k) as [v|] eqn:Hk; [|apply h256_ok_zero].
    apply (proj2 (Hs a acc Ha) k v Hk).
  - intros s a k v Hs Hv. apply map_Forall_insert_2; [|done]. simpl.
    destruct (s !! a) as [acc|] eqn:Ha; simpl.
    + destruct (Hs a acc Ha) as [Hacc Hst]. split; [exact Hacc|].
      by apply map_Forall_insert_2.
    + split; [exact account_ok_default|].
      apply map_Forall_insert_2; [done|]. apply map_Forall_empty.
Defined.

(** ** The change journal *)

Record AccountChange := mkAccountChange {
  ac_address : Address;
  balance_change : option (Z * Z);
  nonce_change : option (Z * Z);
  code_change : option (list Z * list Z);
  storage_changes : gmap H256 (H256 * H256);
}.
Record StateChanges := mkStateChanges {
  account_changes : gmap Address AccountChange;
  created_accounts : list Address;
  deleted_accounts : list Address;
}.
Definition state_changes_new : StateChanges := mkStateChanges ∅ [] [].
(** [entry(address).or_insert_with(...)] *)
Definition change_entry (a : Address) (sc : StateChanges) : AccountChange :=
  default (mkAccountChange a None None None ∅) (account_changes sc !! a).
Definition record_balance_change (a : Address) (old new : Z) (sc : StateChanges) : StateChanges :=
  let c := change_entry a sc in
  mkStateChanges
    (<[a := mkAccountChange (ac_address c) (Some (old, new)) (nonce_change c) (code_change c)
              (storage_changes c)]> (account_changes sc))
    (created_accounts sc) (deleted_accounts sc).
Definition record_storage_change (a : Address) (k : H256) (old new : H256) (sc : StateChanges) :
    StateChanges :=
  let c := change_entry a sc in
  mkStateChanges
    (<[a := mkAccountChange (ac_address c) (balance_change c) (nonce_change c) (code_change c)
              (<[k := (old, new)]> (storage_changes c))]> (account_changes sc))
    (created_accounts sc) (deleted_accounts sc).
