(* ===== verification/EvmOpcodes.v ===== *)
(** The opcode table: crates/evm/src/opcodes.rs. *)
From stdpp Require Import base list numbers option.
From Stdlib Require Import ZArith Lia.
From S2P Require Import Prelude.

Module Op.
Inductive opcode :=
| STOP | ADD | MUL | SUB | DIV | SDIV | MOD | SMOD | ADDMOD | MULMOD | EXP | SIGNEXTEND | LT
| GT | SLT | SGT | EQ | ISZERO | AND | OR | XOR | NOT | BYTE | SHL | SHR | SAR | KECCAK256
| ADDRESS | BALANCE | ORIGIN | CALLER | CALLVALUE | CALLDATALOAD | CALLDATASIZE | CALLDATACOPY
| CODESIZE | CODECOPY | GASPRICE | EXTCODESIZE | EXTCODECOPY | RETURNDATASIZE | RETURNDATACOPY
| EXTCODEHASH | BLOCKHASH | COINBASE | TIMESTAMP | NUMBER | DIFFICULTY | GASLIMIT | CHAINID
| SELFBALANCE | BASEFEE | BLOBHASH | BLOBBASEFEE | POP | MLOAD | MSTORE | MSTORE8 | SLOAD
| SSTORE | JUMP | JUMPI | PC | MSIZE | GAS | JUMPDEST | TLOAD | TSTORE | MCOPY | PUSH0 | PUSH1
| PUSH2 | PUSH3 | PUSH4 | PUSH5 | PUSH6 | PUSH7 | PUSH8 | PUSH9 | PUSH10 | PUSH11 | PUSH12
| PUSH13 | PUSH14 | PUSH15 | PUSH16 | PUSH17 | PUSH18 | PUSH19 | PUSH20 | PUSH21 | PUSH22
| PUSH23 | PUSH24 | PUSH25 | PUSH26 | PUSH27 | PUSH28 | PUSH29 | PUSH30 | PUSH31 | PUSH32
| DUP1 | DUP2 | DUP3 | DUP4 | DUP5 | DUP6 | DUP7 | DUP8 | DUP9 | DUP10 | DUP11 | DUP12 | DUP13
| DUP14 | DUP15 | DUP16 | SWAP1 | SWAP2 | SWAP3 | SWAP4 | SWAP5 | SWAP6 | SWAP7 | SWAP8 | SWAP9
| SWAP10 | SWAP11 | SWAP12 | SWAP13 | SWAP14 | SWAP15 | SWAP16 | LOG0 | LOG1 | LOG2 | LOG3
| LOG4 | CREATE | CALL | CALLCODE | RETURN | DELEGATECALL | CREATE2 | STATICCALL
| REVERT | INVALID | SELFDESTRUCT.
End Op.
Notation Opcode := Op.opcode.

#[export] Instance Opcode_eq_dec : EqDecision Opcode.
Proof. solve_decision. Defined.

(** [op as u8]: the discriminants of the [repr(u8)] enum. *)
Definition op_u8 (op : Opcode) : Z :=
  match op with
  | Op.STOP => 0x00 | Op.ADD => 0x01 | Op.MUL => 0x02 | Op.SUB => 0x03 | Op.DIV => 0x04
  | Op.SDIV => 0x05 | Op.MOD => 0x06 | Op.SMOD => 0x07 | Op.ADDMOD => 0x08 | Op.MULMOD => 0x09
  | Op.EXP => 0x0a | Op.SIGNEXTEND => 0x0b | Op.LT => 0x10 | Op.GT => 0x11 | Op.SLT => 0x12
  | Op.SGT => 0x13 | Op.EQ => 0x14 | Op.ISZERO => 0x15 | Op.AND => 0x16 | Op.OR => 0x17
  | Op.XOR => 0x18 | Op.NOT => 0x19 | Op.BYTE => 0x1a | Op.SHL => 0x1b | Op.SHR => 0x1c
  | Op.SAR => 0x1d | Op.KECCAK256 => 0x20 | Op.ADDRESS => 0x30 | Op.BALANCE => 0x31
  | Op.ORIGIN => 0x32 | Op.CALLER => 0x33 | Op.CALLVALUE => 0x34 | Op.CALLDATALOAD => 0x35
  | Op.CALLDATASIZE => 0x36 | Op.CALLDATACOPY => 0x37 | Op.CODESIZE => 0x38
  | Op.CODECOPY => 0x39 | Op.GASPRICE => 0x3a | Op.EXTCODESIZE => 0x3b | Op.EXTCODECOPY => 0x3c
  | Op.RETURNDATASIZE => 0x3d | Op.RETURNDATACOPY => 0x3e | Op.EXTCODEHASH => 0x3f
  | Op.BLOCKHASH => 0x40 | Op.COINBASE => 0x41 | Op.TIMESTAMP => 0x42 | Op.NUMBER => 0x43
  | Op.DIFFICULTY => 0x44 | Op.GASLIMIT => 0x45 | Op.CHAINID => 0x46 | Op.SELFBALANCE => 0x47
  | Op.BASEFEE => 0x48 | Op.BLOBHASH => 0x49 | Op.BLOBBASEFEE => 0x4a | Op.POP => 0x50
  | Op.MLOAD => 0x51 | Op.MSTORE => 0x52 | Op.MSTORE8 => 0x53 | Op.SLOAD => 0x54
  | Op.SSTORE => 0x55 | Op.JUMP => 0x56 | Op.JUMPI => 0x57 | Op.PC => 0x58 | Op.MSIZE => 0x59
  | Op.GAS => 0x5a | Op.JUMPDEST => 0x5b | Op.TLOAD => 0x5c | Op.TSTORE => 0x5d
  | Op.MCOPY => 0x5e | Op.PUSH0 => 0x5f | Op.PUSH1 => 0x60 | Op.PUSH2 => 0x61
  | Op.PUSH3 => 0x62 | Op.PUSH4 => 0x63 | Op.PUSH5 => 0x64 | Op.PUSH6 => 0x65
  | Op.PUSH7 => 0x66 | Op.PUSH8 => 0x67 | Op.PUSH9 => 0x68 | Op.PUSH10 => 0x69
  | Op.PUSH11 => 0x6a | Op.PUSH12 => 0x6b | Op.PUSH13 => 0x6c | Op.PUSH14 => 0x6d
  | Op.PUSH15 => 0x6e | Op.PUSH16 => 0x6f | Op.PUSH17 => 0x70 | Op.PUSH18 => 0x71
  | Op.PUSH19 => 0x72 | Op.PUSH20 => 0x73 | Op.PUSH21 => 0x74 | Op.PUSH22 => 0x75
  | Op.PUSH23 => 0x76 | Op.PUSH24 => 0x77 | Op.PUSH25 => 0x78 | Op.PUSH26 => 0x79
  | Op.PUSH27 => 0x7a | Op.PUSH28 => 0x7b | Op.PUSH29 => 0x7c | Op.PUSH30 => 0x7d
  | Op.PUSH31 => 0x7e | Op.PUSH32 => 0x7f | Op.DUP1 => 0x80 | Op.DUP2 => 0x81 | Op.DUP3 => 0x82
  | Op.DUP4 => 0x83 | Op.DUP5 => 0x84 | Op.DUP6 => 0x85 | Op.DUP7 => 0x86 | Op.DUP8 => 0x87
  | Op.DUP9 => 0x88 | Op.DUP10 => 0x89 | Op.DUP11 => 0x8a | Op.DUP12 => 0x8b | Op.DUP13 => 0x8c
  | Op.DUP14 => 0x8d | Op.DUP15 => 0x8e | Op.DUP16 => 0x8f | Op.SWAP1 => 0x90
  | Op.SWAP2 => 0x91 | Op.SWAP3 => 0x92 | Op.SWAP4 => 0x93 | Op.SWAP5 => 0x94
  | Op.SWAP6 => 0x95 | Op.SWAP7 => 0x96 | Op.SWAP8 => 0x97 | Op.SWAP9 => 0x98
  | Op.SWAP10 => 0x99 | Op.SWAP11 => 0x9a | Op.SWAP12 => 0x9b | Op.SWAP13 => 0x9c
  | Op.SWAP14 => 0x9d | Op.SWAP15 => 0x9e | Op.SWAP16 => 0x9f | Op.LOG0 => 0xa0
  | Op.LOG1 => 0xa1 | Op.LOG2 => 0xa2 | Op.LOG3 => 0xa3 | Op.LOG4 => 0xa4 | Op.CREATE => 0xf0
  | Op.CALL => 0xf1 | Op.CALLCODE => 0xf2 | Op.RETURN => 0xf3 | Op.DELEGATECALL => 0xf4
  | Op.CREATE2 => 0xf5 | Op.STATICCALL => 0xfa
  | Op.REVERT => 0xfd | Op.INVALID => 0xfe | Op.SELFDESTRUCT => 0xff
  end.

(** The four ranges [from_u8] transmutes, in discriminant order. *)
Definition transmute_push : list Opcode :=
  [Op.PUSH1; Op.PUSH2; Op.PUSH3; Op.PUSH4; Op.PUSH5; Op.PUSH6; Op.PUSH7; Op.PUSH8; Op.PUSH9; Op.PUSH10; Op.PUSH11; Op.PUSH12; Op.PUSH13; Op.PUSH14; Op.PUSH15; Op.PUSH16; Op.PUSH17; Op.PUSH18; Op.PUSH19; Op.PUSH20; Op.PUSH21; Op.PUSH22; Op.PUSH23; Op.PUSH24; Op.PUSH25; Op.PUSH26; Op.PUSH27; Op.PUSH28; Op.PUSH29; Op.PUSH30; Op.PUSH31; Op.PUSH32].
Definition transmute_dup : list Opcode :=
  [Op.DUP1; Op.DUP2; Op.DUP3; Op.DUP4; Op.DUP5; Op.DUP6; Op.DUP7; Op.DUP8; Op.DUP9; Op.DUP10; Op.DUP11; Op.DUP12; Op.DUP13; Op.DUP14; Op.DUP15; Op.DUP16].
Definition transmute_swap : list Opcode :=
  [Op.SWAP1; Op.SWAP2; Op.SWAP3; Op.SWAP4; Op.SWAP5; Op.SWAP6; Op.SWAP7; Op.SWAP8; Op.SWAP9; Op.SWAP10; Op.SWAP11; Op.SWAP12; Op.SWAP13; Op.SWAP14; Op.SWAP15; Op.SWAP16].
Definition transmute_log : list Opcode :=
  [Op.LOG0; Op.LOG1; Op.LOG2; Op.LOG3; Op.LOG4].

Definition from_u8 (b : Z) : option Opcode :=
  if (0x60 <=? b) && (b <=? 0x7f) then transmute_push !! Z.to_nat (b - 0x60)
  else if (0x80 <=? b) && (b <=? 0x8f) then transmute_dup !! Z.to_nat (b - 0x80)
  else if (0x90 <=? b) && (b <=? 0x9f) then transmute_swap !! Z.to_nat (b - 0x90)
  else if (0xa0 <=? b) && (b <=? 0xa4) then transmute_log !! Z.to_nat (b - 0xa0)
  else
    match b with
    | 0x00 => Some Op.STOP | 0x01 => Some Op.ADD | 0x02 => Some Op.MUL | 0x03 => Some Op.SUB
    | 0x04 => Some Op.DIV | 0x05 => Some Op.SDIV | 0x06 => Some Op.MOD | 0x07 => Some Op.SMOD
    | 0x08 => Some Op.ADDMOD | 0x09 => Some Op.MULMOD | 0x0a => Some Op.EXP
    | 0x0b => Some Op.SIGNEXTEND | 0x10 => Some Op.LT | 0x11 => Some Op.GT
    | 0x12 => Some Op.SLT | 0x13 => Some Op.SGT | 0x14 => Some Op.EQ | 0x15 => Some Op.ISZERO
    | 0x16 => Some Op.AND | 0x17 => Some Op.OR | 0x18 => Some Op.XOR | 0x19 => Some Op.NOT
    | 0x1a => Some Op.BYTE | 0x1b => Some Op.SHL | 0x1c => Some Op.SHR | 0x1d => Some Op.SAR
    | 0x20 => Some Op.KECCAK256 | 0x30 => Some Op.ADDRESS | 0x31 => Some Op.BALANCE
    | 0x32 => Some Op.ORIGIN | 0x33 => Some Op.CALLER | 0x34 => Some Op.CALLVALUE
    | 0x35 => Some Op.CALLDATALOAD | 0x36 => Some Op.CALLDATASIZE
    | 0x37 => Some Op.CALLDATACOPY | 0x38 => Some Op.CODESIZE | 0x39 => Some Op.CODECOPY
    | 0x3a => Some Op.GASPRICE | 0x3b => Some Op.EXTCODESIZE | 0x3c => Some Op.EXTCODECOPY
    | 0x3d => Some Op.RETURNDATASIZE | 0x3e => Some Op.RETURNDATACOPY
    | 0x3f => Some Op.EXTCODEHASH | 0x40 => Some Op.BLOCKHASH | 0x41 => Some Op.COINBASE
    | 0x42 => Some Op.TIMESTAMP | 0x43 => Some Op.NUMBER | 0x44 => Some Op.DIFFICULTY
    | 0x45 => Some Op.GASLIMIT | 0x46 => Some Op.CHAINID | 0x47 => Some Op.SELFBALANCE
    | 0x48 => Some Op.BASEFEE | 0x49 => Some Op.BLOBHASH | 0x4a => Some Op.BLOBBASEFEE
    | 0x50 => Some Op.POP | 0x51 => Some Op.MLOAD | 0x52 => Some Op.MSTORE
    | 0x53 => Some Op.MSTORE8 | 0x54 => Some Op.SLOAD | 0x55 => Some Op.SSTORE
    | 0x56 => Some Op.JUMP | 0x57 => Some Op.JUMPI | 0x58 => Some Op.PC | 0x59 => Some Op.MSIZE
    | 0x5a => Some Op.GAS | 0x5b => Some Op.JUMPDEST | 0x5c => Some Op.TLOAD
    | 0x5d => Some Op.TSTORE | 0x5e => Some Op.MCOPY | 0x5f => Some Op.PUSH0
    | 0xf0 => Some Op.CREATE | 0xf1 => Some Op.CALL | 0xf2 => Some Op.CALLCODE
    | 0xf3 => Some Op.RETURN | 0xf4 => Some Op.DELEGATECALL | 0xf5 => Some Op.CREATE2
    | 0xfa => Some Op.STATICCALL
    | 0xfd => Some Op.REVERT | 0xfe => Some Op.INVALID | 0xff => Some Op.SELFDESTRUCT
    | _ => None
    end.

Definition is_push (op : Opcode) : bool :=
  (op_u8 Op.PUSH1 <=? op_u8 op) && (op_u8 op <=? op_u8 Op.PUSH32).
Definition is_dup (op : Opcode) : bool :=
  (op_u8 Op.DUP1 <=? op_u8 op) && (op_u8 op <=? op_u8 Op.DUP16).
Definition is_swap (op : Opcode) : bool :=
  (op_u8 Op.SWAP1 <=? op_u8 op) && (op_u8 op <=? op_u8 Op.SWAP16).
Definition is_log (op : Opcode) : bool :=
  (op_u8 Op.LOG0 <=? op_u8 op) && (op_u8 op <=? op_u8 Op.LOG4).
Definition push_bytes (op : Opcode) : option Z :=
  if is_push op then Some (op_u8 op - op_u8 Op.PUSH1 + 1) else None.

Definition stack_inputs (op : Opcode) : Z :=
  match op with
  | Op.STOP => 0
  | Op.ADD | Op.MUL | Op.SUB | Op.DIV | Op.SDIV | Op.MOD | Op.SMOD => 2
  | Op.ADDMOD | Op.MULMOD => 3
  | Op.EXP | Op.SIGNEXTEND => 2
  | Op.LT | Op.GT | Op.SLT | Op.SGT | Op.EQ => 2
  | Op.ISZERO | Op.NOT => 1
  | Op.AND | Op.OR | Op.XOR => 2
  | Op.BYTE => 2
  | Op.SHL | Op.SHR | Op.SAR => 2
  | Op.KECCAK256 => 2
  | Op.ADDRESS | Op.ORIGIN | Op.CALLER | Op.CALLVALUE => 0
  | Op.CALLDATALOAD => 1
  | Op.CALLDATASIZE | Op.CODESIZE => 0
  | Op.CALLDATACOPY | Op.CODECOPY => 3
  | Op.GASPRICE => 0
  | Op.EXTCODESIZE | Op.BALANCE | Op.EXTCODEHASH => 1
  | Op.EXTCODECOPY => 4
  | Op.RETURNDATASIZE => 0
  | Op.RETURNDATACOPY => 3
  | Op.BLOCKHASH => 1
  | Op.COINBASE | Op.TIMESTAMP | Op.NUMBER | Op.DIFFICULTY | Op.GASLIMIT => 0
  | Op.CHAINID | Op.SELFBALANCE | Op.BASEFEE => 0
  | Op.BLOBHASH => 1
  | Op.BLOBBASEFEE => 0
  | Op.POP => 1
  | Op.MLOAD | Op.SLOAD => 1
  | Op.MSTORE | Op.SSTORE => 2
  | Op.MSTORE8 => 2
  | Op.JUMP => 1
  | Op.JUMPI => 2
  | Op.PC | Op.MSIZE | Op.GAS => 0
  | Op.JUMPDEST => 0
  | Op.TLOAD => 1
  | Op.TSTORE => 2
  | Op.MCOPY => 3
  | Op.PUSH0 => 0
  | Op.LOG0 => 2 | Op.LOG1 => 3 | Op.LOG2 => 4 | Op.LOG3 => 5 | Op.LOG4 => 6
  | Op.CREATE => 3
  | Op.CALL | Op.CALLCODE => 7
  | Op.RETURN | Op.REVERT => 2
  | Op.DELEGATECALL | Op.STATICCALL => 6
  | Op.CREATE2 => 4
  | Op.SELFDESTRUCT => 1
  | Op.INVALID => 0
  | op =>
      if is_push op then 0
      else if is_dup op then op_u8 op - op_u8 Op.DUP1 + 1
      else if is_swap op then op_u8 op - op_u8 Op.SWAP1 + 2
      else 0
  end.

Definition stack_outputs (op : Opcode) : Z :=
  match op with
  | Op.STOP | Op.JUMP | Op.JUMPI | Op.RETURN | Op.REVERT
  | Op.SELFDESTRUCT | Op.SSTORE | Op.POP | Op.MSTORE | Op.MSTORE8
  | Op.CALLDATACOPY | Op.CODECOPY | Op.EXTCODECOPY | Op.RETURNDATACOPY
  | Op.LOG0 | Op.LOG1 | Op.LOG2 | Op.LOG3 | Op.LOG4 | Op.JUMPDEST
  | Op.TSTORE | Op.MCOPY => 0
  | Op.PUSH0 => 1
  | Op.CREATE | Op.CREATE2 | Op.CALL | Op.CALLCODE
  | Op.DELEGATECALL | Op.STATICCALL => 1
  | Op.INVALID => 0
  | op =>
      if is_push op then 1
      else if is_dup op then op_u8 op - op_u8 Op.DUP1 + 2
      else if is_swap op then op_u8 op - op_u8 Op.SWAP1 + 2
      else 1
  end.

Lemma from_u8_op_u8_aux op : from_u8 (op_u8 op) = Some op.
Proof. destruct op; reflexivity. Qed.

Definition from_u8_check (b : Z) : bool :=
  match from_u8 b with
  | Some op => op_u8 op =? b
  | None =>
      (0x0c <=? b) && (b <=? 0x0f) || (b =? 0x1e) || (b =? 0x1f)
      || (0x21 <=? b) && (b <=? 0x2f) || (0x4b <=? b) && (b <=? 0x4f)
      || (0xa5 <=? b) && (b <=? 0xef) || (0xf6 <=? b) && (b <=? 0xf9)
      || (b =? 0xfb) || (b =? 0xfc)
  end.

(** decoding an opcode byte and the enum discriminant are inverse: the
    byte of every opcode decodes to it, and a byte either decodes to the opcode
    with that discriminant (also through the [transmute] ranges, which
    therefore never produce an invalid enum value) or lies in one of the
    unassigned ranges. *)
Theorem opcode_byte_roundtrip :
  (forall op, from_u8 (op_u8 op) = Some op /\ byte (op_u8 op)) /\
  (forall b, byte b -> match from_u8 b with
                       | Some op => op_u8 op = b
                       | None => from_u8_check b = true
                       end).
Proof.
  split.
  - intros op. split; [apply from_u8_op_u8_aux|]. unfold byte. by destruct op.
  - intros b Hb. assert (Hc : from_u8_check b = true) by (apply all_bytes; [reflexivity|done]).
    unfold from_u8_check in *. destruct (from_u8 b); [|done]. by apply Z.eqb_eq.
Qed.
