(* ===== verification/EvmArith.v ===== *)
(** The arithmetic helpers of the interpreter (crates/evm/src/interpreter.rs,
    [signed_div] to [address_from_u256]) and what they compute on the two's
    complement reading of a word. *)
From stdpp Require Import base list numbers option.
From Stdlib Require Import ZArith Lia.
From S2P Require Import Prelude U256 EvmMachine.

Section arith.
Context `{U256Ops}.

Definition is_negative (value : Z) : bool := u_bit value 255.
Definition twos_complement (value : Z) : Z := fst (u_overflowing_add (u_not value) 1).

Definition signed_div (a b : Z) : outcome EvmError Z :=
  if b =? 0 then Ok 0
  else
    let a_negative := is_negative a in
    let b_negative := is_negative b in
    let a_abs := if a_negative then twos_complement a else a in
    let b_abs := if b_negative then twos_complement b else b in
    let? result := unwrap (u_div a_abs b_abs) in
    Ok (if negb (Bool.eqb a_negative b_negative) then twos_complement result else result).

Definition signed_mod (a b : Z) : outcome EvmError Z :=
  if b =? 0 then Ok 0
  else
    let a_negative := is_negative a in
    let a_abs := if a_negative then twos_complement a else a in
    let b_abs := if is_negative b then twos_complement b else b in
    let? result := unwrap (u_rem a_abs b_abs) in
    Ok (if a_negative && negb (result =? 0) then twos_complement result else result).

Definition sign_extend (ext x : Z) : outcome EvmError Z :=
  if 32 <=? ext then Ok x
  else
    let? ext := unwrap (u_as_usize ext) in
    let bit_index := ext * 8 + 7 in
    let bit := u_bit x bit_index in
    let? mask := unwrap (u_sub (u_shl 1 (bit_index + 1)) 1) in
    Ok (if bit then u_or x (u_not mask) else u_and x mask).

Definition arithmetic_shr (value shift : Z) : outcome EvmError Z :=
  if 256 <=? shift then Ok (if is_negative value then U256_MAX else 0)
  else
    let? shift := unwrap (u_as_usize shift) in
    if is_negative value then
      let shifted := u_shr value shift in
      let mask := u_shl U256_MAX (256 - shift) in
      Ok (u_or shifted mask)
    else Ok (u_shr value shift).

Definition slt (a b : Z) : Z :=
  if Bool.eqb (is_negative a) (is_negative b) then (if a <? b then 1 else 0)
  else if is_negative a then 1 else 0.
Definition sgt (a b : Z) : Z :=
  if Bool.eqb (is_negative a) (is_negative b) then (if b <? a then 1 else 0)
  else if is_negative b then 1 else 0.

(** [Address::from_slice(&bytes[12..])]: the slice has 20 bytes. *)
Definition address_from_u256 (value : Z) : Address :=
  let b := drop 12 (u_to_big_endian value) in
  if len b =? 20 then b else replicate 20 0.
End arith.

(** * Specifications *)

(** The two's complement reading of a word, and the word of an integer. *)
Definition to_signed (x : Z) : Z := if x <? 2 ^ 255 then x else x - 2 ^ 256.
Definition of_signed (z : Z) : Z := z mod 2 ^ 256.

Section arith_spec.
Context `{U256Laws}.

Lemma testbit_255 v : U256 v -> Z.testbit v 255 = (2 ^ 255 <=? v).
Proof.
  unfold uint. intros Hv. rewrite Z.testbit_eqb by lia.
  change (2 ^ 256) with (2 * 2 ^ 255) in Hv. destruct (Z.leb_spec (2 ^ 255) v).
  - replace (v / 2 ^ 255) with 1; [done|].
    apply Z.div_unique with (v - 2 ^ 255); lia.
  - rewrite Z.div_small by lia. done.
Qed.

Lemma is_negative_spec v : U256 v -> is_negative v = (2 ^ 255 <=? v).
Proof. intros Hv. unfold is_negative. rewrite bit_law by (done || lia). by apply testbit_255. Qed.

Lemma not_range v : U256 v -> U256 (u_not v).
Proof. intros Hv. rewrite not_law by done. unfold uint in *. lia. Qed.

Lemma twos_complement_spec v : U256 v -> twos_complement v = (- v) mod 2 ^ 256.
Proof.
  intros Hv. unfold twos_complement.
  rewrite overflowing_add_law by (auto using not_range; unfold uint; lia). simpl.
  rewrite not_law by done. replace (U256_MAX - v + 1) with (- v + 1 * 2 ^ 256) by lia.
  by rewrite Z.mod_add by lia.
Qed.

Lemma twos_complement_pos v : 0 < v < 2 ^ 256 -> twos_complement v = 2 ^ 256 - v.
Proof.
  intros Hv. rewrite twos_complement_spec by (unfold uint; lia).
  symmetry. apply Z.mod_unique with (-1); lia.
Qed.

(** The absolute value the signed operations divide. *)
Lemma abs_spec v : U256 v ->
  (if is_negative v then twos_complement v else v) = Z.abs (to_signed v) /\
  U256 (Z.abs (to_signed v)) /\ (v <> 0 -> Z.abs (to_signed v) <> 0) /\
  is_negative v = (to_signed v <? 0).
Proof.
  intros Hv. rewrite is_negative_spec by done. unfold to_signed, uint in *.
  change (2 ^ 256) with (2 * 2 ^ 255) in *.
  destruct (Z.leb_spec (2 ^ 255) v); destruct (Z.ltb_spec v (2 ^ 255)); try lia.
  rewrite twos_complement_pos by (change (2 ^ 256) with (2 * 2 ^ 255); lia).
  change (2 ^ 256) with (2 * 2 ^ 255). split_and!; lia.
Qed.

Lemma signed_div_correct a b : U256 a -> U256 b ->
  signed_div a b = Ok (if b =? 0 then 0 else of_signed (Z.quot (to_signed a) (to_signed b))).
Proof.
  intros Ha Hb. unfold signed_div. destruct (Z.eqb_spec b 0); [done|].
  destruct (abs_spec a Ha) as (Ea & Ra & _ & Na), (abs_spec b Hb) as (Eb & Rb & Zb & Nb).
  rewrite Ea, Eb, div_law, (proj2 (Z.eqb_neq _ _)) by auto. simpl. f_equal.
  rewrite Na, Nb. unfold of_signed. set (x := to_signed a) in *. set (y := to_signed b) in *.
  assert (Hy : y <> 0) by (specialize (Zb n); lia). clearbody x y.
  assert (Hq : U256 (Z.abs x / Z.abs y)).
  { unfold uint in *. split; [apply Z.div_pos; lia|].
    apply Z.le_lt_trans with (Z.abs x); [apply Z.div_le_upper_bound; nia|lia]. }
  assert (Hquot : Z.quot x y = Z.sgn x * Z.sgn y * (Z.abs x / Z.abs y)) by (by apply Z.quot_div).
  rewrite Hquot. destruct (Z.ltb_spec x 0), (Z.ltb_spec y 0); simpl.
  - rewrite Z.mod_small; [|unfold uint in Hq]; rewrite ?Z.sgn_neg by lia; lia.
  - rewrite twos_complement_spec by done. f_equal. rewrite Z.sgn_neg, Z.sgn_pos by lia. lia.
  - rewrite twos_complement_spec by done. f_equal. rewrite (Z.sgn_neg y) by lia.
    destruct (Z.eq_dec x 0) as [->|]; [|rewrite Z.sgn_pos by lia; lia].
    rewrite Z.div_0_l by lia. lia.
  - rewrite (Z.sgn_pos y) by lia.
    destruct (Z.eq_dec x 0) as [->|].
    + rewrite Z.div_0_l by lia. done.
    + rewrite Z.sgn_pos, Z.mod_small by (unfold uint in Hq; lia). lia.
Qed.

Lemma signed_mod_correct a b : U256 a -> U256 b ->
  signed_mod a b = Ok (if b =? 0 then 0 else of_signed (Z.rem (to_signed a) (to_signed b))).
Proof.
  intros Ha Hb. unfold signed_mod. destruct (Z.eqb_spec b 0); [done|].
  destruct (abs_spec a Ha) as (Ea & Ra & _ & Na), (abs_spec b Hb) as (Eb & Rb & Zb & Nb).
  rewrite Ea, Eb, rem_law, (proj2 (Z.eqb_neq _ _)) by auto. simpl. f_equal.
  rewrite Na. unfold of_signed. set (x := to_signed a) in *. set (y := to_signed b) in *.
  assert (Hy : y <> 0) by (specialize (Zb n); lia). clearbody x y.
  assert (Hr : 0 <= Z.abs x mod Z.abs y < Z.abs y) by (apply Z.mod_pos_bound; lia).
  assert (Hrem : Z.rem x y = Z.sgn x * (Z.abs x mod Z.abs y)) by (by apply Z.rem_mod).
  rewrite Hrem. unfold uint in *. destruct (Z.ltb_spec x 0); simpl.
  - rewrite (Z.sgn_neg x) by lia. destruct (Z.eqb_spec (Z.abs x mod Z.abs y) 0) as [->|]; [done|].
    simpl. rewrite twos_complement_spec by (unfold uint; lia). f_equal; lia.
  - destruct (Z.eq_dec x 0) as [->|]; [by rewrite Z.mod_0_l by lia|].
    rewrite Z.sgn_pos, (Z.mod_small _ (2 ^ 256)) by lia. lia.
Qed.

(** Setting the bits from [w] up keeps the low ones. *)
Lemma lor_high x w : U256 x -> 0 <= w <= 256 ->
  Z.lor x (2 ^ 256 - 2 ^ w) = x mod 2 ^ w + (2 ^ 256 - 2 ^ w).
Proof.
  unfold uint. intros Hx Hw.
  assert (Hm : 2 ^ 256 - 2 ^ w = Z.shiftl (Z.ones (256 - w)) w).
  { rewrite Z.shiftl_mul_pow2, Z.ones_equiv by lia.
    replace 256 with ((256 - w) + w) at 1 by lia. rewrite Z.pow_add_r by lia. nia. }
  rewrite Hm, <- (Z.land_ones x w) by lia.
  assert (Hbit : forall i, 0 <= i -> Z.testbit (Z.shiftl (Z.ones (256 - w)) w) i
                = (w <=? i) && (i <? 256)).
  { intros i Hi. rewrite Z.shiftl_spec by lia. case_bool;
      first [by rewrite Z.ones_spec_low by lia | by rewrite Z.ones_spec_high by lia
            | by rewrite Z.testbit_neg_r by lia]. }
  assert (Hdis : Z.land (Z.land x (Z.ones w)) (Z.shiftl (Z.ones (256 - w)) w) = 0).
  { apply Z.bits_inj'. intros i Hi. rewrite !Z.land_spec, Hbit, Z.testbit_0_l by lia.
    destruct (Z.leb_spec w i); simpl; [|by rewrite andb_false_r].
    rewrite Z.ones_spec_high by lia. by rewrite andb_false_r. }
  rewrite Z.add_nocarry_lxor, Z.lxor_lor by done.
  apply Z.bits_inj'. intros i Hi. rewrite !Z.lor_spec, Z.land_spec, Hbit by lia.
  destruct (Z.leb_spec w i); simpl.
  - destruct (Z.ltb_spec i 256); simpl; [by rewrite !orb_true_r|].
    rewrite <- (Z.mod_small x (2 ^ 256)), Z.mod_pow2_bits_high by lia. done.
  - rewrite Z.ones_spec_low, andb_true_r by lia. done.
Qed.

(** The low [w] bits of [x], read as a two's complement number of [w] bits. *)
Definition sext (w x : Z) : Z :=
  let m := x mod 2 ^ w in if m <? 2 ^ (w - 1) then m else m - 2 ^ w.

Lemma testbit_mod_top x w : 0 < w -> Z.testbit x (w - 1) = (2 ^ (w - 1) <=? x mod 2 ^ w).
Proof.
  intros Hw. rewrite <- (Z.mod_pow2_bits_low x w (w - 1)) by lia.
  assert (Hp : 2 ^ w = 2 * 2 ^ (w - 1)) by (rewrite <- Z.pow_succ_r by lia; f_equal; lia).
  assert (0 < 2 ^ (w - 1)) by (apply Z.pow_pos_nonneg; lia).
  pose proof (Z.mod_pos_bound x (2 ^ w) ltac:(lia)) as Hm. set (m := x mod 2 ^ w) in *.
  rewrite Z.testbit_eqb by lia. destruct (Z.leb_spec (2 ^ (w - 1)) m).
  - replace (m / 2 ^ (w - 1)) with 1; [done|]. apply Z.div_unique with (m - 2 ^ (w - 1)); lia.
  - by rewrite Z.div_small by lia.
Qed.

Lemma sign_extend_correct ext x : U256 ext -> U256 x ->
  sign_extend ext x =
    if 32 <=? ext then Ok x
    else if ext =? 31 then Panic
    else Ok (of_signed (sext (8 * (ext + 1)) x)).
Proof.
  intros He Hx. unfold sign_extend. destruct (Z.leb_spec 32 ext); [done|].
  unfold uint in He. rewrite as_usize_law, (proj2 (Z.ltb_lt ext (2 ^ 64))) by (unfold uint; lia).
  simpl. set (w := 8 * (ext + 1)). replace (ext * 8 + 7 + 1) with w by lia.
  rewrite shl_law by (unfold uint; lia). rewrite Z.shiftl_1_l.
  destruct (Z.eqb_spec ext 31) as [->|Hne].
  { by rewrite sub_law by (unfold uint; vm_compute; split; congruence). }
  assert (Hw : 8 <= w <= 248) by lia.
  assert (Hp : 0 < 2 ^ w < 2 ^ 256) by (split; [apply Z.pow_pos_nonneg|apply Z.pow_lt_mono_r]; lia).
  rewrite Z.mod_small, sub_law, (proj2 (Z.leb_le 1 (2 ^ w))) by (unfold uint; lia).
  simpl. f_equal. replace (ext * 8 + 7) with (w - 1) by lia.
  rewrite bit_law, testbit_mod_top by (done || lia). unfold of_signed, sext.
  assert (Hp2 : 2 ^ w = 2 * 2 ^ (w - 1)) by (rewrite <- Z.pow_succ_r by lia; f_equal; lia).
  pose proof (Z.mod_pos_bound x (2 ^ w) ltac:(lia)) as Hm.
  destruct (Z.leb_spec (2 ^ (w - 1)) (x mod 2 ^ w)), (Z.ltb_spec (x mod 2 ^ w) (2 ^ (w - 1))); try lia.
  - rewrite not_law, or_law by (unfold uint in *; lia).
    replace (U256_MAX - (2 ^ w - 1)) with (2 ^ 256 - 2 ^ w) by lia.
    rewrite lor_high by (done || lia). apply Z.mod_unique with (-1); lia.
  - rewrite and_law by (unfold uint in *; lia).
    replace (2 ^ w - 1) with (Z.ones w) by (rewrite Z.ones_equiv; lia).
    rewrite Z.land_ones, (Z.mod_small (x mod 2 ^ w)) by lia. done.
Qed.

Lemma arithmetic_shr_correct value shift : U256 value -> U256 shift ->
  arithmetic_shr value shift = Ok (of_signed (Z.shiftr (to_signed value) shift)).
Proof.
  intros Hv Hs. unfold arithmetic_shr. rewrite !is_negative_spec by done.
  unfold of_signed, to_signed. unfold uint in Hv, Hs.
  rewrite Z.shiftr_div_pow2 by lia.
  assert (Hn : (2 ^ 255 <=? value) = negb (value <? 2 ^ 255)) by (case_bool; lia || done).
  rewrite Hn. destruct (Z.leb_spec 256 shift) as [Hge|Hlt].
  - assert (2 ^ 256 <= 2 ^ shift) by (apply Z.pow_le_mono_r; lia). f_equal.
    destruct (Z.ltb_spec value (2 ^ 255)); simpl; [by rewrite Z.div_small by lia|].
    replace ((value - 2 ^ 256) / 2 ^ shift) with (-1); [done|].
    apply Z.div_unique with (value - 2 ^ 256 + 2 ^ shift); lia.
  - rewrite as_usize_law, (proj2 (Z.ltb_lt shift (2 ^ 64))) by (unfold uint; lia). simpl.
    assert (0 < 2 ^ shift) by (apply Z.pow_pos_nonneg; lia).
    rewrite shr_law, Z.shiftr_div_pow2 by (unfold uint; lia).
    assert (0 <= value / 2 ^ shift < 2 ^ 256) by
      (split; [apply Z.div_pos; lia|apply Z.div_lt_upper_bound; nia]).
    destruct (Z.ltb_spec value (2 ^ 255)); simpl; f_equal; [by rewrite Z.mod_small|].
    assert (Hp : 2 ^ 256 = 2 ^ (256 - shift) * 2 ^ shift) by
      (rewrite <- Z.pow_add_r by lia; f_equal; lia).
    assert (Hk : 0 < 2 ^ (256 - shift) <= 2 ^ 256) by
      (split; [apply Z.pow_pos_nonneg; lia|apply Z.pow_le_mono_r; lia]).
    rewrite shl_law, Z.shiftl_mul_pow2 by (unfold uint; lia).
    replace ((2 ^ 256 - 1) * 2 ^ (256 - shift) mod 2 ^ 256) with (2 ^ 256 - 2 ^ (256 - shift)).
    2:{ destruct (Z.eq_dec shift 0) as [->|]; [reflexivity|].
        assert (2 ^ (256 - shift) < 2 ^ 256) by (apply Z.pow_lt_mono_r; lia).
        apply Z.mod_unique with (2 ^ (256 - shift) - 1); lia. }
    rewrite or_law, lor_high by (unfold uint; lia).
    assert (value / 2 ^ shift < 2 ^ (256 - shift)) by (apply Z.div_lt_upper_bound; lia).
    rewrite Z.mod_small by lia.
    replace (value - 2 ^ 256) with (value + (- 2 ^ (256 - shift)) * 2 ^ shift) by lia.
    rewrite Z.div_add by lia. apply Z.mod_unique with (-1); lia.
Qed.

Lemma slt_correct a b : U256 a -> U256 b ->
  slt a b = (if to_signed a <? to_signed b then 1 else 0) /\
  sgt a b = (if to_signed b <? to_signed a then 1 else 0).
Proof.
  intros Ha Hb. unfold slt, sgt. rewrite !is_negative_spec by done.
  unfold to_signed, uint in *. change (2 ^ 256) with (2 * 2 ^ 255) in *.
  destruct (Z.leb_spec (2 ^ 255) a), (Z.leb_spec (2 ^ 255) b);
    destruct (Z.ltb_spec a (2 ^ 255)), (Z.ltb_spec b (2 ^ 255)); try lia; simpl;
    split; case_bool; lia.
Qed.

Lemma address_from_u256_correct v : U256 v ->
  address_from_u256 v = to_be 20 v /\ length (address_from_u256 v) = 20%nat.
Proof.
  intros Hv. unfold address_from_u256. rewrite to_big_endian_law by done.
  change (drop 12 (to_be 32 v)) with (to_be 20 v). unfold len. rewrite length_to_be.
  change (Z.of_nat 20 =? 20) with true. split; [done|apply length_to_be].
Qed.

(** the signed operations compute on the two's complement reading of their
    operands: [SDIV] and [SMOD] truncate toward zero (and give 0 for a zero
    divisor), [SAR] is the arithmetic shift for every shift amount, [SLT] and
    [SGT] compare signed values; none of them panics. *)
Theorem signed_operations_correct a b : U256 a -> U256 b ->
  signed_div a b = Ok (if b =? 0 then 0 else of_signed (Z.quot (to_signed a) (to_signed b))) /\
  signed_mod a b = Ok (if b =? 0 then 0 else of_signed (Z.rem (to_signed a) (to_signed b))) /\
  arithmetic_shr a b = Ok (of_signed (Z.shiftr (to_signed a) b)) /\
  slt a b = (if to_signed a <? to_signed b then 1 else 0) /\
  sgt a b = (if to_signed b <? to_signed a then 1 else 0).
Proof.
  intros Ha Hb. pose proof (slt_correct a b Ha Hb) as [? ?].
  auto 10 using signed_div_correct, signed_mod_correct, arithmetic_shr_correct.
Qed.

(** [SIGNEXTEND] extends the sign of the low [ext + 1] bytes for [ext]
    below 31 and is the identity from 32 up; at [ext = 31] it panics, because
    the mask is computed as [(1 << 256) - 1] and the subtraction underflows. *)
Theorem sign_extend_behaviour ext x : U256 ext -> U256 x ->
  (ext < 31 -> sign_extend ext x = Ok (of_signed (sext (8 * (ext + 1)) x))) /\
  (ext = 31 -> sign_extend ext x = Panic) /\
  (32 <= ext -> sign_extend ext x = Ok x).
Proof.
  intros He Hx. rewrite sign_extend_correct by done. case_bool; split_and!; intros; done || lia.
Qed.
End arith_spec.

Lemma signed_operations_correct_witness :
  let a := 2 ^ 256 - 7 in
  signed_div a 2 = Ok (if 2 =? 0 then 0 else of_signed (Z.quot (to_signed a) (to_signed 2))) /\
  signed_mod a 2 = Ok (if 2 =? 0 then 0 else of_signed (Z.rem (to_signed a) (to_signed 2))) /\
  arithmetic_shr a 2 = Ok (of_signed (Z.shiftr (to_signed a) 2)) /\
  slt a 2 = (if to_signed a <? to_signed 2 then 1 else 0) /\
  sgt a 2 = (if to_signed 2 <? to_signed a then 1 else 0).
Proof. apply (signed_operations_correct (2 ^ 256 - 7) 2); unfold uint; lia. Defined.

Lemma sign_extend_behaviour_witness :
  (31 < 31 -> sign_extend 31 5 = Ok (of_signed (sext (8 * (31 + 1)) 5))) /\
  (31 = 31 -> sign_extend 31 5 = Panic) /\
  (32 <= 31 -> sign_extend 31 5 = Ok 5).
Proof. apply (sign_extend_behaviour 31 5); unfold uint; lia. Defined.
