(* ===== verification/EvmInterp.v ===== *)
(** The EVM interpreter: crates/evm/src/execution.rs, interpreter.rs and the
    [Evm] of lib.rs.  The interpreter object is the record [Interp]; a method on
    [&mut self] is a state-passing computation [M]; each arm of the [match] of
    [execute_opcode] is a definition of its own. *)
From stdpp Require Import base list numbers option gmap.
From Stdlib Require Import ZArith Lia.
From S2P Require Import Prelude U256 EvmMachine EvmOpcodes EvmArith.

(** * execution.rs *)

Record BlockContext := mkBlockContext {
  coinbase : Address;
  number : Z;
  timestamp : Z;
  difficulty : Z;
  block_gas_limit : Z;
  base_fee : option Z;
  chain_id : Z;
  block_hashes : list H256;
}.

Record ExecutionContext := mkContext {
  caller : Address;
  address : Address;
  origin : Address;
  value : Z;
  ctx_code : list Z;
  data : list Z;
  gas_price : Z;
  gas_limit : Z;
  block : BlockContext;
  is_static : bool;
  depth : Z;
}.

Inductive HaltReason :=
| HaltOutOfGas
| HaltInvalidOpcode (op : Z)
| HaltStackUnderflow
| HaltStackOverflow
| HaltInvalidJump
| HaltCallDepthExceeded
| HaltCreateCollision
| HaltCreateContractTooLarge
| HaltPrecompileFailed
| HaltStateModificationInStatic
| HaltInvalidCode.

Inductive ExecutionStatus := Success | Revert | Halt (r : HaltReason).

Record Log := mkLog { log_address : Address; topics : list H256; log_data : list Z }.

Record ExecutionResult := mkResult {
  status : ExecutionStatus;
  gas_used : Z;
  res_gas_refund : Z;
  return_data : list Z;
  res_logs : list Log;
  created_address : option Address;
  accessed_addresses : gset Address;
  accessed_storage_keys : gset (Address * H256);
}.

Definition context_new (caller address : Address) (value : Z) (code data : list Z)
    (gas_limit : Z) (block : BlockContext) : ExecutionContext :=
  mkContext caller address caller value code data 0 gas_limit block false 0.
Definition is_create (c : ExecutionContext) : bool := bool_decide (address c = replicate 20 0).
Definition with_static (c : ExecutionContext) : ExecutionContext :=
  mkContext (caller c) (address c) (origin c) (value c) (ctx_code c) (data c) (gas_price c)
    (gas_limit c) (block c) true (depth c).
Definition with_depth (d : Z) (c : ExecutionContext) : ExecutionContext :=
  mkContext (caller c) (address c) (origin c) (value c) (ctx_code c) (data c) (gas_price c)
    (gas_limit c) (block c) (is_static c) d.

Definition success (return_data : list Z) (gas_used : Z) : ExecutionResult :=
  mkResult Success gas_used 0 return_data [] None ∅ ∅.
Definition revert (return_data : list Z) (gas_used : Z) : ExecutionResult :=
  mkResult Revert gas_used 0 return_data [] None ∅ ∅.
Definition halt (reason : HaltReason) (gas_used : Z) : ExecutionResult :=
  mkResult (Halt reason) gas_used 0 [] [] None ∅ ∅.

(** * The interpreter object *)

Record Interp (S : Type) := mkInterp {
  context : ExecutionContext;
  state : S;
  stack : Stack;
  memory : Memory;
  gas : Gas;
  pc : Z;
  i_return_data : list Z;
  logs : list Log;
  result : option ExecutionResult;
}.
Arguments mkInterp {S} context state stack memory gas pc i_return_data logs result.
Arguments context {S} i.
Arguments state {S} i.
Arguments stack {S} i.
Arguments memory {S} i.
Arguments gas {S} i.
Arguments pc {S} i.
Arguments i_return_data {S} i.
Arguments logs {S} i.
Arguments result {S} i.

Section fields.
Context {S : Type}.

Definition set_state x (i : Interp S) : Interp S := mkInterp (context i) x (stack i) (memory i) (gas i) (pc i) (i_return_data i) (logs i) (result i).
Definition set_stack x (i : Interp S) : Interp S := mkInterp (context i) (state i) x (memory i) (gas i) (pc i) (i_return_data i) (logs i) (result i).
Definition set_memory x (i : Interp S) : Interp S := mkInterp (context i) (state i) (stack i) x (gas i) (pc i) (i_return_data i) (logs i) (result i).
Definition set_gas x (i : Interp S) : Interp S := mkInterp (context i) (state i) (stack i) (memory i) x (pc i) (i_return_data i) (logs i) (result i).
Definition set_pc x (i : Interp S) : Interp S := mkInterp (context i) (state i) (stack i) (memory i) (gas i) x (i_return_data i) (logs i) (result i).
Definition set_logs x (i : Interp S) : Interp S := mkInterp (context i) (state i) (stack i) (memory i) (gas i) (pc i) (i_return_data i) x (result i).
Definition set_result x (i : Interp S) : Interp S := mkInterp (context i) (state i) (stack i) (memory i) (gas i) (pc i) (i_return_data i) (logs i) x.
End fields.

Definition interpreter_new {S} (ctx : ExecutionContext) (st : S) : Interp S :=
  mkInterp ctx st stack_new memory_new (gas_new (gas_limit ctx)) 0 [] [] None.

Section interp.
Context {S : Type} `{StateDB S} `{U256Ops} `{KeccakOps} `{Profile}.

Notation M := (SM (Interp S) EvmError).

(** [self.stack.f()], [self.memory.f()], [self.gas.f()]: a method of a field. *)
Definition on_stack {A} (m : SM Stack EvmError A) : M A :=
  fun i => let '(r, x) := m (stack i) in (r, set_stack x i).
Definition on_memory {A} (m : SM Memory EvmError A) : M A :=
  fun i => let '(r, x) := m (memory i) in (r, set_memory x i).
Definition on_gas {A} (m : SM Gas EvmError A) : M A :=
  fun i => let '(r, x) := m (gas i) in (r, set_gas x i).
Definition get {A} (f : Interp S -> A) : M A := fun i => (Ok (f i), i).

Definition push (v : Z) : M unit := on_stack (stack_push v).
Definition pop : M Z := on_stack stack_pop.
Definition consume (c : Z) : M unit := on_gas (gas_consume c).
(** [self.pc += 1] *)
Definition advance : M unit :=
  let! p := get pc in
  let! p' := slift (uadd 64 p 1) in
  smodify (set_pc p').
Definition as_usize (v : Z) : M Z := or_panic (u_as_usize v).
(** [U256::from(&[u8])] *)
Definition u256_from_bytes (l : list Z) : M Z := or_panic (u_from_big_endian l).
(** [self.memory.get(offset.as_usize(), size.as_usize())] *)
Definition mem_get (offset size : Z) : M (list Z) :=
  let! o := as_usize offset in
  let! n := as_usize size in
  let! m := get memory in
  slift (memory_get o n m).

Definition get_slice (d : list Z) (offset size : Z) : outcome EvmError (list Z) :=
  if size =? 0 then Ok []
  else
    let? offset := unwrap (u_as_usize offset) in
    let? size := unwrap (u_as_usize size) in
    if len d <=? offset then vec_zeros size
    else
      let? sum := uadd 64 offset size in
      let? result := slice d offset (Z.min sum (len d)) in
      vec_resize result size.
Definition get_data (offset size : Z) : M (list Z) :=
  let! c := get context in slift (get_slice (data c) offset size).
Definition get_code (offset size : Z) : M (list Z) :=
  let! c := get context in slift (get_slice (ctx_code c) offset size).

Definition jump (dest : Z) : M unit :=
  let! c := get context in
  if len (ctx_code c) <=? dest then sfail (InvalidJump dest)
  else
    let! b := slift (index (ctx_code c) dest) in
    if negb (b =? op_u8 Op.JUMPDEST) then sfail (InvalidJump dest)
    else smodify (set_pc dest).

Definition handle_error (i : Interp S) (e : EvmError) : ExecutionResult :=
  match e with
  | OutOfGas => halt HaltOutOfGas (g_limit (gas i))
  | StackOverflow => halt HaltStackOverflow (g_used (gas i))
  | StackUnderflow => halt HaltStackUnderflow (g_used (gas i))
  | InvalidJump _ => halt HaltInvalidJump (g_used (gas i))
  | InvalidOpcode op => halt (HaltInvalidOpcode op) (g_used (gas i))
  | StaticCallStateModification => halt HaltStateModificationInStatic (g_used (gas i))
  | _ => halt HaltInvalidCode (g_used (gas i))
  end.

(** * The arms of [execute_opcode] *)

(** The shape of the two-operand arms: [b] is popped first. *)
Definition binary (cost : Z) (f : Z -> Z -> outcome EvmError Z) : M unit :=
  consume cost ;;!
  let! b := pop in
  let! a := pop in
  let! r := slift (f a b) in
  push r ;;!
  advance.
Definition unary (cost : Z) (f : Z -> Z) : M unit :=
  consume cost ;;!
  let! a := pop in
  push (f a) ;;!
  advance.
(** The shape of the arms that push one value of the context. *)
Definition nullary (cost : Z) (f : Interp S -> Z) : M unit :=
  consume cost ;;!
  let! v := get f in
  push v ;;!
  advance.
Definition push_address (cost : Z) (f : ExecutionContext -> Address) : M unit :=
  consume cost ;;!
  let! c := get context in
  let! v := u256_from_bytes (f c) in
  push v ;;!
  advance.

Definition of_bool (b : bool) : Z := if b then 1 else 0.

Definition op_STOP : M unit :=
  let! g := get gas in smodify (set_result (Some (success [] (g_used g)))).
Definition op_ADD : M unit := binary GasCost.VERYLOW (fun a b => Ok (fst (u_overflowing_add a b))).
Definition op_MUL : M unit := binary GasCost.LOW (fun a b => Ok (fst (u_overflowing_mul a b))).
Definition op_SUB : M unit := binary GasCost.VERYLOW (fun a b => Ok (fst (u_overflowing_sub a b))).
Definition op_DIV : M unit :=
  binary GasCost.LOW (fun a b => if b =? 0 then Ok 0 else unwrap (u_div a b)).
Definition op_SDIV : M unit := binary GasCost.LOW signed_div.
Definition op_MOD : M unit :=
  binary GasCost.LOW (fun a b => if b =? 0 then Ok 0 else unwrap (u_rem a b)).
Definition op_SMOD : M unit := binary GasCost.LOW signed_mod.

Definition addmod (a b n : Z) : outcome EvmError Z :=
  if n =? 0 then Ok 0
  else
    let a_big := u_full_mul a 1 in
    let b_big := u_full_mul b 1 in
    let sum := fst (u512_overflowing_add a_big b_big) in
    let? (_, remainder) := unwrap (u512_div_mod sum n) in
    Ok (default 0 (u512_try_into remainder)).
Definition op_ADDMOD : M unit :=
  consume GasCost.MID ;;!
  let! n := pop in
  let! b := pop in
  let! a := pop in
  let! r := slift (addmod a b n) in
  push r ;;!
  advance.
Definition mulmod (a b n : Z) : outcome EvmError Z :=
  if n =? 0 then Ok 0
  else
    let product := u_full_mul a b in
    let? (_, remainder) := unwrap (u512_div_mod product n) in
    Ok (default 0 (u512_try_into remainder)).
Definition op_MULMOD : M unit :=
  consume GasCost.MID ;;!
  let! n := pop in
  let! b := pop in
  let! a := pop in
  let! r := slift (mulmod a b n) in
  push r ;;!
  advance.
Definition op_EXP : M unit :=
  let! exponent := pop in
  consume (exp_gas_cost exponent) ;;!
  let! base := pop in
  push (fst (u_overflowing_pow base exponent)) ;;!
  advance.
Definition op_SIGNEXTEND : M unit :=
  consume GasCost.LOW ;;!
  let! ext := pop in
  let! x := pop in
  let! r := slift (sign_extend ext x) in
  push r ;;!
  advance.

Definition op_LT : M unit := binary GasCost.VERYLOW (fun a b => Ok (of_bool (a <? b))).
Definition op_GT : M unit := binary GasCost.VERYLOW (fun a b => Ok (of_bool (b <? a))).
Definition op_SLT : M unit := binary GasCost.VERYLOW (fun a b => Ok (slt a b)).
Definition op_SGT : M unit := binary GasCost.VERYLOW (fun a b => Ok (sgt a b)).
Definition op_EQ : M unit := binary GasCost.VERYLOW (fun a b => Ok (of_bool (a =? b))).
Definition op_ISZERO : M unit := unary GasCost.VERYLOW (fun a => of_bool (a =? 0)).
Definition op_AND : M unit := binary GasCost.VERYLOW (fun a b => Ok (u_and a b)).
Definition op_OR : M unit := binary GasCost.VERYLOW (fun a b => Ok (u_or a b)).
Definition op_XOR : M unit := binary GasCost.VERYLOW (fun a b => Ok (u_xor a b)).
Definition op_NOT : M unit := unary GasCost.VERYLOW u_not.

(** [i] is on top, below it [x]. *)
Definition op_BYTE : M unit :=
  binary GasCost.VERYLOW (fun x i =>
    if i <? 32 then
      let? byte_index := unwrap (u_as_u64 i) in
      let? k := usub 64 31 byte_index in
      Ok (u_byte x k)
    else Ok 0).
Definition op_SHL : M unit :=
  binary GasCost.VERYLOW (fun value shift =>
    if 256 <=? shift then Ok 0
    else let? n := unwrap (u_as_usize shift) in Ok (u_shl value n)).
Definition op_SHR : M unit :=
  binary GasCost.VERYLOW (fun value shift =>
    if 256 <=? shift then Ok 0
    else let? n := unwrap (u_as_usize shift) in Ok (u_shr value n)).
Definition op_SAR : M unit := binary GasCost.VERYLOW arithmetic_shr.

Definition op_KECCAK256 : M unit :=
  let! offset := pop in
  let! size := pop in
  let! cost := slift (keccak256_gas_cost size) in
  consume cost ;;!
  let! d := mem_get offset size in
  let! v := u256_from_bytes (keccak256 d) in
  push v ;;!
  advance.

Definition op_ADDRESS : M unit := push_address GasCost.BASE address.
Definition balance_of (a : Address) (s : S) : Z :=
  match get_account s a with Some acc => balance acc | None => 0 end.
Definition op_BALANCE : M unit :=
  let! a := pop in
  consume GasCost.BALANCE ;;!
  let! b := get (fun i => balance_of (address_from_u256 a) (state i)) in
  push b ;;!
  advance.
Definition op_ORIGIN : M unit := push_address GasCost.BASE origin.
Definition op_CALLER : M unit := push_address GasCost.BASE caller.
Definition op_CALLVALUE : M unit := nullary GasCost.BASE (fun i => value (context i)).
Definition op_CALLDATALOAD : M unit :=
  consume GasCost.VERYLOW ;;!
  let! offset := pop in
  let! d := get_data offset 32 in
  let! v := u256_from_bytes d in
  push v ;;!
  advance.
Definition op_CALLDATASIZE : M unit := nullary GasCost.BASE (fun i => len (data (context i))).
Definition op_CALLDATACOPY : M unit :=
  let! mem_offset := pop in
  let! data_offset := pop in
  let! size := pop in
  let! cost := slift (copy_gas_cost size) in
  consume cost ;;!
  let! d := get_data data_offset size in
  let! o := as_usize mem_offset in
  on_memory (memory_set o d) ;;!
  advance.
Definition op_CODESIZE : M unit := nullary GasCost.BASE (fun i => len (ctx_code (context i))).
Definition op_CODECOPY : M unit :=
  let! mem_offset := pop in
  let! code_offset := pop in
  let! size := pop in
  let! cost := slift (copy_gas_cost size) in
  consume cost ;;!
  let! d := get_code code_offset size in
  let! o := as_usize mem_offset in
  on_memory (memory_set o d) ;;!
  advance.
Definition op_GASPRICE : M unit := nullary GasCost.BASE (fun i => gas_price (context i)).
Definition op_EXTCODESIZE : M unit :=
  let! a := pop in
  consume GasCost.EXTCODESIZE ;;!
  let! acc := get (fun i => get_account (state i) (address_from_u256 a)) in
  push (match acc with Some acc => len (code acc) | None => 0 end) ;;!
  advance.
Definition op_EXTCODECOPY : M unit :=
  let! a := pop in
  let! mem_offset := pop in
  let! code_offset := pop in
  let! size := pop in
  consume GasCost.EXTCODECOPY ;;!
  let! cost := slift (copy_gas_cost size) in
  consume cost ;;!
  let! acc := get (fun i => get_account (state i) (address_from_u256 a)) in
  let! d :=
    match acc with
    | Some acc => slift (get_slice (code acc) code_offset size)
    | None => let! n := as_usize size in slift (vec_zeros n)
    end in
  let! o := as_usize mem_offset in
  on_memory (memory_set o d) ;;!
  advance.
Definition op_RETURNDATASIZE : M unit := nullary GasCost.BASE (fun i => len (i_return_data i)).
Definition op_RETURNDATACOPY : M unit :=
  let! mem_offset := pop in
  let! data_offset := pop in
  let! size := pop in
  let! cost := slift (copy_gas_cost size) in
  consume cost ;;!
  let! rd := get i_return_data in
  if len rd <? u_saturating_add data_offset size then sfail ReturnDataOutOfBounds
  else
    let! d := slift (get_slice rd data_offset size) in
    let! o := as_usize mem_offset in
    on_memory (memory_set o d) ;;!
    advance.
Definition code_hash (acc : option Account) : H256 :=
  match acc with
  | Some acc => if bool_decide (code acc = []) then H256_zero else keccak256 (code acc)
  | None => H256_zero
  end.
Definition op_EXTCODEHASH : M unit :=
  let! a := pop in
  consume GasCost.EXTCODEHASH ;;!
  let! acc := get (fun i => get_account (state i) (address_from_u256 a)) in
  let! v := u256_from_bytes (code_hash acc) in
  push v ;;!
  advance.

Definition block_hash (b : BlockContext) (block_number : Z) : outcome EvmError H256 :=
  if number b <=? block_number then Ok H256_zero
  else
    let? diff := unwrap (u_sub (number b) block_number) in
    if 256 <? diff then Ok H256_zero
    else
      let? idx := unwrap (u_as_usize block_number) in
      Ok (default H256_zero (block_hashes b !! Z.to_nat idx)).
Definition op_BLOCKHASH : M unit :=
  let! block_number := pop in
  consume GasCost.BLOCKHASH ;;!
  let! c := get context in
  let! h := slift (block_hash (block c) block_number) in
  let! v := u256_from_bytes h in
  push v ;;!
  advance.
Definition op_COINBASE : M unit := push_address GasCost.BASE (fun c => coinbase (block c)).
Definition op_TIMESTAMP : M unit := nullary GasCost.BASE (fun i => timestamp (block (context i))).
Definition op_NUMBER : M unit := nullary GasCost.BASE (fun i => number (block (context i))).
Definition op_DIFFICULTY : M unit := nullary GasCost.BASE (fun i => difficulty (block (context i))).
Definition op_GASLIMIT : M unit := nullary GasCost.BASE (fun i => block_gas_limit (block (context i))).
Definition op_CHAINID : M unit := nullary GasCost.CHAINID (fun i => chain_id (block (context i))).
Definition op_SELFBALANCE : M unit :=
  nullary GasCost.SELFBALANCE (fun i => balance_of (address (context i)) (state i)).
Definition op_BASEFEE : M unit :=
  nullary GasCost.BASEFEE (fun i => default 0 (base_fee (block (context i)))).

Definition op_POP : M unit := consume GasCost.BASE ;;! pop ;;! advance.
Definition op_MLOAD : M unit :=
  consume GasCost.VERYLOW ;;!
  let! offset := pop in
  let! o := as_usize offset in
  let! m := get memory in
  let! v := slift (memory_get_u256 o m) in
  push v ;;!
  advance.
Definition op_MSTORE : M unit :=
  consume GasCost.VERYLOW ;;!
  let! offset := pop in
  let! v := pop in
  let! o := as_usize offset in
  on_memory (memory_set_u256 o v) ;;!
  advance.
Definition op_MSTORE8 : M unit :=
  consume GasCost.VERYLOW ;;!
  let! offset := pop in
  let! v := pop in
  let! o := as_usize offset in
  on_memory (memory_set_byte o (u_byte v 31)) ;;!
  advance.
Definition op_SLOAD : M unit :=
  let! key := pop in
  consume GasCost.SLOAD ;;!
  let! h := get (fun i => get_storage (state i) (address (context i)) (u_to_big_endian key)) in
  let! v := u256_from_bytes h in
  push v ;;!
  advance.
Definition op_SSTORE : M unit :=
  let! c := get context in
  if is_static c then sfail StaticCallStateModification
  else
    let! key := pop in
    let! v := pop in
    consume GasCost.SSET ;;!
    smodify (fun i => set_state (set_storage (address (context i)) (u_to_big_endian key)
                                   (u_to_big_endian v) (state i)) i) ;;!
    advance.
Definition op_JUMP : M unit :=
  consume GasCost.MID ;;!
  let! dest := pop in
  let! d := as_usize dest in
  jump d.
Definition op_JUMPI : M unit :=
  consume GasCost.HIGH ;;!
  let! dest := pop in
  let! cond := pop in
  if negb (cond =? 0) then let! d := as_usize dest in jump d
  else advance.
Definition op_PC : M unit := nullary GasCost.BASE pc.
Definition op_MSIZE : M unit := nullary GasCost.BASE (fun i => memory_len (memory i)).
Definition op_GAS : M unit := nullary GasCost.BASE (fun i => gas_remaining (gas i)).
Definition op_JUMPDEST : M unit := consume GasCost.JUMPDEST ;;! advance.

Definition op_PUSH0 : M unit := nullary GasCost.BASE (fun _ => 0).
(** [bytes[32 - data.len()..].copy_from_slice(data)] *)
Definition op_PUSH (op : Opcode) : M unit :=
  consume GasCost.VERYLOW ;;!
  let! n := or_panic (push_bytes op) in
  let! p := get pc in
  let! start := slift (uadd 64 p 1) in
  let! c := get context in
  let! e := slift (uadd 64 start n) in
  let end_ := Z.min e (len (ctx_code c)) in
  let! d := slift (slice (ctx_code c) start end_) in
  let! k := slift (usub 64 32 (len d)) in
  let! b := slift (copy_from_slice (replicate 32 0) k d) in
  let! v := u256_from_bytes b in
  push v ;;!
  smodify (set_pc end_).
Definition op_DUP (op : Opcode) : M unit :=
  consume GasCost.VERYLOW ;;!
  on_stack (stack_dup (op_u8 op - op_u8 Op.DUP1)) ;;!
  advance.
Definition op_SWAP (op : Opcode) : M unit :=
  consume GasCost.VERYLOW ;;!
  on_stack (stack_swap (op_u8 op - op_u8 Op.SWAP1 + 1)) ;;!
  advance.

(** [for _ in 0..topic_count { topics.push(pop) }] *)
Fixpoint pop_topics (n : nat) : M (list H256) :=
  match n with
  | O => sret []
  | Datatypes.S n' =>
      let! topic := pop in
      let! rest := pop_topics n' in
      sret (u_to_big_endian topic :: rest)
  end.
Definition op_LOG (op : Opcode) : M unit :=
  let! c := get context in
  if is_static c then sfail StaticCallStateModification
  else
    let topic_count := op_u8 op - op_u8 Op.LOG0 in
    let! offset := pop in
    let! size := pop in
    let! ts := pop_topics (Z.to_nat topic_count) in
    let! cost := slift (log_gas_cost topic_count size) in
    consume cost ;;!
    let! d := mem_get offset size in
    smodify (fun i => set_logs (logs i ++ [mkLog (address (context i)) ts d]) i) ;;!
    advance.

Definition op_RETURN : M unit :=
  let! offset := pop in
  let! size := pop in
  let! d := mem_get offset size in
  let! g := get gas in
  smodify (set_result (Some (success d (g_used g)))).
Definition op_REVERT : M unit :=
  let! offset := pop in
  let! size := pop in
  let! d := mem_get offset size in
  let! g := get gas in
  smodify (set_result (Some (revert d (g_used g)))).

Definition opcode_body (op : Opcode) : M unit :=
  match op with
  | Op.STOP => op_STOP
  | Op.ADD => op_ADD | Op.MUL => op_MUL | Op.SUB => op_SUB | Op.DIV => op_DIV
  | Op.SDIV => op_SDIV | Op.MOD => op_MOD | Op.SMOD => op_SMOD | Op.ADDMOD => op_ADDMOD
  | Op.MULMOD => op_MULMOD | Op.EXP => op_EXP | Op.SIGNEXTEND => op_SIGNEXTEND
  | Op.LT => op_LT | Op.GT => op_GT | Op.SLT => op_SLT | Op.SGT => op_SGT | Op.EQ => op_EQ
  | Op.ISZERO => op_ISZERO | Op.AND => op_AND | Op.OR => op_OR | Op.XOR => op_XOR
  | Op.NOT => op_NOT | Op.BYTE => op_BYTE | Op.SHL => op_SHL | Op.SHR => op_SHR
  | Op.SAR => op_SAR | Op.KECCAK256 => op_KECCAK256 | Op.ADDRESS => op_ADDRESS
  | Op.BALANCE => op_BALANCE | Op.ORIGIN => op_ORIGIN | Op.CALLER => op_CALLER
  | Op.CALLVALUE => op_CALLVALUE | Op.CALLDATALOAD => op_CALLDATALOAD
  | Op.CALLDATASIZE => op_CALLDATASIZE | Op.CALLDATACOPY => op_CALLDATACOPY
  | Op.CODESIZE => op_CODESIZE | Op.CODECOPY => op_CODECOPY | Op.GASPRICE => op_GASPRICE
  | Op.EXTCODESIZE => op_EXTCODESIZE | Op.EXTCODECOPY => op_EXTCODECOPY
  | Op.RETURNDATASIZE => op_RETURNDATASIZE | Op.RETURNDATACOPY => op_RETURNDATACOPY
  | Op.EXTCODEHASH => op_EXTCODEHASH | Op.BLOCKHASH => op_BLOCKHASH
  | Op.COINBASE => op_COINBASE | Op.TIMESTAMP => op_TIMESTAMP | Op.NUMBER => op_NUMBER
  | Op.DIFFICULTY => op_DIFFICULTY | Op.GASLIMIT => op_GASLIMIT | Op.CHAINID => op_CHAINID
  | Op.SELFBALANCE => op_SELFBALANCE | Op.BASEFEE => op_BASEFEE | Op.POP => op_POP
  | Op.MLOAD => op_MLOAD | Op.MSTORE => op_MSTORE | Op.MSTORE8 => op_MSTORE8
  | Op.SLOAD => op_SLOAD | Op.SSTORE => op_SSTORE | Op.JUMP => op_JUMP | Op.JUMPI => op_JUMPI
  | Op.PC => op_PC | Op.MSIZE => op_MSIZE | Op.GAS => op_GAS | Op.JUMPDEST => op_JUMPDEST
  | Op.PUSH0 => op_PUSH0 | Op.RETURN => op_RETURN | Op.REVERT => op_REVERT
  | op =>
      if is_push op then op_PUSH op
      else if is_dup op then op_DUP op
      else if is_swap op then op_SWAP op
      else if is_log op then op_LOG op
      else advance
  end.

Definition execute_opcode (op : Opcode) : M unit :=
  on_stack (stack_require (stack_inputs op)) ;;!
  on_stack (stack_limit_check (saturating_sub (stack_outputs op) (stack_inputs op))) ;;!
  opcode_body op.

(** [self.result.take().unwrap_or_else(...)] *)
Definition take_result : M ExecutionResult :=
  fun i => (Ok (default (success [] (g_used (gas i))) (result i)), set_result None i).

(** The [while] loop of [run], one unit of fuel per iteration. *)
Fixpoint run (fuel : nat) : M ExecutionResult :=
  match fuel with
  | O => slift Diverge
  | Datatypes.S fuel' => fun i =>
      if pc i <? len (ctx_code (context i)) then
        match index (E := EvmError) (ctx_code (context i)) (pc i) with
        | Ok opcode_byte =>
            match from_u8 opcode_byte with
            | None => (Ok (halt (HaltInvalidOpcode opcode_byte) (g_used (gas i))), i)
            | Some opcode =>
                match execute_opcode opcode i with
                | (Ok _, i') =>
                    match result i' with
                    | Some _ => take_result i'
                    | None => run fuel' i'
                    end
                | (Err e, i') => (Ok (handle_error i' e), i')
                | (Panic, i') => (Panic, i')
                | (Diverge, i') => (Diverge, i')
                end
            end
        | _ => (Panic, i)
        end
      else take_result i
  end.
End interp.

(** * [Evm] of lib.rs *)

Record Evm := mkEvm { evm_state : gmap Address Account }.
Definition evm_new : Evm := mkEvm ∅.
(** The result of a call and the state the interpreter leaves behind. *)
Definition evm_execute `{U256Ops} `{KeccakOps} `{Profile} (fuel : nat)
    (ctx : ExecutionContext) : SM Evm EvmError ExecutionResult :=
  fun e =>
    let '(r, i) := run fuel (interpreter_new ctx (evm_state e)) in
    (r, mkEvm (state i)).
