(* ===== verification/EvmSafety.v ===== *)
(** Safety of the interpreter.  The well-formedness invariant of the machine,
    a program logic of triples for interpreter methods that tracks the stack
    height, the static flag, gas and panics, and the triple of every arm of
    [execute_opcode]. *)
From stdpp Require Import base list numbers option gmap.
From Stdlib Require Import ZArith Lia.
From S2P Require Import Prelude U256 EvmMachine EvmOpcodes EvmArith EvmInterp.

(** * The invariant *)

Definition buffer_ok (l : list Z) : Prop := bytes l /\ len l <= isize_max.
Definition address_ok (a : Address) : Prop := length a = 20%nat /\ bytes a.
Definition block_ok (b : BlockContext) : Prop :=
  address_ok (coinbase b) /\ U256 (number b) /\ U256 (timestamp b) /\ U256 (difficulty b) /\
  U256 (block_gas_limit b) /\ U256 (default 0 (base_fee b)) /\ U256 (chain_id b) /\
  Forall h256_ok (block_hashes b).
Record context_ok (c : ExecutionContext) : Prop := {
  co_caller : address_ok (caller c);
  co_address : address_ok (address c);
  co_origin : address_ok (origin c);
  co_value : U256 (value c);
  co_code : buffer_ok (ctx_code c);
  co_data : buffer_ok (data c);
  co_gas_price : U256 (gas_price c);
  co_gas_limit : uint 64 (gas_limit c);
  co_block : block_ok (block c);
}.

Definition stack_ok (s : Stack) : Prop := Forall U256 (st_data s) /\ len (st_data s) <= STACK_LIMIT.
Definition gas_ok (g : Gas) : Prop := uint 64 (g_limit g) /\ 0 <= g_used g <= g_limit g.
Definition is_halt (s : ExecutionStatus) : bool := match s with Halt _ => true | _ => false end.
(** A pending result carries no logs, no more gas than was used, and bytes. *)
Definition result_ok (g : Gas) (r : option ExecutionResult) : Prop :=
  match r with
  | None => True
  | Some r => 0 <= gas_used r <= g_used g /\ res_logs r = [] /\ is_halt (status r) = false /\
              bytes (return_data r)
  end.

Section safety.
Context {S : Type} `{StateInv S} `{U256Laws} `{KeccakLaws} `{Profile}.
Notation M := (SM (Interp S) EvmError).
Implicit Types (i : Interp S) (ctx : ExecutionContext).

Record wf i : Prop := {
  wf_context : context_ok (context i);
  wf_state : state_ok (state i);
  wf_stack : stack_ok (stack i);
  wf_memory : buffer_ok (m_data (memory i));
  wf_gas : gas_ok (gas i);
  wf_pc : 0 <= pc i <= len (ctx_code (context i));
  wf_return_data : buffer_ok (i_return_data i);
  wf_result : result_ok (gas i) (result i);
}.

(** What every method may do to the interpreter: it keeps the invariant, the
    context and the gas limit, never gives gas back, only appends to the logs,
    and leaves state and logs alone in a static context. *)
Record trans i i' : Prop := {
  t_wf : wf i';
  t_context : context i' = context i;
  t_limit : g_limit (gas i') = g_limit (gas i);
  t_used : g_used (gas i) <= g_used (gas i');
  t_logs : logs i `prefix_of` logs i';
  t_static : is_static (context i) = true -> state i' = state i /\ logs i' = logs i;
}.

Lemma trans_refl i : wf i -> trans i i.
Proof. intros. by split. Qed.
Lemma trans_trans i j k : trans i j -> trans j k -> trans i k.
Proof.
  intros [] [Hw Hc ? ? ? Hs]. split; try congruence; try lia; try done.
  - by etrans.
  - intros Hst. destruct Hs as [-> ->]; [congruence|]. auto.
Qed.

(** * Triples *)

Definition stack_error (e : EvmError) : bool :=
  match e with StackOverflow | StackUnderflow => true | _ => false end.

(** [spec np ctx h h' m P]: from a well-formed interpreter in context [ctx]
    with [h] words on the stack, [m] keeps the program counter and the pending
    result; if it returns, the value satisfies [P] and [h'] words are left; it
    fails with no stack error, and with [np] does not panic. *)
Definition spec (np : bool) ctx (h h' : Z) {A} (m : M A) (P : A -> Prop) : Prop :=
  forall i, wf i -> context i = ctx -> len (st_data (stack i)) = h ->
    trans i (m i).2 /\ pc (m i).2 = pc i /\ result (m i).2 = result i /\
    match (m i).1 with
    | Ok a => P a /\ len (st_data (stack (m i).2)) = h'
    | Err e => stack_error e = false
    | Panic => np = false
    | Diverge => False
    end.

(** [ends np ctx h h' b m]: the same for a method that finishes an opcode: it
    leaves the program counter within the code, and makes progress: it moves
    forward, has used gas ([b]: some was used before it) or has set the result.
    Gas is only sure to go up below the limit [u64::MAX], at which the
    saturating sum of [Gas::consume] never exceeds the limit. *)
Definition ends (np : bool) ctx (h h' : Z) (b : bool) (m : M unit) : Prop :=
  forall i, wf i -> context i = ctx -> len (st_data (stack i)) = h ->
    pc i < len (ctx_code ctx) -> result i = None ->
    trans i (m i).2 /\
    match (m i).1 with
    | Ok _ =>
        len (st_data (stack (m i).2)) = h' /\
        (g_limit (gas i) < 2 ^ 64 - 1 ->
         b = true \/ g_used (gas i) < g_used (gas (m i).2) \/ pc i < pc (m i).2 \/
         result (m i).2 <> None)
    | Err e => stack_error e = false
    | Panic => np = false
    | Diverge => False
    end.

Section rules.
Context (np : bool) (ctx : ExecutionContext).

Lemma spec_ret h {A} (a : A) (P : A -> Prop) : P a -> spec np ctx h h (sret a) P.
Proof. intros HP i Hi Hc Hh. simpl. split_and!; auto using trans_refl. Qed.

Lemma spec_bind h h1 h2 {A B} (m : M A) (k : A -> M B) (P : A -> Prop) (Q : B -> Prop) :
  spec np ctx h h1 m P -> (forall a, P a -> spec np ctx h1 h2 (k a) Q) ->
  spec np ctx h h2 (sbind m k) Q.
Proof.
  intros Hm Hk i Hi Hc Hh. specialize (Hm i Hi Hc Hh). unfold sbind.
  destruct (m i) as [[a|e| |] j]; simpl in *; destruct Hm as (Ht & Hp & Hr & Ha); try done.
  destruct Ha as [Ha Hh1]. destruct (Hk a Ha j) as (Ht2 & Hp2 & Hr2 & Hq);
    [apply Ht|rewrite (t_context _ _ Ht); done|done|].
  split_and!; [by eapply trans_trans|congruence|congruence|done].
Qed.

Lemma ends_bind h h1 h2 b {A} (m : M A) (k : A -> M unit) (P : A -> Prop) :
  spec np ctx h h1 m P -> (forall a, P a -> ends np ctx h1 h2 b (k a)) ->
  ends np ctx h h2 b (sbind m k).
Proof.
  intros Hm Hk i Hi Hc Hh Hpc Hres. specialize (Hm i Hi Hc Hh). unfold sbind.
  destruct (m i) as [[a|e| |] j]; simpl in *; destruct Hm as (Ht & Hp & Hr & Ha); try done.
  destruct Ha as [Ha Hh1]. destruct (Hk a Ha j) as (Ht2 & Hq);
    [apply Ht|rewrite (t_context _ _ Ht); done|done|congruence|congruence|].
  split; [by eapply trans_trans|]. pose proof (t_used _ _ Ht). pose proof (t_used _ _ Ht2).
  rewrite (t_limit _ _ Ht), Hp in Hq.
  destruct (k a j) as [[] ?]; simpl in *; try done. destruct Hq as [? Hq].
  split; [done|]. intros Hl. destruct (Hq Hl) as [?|[?|[?|?]]]; auto. right. left. lia.
Qed.

Lemma spec_mono h h' {A} (m : M A) (P Q : A -> Prop) :
  spec np ctx h h' m P -> (forall a, P a -> Q a) -> spec np ctx h h' m Q.
Proof.
  intros Hm HPQ i Hi Hc Hh. destruct (Hm i Hi Hc Hh) as (? & ? & ? & Ha).
  split_and!; auto. destruct (m i) as [[] ?]; naive_solver.
Qed.

Lemma spec_get h {A} (f : Interp S -> A) (P : A -> Prop) :
  (forall i, wf i -> context i = ctx -> P (f i)) -> spec np ctx h h (get f) P.
Proof. intros HP i Hi Hc Hh. simpl. split_and!; auto using trans_refl. Qed.

Definition outcome_ok {A} (m : outcome EvmError A) (P : A -> Prop) : Prop :=
  match m with
  | Ok a => P a
  | Err e => stack_error e = false
  | Panic => np = false
  | Diverge => False
  end.

Lemma spec_slift h {A} (m : outcome EvmError A) (P : A -> Prop) :
  outcome_ok m P -> spec np ctx h h (slift m) P.
Proof.
  intros HP i Hi Hc Hh. simpl. split_and!; auto using trans_refl. by destruct m.
Qed.

Lemma outcome_ok_bind {A B} (m : outcome EvmError A) (k : A -> outcome EvmError B)
    (P : A -> Prop) (Q : B -> Prop) :
  outcome_ok m P -> (forall a, P a -> outcome_ok (k a) Q) -> outcome_ok (obind m k) Q.
Proof. destruct m; simpl; auto. Qed.

Lemma spec_fail h h' {A} e (P : A -> Prop) :
  stack_error e = false -> spec np ctx h h' (sfail e) P.
Proof. intros He i Hi Hc Hh. simpl. auto using trans_refl. Qed.

Lemma ends_fail h h' b e : stack_error e = false -> ends np ctx h h' b (sfail e).
Proof. intros He i Hi Hc Hh. simpl. auto using trans_refl. Qed.

(** ** Gas *)

Lemma consume_cases c i : 0 <= c -> wf i ->
  consume c i = (Err OutOfGas, i) \/
  (exists u, consume c i = (Ok tt, set_gas (mkGas (g_limit (gas i)) u) i) /\
     g_used (gas i) <= u <= g_limit (gas i) /\
     (g_limit (gas i) < 2 ^ 64 - 1 -> u = g_used (gas i) + c)).
Proof.
  intros Hc Hi. destruct (wf_gas i Hi) as [Hl Hu]. unfold uint in Hl.
  unfold consume, on_gas, gas_consume, sbind, sget, sfail, sput, saturating_add.
  destruct (Z.ltb_spec (g_limit (gas i)) (Z.min (g_used (gas i) + c) (2 ^ 64 - 1))).
  - left. by destruct i.
  - right. exists (Z.min (g_used (gas i) + c) (2 ^ 64 - 1)). split; [done|lia].
Qed.

Lemma wf_set_gas u i : wf i -> g_used (gas i) <= u <= g_limit (gas i) ->
  trans i (set_gas (mkGas (g_limit (gas i)) u) i).
Proof.
  intros Hi Hu. destruct Hi as [? ? ? ? [Hl ?] ? ? Hr]. split; simpl; try done; try lia.
  split; simpl; try done; [split; [done|simpl; lia]|].
  unfold result_ok in *. destruct (result i); [|done]. simpl. intuition lia.
Qed.

Lemma spec_consume h c : 0 <= c -> spec np ctx h h (consume c) (fun _ => True).
Proof.
  intros Hc i Hi Hx Hh.
  destruct (consume_cases c i Hc Hi) as [->|(u & -> & Hle & _)]; simpl; [auto using trans_refl|].
  split_and!; auto. by apply wf_set_gas.
Qed.

(** Paying first is progress, whatever follows. *)
Lemma ends_paid h h' b c (k : M unit) :
  0 < c -> ends np ctx h h' true k -> ends np ctx h h' b (consume c ;;! k).
Proof.
  intros Hc Hk i Hi Hx Hh Hpc Hres. unfold sbind.
  destruct (consume_cases c i ltac:(lia) Hi) as [->|(u & -> & Hle & Hstrict)]; simpl;
    [auto using trans_refl|].
  set (j := set_gas _ i).
  assert (Ht : trans i j) by (by apply wf_set_gas).
  destruct (Hk j (t_wf _ _ Ht) Hx Hh Hpc Hres) as (Ht2 & Hq).
  split; [by eapply trans_trans|]. pose proof (t_used _ _ Ht2) as Hu. simpl in Hu.
  destruct (k j) as [[] ?]; simpl in *; try done. destruct Hq as [? _].
  split; [done|]. intros Hl. right. left. specialize (Hstrict Hl). lia.
Qed.

(** ** Stack *)

Lemma wf_set_stack s i : wf i -> stack_ok s -> trans i (set_stack s i).
Proof. intros [] Hs. by split. Qed.

Lemma spec_push h v : U256 v -> h < STACK_LIMIT ->
  spec np ctx h (h + 1) (push v) (fun _ => True).
Proof.
  intros Hv Hlt i Hi Hc Hh. unfold push, on_stack, stack_push, sbind, sget.
  rewrite (proj2 (Z.leb_gt STACK_LIMIT _)) by lia. simpl.
  destruct (wf_stack i Hi) as [Hs Hl]. split_and!; auto.
  - apply wf_set_stack; [done|]. split; simpl.
    + apply Forall_app; auto.
    + rewrite len_snoc. lia.
  - rewrite len_snoc. lia.
Qed.

Lemma reverse_last {A} (l : list A) : 0 < len l -> exists k x, l = k ++ [x] /\ reverse l = x :: reverse k.
Proof.
  intros Hl. destruct (reverse l) as [|x r] eqn:Hr.
  - apply (f_equal length) in Hr. rewrite length_reverse in Hr. unfold len in Hl. simpl in Hr. lia.
  - exists (reverse r), x. rewrite reverse_involutive. split; [|done].
    rewrite <- (reverse_involutive l), Hr, reverse_cons. done.
Qed.

Lemma pop_eq k x i : st_data (stack i) = k ++ [x] -> pop i = (Ok x, set_stack (mkStack k) i).
Proof.
  intros Hs. unfold pop, on_stack, stack_pop, sbind, sget, sput, sret.
  rewrite Hs, reverse_app. simpl. by rewrite reverse_involutive.
Qed.

Lemma spec_pop h : 0 < h -> spec np ctx h (h - 1) pop U256.
Proof.
  intros Hlt i Hi Hc Hh. destruct (wf_stack i Hi) as [Hs Hl].
  destruct (reverse_last (st_data (stack i))) as (k & x & Hk & _); [lia|].
  rewrite (pop_eq k x) by done. simpl. rewrite Hk in Hs, Hl, Hh.
  rewrite len_snoc in Hl, Hh.
  apply Forall_app in Hs as [Hs Hx]. rewrite Forall_singleton in Hx.
  split_and!; [|done|done|done|lia].
  apply wf_set_stack; [done|]. split; simpl; [done|lia].
Qed.

Lemma index_ok {A} (l : list A) n : 0 <= n < len l ->
  exists x, index (E := EvmError) l n = Ok x /\ l !! Z.to_nat n = Some x.
Proof.
  intros Hn. unfold index. destruct (lookup_lt_is_Some_2 l (Z.to_nat n)) as [x Hx].
  { unfold len in Hn. lia. }
  rewrite Hx, (proj2 (Z.leb_le _ _)) by lia. eauto.
Qed.

Lemma spec_dup h n : 0 <= n < h -> h < STACK_LIMIT ->
  spec np ctx h (h + 1) (on_stack (stack_dup n)) (fun _ => True).
Proof.
  intros Hn Hlt i Hi Hc Hh. unfold on_stack, stack_dup, sbind, sget, slift, sput.
  rewrite (proj2 (Z.leb_gt _ n)), (proj2 (Z.leb_gt STACK_LIMIT _)) by lia.
  destruct (wf_stack i Hi) as [Hs Hl].
  destruct (index_ok (st_data (stack i)) (len (st_data (stack i)) - 1 - n)) as (v & -> & Hv); [lia|].
  simpl. rewrite len_snoc. split_and!; auto; [|lia].
  apply wf_set_stack; [done|]. split; simpl.
  - apply Forall_app. split; [done|]. apply Forall_singleton.
    rewrite Forall_lookup in Hs. eauto.
  - rewrite len_snoc. lia.
Qed.

Lemma spec_swap h n : 0 <= n < h -> spec np ctx h h (on_stack (stack_swap n)) (fun _ => True).
Proof.
  intros Hn i Hi Hc Hh. unfold on_stack, stack_swap, vec_swap, sbind, sget, slift, sput.
  rewrite (proj2 (Z.leb_gt _ n)) by lia. destruct (wf_stack i Hi) as [Hs Hl].
  set (l := st_data (stack i)) in *.
  destruct (index_ok l (len l - 1)) as (x & -> & Hx); [lia|].
  destruct (index_ok l (len l - 1 - n)) as (y & -> & Hy); [lia|]. simpl.
  rewrite Forall_lookup in Hs. unfold len in *. rewrite !length_insert. split_and!; auto.
  apply wf_set_stack; [done|]. split; simpl.
  - apply Forall_insert; [apply Forall_insert|]; eauto. by apply Forall_lookup.
  - unfold len. by rewrite !length_insert.
Qed.

Lemma spec_pop_topics n : forall h, Z.of_nat n <= h ->
  spec np ctx h (h - Z.of_nat n) (pop_topics n) (fun ts => length ts = n /\ Forall h256_ok ts).
Proof.
  induction n as [|n IH]; intros h Hh; simpl pop_topics.
  - replace (h - Z.of_nat 0) with h by lia. apply spec_ret. auto.
  - eapply spec_bind; [apply spec_pop; lia|]. intros t Ht.
    eapply spec_bind; [apply IH; lia|]. intros ts [Hn Hts].
    replace (h - 1 - Z.of_nat n) with (h - Z.of_nat (Datatypes.S n)) by lia.
    apply spec_ret. rewrite to_big_endian_law by done. split; [simpl; lia|].
    constructor; [|done]. split; [apply length_to_be|apply bytes_to_be].
Qed.

(** ** Memory *)

Lemma vec_zeros_ok n : np = false -> outcome_ok (vec_zeros n) buffer_ok.
Proof.
  intros Hnp. unfold vec_zeros. destruct (Z.leb_spec n isize_max); simpl; [|done].
  split; [apply bytes_zeros|]. unfold len. rewrite length_replicate. unfold isize_max in *. lia.
Qed.

Lemma vec_resize_ok v n : np = false -> bytes v -> outcome_ok (vec_resize v n) buffer_ok.
Proof.
  intros Hnp Hv. unfold vec_resize. destruct (Z.leb_spec n isize_max); simpl; [|done]. split.
  - apply bytes_app. auto using bytes_take, bytes_zeros.
  - unfold len. rewrite length_app, length_take, length_replicate. unfold isize_max in *. lia.
Qed.

Lemma slice_ok (l : list Z) a b : np = false -> buffer_ok l -> outcome_ok (slice l a b) buffer_ok.
Proof.
  intros Hnp [Hb Hl]. unfold slice. destruct (_ && _); simpl; [|done].
  split; [auto using bytes_take, bytes_drop|]. unfold len in *.
  rewrite length_take, length_drop. lia.
Qed.

Lemma memory_get_ok o n m : np = false -> buffer_ok (m_data m) ->
  outcome_ok (memory_get o n m) buffer_ok.
Proof.
  intros Hnp Hm. unfold memory_get. destruct (n =? 0).
  { split; [constructor|done]. }
  destruct (_ <=? o); [by apply vec_zeros_ok|]. destruct (_ <? _); [|by apply slice_ok].
  eapply outcome_ok_bind; [by apply slice_ok|]. intros r [Hr _]. by apply vec_resize_ok.
Qed.

Lemma get_slice_ok d o n : np = false -> buffer_ok d -> outcome_ok (get_slice d o n) buffer_ok.
Proof.
  intros Hnp Hd. unfold get_slice. destruct (n =? 0).
  { split; [constructor|done]. }
  destruct (u_as_usize o) as [o'|]; [|done]. destruct (u_as_usize n) as [n'|]; [|done].
  simpl. destruct (_ <=? o'); [by apply vec_zeros_ok|].
  apply (outcome_ok_bind _ _ (fun _ => True)).
  { unfold uadd, checked_arith. destruct (_ && _); [done|]. by destruct overflow_checks. }
  intros sum _. eapply outcome_ok_bind; [by apply slice_ok|].
  intros r [Hr _]. by apply vec_resize_ok.
Qed.

Lemma wf_set_memory m i : wf i -> buffer_ok (m_data m) -> trans i (set_memory m i).
Proof. intros [] Hs. by split. Qed.

(** Any method of the memory that keeps its bytes well formed. *)
Lemma spec_on_memory h (f : SM Memory EvmError unit) :
  (forall m, buffer_ok (m_data m) ->
     buffer_ok (m_data (f m).2) /\ outcome_ok (f m).1 (fun _ => True)) ->
  spec np ctx h h (on_memory f) (fun _ => True).
Proof.
  intros Hf i Hi Hc Hh. unfold on_memory. destruct (Hf (memory i)) as [Hb Ho]; [apply Hi|].
  destruct (f (memory i)) as [r m']. simpl in *.
  split_and!; auto using wf_set_memory. by destruct r.
Qed.

Lemma memory_resize_ok n m : np = false -> buffer_ok (m_data m) ->
  buffer_ok (m_data (memory_resize n m).2) /\ outcome_ok (memory_resize n m).1 (fun _ => True).
Proof.
  intros Hnp Hm. unfold memory_resize, sbind, sget, slift, sput, sret.
  destruct (_ <? n); [|done]. pose proof (vec_resize_ok (m_data m) n Hnp (proj1 Hm)) as Hr.
  by destruct (vec_resize (m_data m) n).
Qed.

Lemma copy_from_slice_ok (l : list Z) a src : np = false -> buffer_ok l -> bytes src ->
  outcome_ok (copy_from_slice l a src) buffer_ok.
Proof.
  intros Hnp [Hb Hl] Hs. unfold copy_from_slice.
  destruct (Z.leb_spec 0 a), (Z.leb_spec (a + len src) (len l)); simpl; try done. split.
  - apply bytes_app. split; [by apply bytes_take|]. apply bytes_app. auto using bytes_drop.
  - unfold len in *. rewrite !length_app, length_take, length_drop. lia.
Qed.

Lemma memory_set_ok o d m : np = false -> bytes d -> buffer_ok (m_data m) ->
  buffer_ok (m_data (memory_set o d m).2) /\ outcome_ok (memory_set o d m).1 (fun _ => True).
Proof.
  intros Hnp Hd Hm. unfold memory_set. destruct d as [|x d]; [done|].
  destruct (checked_add _ _ _) as [e|]; [|done].
  unfold sbind. pose proof (memory_resize_ok e m Hnp Hm) as [Hb Ho].
  destruct (memory_resize e m) as [[| | |] m']; simpl in *; try done.
  unfold sbind, sget, slift, sput.
  pose proof (copy_from_slice_ok (m_data m') o (x :: d) Hnp Hb Hd) as Hc.
  by destruct (copy_from_slice (m_data m') o (x :: d)).
Qed.

Lemma memory_set_byte_ok o b m : np = false -> byte b -> buffer_ok (m_data m) ->
  buffer_ok (m_data (memory_set_byte o b m).2) /\ outcome_ok (memory_set_byte o b m).1 (fun _ => True).
Proof.
  intros Hnp Hd Hm. unfold memory_set_byte.
  destruct (checked_add _ _ _) as [e|]; [|done].
  unfold sbind. pose proof (memory_resize_ok e m Hnp Hm) as [Hb Ho].
  destruct (memory_resize e m) as [[| | |] m']; simpl in *; try done.
  unfold index.
  destruct (_ !! _); [|done]. destruct (0 <=? o); [|done]. simpl. split; [|done].
  destruct Hb as [Hb Hl]. split; [by apply Forall_insert|]. unfold len. by rewrite length_insert.
Qed.

Lemma spec_as_usize h v : U256 v -> (np = true -> v < 2 ^ 64) ->
  spec np ctx h h (as_usize v) (fun n => n = v /\ uint 64 n).
Proof.
  intros Hv Hnp. apply spec_slift. rewrite as_usize_law by done.
  destruct (Z.ltb_spec v (2 ^ 64)); simpl.
  - unfold uint in *. lia.
  - destruct np; [|done]. specialize (Hnp eq_refl). lia.
Qed.

Lemma spec_mem_get h o n : np = false -> U256 o -> U256 n ->
  spec np ctx h h (mem_get o n) buffer_ok.
Proof.
  intros Hnp Ho Hn. unfold mem_get.
  eapply spec_bind; [apply spec_as_usize; [done|by rewrite Hnp]|]. intros o' _.
  eapply spec_bind; [apply spec_as_usize; [done|by rewrite Hnp]|]. intros n' _.
  eapply spec_bind; [apply (spec_get _ _ (fun m => buffer_ok (m_data m))); intros i Hi _; apply Hi|].
  intros m Hm. apply spec_slift. by apply memory_get_ok.
Qed.

Lemma spec_u256_from_bytes h l : bytes l -> len l <= 32 ->
  spec np ctx h h (u256_from_bytes l) (fun v => U256 v /\ v = from_be l).
Proof.
  intros Hl Hn. apply spec_slift. rewrite from_big_endian_law by done.
  rewrite (proj2 (Z.leb_le _ _)) by done. split; [by apply from_be_in_range|done].
Qed.

(** ** Endings *)

Lemma wf_set_pc p i : wf i -> 0 <= p <= len (ctx_code (context i)) -> trans i (set_pc p i).
Proof. intros [] Hp. by split. Qed.

Lemma uadd_pc {E} p n : 0 <= p -> 0 <= n -> p + n < 2 ^ 64 -> uadd (E := E) 64 p n = Ok (p + n).
Proof. intros. apply checked_arith_ok. unfold uint. lia. Qed.

Lemma ends_advance h h' b : h = h' -> ends np ctx h h' b advance.
Proof.
  intros <- i Hi Hc Hh Hpc Hres. unfold advance, sbind, get, slift, smodify.
  pose proof (wf_pc i Hi). pose proof (proj2 (co_code _ (wf_context i Hi))). unfold isize_max in *.
  rewrite uadd_pc by (rewrite Hc in *; lia). simpl. split_and!; auto.
  - apply wf_set_pc; [done|rewrite Hc; lia].
  - intros _. right. right. left. lia.
Qed.

Lemma spec_jump_pc h dest i : wf i -> context i = ctx -> len (st_data (stack i)) = h -> 0 <= dest ->
  trans i (jump dest i).2 /\
  match (jump dest i).1 with
  | Ok _ => len (st_data (stack (jump dest i).2)) = h /\ pc (jump dest i).2 = dest /\
            ctx_code ctx !! Z.to_nat dest = Some (op_u8 Op.JUMPDEST)
  | Err e => e = InvalidJump dest
  | _ => False
  end.
Proof.
  intros Hi Hc Hh Hd. unfold jump, sbind, get, sfail, slift, smodify. rewrite Hc.
  destruct (Z.leb_spec (len (ctx_code ctx)) dest); simpl; [auto using trans_refl|].
  destruct (index_ok (ctx_code ctx) dest) as (b & -> & Hb); [lia|].
  simpl. destruct (Z.eqb_spec b 91) as [->|]; simpl; [|auto using trans_refl].
  split_and!; [apply wf_set_pc; [done|rewrite Hc; lia]|done..].
Qed.

Lemma ends_jump h h' dest : h = h' -> 0 <= dest -> ends np ctx h h' true (jump dest).
Proof.
  intros <- Hd i Hi Hc Hh _ _. destruct (spec_jump_pc h dest i Hi Hc Hh Hd) as [Ht Hr].
  split; [done|]. destruct (jump dest i) as [[] ?]; simpl in *; try done.
  - destruct Hr as (? & _). auto.
  - by subst.
Qed.

Lemma wf_set_result r i : wf i -> result_ok (gas i) r -> trans i (set_result r i).
Proof. intros [] Hr. by split. Qed.

Lemma ends_result h h' b (mk : Z -> ExecutionResult) :
  h = h' ->
  (forall u, gas_used (mk u) = u /\ res_logs (mk u) = [] /\ is_halt (status (mk u)) = false /\
             bytes (return_data (mk u))) ->
  ends np ctx h h' b (let! g := get gas in smodify (set_result (Some (mk (g_used g))))).
Proof.
  intros <- Hmk i Hi Hc Hh _ _. unfold sbind, get, smodify. simpl. split_and!; auto.
  apply wf_set_result; [done|]. simpl. destruct (Hmk (g_used (gas i))) as (-> & -> & -> & ?).
  pose proof (proj2 (wf_gas i Hi)). split_and!; auto; lia.
Qed.

(** Endings that write state are only reached outside static contexts. *)
Lemma spec_set_storage h (k v : H256) : is_static ctx = false -> h256_ok v ->
  spec np ctx h h
    (smodify (fun i => set_state (set_storage (address (context i)) k v (state i)) i))
    (fun _ => True).
Proof.
  intros Hst Hv i Hi Hc Hh. simpl. split_and!; auto. split; simpl; try done.
  - destruct Hi. split; simpl; try done. by apply state_ok_set_storage.
  - rewrite Hc, Hst. done.
Qed.

Lemma spec_push_log h ts d : is_static ctx = false ->
  spec np ctx h h
    (smodify (fun i => set_logs (logs i ++ [mkLog (address (context i)) ts d]) i))
    (fun _ => True).
Proof.
  intros Hst i Hi Hc Hh. simpl. split_and!; auto. split; simpl; try done.
  - destruct Hi. by split.
  - by apply prefix_app_r.
  - rewrite Hc, Hst. done.
Qed.

End rules.
End safety.
