(* ===== verification/EvmAlu.v ===== *)
(** The word operations of the interpreter: what each two-operand and
    three-operand arm of [execute_opcode] computes, as integer arithmetic. *)
From stdpp Require Import base list numbers option.
From Stdlib Require Import ZArith Lia.
From S2P Require Import Prelude U256 EvmMachine EvmOpcodes EvmArith EvmInterp EvmSafety.

(** The price and the result of the two-operand opcodes as the code computes
    them: [b] is the word on top of the stack, [a] the one below it. *)
Definition binary_table (op : Opcode) : option (Z * (Z -> Z -> Z)) :=
  match op with
  | Op.ADD => Some (3, fun a b => (a + b) mod 2 ^ 256)
  | Op.MUL => Some (5, fun a b => (a * b) mod 2 ^ 256)
  | Op.SUB => Some (3, fun a b => (a - b) mod 2 ^ 256)
  | Op.DIV => Some (5, fun a b => if b =? 0 then 0 else a / b)
  | Op.SDIV => Some (5, fun a b => if b =? 0 then 0 else of_signed (Z.quot (to_signed a) (to_signed b)))
  | Op.MOD => Some (5, fun a b => if b =? 0 then 0 else a mod b)
  | Op.SMOD => Some (5, fun a b => if b =? 0 then 0 else of_signed (Z.rem (to_signed a) (to_signed b)))
  | Op.LT => Some (3, fun a b => of_bool (a <? b))
  | Op.GT => Some (3, fun a b => of_bool (b <? a))
  | Op.SLT => Some (3, fun a b => of_bool (to_signed a <? to_signed b))
  | Op.SGT => Some (3, fun a b => of_bool (to_signed b <? to_signed a))
  | Op.EQ => Some (3, fun a b => of_bool (a =? b))
  | Op.AND => Some (3, Z.land)
  | Op.OR => Some (3, Z.lor)
  | Op.XOR => Some (3, Z.lxor)
  | Op.BYTE => Some (3, fun x i => if i <? 32 then (x / 256 ^ (31 - i)) mod 256 else 0)
  | Op.SHL => Some (3, fun v n => (v * 2 ^ n) mod 2 ^ 256)
  | Op.SHR => Some (3, fun v n => v / 2 ^ n)
  | Op.SAR => Some (3, fun v n => of_signed (Z.shiftr (to_signed v) n))
  | _ => None
  end.

Section alu.
Context {S : Type} `{StateDB S} `{U256Laws} `{KeccakOps} `{Profile}.

Lemma of_bool_range b : U256 (of_bool b).
Proof. unfold uint. destruct b; simpl; lia. Qed.

Lemma small_range x : 0 <= x < 256 -> U256 x.
Proof. unfold uint. lia. Qed.

Lemma mod_range a b : U256 a -> 0 < b -> U256 (a mod b).
Proof.
  unfold uint. intros Ha Hb. pose proof (Z.mod_pos_bound a b Hb).
  pose proof (Z.mod_le a b ltac:(lia) Hb). lia.
Qed.

Lemma div_range a b : U256 a -> 0 < b -> U256 (a / b).
Proof.
  unfold uint. intros Ha Hb. split; [apply Z.div_pos; lia|].
  apply Z.div_lt_upper_bound; nia.
Qed.

(** [f] computes [g] on words, and [g] stays within the word. *)
Definition computes (f : Z -> Z -> outcome EvmError Z) (g : Z -> Z -> Z) : Prop :=
  forall a b, U256 a -> U256 b -> f a b = Ok (g a b) /\ U256 (g a b).

Lemma computes_shl : computes
  (fun value shift => if 256 <=? shift then Ok 0
    else let? n := unwrap (u_as_usize shift) in Ok (u_shl value n))
  (fun v n => (v * 2 ^ n) mod 2 ^ 256).
Proof.
  intros v n Hv Hn. split; [|apply wrap_in_range]. unfold uint in Hn.
  destruct (Z.leb_spec 256 n).
  - f_equal. replace n with ((n - 256) + 256) by lia. rewrite Z.pow_add_r by lia.
    rewrite Z.mul_assoc. symmetry. apply Z_mod_mult.
  - rewrite as_usize_law, (proj2 (Z.ltb_lt _ _)) by (unfold uint; lia). simpl.
    rewrite shl_law by (unfold uint in *; lia). by rewrite Z.shiftl_mul_pow2 by lia.
Qed.

Lemma computes_shr : computes
  (fun value shift => if 256 <=? shift then Ok 0
    else let? n := unwrap (u_as_usize shift) in Ok (u_shr value n))
  (fun v n => v / 2 ^ n).
Proof.
  intros v n Hv Hn. split; [|apply div_range; [done|apply Z.pow_pos_nonneg; unfold uint in Hn; lia]].
  unfold uint in Hn. destruct (Z.leb_spec 256 n).
  - f_equal. symmetry. apply Z.div_small. unfold uint in Hv. split; [lia|].
    apply Z.lt_le_trans with (2 ^ 256); [lia|]. apply Z.pow_le_mono_r; lia.
  - rewrite as_usize_law, (proj2 (Z.ltb_lt _ _)) by (unfold uint; lia). simpl.
    rewrite shr_law by (unfold uint in *; lia). by rewrite Z.shiftr_div_pow2 by lia.
Qed.

Lemma computes_byte : computes
  (fun x i => if i <? 32 then
      let? byte_index := unwrap (u_as_u64 i) in
      let? k := usub 64 31 byte_index in
      Ok (u_byte x k)
    else Ok 0)
  (fun x i => if i <? 32 then (x / 256 ^ (31 - i)) mod 256 else 0).
Proof.
  intros x i Hx Hi. unfold uint in Hi. destruct (Z.ltb_spec i 32).
  - rewrite as_u64_law, (proj2 (Z.ltb_lt _ _)) by (unfold uint; lia). simpl.
    unfold usub. rewrite checked_arith_ok by (unfold uint; lia). simpl.
    rewrite byte_law by (done || lia). split; [done|]. apply small_range.
    apply Z.mod_pos_bound. lia.
  - split; [done|]. apply small_range. lia.
Qed.

Lemma computes_div : computes
  (fun a b => if b =? 0 then Ok 0 else unwrap (u_div a b)) (fun a b => if b =? 0 then 0 else a / b).
Proof.
  intros a b Ha Hb. destruct (Z.eqb_spec b 0); [by split|].
  rewrite div_law, (proj2 (Z.eqb_neq _ _)) by done. split; [done|].
  apply div_range; [done|]. unfold uint in Hb. lia.
Qed.

Lemma computes_mod : computes
  (fun a b => if b =? 0 then Ok 0 else unwrap (u_rem a b)) (fun a b => if b =? 0 then 0 else a mod b).
Proof.
  intros a b Ha Hb. destruct (Z.eqb_spec b 0); [by split|].
  rewrite rem_law, (proj2 (Z.eqb_neq _ _)) by done. split; [done|].
  apply mod_range; [done|]. unfold uint in Hb. lia.
Qed.

Lemma computes_signed_div : computes signed_div
  (fun a b => if b =? 0 then 0 else of_signed (Z.quot (to_signed a) (to_signed b))).
Proof.
  intros a b Ha Hb. rewrite signed_div_correct by done. split; [done|].
  destruct (b =? 0); [done|apply wrap_in_range].
Qed.

Lemma computes_signed_mod : computes signed_mod
  (fun a b => if b =? 0 then 0 else of_signed (Z.rem (to_signed a) (to_signed b))).
Proof.
  intros a b Ha Hb. rewrite signed_mod_correct by done. split; [done|].
  destruct (b =? 0); [done|apply wrap_in_range].
Qed.

Lemma computes_sar : computes arithmetic_shr (fun v n => of_signed (Z.shiftr (to_signed v) n)).
Proof.
  intros v n Hv Hn. rewrite arithmetic_shr_correct by done. split; [done|apply wrap_in_range].
Qed.

Lemma computes_slt : computes (fun a b => Ok (slt a b))
  (fun a b => of_bool (to_signed a <? to_signed b)).
Proof.
  intros a b Ha Hb. rewrite (proj1 (slt_correct a b Ha Hb)). split; [done|apply of_bool_range].
Qed.

Lemma computes_sgt : computes (fun a b => Ok (sgt a b))
  (fun a b => of_bool (to_signed b <? to_signed a)).
Proof.
  intros a b Ha Hb. rewrite (proj2 (slt_correct a b Ha Hb)). split; [done|apply of_bool_range].
Qed.

(** An operation of [U256] given by a law. *)
Lemma computes_law (f g : Z -> Z -> Z) :
  (forall a b, U256 a -> U256 b -> f a b = g a b) ->
  (forall a b, U256 a -> U256 b -> U256 (g a b)) -> computes (fun a b => Ok (f a b)) g.
Proof. intros Hf Hg a b Ha Hb. rewrite Hf by done. auto. Qed.

(** Every opcode of the table is a [binary] arm that computes its entry. *)
Lemma binary_arm op c g : binary_table op = Some (c, g) ->
  0 < c /\ exists f, opcode_body (S := S) op = binary c f /\ computes f g.
Proof.
  destruct op; intros Hop; simplify_eq/=; (split; [lia|]); eexists; (split; [reflexivity|]);
    auto using computes_shl, computes_shr, computes_byte, computes_div, computes_mod,
      computes_signed_div, computes_signed_mod, computes_sar, computes_slt, computes_sgt;
    apply computes_law; auto using of_bool_range with rust; intros a b Ha Hb.
  - by rewrite overflowing_add_law.
  - by rewrite overflowing_mul_law.
  - by rewrite overflowing_sub_law.
  - by apply and_law.
  - by apply or_law.
  - by apply xor_law.
Qed.

Lemma addmod_correct a b n : U256 a -> U256 b -> U256 n ->
  addmod a b n = Ok (if n =? 0 then 0 else (a + b) mod n) /\ U256 (if n =? 0 then 0 else (a + b) mod n).
Proof.
  intros Ha Hb Hn. unfold addmod, uint in *. change (2 ^ 256) with (1 * 2 ^ 256) in *.
  destruct (Z.eqb_spec n 0); [by split|].
  rewrite !full_mul_law by (unfold uint; lia). rewrite !Z.mul_1_r.
  assert (2 ^ 512 = 2 ^ 256 * 2 ^ 256) as H512 by done.
  rewrite u512_overflowing_add_law by (unfold uint; lia). simpl fst.
  rewrite (Z.mod_small (a + b)) by lia.
  rewrite u512_div_mod_law, (proj2 (Z.eqb_neq _ _)) by (unfold uint; lia). simpl unwrap. cbn [obind].
  pose proof (Z.mod_pos_bound (a + b) n ltac:(lia)).
  rewrite u512_try_into_law, (proj2 (Z.ltb_lt _ _)) by (unfold uint; lia). split; [done|lia].
Qed.

Lemma mulmod_correct a b n : U256 a -> U256 b -> U256 n ->
  mulmod a b n = Ok (if n =? 0 then 0 else (a * b) mod n) /\ U256 (if n =? 0 then 0 else (a * b) mod n).
Proof.
  intros Ha Hb Hn. unfold mulmod, uint in *. destruct (Z.eqb_spec n 0); [by split|].
  assert (2 ^ 512 = 2 ^ 256 * 2 ^ 256) as H512 by done.
  assert (0 <= a * b < 2 ^ 512) by nia.
  rewrite full_mul_law by (unfold uint; lia).
  rewrite u512_div_mod_law, (proj2 (Z.eqb_neq _ _)) by (unfold uint; lia). simpl unwrap. cbn [obind].
  pose proof (Z.mod_pos_bound (a * b) n ltac:(lia)).
  rewrite u512_try_into_law, (proj2 (Z.ltb_lt _ _)) by (unfold uint; lia). split; [done|lia].
Qed.
End alu.
