(* ===== verification/EvmMemory.v ===== *)
(** The EVM memory (crates/evm/src/memory.rs) as an unbounded array of bytes
    that are zero until written: the abstract specification, and the proof that
    the growing [Vec<u8>] of the code implements it. *)
From stdpp Require Import base list numbers option.
From Stdlib Require Import ZArith Lia.
From S2P Require Import Prelude U256 EvmMachine.

(** The byte the memory shows at an address. *)
Definition mem_at (m : Memory) (k : Z) : Z := default 0 (m_data m !! Z.to_nat k).
(** The [n] bytes from [o] on, and an array with [d] written at [o]. *)
Definition read (f : Z -> Z) (o n : Z) : list Z :=
  map (fun k => f (o + Z.of_nat k)) (seq 0 (Z.to_nat n)).
Definition write (f : Z -> Z) (o : Z) (d : list Z) (k : Z) : Z :=
  if (o <=? k) && (k <? o + len d) then default 0 (d !! Z.to_nat (k - o)) else f k.

Lemma read_lookup f o n j : 0 <= n -> (Z.of_nat j < n) -> read f o n !! j = Some (f (o + Z.of_nat j)).
Proof.
  intros Hn Hj. unfold read. rewrite list_lookup_fmap, lookup_seq_lt by lia. done.
Qed.

Lemma length_read f o n : length (read f o n) = Z.to_nat n.
Proof. unfold read. by rewrite length_map, length_seq. Qed.

(** Two lists with the same length and entries. *)
Lemma read_eq f o n (l : list Z) : 0 <= n -> length l = Z.to_nat n ->
  (forall j, (j < length l)%nat -> l !! j = Some (f (o + Z.of_nat j))) -> l = read f o n.
Proof.
  intros Hn Hl Hf. apply list_eq. intros j. destruct (decide (j < length l)%nat) as [Hj|Hj].
  - rewrite Hf by done. symmetry. apply read_lookup; lia.
  - rewrite !lookup_ge_None_2; [done| |lia]. rewrite length_read. lia.
Qed.

Lemma memory_get_refines o n m : uint 64 o -> 0 <= n <= isize_max -> len (m_data m) <= isize_max ->
  memory_get o n m = Ok (read (mem_at m) o n).
Proof.
  unfold uint, isize_max. intros Ho Hn Hm. unfold memory_get.
  destruct (Z.eqb_spec n 0) as [->|Hnz]; [done|]. unfold saturating_add.
  unfold vec_zeros, vec_resize, isize_max. rewrite (proj2 (Z.leb_le n _)) by lia.
  destruct (Z.leb_spec (len (m_data m)) o) as [Hle|Hgt].
  - f_equal. apply read_eq; [lia|by rewrite length_replicate|]. intros j Hj.
    rewrite length_replicate in Hj. rewrite lookup_replicate_2 by done.
    unfold mem_at. rewrite lookup_ge_None_2; [done|]. unfold len in Hle. lia.
  - destruct (Z.ltb_spec (len (m_data m)) (Z.min (o + n) (2 ^ 64 - 1))) as [Hlt|Hge]; unfold slice.
    + rewrite (proj2 (Z.leb_le 0 o)), (proj2 (Z.leb_le o _)), Z.leb_refl by lia. cbn [andb obind].
      f_equal. apply read_eq; [lia| |]; unfold len in *;
        rewrite length_app, length_take, length_replicate, length_take, length_drop; [lia|].
      intros j Hj. destruct (decide (j < length (m_data m) - Z.to_nat o)%nat) as [Hin|Hout].
      * rewrite lookup_app_l by (rewrite !length_take, length_drop; lia).
        rewrite !lookup_take_lt, lookup_drop by lia. unfold mem_at.
        replace (Z.to_nat (o + Z.of_nat j)) with (Z.to_nat o + j)%nat by lia.
        destruct (lookup_lt_is_Some_2 (m_data m) (Z.to_nat o + j)) as [x ->]; [lia|done].
      * rewrite lookup_app_r by (rewrite !length_take, length_drop; lia).
        rewrite lookup_replicate_2 by (rewrite !length_take, length_drop; lia).
        unfold mem_at. rewrite lookup_ge_None_2; [done|lia].
    + rewrite Z.min_l in * by lia.
      rewrite (proj2 (Z.leb_le 0 o)), (proj2 (Z.leb_le o _)), (proj2 (Z.leb_le _ (len _))) by lia.
      cbn [andb]. f_equal. apply read_eq; [lia| |]; unfold len in *;
        rewrite length_take, length_drop; [lia|].
      intros j Hj. rewrite lookup_take_lt, lookup_drop by lia. unfold mem_at.
      replace (Z.to_nat (o + Z.of_nat j)) with (Z.to_nat o + j)%nat by lia.
      destruct (lookup_lt_is_Some_2 (m_data m) (Z.to_nat o + j)) as [x ->]; [lia|done].
Qed.

(** Growing the vector does not change the array. *)
Lemma memory_resize_refines n m : n <= isize_max -> len (m_data m) <= isize_max ->
  exists m', memory_resize n m = (Ok tt, m') /\ len (m_data m') = Z.max (len (m_data m)) n /\
    forall k, mem_at m' k = mem_at m k.
Proof.
  intros Hn Hm. unfold memory_resize, sbind, sget, slift, sput, sret.
  destruct (Z.ltb_spec (len (m_data m)) n).
  - unfold vec_resize. rewrite (proj2 (Z.leb_le _ _)) by done. eexists. split; [done|].
    unfold len in *. simpl.
    rewrite take_ge by lia. rewrite length_app, length_replicate. split; [lia|].
    intros k. unfold mem_at. simpl. destruct (decide (Z.to_nat k < length (m_data m))%nat).
    + by rewrite lookup_app_l by lia.
    + rewrite lookup_app_r, (lookup_ge_None_2 (m_data m)) by lia.
      destruct (replicate _ 0 !! _) eqn:Hr; [|done]. apply lookup_replicate in Hr as [-> _]. done.
  - eexists. split; [done|]. split; [lia|done].
Qed.

Lemma copy_refines m a src d : 0 <= a ->
  copy_from_slice (E := EvmError) (m_data m) a src = Ok d ->
  len d = len (m_data m) /\ forall k, 0 <= k -> mem_at (mkMemory d) k = write (mem_at m) a src k.
Proof.
  intros Ha. unfold copy_from_slice.
  destruct (Z.leb_spec 0 a), (Z.leb_spec (a + len src) (len (m_data m))); simpl; try done.
  intros [= <-]. unfold len in *. rewrite !length_app, length_take, length_drop.
  split; [lia|]. intros k Hk. unfold write, mem_at. simpl. unfold len.
  destruct (Z.leb_spec a k); simpl.
  2:{ rewrite lookup_app_l by (rewrite length_take; lia). by rewrite lookup_take_lt by lia. }
  rewrite lookup_app_r by (rewrite length_take; lia). rewrite length_take.
  destruct (Z.ltb_spec k (a + Z.of_nat (length src))).
  - rewrite lookup_app_l by lia. do 2 f_equal. lia.
  - rewrite lookup_app_r, lookup_drop by lia. do 2 f_equal. lia.
Qed.

Lemma memory_set_refines o d m : 0 <= o -> o + len d <= isize_max -> len (m_data m) <= isize_max ->
  exists m', memory_set o d m = (Ok tt, m') /\ len (m_data m') <= isize_max /\
    forall k, 0 <= k -> mem_at m' k = write (mem_at m) o d k.
Proof.
  intros Ho Hd Hm. unfold memory_set. destruct d as [|x d].
  { exists m. split_and!; [done|done|]. intros k Hk. unfold write. rewrite len_nil.
    destruct (Z.leb_spec o k), (Z.ltb_spec k (o + 0)); simpl; try done. lia. }
  unfold checked_add. rewrite (proj2 (Z.ltb_lt _ _)) by (unfold isize_max in *; lia).
  destruct (memory_resize_refines (o + len (x :: d)) m) as (m1 & Hr & Hl & Hat); [lia|done|].
  erewrite sbind_ok by done. unfold sbind, sget, slift, sput.
  destruct (copy_from_slice (E := EvmError) (m_data m1) o (x :: d)) as [d'| | |] eqn:Hc;
    try (unfold copy_from_slice in Hc;
         rewrite (proj2 (Z.leb_le _ _)), (proj2 (Z.leb_le _ _)) in Hc by lia; discriminate).
  destruct (copy_refines m1 o (x :: d) d' Ho Hc) as [Hl' Hat'].
  eexists. split; [done|]. split; [simpl; lia|]. intros k Hk. rewrite Hat' by done.
  unfold write. by rewrite Hat.
Qed.

Lemma memory_set_get o d m : 0 <= o -> o + len d <= isize_max -> len (m_data m) <= isize_max ->
  exists m', memory_set o d m = (Ok tt, m') /\ len (m_data m') <= isize_max /\
    (forall k, 0 <= k -> mem_at m' k = write (mem_at m) o d k) /\
    memory_get o (len d) m' = Ok d.
Proof.
  intros Ho Hd Hm. pose proof (len_nonneg d).
  destruct (memory_set_refines o d m Ho Hd Hm) as (m' & Hs & Hl & Hat).
  exists m'. split_and!; auto.
  rewrite memory_get_refines by (unfold uint, isize_max in *; lia). f_equal. symmetry.
  apply read_eq; [lia|unfold len; lia|]. intros j Hj. rewrite Hat by lia. unfold write.
  rewrite (proj2 (Z.leb_le _ _)), (proj2 (Z.ltb_lt _ _)) by (unfold len; lia). simpl.
  replace (Z.to_nat (o + Z.of_nat j - o)) with j by lia.
  destruct (lookup_lt_is_Some_2 d j Hj) as [x ->]. done.
Qed.

(** C7: the memory is an unbounded zero-initialised byte array.  Reading any
    range of at most [isize::MAX] bytes returns the bytes of the array, and
    writing data at an offset succeeds and changes exactly the bytes of the
    range written, as long as the range ends at or below [isize::MAX]; the
    vector behind it grows as needed and never exceeds that bound. *)
Theorem memory_refines_array m o n d :
  len (m_data m) <= isize_max -> 0 <= o -> 0 <= n <= isize_max -> o + len d <= isize_max ->
  memory_get o n m = Ok (read (mem_at m) o n) /\
  exists m', memory_set o d m = (Ok tt, m') /\ len (m_data m') <= isize_max /\
    (forall k, 0 <= k -> mem_at m' k = write (mem_at m) o d k) /\
    memory_get o (len d) m' = Ok d.
Proof.
  intros Hm Ho Hn Hd. pose proof (len_nonneg d).
  split; [apply memory_get_refines; auto; unfold uint, isize_max in *; lia|].
  by apply memory_set_get.
Qed.

Lemma memory_refines_array_witness :
  let m := mkMemory [1; 2; 3] in
  memory_get 1 4 m = Ok (read (mem_at m) 1 4) /\
  exists m', memory_set 1 [7; 8; 9] m = (Ok tt, m') /\ len (m_data m') <= isize_max /\
    (forall k, 0 <= k -> mem_at m' k = write (mem_at m) 1 [7; 8; 9] k) /\
    memory_get 1 (len [7; 8; 9]) m' = Ok [7; 8; 9].
Proof.
  apply (memory_refines_array (mkMemory [1; 2; 3]) 1 4 [7; 8; 9]); unfold isize_max, len; simpl; lia.
Defined.

(** A write that succeeds leaves a vector that reaches its end. *)
Lemma memory_set_len o d m m' : d <> [] -> 0 <= o -> memory_set o d m = (Ok tt, m') ->
  len (m_data m') = Z.max (len (m_data m)) (o + len d).
Proof.
  intros Hne Ho. unfold memory_set. destruct d as [|x d]; [done|].
  destruct (checked_add 64 o (len (x :: d))) as [e|] eqn:Hc; [|done].
  unfold checked_add in Hc. destruct (_ <? _); [|done]. injection Hc as <-.
  intros Hs. apply sbind_inv in Hs as ([] & m1 & Hr & Hs).
  assert (len (m_data m1) = Z.max (len (m_data m)) (o + len (x :: d))) as Hl1.
  { revert Hr. unfold memory_resize, sbind, sget, slift, sput, sret.
    destruct (Z.ltb_spec (len (m_data m)) (o + len (x :: d))); [|intros [= <-]; lia].
    unfold vec_resize. destruct (_ <=? _); [|done]. intros [= <-]. simpl. unfold len in *.
    rewrite length_app, length_take, length_replicate. lia. }
  apply sbind_inv in Hs as (m2 & m3 & [= <- <-] & Hs).
  apply sbind_inv in Hs as (d' & m3 & Hs & [= <-]). unfold slift in Hs.
  injection Hs as Hs <-. apply (copy_refines m1) in Hs as [Hd _]; [|done]. cbn [m_data]. congruence.
Qed.

Section words.
Context `{U256Laws}.

(** Storing a word and loading it back. *)
Lemma memory_word_roundtrip m o v : len (m_data m) <= isize_max -> 0 <= o -> o + 32 <= isize_max ->
  U256 v ->
  exists m', memory_set_u256 o v m = (Ok tt, m') /\ len (m_data m') <= isize_max /\
             memory_get_u256 o m' = Ok v.
Proof.
  intros Hm Ho Hle Hv. unfold memory_set_u256, memory_get_u256. rewrite to_big_endian_law by done.
  assert (Hlen : len (to_be 32 v) = 32) by (unfold len; by rewrite length_to_be).
  destruct (memory_set_get o (to_be 32 v) m) as (m' & Hs & Hl & _ & Hg); [done|lia|done|].
  exists m'. split_and!; auto. rewrite Hlen in Hg. rewrite Hg. cbn [obind].
  rewrite from_big_endian_law by apply bytes_to_be. rewrite Hlen, from_be_to_be.
  change (32 <=? 32) with true. cbn [unwrap]. f_equal. apply Z.mod_small. exact Hv.
Qed.
End words.
