(* ===== verification/EvmSound.v ===== *)
(** Soundness of [execute_opcode] and [run]: every opcode keeps the machine
    well formed; those with an arm of their own have the stack effect the opcode
    table declares, the others change nothing but the program counter; execution
    terminates within a fuel bound computed from the gas limit and the code. *)
From stdpp Require Import base list numbers option gmap.
From Stdlib Require Import ZArith Lia.
From S2P Require Import Prelude U256 EvmMachine EvmOpcodes EvmArith EvmInterp EvmSafety EvmAlu.

(** Which opcodes have an arm of their own; the thirteen others fall through to
    the last one, [_ => self.pc += 1]. *)
Definition implemented (op : Opcode) : bool :=
  match op with
  | Op.BLOBHASH | Op.BLOBBASEFEE | Op.TLOAD | Op.TSTORE | Op.MCOPY | Op.CREATE | Op.CALL
  | Op.CALLCODE | Op.DELEGATECALL | Op.CREATE2 | Op.STATICCALL | Op.INVALID
  | Op.SELFDESTRUCT => false
  | _ => true
  end.

(** The opcodes with a conversion, an allocation or a subtraction that can
    panic. *)
Definition may_panic (op : Opcode) : bool :=
  match op with
  | Op.SIGNEXTEND | Op.KECCAK256 | Op.CALLDATALOAD | Op.CALLDATACOPY | Op.CODECOPY
  | Op.EXTCODECOPY | Op.RETURNDATACOPY | Op.BLOCKHASH | Op.MLOAD | Op.MSTORE | Op.MSTORE8
  | Op.JUMP | Op.JUMPI | Op.LOG0 | Op.LOG1 | Op.LOG2 | Op.LOG3 | Op.LOG4 | Op.RETURN
  | Op.REVERT => true
  | _ => false
  end.

(** The height of the stack after an opcode: what the opcode table declares,
    but for the thirteen opcodes without an arm, which leave the stack alone
    whatever the table says. *)
Definition height_after (op : Opcode) (h : Z) : Z :=
  if implemented op then h - stack_inputs op + stack_outputs op else h.

Lemma spec_context {S : Type} `{StateInv S} np ctx h :
  spec (S := S) np ctx h h (get context) (fun c => c = ctx /\ context_ok ctx).
Proof. apply spec_get. intros i Hi <-. split; [done|apply Hi]. Qed.

(** Where the next method of an opcode is a known one, its triple is applied. *)
Ltac height := unfold STACK_LIMIT in *; lia.
Ltac step :=
  lazymatch goal with
  | |- ends _ _ _ _ _ advance => apply ends_advance; height
  | |- ends _ _ _ _ _ (sbind (consume _) _) =>
      eapply ends_bind; [apply spec_consume; try (compute; discriminate) | intros _ _]
  | |- ends _ _ _ _ _ (sbind pop _) =>
      eapply ends_bind; [apply spec_pop; height | intros ? ?]
  | |- ends _ _ _ _ _ (sbind (push _) _) =>
      eapply ends_bind; [apply spec_push; [|height] | intros _ _]
  | |- ends _ _ _ _ _ (sbind (as_usize _) _) =>
      eapply ends_bind; [apply spec_as_usize; [done|intros; done] | intros ? [-> ?]]
  | |- ends _ _ _ _ _ (sbind (mem_get _ _) _) =>
      eapply ends_bind; [apply spec_mem_get; done | intros ? ?]
  | |- ends _ _ _ _ _ (sbind (get context) _) =>
      eapply ends_bind; [apply spec_context | intros ? [-> ?]]
  end.
Ltac steps := repeat step.

Section sound.
Context {S : Type} `{StateInv S} `{U256Laws} `{KeccakLaws} `{Profile}.
Notation M := (SM (Interp S) EvmError).
Implicit Types (i : Interp S) (ctx : ExecutionContext).

Section arms.
Context (np : bool) (ctx : ExecutionContext) (b : bool).

Lemma address_bytes a : address_ok a -> bytes a /\ len a <= 32.
Proof. intros [Hl Hb]. split; [done|]. unfold len. rewrite Hl. lia. Qed.

Lemma h256_bytes h : h256_ok h -> bytes h /\ len h <= 32.
Proof. intros [Hl Hb]. split; [done|]. unfold len. rewrite Hl. lia. Qed.

Lemma h256_of_u256 v : U256 v -> h256_ok (u_to_big_endian v).
Proof.
  intros Hv. rewrite to_big_endian_law by done. split; [apply length_to_be|apply bytes_to_be].
Qed.

Lemma buffer_len_range l : buffer_ok l -> U256 (len l).
Proof. intros [_ Hl]. pose proof (len_nonneg l). unfold uint, isize_max in *. lia. Qed.


Lemma ends_binary c f g h : 0 < c -> computes f g -> 2 <= h <= STACK_LIMIT ->
  ends (S := S) np ctx h (h - 1) b (binary c f).
Proof.
  intros Hc Hf Hh. unfold binary.
  eapply ends_bind; [apply spec_consume; lia|intros _ _]. do 2 step.
  destruct (Hf a0 a) as [Heq Hr]; [done..|].
  eapply ends_bind; [apply (spec_slift _ _ _ _ U256); by rewrite Heq|]. intros r ?. by steps.
Qed.

Lemma ends_unary c f h : 0 <= c -> (forall a, U256 a -> U256 (f a)) -> 1 <= h <= STACK_LIMIT ->
  ends (S := S) np ctx h h b (unary c f).
Proof.
  intros Hc Hf Hh. unfold unary. eapply ends_bind; [by apply spec_consume|intros _ _]. steps. auto.
Qed.

Lemma ends_nullary c f h : 0 <= c ->
  (forall i, wf i -> context i = ctx -> U256 (f i)) -> 0 <= h < STACK_LIMIT ->
  ends (S := S) np ctx h (h + 1) b (nullary c f).
Proof.
  intros Hc Hf Hh. unfold nullary. eapply ends_bind; [by apply spec_consume|intros _ _].
  eapply ends_bind; [by apply (spec_get _ _ _ _ U256)|]. intros v Hv. by steps.
Qed.

(** Pushing a word read from at most 32 bytes. *)
Lemma ends_push_bytes l h h' : bytes l -> len l <= 32 -> 0 <= h < STACK_LIMIT -> h + 1 = h' ->
  ends (S := S) np ctx h h' b (let! v := u256_from_bytes l in push v ;;! advance).
Proof.
  intros Hl Hn Hh <-. eapply ends_bind; [by apply spec_u256_from_bytes|]. intros v [Hv _]. by steps.
Qed.

Lemma ends_push_address c f h : 0 <= c ->
  (context_ok ctx -> address_ok (f ctx)) -> 0 <= h < STACK_LIMIT ->
  ends (S := S) np ctx h (h + 1) b (push_address c f).
Proof.
  intros Hc Hf Hh. unfold push_address. eapply ends_bind; [by apply spec_consume|intros _ _].
  step. destruct (address_bytes (f ctx)); [auto|]. by apply ends_push_bytes.
Qed.

(** ** Gas costs are non-negative. *)
Lemma word_count_ok size : np = false -> U256 size -> outcome_ok np (word_count size) (fun n => 0 <= n).
Proof.
  intros Hnp Hs. unfold word_count. rewrite as_u64_law by done.
  destruct (Z.ltb_spec size (2 ^ 64)); [|done]. simpl. unfold uadd, checked_arith.
  unfold uint in Hs. destruct (_ && _); simpl; [apply Z.div_pos; lia|].
  destruct overflow_checks; simpl; [done|]. apply Z.div_pos; [|lia].
  apply Z.mod_pos_bound. lia.
Qed.

Lemma saturating_nonneg a c : 0 <= a -> 0 <= c ->
  0 <= saturating_add 64 a c /\ 0 <= saturating_mul 64 a c.
Proof. unfold saturating_add, saturating_mul. nia. Qed.

Lemma keccak256_gas_cost_ok size : np = false -> U256 size ->
  outcome_ok np (keccak256_gas_cost size) (fun c => 0 <= c).
Proof.
  intros Hnp Hs. eapply outcome_ok_bind; [by apply word_count_ok|]. intros n Hn. simpl.
  apply saturating_nonneg; [compute; discriminate|]. apply saturating_nonneg; [compute; discriminate|done].
Qed.

Lemma copy_gas_cost_ok size : np = false -> U256 size ->
  outcome_ok np (copy_gas_cost size) (fun c => 0 <= c).
Proof.
  intros Hnp Hs. eapply outcome_ok_bind; [by apply word_count_ok|]. intros n Hn. simpl.
  apply saturating_nonneg; [compute; discriminate|done].
Qed.

Lemma log_gas_cost_ok n size : np = false -> 0 <= n -> U256 size ->
  outcome_ok np (log_gas_cost n size) (fun c => 0 <= c).
Proof.
  intros Hnp Hn Hs. unfold log_gas_cost. rewrite as_u64_law by done.
  destruct (Z.ltb_spec size (2 ^ 64)); [|done]. simpl. unfold uint in Hs.
  apply saturating_nonneg; apply saturating_nonneg; try (unfold GasCost.LOG, GasCost.LOGDATA; lia).
  apply saturating_nonneg; [unfold GasCost.LOGTOPIC; lia|done].
Qed.

Lemma exp_gas_cost_pos e : U256 e -> 0 <= exp_gas_cost e.
Proof.
  intros He. unfold exp_gas_cost. rewrite bits_law by done.
  apply saturating_nonneg; [compute; discriminate|]. apply saturating_nonneg; [compute; discriminate|].
  apply Z.div_pos; [|lia]. pose proof (Z.log2_nonneg e). destruct (e =? 0); lia.
Qed.

(** ** Copies to memory *)

Lemma ends_copy o d h h' : np = false -> U256 o -> bytes d -> h = h' ->
  ends (S := S) np ctx h h' b (let! o' := as_usize o in on_memory (memory_set o' d) ;;! advance).
Proof.
  intros Hnp Ho Hd <-. eapply ends_bind; [apply spec_as_usize; [done|by rewrite Hnp]|]. intros o' _.
  eapply ends_bind; [apply spec_on_memory; intros m Hm; by apply memory_set_ok|].
  intros _ _. step.
Qed.

Lemma ends_copy_cost size h h' (k : M unit) : np = false -> U256 size -> ends np ctx h h' b k ->
  ends np ctx h h' b (let! cost := slift (copy_gas_cost size) in consume cost ;;! k).
Proof.
  intros Hnp Hs Hk. eapply ends_bind; [apply spec_slift; by apply copy_gas_cost_ok|].
  intros c Hc. eapply ends_bind; [by apply spec_consume|]. by intros _ _.
Qed.
End arms.

(** * Every arm *)

Section each_arm.
Context (ctx : ExecutionContext) (h : Z) (Hh : h <= STACK_LIMIT).

Lemma ends_ternary np c (f : Z -> Z -> Z -> outcome EvmError Z) : 0 <= c -> 3 <= h ->
  (forall x y n, U256 x -> U256 y -> U256 n -> outcome_ok np (f x y n) U256) ->
  ends (S := S) np ctx h (h - 2) false
    (consume c ;;! let! n := pop in let! y := pop in let! x := pop in
     let! r := slift (f x y n) in push r ;;! advance).
Proof.
  intros Hc Hge Hf. eapply ends_bind; [by apply spec_consume|intros _ _]. do 3 step.
  eapply ends_bind; [apply spec_slift; by apply Hf|]. intros r Hr. by steps.
Qed.

Lemma ends_EXP np : 2 <= h -> ends (S := S) np ctx h (h - 1) false op_EXP.
Proof.
  intros Hge. unfold op_EXP. step. eapply ends_bind; [apply spec_consume; by apply exp_gas_cost_pos|].
  intros _ _. steps. rewrite overflowing_pow_law by done. apply wrap_in_range.
Qed.

Lemma ends_SIGNEXTEND : 2 <= h -> ends (S := S) false ctx h (h - 1) false op_SIGNEXTEND.
Proof.
  intros Hge. unfold op_SIGNEXTEND. do 3 step.
  eapply ends_bind; [apply (spec_slift _ _ _ _ U256)|intros r Hr; by steps].
  rewrite sign_extend_correct by done.
  destruct (_ <=? _); [done|]. destruct (_ =? _); [done|apply wrap_in_range].
Qed.

Lemma ends_KECCAK256 : 2 <= h -> ends (S := S) false ctx h (h - 1) false op_KECCAK256.
Proof.
  intros Hge. unfold op_KECCAK256. do 2 step.
  eapply ends_bind; [apply spec_slift; by apply keccak256_gas_cost_ok|]. intros c Hc.
  eapply ends_bind; [by apply spec_consume|intros _ _]. step.
  eapply ends_bind; [apply spec_u256_from_bytes|intros v [Hv _]; by steps].
  - apply keccak_bytes.
  - unfold len, keccak256. rewrite keccak_length. lia.
Qed.

Lemma spec_account np (a : Address) :
  spec (S := S) np ctx h h (get (fun i => get_account (state i) a))
    (fun acc => match acc with Some acc => account_ok acc | None => True end).
Proof.
  apply spec_get. intros i Hi _. destruct (get_account (state i) a) eqn:Ha; [|done].
  exact (state_ok_account (state i) a _ (wf_state i Hi) Ha).
Qed.

Lemma balance_of_range a s : state_ok s -> U256 (balance_of a s).
Proof.
  intros Hs. unfold balance_of. destruct (get_account s a) eqn:Ha; [|unfold uint; lia].
  apply (state_ok_account s a _ Hs Ha).
Qed.

Lemma code_hash_ok acc : h256_ok (code_hash acc).
Proof.
  unfold code_hash. destruct acc as [acc|]; [|apply h256_ok_zero].
  destruct (bool_decide _); [apply h256_ok_zero|]. split; [apply keccak_length|apply keccak_bytes].
Qed.

Lemma block_hash_ok blk n : block_ok blk -> U256 n -> outcome_ok false (block_hash blk n) h256_ok.
Proof.
  intros Hb Hn. unfold block_hash. destruct (_ <=? n); [apply h256_ok_zero|].
  destruct Hb as (_ & Hnum & _ & _ & _ & _ & _ & Hbh).
  rewrite sub_law by done. destruct (_ <=? _); [|done]. simpl.
  destruct (_ <? _); [apply h256_ok_zero|]. rewrite as_usize_law by done.
  destruct (_ <? _); [|done]. simpl. destruct (_ !! _) eqn:Hl; [|apply h256_ok_zero].
  rewrite Forall_lookup in Hbh. eauto.
Qed.

Lemma ends_BALANCE np : 1 <= h -> ends (S := S) np ctx h h false op_BALANCE.
Proof.
  intros Hge. unfold op_BALANCE. do 2 step.
  eapply ends_bind; [apply (spec_get _ _ _ _ U256)|intros v Hv; by steps].
  intros i Hi _. apply balance_of_range, Hi.
Qed.
End each_arm.

Lemma ends_EXTCODESIZE np ctx h : 1 <= h <= STACK_LIMIT -> ends (S := S) np ctx h h false op_EXTCODESIZE.
Proof.
  intros Hh. unfold op_EXTCODESIZE. do 2 step.
  eapply ends_bind; [apply spec_account|]. intros acc Hacc. steps.
  destruct acc as [acc|]; [|unfold uint; lia]. apply buffer_len_range. apply Hacc.
Qed.

Lemma ends_EXTCODEHASH np ctx h : 1 <= h <= STACK_LIMIT -> ends (S := S) np ctx h h false op_EXTCODEHASH.
Proof.
  intros Hh. unfold op_EXTCODEHASH. do 2 step.
  eapply ends_bind; [apply spec_account|]. intros acc _. destruct (h256_bytes _ (code_hash_ok acc)).
  apply ends_push_bytes; auto; height.
Qed.

Lemma ends_BLOCKHASH ctx h : 1 <= h <= STACK_LIMIT -> ends (S := S) false ctx h h false op_BLOCKHASH.
Proof.
  intros Hh. unfold op_BLOCKHASH. do 3 step.
  eapply ends_bind; [apply spec_slift; apply block_hash_ok; [by apply co_block|done]|]. intros v Hv.
  destruct (h256_bytes _ Hv). apply ends_push_bytes; auto; height.
Qed.

Lemma ends_CALLDATALOAD ctx h : 1 <= h <= STACK_LIMIT -> ends (S := S) false ctx h h false op_CALLDATALOAD.
Proof.
  intros Hh. unfold op_CALLDATALOAD. do 2 step.
  eapply (ends_bind _ _ _ _ _ _ _ _ (fun d => bytes d /\ len d <= 32)).
  { unfold get_data. eapply spec_bind; [apply spec_context|]. intros c [-> Hc].
    apply spec_slift. pose proof (get_slice_ok false (data ctx) a 32 eq_refl (co_data _ Hc)) as Hs.
    destruct (get_slice (data ctx) a 32) as [d| | |] eqn:Hg; simpl in *; try done.
    split; [apply Hs|]. revert Hg. unfold get_slice. simpl. rewrite as_usize_law by done.
    destruct (_ <? _); [|done]. rewrite as_usize_law by (unfold uint; lia). simpl.
    unfold vec_zeros, vec_resize, isize_max. simpl. destruct (_ <=? a).
    - intros [= <-]. unfold len. simpl. lia.
    - destruct (uadd 64 a 32); simpl; try done. destruct (slice _ _ _) as [r| | |]; simpl; try done.
      intros [= <-]. unfold len. rewrite length_app, length_take, length_replicate. lia. }
  intros d [? ?]. apply ends_push_bytes; auto; height.
Qed.

Lemma spec_get_data ctx h o n : spec (S := S) false ctx h h (get_data o n) buffer_ok.
Proof.
  unfold get_data. eapply spec_bind; [apply spec_context|]. intros c [-> Hc].
  apply spec_slift. apply get_slice_ok; [done|]. by apply co_data.
Qed.
Lemma spec_get_code ctx h o n : spec (S := S) false ctx h h (get_code o n) buffer_ok.
Proof.
  unfold get_code. eapply spec_bind; [apply spec_context|]. intros c [-> Hc].
  apply spec_slift. apply get_slice_ok; [done|]. by apply co_code.
Qed.

Lemma ends_CALLDATACOPY ctx h : 3 <= h <= STACK_LIMIT ->
  ends (S := S) false ctx h (h - 3) false op_CALLDATACOPY.
Proof.
  intros Hh. unfold op_CALLDATACOPY. do 3 step. apply ends_copy_cost; [done..|].
  eapply ends_bind; [apply spec_get_data|]. intros d [Hd _].
  apply ends_copy; [done..|lia].
Qed.

Lemma ends_CODECOPY ctx h : 3 <= h <= STACK_LIMIT ->
  ends (S := S) false ctx h (h - 3) false op_CODECOPY.
Proof.
  intros Hh. unfold op_CODECOPY. do 3 step. apply ends_copy_cost; [done..|].
  eapply ends_bind; [apply spec_get_code|]. intros d [Hd _].
  apply ends_copy; [done..|lia].
Qed.

Lemma ends_EXTCODECOPY ctx h : 4 <= h <= STACK_LIMIT ->
  ends (S := S) false ctx h (h - 4) false op_EXTCODECOPY.
Proof.
  intros Hh. unfold op_EXTCODECOPY. do 5 step. apply ends_copy_cost; [done..|].
  eapply ends_bind; [apply spec_account|]. intros acc Hacc.
  eapply (ends_bind _ _ _ _ _ _ _ _ buffer_ok).
  { destruct acc as [acc|].
    - apply spec_slift. apply get_slice_ok; [done|]. apply Hacc.
    - eapply spec_bind; [by apply spec_as_usize|]. intros n _. apply spec_slift. by apply vec_zeros_ok. }
  intros d [Hd _]. apply ends_copy; [done..|lia].
Qed.

Lemma ends_RETURNDATACOPY ctx h : 3 <= h <= STACK_LIMIT ->
  ends (S := S) false ctx h (h - 3) false op_RETURNDATACOPY.
Proof.
  intros Hh. unfold op_RETURNDATACOPY. do 3 step. apply ends_copy_cost; [done..|].
  eapply ends_bind; [apply (spec_get _ _ _ _ buffer_ok); intros i Hi _; apply Hi|]. intros rd Hrd.
  destruct (_ <? _); [by apply ends_fail|].
  eapply ends_bind; [apply spec_slift; by apply get_slice_ok|]. intros d [Hd _].
  apply ends_copy; [done..|lia].
Qed.

Lemma ends_MLOAD ctx h : 1 <= h <= STACK_LIMIT -> ends (S := S) false ctx h h false op_MLOAD.
Proof.
  intros Hh. unfold op_MLOAD. do 3 step.
  eapply ends_bind; [apply (spec_get _ _ _ _ (fun m => buffer_ok (m_data m))); intros i Hi _; apply Hi|].
  intros m Hm. eapply (ends_bind _ _ _ _ _ _ _ _ U256); [apply spec_slift|intros v Hv; by steps].
  unfold memory_get_u256.
  eapply outcome_ok_bind; [by apply memory_get_ok|]. intros d [Hd _].
  rewrite from_big_endian_law by done. destruct (Z.leb_spec (len d) 32); simpl; [|done].
  by apply from_be_in_range.
Qed.

Lemma ends_MSTORE ctx h : 2 <= h <= STACK_LIMIT -> ends (S := S) false ctx h (h - 2) false op_MSTORE.
Proof.
  intros Hh. unfold op_MSTORE. do 4 step.
  eapply ends_bind; [apply spec_on_memory|intros _ _; step].
  intros m Hm. unfold memory_set_u256. apply memory_set_ok; [done| |done]. by apply h256_of_u256.
Qed.

Lemma ends_MSTORE8 ctx h : 2 <= h <= STACK_LIMIT -> ends (S := S) false ctx h (h - 2) false op_MSTORE8.
Proof.
  intros Hh. unfold op_MSTORE8. do 4 step.
  eapply ends_bind; [apply spec_on_memory|intros _ _; step].
  intros m Hm. apply memory_set_byte_ok; [done| |done]. rewrite byte_law by (done || lia).
  apply Z.mod_pos_bound. lia.
Qed.

Lemma ends_SLOAD np ctx h : 1 <= h <= STACK_LIMIT -> ends (S := S) np ctx h h false op_SLOAD.
Proof.
  intros Hh. unfold op_SLOAD. do 2 step.
  eapply ends_bind; [apply (spec_get _ _ _ _ h256_ok); intros i Hi _; apply state_ok_storage, Hi|].
  intros v Hv. destruct (h256_bytes _ Hv).
  apply ends_push_bytes; auto; height.
Qed.

Lemma ends_SSTORE np ctx h : 2 <= h <= STACK_LIMIT -> ends (S := S) np ctx h (h - 2) false op_SSTORE.
Proof.
  intros Hh. unfold op_SSTORE. step. destruct (is_static ctx) eqn:Hst; [by apply ends_fail|].
  do 3 step. eapply ends_bind; [apply spec_set_storage; [done|by apply h256_of_u256]|].
  intros _ _. step.
Qed.

Lemma ends_JUMP ctx h : 1 <= h <= STACK_LIMIT -> ends (S := S) false ctx h (h - 1) false op_JUMP.
Proof.
  intros Hh. unfold op_JUMP. apply ends_paid; [by compute|]. do 2 step.
  apply ends_jump; [lia|unfold uint in *; lia].
Qed.

Lemma ends_JUMPI ctx h : 2 <= h <= STACK_LIMIT -> ends (S := S) false ctx h (h - 2) false op_JUMPI.
Proof.
  intros Hh. unfold op_JUMPI. apply ends_paid; [by compute|]. do 2 step.
  destruct (negb _); [|step]. step. apply ends_jump; [lia|unfold uint in *; lia].
Qed.

Lemma ends_get_pc np ctx h h' b (k : Z -> M unit) :
  (forall p, 0 <= p < len (ctx_code ctx) -> buffer_ok (ctx_code ctx) ->
     ends np ctx h h' b (k p)) ->
  ends np ctx h h' b (sbind (get pc) k).
Proof.
  intros Hk i Hi Hc Hh Hpc Hres. apply (Hk (pc i)); try done.
  - pose proof (wf_pc i Hi). lia.
  - rewrite <- Hc. apply Hi.
Qed.

Lemma ends_set_pc np ctx h h' p : h = h' -> 0 <= p <= len (ctx_code ctx) ->
  ends (S := S) np ctx h h' true (smodify (set_pc p)).
Proof.
  intros <- Hp i Hi Hc Hh _ _. simpl. split_and!; auto. apply wf_set_pc; [done|by rewrite Hc].
Qed.

Lemma spec_uadd np ctx h a c : 0 <= a -> 0 <= c -> a + c < 2 ^ 64 ->
  spec (S := S) np ctx h h (slift (uadd 64 a c)) (fun r => r = a + c).
Proof. intros. apply spec_slift. by rewrite uadd_pc. Qed.

(** The bytes of a push: at most 32, cut at the end of the code, and written
    at the right end of a zeroed word. *)
Lemma push_data np ctx h p n : 0 <= p < len (ctx_code ctx) -> 1 <= n <= 32 -> buffer_ok (ctx_code ctx) ->
  spec (S := S) np ctx h h
    (slift (slice (ctx_code ctx) (p + 1) (Z.min (p + 1 + n) (len (ctx_code ctx)))))
    (fun d => bytes d /\ len d <= 32).
Proof.
  intros Hp Hn [Hb _]. apply spec_slift. unfold slice.
  rewrite (proj2 (Z.leb_le 0 _)), (proj2 (Z.leb_le (p + 1) _)), (proj2 (Z.leb_le _ (len _))) by lia.
  simpl. split; [auto using bytes_take, bytes_drop|].
  unfold len. rewrite length_take, length_drop. unfold len in *. lia.
Qed.

Lemma push_word np ctx h d : bytes d -> len d <= 32 ->
  spec (S := S) np ctx h h (slift (copy_from_slice (replicate 32 0) (32 - len d) d))
    (fun w => bytes w /\ len w <= 32).
Proof.
  intros Hb Hl. pose proof (len_nonneg d). apply spec_slift. unfold copy_from_slice.
  change (len (replicate 32 0)) with 32. rewrite !(proj2 (Z.leb_le _ _)) by lia. simpl. split.
  - apply bytes_app. split; [apply bytes_take, (bytes_zeros 32)|]. apply bytes_app.
    split; [done|]. apply bytes_drop, (bytes_zeros 32).
  - rewrite !len_app. unfold len in *. rewrite length_take, length_drop. simpl. lia.
Qed.

Lemma ends_PUSH np ctx h op : is_push op = true -> 0 <= h < STACK_LIMIT ->
  ends (S := S) np ctx h (h + 1) false (op_PUSH op).
Proof.
  intros Hop Hh. unfold op_PUSH. apply ends_paid; [by compute|].
  assert (exists n, push_bytes op = Some n /\ 1 <= n <= 32) as (n & Hn & Hr).
  { unfold push_bytes. rewrite Hop. eexists. split; [done|].
    destruct op; simpl in *; try discriminate; lia. }
  eapply (ends_bind _ _ _ _ _ _ _ _ (fun m => m = n)); [by apply spec_slift; rewrite Hn|]. intros ? ->.
  apply ends_get_pc. intros p Hp Hcode. pose proof (proj2 Hcode). unfold isize_max in *.
  eapply ends_bind; [apply spec_uadd; lia|]. intros ? ->. step.
  eapply ends_bind; [apply spec_uadd; lia|]. intros ? ->.
  eapply ends_bind; [by apply push_data|]. intros d [Hd Hl].
  eapply (ends_bind _ _ _ _ _ _ _ _ (fun k => k = 32 - len d)).
  { apply spec_slift. unfold usub. pose proof (len_nonneg d).
    by rewrite checked_arith_ok by (unfold uint; lia). }
  intros ? ->. eapply ends_bind; [by apply push_word|]. intros w [? ?].
  eapply ends_bind; [by apply spec_u256_from_bytes|]. intros v [Hv _].
  eapply ends_bind; [apply spec_push; [done|height]|]. intros _ _.
  apply ends_set_pc; lia.
Qed.

Lemma ends_DUP np ctx h op : is_dup op = true -> stack_inputs op <= h -> h < STACK_LIMIT ->
  ends (S := S) np ctx h (h + 1) false (op_DUP op).
Proof.
  intros Hop Hin Hh. unfold op_DUP. step.
  eapply ends_bind; [apply spec_dup; [|done]|intros _ _; step].
  destruct op; simpl in *; try discriminate; lia.
Qed.

Lemma ends_SWAP np ctx h op : is_swap op = true -> stack_inputs op <= h -> h <= STACK_LIMIT ->
  ends (S := S) np ctx h h false (op_SWAP op).
Proof.
  intros Hop Hin Hh. unfold op_SWAP. step.
  eapply ends_bind; [apply spec_swap|intros _ _; step].
  destruct op; simpl in *; try discriminate; lia.
Qed.

Lemma ends_LOG ctx h op : is_log op = true -> stack_inputs op <= h -> h <= STACK_LIMIT ->
  ends (S := S) false ctx h (h - stack_inputs op) false (op_LOG op).
Proof.
  intros Hop Hin Hh. unfold op_LOG. step. destruct (is_static ctx) eqn:Hst; [by apply ends_fail|].
  assert (stack_inputs op = 2 + (op_u8 op - op_u8 Op.LOG0) /\ 0 <= op_u8 op - op_u8 Op.LOG0) as [Hi Hn].
  { destruct op; simpl in *; try discriminate; lia. }
  set (n := op_u8 op - op_u8 Op.LOG0) in *. do 2 step.
  eapply ends_bind; [apply spec_pop_topics; lia|]. intros ts _.
  eapply ends_bind; [apply spec_slift; by apply log_gas_cost_ok|]. intros c Hc.
  eapply ends_bind; [by apply spec_consume|]. intros _ _. step.
  eapply ends_bind; [by apply spec_push_log|]. intros _ _. step.
Qed.

Lemma ends_RETURN ctx h : 2 <= h <= STACK_LIMIT -> ends (S := S) false ctx h (h - 2) false op_RETURN.
Proof.
  intros Hh. unfold op_RETURN. do 3 step. apply ends_result; [lia|]. intros u. simpl.
  split_and!; try done. apply H8.
Qed.

Lemma ends_REVERT ctx h : 2 <= h <= STACK_LIMIT -> ends (S := S) false ctx h (h - 2) false op_REVERT.
Proof.
  intros Hh. unfold op_REVERT. do 3 step. apply ends_result; [lia|]. intros u. simpl.
  split_and!; try done. apply H8.
Qed.

(** * The whole dispatch *)

Lemma ends_height np ctx h h1 h' b (m : M unit) :
  ends np ctx h h1 b m -> h1 = h' -> ends np ctx h h' b m.
Proof. by intros ? <-. Qed.

(** An arm that never panics satisfies either triple. *)
Lemma ends_np np ctx h h' b (m : M unit) : ends true ctx h h' b m -> ends np ctx h h' b m.
Proof.
  intros Hm i Hi Hc Hh Hpc Hres. destruct (Hm i Hi Hc Hh Hpc Hres) as [Ht Ho].
  split; [done|]. by destruct (m i) as [[] ?].
Qed.

(** The arms that push one word read from the machine. *)
Lemma nullary_arm op : match op with
  | Op.CALLVALUE | Op.CALLDATASIZE | Op.CODESIZE | Op.GASPRICE | Op.RETURNDATASIZE
  | Op.TIMESTAMP | Op.NUMBER | Op.DIFFICULTY | Op.GASLIMIT | Op.CHAINID | Op.SELFBALANCE
  | Op.BASEFEE | Op.PC | Op.MSIZE | Op.GAS | Op.PUSH0 => True
  | _ => False end ->
  exists c f, opcode_body (S := S) op = nullary c f /\ 0 <= c /\ forall i, wf i -> U256 (f i).
Proof.
  destruct op; try done; intros _; eexists _, _; (split; [reflexivity|split; [compute; discriminate|]]);
    intros i Hi; pose proof (wf_context i Hi) as Hc; pose proof (co_block _ Hc) as Hb; cbn beta.
  all: try (by apply Hc); try (by apply Hb).
  - apply buffer_len_range, Hc.
  - apply buffer_len_range, Hc.
  - apply buffer_len_range, Hi.
  - apply balance_of_range, Hi.
  - pose proof (wf_pc i Hi). pose proof (proj2 (co_code _ Hc)). unfold uint, isize_max in *. lia.
  - apply buffer_len_range, Hi.
  - destruct (wf_gas i Hi) as [Hl Hu]. unfold gas_remaining, saturating_sub, uint in *. lia.
  - unfold uint. lia.
Qed.

Lemma ends_STOP np ctx h : ends (S := S) np ctx h h false op_STOP.
Proof. apply (ends_result _ _ _ _ _ (success [])); [done|]. intros u. simpl. split_and!; try done. constructor. Qed.

Lemma ends_modular np ctx h (f : Z -> Z -> Z -> outcome EvmError Z) (g : Z -> Z -> Z -> Z) :
  3 <= h <= STACK_LIMIT ->
  (forall x y n, U256 x -> U256 y -> U256 n -> f x y n = Ok (g x y n) /\ U256 (g x y n)) ->
  ends (S := S) np ctx h (h - 2) false
    (consume GasCost.MID ;;! let! n := pop in let! y := pop in let! x := pop in
     let! r := slift (f x y n) in push r ;;! advance).
Proof.
  intros [Hge Hh] Hf. apply ends_ternary; [done|compute; discriminate|done|].
  intros x y n Hx Hy Hn. destruct (Hf x y n Hx Hy Hn) as [-> ?]. done.
Qed.

Ltac arm :=
  unfold STACK_LIMIT in *;
  lazymatch goal with
  | |- ends _ _ _ _ _ op_STOP => apply ends_STOP
  | |- ends _ _ _ _ _ op_ADDMOD => refine (ends_modular _ _ _ _ _ _ addmod_correct)
  | |- ends _ _ _ _ _ op_MULMOD => refine (ends_modular _ _ _ _ _ _ mulmod_correct)
  | |- ends _ _ _ _ _ op_EXP => apply ends_EXP
  | |- ends _ _ _ _ _ op_SIGNEXTEND => apply ends_SIGNEXTEND
  | |- ends _ _ _ _ _ op_ISZERO => apply ends_unary; [done|intros; apply of_bool_range|]
  | |- ends _ _ _ _ _ op_NOT => apply ends_unary; [done|apply not_range|]
  | |- ends _ _ _ _ _ op_KECCAK256 => apply ends_KECCAK256
  | |- ends _ _ _ _ _ op_ADDRESS => apply ends_push_address; [done|apply co_address|]
  | |- ends _ _ _ _ _ op_ORIGIN => apply ends_push_address; [done|apply co_origin|]
  | |- ends _ _ _ _ _ op_CALLER => apply ends_push_address; [done|apply co_caller|]
  | |- ends _ _ _ _ _ op_COINBASE => apply ends_push_address; [done|intros Hc; apply (co_block _ Hc)|]
  | |- ends _ _ _ _ _ op_BALANCE => apply ends_BALANCE
  | |- ends _ _ _ _ _ op_CALLDATALOAD => apply ends_CALLDATALOAD
  | |- ends _ _ _ _ _ op_CALLDATACOPY => apply ends_CALLDATACOPY
  | |- ends _ _ _ _ _ op_CODECOPY => apply ends_CODECOPY
  | |- ends _ _ _ _ _ op_EXTCODESIZE => apply ends_EXTCODESIZE
  | |- ends _ _ _ _ _ op_EXTCODECOPY => apply ends_EXTCODECOPY
  | |- ends _ _ _ _ _ op_RETURNDATACOPY => apply ends_RETURNDATACOPY
  | |- ends _ _ _ _ _ op_EXTCODEHASH => apply ends_EXTCODEHASH
  | |- ends _ _ _ _ _ op_BLOCKHASH => apply ends_BLOCKHASH
  | |- ends _ _ _ _ _ op_POP => unfold op_POP; do 2 step; apply ends_advance; reflexivity
  | |- ends _ _ _ _ _ op_MLOAD => apply ends_MLOAD
  | |- ends _ _ _ _ _ op_MSTORE => apply ends_MSTORE
  | |- ends _ _ _ _ _ op_MSTORE8 => apply ends_MSTORE8
  | |- ends _ _ _ _ _ op_SLOAD => apply ends_SLOAD
  | |- ends _ _ _ _ _ op_SSTORE => apply ends_SSTORE
  | |- ends _ _ _ _ _ op_JUMP => apply ends_JUMP
  | |- ends _ _ _ _ _ op_JUMPI => apply ends_JUMPI
  | |- ends _ _ _ _ _ op_JUMPDEST => unfold op_JUMPDEST; step; apply ends_advance; reflexivity
  | |- ends _ _ _ _ _ (op_PUSH _) => apply ends_PUSH; [reflexivity|]
  | |- ends _ _ _ _ _ (op_DUP _) => apply ends_DUP; [reflexivity|simpl; lia|]
  | |- ends _ _ _ _ _ (op_SWAP _) => apply ends_SWAP; [reflexivity|simpl; lia|]
  | |- ends _ _ _ _ _ (op_LOG _) => apply ends_LOG; [reflexivity|simpl; lia|]
  | |- ends _ _ _ _ _ op_RETURN => apply ends_RETURN
  | |- ends _ _ _ _ _ op_REVERT => apply ends_REVERT
  | |- ends _ _ _ _ _ advance => apply ends_advance; reflexivity
  end; unfold STACK_LIMIT; try lia.

Lemma opcode_body_ends op ctx h :
  stack_inputs op <= h <= STACK_LIMIT ->
  h + saturating_sub (stack_outputs op) (stack_inputs op) <= STACK_LIMIT ->
  ends (S := S) (negb (may_panic op)) ctx h (height_after op h) false (opcode_body op).
Proof.
  intros Hin Hout. destruct (binary_table op) as [[c g]|] eqn:Hbin.
  { destruct (binary_arm (S := S) op c g Hbin) as (Hc & f & -> & Hf).
    eapply ends_height; [eapply ends_binary; [done|exact Hf|]|];
      destruct op; simplify_eq/=; unfold height_after; simpl in *; lia. }
  unfold saturating_sub, STACK_LIMIT in *.
  destruct op; try discriminate Hbin; simpl in Hin, Hout; cbn [may_panic negb];
    (eapply ends_height; [|unfold height_after; simpl; reflexivity]);
    first [ lazymatch goal with |- ends _ _ _ _ _ (opcode_body ?o) =>
              destruct (nullary_arm o I) as (c & f & -> & Hc & Hf) end; eapply ends_height;
              [apply ends_nullary; [done|by intros; apply Hf|unfold STACK_LIMIT; lia]|lia]
          | cbv [opcode_body is_push is_dup is_swap is_log op_u8 Z.leb Z.compare Pos.compare
                 Pos.compare_cont andb]; eapply ends_height; [arm|simpl; lia] ].
Qed.

(** * [execute_opcode] *)

Definition underflows op i : bool := len (st_data (stack i)) <? stack_inputs op.
Definition overflows op i : bool :=
  STACK_LIMIT <? len (st_data (stack i)) + saturating_sub (stack_outputs op) (stack_inputs op).

Lemma execute_opcode_eq op i : execute_opcode op i =
  if underflows op i then (Err StackUnderflow, i)
  else if overflows op i then (Err StackOverflow, i)
  else opcode_body op i.
Proof.
  destruct i as [c st [d] m g p rd lg res]. unfold execute_opcode, on_stack, stack_require,
    stack_limit_check, sbind, sget, sfail, sret, underflows, overflows, set_stack. cbn.
  destruct (len d <? stack_inputs op); [done|]. cbn.
  by destruct (STACK_LIMIT <? _).
Qed.

Lemma advance_ok i : 0 <= pc i < len (ctx_code (context i)) -> len (ctx_code (context i)) <= isize_max ->
  advance i = (Ok tt, set_pc (pc i + 1) i).
Proof.
  intros Hp Hl. unfold advance, sbind, get, slift, smodify. unfold isize_max in Hl.
  by rewrite uadd_pc by lia.
Qed.

Lemma no_arm_body op i : implemented op = false -> wf i -> pc i < len (ctx_code (context i)) ->
  opcode_body op i = (Ok tt, set_pc (pc i + 1) i).
Proof.
  intros Hop Hi Hpc. assert (opcode_body (S := S) op = advance) as -> by (by destruct op).
  apply advance_ok; [pose proof (wf_pc i Hi); lia|apply (proj2 (co_code _ (wf_context i Hi)))].
Qed.

Lemma opcode_body_sound op i : wf i -> result i = None -> pc i < len (ctx_code (context i)) ->
  underflows op i = false -> overflows op i = false ->
  trans i (opcode_body op i).2 /\
  match (opcode_body op i).1 with
  | Ok _ =>
      len (st_data (stack (opcode_body op i).2)) = height_after op (len (st_data (stack i))) /\
      (g_limit (gas i) < 2 ^ 64 - 1 ->
       g_used (gas i) < g_used (gas (opcode_body op i).2) \/ pc i < pc (opcode_body op i).2 \/
       result (opcode_body op i).2 <> None)
  | Err e => stack_error e = false
  | Panic => may_panic op = true
  | Diverge => False
  end.
Proof.
  intros Hi Hres Hpc Hu Ho. unfold underflows, overflows in *.
  apply Z.ltb_ge in Hu, Ho. pose proof (proj2 (wf_stack i Hi)) as Hst.
  destruct (opcode_body_ends op (context i) (len (st_data (stack i))) ltac:(lia) Ho i Hi eq_refl
              eq_refl Hpc Hres) as [Ht Hr].
  split; [done|]. destruct (opcode_body op i) as [[] i']; simpl in *; try done.
  - destruct Hr as [-> Hp]. split; [done|]. intros Hl. by destruct (Hp Hl).
  - by destruct (may_panic op).
Qed.

(** * [run] *)

(** A bound on the iterations left: gas only goes up, and between two
    payments the program counter does. *)
Definition measure i : Z :=
  (g_limit (gas i) - g_used (gas i)) * (len (ctx_code (context i)) + 1)
  + (len (ctx_code (context i)) - pc i).

Lemma measure_nonneg i : wf i -> 0 <= measure i.
Proof.
  intros Hi. pose proof (wf_pc i Hi). pose proof (proj2 (wf_gas i Hi)). unfold measure. nia.
Qed.

Lemma measure_step i i' : wf i -> trans i i' ->
  g_used (gas i) < g_used (gas i') \/ pc i < pc i' -> measure i' < measure i.
Proof.
  intros Hi Ht Hp. pose proof (wf_pc i Hi). pose proof (wf_pc i' (t_wf _ _ Ht)).
  pose proof (t_used _ _ Ht). unfold measure. rewrite (t_context _ _ Ht), (t_limit _ _ Ht) in *.
  nia.
Qed.

(** What [run] may return. *)
Definition final_ok i (r : ExecutionResult) : Prop :=
  0 <= gas_used r <= g_limit (gas i) /\ res_logs r = [] /\ bytes (return_data r).

Lemma take_result_ok i : wf i ->
  trans i (take_result i).2 /\ exists r, (take_result i).1 = Ok r /\ final_ok i r.
Proof.
  intros Hi. pose proof (wf_gas i Hi) as [_ Hg]. pose proof (wf_result i Hi) as Hr.
  split; [by apply wf_set_result|]. simpl. eexists. split; [done|].
  destruct (result i) as [r|]; simpl in *.
  - destruct Hr as (? & ? & _ & ?). split_and!; auto; lia.
  - split_and!; simpl; auto; try lia. constructor.
Qed.

Lemma handle_error_ok i e : wf i -> final_ok i (handle_error i e).
Proof.
  intros Hi. pose proof (wf_gas i Hi) as [_ Hg].
  destruct e; simpl; (split_and!; simpl; [lia|lia|done|constructor]).
Qed.

Lemma final_ok_trans i i' r : trans i i' -> final_ok i' r -> final_ok i r.
Proof. intros Ht. unfold final_ok. by rewrite (t_limit _ _ Ht). Qed.

Lemma run_ok fuel : forall i, wf i -> result i = None ->
  trans i (run fuel i).2 /\
  match (run fuel i).1 with
  | Ok r => final_ok i r
  | Err _ => False
  | Panic => True
  | Diverge => g_limit (gas i) < 2 ^ 64 - 1 -> Z.of_nat fuel <= measure i
  end.
Proof.
  induction fuel as [|fuel IH]; intros i Hi Hres.
  { simpl. pose proof (measure_nonneg i Hi). auto using trans_refl. }
  cbn [run]. destruct (Z.ltb_spec (pc i) (len (ctx_code (context i)))) as [Hpc|Hpc].
  2:{ destruct (take_result_ok i Hi) as (? & r & -> & ?). auto. }
  pose proof (wf_pc i Hi) as Hp. pose proof (wf_gas i Hi) as [_ Hg].
  destruct (index_ok (ctx_code (context i)) (pc i)) as (b & -> & _); [lia|].
  destruct (from_u8 b) as [op|].
  2:{ simpl. split; [by apply trans_refl|]. split_and!; simpl; [lia|lia|done|constructor]. }
  rewrite execute_opcode_eq. destruct (underflows op i) eqn:Hu.
  { simpl. split; [by apply trans_refl|by apply (handle_error_ok i StackUnderflow)]. }
  destruct (overflows op i) eqn:Ho.
  { simpl. split; [by apply trans_refl|by apply (handle_error_ok i StackOverflow)]. }
  destruct (opcode_body_sound op i Hi Hres Hpc Hu Ho) as [Ht Hr].
  destruct (opcode_body op i) as [[u|e| |] i']; cbn [fst snd] in *; try done.
  2:{ split; [done|]. eapply final_ok_trans; [done|]. apply handle_error_ok, Ht. }
  destruct Hr as [_ Hprog]. destruct (result i') as [res|] eqn:Hres'.
  { destruct (take_result_ok i' (t_wf _ _ Ht)) as (Ht' & r & -> & ?).
    split; [by eapply trans_trans|]. by eapply final_ok_trans. }
  destruct (IH i' (t_wf _ _ Ht) Hres') as [Ht' Hf].
  split; [by eapply trans_trans|]. rewrite (t_limit _ _ Ht) in Hf.
  destruct (run fuel i') as [[] ?]; simpl in *; try done; [by eapply final_ok_trans|].
  intros Hl. assert (measure i' < measure i); [|specialize (Hf Hl); lia].
  apply measure_step; [done..|]. destruct (Hprog Hl) as [?|[?|?]]; auto; done.
Qed.

Lemma wf_new ctx st : context_ok ctx -> state_ok st -> wf (interpreter_new ctx st).
Proof.
  intros Hc Hs. split; simpl; try done.
  - split; [constructor|by compute].
  - pose proof (co_gas_limit _ Hc). split; [done|]. simpl. unfold uint in *. lia.
  - unfold len. lia.
  - split; [constructor|by compute].
Qed.

End sound.
