(* ===== verification/EvmProps.v ===== *)
(** What the interpreter guarantees, and where it departs from the EVM. *)
From stdpp Require Import base list numbers option gmap.
From Stdlib Require Import ZArith Lia.
From S2P Require Import Prelude U256 EvmMachine EvmOpcodes EvmArith EvmInterp EvmSafety EvmAlu EvmSound.

(** * A context for the examples: [create_test_context] of the tests *)

Definition test_block : BlockContext :=
  mkBlockContext (replicate 20 0) 1 1000 1000000 10000000 (Some 1000) 1 [].
Definition test_context (code : list Z) (gas : Z) : ExecutionContext :=
  context_new (replicate 19 0 ++ [1]) (replicate 19 0 ++ [2]) 0 code [] gas test_block.

Lemma address_ok_dec a : forallb (fun b => (0 <=? b) && (b <? 256)) a = true -> length a = 20%nat ->
  address_ok a.
Proof.
  intros Ha Hl. split; [done|]. apply Forall_forall. intros b Hb.
  rewrite forallb_forall in Ha. apply list_elem_of_In in Hb. specialize (Ha b Hb). unfold byte. lia.
Qed.

Lemma bytes_dec l : forallb (fun b => (0 <=? b) && (b <? 256)) l = true -> bytes l.
Proof.
  intros Ha. apply Forall_forall. intros b Hb.
  rewrite forallb_forall in Ha. apply list_elem_of_In in Hb. specialize (Ha b Hb). unfold byte. lia.
Qed.

Lemma test_context_ok code gas :
  forallb (fun b => (0 <=? b) && (b <? 256)) code = true -> len code <= 1000 -> uint 64 gas ->
  context_ok (test_context code gas).
Proof.
  intros Hc Hl Hg. split; simpl; try (by apply address_ok_dec); try (unfold uint; lia).
  - split; [by apply bytes_dec|]. unfold isize_max. lia.
  - split; [constructor|]. unfold isize_max. by compute.
  - done.
  - unfold block_ok. split_and!; simpl; try (unfold uint; lia); [by apply address_ok_dec|constructor].
Qed.

(** The tests of crates/evm/src/tests.rs: code, and the word returned. *)
Definition returns (code : list Z) (v : Z) : bool :=
  match fst (evm_execute (H1 := dev_profile) 100 (test_context code 1000000) evm_new) with
  | Ok r => (len (return_data r) =? 32) && (from_be (return_data r) =? v)
  | _ => false
  end.
Example test_simple_addition :
  returns [0x60; 0x02; 0x60; 0x03; 0x01; 0x60; 0x00; 0x52; 0x60; 0x20; 0x60; 0x00; 0xf3] 5 = true.
Proof. vm_compute. reflexivity. Qed.
Example test_storage_operations :
  returns [0x60; 0x42; 0x60; 0x01; 0x55; 0x60; 0x01; 0x54; 0x60; 0x00; 0x52; 0x60; 0x20; 0x60; 0x00;
           0xf3] 0x42 = true.
Proof. vm_compute. reflexivity. Qed.
Example test_jumps :
  returns [0x60; 0x08; 0x56; 0x60; 0x00; 0x60; 0x00; 0xfd; 0x5b; 0x60; 0x01; 0x60; 0x00; 0x52; 0x60;
           0x20; 0x60; 0x00; 0xf3] 1 = true.
Proof. vm_compute. reflexivity. Qed.
Example test_conditional_jump :
  returns [0x60; 0x01; 0x60; 0x0a; 0x57; 0x60; 0x00; 0x60; 0x00; 0xfd; 0x5b; 0x60; 0x42; 0x60; 0x00;
           0x52; 0x60; 0x20; 0x60; 0x00; 0xf3] 0x42 = true.
Proof. vm_compute. reflexivity. Qed.
Example test_stack_operations :
  returns [0x60; 0x01; 0x60; 0x02; 0x81; 0x01; 0x60; 0x00; 0x52; 0x60; 0x20; 0x60; 0x00; 0xf3] 3 = true.
Proof. vm_compute. reflexivity. Qed.

(** * Safety *)

Section safety_props.
Context {S : Type} `{StateInv S} `{U256Laws} `{KeccakLaws} `{Profile}.
Implicit Types (i : Interp S) (ctx : ExecutionContext).


(** C2: running any well-formed code terminates.  Below the gas limit
    [u64::MAX], [(gas_limit + 1) * (code length + 1)] iterations of the loop of
    [run] always suffice: the interpreter has then returned a result, unless an
    arm panicked; it never returns an error.  The result reports at most the gas
    limit as used. *)
Theorem run_terminates ctx (st : S) fuel :
  context_ok ctx -> state_ok st -> gas_limit ctx < 2 ^ 64 - 1 ->
  (gas_limit ctx + 1) * (len (ctx_code ctx) + 1) <= Z.of_nat fuel ->
  match (run fuel (interpreter_new ctx st)).1 with
  | Ok r => 0 <= gas_used r <= gas_limit ctx
  | Panic => True
  | Err _ | Diverge => False
  end.
Proof.
  intros Hc Hs Hl Hf. pose proof (run_ok fuel _ (wf_new ctx st Hc Hs) eq_refl) as [_ Hr].
  destruct (run fuel (interpreter_new ctx st)) as [[] ?]; simpl in *; try done; [apply Hr|].
  specialize (Hr Hl). unfold measure in Hr. simpl in Hr. pose proof (len_nonneg (ctx_code ctx)). nia.
Qed.

(** C8: a static execution changes nothing: whatever the code, the fuel and
    the outcome, the state database is the one it started from and no log was
    recorded. *)
Theorem static_execution_preserves_state ctx (st : S) fuel :
  context_ok ctx -> state_ok st ->
  let '(_, i) := run fuel (interpreter_new (with_static ctx) st) in
  state i = st /\ logs i = [] /\ wf i.
Proof.
  intros Hc Hs. assert (Hc' : context_ok (with_static ctx)) by (destruct Hc; by split).
  pose proof (run_ok fuel _ (wf_new _ st Hc' Hs) eq_refl) as [Ht _].
  destruct (run fuel (interpreter_new (with_static ctx) st)) as [r i]. simpl in *.
  destruct (t_static _ _ Ht eq_refl) as [-> ->]. split_and!; [done..|apply Ht].
Qed.

(** the logs of an execution never reach its caller: [ExecutionResult] has
    a [logs] field, but no result [run] produces has a log in it, whatever
    [LOG0] to [LOG4] recorded in the interpreter. *)
Theorem run_result_has_no_logs ctx (st : S) fuel r :
  context_ok ctx -> state_ok st -> (run fuel (interpreter_new ctx st)).1 = Ok r ->
  res_logs r = [].
Proof.
  intros Hc Hs Hr. pose proof (run_ok fuel _ (wf_new ctx st Hc Hs) eq_refl) as [_ Hf].
  rewrite Hr in Hf. apply Hf.
Qed.
End safety_props.

Local Existing Instance dev_profile.

(** An interpreter with a given stack, ready to execute [code]. *)
Definition test_interp (code : list Z) (gas : Z) (words : list Z) : Interp (gmap Address Account) :=
  set_stack (mkStack words) (interpreter_new (test_context code gas) ∅).

Lemma test_interp_wf code gas words :
  forallb (fun b => (0 <=? b) && (b <? 256)) code = true -> len code <= 1000 -> uint 64 gas ->
  forallb (fun v => (0 <=? v) && (v <? 2 ^ 256)) words = true -> len words <= STACK_LIMIT ->
  wf (test_interp code gas words).
Proof.
  intros Hc Hl Hg Hw Hn. apply wf_set_stack.
  - apply wf_new; [by apply test_context_ok|]. apply map_Forall_empty.
  - split; simpl; [|done]. apply Forall_forall. intros v Hv. rewrite forallb_forall in Hw.
    apply list_elem_of_In in Hv. specialize (Hw v Hv). unfold uint. lia.
Qed.


(** A loop: [JUMPDEST PUSH0 JUMP]. *)
Definition loop_code : list Z := [0x5b; 0x5f; 0x56].

Lemma run_terminates_witness :
  match (run 44 (interpreter_new (test_context loop_code 10) (∅ : gmap Address Account))).1 with
  | Ok r => 0 <= gas_used r <= 10
  | Panic => True
  | Err _ | Diverge => False
  end.
Proof.
  apply (run_terminates (test_context loop_code 10) (∅ : gmap Address Account) 44).
  - apply test_context_ok; [reflexivity|by compute|unfold uint; lia].
  - apply map_Forall_empty.
  - by compute.
  - by compute.
Defined.

Lemma static_execution_preserves_state_witness :
  let ctx := test_context [0x60; 0x42; 0x60; 0x01; 0x55] 1000000 in
  let '(_, i) := run 10 (interpreter_new (with_static ctx) (∅ : gmap Address Account)) in
  state i = ∅ /\ logs i = [] /\ wf i.
Proof.
  apply (static_execution_preserves_state (test_context [0x60; 0x42; 0x60; 0x01; 0x55] 1000000)
           (∅ : gmap Address Account) 10).
  - apply test_context_ok; [reflexivity|by compute|unfold uint; lia].
  - apply map_Forall_empty.
Defined.

Lemma run_result_has_no_logs_witness :
  let out := run 10 (interpreter_new (test_context [0x5f; 0x5f; 0xa0; 0x00] 1000000)
                       (∅ : gmap Address Account)) in
  (forall r, out.1 = Ok r -> res_logs r = []) /\ length (logs out.2) = 1%nat /\
  exists r, out.1 = Ok r /\ status r = Success.
Proof.
  split; [|split; [by vm_compute|eexists; by vm_compute]].
  intros r Hr. apply (run_result_has_no_logs (test_context [0x5f; 0x5f; 0xa0; 0x00] 1000000)
           (∅ : gmap Address Account) 10 r).
  - apply test_context_ok; [reflexivity|by compute|unfold uint; lia].
  - apply map_Forall_empty.
  - exact Hr.
Defined.

(** * What the opcodes compute *)

Section semantics.
Context {S : Type} `{StateInv S} `{U256Laws} `{KeccakLaws} `{Profile}.
Implicit Types (i : Interp S) (ctx : ExecutionContext).

Lemma consume_ok c i : gas_ok (gas i) -> 0 <= c -> g_used (gas i) + c <= g_limit (gas i) ->
  consume c i = (Ok tt, set_gas (mkGas (g_limit (gas i)) (g_used (gas i) + c)) i).
Proof.
  intros [Hl Hu] Hc Hle. unfold uint in Hl.
  unfold consume, on_gas, gas_consume, sbind, sget, sfail, sput, saturating_add.
  rewrite Z.min_l, (proj2 (Z.ltb_ge _ _)) by lia. done.
Qed.

Lemma consume_out_of_gas c i : wf i -> g_limit (gas i) < g_used (gas i) + c ->
  g_limit (gas i) < 2 ^ 64 - 1 -> consume c i = (Err OutOfGas, i).
Proof.
  intros Hi Hgt Hl. unfold consume, on_gas, gas_consume, sbind, sget, sfail, sput, saturating_add.
  rewrite (proj2 (Z.ltb_lt _ _)) by lia. by destruct i.
Qed.

Lemma push_ok v i : len (st_data (stack i)) < STACK_LIMIT ->
  push v i = (Ok tt, set_stack (mkStack (st_data (stack i) ++ [v])) i).
Proof.
  intros Hl. unfold push, on_stack, stack_push, sbind, sget, sput.
  by rewrite (proj2 (Z.leb_gt _ _)) by lia.
Qed.

(** The state after an opcode that pays [c], leaves [words] on the stack and
    moves to the next opcode. *)
Definition next (c : Z) (words : list Z) i : Interp S :=
  set_pc (pc i + 1) (set_stack (mkStack words)
    (set_gas (mkGas (g_limit (gas i)) (g_used (gas i) + c)) i)).

Lemma binary_ok c f g i k a b : wf i -> pc i < len (ctx_code (context i)) ->
  st_data (stack i) = k ++ [a; b] -> 0 <= c -> computes f g ->
  g_used (gas i) + c <= g_limit (gas i) ->
  binary c f i = (Ok tt, next c (k ++ [g a b]) i).
Proof.
  intros Hi Hpc Hst Hc Hf Hle. unfold binary.
  pose proof (wf_pc i Hi). pose proof (proj2 (co_code _ (wf_context i Hi))).
  pose proof (wf_stack i Hi) as [Hw Hlen]. rewrite Hst in Hw, Hlen.
  rewrite Forall_app, !Forall_cons in Hw. destruct Hw as (_ & Ha & Hb & _).
  erewrite sbind_ok by (apply consume_ok; [apply wf_gas|..]; done).
  erewrite sbind_ok by (apply (pop_eq (k ++ [a])); simpl; rewrite Hst, <- app_assoc; done).
  erewrite sbind_ok by (apply (pop_eq k); done).
  destruct (Hf a b Ha Hb) as [Hfab _].
  erewrite sbind_ok by (unfold slift; rewrite Hfab; done).
  erewrite sbind_ok by (apply push_ok; simpl; rewrite len_app in Hlen; unfold STACK_LIMIT, len in *;
                        simpl in *; lia).
  rewrite advance_ok by (simpl; lia). done.
Qed.

Lemma binary_table_shape op c g : binary_table op = Some (c, g) ->
  stack_inputs op = 2 /\ stack_outputs op = 1 /\ may_panic op = false.
Proof. by destruct op. Qed.

(** C6: what the nineteen two-operand opcodes compute.  With [b] on top of the
    stack and [a] below it, the opcode pops both, pushes the word
    [binary_table] gives for [a] and [b], charges the listed price and moves to
    the next byte, and changes nothing else; when the gas left does not cover
    the price it reports [OutOfGas] and changes nothing.  The table fixes the
    operand order of the code: [SUB] pushes [a - b], [DIV] [a / b], [LT]
    [a < b], that is the operand below the top comes first, which is the
    reverse of the order of the EVM. *)
Theorem binary_opcode_semantics op c g i k a b :
  wf i -> pc i < len (ctx_code (context i)) ->
  binary_table op = Some (c, g) -> st_data (stack i) = k ++ [a; b] ->
  (g_used (gas i) + c <= g_limit (gas i) ->
     execute_opcode op i = (Ok tt, next c (k ++ [g a b]) i)) /\
  (g_limit (gas i) < g_used (gas i) + c -> g_limit (gas i) < 2 ^ 64 - 1 ->
     execute_opcode op i = (Err OutOfGas, i)).
Proof.
  intros Hi Hpc Hop Hst. destruct (binary_table_shape op c g Hop) as (Hin & Hout & _).
  destruct (binary_arm (S := S) op c g Hop) as (Hc & f & Hbody & Hf).
  rewrite execute_opcode_eq, Hbody. unfold underflows, overflows. rewrite Hin, Hout, Hst.
  pose proof (wf_stack i Hi) as [_ Hlen]. rewrite Hst in Hlen.
  rewrite (proj2 (Z.ltb_ge _ 2)) by (rewrite len_app; unfold len; simpl; lia).
  rewrite (proj2 (Z.ltb_ge STACK_LIMIT _)) by (unfold saturating_sub; lia). split.
  - intros Hle. eapply binary_ok; eauto. lia.
  - intros Hgt Hl. unfold binary, sbind at 1. by rewrite consume_out_of_gas.
Qed.
End semantics.

Lemma binary_opcode_semantics_witness :
  let i := test_interp [0x03] 100 [10; 3] in
  (g_used (gas i) + 3 <= g_limit (gas i) ->
     execute_opcode Op.SUB i = (Ok tt, next 3 ([] ++ [(10 - 3) mod 2 ^ 256]) i)) /\
  (g_limit (gas i) < g_used (gas i) + 3 -> g_limit (gas i) < 2 ^ 64 - 1 ->
     execute_opcode Op.SUB i = (Err OutOfGas, i)).
Proof.
  apply (binary_opcode_semantics Op.SUB 3 (fun a b => (a - b) mod 2 ^ 256)
           (test_interp [0x03] 100 [10; 3]) [] 10 3).
  - apply test_interp_wf; [reflexivity|by compute|unfold uint; lia|reflexivity|by compute].
  - by compute.
  - reflexivity.
  - reflexivity.
Defined.
