(* ===== verification/EvmProps2.v ===== *)
(** Memory, storage, control flow and the stack opcodes of the interpreter:
    what each does, on every branch. *)
From stdpp Require Import base list numbers option gmap.
From Stdlib Require Import ZArith Lia.
From S2P Require Import Prelude U256 EvmMachine EvmOpcodes EvmArith EvmInterp EvmSafety EvmAlu EvmMemory EvmSound EvmProps.

Section semantics.
Context {S : Type} `{StateInv S} `{U256Laws} `{KeccakLaws} `{Profile}.
Implicit Types (i : Interp S) (ctx : ExecutionContext).

(** The interpreter has an opcode to execute, enough words and enough gas. *)
Definition ready (op : Opcode) (c : Z) i : Prop :=
  wf i /\ pc i < len (ctx_code (context i)) /\ underflows op i = false /\ overflows op i = false /\
  0 <= c /\ g_used (gas i) + c <= g_limit (gas i).

Lemma ready_body op c i : ready op c i -> execute_opcode op i = opcode_body op i.
Proof. intros (_ & _ & Hu & Ho & _). by rewrite execute_opcode_eq, Hu, Ho. Qed.

Lemma ready_advance op c i (j : Interp S) : ready op c i -> context j = context i -> pc j = pc i ->
  advance j = (Ok tt, set_pc (pc i + 1) j).
Proof.
  intros (Hi & Hpc & _) Hc Hp. rewrite <- Hp. apply advance_ok; rewrite Hc, ?Hp.
  - pose proof (wf_pc i Hi). lia.
  - apply (proj2 (co_code _ (wf_context i Hi))).
Qed.

Lemma word_in_stack i k v l : wf i -> st_data (stack i) = k ++ v :: l -> U256 v.
Proof.
  intros Hi Hst. pose proof (wf_stack i Hi) as [Hw _]. rewrite Hst in Hw.
  rewrite Forall_app, Forall_cons in Hw. tauto.
Qed.

(** Paying and popping: the first moves of most arms. *)
Lemma paid op c i (k : unit -> SM (Interp S) EvmError unit) : ready op c i ->
  sbind (consume c) k i = k tt (set_gas (mkGas (g_limit (gas i)) (g_used (gas i) + c)) i).
Proof. intros (Hi & _ & _ & _ & Hc & Hle). erewrite sbind_ok; [done|]. apply consume_ok; [apply wf_gas|..]; done. Qed.

Lemma popped {A} i w x (k : Z -> SM (Interp S) EvmError A) : st_data (stack i) = w ++ [x] ->
  sbind pop k i = k x (set_stack (mkStack w) i).
Proof. intros Hst. erewrite sbind_ok; [done|]. by apply pop_eq. Qed.

Lemma as_usize_some {A} v i (k : Z -> SM (Interp S) EvmError A) : 0 <= v < 2 ^ 64 ->
  sbind (as_usize v) k i = k v i.
Proof.
  intros Hv. unfold as_usize, or_panic, slift, sbind.
  rewrite as_usize_law, (proj2 (Z.ltb_lt _ _)) by (unfold uint; lia). done.
Qed.

Lemma as_usize_none {A} v i (k : Z -> SM (Interp S) EvmError A) : U256 v -> 2 ^ 64 <= v ->
  sbind (as_usize v) k i = (Panic, i).
Proof.
  intros Hv Hge. unfold as_usize, or_panic, slift, sbind.
  by rewrite as_usize_law, (proj2 (Z.ltb_ge _ _)).
Qed.

Lemma from_bytes_ok {A} l i (k : Z -> SM (Interp S) EvmError A) : bytes l -> len l <= 32 ->
  sbind (u256_from_bytes l) k i = k (from_be l) i.
Proof.
  intros Hb Hl. unfold u256_from_bytes, or_panic, slift, sbind.
  by rewrite from_big_endian_law, (proj2 (Z.leb_le _ _)).
Qed.

(** ** Storage *)

Lemma sstore_ok i w v key : ready Op.SSTORE 20000 i -> is_static (context i) = false ->
  st_data (stack i) = w ++ [v; key] ->
  execute_opcode Op.SSTORE i =
    (Ok tt, set_state (set_storage (address (context i)) (to_be 32 key) (to_be 32 v) (state i))
              (next 20000 w i)).
Proof.
  intros Hr Hns Hst. rewrite (ready_body _ _ _ Hr). destruct Hr as (Hi & Hrest).
  assert (Hk : U256 key) by (apply (word_in_stack i (w ++ [v]) key []); [done|by rewrite Hst, <- app_assoc]).
  assert (Hv : U256 v) by (by apply (word_in_stack i w v [key])).
  cbn [opcode_body]. unfold op_SSTORE. erewrite sbind_ok by done. rewrite Hns.
  rewrite (popped _ (w ++ [v]) key) by (by rewrite Hst, <- app_assoc).
  rewrite (popped _ w v) by done. erewrite sbind_ok.
  2:{ apply consume_ok; simpl; [by apply wf_gas|by compute|apply Hrest]. }
  rewrite !to_big_endian_law by done. erewrite sbind_ok by done.
  by rewrite (ready_advance Op.SSTORE 20000 i) by (by split).
Qed.

Lemma sload_ok i w key : ready Op.SLOAD 2100 i -> st_data (stack i) = w ++ [key] ->
  execute_opcode Op.SLOAD i =
    (Ok tt, next 2100 (w ++ [from_be (get_storage (state i) (address (context i)) (to_be 32 key))]) i).
Proof.
  intros Hr Hst. rewrite (ready_body _ _ _ Hr). pose proof Hr as (Hi & Hrest).
  assert (Hk : U256 key) by (by apply (word_in_stack i w key [])).
  cbn [opcode_body]. unfold op_SLOAD. rewrite (popped _ w key) by done.
  erewrite sbind_ok.
  2:{ apply consume_ok; simpl; [by apply wf_gas|by compute|apply Hrest]. }
  erewrite sbind_ok by done. cbn [state context set_gas set_stack].
  rewrite to_big_endian_law by done.
  destruct (state_ok_storage (state i) (address (context i)) (to_be 32 key) (wf_state i Hi)) as [Hl Hb].
  rewrite from_bytes_ok by (unfold len; rewrite ?Hl; done).
  erewrite sbind_ok.
  2:{ apply push_ok. pose proof (wf_stack i Hi) as [_ Hs]. rewrite Hst, len_snoc in Hs. simpl. lia. }
  by rewrite (ready_advance Op.SLOAD 2100 i).
Qed.

(** storage reads see storage writes.  [SSTORE] with a key on top of the
    stack and a value below it succeeds, takes both off the stack and writes
    the slot of the executing contract; after it, an [SLOAD] of any key, from
    any later machine whose state is the one [SSTORE] left, pushes the value
    written if the key is the same and what was stored before if it is another.
    In a static context [SSTORE] reports [StaticCallStateModification] and
    changes nothing. *)
Theorem storage_roundtrip `{!StateDBLaws S} i w v key :
  ready Op.SSTORE 20000 i -> st_data (stack i) = w ++ [v; key] ->
  (is_static (context i) = true ->
     execute_opcode Op.SSTORE i = (Err StaticCallStateModification, i)) /\
  (is_static (context i) = false ->
     exists i', execute_opcode Op.SSTORE i = (Ok tt, i') /\ st_data (stack i') = w /\
       forall j w' key', state j = state i' -> context j = context i' -> ready Op.SLOAD 2100 j ->
         st_data (stack j) = w' ++ [key'] ->
         execute_opcode Op.SLOAD j =
           (Ok tt, next 2100 (w' ++ [if key' =? key then v
              else from_be (get_storage (state i) (address (context i)) (to_be 32 key'))]) j)).
Proof.
  intros Hr Hst. pose proof Hr as (Hi & _). split.
  { intros Hs. rewrite (ready_body _ _ _ Hr). cbn [opcode_body]. unfold op_SSTORE.
    erewrite sbind_ok by done. by rewrite Hs. }
  intros Hs. eexists. split; [by apply sstore_ok|]. split; [done|].
  intros j w' key' Hsj Hcj Hrj Hstj. rewrite (sload_ok j w' key') by done.
  rewrite Hsj, Hcj. cbn [state context set_state next set_pc set_stack set_gas].
  assert (Hv : U256 v) by (by apply (word_in_stack i w v [key])).
  assert (Hk : U256 key) by (apply (word_in_stack i (w ++ [v]) key []); [done|by rewrite Hst, <- app_assoc]).
  assert (Hk' : U256 key') by (apply (word_in_stack j w' key' []); [apply Hrj|done]).
  destruct (Z.eqb_spec key' key) as [->|Hne].
  - rewrite get_set_storage_same, from_be_to_be. by rewrite Z.mod_small by exact Hv.
  - rewrite get_set_storage_other; [done|]. intros [_ Heq]%pair_equal_spec. apply Hne.
    apply (f_equal from_be) in Heq. rewrite !from_be_to_be in Heq.
    change (256 ^ Z.of_nat 32) with (2 ^ 256) in Heq. unfold uint in *.
    rewrite !Z.mod_small in Heq by lia. done.
Qed.

(** ** Memory words *)

(** memory reads see memory writes.  [MSTORE] with an offset on top of the
    stack and a word below it panics when the offset needs more than 64 bits;
    when the word ends at or below [isize::MAX] it succeeds, for 3 gas however
    far it grows the memory, and an [MLOAD] of the same offset from a machine
    with the memory it left pushes the word. *)
Theorem mstore_mload_roundtrip i w v o :
  ready Op.MSTORE 3 i -> st_data (stack i) = w ++ [v; o] ->
  (2 ^ 64 <= o -> (execute_opcode Op.MSTORE i).1 = Panic) /\
  (o + 32 <= isize_max ->
     exists i', execute_opcode Op.MSTORE i = (Ok tt, i') /\ st_data (stack i') = w /\
       g_used (gas i') = g_used (gas i) + 3 /\ o + 32 <= memory_len (memory i') /\
       forall j w', memory j = memory i' -> ready Op.MLOAD 3 j -> st_data (stack j) = w' ++ [o] ->
         execute_opcode Op.MLOAD j = (Ok tt, next 3 (w' ++ [v]) j)).
Proof.
  intros Hr Hst. pose proof Hr as (Hi & _).
  assert (Hv : U256 v) by (by apply (word_in_stack i w v [o])).
  assert (Ho : U256 o) by (apply (word_in_stack i (w ++ [v]) o []); [done|by rewrite Hst, <- app_assoc]).
  rewrite (ready_body _ _ _ Hr). cbn [opcode_body]. unfold op_MSTORE.
  change GasCost.VERYLOW with 3. rewrite (paid _ _ _ _ Hr).
  rewrite (popped _ (w ++ [v]) o) by (simpl; by rewrite Hst, <- app_assoc).
  rewrite (popped _ w v) by done. split.
  { intros Hge. by rewrite as_usize_none. }
  intros Hle. unfold uint in Ho. rewrite as_usize_some by (unfold isize_max in Hle; lia).
  destruct (memory_word_roundtrip (memory i) o v) as (m' & Hs & Hl & Hg);
    [apply (wf_memory i Hi)|lia|done|done|].
  erewrite sbind_ok by (unfold on_memory; simpl; rewrite Hs; done).
  rewrite (ready_advance Op.MSTORE 3 i) by done.
  eexists. do 3 (split; [done|]). split.
  { simpl. unfold memory_len, memory_set_u256 in *. rewrite to_big_endian_law in Hs by done.
    rewrite (memory_set_len o (to_be 32 v) (memory i) m' ltac:(done) ltac:(lia) Hs).
    unfold len at 2. rewrite length_to_be. lia. }
  intros j w' Hm Hrj Hstj.
  rewrite (ready_body _ _ _ Hrj). cbn [opcode_body]. unfold op_MLOAD.
  change GasCost.VERYLOW with 3. rewrite (paid _ _ _ _ Hrj). rewrite (popped _ w' o) by done.
  rewrite as_usize_some by (unfold isize_max in Hle; lia). erewrite sbind_ok by done.
  erewrite sbind_ok by (unfold slift; simpl; rewrite Hm; simpl; rewrite Hg; done).
  erewrite sbind_ok.
  2:{ apply push_ok. pose proof (wf_stack j (proj1 Hrj)) as [_ Hn]. rewrite Hstj, len_snoc in Hn.
      simpl. lia. }
  by rewrite (ready_advance Op.MLOAD 3 j).
Qed.

(** ** Control flow *)

Lemma jump_eq i d : 0 <= d ->
  jump d i = if bool_decide (ctx_code (context i) !! Z.to_nat d = Some 0x5b)
             then (Ok tt, set_pc d i) else (Err (InvalidJump d), i).
Proof.
  intros Hd. unfold jump, sbind, get, sfail, slift, smodify, index.
  destruct (Z.leb_spec (len (ctx_code (context i))) d) as [Hle|Hgt].
  - rewrite bool_decide_false; [done|]. rewrite lookup_ge_None_2 by (unfold len in Hle; lia). done.
  - destruct (lookup_lt_is_Some_2 (ctx_code (context i)) (Z.to_nat d)) as [b ->];
      [unfold len in Hgt; lia|].
    rewrite (proj2 (Z.leb_le _ _)) by done. cbn [op_u8]. destruct (Z.eqb_spec b 91) as [->|Hne]; cbn [negb].
    + by rewrite bool_decide_true.
    + rewrite bool_decide_false; [done|]. by intros [= ->].
Qed.

(** where jumps go.  [JUMP] (price 8) and a taken [JUMPI] (price 10) move
    the program counter to the destination exactly when the code has the byte
    of [JUMPDEST] there, and report [InvalidJump] otherwise; a [JUMPI] whose
    condition is zero goes to the next byte; a destination of more than 64 bits
    panics. *)
Theorem jump_semantics i w dest :
  st_data (stack i) = w ++ [dest] -> ready Op.JUMP 8 i ->
  let land g := if bool_decide (ctx_code (context i) !! Z.to_nat dest = Some 0x5b)
                then (Ok tt, set_pc dest (set_stack (mkStack w) g))
                else (Err (InvalidJump dest), set_stack (mkStack w) g) in
  let paid c := set_gas (mkGas (g_limit (gas i)) (g_used (gas i) + c)) i in
  (dest < 2 ^ 64 -> execute_opcode Op.JUMP i = land (paid 8)) /\
  (2 ^ 64 <= dest -> (execute_opcode Op.JUMP i).1 = Panic) /\
  (forall cond j, ready Op.JUMPI 10 j -> j = set_stack (mkStack (w ++ [cond; dest])) i ->
     if cond =? 0 then execute_opcode Op.JUMPI j = (Ok tt, next 10 w j)
     else if dest <? 2 ^ 64 then execute_opcode Op.JUMPI j = land (paid 10)
     else (execute_opcode Op.JUMPI j).1 = Panic).
Proof.
  intros Hst Hr land paid_. pose proof (word_in_stack i w dest [] (proj1 Hr) Hst) as Hd.
  assert (0 <= dest) by (unfold uint in Hd; lia). split_and!.
  - intros Hlt. rewrite (ready_body _ _ _ Hr). cbn [opcode_body]. unfold op_JUMP.
    change GasCost.MID with 8. rewrite (paid _ _ _ _ Hr), (popped _ w dest), as_usize_some by done.
    by rewrite jump_eq.
  - intros Hge. rewrite (ready_body _ _ _ Hr). cbn [opcode_body]. unfold op_JUMP.
    change GasCost.MID with 8. rewrite (paid _ _ _ _ Hr), (popped _ w dest) by done.
    by rewrite as_usize_none.
  - intros cond j Hrj ->. rewrite (ready_body _ _ _ Hrj). cbn [opcode_body]. unfold op_JUMPI.
    change GasCost.HIGH with 10. rewrite (paid _ _ _ _ Hrj).
    rewrite (popped _ (w ++ [cond]) dest) by (simpl; by rewrite <- app_assoc).
    rewrite (popped _ w cond) by done.
    destruct (Z.eqb_spec cond 0); cbn [negb].
    + by rewrite (ready_advance Op.JUMPI 10 _ _ Hrj).
    + destruct (Z.ltb_spec dest (2 ^ 64)).
      * by rewrite as_usize_some, jump_eq.
      * by rewrite as_usize_none.
Qed.

(** ** Stack opcodes *)

Lemma push_arm op n : push_bytes op = Some n -> opcode_body (S := S) op = op_PUSH op /\ 1 <= n <= 32.
Proof. destruct op; intros Hop; try discriminate Hop; injection Hop as <-; split; (done || lia). Qed.

(** [PUSH1] to [PUSH32] push the big-endian value of the bytes that follow
    the opcode and continue behind them.  Where the code ends before the last
    of them, only the bytes there are are read, and they form the low end of
    the word (the EVM reads zero bytes there, so its word is larger by a power
    of 256); execution then continues at the end of the code. *)
Theorem push_semantics op n i :
  push_bytes op = Some n -> ready op 3 i ->
  let d := take (Z.to_nat n) (drop (Z.to_nat (pc i + 1)) (ctx_code (context i))) in
  execute_opcode op i =
    (Ok tt, set_pc (Z.min (pc i + 1 + n) (len (ctx_code (context i))))
              (set_stack (mkStack (st_data (stack i) ++ [from_be d]))
                 (set_gas (mkGas (g_limit (gas i)) (g_used (gas i) + 3)) i))).
Proof.
  intros Hn Hr d. rewrite (ready_body _ _ _ Hr). destruct (push_arm op n Hn) as [-> Hn1].
  pose proof Hr as (Hi & Hpc & _ & Ho & _). pose proof (wf_pc i Hi) as Hp.
  destruct (co_code _ (wf_context i Hi)) as [Hcb Hcl]. unfold isize_max in Hcl.
  unfold op_PUSH. change GasCost.VERYLOW with 3. rewrite (paid _ _ _ _ Hr).
  erewrite sbind_ok by (unfold or_panic, slift; rewrite Hn; done).
  erewrite sbind_ok by done. cbn [pc set_gas].
  erewrite sbind_ok by (unfold slift; rewrite uadd_pc by lia; done).
  erewrite sbind_ok by done. cbn [context set_gas].
  erewrite sbind_ok by (unfold slift; rewrite uadd_pc by lia; done).
  assert (Hd : slice (E := EvmError) (ctx_code (context i)) (pc i + 1)
             (Z.min (pc i + 1 + n) (len (ctx_code (context i)))) = Ok d /\ bytes d /\ len d <= 32).
  { unfold slice. rewrite (proj2 (Z.leb_le 0 _)), (proj2 (Z.leb_le (pc i + 1) _)),
      (proj2 (Z.leb_le _ (len _))) by lia. simpl. unfold d. split_and!.
    - f_equal. destruct (Z.min_spec (pc i + 1 + n) (len (ctx_code (context i)))) as [[? ->]|[? ->]].
      + f_equal. lia.
      + rewrite !take_ge; [done| |]; rewrite length_drop; unfold len in *; lia.
    - auto using bytes_take, bytes_drop.
    - unfold len. rewrite length_take. lia. }
  destruct Hd as (Hs & Hdb & Hdl). pose proof (len_nonneg d).
  erewrite sbind_ok by (unfold slift; rewrite Hs; done).
  erewrite sbind_ok by (unfold slift, usub; rewrite checked_arith_ok by (unfold uint; lia); done).
  assert (Hw : copy_from_slice (E := EvmError) (replicate 32 0) (32 - len d) d
               = Ok (replicate (Z.to_nat (32 - len d)) 0 ++ d)).
  { unfold copy_from_slice. change (len (replicate 32 0)) with 32.
    rewrite !(proj2 (Z.leb_le _ _)) by lia. cbn [andb]. rewrite take_replicate, drop_replicate. f_equal.
    replace (Nat.min _ _) with (Z.to_nat (32 - len d)) by lia.
    replace (32 - _)%nat with 0%nat by lia. simpl. by rewrite app_nil_r. }
  erewrite sbind_ok by (unfold slift; rewrite Hw; done).
  rewrite from_bytes_ok, from_be_drop_zeros;
    [|by apply bytes_app; auto using bytes_zeros
     |rewrite len_app; unfold len in *; rewrite length_replicate; lia].
  assert (len (st_data (stack i)) < STACK_LIMIT).
  { unfold overflows, saturating_sub in Ho. apply Z.ltb_ge in Ho.
    destruct op; try discriminate Hn; simpl in Ho; lia. }
  by erewrite sbind_ok by (by apply push_ok).
Qed.

Lemma stack_index (w : list Z) x l : index (E := EvmError) (w ++ x :: l) (len (w ++ x :: l) - 1 - len l) = Ok x.
Proof.
  rewrite len_app, len_cons. replace (len w + (1 + len l) - 1 - len l) with (len w) by lia.
  apply index_mid.
Qed.

Lemma stack_dup_ok (w : list Z) x l : len (w ++ x :: l) < STACK_LIMIT ->
  stack_dup (len l) (mkStack (w ++ x :: l)) = (Ok tt, mkStack (w ++ x :: l ++ [x])).
Proof.
  intros Hlt. unfold stack_dup, sbind, sget, slift, sput. cbn [st_data].
  rewrite (proj2 (Z.leb_gt _ (len l))) by (rewrite len_app, len_cons; pose proof (len_nonneg w); lia).
  rewrite (proj2 (Z.leb_gt STACK_LIMIT _)) by done. rewrite stack_index. by rewrite <- app_assoc.
Qed.

Lemma stack_swap_ok (w : list Z) x l y :
  stack_swap (len l + 1) (mkStack (w ++ x :: l ++ [y])) = (Ok tt, mkStack (w ++ y :: l ++ [x])).
Proof.
  unfold stack_swap, vec_swap, sbind, sget, slift, sput. cbn [st_data].
  set (s := w ++ x :: l ++ [y]).
  assert (Hs : len s = len w + len l + 2) by (unfold s; rewrite len_app, len_cons, len_snoc; lia).
  pose proof (len_nonneg w). pose proof (len_nonneg l). rewrite (proj2 (Z.leb_gt _ _)) by lia.
  assert (Hy : index (E := EvmError) s (len s - 1) = Ok y).
  { replace s with ((w ++ x :: l) ++ y :: []) by (unfold s; by rewrite <- app_assoc).
    rewrite len_snoc. replace (len (w ++ x :: l) + 1 - 1) with (len (w ++ x :: l)) by lia.
    apply index_mid. }
  assert (Hx : index (E := EvmError) s (len s - 1 - (len l + 1)) = Ok x).
  { replace (len s - 1 - (len l + 1)) with (len w) by lia. apply index_mid. }
  rewrite Hy. cbn [obind]. rewrite Hx. cbn [obind].
  replace (len s - 1 - (len l + 1)) with (len w) by lia.
  replace (len s - 1) with (len w + len l + 1) by lia. do 2 f_equal. unfold s.
  rewrite !insert_app_r_alt by (unfold len; lia). f_equal.
  replace (Z.to_nat (len w + len l + 1) - length w)%nat with (Datatypes.S (length l)) by (unfold len; lia).
  replace (Z.to_nat (len w) - length w)%nat with 0%nat by (unfold len; lia). simpl. f_equal.
  rewrite insert_app_r_alt, Nat.sub_diag by lia. done.
Qed.

(** [DUPn] copies the [n]-th word from the top onto the stack, and [SWAPn]
    exchanges the top with the word [n] below it; both cost 3 and touch nothing
    else. *)
Theorem dup_swap_semantics op n i :
  ready op 3 i -> 1 <= n <= 16 ->
  (op_u8 op = op_u8 Op.DUP1 + n - 1 -> forall w x l, st_data (stack i) = w ++ x :: l -> len l = n - 1 ->
     execute_opcode op i = (Ok tt, next 3 (w ++ x :: l ++ [x]) i)) /\
  (op_u8 op = op_u8 Op.SWAP1 + n - 1 -> forall w x l y, st_data (stack i) = w ++ x :: l ++ [y] ->
     len l = n - 1 -> execute_opcode op i = (Ok tt, next 3 (w ++ y :: l ++ [x]) i)).
Proof.
  intros Hr Hn. rewrite (ready_body _ _ _ Hr). split; intros Hop w x l.
  - intros Hst Hl.
    assert (opcode_body (S := S) op = op_DUP op) as -> by (destruct op; try reflexivity; simpl in Hop; lia).
    assert (Hlt : len (w ++ x :: l) < STACK_LIMIT).
    { destruct Hr as (_ & _ & _ & Ho & _). unfold overflows, saturating_sub in Ho.
      apply Z.ltb_ge in Ho. rewrite Hst in Ho. destruct op; simpl in Hop, Ho; lia. }
    unfold op_DUP. change GasCost.VERYLOW with 3. rewrite (paid _ _ _ _ Hr).
    replace (op_u8 op - op_u8 Op.DUP1) with (len l) by lia.
    destruct i as [c st [d] m g p rd lg res]. simpl in Hst. subst d.
    erewrite sbind_ok by (unfold on_stack; simpl; rewrite stack_dup_ok by done; done).
    by rewrite (ready_advance op 3 _ _ Hr).
  - intros y Hst Hl.
    assert (opcode_body (S := S) op = op_SWAP op) as -> by (destruct op; try reflexivity; simpl in Hop; lia).
    unfold op_SWAP. change GasCost.VERYLOW with 3. rewrite (paid _ _ _ _ Hr).
    replace (op_u8 op - op_u8 Op.SWAP1 + 1) with (len l + 1) by lia.
    destruct i as [c st [d] m g p rd lg res]. simpl in Hst. subst d.
    erewrite sbind_ok by (unfold on_stack; simpl; rewrite stack_swap_ok; done).
    by rewrite (ready_advance op 3 _ _ Hr).
Qed.

(** the opcodes with no arm of their own ([CALL], [CREATE], [MCOPY],
    [TLOAD], [SELFDESTRUCT], ..., and [INVALID]) are free no-ops: once the stack
    checks pass, executing one only moves to the next byte.  The words it should
    consume stay on the stack, nothing is pushed, no gas is charged. *)
Theorem unimplemented_opcodes_are_noops op i :
  implemented op = false -> wf i -> pc i < len (ctx_code (context i)) ->
  underflows op i = false -> overflows op i = false ->
  execute_opcode op i = (Ok tt, set_pc (pc i + 1) i).
Proof.
  intros Hop Hi Hpc Hu Ho. rewrite execute_opcode_eq, Hu, Ho. by apply no_arm_body.
Qed.
End semantics.

(** * Concrete machines *)

Local Existing Instance dev_profile.

Ltac ready_now :=
  split; [apply test_interp_wf; [reflexivity|by compute|unfold uint; lia|reflexivity|by compute]
         |split_and!; [by compute|reflexivity|reflexivity|lia|by compute]].

Lemma storage_roundtrip_witness :
  let i := test_interp [0x55; 0x54] 50000 [9; 7; 1] in
  (is_static (context i) = true ->
     execute_opcode Op.SSTORE i = (Err StaticCallStateModification, i)) /\
  (is_static (context i) = false ->
     exists i', execute_opcode Op.SSTORE i = (Ok tt, i') /\ st_data (stack i') = [9] /\
       forall j w' key', state j = state i' -> context j = context i' -> ready Op.SLOAD 2100 j ->
         st_data (stack j) = w' ++ [key'] ->
         execute_opcode Op.SLOAD j =
           (Ok tt, next 2100 (w' ++ [if key' =? 1 then 7
              else from_be (get_storage (state i) (address (context i)) (to_be 32 key'))]) j)).
Proof.
  apply (storage_roundtrip (test_interp [0x55; 0x54] 50000 [9; 7; 1]) [9] 7 1).
  - ready_now.
  - reflexivity.
Defined.

Lemma mstore_mload_roundtrip_witness :
  let i := test_interp [0x52; 0x51] 50000 [9; 7; 1] in
  (2 ^ 64 <= 1 -> (execute_opcode Op.MSTORE i).1 = Panic) /\
  (1 + 32 <= isize_max ->
     exists i', execute_opcode Op.MSTORE i = (Ok tt, i') /\ st_data (stack i') = [9] /\
       g_used (gas i') = g_used (gas i) + 3 /\ 1 + 32 <= memory_len (memory i') /\
       forall j w', memory j = memory i' -> ready Op.MLOAD 3 j -> st_data (stack j) = w' ++ [1] ->
         execute_opcode Op.MLOAD j = (Ok tt, next 3 (w' ++ [7]) j)).
Proof.
  apply (mstore_mload_roundtrip (test_interp [0x52; 0x51] 50000 [9; 7; 1]) [9] 7 1).
  - ready_now.
  - reflexivity.
Defined.

(** The jump goes into the data of a [PUSH1], which the code accepts. *)
Lemma jump_semantics_witness :
  execute_opcode Op.JUMP (test_interp [0x56; 0x60; 0x5b] 100 [2])
  = (Ok tt, set_pc 2 (set_gas (mkGas 100 8) (test_interp [0x56; 0x60; 0x5b] 100 []))).
Proof.
  destruct (jump_semantics (test_interp [0x56; 0x60; 0x5b] 100 [2]) [] 2) as [Hj _].
  - reflexivity.
  - ready_now.
  - rewrite Hj by lia. reflexivity.
Defined.

(** A push cut off by the end of the code. *)
Lemma push_semantics_witness :
  execute_opcode Op.PUSH2 (test_interp [0x61; 0x05] 100 [])
  = (Ok tt, set_pc 2 (set_gas (mkGas 100 3) (test_interp [0x61; 0x05] 100 [5]))).
Proof.
  rewrite (push_semantics Op.PUSH2 2 (test_interp [0x61; 0x05] 100 [])).
  - reflexivity.
  - reflexivity.
  - ready_now.
Defined.

Lemma dup_swap_semantics_witness :
  execute_opcode Op.DUP2 (test_interp [0x81] 100 [1; 2; 3])
    = (Ok tt, next 3 [1; 2; 3; 2] (test_interp [0x81] 100 [1; 2; 3])) /\
  execute_opcode Op.SWAP2 (test_interp [0x91] 100 [1; 2; 3])
    = (Ok tt, next 3 [3; 2; 1] (test_interp [0x91] 100 [1; 2; 3])).
Proof.
  split.
  - destruct (dup_swap_semantics Op.DUP2 2 (test_interp [0x81] 100 [1; 2; 3])) as [Hd _];
      [ready_now|lia|].
    by apply (Hd eq_refl [1] 2 [3]).
  - destruct (dup_swap_semantics Op.SWAP2 2 (test_interp [0x91] 100 [1; 2; 3])) as [_ Hs];
      [ready_now|lia|].
    by apply (Hs eq_refl [] 1 [2] 3).
Defined.

Lemma unimplemented_opcodes_are_noops_witness :
  let i := test_interp [0xf1; 0x00] 100 [1; 2; 3; 4; 5; 6; 7] in
  execute_opcode Op.CALL i = (Ok tt, set_pc 1 i).
Proof.
  apply (unimplemented_opcodes_are_noops Op.CALL (test_interp [0xf1; 0x00] 100 [1; 2; 3; 4; 5; 6; 7])).
  - reflexivity.
  - apply test_interp_wf; [reflexivity|by compute|unfold uint; lia|reflexivity|by compute].
  - by compute.
  - reflexivity.
  - reflexivity.
Defined.

(** a reverted execution keeps its writes.  The code stores 0x42 in slot 1
    and executes [REVERT]; the result says [Revert], and the state of the [Evm]
    afterwards still holds 0x42 in the slot. *)
Theorem revert_keeps_storage :
  let '(r, e) := evm_execute 10
      (test_context [0x60; 0x42; 0x60; 0x01; 0x55; 0x5f; 0x5f; 0xfd] 1000000) evm_new in
  match r with Ok res => status res = Revert | _ => False end /\
  get_storage (evm_state e) (replicate 19 0 ++ [2]) (to_be 32 1) = to_be 32 0x42.
Proof. vm_compute. done. Qed.

(** * The gas limit [u64::MAX] *)

Section unmetered.
Context {S : Type} `{StateDB S} `{U256Laws} `{KeccakOps} `{Profile}.
Implicit Types (i : Interp S).

(** The states of the loop [JUMPDEST PUSH0 JUMP] when the limit is [u64::MAX]. *)
Definition looping i : Prop :=
  ctx_code (context i) = loop_code /\ result i = None /\
  g_limit (gas i) = 2 ^ 64 - 1 /\ 0 <= g_used (gas i) <= 2 ^ 64 - 1 /\
  ((pc i = 0 /\ st_data (stack i) = []) \/ (pc i = 1 /\ st_data (stack i) = []) \/
   (pc i = 2 /\ st_data (stack i) = [0])).

(** At this limit the saturated sum never exceeds it. *)
Lemma consume_max c i : g_limit (gas i) = 2 ^ 64 - 1 ->
  consume c i = (Ok tt, set_gas (mkGas (2 ^ 64 - 1) (saturating_add 64 (g_used (gas i)) c)) i).
Proof.
  intros Hl. unfold consume, on_gas, gas_consume, sbind, sget, sput. rewrite Hl.
  rewrite (proj2 (Z.ltb_ge _ _)) by (unfold saturating_add; lia). done.
Qed.

Lemma looping_step i : looping i ->
  exists op i', index (E := EvmError) (ctx_code (context i)) (pc i) = Ok (op_u8 op) /\
    from_u8 (op_u8 op) = Some op /\ pc i < 3 /\ execute_opcode op i = (Ok tt, i') /\ looping i'.
Proof.
  intros (Hc & Hr & Hl & Hu & Hpc).
  assert (Hsat : forall c, 0 <= c -> 0 <= saturating_add 64 (g_used (gas i)) c <= 2 ^ 64 - 1)
    by (unfold saturating_add; lia).
  destruct Hpc as [[Hp Hs]|[[Hp Hs]|[Hp Hs]]];
    [exists Op.JUMPDEST|exists Op.PUSH0|exists Op.JUMP];
    eexists; rewrite Hc, Hp; (do 3 (split; [done|])); rewrite execute_opcode_eq;
    unfold underflows, overflows; rewrite Hs.
  - split; [change (opcode_body Op.JUMPDEST) with (op_JUMPDEST (S := S)); unfold op_JUMPDEST|].
    { cbn -[op_JUMPDEST advance consume]. erewrite sbind_ok by (by apply consume_max).
      apply advance_ok; rewrite ?Hc; simpl; rewrite ?Hc, ?Hp; by compute. }
    split_and!; simpl; auto; [apply Hsat; by compute..|]. rewrite Hp. auto.
  - split; [change (opcode_body Op.PUSH0) with (op_PUSH0 (S := S)); unfold op_PUSH0, nullary|].
    { cbn -[op_PUSH0 advance consume push get]. erewrite sbind_ok by (by apply consume_max).
      erewrite sbind_ok by done. erewrite sbind_ok by (apply push_ok; simpl; rewrite Hs; by compute).
      apply advance_ok; simpl; rewrite ?Hc, ?Hp; by compute. }
    split_and!; simpl; auto; [apply Hsat; by compute..|]. rewrite Hp, Hs. auto.
  - split; [change (opcode_body Op.JUMP) with (op_JUMP (S := S)); unfold op_JUMP|].
    { cbn -[op_JUMP jump consume pop as_usize]. erewrite sbind_ok by (by apply consume_max).
      rewrite (popped _ [] 0), as_usize_some, jump_eq by done. simpl. rewrite Hc. done. }
    split_and!; simpl; auto; apply Hsat; by compute.
Qed.

(** with the gas limit [u64::MAX] gas does not bound execution.
    [Gas::consume] adds with saturation and compares with the limit, so at this
    limit no payment ever fails, and the three-byte loop [JUMPDEST PUSH0 JUMP]
    runs forever: no number of iterations is enough. *)
Theorem unmetered_loop_diverges (ctx : ExecutionContext) (st : S) fuel :
  ctx_code ctx = loop_code -> gas_limit ctx = 2 ^ 64 - 1 ->
  (run fuel (interpreter_new ctx st)).1 = Diverge.
Proof.
  intros Hc Hg. assert (Hi : looping (interpreter_new ctx st)).
  { split_and!; simpl; auto; rewrite ?Hg; lia. }
  revert Hi. generalize (interpreter_new ctx st). clear Hc Hg.
  induction fuel as [|fuel IH]; intros i Hi; [done|]. cbn [run].
  destruct (looping_step i Hi) as (op & i' & Hix & Hop & Hlt & He & Hi').
  destruct Hi as (Hc & _). rewrite (proj2 (Z.ltb_lt _ _)) by (rewrite Hc; exact Hlt).
  rewrite Hix, Hop, He. rewrite (proj1 (proj2 Hi')). by apply IH.
Qed.
End unmetered.

Lemma unmetered_loop_diverges_witness :
  (run 1000 (interpreter_new (test_context loop_code (2 ^ 64 - 1)) (∅ : gmap Address Account))).1
  = Diverge.
Proof. apply unmetered_loop_diverges; reflexivity. Defined.
