(* ===== verification/Precompiled.v ===== *)
(** The precompiled contracts: crates/evm/src/precompiled.rs, and
    [secp256k1_recover] of crates/crypto/src/lib.rs. *)
From stdpp Require Import base list numbers option.
From Stdlib Require Import ZArith Lia Zpow_facts.
From S2P Require Import Prelude U256 EvmMachine.

(** ** The crates sha2, ripemd, secp256k1 and num-bigint *)

(** [secp_recover hash id sig] is [recover_ecdsa] on the 64-byte compact
    signature, with the 65-byte uncompressed key it returns; [None] is any of
    its errors. A [BigUint] is the integer it denotes. *)
Class CryptoOps := {
  sha256 : list Z -> list Z;
  ripemd160 : list Z -> list Z;
  secp_recover : list Z -> Z -> list Z -> option (list Z);
  big_from_bytes_be : list Z -> Z;
  big_modpow : Z -> Z -> Z -> Z;
  big_to_bytes_be : Z -> list Z;
}.

Class CryptoLaws `{CryptoOps} : Prop := {
  sha256_length l : length (sha256 l) = 32%nat;
  ripemd160_length l : length (ripemd160 l) = 20%nat;
  from_bytes_be_law l : bytes l -> big_from_bytes_be l = from_be l;
  modpow_law b e m : 0 <= b -> 0 <= e -> 0 < m -> big_modpow b e m = b ^ e mod m;
  (** no leading zero byte, and zero is one zero byte *)
  to_bytes_be_value x : 0 <= x -> bytes (big_to_bytes_be x) /\ from_be (big_to_bytes_be x) = x;
  to_bytes_be_bound x n : 0 <= x < 256 ^ n -> 0 < n -> 1 <= len (big_to_bytes_be x) <= n;
}.

Section contracts.
Context `{U256Ops} `{KeccakOps} `{CryptoOps} `{Profile}.

Notation Res A := (outcome EvmError A).

(** The trait [PrecompiledContract]. *)
Record PrecompiledContract := mkPrecompiled {
  execute : list Z -> Z -> Res (list Z * Z);
  required_gas : list Z -> Res Z;
}.

Definition secp256k1_recover (hash : list Z) (recovery_id : Z) (r s : list Z) : option (list Z) :=
  drop 1 <$> secp_recover hash recovery_id (r ++ s).

(** The check every contract starts with. *)
Definition charge {A} (cost : Res Z) (gas_limit : Z) (k : Z -> Res A) : Res A :=
  let? gas_cost := cost in
  if gas_limit <? gas_cost then Err OutOfGas else k gas_cost.

(** [U256::from(base) + U256::from(per) * U256::from((input.len() + 31) / 32)] *)
Definition linear_gas (base per : Z) (input : list Z) : Res Z :=
  let? n := uadd 64 (len input) 31 in
  let? m := unwrap (u_mul per (n / 32)) in
  unwrap (u_add base m).

Definition ecrecover_gas (input : list Z) : Res Z := Ok 3000.
Definition ecrecover_execute (input : list Z) (gas_limit : Z) : Res (list Z * Z) :=
  charge (ecrecover_gas input) gas_limit (fun gas_cost =>
    if len input <? 128 then Ok (replicate 32 0, gas_cost)
    else
      let? hash := slice input 0 32 in
      let? vb := slice input 32 64 in
      let? v := unwrap (u_from_big_endian vb) in
      let? rb := slice input 64 96 in
      let? r := unwrap (u_from_big_endian rb) in
      let? sb := slice input 96 128 in
      let? s := unwrap (u_from_big_endian sb) in
      let recovery_id :=
        if (v =? 27) || (v =? 0) then Some 0
        else if (v =? 28) || (v =? 1) then Some 1
        else None in
      match recovery_id with
      | None => Ok (replicate 32 0, gas_cost)
      | Some recovery_id =>
          match secp256k1_recover hash recovery_id (u_to_big_endian r) (u_to_big_endian s) with
          | Some pubkey =>
              let? h := slice (keccak256 pubkey) 12 32 in
              Ok (replicate 12 0 ++ h, gas_cost)
          | None => Ok (replicate 32 0, gas_cost)
          end
      end).
Definition EcRecover : PrecompiledContract := mkPrecompiled ecrecover_execute ecrecover_gas.

Definition sha256_gas : list Z -> Res Z := linear_gas 60 12.
Definition sha256_execute (input : list Z) (gas_limit : Z) : Res (list Z * Z) :=
  charge (sha256_gas input) gas_limit (fun gas_cost => Ok (sha256 input, gas_cost)).
Definition Sha256Hash : PrecompiledContract := mkPrecompiled sha256_execute sha256_gas.

Definition ripemd160_gas : list Z -> Res Z := linear_gas 600 120.
Definition ripemd160_execute (input : list Z) (gas_limit : Z) : Res (list Z * Z) :=
  charge (ripemd160_gas input) gas_limit (fun gas_cost =>
    Ok (replicate 12 0 ++ ripemd160 input, gas_cost)).
Definition Ripemd160Hash : PrecompiledContract := mkPrecompiled ripemd160_execute ripemd160_gas.

Definition identity_gas : list Z -> Res Z := linear_gas 15 3.
Definition identity_execute (input : list Z) (gas_limit : Z) : Res (list Z * Z) :=
  charge (identity_gas input) gas_limit (fun gas_cost => Ok (input, gas_cost)).
Definition Identity : PrecompiledContract := mkPrecompiled identity_execute identity_gas.

(** ** ModExp *)

(** A length of the header: the 32 bytes at [i], or 0 if the input ends before. *)
Definition header_len (input : list Z) (i : Z) : Res Z :=
  if i + 32 <=? len input then
    let? b := slice input i (i + 32) in
    let? v := unwrap (u_from_big_endian b) in
    unwrap (u_as_usize v)
  else Ok 0.

Definition calculate_gas_cost (base_len exp_len mod_len : Z) : Res Z :=
  let max_len := Z.max base_len mod_len in
  let? n := uadd 64 max_len 31 in
  let words := n / 32 in
  let? exp_cost := if exp_len =? 0 then Ok 1 else unwrap (u_mul exp_len 8) in
  let? w2 := umul 64 words words in
  let? p := unwrap (u_mul w2 exp_cost) in
  unwrap (u_div p 3).

(** The number in [input[start..start + n]], cut at the end of the input. *)
Definition operand (input : list Z) (start n : Z) : Res Z :=
  if (start <? len input) && (0 <? n) then
    let? e := uadd 64 start n in
    let? b := slice input start (Z.min e (len input)) in
    Ok (big_from_bytes_be b)
  else Ok 0.

Definition modexp_gas (input : list Z) : Res Z :=
  let? base_len := header_len input 0 in
  let? exp_len := header_len input 32 in
  let? mod_len := header_len input 64 in
  calculate_gas_cost base_len exp_len mod_len.

Definition modexp_execute (input : list Z) (gas_limit : Z) : Res (list Z * Z) :=
  let? base_len := header_len input 0 in
  let? exp_len := header_len input 32 in
  let? mod_len := header_len input 64 in
  charge (calculate_gas_cost base_len exp_len mod_len) gas_limit (fun gas_cost =>
    let? base := operand input 96 base_len in
    let? exp_start := uadd 64 96 base_len in
    let? exp := operand input exp_start exp_len in
    let? mod_start := uadd 64 exp_start exp_len in
    let? modulus := operand input mod_start mod_len in
    let result := if modulus =? 0 then 0 else big_modpow base exp modulus in
    let result_bytes := big_to_bytes_be result in
    let? result_bytes :=
      if len result_bytes <? mod_len then
        let? padded := vec_zeros (mod_len - len result_bytes) in
        Ok (padded ++ result_bytes)
      else Ok result_bytes in
    Ok (result_bytes, gas_cost)).
Definition ModExp : PrecompiledContract := mkPrecompiled modexp_execute modexp_gas.

(** ** The placeholders for the BN128 and BLAKE2F contracts *)

Definition bn128_add_gas (input : list Z) : Res Z := Ok 150.
Definition bn128_add_execute (input : list Z) (gas_limit : Z) : Res (list Z * Z) :=
  charge (bn128_add_gas input) gas_limit (fun gas_cost => Ok (replicate 64 0, gas_cost)).
Definition Bn128Add : PrecompiledContract := mkPrecompiled bn128_add_execute bn128_add_gas.

Definition bn128_mul_gas (input : list Z) : Res Z := Ok 6000.
Definition bn128_mul_execute (input : list Z) (gas_limit : Z) : Res (list Z * Z) :=
  charge (bn128_mul_gas input) gas_limit (fun gas_cost => Ok (replicate 64 0, gas_cost)).
Definition Bn128Mul : PrecompiledContract := mkPrecompiled bn128_mul_execute bn128_mul_gas.

Definition bn128_pairing_gas (input : list Z) : Res Z :=
  let k := len input / 192 in
  let? m := unwrap (u_mul 34000 k) in
  unwrap (u_add 45000 m).
Definition bn128_pairing_execute (input : list Z) (gas_limit : Z) : Res (list Z * Z) :=
  charge (bn128_pairing_gas input) gas_limit (fun gas_cost => Ok (replicate 32 0, gas_cost)).
Definition Bn128Pairing : PrecompiledContract :=
  mkPrecompiled bn128_pairing_execute bn128_pairing_gas.

Definition blake2f_gas (input : list Z) : Res Z :=
  if 4 <=? len input then Ok (from_be (take 4 input)) else Ok 0.
Definition blake2f_execute (input : list Z) (gas_limit : Z) : Res (list Z * Z) :=
  charge (blake2f_gas input) gas_limit (fun gas_cost =>
    if negb (len input =? 213) then Err InvalidInput else Ok (replicate 64 0, gas_cost)).
Definition Blake2f : PrecompiledContract := mkPrecompiled blake2f_execute blake2f_gas.

Definition get_precompiled (address : Z) : option PrecompiledContract :=
  match address with
  | 0x01 => Some EcRecover
  | 0x02 => Some Sha256Hash
  | 0x03 => Some Ripemd160Hash
  | 0x04 => Some Identity
  | 0x05 => Some ModExp
  | 0x06 => Some Bn128Add
  | 0x07 => Some Bn128Mul
  | 0x08 => Some Bn128Pairing
  | 0x09 => Some Blake2f
  | _ => None
  end.
Definition is_precompiled (address : Z) : bool := (0x01 <=? address) && (address <=? 0x09).
End contracts.

(** A stand-in for the crates with the documented shapes. *)
Definition min_bytes (x : Z) : list Z :=
  if x =? 0 then [0] else to_be (Z.to_nat (Z.log2 x / 8 + 1)) x.
#[export] Instance crypto_model : CryptoOps := {|
  sha256 l := to_be 32 (from_be l + 3);
  ripemd160 l := to_be 20 (from_be l + 5);
  secp_recover hash id sig := if id =? 0 then Some (4 :: sig) else None;
  big_from_bytes_be := from_be;
  big_modpow b e m := Zpow_mod b e m;
  big_to_bytes_be := min_bytes;
|}.

Lemma pow256 n : 0 <= n -> 256 ^ n = 2 ^ (8 * n).
Proof. intros Hn. rewrite Z.pow_mul_r by lia. done. Qed.

Lemma log2_bytes x : 0 < x -> 256 ^ (Z.log2 x / 8) <= x < 256 ^ (Z.log2 x / 8 + 1).
Proof.
  intros Hx. pose proof (Z.log2_spec x Hx) as [Hlo Hhi]. pose proof (Z.log2_nonneg x).
  assert (0 <= Z.log2 x / 8) by (apply Z.div_pos; lia).
  rewrite !pow256 by lia. split.
  - apply Z.le_trans with (2 ^ Z.log2 x); [|done]. apply Z.pow_le_mono_r; [lia|zlia].
  - apply Z.lt_le_trans with (2 ^ Z.succ (Z.log2 x)); [done|]. apply Z.pow_le_mono_r; [lia|zlia].
Qed.

#[export] Instance crypto_model_laws : CryptoLaws.
Proof.
  split; simpl; auto using length_to_be.
  - intros b e m Hb He Hm. apply Zpow_mod_correct. lia.
  - intros x Hx. unfold min_bytes. destruct (Z.eqb_spec x 0) as [->|].
    { split; [repeat constructor; unfold byte; lia|done]. }
    split; [apply bytes_to_be|]. rewrite from_be_to_be, Z2Nat.id.
    + apply Z.mod_small. pose proof (log2_bytes x). lia.
    + pose proof (Z.log2_nonneg x). assert (0 <= Z.log2 x / 8) by (apply Z.div_pos; lia). lia.
  - intros x n Hx Hn. unfold min_bytes. destruct (Z.eqb_spec x 0); [unfold len; simpl; lia|].
    unfold len. rewrite length_to_be. pose proof (log2_bytes x ltac:(lia)) as [Hlo _].
    pose proof (Z.log2_nonneg x). assert (0 <= Z.log2 x / 8) by (apply Z.div_pos; lia).
    assert (Z.log2 x / 8 < n); [|lia]. apply (Z.pow_lt_mono_r_iff 256); lia.
Qed.

(** * Properties *)

Section properties.
Context `{U256Laws} `{KeccakOps} `{CryptoLaws} `{Profile}.

Lemma charge_ok {A} (cost : outcome EvmError Z) limit (k : Z -> outcome EvmError A) r :
  charge cost limit k = Ok r -> exists g, cost = Ok g /\ g <= limit /\ k g = Ok r.
Proof.
  unfold charge. destruct cost as [g| | |]; simpl; try done.
  destruct (Z.ltb_spec limit g); [done|]. eauto.
Qed.

Lemma charge_short {A} (cost : outcome EvmError Z) limit g (k : Z -> outcome EvmError A) :
  cost = Ok g -> limit < g -> charge cost limit k = Err OutOfGas.
Proof. intros -> Hlt. unfold charge. simpl. by rewrite (proj2 (Z.ltb_lt _ _)). Qed.

(** Success reports the required gas, which is within the limit. *)
Definition gas_sound (c : PrecompiledContract) : Prop :=
  forall input limit,
    (forall out g, execute c input limit = Ok (out, g) -> required_gas c input = Ok g /\ g <= limit) /\
    (forall g, required_gas c input = Ok g -> limit < g -> execute c input limit = Err OutOfGas).

(** Contracts of the usual shape: charge, then return the charge unchanged. *)
Lemma charge_sound (gas : list Z -> outcome EvmError Z)
    (body : list Z -> Z -> outcome EvmError (list Z * Z)) :
  (forall input g out g', body input g = Ok (out, g') -> g' = g) ->
  gas_sound (mkPrecompiled (fun input limit => charge (gas input) limit (body input)) gas).
Proof.
  intros Hb input limit. simpl. split.
  - intros out g (g' & Hg & Hle & Hk)%charge_ok. by rewrite (Hb _ _ _ _ Hk).
  - intros g Hg Hlt. by apply charge_short with g.
Qed.

Lemma modexp_sound : gas_sound ModExp.
Proof.
  intros input limit. simpl. unfold modexp_execute, modexp_gas.
  destruct (header_len input 0) as [bl| | |]; simpl; try done.
  destruct (header_len input 32) as [el| | |]; simpl; try done.
  destruct (header_len input 64) as [ml| | |]; simpl; try done.
  split; [|intros; by apply charge_short with g].
  intros out g (g' & Hg & Hle & Hk)%charge_ok.
  repeat (apply obind_ok in Hk as (? & _ & Hk)). by injection Hk as _ <-.
Qed.

Lemma ecrecover_sound : gas_sound EcRecover.
Proof.
  apply charge_sound. intros input g out g'. destruct (_ <? _); [by intros [= _ <-]|].
  intros Hk. repeat (apply obind_ok in Hk as (? & _ & Hk)).
  cbv zeta in Hk. repeat case_match; simplify_eq; try done;
    apply obind_ok in Hk as (? & _ & Hk); by injection Hk as _ <-.
Qed.

Lemma blake2f_sound : gas_sound Blake2f.
Proof. apply charge_sound. intros input g out g'. by destruct (negb _); [|intros [= _ <-]]. Qed.

(** precompiled contracts charge what they announce.  The addresses 1 to 9
    and no others are precompiled; a contract that succeeds reports exactly its
    [required_gas], which the gas limit covers, and one whose [required_gas] is
    above the limit reports [OutOfGas]. *)
Theorem precompiled_gas_sound address :
  (is_precompiled address = true <-> is_Some (get_precompiled address)) /\
  (forall c, get_precompiled address = Some c -> gas_sound c).
Proof.
  unfold is_precompiled. split.
  - split.
    + intros Ha. assert (In address [1; 2; 3; 4; 5; 6; 7; 8; 9]) as Hin by (simpl; lia).
      simpl in Hin. repeat (destruct Hin as [<-|Hin]; [eexists; reflexivity|]). done.
    + intros [c Hc]. assert (In address [1; 2; 3; 4; 5; 6; 7; 8; 9]) as Hin.
      { unfold get_precompiled in Hc. repeat case_match; subst; try discriminate; simpl; tauto. }
      simpl in Hin. repeat (destruct Hin as [<-|Hin]; [reflexivity|]). done.
  - intros c Hc. unfold get_precompiled in Hc.
    repeat case_match; try discriminate; injection Hc as <-;
      try exact ecrecover_sound; try exact modexp_sound; try exact blake2f_sound;
      apply charge_sound; by intros input g out g' [= _ <-].
Qed.

(** ** ModExp on well-formed input *)

Lemma slice_at {A} (pre mid post : list A) a b : len pre = a -> a + len mid = b ->
  slice (E := EvmError) (pre ++ mid ++ post) a b = Ok mid.
Proof. intros <- <-. apply slice_mid. Qed.

Lemma header_at pre n post i : len pre = i -> 0 <= n < 2 ^ 64 ->
  header_len (pre ++ to_be 32 n ++ post) i = Ok n.
Proof.
  intros Hi Hn. unfold header_len. pose proof (len_nonneg post).
  assert (H32 : len (to_be 32 n) = 32) by (unfold len; by rewrite length_to_be).
  rewrite (proj2 (Z.leb_le _ _)) by (rewrite !len_app; lia).
  rewrite (slice_at pre (to_be 32 n) post) by lia. cbn [obind].
  rewrite from_big_endian_law, H32, from_be_to_be by apply bytes_to_be.
  change (32 <=? 32) with true. cbn [unwrap obind].
  rewrite Z.mod_small by (change (256 ^ Z.of_nat 32) with (2 ^ 256); lia).
  rewrite as_usize_law, (proj2 (Z.ltb_lt _ _)) by (unfold uint; lia). done.
Qed.

Lemma operand_at pre d post s : len pre = s -> bytes d -> len (pre ++ d ++ post) < 2 ^ 64 ->
  operand (pre ++ d ++ post) s (len d) = Ok (from_be d).
Proof.
  intros Hs Hd Hl. unfold operand. pose proof (len_nonneg d). pose proof (len_nonneg post).
  pose proof (len_nonneg pre). rewrite !len_app in *.
  destruct (Z.ltb_spec 0 (len d)).
  - rewrite (proj2 (Z.ltb_lt _ _)) by lia. simpl.
    unfold uadd. rewrite checked_arith_ok by (unfold uint; lia). cbn [obind].
    rewrite Z.min_l by lia. rewrite slice_at by lia. cbn [obind].
    by rewrite from_bytes_be_law.
  - rewrite andb_false_r. destruct d; [done|]. rewrite len_cons in *. pose proof (len_nonneg d). lia.
Qed.

(** The input of a [ModExp] call: the three lengths, then the operands. *)
Definition modexp_input (b e m : list Z) : list Z :=
  to_be 32 (len b) ++ to_be 32 (len e) ++ to_be 32 (len m) ++ b ++ e ++ m.
Definition modexp_price (bl el ml : Z) : Z :=
  let words := (Z.max bl ml + 31) / 32 in
  words * words * (if el =? 0 then 1 else 8 * el) / 3.
Definition modexp_value (b e m : list Z) : Z :=
  if from_be m =? 0 then 0 else from_be b ^ from_be e mod from_be m.

Lemma len_to_be32 n : len (to_be 32 n) = 32.
Proof. unfold len. by rewrite length_to_be. Qed.

Lemma modexp_price_ok bl el ml : 0 <= bl <= 2 ^ 36 -> 0 <= el <= 2 ^ 36 -> 0 <= ml <= 2 ^ 36 ->
  calculate_gas_cost bl el ml = Ok (modexp_price bl el ml).
Proof.
  intros Hb He Hm. unfold calculate_gas_cost, modexp_price.
  unfold uadd, umul. rewrite checked_arith_ok by (unfold uint; lia). cbn [obind].
  set (words := (Z.max bl ml + 31) / 32).
  assert (Hw : 0 <= words < 2 ^ 32) by (unfold words; zlia).
  assert (Hx : (if el =? 0 then Ok 1 else unwrap (u_mul el 8)) =
               Ok (E := EvmError) (if el =? 0 then 1 else 8 * el)).
  { destruct (el =? 0); [done|].
    rewrite mul_law, (proj2 (Z.ltb_lt _ _)) by (unfold uint; lia). cbn [unwrap]. f_equal. lia. }
  rewrite Hx. cbn [obind]. set (x := if el =? 0 then 1 else 8 * el).
  assert (0 <= x <= 2 ^ 40) by (unfold x; destruct (el =? 0); lia).
  rewrite checked_arith_ok by (unfold uint; nia). cbn [obind].
  assert (0 <= words * words < 2 ^ 64) by nia.
  assert (0 <= words * words * x < 2 ^ 256) by nia.
  rewrite mul_law, (proj2 (Z.ltb_lt _ _)) by (unfold uint; lia). cbn [unwrap obind].
  rewrite div_law by (unfold uint; lia). done.
Qed.

(** Writing a number smaller than [256 ^ n] into [n] bytes. *)
Lemma pad_result n x : 0 < n <= isize_max -> 0 <= x < 256 ^ n ->
  (if len (big_to_bytes_be x) <? n then
     let? padded := vec_zeros (E := EvmError) (n - len (big_to_bytes_be x)) in
     Ok (padded ++ big_to_bytes_be x)
   else Ok (big_to_bytes_be x)) = Ok (to_be (Z.to_nat n) x).
Proof.
  intros Hn Hx. destruct (to_bytes_be_value x ltac:(lia)) as [Hb Hv].
  pose proof (to_bytes_be_bound x n Hx ltac:(lia)) as Hl.
  assert (Hpad : forall k, k = Z.to_nat (n - len (big_to_bytes_be x)) ->
            replicate k 0 ++ big_to_bytes_be x = to_be (Z.to_nat n) x).
  { intros k ->. rewrite <- Hv at 3. set (l := big_to_bytes_be x) in *.
    rewrite <- (from_be_drop_zeros l (Z.to_nat (n - len l))).
    replace (Z.to_nat n) with (length (replicate (Z.to_nat (n - len l)) 0 ++ l)).
    - symmetry. apply to_be_from_be. apply bytes_app. auto using bytes_zeros.
    - rewrite length_app, length_replicate. unfold len in *. lia. }
  destruct (Z.ltb_spec (len (big_to_bytes_be x)) n).
  - unfold vec_zeros. rewrite (proj2 (Z.leb_le _ _)) by lia. cbn [obind]. f_equal. by apply Hpad.
  - f_equal. apply (Hpad 0%nat). lia.
Qed.

Lemma modexp_value_bound b e m : bytes m -> 0 <= modexp_value b e m < 256 ^ len m.
Proof.
  intros Hm. pose proof (from_be_bound m Hm). unfold modexp_value.
  destruct (Z.eqb_spec (from_be m) 0); [lia|].
  pose proof (Z.mod_pos_bound (from_be b ^ from_be e) (from_be m)). lia.
Qed.

Lemma zero_bytes : big_to_bytes_be 0 = [0].
Proof.
  destruct (to_bytes_be_value 0 ltac:(lia)) as [Hb Hv].
  pose proof (to_bytes_be_bound 0 1 ltac:(lia) ltac:(lia)) as Hl.
  destruct (big_to_bytes_be 0) as [|x [|y l]]; unfold len in Hl; simpl in Hl; try lia.
  change (0 * 256 + x = 0) in Hv. f_equal. lia.
Qed.

(** The operands are found where the header says. *)
Lemma modexp_operands b e m : bytes b -> bytes e -> bytes m -> len b + len e + len m <= 2 ^ 36 ->
  let input := modexp_input b e m in
  operand input 96 (len b) = Ok (from_be b) /\
  operand input (96 + len b) (len e) = Ok (from_be e) /\
  operand input (96 + len b + len e) (len m) = Ok (from_be m).
Proof.
  intros Hb He Hm Hl. pose proof (len_nonneg b). pose proof (len_nonneg e). pose proof (len_nonneg m).
  unfold modexp_input. set (h := to_be 32 (len b) ++ to_be 32 (len e) ++ to_be 32 (len m)).
  assert (Hh : len h = 96) by (unfold h; rewrite !len_app, !len_to_be32; lia).
  replace (to_be 32 (len b) ++ to_be 32 (len e) ++ to_be 32 (len m) ++ b ++ e ++ m)
    with (h ++ b ++ e ++ m) by (unfold h; by rewrite <- !app_assoc).
  split_and!.
  - apply operand_at; [done..|]. rewrite !len_app. lia.
  - replace (h ++ b ++ e ++ m) with ((h ++ b) ++ e ++ m) by (by rewrite <- !app_assoc).
    apply operand_at; [rewrite len_app; lia|done|]. rewrite !len_app. lia.
  - replace (h ++ b ++ e ++ m) with ((h ++ b ++ e) ++ m ++ []) by (by rewrite app_nil_r, <- !app_assoc).
    apply operand_at; [rewrite !len_app; lia|done|]. rewrite !len_app, len_nil. lia.
Qed.

(** [ModExp] computes modular powers.  On the encoding of a base, an
    exponent and a modulus of up to [2 ^ 36] bytes together, with enough gas,
    it returns the power modulo the modulus (zero for a zero modulus) written
    into exactly as many bytes as the modulus has, at the announced price;
    for a modulus of no bytes it returns one zero byte instead of none. *)
Theorem modexp_correct b e m limit :
  bytes b -> bytes e -> bytes m -> len b + len e + len m <= 2 ^ 36 ->
  modexp_price (len b) (len e) (len m) <= limit ->
  execute ModExp (modexp_input b e m) limit =
    Ok (match m with [] => [0] | _ => to_be (length m) (modexp_value b e m) end,
        modexp_price (len b) (len e) (len m)).
Proof.
  intros Hb He Hm Hl Hlim. simpl. unfold modexp_execute.
  pose proof (len_nonneg b). pose proof (len_nonneg e). pose proof (len_nonneg m).
  destruct (modexp_operands b e m Hb He Hm Hl) as (Ob & Oe & Om).
  assert (Hd0 : header_len (modexp_input b e m) 0 = Ok (len b)) by (apply (header_at []); [done|lia]).
  assert (Hd1 : header_len (modexp_input b e m) 32 = Ok (len e))
    by (apply (header_at (to_be 32 (len b))); [apply len_to_be32|lia]).
  assert (Hd2 : header_len (modexp_input b e m) 64 = Ok (len m)).
  { unfold modexp_input. rewrite (app_assoc (to_be 32 (len b))).
    apply header_at; [rewrite len_app, !len_to_be32; done|lia]. }
  rewrite Hd0, Hd1, Hd2. cbn [obind]. rewrite modexp_price_ok by lia. unfold charge. cbn [obind].
  rewrite (proj2 (Z.ltb_ge _ _)) by done. rewrite Ob. cbn [obind]. unfold uadd.
  rewrite checked_arith_ok by (unfold uint; lia). cbn [obind]. rewrite Oe. cbn [obind].
  rewrite checked_arith_ok by (unfold uint; lia). cbn [obind]. rewrite Om. cbn [obind].
  assert (Hv : (if from_be m =? 0 then 0 else big_modpow (from_be b) (from_be e) (from_be m))
               = modexp_value b e m).
  { unfold modexp_value. destruct (Z.eqb_spec (from_be m) 0); [done|].
    pose proof (from_be_bound b Hb). pose proof (from_be_bound e He). pose proof (from_be_bound m Hm).
    apply modpow_law; lia. }
  rewrite Hv. destruct m as [|x m].
  - change (modexp_value b e []) with 0. rewrite zero_bytes. done.
  - rewrite pad_result; [|rewrite len_cons in *; unfold isize_max; pose proof (len_nonneg m); lia
                         |by apply modexp_value_bound].
    cbn [obind]. unfold len at 1. by rewrite Nat2Z.id.
Qed.
End properties.

Local Existing Instance dev_profile.
Lemma modexp_correct_witness :
  execute ModExp (modexp_input [3] [5] [0; 7]) 100 =
    Ok (to_be 2 (modexp_value [3] [5] [0; 7]), modexp_price 1 1 2).
Proof.
  apply (modexp_correct [3] [5] [0; 7] 100);
    try (repeat constructor; unfold byte; lia); by compute.
Defined.
