(* ===== verification/Types.v ===== *)
(** The shared data types: crates/types/src/bloom.rs, uint.rs, hash.rs and the
    conversions of address.rs. *)
From stdpp Require Import base list numbers option strings.
From Stdlib Require Import ZArith Lia.
From S2P Require Import Prelude U256.

Inductive TypesError :=
| InvalidHex (s : string)
| InvalidLength (expected actual : Z)
| InvalidChecksum
| Overflow.

(** * bloom.rs *)

Module Bloom.
(** [Bloom([u8; 256])] *)
Notation Bloom := (list Z).
Definition bloom_ok (b : Bloom) : Prop := length b = 256%nat /\ bytes b.

Definition new : Bloom := replicate 256 0.
Definition from_slice (s : list Z) : outcome TypesError Bloom :=
  if negb (len s =? 256) then Err (InvalidLength 256 (len s)) else Ok s.
(** [for i in 0..256 { if (self.0[i] & other.0[i]) != other.0[i] ... }] *)
Fixpoint contains (a b : Bloom) : bool :=
  match a, b with
  | x :: a', y :: b' => if negb (Z.land x y =? y) then false else contains a' b'
  | _, _ => true
  end.
Definition set (i : Z) (b : Bloom) : Bloom :=
  if i <? 2048 then
    let byte_index := Z.to_nat (i / 8) in
    let bit_index := i mod 8 in
    match b !! byte_index with
    | Some x => <[byte_index := Z.lor x (Z.shiftl 1 bit_index)]> b
    | None => b
    end
  else b.
Definition is_set (b : Bloom) (i : Z) : bool :=
  if i <? 2048 then
    match b !! Z.to_nat (i / 8) with
    | Some x => negb (Z.land x (Z.shiftl 1 (i mod 8)) =? 0)
    | None => false
    end
  else false.
Definition is_empty (b : Bloom) : bool := forallb (fun x => x =? 0) b.
(** [self.0[i] |= rhs.0[i]] *)
Definition bitor_assign (rhs b : Bloom) : Bloom := zip_with Z.lor b rhs.
Definition bitor (a b : Bloom) : Bloom := bitor_assign b a.

(** ** The set of indices a filter holds *)

Lemma land_bit x k : 0 <= k -> negb (Z.land x (Z.shiftl 1 k) =? 0) = Z.testbit x k.
Proof.
  intros Hk. rewrite Z.shiftl_1_l.
  destruct (Z.testbit x k) eqn:Ht.
  - apply negb_true_iff, Z.eqb_neq. intros Heq.
    assert (Hb : Z.testbit (Z.land x (2 ^ k)) k = true)
      by (rewrite Z.land_spec, Ht, Z.pow2_bits_true by done; done).
    by rewrite Heq, Z.bits_0 in Hb.
  - apply negb_false_iff, Z.eqb_eq, Z.bits_inj'. intros j Hj. rewrite Z.land_spec, Z.bits_0.
    destruct (Z.eq_dec j k) as [->|Hne]; [by rewrite Ht|].
    by rewrite Z.pow2_bits_false, andb_false_r by lia.
Qed.

Lemma is_set_testbit b i x : 0 <= i < 2048 -> b !! Z.to_nat (i / 8) = Some x ->
  is_set b i = Z.testbit x (i mod 8).
Proof.
  intros Hi Hx. unfold is_set. rewrite (proj2 (Z.ltb_lt _ _)), Hx by lia.
  apply land_bit. apply Z.mod_pos_bound. lia.
Qed.

Lemma byte_of (b : Bloom) i : length b = 256%nat -> 0 <= i < 2048 ->
  exists x, b !! Z.to_nat (i / 8) = Some x.
Proof. intros Hb Hi. apply lookup_lt_is_Some_2. zlia. Qed.

Lemma set_is_set b i j : length b = 256%nat -> 0 <= i -> 0 <= j < 2048 ->
  is_set (set i b) j = (i =? j) || is_set b j.
Proof.
  intros Hb Hi Hj. unfold set. destruct (Z.ltb_spec i 2048) as [Hlt|Hge].
  2:{ by rewrite (proj2 (Z.eqb_neq i j)) by lia. }
  destruct (byte_of b i Hb) as [x Hx]; [lia|]. rewrite Hx.
  destruct (byte_of b j Hb Hj) as [y Hy].
  assert (Hk : 0 <= i mod 8 < 8) by (apply Z.mod_pos_bound; lia).
  assert (Hl : 0 <= j mod 8 < 8) by (apply Z.mod_pos_bound; lia).
  rewrite (is_set_testbit b j y Hj Hy). destruct (Z.eq_dec (i / 8) (j / 8)) as [Heq|Hne].
  - rewrite (is_set_testbit _ j (Z.lor x (Z.shiftl 1 (i mod 8)))); [|done|].
    2:{ rewrite Heq. apply list_lookup_insert_eq. apply lookup_lt_Some in Hy. done. }
    rewrite Heq, Hy in Hx. injection Hx as <-.
    rewrite Z.lor_spec, Z.shiftl_1_l, orb_comm. f_equal.
    destruct (Z.eqb_spec i j) as [->|Hij]; [apply Z.pow2_bits_true; lia|].
    apply Z.pow2_bits_false. intros Hm. apply Hij. zlia.
  - rewrite (is_set_testbit _ j y); [|done|].
    2:{ rewrite list_lookup_insert_ne; [done|]. intros He. apply Hne.
        assert (0 <= i / 8) by (apply Z.div_pos; lia). assert (0 <= j / 8) by (apply Z.div_pos; lia). lia. }
    destruct (Z.eqb_spec i j); [congruence|done].
Qed.

Lemma length_set b i : length (set i b) = length b.
Proof. unfold set. repeat case_match; rewrite ?length_insert; done. Qed.

Lemma bytes_lor x y : byte x -> byte y -> byte (Z.lor x y).
Proof.
  unfold byte. intros Hx Hy. assert (0 <= Z.lor x y) by (apply Z.lor_nonneg; lia). split; [done|].
  destruct (Z.eq_dec (Z.lor x y) 0) as [->|]; [lia|]. change 256 with (2 ^ 8).
  apply Z.log2_lt_pow2; [lia|]. rewrite Z.log2_lor by lia.
  assert (Hlog : forall z, 0 <= z < 256 -> Z.log2 z < 8).
  { intros z Hz. destruct (Z.eq_dec z 0) as [->|]; [done|]. apply Z.log2_lt_pow2; lia. }
  pose proof (Hlog x Hx). pose proof (Hlog y Hy). lia.
Qed.

Lemma bloom_ok_set b i : bloom_ok b -> 0 <= i -> bloom_ok (set i b).
Proof.
  intros [Hl Hb] Hi. split; [by rewrite length_set|]. unfold set.
  destruct (i <? 2048); [|done]. destruct (b !! _) as [x|] eqn:Hx; [|done].
  apply Forall_insert; [done|]. apply bytes_lor; [eapply Forall_lookup_1; eauto|].
  rewrite Z.shiftl_1_l. assert (0 <= i mod 8 < 8) by (apply Z.mod_pos_bound; lia). unfold byte.
  split; [apply Z.pow_nonneg; lia|]. change 256 with (2 ^ 8). apply Z.pow_lt_mono_r; lia.
Qed.

Lemma bitor_is_set a b i : length a = 256%nat -> length b = 256%nat -> 0 <= i < 2048 ->
  is_set (bitor a b) i = is_set a i || is_set b i.
Proof.
  intros Ha Hb Hi. destruct (byte_of a i Ha Hi) as [x Hx], (byte_of b i Hb Hi) as [y Hy].
  rewrite (is_set_testbit a i x), (is_set_testbit b i y) by done.
  rewrite (is_set_testbit _ i (Z.lor x y)); [apply Z.lor_spec|done|].
  unfold bitor, bitor_assign. rewrite lookup_zip_with, Hx, Hy. done.
Qed.

Lemma contains_spec a b : length a = length b ->
  contains a b = true <-> forall n x y, a !! n = Some x -> b !! n = Some y -> Z.land x y = y.
Proof.
  revert b. induction a as [|x a IH]; intros [|y b] Hl; simpl in *; try done.
  injection Hl as Hl. destruct (Z.eqb_spec (Z.land x y) y) as [Heq|Hne]; simpl.
  - rewrite (IH b Hl). split.
    + intros Hall [|n] x' y' Hx Hy; simpl in *; [congruence|eauto].
    + intros Hall n x' y' Hx Hy. by apply (Hall (S n)).
  - split; [done|]. intros Hall. destruct Hne. by apply (Hall O).
Qed.

Lemma land_subset x y : byte y ->
  Z.land x y = y <-> forall k, 0 <= k < 8 -> Z.testbit y k = true -> Z.testbit x k = true.
Proof.
  intros Hy. split.
  - intros Heq k Hk Ht. rewrite <- Heq, Z.land_spec in Ht. by apply andb_true_iff in Ht as [? _].
  - intros Hsub. apply Z.bits_inj'. intros k Hk. rewrite Z.land_spec.
    destruct (Z.testbit y k) eqn:Ht; [|apply andb_false_r]. rewrite andb_true_r.
    apply Hsub; [|done]. split; [done|]. apply Z.nle_gt. intros Hge.
    destruct (Z.eq_dec y 0) as [->|Hnz]; [by rewrite Z.bits_0 in Ht|]. unfold byte in Hy.
    rewrite Z.bits_above_log2 in Ht; [done|lia|].
    apply Z.lt_le_trans with 8; [apply Z.log2_lt_pow2; lia|done].
Qed.

Lemma contains_is_set a b : length a = 256%nat -> bloom_ok b ->
  contains a b = true <-> forall i, 0 <= i < 2048 -> is_set b i = true -> is_set a i = true.
Proof.
  intros Ha [Hb Hbb]. rewrite contains_spec by lia. split.
  - intros Hall i Hi. destruct (byte_of a i Ha Hi) as [x Hx], (byte_of b i Hb Hi) as [y Hy].
    rewrite (is_set_testbit a i x), (is_set_testbit b i y) by done.
    apply (proj1 (land_subset x y (Forall_lookup_1 _ _ _ _ Hbb Hy)) (Hall _ _ _ Hx Hy)).
    apply Z.mod_pos_bound. lia.
  - intros Hall n x y Hx Hy. apply land_subset; [eapply Forall_lookup_1; eauto|].
    intros k Hk Ht. apply lookup_lt_Some in Hx as Hn.
    assert (Hi : 0 <= 8 * Z.of_nat n + k < 2048) by lia.
    assert (Hdiv : (8 * Z.of_nat n + k) / 8 = Z.of_nat n) by zlia.
    assert (Hmod : (8 * Z.of_nat n + k) mod 8 = k) by zlia.
    specialize (Hall _ Hi).
    rewrite (is_set_testbit b _ y), (is_set_testbit a _ x), Hmod in Hall
      by (done || by rewrite Hdiv, Nat2Z.id).
    auto.
Qed.

(** a [Bloom] is a set of the bit indices below 2048.  The new filter is
    empty; [set] adds exactly its index (and nothing when the index is out of
    range); [|] is union; [contains] decides inclusion, so a filter that was
    built by adding indices never denies one of them; and every operation keeps
    the 256 bytes. *)
Theorem bloom_refines_set a b i :
  bloom_ok a -> bloom_ok b -> 0 <= i ->
  (forall j, 0 <= j < 2048 -> is_set new j = false) /\
  (forall j, 0 <= j < 2048 -> is_set (set i a) j = (i =? j) || is_set a j) /\
  (forall j, 0 <= j < 2048 -> is_set (bitor a b) j = is_set a j || is_set b j) /\
  (contains a b = true <-> forall j, 0 <= j < 2048 -> is_set b j = true -> is_set a j = true) /\
  bloom_ok new /\ bloom_ok (set i a) /\ bloom_ok (bitor a b).
Proof.
  intros [Ha Hab] [Hb Hbb] Hi.
  refine (conj _ (conj _ (conj _ (conj _ (conj _ (conj _ _)))))).
  - intros j Hj. destruct (byte_of new j) as [x Hx]; [done..|].
    rewrite (is_set_testbit new j x) by done. apply lookup_replicate in Hx as [-> _]. apply Z.bits_0.
  - intros j Hj. by apply set_is_set.
  - intros j Hj. by apply bitor_is_set.
  - by apply contains_is_set.
  - split; [done|apply bytes_zeros].
  - by apply bloom_ok_set.
  - unfold bitor, bitor_assign. split; [rewrite length_zip_with; lia|].
    apply Forall_lookup_2. intros n z Hz. apply lookup_zip_with_Some in Hz as (x & y & -> & Hx & Hy).
    apply bytes_lor; [apply (Forall_lookup_1 _ _ _ _ Hab Hx)|apply (Forall_lookup_1 _ _ _ _ Hbb Hy)].
Qed.

Lemma bloom_refines_set_witness :
  is_set (set 100 new) 100 = true /\ contains (set 100 (set 7 new)) (set 7 new) = true.
Proof.
  assert (Hn : bloom_ok new) by (split; [done|apply bytes_zeros]).
  destruct (bloom_refines_set new new 100 Hn Hn ltac:(lia)) as (_ & Hs & _).
  destruct (bloom_refines_set new new 7 Hn Hn ltac:(lia)) as (_ & _ & _ & _ & _ & H7 & _).
  destruct (bloom_refines_set (set 7 new) (set 7 new) 100 H7 H7 ltac:(lia)) as (_ & _ & _ & _ & _ & H100 & _).
  destruct (bloom_refines_set (set 100 (set 7 new)) (set 7 new) 0 H100 H7 ltac:(lia))
    as (_ & _ & _ & Hc & _).
  split; [by rewrite Hs by lia|]. apply Hc. intros j Hj Ht.
  rewrite (proj1 (proj2 (bloom_refines_set (set 7 new) new 100 H7 Hn ltac:(lia)))) by done.
  rewrite Ht. apply orb_true_r.
Defined.
End Bloom.

(** * uint.rs, hash.rs and address.rs *)

Section conversions.
Context `{U256Ops}.

(** [U256::from_be_bytes_vec] and [to_be_bytes_vec]. *)
Definition from_be_bytes_vec (b : list Z) : Infallible Z :=
  let n := Z.min (len b) 32 in
  let? d := slice b 0 n in
  unwrap (u_from_big_endian (replicate (Z.to_nat (32 - n)) 0 ++ d)).
Definition to_be_bytes_vec (v : Z) : Infallible (list Z) :=
  let b := u_to_big_endian v in
  let first_non_zero := default 31%nat (position (fun x => negb (x =? 0)) b) in
  slice b (Z.of_nat first_non_zero) (len b).
End conversions.

(** [HashExt::from_slice] for a hash of [n] bytes: at most [n] bytes are
    copied, the rest stays zero. *)
Definition hash_from_slice (n : nat) (s : list Z) : list Z :=
  take n s ++ replicate (n - length s) 0.

Definition address_from_slice (s : list Z) : outcome TypesError (list Z) :=
  if negb (len s =? 20) then Err (InvalidLength 20 (len s)) else Ok (hash_from_slice 20 s).

Section conversion_properties.
Context `{U256Laws}.

Lemma slice_drop (l : list Z) i : (i <= length l)%nat ->
  slice (E := Empty_set) l (Z.of_nat i) (len l) = Ok (drop i l).
Proof.
  intros Hi. unfold slice, len. rewrite !(proj2 (Z.leb_le _ _)) by lia. simpl. f_equal.
  rewrite Nat2Z.id. apply take_ge. rewrite length_drop. lia.
Qed.

Lemma to_be_bytes_vec_ok v : U256 v -> exists d, to_be_bytes_vec v = Ok d /\
  bytes d /\ 1 <= len d <= 32 /\ from_be d = v.
Proof.
  intros Hv. unfold to_be_bytes_vec. rewrite to_big_endian_law by done.
  assert (H32 : length (to_be 32 v) = 32%nat) by apply length_to_be.
  assert (Hval : from_be (to_be 32 v) = v) by (rewrite from_be_to_be; apply Z.mod_small; exact Hv).
  set (l := to_be 32 v) in *. assert (Hb : bytes l) by apply bytes_to_be.
  assert (Hz0 : v = 0 -> from_be (drop 31 l) = v) by (unfold l; intros ->; reflexivity).
  clearbody l.
  destruct (position _ l) as [i|] eqn:Hp; simpl.
  - destruct (position_nonzero l i Hp) as (b & Hd & _ & Hl).
    assert (Hi : (i < length l)%nat).
    { apply (f_equal length) in Hd. rewrite length_drop in Hd. simpl in Hd. lia. }
    rewrite slice_drop by lia. eexists. split_and!; [done|by apply bytes_drop|..].
    1-2: unfold len; rewrite length_drop; lia.
    rewrite Hl, from_be_drop_zeros in Hval. done.
  - assert (Hz : v = 0).
    { destruct (Z.eq_dec v 0) as [|Hne]; [done|]. rewrite <- Hval in Hne.
      apply position_nonzero_is_some in Hne as [i Hi]. congruence. }
    rewrite (slice_drop l 31) by lia. eexists. split_and!; [done|by apply bytes_drop|..].
    1-2: unfold len; rewrite length_drop; lia.
    by apply Hz0.
Qed.

(** [to_be_bytes_vec] and [from_be_bytes_vec] of [U256] are inverse: a
    number becomes between 1 and 32 bytes, and these give the number back; and
    any byte string of at most 32 bytes is read as its big-endian value. *)
Theorem uint_bytes_roundtrip :
  (forall v, U256 v -> exists d, to_be_bytes_vec v = Ok d /\ 1 <= len d <= 32 /\
                                 from_be_bytes_vec d = Ok v) /\
  (forall d, bytes d -> len d <= 32 -> from_be_bytes_vec d = Ok (from_be d)).
Proof.
  assert (Hfrom : forall d, bytes d -> len d <= 32 -> from_be_bytes_vec d = Ok (from_be d)).
  { intros d Hd Hl. unfold from_be_bytes_vec. rewrite Z.min_l by done.
    change 0 with (Z.of_nat 0) at 1. rewrite (slice_drop d 0) by lia. cbn [obind].
    rewrite drop_0. rewrite from_big_endian_law.
    - rewrite from_be_drop_zeros, (proj2 (Z.leb_le _ _)); [done|].
      rewrite len_app. unfold len in *. rewrite length_replicate. lia.
    - apply bytes_app. auto using bytes_zeros. }
  split; [|done]. intros v Hv. destruct (to_be_bytes_vec_ok v Hv) as (d & Hd & Hb & Hl & Hval).
  exists d. split_and!; [done|lia|lia|]. rewrite Hfrom, Hval by (done || lia). done.
Qed.
End conversion_properties.

Lemma uint_bytes_roundtrip_witness :
  (exists d, to_be_bytes_vec 258 = Ok d /\ 1 <= len d <= 32 /\ from_be_bytes_vec d = Ok 258) /\
  from_be_bytes_vec [1; 2] = Ok 258.
Proof.
  destruct uint_bytes_roundtrip as [Hv Hd]. split.
  - apply Hv. unfold uint. lia.
  - apply (Hd [1; 2]); [repeat constructor; unfold byte; lia|unfold len; simpl; lia].
Defined.
