(* ===== verification/TxPool.v ===== *)
(** The transaction pool: crates/txpool/src/lib.rs.

    The pool's four shared maps are the record [Pool]; the methods on [&self]
    (interior mutability behind locks) are state-passing computations; the
    broadcast channel is the list of the events sent.  The [priority_queue]
    crate and the transactions of crates/core enter through the classes
    [PriorityQueue] and [TransactionView]. *)
From stdpp Require Import base list numbers option gmap sorting.
From Stdlib Require Import ZArith Lia.
From S2P Require Import Prelude U256.

Notation Address := (list Z).
Notation H256 := (list Z).

Inductive TxPoolError :=
| AlreadyExists
| NonceTooLow
| GasPriceTooLow
| PoolFull
| InvalidTransaction
| InsufficientBalance
| GasLimitExceeded.

(** What the pool asks of a transaction. *)
Class TransactionView (T : Type) := {
  tx_hash : T -> H256;
  tx_gas_price : T -> Z;
  tx_from : T -> Address;
  tx_nonce : T -> Z;
  tx_gas_limit : T -> Z;
}.

(** [priority_queue::PriorityQueue<H256, TxPriority>]: a map from items to
    priorities; [peek] returns an item of the highest priority. *)
Class PriorityQueue (Q : Type) := {
  pq_new : Q;
  pq_push : H256 -> Z -> Q -> Q;
  pq_peek : Q -> option (H256 * Z);
  pq_remove : H256 -> Q -> Q;
  pq_view : Q -> gmap H256 Z;
}.
Class PriorityQueueLaws (Q : Type) `{PriorityQueue Q} : Prop := {
  pq_new_law : pq_view pq_new = ∅;
  pq_push_law h p q : pq_view (pq_push h p q) = <[h := p]> (pq_view q);
  pq_remove_law h q : pq_view (pq_remove h q) = delete h (pq_view q);
  pq_peek_none q : pq_peek q = None -> pq_view q = ∅;
  pq_peek_some q h p : pq_peek q = Some (h, p) ->
    pq_view q !! h = Some p /\ forall h' p', pq_view q !! h' = Some p' -> p' <= p;
}.

Record TxPoolConfig := mkConfig {
  max_size : Z;
  max_account_slots : Z;
  price_limit : Z;
  price_bump : Z;
  account_queue : Z;
  global_queue : Z;
  lifetime : Z;
}.
Definition default_config : TxPoolConfig := mkConfig 4096 16 1000000000 10 64 1024 (3 * 60 * 60).

Inductive TxPoolEvent := NewTransaction (h : H256) | Removed (h : H256) | Promoted (h : H256).

Section pool.
Context {T : Type} `{TransactionView T} {Q : Type} `{PriorityQueue Q} `{U256Ops}.

(** [timestamp] is the instant the transaction was pooled, in seconds. *)
Record PooledTransaction := mkPooled {
  tx : T;
  hash : H256;
  gas_price : Z;
  from : Address;
  timestamp : Z;
}.
Definition pooled_new (now : Z) (t : T) : PooledTransaction :=
  mkPooled t (tx_hash t) (tx_gas_price t) (tx_from t) now.
Definition effective_gas_price (t : PooledTransaction) : Z := gas_price t.
Definition nonce (t : PooledTransaction) : Z := tx_nonce (tx t).

Record Pool := mkPool {
  config : TxPoolConfig;
  pending : gmap Address (list PooledTransaction);
  queued : gmap Address (list PooledTransaction);
  all : gmap H256 PooledTransaction;
  price_heap : Q;
  events : list TxPoolEvent;
}.

Notation M := (SM Pool TxPoolError).

Definition set_pending f p := mkPool (config p) (f (pending p)) (queued p) (all p) (price_heap p) (events p).
Definition set_queued f p := mkPool (config p) (pending p) (f (queued p)) (all p) (price_heap p) (events p).
Definition set_all f p := mkPool (config p) (pending p) (queued p) (f (all p)) (price_heap p) (events p).
Definition set_heap f p := mkPool (config p) (pending p) (queued p) (all p) (f (price_heap p)) (events p).
(** [events_tx.send(e)], its result ignored *)
Definition send (e : TxPoolEvent) : M unit :=
  smodify (fun p => mkPool (config p) (pending p) (queued p) (all p) (price_heap p) (events p ++ [e])).

Definition pool_new (c : TxPoolConfig) : Pool := mkPool c ∅ ∅ ∅ pq_new [].

(** [map.entry(a).or_insert_with(VecDeque::new)], then [f] on the deque. *)
Definition entry_with (a : Address) (f : list PooledTransaction -> list PooledTransaction)
    (m : gmap Address (list PooledTransaction)) : gmap Address (list PooledTransaction) :=
  <[a := f (default [] (m !! a))]> m.
(** [if let Some(txs) = map.get_mut(a) { f(txs) }] *)
Definition modify_at (a : Address) (f : list PooledTransaction -> list PooledTransaction)
    (m : gmap Address (list PooledTransaction)) : gmap Address (list PooledTransaction) :=
  alter f a m.

Definition get_next_nonce (a : Address) (p : Pool) : outcome TxPoolError Z :=
  match pending p !! a with
  | Some txs =>
      match list.last txs with
      | Some last_tx => unwrap (u_add (nonce last_tx) 1)
      | None => Ok 0
      end
  | None => Ok 0
  end.

Definition remove_from_lists (t : PooledTransaction) : M unit :=
  smodify (set_pending (modify_at (from t) (filter (fun t' => hash t' <> hash t)))) ;;!
  smodify (set_queued (modify_at (from t) (filter (fun t' => hash t' <> hash t)))).

(** The closure of [txs.retain]: the transactions promoted so far, and those
    kept. *)
Fixpoint promote_scan (expected : Z) (promoted : list PooledTransaction)
    (txs : list PooledTransaction) :
    outcome TxPoolError (list PooledTransaction * list PooledTransaction) :=
  match txs with
  | [] => Ok (promoted, [])
  | t :: rest =>
      let? next := unwrap (u_add expected (len promoted)) in
      if nonce t =? next then promote_scan expected (promoted ++ [t]) rest
      else
        let? (promoted', kept) := promote_scan expected promoted rest in
        Ok (promoted', t :: kept)
  end.
Fixpoint send_promoted (txs : list PooledTransaction) : M unit :=
  match txs with
  | [] => sret tt
  | t :: rest => send (Promoted (hash t)) ;;! send_promoted rest
  end.
Definition promote_queued (a : Address) : M unit :=
  let! p := sget in
  let! expected := slift (get_next_nonce a p) in
  match queued p !! a with
  | None => sret tt
  | Some txs =>
      let! (promoted, kept) := slift (promote_scan expected [] txs) in
      smodify (set_queued (modify_at a (fun _ => kept))) ;;!
      match promoted with
      | [] => sret tt
      | _ =>
          smodify (set_pending (entry_with a (fun l => l ++ promoted))) ;;!
          send_promoted promoted
      end
  end.

Definition add_to_pool (t : PooledTransaction) : M unit :=
  let! p := sget in
  let! expected := slift (get_next_nonce (from t) p) in
  smodify (set_all (insert (hash t) t)) ;;!
  smodify (set_heap (pq_push (hash t) (gas_price t))) ;;!
  if nonce t =? expected then
    smodify (set_pending (entry_with (from t) (fun l => l ++ [t]))) ;;!
    promote_queued (from t)
  else if expected <? nonce t then
    smodify (set_queued (entry_with (from t) (fun l => l ++ [t])))
  else
    smodify (set_all (delete (hash t))) ;;!
    smodify (set_heap (pq_remove (hash t))) ;;!
    sfail NonceTooLow.

Definition evict_transaction (new_tx : PooledTransaction) : M bool :=
  let! p := sget in
  match pq_peek (price_heap p) with
  | Some (h, priority) =>
      if priority <? gas_price new_tx then
        smodify (set_heap (pq_remove h)) ;;!
        match all p !! h with
        | Some old_tx =>
            smodify (set_all (delete h)) ;;!
            remove_from_lists old_tx ;;!
            send (Removed h) ;;!
            sret true
        | None => sret false
        end
      else sret false
  | None => sret false
  end.

Definition add_transaction (now : Z) (t : T) : M H256 :=
  let t := pooled_new now t in
  let! p := sget in
  if bool_decide (is_Some (all p !! hash t)) then sfail AlreadyExists
  else if gas_price t <? price_limit (config p) then sfail GasPriceTooLow
  else
    (if max_size (config p) <=? Z.of_nat (size (all p)) then
       let! evicted := evict_transaction t in
       if negb evicted then sfail PoolFull else sret tt
     else sret tt) ;;!
    add_to_pool t ;;!
    send (NewTransaction (hash t)) ;;!
    sret (hash t).

Definition get_transaction (h : H256) (p : Pool) : option PooledTransaction := all p !! h.
Definition remove_transaction (h : H256) : M (option PooledTransaction) :=
  let! p := sget in
  match all p !! h with
  | Some t =>
      smodify (set_all (delete h)) ;;!
      smodify (set_heap (pq_remove h)) ;;!
      remove_from_lists t ;;!
      send (Removed h) ;;!
      sret (Some t)
  | None => sret None
  end.

(** [HashMap::values] in the order of the map. *)
Definition values (m : gmap Address (list PooledTransaction)) : list (list PooledTransaction) :=
  (map_to_list m).*2.
Definition get_pending (p : Pool) : list PooledTransaction := mjoin (values (pending p)).
Definition get_queued (p : Pool) : list PooledTransaction := mjoin (values (queued p)).
Definition get_pending_by_address (a : Address) (p : Pool) : list PooledTransaction :=
  default [] (pending p !! a).
Definition get_queued_by_address (a : Address) (p : Pool) : list PooledTransaction :=
  default [] (queued p !! a).
Definition pending_count (p : Pool) : Z := len (get_pending p).
Definition queued_count (p : Pool) : Z := len (get_queued p).
Definition total_count (p : Pool) : Z := Z.of_nat (size (all p)).
Definition clear (p : Pool) : Pool := mkPool (config p) ∅ ∅ ∅ pq_new (events p).

(** One tick of [run_maintenance]. *)
Definition expired (now : Z) (p : Pool) : list H256 :=
  (map_to_list (filter (fun kv => lifetime (config p) < now - timestamp kv.2) (all p))).*1.
Fixpoint remove_all (hs : list H256) : M unit :=
  match hs with
  | [] => sret tt
  | h :: rest => remove_transaction h ;;! remove_all rest
  end.
Definition maintenance_tick (now : Z) : M unit :=
  let! p := sget in remove_all (expired now p).

(** [sort_by(|a, b| b.gas_price.cmp(&a.gas_price))]: a stable sort, the
    highest price first. *)
Fixpoint insert_by_price (t : PooledTransaction) (l : list PooledTransaction) : list PooledTransaction :=
  match l with
  | [] => [t]
  | u :: l' => if gas_price t <? gas_price u then u :: insert_by_price t l' else t :: u :: l'
  end.
Fixpoint sort_by_price (l : list PooledTransaction) : list PooledTransaction :=
  match l with
  | [] => []
  | t :: l' => insert_by_price t (sort_by_price l')
  end.
Fixpoint fill_block (gas_limit total_gas : Z) (txs : list PooledTransaction) :
    outcome TxPoolError (list PooledTransaction) :=
  match txs with
  | [] => Ok []
  | t :: rest =>
      let? sum := unwrap (u_add total_gas (tx_gas_limit (tx t))) in
      if sum <=? gas_limit then
        let? r := fill_block gas_limit sum rest in Ok (t :: r)
      else Ok []
  end.
Definition get_transactions_for_block (gas_limit : Z) (p : Pool) :
    outcome TxPoolError (list PooledTransaction) :=
  fill_block gas_limit 0 (sort_by_price (get_pending p)).
End pool.
