(* ===== verification/TxPoolProofs.v ===== *)
(** The transaction pool keeps its indexes consistent. *)
From stdpp Require Import base list numbers option gmap sorting.
From Stdlib Require Import ZArith Lia.
From S2P Require Import Prelude U256 TxPool.

Section proofs.
Context {T : Type} `{TransactionView T} {Q : Type} `{PriorityQueueLaws Q} `{U256Laws}.
Notation PooledTransaction := (PooledTransaction (T := T)).
Notation Pool := (Pool (T := T) (Q := Q)).
Implicit Types (p : Pool) (t : PooledTransaction).

(** The list of an account; no entry is an empty list. *)
Definition plist (m : gmap Address (list PooledTransaction)) (a : Address) := default [] (m !! a).

(** The invariant: the heap prices exactly the pooled transactions; the lists
    of an account hold exactly its pooled transactions, each once; the pending
    nonces of an account go up; the pool is not over its limit. *)
Record pool_ok p : Prop := {
  ok_heap : pq_view (price_heap p) = gas_price <$> all p;
  ok_from a t : t ∈ plist (pending p) a ++ plist (queued p) a -> from t = a;
  ok_all t : t ∈ plist (pending p) (from t) ++ plist (queued p) (from t) <->
             all p !! hash t = Some t;
  ok_hash h t : all p !! h = Some t -> hash t = h;
  ok_nodup a : NoDup (hash <$> plist (pending p) a ++ plist (queued p) a);
  ok_sorted a : StronglySorted Z.lt (nonce <$> plist (pending p) a);
  ok_nonce h t : all p !! h = Some t -> 0 <= nonce t < 2 ^ 64;
  ok_size : Z.of_nat (size (all p)) <= max_size (config p);
}.

(** ** Lists *)

Lemma plist_entry_with m a b f :
  plist (entry_with a f m) b = if decide (a = b) then f (plist m a) else plist m b.
Proof.
  unfold plist, entry_with. destruct (decide (a = b)) as [->|Hne].
  - by rewrite lookup_insert_eq.
  - by rewrite lookup_insert_ne.
Qed.

Lemma plist_modify_at m a b f : f [] = [] ->
  plist (modify_at a f m) b = if decide (a = b) then f (plist m a) else plist m b.
Proof.
  intros Hf. unfold plist, modify_at. destruct (decide (a = b)) as [->|Hne].
  - rewrite lookup_alter_eq. destruct (m !! b); simpl; auto.
  - by rewrite lookup_alter_ne.
Qed.

Lemma sorted_filter (P : PooledTransaction -> Prop) `{!forall t, Decision (P t)} l :
  StronglySorted Z.lt (nonce <$> l) -> StronglySorted Z.lt (nonce <$> filter P l).
Proof.
  induction l as [|t l IH]; intros Hs; [constructor|]. inversion_clear Hs as [|? ? Hl Hall].
  rewrite filter_cons. destruct (decide (P t)); [|auto]. simpl. constructor; [auto|].
  rewrite Forall_fmap in *. apply Forall_forall. intros u [_ Hu]%list_elem_of_filter.
  rewrite Forall_forall in Hall. auto.
Qed.

Lemma nodup_filter (P : PooledTransaction -> Prop) `{!forall t, Decision (P t)} l :
  NoDup (hash <$> l) -> NoDup (hash <$> filter P l).
Proof.
  induction l as [|t l IH]; simpl; [done|]. rewrite NoDup_cons. intros [Hn Hl].
  rewrite filter_cons. destruct (decide (P t)); [|auto]. simpl. apply NoDup_cons. split; [|auto].
  rewrite list_elem_of_fmap. intros (u & Heq & [_ Hu]%list_elem_of_filter). apply Hn.
  rewrite list_elem_of_fmap. eauto.
Qed.

Lemma sorted_snoc (l : list Z) x : StronglySorted Z.lt l ->
  (forall y, list.last l = Some y -> y < x) -> StronglySorted Z.lt (l ++ [x]).
Proof.
  induction 1 as [|y l Hl IH Hall]; intros Hlast; simpl.
  - repeat constructor.
  - constructor.
    + apply IH. intros z Hz. apply Hlast. destruct l; [done|]. by rewrite last_cons_cons.
    + apply Forall_app. split; [done|]. constructor; [|constructor].
      destruct (list.last l) as [z|] eqn:Hz.
      * assert (z < x) by (apply Hlast; by rewrite last_cons, Hz).
        apply last_Some_elem_of in Hz. rewrite Forall_forall in Hall. specialize (Hall z Hz). lia.
      * apply Hlast. by rewrite last_cons, Hz.
Qed.

Lemma sorted_run (l : list Z) x n : StronglySorted Z.lt l -> list.last l = Some (x - 1) ->
  StronglySorted Z.lt (l ++ seqZ x (Z.of_nat n)).
Proof.
  revert l x. induction n as [|n IH]; intros l x Hl Hlast.
  { rewrite seqZ_nil by lia. by rewrite app_nil_r. }
  rewrite seqZ_cons by lia. replace (Z.pred (Z.of_nat (S n))) with (Z.of_nat n) by lia.
  rewrite (cons_middle x l), (app_assoc l [x]). apply IH.
  - apply sorted_snoc; [done|]. intros y [= <-]%(eq_trans (eq_sym Hlast)). lia.
  - rewrite last_snoc. f_equal. lia.
Qed.

(** ** Removing a transaction *)

Lemma removed_ok p p' t : pool_ok p -> all p !! hash t = Some t -> config p' = config p ->
  pending p' = modify_at (from t) (filter (fun t' => hash t' <> hash t)) (pending p) ->
  queued p' = modify_at (from t) (filter (fun t' => hash t' <> hash t)) (queued p) ->
  all p' = delete (hash t) (all p) -> pq_view (price_heap p') = delete (hash t) (pq_view (price_heap p)) ->
  pool_ok p' /\ Z.of_nat (size (all p')) + 1 = Z.of_nat (size (all p)).
Proof.
  intros Hp Ht Hc Hpe Hq Ha Hh.
  assert (Hlist : forall a, plist (pending p') a ++ plist (queued p') a =
    if decide (from t = a) then filter (fun t' => hash t' <> hash t)
                                  (plist (pending p) a ++ plist (queued p) a)
    else plist (pending p) a ++ plist (queued p) a).
  { intros a. rewrite Hpe, Hq, !plist_modify_at by done.
    destruct (decide (from t = a)) as [<-|]; [|done]. by rewrite filter_app. }
  assert (Hsize : Z.of_nat (size (all p')) + 1 = Z.of_nat (size (all p))).
  { rewrite Ha, map_size_delete_Some by eauto.
    assert (size (all p) <> 0)%nat; [|lia]. intros Hz%map_size_empty_iff. by rewrite Hz in Ht. }
  split; [|done]. split.
  - by rewrite Hh, Ha, (ok_heap p Hp), fmap_delete.
  - intros a u Hu. rewrite Hlist in Hu. destruct (decide (from t = a)); [|by apply Hp].
    apply list_elem_of_filter in Hu as [_ Hu]. by apply Hp.
  - intros u. rewrite Hlist, Ha, lookup_delete_Some, <- (ok_all p Hp).
    destruct (decide (from t = from u)) as [Heq|Hne].
    + rewrite list_elem_of_filter. naive_solver.
    + split; [|naive_solver]. intros Hu. split; [|done]. intros Hhash.
      apply (ok_all p Hp) in Hu. rewrite <- Hhash, Ht in Hu. congruence.
  - intros h u. rewrite Ha, lookup_delete_Some. intros [_ Hu]. by apply Hp.
  - intros a. rewrite Hlist. pose proof (ok_nodup p Hp a). destruct (decide _); [|done].
    by apply nodup_filter.
  - intros a. rewrite Hpe, plist_modify_at by done. pose proof (ok_sorted p Hp a).
    destruct (decide (from t = a)) as [<-|]; [|done]. by apply sorted_filter.
  - intros h u. rewrite Ha, lookup_delete_Some. intros [_ Hu]. by eapply Hp.
  - rewrite Hc. pose proof (ok_size p Hp). lia.
Qed.

(** ** Promotion *)

Lemma promote_scan_ok expected acc txs : 0 <= expected < 2 ^ 65 ->
  len acc + len txs < 2 ^ 64 ->
  exists extra kept, promote_scan expected acc txs = Ok (acc ++ extra, kept) /\
    txs ≡ₚ extra ++ kept /\ nonce <$> extra = seqZ (expected + len acc) (len extra).
Proof.
  intros He. revert acc. induction txs as [|t txs IH]; intros acc Hl; simpl.
  { exists [], []. rewrite app_nil_r. done. }
  rewrite len_cons in Hl. pose proof (len_nonneg acc). pose proof (len_nonneg txs).
  rewrite add_law, (proj2 (Z.ltb_lt _ _)) by (unfold uint; lia). simpl.
  destruct (Z.eqb_spec (nonce t) (expected + len acc)) as [Hn|Hn].
  - destruct (IH (acc ++ [t])) as (extra & kept & -> & Hperm & Hseq); [rewrite len_snoc; lia|].
    exists (t :: extra), kept. rewrite <- app_assoc. split_and!; [done|by rewrite Hperm|].
    rewrite len_cons, seqZ_cons by (pose proof (len_nonneg extra); lia). rewrite fmap_cons, Hn, Hseq, len_snoc.
    f_equal. f_equal; lia.
  - destruct (IH acc) as (extra & kept & -> & Hperm & Hseq); [lia|]. simpl.
    exists extra, (t :: kept). split_and!; [done| |done].
    rewrite Hperm. by rewrite Permutation_middle.
Qed.

Lemma send_promoted_state txs p : exists evs,
  send_promoted txs p = (Ok tt, mkPool (config p) (pending p) (queued p) (all p) (price_heap p) evs).
Proof.
  revert p. induction txs as [|t txs IH]; intros p; simpl.
  - exists (events p). by destruct p.
  - unfold sbind, send, smodify. edestruct IH as [evs Hs]. rewrite Hs. simpl. eauto.
Qed.

(** What [promote_queued] does to the maps: it moves a run of transactions with
    the next nonces to the end of the pending list. *)
Lemma promote_queued_ok a p l x :
  plist (pending p) a = l ++ [x] -> 0 <= nonce x < 2 ^ 64 -> len (plist (queued p) a) < 2 ^ 64 ->
  exists extra kept evs pe qu,
    promote_queued a p = (Ok tt, mkPool (config p) pe qu (all p) (price_heap p) evs) /\
    plist (queued p) a ≡ₚ extra ++ kept /\
    (forall b, plist pe b = if decide (a = b) then plist (pending p) a ++ extra else plist (pending p) b) /\
    (forall b, plist qu b = if decide (a = b) then kept else plist (queued p) b) /\
    nonce <$> extra = seqZ (nonce x + 1) (len extra).
Proof.
  intros Hl Hx Hq. unfold promote_queued, sbind, sget, slift.
  assert (get_next_nonce a p = Ok (nonce x + 1)) as ->.
  { unfold get_next_nonce. unfold plist in Hl. destruct (pending p !! a) as [txs|]; simpl in Hl.
    - rewrite Hl, last_snoc.
      rewrite add_law, (proj2 (Z.ltb_lt _ _)) by (unfold uint; lia). done.
    - by destruct l. }
  unfold plist in Hq |- * at 1. destruct (queued p !! a) as [txs|] eqn:Hqa; simpl in Hq |- *.
  2:{ exists [], [], (events p), (pending p), (queued p). split_and!; try done.
      - by destruct p.
      - intros b. destruct (decide (a = b)) as [<-|]; [by rewrite app_nil_r|done].
      - intros b. destruct (decide (a = b)) as [<-|]; [|done]. unfold plist. by rewrite Hqa. }
  destruct (promote_scan_ok (nonce x + 1) [] txs) as (extra & kept & -> & Hperm & Hseq); [lia|done|].
  rewrite len_nil, Z.add_0_r in Hseq. simpl.
  assert (Hqu : forall b, plist (modify_at a (fun _ => kept) (queued p)) b =
                  if decide (a = b) then kept else plist (queued p) b).
  { intros b. unfold plist, modify_at. destruct (decide (a = b)) as [<-|Hne].
    - by rewrite lookup_alter_eq, Hqa.
    - by rewrite lookup_alter_ne. }
  destruct extra as [|t extra]; simpl.
  - exists [], kept. eexists _, (pending p), _. split_and!; [done|done| |exact Hqu|done].
    intros b. destruct (decide (a = b)) as [<-|]; [by rewrite app_nil_r|done].
  - unfold sbind, smodify. destruct (send_promoted_state (t :: extra)
      (set_pending (entry_with a (λ l0, l0 ++ t :: extra)) (set_queued (modify_at a (λ _, kept)) p)))
      as [evs Hs].
    exists (t :: extra), kept, evs. eexists _, _. split_and!; [exact Hs|done| |exact Hqu|done].
    intros b. simpl. by rewrite plist_entry_with.
Qed.

(** ** Adding a transaction *)

Lemma inserted_ok p p' t : pool_ok p -> all p !! hash t = None -> 0 <= nonce t < 2 ^ 64 ->
  Z.of_nat (size (all p)) < max_size (config p) -> config p' = config p ->
  all p' = <[hash t := t]> (all p) ->
  pq_view (price_heap p') = <[hash t := gas_price t]> (pq_view (price_heap p)) ->
  (forall b, from t <> b -> plist (pending p') b = plist (pending p) b /\
                            plist (queued p') b = plist (queued p) b) ->
  plist (pending p') (from t) ++ plist (queued p') (from t)
    ≡ₚ t :: plist (pending p) (from t) ++ plist (queued p) (from t) ->
  StronglySorted Z.lt (nonce <$> plist (pending p') (from t)) ->
  pool_ok p'.
Proof.
  intros Hp Hfresh Hn Hroom Hc Ha Hh Hother Hlist Hsorted.
  assert (Hin : forall b u, u ∈ plist (pending p') b ++ plist (queued p') b <->
    (from t = b /\ u = t) \/ u ∈ plist (pending p) b ++ plist (queued p) b).
  { intros b u. destruct (decide (from t = b)) as [<-|Hne].
    - rewrite Hlist, elem_of_cons. naive_solver.
    - destruct (Hother b Hne) as [-> ->]. naive_solver. }
  split.
  - by rewrite Hh, Ha, (ok_heap p Hp), fmap_insert.
  - intros b u [[? ->]|Hu]%Hin; [done|]. by apply Hp.
  - intros u. rewrite Hin, Ha, lookup_insert_Some, <- (ok_all p Hp). split.
    + intros [[_ ->]|Hu]; [by left|]. right. split; [|done]. intros Heq.
      apply (ok_all p Hp) in Hu. congruence.
    + naive_solver.
  - intros h u. rewrite Ha, lookup_insert_Some. intros [[<- <-]|[_ Hu]]; [done|]. by apply Hp.
  - intros b. destruct (decide (from t = b)) as [<-|Hne].
    + rewrite Hlist, fmap_cons. apply NoDup_cons. split; [|apply Hp].
      rewrite list_elem_of_fmap. intros (u & Heq & Hu).
      pose proof (ok_from p Hp _ _ Hu) as Hf. rewrite <- Hf in Hu. apply (ok_all p Hp) in Hu. congruence.
    + destruct (Hother b Hne) as [-> ->]. apply Hp.
  - intros b. destruct (decide (from t = b)) as [<-|Hne]; [done|].
    destruct (Hother b Hne) as [-> _]. apply Hp.
  - intros h u. rewrite Ha, lookup_insert_Some. intros [[<- <-]|[_ Hu]]; [done|]. by eapply Hp.
  - rewrite Ha, Hc, map_size_insert_None by done. lia.
Qed.

Lemma lists_bounded p a : pool_ok p -> len (plist (queued p) a) <= Z.of_nat (size (all p)).
Proof.
  intros Hp. pose proof (ok_nodup p Hp a) as Hnd.
  set (l := plist (pending p) a ++ plist (queued p) a) in *.
  assert (list_to_set (hash <$> l) ⊆@{gset H256} dom (all p)) as Hsub.
  { intros h. rewrite elem_of_list_to_set, list_elem_of_fmap, elem_of_dom. intros (u & -> & Hu).
    pose proof (ok_from p Hp a u Hu) as Hf. unfold l in Hu. rewrite <- Hf in Hu.
    apply (ok_all p Hp) in Hu. by eexists. }
  apply subseteq_size in Hsub. rewrite size_list_to_set, length_fmap, size_dom in Hsub by done.
  unfold l in Hsub. rewrite length_app in Hsub. unfold len. lia.
Qed.

Lemma next_nonce_spec p a : pool_ok p ->
  exists n, get_next_nonce a p = Ok n /\ 0 <= n <= 2 ^ 64 /\
    match list.last (plist (pending p) a) with Some u => n = nonce u + 1 | None => n = 0 end.
Proof.
  intros Hp. unfold get_next_nonce, plist.
  destruct (pending p !! a) as [txs|] eqn:Hpa; simpl; [|exists 0; split_and!; done || lia].
  destruct (list.last txs) as [u|] eqn:Hu; [|exists 0; split_and!; done || lia].
  assert (Hin : u ∈ plist (pending p) a ++ plist (queued p) a).
  { apply elem_of_app. left. unfold plist. rewrite Hpa. by apply last_Some_elem_of. }
  pose proof (ok_from p Hp a u Hin) as Hf. rewrite <- Hf in Hin. apply (ok_all p Hp) in Hin.
  pose proof (ok_nonce p Hp _ _ Hin).
  exists (nonce u + 1). rewrite add_law, (proj2 (Z.ltb_lt _ _)) by (unfold uint; lia).
  split_and!; done || lia.
Qed.

Lemma sorted_last_snoc p a t : pool_ok p -> get_next_nonce a p = Ok (nonce t) ->
  StronglySorted Z.lt (nonce <$> plist (pending p) a ++ [t]).
Proof.
  intros Hp Hn. destruct (next_nonce_spec p a Hp) as (n & Hn' & _ & Hlast).
  rewrite Hn in Hn'. injection Hn' as <-.
  rewrite fmap_app. apply sorted_snoc; [apply Hp|].
  intros y Hy. rewrite fmap_last in Hy.
  destruct (list.last (plist (pending p) a)); [|done]. simpl in Hy. injection Hy as <-. lia.
Qed.

(** [add_to_pool] of a fresh transaction into a pool with room. *)
Lemma add_to_pool_ok p t : pool_ok p -> all p !! hash t = None -> 0 <= nonce t < 2 ^ 64 ->
  Z.of_nat (size (all p)) < max_size (config p) -> max_size (config p) < 2 ^ 64 ->
  exists expected, get_next_nonce (from t) p = Ok expected /\
  if nonce t <? expected then
    exists q, add_to_pool t p = (Err NonceTooLow,
      mkPool (config p) (pending p) (queued p) (all p) q (events p)) /\
      pq_view q = pq_view (price_heap p)
  else exists p', add_to_pool t p = (Ok tt, p') /\ pool_ok p' /\ config p' = config p /\
       all p' = <[hash t := t]> (all p) /\
       (nonce t = expected -> t ∈ plist (pending p') (from t)) /\
       (expected < nonce t -> t ∈ plist (queued p') (from t)).
Proof.
  intros Hp Hfresh Hn Hroom Hmax.
  destruct (next_nonce_spec p (from t) Hp) as (expected & Hexp & Hb & _).
  exists expected. split; [done|]. unfold add_to_pool.
  unfold sbind, sget, slift, smodify. rewrite Hexp.
  destruct (Z.ltb_spec (nonce t) expected) as [Hlt|Hge].
  - rewrite (proj2 (Z.eqb_neq _ _)), (proj2 (Z.ltb_ge _ _)) by lia. simpl. eexists. split.
    + unfold set_all, set_heap. simpl. by rewrite delete_insert_id.
    + rewrite pq_remove_law, pq_push_law, delete_insert_id; [done|].
      by rewrite (ok_heap p Hp), lookup_fmap, Hfresh.
  - destruct (Z.eqb_spec (nonce t) expected) as [Heq|Hne].
    + destruct (promote_queued_ok (from t)
        (set_pending (entry_with (from t) (fun l => l ++ [t]))
           (set_heap (pq_push (hash t) (gas_price t)) (set_all (insert (hash t) t) p)))
        (plist (pending p) (from t)) t) as (extra & kept & evs & pe & qu & Hpr & Hperm & Hpe & Hqu & Hseq).
      * simpl. rewrite plist_entry_with. by rewrite decide_True.
      * done.
      * simpl. pose proof (lists_bounded p (from t) Hp). lia.
      * rewrite Hpr. eexists. split; [done|]. simpl in *.
        pose proof (Hpe (from t)) as Hpt. pose proof (Hqu (from t)) as Hqt.
        rewrite !decide_True, plist_entry_with, decide_True in * by done.
        split_and!; [|done|done|..].
        -- eapply (inserted_ok p); eauto; simpl.
           ++ by rewrite pq_push_law.
           ++ intros b Hbne. rewrite Hpe, Hqu, !decide_False, plist_entry_with, decide_False by done. done.
           ++ rewrite Hpt, Hqt, Hperm. solve_Permutation.
           ++ rewrite Hpt, fmap_app, Hseq. unfold len. apply sorted_run.
              ** apply sorted_last_snoc; [done|]. by rewrite Heq.
              ** rewrite fmap_app. simpl. rewrite last_snoc. f_equal. lia.
        -- intros _. rewrite Hpt. set_solver.
        -- lia.
    + rewrite (proj2 (Z.ltb_lt _ _)) by lia. eexists. split; [done|].
      split_and!; [|done|done|lia|]; simpl.
      * eapply (inserted_ok p); eauto; simpl.
        -- by rewrite pq_push_law.
        -- intros b Hbne. by rewrite plist_entry_with, decide_False.
        -- rewrite plist_entry_with, decide_True by done. solve_Permutation.
        -- apply Hp.
      * intros _. rewrite plist_entry_with, decide_True by done. set_solver.
Qed.

(** ** Eviction *)

Lemma remove_from_lists_eq t p : remove_from_lists t p =
  (Ok tt, set_queued (modify_at (from t) (filter (fun t' => hash t' <> hash t)))
            (set_pending (modify_at (from t) (filter (fun t' => hash t' <> hash t))) p)).
Proof. done. Qed.

(** Eviction removes a transaction of the highest price in the pool, if that
    price is below the newcomer's. *)
Lemma evict_ok p t : pool_ok p ->
  (evict_transaction t p = (Ok false, p) /\
   (all p = ∅ \/ exists u, all p !! hash u = Some u /\ gas_price t <= gas_price u)) \/
  exists p' old, evict_transaction t p = (Ok true, p') /\ pool_ok p' /\ config p' = config p /\
    all p !! hash old = Some old /\ all p' = delete (hash old) (all p) /\
    Z.of_nat (size (all p')) + 1 = Z.of_nat (size (all p)) /\ gas_price old < gas_price t /\
    forall h u, all p !! h = Some u -> gas_price u <= gas_price old.
Proof.
  intros Hp. unfold evict_transaction, sbind, sget.
  destruct (pq_peek (price_heap p)) as [[h pr]|] eqn:Hpeek.
  2:{ left. split; [done|]. left. apply pq_peek_none in Hpeek. rewrite (ok_heap p Hp) in Hpeek.
      by apply fmap_empty_iff in Hpeek. }
  apply pq_peek_some in Hpeek as [Hh Hmax]. rewrite (ok_heap p Hp) in Hh, Hmax.
  rewrite lookup_fmap in Hh. apply fmap_Some in Hh as (old & Hold & ->).
  pose proof (ok_hash p Hp h old Hold) as <-.
  assert (Hle : forall h u, all p !! h = Some u -> gas_price u <= gas_price old).
  { intros h u Hu. apply (Hmax h). by rewrite lookup_fmap, Hu. }
  destruct (Z.ltb_spec (gas_price old) (gas_price t)) as [Hlt|Hge].
  2:{ left. split; [done|]. right. eauto. }
  right. rewrite Hold. unfold smodify, send, sret. rewrite remove_from_lists_eq.
  eexists _, old. split; [done|].
  match goal with |- pool_ok ?q /\ _ => destruct (removed_ok p q old Hp Hold) as [Hok Hsz] end;
    [done..|simpl; by rewrite pq_remove_law|]. split_and!; done.
Qed.

Lemma add_transaction_ok now (tr : T) p :
  pool_ok p -> max_size (config p) < 2 ^ 64 -> 0 <= tx_nonce tr < 2 ^ 64 ->
  let '(r, p') := add_transaction now tr p in
  pool_ok p' /\
  match r with
  | Ok h => h = tx_hash tr /\ get_transaction h p' = Some (pooled_new now tr)
  | Err AlreadyExists => p' = p /\ is_Some (get_transaction (tx_hash tr) p)
  | Err GasPriceTooLow => p' = p /\ tx_gas_price tr < price_limit (config p)
  | Err PoolFull => p' = p /\ total_count p = max_size (config p)
  | Err NonceTooLow => get_transaction (tx_hash tr) p' = None /\ all p' ⊆ all p
  | _ => False
  end.
Proof.
  intros Hp Hmax Hn. unfold add_transaction, get_transaction, total_count.
  set (t := pooled_new now tr). change (tx_hash tr) with (hash t).
  change (tx_gas_price tr) with (gas_price t). change (tx_nonce tr) with (nonce t) in Hn.
  unfold sbind at 1, sget at 1. destruct (bool_decide_reflect (is_Some (all p !! hash t))) as [Hs|Hs].
  { simpl. auto. }
  apply eq_None_not_Some in Hs. destruct (Z.ltb_spec (gas_price t) (price_limit (config p))).
  { simpl. auto. }
  set (rest := add_to_pool t ;;! send (NewTransaction (hash t)) ;;! sret (hash t)).
  assert (Hadd : forall q, pool_ok q -> config q = config p -> all q ⊆ all p ->
      Z.of_nat (size (all q)) < max_size (config p) ->
      let '(r, p') := rest q in
      pool_ok p' /\ match r with
      | Ok h => h = hash t /\ all p' !! h = Some t
      | Err NonceTooLow => all p' !! hash t = None /\ all p' ⊆ all p
      | _ => False end).
  { intros q Hq Hc Hsub Hroom.
    assert (Hf : all q !! hash t = None) by (by eapply lookup_weaken_None).
    destruct (add_to_pool_ok q t Hq Hf Hn) as (e & _ & Hr); [rewrite Hc; lia|rewrite Hc; lia|].
    unfold rest, sbind. destruct (nonce t <? e).
    - destruct Hr as (heap & -> & Hv). split; [|done]. destruct Hq. split; simpl; try done. congruence.
    - destruct Hr as (p' & -> & Hok & _ & Ha & _). simpl. split; [by destruct Hok; split|].
      split; [done|]. by rewrite Ha, lookup_insert_eq. }
  clearbody rest.
  destruct (Z.leb_spec (max_size (config p)) (Z.of_nat (size (all p)))) as [Hfull|Hroom].
  - pose proof (ok_size p Hp). unfold sbind at 1 2.
    destruct (evict_ok p t Hp) as [[-> _]|(q & old & -> & Hq & Hc & Hold & Ha & Hsz & _)]; simpl.
    { split; [done|]. split; [done|lia]. }
    specialize (Hadd q Hq Hc ltac:(rewrite Ha; apply delete_subseteq) ltac:(lia)).
    destruct (rest q) as [[|[]| |] p']; naive_solver.
  - unfold sbind at 1, sret at 1. specialize (Hadd p Hp eq_refl ltac:(done) Hroom).
    destruct (rest p) as [[|[]| |] p']; naive_solver.
Qed.

(** ** No method changes the configuration. *)

Definition keeps_config {A} (m : SM Pool TxPoolError A) : Prop :=
  forall p, config (m p).2 = config p.

Lemma keeps_bind {A B} (m : SM Pool TxPoolError A) (k : A -> SM Pool TxPoolError B) :
  keeps_config m -> (forall a, keeps_config (k a)) -> keeps_config (sbind m k).
Proof.
  intros Hm Hk p. unfold sbind. specialize (Hm p). destruct (m p) as [[a|e| |] q]; simpl in *; try done.
  by rewrite Hk.
Qed.

Lemma keeps_send_promoted txs : keeps_config (send_promoted txs).
Proof. intros p. by destruct (send_promoted_state txs p) as [evs ->]. Qed.

Lemma add_transaction_config now tr p : config (add_transaction now tr p).2 = config p.
Proof.
  enough (keeps_config (add_transaction now tr)) by done.
  unfold add_transaction, add_to_pool, evict_transaction, promote_queued, remove_from_lists.
  repeat match goal with
  | |- keeps_config (send_promoted _) => apply keeps_send_promoted
  | |- keeps_config (sbind _ _) => apply keeps_bind; [|intros ?]
  | |- keeps_config (match ?x with _ => _ end) => destruct x
  | |- keeps_config _ => intros ?; reflexivity
  end.
Qed.

(** ** Removal and maintenance *)

Lemma remove_transaction_ok h p : pool_ok p ->
  exists p', remove_transaction h p = (Ok (all p !! h), p') /\ pool_ok p' /\ config p' = config p /\
    all p' = delete h (all p).
Proof.
  intros Hp. unfold remove_transaction, sbind, sget. destruct (all p !! h) as [t|] eqn:Ht.
  2:{ exists p. split_and!; try done. by rewrite delete_id. }
  pose proof (ok_hash p Hp h t Ht) as <-. unfold smodify, send, sret. rewrite remove_from_lists_eq.
  eexists. split; [done|].
  match goal with |- pool_ok ?q /\ _ => destruct (removed_ok p q t Hp Ht) as [Hok _] end;
    [done..|simpl; by rewrite pq_remove_law|]. split_and!; done.
Qed.

Lemma remove_all_ok hs p : pool_ok p ->
  exists p', remove_all hs p = (Ok tt, p') /\ pool_ok p' /\ config p' = config p /\
    forall h, all p' !! h = if decide (h ∈ hs) then None else all p !! h.
Proof.
  revert p. induction hs as [|h hs IH]; intros p Hp; simpl.
  { exists p. done. }
  destruct (remove_transaction_ok h p Hp) as (q & Hr & Hq & Hc & Ha).
  destruct (IH q Hq) as (p' & Hrs & Hp' & Hc' & Ha'). exists p'.
  unfold sbind. rewrite Hr, Hrs. split_and!; try done; [congruence|].
  intros h'. rewrite Ha', Ha. destruct (decide (h' = h)) as [->|Hne].
  - rewrite (decide_True (P := h ∈ h :: hs)) by apply list_elem_of_here.
    destruct (decide _); [done|]. apply lookup_delete_eq.
  - rewrite lookup_delete_ne by done. apply decide_ext. rewrite elem_of_cons. tauto.
Qed.

Lemma elem_of_expired now p h : h ∈ expired now p <->
  exists t, all p !! h = Some t /\ lifetime (config p) < now - timestamp t.
Proof.
  unfold expired. rewrite list_elem_of_fmap. split.
  - intros ([h' t] & -> & Hin). apply elem_of_map_to_list, map_lookup_filter_Some in Hin as [Ht Hl].
    exists t. done.
  - intros (t & Ht & Hl). exists (h, t). split; [done|].
    apply elem_of_map_to_list, map_lookup_filter_Some. done.
Qed.

Lemma maintenance_tick_ok now p : pool_ok p ->
  exists p', maintenance_tick now p = (Ok tt, p') /\ pool_ok p' /\ config p' = config p /\
    forall h t, all p' !! h = Some t <->
                all p !! h = Some t /\ now - timestamp t <= lifetime (config p).
Proof.
  intros Hp. destruct (remove_all_ok (expired now p) p Hp) as (p' & Hr & Hp' & Hc & Ha).
  exists p'. split_and!; try done. intros h t. rewrite Ha.
  destruct (decide (h ∈ expired now p)) as [Hin|Hout].
  - split; [done|]. intros [Ht Hle]. apply elem_of_expired in Hin as (u & Hu & Hgt).
    rewrite Ht in Hu. injection Hu as <-. lia.
  - split; [|by intros [? _]]. intros Ht. split; [done|]. apply Z.nlt_ge. intros Hgt.
    apply Hout, elem_of_expired. eauto.
Qed.

Lemma clear_ok p : 0 <= max_size (config p) -> pool_ok (clear p).
Proof.
  intros Hm. split; simpl; try done.
  - by rewrite pq_new_law, fmap_empty.
  - intros a t. unfold plist. rewrite !lookup_empty. set_solver.
  - intros t. unfold plist. rewrite !lookup_empty. set_solver.
  - intros a. unfold plist. rewrite !lookup_empty. constructor.
  - intros a. unfold plist. rewrite !lookup_empty. constructor.
Qed.

(** The pools a program can build: calls of the public methods in any order,
    also failing ones. *)
Inductive reachable (c : TxPoolConfig) : Pool -> Prop :=
| reach_new : reachable c (pool_new c)
| reach_add now tr p : reachable c p -> 0 <= tx_nonce tr < 2 ^ 64 ->
    reachable c (add_transaction now tr p).2
| reach_remove h p : reachable c p -> reachable c (remove_transaction h p).2
| reach_tick now p : reachable c p -> reachable c (maintenance_tick now p).2
| reach_clear p : reachable c p -> reachable c (clear p).

(** C4: every pool a program can reach is consistent, by calls of
    [add_transaction], [remove_transaction], [clear] and ticks of
    [run_maintenance] in any order; and a tick leaves exactly the transactions
    that have not outlived the configured lifetime. *)
Theorem reachable_pools_consistent c p :
  0 <= max_size c < 2 ^ 64 -> reachable c p ->
  pool_ok p /\ config p = c /\
  forall now, let p' := (maintenance_tick now p).2 in
    forall h t, get_transaction h p' = Some t <->
                get_transaction h p = Some t /\ now - timestamp t <= lifetime c.
Proof.
  intros Hc Hr. assert (Hok : pool_ok p /\ config p = c).
  { induction Hr as [|now tr p Hr [IH IHc] Hn|h p Hr [IH IHc]|now p Hr [IH IHc]|p Hr [IH IHc]].
    - split; [|done]. apply (clear_ok (pool_new c)). simpl. lia.
    - pose proof (add_transaction_ok now tr p IH ltac:(rewrite IHc; lia) Hn) as Ha.
      pose proof (add_transaction_config now tr p) as Hcc.
      destruct (add_transaction now tr p) as [r p']. simpl in *. destruct Ha as [Ha _]. split; congruence.
    - destruct (remove_transaction_ok h p IH) as (p' & -> & ? & ? & _). split; [done|simpl; congruence].
    - destruct (maintenance_tick_ok now p IH) as (p' & -> & ? & ? & _). split; [done|simpl; congruence].
    - split; [apply clear_ok; rewrite IHc; lia|done]. }
  destruct Hok as [Hok Hcfg]. split_and!; try done. intros now p' h t.
  unfold p'. destruct (maintenance_tick_ok now p Hok) as (q & -> & _ & _ & Ha). simpl.
  unfold get_transaction. rewrite Ha, Hcfg. done.
Qed.

(** ** Filling a block *)

Lemma insert_by_price_perm t l : insert_by_price t l ≡ₚ t :: l.
Proof.
  induction l as [|u l IH]; simpl; [done|]. destruct (_ <? _); [|done].
  rewrite IH. apply Permutation_swap.
Qed.

Lemma sort_by_price_perm (l : list PooledTransaction) : sort_by_price l ≡ₚ l.
Proof. induction l as [|t l IH]; simpl; [done|]. by rewrite insert_by_price_perm, IH. Qed.

Definition price_ge (t u : PooledTransaction) : Prop := gas_price u <= gas_price t.

Lemma insert_by_price_sorted t l : StronglySorted price_ge l -> StronglySorted price_ge (insert_by_price t l).
Proof.
  induction 1 as [|u l Hl IH Hall]; simpl; [repeat constructor|].
  destruct (Z.ltb_spec (gas_price t) (gas_price u)).
  - constructor; [done|]. rewrite insert_by_price_perm. constructor; [unfold price_ge; lia|done].
  - constructor; [by constructor|]. constructor; [unfold price_ge; lia|].
    eapply Forall_impl; [exact Hall|]. intros v. unfold price_ge. lia.
Qed.

Lemma sort_by_price_sorted (l : list PooledTransaction) : StronglySorted price_ge (sort_by_price l).
Proof. induction l; simpl; [constructor|]. by apply insert_by_price_sorted. Qed.

Definition total_gas (l : list PooledTransaction) : Z := foldr (fun t acc => tx_gas_limit (tx t) + acc) 0 l.

Lemma total_gas_nonneg l : Forall (fun t => 0 <= tx_gas_limit (tx t)) l -> 0 <= total_gas l.
Proof. induction 1; simpl; [lia|]. unfold total_gas in *. simpl. lia. Qed.

(** The block is the longest prefix of the candidates that fits. *)
Lemma fill_block_ok limit (txs : list PooledTransaction) : forall total,
  Forall (fun t => 0 <= tx_gas_limit (tx t) < 2 ^ 64) txs -> 0 <= limit < 2 ^ 255 ->
  0 <= total <= limit ->
  exists rest, txs = default [] (match fill_block limit total txs with Ok r => Some r | _ => None end) ++ rest /\
    exists r, fill_block limit total txs = Ok r /\ total + total_gas r <= limit /\
      match rest with [] => True | t :: _ => limit < total + total_gas r + tx_gas_limit (tx t) end.
Proof.
  induction txs as [|t txs IH]; intros total Hg Hl Ht; simpl.
  { exists []. split; [done|]. exists []. unfold total_gas. simpl. split_and!; try done. lia. }
  rewrite Forall_cons_iff in Hg. destruct Hg as [Hgt Hg]. cbn beta in Hgt.
  rewrite add_law, (proj2 (Z.ltb_lt _ _)) by (unfold uint; lia). simpl.
  destruct (Z.leb_spec (total + tx_gas_limit (tx t)) limit) as [Hle|Hgt'].
  - assert (Hsum0 : 0 <= total + tx_gas_limit (tx t) <= limit) by lia.
    destruct (IH (total + tx_gas_limit (tx t)) Hg Hl Hsum0) as (rest & Htx & r & Hr & Hsum & Hrest).
    rewrite Hr in *. simpl in *. exists rest. split; [by rewrite Htx at 1|]. exists (t :: r).
    split; [done|]. unfold total_gas in *. simpl. split; [lia|]. destruct rest; [done|lia].
  - exists (t :: txs). split; [done|]. exists []. unfold total_gas. simpl. split_and!; try done; lia.
Qed.

(** the transactions chosen for a block.  For gas limits of transactions
    below 2^64 and a block limit below 2^255, [get_transactions_for_block]
    returns, without panicking, a prefix of the pending transactions sorted by
    falling gas price; their gas limits add up to at most the block's, and the
    next candidate, if there is one, would not have fitted. *)
Theorem block_selection limit p :
  0 <= limit < 2 ^ 255 ->
  Forall (fun t => 0 <= tx_gas_limit (tx t) < 2 ^ 64) (get_pending p) ->
  exists r rest, get_transactions_for_block limit p = Ok r /\
    r ++ rest ≡ₚ get_pending p /\ StronglySorted price_ge (r ++ rest) /\ total_gas r <= limit /\
    match rest with [] => True | t :: _ => limit < total_gas r + tx_gas_limit (tx t) end.
Proof.
  intros Hl Hg. unfold get_transactions_for_block.
  assert (Hg' : Forall (fun t => 0 <= tx_gas_limit (tx t) < 2 ^ 64) (sort_by_price (get_pending p)))
    by (by rewrite sort_by_price_perm).
  destruct (fill_block_ok limit _ 0 Hg' Hl ltac:(lia)) as (rest & Htx & r & Hr & Hsum & Hrest).
  rewrite Hr in Htx. simpl in Htx. exists r, rest. rewrite <- Htx.
  split_and!; [done|apply sort_by_price_perm|apply sort_by_price_sorted|lia|destruct rest; done || lia].
Qed.
End proofs.

(** * A concrete queue and transactions *)

Definition better (h : H256) (pr : Z) (acc : option (H256 * Z)) : option (H256 * Z) :=
  match acc with
  | None => Some (h, pr)
  | Some (_, pr') => if pr' <? pr then Some (h, pr) else acc
  end.
#[export] Instance map_queue : PriorityQueue (gmap H256 Z) := {|
  pq_new := ∅;
  pq_push h pr q := <[h := pr]> q;
  pq_peek q := map_fold better None q;
  pq_remove h q := delete h q;
  pq_view q := q;
|}.

Lemma map_fold_better (q : gmap H256 Z) :
  match map_fold better None q with
  | None => q = ∅
  | Some (h, pr) => q !! h = Some pr /\ forall h' pr', q !! h' = Some pr' -> pr' <= pr
  end.
Proof.
  apply (map_fold_weak_ind (fun acc q => match acc with
    | None => q = ∅
    | Some (h, pr) => q !! h = Some pr /\ forall h' pr', q !! h' = Some pr' -> pr' <= pr
    end)); [done|].
  intros h pr m [[h0 pr0]|] Hfresh IH; simpl.
  - destruct IH as [H0 Hmax]. assert (h <> h0) by congruence.
    destruct (Z.ltb_spec pr0 pr).
    + split; [apply lookup_insert_eq|]. intros h' pr' [[_ <-]|[_ Hl]]%lookup_insert_Some; [lia|].
      specialize (Hmax _ _ Hl). lia.
    + split; [by rewrite lookup_insert_ne|].
      intros h' pr' [[_ <-]|[_ Hl]]%lookup_insert_Some; [lia|eauto].
  - subst m. split; [apply lookup_insert_eq|].
    intros h' pr' [[_ <-]|[_ Hl]]%lookup_insert_Some; [lia|done].
Qed.

#[export] Instance map_queue_laws : PriorityQueueLaws (gmap H256 Z).
Proof.
  split; simpl; try done.
  - intros q Hq. pose proof (map_fold_better q) as Hf. by rewrite Hq in Hf.
  - intros q h pr Hq. pose proof (map_fold_better q) as Hf. by rewrite Hq in Hf.
Qed.

(** A transaction that is what the pool sees of it: hash, price, sender, nonce
    and gas limit. *)
Record SimpleTx := mkTx { s_hash : H256; s_price : Z; s_from : Address; s_nonce : Z; s_gas : Z }.
#[export] Instance simple_view : TransactionView SimpleTx := {|
  tx_hash := s_hash; tx_gas_price := s_price; tx_from := s_from; tx_nonce := s_nonce;
  tx_gas_limit := s_gas;
|}.

Definition small_config : TxPoolConfig := mkConfig 2 16 1 10 64 1024 100.
Definition alice : Address := [1].
Definition bob : Address := [2].
Notation TestPool := (Pool (T := SimpleTx) (Q := gmap H256 Z)).
(** A full pool: a transaction of Alice at price 5 and one of Bob at price 3. *)
Definition full_pool : TestPool :=
  (add_transaction 0 (mkTx [11] 3 bob 0 21000)
     (add_transaction 0 (mkTx [10] 5 alice 0 21000) (pool_new small_config)).2).2.

Lemma full_pool_reachable : reachable small_config full_pool.
Proof. apply reach_add; [apply reach_add; [constructor|simpl; lia]|simpl; lia]. Qed.


Lemma reachable_pools_consistent_witness : pool_ok full_pool.
Proof.
  apply (reachable_pools_consistent small_config full_pool); [simpl; lia|apply full_pool_reachable].
Defined.

Lemma full_pool_gas :
  Forall (fun t => 0 <= tx_gas_limit (tx t) < 2 ^ 64) (get_pending full_pool).
Proof.
  assert (Hb : forallb (fun t => (0 <=? tx_gas_limit (tx t)) && (tx_gas_limit (tx t) <? 2 ^ 64))
                 (get_pending full_pool) = true) by (vm_compute; reflexivity).
  rewrite forallb_forall in Hb. apply Forall_forall. intros t Ht. apply list_elem_of_In in Ht.
  specialize (Hb t Ht). lia.
Qed.

Lemma block_selection_witness :
  exists r rest, get_transactions_for_block 30000 full_pool = Ok r /\
    r ++ rest ≡ₚ get_pending full_pool /\ StronglySorted price_ge (r ++ rest) /\ total_gas r <= 30000 /\
    match rest with [] => True | t :: _ => 30000 < total_gas r + tx_gas_limit (tx t) end.
Proof.
  apply (block_selection 30000 full_pool); [lia|apply full_pool_gas].
Defined.

(** a rejected transaction can cost another one its place.  The pool is
    full with a transaction of Alice (price 5) and one of Bob (price 3).  Bob
    sends a second transaction with the nonce he already used, at price 9:
    [add_transaction] first evicts, then checks the nonce.  The call fails with
    [NonceTooLow], and Alice's transaction, the best paid one of the pool, is
    gone while Bob's cheaper one stays. *)
Theorem nonce_too_low_still_evicts :
  let '(r, p') := add_transaction 0 (mkTx [12] 9 bob 0 21000) full_pool in
  r = Err NonceTooLow /\ is_Some (get_transaction [10] full_pool) /\
  get_transaction [10] p' = None /\ is_Some (get_transaction [11] p') /\ total_count p' = 1.
Proof. vm_compute. split_and!; eauto. Qed.
