(* ===== verification/Eip7691.v ===== *)
(** Blob gas: crates/core/src/eip7691.rs.  The parameters of a fork are a
    [BlobGasConfig]; the excess blob gas of a block follows from its parent, the
    blob base fee from the excess by an integer Taylor series
    ([fake_exponential], over U256 arithmetic that panics on overflow); a
    [BlobPool] keeps blob transactions by priority.  The theorems compare the
    fee with the series it computes, follow the excess along a chain of blocks,
    and give the pool's invariant and selection. *)
From stdpp Require Import base list numbers option sorting.
From Stdlib Require Import ZArith Lia Permutation.
From S2P Require Import Prelude U256.

Section blob_gas.
Context `{U256Ops} `{Profile}.

Definition OLD_TARGET_BLOB_GAS_PER_BLOCK : Z := 393216.
Definition OLD_MAX_BLOB_GAS_PER_BLOCK : Z := 786432.
Definition TARGET_BLOB_GAS_PER_BLOCK : Z := 786432.
Definition MAX_BLOB_GAS_PER_BLOCK : Z := 1179648.
Definition BLOB_GAS_PER_BLOB : Z := 131072.
Definition MIN_BLOB_BASE_FEE : Z := 1.
Definition BLOB_BASE_FEE_UPDATE_FRACTION : Z := 3338477.

Inductive Eip7691Error :=
| TooManyBlobs (n max : Z)
| InvalidBlobGas (gas per_blob : Z)
| ExcessBlobGas (gas max : Z)
| InvalidVersionedHash.

Record BlobGasConfig := mkBlobGasConfig {
  target_blob_gas_per_block : Z;
  max_blob_gas_per_block : Z;
  blob_gas_per_blob : Z;
  min_blob_base_fee : Z;
  blob_base_fee_update_fraction : Z;
}.

Definition pre_7691 : BlobGasConfig :=
  mkBlobGasConfig OLD_TARGET_BLOB_GAS_PER_BLOCK OLD_MAX_BLOB_GAS_PER_BLOCK BLOB_GAS_PER_BLOB
    MIN_BLOB_BASE_FEE BLOB_BASE_FEE_UPDATE_FRACTION.
Definition post_7691 : BlobGasConfig :=
  mkBlobGasConfig TARGET_BLOB_GAS_PER_BLOCK MAX_BLOB_GAS_PER_BLOCK BLOB_GAS_PER_BLOB
    MIN_BLOB_BASE_FEE BLOB_BASE_FEE_UPDATE_FRACTION.

Definition target_blobs_per_block {E} (c : BlobGasConfig) : outcome E Z :=
  udiv (target_blob_gas_per_block c) (blob_gas_per_blob c).
Definition max_blobs_per_block {E} (c : BlobGasConfig) : outcome E Z :=
  udiv (max_blob_gas_per_block c) (blob_gas_per_blob c).

Definition calculate_excess_blob_gas (parent_excess_blob_gas parent_blob_gas_used : Z)
    (config : BlobGasConfig) : Infallible Z :=
  let? excess_blob_gas := uadd 64 parent_excess_blob_gas parent_blob_gas_used in
  if excess_blob_gas <? target_blob_gas_per_block config then Ok 0
  else usub 64 excess_blob_gas (target_blob_gas_per_block config).

(** The [while] loop of [fake_exponential]; [i] is at most 256, so 256 units of
    fuel are enough. *)
Fixpoint fake_exponential_loop (fuel : nat) (numerator denominator i output accum : Z) :
    Infallible Z :=
  match fuel with
  | O => Diverge
  | S fuel' =>
      if 0 <? accum then
        let? output := unwrap (u_add output accum) in
        let? product := unwrap (u_mul accum numerator) in
        let? divisor := unwrap (u_mul denominator i) in
        let? accum := unwrap (u_div product divisor) in
        let? i := unwrap (u_add i 1) in
        if 256 <? i then Ok output
        else fake_exponential_loop fuel' numerator denominator i output accum
      else Ok output
  end.
Definition fake_exponential (factor numerator denominator : Z) : Infallible Z :=
  let? accum := unwrap (u_mul factor denominator) in
  let? output := fake_exponential_loop 256 numerator denominator 1 0 accum in
  unwrap (u_div output denominator).

Definition calculate_blob_base_fee (excess_blob_gas : Z) (config : BlobGasConfig) : Infallible Z :=
  fake_exponential (min_blob_base_fee config) excess_blob_gas
    (blob_base_fee_update_fraction config).

Record BlobTransactionData := mkBlobTransactionData {
  blob_versioned_hashes : list (list Z);
  max_fee_per_blob_gas : Z;
}.

(** [for hash in &hashes { if hash.as_bytes()[0] != 0x01 { return Err(..) } }] *)
Fixpoint check_versions (hashes : list (list Z)) : outcome Eip7691Error unit :=
  match hashes with
  | [] => Ok tt
  | h :: rest =>
      let? b := index h 0 in
      if negb (b =? 0x01) then Err InvalidVersionedHash else check_versions rest
  end.
Definition blob_transaction_new (hashes : list (list Z)) (max_fee : Z) :
    outcome Eip7691Error BlobTransactionData :=
  let config := post_7691 in
  let? max := max_blobs_per_block config in
  if max <? len hashes then Err (TooManyBlobs (len hashes) max)
  else
    let? _ := check_versions hashes in
    Ok (mkBlobTransactionData hashes max_fee).

Definition blob_count (d : BlobTransactionData) : Z := len (blob_versioned_hashes d).
Definition blob_gas_used {E} (d : BlobTransactionData) : outcome E Z :=
  umul 64 (blob_count d) BLOB_GAS_PER_BLOB.
Definition validate_against_config (config : BlobGasConfig) (d : BlobTransactionData) :
    outcome Eip7691Error unit :=
  let? max := max_blobs_per_block config in
  if max <? blob_count d then Err (TooManyBlobs (blob_count d) max)
  else
    let? gas_used := blob_gas_used d in
    if max_blob_gas_per_block config <? gas_used
    then Err (ExcessBlobGas gas_used (max_blob_gas_per_block config))
    else Ok tt.
Definition calculate_cost (blob_base_fee : Z) (d : BlobTransactionData) : Infallible Z :=
  let? used := blob_gas_used d in unwrap (u_mul blob_base_fee used).
Definition can_afford (blob_base_fee : Z) (d : BlobTransactionData) : bool :=
  blob_base_fee <=? max_fee_per_blob_gas d.

(** The two fields [BlobGasInfo] adds to a header. *)
Record BlobGasInfo := mkBlobGasInfo { info_blob_gas_used : Z; info_excess_blob_gas : Z }.
Definition blob_gas_info_validate (config : BlobGasConfig) (b : BlobGasInfo) :
    outcome Eip7691Error unit :=
  let blob_gas_used := info_blob_gas_used b in
  let? rem := urem blob_gas_used (blob_gas_per_blob config) in
  if negb (rem =? 0) then Err (InvalidBlobGas blob_gas_used (blob_gas_per_blob config))
  else if max_blob_gas_per_block config <? blob_gas_used
  then Err (ExcessBlobGas blob_gas_used (max_blob_gas_per_block config))
  else Ok tt.
Definition blob_gas_info_fee (config : BlobGasConfig) (b : BlobGasInfo) : Infallible Z :=
  calculate_blob_base_fee (info_excess_blob_gas b) config.

(** * The pool *)

Notation H256 := (list Z).
(** [(tx_hash, blob_data, priority_fee)] *)
Notation Entry := (H256 * BlobTransactionData * Z)%type.
Definition entry_hash (e : Entry) : H256 := e.1.1.
Definition entry_data (e : Entry) : BlobTransactionData := e.1.2.
Definition priority_fee (e : Entry) : Z := e.2.

Record BlobPool := mkBlobPool {
  blob_transactions : list Entry;
  blob_config : BlobGasConfig;
  max_pool_size : Z;
}.
Definition set_blob_transactions (l : list Entry) (p : BlobPool) : BlobPool :=
  mkBlobPool l (blob_config p) (max_pool_size p).
Definition blob_pool_new (config : BlobGasConfig) (max : Z) : BlobPool := mkBlobPool [] config max.

(** [sort_by(|a, b| b.2.cmp(&a.2))]: by falling priority. *)
Definition sort_entries (l : list Entry) : list Entry := sort_by_key (fun e => - priority_fee e) l.
Definition sort_by_priority (p : BlobPool) : BlobPool :=
  set_blob_transactions (sort_entries (blob_transactions p)) p.
(** [Vec::pop] *)
Definition evict_lowest_priority (p : BlobPool) : BlobPool :=
  set_blob_transactions (take (length (blob_transactions p) - 1) (blob_transactions p)) p.

Definition blob_pool_add (tx_hash : H256) (d : BlobTransactionData) (fee : Z) :
    SM BlobPool Eip7691Error unit :=
  let! p := sget in
  slift (validate_against_config (blob_config p) d) ;;!
  (if max_pool_size p <=? len (blob_transactions p) then smodify evict_lowest_priority
   else sret tt) ;;!
  smodify (fun p => set_blob_transactions (blob_transactions p ++ [(tx_hash, d, fee)]) p) ;;!
  smodify sort_by_priority.

Fixpoint best_loop (blob_base_fee max_blobs total_blobs : Z) (l : list Entry) :
    Infallible (list (H256 * BlobTransactionData)) :=
  match l with
  | [] => Ok []
  | (tx_hash, d, _) :: rest =>
      if negb (can_afford blob_base_fee d) then best_loop blob_base_fee max_blobs total_blobs rest
      else
        let? sum := uadd 64 total_blobs (blob_count d) in
        if max_blobs <? sum then best_loop blob_base_fee max_blobs total_blobs rest
        else
          let? selected := best_loop blob_base_fee max_blobs sum rest in
          Ok ((tx_hash, d) :: selected)
  end.
Definition get_best_transactions (blob_base_fee max_blobs : Z) (p : BlobPool) :
    Infallible (list (H256 * BlobTransactionData)) :=
  best_loop blob_base_fee max_blobs 0 (blob_transactions p).

Definition blob_pool_remove (tx_hash : H256) : SM BlobPool Eip7691Error (option BlobTransactionData) :=
  let! p := sget in
  match list_find (fun e => entry_hash e = tx_hash) (blob_transactions p) with
  | Some (pos, e) =>
      smodify (set_blob_transactions
                 (take pos (blob_transactions p) ++ drop (S pos) (blob_transactions p))) ;;!
      sret (Some (entry_data e))
  | None => sret None
  end.
Definition blob_pool_size (p : BlobPool) : Z := len (blob_transactions p).
Fixpoint sum_usize {E} (acc : Z) (l : list Z) : outcome E Z :=
  match l with
  | [] => Ok acc
  | x :: rest => let? acc := uadd 64 acc x in sum_usize acc rest
  end.
Definition total_blobs (p : BlobPool) : Infallible Z :=
  sum_usize 0 (map (fun e => blob_count (entry_data e)) (blob_transactions p)).

Definition migrate_blob_gas_at_fork (pre_fork_excess pre_fork_used : Z) : Infallible (Z * Z) :=
  let old_config := pre_7691 in
  let new_config := post_7691 in
  let? a := umul 64 pre_fork_excess (target_blob_gas_per_block new_config) in
  let? scaled_excess := udiv a (target_blob_gas_per_block old_config) in
  let? b := umul 64 pre_fork_used (blob_gas_per_blob new_config) in
  let? scaled_used := udiv b (blob_gas_per_blob old_config) in
  Ok (scaled_excess, scaled_used).
End blob_gas.

(** * The fee is a truncated Taylor series *)

(** [term k] is [factor * denominator * (numerator / denominator)^k / k!],
    rounded down at every step, and [partial_sum k] adds the first [k]. *)
Section series.
Context (factor numerator denominator : Z).
Fixpoint term (k : nat) : Z :=
  match k with
  | O => factor * denominator
  | S k' => term k' * numerator / (denominator * (Z.of_nat k' + 1))
  end.
Fixpoint partial_sum (k : nat) : Z :=
  match k with O => 0 | S k' => partial_sum k' + term k' end.
(** What step [k] computes fits in 256 bits. *)
Definition step_fits (k : nat) : bool :=
  (partial_sum (S k) <? 2 ^ 256) && (term k * numerator <? 2 ^ 256).
Definition series_fits : bool := forallb step_fits (seq 0 256).

Hypothesis factor_pos : 0 <= factor.
Hypothesis numerator_pos : 0 <= numerator.
Hypothesis denominator_pos : 0 < denominator.

Lemma term_nonneg k : 0 <= term k.
Proof using Type*.
  induction k as [|k IH]; cbn [term]; [nia|]. apply Z.div_pos; nia.
Qed.
Lemma term_zero_after k j : term k = 0 -> term (k + j) = 0.
Proof using Type.
  intros Hk. induction j as [|j IH]; [by rewrite Nat.add_0_r|].
  rewrite Nat.add_succ_r. cbn [term]. rewrite IH. done.
Qed.
Lemma partial_sum_stable k j : term k = 0 -> partial_sum (k + j) = partial_sum k.
Proof using Type.
  intros Hk. induction j as [|j IH]; [by rewrite Nat.add_0_r|].
  rewrite Nat.add_succ_r. cbn [partial_sum]. rewrite IH, term_zero_after by done. lia.
Qed.
Lemma partial_sum_mono k j : partial_sum k <= partial_sum (k + j).
Proof using Type*.
  induction j as [|j IH]; [rewrite Nat.add_0_r; lia|].
  rewrite Nat.add_succ_r. cbn [partial_sum]. pose proof (term_nonneg (k + j)). lia.
Qed.
Lemma partial_sum_nonneg k : 0 <= partial_sum k.
Proof using Type*. apply (partial_sum_mono 0). Qed.

Lemma zero_tail_fits k m :
  term k = 0 -> partial_sum k < 2 ^ 256 -> forallb step_fits (seq k m) = true.
Proof using Type.
  intros Hk Hs. apply forallb_forall. intros j [Hj _]%in_seq.
  replace j with (k + (j - k))%nat by lia. unfold step_fits. cbn [partial_sum].
  rewrite partial_sum_stable, term_zero_after by done.
  apply andb_true_iff. split; apply Z.ltb_lt; lia.
Qed.
End series.

Section fee.
Context `{U256Laws}.

Section loop.
Context (f n d : Z).
Hypothesis f_pos : 0 <= f.
Hypothesis n_range : U256 n.
Hypothesis d_range : 0 < d < 2 ^ 64.

(** With [m] steps left, the loop adds the rest of the series or panics. *)
Lemma loop_computes_series N m k :
  N = 256%nat -> (k + m = N)%nat -> (1 <= m)%nat ->
  U256 (partial_sum f n d k) -> U256 (term f n d k) ->
  fake_exponential_loop m n d (Z.of_nat k + 1) (partial_sum f n d k) (term f n d k)
  = if forallb (step_fits f n d) (seq k m) then Ok (partial_sum f n d N) else Panic.
Proof using Type*.
  intros HN. revert k.
  induction m as [|m IH]; intros k Hkm Hm Hp Ht; [lia|]. unfold uint in *.
  cbn [fake_exponential_loop]. destruct (Z.ltb_spec 0 (term f n d k)) as [Hpos|Hz].
  2: { rewrite zero_tail_fits by lia. rewrite <- Hkm. by rewrite partial_sum_stable by lia. }
  rewrite add_law by (unfold uint; lia). cbn [seq forallb]. unfold step_fits at 1.
  cbn [partial_sum]. destruct (Z.ltb_spec (partial_sum f n d k + term f n d k) (2 ^ 256));
    cbn [unwrap obind andb]; [|done].
  rewrite mul_law by (unfold uint; lia).
  destruct (Z.ltb_spec (term f n d k * n) (2 ^ 256)); cbn [unwrap obind andb]; [|done].
  rewrite mul_law by (unfold uint; lia).
  rewrite (proj2 (Z.ltb_lt (d * _) _)) by nia. cbn [unwrap obind].
  rewrite div_law by (unfold uint; nia).
  rewrite (proj2 (Z.eqb_neq _ _)) by nia. cbn [unwrap obind].
  rewrite add_law by (unfold uint; lia). rewrite (proj2 (Z.ltb_lt _ _)) by lia.
  cbn [unwrap obind]. replace (Z.of_nat k + 1 + 1) with (Z.of_nat (S k) + 1) by lia.
  destruct (Z.ltb_spec 256 (Z.of_nat (S k) + 1)).
  - assert (N = S k) as -> by lia. assert (m = 0%nat) as -> by lia. done.
  - apply (IH (S k)); [lia|lia| |]; unfold uint; cbn [term partial_sum]; [lia|].
    split; [apply Z.div_pos; nia|apply Z.div_lt_upper_bound; nia].
Qed.

(** The fits of all steps bound the sum. *)
Lemma fits_bound N : (0 < N)%nat ->
  forallb (step_fits f n d) (seq 0 N) = true -> partial_sum f n d N < 2 ^ 256.
Proof using Type.
  intros HN Hfit. destruct N as [|N]; [lia|].
  rewrite forallb_forall in Hfit. specialize (Hfit N ltac:(apply in_seq; lia)).
  apply andb_true_iff in Hfit as [Hs _]. by apply Z.ltb_lt.
Qed.

Lemma fake_exponential_series : U256 f ->
  fake_exponential f n d
  = if series_fits f n d then Ok (partial_sum f n d 256 / d) else Panic.
Proof using Type*.
  intros Hf. unfold fake_exponential, series_fits.
  remember 256%nat as N eqn:HN. unfold uint in *.
  rewrite mul_law by (unfold uint; lia).
  destruct (Z.ltb_spec (f * d) (2 ^ 256)) as [Hfd|Hfd].
  2: { destruct N as [|N]; [lia|]. cbn [unwrap obind seq forallb]. unfold step_fits at 1.
       cbn [partial_sum term]. by rewrite (proj2 (Z.ltb_ge _ _)) by lia. }
  cbn [unwrap obind].
  pose proof (loop_computes_series N N 0 HN eq_refl ltac:(lia)) as Hl.
  change (Z.of_nat 0 + 1) with 1 in Hl. cbn in Hl.
  rewrite Hl by (unfold uint; nia). clear Hl.
  destruct (forallb _ _) eqn:Hfit; [|done]. cbn [obind].
  apply fits_bound in Hfit; [|lia].
  rewrite div_law; [|unfold uint..].
  - by rewrite (proj2 (Z.eqb_neq _ _)) by lia.
  - split; [apply partial_sum_nonneg; lia|done].
  - lia.
Qed.
End loop.

(** A larger numerator gives larger terms. *)
Section monotone.
Context (f d n n' : Z).
Hypothesis f_nonneg : 0 <= f.
Hypothesis d_pos : 0 < d.
Hypothesis n_le : 0 <= n <= n'.

Lemma term_mono k : term f n d k <= term f n' d k.
Proof using Type*.
  induction k as [|k IH]; cbn [term]; [lia|].
  pose proof (term_nonneg f n d ltac:(lia) ltac:(lia) ltac:(lia) k).
  apply Z.div_le_mono; nia.
Qed.
Lemma sum_mono k : partial_sum f n d k <= partial_sum f n' d k.
Proof using Type*.
  induction k as [|k IH]; cbn [partial_sum]; [lia|]. pose proof (term_mono k). lia.
Qed.
Lemma fits_mono N : forallb (step_fits f n' d) (seq 0 N) = true ->
  forallb (step_fits f n d) (seq 0 N) = true.
Proof using Type*.
  rewrite !forallb_forall. intros Hf k Hk. specialize (Hf k Hk).
  apply andb_true_iff in Hf as [Hs Ht]. apply Z.ltb_lt in Hs, Ht.
  pose proof (sum_mono (S k)). pose proof (term_mono k).
  pose proof (term_nonneg f n d ltac:(lia) ltac:(lia) ltac:(lia) k).
  apply andb_true_iff. split; apply Z.ltb_lt; nia.
Qed.
End monotone.

Definition config_ok (c : BlobGasConfig) : Prop :=
  uint 64 (min_blob_base_fee c) /\ 0 < blob_base_fee_update_fraction c < 2 ^ 64.

Lemma blob_base_fee_series c e : config_ok c -> uint 64 e ->
  let f := min_blob_base_fee c in let d := blob_base_fee_update_fraction c in
  calculate_blob_base_fee e c
  = if series_fits f e d then Ok (partial_sum f e d 256 / d) else Panic.
Proof.
  intros [Hf Hd] He f d. unfold uint in *. apply fake_exponential_series; unfold uint; lia.
Qed.

Lemma zero_excess_fee c : config_ok c -> calculate_blob_base_fee 0 c = Ok (min_blob_base_fee c).
Proof.
  intros Hc. rewrite blob_base_fee_series by (done || (unfold uint; lia)).
  destruct Hc as [Hf Hd]. set (f := min_blob_base_fee c) in *.
  set (d := blob_base_fee_update_fraction c) in *. unfold uint in *.
  assert (H1 : term f 0 d 1 = 0) by (cbn [term]; by rewrite Z.mul_0_r).
  assert (Hfd : partial_sum f 0 d 1 = f * d) by done.
  replace (series_fits f 0 d) with true.
  - pose proof (partial_sum_stable f 0 d 1 255 H1) as Hs. change (1 + 255)%nat with 256%nat in Hs.
    by rewrite Hs, Hfd, Z.div_mul by lia.
  - symmetry. unfold series_fits. change (seq 0 256) with ([0%nat] ++ seq 1 255).
    rewrite forallb_app, zero_tail_fits by (rewrite ?Hfd; done || nia).
    cbn [forallb]. unfold step_fits. rewrite Hfd, Z.mul_0_r, !andb_true_r.
    apply Z.ltb_lt. nia.
Qed.

(** Less excess than that of a block whose fee exists: a fee exists, between
    the minimum and that block's. *)
Lemma fee_monotone c e e' v' : config_ok c -> 0 <= e -> e <= e' -> uint 64 e' ->
  calculate_blob_base_fee e' c = Ok v' ->
  exists v, calculate_blob_base_fee e c = Ok v /\ min_blob_base_fee c <= v <= v'.
Proof.
  intros Hc He Hle He'. assert (uint 64 e) by (unfold uint in *; lia).
  rewrite !blob_base_fee_series by done. destruct Hc as [Hf Hd].
  set (f := min_blob_base_fee c) in *. set (d := blob_base_fee_update_fraction c) in *.
  unfold series_fits. set (N := 256%nat). assert (HN : (N = 1 + 255)%nat) by done.
  clearbody N. unfold uint in *.
  destruct (forallb _ (seq 0 N)) eqn:Hfit; [|done]. intros [= <-].
  rewrite (fits_mono f d e e') by (lia || done). eexists. split; [done|]. split.
  - apply Z.div_le_lower_bound; [lia|]. rewrite HN.
    pose proof (partial_sum_mono f e d ltac:(lia) ltac:(lia) ltac:(lia) 1 255) as Hm.
    change (partial_sum f e d 1) with (f * d) in Hm. lia.
  - apply Z.div_le_mono; [lia|]. apply sum_mono; lia.
Qed.

(** C9: The blob base fee is the integer Taylor series of
    [min_fee * e^(excess / fraction)] with 256 terms, rounded down at every
    step as in the specification of the fee; the call panics exactly when a
    step leaves 256 bits, and never loops.  Without excess the fee is the
    minimum; with less excess than a block whose fee exists, a fee exists, is
    at least the minimum and at most that block's. *)
Theorem blob_base_fee_correct c e : config_ok c -> uint 64 e ->
  (let f := min_blob_base_fee c in let d := blob_base_fee_update_fraction c in
   calculate_blob_base_fee e c
   = if series_fits f e d then Ok (partial_sum f e d 256 / d) else Panic) /\
  calculate_blob_base_fee 0 c = Ok (min_blob_base_fee c) /\
  (forall e' v', e <= e' -> uint 64 e' -> calculate_blob_base_fee e' c = Ok v' ->
     exists v, calculate_blob_base_fee e c = Ok v /\ min_blob_base_fee c <= v <= v').
Proof.
  intros Hc He. split; [by apply blob_base_fee_series|].
  split; [by apply zero_excess_fee|]. intros e' v' Hle He'. apply fee_monotone; try done.
  apply He.
Qed.
End fee.

(** * The pool's order *)

Notation Entry := (list Z * BlobTransactionData * Z)%type.
(** Sorted by falling priority. *)
Notation by_priority := (StronglySorted (key_le (fun e : Entry => - priority_fee e))).

Section pool.
Context `{Profile}.

Record blob_pool_ok (p : BlobPool) : Prop := {
  pool_sorted : by_priority (blob_transactions p);
  pool_valid : Forall (fun e => validate_against_config (blob_config p) (entry_data e) = Ok tt)
                 (blob_transactions p);
  pool_bounded : len (blob_transactions p) <= Z.max 1 (max_pool_size p);
}.

(** What [blob_pool_add] leaves of the old transactions. *)
Definition survivors (p : BlobPool) : list Entry :=
  if max_pool_size p <=? len (blob_transactions p)
  then take (length (blob_transactions p) - 1) (blob_transactions p) else blob_transactions p.

Lemma survivors_sublist p : sublist (survivors p) (blob_transactions p).
Proof. unfold survivors. case_bool; [apply sublist_take|done]. Qed.

Lemma blob_pool_add_eq h d fee p :
  blob_pool_add h d fee p
  = match validate_against_config (blob_config p) d with
    | Ok _ => (Ok tt, set_blob_transactions (sort_entries (survivors p ++ [(h, d, fee)])) p)
    | Err e => (Err e, p)
    | Panic => (Panic, p)
    | Diverge => (Diverge, p)
    end.
Proof.
  unfold blob_pool_add, survivors, sbind, sget, slift, smodify, sret.
  destruct (validate_against_config _ _); try done. case_bool; done.
Qed.

Lemma blob_pool_remove_eq h p :
  blob_pool_remove h p
  = match list_find (fun e => entry_hash e = h) (blob_transactions p) with
    | Some (i, e) =>
        (Ok (Some (entry_data e)),
         set_blob_transactions (take i (blob_transactions p) ++ drop (S i) (blob_transactions p)) p)
    | None => (Ok None, p)
    end.
Proof.
  unfold blob_pool_remove, sbind, sget, smodify, sret.
  by destruct (list_find _ _) as [[i e]|].
Qed.

Lemma sublist_pool_ok p l :
  sublist l (blob_transactions p) -> blob_pool_ok p -> blob_pool_ok (set_blob_transactions l p).
Proof.
  intros Hl [Hs Hv Hb]. split; simpl.
  - by apply (sublist_sorted _ _ _ Hl).
  - apply (sublist_Forall _ _ _ Hl Hv).
  - apply sublist_length in Hl. unfold len in *. lia.
Qed.

Lemma survivors_room p : blob_pool_ok p -> len (survivors p) + 1 <= Z.max 1 (max_pool_size p).
Proof.
  intros [_ _ Hb]. unfold survivors, len in *. case_bool; rewrite ?length_take; lia.
Qed.

Lemma blob_pool_add_ok h d fee p : blob_pool_ok p -> blob_pool_ok (blob_pool_add h d fee p).2.
Proof.
  intros Hp. rewrite blob_pool_add_eq.
  destruct (validate_against_config _ _) as [[]| | |] eqn:Hv; try exact Hp. simpl.
  pose proof (sublist_pool_ok p _ (survivors_sublist p) Hp) as [Hs Hf _]. simpl in *.
  pose proof (survivors_room p Hp).
  split; simpl.
  - apply sort_by_key_sorted.
  - unfold sort_entries. rewrite sort_by_key_perm. apply Forall_app. split; [done|]. by constructor.
  - unfold len, sort_entries in *. rewrite sort_by_key_perm, length_app. simpl. lia.
Qed.

Lemma blob_pool_remove_ok h p : blob_pool_ok p -> blob_pool_ok (blob_pool_remove h p).2.
Proof.
  intros Hp. rewrite blob_pool_remove_eq. destruct (list_find _ _) as [[i e]|]; [|done].
  apply sublist_pool_ok; [apply take_drop_sublist|done].
Qed.

(** The pools a caller can build. *)
Inductive blob_reachable : BlobPool -> Prop :=
| blob_reach_new c n : blob_reachable (blob_pool_new c n)
| blob_reach_add h d fee p : blob_reachable p -> blob_reachable (blob_pool_add h d fee p).2
| blob_reach_remove h p : blob_reachable p -> blob_reachable (blob_pool_remove h p).2.

Lemma blob_reachable_ok p : blob_reachable p -> blob_pool_ok p.
Proof.
  induction 1; [|by apply blob_pool_add_ok|by apply blob_pool_remove_ok].
  split; simpl; [constructor|constructor|]. unfold len. simpl. lia.
Qed.

(** In every pool built by [add_transaction] and [remove_transaction] the
    transactions are sorted by falling priority, each passes the validation of
    the fork's parameters, and there are at most [max_pool_size] of them (one,
    if that is zero).  Adding a valid transaction succeeds: when the pool is
    full its last transaction goes first, and the new one lands behind those of
    the same priority and before all of lower priority. *)
Theorem blob_pool_invariant p : blob_reachable p ->
  blob_pool_ok p /\
  forall h d fee, validate_against_config (blob_config p) d = Ok tt ->
    exists l1 l2 p',
      blob_pool_add h d fee p = (Ok tt, p') /\ survivors p = l1 ++ l2 /\
      blob_transactions p' = l1 ++ (h, d, fee) :: l2 /\
      Forall (fun e => fee <= priority_fee e) l1 /\ Forall (fun e => priority_fee e < fee) l2.
Proof.
  intros Hr. apply blob_reachable_ok in Hr as Hp. split; [done|]. intros h d fee Hv.
  pose proof (sublist_pool_ok p _ (survivors_sublist p) Hp) as [Hs _ _].
  destruct (sort_by_key_snoc _ (survivors p) (h, d, fee) Hs) as (l1 & l2 & Hl & Hsort & H1 & H2).
  exists l1, l2. eexists. rewrite blob_pool_add_eq, Hv.
  split_and!; try done; (eapply Forall_impl; [eassumption|]); cbn; lia.
Qed.

(** The blobs of a selection. *)
Definition blobs_of (l : list (list Z * BlobTransactionData)) : Z :=
  foldr (fun e acc => blob_count e.2 + acc) 0 l.

Lemma blobs_of_nonneg l : 0 <= blobs_of l.
Proof. induction l as [|e l IH]; simpl; [lia|]. pose proof (len_nonneg (blob_versioned_hashes e.2)). unfold blob_count. lia. Qed.

Lemma best_loop_greedy fee max_blobs bound l total :
  0 <= total <= max_blobs -> max_blobs + bound < 2 ^ 64 ->
  Forall (fun e : Entry => blob_count (entry_data e) <= bound) l ->
  exists sel, best_loop fee max_blobs total l = Ok sel /\
    sublist sel l.*1 /\ Forall (fun e => fee <= max_fee_per_blob_gas e.2) sel /\
    total + blobs_of sel <= max_blobs /\
    Forall (fun e : Entry => fee <= max_fee_per_blob_gas (entry_data e) ->
      e.1 ∈ sel \/ max_blobs < total + blobs_of sel + blob_count (entry_data e)) l.
Proof.
  intros Ht Hb Hl. revert total Ht.
  induction Hl as [|[[h d] pr] l Hd _ IH]; intros total Ht; cbn [best_loop].
  { exists []. simpl. split_and!; [done|done|constructor|lia|constructor]. }
  cbn [entry_data fst snd] in Hd. assert (0 <= blob_count d) by apply len_nonneg.
  unfold can_afford. destruct (Z.leb_spec fee (max_fee_per_blob_gas d)) as [Ha|Ha]; cbn [negb].
  2: { destruct (IH total Ht) as (sel & -> & ? & ? & ? & Hg). exists sel. split_and!; auto.
       - by apply sublist_cons.
       - constructor; [cbn; lia|done]. }
  unfold uadd. rewrite checked_arith_ok by (unfold uint; lia). cbn [obind].
  destruct (Z.ltb_spec max_blobs (total + blob_count d)) as [Hgt|Hle].
  - destruct (IH total Ht) as (sel & -> & ? & ? & ? & Hg). exists sel. split_and!; auto.
    + by apply sublist_cons.
    + constructor; [|done]. intros _. right. pose proof (blobs_of_nonneg sel).
      cbn [entry_data fst snd]. lia.
  - destruct (IH (total + blob_count d)) as (sel & -> & Hsub & ? & ? & Hg); [lia|].
    cbn [obind]. exists ((h, d) :: sel). cbn [blobs_of foldr snd fst fmap list_fmap].
    fold (blobs_of sel). split_and!; [done| | |lia|].
    + by apply sublist_skip.
    + by constructor.
    + constructor; [left; left|]. eapply Forall_impl; [exact Hg|]. cbn. intros e He Hf.
      destruct (He Hf); [left; by right|right; lia].
Qed.

(** For any fee and blob limit the selection of [get_best_transactions] is
    a subsequence of the pool in priority order, every selected transaction
    pays the fee, the blobs stay within the limit, and the selection is
    maximal: a transaction that pays the fee and is left out would exceed the
    limit.  [bound] is the blob limit of the pool's transactions; nothing
    overflows as long as it can be added to the limit in 64 bits. *)
Theorem best_transactions_greedy p fee max_blobs bound : blob_reachable p ->
  max_blobs_per_block (E := Eip7691Error) (blob_config p) = Ok bound ->
  0 <= max_blobs -> max_blobs + bound < 2 ^ 64 ->
  exists sel, get_best_transactions fee max_blobs p = Ok sel /\
    sublist sel (blob_transactions p).*1 /\
    Forall (fun e => fee <= max_fee_per_blob_gas e.2) sel /\
    blobs_of sel <= max_blobs /\
    Forall (fun e : Entry => fee <= max_fee_per_blob_gas (entry_data e) ->
      e.1 ∈ sel \/ max_blobs < blobs_of sel + blob_count (entry_data e)) (blob_transactions p).
Proof.
  intros Hr Hm H0 Hb. apply blob_reachable_ok in Hr as [_ Hv _].
  apply (best_loop_greedy fee max_blobs bound); [lia|done|].
  eapply Forall_impl; [exact Hv|]. intros e He. unfold validate_against_config in He.
  rewrite Hm in He. cbn [obind] in He.
  destruct (Z.ltb_spec bound (blob_count (entry_data e))); [discriminate|lia].
Qed.

(** The blocks of a chain, oldest first, change the excess one after another. *)
Fixpoint chain_excess (c : BlobGasConfig) (excess : Z) (used : list Z) : Infallible Z :=
  match used with
  | [] => Ok excess
  | u :: rest => let? e := calculate_excess_blob_gas excess u c in chain_excess c e rest
  end.

Lemma excess_step c e u : uint 64 (target_blob_gas_per_block c) -> 0 <= e -> 0 <= u ->
  e + u < 2 ^ 64 ->
  calculate_excess_blob_gas e u c = Ok (Z.max 0 (e + u - target_blob_gas_per_block c)).
Proof.
  intros Ht He Hu Hs. unfold calculate_excess_blob_gas, uadd, usub, uint in *.
  rewrite checked_arith_ok by (unfold uint; lia). cbn [obind]. case_bool; [f_equal; lia|].
  rewrite checked_arith_ok by (unfold uint; lia). f_equal. lia.
Qed.

Lemma chain_excess_bound c e us : uint 64 (target_blob_gas_per_block c) ->
  target_blob_gas_per_block c <= max_blob_gas_per_block c -> 0 <= e ->
  Forall (fun u => 0 <= u <= max_blob_gas_per_block c) us ->
  e + max_blob_gas_per_block c
    + len us * (max_blob_gas_per_block c - target_blob_gas_per_block c) < 2 ^ 64 ->
  exists e', chain_excess c e us = Ok e' /\
    Z.max 0 (e + foldr Z.add 0 us - len us * target_blob_gas_per_block c) <= e' /\
    e' <= e + len us * (max_blob_gas_per_block c - target_blob_gas_per_block c).
Proof.
  intros Ht Hm He Hus. revert e He. induction Hus as [|u us Hu _ IH]; intros e He Hs.
  - exists e. split_and!; [done|simpl; unfold len; simpl; lia|unfold len; simpl; lia].
  - rewrite len_cons in *. pose proof (len_nonneg us). cbn [chain_excess foldr].
    rewrite excess_step by (done || nia). cbn [obind].
    destruct (IH (Z.max 0 (e + u - target_blob_gas_per_block c))) as (e' & -> & Hlo & Hhi);
      [lia|unfold uint in *; nia|].
    exists e'. split_and!; [done|nia|unfold uint in *; nia].
Qed.
End pool.

(** Valid blocks from zero excess: the parameters of the fork, and the fee the
    longest chain considered ends with. *)
Definition valid_usage (u : Z) : Prop :=
  uint 64 u /\ blob_gas_info_validate post_7691 (mkBlobGasInfo u 0) = Ok tt.

Lemma valid_usage_bound u : valid_usage u -> 0 <= u <= MAX_BLOB_GAS_PER_BLOCK.
Proof.
  unfold valid_usage, blob_gas_info_validate, urem, uint. intros [Hu Hv].
  cbn [blob_gas_per_blob max_blob_gas_per_block post_7691 info_blob_gas_used] in Hv.
  change (BLOB_GAS_PER_BLOB =? 0) with false in Hv. cbn [obind] in Hv.
  destruct (negb _) in Hv; [discriminate|].
  destruct (Z.ltb_spec MAX_BLOB_GAS_PER_BLOCK u); [discriminate|lia].
Qed.

Lemma post_7691_ok : config_ok post_7691.
Proof. unfold config_ok, uint. simpl. unfold MIN_BLOB_BASE_FEE, BLOB_BASE_FEE_UPDATE_FRACTION. lia. Qed.

(** Evaluated once, on the concrete arithmetic. *)
Lemma fits_after_1200 : series_fits 1 (1200 * 393216) 3338477 = true.
Proof.
  pose proof (blob_base_fee_series (H := U256_model) post_7691 (1200 * 393216) post_7691_ok
                ltac:(unfold uint; lia)) as Hs.
  cbn [min_blob_base_fee blob_base_fee_update_fraction post_7691] in Hs.
  unfold MIN_BLOB_BASE_FEE, BLOB_BASE_FEE_UPDATE_FRACTION in Hs.
  destruct (series_fits _ _ _); [done|]. exfalso.
  assert (Hp : @calculate_blob_base_fee U256_model (1200 * 393216) post_7691 <> Panic)
    by (vm_compute; discriminate).
  by apply Hp.
Qed.
Lemma fee_after_1200 `{U256Laws} : exists v, calculate_blob_base_fee (1200 * 393216) post_7691 = Ok v.
Proof.
  rewrite blob_base_fee_series by (apply post_7691_ok || (unfold uint; lia)).
  change (min_blob_base_fee post_7691) with 1.
  change (blob_base_fee_update_fraction post_7691) with 3338477.
  rewrite fits_after_1200. by eexists.
Qed.

(** Along a chain of at most 1200 blocks that pass [BlobGasInfo::validate]
    and start without excess, [calculate_excess_blob_gas] and
    [calculate_blob_base_fee] never overflow or panic, in either build profile:
    the excess is at least the surplus of the blobs over the target and at most
    three blobs for every block, and the fee of the next block exists. *)
Theorem chain_fee_defined `{U256Laws} `{Profile} (us : list Z) :
  Forall valid_usage us -> len us <= 1200 ->
  exists e v, chain_excess post_7691 0 us = Ok e /\
    Z.max 0 (foldr Z.add 0 us - len us * TARGET_BLOB_GAS_PER_BLOCK) <= e
      <= len us * (3 * BLOB_GAS_PER_BLOB) /\
    calculate_blob_base_fee e post_7691 = Ok v /\ MIN_BLOB_BASE_FEE <= v.
Proof.
  intros Hus Hn. pose proof (len_nonneg us).
  destruct (chain_excess_bound post_7691 0 us) as (e & He & Hlo & Hhi);
    try (simpl; unfold uint, TARGET_BLOB_GAS_PER_BLOCK, MAX_BLOB_GAS_PER_BLOCK; lia).
  { eapply Forall_impl; [exact Hus|]. apply valid_usage_bound. }
  change (target_blob_gas_per_block post_7691) with 786432 in *.
  change (max_blob_gas_per_block post_7691) with 1179648 in *.
  destruct fee_after_1200 as [v' Hv'].
  destruct (fee_monotone post_7691 e (1200 * 393216) v') as (v & Hv & Hmin & _);
    [apply post_7691_ok|lia|lia|unfold uint; lia|done|].
  exists e, v. unfold TARGET_BLOB_GAS_PER_BLOCK, BLOB_GAS_PER_BLOB. split_and!; try done; lia.
Qed.

(** * Witnesses *)

(** A blob transaction with [n] blobs that pays at most [fee]. *)
Definition sample_blob_tx (n : nat) (fee : Z) : BlobTransactionData :=
  mkBlobTransactionData (replicate n (1 :: replicate 31 0)) fee.

Lemma blob_base_fee_correct_witness :
  (let f := min_blob_base_fee post_7691 in let d := blob_base_fee_update_fraction post_7691 in
   calculate_blob_base_fee 10000000 post_7691
   = if series_fits f 10000000 d then Ok (partial_sum f 10000000 d 256 / d) else Panic) /\
  calculate_blob_base_fee 0 post_7691 = Ok (min_blob_base_fee post_7691) /\
  calculate_blob_base_fee 10000000 post_7691 = Ok 19.
Proof.
  destruct (blob_base_fee_correct post_7691 10000000) as (Hs & H0 & _);
    [apply post_7691_ok|unfold uint; lia|].
  split; [exact Hs|]. split; [exact H0|]. vm_compute. reflexivity.
Defined.

Definition sample_blob_pool `{Profile} : BlobPool :=
  (blob_pool_add [2] (sample_blob_tx 6 50) 7
    (blob_pool_add [1] (sample_blob_tx 4 100) 7 (blob_pool_new post_7691 2)).2).2.

Lemma sample_blob_pool_reachable `{Profile} : blob_reachable sample_blob_pool.
Proof. repeat constructor. Qed.

Lemma blob_pool_invariant_witness :
  let p := @sample_blob_pool dev_profile in
  @blob_pool_ok dev_profile p /\
  map entry_hash (blob_transactions (@blob_pool_add dev_profile [3] (sample_blob_tx 1 9) 8 p).2)
  = [[3]; [1]].
Proof.
  split; [|vm_compute; reflexivity].
  apply (@blob_pool_invariant dev_profile). apply sample_blob_pool_reachable.
Defined.

Lemma best_transactions_greedy_witness :
  exists sel, @get_best_transactions dev_profile 60 9 (@sample_blob_pool dev_profile) = Ok sel /\
    blobs_of sel <= 9.
Proof.
  destruct (@best_transactions_greedy dev_profile (@sample_blob_pool dev_profile) 60 9 9)
    as (sel & Hs & _ & _ & Hb & _);
    [apply sample_blob_pool_reachable|vm_compute; reflexivity|lia|lia|].
  exists sel. auto.
Defined.

Lemma chain_fee_defined_witness :
  exists e v, @chain_excess dev_profile post_7691 0 [1179648; 786432; 0] = Ok e /\
    calculate_blob_base_fee e post_7691 = Ok v.
Proof.
  destruct (@chain_fee_defined _ _ dev_profile [1179648; 786432; 0]) as (e & v & He & _ & Hv & _).
  - do 3 (constructor; [split; [unfold uint; lia|vm_compute; reflexivity]|]). constructor.
  - unfold len. simpl. lia.
  - exists e, v. auto.
Defined.
