(* ===== verification/Eip7002.v ===== *)
(** Execution-layer exits: crates/consensus/src/eip7002.rs.  A
    [WithdrawalRequest] is a fixed-size record of bytes; the
    [WithdrawalRequestContract] collects at most sixteen requests per block and
    prices them by the requests above the target; the
    [WithdrawalRequestQueue] is the same contract as a bounded queue; the
    [ExitQueueManager] schedules validator exits, at most [max_exits_per_epoch]
    of them per epoch.  The theorems are the round trip, the refinement of a
    bounded FIFO queue, and the scheduler's invariant, termination and
    liveness. *)
From stdpp Require Import base list numbers option sorting.
From Stdlib Require Import ZArith Lia Permutation.
From S2P Require Import Prelude U256 Eip7691.

Definition MAX_WITHDRAWAL_REQUESTS_PER_BLOCK : Z := 16.
Definition TARGET_WITHDRAWAL_REQUESTS_PER_BLOCK : Z := 2.
Definition MIN_WITHDRAWAL_REQUEST_FEE : Z := 1.
Definition WITHDRAWAL_REQUEST_FEE_UPDATE_FRACTION : Z := 17.

Inductive Eip7002Error :=
| InvalidPubkey
| InvalidSignature
| InsufficientFee (required provided : Z)
| TooManyRequests
| ValidatorNotFound
| AlreadyExited
| InvalidSourceAddress.

(** * Requests *)

Record WithdrawalRequest := mkWithdrawalRequest {
  source_address : list Z;
  validator_pubkey : list Z;
  amount : Z;
}.

Definition request_encode `{ToBeBytes} (r : WithdrawalRequest) : list Z :=
  source_address r ++ validator_pubkey r ++ u_to_be_bytes32 (amount r).
Definition request_decode `{U256Ops} (data : list Z) : outcome Eip7002Error WithdrawalRequest :=
  if len data <? 100 then Err InvalidPubkey
  else
    let? source := slice data 0 20 in
    let? pubkey := slice data 20 68 in
    let? amount_bytes := slice data 68 100 in
    let? a := unwrap (u_from_big_endian amount_bytes) in
    Ok (mkWithdrawalRequest source pubkey a).
Definition request_hash `{ToBeBytes} `{KeccakOps} (r : WithdrawalRequest) : list Z :=
  keccak256 (request_encode r).

(** [WithdrawalRequestPrecompile] *)
Definition precompile_execute `{ToBeBytes} (input : list Z) (value : Z) :
    outcome Eip7002Error (list Z) :=
  if negb (len input =? 68) then Err InvalidPubkey
  else
    let? source := slice input 0 20 in
    let? pubkey := slice input 20 68 in
    Ok (request_encode (mkWithdrawalRequest source pubkey value)).
Definition precompile_required_gas `{U256Ops} `{Profile} (input : list Z) : Infallible Z :=
  let? n := umul 64 (len input) 10 in unwrap (u_add 10000 n).

(** * The contract *)

Section contract.
Context `{U256Ops} `{Profile}.

(** The file has its own copy of the function of eip7691.rs. *)
Definition withdrawal_fake_exponential (factor numerator denominator : Z) : Infallible Z :=
  fake_exponential factor numerator denominator.
Definition calculate_withdrawal_request_fee (excess_requests : Z) : Infallible Z :=
  withdrawal_fake_exponential MIN_WITHDRAWAL_REQUEST_FEE excess_requests
    WITHDRAWAL_REQUEST_FEE_UPDATE_FRACTION.

Record WithdrawalRequestContract := mkContract {
  c_requests : list WithdrawalRequest;
  excess_requests : Z;
  current_fee : Z;
}.
Definition contract_new : WithdrawalRequestContract := mkContract [] 0 MIN_WITHDRAWAL_REQUEST_FEE.

Definition add_request (r : WithdrawalRequest) (fee_provided : Z) :
    SM WithdrawalRequestContract Eip7002Error unit :=
  let! c := sget in
  if fee_provided <? current_fee c then sfail (InsufficientFee (current_fee c) fee_provided)
  else if MAX_WITHDRAWAL_REQUESTS_PER_BLOCK <=? len (c_requests c) then sfail TooManyRequests
  else sput (mkContract (c_requests c ++ [r]) (excess_requests c) (current_fee c)).

Definition update_excess_requests (count : Z) : SM WithdrawalRequestContract Empty_set unit :=
  let! c := sget in
  let! sum := slift (uadd 64 (excess_requests c) count) in
  if TARGET_WITHDRAWAL_REQUESTS_PER_BLOCK <? sum then
    let! sum := slift (uadd 64 (excess_requests c) count) in
    let! e := slift (usub 64 sum TARGET_WITHDRAWAL_REQUESTS_PER_BLOCK) in
    sput (mkContract (c_requests c) e (current_fee c))
  else sput (mkContract (c_requests c) 0 (current_fee c)).
Definition update_fee : SM WithdrawalRequestContract Empty_set unit :=
  let! c := sget in
  let! fee := slift (calculate_withdrawal_request_fee (excess_requests c)) in
  sput (mkContract (c_requests c) (excess_requests c) fee).
Definition process_requests : SM WithdrawalRequestContract Empty_set (list WithdrawalRequest) :=
  let! c := sget in
  let requests := c_requests c in
  sput (mkContract [] (excess_requests c) (current_fee c)) ;;!
  update_excess_requests (len requests) ;;!
  update_fee ;;!
  sret requests.

(** * The queue *)

Record WithdrawalRequestQueue := mkQueue {
  q_head : Z;
  q_tail : Z;
  q_count : Z;
  q_excess : Z;
  q_requests : list WithdrawalRequest;
}.
Definition queue_new : WithdrawalRequestQueue := mkQueue 0 0 0 0 [].

Definition enqueue (r : WithdrawalRequest) : SM WithdrawalRequestQueue Eip7002Error unit :=
  let! q := sget in
  if MAX_WITHDRAWAL_REQUESTS_PER_BLOCK <=? q_count q then sfail TooManyRequests
  else
    sput (mkQueue (q_head q) (q_tail q) (q_count q) (q_excess q) (q_requests q ++ [r])) ;;!
    let! t := slift (uadd 64 (q_tail q) 1) in
    smodify (fun q => mkQueue (q_head q) t (q_count q) (q_excess q) (q_requests q)) ;;!
    let! n := slift (uadd 64 (q_count q) 1) in
    smodify (fun q => mkQueue (q_head q) (q_tail q) n (q_excess q) (q_requests q)).

Definition dequeue : SM WithdrawalRequestQueue Empty_set (option WithdrawalRequest) :=
  let! q := sget in
  if q_count q =? 0 then sret None
  else
    match q_requests q with
    | [] => slift Panic
    | r :: rest =>
        sput (mkQueue (q_head q) (q_tail q) (q_count q) (q_excess q) rest) ;;!
        let! h := slift (uadd 64 (q_head q) 1) in
        smodify (fun q => mkQueue h (q_tail q) (q_count q) (q_excess q) (q_requests q)) ;;!
        let! n := slift (usub 64 (q_count q) 1) in
        smodify (fun q => mkQueue (q_head q) (q_tail q) n (q_excess q) (q_requests q)) ;;!
        sret (Some r)
    end.

(** [for _ in 0..count { if let Some(request) = self.dequeue() { result.push(request) } }] *)
Fixpoint dequeue_loop (n : nat) (result : list WithdrawalRequest) :
    SM WithdrawalRequestQueue Empty_set (list WithdrawalRequest) :=
  match n with
  | O => sret result
  | S n' =>
      let! o := dequeue in
      dequeue_loop n' (match o with Some r => result ++ [r] | None => result end)
  end.
Definition set_excess (e : Z) (q : WithdrawalRequestQueue) : WithdrawalRequestQueue :=
  mkQueue (q_head q) (q_tail q) (q_count q) e (q_requests q).
Definition dequeue_up_to (max_count : Z) :
    SM WithdrawalRequestQueue Empty_set (list WithdrawalRequest) :=
  let! q := sget in
  let count := Z.min (q_count q) max_count in
  let! result := dequeue_loop (Z.to_nat count) [] in
  let! q := sget in
  (if TARGET_WITHDRAWAL_REQUESTS_PER_BLOCK <? len result then
     let! over := slift (usub 64 (len result) TARGET_WITHDRAWAL_REQUESTS_PER_BLOCK) in
     let! e := slift (uadd 64 (q_excess q) over) in
     smodify (set_excess e)
   else if 0 <? q_excess q then
     let! under := slift (usub 64 TARGET_WITHDRAWAL_REQUESTS_PER_BLOCK (len result)) in
     smodify (set_excess (saturating_sub (q_excess q) under))
   else sret tt) ;;!
  sret result.
Definition get_fee (q : WithdrawalRequestQueue) : Infallible Z :=
  calculate_withdrawal_request_fee (q_excess q).
Definition queue_size (q : WithdrawalRequestQueue) : Z := q_count q.
End contract.

(** * Exits *)

Inductive ExitInitiator := Validator | ExecutionLayer | Protocol.
Record ValidatorExit := mkValidatorExit {
  validator_index : Z;
  exit_pubkey : list Z;
  exit_epoch : Z;
  withdrawable_epoch : Z;
  initiated_by : ExitInitiator;
}.
Record ExitQueueManager := mkExitQueueManager {
  pending_exits : list ValidatorExit;
  processed_exits : list ValidatorExit;
  max_exits_per_epoch : Z;
}.
Definition exit_queue_new (max : Z) : ExitQueueManager := mkExitQueueManager [] [] max.

Section exits.
Context `{Profile}.

Definition exits_in_epoch (e : Z) (l : list ValidatorExit) : Z :=
  len (filter (fun x => exit_epoch x = e) l).
(** The [loop] of [calculate_exit_epoch]. *)
Fixpoint exit_epoch_loop (fuel : nat) (m : ExitQueueManager) (e : Z) : outcome Eip7002Error Z :=
  match fuel with
  | O => Diverge
  | S fuel' =>
      if exits_in_epoch e (pending_exits m) <? max_exits_per_epoch m then Ok e
      else let? e := uadd 64 e 1 in exit_epoch_loop fuel' m e
  end.
Definition calculate_exit_epoch (fuel : nat) (current_epoch : Z) (m : ExitQueueManager) :
    outcome Eip7002Error Z :=
  let? e := uadd 64 current_epoch 4 in exit_epoch_loop fuel m e.

Definition add_exit_request (fuel : nat) (index : Z) (pubkey : list Z) (current_epoch : Z)
    (by_ : ExitInitiator) : SM ExitQueueManager Eip7002Error unit :=
  let! m := sget in
  if existsb (fun e => validator_index e =? index) (pending_exits m) then sfail AlreadyExited
  else
    let! e := slift (calculate_exit_epoch fuel current_epoch m) in
    let! w := slift (uadd 64 e 256) in
    let exit := mkValidatorExit index pubkey e w by_ in
    sput (mkExitQueueManager (sort_by_key exit_epoch (pending_exits m ++ [exit])) (processed_exits m)
            (max_exits_per_epoch m)).

(** [pending_exits.retain(..)], whose closure pushes what it drops. *)
Definition process_epoch (current_epoch : Z) : SM ExitQueueManager Empty_set (list ValidatorExit) :=
  let! m := sget in
  let processed := filter (fun x => exit_epoch x <= current_epoch) (pending_exits m) in
  sput (mkExitQueueManager (filter (fun x => ~ exit_epoch x <= current_epoch) (pending_exits m))
          (processed_exits m ++ processed) (max_exits_per_epoch m)) ;;!
  sret processed.
Definition get_exit_queue_length (m : ExitQueueManager) : Z := len (pending_exits m).
End exits.

(** * Requests round trip *)

Definition wf_request (r : WithdrawalRequest) : Prop :=
  len (source_address r) = 20 /\ len (validator_pubkey r) = 48 /\ U256 (amount r).

Section requests.
Context `{U256Laws} `{ToBeBytesLaws}.

Lemma request_fields (a b c rest : list Z) : len a = 20 -> len b = 48 -> len c = 32 ->
  let data := (a ++ b ++ c) ++ rest in
  slice (E := Eip7002Error) data 0 20 = Ok a /\
  slice (E := Eip7002Error) data 20 68 = Ok b /\ slice (E := Eip7002Error) data 68 100 = Ok c.
Proof using Type.
  intros Ha Hb Hc data. subst data. rewrite <- !(assoc_L (++)). split_and!.
  - pose proof (slice_mid (E := Eip7002Error) [] a (b ++ c ++ rest)) as Hs.
    by rewrite Ha in Hs.
  - pose proof (slice_mid (E := Eip7002Error) a b (c ++ rest)) as Hs. by rewrite Ha, Hb in Hs.
  - pose proof (slice_mid (E := Eip7002Error) (a ++ b) c rest) as Hs.
    rewrite len_app, Ha, Hb, Hc, <- (assoc_L (++)) in Hs. exact Hs.
Qed.

(** A withdrawal request is encoded in exactly 100 bytes, decoding the
    encoding gives the request back whatever follows it, shorter inputs are
    refused, and what the precompile returns for an address and a key decodes
    to the request with the value that was sent. *)
Theorem withdrawal_request_roundtrip r rest : wf_request r ->
  len (request_encode r) = 100 /\
  request_decode (request_encode r ++ rest) = Ok r /\
  (forall d, len d < 100 -> request_decode d = Err InvalidPubkey) /\
  (let? out := precompile_execute (source_address r ++ validator_pubkey r) (amount r) in
   request_decode out) = Ok r.
Proof.
  intros (Ha & Hb & Hv). unfold request_encode.
  rewrite to_be_bytes32_law by done. set (c := to_be 32 (amount r)).
  assert (Hc : len c = 32) by (unfold len, c; by rewrite length_to_be).
  assert (Hfrom : u_from_big_endian c = Some (amount r)).
  { rewrite from_big_endian_law by apply bytes_to_be. rewrite Hc. simpl. unfold c.
    rewrite from_be_to_be, Z.mod_small by exact Hv. done. }
  assert (Hdec : forall rest, request_decode ((source_address r ++ validator_pubkey r ++ c) ++ rest)
                 = Ok r).
  { intros rest'. unfold request_decode.
    destruct (request_fields _ _ c rest' Ha Hb Hc) as (Hs1 & Hs2 & Hs3).
    rewrite Hs1, Hs2, Hs3. rewrite !len_app. rewrite (proj2 (Z.ltb_ge _ _)).
    - simpl. rewrite Hfrom. by destruct r.
    - pose proof (len_nonneg rest'). lia. }
  split_and!.
  - rewrite !len_app. lia.
  - apply Hdec.
  - intros d Hd. unfold request_decode. by rewrite (proj2 (Z.ltb_lt _ _)).
  - unfold precompile_execute. rewrite len_app, Ha, Hb. simpl.
    pose proof (slice_mid (E := Eip7002Error) [] (source_address r) (validator_pubkey r)) as Hs1.
    pose proof (slice_mid (E := Eip7002Error) (source_address r) (validator_pubkey r) []) as Hs2.
    rewrite len_nil, Ha in Hs1. rewrite app_nil_r, Ha, Hb in Hs2.
    change (0 + 20) with 20 in Hs1. change (20 + 48) with 68 in Hs2. cbn [app] in Hs1.
    rewrite Hs1, Hs2. cbn [obind]. unfold request_encode. simpl.
    rewrite to_be_bytes32_law by done. rewrite <- (app_nil_r (_ ++ _)). apply Hdec.
Qed.
End requests.

(** * Exits *)

Section exit_proofs.
Context `{Profile}.

Record exits_ok (m : ExitQueueManager) : Prop := {
  exits_sorted : StronglySorted (key_le exit_epoch) (pending_exits m);
  exits_unique : NoDup (validator_index <$> pending_exits m);
  exits_limited e : exits_in_epoch e (pending_exits m) <= Z.max 0 (max_exits_per_epoch m);
}.

Lemma exits_in_epoch_perm e l k : l ≡ₚ k -> exits_in_epoch e l = exits_in_epoch e k.
Proof using Type. intros Hp. unfold exits_in_epoch, len. by rewrite Hp. Qed.

Lemma exits_in_epoch_sublist e l k : sublist l k -> exits_in_epoch e l <= exits_in_epoch e k.
Proof using Type.
  unfold exits_in_epoch, len. induction 1 as [|x l k _ IH|x l k _ IH]; [done| |];
    rewrite ?filter_cons; destruct (decide _); simpl; lia.
Qed.

Lemma exits_in_epoch_snoc e l x : exits_in_epoch e (l ++ [x]) =
  exits_in_epoch e l + (if bool_decide (exit_epoch x = e) then 1 else 0).
Proof using Type.
  unfold exits_in_epoch. rewrite filter_app, filter_cons, filter_nil, len_app.
  destruct (decide _) as [Hd|Hd].
  - by rewrite bool_decide_true.
  - by rewrite bool_decide_false.
Qed.

Lemma exit_epoch_loop_room fuel m e e' :
  exit_epoch_loop fuel m e = Ok e' -> exits_in_epoch e' (pending_exits m) < max_exits_per_epoch m.
Proof.
  revert e. induction fuel as [|fuel IH]; intros e; simpl; [done|].
  destruct (Z.ltb_spec (exits_in_epoch e (pending_exits m)) (max_exits_per_epoch m)).
  - by intros [= <-].
  - destruct (uadd 64 e 1); simpl; try done. apply IH.
Qed.

(** What [add_exit_request] does when it succeeds. *)
Lemma add_exit_request_inv fuel i pk ep by_ m m' :
  add_exit_request fuel i pk ep by_ m = (Ok tt, m') ->
  exists e w, calculate_exit_epoch fuel ep m = Ok e /\ uadd (E := Eip7002Error) 64 e 256 = Ok w /\
    i ∉ validator_index <$> pending_exits m /\
    m' = mkExitQueueManager
           (sort_by_key exit_epoch (pending_exits m ++ [mkValidatorExit i pk e w by_]))
           (processed_exits m) (max_exits_per_epoch m).
Proof.
  unfold add_exit_request. cbn. destruct (existsb _ _) eqn:Hex; [done|].
  unfold sbind, slift, sput. destruct (calculate_exit_epoch fuel ep m) as [e| | |]; try done.
  destruct (uadd 64 e 256) as [w| | |] eqn:Hw; try done. intros [= <-]. exists e, w. split_and!; try done.
  intros (x & -> & Hx)%list_elem_of_fmap. apply not_true_iff_false in Hex. apply Hex.
  apply existsb_exists. exists x. split; [by apply list_elem_of_In|]. by apply Z.eqb_refl.
Qed.

Lemma add_exit_request_failed fuel i pk ep by_ m r m' :
  add_exit_request fuel i pk ep by_ m = (r, m') -> r <> Ok tt -> m' = m.
Proof.
  unfold add_exit_request. cbn. destruct (existsb _ _); [by intros [= <- <-]|].
  unfold sbind, slift, sput. destruct (calculate_exit_epoch fuel ep m); try by intros [= <- <-].
  destruct (uadd _ _ _); by intros [= <- <-].
Qed.

Lemma add_exit_request_ok fuel i pk ep by_ m :
  exits_ok m -> exits_ok (add_exit_request fuel i pk ep by_ m).2.
Proof.
  intros Hm. destruct (add_exit_request fuel i pk ep by_ m) as [r m'] eqn:Hadd. simpl.
  destruct r as [[]| | |];
    try by rewrite (add_exit_request_failed _ _ _ _ _ _ _ _ Hadd ltac:(discriminate)).
  destruct Hm as [Hs Hu Hl].
  apply add_exit_request_inv in Hadd as (e & w & He & _ & Hi & ->). split; simpl.
  - apply sort_by_key_sorted.
  - rewrite sort_by_key_perm, fmap_app, NoDup_app. simpl. split_and!; [done| |].
    + intros x Hx ->%list_elem_of_singleton. done.
    + apply NoDup_singleton.
  - intros e'. rewrite (exits_in_epoch_perm _ _ _ (sort_by_key_perm _ _)), exits_in_epoch_snoc.
    simpl. case_bool_decide as Heq; [|rewrite Z.add_0_r; auto]. subst e'.
    unfold calculate_exit_epoch in He. destruct (uadd 64 ep 4); try done. simpl in He.
    apply exit_epoch_loop_room in He. lia.
Qed.

Lemma process_epoch_eq ep m : process_epoch ep m =
  (Ok (filter (fun x => exit_epoch x <= ep) (pending_exits m)),
   mkExitQueueManager (filter (fun x => ~ exit_epoch x <= ep) (pending_exits m))
     (processed_exits m ++ filter (fun x => exit_epoch x <= ep) (pending_exits m))
     (max_exits_per_epoch m)).
Proof using Type. done. Qed.

Lemma process_epoch_ok ep m : exits_ok m -> exits_ok (process_epoch ep m).2.
Proof using Type.
  intros [Hs Hu Hl]. rewrite process_epoch_eq. split; simpl.
  - eapply sublist_sorted; [|done]. apply sublist_filter.
  - eapply sublist_NoDup; [exact Hu|]. apply fmap_sublist, sublist_filter.
  - intros e. etrans; [|apply (Hl e)]. apply exits_in_epoch_sublist, sublist_filter.
Qed.

(** The calls a client makes. *)
Inductive ExitOp :=
| OpAdd (fuel : nat) (index : Z) (pubkey : list Z) (current_epoch : Z) (by_ : ExitInitiator)
| OpProcess (current_epoch : Z).
Definition exit_step (m : ExitQueueManager) (o : ExitOp) : ExitQueueManager :=
  match o with
  | OpAdd fuel i pk ep by_ => (add_exit_request fuel i pk ep by_ m).2
  | OpProcess ep => (process_epoch ep m).2
  end.
Definition exit_run (m : ExitQueueManager) (ops : list ExitOp) : ExitQueueManager :=
  foldl exit_step m ops.

Lemma exit_step_ok m o : exits_ok m -> exits_ok (exit_step m o).
Proof. destruct o; simpl; [apply add_exit_request_ok|apply process_epoch_ok]. Qed.
Lemma exit_run_ok ops m : exits_ok m -> exits_ok (exit_run m ops).
Proof. revert m. induction ops as [|o ops IH]; intros m Hm; [done|]. by apply IH, exit_step_ok. Qed.
Lemma exit_new_ok max : exits_ok (exit_queue_new max).
Proof using Type.
  split; simpl; [constructor|apply NoDup_nil_2|]. intros e. unfold exits_in_epoch, len. simpl. lia.
Qed.

(** The exits at epoch [e] or later: they bound the search. *)
Definition from_epoch (e : Z) (l : list ValidatorExit) : nat :=
  length (filter (fun x => e <= exit_epoch x) l).
Lemma from_epoch_split e l :
  Z.of_nat (from_epoch e l) = exits_in_epoch e l + Z.of_nat (from_epoch (e + 1) l).
Proof using Type.
  unfold from_epoch, exits_in_epoch, len. induction l as [|x l IH]; [done|].
  rewrite !filter_cons. repeat destruct (decide _); simpl; lia.
Qed.
Lemma from_epoch_le e l : (from_epoch e l <= length l)%nat.
Proof using Type. apply length_filter. Qed.

(** With room for one exit per epoch the search ends at the earliest epoch that
    is not full. *)
Lemma exit_epoch_loop_finds m fuel e :
  1 <= max_exits_per_epoch m -> 0 <= e -> (from_epoch e (pending_exits m) < fuel)%nat ->
  e + Z.of_nat (from_epoch e (pending_exits m)) < 2 ^ 64 ->
  exists e', exit_epoch_loop fuel m e = Ok e' /\
    e <= e' <= e + Z.of_nat (from_epoch e (pending_exits m)) /\
    forall x, e <= x < e' -> max_exits_per_epoch m <= exits_in_epoch x (pending_exits m).
Proof.
  intros Hmax. revert e. induction fuel as [|fuel IH]; intros e He Hf Hb; [lia|].
  cbn [exit_epoch_loop]. pose proof (from_epoch_split e (pending_exits m)) as Hs.
  destruct (Z.ltb_spec (exits_in_epoch e (pending_exits m)) (max_exits_per_epoch m)) as [Hlt|Hge].
  - exists e. split_and!; [done|lia|lia|lia].
  - unfold uadd. rewrite checked_arith_ok by (unfold uint; lia). cbn [obind].
    destruct (IH (e + 1)) as (e' & -> & [? ?] & Hfull); [lia..|].
    exists e'. split_and!; [done|lia|lia|]. intros x Hx.
    destruct (decide (x = e)) as [->|]; [done|]. apply Hfull. lia.
Qed.

(** Whatever sequence of requests and epochs a manager has seen, its
    pending exits are sorted by epoch, no validator has two, and no epoch has
    more than [max_exits_per_epoch].  A request for a validator without a
    pending exit succeeds as long as epochs stay within 64 bits: the search for
    an epoch ends after at most one step per pending exit, at the earliest epoch
    that is four ahead and not full, and all other exits stay as they were. *)
Theorem exit_scheduling max ops fuel i pk ep by_ :
  let m := exit_run (exit_queue_new max) ops in
  exits_ok m /\
  (1 <= max_exits_per_epoch m -> i ∉ validator_index <$> pending_exits m ->
   (length (pending_exits m) < fuel)%nat ->
   0 <= ep -> ep + 260 + len (pending_exits m) < 2 ^ 64 ->
   exists e m', add_exit_request fuel i pk ep by_ m = (Ok tt, m') /\
     ep + 4 <= e <= ep + 4 + len (pending_exits m) /\
     (forall x, ep + 4 <= x < e -> exits_in_epoch x (pending_exits m) = max_exits_per_epoch m) /\
     pending_exits m' ≡ₚ mkValidatorExit i pk e (e + 256) by_ :: pending_exits m /\
     processed_exits m' = processed_exits m).
Proof.
  intros m. assert (Hm : exits_ok m) by apply exit_run_ok, exit_new_ok. split; [done|].
  intros Hmax Hi Hfuel Hep Hb. pose proof (from_epoch_le (ep + 4) (pending_exits m)).
  pose proof (len_nonneg (pending_exits m)). unfold len in Hb.
  destruct (exit_epoch_loop_finds m fuel (ep + 4)) as (e & Hloop & He & Hfull); [lia..|].
  assert (Hcalc : calculate_exit_epoch fuel ep m = Ok e).
  { unfold calculate_exit_epoch, uadd. by rewrite checked_arith_ok by (unfold uint; lia). }
  assert (Hw : uadd (E := Eip7002Error) 64 e 256 = Ok (e + 256)).
  { unfold uadd. by rewrite checked_arith_ok by (unfold uint; lia). }
  eexists e, _. split_and!.
  - unfold add_exit_request, sbind, sget, slift, sput.
    destruct (existsb _ _) eqn:Hex.
    { exfalso. apply Hi. apply existsb_exists in Hex as (x & Hx & Heq%Z.eqb_eq). subst i.
      apply list_elem_of_fmap_2. by apply list_elem_of_In. }
    by rewrite Hcalc, Hw.
  - lia.
  - unfold len. lia.
  - intros x Hx. pose proof (exits_limited m Hm x). specialize (Hfull x Hx). lia.
  - simpl. rewrite sort_by_key_perm. symmetry. apply Permutation_cons_append.
  - done.
Qed.

Lemma exit_step_kept m o x : x ∈ pending_exits m ->
  x ∈ pending_exits (exit_step m o) \/ x ∈ processed_exits (exit_step m o).
Proof.
  intros Hx. destruct o as [fuel i pk ep by_|ep]; simpl.
  - left. destruct (add_exit_request fuel i pk ep by_ m) as [[[]| | |] m'] eqn:Hadd; simpl;
      try by rewrite (add_exit_request_failed _ _ _ _ _ _ _ _ Hadd ltac:(discriminate)).
    apply add_exit_request_inv in Hadd as (e & w & _ & _ & _ & ->). simpl.
    rewrite sort_by_key_perm. apply elem_of_app. by left.
  - destruct (decide (exit_epoch x <= ep)); [right|left].
    + apply elem_of_app. right. by apply list_elem_of_filter.
    + by apply list_elem_of_filter.
Qed.
Lemma exit_step_processed m o x : x ∈ processed_exits m -> x ∈ processed_exits (exit_step m o).
Proof.
  intros Hx. destruct o as [fuel i pk ep by_|ep]; simpl.
  - destruct (add_exit_request fuel i pk ep by_ m) as [[[]| | |] m'] eqn:Hadd; simpl;
      try by rewrite (add_exit_request_failed _ _ _ _ _ _ _ _ Hadd ltac:(discriminate)).
    by apply add_exit_request_inv in Hadd as (e & w & _ & _ & _ & ->).
  - apply elem_of_app. by left.
Qed.
Lemma exit_run_processed ops m x : x ∈ processed_exits m -> x ∈ processed_exits (exit_run m ops).
Proof.
  revert m. induction ops as [|o ops IH]; intros m Hx; [done|]. by apply IH, exit_step_processed.
Qed.

Lemma sorted_epoch_split ep l : StronglySorted (key_le exit_epoch) l ->
  l = filter (fun x => exit_epoch x <= ep) l ++ filter (fun x => ~ exit_epoch x <= ep) l.
Proof using Type.
  induction 1 as [|y l _ IH Hy]; [done|]. rewrite !filter_cons.
  destruct (decide (exit_epoch y <= ep)) as [Hle|Hgt].
  - rewrite decide_False by tauto. simpl. by rewrite <- IH.
  - rewrite decide_True by done.
    assert (Hnil : filter (fun x => exit_epoch x <= ep) l = []).
    { apply elem_of_nil_inv. intros z [Hz Hl]%list_elem_of_filter. rewrite Forall_forall in Hy.
      specialize (Hy z Hl). unfold key_le in Hy. lia. }
    rewrite Hnil in IH |- *. simpl in *. by rewrite <- IH.
Qed.

(** No exit is lost and none waits past its epoch: processing an epoch
    returns exactly the pending exits whose epoch has come, which are the front
    of the queue, and moves them to the processed ones; and a pending exit is
    processed in every later run that processes its epoch or a later one,
    whatever other requests and epochs come before and after. *)
Theorem every_exit_is_processed max ops x ops' ep :
  let m := exit_run (exit_queue_new max) ops in
  (exists out m', process_epoch ep m = (Ok out, m') /\
     pending_exits m = out ++ pending_exits m' /\ processed_exits m' = processed_exits m ++ out /\
     Forall (fun y => exit_epoch y <= ep) out /\
     Forall (fun y => ep < exit_epoch y) (pending_exits m')) /\
  (x ∈ pending_exits m -> OpProcess ep ∈ ops' -> exit_epoch x <= ep ->
   x ∈ processed_exits (exit_run m ops')).
Proof.
  intros m. assert (Hm : exits_ok m) by apply exit_run_ok, exit_new_ok. split.
  - eexists _, _. split; [apply process_epoch_eq|]. simpl. split_and!; [|done|..].
    + apply sorted_epoch_split, Hm.
    + apply Forall_forall. by intros y [? _]%list_elem_of_filter.
    + apply Forall_forall. intros y [? _]%list_elem_of_filter. lia.
  - clearbody m. clear Hm ops. revert m. induction ops' as [|o ops IH]; intros m Hx Hin Hle.
    { by apply not_elem_of_nil in Hin. }
    apply elem_of_cons in Hin as [<-|Hin]; simpl.
    + apply exit_run_processed. simpl. apply elem_of_app. right. by apply list_elem_of_filter.
    + destruct (exit_step_kept m o x Hx); [by apply IH|by apply exit_run_processed].
Qed.
End exit_proofs.

(** * The queue is a bounded FIFO queue *)

Section queue_proofs.
Context `{U256Ops} `{Profile}.

Record queue_ok (q : WithdrawalRequestQueue) : Prop := {
  q_count_ok : q_count q = len (q_requests q);
  q_tail_ok : q_head q + q_count q = q_tail q;
  q_bounded : len (q_requests q) <= MAX_WITHDRAWAL_REQUESTS_PER_BLOCK;
  q_head_ok : 0 <= q_head q;
  q_excess_ok : 0 <= q_excess q;
  q_fits : q_tail q < 2 ^ 64 /\ q_excess q + MAX_WITHDRAWAL_REQUESTS_PER_BLOCK < 2 ^ 64;
}.

(** The excess after [n] requests of a block. *)
Definition next_excess (e n : Z) : Z := Z.max 0 (e + n - TARGET_WITHDRAWAL_REQUESTS_PER_BLOCK).

Lemma dequeue_cons h t n e r l :
  n = 1 + len l -> 0 <= h -> h + 1 < 2 ^ 64 -> n < 2 ^ 64 ->
  dequeue (mkQueue h t n e (r :: l)) = (Ok (Some r), mkQueue (h + 1) t (n - 1) e l).
Proof using Type.
  intros -> Hh Hh' Hn. pose proof (len_nonneg l). unfold dequeue. cbn.
  rewrite (proj2 (Z.eqb_neq _ _)) by lia. unfold sbind, sput, smodify, slift, uadd, usub.
  cbn [q_requests q_count q_head q_tail q_excess].
  rewrite checked_arith_ok by (unfold uint; lia). rewrite checked_arith_ok by (unfold uint; lia).
  done.
Qed.

Lemma dequeue_loop_takes l1 l2 h t n e acc :
  n = len (l1 ++ l2) -> 0 <= h -> h + n < 2 ^ 64 -> n < 2 ^ 64 ->
  dequeue_loop (length l1) acc (mkQueue h t n e (l1 ++ l2))
  = (Ok (acc ++ l1), mkQueue (h + len l1) t (n - len l1) e l2).
Proof using Type.
  revert h n acc. induction l1 as [|r l1 IH]; intros h n acc Hn Hh Hf Hn'.
  - cbn. rewrite app_nil_r, len_nil, Z.add_0_r, Z.sub_0_r. done.
  - cbn [length dequeue_loop app]. cbn [app] in Hn. rewrite len_cons in Hn.
    pose proof (len_nonneg (l1 ++ l2)).
    erewrite sbind_ok by (apply dequeue_cons; [exact Hn|lia..]).
    rewrite IH by lia. rewrite <- (assoc_L (++)), len_cons. cbn [app].
    do 2 f_equal; lia.
Qed.

Lemma dequeue_up_to_takes n q : queue_ok q -> 0 <= n ->
  let k := Z.to_nat n in
  exists q', dequeue_up_to n q = (Ok (take k (q_requests q)), q') /\
    q_requests q' = drop k (q_requests q) /\
    q_excess q' = next_excess (q_excess q) (len (take k (q_requests q))) /\
    q_count q' = len (q_requests q') /\ q_head q' + q_count q' = q_tail q' /\
    q_head q <= q_head q' /\ q_tail q' = q_tail q.
Proof using Type.
  intros [Hc Ht Hb Hh He [Hf Hf']] Hn k. destruct q as [h t c e l]. cbn [q_head q_tail q_count q_excess q_requests] in *.
  unfold dequeue_up_to, MAX_WITHDRAWAL_REQUESTS_PER_BLOCK in *.
  erewrite sbind_ok by done. cbn [q_count].
  set (l1 := take k l). set (l2 := drop k l).
  assert (Hl : l = l1 ++ l2) by (symmetry; apply take_drop).
  assert (Hlen : Z.to_nat (Z.min c n) = length l1).
  { unfold l1, k. rewrite length_take. unfold len in Hc. lia. }
  assert (Hle : len l1 <= len l) by (rewrite Hl, len_app; pose proof (len_nonneg l2); lia).
  rewrite Hlen, Hl. pose proof (len_nonneg l1). pose proof (len_nonneg l2).
  assert (len l = len l1 + len l2) by (by rewrite Hl, len_app).
  erewrite sbind_ok by (apply dequeue_loop_takes; [by rewrite <- Hl|lia..]).
  cbn [app]. erewrite sbind_ok by done. cbn [q_excess].
  unfold TARGET_WITHDRAWAL_REQUESTS_PER_BLOCK, next_excess, sbind, slift, smodify, sret, usub, uadd.
  unfold TARGET_WITHDRAWAL_REQUESTS_PER_BLOCK in *.
  destruct (Z.ltb_spec 2 (len l1)).
  - rewrite checked_arith_ok by (unfold uint; lia). rewrite checked_arith_ok by (unfold uint; lia).
    eexists. split; [reflexivity|]. cbn. split_and!; try done; lia.
  - destruct (Z.ltb_spec 0 e).
    + rewrite checked_arith_ok by (unfold uint; lia).
      eexists. split; [reflexivity|]. cbn. unfold saturating_sub. split_and!; try done; lia.
    + eexists. split; [reflexivity|]. cbn. split_and!; try done; lia.
Qed.

Lemma enqueue_appends r q : queue_ok q -> q_tail q + 1 < 2 ^ 64 ->
  enqueue r q = if len (q_requests q) <? MAX_WITHDRAWAL_REQUESTS_PER_BLOCK
    then (Ok tt, mkQueue (q_head q) (q_tail q + 1) (q_count q + 1) (q_excess q)
                   (q_requests q ++ [r]))
    else (Err TooManyRequests, q).
Proof using Type.
  intros [Hc Ht Hb Hh He [Hf Hf']] Hfit. unfold enqueue, sbind, sget, slift, sput, smodify, sfail.
  pose proof (len_nonneg (q_requests q)). rewrite Hc in *.
  unfold MAX_WITHDRAWAL_REQUESTS_PER_BLOCK in *. rewrite Z.leb_antisym.
  destruct (Z.ltb_spec (len (q_requests q)) 16); cbn [negb]; [|done]. unfold uadd.
  rewrite checked_arith_ok by (unfold uint; lia). rewrite checked_arith_ok by (unfold uint; lia).
  done.
Qed.

(** The queue of eip7002.rs refines a FIFO queue of at most sixteen
    requests: [enqueue] appends a request or refuses it when sixteen are
    waiting, [dequeue_up_to n] returns the first [n] and leaves the rest, the
    counters stay consistent, and the excess becomes
    [max 0 (excess + returned - target)], as long as the counters fit in 64
    bits. *)
Theorem withdrawal_queue_refines_fifo q r n : queue_ok q -> q_tail q + 1 < 2 ^ 64 -> 0 <= n ->
  (if len (q_requests q) <? MAX_WITHDRAWAL_REQUESTS_PER_BLOCK
   then exists q', enqueue r q = (Ok tt, q') /\ q_requests q' = q_requests q ++ [r] /\
          q_excess q' = q_excess q /\ queue_ok q'
   else enqueue r q = (Err TooManyRequests, q)) /\
  (exists q', dequeue_up_to n q = (Ok (take (Z.to_nat n) (q_requests q)), q') /\
     q_requests q' = drop (Z.to_nat n) (q_requests q) /\
     q_excess q' = next_excess (q_excess q) (len (take (Z.to_nat n) (q_requests q))) /\
     (q_excess q' + MAX_WITHDRAWAL_REQUESTS_PER_BLOCK < 2 ^ 64 -> queue_ok q')).
Proof.
  intros Hq Hfit Hn. split.
  - rewrite enqueue_appends by done. pose proof (len_nonneg (q_requests q)).
    destruct (Z.ltb_spec (len (q_requests q)) MAX_WITHDRAWAL_REQUESTS_PER_BLOCK) as [Hlt|]; [|done].
    eexists. split; [reflexivity|]. simpl. destruct Hq as [Hc Ht Hb Hh He [Hf Hf']].
    split_and!; [done..|]. split; simpl; rewrite ?len_snoc; lia.
  - destruct (dequeue_up_to_takes n q Hq Hn) as (q' & Hd & Hr & Hx & Hc & Ht & Hh & Htail).
    exists q'. split_and!; [done..|]. intros Hfx. destruct Hq as [? ? Hb ? ? [? ?]].
    split; try lia.
    rewrite Hx. unfold next_excess. lia.
Qed.

(** The two implementations of the request contract agree.  A
    [WithdrawalRequestContract] and a [WithdrawalRequestQueue] with the same
    requests and excess, drained for a block, return the same requests in the
    same order, leave none and the same excess, and charge the same fee for the
    next request. *)
Theorem contract_and_queue_agree c q fee : queue_ok q ->
  c_requests c = q_requests q -> excess_requests c = q_excess q ->
  calculate_withdrawal_request_fee (next_excess (q_excess q) (len (q_requests q))) = Ok fee ->
  exists c' q', process_requests c = (Ok (q_requests q), c') /\
    dequeue_up_to MAX_WITHDRAWAL_REQUESTS_PER_BLOCK q = (Ok (q_requests q), q') /\
    c_requests c' = [] /\ q_requests q' = [] /\
    excess_requests c' = q_excess q' /\ current_fee c' = fee /\ get_fee q' = Ok fee.
Proof.
  intros Hq Hr He Hfee.
  destruct (dequeue_up_to_takes MAX_WITHDRAWAL_REQUESTS_PER_BLOCK q Hq) as (q' & Hd & Hr' & Hx & _);
    [unfold MAX_WITHDRAWAL_REQUESTS_PER_BLOCK; lia|].
  destruct Hq as [Hc Ht Hb Hh He' [Hf Hf']]. pose proof (len_nonneg (q_requests q)).
  rewrite take_ge in Hd, Hx by (unfold len in *; lia). rewrite drop_ge in Hr' by (unfold len in *; lia).
  exists (mkContract [] (next_excess (q_excess q) (len (q_requests q))) fee), q'.
  split_and!; [|exact Hd|reflexivity|exact Hr'|by symmetry|reflexivity|unfold get_fee; by rewrite Hx].
  unfold process_requests, update_excess_requests, update_fee, sbind, sget, sput, slift, sret.
  cbn [c_requests excess_requests current_fee]. rewrite Hr, He.
  unfold next_excess, TARGET_WITHDRAWAL_REQUESTS_PER_BLOCK, MAX_WITHDRAWAL_REQUESTS_PER_BLOCK, uadd, usub in *.
  rewrite checked_arith_ok by (unfold uint; lia).
  destruct (Z.ltb_spec 2 (q_excess q + len (q_requests q))).
  - rewrite checked_arith_ok by (unfold uint; lia). cbn [excess_requests c_requests].
    replace (Z.max 0 (q_excess q + len (q_requests q) - 2))
      with (q_excess q + len (q_requests q) - 2) in * by lia. by rewrite Hfee.
  - cbn [excess_requests c_requests].
    replace (Z.max 0 (q_excess q + len (q_requests q) - 2)) with 0 in * by lia. by rewrite Hfee.
Qed.
End queue_proofs.

(** * No room, no end *)

(** With [max_exits_per_epoch] zero every epoch is full: where overflow wraps
    the search for an epoch never ends, however long it runs. *)
Theorem exit_search_diverges m fuel ep : max_exits_per_epoch m <= 0 ->
  @calculate_exit_epoch release_profile fuel ep m = Diverge.
Proof.
  intros Hm. unfold calculate_exit_epoch, uadd.
  assert (Hok : forall x, exists y, @checked_arith release_profile Eip7002Error 64 x = Ok y).
  { intros x. unfold checked_arith. destruct (_ && _); eauto. }
  assert (Hl : forall e, @exit_epoch_loop release_profile fuel m e = Diverge).
  { induction fuel as [|fuel IH]; intros e; [done|]. cbn [exit_epoch_loop].
    rewrite (proj2 (Z.ltb_ge _ _)).
    - unfold uadd. destruct (Hok (e + 1)) as [y ->]. apply IH.
    - unfold exits_in_epoch. pose proof (len_nonneg (filter (fun x => exit_epoch x = e)
        (pending_exits m))). lia. }
  destruct (Hok (ep + 4)) as [y ->]. apply Hl.
Qed.

(** * Witnesses *)

Definition sample_request (b : Z) : WithdrawalRequest :=
  mkWithdrawalRequest (replicate 20 b) (replicate 48 b) (b * 1000).

Lemma withdrawal_request_roundtrip_witness :
  request_decode (request_encode (sample_request 7) ++ [1; 2]) = Ok (sample_request 7).
Proof.
  destruct (withdrawal_request_roundtrip (sample_request 7) [1; 2]) as (_ & Hd & _); [|exact Hd].
  split; [reflexivity|]. split; [reflexivity|]. unfold uint. simpl. lia.
Defined.

Lemma exit_scheduling_witness :
  let m := @exit_run dev_profile (exit_queue_new 1)
             [OpAdd 9 1 [] 100 Validator; OpAdd 9 2 [] 100 Protocol] in
  exists e m', @add_exit_request dev_profile 3 3 [] 100 ExecutionLayer m = (Ok tt, m') /\
    104 <= e <= 106 /\
    pending_exits m' ≡ₚ mkValidatorExit 3 [] e (e + 256) ExecutionLayer :: pending_exits m.
Proof.
  destruct (@exit_scheduling dev_profile 1
              [OpAdd 9 1 [] 100 Validator; OpAdd 9 2 [] 100 Protocol] 3 3 [] 100 ExecutionLayer)
    as [_ Hs].
  destruct Hs as (e & m' & Hadd & He & _ & Hp & _).
  - vm_compute. discriminate.
  - change (~ 3 ∈ [1; 2]). rewrite list_elem_of_In. simpl. lia.
  - vm_compute. lia.
  - lia.
  - vm_compute. reflexivity.
  - exists e, m'. split; [exact Hadd|]. split; [exact He|exact Hp].
Defined.

Lemma every_exit_is_processed_witness :
  let x := mkValidatorExit 1 [] 104 360 Validator in
  x ∈ processed_exits
        (@exit_run dev_profile (@exit_run dev_profile (exit_queue_new 1) [OpAdd 9 1 [] 100 Validator])
           [OpAdd 9 2 [] 103 Protocol; OpProcess 110]).
Proof.
  apply (@every_exit_is_processed dev_profile 1 [OpAdd 9 1 [] 100 Validator] _ _ 110).
  - vm_compute. constructor.
  - right. constructor.
  - simpl. lia.
Defined.

Lemma sample_queue_ok : queue_ok (mkQueue 5 8 3 4 [sample_request 1; sample_request 2; sample_request 3]).
Proof. split; simpl; unfold MAX_WITHDRAWAL_REQUESTS_PER_BLOCK; unfold len; simpl; lia. Qed.

Lemma withdrawal_queue_refines_fifo_witness :
  let q := mkQueue 5 8 3 4 [sample_request 1; sample_request 2; sample_request 3] in
  exists q', @dequeue_up_to dev_profile 2 q = (Ok [sample_request 1; sample_request 2], q') /\
    q_requests q' = [sample_request 3] /\ q_excess q' = 4.
Proof.
  destruct (@withdrawal_queue_refines_fifo dev_profile _ (sample_request 9) 2 sample_queue_ok)
    as [_ (q' & Hd & Hr & Hx & _)]; [simpl; lia|lia|].
  exists q'. split; [exact Hd|]. split; [exact Hr|]. rewrite Hx. reflexivity.
Defined.

Lemma contract_and_queue_agree_witness :
  let q := mkQueue 5 8 3 4 [sample_request 1; sample_request 2; sample_request 3] in
  exists c' q', @process_requests _ dev_profile (mkContract (q_requests q) 4 1)
      = (Ok (q_requests q), c') /\
    @dequeue_up_to dev_profile MAX_WITHDRAWAL_REQUESTS_PER_BLOCK q = (Ok (q_requests q), q') /\
    current_fee c' = 1 /\ get_fee q' = Ok 1.
Proof.
  destruct (@contract_and_queue_agree _ dev_profile (mkContract
      [sample_request 1; sample_request 2; sample_request 3] 4 1) _ 1 sample_queue_ok)
    as (c' & q' & Hp & Hd & _ & _ & _ & Hc & Hf);
    [reflexivity|reflexivity|vm_compute; reflexivity|].
  exists c', q'. auto.
Defined.
