(* ===== verification/Crypto.v ===== *)
(** Signatures and addresses: crates/crypto/src/secp256k1_crypto.rs, over the
    secp256k1 crate as a parameter.  A key is an opaque byte string, a public
    key its 65-byte uncompressed form. *)
From stdpp Require Import base list numbers option.
From Stdlib Require Import ZArith Lia.
From S2P Require Import Prelude U256 Precompiled.

(** [sign_ecdsa_recoverable] with [serialize_compact]: the recovery id and the
    64 bytes; [PublicKey::from_secret_key] with [serialize_uncompressed]. *)
Class SignOps := {
  secp_sign : list Z -> list Z -> Z * list Z;
  secp_public_key : list Z -> list Z;
}.
(** Signing gives a recovery id below four and 64 bytes, keys serialise in 65
    bytes, and recovery from a signature finds the key that made it. *)
Class SignLaws `{CryptoOps} `{SignOps} : Prop := {
  sign_recovery_id m k : 0 <= (secp_sign m k).1 < 4;
  sign_bytes m k : bytes (secp_sign m k).2 /\ len (secp_sign m k).2 = 64;
  public_key_bytes k : bytes (secp_public_key k) /\ len (secp_public_key k) = 65;
  recover_sign m k :
    secp_recover m (secp_sign m k).1 (secp_sign m k).2 = Some (secp_public_key k);
}.

Inductive CryptoError := CInvalidSignature | CInvalidPublicKey | CInvalidPrivateKey | CSecp256k1.

Record Signature := mkSignature { sig_r : list Z; sig_s : list Z; sig_v : Z }.

Definition sig_to_bytes (s : Signature) : list Z := sig_r s ++ sig_s s ++ [sig_v s].
Definition sig_from_bytes (b : list Z) : outcome CryptoError Signature :=
  if negb (len b =? 65) then Err CInvalidSignature
  else
    let? r := slice b 0 32 in
    let? s := slice b 32 64 in
    let? v := index b 64 in
    Ok (mkSignature r s v).

Section crypto.
Context `{KeccakOps} `{CryptoOps} `{SignOps} `{Profile}.

Definition sign_message (message private_key : list Z) : outcome CryptoError Signature :=
  let '(recovery_id, sig_bytes) := secp_sign message private_key in
  let? r := slice sig_bytes 0 32 in
  let? s := slice sig_bytes 32 64 in
  let? v := uadd 8 (wrap 8 recovery_id) 27 in
  Ok (mkSignature r s v).

(** [RecoveryId::from_i32] accepts 0 to 3. *)
Definition recover_public_key (message : list Z) (sg : Signature) : outcome CryptoError (list Z) :=
  let? recovery_id := usub 8 (sig_v sg) 27 in
  if negb (recovery_id <=? 3) then Err CInvalidSignature
  else
    match secp_recover message recovery_id (sig_r sg ++ sig_s sg) with
    | Some key => Ok key
    | None => Err CSecp256k1
    end.

(** [Address::from_slice(..).expect(..)] *)
Definition public_key_to_address {E} (public_key : list Z) : outcome E (list Z) :=
  let? key := slice public_key 1 (len public_key) in
  let? a := slice (keccak256 key) 12 32 in
  if len a =? 20 then Ok a else Panic.
Definition recover_address (message : list Z) (sg : Signature) : outcome CryptoError (list Z) :=
  let? public_key := recover_public_key message sg in
  public_key_to_address public_key.
End crypto.

(** * Concrete instances *)

#[export] Instance sign_model : SignOps := {|
  secp_sign m k := (0, to_be 64 (from_be k));
  secp_public_key k := 4 :: to_be 64 (from_be k)
|}.
#[export] Instance sign_model_laws : SignLaws.
Proof.
  split; cbn [secp_sign secp_public_key sign_model fst snd].
  - lia.
  - intros m k. split; [apply bytes_to_be|unfold len; by rewrite length_to_be].
  - intros k. split; [constructor; [unfold byte; lia|apply bytes_to_be]|].
    rewrite len_cons. unfold len. by rewrite length_to_be.
  - reflexivity.
Qed.

(** * Signing and recovering *)

Section crypto_proofs.
Context `{KeccakLaws} `{SignLaws} `{Profile}.

Lemma split_64 {E} (b : list Z) : len b = 64 ->
  slice (E := E) b 0 32 = Ok (take 32 b) /\ slice (E := E) b 32 64 = Ok (drop 32 b).
Proof using Type.
  intros Hb. unfold slice. rewrite Hb. simpl. split; [done|].
  do 2 f_equal. apply take_ge. rewrite length_drop. unfold len in Hb. lia.
Qed.

Lemma sign_message_ok m k : exists v, sign_message m k
  = Ok (mkSignature (take 32 (secp_sign m k).2) (drop 32 (secp_sign m k).2) v) /\
    v = (secp_sign m k).1 + 27.
Proof.
  unfold sign_message. pose proof (sign_recovery_id m k). pose proof (sign_bytes m k) as [_ Hl].
  destruct (secp_sign m k) as [id b]. simpl in *.
  destruct (split_64 (E := CryptoError) b Hl) as [-> ->]. simpl.
  unfold wrap, uadd. rewrite Z.mod_small by lia. rewrite checked_arith_ok by (unfold uint; lia).
  simpl. eauto.
Qed.

Lemma recover_sig m k v : v = (secp_sign m k).1 + 27 ->
  recover_public_key m (mkSignature (take 32 (secp_sign m k).2) (drop 32 (secp_sign m k).2) v)
  = Ok (secp_public_key k).
Proof.
  intros ->. unfold recover_public_key. simpl. pose proof (sign_recovery_id m k).
  unfold usub. replace ((secp_sign m k).1 + 27 - 27) with (secp_sign m k).1 by lia.
  rewrite checked_arith_ok by (unfold uint; lia). simpl.
  rewrite (proj2 (Z.leb_le _ _)) by lia. simpl. by rewrite take_drop, recover_sign.
Qed.

Lemma address_of_key {E} k : exists a,
  public_key_to_address (E := E) (secp_public_key k) = Ok a /\ bytes a /\ len a = 20.
Proof.
  pose proof (public_key_bytes k) as [_ Hl]. unfold public_key_to_address, slice.
  rewrite Hl. simpl. set (key := take _ _).
  pose proof (keccak_length key) as Hk. pose proof (keccak_bytes key).
  unfold keccak256, len in *. rewrite Hk. simpl.
  rewrite length_take, length_drop, Hk. simpl. eexists. split; [done|].
  split; [by auto with rust|]. rewrite length_take, length_drop, Hk. done.
Qed.

Lemma sig_bytes_roundtrip sg : len (sig_r sg) = 32 -> len (sig_s sg) = 32 ->
  sig_from_bytes (sig_to_bytes sg) = Ok sg.
Proof using Type.
  destruct sg as [r t v]. simpl. intros Hr Hs. unfold sig_from_bytes, sig_to_bytes. simpl.
  rewrite !len_app, Hr, Hs. simpl.
  pose proof (slice_mid (E := CryptoError) [] r (t ++ [v])) as S1.
  pose proof (slice_mid (E := CryptoError) r t [v]) as S2.
  pose proof (index_mid (E := CryptoError) (r ++ t) [] v) as S3.
  rewrite len_nil, Hr in S1. rewrite Hr, Hs in S2. rewrite len_app, Hr, Hs in S3.
  rewrite <- (assoc_L (++)) in S3. change (0 + 32) with 32 in S1. cbn [app] in S1.
  change (32 + 32) with 64 in *. by rewrite S1, S2, S3.
Qed.

(** What a key signs, it is recovered from: [sign_message] succeeds,
    [recover_public_key] returns the signer's key and [recover_address] its
    20-byte address, in either build profile; and the signature survives its
    65-byte form. *)
Theorem sign_recover_roundtrip m k : exists sg a,
  sign_message m k = Ok sg /\ recover_public_key m sg = Ok (secp_public_key k) /\
  public_key_to_address (E := CryptoError) (secp_public_key k) = Ok a /\
  recover_address m sg = Ok a /\ bytes a /\ len a = 20 /\
  sig_from_bytes (sig_to_bytes sg) = Ok sg.
Proof.
  destruct (sign_message_ok m k) as (v & Hs & Hv).
  destruct (address_of_key (E := CryptoError) k) as (a & Ha & Hb & Hl).
  pose proof (recover_sig m k v Hv) as Hr. eexists _, a. split; [exact Hs|].
  split_and!; try done.
  - unfold recover_address. by rewrite Hr.
  - pose proof (sign_bytes m k) as [_ H64]. unfold len in H64.
    apply sig_bytes_roundtrip; simpl; unfold len; rewrite ?length_take, ?length_drop; lia.
Qed.
End crypto_proofs.

Lemma sign_recover_roundtrip_witness : exists sg a,
  @sign_message _ dev_profile [7] [9; 9] = Ok sg /\
  @recover_address _ _ dev_profile [7] sg = Ok a /\ len a = 20.
Proof.
  destruct (@sign_recover_roundtrip _ _ _ _ _ dev_profile [7] [9; 9])
    as (sg & a & H1 & _ & _ & H2 & _ & H3 & _).
  exists sg, a. auto.
Defined.
