(* ===== verification/Transaction.v ===== *)
(** Transactions: crates/core/src/transaction.rs and eip7702.rs.  Each of the
    five transaction types is a Module with its record [tx], its encoding, its
    hash and its signing hash; [Transaction] is the enum over them with its
    accessors.  [sender] recovers the signer over crates/crypto.  The typed
    [Decode] of the enum calls a decoder method ([peek_bytes]) that the rlp
    crate does not have and is left out. *)
From stdpp Require Import base list numbers option strings pretty.
From Stdlib Require Import ZArith Lia.
From S2P Require Import Prelude U256 Rlp Precompiled Crypto.

Inductive TransactionError :=
| TxInvalidSignature
| TxInvalidTransactionType (t : Z)
| TxMissingField
| TxInvalidChainId
| TxCrypto (e : CryptoError)
| TxRlp (e : RlpError).

(** [?] on a [CryptoError]: the [From] conversion. *)
Definition from_crypto {A} (m : outcome CryptoError A) : outcome TransactionError A :=
  match m with
  | Ok a => Ok a
  | Err e => Err (TxCrypto e)
  | Panic => Panic
  | Diverge => Diverge
  end.

(** The elements of an array literal, evaluated from left to right. *)
Fixpoint collect {A} (l : list (Infallible A)) : Infallible (list A) :=
  match l with
  | [] => Ok []
  | m :: rest => let? x := m in let? xs := collect rest in Ok (x :: xs)
  end.
(** [encoder.encode_list(&[a, b, ..])] on fields that are already encoded: the
    element type is [Bytes]. *)
Definition encode_fields (fields : list (Infallible (list Z))) (e : Encoder) : Infallible Encoder :=
  let? fs := collect fields in encode_list impl_Bytes fs e.

Definition encode_h256_list (l : list (list Z)) : Infallible (list Z) :=
  let? e := encode_list impl_H256 l encoder_new in Ok (finish e).

Record AccessListItem := mkAccessListItem { al_address : list Z; storage_keys : list (list Z) }.
Definition encode_access_item (i : AccessListItem) : Encoder -> Infallible Encoder :=
  encode_fields [rlp_encode impl_Address (al_address i); encode_h256_list (storage_keys i)].
Definition decode_access_item `{Profile} : DM AccessListItem :=
  let! a := decode impl_Address in
  let! k := decode_list impl_H256 in
  sret (mkAccessListItem a k).
Definition impl_AccessListItem : RlpImpl AccessListItem :=
  mkRlpImpl encode_access_item (@decode_access_item).
Definition encode_access_list (l : list AccessListItem) : Infallible (list Z) :=
  let? e := encode_list impl_AccessListItem l encoder_new in Ok (finish e).

(** [keccak256(&[&[ty], &bytes[..]].concat())] *)
Definition typed_hash `{KeccakOps} (ty : Z) (payload : Infallible (list Z)) : Infallible (list Z) :=
  let? b := payload in Ok (keccak256 ([ty] ++ b)).
(** The list of the fields, alone in a fresh encoder. *)
Definition fields_bytes (fields : list (Infallible (list Z))) : Infallible (list Z) :=
  let? e := encode_fields fields encoder_new in Ok (finish e).

Module Legacy.
Record tx := mk {
  nonce : Z;
  gas_price : Z;
  gas_limit : Z;
  to : option (list Z);
  value : Z;
  data : list Z;
  v : Z;
  r : Z;
  s : Z;
}.
Section ops.
Context `{U256Ops} `{KeccakOps}.
(** The fields that are signed. *)
Definition body_fields (t : tx) : list (Infallible (list Z)) :=
  [rlp_encode impl_U256 (nonce t);
   rlp_encode impl_U256 (gas_price t);
   rlp_encode impl_U256 (gas_limit t);
   rlp_encode (impl_option impl_Address) (to t);
   rlp_encode impl_U256 (value t);
   rlp_encode impl_Bytes (data t)].
Definition encode (t : tx) : Encoder -> Infallible Encoder :=
  encode_fields (body_fields t ++ [rlp_encode impl_u64 (v t); rlp_encode impl_U256 (r t); rlp_encode impl_U256 (s t)]).
(** [T::decode(&mut Decoder::new(&encode(&items[i]))?)?] *)
Definition decode_field `{Profile} {A} (impl : RlpImpl A) (items : list RlpItem) (i : Z) : DM A :=
  let! item := slift (index items i) in
  let! b := slift (lift_ok (rlp_encode impl_RlpItem item)) in
  slift (rlp_decode impl b).
Definition decode `{Profile} : DM tx :=
  let! items := decode_list impl_RlpItem in
  if negb (len items =? 9) then
    dec_fail (InvalidData ("Expected 9 items for legacy transaction, got " +:+ pretty (len items)))
  else
    let! x0 := decode_field impl_U256 items 0 in
    let! x1 := decode_field impl_U256 items 1 in
    let! x2 := decode_field impl_U256 items 2 in
    let! x3 := decode_field (impl_option impl_Address) items 3 in
    let! x4 := decode_field impl_U256 items 4 in
    let! x5 := decode_field impl_Bytes items 5 in
    let! x6 := decode_field impl_u64 items 6 in
    let! x7 := decode_field impl_U256 items 7 in
    let! x8 := decode_field impl_U256 items 8 in
    sret (mk x0 x1 x2 x3 x4 x5 x6 x7 x8).
Definition impl : RlpImpl tx := mkRlpImpl encode (fun P => decode).
Definition hash (t : tx) : Infallible (list Z) :=
  let? b := rlp_encode impl t in Ok (keccak256 b).
Definition signing_hash (chain_id : option Z) (t : tx) : Infallible (list Z) :=
  let? b :=
    match chain_id with
    | Some c =>
        fields_bytes (body_fields t ++
          [rlp_encode impl_u64 c; rlp_encode impl_u8 0; rlp_encode impl_u8 0])
    | None => fields_bytes (body_fields t)
    end in
  Ok (keccak256 b).
Definition sender `{CryptoOps} `{Profile} (t : tx) : outcome TransactionError (list Z) :=
  let? chain_id :=
    if 35 <=? v t then let? x := usub 64 (v t) 35 in Ok (Some (x / 2)) else Ok None in
  let? v :=
    if 35 <=? v t then let? x := usub 64 (v t) 35 in Ok (wrap 8 (x mod 2))
    else let? x := usub 64 (v t) 27 in Ok (wrap 8 x) in
  let? v27 := uadd 8 v 27 in
  let signature := mkSignature (u_to_big_endian (r t)) (u_to_big_endian (s t)) v27 in
  let? h := lift_ok (signing_hash chain_id t) in
  from_crypto (recover_address h signature).
End ops.
End Legacy.

Module Eip2930.
Record tx := mk {
  chain_id : Z;
  nonce : Z;
  gas_price : Z;
  gas_limit : Z;
  to : option (list Z);
  value : Z;
  data : list Z;
  access_list : list AccessListItem;
  y_parity : bool;
  r : Z;
  s : Z;
}.
Section ops.
Context `{U256Ops} `{KeccakOps}.
(** The fields that are signed. *)
Definition body_fields (t : tx) : list (Infallible (list Z)) :=
  [rlp_encode impl_u64 (chain_id t);
   rlp_encode impl_U256 (nonce t);
   rlp_encode impl_U256 (gas_price t);
   rlp_encode impl_U256 (gas_limit t);
   rlp_encode (impl_option impl_Address) (to t);
   rlp_encode impl_U256 (value t);
   rlp_encode impl_Bytes (data t);
   encode_access_list (access_list t)].
Definition encode (t : tx) : Encoder -> Infallible Encoder :=
  encode_fields (body_fields t ++ [rlp_encode impl_bool (y_parity t); rlp_encode impl_U256 (r t); rlp_encode impl_U256 (s t)]).
Definition decode `{Profile} : DM tx :=
  let! x0 := Rlp.decode impl_u64 in
  let! x1 := Rlp.decode impl_U256 in
  let! x2 := Rlp.decode impl_U256 in
  let! x3 := Rlp.decode impl_U256 in
  let! x4 := Rlp.decode (impl_option impl_Address) in
  let! x5 := Rlp.decode impl_U256 in
  let! x6 := Rlp.decode impl_Bytes in
  let! x7 := decode_list impl_AccessListItem in
  let! x8 := Rlp.decode impl_bool in
  let! x9 := Rlp.decode impl_U256 in
  let! x10 := Rlp.decode impl_U256 in
  sret (mk x0 x1 x2 x3 x4 x5 x6 x7 x8 x9 x10).
Definition impl : RlpImpl tx := mkRlpImpl encode (fun P => decode).
Definition hash (t : tx) : Infallible (list Z) := typed_hash 1 (rlp_encode impl t).
Definition signing_hash (t : tx) : Infallible (list Z) := typed_hash 1 (fields_bytes (body_fields t)).
Definition sender `{CryptoOps} `{Profile} (t : tx) : outcome TransactionError (list Z) :=
  let signature := mkSignature (u_to_big_endian (r t)) (u_to_big_endian (s t))
                     (if y_parity t then 28 else 27) in
  let? h := lift_ok (signing_hash t) in
  from_crypto (recover_address h signature).
End ops.
End Eip2930.

Module Eip1559.
Record tx := mk {
  chain_id : Z;
  nonce : Z;
  max_priority_fee_per_gas : Z;
  max_fee_per_gas : Z;
  gas_limit : Z;
  to : option (list Z);
  value : Z;
  data : list Z;
  access_list : list AccessListItem;
  y_parity : bool;
  r : Z;
  s : Z;
}.
Section ops.
Context `{U256Ops} `{KeccakOps}.
(** The fields that are signed. *)
Definition body_fields (t : tx) : list (Infallible (list Z)) :=
  [rlp_encode impl_u64 (chain_id t);
   rlp_encode impl_U256 (nonce t);
   rlp_encode impl_U256 (max_priority_fee_per_gas t);
   rlp_encode impl_U256 (max_fee_per_gas t);
   rlp_encode impl_U256 (gas_limit t);
   rlp_encode (impl_option impl_Address) (to t);
   rlp_encode impl_U256 (value t);
   rlp_encode impl_Bytes (data t);
   encode_access_list (access_list t)].
Definition encode (t : tx) : Encoder -> Infallible Encoder :=
  encode_fields (body_fields t ++ [rlp_encode impl_bool (y_parity t); rlp_encode impl_U256 (r t); rlp_encode impl_U256 (s t)]).
Definition decode `{Profile} : DM tx :=
  let! x0 := Rlp.decode impl_u64 in
  let! x1 := Rlp.decode impl_U256 in
  let! x2 := Rlp.decode impl_U256 in
  let! x3 := Rlp.decode impl_U256 in
  let! x4 := Rlp.decode impl_U256 in
  let! x5 := Rlp.decode (impl_option impl_Address) in
  let! x6 := Rlp.decode impl_U256 in
  let! x7 := Rlp.decode impl_Bytes in
  let! x8 := decode_list impl_AccessListItem in
  let! x9 := Rlp.decode impl_bool in
  let! x10 := Rlp.decode impl_U256 in
  let! x11 := Rlp.decode impl_U256 in
  sret (mk x0 x1 x2 x3 x4 x5 x6 x7 x8 x9 x10 x11).
Definition impl : RlpImpl tx := mkRlpImpl encode (fun P => decode).
Definition hash (t : tx) : Infallible (list Z) := typed_hash 2 (rlp_encode impl t).
Definition signing_hash (t : tx) : Infallible (list Z) := typed_hash 2 (fields_bytes (body_fields t)).
Definition sender `{CryptoOps} `{Profile} (t : tx) : outcome TransactionError (list Z) :=
  let signature := mkSignature (u_to_big_endian (r t)) (u_to_big_endian (s t))
                     (if y_parity t then 28 else 27) in
  let? h := lift_ok (signing_hash t) in
  from_crypto (recover_address h signature).
End ops.
End Eip1559.

Module Eip4844.
Record tx := mk {
  chain_id : Z;
  nonce : Z;
  max_priority_fee_per_gas : Z;
  max_fee_per_gas : Z;
  gas_limit : Z;
  to : list Z;
  value : Z;
  data : list Z;
  access_list : list AccessListItem;
  max_fee_per_blob_gas : Z;
  blob_versioned_hashes : list (list Z);
  y_parity : bool;
  r : Z;
  s : Z;
}.
Section ops.
Context `{U256Ops} `{KeccakOps}.
(** The fields that are signed. *)
Definition body_fields (t : tx) : list (Infallible (list Z)) :=
  [rlp_encode impl_u64 (chain_id t);
   rlp_encode impl_U256 (nonce t);
   rlp_encode impl_U256 (max_priority_fee_per_gas t);
   rlp_encode impl_U256 (max_fee_per_gas t);
   rlp_encode impl_U256 (gas_limit t);
   rlp_encode impl_Address (to t);
   rlp_encode impl_U256 (value t);
   rlp_encode impl_Bytes (data t);
   encode_access_list (access_list t);
   rlp_encode impl_U256 (max_fee_per_blob_gas t);
   encode_h256_list (blob_versioned_hashes t)].
Definition encode (t : tx) : Encoder -> Infallible Encoder :=
  encode_fields (body_fields t ++ [rlp_encode impl_bool (y_parity t); rlp_encode impl_U256 (r t); rlp_encode impl_U256 (s t)]).
Definition decode `{Profile} : DM tx :=
  let! x0 := Rlp.decode impl_u64 in
  let! x1 := Rlp.decode impl_U256 in
  let! x2 := Rlp.decode impl_U256 in
  let! x3 := Rlp.decode impl_U256 in
  let! x4 := Rlp.decode impl_U256 in
  let! x5 := Rlp.decode impl_Address in
  let! x6 := Rlp.decode impl_U256 in
  let! x7 := Rlp.decode impl_Bytes in
  let! x8 := decode_list impl_AccessListItem in
  let! x9 := Rlp.decode impl_U256 in
  let! x10 := decode_list impl_H256 in
  let! x11 := Rlp.decode impl_bool in
  let! x12 := Rlp.decode impl_U256 in
  let! x13 := Rlp.decode impl_U256 in
  sret (mk x0 x1 x2 x3 x4 x5 x6 x7 x8 x9 x10 x11 x12 x13).
Definition impl : RlpImpl tx := mkRlpImpl encode (fun P => decode).
Definition hash (t : tx) : Infallible (list Z) := typed_hash 3 (rlp_encode impl t).
Definition signing_hash (t : tx) : Infallible (list Z) := typed_hash 3 (fields_bytes (body_fields t)).
Definition sender `{CryptoOps} `{Profile} (t : tx) : outcome TransactionError (list Z) :=
  let signature := mkSignature (u_to_big_endian (r t)) (u_to_big_endian (s t))
                     (if y_parity t then 28 else 27) in
  let? h := lift_ok (signing_hash t) in
  from_crypto (recover_address h signature).
End ops.
End Eip4844.

Record Authorization := mkAuthorization {
  auth_chain_id : Z;
  auth_address : list Z;
  auth_nonce : Z;
  auth_y_parity : bool;
  auth_r : Z;
  auth_s : Z;
}.
Definition encode_authorization `{U256Ops} (a : Authorization) : Encoder -> Infallible Encoder :=
  encode_fields
    [rlp_encode impl_u64 (auth_chain_id a); rlp_encode impl_Address (auth_address a);
     rlp_encode impl_U256 (auth_nonce a); rlp_encode impl_bool (auth_y_parity a);
     rlp_encode impl_U256 (auth_r a); rlp_encode impl_U256 (auth_s a)].
Definition decode_authorization `{U256Ops} `{Profile} : DM Authorization :=
  let! c := decode impl_u64 in
  let! a := decode impl_Address in
  let! n := decode impl_U256 in
  let! y := decode impl_bool in
  let! r := decode impl_U256 in
  let! s := decode impl_U256 in
  sret (mkAuthorization c a n y r s).
Definition impl_Authorization `{U256Ops} : RlpImpl Authorization :=
  mkRlpImpl encode_authorization (fun P => decode_authorization).
Definition is_valid_for_chain (chain_id : Z) (a : Authorization) : bool := auth_chain_id a =? chain_id.
Definition encode_authorization_list `{U256Ops} (l : list Authorization) : Infallible (list Z) :=
  let? e := encode_list impl_Authorization l encoder_new in Ok (finish e).

Module Eip7702.
Record tx := mk {
  chain_id : Z;
  nonce : Z;
  max_priority_fee_per_gas : Z;
  max_fee_per_gas : Z;
  gas_limit : Z;
  to : list Z;
  value : Z;
  data : list Z;
  access_list : list AccessListItem;
  authorization_list : list Authorization;
  y_parity : bool;
  r : Z;
  s : Z;
}.
Section ops.
Context `{U256Ops} `{KeccakOps}.
(** The fields that are signed. *)
Definition body_fields (t : tx) : list (Infallible (list Z)) :=
  [rlp_encode impl_u64 (chain_id t);
   rlp_encode impl_U256 (nonce t);
   rlp_encode impl_U256 (max_priority_fee_per_gas t);
   rlp_encode impl_U256 (max_fee_per_gas t);
   rlp_encode impl_U256 (gas_limit t);
   rlp_encode impl_Address (to t);
   rlp_encode impl_U256 (value t);
   rlp_encode impl_Bytes (data t);
   encode_access_list (access_list t);
   encode_authorization_list (authorization_list t)].
Definition encode (t : tx) : Encoder -> Infallible Encoder :=
  encode_fields (body_fields t ++ [rlp_encode impl_bool (y_parity t); rlp_encode impl_U256 (r t); rlp_encode impl_U256 (s t)]).
Definition decode `{Profile} : DM tx :=
  let! x0 := Rlp.decode impl_u64 in
  let! x1 := Rlp.decode impl_U256 in
  let! x2 := Rlp.decode impl_U256 in
  let! x3 := Rlp.decode impl_U256 in
  let! x4 := Rlp.decode impl_U256 in
  let! x5 := Rlp.decode impl_Address in
  let! x6 := Rlp.decode impl_U256 in
  let! x7 := Rlp.decode impl_Bytes in
  let! x8 := decode_list impl_AccessListItem in
  let! x9 := decode_list impl_Authorization in
  let! x10 := Rlp.decode impl_bool in
  let! x11 := Rlp.decode impl_U256 in
  let! x12 := Rlp.decode impl_U256 in
  sret (mk x0 x1 x2 x3 x4 x5 x6 x7 x8 x9 x10 x11 x12).
Definition impl : RlpImpl tx := mkRlpImpl encode (fun P => decode).
Definition hash (t : tx) : Infallible (list Z) := typed_hash 4 (rlp_encode impl t).
Definition signing_hash (t : tx) : Infallible (list Z) := typed_hash 4 (fields_bytes (body_fields t)).
End ops.
End Eip7702.

Inductive Transaction :=
| TxLegacy (t : Legacy.tx)
| TxEip2930 (t : Eip2930.tx)
| TxEip1559 (t : Eip1559.tx)
| TxEip4844 (t : Eip4844.tx)
| TxEip7702 (t : Eip7702.tx).

Section transaction.
Context `{U256Ops} `{KeccakOps}.

Definition tx_hash_of (t : Transaction) : Infallible (list Z) :=
  match t with
  | TxLegacy t => Legacy.hash t
  | TxEip2930 t => Eip2930.hash t
  | TxEip1559 t => Eip1559.hash t
  | TxEip4844 t => Eip4844.hash t
  | TxEip7702 t => Eip7702.hash t
  end.
Definition tx_nonce_of (t : Transaction) : Z :=
  match t with
  | TxLegacy t => Legacy.nonce t
  | TxEip2930 t => Eip2930.nonce t
  | TxEip1559 t => Eip1559.nonce t
  | TxEip4844 t => Eip4844.nonce t
  | TxEip7702 t => Eip7702.nonce t
  end.
Definition tx_gas_price_of (t : Transaction) : Z :=
  match t with
  | TxLegacy t => Legacy.gas_price t
  | TxEip2930 t => Eip2930.gas_price t
  | TxEip1559 t => Eip1559.max_fee_per_gas t
  | TxEip4844 t => Eip4844.max_fee_per_gas t
  | TxEip7702 t => Eip7702.max_fee_per_gas t
  end.
Definition tx_gas_limit_of (t : Transaction) : Z :=
  match t with
  | TxLegacy t => Legacy.gas_limit t
  | TxEip2930 t => Eip2930.gas_limit t
  | TxEip1559 t => Eip1559.gas_limit t
  | TxEip4844 t => Eip4844.gas_limit t
  | TxEip7702 t => Eip7702.gas_limit t
  end.
Definition tx_to_of (t : Transaction) : option (list Z) :=
  match t with
  | TxLegacy t => Legacy.to t
  | TxEip2930 t => Eip2930.to t
  | TxEip1559 t => Eip1559.to t
  | TxEip4844 t => Some (Eip4844.to t)
  | TxEip7702 t => Some (Eip7702.to t)
  end.
Definition tx_value_of (t : Transaction) : Z :=
  match t with
  | TxLegacy t => Legacy.value t
  | TxEip2930 t => Eip2930.value t
  | TxEip1559 t => Eip1559.value t
  | TxEip4844 t => Eip4844.value t
  | TxEip7702 t => Eip7702.value t
  end.
Definition tx_data_of (t : Transaction) : list Z :=
  match t with
  | TxLegacy t => Legacy.data t
  | TxEip2930 t => Eip2930.data t
  | TxEip1559 t => Eip1559.data t
  | TxEip4844 t => Eip4844.data t
  | TxEip7702 t => Eip7702.data t
  end.

(** [encode] of the enum: typed transactions are a byte string that starts
    with the type. *)
Definition encode_typed (ty : Z) (payload : Infallible (list Z)) (e : Encoder) : Infallible Encoder :=
  let? b := payload in Ok (encode_bytes e ([ty] ++ b)).
Definition encode_transaction (t : Transaction) (e : Encoder) : Infallible Encoder :=
  match t with
  | TxLegacy t => Legacy.encode t e
  | TxEip2930 t => encode_typed 0x01 (rlp_encode Eip2930.impl t) e
  | TxEip1559 t => encode_typed 0x02 (rlp_encode Eip1559.impl t) e
  | TxEip4844 t => encode_typed 0x03 (rlp_encode Eip4844.impl t) e
  | TxEip7702 t => encode_typed 0x04 (rlp_encode Eip7702.impl t) e
  end.
End transaction.

(** [DelegatedAccount] *)
Record DelegatedAccount := mkDelegatedAccount {
  authority : list Z;
  implementation : list Z;
  delegated_nonce : Z;
}.
Definition delegation_is_active (d : DelegatedAccount) : bool :=
  negb (bool_decide (implementation d = replicate 20 0)).
Definition delegation_revoke (d : DelegatedAccount) : DelegatedAccount :=
  mkDelegatedAccount (authority d) (replicate 20 0) (delegated_nonce d).
