(* ===== verification/TransactionProofs.v ===== *)
(** What transaction hashes and signatures stand for.  Every encoding of
    Transaction.v is the RLP encoding of an item ([items]); the fields of a
    transaction are encoded twice, once on their own and once as byte strings
    of the enclosing list ([wrap_fields]).  Items are uniquely decodable, so
    hashes bind the whole transaction and signing hashes its unsigned part, and
    the sender of a signed transaction is its signer. *)
From stdpp Require Import base list numbers option strings pretty.
From Stdlib Require Import ZArith Lia.
From S2P Require Import Prelude U256 Rlp RlpProofs Precompiled Crypto Transaction.

(** * Encoders that write an item *)

(** [enc] writes the item [item a] for the promised values, and the item
    determines the value. *)
Class Wire {A} (enc : A -> Encoder -> Infallible Encoder) (wf : A -> Prop)
    (item : A -> RlpItem) : Prop := {
  wire_encode a e : wf a -> enc a e = Ok (extend_from_slice e (item_bytes (item a)));
  wire_inj a b : wf a -> wf b -> item a = item b -> a = b;
}.

Lemma wire_rlp_encode {A} (impl : RlpImpl A) wf item a : Wire (encode impl) wf item -> wf a ->
  rlp_encode impl a = Ok (item_bytes (item a)).
Proof. intros Hw Ha. unfold rlp_encode. by rewrite (wire_encode a) by done. Qed.

(** All strings of an item are bytes. *)
Fixpoint octets (i : RlpItem) : Prop :=
  match i with
  | RString b => bytes b
  | RList l => (fix go l := match l with [] => True | x :: l => octets x /\ go l end) l
  end.
Lemma octets_list l : octets (RList l) <-> Forall octets l.
Proof. simpl. induction l as [|x l IH]; [done|]. by rewrite Forall_cons, IH. Qed.

(** An item of bytes is promised as soon as its encoding is small. *)
Lemma small_item_wf i : octets i -> len (item_bytes i) < 2 ^ 32 -> wf_item i.
Proof.
  induction i as [b|l IH] using RlpItem_nested_ind; cbn [item_bytes].
  - rewrite len_app. intros Hb Hl. split; [done|]. pose proof (len_nonneg (string_header b)). lia.
  - rewrite octets_list, wf_item_list, len_app. intros Ho Hl.
    set (p := concat (map item_bytes l)) in *. pose proof (len_nonneg (list_header (len p))).
    split; [lia|]. apply Forall_forall. intros i Hi. rewrite Forall_forall in IH, Ho.
    apply IH; [done|by apply Ho|]. pose proof (item_bytes_le_payload i l Hi).
    fold p in H0. unfold len in *. lia.
Qed.

Lemma item_bytes_inj i j : wf_item i -> wf_item j -> len (item_bytes i) < 2 ^ 32 ->
  item_bytes i = item_bytes j -> i = j.
Proof.
  intros Hi Hj Hl Heq. set (n := (length (item_bytes i) + length (item_bytes j))%nat).
  assert (Hsz : len ([] ++ item_bytes i ++ []) <= isize_max).
  { rewrite app_nil_r. simpl. unfold isize_max. lia. }
  pose proof (@decode_rlpitem_parses dev_profile i Hi n ltac:(lia) [] [] Hsz) as H1.
  rewrite Heq in Hsz.
  pose proof (@decode_rlpitem_parses dev_profile j Hj n ltac:(lia) [] [] Hsz) as H2.
  unfold before in *. rewrite Heq, H2 in H1. by injection H1.
Qed.

(** ** The basic encoders *)

Lemma minimal_be_inj w a b : 0 <= a < 256 ^ Z.of_nat w -> 0 <= b < 256 ^ Z.of_nat w ->
  minimal_be w a = minimal_be w b -> a = b.
Proof.
  intros Ha Hb Heq. destruct (minimal_be_spec w a Ha) as (_ & _ & <- & _).
  destruct (minimal_be_spec w b Hb) as (_ & _ & <- & _). by rewrite Heq.
Qed.

Definition uint_item (w : nat) (v : Z) : RlpItem := RString (minimal_be w v).
Definition bool_item (b : bool) : RlpItem := RString (if b then [1] else []).
Definition option_item (o : option (list Z)) : RlpItem := RString (default [] o).

Lemma uint_wire w (enc : Z -> Encoder -> Infallible Encoder) :
  (forall v e, 0 <= v < 256 ^ Z.of_nat w ->
    enc v e = if v =? 0 then Ok (encode_bytes e [])
      else let? b := trim_leading_zeros (to_be w v) in Ok (encode_bytes e b)) ->
  Wire enc (fun v => 0 <= v < 256 ^ Z.of_nat w) (uint_item w).
Proof.
  intros Henc. split.
  - intros v e Hv. rewrite Henc by done. simpl. rewrite <- encode_bytes_eq.
    destruct (minimal_be_spec w v Hv) as (_ & _ & _ & [[-> ->]|(b & l & Hbl & Hnz & ->)]); [done|].
    destruct (Z.eqb_spec v 0) as [->|]; [discriminate|done].
  - intros a b Ha Hb [= Heq]. by apply (minimal_be_inj w).
Qed.
#[export] Instance u64_wire : Wire (encode impl_u64) (uint 64) (uint_item 8).
Proof. by apply (uint_wire 8). Qed.
#[export] Instance u256_wire `{U256Laws} : Wire (encode impl_U256) (uint 256) (uint_item 32).
Proof. apply (uint_wire 32). intros v e Hv. simpl. unfold encode_u256. by rewrite to_big_endian_law. Qed.
#[export] Instance bool_wire : Wire (encode impl_bool) (fun _ => True) bool_item.
Proof. split; [by intros [] e _|by intros [] []]. Qed.
#[export] Instance address_wire : Wire (encode impl_Address) (wf_fixed 20) RString.
Proof. split; [intros a e _; simpl; by rewrite encode_bytes_eq|by intros a b _ _ [= ->]]. Qed.
#[export] Instance h256_wire : Wire (encode impl_H256) (wf_fixed 32) RString.
Proof. split; [intros a e _; simpl; by rewrite encode_bytes_eq|by intros a b _ _ [= ->]]. Qed.
#[export] Instance bytes_wire : Wire (encode impl_Bytes) bytes RString.
Proof. split; [intros a e _; simpl; by rewrite encode_bytes_eq|by intros a b _ _ [= ->]]. Qed.

Definition wf_opt_address (o : option (list Z)) : Prop :=
  match o with Some a => wf_fixed 20 a | None => True end.
#[export] Instance option_wire :
  Wire (encode (impl_option impl_Address)) wf_opt_address option_item.
Proof.
  split.
  - intros o e _. unfold option_item. cbn [item_bytes]. rewrite <- encode_bytes_eq. by destruct o.
  - intros a b Ha Hb [= Heq]. destruct a as [a|], b as [b|]; simpl in *; subst;
      [done|by destruct Ha|by destruct Hb|done].
Qed.

(** ** Lists and wrapped fields *)

Lemma encode_items_wire {A} (enc : A -> Encoder -> Infallible Encoder) wf item l e :
  Wire enc wf item -> Forall wf l ->
  encode_items enc l e = Ok (extend_from_slice e (concat (map (fun x => item_bytes (item x)) l))).
Proof.
  intros Hw Hl. revert e. induction Hl as [|a l Ha _ IH]; intros e; simpl.
  - destruct e. unfold extend_from_slice. simpl. by rewrite app_nil_r.
  - rewrite wire_encode by done. simpl. by rewrite IH, extend_extend.
Qed.

#[export] Instance list_wire {A} (impl : RlpImpl A) wf item :
  Wire (encode impl) wf item ->
  Wire (encode_list impl) (Forall wf) (fun l => RList (map item l)).
Proof.
  intros Hw. split.
  - intros l e Hl. unfold encode_list, encode_list_by.
    rewrite (encode_items_wire _ wf item) by done. simpl.
    by rewrite encode_list_payload_eq, map_map.
  - intros l k Hl Hk [= Heq]. revert k Hk Heq.
    induction Hl as [|a l Ha _ IH]; intros [|b k] Hk Heq; try done.
    inversion Hk; subst. simpl in Heq. injection Heq as Hab Hlk. f_equal; [|by apply IH].
    by apply (wire_inj a b).
Qed.

Definition wrap_fields (xs : list RlpItem) : RlpItem :=
  RList (map (fun i => RString (item_bytes i)) xs).

Lemma collect_ok {A} (l : list A) : collect (map Ok l) = Ok l.
Proof. induction l as [|x l IH]; simpl; [done|]. by rewrite IH. Qed.

(** Fields that encode the items [xs]. *)
Lemma encode_fields_wire fields xs e :
  fields = map (fun i => Ok (item_bytes i)) xs ->
  encode_fields fields e = Ok (extend_from_slice e (item_bytes (wrap_fields xs))).
Proof.
  intros ->. unfold encode_fields. rewrite <- (map_map item_bytes Ok), collect_ok. simpl.
  unfold encode_list, encode_list_by.
  assert (Hi : forall l e, encode_items (encode impl_Bytes) l e
      = Ok (extend_from_slice e (concat (map (fun b => item_bytes (RString b)) l)))).
  { clear e. induction l as [|b l IH]; intros e; simpl.
    - destruct e. unfold extend_from_slice. simpl. by rewrite app_nil_r.
    - rewrite IH, encode_bytes_eq. simpl. by rewrite extend_extend. }
  rewrite Hi. simpl. by rewrite encode_list_payload_eq, !map_map.
Qed.

Lemma fields_bytes_wire fields xs :
  fields = map (fun i => Ok (item_bytes i)) xs ->
  fields_bytes fields = Ok (item_bytes (wrap_fields xs)).
Proof. intros Hf. unfold fields_bytes. by rewrite (encode_fields_wire _ xs) by done. Qed.

(** What [wrap_fields] promises, and that it loses nothing. *)
Lemma wrap_fields_inner xs i : len (item_bytes (wrap_fields xs)) < 2 ^ 32 -> i ∈ xs ->
  len (item_bytes i) < 2 ^ 32.
Proof.
  intros Hl Hi. unfold wrap_fields in Hl. cbn [item_bytes] in Hl.
  set (ys := map (fun i => RString (item_bytes i)) xs) in *.
  assert (Hin : RString (item_bytes i) ∈ ys)
    by (by apply (list_elem_of_fmap_2 (fun i => RString (item_bytes i)))).
  pose proof (item_bytes_le_payload _ _ Hin) as Hp. cbn [item_bytes] in Hp.
  rewrite len_app in Hl. rewrite length_app in Hp. unfold len in *. lia.
Qed.

Lemma item_bytes_octets i : octets i -> len (item_bytes i) < 2 ^ 32 -> bytes (item_bytes i).
Proof.
  induction i as [b|l IH] using RlpItem_nested_ind; cbn [item_bytes].
  - rewrite len_app. intros Hb Hl. apply bytes_app. split; [|done]. apply string_header_bytes.
    pose proof (len_nonneg (string_header b)). lia.
  - rewrite octets_list, len_app. intros Ho Hl. apply bytes_app.
    set (p := concat (map item_bytes l)) in *. pose proof (len_nonneg (list_header (len p))).
    split; [apply list_header_bytes, len_nonneg|].
    assert (Hsm : forall i, i ∈ l -> len (item_bytes i) < 2 ^ 32).
    { intros i Hi. pose proof (item_bytes_le_payload i l Hi). fold p in H0. unfold len in *. lia. }
    unfold p. clear p Hl H. induction IH as [|i l Hi _ IHl]; simpl; [constructor|].
    inversion Ho; subst. apply bytes_app. split.
    + apply Hi; [done|]. apply Hsm. by left.
    + apply IHl; [done|]. intros j Hj. apply Hsm. by right.
Qed.

Lemma wrap_fields_inj xs js : Forall octets xs -> Forall octets js ->
  len (item_bytes (wrap_fields xs)) < 2 ^ 32 ->
  item_bytes (wrap_fields xs) = item_bytes (wrap_fields js) -> xs = js.
Proof.
  intros Hi Hj Hl Heq.
  assert (Hwf : forall ks, Forall octets ks -> len (item_bytes (wrap_fields ks)) < 2 ^ 32 ->
            wf_item (wrap_fields ks)).
  { intros ks Hk Hlk. apply small_item_wf; [|done]. apply octets_list.
    apply Forall_forall. intros x (k & -> & Hkx)%list_elem_of_fmap. simpl.
    apply item_bytes_octets; [rewrite Forall_forall in Hk; by apply Hk|].
    by apply (wrap_fields_inner ks). }
  assert (Hw : wrap_fields xs = wrap_fields js).
  { apply item_bytes_inj; [by apply Hwf|apply Hwf; [done|by rewrite <- Heq]|done|done]. }
  assert (Hlj : len (item_bytes (wrap_fields js)) < 2 ^ 32) by (by rewrite <- Heq).
  assert (Hsi : forall i, i ∈ xs -> octets i /\ len (item_bytes i) < 2 ^ 32).
  { intros i Hx. split; [rewrite Forall_forall in Hi; by apply Hi|by apply (wrap_fields_inner xs)]. }
  assert (Hsj : forall i, i ∈ js -> octets i /\ len (item_bytes i) < 2 ^ 32).
  { intros i Hx. split; [rewrite Forall_forall in Hj; by apply Hj|by apply (wrap_fields_inner js)]. }
  clear Hi Hj Hl Heq Hwf Hlj. injection Hw as Hw. revert js Hw Hsj.
  induction xs as [|i xs IH]; intros [|j js] Hw Hsj; try done.
  simpl in Hw. injection Hw as Hij Hw.
  destruct (Hsi i) as [? ?]; [by left|]. destruct (Hsj j) as [? ?]; [by left|]. f_equal.
  - apply item_bytes_inj; [by apply small_item_wf|by apply small_item_wf|done|done].
  - apply IH; [|done|]; intros k Hk; [apply Hsi|apply Hsj]; by right.
Qed.

(** * Fields *)

(** An encoder of one field: the item it writes, and that this item is made of
    bytes and determines the field. *)
Class FieldOk {A} (enc : A -> Infallible (list Z)) (wf : A -> Prop) (item : A -> RlpItem) : Prop := {
  field_enc a : wf a -> enc a = Ok (item_bytes (item a));
  field_octets a : wf a -> octets (item a);
  field_inj a b : wf a -> wf b -> item a = item b -> a = b;
}.

Lemma wire_field {A} (impl : RlpImpl A) wf item : Wire (encode impl) wf item ->
  (forall a, wf a -> octets (item a)) -> FieldOk (rlp_encode impl) wf item.
Proof.
  intros Hw Ho. split; [|done|].
  - intros a Ha. by apply (wire_rlp_encode impl wf item).
  - apply wire_inj.
Qed.

Lemma octets_uint w v : 0 <= v < 256 ^ Z.of_nat w -> octets (uint_item w v).
Proof. intros Hv. by destruct (minimal_be_spec w v Hv) as (? & _). Qed.

#[export] Instance u64_field : FieldOk (rlp_encode impl_u64) (uint 64) (uint_item 8).
Proof. apply wire_field; [apply _|]. intros v Hv. by apply octets_uint. Qed.
#[export] Instance u256_field `{U256Laws} : FieldOk (rlp_encode impl_U256) (uint 256) (uint_item 32).
Proof. apply wire_field; [apply _|]. intros v Hv. by apply octets_uint. Qed.
#[export] Instance bool_field : FieldOk (rlp_encode impl_bool) (fun _ => True) bool_item.
Proof.
  apply wire_field; [apply _|]. intros [] _; simpl; [|constructor].
  repeat constructor; unfold byte; lia.
Qed.
#[export] Instance address_field : FieldOk (rlp_encode impl_Address) (wf_fixed 20) RString.
Proof. apply wire_field; [apply _|]. by intros a []. Qed.
#[export] Instance bytes_field : FieldOk (rlp_encode impl_Bytes) bytes RString.
Proof. by apply wire_field; [apply _|]. Qed.
#[export] Instance option_field :
  FieldOk (rlp_encode (impl_option impl_Address)) wf_opt_address option_item.
Proof. apply wire_field; [apply _|]. intros [a|] Ha; [by destruct Ha|constructor]. Qed.

(** [encode_list] of the elements, alone in an encoder. *)
Lemma list_field {A} (impl : RlpImpl A) wf item : Wire (encode impl) wf item ->
  (forall a, wf a -> octets (item a)) ->
  FieldOk (fun l => let? e := encode_list impl l encoder_new in Ok (finish e)) (Forall wf)
    (fun l => RList (map item l)).
Proof.
  intros Hw Ho. pose proof (list_wire impl wf item Hw) as Hl. split.
  - intros l Hf. by rewrite wire_encode by done.
  - intros l Hf. apply octets_list. induction Hf; simpl; constructor; auto.
  - intros l k. apply (wire_inj (Wire := Hl)).
Qed.
#[export] Instance h256_list_field :
  FieldOk encode_h256_list (Forall (wf_fixed 32)) (fun l => RList (map RString l)).
Proof. apply (list_field impl_H256 (wf_fixed 32) RString); [apply _|]. by intros a []. Qed.

(** A field of the record [T], and lists of them. *)
Record FieldSpec (T : Type) := mkField {
  fs_type : Type;
  fs_proj : T -> fs_type;
  fs_enc : fs_type -> Infallible (list Z);
  fs_wf : fs_type -> Prop;
  fs_item : fs_type -> RlpItem;
  fs_ok : FieldOk fs_enc fs_wf fs_item;
}.
Arguments mkField {T fs_type} fs_proj fs_enc {fs_wf fs_item fs_ok}.
Arguments fs_type {T} _. Arguments fs_proj {T} _ _. Arguments fs_enc {T} _ _.
Arguments fs_wf {T} _ _. Arguments fs_item {T} _ _. Arguments fs_ok {T} _.

Section fields.
Context {T : Type}.
Implicit Types (fs : list (FieldSpec T)) (t : T).

Definition field_values fs t : list (Infallible (list Z)) :=
  map (fun f => fs_enc f (fs_proj f t)) fs.
Definition field_items fs t : list RlpItem := map (fun f => fs_item f (fs_proj f t)) fs.
Definition fields_wf fs t : Prop := Forall (fun f => fs_wf f (fs_proj f t)) fs.
Definition same_fields fs t t' : Prop := Forall (fun f => fs_proj f t = fs_proj f t') fs.

Lemma field_values_eq fs t : fields_wf fs t ->
  field_values fs t = map (fun i => Ok (item_bytes i)) (field_items fs t).
Proof.
  unfold field_values, field_items. rewrite map_map.
  induction 1 as [|f fs Hf _ IH]; simpl; [done|]. rewrite IH. f_equal.
  by apply (field_enc (FieldOk := fs_ok f)).
Qed.
Lemma field_items_octets fs t : fields_wf fs t -> Forall octets (field_items fs t).
Proof.
  induction 1 as [|f fs Hf _ IH]; simpl; constructor; [|done].
  by apply (field_octets (FieldOk := fs_ok f)).
Qed.
Lemma field_items_inj fs t t' : fields_wf fs t -> fields_wf fs t' ->
  field_items fs t = field_items fs t' -> same_fields fs t t'.
Proof.
  induction 1 as [|f fs Hf _ IH]; simpl; intros Hw Heq; [constructor|].
  inversion Hw; subst. injection Heq as Hi Heq. constructor; [|by apply IH].
  by apply (field_inj (FieldOk := fs_ok f)).
Qed.

(** The encoding of a record with the fields [fs], and what it determines. *)
Definition record_bytes fs t : list Z := item_bytes (wrap_fields (field_items fs t)).
Definition record_ok fs t : Prop := fields_wf fs t /\ len (record_bytes fs t) < 2 ^ 32.

Lemma record_encode fs t e : fields_wf fs t ->
  encode_fields (field_values fs t) e = Ok (extend_from_slice e (record_bytes fs t)).
Proof. intros Ht. apply encode_fields_wire. by apply field_values_eq. Qed.
Lemma record_fields_bytes fs t : fields_wf fs t ->
  fields_bytes (field_values fs t) = Ok (record_bytes fs t).
Proof. intros Ht. apply fields_bytes_wire. by apply field_values_eq. Qed.
Lemma record_inj fs t t' : record_ok fs t -> fields_wf fs t' ->
  record_bytes fs t = record_bytes fs t' -> same_fields fs t t'.
Proof.
  intros [Ht Hl] Ht' Heq. apply field_items_inj; [done|done|].
  by apply wrap_fields_inj; [apply field_items_octets|apply field_items_octets|..].
Qed.
End fields.

(** An element of a list whose encoding is a record of fields. *)
Lemma record_wire {T} (enc : T -> Encoder -> Infallible Encoder) (fs : list (FieldSpec T)) :
  (forall t, enc t = encode_fields (field_values fs t)) ->
  (forall t t', same_fields fs t t' -> t = t') ->
  Wire enc (record_ok fs) (fun t => wrap_fields (field_items fs t)).
Proof.
  intros Henc Hext. split.
  - intros t e [Ht _]. rewrite Henc. by apply record_encode.
  - intros t t' Ht [Ht' _] Heq. apply Hext, record_inj; [done|done|].
    unfold record_bytes. by rewrite Heq.
Qed.
Lemma record_octets {T} (fs : list (FieldSpec T)) t : record_ok fs t ->
  octets (wrap_fields (field_items fs t)).
Proof.
  intros [Ht Hl]. apply octets_list. apply Forall_forall.
  intros x (i & -> & Hi)%list_elem_of_fmap. simpl. apply item_bytes_octets.
  - pose proof (field_items_octets fs t Ht) as Ho. rewrite Forall_forall in Ho. by apply Ho.
  - by apply (wrap_fields_inner (field_items fs t)).
Qed.

(** Two records with the same fields are equal. *)
Ltac same_record :=
  match goal with
  | H : same_fields _ ?t ?t' |- _ =>
      destruct t, t'; unfold same_fields in H;
      repeat (apply Forall_cons_1 in H as [? H]); simpl in *; congruence
  end.

Definition access_fields : list (FieldSpec AccessListItem) :=
  [mkField al_address (rlp_encode impl_Address); mkField storage_keys encode_h256_list].
#[export] Instance access_wire :
  Wire (encode impl_AccessListItem) (record_ok access_fields)
    (fun t => wrap_fields (field_items access_fields t)).
Proof. apply record_wire; [done|]. intros t t' Hs. same_record. Qed.
#[export] Instance access_list_field :
  FieldOk encode_access_list (Forall (record_ok access_fields))
    (fun l => RList (map (fun t => wrap_fields (field_items access_fields t)) l)).
Proof. apply (list_field impl_AccessListItem); [apply _|]. apply record_octets. Qed.

(** * The transaction types *)

Section types.
Context `{U256Laws} `{KeccakOps}.

Definition auth_fields : list (FieldSpec Authorization) :=
  [mkField auth_chain_id (rlp_encode impl_u64); mkField auth_address (rlp_encode impl_Address);
   mkField auth_nonce (rlp_encode impl_U256); mkField auth_y_parity (rlp_encode impl_bool);
   mkField auth_r (rlp_encode impl_U256); mkField auth_s (rlp_encode impl_U256)].
#[export] Instance auth_wire :
  Wire (encode impl_Authorization) (record_ok auth_fields)
    (fun t => wrap_fields (field_items auth_fields t)).
Proof. apply record_wire; [done|]. intros t t' Hs. same_record. Qed.
#[export] Instance auth_list_field :
  FieldOk encode_authorization_list (Forall (record_ok auth_fields))
    (fun l => RList (map (fun t => wrap_fields (field_items auth_fields t)) l)).
Proof. apply (list_field impl_Authorization); [apply _|]. apply record_octets. Qed.

Definition legacy_body : list (FieldSpec Legacy.tx) :=
  [mkField Legacy.nonce (rlp_encode impl_U256); mkField Legacy.gas_price (rlp_encode impl_U256);
   mkField Legacy.gas_limit (rlp_encode impl_U256);
   mkField Legacy.to (rlp_encode (impl_option impl_Address));
   mkField Legacy.value (rlp_encode impl_U256); mkField Legacy.data (rlp_encode impl_Bytes)].
Definition legacy_sig : list (FieldSpec Legacy.tx) :=
  [mkField Legacy.v (rlp_encode impl_u64); mkField Legacy.r (rlp_encode impl_U256);
   mkField Legacy.s (rlp_encode impl_U256)].
Lemma legacy_ext t t' : same_fields (legacy_body ++ legacy_sig) t t' -> t = t'.
Proof using Type. intros Hs. same_record. Qed.
Definition eip2930_body : list (FieldSpec Eip2930.tx) :=
  [mkField Eip2930.chain_id (rlp_encode impl_u64); mkField Eip2930.nonce (rlp_encode impl_U256);
   mkField Eip2930.gas_price (rlp_encode impl_U256);
   mkField Eip2930.gas_limit (rlp_encode impl_U256);
   mkField Eip2930.to (rlp_encode (impl_option impl_Address));
   mkField Eip2930.value (rlp_encode impl_U256); mkField Eip2930.data (rlp_encode impl_Bytes);
   mkField Eip2930.access_list encode_access_list].
Definition eip2930_sig : list (FieldSpec Eip2930.tx) :=
  [mkField Eip2930.y_parity (rlp_encode impl_bool); mkField Eip2930.r (rlp_encode impl_U256);
   mkField Eip2930.s (rlp_encode impl_U256)].
Lemma eip2930_ext t t' : same_fields (eip2930_body ++ eip2930_sig) t t' -> t = t'.
Proof using Type. intros Hs. same_record. Qed.
Definition eip1559_body : list (FieldSpec Eip1559.tx) :=
  [mkField Eip1559.chain_id (rlp_encode impl_u64); mkField Eip1559.nonce (rlp_encode impl_U256);
   mkField Eip1559.max_priority_fee_per_gas (rlp_encode impl_U256);
   mkField Eip1559.max_fee_per_gas (rlp_encode impl_U256);
   mkField Eip1559.gas_limit (rlp_encode impl_U256);
   mkField Eip1559.to (rlp_encode (impl_option impl_Address));
   mkField Eip1559.value (rlp_encode impl_U256); mkField Eip1559.data (rlp_encode impl_Bytes);
   mkField Eip1559.access_list encode_access_list].
Definition eip1559_sig : list (FieldSpec Eip1559.tx) :=
  [mkField Eip1559.y_parity (rlp_encode impl_bool); mkField Eip1559.r (rlp_encode impl_U256);
   mkField Eip1559.s (rlp_encode impl_U256)].
Lemma eip1559_ext t t' : same_fields (eip1559_body ++ eip1559_sig) t t' -> t = t'.
Proof using Type. intros Hs. same_record. Qed.
Definition eip4844_body : list (FieldSpec Eip4844.tx) :=
  [mkField Eip4844.chain_id (rlp_encode impl_u64); mkField Eip4844.nonce (rlp_encode impl_U256);
   mkField Eip4844.max_priority_fee_per_gas (rlp_encode impl_U256);
   mkField Eip4844.max_fee_per_gas (rlp_encode impl_U256);
   mkField Eip4844.gas_limit (rlp_encode impl_U256); mkField Eip4844.to (rlp_encode impl_Address);
   mkField Eip4844.value (rlp_encode impl_U256); mkField Eip4844.data (rlp_encode impl_Bytes);
   mkField Eip4844.access_list encode_access_list;
   mkField Eip4844.max_fee_per_blob_gas (rlp_encode impl_U256);
   mkField Eip4844.blob_versioned_hashes encode_h256_list].
Definition eip4844_sig : list (FieldSpec Eip4844.tx) :=
  [mkField Eip4844.y_parity (rlp_encode impl_bool); mkField Eip4844.r (rlp_encode impl_U256);
   mkField Eip4844.s (rlp_encode impl_U256)].
Lemma eip4844_ext t t' : same_fields (eip4844_body ++ eip4844_sig) t t' -> t = t'.
Proof using Type. intros Hs. same_record. Qed.
Definition eip7702_body : list (FieldSpec Eip7702.tx) :=
  [mkField Eip7702.chain_id (rlp_encode impl_u64); mkField Eip7702.nonce (rlp_encode impl_U256);
   mkField Eip7702.max_priority_fee_per_gas (rlp_encode impl_U256);
   mkField Eip7702.max_fee_per_gas (rlp_encode impl_U256);
   mkField Eip7702.gas_limit (rlp_encode impl_U256); mkField Eip7702.to (rlp_encode impl_Address);
   mkField Eip7702.value (rlp_encode impl_U256); mkField Eip7702.data (rlp_encode impl_Bytes);
   mkField Eip7702.access_list encode_access_list;
   mkField Eip7702.authorization_list encode_authorization_list].
Definition eip7702_sig : list (FieldSpec Eip7702.tx) :=
  [mkField Eip7702.y_parity (rlp_encode impl_bool); mkField Eip7702.r (rlp_encode impl_U256);
   mkField Eip7702.s (rlp_encode impl_U256)].
Lemma eip7702_ext t t' : same_fields (eip7702_body ++ eip7702_sig) t t' -> t = t'.
Proof using Type. intros Hs. same_record. Qed.

(** Transactions whose fields are in range and whose encoding is below 2^32
    bytes. *)
Definition tx_ok (t : Transaction) : Prop :=
  match t with
  | TxLegacy t => record_ok (legacy_body ++ legacy_sig) t
  | TxEip2930 t => record_ok (eip2930_body ++ eip2930_sig) t
  | TxEip1559 t => record_ok (eip1559_body ++ eip1559_sig) t
  | TxEip4844 t => record_ok (eip4844_body ++ eip4844_sig) t
  | TxEip7702 t => record_ok (eip7702_body ++ eip7702_sig) t
  end.

(** The bytes [hash] digests. *)
Definition preimage (t : Transaction) : list Z :=
  match t with
  | TxLegacy t => record_bytes (legacy_body ++ legacy_sig) t
  | TxEip2930 t => 1 :: record_bytes (eip2930_body ++ eip2930_sig) t
  | TxEip1559 t => 2 :: record_bytes (eip1559_body ++ eip1559_sig) t
  | TxEip4844 t => 3 :: record_bytes (eip4844_body ++ eip4844_sig) t
  | TxEip7702 t => 4 :: record_bytes (eip7702_body ++ eip7702_sig) t
  end.

Lemma record_first_byte {T} (fs : list (FieldSpec T)) t :
  exists x l, record_bytes fs t = x :: l /\ 0xc0 <= x.
Proof using Type.
  unfold record_bytes, wrap_fields. cbn [item_bytes].
  destruct (list_first_byte (len (concat (map item_bytes
    (map (fun i => RString (item_bytes i)) (field_items fs t)))))) as (x & l & -> & Hx);
    [apply len_nonneg|]. eauto.
Qed.

Lemma record_rlp_encode {T} (impl : RlpImpl T) fs t :
  encode impl t = encode_fields (field_values fs t) -> fields_wf fs t ->
  rlp_encode impl t = Ok (record_bytes fs t).
Proof using Type. intros He Ht. unfold rlp_encode. rewrite He. by rewrite record_encode. Qed.

Lemma tx_hash_eq t : tx_ok t -> tx_hash_of t = Ok (keccak256 (preimage t)).
Proof.
  destruct t as [t|t|t|t|t]; intros [Ht _]; cbn [tx_hash_of preimage];
    [unfold Legacy.hash; by rewrite (record_rlp_encode _ (legacy_body ++ legacy_sig))|..];
    unfold Eip2930.hash, Eip1559.hash, Eip4844.hash, Eip7702.hash, typed_hash;
    [by rewrite (record_rlp_encode _ (eip2930_body ++ eip2930_sig))
    |by rewrite (record_rlp_encode _ (eip1559_body ++ eip1559_sig))
    |by rewrite (record_rlp_encode _ (eip4844_body ++ eip4844_sig))
    |by rewrite (record_rlp_encode _ (eip7702_body ++ eip7702_sig))].
Qed.

(** Equal preimages: the types agree by their first byte, the fields by the
    encoding. *)
Lemma preimage_inj t t' : tx_ok t -> tx_ok t' -> preimage t = preimage t' -> t = t'.
Proof.
  intros Ht Ht' Heq. destruct t as [t|t|t|t|t], t' as [t'|t'|t'|t'|t']; cbn [preimage tx_ok] in *;
    try discriminate;
    try (destruct (record_first_byte (legacy_body ++ legacy_sig) t) as (x & l & Hx & Hge);
         rewrite Hx in Heq; injection Heq as ? _; lia);
    try (destruct (record_first_byte (legacy_body ++ legacy_sig) t') as (x & l & Hx & Hge);
         rewrite Hx in Heq; injection Heq as ? _; lia);
    try (injection Heq as Heq); f_equal;
    [apply legacy_ext|apply eip2930_ext|apply eip1559_ext|apply eip4844_ext|apply eip7702_ext];
    apply record_inj; by destruct Ht'.
Qed.

(** Two given byte strings are different and have the same digest. *)
Definition collide (x y : list Z) : Prop := x <> y /\ keccak_digest x = keccak_digest y.
Lemma digest_binds x y : Ok (E := Empty_set) (keccak256 x) = Ok (keccak256 y) -> x = y \/ collide x y.
Proof using Type.
  intros [= Heq]. destruct (decide (x = y)); [by left|right; by split].
Qed.

(** A transaction hash stands for one transaction.  Over all five types,
    if two transactions with fields in range and encodings below 2^32 bytes
    have the same [hash], they are the same transaction, of the same type and
    with the same signature, or their two encodings are a collision of
    Keccak-256. *)
Theorem transaction_hash_binding t t' : tx_ok t -> tx_ok t' ->
  tx_hash_of t = tx_hash_of t' ->
  t = t' \/ collide (preimage t) (preimage t').
Proof.
  intros Ht Ht' Hh. rewrite !tx_hash_eq in Hh by done.
  destruct (digest_binds _ _ Hh); [left; by apply preimage_inj|by right].
Qed.

(** ** What a signature covers *)

(** The chain id [sender] takes from [v] (EIP-155). *)
Definition chain_id_of (v : Z) : option Z := if 35 <=? v then Some ((v - 35) / 2) else None.
Definition signing_hash_of (t : Transaction) : Infallible (list Z) :=
  match t with
  | TxLegacy t => Legacy.signing_hash (chain_id_of (Legacy.v t)) t
  | TxEip2930 t => Eip2930.signing_hash t
  | TxEip1559 t => Eip1559.signing_hash t
  | TxEip4844 t => Eip4844.signing_hash t
  | TxEip7702 t => Eip7702.signing_hash t
  end.

(** The transaction without its signature; a legacy one keeps its chain id. *)
Definition erase (t : Transaction) : Transaction :=
  match t with
  | TxLegacy t =>
      TxLegacy (Legacy.mk (Legacy.nonce t) (Legacy.gas_price t) (Legacy.gas_limit t) (Legacy.to t)
        (Legacy.value t) (Legacy.data t)
        (match chain_id_of (Legacy.v t) with Some c => 35 + 2 * c | None => 27 end) 0 0)
  | TxEip2930 t =>
      TxEip2930 (Eip2930.mk (Eip2930.chain_id t) (Eip2930.nonce t) (Eip2930.gas_price t) (Eip2930.gas_limit t) (Eip2930.to t) (Eip2930.value t) (Eip2930.data t) (Eip2930.access_list t) false 0 0)
  | TxEip1559 t =>
      TxEip1559 (Eip1559.mk (Eip1559.chain_id t) (Eip1559.nonce t) (Eip1559.max_priority_fee_per_gas t) (Eip1559.max_fee_per_gas t) (Eip1559.gas_limit t) (Eip1559.to t) (Eip1559.value t) (Eip1559.data t) (Eip1559.access_list t) false 0 0)
  | TxEip4844 t =>
      TxEip4844 (Eip4844.mk (Eip4844.chain_id t) (Eip4844.nonce t) (Eip4844.max_priority_fee_per_gas t) (Eip4844.max_fee_per_gas t) (Eip4844.gas_limit t) (Eip4844.to t) (Eip4844.value t) (Eip4844.data t) (Eip4844.access_list t) (Eip4844.max_fee_per_blob_gas t) (Eip4844.blob_versioned_hashes t) false 0 0)
  | TxEip7702 t =>
      TxEip7702 (Eip7702.mk (Eip7702.chain_id t) (Eip7702.nonce t) (Eip7702.max_priority_fee_per_gas t) (Eip7702.max_fee_per_gas t) (Eip7702.gas_limit t) (Eip7702.to t) (Eip7702.value t) (Eip7702.data t) (Eip7702.access_list t) (Eip7702.authorization_list t) false 0 0)
  end.

Definition chain_items (o : option Z) : list RlpItem :=
  match o with Some c => [uint_item 8 c; RString []; RString []] | None => [] end.
Definition sign_items (t : Transaction) : list RlpItem :=
  match t with
  | TxLegacy t => field_items legacy_body t ++ chain_items (chain_id_of (Legacy.v t))
  | TxEip2930 t => field_items eip2930_body t
  | TxEip1559 t => field_items eip1559_body t
  | TxEip4844 t => field_items eip4844_body t
  | TxEip7702 t => field_items eip7702_body t
  end.
Definition sign_tag (t : Transaction) : list Z :=
  match t with
  | TxLegacy _ => [] | TxEip2930 _ => [1] | TxEip1559 _ => [2] | TxEip4844 _ => [3] | TxEip7702 _ => [4]
  end.
Definition sign_preimage (t : Transaction) : list Z :=
  sign_tag t ++ item_bytes (wrap_fields (sign_items t)).

Lemma chain_id_range v c : uint 64 v -> chain_id_of v = Some c -> uint 64 c.
Proof using Type.
  unfold chain_id_of, uint. destruct (Z.leb_spec 35 v); [|discriminate].
  intros Hv [= <-]. zlia.
Qed.

Lemma body_wf {T} (body sig : list (FieldSpec T)) t : record_ok (body ++ sig) t -> fields_wf body t.
Proof using Type. intros [Ht _]. by apply Forall_app in Ht as [? _]. Qed.
Lemma legacy_v_range t : tx_ok (TxLegacy t) -> uint 64 (Legacy.v t).
Proof using Type.
  intros [Ht _]. apply Forall_app in Ht as [_ Ht]. by apply Forall_cons_1 in Ht as [? _].
Qed.

Lemma legacy_sign_fields t : tx_ok (TxLegacy t) ->
  (match chain_id_of (Legacy.v t) with
   | Some c => fields_bytes (Legacy.body_fields t ++
       [rlp_encode impl_u64 c; rlp_encode impl_u8 0; rlp_encode impl_u8 0])
   | None => fields_bytes (Legacy.body_fields t)
   end) = Ok (item_bytes (wrap_fields (sign_items (TxLegacy t)))).
Proof.
  intros Ht. pose proof (body_wf _ _ _ Ht) as Hb. pose proof (legacy_v_range t Ht) as Hv.
  change (Legacy.body_fields t) with (field_values legacy_body t).
  cbn [sign_items]. destruct (chain_id_of (Legacy.v t)) as [c|] eqn:Hc.
  - apply fields_bytes_wire. rewrite map_app, field_values_eq by done. f_equal.
    cbn [chain_items map]. f_equal. apply (field_enc (FieldOk := u64_field)).
    by apply (chain_id_range _ _ Hv).
  - cbn [chain_items]. rewrite app_nil_r. by apply record_fields_bytes.
Qed.

Lemma signing_hash_eq t : tx_ok t -> signing_hash_of t = Ok (keccak256 (sign_preimage t)).
Proof.
  destruct t as [t|t|t|t|t]; intros Ht; cbn [signing_hash_of].
  - unfold Legacy.signing_hash. by rewrite legacy_sign_fields.
  - unfold Eip2930.signing_hash, typed_hash.
    change (Eip2930.body_fields t) with (field_values eip2930_body t).
    by rewrite record_fields_bytes by (by apply (body_wf _ eip2930_sig)).
  - unfold Eip1559.signing_hash, typed_hash.
    change (Eip1559.body_fields t) with (field_values eip1559_body t).
    by rewrite record_fields_bytes by (by apply (body_wf _ eip1559_sig)).
  - unfold Eip4844.signing_hash, typed_hash.
    change (Eip4844.body_fields t) with (field_values eip4844_body t).
    by rewrite record_fields_bytes by (by apply (body_wf _ eip4844_sig)).
  - unfold Eip7702.signing_hash, typed_hash.
    change (Eip7702.body_fields t) with (field_values eip7702_body t).
    by rewrite record_fields_bytes by (by apply (body_wf _ eip7702_sig)).
Qed.

Lemma sign_items_octets t : tx_ok t -> Forall octets (sign_items t).
Proof.
  destruct t as [t|t|t|t|t]; intros Ht; cbn [sign_items];
    try (apply field_items_octets; by eapply body_wf).
  apply Forall_app. split; [apply field_items_octets; by eapply body_wf|].
  destruct (chain_id_of (Legacy.v t)) as [c|] eqn:Hc; [|constructor].
  repeat constructor. apply octets_uint. by apply (chain_id_range _ _ (legacy_v_range t Ht)).
Qed.

Lemma sign_tag_inj t t' : sign_preimage t = sign_preimage t' ->
  sign_tag t = sign_tag t' /\ item_bytes (wrap_fields (sign_items t)) = item_bytes (wrap_fields (sign_items t')).
Proof using Type.
  unfold sign_preimage.
  assert (Hfirst : forall xs, exists x l, item_bytes (wrap_fields xs) = x :: l /\ 0xc0 <= x).
  { intros xs. unfold wrap_fields. cbn [item_bytes].
    destruct (list_first_byte (len (concat (map item_bytes
      (map (fun i => RString (item_bytes i)) xs))))) as (x & l & -> & Hx); [apply len_nonneg|]. eauto. }
  intros Heq. destruct (Hfirst (sign_items t)) as (x & l & Hx & Hge).
  destruct (Hfirst (sign_items t')) as (y & k & Hy & Hge'). rewrite Hx, Hy in *.
  destruct t, t'; cbn [sign_tag app] in *; injection Heq as ? ?; subst; try lia; done.
Qed.

Lemma erase_inj t t' : tx_ok t -> tx_ok t' -> sign_tag t = sign_tag t' ->
  sign_items t = sign_items t' -> erase t = erase t'.
Proof.
  intros Ht Ht' Htag Heq.
  destruct t as [t|t|t|t|t], t' as [t'|t'|t'|t'|t']; try discriminate; cbn [sign_items erase] in *.
  { apply app_inj_1 in Heq as [Hb Hc]; [|done].
    assert (Hs : same_fields legacy_body t t') by (apply field_items_inj; [by eapply body_wf..|done]).
    unfold same_fields in Hs. repeat (apply Forall_cons_1 in Hs as [? Hs]).
    assert (chain_id_of (Legacy.v t) = chain_id_of (Legacy.v t')) as ->.
    { destruct (chain_id_of (Legacy.v t)) as [c|] eqn:E1, (chain_id_of (Legacy.v t')) as [c'|] eqn:E2;
        simpl in Hc; try done. injection Hc as Hc. f_equal.
      apply (minimal_be_inj 8); [..|done].
      - by apply (chain_id_range _ _ (legacy_v_range t Ht)).
      - by apply (chain_id_range _ _ (legacy_v_range t' Ht')). }
    simpl in *. congruence. }
  { assert (Hs : same_fields eip2930_body t t') by (apply field_items_inj; [by eapply body_wf..|done]).
    unfold same_fields in Hs. repeat (apply Forall_cons_1 in Hs as [? Hs]). simpl in *. congruence. }
  { assert (Hs : same_fields eip1559_body t t') by (apply field_items_inj; [by eapply body_wf..|done]).
    unfold same_fields in Hs. repeat (apply Forall_cons_1 in Hs as [? Hs]). simpl in *. congruence. }
  { assert (Hs : same_fields eip4844_body t t') by (apply field_items_inj; [by eapply body_wf..|done]).
    unfold same_fields in Hs. repeat (apply Forall_cons_1 in Hs as [? Hs]). simpl in *. congruence. }
  { assert (Hs : same_fields eip7702_body t t') by (apply field_items_inj; [by eapply body_wf..|done]).
    unfold same_fields in Hs. repeat (apply Forall_cons_1 in Hs as [? Hs]). simpl in *. congruence. }
Qed.

(** A signature covers the whole transaction.  If two transactions of any
    types have the same signing hash, they agree in every field but the
    signature (for a legacy transaction also in the chain id its [v] carries),
    or the two byte strings that are signed are a collision of Keccak-256: no
    signature can be moved to another type, chain or content. *)
Theorem signing_hash_binding t t' : tx_ok t -> tx_ok t' -> len (sign_preimage t) < 2 ^ 32 ->
  signing_hash_of t = signing_hash_of t' ->
  erase t = erase t' \/ collide (sign_preimage t) (sign_preimage t').
Proof.
  intros Ht Ht' Hl Hh. rewrite !signing_hash_eq in Hh by done.
  destruct (digest_binds _ _ Hh) as [Heq|]; [left|by right].
  apply sign_tag_inj in Heq as [Htag Heq]. apply erase_inj; [done..|].
  apply wrap_fields_inj; [by apply sign_items_octets..| |done].
  unfold sign_preimage in Hl. rewrite len_app in Hl. pose proof (len_nonneg (sign_tag t)). lia.
Qed.
End types.

(** * The sender is the signer *)

Section senders.
Context `{U256Laws} `{KeccakLaws} `{SignLaws} `{Profile}.

(** [Transaction::sender]; [None] for EIP-7702, whose own [sender] calls
    [recover_address] with arguments it does not take. *)
Definition sender_of (t : Transaction) : option (outcome TransactionError (list Z)) :=
  match t with
  | TxLegacy t => Some (Legacy.sender t)
  | TxEip2930 t => Some (Eip2930.sender t)
  | TxEip1559 t => Some (Eip1559.sender t)
  | TxEip4844 t => Some (Eip4844.sender t)
  | TxEip7702 _ => None
  end.

(** The fields of [t] hold the signature [sg]: [r] and [s] as numbers, the
    parity as [y_parity], or as [v], with or without a chain id. *)
Definition carries_signature (t : Transaction) (sg : Signature) : Prop :=
  let parity := sig_v sg - 27 in
  let rs r s := r = from_be (sig_r sg) /\ s = from_be (sig_s sg) in
  match t with
  | TxLegacy t => rs (Legacy.r t) (Legacy.s t) /\
      (Legacy.v t = 27 + parity \/
       exists c, 0 <= c /\ Legacy.v t = 35 + 2 * c + parity /\ Legacy.v t < 2 ^ 64)
  | TxEip2930 t => rs (Eip2930.r t) (Eip2930.s t) /\ Eip2930.y_parity t = (parity =? 1)
  | TxEip1559 t => rs (Eip1559.r t) (Eip1559.s t) /\ Eip1559.y_parity t = (parity =? 1)
  | TxEip4844 t => rs (Eip4844.r t) (Eip4844.s t) /\ Eip4844.y_parity t = (parity =? 1)
  | TxEip7702 _ => False
  end.

Lemma word_bytes b : bytes b -> len b = 32 -> u_to_big_endian (from_be b) = b.
Proof.
  intros Hb Hl. rewrite to_big_endian_law by (apply from_be_in_range; [done|lia]).
  replace 32%nat with (length b) by (unfold len in Hl; lia). by apply to_be_from_be.
Qed.

(** A signature of a key, its fields read back from numbers. *)
Lemma recover_signed m k sg : sign_message m k = Ok sg ->
  exists a, public_key_to_address (E := CryptoError) (secp_public_key k) = Ok a /\
    recover_address m (mkSignature (u_to_big_endian (from_be (sig_r sg)))
      (u_to_big_endian (from_be (sig_s sg))) (sig_v sg)) = Ok a.
Proof.
  intros Hs. destruct (sign_message_ok m k) as (v & Hs' & Hv). rewrite Hs in Hs'.
  injection Hs' as ->. cbn [sig_r sig_s sig_v].
  pose proof (sign_bytes m k) as [Hb Hl]. unfold len in Hl.
  rewrite !word_bytes; try (by auto with rust);
    try (unfold len; rewrite ?length_take, ?length_drop; lia).
  destruct (address_of_key (E := CryptoError) k) as (a & Ha & _). exists a. split; [done|].
  unfold recover_address. by rewrite recover_sig.
Qed.

Lemma parity_v sg : 27 <= sig_v sg <= 28 -> (if sig_v sg - 27 =? 1 then 28 else 27) = sig_v sg.
Proof using Type. intros Hv. case_bool; lia. Qed.

(** [sender] of a legacy transaction: the chain id and the [v] it derives. *)
Lemma legacy_sender_eq t (sg : Signature) : 27 <= sig_v sg <= 28 ->
  carries_signature (TxLegacy t) sg ->
  Legacy.sender t =
  (let? h := lift_ok (Legacy.signing_hash (chain_id_of (Legacy.v t)) t) in
   from_crypto (recover_address h (mkSignature (u_to_big_endian (from_be (sig_r sg)))
     (u_to_big_endian (from_be (sig_s sg))) (sig_v sg)))).
Proof using Type.
  intros Hsv [[Hr Hs] Hv]. unfold Legacy.sender, chain_id_of. rewrite <- Hr, <- Hs.
  destruct Hv as [Hv|(c & Hc & Hv & Hlt)].
  - rewrite (proj2 (Z.leb_gt _ _)) by lia. cbn [obind]. unfold usub.
    rewrite checked_arith_ok by (unfold uint; lia). cbn [obind].
    unfold uadd, wrap. rewrite Z.mod_small by lia.
    rewrite checked_arith_ok by (unfold uint; lia). cbn [obind].
    by replace (Legacy.v t - 27 + 27) with (sig_v sg) by lia.
  - rewrite (proj2 (Z.leb_le _ _)) by lia. unfold usub.
    rewrite !checked_arith_ok by (unfold uint; lia). cbn [obind].
    unfold uadd, wrap. rewrite Z.mod_small by zlia.
    rewrite checked_arith_ok by (unfold uint; zlia). cbn [obind].
    by replace ((Legacy.v t - 35) mod 2 + 27) with (sig_v sg) by zlia.
Qed.

(** The sender of a signed transaction is the address of the key that
    signed its signing hash: for legacy transactions, with and without a chain
    id in [v], and for the types 1 to 3, in either build profile. *)
Theorem sender_is_signer t k h sg : tx_ok t -> signing_hash_of t = Ok h ->
  sign_message h k = Ok sg -> sig_v sg <= 28 -> carries_signature t sg ->
  exists a, public_key_to_address (E := CryptoError) (secp_public_key k) = Ok a /\
    sender_of t = Some (Ok a).
Proof.
  intros Ht Hh Hs Hv Hc. destruct (recover_signed h k sg Hs) as (a & Ha & Hrec).
  assert (Hvr : 27 <= sig_v sg <= 28).
  { destruct (sign_message_ok h k) as (v & Hs' & Hv'). rewrite Hs in Hs'. injection Hs' as ->.
    simpl in *. pose proof (sign_recovery_id h k). lia. }
  exists a. split; [done|]. destruct t as [t|t|t|t|t]; cbn [sender_of signing_hash_of] in *; f_equal.
  - rewrite (legacy_sender_eq t sg) by done. rewrite Hh. cbn [lift_ok obind]. by rewrite Hrec.
  - destruct Hc as [[Hr Hs'] Hy]. unfold Eip2930.sender. rewrite Hh. cbn [lift_ok obind].
    by rewrite Hr, Hs', Hy, parity_v, Hrec.
  - destruct Hc as [[Hr Hs'] Hy]. unfold Eip1559.sender. rewrite Hh. cbn [lift_ok obind].
    by rewrite Hr, Hs', Hy, parity_v, Hrec.
  - destruct Hc as [[Hr Hs'] Hy]. unfold Eip4844.sender. rewrite Hh. cbn [lift_ok obind].
    by rewrite Hr, Hs', Hy, parity_v, Hrec.
  - destruct Hc.
Qed.
End senders.

(** * Decoding legacy transactions *)

Section legacy_decode.
Context `{U256Laws} `{Profile}.

Lemma slift_inv {S E A B} (m : outcome E A) (k : A -> SM S E B) s b s' :
  sbind (slift m) k s = (Ok b, s') -> exists a, m = Ok a /\ k a s = (Ok b, s').
Proof using Type. unfold sbind, slift. destruct m; try done. eauto. Qed.

Lemma decode_field_inv {A} (impl : RlpImpl A) items i d a d' :
  Legacy.decode_field impl items i d = (Ok a, d') -> exists x,
    index (E := RlpError) items i = Ok x /\ d' = d /\ rlp_decode impl (item_bytes x) = Ok a.
Proof using Type.
  unfold Legacy.decode_field. intros Hd. apply slift_inv in Hd as (x & Hx & Hd).
  apply slift_inv in Hd as (b & Hb & Hd). unfold slift in Hd. injection Hd as Hd <-.
  exists x. split_and!; [done|done|]. unfold rlp_encode in Hb. cbn [encode impl_RlpItem] in Hb.
  rewrite encode_rlpitem_eq in Hb. simpl in Hb. injection Hb as <-. exact Hd.
Qed.

(** A string of 21 bytes, or the string 0x80, is not an optional address. *)
Lemma wrapped_address_refused o a : wf_opt_address o ->
  rlp_decode (impl_option impl_Address) (item_bytes (RString (item_bytes (option_item o)))) <> Ok a.
Proof using Type.
  destruct o as [b|]; intros Ho; [|vm_compute; discriminate]. destruct Ho as [Hb Hl].
  set (c := item_bytes (option_item (Some b))).
  assert (Hc : bytes c /\ len c = 21).
  { unfold c. change (option_item (Some b)) with (RString b). cbn [item_bytes]. rewrite len_app.
    assert (Hh : string_header b = [0x80 + 20]).
    { unfold string_header. destruct b as [|x [|y b]]; [done|done|]. by rewrite Hl. }
    rewrite Hh, Hl. split; [|done]. apply bytes_app. split; [|done].
    repeat constructor; unfold byte; lia. }
  destruct Hc as [Hcb Hcl]. clearbody c. cbn [item_bytes]. unfold rlp_decode.
  assert (Hs : string_header c = [0x80 + 21]).
  { unfold string_header. destruct c as [|x [|y c]]; [done|done|]. by rewrite Hcl. }
  rewrite Hs. unfold decode, impl_option, decode_option.
  erewrite sbind_ok by (apply (peek_first (fun x => x =? 0x80) [] (0x80 + 21) c)).
  change (0x80 + 21 =? 0x80) with false. cbv iota.
  pose proof (decode_bytes_parses c Hcb ltac:(lia) [] []) as Hp.
  unfold before in Hp. rewrite Hs, app_nil_r in Hp.
  assert (Hd : decode impl_Address (mkDecoder ([] ++ (0x80 + 21) :: c) (len (@nil Z)))
    = (Err (RlpDecoder (InvalidData ("Invalid address length: " +:+ pretty (len c)))),
       after [] ([0x80 + 21] ++ c) [])).
  { unfold decode, impl_Address, decode_fixed. erewrite sbind_ok; [|apply Hp].
    - rewrite Hcl. reflexivity.
    - cbn [app]. rewrite len_cons. unfold isize_max. lia. }
  unfold sbind. rewrite Hd. discriminate.
Qed.

#[local] Instance item_wire : Wire (encode impl_RlpItem) (fun _ => True) id.
Proof using Type. split; [intros i e _; apply encode_rlpitem_eq|done]. Qed.

(** Decoding a list of items from its encoding. *)
Lemma decode_wrapped xs : wf_item (wrap_fields xs) -> len (item_bytes (wrap_fields xs)) <= isize_max ->
  decode_list impl_RlpItem (decoder_new (item_bytes (wrap_fields xs)))
  = (Ok (map (fun i => RString (item_bytes i)) xs),
     mkDecoder (item_bytes (wrap_fields xs)) (len (item_bytes (wrap_fields xs)))).
Proof using Type.
  set (l := map (fun i => RString (item_bytes i)) xs). intros Hwf Hsz.
  assert (Hw : wf_list impl_RlpItem wf_item l).
  { apply wf_item_list in Hwf as [Hp Hf]. split; [done|]. intros e He.
    rewrite (encode_items_wire _ (fun _ => True) id) in He by (apply _ || by apply Forall_true).
    injection He as <-. exact Hp. }
  destruct (codec_roundtrip (RlpCodec := list_codec impl_RlpItem wf_item _) _ Hw)
    as (bs & Henc & _ & _ & Hparse).
  assert (Hbs : bs = item_bytes (wrap_fields xs)).
  { specialize (Henc encoder_new). cbn [encode impl_list] in Henc.
    rewrite (wire_encode (Wire := list_wire impl_RlpItem _ _ item_wire)) in Henc by by apply Forall_true.
    injection Henc as Henc. rewrite map_id in Henc. symmetry. exact Henc. }
  subst bs. specialize (Hparse _ [] []). unfold before, after in Hparse.
  rewrite !app_nil_r in Hparse. cbn [app] in Hparse. by apply Hparse.
Qed.

(** A legacy transaction is never read back from its own encoding: its fields
    are encoded twice, decoding undoes this once, and the recipient is refused
    (as an address of 1 or 21 bytes) if nothing was refused before. *)
Theorem legacy_encoding_is_not_decoded t t' : tx_ok (TxLegacy t) ->
  exists b, rlp_encode Legacy.impl t = Ok b /\ rlp_decode Legacy.impl b <> Ok t'.
Proof.
  intros [Ht Hl]. eexists. split; [by apply (record_rlp_encode _ (legacy_body ++ legacy_sig))|].
  set (xs := field_items (legacy_body ++ legacy_sig) t). intros Hd.
  unfold rlp_decode in Hd. destruct (decode Legacy.impl _) as [r d'] eqn:Hdec. simpl in Hd. subst r.
  cbn [decode Legacy.impl] in Hdec. unfold Legacy.decode in Hdec.
  apply sbind_inv in Hdec as (items & d1 & Hitems & Hdec).
  unfold record_bytes in Hitems, Hl. fold xs in Hitems, Hl. rewrite decode_wrapped in Hitems;
    [|by apply small_item_wf; [apply record_octets|]|unfold isize_max; lia].
  injection Hitems as <- <-.
  change (len (map (fun i => RString (item_bytes i)) xs) =? 9) with true in Hdec. cbn [negb] in Hdec.
  do 3 (apply sbind_inv in Hdec as (? & ? & _ & Hdec)).
  apply sbind_inv in Hdec as (o & d2 & Hf & _). apply decode_field_inv in Hf as (y & Hy & _ & Ho).
  injection Hy as <-. revert Ho. apply wrapped_address_refused.
  do 3 (apply Forall_cons_1 in Ht as [_ Ht]). by apply Forall_cons_1 in Ht as [? _].
Qed.
End legacy_decode.

(** * Witnesses *)

Definition sample_legacy : Legacy.tx :=
  Legacy.mk 42 1000000000 50000 None 0 [0x60; 0x80; 0x60; 0x40] 37 1 2.
Definition sample_1559 : Eip1559.tx :=
  Eip1559.mk 1 7 1000000000 2000000000 21000 (Some (replicate 20 0x35)) 10 []
    [mkAccessListItem (replicate 20 1) [replicate 32 2]] false 0 2313.

Ltac in_range :=
  repeat lazymatch goal with
  | |- Forall _ _ => constructor
  | |- _ /\ _ => split
  | |- wf_fixed _ _ => split
  | |- bytes _ => constructor
  | |- wf_opt_address (Some _) => split
  | |- record_ok _ _ => split
  | |- fields_wf _ _ => unfold fields_wf
  | |- fs_wf _ _ => simpl
  end; try (unfold uint, byte; lia); try (vm_compute; reflexivity); try exact I.

Lemma sample_legacy_ok : tx_ok (TxLegacy sample_legacy).
Proof. unfold tx_ok. in_range. Qed.
Lemma sample_1559_ok : tx_ok (TxEip1559 sample_1559).
Proof. unfold tx_ok. in_range. Qed.

Lemma transaction_hash_binding_witness :
  TxEip1559 sample_1559 = TxEip1559 sample_1559 \/
  collide (preimage (TxEip1559 sample_1559)) (preimage (TxEip1559 sample_1559)).
Proof. apply transaction_hash_binding; [apply sample_1559_ok..|reflexivity]. Defined.

(** [sample_legacy] with another signature, on the same chain. *)
Definition resigned_legacy : Legacy.tx :=
  Legacy.mk 42 1000000000 50000 None 0 [0x60; 0x80; 0x60; 0x40] 38 5 6.
Lemma signing_hash_binding_witness :
  erase (TxLegacy sample_legacy) = erase (TxLegacy resigned_legacy) \/
  collide (sign_preimage (TxLegacy sample_legacy)) (sign_preimage (TxLegacy resigned_legacy)).
Proof.
  apply signing_hash_binding.
  - apply sample_legacy_ok.
  - unfold tx_ok. in_range.
  - vm_compute. reflexivity.
  - vm_compute. reflexivity.
Defined.

Lemma sender_is_signer_witness : exists a,
  @sender_of _ _ _ dev_profile (TxEip1559 sample_1559) = Some (Ok a) /\ len a = 20.
Proof.
  destruct (@sender_is_signer _ _ _ _ _ _ _ dev_profile (TxEip1559 sample_1559) [9; 9]
    (keccak256 (sign_preimage (TxEip1559 sample_1559)))
    (mkSignature (replicate 32 0) (replicate 30 0 ++ [9; 9]) 27)) as (a & Ha & Hs).
  - apply sample_1559_ok.
  - apply signing_hash_eq, sample_1559_ok.
  - vm_compute. reflexivity.
  - simpl. lia.
  - split; [split|]; vm_compute; reflexivity.
  - exists a. split; [exact Hs|]. vm_compute in Ha. injection Ha as <-. reflexivity.
Defined.

Lemma legacy_encoding_is_not_decoded_witness :
  exists b, rlp_encode Legacy.impl sample_legacy = Ok b /\
    @rlp_decode dev_profile _ Legacy.impl b <> Ok sample_legacy.
Proof. apply (@legacy_encoding_is_not_decoded _ _ dev_profile), sample_legacy_ok. Defined.
