(* ===== verification/Block.v ===== *)
(** Blocks: crates/core/src/block.rs.  [Header], [Withdrawal] and [Block] with
    their hand-written RLP encodings, which wrap the list header and the payload
    in byte strings ([encode_as_list]), and the [ListDecoder] that reads a list
    of items and decodes each of them again.  Block decoding stops at the
    transactions: the [Decode] of the transaction enum calls a decoder method
    the rlp crate does not have, so it is a parameter of [decode_block]. *)
From stdpp Require Import base list numbers option strings.
From Stdlib Require Import ZArith Lia.
From S2P Require Import Prelude U256 Rlp Transaction.

(** ** Encoding *)

(** The file has its own copy of the function of crates/rlp/src/encode.rs. *)
Definition block_encode_length (n : Z) : list Z := encode_length n.

(** The [match list_bytes.len()] every [encode] of the file ends with. *)
Definition encode_as_list (list_bytes : list Z) (e : Encoder) : Encoder :=
  let n := len list_bytes in
  if n <? 56 then
    let e := encode_bytes e [0xc0 + wrap 8 n] in
    encode_bytes e list_bytes
  else
    let len_bytes := block_encode_length n in
    let e := encode_bytes e [0xf7 + wrap 8 (len len_bytes)] in
    let e := encode_bytes e len_bytes in
    encode_bytes e list_bytes.

(** A sequence of [x.encode(&mut list_encoder)] statements. *)
Fixpoint encode_seq (l : list (Encoder -> Infallible Encoder)) (e : Encoder) : Infallible Encoder :=
  match l with
  | [] => Ok e
  | f :: rest => let? e := f e in encode_seq rest e
  end.
(** [if let Some(x) = &self.field { x.encode(&mut list_encoder) }] *)
Definition encode_if_some {A} (impl : RlpImpl A) (o : option A) (e : Encoder) : Infallible Encoder :=
  match o with Some x => encode impl x e | None => Ok e end.
Definition encode_listed (l : list (Encoder -> Infallible Encoder)) (e : Encoder) : Infallible Encoder :=
  let? list_encoder := encode_seq l encoder_new in
  Ok (encode_as_list (finish list_encoder) e).

(** [encode_vec] and [encode_rlp_item] *)
Definition encode_vec {A} (enc : A -> Encoder -> Infallible Encoder) (items : list A) (e : Encoder) :
    Infallible Encoder :=
  let? list_encoder := encode_items enc items encoder_new in
  Ok (encode_as_list (finish list_encoder) e).
Fixpoint encode_rlp_item (i : RlpItem) (e : Encoder) : Infallible Encoder :=
  match i with
  | RString b => Ok (encode_bytes e b)
  | RList items => encode_vec encode_rlp_item items e
  end.

(** ** The list decoder *)

Record ListDecoder := mkListDecoder { ld_items : list RlpItem; ld_position : Z }.
Notation LM := (SM ListDecoder RlpError).
Definition expected_list (what : string) : RlpError := RlpDecoder (InvalidData what).

Section list_decoder.
Context `{Profile}.
Definition list_decoder_new : DM ListDecoder :=
  let! d := sget in
  let! i := decode_item (S (length (data d))) in
  match as_list i with
  | Some items => sret (mkListDecoder items 0)
  | None => sfail (expected_list "Expected list")
  end.
Definition ld_is_finished (l : ListDecoder) : bool := len (ld_items l) <=? ld_position l.
(** Re-encode an item and decode it with the proper type. *)
Definition redecode {A} (dec : DM A) (i : RlpItem) : outcome RlpError A :=
  let? e := lift_ok (encode_rlp_item i encoder_new) in
  (dec (decoder_new (finish e))).1.
Definition ld_decode {A} (dec : DM A) : LM A :=
  let! l := sget in
  if len (ld_items l) <=? ld_position l then sfail (RlpDecoder UnexpectedEof)
  else
    let! item := slift (index (ld_items l) (ld_position l)) in
    let! p := slift (uadd 64 (ld_position l) 1) in
    sput (mkListDecoder (ld_items l) p) ;;!
    slift (redecode dec item).
Definition ld_decode_if_more {A} (dec : DM A) : LM (option A) :=
  let! l := sget in
  if negb (ld_is_finished l) then let! x := ld_decode dec in sret (Some x) else sret None.
(** Run the list decoder on what [list_decoder_new] read. *)
Definition with_list {A} (body : LM A) : DM A :=
  let! l := list_decoder_new in slift (body l).1.
End list_decoder.

(** ** Headers *)

Module Header.
Record t := mk {
  parent_hash : list Z;
  ommers_hash : list Z;
  beneficiary : list Z;
  state_root : list Z;
  transactions_root : list Z;
  receipts_root : list Z;
  logs_bloom : list Z;
  difficulty : Z;
  number : Z;
  gas_limit : Z;
  gas_used : Z;
  timestamp : Z;
  extra_data : list Z;
  mix_hash : list Z;
  nonce : Z;
  base_fee_per_gas : option Z;
  blob_gas_used : option Z;
  excess_blob_gas : option Z;
  parent_beacon_block_root : option (list Z);
  withdrawals_root : option (list Z);
}.

Definition zero_hash : list Z := replicate 32 0.
Definition new : t :=
  mk zero_hash zero_hash (replicate 20 0) zero_hash zero_hash zero_hash (replicate 256 0)
    0 0 0 0 0 [] zero_hash 0 None None None None None.
Definition is_genesis (h : t) : bool :=
  bool_decide (parent_hash h = zero_hash) && (number h =? 0).
(** [H256::from_low_u64_be] *)
Definition seal (h : t) : list (list Z) := [replicate 24 0 ++ to_be 8 (nonce h); mix_hash h].

Section ops.
Context `{U256Ops} `{KeccakOps}.
Definition encode (h : t) : Encoder -> Infallible Encoder :=
  encode_listed
    [Rlp.encode impl_H256 (parent_hash h); Rlp.encode impl_H256 (ommers_hash h);
     Rlp.encode impl_Address (beneficiary h); Rlp.encode impl_H256 (state_root h);
     Rlp.encode impl_H256 (transactions_root h); Rlp.encode impl_H256 (receipts_root h);
     Rlp.encode impl_Bloom (logs_bloom h); Rlp.encode impl_U256 (difficulty h);
     Rlp.encode impl_U256 (number h); Rlp.encode impl_U256 (gas_limit h);
     Rlp.encode impl_U256 (gas_used h); Rlp.encode impl_u64 (timestamp h);
     Rlp.encode impl_vec_u8 (extra_data h); Rlp.encode impl_H256 (mix_hash h);
     Rlp.encode impl_u64 (nonce h);
     encode_if_some impl_U256 (base_fee_per_gas h);
     encode_if_some impl_H256 (withdrawals_root h);
     encode_if_some impl_u64 (blob_gas_used h);
     encode_if_some impl_u64 (excess_blob_gas h);
     encode_if_some impl_H256 (parent_beacon_block_root h)].
Definition hash (h : t) : Infallible (list Z) :=
  let? e := encode h encoder_new in Ok (keccak256 (finish e)).
Definition decode `{Profile} : DM t :=
  with_list (
    let! parent_hash := ld_decode (Rlp.decode impl_H256) in
    let! ommers_hash := ld_decode (Rlp.decode impl_H256) in
    let! beneficiary := ld_decode (Rlp.decode impl_Address) in
    let! state_root := ld_decode (Rlp.decode impl_H256) in
    let! transactions_root := ld_decode (Rlp.decode impl_H256) in
    let! receipts_root := ld_decode (Rlp.decode impl_H256) in
    let! logs_bloom := ld_decode (Rlp.decode impl_Bloom) in
    let! difficulty := ld_decode (Rlp.decode impl_U256) in
    let! number := ld_decode (Rlp.decode impl_U256) in
    let! gas_limit := ld_decode (Rlp.decode impl_U256) in
    let! gas_used := ld_decode (Rlp.decode impl_U256) in
    let! timestamp := ld_decode (Rlp.decode impl_u64) in
    let! extra_data := ld_decode (Rlp.decode impl_vec_u8) in
    let! mix_hash := ld_decode (Rlp.decode impl_H256) in
    let! nonce := ld_decode (Rlp.decode impl_u64) in
    let! base_fee_per_gas := ld_decode_if_more (Rlp.decode impl_U256) in
    let! withdrawals_root := ld_decode_if_more (Rlp.decode impl_H256) in
    let! blob_gas_used := ld_decode_if_more (Rlp.decode impl_u64) in
    let! excess_blob_gas := ld_decode_if_more (Rlp.decode impl_u64) in
    let! parent_beacon_block_root := ld_decode_if_more (Rlp.decode impl_H256) in
    sret (mk parent_hash ommers_hash beneficiary state_root transactions_root receipts_root
            logs_bloom difficulty number gas_limit gas_used timestamp extra_data mix_hash nonce
            base_fee_per_gas blob_gas_used excess_blob_gas parent_beacon_block_root
            withdrawals_root)).
Definition impl : RlpImpl t := mkRlpImpl encode (fun P => decode).
End ops.
End Header.

Module Withdrawal.
Record t := mk { index : Z; validator_index : Z; address : list Z; amount : Z }.
Definition encode (w : t) : Encoder -> Infallible Encoder :=
  encode_listed
    [Rlp.encode impl_u64 (index w); Rlp.encode impl_u64 (validator_index w);
     Rlp.encode impl_Address (address w); Rlp.encode impl_u64 (amount w)].
Definition decode `{Profile} : DM t :=
  with_list (
    let! index := ld_decode (Rlp.decode impl_u64) in
    let! validator_index := ld_decode (Rlp.decode impl_u64) in
    let! address := ld_decode (Rlp.decode impl_Address) in
    let! amount := ld_decode (Rlp.decode impl_u64) in
    sret (mk index validator_index address amount)).
Definition impl : RlpImpl t := mkRlpImpl encode (@decode).
End Withdrawal.

(** ** Blocks *)

Record Block := mkBlock {
  header : Header.t;
  transactions : list Transaction;
  ommers : list Header.t;
  withdrawals : option (list Withdrawal.t);
}.
Definition block_new (h : Header.t) : Block := mkBlock h [] [] None.

Section block.
Context `{U256Ops} `{KeccakOps}.
Definition hash_of_block (b : Block) : Infallible (list Z) := Header.hash (header b).
Definition block_number (b : Block) : Z := Header.number (header b).
Definition block_gas_limit (b : Block) : Z := Header.gas_limit (header b).
Definition block_gas_used (b : Block) : Z := Header.gas_used (header b).
Definition block_timestamp (b : Block) : Z := Header.timestamp (header b).
Definition block_difficulty (b : Block) : Z := Header.difficulty (header b).

Definition encode_block (b : Block) : Encoder -> Infallible Encoder :=
  encode_listed
    [Header.encode (header b);
     encode_vec encode_transaction (transactions b);
     encode_vec Header.encode (ommers b);
     fun e => match withdrawals b with
              | Some ws => encode_vec Withdrawal.encode ws e
              | None => Ok e
              end].

Context `{Profile} (decode_transaction : DM Transaction).
(** [for item in list { v.push(T::decode(..)?) }] *)
Fixpoint redecode_all {A} (dec : DM A) (l : list RlpItem) : outcome RlpError (list A) :=
  match l with
  | [] => Ok []
  | i :: rest =>
      let? x := redecode dec i in
      let? xs := redecode_all dec rest in
      Ok (x :: xs)
  end.
(** The next item of the list, a list itself, element by element. *)
Definition next_list {A} (what : string) (dec : DM A) : LM (list A) :=
  let! l := sget in
  let! item := slift (index (ld_items l) (ld_position l)) in
  let! p := slift (uadd 64 (ld_position l) 1) in
  sput (mkListDecoder (ld_items l) p) ;;!
  match as_list item with
  | Some items => slift (redecode_all dec items)
  | None => sfail (expected_list what)
  end.
Definition decode_block : DM Block :=
  with_list (
    let! h := ld_decode Header.decode in
    let! txs := next_list "Expected list for transactions" decode_transaction in
    let! oms := next_list "Expected list for ommers" Header.decode in
    let! l := sget in
    let! ws := (if negb (ld_is_finished l) then
                  let! ws := next_list "Expected list for withdrawals" Withdrawal.decode in
                  sret (Some ws)
                else sret None) in
    sret (mkBlock h txs oms ws)).
End block.
