(* ===== verification/BlockProofs.v ===== *)
(** What the encodings of block.rs determine: a header hash binds the header
    once it is known which optional fields are present, not otherwise; and no
    header, withdrawal or block is read back from its own encoding. *)
From stdpp Require Import base list numbers option strings.
From Stdlib Require Import ZArith Lia.
From S2P Require Import Prelude U256 Rlp RlpProofs Transaction TransactionProofs Block.

(** * What the encoders write *)

(** [f] appends the encodings of the items [xs]. *)
Definition writes (f : Encoder -> Infallible Encoder) (xs : list RlpItem) : Prop :=
  forall e, f e = Ok (extend_from_slice e (concat (map item_bytes xs))).

Lemma wire_writes {A} (impl : RlpImpl A) wf item a : Wire (encode impl) wf item -> wf a ->
  writes (encode impl a) [item a].
Proof. intros Hw Ha e. rewrite wire_encode by done. simpl. by rewrite app_nil_r. Qed.

Definition opt_items {A} (item : A -> RlpItem) (o : option A) : list RlpItem :=
  match o with Some a => [item a] | None => [] end.
Definition opt_wf {A} (wf : A -> Prop) (o : option A) : Prop :=
  match o with Some a => wf a | None => True end.
Lemma some_writes {A} (impl : RlpImpl A) wf item o : Wire (encode impl) wf item -> opt_wf wf o ->
  writes (encode_if_some impl o) (opt_items item o).
Proof.
  intros Hw Ho. destruct o as [a|]; simpl; [by apply (wire_writes impl wf item)|].
  intros [b]. unfold extend_from_slice. simpl. by rewrite app_nil_r.
Qed.

Lemma seq_writes fs xss : Forall2 writes fs xss -> writes (encode_seq fs) (concat xss).
Proof.
  intros Hw. induction Hw as [|f xs fs xss Hf _ IH]; intros e; simpl.
  - destruct e. unfold extend_from_slice. simpl. by rewrite app_nil_r.
  - rewrite Hf. simpl. rewrite IH, extend_extend. by rewrite map_app, concat_app.
Qed.

(** The byte strings [encode_as_list] writes for a payload. *)
Definition list_outer (p : list Z) : list RlpItem :=
  if len p <? 56 then [RString [0xc0 + len p]; RString p]
  else [RString [0xf7 + len (encode_length (len p))]; RString (encode_length (len p)); RString p].

Lemma encode_as_list_eq p e :
  encode_as_list p e = extend_from_slice e (concat (map item_bytes (list_outer p))).
Proof.
  unfold encode_as_list, block_encode_length, list_outer. pose proof (len_nonneg p).
  pose proof (encode_length_len (len p) (len_nonneg p)).
  destruct (len p <? 56) eqn:Hlt; rewrite ?Z.ltb_lt, ?Z.ltb_ge in Hlt; rewrite wrap_small by lia;
    rewrite !encode_bytes_eq, !extend_extend; cbn [map concat item_bytes];
    by rewrite app_nil_r, ?app_assoc.
Qed.

Lemma listed_writes fs xss : Forall2 writes fs xss ->
  writes (encode_listed fs) (list_outer (concat (map item_bytes (concat xss)))).
Proof.
  intros Hw e. unfold encode_listed. rewrite (seq_writes fs xss Hw). simpl.
  by rewrite encode_as_list_eq.
Qed.

Definition payload_ok (p : list Z) : Prop := bytes p /\ len p < 2 ^ 32.
Lemma list_outer_wf p : payload_ok p -> Forall wf_item (list_outer p).
Proof.
  intros [Hp Hl]. unfold list_outer. pose proof (len_nonneg p). pose proof (encode_length_len (len p) (len_nonneg p)).
  assert (Hs : forall b, byte b -> wf_item (RString [b])).
  { intros b Hb. split; [constructor; [done|constructor]|]. unfold len. simpl. lia. }
  assert (Hpw : wf_item (RString p)) by by split.
  assert (Hew : wf_item (RString (encode_length (len p)))) by (split; [apply encode_length_bytes|lia]).
  destruct (Z.ltb_spec (len p) 56); repeat (apply Forall_cons_2; [done || (apply Hs; unfold byte; lia)|]);
    apply Forall_nil_2.
Qed.

(** The encoding of a payload is not much longer than it. *)
Lemma string_header_short b : len (string_header b) <= 5.
Proof.
  destruct b as [|x [|y b]]; [done|by unfold string_header; case_bool|].
  set (l := x :: y :: b). pose proof (encode_length_len (len l) (len_nonneg l)).
  change (string_header l) with
    (if len l <? 56 then [0x80 + len l] else (0xb7 + len (encode_length (len l))) :: encode_length (len l)).
  destruct (len l <? 56); rewrite ?len_cons, ?len_nil; lia.
Qed.
Lemma list_outer_len p : len (concat (map item_bytes (list_outer p))) <= len p + 21.
Proof.
  unfold list_outer. pose proof (encode_length_len (len p) (len_nonneg p)). pose proof (len_nonneg p).
  pose proof string_header_short as Hh.
  destruct (len p <? 56); cbn [map concat item_bytes]; rewrite !len_app, ?len_nil, ?len_cons, ?len_nil.
  - pose proof (Hh [0xc0 + len p]). pose proof (Hh p). lia.
  - pose proof (Hh [0xf7 + len (encode_length (len p))]). pose proof (Hh p).
    pose proof (Hh (encode_length (len p))). lia.
Qed.

Lemma list_outer_last p : last (list_outer p) = Some (RString p).
Proof. unfold list_outer. by destruct (len p <? 56). Qed.

Lemma list_outer_inj p q : payload_ok p -> payload_ok q ->
  concat (map item_bytes (list_outer p)) = concat (map item_bytes (list_outer q)) -> p = q.
Proof.
  intros Hp Hq Heq.
  assert (Hl : list_outer p = list_outer q).
  { apply concat_items_inj; [by apply list_outer_wf..| |done].
    pose proof (list_outer_len p). destruct Hp. unfold isize_max. lia. }
  pose proof (list_outer_last p) as H1. rewrite Hl, list_outer_last in H1. by injection H1.
Qed.

(** * Headers *)

Section headers.
Context `{U256Laws} `{KeccakOps}.

(** The items of the fields, as [encode] writes them one after the other. *)
Definition header_field_items (h : Header.t) : list (list RlpItem) :=
  [[RString (Header.parent_hash h)]; [RString (Header.ommers_hash h)];
   [RString (Header.beneficiary h)]; [RString (Header.state_root h)];
   [RString (Header.transactions_root h)]; [RString (Header.receipts_root h)];
   [RString (Header.logs_bloom h)]; [uint_item 32 (Header.difficulty h)];
   [uint_item 32 (Header.number h)]; [uint_item 32 (Header.gas_limit h)];
   [uint_item 32 (Header.gas_used h)]; [uint_item 8 (Header.timestamp h)];
   [RString (Header.extra_data h)]; [RString (Header.mix_hash h)];
   [uint_item 8 (Header.nonce h)];
   opt_items (uint_item 32) (Header.base_fee_per_gas h);
   opt_items RString (Header.withdrawals_root h);
   opt_items (uint_item 8) (Header.blob_gas_used h);
   opt_items (uint_item 8) (Header.excess_blob_gas h);
   opt_items RString (Header.parent_beacon_block_root h)].
Definition header_payload (h : Header.t) : list Z :=
  concat (map item_bytes (concat (header_field_items h))).

(** The fields are in range and the encoding is below 2^32 bytes. *)
Record header_ok (h : Header.t) : Prop := {
  ok_parent : wf_fixed 32 (Header.parent_hash h);
  ok_ommers : wf_fixed 32 (Header.ommers_hash h);
  ok_beneficiary : wf_fixed 20 (Header.beneficiary h);
  ok_state : wf_fixed 32 (Header.state_root h);
  ok_transactions : wf_fixed 32 (Header.transactions_root h);
  ok_receipts : wf_fixed 32 (Header.receipts_root h);
  ok_bloom : wf_fixed 256 (Header.logs_bloom h);
  ok_difficulty : uint 256 (Header.difficulty h);
  ok_number : uint 256 (Header.number h);
  ok_gas_limit : uint 256 (Header.gas_limit h);
  ok_gas_used : uint 256 (Header.gas_used h);
  ok_timestamp : uint 64 (Header.timestamp h);
  ok_extra : bytes (Header.extra_data h);
  ok_mix : wf_fixed 32 (Header.mix_hash h);
  ok_nonce : uint 64 (Header.nonce h);
  ok_base_fee : opt_wf (uint 256) (Header.base_fee_per_gas h);
  ok_withdrawals : opt_wf (wf_fixed 32) (Header.withdrawals_root h);
  ok_blob_used : opt_wf (uint 64) (Header.blob_gas_used h);
  ok_blob_excess : opt_wf (uint 64) (Header.excess_blob_gas h);
  ok_beacon : opt_wf (wf_fixed 32) (Header.parent_beacon_block_root h);
  ok_size : len (header_payload h) < 2 ^ 32;
}.

Lemma bloom_wire : Wire (encode impl_Bloom) (wf_fixed 256) RString.
Proof using Type. split; [intros a e _; simpl; by rewrite encode_bytes_eq|by intros a b _ _ [= ->]]. Qed.

Lemma header_encode_writes h : header_ok h ->
  writes (Header.encode h) (list_outer (header_payload h)).
Proof.
  intros []. apply listed_writes. unfold header_field_items.
  repeat (apply Forall2_cons; split); [..|apply Forall2_nil; exact I].
  all: first
    [ eapply wire_writes; [apply h256_wire|assumption]
    | eapply wire_writes; [apply address_wire|assumption]
    | eapply wire_writes; [apply bloom_wire|assumption]
    | eapply wire_writes; [apply bytes_wire|assumption]
    | eapply wire_writes; [apply u256_wire|assumption]
    | eapply wire_writes; [apply u64_wire|assumption]
    | eapply some_writes; [apply h256_wire|assumption]
    | eapply some_writes; [apply u256_wire|assumption]
    | eapply some_writes; [apply u64_wire|assumption] ].
Qed.

(** The bytes [Header::hash] digests. *)
Definition header_bytes (h : Header.t) : list Z :=
  concat (map item_bytes (list_outer (header_payload h))).
Lemma header_hash_eq h : header_ok h -> Header.hash h = Ok (keccak256 (header_bytes h)).
Proof. intros Hh. unfold Header.hash. by rewrite header_encode_writes. Qed.

Lemma octets_opt {A} (item : A -> RlpItem) wf o : (forall a, wf a -> octets (item a)) ->
  opt_wf wf o -> Forall octets (opt_items item o).
Proof using Type. intros Hw. destruct o; simpl; [by constructor; [apply Hw|]|by constructor]. Qed.

Lemma header_items_octets h : header_ok h -> Forall octets (concat (header_field_items h)).
Proof using Type.
  intros []. apply Forall_concat. unfold header_field_items.
  assert (Hf : forall n b, wf_fixed n b -> octets (RString b)) by by intros n b [].
  assert (Hb : forall b, bytes b -> octets (RString b)) by done.
  assert (H64 : forall v, uint 64 v -> octets (uint_item 8 v)) by (intros; by apply octets_uint).
  assert (H256 : forall v, uint 256 v -> octets (uint_item 32 v)) by (intros; by apply octets_uint).
  repeat (apply Forall_cons; split); try apply Forall_nil; try exact I; eauto;
    (eapply octets_opt; [|eassumption]; eauto).
Qed.

Lemma small_items xs : Forall octets xs -> len (concat (map item_bytes xs)) < 2 ^ 32 ->
  Forall wf_item xs /\ bytes (concat (map item_bytes xs)).
Proof using Type.
  induction 1 as [|i xs Hi _ IH]; cbn [map concat]; [intros _; by split; constructor|].
  rewrite len_app. intros Hs. pose proof (len_nonneg (item_bytes i)).
  pose proof (len_nonneg (concat (map item_bytes xs))). destruct IH as [Hw Hb]; [lia|].
  split; [constructor; [apply small_item_wf; [done|lia]|done]|].
  apply bytes_app. split; [apply item_bytes_octets; [done|lia]|done].
Qed.
Lemma header_small h : header_ok h ->
  Forall wf_item (concat (header_field_items h)) /\ bytes (header_payload h).
Proof using Type. intros Hh. apply small_items; [by apply header_items_octets|by destruct Hh]. Qed.

(** Which optional fields are present. *)
Definition optional_fields (h : Header.t) : list bool :=
  [bool_decide (is_Some (Header.base_fee_per_gas h));
   bool_decide (is_Some (Header.withdrawals_root h));
   bool_decide (is_Some (Header.blob_gas_used h));
   bool_decide (is_Some (Header.excess_blob_gas h));
   bool_decide (is_Some (Header.parent_beacon_block_root h))].

Lemma concat_inj {A} (xss yss : list (list A)) : Forall2 (fun x y => length x = length y) xss yss ->
  concat xss = concat yss -> xss = yss.
Proof using Type.
  induction 1 as [|x y xss yss Hl _ IH]; [done|]. simpl. intros Heq.
  apply app_inj_1 in Heq as [-> Heq]; [|done]. by rewrite IH.
Qed.
Lemma opt_items_length {A B} (f : A -> RlpItem) (g : B -> RlpItem) o o' :
  bool_decide (is_Some o) = bool_decide (is_Some o') ->
  length (opt_items f o) = length (opt_items g o').
Proof using Type. destruct o, o'; simpl; rewrite ?bool_decide_eq_true_2, ?bool_decide_eq_false_2; done. Qed.
Lemma opt_items_inj {A} (f : A -> RlpItem) (wf : A -> Prop) o o' :
  (forall a b, wf a -> wf b -> f a = f b -> a = b) -> opt_wf wf o -> opt_wf wf o' ->
  opt_items f o = opt_items f o' -> o = o'.
Proof using Type.
  intros Hi. destruct o, o'; simpl; try done. intros Ha Hb [= Heq]. f_equal. by apply Hi.
Qed.

Lemma header_fields_inj h h' : header_ok h -> header_ok h' ->
  header_field_items h = header_field_items h' -> h = h'.
Proof using Type.
  intros [] [] Heq. destruct h, h'; cbn [Header.parent_hash Header.ommers_hash Header.beneficiary
    Header.state_root Header.transactions_root Header.receipts_root Header.logs_bloom
    Header.difficulty Header.number Header.gas_limit Header.gas_used Header.timestamp
    Header.extra_data Header.mix_hash Header.nonce Header.base_fee_per_gas Header.withdrawals_root
    Header.blob_gas_used Header.excess_blob_gas Header.parent_beacon_block_root header_field_items] in *.
  assert (H64 : forall a b, uint 64 a -> uint 64 b -> uint_item 8 a = uint_item 8 b -> a = b)
    by (intros a b ? ? [= ?]; by apply (minimal_be_inj 8)).
  assert (H256 : forall a b, uint 256 a -> uint 256 b -> uint_item 32 a = uint_item 32 b -> a = b)
    by (intros a b ? ? [= ?]; by apply (minimal_be_inj 32)).
  assert (Hs : forall a b, wf_fixed 32 a -> wf_fixed 32 b -> RString a = RString b -> a = b)
    by by intros a b _ _ [= ->].
  injection Heq as <- <- <- <- <- <- <- Hd Hn Hg Hu Ht <- <- Hno Hbf Hwr Hbu Heb Hpb.
  f_equal; first [done | eapply minimal_be_inj; [..|eassumption]; by unfold uint in *
    | eapply opt_items_inj; [..|eassumption]; eassumption].
Qed.

(** A header hash stands for one header, once it is known which optional
    fields it has.  If two headers with fields in range and encodings below
    2^32 bytes have the same optional fields present and the same [hash], they
    are equal, or their two encodings are a collision of Keccak-256. *)
Theorem header_hash_binding h h' : header_ok h -> header_ok h' ->
  optional_fields h = optional_fields h' -> Header.hash h = Header.hash h' ->
  h = h' \/ collide (header_bytes h) (header_bytes h').
Proof.
  intros Hh Hh' Ho Heq. rewrite !header_hash_eq in Heq by done.
  destruct (digest_binds _ _ Heq) as [Hb|]; [left|by right].
  destruct (header_small h Hh) as [Hw Hp], (header_small h' Hh') as [Hw' Hp'].
  pose proof (ok_size h Hh). pose proof (ok_size h' Hh').
  apply list_outer_inj in Hb; [|by split..].
  apply concat_items_inj in Hb; [|done..|unfold header_payload, isize_max in *; lia].
  apply header_fields_inj; [done..|]. apply concat_inj; [|done]. injection Ho as ? ? ? ? ?.
  repeat (apply Forall2_cons; split); try apply Forall2_nil; try done; by apply opt_items_length.
Qed.

(** A 32-byte string that does not start with 0 is also the minimal encoding of
    a 256-bit number. *)
Lemma uint_item_word w : wf_fixed 32 w -> hd 0 w <> 0 ->
  uint 256 (from_be w) /\ uint_item 32 (from_be w) = RString w.
Proof using Type.
  intros [Hb Hl] Hnz. pose proof (from_be_bound w Hb) as Hr. rewrite Hl in Hr. split; [done|].
  unfold uint_item, minimal_be. f_equal.
  assert (Hn : length w = 32%nat) by (unfold len in Hl; lia).
  rewrite <- Hn, to_be_from_be by done. destruct w as [|x w]; [done|]. simpl in Hnz.
  assert (Hx : 0 < x) by (inversion Hb as [|? ? Hx]; unfold byte in Hx; lia).
  assert (from_be (x :: w) <> 0).
  { rewrite from_be_cons. inversion Hb; subst. pose proof (from_be_bound w ltac:(done)). 
    pose proof (Z.pow_pos_nonneg 256 (len w) ltac:(lia) (len_nonneg w)). nia. }
  rewrite (proj2 (Z.eqb_neq _ _)) by done.
  assert (position (fun y => negb (y =? 0)) (x :: w) = Some 0%nat) as ->; [|done].
  unfold position. simpl. rewrite decide_True; [done|]. by rewrite (proj2 (Z.eqb_neq x 0)) by lia.
Qed.

(** [h] with its withdrawals root read as a base fee. *)
Definition root_as_base_fee (h : Header.t) (w : list Z) : Header.t :=
  Header.mk (Header.parent_hash h) (Header.ommers_hash h) (Header.beneficiary h)
    (Header.state_root h) (Header.transactions_root h) (Header.receipts_root h)
    (Header.logs_bloom h) (Header.difficulty h) (Header.number h) (Header.gas_limit h)
    (Header.gas_used h) (Header.timestamp h) (Header.extra_data h) (Header.mix_hash h)
    (Header.nonce h) (Some (from_be w)) (Header.blob_gas_used h) (Header.excess_blob_gas h)
    (Header.parent_beacon_block_root h) None.

(** Which optional fields are present is not part of a header hash: absent
    fields leave no mark in the list.  A header with a withdrawals root (whose
    first byte is not 0) and no base fee has the same [hash] as a header with
    that root as its base fee and no withdrawals root. *)
Theorem header_hash_ambiguous h w : header_ok h ->
  Header.base_fee_per_gas h = None -> Header.withdrawals_root h = Some w -> hd 0 w <> 0 ->
  let h' := root_as_base_fee h w in
  header_ok h' /\ h' <> h /\ Header.hash h' = Header.hash h.
Proof.
  intros Hh Hbf Hwr Hnz h'. pose proof Hh as [].
  rewrite Hwr in ok_withdrawals0. destruct (uint_item_word w) as [Hu Hi]; [done..|].
  assert (Hp : header_payload h' = header_payload h).
  { unfold header_payload, header_field_items, h', root_as_base_fee. rewrite Hbf, Hwr.
    cbn -[uint_item item_bytes from_be]. by rewrite Hi. }
  assert (Hok : header_ok h') by (split; simpl; first [assumption|exact Hu|exact I|by rewrite Hp]).
  split_and!; [done|intros Heq; rewrite <- Heq in Hbf; discriminate|].
  rewrite !header_hash_eq by done. unfold header_bytes. by rewrite Hp.
Qed.
End headers.

(** * Decoding what was encoded *)

Section decoding.
Context `{U256Ops} `{KeccakOps} `{Profile}.

Lemma list_outer_first p : exists x rest, 0xc0 <= x < 0x100 /\
  concat (map item_bytes (list_outer p)) = item_bytes (RString [x]) ++ rest.
Proof using Type.
  unfold list_outer. pose proof (encode_length_len (len p) (len_nonneg p)). pose proof (len_nonneg p).
  destruct (Z.ltb_spec (len p) 56); cbn [map concat]; do 2 eexists; (split; [|reflexivity]); lia.
Qed.

(** The first byte string the decoder meets is the list header, which is not a
    list. *)
Lemma with_list_refuses {A} (body : LM A) p :
  let b := concat (map item_bytes (list_outer p)) in
  len b <= isize_max -> (with_list body (decoder_new b)).1 = Err (expected_list "Expected list").
Proof using Type.
  intros b Hl. destruct (list_outer_first p) as (x & rest & Hx & Hb). fold b in Hb.
  unfold with_list, list_decoder_new, sbind, sget. cbn beta iota.
  assert (Hw : wf_item (RString [x])) by (split; [repeat constructor; unfold byte; lia|done]).
  assert (Hp : decode_item (S (length b)) (decoder_new b) =
    (Ok (RString [x]), after [] (item_bytes (RString [x])) rest)).
  { rewrite Hb in *. apply (decode_item_parses (RString [x]) Hw) with (pre := []); [|done].
    rewrite length_app. lia. }
  cbn [data decoder_new]. unfold decoder_new in *. by rewrite Hp.
Qed.

Lemma listed_bytes fs e : encode_listed fs encoder_new = Ok e ->
  exists p, finish e = concat (map item_bytes (list_outer p)).
Proof using Type.
  unfold encode_listed. destruct (encode_seq fs encoder_new) as [le| | |]; try discriminate.
  intros [= <-]. exists (finish le). rewrite encode_as_list_eq. done.
Qed.
Lemma listed_not_decoded {A} (body : LM A) fs b :
  (let? e := encode_listed fs encoder_new in Ok (finish e)) = Ok b -> len b <= isize_max ->
  (with_list body (decoder_new b)).1 = Err (expected_list "Expected list").
Proof using Type.
  destruct (encode_listed fs encoder_new) as [e| | |] eqn:He; try discriminate.
  intros [= <-] Hl. destruct (listed_bytes fs e He) as [p Hp]. rewrite Hp in *.
  by apply with_list_refuses.
Qed.

(** No header, withdrawal or block is read back from its own encoding.
    Whatever [encode] produces (up to isize::MAX bytes) starts with the list
    header as a byte string of its own, and [decode] fails with the error
    [Expected list] before it looks at a field. *)
Theorem block_encodings_are_not_decoded (decode_transaction : DM Transaction) :
  let refused {A} (r : outcome RlpError A) := r = Err (expected_list "Expected list") in
  (forall h b, rlp_encode Header.impl h = Ok b -> len b <= isize_max ->
     refused (rlp_decode Header.impl b)) /\
  (forall w b, rlp_encode Withdrawal.impl w = Ok b -> len b <= isize_max ->
     refused (rlp_decode Withdrawal.impl b)) /\
  (forall bl b, (let? e := encode_block bl encoder_new in Ok (finish e)) = Ok b ->
     len b <= isize_max -> refused (decode_block decode_transaction (decoder_new b)).1).
Proof using Type.
  split_and!; intros x b He Hl; apply (listed_not_decoded _ _ b He Hl).
Qed.
End decoding.

(** * Witnesses *)

Definition sample_root : list Z := 7 :: replicate 31 0.
Definition sample_header : Header.t :=
  Header.mk (replicate 32 1) (replicate 32 2) (replicate 20 3) (replicate 32 4) (replicate 32 5)
    (replicate 32 6) (replicate 256 0) 131072 12345 8000000 21000 1600000000 [0x74; 0x65]
    (replicate 32 8) 42 None None None None (Some sample_root).
Lemma sample_header_ok : header_ok sample_header.
Proof. split; simpl; in_range. Qed.

Lemma header_hash_binding_witness :
  sample_header = sample_header \/ collide (header_bytes sample_header) (header_bytes sample_header).
Proof. apply header_hash_binding; [apply sample_header_ok..|reflexivity|reflexivity]. Defined.

Lemma header_hash_ambiguous_witness :
  let h' := root_as_base_fee sample_header sample_root in
  header_ok h' /\ h' <> sample_header /\ Header.hash h' = Header.hash sample_header.
Proof. apply header_hash_ambiguous; [apply sample_header_ok|reflexivity|reflexivity|discriminate]. Defined.
