(* ===== verification/ForkChoice.v ===== *)
(** The fork choice: crates/consensus/src/fork_choice.rs.  [ForkChoice] with the
    four rules of [select_head], the block tree they walk, and the operations
    that maintain the known blocks.  The database handle is never used and is
    left out; the [async] methods await nothing.

    The loops follow hashes and end when the hashes do: they run with fuel, and
    [Diverge] is the result of an execution cut off (the recursion of
    [calculate_subtree_weight] would exhaust the stack). *)
From stdpp Require Import base list numbers option strings gmap.
From Stdlib Require Import ZArith Lia.
From S2P Require Import Prelude U256 Rlp Transaction Block.

Inductive ForkChoiceRule := LongestChain | GHOST | LMDGHOST | CasperFFG.
#[export] Instance ForkChoiceRule_eq_dec : EqDecision ForkChoiceRule.
Proof. solve_decision. Defined.

(** crates/consensus/src/engine.rs and lib.rs; the errors of the storage crate
    do not occur in the modelled code. *)
Inductive EngineError :=
  | InvalidSeal (s : string) | InvalidDifficulty (s : string) | InvalidTimestamp (s : string)
  | UnauthorizedProducer | NotReady.
Inductive ConsensusError :=
  | InvalidBlock (s : string) | CInvalidSignature (s : string) | InvalidValidator (s : string)
  | ForkChoiceError (s : string) | EngineFailed (e : EngineError).

Record BlockInfo := mkBlockInfo {
  info_header : Header.t;
  total_difficulty : Z;
  weight : Z;
  justified : bool;
  finalized : bool;
}.
Record Attestation := mkAttestation {
  att_validator : list Z;
  target_block : list Z;
  source_epoch : Z;
  target_epoch : Z;
}.
Notation Tree := (gmap (list Z) (list (list Z))).
Record ForkChoice := mkForkChoice {
  fc_rule : ForkChoiceRule;
  fc_blocks : gmap (list Z) BlockInfo;
  fc_children : Tree;
  fc_attestations : gmap (list Z) (list Attestation);
}.
Definition fork_choice_new : ForkChoice := mkForkChoice LongestChain ∅ ∅ ∅.
Definition set_rule (r : ForkChoiceRule) (s : ForkChoice) : ForkChoice :=
  mkForkChoice r (fc_blocks s) (fc_children s) (fc_attestations s).

Section fork_choice.
Context `{U256Ops} `{KeccakOps} `{Profile}.
Notation M := (outcome ConsensusError).

Definition header_hash (h : Header.t) : M (list Z) := lift_ok (Header.hash h).
Definition parent_of (b : Block) : list Z := Header.parent_hash (header b).

(** ** The longest chain *)

Definition get_total_difficulty (h : Header.t) : M Z := unwrap (u_mul (Header.number h) 1000000).
Fixpoint longest_loop (best_block : Block) (best_difficulty : Z) (l : list Block) : M Block :=
  match l with
  | [] => Ok best_block
  | block :: rest =>
      let? difficulty := get_total_difficulty (header block) in
      if best_difficulty <? difficulty then longest_loop block difficulty rest
      else if difficulty =? best_difficulty then
        let? a := header_hash (header block) in
        let? b := header_hash (header best_block) in
        longest_loop (if bytes_lt a b then block else best_block) best_difficulty rest
      else longest_loop best_block best_difficulty rest
  end.
Definition select_longest_chain (blocks : list Block) : M Block :=
  let? best_block := index blocks 0 in
  let? best_difficulty := get_total_difficulty (header best_block) in
  longest_loop best_block best_difficulty (drop 1 blocks).

(** ** The block tree *)

(** [tree.entry(parent).or_insert_with(Vec::new).push(hash)] *)
Definition tree_push (parent hash : list Z) (t : Tree) : Tree :=
  <[parent := default [] (t !! parent) ++ [hash]]> t.
Fixpoint build_tree_loop (blocks : list Block) (t : Tree) : M Tree :=
  match blocks with
  | [] => Ok t
  | block :: rest =>
      let? hash := header_hash (header block) in
      build_tree_loop rest (tree_push (parent_of block) hash t)
  end.
Definition build_block_tree (blocks : list Block) : M Tree := build_tree_loop blocks ∅.

(** The ancestors of the first block, and where the walk stops. *)
Fixpoint collect_ancestors (fuel : nat) (s : ForkChoice) (current : list Z)
    (ancestors : gset (list Z)) : M (gset (list Z) * list Z) :=
  match fuel with
  | O => Diverge
  | S fuel =>
      if bool_decide (current = Header.zero_hash) then Ok (ancestors, current)
      else
        let ancestors := {[current]} ∪ ancestors in
        match fc_blocks s !! current with
        | Some info => collect_ancestors fuel s (Header.parent_hash (info_header info)) ancestors
        | None => Ok (ancestors, current)
        end
  end.
Fixpoint climb (fuel : nat) (s : ForkChoice) (ancestors : gset (list Z)) (current : list Z) :
    M (list Z) :=
  match fuel with
  | O => Diverge
  | S fuel =>
      if negb (bool_decide (current = Header.zero_hash)) && negb (bool_decide (current ∈ ancestors)) then
        match fc_blocks s !! current with
        | Some info => climb fuel s ancestors (Header.parent_hash (info_header info))
        | None => Ok current
        end
      else Ok current
  end.
Fixpoint climb_all (fuel : nat) (s : ForkChoice) (ancestors : gset (list Z)) (current : list Z)
    (l : list Block) : M (list Z) :=
  match l with
  | [] => Ok current
  | block :: rest =>
      let? current := climb fuel s ancestors (parent_of block) in
      climb_all fuel s ancestors current rest
  end.
Definition find_common_ancestor (fuel : nat) (s : ForkChoice) (blocks : list Block) : M (list Z) :=
  match blocks with
  | [] => Err (ForkChoiceError "No blocks provided")
  | first :: rest =>
      let? start := collect_ancestors fuel s (parent_of first) ∅ in
      climb_all fuel s start.1 start.2 rest
  end.

(** ** Greedy walks *)

(** [for child in children { weight += f(child)? }] *)
Fixpoint add_weights (f : list Z -> M Z) (children : list (list Z)) (weight : Z) : M Z :=
  match children with
  | [] => Ok weight
  | child :: rest =>
      let? w := f child in
      let? weight := uadd 64 weight w in
      add_weights f rest weight
  end.
Fixpoint calculate_subtree_weight (fuel : nat) (tree : Tree) (root : list Z) : M Z :=
  match fuel with
  | O => Diverge
  | S fuel =>
      match tree !! root with
      | Some children => add_weights (calculate_subtree_weight fuel tree) children 1
      | None => Ok 1
      end
  end.

(** The first child of the largest weight. *)
Fixpoint heaviest (f : list Z -> M Z) (best : list Z) (best_weight : Z) (children : list (list Z)) :
    M (list Z) :=
  match children with
  | [] => Ok best
  | child :: rest =>
      let? w := f child in
      if best_weight <? w then heaviest f child w rest else heaviest f best best_weight rest
  end.
(** [while let Some(children) = tree.get(&current)] *)
Fixpoint walk (fuel : nat) (f : list Z -> M Z) (tree : Tree) (current : list Z) : M (list Z) :=
  match fuel with
  | O => Diverge
  | S fuel =>
      match tree !! current with
      | Some (first :: rest) =>
          let? w := f first in
          let? best := heaviest f first w rest in
          walk fuel f tree best
      | _ => Ok current
      end
  end.
Fixpoint find_block (blocks : list Block) (current : list Z) : M Block :=
  match blocks with
  | [] => Err (ForkChoiceError "Selected block not found")
  | b :: rest =>
      let? hash := header_hash (header b) in
      if bool_decide (hash = current) then Ok b else find_block rest current
  end.

Definition select_ghost (fuel : nat) (s : ForkChoice) (blocks : list Block) : M Block :=
  let? tree := build_block_tree blocks in
  let? current := find_common_ancestor fuel s blocks in
  let? current := walk fuel (calculate_subtree_weight fuel tree) tree current in
  find_block blocks current.

(** ** Attestations and finality *)

Definition get_latest_attestations (s : ForkChoice) : M (list Attestation) := Ok [].
Definition get_justified_checkpoint (s : ForkChoice) : M (list Z) := Ok Header.zero_hash.

(** [*weights.entry(target).or_insert(0) += 1] *)
Fixpoint count_attestations (l : list Attestation) (weights : gmap (list Z) Z) :
    M (gmap (list Z) Z) :=
  match l with
  | [] => Ok weights
  | a :: rest =>
      let? n := uadd 64 (default 0 (weights !! target_block a)) 1 in
      count_attestations rest (<[target_block a := n]> weights)
  end.
Definition select_lmd_ghost (fuel : nat) (s : ForkChoice) (blocks : list Block) : M Block :=
  let? attestations := get_latest_attestations s in
  let? weights := count_attestations attestations ∅ in
  let? current := find_common_ancestor fuel s blocks in
  let? tree := build_block_tree blocks in
  let? current := walk fuel (fun h => Ok (default 0 (weights !! h))) tree current in
  find_block blocks current.

Fixpoint descendant_loop (fuel : nat) (s : ForkChoice) (ancestor current : list Z) : M bool :=
  match fuel with
  | O => Diverge
  | S fuel =>
      if bool_decide (current = Header.zero_hash) then Ok false
      else if bool_decide (current = ancestor) then Ok true
      else match fc_blocks s !! current with
           | Some info => descendant_loop fuel s ancestor (Header.parent_hash (info_header info))
           | None => Ok false
           end
  end.
Definition is_descendant_of (fuel : nat) (s : ForkChoice) (block : Header.t) (ancestor : list Z) : M bool :=
  descendant_loop fuel s ancestor (Header.parent_hash block).
(** [filter(|b| is_descendant_of(b, checkpoint).unwrap_or(false))] *)
Fixpoint filter_descendants (fuel : nat) (s : ForkChoice) (checkpoint : list Z) (l : list Block) :
    M (list Block) :=
  match l with
  | [] => Ok []
  | b :: rest =>
      let? keep := match is_descendant_of fuel s (header b) checkpoint with
                   | Err _ => Ok false
                   | r => r
                   end in
      let? rest := filter_descendants fuel s checkpoint rest in
      Ok (if keep then b :: rest else rest)
  end.
Definition select_casper_ffg (fuel : nat) (s : ForkChoice) (blocks : list Block) : M Block :=
  let? justified_checkpoint := get_justified_checkpoint s in
  let? valid_blocks := filter_descendants fuel s justified_checkpoint blocks in
  match valid_blocks with
  | [] => Err (ForkChoiceError "No valid blocks from justified checkpoint")
  | _ => select_lmd_ghost fuel s valid_blocks
  end.

Definition select_head (fuel : nat) (s : ForkChoice) (blocks : list Block) : M Block :=
  match blocks with
  | [] => Err (ForkChoiceError "No blocks to select from")
  | [b] => Ok b
  | _ =>
      match fc_rule s with
      | LongestChain => select_longest_chain blocks
      | GHOST => select_ghost fuel s blocks
      | LMDGHOST => select_lmd_ghost fuel s blocks
      | CasperFFG => select_casper_ffg fuel s blocks
      end
  end.

(** ** Known blocks *)

Definition add_block (block : Block) (td : Z) (s : ForkChoice) : M ForkChoice :=
  let? hash := header_hash (header block) in
  let info := mkBlockInfo (header block) td 1 false false in
  Ok (mkForkChoice (fc_rule s) (<[hash := info]> (fc_blocks s))
        (tree_push (parent_of block) hash (fc_children s)) (fc_attestations s)).
Definition update_info (f : BlockInfo -> BlockInfo) (h : list Z) (s : ForkChoice) : ForkChoice :=
  mkForkChoice (fc_rule s) (alter f h (fc_blocks s)) (fc_children s) (fc_attestations s).
Definition mark_justified : list Z -> ForkChoice -> ForkChoice :=
  update_info (fun i => mkBlockInfo (info_header i) (total_difficulty i) (weight i) true (finalized i)).
Definition mark_finalized : list Z -> ForkChoice -> ForkChoice :=
  update_info (fun i => mkBlockInfo (info_header i) (total_difficulty i) (weight i) true true).

(** [while let Some(hash) = queue.pop()]; the last element of the vector is
    the head of the list. *)
Fixpoint keep_loop (fuel : nat) (children : Tree) (queue : list (list Z)) (to_keep : gset (list Z)) :
    M (gset (list Z)) :=
  match queue with
  | [] => Ok to_keep
  | hash :: queue =>
      match fuel with
      | O => Diverge
      | S fuel =>
          let queue := match children !! hash with
                       | Some cs => rev cs ++ queue
                       | None => queue
                       end in
          keep_loop fuel children queue ({[hash]} ∪ to_keep)
      end
  end.
Definition prune (fuel : nat) (finalized_hash : list Z) (s : ForkChoice) : M ForkChoice :=
  let? to_keep := keep_loop fuel (fc_children s) [finalized_hash] ∅ in
  Ok (mkForkChoice (fc_rule s)
        (filter (fun kv => kv.1 ∈ to_keep) (fc_blocks s))
        (filter (fun kv => kv.1 ∈ to_keep) (fc_children s))
        (filter (fun kv => kv.1 ∈ to_keep) (fc_attestations s))).
End fork_choice.
