(* ===== verification/ForkChoiceProofs.v ===== *)
(** What the fork choice selects: the longest-chain rule picks the best block
    whatever the order of the candidates, GHOST follows the heaviest subtrees
    to a leaf and its weights count descendants, the finality rule selects
    nothing, and pruning keeps exactly the descendants of a block. *)
From stdpp Require Import base list numbers option strings gmap.
From Stdlib Require Import ZArith Lia.
From S2P Require Import Prelude U256 Rlp RlpProofs Transaction TransactionProofs Block BlockProofs ForkChoice.

Section fork_choice_proofs.
Context `{U256Laws} `{KeccakLaws} `{Profile}.

(** The hash of a block with fields in range. *)
Definition bhash (b : Block) : list Z := keccak256 (header_bytes (header b)).
Definition block_ok (b : Block) : Prop := header_ok (header b).
Lemma header_hash_ok b : block_ok b -> header_hash (header b) = Ok (bhash b).
Proof. intros Hb. unfold header_hash. by rewrite header_hash_eq. Qed.

(** * The longest chain *)

(** The number proxy for the total difficulty fits 256 bits. *)
Definition difficulty_ok (b : Block) : Prop := Header.number (header b) * 1000000 < 2 ^ 256.
(** [r] has the larger number, or the same and not the larger hash. *)
Definition preferred (r b : Block) : Prop :=
  block_number b < block_number r \/
  block_number b = block_number r /\ bytes_le (bhash r) (bhash b).
Lemma preferred_refl b : preferred b b.
Proof using Type. right. split; [done|]. apply bytes_lt_irrefl. Qed.
Lemma preferred_trans a b c : preferred a b -> preferred b c -> preferred a c.
Proof using Type.
  intros [?|[? Hab]] [?|[? Hbc]]; [left; lia..|right; split; [lia|]].
  by apply (bytes_le_trans _ (bhash b)).
Qed.

Lemma total_difficulty_ok b : block_ok b -> difficulty_ok b ->
  get_total_difficulty (header b) = Ok (block_number b * 1000000).
Proof.
  intros Hb Hd. unfold get_total_difficulty. rewrite mul_law; [|apply Hb|by unfold uint].
  by rewrite (proj2 (Z.ltb_lt _ _)).
Qed.

Lemma longest_loop_best l best : block_ok best -> Forall block_ok l -> Forall difficulty_ok l ->
  exists r, longest_loop best (block_number best * 1000000) l = Ok r /\ r ∈ best :: l /\
    Forall (preferred r) (best :: l).
Proof.
  intros Hbest Hl Hd. revert best Hbest. induction Hl as [|b l Hb Hl IH]; intros best Hbest; simpl.
  { exists best. split_and!; [done|by left|]. apply Forall_singleton, preferred_refl. }
  apply Forall_cons in Hd as [Hdb Hd]. rewrite total_difficulty_ok by done. simpl.
  assert (Hstep : forall c d, block_ok c -> preferred c best -> preferred c b ->
    (c = best \/ c = b) -> d = block_number c * 1000000 ->
    exists r, longest_loop c d l = Ok r /\ r ∈ best :: b :: l /\ Forall (preferred r) (best :: b :: l)).
  { intros c d Hc Hcb Hcb' Hin ->. destruct (IH Hd c Hc) as (r & Hr & Hrin & Hp).
    exists r. apply Forall_cons in Hp as [Hrc Hp]. split_and!; [done|set_solver|].
    constructor; [by apply (preferred_trans _ c)|constructor; [by apply (preferred_trans _ c)|done]]. }
  destruct (Z.ltb_spec (block_number best * 1000000) (block_number b * 1000000)).
  { apply Hstep; auto using preferred_refl. left. lia. }
  destruct (Z.eqb_spec (block_number b * 1000000) (block_number best * 1000000)).
  - rewrite !header_hash_ok by done. simpl. destruct (bytes_lt (bhash b) (bhash best)) eqn:Hlt;
      apply Hstep; auto using preferred_refl; try lia; right; (split; [lia|]);
      [by apply bytes_lt_le|done].
  - apply Hstep; auto using preferred_refl. left. lia.
Qed.

Lemma longest_chain_best blocks : blocks <> [] -> Forall block_ok blocks -> Forall difficulty_ok blocks ->
  exists r, select_longest_chain blocks = Ok r /\ r ∈ blocks /\ Forall (preferred r) blocks.
Proof.
  destruct blocks as [|b l]; [done|]. intros _ Hb Hd.
  apply Forall_cons in Hb as [Hb Hl]. apply Forall_cons in Hd as [Hdb Hd].
  unfold select_longest_chain. simpl. rewrite total_difficulty_ok by done. simpl.
  by apply longest_loop_best.
Qed.

(** The longest-chain rule picks the best block.  Among candidates with
    fields in range, [select_head] returns one of them with the highest number
    and, among those of that number, the smallest hash; so candidates given in
    another order lead to a block of the same number and hash. *)
Theorem longest_chain_selection fuel s blocks : fc_rule s = LongestChain -> blocks <> [] ->
  Forall block_ok blocks -> Forall difficulty_ok blocks ->
  exists r, select_head fuel s blocks = Ok r /\ r ∈ blocks /\ Forall (preferred r) blocks /\
    forall blocks' fuel', blocks ≡ₚ blocks' ->
    exists r', select_head fuel' s blocks' = Ok r' /\
      block_number r' = block_number r /\ bhash r' = bhash r.
Proof.
  intros Hs Hne Hb Hd.
  assert (Hsel : forall bs f, bs <> [] -> Forall block_ok bs -> Forall difficulty_ok bs ->
    exists r, select_head f s bs = Ok r /\ r ∈ bs /\ Forall (preferred r) bs).
  { intros [|b [|b' bs]] f ? Hb' Hd'; [done| |].
    - exists b. split_and!; [done|by left|]. apply Forall_singleton, preferred_refl.
    - unfold select_head. rewrite Hs. by apply longest_chain_best. }
  destruct (Hsel blocks fuel) as (r & Hr & Hin & Hp); [done..|]. exists r. split_and!; [done..|].
  intros blocks' f' Hperm. destruct (Hsel blocks' f') as (r' & Hr' & Hin' & Hp').
  - intros ->. by apply Permutation_nil_r in Hperm.
  - by rewrite <- Hperm.
  - by rewrite <- Hperm.
  - exists r'. split; [done|]. rewrite Forall_forall in Hp, Hp'.
    pose proof (Hp r' ltac:(by rewrite Hperm)) as P1.
    pose proof (Hp' r ltac:(by rewrite <- Hperm)) as P2.
    unfold preferred in P1, P2. split; [lia|]. apply bytes_lt_antisym; unfold bytes_le in *; naive_solver lia.
Qed.

(** * The block tree *)

(** The hashes of the blocks with the parent [p], in the order given. *)
Definition children_of (blocks : list Block) (p : list Z) : list (list Z) :=
  bhash <$> filter (fun b => parent_of b = p) blocks.
Definition tree_of (t : Tree) (blocks : list Block) : Prop :=
  forall p, default [] (t !! p) = children_of blocks p.

Lemma tree_push_lookup p h t q :
  default [] (tree_push p h t !! q) = default [] (t !! q) ++ (if decide (p = q) then [h] else []).
Proof using Type.
  unfold tree_push. destruct (decide (p = q)) as [->|Hne].
  - by rewrite lookup_insert_eq.
  - by rewrite lookup_insert_ne, app_nil_r.
Qed.

Lemma build_tree_ok blocks : Forall block_ok blocks ->
  exists t, build_block_tree blocks = Ok t /\ tree_of t blocks.
Proof.
  intros Hb. unfold build_block_tree, tree_of.
  assert (Hgen : forall t0 : Tree, exists t, build_tree_loop blocks t0 = Ok t /\
    forall p, default [] (t !! p) = default [] (t0 !! p) ++ children_of blocks p).
  { induction Hb as [|b l Hb _ IH]; intros t0; simpl.
    - exists t0. split; [done|]. intros p. by rewrite app_nil_r.
    - rewrite header_hash_ok by done. simpl.
      destruct (IH (tree_push (parent_of b) (bhash b) t0)) as (t & Ht & Hp).
      exists t. split; [done|]. intros p. rewrite Hp, tree_push_lookup, <- app_assoc. f_equal.
      unfold children_of. by rewrite filter_cons; case_decide. }
  destruct (Hgen ∅) as (t & Ht & Hp). exists t. split; [done|]. intros p. by rewrite Hp.
Qed.

(** [h] is [r] or has [r] as an ancestor, through parents that are in the
    list. *)
Inductive below (blocks : list Block) (r : list Z) : list Z -> Prop :=
| below_refl : below blocks r r
| below_step b : b ∈ blocks -> below blocks r (parent_of b) -> below blocks r (bhash b).

(** The candidates have distinct hashes and their parents form no cycle:
    [rank], for instance the block number, grows from parent to child. *)
Record forest (rank : list Z -> nat) (blocks : list Block) : Prop := {
  forest_ok : Forall block_ok blocks;
  forest_distinct : NoDup (bhash <$> blocks);
  forest_ranked b : b ∈ blocks -> (rank (parent_of b) < rank (bhash b))%nat;
}.

Section forests.
Context (rank : list Z -> nat) (blocks : list Block) (Hf : forest rank blocks).

Lemma bhash_inj b b' : b ∈ blocks -> b' ∈ blocks -> bhash b = bhash b' -> b = b'.
Proof using Hf.
  intros Hb Hb' Heq. destruct Hf as [_ Hnd _].
  apply list_elem_of_lookup in Hb as [i Hi]. apply list_elem_of_lookup in Hb' as [j Hj].
  assert (i = j) as ->; [|congruence].
  apply (NoDup_lookup (bhash <$> blocks) i j (bhash b)); [done|by rewrite list_lookup_fmap, Hi|].
  by rewrite list_lookup_fmap, Hj, Heq.
Qed.
Lemma below_rank r h : below blocks r h -> (rank r <= rank h)%nat.
Proof using Hf. induction 1 as [|b Hb _ IH]; [done|]. pose proof (forest_ranked _ _ Hf b Hb). lia. Qed.
Lemma below_trans a b c : below blocks a b -> below blocks b c -> below blocks a c.
Proof using Type. intros Hab. induction 1; [done|by constructor]. Qed.
Lemma below_inv r b : b ∈ blocks -> below blocks r (bhash b) ->
  r = bhash b \/ below blocks r (parent_of b).
Proof using Hf.
  intros Hb Hr. inversion Hr as [|b' Hb' Hr' Heq]; [by left|].
  apply bhash_inj in Heq; [|done..]. subst. by right.
Qed.
Lemma below_linear a b h : below blocks a h -> below blocks b h ->
  below blocks a b \/ below blocks b a.
Proof using Hf.
  intros Ha. revert b. induction Ha as [|x Hx Ha IH]; intros b Hb; [by right|].
  destruct (below_inv b x Hx Hb) as [->|Hb']; [left; by constructor|by apply IH].
Qed.
Lemma below_front r h : below blocks r h ->
  h = r \/ exists b, b ∈ blocks /\ parent_of b = r /\ below blocks (bhash b) h.
Proof using Type.
  induction 1 as [|b Hb Hr IH]; [by left|]. right. destruct IH as [<-|(c & Hc & Hp & Hh)].
  - exists b. split_and!; [done|done|constructor].
  - exists c. split_and!; [done|done|by constructor].
Qed.
(** Two children of a block have no common descendant. *)
Lemma siblings_disjoint a b h : a ∈ blocks -> b ∈ blocks -> parent_of a = parent_of b ->
  below blocks (bhash a) h -> below blocks (bhash b) h -> a = b.
Proof using Hf.
  assert (Hnot : forall a b, a ∈ blocks -> b ∈ blocks -> parent_of a = parent_of b ->
    below blocks (bhash a) (bhash b) -> a = b).
  { intros x y Hx Hy Hp Hxy. destruct (below_inv _ _ Hy Hxy) as [Heq|Hb]; [by apply bhash_inj|].
    apply below_rank in Hb. pose proof (forest_ranked _ _ Hf x Hx). rewrite Hp in *. lia. }
  intros Ha Hb Hp Hah Hbh. destruct (below_linear _ _ _ Hah Hbh); [by apply Hnot|].
  symmetry. by apply Hnot.
Qed.

(** * Subtree weights *)

(** How many candidates rank above [h]: it falls along every child. *)
Definition above (h : list Z) : nat := length (filter (fun b => (rank h < rank (bhash b))%nat) blocks).
Lemma above_child b : b ∈ blocks -> (above (bhash b) < above (parent_of b))%nat.
Proof using Hf.
  intros Hb. pose proof (forest_ranked _ _ Hf b Hb) as Hr. unfold above.
  apply list_elem_of_split in Hb as (l1 & l2 & ->).
  assert (Hle : forall l, (length (filter (fun x => (rank (bhash b) < rank (bhash x))%nat) l) <=
    length (filter (fun x => (rank (parent_of b) < rank (bhash x))%nat) l))%nat).
  { intros l. induction l as [|x l IH]; [done|]. rewrite !filter_cons. repeat case_decide; simpl; lia. }
  rewrite !filter_app, !length_app, !filter_cons.
  rewrite decide_False by lia. rewrite decide_True by lia. simpl.
  pose proof (Hle l1). pose proof (Hle l2). lia.
Qed.
Lemma above_bound h : (above h <= length blocks)%nat.
Proof using Type. apply length_filter. Qed.

(** The candidates strictly below [r]. *)
Definition descendants (r : list Z) (ds : list Block) : Prop :=
  NoDup ds /\ forall b, b ∈ ds <-> b ∈ blocks /\ below blocks r (parent_of b).
Lemma descendants_length r ds : descendants r ds -> (length ds <= length blocks)%nat.
Proof using Type.
  intros [Hnd Hin]. apply submseteq_length, NoDup_submseteq; [done|]. intros b Hb. by apply Hin.
Qed.

Context (t : Tree) (Ht : tree_of t blocks) (Hsmall : Z.of_nat (length blocks) < 2 ^ 64 - 1).
Definition weighs (r : list Z) (n : Z) : Prop :=
  exists ds, descendants r ds /\ n = 1 + Z.of_nat (length ds).

(** The sum over some children of [r], and the descendants it counts. *)
Lemma children_weights fuel r cs : (forall b, b ∈ cs -> b ∈ blocks /\ parent_of b = r) -> NoDup cs ->
  (forall b, b ∈ cs -> exists ds, descendants (bhash b) ds /\
     calculate_subtree_weight fuel t (bhash b) = Ok (1 + Z.of_nat (length ds))) ->
  exists ds, NoDup ds /\
    (forall x, x ∈ ds <-> x ∈ blocks /\ exists b, b ∈ cs /\ below blocks (bhash b) (bhash x)) /\
    forall w, 0 <= w -> w + Z.of_nat (length ds) < 2 ^ 64 ->
      add_weights (calculate_subtree_weight fuel t) (bhash <$> cs) w = Ok (w + Z.of_nat (length ds)).
Proof using Hf.
  intros Hcs Hnd Hw. induction cs as [|c cs IH].
  { exists []. split_and!; [constructor| |intros w _ _; simpl; f_equal; lia].
    intros x. split; [intros Hx; by apply elem_of_nil in Hx|intros (_ & b & Hb & _); by apply elem_of_nil in Hb]. }
  apply NoDup_cons in Hnd as [Hnc Hnd].
  destruct IH as (ds' & Hnd' & Hin' & Hsum'); [intros b Hb; apply Hcs; by right|done|intros b Hb; apply Hw; by right|].
  destruct (Hw c) as (ds & [Hndd Hin] & Hwc); [by left|].
  destruct (Hcs c) as [Hc Hcp]; [by left|].
  assert (Hself : c ∉ ds).
  { rewrite Hin. intros [_ Hb]. apply below_rank in Hb.
    pose proof (forest_ranked _ _ Hf c Hc). lia. }
  assert (Hdisj : forall x, x ∈ c :: ds -> x ∉ ds').
  { intros x Hx Hx'. apply Hin' in Hx' as (Hxb & b & Hb & Hbx).
    assert (b = c) as ->; [|done]. destruct (Hcs b) as [Hbb Hbp]; [by right|].
    apply (siblings_disjoint b c (bhash x)); [done|done|congruence|done|].
    apply elem_of_cons in Hx as [->|Hx]; [constructor|]. apply Hin in Hx as [? ?]. by constructor. }
  exists (c :: ds ++ ds'). split_and!.
  - apply NoDup_cons. split.
    + rewrite elem_of_app. intros [?|Hx]; [done|]. by apply (Hdisj c); [left|].
    + apply NoDup_app. split_and!; [done| |done]. intros x Hx. apply Hdisj. by right.
  - intros x. rewrite elem_of_cons, elem_of_app, Hin, Hin'. split.
    + intros [->|[[Hx Hb]|(Hx & b & Hb & Hbx)]].
      * split; [done|]. exists c. split; [by left|constructor].
      * split; [done|]. exists c. split; [by left|by constructor].
      * split; [done|]. exists b. split; [by right|done].
    + intros (Hx & b & Hb & Hbx). apply elem_of_cons in Hb as [->|Hb]; [|right; right; eauto].
      destruct (below_inv _ _ Hx Hbx) as [Heq|Hbp]; [left|by right; left].
      symmetry. by apply bhash_inj.
  - intros w Hw0 Hlt. simpl in *. rewrite length_app in *. rewrite Hwc. simpl.
    unfold uadd. rewrite checked_arith_ok by (unfold uint; lia). simpl. rewrite Hsum' by lia. f_equal. lia.
Qed.

Lemma subtree_weight fuel r : (above r < fuel)%nat ->
  exists ds, descendants r ds /\ calculate_subtree_weight fuel t r = Ok (1 + Z.of_nat (length ds)).
Proof using Hf Ht Hsmall.
  revert r. induction fuel as [|fuel IH]; intros r Hr; [lia|].
  destruct (children_weights fuel r (filter (fun b => parent_of b = r) blocks)) as (ds & Hnd & Hin & Hsum).
  - intros b Hb. apply list_elem_of_filter in Hb as [? ?]. done.
  - apply NoDup_filter, (NoDup_fmap_1 bhash), Hf.
  - intros b Hb. apply list_elem_of_filter in Hb as [<- Hb]. apply IH.
    pose proof (above_child b Hb). lia.
  - assert (Hds : descendants r ds).
    { split; [done|]. intros x. rewrite Hin. split.
      - intros (Hx & b & Hb & Hbx). apply list_elem_of_filter in Hb as [<- Hb]. split; [done|].
        destruct (below_inv _ _ Hx Hbx) as [Heq|Hbp].
        + apply bhash_inj in Heq as ->; [constructor|done..].
        + eapply below_trans; [|exact Hbp]. constructor; [done|constructor].
      - intros [Hx Hb]. split; [done|]. destruct (below_front _ _ Hb) as [Heq|(b & Hbb & Hp & Hbx)].
        + exists x. split; [by apply list_elem_of_filter|constructor].
        + exists b. split; [by apply list_elem_of_filter|by constructor]. }
    exists ds. split; [done|]. pose proof (descendants_length r ds Hds).
    assert (Hlk : match t !! r with
      | Some children => add_weights (calculate_subtree_weight fuel t) children 1
      | None => Ok 1 end =
      add_weights (calculate_subtree_weight fuel t) (default [] (t !! r)) 1) by by destruct (t !! r).
    simpl. rewrite Hlk, Ht. rewrite Hsum by lia. done.
Qed.

(** * Greedy walks *)

(** From [h], always to the first child of the largest weight, until a block
    without children. *)
Inductive greedy (g : list Z -> Z) (h : list Z) : list Z -> Prop :=
| greedy_leaf : children_of blocks h = [] -> greedy g h h
| greedy_step l1 c l2 r :
    children_of blocks h = l1 ++ c :: l2 ->
    Forall (fun x => g x < g c) l1 -> Forall (fun x => g x <= g c) l2 ->
    greedy g c r -> greedy g h r.

Lemma heaviest_first (f : list Z -> outcome ConsensusError Z) g l l1 best l2 :
  (forall c, c ∈ l -> f c = Ok (g c)) ->
  Forall (fun x => g x < g best) l1 -> Forall (fun x => g x <= g best) l2 ->
  exists l1' c l2', heaviest f best (g best) l = Ok c /\ l1 ++ best :: l2 ++ l = l1' ++ c :: l2' /\
    Forall (fun x => g x < g c) l1' /\ Forall (fun x => g x <= g c) l2'.
Proof using Type.
  clear Hsmall. revert l1 best l2. induction l as [|x l IH]; intros l1 best l2 Hg H1' H2'; simpl.
  { exists l1, best, l2. by rewrite app_nil_r. }
  rewrite Hg by by left. simpl. assert (Hg' : forall c, c ∈ l -> f c = Ok (g c)) by (intros; apply Hg; by right).
  destruct (Z.ltb_spec (g best) (g x)) as [Hlt|Hge].
  - destruct (IH (l1 ++ best :: l2) x []) as (a & c & b & Hh & Heq & Ha & Hb); [done| |constructor|].
    + apply Forall_app. split; [|constructor; [done|]]; (eapply Forall_impl; [eassumption|]); simpl; lia.
    + exists a, c, b. split_and!; [done| |done|done]. by rewrite <- Heq, <- app_assoc.
  - destruct (IH l1 best (l2 ++ [x])) as (a & c & b & Hh & Heq & Ha & Hb); [done|done| |].
    + apply Forall_app. split; [done|by repeat constructor].
    + exists a, c, b. split_and!; [done| |done|done]. by rewrite <- Heq, <- !app_assoc.
Qed.

Lemma children_are_candidates h c : c ∈ children_of blocks h ->
  exists b, b ∈ blocks /\ parent_of b = h /\ c = bhash b.
Proof using Type.
  intros Hc. apply list_elem_of_fmap in Hc as (b & -> & Hb). apply list_elem_of_filter in Hb as [? ?]. eauto.
Qed.

(** The walk reaches a leaf, with more fuel than candidates that rank above. *)
Lemma walk_greedy (f : list Z -> outcome ConsensusError Z) g fuel h :
  (forall b, b ∈ blocks -> f (bhash b) = Ok (g (bhash b))) -> (above h < fuel)%nat ->
  exists r, walk fuel f t h = Ok r /\ greedy g h r.
Proof using Hf Ht.
  clear Hsmall. intros Hg. revert h. induction fuel as [|fuel IH]; intros h Hh; [lia|].
  assert (Hch : forall c, c ∈ children_of blocks h -> f c = Ok (g c) /\ (above c < above h)%nat).
  { intros c Hc. apply children_are_candidates in Hc as (b & Hb & <- & ->).
    split; [by apply Hg|by apply above_child]. }
  pose proof (Ht h) as Hth. cbn [walk].
  destruct (children_of blocks h) as [|c0 cs] eqn:Hcs.
  { exists h. split; [|by constructor]. by destruct (t !! h) as [[|? ?]|]; simpl in *. }
  destruct (t !! h) as [l|]; simpl in Hth; [subst l|discriminate].
  rewrite (proj1 (Hch c0 ltac:(by left))). simpl.
  destruct (heaviest_first f g cs [] c0 []) as (l1 & c & l2 & Hbest & Heq & Hl1 & Hl2);
    [intros; apply Hch; by right|constructor|constructor|].
  rewrite Hbest. simpl. simpl in Heq.
  destruct (IH c) as (r & Hr & Hgr).
  { pose proof (proj2 (Hch c ltac:(rewrite Heq, elem_of_app, elem_of_cons; auto))). lia. }
  exists r. split; [done|]. apply (greedy_step g h l1 c l2); [by rewrite Hcs|done..].
Qed.

(** Where a greedy walk ends. *)
Lemma greedy_end g h r : greedy g h r ->
  children_of blocks r = [] /\ below blocks h r /\
  (r = h \/ exists b, b ∈ blocks /\ bhash b = r).
Proof using Type.
  induction 1 as [h Hl|h l1 c l2 r Hcs _ _ _ (Hr & Hb & Hin)]; [by split_and!; [|constructor|left]|].
  destruct (children_are_candidates h c) as (b & Hbb & <- & ->); [rewrite Hcs, elem_of_app, elem_of_cons; auto|].
  split_and!; [done| |right; destruct Hin as [->|?]; eauto].
  eapply below_trans; [|exact Hb]. constructor; [done|constructor].
Qed.

Lemma find_block_in l b : Forall block_ok l -> (forall x, x ∈ l -> bhash x = bhash b -> x = b) ->
  b ∈ l -> find_block l (bhash b) = Ok b.
Proof using H0.
  clear - H0. induction 1 as [|x l Hx _ IH]; intros Hinj Hin; [by apply elem_of_nil in Hin|].
  simpl. rewrite header_hash_ok by done. simpl. case_bool_decide as Heq.
  - f_equal. apply Hinj; [by left|done].
  - apply IH; [intros y Hy; apply Hinj; by right|]. by apply elem_of_cons in Hin as [->|].
Qed.
Lemma find_block_ok b : b ∈ blocks -> find_block blocks (bhash b) = Ok b.
Proof using H0 Hf.
  intros Hb. apply find_block_in; [apply Hf| |done]. intros x Hx. by apply bhash_inj.
Qed.
Lemma find_block_none h : (forall b, b ∈ blocks -> bhash b <> h) ->
  find_block blocks h = Err (ForkChoiceError "Selected block not found").
Proof using H0 Hf.
  pose proof (forest_ok _ _ Hf) as Hok. clear Hf Ht Hsmall. induction Hok as [|b l Hb _ IH]; intros Hn; [done|].
  simpl. rewrite header_hash_ok by done. simpl. rewrite bool_decide_eq_false_2 by (apply Hn; by left).
  apply IH. intros x Hx. apply Hn. by right.
Qed.

Lemma greedy_det g h r r' : greedy g h r -> greedy g h r' -> r = r'.
Proof using Type.
  intros Hr. revert r'. induction Hr as [h Hl|h l1 c l2 r Hcs Hl1 Hl2 _ IH]; intros r' Hr';
    inversion Hr' as [Hl'|k1 c' k2 r'' Hcs' Hk1 Hk2 Hg]; subst.
  - done.
  - rewrite Hl in Hcs'. by destruct k1.
  - rewrite Hl' in Hcs. by destruct l1.
  - apply IH. rewrite Hcs in Hcs'. clear - Hcs' Hl1 Hl2 Hk1 Hk2 Hg.
    enough (c = c') as -> by done. revert k1 Hcs' Hk1.
    induction l1 as [|x l1 IHl]; intros [|y k1] Heq Hk1; simplify_eq/=; [done| | |].
    + exfalso. apply Forall_cons in Hk1 as [Hy _]. apply Forall_app in Hl2 as [_ Hl2].
      apply Forall_cons in Hl2 as [Hc' _]. lia.
    + exfalso. apply Forall_cons in Hl1 as [Hx _]. apply Forall_app in Hk2 as [_ Hk2].
      apply Forall_cons in Hk2 as [Hc' _]. lia.
    + apply (IHl ltac:(by inversion Hl1) k1); [done|by inversion Hk1].
Qed.
End forests.

(** * Common ancestors *)

(** From [h] through the known parents: the hashes passed, and where it ends,
    at the zero hash or at the first unknown one. *)
Inductive chain (s : ForkChoice) : list Z -> list (list Z) -> list Z -> Prop :=
| chain_zero : chain s Header.zero_hash [] Header.zero_hash
| chain_unknown h : h <> Header.zero_hash -> fc_blocks s !! h = None -> chain s h [h] h
| chain_known h info l stop : h <> Header.zero_hash -> fc_blocks s !! h = Some info ->
    chain s (Header.parent_hash (info_header info)) l stop -> chain s h (h :: l) stop.

(** The parents of the known blocks form no cycle. *)
Definition known_acyclic (rank : list Z -> nat) (s : ForkChoice) : Prop :=
  forall h info, fc_blocks s !! h = Some info ->
  (rank (Header.parent_hash (info_header info)) < rank h)%nat.

Lemma chain_exists rank s h : known_acyclic rank s ->
  exists l stop, chain s h l stop /\ (length l <= S (rank h))%nat.
Proof using Type.
  intros Hac. remember (rank h) as n eqn:Hn. revert h Hn.
  induction n as [n IH] using lt_wf_ind. intros h ->.
  destruct (decide (h = Header.zero_hash)) as [->|Hnz].
  { exists [], Header.zero_hash. split; [constructor|simpl; lia]. }
  destruct (fc_blocks s !! h) as [info|] eqn:Hl.
  - pose proof (Hac h info Hl) as Hlt. edestruct IH as (l & stop & Hc & Hlen); [exact Hlt|reflexivity|].
    exists (h :: l), stop. split; [by apply (chain_known s h info)|simpl; lia].
  - exists [h], h. split; [by constructor|simpl; lia].
Qed.

Definition first_in (A : gset (list Z)) (l : list (list Z)) (stop : list Z) : list Z :=
  match list_find (fun h => h ∈ A) l with Some (_, a) => a | None => stop end.

Lemma collect_ancestors_chain s h l stop : chain s h l stop -> forall fuel A, (length l < fuel)%nat ->
  collect_ancestors fuel s h A = Ok (list_to_set l ∪ A, stop).
Proof using Type.
  induction 1 as [|h Hnz Hl|h info l stop Hnz Hl _ IH]; intros [|fuel] A Hf; simpl in *; try lia.
  - by rewrite union_empty_l_L.
  - rewrite bool_decide_eq_false_2, Hl by done. by rewrite union_empty_r_L.
  - rewrite bool_decide_eq_false_2, Hl, IH by (done || lia).
    by rewrite (union_comm_L {[h]} (list_to_set l)), (union_assoc_L (list_to_set l)).
Qed.
Lemma climb_chain s h l stop : chain s h l stop -> forall fuel A, (length l < fuel)%nat ->
  climb fuel s A h = Ok (first_in A l stop).
Proof using Type.
  induction 1 as [|h Hnz Hl|h info l stop Hnz Hl _ IH]; intros [|fuel] A Hf; simpl in *; try lia.
  - done.
  - rewrite (bool_decide_eq_false_2 (h = _)) by done. unfold first_in. simpl.
    destruct (decide (h ∈ A)) as [Hin|Hin].
    + by rewrite bool_decide_eq_true_2.
    + rewrite bool_decide_eq_false_2 by done. simpl. by rewrite Hl.
  - rewrite (bool_decide_eq_false_2 (h = _)) by done. unfold first_in. simpl.
    destruct (decide (h ∈ A)) as [Hin|Hin].
    + by rewrite bool_decide_eq_true_2.
    + rewrite bool_decide_eq_false_2 by done. simpl. rewrite Hl, IH by lia. unfold first_in.
      by destruct (list_find (fun h0 => h0 ∈ A) l) as [[? ?]|].
Qed.

(** The search ends, at a hash that only the first and the last candidate
    determine. *)
Lemma common_ancestor_ok rank s b0 bs b1 : known_acyclic rank s ->
  exists n l0 stop0 l1 stop1, chain s (parent_of b0) l0 stop0 /\ chain s (parent_of b1) l1 stop1 /\
  forall fuel, (n <= fuel)%nat ->
    find_common_ancestor fuel s (b0 :: bs ++ [b1]) = Ok (first_in (list_to_set l0) l1 stop1).
Proof using Type.
  intros Hac. destruct (chain_exists rank s (parent_of b0) Hac) as (l0 & stop0 & Hc0 & _).
  destruct (chain_exists rank s (parent_of b1) Hac) as (l1 & stop1 & Hc1 & _).
  assert (Hmid : exists n, forall fuel A cur, (n <= fuel)%nat ->
    climb_all fuel s A cur (bs ++ [b1]) = climb fuel s A (parent_of b1)).
  { induction bs as [|b bs IH]; simpl.
    - exists 0%nat. intros fuel A cur _. by destruct (climb fuel s A (parent_of b1)).
    - destruct IH as [n Hn]. destruct (chain_exists rank s (parent_of b) Hac) as (l & stop & Hc & _).
      exists (Nat.max n (S (length l))). intros fuel A cur Hle.
      rewrite (climb_chain s _ l stop) by (done || lia). simpl. apply Hn. lia. }
  destruct Hmid as [n Hn]. exists (Nat.max n (S (length l0) + S (length l1))), l0, stop0, l1, stop1.
  split_and!; [done..|]. intros fuel Hle. unfold find_common_ancestor.
  rewrite (collect_ancestors_chain s _ l0 stop0) by (done || lia). cbn [obind fst snd].
  rewrite Hn by lia. rewrite (climb_chain s _ l1 stop1) by (done || lia).
  do 2 f_equal. by rewrite union_empty_r_L.
Qed.

(** Where the walk starts for candidates from [b0] to [b1]: at the ancestor of
    [b1] nearest to it that [b0] has too or, where the chains of known parents
    share no hash, at the end of that of [b1].  For two candidates this is their
    nearest common ancestor; any candidates between them do not matter. *)
Definition nearest_shared (s : ForkChoice) (b0 b1 : Block) (a : list Z) : Prop :=
  exists l0 stop0 l1 stop1, chain s (parent_of b0) l0 stop0 /\ chain s (parent_of b1) l1 stop1 /\
    ((exists pre post, l1 = pre ++ a :: post /\ a ∈ l0 /\ Forall (fun h => h ∉ l0) pre) \/
     (Forall (fun h => h ∉ l0) l1 /\ a = stop1)).

Lemma first_in_spec (l0 l1 : list (list Z)) stop :
  (exists pre post, l1 = pre ++ first_in (list_to_set l0) l1 stop :: post /\
     first_in (list_to_set l0) l1 stop ∈ l0 /\ Forall (fun h => h ∉ l0) pre) \/
  (Forall (fun h => h ∉ l0) l1 /\ first_in (list_to_set l0) l1 stop = stop).
Proof using Type.
  unfold first_in. destruct (list_find _ l1) as [[i a]|] eqn:Hf.
  - left. apply list_find_Some in Hf as (Hi & Ha & Hpre). exists (take i l1), (drop (S i) l1).
    split_and!; [by rewrite take_drop_middle|by rewrite elem_of_list_to_set in Ha|].
    apply Forall_forall. intros h Hh. apply elem_of_take in Hh as (j & Hj & Hlt).
    intros Hin. apply (Hpre j h Hj Hlt). by rewrite elem_of_list_to_set.
  - right. split; [|done]. apply list_find_None in Hf. eapply Forall_impl; [exact Hf|].
    intros h Hh Hin. apply Hh. by rewrite elem_of_list_to_set.
Qed.
Lemma common_ancestor_shared rank s b0 bs b1 : known_acyclic rank s ->
  exists n a, nearest_shared s b0 b1 a /\
    forall fuel, (n <= fuel)%nat -> find_common_ancestor fuel s (b0 :: bs ++ [b1]) = Ok a.
Proof using Type.
  intros Hac. destruct (common_ancestor_ok rank s b0 bs b1 Hac) as (n & l0 & stop0 & l1 & stop1 & Hc0 & Hc1 & Hn).
  exists n, (first_in (list_to_set l0) l1 stop1). split; [|done].
  exists l0, stop0, l1, stop1. split_and!; [done..|apply first_in_spec].
Qed.

Lemma two_blocks (blocks : list Block) : (2 <= length blocks)%nat ->
  exists b0 bs b1, blocks = b0 :: bs ++ [b1].
Proof using Type.
  destruct blocks as [|b0 l]; simpl; [lia|]. intros Hl.
  destruct l as [|b1 bs _] using rev_ind; [simpl in Hl; lia|]. eauto.
Qed.
Lemma common_ancestor_exists rank s blocks : known_acyclic rank s -> (2 <= length blocks)%nat ->
  exists n a, forall fuel, (n <= fuel)%nat -> find_common_ancestor fuel s blocks = Ok a.
Proof using Type.
  intros Hac Hl. destruct (two_blocks blocks Hl) as (b0 & bs & b1 & ->).
  destruct (common_ancestor_ok rank s b0 bs b1 Hac) as (n & l0 & ? & l1 & stop1 & _ & _ & Hn). eauto.
Qed.
Lemma select_head_rule fuel s blocks : (2 <= length blocks)%nat ->
  select_head fuel s blocks =
  match fc_rule s with
  | LongestChain => select_longest_chain blocks
  | GHOST => select_ghost fuel s blocks
  | LMDGHOST => select_lmd_ghost fuel s blocks
  | CasperFFG => select_casper_ffg fuel s blocks
  end.
Proof using Type. destruct blocks as [|? [|? ?]]; simpl; lia || done. Qed.

(** The block a greedy walk selects from [a], or the error. *)
Definition greedy_choice (blocks : list Block) (g : list Z -> Z) (a : list Z)
    (r : outcome ConsensusError Block) : Prop :=
  (exists b, r = Ok b /\ b ∈ blocks /\ greedy blocks g a (bhash b) /\
     children_of blocks (bhash b) = [] /\ below blocks a (bhash b)) \/
  (r = Err (ForkChoiceError "Selected block not found") /\ children_of blocks a = [] /\
     forall b, b ∈ blocks -> bhash b <> a).

Lemma greedy_find rank blocks g a r : forest rank blocks -> greedy blocks g a r ->
  greedy_choice blocks g a (find_block blocks r).
Proof.
  intros Hf Hg. destruct (greedy_end _ _ _ _ Hg) as (Hleaf & Hb & Hin).
  destruct (decide (r ∈ bhash <$> blocks)) as [Hr|Hr].
  - apply list_elem_of_fmap in Hr as (b & -> & Hbb). left. exists b. split_and!; try done.
    by apply (find_block_ok rank).
  - assert (Hno : forall b, b ∈ blocks -> bhash b <> r).
    { intros b Hbb <-. by apply Hr, list_elem_of_fmap_2. }
    right. destruct Hin as [->|(b & Hbb & Hbr)]; [|by destruct (Hno b Hbb)].
    split_and!; [by apply (find_block_none rank)|done|done].
Qed.

(** C10: The GHOST rule follows the heaviest subtrees.  For candidates with
    distinct hashes whose parents, and those of the known blocks, form no
    cycle, every search ends: with enough fuel [select_head] starts at the
    nearest ancestor of the last candidate shared with the first (at the end of
    the last one's chain of known parents if they share none), weighs each
    candidate by one plus the number of its descendants among the candidates, goes to the first child of the
    largest weight again and again, and returns the leaf it reaches; it fails
    exactly when the start has no child and is not itself a candidate. *)
Theorem ghost_selection rank s b0 bs b1 : let blocks := b0 :: bs ++ [b1] in
  fc_rule s = GHOST -> forest rank blocks ->
  known_acyclic rank s -> Z.of_nat (length blocks) < 2 ^ 64 - 1 ->
  exists n a g r, nearest_shared s b0 b1 a /\ (forall b, b ∈ blocks -> weighs blocks (bhash b) (g (bhash b))) /\
    greedy_choice blocks g a r /\
    forall fuel, (n <= fuel)%nat ->
      find_common_ancestor fuel s blocks = Ok a /\ select_head fuel s blocks = r.
Proof.
  intros blocks Hs Hf Hac Hsmall.
  destruct (common_ancestor_shared rank s b0 bs b1 Hac) as (n & a & Hsh & Hn). fold blocks in Hn.
  assert (Hlen : (2 <= length blocks)%nat) by (unfold blocks; rewrite length_cons, length_app; simpl; lia).
  clearbody blocks.
  destruct (build_tree_ok blocks (forest_ok _ _ Hf)) as (t & Hbt & Ht).
  pose (N := S (length blocks)).
  pose (g h := match calculate_subtree_weight N t h with Ok w => w | _ => 0 end).
  assert (Hg : forall fuel h, (length blocks < fuel)%nat -> calculate_subtree_weight fuel t h = Ok (g h) /\
    weighs blocks h (g h)).
  { intros fuel h Hl. pose proof (above_bound rank blocks h).
    destruct (subtree_weight rank blocks Hf t Ht Hsmall fuel h) as (ds & Hds & Hw); [lia|].
    destruct (subtree_weight rank blocks Hf t Ht Hsmall N h) as (ds' & Hds' & Hw'); [unfold N; lia|].
    assert (Heq : length ds = length ds').
    { destruct Hds as [Hnd Hin], Hds' as [Hnd' Hin'].
      apply Permutation_length, NoDup_Permutation; [done..|]. intros x. by rewrite Hin, Hin'. }
    unfold g. rewrite Hw, Hw', Heq. split; [done|]. by exists ds'. }
  destruct (walk_greedy rank blocks Hf t Ht (calculate_subtree_weight N t) g N a) as (r & Hr & Hgr).
  { intros b _. apply Hg. unfold N. lia. }
  { pose proof (above_bound rank blocks a). unfold N. lia. }
  exists (Nat.max n N), a, g, (find_block blocks r).
  split_and!; [done|intros b _; apply (Hg N); unfold N; lia|by apply (greedy_find rank)|].
  intros fuel Hle. split; [apply Hn; lia|]. rewrite select_head_rule, Hs by done.
  unfold select_ghost. rewrite Hbt. simpl. rewrite Hn by lia. simpl.
  destruct (walk_greedy rank blocks Hf t Ht (calculate_subtree_weight fuel t) g fuel a) as (r' & Hr' & Hgr').
  { intros b _. apply Hg. unfold N in Hle. lia. }
  { pose proof (above_bound rank blocks a). unfold N in Hle. lia. }
  rewrite Hr'. simpl. by rewrite (greedy_det _ _ _ _ _ Hgr Hgr').
Qed.

(** The LMD-GHOST rule weighs every candidate 0, whatever attestations are
    stored: it follows first children. *)
Theorem lmd_ghost_ignores_attestations rank s blocks : fc_rule s = LMDGHOST -> forest rank blocks ->
  known_acyclic rank s -> (2 <= length blocks)%nat ->
  exists n a r, greedy_choice blocks (fun _ => 0) a r /\
    forall fuel, (n <= fuel)%nat ->
      find_common_ancestor fuel s blocks = Ok a /\ select_head fuel s blocks = r.
Proof.
  intros Hs Hf Hac Hlen.
  destruct (common_ancestor_exists rank s blocks Hac Hlen) as (n & a & Hn).
  destruct (build_tree_ok blocks (forest_ok _ _ Hf)) as (t & Hbt & Ht).
  assert (Hw : forall fuel, (length blocks < fuel)%nat -> exists r,
    walk fuel (fun h => Ok (default 0 ((∅ : gmap (list Z) Z) !! h))) t a = Ok r /\
    greedy blocks (fun _ => 0) a r).
  { intros fuel Hl. apply (walk_greedy rank blocks Hf t Ht); [intros; by rewrite lookup_empty|].
    pose proof (above_bound rank blocks a). lia. }
  destruct (Hw (S (length blocks))) as (r & _ & Hgr); [lia|].
  exists (Nat.max n (S (length blocks))), a, (find_block blocks r).
  split; [by apply (greedy_find rank)|]. intros fuel Hle. split; [apply Hn; lia|].
  rewrite select_head_rule, Hs by done. unfold select_lmd_ghost. simpl.
  rewrite Hn by lia. simpl. rewrite Hbt. simpl.
  destruct (Hw fuel) as (r' & Hr' & Hgr'); [lia|]. rewrite Hr'. simpl.
  by rewrite (greedy_det _ _ _ _ _ Hgr Hgr').
Qed.

(** * Finality *)

Lemma descendant_of_zero s h l stop : chain s h l stop -> forall fuel, (length l < fuel)%nat ->
  descendant_loop fuel s Header.zero_hash h = Ok false.
Proof using Type.
  induction 1 as [|h Hnz Hl|h info l stop Hnz Hl _ IH]; intros [|fuel] Hf; simpl in *; try lia.
  - done.
  - by rewrite !bool_decide_eq_false_2, Hl by done.
  - rewrite !bool_decide_eq_false_2, Hl by done. apply IH. lia.
Qed.

(** The Casper FFG rule selects nothing.  The justified checkpoint is
    always the zero hash and the walk up from a block stops there before
    comparing, so of two or more candidates none counts as its descendant and
    [select_head] fails, whatever was marked justified. *)
Theorem casper_ffg_selects_nothing rank s blocks : fc_rule s = CasperFFG -> known_acyclic rank s ->
  (2 <= length blocks)%nat ->
  exists n, forall fuel, (n <= fuel)%nat ->
    select_head fuel s blocks = Err (ForkChoiceError "No valid blocks from justified checkpoint").
Proof using Type.
  intros Hs Hac Hlen.
  assert (Hfil : exists n, forall fuel, (n <= fuel)%nat ->
    filter_descendants fuel s Header.zero_hash blocks = Ok []).
  { clear Hlen. induction blocks as [|b l IH]; [by exists 0%nat|]. destruct IH as [n Hn].
    destruct (chain_exists rank s (parent_of b) Hac) as (c & stop & Hc & _).
    exists (Nat.max n (S (length c))). intros fuel Hle. simpl. unfold is_descendant_of.
    rewrite (descendant_of_zero s _ c stop) by (done || lia). simpl. by rewrite Hn by lia. }
  destruct Hfil as [n Hn]. exists n. intros fuel Hle.
  rewrite select_head_rule, Hs by done. unfold select_casper_ffg. simpl. by rewrite Hn.
Qed.

(** * Pruning *)

Definition kids (ch : Tree) (h : list Z) : list (list Z) := default [] (ch !! h).
Inductive reach (ch : Tree) (h : list Z) : list Z -> Prop :=
| reach_refl : reach ch h h
| reach_step c x : c ∈ kids ch h -> reach ch c x -> reach ch h x.
Definition tree_acyclic (rank : list Z -> nat) (ch : Tree) : Prop :=
  forall h c, c ∈ kids ch h -> (rank h < rank c)%nat.

Lemma kids_bounded (rank : list Z -> nat) ch : exists B, forall h c, c ∈ kids ch h -> (rank c < B)%nat.
Proof using Type.
  induction ch as [|k cs ch Hk [B HB]] using map_ind.
  { exists 0%nat. intros h c Hc. unfold kids in Hc. rewrite lookup_empty in Hc. by apply elem_of_nil in Hc. }
  assert (Hcs : exists B', forall c, c ∈ cs -> (rank c < B')%nat).
  { clear. induction cs as [|c cs [B' HB']]; [exists 0%nat; intros c Hc; by apply elem_of_nil in Hc|].
    exists (Nat.max B' (S (rank c))). intros x Hx. apply elem_of_cons in Hx as [->|Hx]; [lia|].
    pose proof (HB' x Hx). lia. }
  destruct Hcs as [B' HB']. exists (Nat.max B B'). intros h c Hc. unfold kids in Hc.
  destruct (decide (k = h)) as [<-|Hne].
  - rewrite lookup_insert_eq in Hc. pose proof (HB' c Hc). lia.
  - rewrite lookup_insert_ne in Hc by done. pose proof (HB h c Hc). lia.
Qed.

(** Popping [h] costs a fixed number of steps and collects what it reaches. *)
Definition swept (ch : Tree) (hs : list (list Z)) : Prop :=
  exists n R, (forall x, x ∈ R <-> exists h, h ∈ hs /\ reach ch h x) /\
  forall fuel K queue, keep_loop (n + fuel) ch (hs ++ queue) K = keep_loop fuel ch queue (R ∪ K).
Lemma swept_list ch hs : (forall h, h ∈ hs -> swept ch [h]) -> swept ch hs.
Proof using Type.
  induction hs as [|h hs IH]; intros Hs.
  { exists 0%nat, ∅. split; [|intros; by rewrite union_empty_l_L].
    intros x. split; [intros Hx; by apply elem_of_empty in Hx|intros (h & Hh & _); by apply elem_of_nil in Hh]. }
  destruct (Hs h ltac:(by left)) as (n1 & R1 & HR1 & Hk1).
  destruct IH as (n2 & R2 & HR2 & Hk2); [intros; apply Hs; by right|].
  exists (n1 + n2)%nat, (R2 ∪ R1). split.
  - intros x. rewrite elem_of_union, HR1, HR2. setoid_rewrite elem_of_cons.
    split; [intros [(y & ? & ?)|(y & [->|Hy] & ?)]|intros (y & [->|?] & ?)]; eauto.
    by apply elem_of_nil in Hy.
  - intros fuel K queue. rewrite <- Nat.add_assoc. change ((h :: hs) ++ queue) with ([h] ++ (hs ++ queue)).
    by rewrite Hk1, Hk2, union_assoc_L.
Qed.
Lemma acyclic_swept rank ch h : tree_acyclic rank ch -> swept ch [h].
Proof using Type.
  intros Hac. destruct (kids_bounded rank ch) as [B HB].
  remember (B - rank h)%nat as m eqn:Hm. revert h Hm.
  induction m as [m IH] using lt_wf_ind. intros h ->.
  assert (Hkids : swept ch (rev (kids ch h))).
  { apply swept_list. intros c Hc.
    assert (Hc' : c ∈ kids ch h) by (apply list_elem_of_In; apply list_elem_of_In in Hc; by apply in_rev).
    eapply IH; [|reflexivity]. pose proof (Hac h c Hc'). pose proof (HB h c Hc'). lia. }
  destruct Hkids as (n & R & HR & Hk). exists (S n), (R ∪ {[h]}). split.
  - intros x. rewrite elem_of_union, elem_of_singleton, HR. split.
    + intros [(c & Hc & Hr)| ->]; exists h; (split; [by left|]); [|constructor].
      apply (reach_step ch h c); [|done]. apply list_elem_of_In, in_rev. by apply list_elem_of_In in Hc.
    + intros (y & Hy & Hr). apply list_elem_of_singleton in Hy as ->. inversion Hr as [|c x' Hc Hr']; subst; [by right|].
      left. exists c. split; [|done]. apply list_elem_of_In. rewrite <- in_rev. by apply list_elem_of_In.
  - intros fuel K queue. simpl. rewrite <- union_assoc_L, <- Hk. unfold kids.
    by destruct (ch !! h).
Qed.

Lemma prune_reachable rank s f : tree_acyclic rank (fc_children s) ->
  exists n s', (forall fuel, (n <= fuel)%nat -> prune fuel f s = Ok s') /\
  fc_rule s' = fc_rule s /\
  forall h, (reach (fc_children s) f h ->
      fc_blocks s' !! h = fc_blocks s !! h /\ fc_children s' !! h = fc_children s !! h /\
      fc_attestations s' !! h = fc_attestations s !! h) /\
    (~ reach (fc_children s) f h ->
      fc_blocks s' !! h = None /\ fc_children s' !! h = None /\ fc_attestations s' !! h = None).
Proof using Type.
  intros Hac. destruct (acyclic_swept rank _ f Hac) as (n & R & HR & Hk).
  assert (HR' : forall x, x ∈ R <-> reach (fc_children s) f x).
  { intros x. rewrite HR. split; [intros (h & Hh & ?); by apply list_elem_of_singleton in Hh as ->|].
    intros ?. exists f. split; [by left|done]. }
  eexists n, _. split_and!.
  - intros fuel Hle. unfold prune. replace fuel with (n + (fuel - n))%nat by lia.
    change [f] with ([f] ++ []). rewrite Hk. cbn [keep_loop]. destruct (fuel - n)%nat; simpl; reflexivity.
  - done.
  - intros h. cbn [fc_blocks fc_children fc_attestations].
    assert (Hlk : forall {A} (m : gmap (list Z) A),
      filter (fun kv => kv.1 ∈ R ∪ ∅) m !! h = if decide (h ∈ R) then m !! h else None).
    { intros A m. rewrite map_lookup_filter. rewrite union_empty_r_L.
      destruct (m !! h) as [x|]; simpl; [|by case_decide].
      by case_guard. }
    rewrite !Hlk. rewrite <- HR'. by case_decide.
Qed.

(** [add_block] for each block with its total difficulty. *)
Fixpoint add_all (l : list (Block * Z)) (s : ForkChoice) : outcome ConsensusError ForkChoice :=
  match l with
  | [] => Ok s
  | (b, td) :: rest => let? s := add_block b td s in add_all rest s
  end.
Lemma add_all_ok l s : Forall block_ok l.*1 -> exists s', add_all l s = Ok s' /\
  (forall p, kids (fc_children s') p = kids (fc_children s) p ++ children_of l.*1 p) /\
  (forall h, h ∉ bhash <$> l.*1 -> fc_blocks s' !! h = fc_blocks s !! h) /\
  (NoDup (bhash <$> l.*1) -> forall b td, (b, td) ∈ l ->
    fc_blocks s' !! bhash b = Some (mkBlockInfo (header b) td 1 false false)).
Proof.
  revert s. induction l as [|[b td] l IH]; intros s Hok; simpl in *.
  { exists s. split_and!; [done|intros; by rewrite app_nil_r|done|].
    intros _ b td Hin. by apply elem_of_nil in Hin. }
  apply Forall_cons in Hok as [Hb Hok]. unfold add_block at 1. rewrite header_hash_ok by done. simpl.
  destruct (IH (mkForkChoice (fc_rule s) (<[bhash b:=mkBlockInfo (header b) td 1 false false]> (fc_blocks s))
    (tree_push (parent_of b) (bhash b) (fc_children s)) (fc_attestations s)) Hok) as (s' & Hs' & Hk & Hold & Hnew).
  exists s'. split_and!; [done| | |].
  - intros p. rewrite Hk. simpl. unfold kids. rewrite tree_push_lookup, <- app_assoc. f_equal.
    unfold children_of. by rewrite filter_cons; case_decide.
  - intros h Hh. apply not_elem_of_cons in Hh as [Hne Hh]. rewrite Hold by done. simpl.
    by rewrite lookup_insert_ne.
  - intros Hnd b' td' Hin. apply NoDup_cons in Hnd as [Hn Hnd].
    apply elem_of_cons in Hin as [[= -> ->]|Hin]; [|by apply Hnew].
    rewrite Hold by done. simpl. by rewrite lookup_insert_eq.
Qed.

(** Pruning keeps exactly the descendants of the finalized block.  After
    blocks with distinct hashes and no cycle are added to a new fork choice in
    any order, [prune] ends, keeps the entry of every added block that is the
    given one or below it, and forgets all others, their children included. *)
Theorem prune_keeps_descendants rank l f : forest rank l.*1 ->
  exists n s s', add_all l fork_choice_new = Ok s /\
    (forall fuel, (n <= fuel)%nat -> prune fuel f s = Ok s') /\
    (forall b td, (b, td) ∈ l -> below l.*1 f (bhash b) ->
       fc_blocks s' !! bhash b = Some (mkBlockInfo (header b) td 1 false false)) /\
    (forall h, below l.*1 f h -> default [] (fc_children s' !! h) = children_of l.*1 h) /\
    (forall h, ~ below l.*1 f h -> fc_blocks s' !! h = None /\ fc_children s' !! h = None).
Proof.
  intros Hf. destruct (add_all_ok l fork_choice_new (forest_ok _ _ Hf)) as (s & Hs & Hk & _ & Hnew).
  assert (Hac : tree_acyclic rank (fc_children s)).
  { intros h c Hc. rewrite Hk in Hc. apply children_are_candidates in Hc as (b & Hb & <- & ->).
    by apply (forest_ranked _ _ Hf). }
  assert (Hreach : forall h, reach (fc_children s) f h <-> below l.*1 f h).
  { intros h. split.
    - induction 1 as [h|h c x Hc _ IH]; [constructor|]. rewrite Hk in Hc.
      apply children_are_candidates in Hc as (b & Hb & <- & ->).
      eapply below_trans; [|exact IH]. constructor; [done|constructor].
    - assert (Htr : forall a b c, reach (fc_children s) a b -> reach (fc_children s) b c ->
        reach (fc_children s) a c) by (intros a b c Hab Hbc; induction Hab; [done|econstructor; eauto]).
      induction 1 as [|b Hb _ IH]; [constructor|]. eapply Htr; [exact IH|].
      econstructor; [|constructor]. rewrite Hk. apply list_elem_of_fmap_2, list_elem_of_filter. done. }
  destruct (prune_reachable rank s f Hac) as (n & s' & Hp & _ & Hl). exists n, s, s'.
  split_and!; [done|done| | |].
  - intros b td Hin Hb. destruct (Hl (bhash b)) as [Hyes _]. destruct Hyes as (-> & _); [by apply Hreach|].
    apply Hnew; [apply Hf|done].
  - intros h Hb. destruct (Hl h) as [Hyes _]. destruct Hyes as (_ & -> & _); [by apply Hreach|]. apply Hk.
  - intros h Hb. destruct (Hl h) as [_ Hno]. destruct Hno as (? & ? & _); [by rewrite Hreach|done].
Qed.
End fork_choice_proofs.

(** * Witnesses *)

(** Two children of the same parent, of which the first has a child. *)
Definition numbered (n salt : Z) (parent : list Z) : Block :=
  block_new (Header.mk parent (replicate 32 2) (replicate 20 3) (replicate 32 4) (replicate 32 5)
    (replicate 32 6) (replicate 256 0) 131072 n 8000000 21000 1600000000 []
    (replicate 32 8) salt None None None None None).
Definition sample_base : list Z := replicate 32 9.
Definition sample_a : Block := numbered 1 11 sample_base.
Definition sample_b : Block := numbered 1 12 sample_base.
Definition sample_c : Block := numbered 2 13 (bhash sample_a).
Definition samples : list Block := [sample_a; sample_b; sample_c].
(** The hashes of the samples end in 23, 25 and 27. *)
Definition sample_rank (h : list Z) : nat := Z.to_nat (List.last h 0).
Definition sample_choice (r : ForkChoiceRule) : ForkChoice :=
  mkForkChoice r {[bhash sample_a := mkBlockInfo (header sample_a) 0 1 false false]} ∅ ∅.

Lemma hash_wf b : wf_fixed 32 (bhash b).
Proof. split; [apply keccak_bytes|]. unfold len, bhash, keccak256. by rewrite keccak_length. Qed.
Lemma numbered_ok n salt p : wf_fixed 32 p -> uint 256 n -> uint 64 salt ->
  len (header_payload (header (numbered n salt p))) < 2 ^ 32 -> block_ok (numbered n salt p).
Proof. intros. split; simpl; try done; in_range. Qed.
Lemma samples_ok : Forall block_ok samples.
Proof.
  repeat apply Forall_cons_2; try apply Forall_nil_2; apply numbered_ok;
    solve [apply hash_wf | in_range].
Qed.
Lemma samples_forest : forest sample_rank samples.
Proof.
  split; [apply samples_ok|apply (bool_decide_unpack _); vm_compute; exact I|].
  apply Forall_forall. repeat apply Forall_cons_2; try apply Forall_nil_2; apply Nat.ltb_lt; vm_compute; reflexivity.
Qed.
Lemma sample_known r : known_acyclic sample_rank (sample_choice r).
Proof.
  intros h info Hl. cbn [fc_blocks sample_choice] in Hl. apply lookup_singleton_Some in Hl as [<- <-]. apply Nat.ltb_lt. vm_compute. reflexivity.
Qed.

Lemma longest_chain_selection_witness :
  exists r, @select_head _ _ dev_profile 10 (sample_choice LongestChain) samples = Ok r /\ r ∈ samples /\
    Forall (preferred r) samples /\
    forall blocks' fuel', samples ≡ₚ blocks' ->
    exists r', @select_head _ _ dev_profile fuel' (sample_choice LongestChain) blocks' = Ok r' /\
      block_number r' = block_number r /\ bhash r' = bhash r.
Proof.
  apply (@longest_chain_selection _ _ _ _ dev_profile); [reflexivity|discriminate|apply samples_ok|].
  repeat apply Forall_cons_2; try apply Forall_nil_2; vm_compute; reflexivity.
Defined.

Lemma ghost_selection_witness :
  exists n a g r, nearest_shared (sample_choice GHOST) sample_a sample_c a /\
    (forall b, b ∈ samples -> weighs samples (bhash b) (g (bhash b))) /\
    greedy_choice samples g a r /\
    forall fuel, (n <= fuel)%nat ->
      find_common_ancestor fuel (sample_choice GHOST) samples = Ok a /\
      @select_head _ _ dev_profile fuel (sample_choice GHOST) samples = r.
Proof.
  apply (@ghost_selection _ _ _ dev_profile sample_rank (sample_choice GHOST) sample_a [sample_b] sample_c);
    [reflexivity|apply samples_forest|apply sample_known|simpl; lia].
Defined.
Example ghost_selects_c : @select_head _ _ dev_profile 10 (sample_choice GHOST) samples = Ok sample_c.
Proof. vm_compute. reflexivity. Qed.

(** With three candidates the start of the walk need not be an ancestor of the
    one in the middle. *)
Example start_not_common : let middle := numbered 1 14 (replicate 32 10) in
  find_common_ancestor 10 (sample_choice GHOST) [sample_a; middle; sample_b] = Ok sample_base /\
  is_descendant_of 10 (sample_choice GHOST) (header middle) sample_base = Ok false.
Proof. split; vm_compute; reflexivity. Qed.

Lemma casper_ffg_selects_nothing_witness : exists n, forall fuel, (n <= fuel)%nat ->
  @select_head _ _ dev_profile fuel (sample_choice CasperFFG) samples =
  Err (ForkChoiceError "No valid blocks from justified checkpoint").
Proof. apply (casper_ffg_selects_nothing sample_rank); [reflexivity|apply sample_known|simpl; lia]. Defined.

Lemma prune_keeps_descendants_witness :
  let l := (fun b => (b, 5)) <$> samples in
  exists n s s', add_all l fork_choice_new = Ok s /\
    (forall fuel, (n <= fuel)%nat -> prune fuel (bhash sample_a) s = Ok s') /\
    (forall b td, (b, td) ∈ l -> below l.*1 (bhash sample_a) (bhash b) ->
       fc_blocks s' !! bhash b = Some (mkBlockInfo (header b) td 1 false false)) /\
    (forall h, below l.*1 (bhash sample_a) h -> default [] (fc_children s' !! h) = children_of l.*1 h) /\
    (forall h, ~ below l.*1 (bhash sample_a) h -> fc_blocks s' !! h = None /\ fc_children s' !! h = None).
Proof. apply (prune_keeps_descendants sample_rank). apply samples_forest. Defined.
