(* ===== verification/Storage.v ===== *)
(** The in-memory database: crates/storage/src/memory.rs, the [Database] trait of
    traits.rs and the key layout of lib.rs.

    A [BTreeMap] is the list of its entries with growing keys; [MemoryDatabase]
    keeps one behind a lock that every method takes for its whole duration, so a
    method is a function of the map.  What the database promises is stated
    against finite maps ([db_refines_map], the class [Database] and its laws):
    clients are proved against the class.  RocksDB is not part of the
    repository. *)
From stdpp Require Import base list numbers option strings gmap sorting.
From Stdlib Require Import ZArith Lia.
From S2P Require Import Prelude.

Inductive StorageError :=
  | KeyNotFound | DatabaseError (s : string) | SerializationError (s : string)
  | InvalidData (s : string) | IoError.
Notation KeyValue := (list Z * list Z)%type.

Definition bytes_geb (a b : list Z) : bool := negb (bytes_lt a b).
Fixpoint starts_with (prefix k : list Z) : bool :=
  match prefix, k with
  | [], _ => true
  | _ :: _, [] => false
  | x :: prefix, y :: k => (x =? y) && starts_with prefix k
  end.

(** ** [BTreeMap] *)

Definition BTreeMap := list KeyValue.
Fixpoint bt_get (k : list Z) (m : BTreeMap) : option (list Z) :=
  match m with
  | [] => None
  | (k', v) :: m => if bool_decide (k = k') then Some v else bt_get k m
  end.
Fixpoint bt_insert (k v : list Z) (m : BTreeMap) : BTreeMap :=
  match m with
  | [] => [(k, v)]
  | (k', v') :: m =>
      if bool_decide (k = k') then (k, v) :: m
      else if bytes_lt k k' then (k, v) :: (k', v') :: m
      else (k', v') :: bt_insert k v m
  end.
Fixpoint bt_remove (k : list Z) (m : BTreeMap) : BTreeMap :=
  match m with
  | [] => []
  | (k', v') :: m => if bool_decide (k = k') then m else (k', v') :: bt_remove k m
  end.

(** ** [MemoryDatabase] *)

Record MemoryDatabase := mkMemoryDatabase { db_data : BTreeMap }.
Definition db_new : MemoryDatabase := mkMemoryDatabase [].
Definition db_len (d : MemoryDatabase) : Z := len (db_data d).
Definition db_is_empty (d : MemoryDatabase) : bool :=
  match db_data d with [] => true | _ => false end.
Definition db_clear (d : MemoryDatabase) : MemoryDatabase := mkMemoryDatabase [].
Definition db_get (k : list Z) (d : MemoryDatabase) : outcome StorageError (option (list Z)) :=
  Ok (bt_get k (db_data d)).
Definition db_put (k v : list Z) (d : MemoryDatabase) : outcome StorageError MemoryDatabase :=
  Ok (mkMemoryDatabase (bt_insert k v (db_data d))).
Definition db_delete (k : list Z) (d : MemoryDatabase) : outcome StorageError MemoryDatabase :=
  Ok (mkMemoryDatabase (bt_remove k (db_data d))).
(** The default method of the trait. *)
Definition db_contains (k : list Z) (d : MemoryDatabase) : outcome StorageError bool :=
  let? v := db_get k d in Ok (bool_decide (is_Some v)).

Inductive BatchOp := Put (k v : list Z) | Delete (k : list Z).
Record MemoryBatch := mkMemoryBatch { operations : list BatchOp }.
Definition batch_new : MemoryBatch := mkMemoryBatch [].
Definition batch_put (k v : list Z) (b : MemoryBatch) : MemoryBatch :=
  mkMemoryBatch (operations b ++ [Put k v]).
Definition batch_delete (k : list Z) (b : MemoryBatch) : MemoryBatch :=
  mkMemoryBatch (operations b ++ [Delete k]).
Definition batch_clear (b : MemoryBatch) : MemoryBatch := mkMemoryBatch [].
Definition batch_len (b : MemoryBatch) : Z := len (operations b).
Definition batch_is_empty (b : MemoryBatch) : bool := batch_len b =? 0.

(** A [Box<dyn WriteBatch>]: of this database, or of another one. *)
Inductive AnyBatch := IsMemoryBatch (b : MemoryBatch) | IsOtherBatch.
Definition apply_op (m : BTreeMap) (op : BatchOp) : BTreeMap :=
  match op with
  | Put k v => bt_insert k v m
  | Delete k => bt_remove k m
  end.
Definition write_batch (b : AnyBatch) (d : MemoryDatabase) : outcome StorageError MemoryDatabase :=
  match b with
  | IsMemoryBatch b => Ok (mkMemoryDatabase (fold_left apply_op (operations b) (db_data d)))
  | IsOtherBatch => Err (InvalidData "Invalid batch type")
  end.

(** ** Iterators *)

Record MemoryIterator := mkMemoryIterator { entries : list KeyValue; it_position : Z }.
Definition iterator_new (l : list KeyValue) : MemoryIterator := mkMemoryIterator l 0.
Definition db_iter (d : MemoryDatabase) : MemoryIterator := iterator_new (db_data d).
Definition db_iter_from (start : list Z) (d : MemoryDatabase) : MemoryIterator :=
  iterator_new (filter (fun kv => bytes_geb kv.1 start = true) (db_data d)).
Definition db_iter_prefix (prefix : list Z) (d : MemoryDatabase) : MemoryIterator :=
  iterator_new (filter (fun kv => starts_with prefix kv.1 = true) (db_data d)).

Section iterators.
Context `{Profile}.
Definition it_next : SM MemoryIterator StorageError (option KeyValue) :=
  let! it := sget in
  if it_position it <? len (entries it) then
    let! entry := slift (index (entries it) (it_position it)) in
    let! p := slift (uadd 64 (it_position it) 1) in
    sput (mkMemoryIterator (entries it) p) ;;!
    sret (Some entry)
  else sret None.
Definition it_seek (key : list Z) : SM MemoryIterator StorageError (option KeyValue) :=
  let! it := sget in
  let p := match position (fun kv => bytes_geb kv.1 key) (entries it) with
           | Some i => Z.of_nat i
           | None => len (entries it)
           end in
  sput (mkMemoryIterator (entries it) p) ;;!
  it_next.
(** [while let Some(Ok(kv)) = iter.next()], collecting. *)
Fixpoint it_drain (fuel : nat) : SM MemoryIterator StorageError (list KeyValue) :=
  match fuel with
  | O => fun s => (Diverge, s)
  | S fuel =>
      let! o := it_next in
      match o with
      | Some kv => let! rest := it_drain fuel in sret (kv :: rest)
      | None => sret []
      end
  end.
End iterators.

(** ** Keys *)

Inductive KeyPrefix :=
  | KHeader | KBody | KReceipt | KState | KCode | KTransaction | KCanonicalHash | KTotalDifficulty.
#[export] Instance KeyPrefix_eq_dec : EqDecision KeyPrefix.
Proof. solve_decision. Defined.
Definition as_byte (p : KeyPrefix) : Z :=
  match p with
  | KHeader => 0 | KBody => 1 | KReceipt => 2 | KState => 3 | KCode => 4 | KTransaction => 5
  | KCanonicalHash => 6 | KTotalDifficulty => 7
  end.
Definition make_key (p : KeyPrefix) (suffix : list Z) : list Z := as_byte p :: suffix.
Definition header_key (block_hash : list Z) : list Z := make_key KHeader block_hash.
Definition body_key (block_hash : list Z) : list Z := make_key KBody block_hash.
Definition receipt_key (block_hash : list Z) : list Z := make_key KReceipt block_hash.
Definition canonical_hash_key (block_number : Z) : list Z :=
  make_key KCanonicalHash (to_be 8 block_number).
Definition total_difficulty_key (block_hash : list Z) : list Z := make_key KTotalDifficulty block_hash.
Definition state_key (address key : list Z) : list Z := [as_byte KState] ++ address ++ key.
Definition code_key (code_hash : list Z) : list Z := make_key KCode code_hash.

(** * The database as a finite map *)

Definition contents (d : MemoryDatabase) : gmap (list Z) (list Z) := list_to_map (db_data d).
Definition key_before (a b : KeyValue) : Prop := bytes_lt a.1 b.1 = true.
(** The keys grow strictly. *)
Definition db_ok (d : MemoryDatabase) : Prop := StronglySorted key_before (db_data d).

Lemma bt_get_map k m : bt_get k m = (list_to_map m : gmap (list Z) (list Z)) !! k.
Proof.
  induction m as [|[k' v] m IH]; simpl; [by rewrite lookup_empty|]. case_bool_decide as Hk.
  - subst. by rewrite lookup_insert_eq.
  - by rewrite lookup_insert_ne.
Qed.
Lemma bt_insert_map k v m :
  list_to_map (bt_insert k v m) = <[k := v]> (list_to_map m : gmap (list Z) (list Z)).
Proof.
  induction m as [|[k' v'] m IH]; simpl; [done|]. case_bool_decide as Hk.
  - subst. simpl. by rewrite insert_insert_eq.
  - case_match; simpl; [done|]. by rewrite IH, insert_insert_ne.
Qed.
Lemma sorted_keys_fresh k v m : StronglySorted key_before ((k, v) :: m) -> (list_to_map m : gmap _ (list Z)) !! k = None.
Proof.
  intros Hs. apply StronglySorted_inv in Hs as [_ Hf]. apply not_elem_of_list_to_map_1.
  intros Hin. apply list_elem_of_fmap in Hin as ([k' v'] & -> & Hin). rewrite Forall_forall in Hf.
  specialize (Hf _ Hin). unfold key_before in Hf. simpl in Hf. by rewrite bytes_lt_irrefl in Hf.
Qed.
Lemma bt_remove_map k m : StronglySorted key_before m ->
  list_to_map (bt_remove k m) = delete k (list_to_map m : gmap (list Z) (list Z)).
Proof.
  induction m as [|[k' v'] m IH]; intros Hs; simpl; [by rewrite delete_empty|]. case_bool_decide as Hk.
  - subst. rewrite delete_insert_eq, delete_id; [done|by apply (sorted_keys_fresh _ v')].
  - apply StronglySorted_inv in Hs as [Hs _]. simpl. by rewrite IH, delete_insert_ne.
Qed.

Lemma bt_insert_keys k v m x : x ∈ bt_insert k v m -> x = (k, v) \/ x ∈ m.
Proof.
  induction m as [|[k' v'] m IH]; simpl; [set_solver|]. case_bool_decide; [set_solver|].
  case_match; set_solver.
Qed.
Lemma bt_remove_sublist k m : sublist (bt_remove k m) m.
Proof.
  induction m as [|[k' v'] m IH]; simpl; [done|]. case_bool_decide; [by apply sublist_cons|by apply sublist_skip].
Qed.
Lemma sorted_sublist (l m : list KeyValue) : sublist l m ->
  StronglySorted key_before m -> StronglySorted key_before l.
Proof.
  induction 1 as [|x l m Hlm IH|x l m Hlm IH]; [done| |];
    intros Hs; apply StronglySorted_inv in Hs as [Hs Hf]; auto.
  constructor; [auto|]. by apply (sublist_Forall _ l m).
Qed.
Lemma bt_insert_sorted k v m : StronglySorted key_before m -> StronglySorted key_before (bt_insert k v m).
Proof.
  induction m as [|[k' v'] m IH]; intros Hs; simpl; [repeat constructor|].
  pose proof Hs as Hs'. apply StronglySorted_inv in Hs as [Hs Hf]. case_bool_decide as Hk.
  - subst. by constructor.
  - destruct (bytes_lt k k') eqn:Hlt.
    + constructor; [done|]. constructor; [done|]. apply (Forall_impl _ _ _ Hf).
      intros x Hx. unfold key_before in *. simpl in *. by apply (bytes_lt_trans _ k').
    + constructor; [by apply IH|]. apply Forall_forall. intros x Hx.
      apply bt_insert_keys in Hx as [->|Hx]; [|rewrite Forall_forall in Hf; by apply Hf].
      unfold key_before. simpl. destruct (bytes_lt k' k) eqn:Hgt; [done|].
      by destruct Hk; apply bytes_lt_antisym.
Qed.

(** What a batch does, on maps. *)
Definition map_op (m : gmap (list Z) (list Z)) (op : BatchOp) : gmap (list Z) (list Z) :=
  match op with Put k v => <[k := v]> m | Delete k => delete k m end.
Lemma batch_map ops m : StronglySorted key_before m ->
  StronglySorted key_before (fold_left apply_op ops m) /\
  list_to_map (fold_left apply_op ops m) = fold_left map_op ops (list_to_map m).
Proof.
  revert m. induction ops as [|op ops IH]; intros m Hs; [done|]. simpl.
  destruct (IH (apply_op m op)) as [Hs' Hm].
  { destruct op; simpl; [by apply bt_insert_sorted|].
    by apply (sorted_sublist _ m); [apply bt_remove_sublist|]. }
  split; [done|]. rewrite Hm. f_equal. destruct op; simpl; [apply bt_insert_map|by apply bt_remove_map].
Qed.

(** ** The interface *)

(** [trait Database], the operations clients use. *)
Class Database (D : Type) := {
  get : list Z -> D -> outcome StorageError (option (list Z));
  put : list Z -> list Z -> D -> outcome StorageError D;
  delete_key : list Z -> D -> outcome StorageError D;
  (** [batch()], filled with the operations, then [write_batch]. *)
  write_ops : list BatchOp -> D -> outcome StorageError D;
}.
(** What a database promises, [view] being the map it stores. *)
Class DatabaseLaws (D : Type) `{Database D} (ok : D -> Prop) (view : D -> gmap (list Z) (list Z)) : Prop := {
  get_law k d : ok d -> get k d = Ok (view d !! k);
  put_law k v d : ok d -> exists d', put k v d = Ok d' /\ ok d' /\ view d' = <[k := v]> (view d);
  delete_law k d : ok d -> exists d', delete_key k d = Ok d' /\ ok d' /\ view d' = delete k (view d);
  write_ops_law ops d : ok d ->
    exists d', write_ops ops d = Ok d' /\ ok d' /\ view d' = fold_left map_op ops (view d);
}.
#[export] Instance memory_database : Database MemoryDatabase :=
  {| get := db_get; put := db_put; delete_key := db_delete;
     write_ops := fun ops => write_batch (IsMemoryBatch (mkMemoryBatch ops)) |}.
#[export] Instance memory_database_laws : DatabaseLaws MemoryDatabase db_ok contents.
Proof.
  split.
  - intros k d _. simpl. unfold db_get. by rewrite bt_get_map.
  - intros k v d Hd. eexists. split_and!; [done|by apply bt_insert_sorted|apply bt_insert_map].
  - intros k d Hd. eexists. split_and!; [done| |by apply bt_remove_map].
    by apply (sorted_sublist _ (db_data d)); [apply bt_remove_sublist|].
  - intros ops [m] Hd. eexists. split; [done|]. apply (batch_map ops m Hd).
Qed.

Lemma sorted_size m : StronglySorted key_before m ->
  length m = size (list_to_map m : gmap (list Z) (list Z)).
Proof.
  induction m as [|[k v] m IH]; intros Hs; [done|]. simpl.
  rewrite map_size_insert, (sorted_keys_fresh k v) by done. f_equal.
  apply StronglySorted_inv in Hs as [Hs _]. by apply IH.
Qed.

(** [MemoryDatabase] implements a finite map.  From the new, empty one on,
    the keys stay sorted; [get], [contains], [len] and [is_empty] answer for the
    map of the stored pairs, [put], [delete] and [clear] update it, a batch has
    the effect of its operations one after the other, and a batch of another
    database is refused. *)
Theorem memory_database_refines_map d k v : db_ok d ->
  (db_ok db_new /\ contents db_new = ∅) /\
  (db_get k d = Ok (contents d !! k) /\
   db_contains k d = Ok (bool_decide (is_Some (contents d !! k))) /\
   db_len d = Z.of_nat (size (contents d)) /\
   db_is_empty d = bool_decide (contents d = ∅)) /\
  (exists d', db_put k v d = Ok d' /\ db_ok d' /\ contents d' = <[k := v]> (contents d)) /\
  (exists d', db_delete k d = Ok d' /\ db_ok d' /\ contents d' = delete k (contents d)) /\
  (db_ok (db_clear d) /\ contents (db_clear d) = ∅) /\
  (forall ops, exists d', write_batch (IsMemoryBatch (mkMemoryBatch ops)) d = Ok d' /\ db_ok d' /\
     contents d' = fold_left map_op ops (contents d)) /\
  write_batch IsOtherBatch d = Err (InvalidData "Invalid batch type").
Proof.
  intros Hd. destruct d as [m]. unfold db_ok in Hd. simpl in Hd. split_and!; try done.
  - constructor.
  - unfold db_get. by rewrite bt_get_map.
  - unfold db_contains, db_get. simpl. by rewrite bt_get_map.
  - unfold db_len, contents, len. simpl. f_equal. by apply sorted_size.
  - unfold db_is_empty, contents. destruct m as [|[k' v'] m]; simpl; [by rewrite bool_decide_eq_true_2|].
    rewrite bool_decide_eq_false_2; [done|]. apply insert_non_empty.
  - exact (put_law (D := MemoryDatabase) k v (mkMemoryDatabase m) Hd).
  - exact (delete_law (D := MemoryDatabase) k (mkMemoryDatabase m) Hd).
  - constructor.
  - intros ops. eexists. split; [done|]. apply (batch_map ops m Hd).
Qed.

(** * Iteration *)

Section iteration.
Context `{Profile}.

Lemma it_next_some l p kv : l !! p = Some kv -> len l < 2 ^ 64 ->
  it_next (mkMemoryIterator l (Z.of_nat p)) = (Ok (Some kv), mkMemoryIterator l (Z.of_nat (S p))).
Proof.
  intros Hl Hsz. pose proof (lookup_lt_Some _ _ _ Hl) as Hp. unfold it_next, sbind, sget. simpl.
  rewrite (proj2 (Z.ltb_lt _ _)) by (unfold len; lia). unfold slift, index.
  rewrite Nat2Z.id, Hl, (proj2 (Z.leb_le 0 _)) by lia.
  unfold uadd. rewrite checked_arith_ok by (unfold uint, len in *; lia).
  simpl. unfold sput, sret. do 2 f_equal. lia.
Qed.
Lemma it_next_none l p : len l <= p -> it_next (mkMemoryIterator l p) = (Ok None, mkMemoryIterator l p).
Proof.
  intros Hp. unfold it_next, sbind, sget. simpl. by rewrite (proj2 (Z.ltb_ge _ _)).
Qed.
Lemma it_drain_from l p fuel : len l < 2 ^ 64 -> (length l - p < fuel)%nat ->
  it_drain fuel (mkMemoryIterator l (Z.of_nat p)) =
  (Ok (drop p l), mkMemoryIterator l (Z.of_nat (Nat.max p (length l)))).
Proof.
  intros Hsz. revert p. induction fuel as [|fuel IH]; intros p Hf; [lia|]. simpl. unfold sbind.
  destruct (l !! p) as [kv|] eqn:Hl.
  - pose proof (lookup_lt_Some _ _ _ Hl). rewrite (it_next_some l p kv) by done. simpl.
    rewrite IH by lia. unfold sret. rewrite (drop_S l kv p) by done. do 3 f_equal. lia.
  - apply lookup_ge_None in Hl. rewrite it_next_none by (unfold len; lia). unfold sret.
    rewrite drop_ge by done. do 3 f_equal. lia.
Qed.

(** The entries of the map that satisfy [P], in the order of their keys. *)
Definition lists_in_order (m : gmap (list Z) (list Z)) (P : list Z -> bool) (l : list KeyValue) : Prop :=
  StronglySorted key_before l /\ forall k v, (k, v) ∈ l <-> m !! k = Some v /\ P k = true.
Lemma filter_in_order d (P : list Z -> bool) : db_ok d ->
  lists_in_order (contents d) P (filter (fun kv => P kv.1 = true) (db_data d)).
Proof.
  intros Hd. split; [apply (sorted_sublist _ (db_data d)); [apply sublist_filter|done]|].
  intros k v. rewrite list_elem_of_filter. simpl. unfold contents.
  rewrite <- elem_of_list_to_map; [tauto|]. destruct d as [m]. unfold db_ok in Hd. simpl in *.
  induction Hd as [|[k' v'] m Hs IH Hf]; simpl; [constructor|]. apply NoDup_cons. split; [|done].
  intros Hin. apply list_elem_of_fmap in Hin as ([k2 v2] & Heq & Hin). simpl in Heq. subst k2.
  rewrite Forall_forall in Hf. specialize (Hf _ Hin). unfold key_before in Hf. simpl in Hf.
  by rewrite bytes_lt_irrefl in Hf.
Qed.

(** The first entry at or after [key]. *)
Definition seek_target (l : list KeyValue) (key : list Z) : option KeyValue :=
  snd <$> list_find (fun kv => bytes_geb kv.1 key = true) l.

(** Iterators list the database in key order.  Draining [iter], [iter_from]
    and [iter_prefix] yields exactly the stored pairs, those at or after the
    start key, and those with the prefix, each once and by growing key, and then
    nothing more; [seek] moves to the first pair at or after the given key, so
    that draining goes on behind it. *)
Theorem iterators_in_order d start prefix key : db_ok d -> db_len d < 2 ^ 64 ->
  exists all from pre,
    lists_in_order (contents d) (fun _ => true) all /\
    lists_in_order (contents d) (fun k => bytes_geb k start) from /\
    lists_in_order (contents d) (starts_with prefix) pre /\
    (forall fuel, (length (db_data d) < fuel)%nat ->
       (it_drain fuel (db_iter d)).1 = Ok all /\
       (it_drain fuel (db_iter_from start d)).1 = Ok from /\
       (it_drain fuel (db_iter_prefix prefix d)).1 = Ok pre /\
       let (o, it) := it_seek key (db_iter d) in
       o = Ok (seek_target all key) /\
       exists skipped, Forall (fun kv => bytes_lt kv.1 key = true) skipped /\
         all = skipped ++ (match seek_target all key with Some kv => [kv] | None => [] end) ++
           match (it_drain fuel it).1 with Ok rest => rest | _ => [] end).
Proof.
  intros Hd Hsz.
  exists (db_data d), (filter (fun kv => bytes_geb kv.1 start = true) (db_data d)),
    (filter (fun kv => starts_with prefix kv.1 = true) (db_data d)).
  split_and!; [|by apply (filter_in_order d (fun k => bytes_geb k start))|by apply filter_in_order|].
  { pose proof (filter_in_order d (fun _ => true) Hd) as Hall.
    assert (Hid : forall l : list KeyValue, filter (fun _ => true = true) l = l).
    { induction l as [|x l IH]; [done|]. by rewrite filter_cons, decide_True, IH. }
    by rewrite Hid in Hall. }
  intros fuel Hf.
  assert (Hdr : forall l, (length l <= length (db_data d))%nat -> (it_drain fuel (iterator_new l)).1 = Ok l).
  { intros l Hl. unfold iterator_new. rewrite (it_drain_from l 0); [done| |lia].
    unfold db_len, len in *. lia. }
  split_and!; [by apply Hdr|apply Hdr, length_filter|apply Hdr, length_filter|].
  unfold it_seek, db_iter, iterator_new, sbind, sget, sput. simpl.
  unfold position, seek_target. set (l := db_data d) in *.
  destruct (list_find (fun kv : KeyValue => bytes_geb kv.1 key = true) l) as [[i kv]|] eqn:Hfind; simpl.
  - apply list_find_Some in Hfind as (Hl & Hge & Hbefore).
    rewrite (it_next_some l i kv) by done. simpl. split; [done|]. exists (take i l). split.
    + apply Forall_lookup. intros j x Hx. apply lookup_take_Some in Hx as [Hx Hj].
      specialize (Hbefore j x Hx Hj). unfold bytes_geb in Hbefore. by destruct (bytes_lt x.1 key).
    + rewrite it_drain_from by (unfold len in *; lia || done). simpl.
      rewrite <- (take_drop_middle l i kv) at 1 by done. done.
  - rewrite it_next_none by done. simpl. split; [done|]. exists l. split.
    + apply list_find_None in Hfind. apply (Forall_impl _ _ _ Hfind). intros x Hx. unfold bytes_geb in Hx.
      by destruct (bytes_lt x.1 key).
    + change (len l) with (Z.of_nat (length l)). rewrite it_drain_from by (unfold len in *; lia || done).
      simpl. by rewrite drop_all, app_nil_r.
Qed.
End iteration.

(** * Keys and typed access *)

(** What the functions of the module [keys] address. *)
Inductive StoredKey :=
  | SHeader (h : list Z) | SBody (h : list Z) | SReceipt (h : list Z) | SCanonical (n : Z)
  | STotalDifficulty (h : list Z) | SState (address key : list Z) | SCode (h : list Z).
Definition key_of (x : StoredKey) : list Z :=
  match x with
  | SHeader h => header_key h
  | SBody h => body_key h
  | SReceipt h => receipt_key h
  | SCanonical n => canonical_hash_key n
  | STotalDifficulty h => total_difficulty_key h
  | SState a k => state_key a k
  | SCode h => code_key h
  end.
(** Block numbers are 64 bits wide, addresses have 20 bytes. *)
Definition stored_key_ok (x : StoredKey) : Prop :=
  match x with
  | SCanonical n => uint 64 n
  | SState a _ => length a = 20%nat
  | _ => True
  end.
Lemma key_of_inj x y : stored_key_ok x -> stored_key_ok y -> key_of x = key_of y -> x = y.
Proof.
  intros Hx Hy Heq. pose proof (f_equal (hd 0) Heq) as Hp. pose proof (f_equal (drop 1) Heq) as Hs.
  assert (H8 : forall a b, uint 64 a -> uint 64 b -> to_be 8 a = to_be 8 b -> a = b).
  { assert (Hb : forall a, uint 64 a -> from_be (to_be 8 a) = a)
      by (intros a Ha; rewrite from_be_to_be; by apply Z.mod_small).
    intros a b Ha Hb' Hab. rewrite <- (Hb a), <- (Hb b) by done. by rewrite Hab. }
  destruct x, y; try discriminate Hp; try (f_equal; exact Hs).
  - f_equal. by apply H8.
  - change (address ++ key = address0 ++ key0) in Hs.
    apply app_inj_1 in Hs as [-> ->]; [done|]. simpl in Hx, Hy. congruence.
Qed.

(** [TypedDatabase], over any database; [serialize] and [deserialize] are those
    of the bincode crate at the type [T]. *)
Section typed.
Context {D : Type} `{Database D}.
Definition get_typed {T} (deserialize : list Z -> T + string) (k : list Z) (d : D) :
    outcome StorageError (option T) :=
  let? o := get k d in
  match o with
  | Some b => match deserialize b with
              | inl v => Ok (Some v)
              | inr e => Err (SerializationError e)
              end
  | None => Ok None
  end.
Definition put_typed {T} (serialize : T -> list Z + string) (k : list Z) (v : T) (d : D) :
    outcome StorageError D :=
  match serialize v with
  | inl b => put k b d
  | inr e => Err (SerializationError e)
  end.

(** Typed values are kept apart by their keys.  In any database that keeps
    the promises of the trait, a value written under one of the chain's keys
    (headers, bodies, receipts, canonical hashes, total difficulties, account
    state, code) is read back under that key, and what is read under every
    other key, of this kind or another and at any type, stays the same. *)
Theorem typed_values_are_separate {T ok view} `{!DatabaseLaws D ok view}
    (serialize : T -> list Z + string) (deserialize : list Z -> T + string) x v b d :
  (forall v b, serialize v = inl b -> deserialize b = inl v) ->
  ok d -> stored_key_ok x -> serialize v = inl b ->
  exists d', put_typed serialize (key_of x) v d = Ok d' /\ ok d' /\
    get_typed deserialize (key_of x) d' = Ok (Some v) /\
    forall y, stored_key_ok y -> y <> x -> forall U (des : list Z -> U + string),
      get_typed des (key_of y) d' = get_typed des (key_of y) d.
Proof.
  intros Hser Hd Hx Hv. unfold put_typed, get_typed. rewrite Hv.
  destruct (put_law (key_of x) b d Hd) as (d' & Hput & Hd' & Hview). exists d'.
  split_and!; [done|done| |].
  - rewrite get_law, Hview, lookup_insert_eq by done. simpl. by rewrite (Hser v b).
  - intros y Hy Hne U des. rewrite !get_law, Hview, lookup_insert_ne by (try done; intros Heq; apply Hne; symmetry; by apply key_of_inj).
    done.
Qed.
End typed.

(** * Witnesses *)

Definition sample_db : MemoryDatabase := mkMemoryDatabase [([1], [10]); ([1; 2], [20]); ([3], [30])].
Lemma sample_db_ok : db_ok sample_db.
Proof. unfold db_ok. repeat constructor. Qed.

Lemma memory_database_refines_map_witness :
  db_get [1; 2] sample_db = Ok (contents sample_db !! [1; 2]).
Proof. destruct (memory_database_refines_map sample_db [1; 2] [] sample_db_ok) as (_ & (H & _) & _). exact H. Defined.

Lemma iterators_in_order_witness : exists pre,
  lists_in_order (contents sample_db) (starts_with [1]) pre /\
  (@it_drain dev_profile 9 (db_iter_prefix [1] sample_db)).1 = Ok pre.
Proof.
  destruct (@iterators_in_order dev_profile sample_db [2] [1] [2] sample_db_ok) as
    (all & from & pre & _ & _ & Hp & Hrun); [reflexivity|].
  exists pre. split; [exact Hp|]. apply (Hrun 9%nat). simpl. lia.
Defined.

Lemma typed_values_are_separate_witness :
  exists d', put_typed inl (key_of (SHeader [1])) [7] sample_db = Ok d' /\ db_ok d' /\
    get_typed inl (key_of (SHeader [1])) d' = Ok (Some [7]) /\
    forall y, stored_key_ok y -> y <> SHeader [1] -> forall U (des : list Z -> U + string),
      get_typed des (key_of y) d' = get_typed des (key_of y) sample_db.
Proof.
  apply (typed_values_are_separate (view := contents) inl inl (SHeader [1]) [7] [7]).
  - intros v b Hb. by injection Hb as ->.
  - apply sample_db_ok.
  - exact I.
  - reflexivity.
Defined.
