(* ===== verification/Nibbles.v ===== *)
(** Trie paths: crates/trie/src/nibbles.rs.  A [Nibbles] is the vector of its
    nibbles, one per byte; the hex-prefix ("compact") encoding packs a path and
    a leaf flag into bytes. *)
From stdpp Require Import base list numbers option.
From Stdlib Require Import ZArith Lia.
From S2P Require Import Prelude Rlp Storage.

Module Nibbles.

(** The error type of the crate, lib.rs. *)
Inductive TrieError :=
| KeyNotFound
| InvalidNode
| InvalidProof
| StorageErr (e : StorageError)
| RlpErr (e : RlpError)
| InvalidKeyLength
| InvalidNibbles.
Notation Nibbles := (list Z).

(** [x << 4] on [u8]. *)
Definition shl4 (x : Z) : Z := wrap 8 (Z.shiftl x 4).

Definition from_bytes (b : list Z) : Nibbles :=
  flat_map (fun x => [Z.shiftr x 4; Z.land x 0x0f]) b.

(** [for i in (0..len).step_by(2)]: pairs of nibbles, a missing second one is 0. *)
Fixpoint pack (n : Nibbles) : list Z :=
  match n with
  | [] => []
  | [x] => [Z.lor (shl4 x) 0]
  | x :: y :: n' => Z.lor (shl4 x) y :: pack n'
  end.
Definition to_bytes (n : Nibbles) : Infallible (list Z) :=
  if negb (len n mod 2 =? 0) then Panic else Ok (pack n).

Definition is_empty (n : Nibbles) : bool := len n =? 0.
Definition get (n : Nibbles) (i : Z) : option Z := n !! Z.to_nat i.
Definition slice_range (n : Nibbles) (start stop : Z) : Infallible Nibbles := slice n start stop.
Definition slice_from (n : Nibbles) (start : Z) : Infallible Nibbles := slice n start (len n).
Fixpoint common_prefix_len (n m : Nibbles) : Z :=
  match n, m with
  | x :: n', y :: m' => if x =? y then 1 + common_prefix_len n' m' else 0
  | _, _ => 0
  end.
(** [assert!(nibble < 16)] *)
Definition push (nibble : Z) : SM Nibbles Empty_set unit :=
  fun n => if nibble <? 16 then (Ok tt, n ++ [nibble]) else (Panic, n).
Definition extend (other n : Nibbles) : Nibbles := n ++ other.

Definition encode_compact (n : Nibbles) (is_leaf : bool) : Infallible (list Z) :=
  let odd_len := negb (len n mod 2 =? 0) in
  let flags :=
    match is_leaf, odd_len with
    | false, false => 0x00
    | false, true => 0x10
    | true, false => 0x20
    | true, true => 0x30
    end in
  if odd_len then
    let? first := index n 0 in
    Ok (Z.lor flags first :: pack (drop 1 n))
  else Ok (flags :: pack n).

Definition decode_compact (encoded : list Z) : outcome TrieError (Nibbles * bool) :=
  match encoded with
  | [] => Err InvalidNibbles
  | flags :: rest =>
      let is_leaf := negb (Z.land flags 0x20 =? 0) in
      let odd_len := negb (Z.land flags 0x10 =? 0) in
      let nibbles := (if odd_len then [Z.land flags 0x0f] else []) ++ from_bytes rest in
      let nibbles :=
        if negb odd_len && bool_decide (list.last nibbles = Some 0)
        then take (length nibbles - 1) nibbles else nibbles in
      Ok (nibbles, is_leaf)
  end.

(** * Properties *)

Definition nibble (x : Z) : Prop := 0 <= x < 16.

Definition nibble_pair_check : bool :=
  forallb (fun x => forallb (fun y =>
    let b := Z.lor (shl4 x) y in
    (Z.shiftr b 4 =? x) && (Z.land b 0x0f =? y) && (0 <=? b) && (b <? 256)
    && (Z.lor 0x10 x =? 16 + x) && (Z.lor 0x30 x =? 48 + x)
    && (Z.land (16 + x) 0x0f =? x) && (Z.land (48 + x) 0x0f =? x)
    && (Z.land (16 + x) 0x10 =? 16) && (Z.land (48 + x) 0x10 =? 16)
    && (Z.land (16 + x) 0x20 =? 0) && (Z.land (48 + x) 0x20 =? 32))
    (map Z.of_nat (seq 0 16))) (map Z.of_nat (seq 0 16)).

Lemma nibble_in x : nibble x -> In x (map Z.of_nat (seq 0 16)).
Proof.
  unfold nibble. intros Hx. apply in_map_iff. exists (Z.to_nat x). split; [lia|].
  apply in_seq. lia.
Qed.

Lemma nibble_pair x y : nibble x -> nibble y ->
  Z.shiftr (Z.lor (shl4 x) y) 4 = x /\ Z.land (Z.lor (shl4 x) y) 0x0f = y /\ byte (Z.lor (shl4 x) y).
Proof.
  intros Hx Hy. assert (Hc : nibble_pair_check = true) by (by vm_compute).
  unfold nibble_pair_check in Hc. rewrite forallb_forall in Hc.
  specialize (Hc x (nibble_in x Hx)). rewrite forallb_forall in Hc.
  specialize (Hc y (nibble_in y Hy)). cbv zeta in Hc. unfold byte. lia.
Qed.

Lemma flag_nibble x : nibble x ->
  Z.lor 0x10 x = 16 + x /\ Z.lor 0x30 x = 48 + x /\
  Z.land (16 + x) 0x0f = x /\ Z.land (48 + x) 0x0f = x /\
  Z.land (16 + x) 0x10 = 16 /\ Z.land (48 + x) 0x10 = 16 /\
  Z.land (16 + x) 0x20 = 0 /\ Z.land (48 + x) 0x20 = 32.
Proof.
  intros Hx. assert (Hc : nibble_pair_check = true) by (by vm_compute).
  unfold nibble_pair_check in Hc. rewrite forallb_forall in Hc.
  specialize (Hc x (nibble_in x Hx)). rewrite forallb_forall in Hc.
  specialize (Hc x (nibble_in x Hx)). cbv zeta in Hc. lia.
Qed.

Definition byte_split_check (b : Z) : bool :=
  (0 <=? Z.shiftr b 4) && (Z.shiftr b 4 <? 16) && (0 <=? Z.land b 0x0f) && (Z.land b 0x0f <? 16)
  && (Z.lor (shl4 (Z.shiftr b 4)) (Z.land b 0x0f) =? b).

Lemma byte_split b : byte b ->
  nibble (Z.shiftr b 4) /\ nibble (Z.land b 0x0f) /\ Z.lor (shl4 (Z.shiftr b 4)) (Z.land b 0x0f) = b.
Proof.
  intros Hb. assert (Hc : byte_split_check b = true) by (apply all_bytes; [by vm_compute|done]).
  unfold byte_split_check in Hc. unfold nibble. lia.
Qed.

(** Induction two nibbles at a time. *)
Lemma pair_ind (P : list Z -> Prop) :
  P [] -> (forall x, P [x]) -> (forall x y n, P n -> P (x :: y :: n)) -> forall n, P n.
Proof.
  intros H0 H1 H2. fix IH 1. intros [|x [|y n]]; [exact H0|apply H1|apply H2, IH].
Qed.

Lemma even_cons2 (x y : Z) n : len (x :: y :: n) mod 2 = len n mod 2.
Proof. rewrite !len_cons. zlia. Qed.

Lemma unpack_pack n : Forall nibble n -> len n mod 2 = 0 -> from_bytes (pack n) = n.
Proof.
  induction n as [|x|x y n IH] using pair_ind; intros Hn He; [done|done|].
  rewrite even_cons2 in He. rewrite !Forall_cons_iff in Hn. destruct Hn as (Hx & Hy & Hn).
  simpl. fold (from_bytes (pack n)). rewrite IH by done.
  by destruct (nibble_pair x y Hx Hy) as (-> & -> & _).
Qed.

Lemma pack_unpack b : bytes b -> pack (from_bytes b) = b /\ Forall nibble (from_bytes b) /\
  len (from_bytes b) = 2 * len b.
Proof.
  induction 1 as [|x b Hx Hb IH]; [done|]. destruct IH as (IH1 & IH2 & IH3).
  destruct (byte_split x Hx) as (H1 & H2 & H3). simpl. fold (from_bytes b).
  rewrite IH1, H3. split_and!; [done|by apply Forall_cons_iff; split; [|apply Forall_cons_iff; split]|]. rewrite !len_cons, IH3. lia.
Qed.

Lemma pack_bytes n : Forall nibble n -> bytes (pack n).
Proof.
  induction n as [|x|x y n IH] using pair_ind; intros Hn; [constructor| |].
  - rewrite Forall_singleton in Hn. constructor; [|constructor].
    apply (nibble_pair x 0 Hn). unfold nibble. lia.
  - rewrite !Forall_cons_iff in Hn. destruct Hn as (Hx & Hy & Hn). simpl. constructor; [|by apply IH].
    by apply nibble_pair.
Qed.

(** bytes and nibbles convert back and forth without loss.  The nibbles
    of a byte string are nibbles, twice as many as the bytes, and [to_bytes]
    gives the bytes back; an even number of nibbles survives [to_bytes] and
    [from_bytes]; an odd number makes [to_bytes] panic. *)
Theorem nibbles_bytes_roundtrip :
  (forall b, bytes b -> to_bytes (from_bytes b) = Ok b /\ Forall nibble (from_bytes b) /\
                        len (from_bytes b) = 2 * len b) /\
  (forall n, Forall nibble n ->
     if len n mod 2 =? 0 then exists b, to_bytes n = Ok b /\ bytes b /\ from_bytes b = n
     else to_bytes n = Panic).
Proof.
  split.
  - intros b Hb. destruct (pack_unpack b Hb) as (H1 & H2 & H3). split_and!; [|done..].
    unfold to_bytes. rewrite H3, H1. by rewrite Z.mul_comm, Z_mod_mult.
  - intros n Hn. unfold to_bytes. destruct (Z.eqb_spec (len n mod 2) 0) as [He|]; [|done].
    exists (pack n). split_and!; [done|by apply pack_bytes|by apply unpack_pack].
Qed.

Lemma odd_cons (n : Nibbles) : len n mod 2 <> 0 -> exists x m, n = x :: m /\ len m mod 2 = 0.
Proof.
  intros Ho. destruct n as [|x m]; [done|]. exists x, m. split; [done|].
  rewrite len_cons in Ho. zlia.
Qed.

Lemma compact_decodes n leaf : Forall nibble n ->
  exists e, encode_compact n leaf = Ok e /\ bytes e /\
    decode_compact e =
      Ok (if (len n mod 2 =? 0) && bool_decide (list.last n = Some 0) then take (length n - 1) n else n,
          leaf).
Proof.
  intros Hn. unfold encode_compact. destruct (Z.eqb_spec (len n mod 2) 0) as [He|Ho]; simpl negb; cbv iota.
  - eexists. split; [done|]. split.
    { constructor; [destruct leaf; unfold byte; lia|by apply pack_bytes]. }
    destruct leaf; simpl decode_compact; by rewrite unpack_pack.
  - destruct (odd_cons n Ho) as (x & m & -> & He). rewrite Forall_cons_iff in Hn. destruct Hn as [Hx Hm].
    change (index (x :: m) 0) with (Ok (E := Empty_set) x). cbn [obind]. eexists. split; [done|].
    change (drop 1 (x :: m)) with m.
    destruct (flag_nibble x Hx) as (F1 & F2 & F3 & F4 & F5 & F6 & F7 & F8).
    split.
    { constructor; [|by apply pack_bytes]. unfold nibble in Hx. unfold byte. destruct leaf; lia. }
    destruct leaf; unfold decode_compact; [rewrite F2, F4, F6, F8|rewrite F1, F3, F5, F7];
      by rewrite unpack_pack.
Qed.

(** decoding a compact path inverts encoding it, except that a path of
    even length that ends in the nibble 0 loses that nibble: [decode_compact]
    takes it for padding, which the encoding never adds.  The leaf flag always
    survives, and what is encoded is bytes. *)
Theorem compact_roundtrip n leaf : Forall nibble n ->
  exists e, encode_compact n leaf = Ok e /\ bytes e /\
    decode_compact e =
      Ok (if (len n mod 2 =? 0) && bool_decide (list.last n = Some 0) then take (length n - 1) n else n,
          leaf).
Proof. apply compact_decodes. Qed.

Lemma compact_roundtrip_witness :
  exists e, encode_compact [1; 0] true = Ok e /\ bytes e /\
    decode_compact e =
      Ok (if (len [1; 0] mod 2 =? 0) && bool_decide (list.last [1; 0] = Some 0)
          then take (length [1; 0] - 1) [1; 0] else [1; 0], true).
Proof. apply (compact_roundtrip [1; 0] true). repeat constructor; unfold nibble; lia. Defined.

(** The common prefix is common, and the longest one. *)
Lemma common_prefix_spec n m :
  let k := Z.to_nat (common_prefix_len n m) in
  0 <= common_prefix_len n m /\ take k n = take k m /\ (k <= length n)%nat /\ (k <= length m)%nat /\
  match n !! k, m !! k with Some x, Some y => x <> y | _, _ => True end.
Proof.
  revert m. induction n as [|x n IH]; intros [|y m]; simpl; try (by repeat split; auto; lia).
  destruct (Z.eqb_spec x y) as [->|Hne]; simpl.
  - destruct (IH m) as (Hk & Ht & H1 & H2 & Hn).
    replace (Z.to_nat (1 + common_prefix_len n m)) with (S (Z.to_nat (common_prefix_len n m))) by lia.
    simpl. rewrite Ht. repeat split; auto; lia.
  - repeat split; auto; lia.
Qed.
End Nibbles.
