(* ===== verification/Trie.v ===== *)
(** The Merkle-Patricia trie: crates/trie/src/node.rs, trie.rs and proof.rs.

    A node is a leaf, an extension or a branch of sixteen references; a
    reference holds a small node itself and a large one by its hash, to be
    loaded from the database.  [PatriciaTrie] keeps the root node, the cached
    hash of the root and the database it shares with its owner.  A method that
    follows references takes fuel, one unit per node on the path.

    node.rs writes and reads list headers with [Encoder::encode_list(n, f)] and
    [Decoder::decode_list_header], which crates/rlp does not define; they are
    the operations of the class [RlpLists], whose laws say that they write and
    read the list headers of RLP. *)
From stdpp Require Import base list numbers option gmap.
From Stdlib Require Import ZArith Lia.
From S2P Require Import Prelude U256 Rlp Storage Nibbles.

(** The list methods of the encoder and the decoder. *)
Class RlpLists := {
  encode_list_of : Z -> (Encoder -> Infallible Encoder) -> Encoder -> Infallible Encoder;
  decode_list_header : DM Z;
}.

Module Trie.
Export Nibbles(TrieError(..)).

(** * node.rs *)

Inductive Node :=
| Empty
| Leaf (key value : list Z)
| Extension (key : list Z) (node : NodeRef)
| Branch (children : list (option NodeRef)) (value : option (list Z))
with NodeRef :=
| Hash (h : list Z)
| Inline (node : Node).
Notation Children := (list (option NodeRef)).

Definition new_leaf (key value : list Z) : Node := Leaf key value.
Definition new_extension (key : list Z) (node : NodeRef) : Node := Extension key node.
Definition new_branch : Node := Branch (replicate 16 None) None.
Definition is_empty (n : Node) : bool := match n with Empty => true | _ => false end.

(** [?] on the results of the other crates. *)
Definition from_rlp {A} (m : outcome RlpError A) : outcome TrieError A :=
  match m with Ok a => Ok a | Err e => Err (RlpErr e) | Panic => Panic | Diverge => Diverge end.
Definition from_storage {A} (m : outcome StorageError A) : outcome TrieError A :=
  match m with Ok a => Ok a | Err e => Err (StorageErr e) | Panic => Panic | Diverge => Diverge end.
Definition dlift {A} (m : DM A) : SM Decoder TrieError A :=
  fun d => (from_rlp (m d).1, (m d).2).

Section node.
Context `{RlpLists} `{KeccakOps}.

Fixpoint encode_raw (n : Node) : Infallible (list Z) :=
  let? encoder :=
    match n with
    | Empty => Ok (encode_bytes encoder_new [])
    | Leaf key value =>
        encode_list_of 2 (fun e =>
          let? k := Nibbles.encode_compact key true in
          Ok (encode_bytes (encode_bytes e k) value)) encoder_new
    | Extension key node =>
        encode_list_of 2 (fun e =>
          let? k := Nibbles.encode_compact key false in
          let e := encode_bytes e k in
          match node with
          | Hash hash => Ok (encode_bytes e hash)
          | Inline n => let? encoded := encode_raw n in Ok (encode_bytes e encoded)
          end) encoder_new
    | Branch children value =>
        encode_list_of 17 (fun e =>
          let? e := encode_items (fun child e =>
            match child with
            | None => Ok (encode_bytes e [])
            | Some (Hash hash) => Ok (encode_bytes e hash)
            | Some (Inline n) => let? encoded := encode_raw n in Ok (encode_bytes e encoded)
            end) children e in
          match value with
          | None => Ok (encode_bytes e [])
          | Some v => Ok (encode_bytes e v)
          end) encoder_new
    end in
  Ok (finish encoder).

(** [H256] is 32 bytes; a small node is padded with zeros instead of hashed. *)
Definition hash (n : Node) : Infallible (list Z) :=
  let? encoded := encode_raw n in
  if len encoded <? 32 then Ok (encoded ++ replicate (32 - length encoded) 0)
  else Ok (keccak256 encoded).

Definition from_node (n : Node) : Infallible NodeRef :=
  let? encoded := encode_raw n in
  if len encoded <? 32 then Ok (Inline n)
  else let? h := hash n in Ok (Hash h).

Context `{Profile}.

(** [for i in 0..16]: an empty string is no child. *)
Fixpoint decode_children (decode : list Z -> outcome TrieError NodeRef) (k : nat) :
    SM Decoder TrieError Children :=
  match k with
  | O => sret []
  | S k =>
      let! child_data := dlift decode_bytes in
      let! child :=
        match child_data with
        | [] => sret None
        | _ => let! r := slift (decode child_data) in sret (Some r)
        end in
      let! children := decode_children decode k in
      sret (child :: children)
  end.

(** A reference is a hash when it has 32 bytes, a node otherwise. *)
Definition decode_ref (decode : list Z -> outcome TrieError Node) (data : list Z) :
    outcome TrieError NodeRef :=
  if len data =? 32 then Ok (Hash data)
  else let? n := decode data in Ok (Inline n).

Definition decode_pair (decode : list Z -> outcome TrieError Node) : SM Decoder TrieError Node :=
  let! key_data := dlift decode_bytes in
  let! (key, is_leaf) := slift (Nibbles.decode_compact key_data) in
  if is_leaf : bool then
    let! value := dlift decode_bytes in
    sret (Leaf key value)
  else
    let! node_data := dlift decode_bytes in
    let! node := slift (decode_ref decode node_data) in
    sret (Extension key node).

Definition decode_branch (decode : list Z -> outcome TrieError Node) : SM Decoder TrieError Node :=
  let! children := decode_children (decode_ref decode) 16 in
  let! value_data := dlift decode_bytes in
  sret (Branch children (match value_data with [] => None | _ => Some value_data end)).

(** [fuel] bounds the nesting of inline nodes. *)
Fixpoint decode_raw (fuel : nat) (data : list Z) : outcome TrieError Node :=
  match fuel with
  | O => Diverge
  | S fuel =>
      match data with
      | [] => Ok Empty
      | _ =>
          ((let! list_size := dlift decode_list_header in
            if list_size =? 2 then decode_pair (decode_raw fuel)
            else if list_size =? 17 then decode_branch (decode_raw fuel)
            else sfail InvalidNode) (decoder_new data)).1
      end
  end.
(** Every nested node is shorter than the string it is read from. *)
Definition decode_node (data : list Z) : outcome TrieError Node := decode_raw (S (length data)) data.
End node.

(** * trie.rs *)

Record PatriciaTrie (D : Type) := mkTrie {
  db : D;
  root : Node;
  root_hash_cache : option (list Z);
}.
Arguments mkTrie {D} _ _ _.
Arguments db {D} _.
Arguments root {D} _.
Arguments root_hash_cache {D} _.

(** [children[nibble] = x] on the array. *)
Definition set_child (children : Children) (nibble : Z) (x : option NodeRef) : outcome TrieError Children :=
  if (0 <=? nibble) && (nibble <? len children) then Ok (<[Z.to_nat nibble := x]> children) else Panic.

(** [children.iter().enumerate().filter_map(..)] *)
Fixpoint non_empty_children (i : Z) (children : Children) : list (Z * NodeRef) :=
  match children with
  | [] => []
  | Some r :: cs => (i, r) :: non_empty_children (i + 1) cs
  | None :: cs => non_empty_children (i + 1) cs
  end.

(** [b't'] in front of the hash. *)
Definition node_key (hash : list Z) : list Z := 116 :: hash.

Section trie.
Context `{RlpLists} `{KeccakOps} `{Profile} {D : Type} `{Database D}.

Definition load_node (d : D) (hash : list Z) : outcome TrieError Node :=
  let? found := from_storage (Storage.get (node_key hash) d) in
  match found with
  | None => Err KeyNotFound
  | Some data => decode_node data
  end.
Definition resolve_node_ref (d : D) (r : NodeRef) : outcome TrieError Node :=
  match r with
  | Inline n => Ok n
  | Hash h => load_node d h
  end.

Definition trie_new (d : D) : PatriciaTrie D := mkTrie d Empty None.
Definition new_with_root (d : D) (root_hash : list Z) : outcome TrieError (PatriciaTrie D) :=
  let? root := load_node d root_hash in
  Ok (mkTrie d root (Some root_hash)).

Definition root_hash {E} : SM (PatriciaTrie D) E (list Z) :=
  let! t := sget in
  match root_hash_cache t with
  | Some h => sret h
  | None =>
      let! h := slift (lift_ok (hash (root t))) in
      sput (mkTrie (db t) (root t) (Some h)) ;;!
      sret h
  end.

Fixpoint get_at_node (fuel : nat) (d : D) (node : Node) (key : list Z) (key_index : Z) :
    outcome TrieError (option (list Z)) :=
  match fuel with
  | O => Diverge
  | S fuel =>
      match node with
      | Empty => Ok None
      | Leaf leaf_key value =>
          let? remaining_key := lift_ok (Nibbles.slice_from key key_index) in
          if bool_decide (remaining_key = leaf_key) then Ok (Some value) else Ok None
      | Extension ext_key child_ref =>
          let? remaining_key := lift_ok (Nibbles.slice_from key key_index) in
          let common_len := Nibbles.common_prefix_len ext_key remaining_key in
          if common_len =? len ext_key then
            let? child := resolve_node_ref d child_ref in
            let? i := uadd 64 key_index common_len in
            get_at_node fuel d child key i
          else Ok None
      | Branch children value =>
          if key_index =? len key then Ok value
          else
            let? nibble := unwrap (Nibbles.get key key_index) in
            let? slot := index children nibble in
            match slot with
            | None => Ok None
            | Some child_ref =>
                let? child := resolve_node_ref d child_ref in
                let? i := uadd 64 key_index 1 in
                get_at_node fuel d child key i
            end
      end
  end.
Definition trie_get (fuel : nat) (key : list Z) (t : PatriciaTrie D) : outcome TrieError (option (list Z)) :=
  get_at_node fuel (db t) (root t) (Nibbles.from_bytes key) 0.

(** What every arm that makes a branch does with a key and its value: with
    nothing left of the key after [at_] nibbles the value goes to the branch,
    otherwise a leaf with the rest goes to the child of the nibble at [at_]. *)
Definition put_leaf (key : list Z) (at_ : Z) (value : list Z) (b : Children * option (list Z)) :
    outcome TrieError (Children * option (list Z)) :=
  if at_ <? len key then
    let? nibble := unwrap (Nibbles.get key at_) in
    let? next := uadd 64 at_ 1 in
    let? rest := lift_ok (Nibbles.slice_from key next) in
    let? r := lift_ok (from_node (Leaf rest value)) in
    let? children := set_child b.1 nibble (Some r) in
    Ok (children, b.2)
  else Ok (b.1, Some value).

(** [if common_len > 0]: an extension over the branch, or the branch itself. *)
Definition under_prefix (common_len : Z) (common_prefix : list Z) (b : Children * option (list Z)) :
    outcome TrieError Node :=
  if 0 <? common_len then
    let? r := lift_ok (from_node (Branch b.1 b.2)) in
    Ok (Extension common_prefix r)
  else Ok (Branch b.1 b.2).

Definition insert_at_leaf (leaf_key leaf_value remaining_key value : list Z) : outcome TrieError Node :=
  let common_len := Nibbles.common_prefix_len leaf_key remaining_key in
  if (common_len =? len leaf_key) && (common_len =? len remaining_key) then Ok (Leaf leaf_key value)
  else if common_len =? 0 then
    let? b := put_leaf leaf_key 0 leaf_value (replicate 16 None, None) in
    let? b := put_leaf remaining_key 0 value b in
    Ok (Branch b.1 b.2)
  else
    let? common_prefix := lift_ok (Nibbles.slice_range leaf_key 0 common_len) in
    let? b := put_leaf leaf_key common_len leaf_value (replicate 16 None, None) in
    let? b := put_leaf remaining_key common_len value b in
    under_prefix common_len common_prefix b.

(** The rest of an extension, in a new branch. *)
Definition put_extension (ext_remainder : list Z) (child_ref : NodeRef) (children : Children) :
    outcome TrieError Children :=
  if negb (Nibbles.is_empty ext_remainder) then
    let? nibble := unwrap (Nibbles.get ext_remainder 0) in
    if len ext_remainder =? 1 then set_child children nibble (Some child_ref)
    else
      let? rest := lift_ok (Nibbles.slice_from ext_remainder 1) in
      let? r := lift_ok (from_node (Extension rest child_ref)) in
      set_child children nibble (Some r)
  else Ok children.

Definition split_extension (ext_key : list Z) (child_ref : NodeRef) (remaining_key value : list Z)
    (common_len : Z) : outcome TrieError Node :=
  let? common_prefix := lift_ok (Nibbles.slice_range ext_key 0 common_len) in
  let? ext_remainder := lift_ok (Nibbles.slice_from ext_key common_len) in
  let? key_remainder := lift_ok (Nibbles.slice_from remaining_key common_len) in
  let? children := put_extension ext_remainder child_ref (replicate 16 None) in
  let? b := put_leaf key_remainder 0 value (children, None) in
  under_prefix common_len common_prefix b.

Fixpoint insert_at_node (fuel : nat) (d : D) (node : Node) (key : list Z) (key_index : Z) (value : list Z) :
    outcome TrieError Node :=
  match fuel with
  | O => Diverge
  | S fuel =>
      match node with
      | Empty =>
          let? rest := lift_ok (Nibbles.slice_from key key_index) in
          Ok (Leaf rest value)
      | Leaf leaf_key leaf_value =>
          let? remaining_key := lift_ok (Nibbles.slice_from key key_index) in
          insert_at_leaf leaf_key leaf_value remaining_key value
      | Extension ext_key child_ref =>
          let? remaining_key := lift_ok (Nibbles.slice_from key key_index) in
          let common_len := Nibbles.common_prefix_len ext_key remaining_key in
          if common_len =? len ext_key then
            let? child := resolve_node_ref d child_ref in
            let? i := uadd 64 key_index common_len in
            let? new_child := insert_at_node fuel d child key i value in
            let? r := lift_ok (from_node new_child) in
            Ok (Extension ext_key r)
          else split_extension ext_key child_ref remaining_key value common_len
      | Branch children branch_value =>
          if key_index =? len key then Ok (Branch children (Some value))
          else
            let? nibble := unwrap (Nibbles.get key key_index) in
            let? slot := index children nibble in
            let? child :=
              match slot with
              | None => Ok Empty
              | Some child_ref => resolve_node_ref d child_ref
              end in
            let? i := uadd 64 key_index 1 in
            let? new_child := insert_at_node fuel d child key i value in
            let? r := lift_ok (from_node new_child) in
            let? children := set_child children nibble (Some r) in
            Ok (Branch children branch_value)
      end
  end.
(** A failed insertion leaves the trie as it was. *)
Definition trie_insert (fuel : nat) (key value : list Z) : SM (PatriciaTrie D) TrieError unit :=
  let! t := sget in
  let! root := slift (insert_at_node fuel (db t) (root t) (Nibbles.from_bytes key) 0 value) in
  sput (mkTrie (db t) root None).

Definition try_compact_branch (d : D) (children : Children) (value : option (list Z)) :
    outcome TrieError Node :=
  match non_empty_children 0 children, value with
  | [], None => Ok Empty
  | [], Some v => Ok (Leaf [] v)
  | [(nibble, child_ref)], None =>
      let? child := resolve_node_ref d child_ref in
      match child with
      | Leaf child_key value => Ok (Leaf (Nibbles.extend child_key [wrap 8 nibble]) value)
      | Extension child_key node => Ok (Extension (Nibbles.extend child_key [wrap 8 nibble]) node)
      | _ => Ok (Extension [wrap 8 nibble] child_ref)
      end
  | _, _ => Ok (Branch children value)
  end.

(** The extension [ext_key] over what a deletion left of its child. *)
Definition collapse_extension (ext_key : list Z) (new_child : Node) : outcome TrieError (Node * bool) :=
  match new_child with
  | Empty => Ok (Empty, true)
  | Leaf child_key value => Ok (Leaf (Nibbles.extend child_key ext_key) value, true)
  | Extension child_key node => Ok (Extension (Nibbles.extend child_key ext_key) node, true)
  | Branch _ _ =>
      let? r := lift_ok (from_node new_child) in
      Ok (Extension ext_key r, true)
  end.

Fixpoint delete_at_node (fuel : nat) (d : D) (node : Node) (key : list Z) (key_index : Z) :
    outcome TrieError (Node * bool) :=
  match fuel with
  | O => Diverge
  | S fuel =>
      match node with
      | Empty => Ok (Empty, false)
      | Leaf leaf_key _ =>
          let? remaining_key := lift_ok (Nibbles.slice_from key key_index) in
          if bool_decide (remaining_key = leaf_key) then Ok (Empty, true) else Ok (node, false)
      | Extension ext_key child_ref =>
          let? remaining_key := lift_ok (Nibbles.slice_from key key_index) in
          let common_len := Nibbles.common_prefix_len ext_key remaining_key in
          if common_len =? len ext_key then
            let? child := resolve_node_ref d child_ref in
            let? i := uadd 64 key_index common_len in
            let? (new_child, deleted) := delete_at_node fuel d child key i in
            if deleted : bool then collapse_extension ext_key new_child else Ok (node, false)
          else Ok (node, false)
      | Branch children value =>
          if key_index =? len key then
            match value with
            | Some _ =>
                let? compacted := try_compact_branch d children None in
                Ok (compacted, true)
            | None => Ok (node, false)
            end
          else
            let? nibble := unwrap (Nibbles.get key key_index) in
            let? slot := index children nibble in
            match slot with
            | Some child_ref =>
                let? child := resolve_node_ref d child_ref in
                let? i := uadd 64 key_index 1 in
                let? (new_child, deleted) := delete_at_node fuel d child key i in
                if deleted : bool then
                  let? x :=
                    if is_empty new_child then Ok None
                    else let? r := lift_ok (from_node new_child) in Ok (Some r) in
                  let? children := set_child children nibble x in
                  let? compacted := try_compact_branch d children value in
                  Ok (compacted, true)
                else Ok (node, false)
            | None => Ok (node, false)
            end
      end
  end.
Definition trie_delete (fuel : nat) (key : list Z) : SM (PatriciaTrie D) TrieError bool :=
  let! t := sget in
  let! (new_root, deleted) := slift (delete_at_node fuel (db t) (root t) (Nibbles.from_bytes key) 0) in
  sput (mkTrie (db t) new_root None) ;;!
  sret deleted.

(** [for child_ref in children.iter().flatten()], inline children only. *)
Definition commit_children (commit_node : Node -> list BatchOp -> Infallible (list BatchOp)) :
    Children -> list BatchOp -> Infallible (list BatchOp) :=
  fix go cs batch :=
    match cs with
    | [] => Ok batch
    | Some (Inline child) :: cs => let? batch := commit_node child batch in go cs batch
    | _ :: cs => go cs batch
    end.
(** The operations [commit_node] adds to the batch. *)
Fixpoint commit_node (node : Node) (batch : list BatchOp) : Infallible (list BatchOp) :=
  let? encoded := encode_raw node in
  let? batch :=
    if 32 <=? len encoded then
      let? h := hash node in
      Ok (batch ++ [Put (node_key h) encoded])
    else Ok batch in
  match node with
  | Extension _ (Inline child) => commit_node child batch
  | Branch children _ => commit_children commit_node children batch
  | _ => Ok batch
  end.
Definition commit : SM (PatriciaTrie D) TrieError (list Z) :=
  let! t := sget in
  let! batch := slift (lift_ok (commit_node (root t) [])) in
  let! d := slift (from_storage (write_ops batch (db t))) in
  sput (mkTrie d (root t) (root_hash_cache t)) ;;!
  root_hash.
End trie.

(** * proof.rs *)

Record MerkleProof := mkProof { nodes : list (list Z) }.
Definition proof_new : MerkleProof := mkProof [].
Definition add_node {E} (encoded : list Z) : SM MerkleProof E unit :=
  smodify (fun p => mkProof (nodes p ++ [encoded])).

Section proof.
Context `{RlpLists} `{KeccakOps} `{Profile}.

Definition resolve_proof_node (p : MerkleProof) (r : NodeRef) (proof_index : Z) : outcome TrieError Node :=
  match r with
  | Inline n => Ok n
  | Hash _ =>
      if len (nodes p) <=? proof_index then Err InvalidProof
      else let? data := index (nodes p) proof_index in decode_node data
  end.

Fixpoint verify_at_node (fuel : nat) (p : MerkleProof) (node : Node) (key : list Z) (key_index proof_index : Z) :
    outcome TrieError (option (list Z)) :=
  match fuel with
  | O => Diverge
  | S fuel =>
      match node with
      | Empty => Ok None
      | Leaf leaf_key value =>
          let? remaining_key := lift_ok (Nibbles.slice_from key key_index) in
          if bool_decide (remaining_key = leaf_key) then Ok (Some value) else Ok None
      | Extension ext_key child_ref =>
          let? remaining_key := lift_ok (Nibbles.slice_from key key_index) in
          let common_len := Nibbles.common_prefix_len ext_key remaining_key in
          if common_len =? len ext_key then
            let? child := resolve_proof_node p child_ref proof_index in
            let? i := uadd 64 key_index common_len in
            let? j := uadd 64 proof_index 1 in
            verify_at_node fuel p child key i j
          else Ok None
      | Branch children value =>
          if key_index =? len key then Ok value
          else
            let? nibble := unwrap (Nibbles.get key key_index) in
            let? slot := index children nibble in
            match slot with
            | None => Ok None
            | Some child_ref =>
                let? child := resolve_proof_node p child_ref proof_index in
                let? i := uadd 64 key_index 1 in
                let? j := uadd 64 proof_index 1 in
                verify_at_node fuel p child key i j
            end
      end
  end.

Definition verify (fuel : nat) (p : MerkleProof) (root_hash key : list Z) (expected_value : option (list Z)) :
    outcome TrieError bool :=
  match nodes p with
  | [] => Ok false
  | first :: _ =>
      let nibbles := Nibbles.from_bytes key in
      let? first_node := decode_node first in
      let? h := lift_ok (hash first_node) in
      if negb (bool_decide (h = root_hash)) then Ok false
      else
        let? value := verify_at_node fuel p first_node nibbles 0 1 in
        match value, expected_value with
        | Some v, Some exp => Ok (bool_decide (v = exp))
        | None, None => Ok true
        | _, _ => Ok false
        end
  end.

Section collect.
Context (load : list Z -> outcome TrieError (list Z)).

(** The node a reference stands for, [load_node] giving the encoding. *)
Definition proof_child (r : NodeRef) : outcome TrieError Node :=
  match r with
  | Inline child => Ok child
  | Hash hash => let? child_data := load hash in decode_node child_data
  end.
(** The arm of a branch ends in [Ok(())] whatever the call on the child
    returns. *)
Fixpoint collect_proof_nodes (fuel : nat) (node : Node) (key : list Z) (key_index : Z) :
    SM MerkleProof TrieError unit :=
  match fuel with
  | O => slift Diverge
  | S fuel =>
      let! encoded := slift (lift_ok (encode_raw node)) in
      add_node encoded ;;!
      match node with
      | Empty | Leaf _ _ => sret tt
      | Extension ext_key child_ref =>
          let! remaining_key := slift (lift_ok (Nibbles.slice_from key key_index)) in
          let common_len := Nibbles.common_prefix_len ext_key remaining_key in
          if common_len =? len ext_key then
            let! child := slift (proof_child child_ref) in
            let! i := slift (uadd 64 key_index common_len) in
            collect_proof_nodes fuel child key i
          else sret tt
      | Branch children _ =>
          if key_index <? len key then
            let! nibble := slift (unwrap (Nibbles.get key key_index)) in
            let! slot := slift (index children nibble) in
            match slot with
            | Some child_ref =>
                let! child := slift (proof_child child_ref) in
                let! i := slift (uadd 64 key_index 1) in
                fun p =>
                  match collect_proof_nodes fuel child key i p with
                  | (Err _, p') => (Ok tt, p')
                  | r => r
                  end
            | None => sret tt
            end
          else sret tt
      end
  end.
Definition generate_proof (fuel : nat) (root : Node) (key : list Z) : outcome TrieError MerkleProof :=
  let nibbles := Nibbles.from_bytes key in
  match collect_proof_nodes fuel root nibbles 0 proof_new with
  | (Ok _, p) => Ok p
  | (Err e, _) => Err e
  | (Panic, _) => Panic
  | (Diverge, _) => Diverge
  end.
End collect.
End proof.
End Trie.
