(* ===== verification/TrieProofs.v ===== *)
(** What the trie stores: the operations of trie.rs against the answers a
    reader gets.  [reads] is the path a lookup takes, with the remaining key in
    place of an index; an insertion or a deletion updates the answer at its key
    and at no other.  A reference by hash to a node the database does not hold
    gives the answer [Missing], which an operation can add but never a wrong
    value. *)
From stdpp Require Import base list numbers option gmap.
From Stdlib Require Import ZArith Lia.
From S2P Require Import Prelude U256 Rlp RlpProofs Storage Nibbles Trie.

Module TrieProofs.
Import Trie.

(** * Keys, indices and arrays *)

Lemma slice_from_app {E} (p k : list Z) : lift_ok (E := E) (Nibbles.slice_from (p ++ k) (len p)) = Ok k.
Proof.
  unfold Nibbles.slice_from. pose proof (slice_mid (E := Empty_set) p k []) as Hs.
  rewrite app_nil_r, <- len_app in Hs. by rewrite Hs.
Qed.
Lemma slice_from_zero {E} (k : list Z) : lift_ok (E := E) (Nibbles.slice_from k 0) = Ok k.
Proof. exact (slice_from_app [] k). Qed.
Lemma slice_prefix {E} (p k : list Z) : lift_ok (E := E) (Nibbles.slice_range (p ++ k) 0 (len p)) = Ok p.
Proof. unfold Nibbles.slice_range. by rewrite (slice_mid [] p k : slice (E := Empty_set) (p ++ k) 0 (len p) = Ok p). Qed.
Lemma get_app (p k : list Z) x : Nibbles.get (p ++ x :: k) (len p) = Some x.
Proof. unfold Nibbles.get, len. by rewrite Nat2Z.id, list_lookup_middle. Qed.

Lemma common_prefix_full (ek k : list Z) :
  Nibbles.common_prefix_len ek k = len ek <-> exists k', k = ek ++ k'.
Proof.
  revert k. induction ek as [|x ek IH]; intros k; simpl; [split; [by exists k|done]|].
  rewrite len_cons. pose proof (len_nonneg ek). destruct k as [|y k]; simpl; [split; [lia|by intros [k' ?]]|].
  destruct (Z.eqb_spec x y) as [->|Hne].
  - split.
    + intros Hc. destruct (proj1 (IH k)) as [k' ->]; [lia|]. by exists k'.
    + intros [k' ?]. simplify_eq. rewrite (proj2 (IH _)); [done|by exists k'].
  - split; [lia|]. intros [k' ?]. simplify_eq.
Qed.
(** Two keys split at their common prefix, and differ right after it. *)
Lemma common_prefix_split (n m : list Z) : exists c n' m',
  n = c ++ n' /\ m = c ++ m' /\ Nibbles.common_prefix_len n m = len c /\
  (forall x y n1 m1, n' = x :: n1 -> m' = y :: m1 -> x <> y).
Proof.
  revert m. induction n as [|x n IH]; intros m; [by exists [], [], m|].
  destruct m as [|y m]; [by exists [], (x :: n), []|]. simpl. destruct (Z.eqb_spec x y) as [->|Hne].
  - destruct (IH m) as (c & n' & m' & -> & -> & Hc & Hd). exists (y :: c), n', m'.
    rewrite len_cons, Hc. done.
  - exists [], (x :: n), (y :: m). split_and!; [done..|]. intros. by simplify_eq.
Qed.

Lemma set_child_ok cs i x cs' : set_child cs i x = Ok cs' <->
  0 <= i < len cs /\ cs' = <[Z.to_nat i := x]> cs.
Proof. unfold set_child. case_bool; simpl; naive_solver lia. Qed.
Lemma index_set {E} cs i x cs' j : set_child cs i x = Ok cs' -> 0 <= j ->
  index (E := E) cs' j = if j =? i then Ok x else index cs j.
Proof.
  intros [Hi ->]%set_child_ok Hj. unfold index. destruct (Z.eqb_spec j i) as [->|Hne].
  - rewrite list_lookup_insert_eq by (unfold len in Hi; lia). by rewrite (proj2 (Z.leb_le 0 i)) by lia.
  - rewrite list_lookup_insert_ne by lia. done.
Qed.
Lemma index_repeat {E A} (x : A) n i y : index (E := E) (replicate n x) i = Ok y -> y = x.
Proof. intros [_ Hy]%index_spec. by apply lookup_replicate in Hy as [-> _]. Qed.

(** * Answers *)

Inductive answer := Found (v : option (list Z)) | Missing.

(** An answer that is right, or lost. *)
Definition at_most (a b : answer) : Prop := a = b \/ a = Missing.
Infix "⪯" := at_most (at level 70).
#[export] Instance at_most_preorder : PreOrder at_most.
Proof. unfold at_most. split; intros a; naive_solver. Qed.

Section answers.
Context `{RlpLists} `{KeccakOps} `{Profile} {D : Type} `{Database D}.
Implicit Types (d : D) (n : Node) (r : NodeRef) (k : list Z) (a : answer).

Inductive reads d : Node -> list Z -> answer -> Prop :=
| reads_empty k : reads d Empty k (Found None)
| reads_leaf lk v k : reads d (Leaf lk v) k (Found (if bool_decide (k = lk) then Some v else None))
| reads_ext_other ek r k : (forall k', k <> ek ++ k') -> reads d (Extension ek r) k (Found None)
| reads_ext ek r k n a : resolve_node_ref d r = Ok n -> reads d n k a -> reads d (Extension ek r) (ek ++ k) a
| reads_ext_missing ek r k :
    resolve_node_ref d r = Err KeyNotFound -> reads d (Extension ek r) (ek ++ k) Missing
| reads_branch_value cs v : reads d (Branch cs v) [] (Found v)
| reads_branch_none cs v x k :
    index (E := TrieError) cs x = Ok None -> reads d (Branch cs v) (x :: k) (Found None)
| reads_branch cs v x k r n a :
    index (E := TrieError) cs x = Ok (Some r) -> resolve_node_ref d r = Ok n -> reads d n k a ->
    reads d (Branch cs v) (x :: k) a
| reads_branch_missing cs v x k r :
    index (E := TrieError) cs x = Ok (Some r) -> resolve_node_ref d r = Err KeyNotFound ->
    reads d (Branch cs v) (x :: k) Missing.

(** The answer behind a reference. *)
Definition reads_ref d r k a : Prop :=
  (exists n, resolve_node_ref d r = Ok n /\ reads d n k a) \/
  (resolve_node_ref d r = Err KeyNotFound /\ a = Missing).

Lemma reads_ext_intro d ek r k a : reads_ref d r k a -> reads d (Extension ek r) (ek ++ k) a.
Proof. intros [(n & ? & ?)|[? ->]]; [by eapply reads_ext|by apply reads_ext_missing]. Qed.
Lemma reads_ext_inv d ek r k a : reads d (Extension ek r) k a ->
  ((forall k', k <> ek ++ k') /\ a = Found None) \/ exists k', k = ek ++ k' /\ reads_ref d r k' a.
Proof.
  inversion 1; subst; [by left|right..]; eexists; (split; [done|]); [left; eauto|by right].
Qed.
Lemma reads_child_intro d cs v x k r a :
  index (E := TrieError) cs x = Ok (Some r) -> reads_ref d r k a -> reads d (Branch cs v) (x :: k) a.
Proof. intros ? [(n & ? & ?)|[? ->]]; [by eapply reads_branch|by eapply reads_branch_missing]. Qed.
Lemma reads_child_inv d cs v x k a : reads d (Branch cs v) (x :: k) a ->
  (index (E := TrieError) cs x = Ok None /\ a = Found None) \/
  exists r, index (E := TrieError) cs x = Ok (Some r) /\ reads_ref d r k a.
Proof.
  inversion 1; subst; [by left|right..]; eexists; (split; [done|]); [left; eauto|by right].
Qed.
Lemma reads_value_inv d cs v a : reads d (Branch cs v) [] a -> a = Found v.
Proof. by inversion 1. Qed.

Lemma reads_fun d n k a a' : reads d n k a -> reads d n k a' -> a = a'.
Proof.
  intros Ha. revert a'. induction Ha as [k|lk v k|ek r k Hk|ek r k n a Hr _ IH|ek r k Hr|cs v|cs v x k Hi|cs v x k r n a Hi Hr _ IH|cs v x k r Hi Hr];
    intros a' Ha'.
  1, 2, 6: by inversion Ha'.
  - apply reads_ext_inv in Ha' as [[_ ->]|(k' & -> & _)]; [done|by destruct (Hk k')].
  - apply reads_ext_inv in Ha' as [[Hno _]|(k' & Hk' & Hr')]; [by destruct (Hno k)|]. simplify_list_eq.
    destruct Hr' as [(n' & Hn' & ?)|[? _]]; [|congruence]. apply IH. by assert (n = n') as -> by congruence.
  - apply reads_ext_inv in Ha' as [[Hno _]|(k' & Hk' & Hr')]; [by destruct (Hno k)|]. simplify_list_eq.
    destruct Hr' as [(n' & ? & _)|[_ ->]]; [congruence|done].
  - apply reads_child_inv in Ha' as [[_ ->]|(r' & ? & _)]; [done|congruence].
  - apply reads_child_inv in Ha' as [[? _]|(r' & ? & Hr')]; [congruence|]. assert (r' = r) as -> by congruence.
    destruct Hr' as [(n' & Hn' & ?)|[? _]]; [|congruence]. apply IH. by assert (n = n') as -> by congruence.
  - apply reads_child_inv in Ha' as [[? _]|(r' & ? & Hr')]; [congruence|]. assert (r' = r) as -> by congruence.
    destruct Hr' as [(n' & ? & _)|[_ ->]]; [congruence|done].
Qed.

(** ** Lookups give the answers *)

Definition of_answer (a : answer) : outcome TrieError (option (list Z)) :=
  match a with Found v => Ok v | Missing => Err KeyNotFound end.

Lemma next_index {E} (p k : list Z) c : len ((p ++ c) ++ k) < 2 ^ 64 ->
  uadd (E := E) 64 (len p) (len c) = Ok (len (p ++ c)).
Proof.
  rewrite !len_app. intros Hl. unfold uadd.
  pose proof (len_nonneg p). pose proof (len_nonneg c). pose proof (len_nonneg k).
  apply checked_arith_ok. unfold uint. lia.
Qed.
Lemma not_at_end (p k : list Z) x : (len p =? len (p ++ x :: k)) = false.
Proof. apply Z.eqb_neq. rewrite len_app, len_cons. pose proof (len_nonneg k). lia. Qed.
Lemma at_end (p : list Z) : (len p =? len (p ++ [])) = true.
Proof. rewrite app_nil_r. apply Z.eqb_refl. Qed.

(** The next step of a lookup in an extension and in a branch. *)
Lemma get_ext fuel d ek r (p k : list Z) : len (p ++ k) < 2 ^ 64 ->
  (exists k', k = ek ++ k' /\
     get_at_node (S fuel) d (Extension ek r) (p ++ k) (len p) =
     let? child := resolve_node_ref d r in get_at_node fuel d child ((p ++ ek) ++ k') (len (p ++ ek))) \/
  ((forall k', k <> ek ++ k') /\ get_at_node (S fuel) d (Extension ek r) (p ++ k) (len p) = Ok None).
Proof.
  intros Hp. cbn [get_at_node]. rewrite slice_from_app. cbn [obind].
  destruct (Z.eqb_spec (Nibbles.common_prefix_len ek k) (len ek)) as [Hc|Hc].
  - apply common_prefix_full in Hc as Hk. destruct Hk as [k' ->]. left. exists k'. split; [done|].
    rewrite Hc. rewrite app_assoc in *. by rewrite (next_index p k' ek Hp).
  - right. split; [|done]. intros k' ->. apply Hc, common_prefix_full. by eexists.
Qed.
Lemma get_branch fuel d cs v (p k : list Z) x : len (p ++ x :: k) < 2 ^ 64 ->
  get_at_node (S fuel) d (Branch cs v) (p ++ x :: k) (len p) =
  let? slot := index cs x in
  match slot with
  | None => Ok None
  | Some r => let? child := resolve_node_ref d r in get_at_node fuel d child ((p ++ [x]) ++ k) (len (p ++ [x]))
  end.
Proof.
  intros Hp. cbn [get_at_node]. rewrite not_at_end, get_app. cbn [unwrap obind].
  change (x :: k) with ([x] ++ k) in *. rewrite app_assoc in *. change 1 with (len [x]) at 1.
  by rewrite (next_index p k [x] Hp).
Qed.

Lemma reads_get d n k a : reads d n k a -> exists N, forall fuel p, (N <= fuel)%nat ->
  len (p ++ k) < 2 ^ 64 -> get_at_node fuel d n (p ++ k) (len p) = of_answer a.
Proof.
  assert (Hext : forall ek r k fuel p, len (p ++ ek ++ k) < 2 ^ 64 ->
    get_at_node (S fuel) d (Extension ek r) (p ++ ek ++ k) (len p) =
    let? child := resolve_node_ref d r in get_at_node fuel d child ((p ++ ek) ++ k) (len (p ++ ek))).
  { intros ek r k1 fuel p Hp. destruct (get_ext fuel d ek r p (ek ++ k1) Hp) as [(k' & Hk & He)|[Hk _]];
      [by simplify_list_eq|by destruct (Hk k1)]. }
  induction 1 as [k|lk v k|ek r k Hk|ek r k n a Hr _ [N IH]|ek r k Hr|cs v|cs v x k Hi|cs v x k r n a Hi Hr _ [N IH]|cs v x k r Hi Hr];
    [exists 1%nat|exists 1%nat|exists 1%nat|exists (S N)|exists 1%nat|exists 1%nat|exists 1%nat|exists (S N)|exists 1%nat];
    (intros [|fuel] p HN Hp; [lia|]).
  - done.
  - cbn [get_at_node]. rewrite slice_from_app. simpl. by case_bool_decide.
  - destruct (get_ext fuel d ek r p k Hp) as [(k' & -> & _)|[_ He]]; [by destruct (Hk k')|done].
  - rewrite Hext, Hr by done. rewrite app_assoc in Hp. apply IH; [lia|done].
  - by rewrite Hext, Hr.
  - cbn [get_at_node]. by rewrite at_end.
  - by rewrite get_branch, Hi.
  - rewrite get_branch, Hi by done. cbn [obind]. rewrite Hr. apply IH; [lia|].
    change (x :: k) with ([x] ++ k) in Hp. by rewrite app_assoc in Hp.
  - rewrite get_branch, Hi by done. cbn [obind]. by rewrite Hr.
Qed.

Lemma get_reads d fuel n k p a : len (p ++ k) < 2 ^ 64 ->
  get_at_node fuel d n (p ++ k) (len p) = of_answer a -> reads d n k a.
Proof.
  revert n k p. induction fuel as [|fuel IH]; intros n k p Hp Hg; [by destruct a|].
  destruct n as [|lk v|ek r|cs v].
  - destruct a; [|done]. cbn in Hg. simplify_eq. constructor.
  - cbn [get_at_node] in Hg. rewrite slice_from_app in Hg. cbn [obind] in Hg.
    pose proof (reads_leaf d lk v k) as Hl. case_bool_decide; destruct a; try done; cbn in Hg; by simplify_eq.
  - destruct (get_ext fuel d ek r p k Hp) as [(k' & -> & He)|[Hk He]]; rewrite He in Hg.
    + rewrite app_assoc in Hp. apply reads_ext_intro. destruct (resolve_node_ref d r) as [n|e| |] eqn:Hr; try (by destruct a).
      * left. exists n. split; [done|]. by eapply IH.
      * right. destruct a; [done|]. cbn in Hg. by simplify_eq.
    + destruct a; [|done]. cbn in Hg. simplify_eq. by constructor.
  - destruct k as [|x k].
    + cbn [get_at_node] in Hg. rewrite at_end in Hg. destruct a; [|done]. cbn in Hg. simplify_eq. constructor.
    + rewrite get_branch in Hg by done. destruct (index cs x) as [[r|]|e| |] eqn:Hi; try (by destruct a).
      * cbn [obind] in Hg. apply (reads_child_intro _ _ _ _ _ r); [done|].
        destruct (resolve_node_ref d r) as [n|e| |] eqn:Hr; try (by destruct a).
        -- left. exists n. split; [done|]. change (x :: k) with ([x] ++ k) in Hp. rewrite app_assoc in Hp. by eapply IH.
        -- right. destruct a; [done|]. cbn in Hg. by simplify_eq.
      * destruct a; [|done]. cbn in Hg. simplify_eq. by apply reads_branch_none.
      * exfalso. unfold index in Hi. destruct (cs !! Z.to_nat x); [destruct (0 <=? x)|]; done.
Qed.

(** * Updates *)

(** Where the database holds a node under a hash the trie computes, it holds
    that node. *)
Definition honest d : Prop := forall n e, encode_raw n = Ok e -> 32 <= len e ->
  load_node d (keccak256 e) = Ok n \/ load_node d (keccak256 e) = Err KeyNotFound.

(** [n'] answers as [n] does, but [o] at the key [q]; it may have lost answers. *)
Definition updates d n (q : list Z) (o : option (list Z)) n' : Prop := forall k a,
  Forall Nibbles.nibble k -> reads d n k a ->
  exists a', reads d n' k a' /\ a' ⪯ (if decide (k = q) then Found o else a).

Lemma from_node_reads d n r k a : honest d -> from_node n = Ok r -> reads d n k a ->
  exists a', reads_ref d r k a' /\ a' ⪯ a.
Proof.
  intros Hh Hf Hn. unfold from_node in Hf. opened Hf. destruct (Z.ltb_spec (len r0) 32) as [Hs|Hs].
  - simplify_eq. exists a. split; [left; by exists n|done].
  - unfold hash in Hf. rewrite Hr in Hf. cbn [obind] in Hf.
    rewrite (proj2 (Z.ltb_ge _ _)) in Hf by done. cbn [obind] in Hf. simplify_eq.
    destruct (Hh n r0 Hr Hs) as [Hl|Hl].
    + exists a. split; [left; by exists n|done].
    + exists Missing. split; [by right|by right].
Qed.

(** An update below an extension, and below a child of a branch. *)
Lemma updates_ext d ek r n q o n' r' : honest d -> resolve_node_ref d r = Ok n ->
  from_node n' = Ok r' -> updates d n q o n' ->
  updates d (Extension ek r) (ek ++ q) o (Extension ek r').
Proof.
  intros Hh Hr Hf Hu k a Hk [[Hne ->]|(k' & -> & Hk')]%reads_ext_inv.
  - exists (Found None). rewrite decide_False by (intros ->; by apply (Hne q)). split; [by constructor|done].
  - destruct Hk' as [(n0 & Hn0 & Ha)|[? _]]; [|congruence]. assert (n0 = n) as -> by congruence.
    apply Forall_app in Hk as [_ Hk]. destruct (Hu _ _ Hk Ha) as (a1 & Ha1 & Hle1).
    destruct (from_node_reads _ _ _ _ _ Hh Hf Ha1) as (a2 & Ha2 & Hle2).
    exists a2. split; [by apply reads_ext_intro|]. etrans; [done|]. etrans; [done|].
    destruct (decide (k' = q)) as [->|Hne]; [by rewrite decide_True|].
    rewrite decide_False; [done|]. intros ?. by simplify_list_eq.
Qed.
(** What a slot holds of a node: nothing of the empty node. *)
Definition slot_of (n' : Node) (slot : option NodeRef) : Prop :=
  match slot with None => n' = Empty | Some r' => from_node n' = Ok r' end.
Lemma updates_child d cs cs' v x n q o n' slot' : honest d ->
  (exists slot, index (E := TrieError) cs x = Ok slot /\
    match slot with None => n = Empty | Some r => resolve_node_ref d r = Ok n end) ->
  slot_of n' slot' -> set_child cs x slot' = Ok cs' -> updates d n q o n' ->
  updates d (Branch cs v) (x :: q) o (Branch cs' v).
Proof.
  intros Hh (slot & Hi & Hslot) Hf Hs Hu k a Hk Ha. destruct k as [|y k].
  { apply reads_value_inv in Ha as ->. exists (Found v). split; [constructor|done]. }
  apply Forall_cons_iff in Hk as [Hy Hk].
  assert (Hidx : index (E := TrieError) cs' y = if y =? x then Ok slot' else index cs y).
  { apply (index_set cs x slot'); [done|]. unfold Nibbles.nibble in Hy. lia. }
  destruct (Z.eqb_spec y x) as [->|Hyx].
  - assert (Ha0 : reads d n k a).
    { apply reads_child_inv in Ha as [[Hn ->]|(r & Hn & Hr)]; rewrite Hi in Hn; simplify_eq; [constructor|].
      destruct Hr as [(n0 & ? & ?)|[? _]]; [|congruence]. by assert (n0 = n) as -> by congruence. }
    destruct (Hu _ _ Hk Ha0) as (a1 & Ha1 & Hle1).
    assert (exists a2, reads d (Branch cs' v) (x :: k) a2 /\ a2 ⪯ a1) as (a2 & Ha2 & Hle2).
    { destruct slot' as [r'|]; simpl in Hf.
      - destruct (from_node_reads _ _ _ _ _ Hh Hf Ha1) as (a2 & Ha2 & Hle2).
        exists a2. split; [by eapply reads_child_intro|done].
      - subst n'. inversion Ha1; subst. eexists. split; [by apply reads_branch_none|done]. }
    exists a2. split; [done|]. etrans; [done|]. etrans; [done|].
    destruct (decide (k = q)) as [->|]; [by rewrite decide_True|]. by rewrite decide_False by congruence.
  - exists a. rewrite decide_False by congruence. split; [|done].
    apply reads_child_inv in Ha as [[Hn ->]|(r & Hn & Hr)].
    + apply reads_branch_none. by rewrite Hidx.
    + eapply reads_child_intro; [by rewrite Hidx|done].
Qed.
Lemma updates_value d cs v o : updates d (Branch cs v) [] o (Branch cs o).
Proof.
  intros k a Hk Ha. destruct k as [|x k].
  - exists (Found o). split; [constructor|done].
  - exists a. split; [|done]. apply reads_child_inv in Ha as [[Hn ->]|(r & Hn & Hr)];
      [by apply reads_branch_none|by eapply reads_child_intro].
Qed.

(** ** New branches *)

Lemma updates_leaf d q v : updates d Empty q (Some v) (Leaf q v).
Proof.
  intros k a Hk Ha. inversion Ha; subst. eexists. split; [constructor|].
  destruct (decide (k = q)); case_bool_decide; done.
Qed.
Lemma index_empty {E} x : Nibbles.nibble x -> index (E := E) (replicate 16 (@None NodeRef)) x = Ok None.
Proof. unfold Nibbles.nibble. intros Hx. apply index_spec. split; [lia|]. apply lookup_replicate_2. lia. Qed.
Lemma reads_empty_branch d k : Forall Nibbles.nibble k ->
  reads d (Branch (replicate 16 None) None) k (Found None).
Proof.
  destruct k as [|x k]; [constructor|]. intros [Hx _]%Forall_cons_iff.
  by apply reads_branch_none, index_empty.
Qed.

(** [put_leaf] goes to the value of the branch or to one slot. *)
Lemma put_leaf_inv c q v b b' : len c < isize_max -> put_leaf (c ++ q) (len c) v b = Ok b' ->
  (q = [] /\ b' = (b.1, Some v)) \/
  exists x q1 r, q = x :: q1 /\ from_node (Leaf q1 v) = Ok r /\ set_child b.1 x (Some r) = Ok b'.1 /\ b'.2 = b.2.
Proof.
  intros Hl Hp. unfold put_leaf in Hp. destruct q as [|x q1].
  - rewrite app_nil_r, Z.ltb_irrefl in Hp. simplify_eq. by left.
  - right. rewrite (proj2 (Z.ltb_lt _ _)) in Hp
      by (rewrite len_app, len_cons; pose proof (len_nonneg q1); lia).
    rewrite get_app in Hp. cbn [unwrap obind] in Hp.
    change (x :: q1) with ([x] ++ q1) in *. rewrite app_assoc in *. change 1 with (len [x]) in Hp.
    unfold uadd in Hp. rewrite checked_arith_ok, <- len_app in Hp
      by (unfold uint, isize_max in *; pose proof (len_nonneg c); change (len [x]) with 1; lia).
    cbn [obind] in Hp. rewrite slice_from_app in Hp. cbn [obind] in Hp.
    opened Hp. opened Hp. simplify_eq. by exists x, q1, r.
Qed.
Lemma put_leaf_updates d c q v b b' : honest d -> len c < isize_max ->
  put_leaf (c ++ q) (len c) v b = Ok b' ->
  (forall x q1 slot, q = x :: q1 -> index (E := TrieError) b.1 x = Ok slot -> slot = None) ->
  updates d (Branch b.1 b.2) q (Some v) (Branch b'.1 b'.2).
Proof.
  intros Hh Hl Hp Hfree. apply put_leaf_inv in Hp as [[-> ->]|(x & q1 & r & -> & Hf & Hs & ->)]; [|..|done].
  - apply updates_value.
  - apply (updates_child d b.1 b'.1 b.2 x Empty q1 (Some v) (Leaf q1 v) (Some r)); [done| |done..|apply updates_leaf].
    apply set_child_ok in Hs as [Hx _].
    destruct (lookup_lt_is_Some_2 b.1 (Z.to_nat x)) as [slot Hslot]; [unfold len in Hx; lia|].
    assert (index (E := TrieError) b.1 x = Ok slot) as Hi by (by apply index_spec; split; [lia|]).
    assert (slot = None) as -> by (by eapply Hfree). by exists None.
Qed.
(** The slots a key does not start with are left alone. *)
Lemma put_leaf_slot c q v b b' y slot : len c < isize_max ->
  put_leaf (c ++ q) (len c) v b = Ok b' -> (forall q1, q <> y :: q1) ->
  index (E := TrieError) b'.1 y = Ok slot -> index (E := TrieError) b.1 y = Ok slot.
Proof.
  intros Hl Hp Hne Hi. apply put_leaf_inv in Hp as [[-> ->]|(x & q1 & r & -> & Hf & Hs & _)]; [done| |done].
  pose proof (proj1 (index_spec _ _ _) Hi) as [Hy _]. rewrite (index_set _ _ _ _ y Hs) in Hi by done.
  destruct (Z.eqb_spec y x) as [->|]; [by destruct (Hne q1)|done].
Qed.

Lemma under_prefix_reads d c b n' k a : honest d -> under_prefix (len c) c b = Ok n' ->
  (forall k', k = c ++ k' -> reads d (Branch b.1 b.2) k' a) ->
  ((forall k', k <> c ++ k') -> a = Found None) ->
  exists a', reads d n' k a' /\ a' ⪯ a.
Proof.
  intros Hh Hu Hin Hout. unfold under_prefix in Hu. destruct c as [|x c].
  - simpl in Hu. simplify_eq. exists a. split; [by apply Hin|done].
  - rewrite (proj2 (Z.ltb_lt _ _)) in Hu by (rewrite len_cons; pose proof (len_nonneg c); lia).
    opened Hu. simplify_eq. destruct (decide ((x :: c) `prefix_of` k)) as [[k' ->]|Hn].
    + destruct (from_node_reads _ _ _ _ _ Hh Hr (Hin k' eq_refl)) as (a' & Ha' & Hle).
      exists a'. split; [by apply reads_ext_intro|done].
    + assert (Hno : forall k', k <> (x :: c) ++ k') by (intros k' ->; apply Hn; by eexists).
      rewrite (Hout Hno). exists (Found None). split; [by constructor|done].
Qed.

(** ** Insertion *)

(** A branch over two keys that part at its nibble. *)
Lemma two_leaves_update d c lk lv q v b b' n' : honest d ->
  len c < isize_max ->
  (forall x y l1 q1, lk = x :: l1 -> q = y :: q1 -> x <> y) ->
  put_leaf (c ++ lk) (len c) lv (replicate 16 None, None) = Ok b ->
  put_leaf (c ++ q) (len c) v b = Ok b' -> under_prefix (len c) c b' = Ok n' ->
  updates d (Leaf (c ++ lk) lv) (c ++ q) (Some v) n'.
Proof.
  intros Hh Hl Hne Hp1 Hp2 Hu k a Hk Ha.
  assert (Hb : updates d (Branch (replicate 16 None) None) lk (Some lv) (Branch b.1 b.2)).
  { apply (put_leaf_updates d c lk lv _ _ Hh Hl Hp1). intros x q1 slot _. apply index_repeat. }
  assert (Hb' : updates d (Branch b.1 b.2) q (Some v) (Branch b'.1 b'.2)).
  { apply (put_leaf_updates d c q v _ _ Hh Hl Hp2). intros y q1 slot Hq Hi.
    apply (index_repeat (E := TrieError) None 16 y).
    apply (put_leaf_slot c lk lv _ _ y slot Hl Hp1); [|done]. intros l1 ->. by apply (Hne y y l1 q1). }
  inversion Ha as [|? ? ? Heq1 Heq2| | | | | | |]; subst.
  destruct (decide (c `prefix_of` k)) as [[k' ->]|Hn].
  - apply Forall_app in Hk as [_ Hk].
    destruct (Hb _ _ Hk (reads_empty_branch d k' Hk)) as (a1 & Ha1 & Hle1).
    destruct (Hb' _ _ Hk Ha1) as (a2 & Ha2 & Hle2).
    destruct (under_prefix_reads d c b' n' (c ++ k') a2 Hh Hu) as (a3 & Ha3 & Hle3).
    { intros k1 ?. by simplify_list_eq. }
    { intros Hno. by destruct (Hno k'). }
    exists a3. split; [done|]. etrans; [done|]. etrans; [done|].
    destruct (decide (k' = q)) as [->|Hkq]; [by rewrite decide_True|].
    rewrite decide_False by (intros ?; by simplify_list_eq). etrans; [done|].
    destruct (decide (k' = lk)) as [->|Hkl]; [by rewrite bool_decide_true|].
    rewrite bool_decide_false; [done|]. intros ?. by simplify_list_eq.
  - assert (Hno : forall k', k <> c ++ k') by (intros k' ->; apply Hn; by eexists).
    destruct (under_prefix_reads d c b' n' k (Found None) Hh Hu) as (a3 & Ha3 & Hle3).
    { intros k1 ->. by destruct (Hno k1). }
    { done. }
    exists a3. split; [done|]. etrans; [done|].
    rewrite decide_False, bool_decide_false by apply Hno. done.
Qed.

Lemma insert_at_leaf_updates d lk lv q v n' : honest d -> len q < isize_max ->
  insert_at_leaf lk lv q v = Ok n' -> updates d (Leaf lk lv) q (Some v) n'.
Proof.
  intros Hh Hl Hi. unfold insert_at_leaf in Hi.
  destruct (common_prefix_split lk q) as (c & lk' & q' & -> & -> & Hc & Hne). rewrite Hc in Hi.
  assert (Hlc : len c < isize_max) by (rewrite len_app in Hl; pose proof (len_nonneg q'); lia).
  destruct (Z.eqb_spec (len c) (len (c ++ lk'))) as [He1|He1]; [destruct (Z.eqb_spec (len c) (len (c ++ q'))) as [He2|He2]|].
  1: { rewrite len_app in He1, He2. simpl in Hi. destruct lk', q'; rewrite ?len_cons in *;
         try (match goal with H : len c = len c + (1 + len ?l) |- _ => pose proof (len_nonneg l) end; lia).
       simplify_eq. intros k a Hk Ha. inversion Ha; subst. eexists. split; [constructor|].
       case_bool_decide; [by rewrite decide_True|by rewrite decide_False]. }
  all: simpl in Hi; destruct (Z.eqb_spec (len c) 0) as [Hc0|Hc0].
  1, 3: destruct c as [|z c]; [|rewrite len_cons in Hc0; pose proof (len_nonneg c); lia].
  1-4: rewrite ?slice_prefix in Hi; cbn [obind] in Hi; opened Hi; opened Hi;
       by eapply two_leaves_update.
Qed.

(** What [split_extension] makes of the part of the extension behind the
    common prefix answers as the extension did. *)
Lemma rest_of_extension d x e1 r cs k a : honest d -> Forall Nibbles.nibble k ->
  (exists r', set_child (replicate 16 None) x (Some r') = Ok cs /\
    (if len (x :: e1) =? 1 then r' = r else from_node (Extension e1 r) = Ok r')) ->
  reads d (Extension (x :: e1) r) k a -> exists a', reads d (Branch cs None) k a' /\ a' ⪯ a.
Proof.
  intros Hh Hk (r' & Hs & Hr') Ha.
  assert (Hrest : forall k', k = x :: k' -> exists a', reads_ref d r' k' a' /\ a' ⪯ a).
  { intros k' ->. destruct (Z.eqb_spec (len (x :: e1)) 1) as [He|He].
    - assert (e1 = []) as -> by (destruct e1 as [|z e1]; [done|rewrite !len_cons in He; pose proof (len_nonneg e1); lia]).
      subst r'. apply reads_ext_inv in Ha as [[Hno _]|(k1 & ? & Hk1)]; [by destruct (Hno k')|].
      simplify_eq/=. by exists a.
    - eapply from_node_reads; [done..|]. apply reads_ext_inv in Ha as [[Hno ->]|(k1 & ? & Hk1)].
      + constructor. intros k1 ->. by apply (Hno k1).
      + simplify_eq/=. by apply reads_ext_intro. }
  destruct k as [|y k].
  { exists (Found None). split; [constructor|].
    apply reads_ext_inv in Ha as [[_ ->]|(k1 & ? & _)]; done. }
  apply Forall_cons_iff in Hk as [Hy Hk].
  assert (Hidx : index (E := TrieError) cs y = if y =? x then Ok (Some r') else index (replicate 16 None) y).
  { apply (index_set _ x (Some r')); [done|]. unfold Nibbles.nibble in Hy. lia. }
  destruct (Z.eqb_spec y x) as [->|Hyx].
  - destruct (Hrest k eq_refl) as (a' & Ha' & Hle). exists a'. split; [by eapply reads_child_intro|done].
  - exists (Found None). split.
    + apply reads_branch_none. rewrite Hidx. by apply index_empty.
    + apply reads_ext_inv in Ha as [[_ ->]|(k1 & ? & _)]; [done|by simplify_eq/=].
Qed.

Lemma split_extension_updates d ek r q v n' : honest d ->
  Nibbles.common_prefix_len ek q <> len ek ->
  split_extension ek r q v (Nibbles.common_prefix_len ek q) = Ok n' ->
  updates d (Extension ek r) q (Some v) n'.
Proof.
  intros Hh Hc Hs. unfold split_extension in Hs.
  destruct (common_prefix_split ek q) as (c & e' & q' & -> & -> & Hcl & Hne). rewrite Hcl in *.
  rewrite slice_prefix in Hs. cbn [obind] in Hs. rewrite !slice_from_app in Hs. cbn [obind] in Hs.
  destruct e' as [|x e1]; [by rewrite app_nil_r in Hc|].
  opened Hs. rename r0 into cs. opened Hs. rename r0 into b.
  assert (Hcs : exists r', set_child (replicate 16 None) x (Some r') = Ok cs /\
    (if len (x :: e1) =? 1 then r' = r else from_node (Extension e1 r) = Ok r')).
  { unfold put_extension, Nibbles.is_empty in Hr. rewrite len_cons in Hr.
    rewrite (proj2 (Z.eqb_neq _ 0)) in Hr by (pose proof (len_nonneg e1); lia). cbn [negb] in Hr.
    change (Nibbles.get (x :: e1) 0) with (Some x) in Hr. cbn [unwrap obind] in Hr.
    rewrite len_cons. destruct (1 + len e1 =? 1); [by exists r|].
    rewrite (slice_from_app [x] e1 : lift_ok (Nibbles.slice_from (x :: e1) 1) = Ok e1) in Hr.
    cbn [obind] in Hr. opened Hr. by exists r0. }
  assert (Hb : updates d (Branch cs None) q' (Some v) (Branch b.1 b.2)).
  { apply (put_leaf_updates d [] q' v (cs, None) b Hh eq_refl Hr0). intros y q1 slot -> Hi.
    destruct Hcs as (r' & Hset & _). pose proof (proj1 (index_spec _ _ _) Hi) as [Hy _]. simpl in Hi.
    rewrite (index_set _ _ _ _ y Hset) in Hi by done.
    destruct (Z.eqb_spec y x) as [->|_]; [by destruct (Hne x x e1 q1)|]. by apply index_repeat in Hi. }
  intros k a Hk Ha. destruct (decide (c `prefix_of` k)) as [[k' ->]|Hn].
  - apply Forall_app in Hk as [_ Hk].
    assert (Ha0 : reads d (Extension (x :: e1) r) k' a).
    { apply reads_ext_inv in Ha as [[Hno ->]|(k1 & Hk1 & ?)].
      - constructor. intros k1 ->. apply (Hno k1). by rewrite <- app_assoc.
      - rewrite <- app_assoc in Hk1. simplify_list_eq. by apply (reads_ext_intro d (x :: e1)). }
    destruct (rest_of_extension d x e1 r cs k' a Hh Hk Hcs Ha0) as (a1 & Ha1 & Hle1).
    destruct (Hb _ _ Hk Ha1) as (a2 & Ha2 & Hle2).
    destruct (under_prefix_reads d c b n' (c ++ k') a2 Hh Hs) as (a3 & Ha3 & Hle3).
    { intros k1 ?. by simplify_list_eq. }
    { intros Hno. by destruct (Hno k'). }
    exists a3. split; [done|]. etrans; [done|]. etrans; [done|].
    destruct (decide (k' = q')) as [->|Hkq]; [by rewrite decide_True|].
    by rewrite decide_False by (intros ?; by simplify_list_eq).
  - assert (Hno : forall k', k <> c ++ k') by (intros k' ->; apply Hn; by eexists).
    destruct (under_prefix_reads d c b n' k (Found None) Hh Hs) as (a3 & Ha3 & Hle3).
    { intros k1 ->. by destruct (Hno k1). }
    { done. }
    exists a3. split; [done|]. etrans; [done|]. rewrite decide_False by apply Hno.
    apply reads_ext_inv in Ha as [[_ ->]|(k1 & -> & _)]; [done|].
    destruct (Hno ((x :: e1) ++ k1)). by rewrite app_assoc.
Qed.

Lemma insert_updates d fuel n p q v n' : honest d -> len (p ++ q) < isize_max ->
  insert_at_node fuel d n (p ++ q) (len p) v = Ok n' -> updates d n q (Some v) n'.
Proof.
  intros Hh. revert n p q n'. induction fuel as [|fuel IH]; intros n p q n' Hl Hi; [done|].
  assert (Hq : len q < isize_max) by (rewrite len_app in Hl; pose proof (len_nonneg p); lia).
  destruct n as [|lk lv|ek r|cs bv]; cbn [insert_at_node] in Hi.
  1-3: rewrite slice_from_app in Hi; cbn [obind] in Hi.
  - simplify_eq. apply updates_leaf.
  - by apply insert_at_leaf_updates.
  - destruct (Z.eqb_spec (Nibbles.common_prefix_len ek q) (len ek)) as [Hc|Hc];
      [|by apply split_extension_updates].
    apply common_prefix_full in Hc as Hq'. destruct Hq' as [q' ->]. rewrite Hc in Hi.
    rewrite app_assoc in *. rewrite (next_index p q' ek) in Hi by (unfold isize_max in *; lia).
    opened Hi. cbn [obind] in Hi. opened Hi. opened Hi. simplify_eq.
    eapply updates_ext; [done..|]. by eapply IH.
  - destruct q as [|x q]; [rewrite at_end in Hi; simplify_eq; apply updates_value|].
    rewrite not_at_end, get_app in Hi. cbn [unwrap obind] in Hi.
    change (x :: q) with ([x] ++ q) in *. rewrite app_assoc in *. change 1 with (len [x]) in Hi.
    rewrite (next_index p q [x]) in Hi by (unfold isize_max in *; lia).
    opened Hi. opened Hi. cbn [obind] in Hi. opened Hi. opened Hi. opened Hi. simplify_eq.
    apply (updates_child d cs r3 bv x r0 q (Some v) r1 (Some r2)); [done| |done|done|by apply (IH _ (p ++ [x]) q)].
    exists r. split; [done|]. by destruct r; simplify_eq.
Qed.

(** * Well-formed nodes *)

Definition small n : Prop := exists e, encode_raw n = Ok e /\ len e < 32.
(** Keys are nibbles, a branch has sixteen children and the nodes kept inline
    are small, down to the references by hash. *)
Inductive wf_node : Node -> Prop :=
| wf_empty : wf_node Empty
| wf_leaf k v : Forall Nibbles.nibble k -> wf_node (Leaf k v)
| wf_extension k r : Forall Nibbles.nibble k -> (forall n, r = Inline n -> wf_node n /\ small n) -> wf_node (Extension k r)
| wf_branch cs v : length cs = 16%nat ->
    (forall i n, cs !! i = Some (Some (Inline n)) -> wf_node n /\ small n) -> wf_node (Branch cs v).
Definition wf_ref r : Prop := forall n, r = Inline n -> wf_node n /\ small n.

(** The database holds, under the hashes the trie computes, the nodes they are
    the hashes of, and only well-formed nodes. *)
Record db_sound d : Prop := {
  db_honest : honest d;
  db_wf h n : load_node d h = Ok n -> wf_node n;
}.

Lemma resolve_wf d r n : db_sound d -> wf_ref r -> resolve_node_ref d r = Ok n -> wf_node n.
Proof.
  intros Hd Hr Hres. destruct r as [h|m]; simpl in Hres; [by eapply db_wf|]. simplify_eq. by apply Hr.
Qed.
Lemma from_node_wf n r : wf_node n -> from_node n = Ok r -> wf_ref r.
Proof.
  intros Hn Hf. unfold from_node in Hf. opened Hf. destruct (Z.ltb_spec (len r0) 32).
  - simplify_eq. intros m [= <-]. split; [done|by exists r0].
  - opened Hf. by simplify_eq.
Qed.
Lemma set_child_wf cs x slot cs' v v' : wf_node (Branch cs v) -> set_child cs x slot = Ok cs' ->
  (forall r, slot = Some r -> wf_ref r) -> wf_node (Branch cs' v').
Proof.
  intros Hb [Hx ->]%set_child_ok Hslot. inversion Hb as [| | |? ? Hl Hc]; subst.
  constructor; [by rewrite length_insert|]. intros i n Hi.
  apply list_lookup_insert_Some in Hi as [(<- & Hn & _)|[_ Hi]]; [|by eapply Hc].
  by apply (Hslot (Inline n)).
Qed.
Lemma child_wf cs v x r : wf_node (Branch cs v) -> index (E := TrieError) cs x = Ok (Some r) -> wf_ref r.
Proof. intros Hb Hx. apply index_spec in Hx as [_ Hx]. intros n ->. inversion Hb; subst. eauto. Qed.
Lemma wf_branch_value cs v v' : wf_node (Branch cs v) -> wf_node (Branch cs v').
Proof. inversion 1; subst. by constructor. Qed.
Lemma empty_branch_wf : wf_node (Branch (replicate 16 None) None).
Proof. constructor; [done|]. intros i n Hi. by apply lookup_replicate in Hi as [? _]. Qed.

Lemma put_leaf_wf c q v b b' : len c < isize_max -> Forall Nibbles.nibble q ->
  put_leaf (c ++ q) (len c) v b = Ok b' -> wf_node (Branch b.1 b.2) -> wf_node (Branch b'.1 b'.2).
Proof.
  intros Hl Hq Hp Hb. apply put_leaf_inv in Hp as [[-> ->]|(x & q1 & r & -> & Hf & Hs & ->)]; [| |done].
  - by eapply wf_branch_value.
  - eapply set_child_wf; [done..|]. intros r' [= <-]. eapply from_node_wf; [|done].
    constructor. by apply Forall_cons_iff in Hq as [_ ?].
Qed.
Lemma under_prefix_wf c b n' : Forall Nibbles.nibble c -> under_prefix (len c) c b = Ok n' ->
  wf_node (Branch b.1 b.2) -> wf_node n'.
Proof.
  intros Hc Hu Hb. unfold under_prefix in Hu. destruct (0 <? len c); [opened Hu|]; simplify_eq; [|done].
  constructor; [done|]. by eapply from_node_wf.
Qed.
Lemma insert_at_leaf_wf lk lv q v n' : len q < isize_max -> Forall Nibbles.nibble lk -> Forall Nibbles.nibble q ->
  insert_at_leaf lk lv q v = Ok n' -> wf_node n'.
Proof.
  intros Hl Hlk Hq Hi. unfold insert_at_leaf in Hi.
  destruct (common_prefix_split lk q) as (c & lk' & q' & -> & -> & Hc & _). rewrite Hc in Hi.
  assert (Hlc : len c < isize_max) by (rewrite len_app in Hl; pose proof (len_nonneg q'); lia).
  pose proof Hlk as Hlk0. apply Forall_app in Hlk as [Hcn Hlk']. apply Forall_app in Hq as [_ Hq'].
  destruct (_ && _); [simplify_eq; by constructor|]. destruct (Z.eqb_spec (len c) 0) as [Hc0|Hc0].
  1: destruct c as [|z c]; [|rewrite len_cons in Hc0; pose proof (len_nonneg c); lia].
  all: rewrite ?slice_prefix in Hi; cbn [obind] in Hi; opened Hi; opened Hi.
  all: assert (wf_node (Branch r0.1 r0.2))
    by (eapply (put_leaf_wf _ q' v r r0); [exact Hlc|done|exact Hr0|];
        eapply (put_leaf_wf _ lk' lv _ r); [exact Hlc|done|exact Hr|apply empty_branch_wf]).
  - by simplify_eq.
  - by apply (under_prefix_wf c r0).
Qed.
Lemma split_extension_wf ek r q v n' : Forall Nibbles.nibble ek -> wf_ref r -> Forall Nibbles.nibble q ->
  split_extension ek r q v (Nibbles.common_prefix_len ek q) = Ok n' -> wf_node n'.
Proof.
  intros Hek Hr Hq Hs. unfold split_extension in Hs.
  destruct (common_prefix_split ek q) as (c & e' & q' & -> & -> & Hcl & Hne). rewrite Hcl in *.
  apply Forall_app in Hek as [Hc He']. apply Forall_app in Hq as [_ Hq'].
  rewrite slice_prefix in Hs. cbn [obind] in Hs. rewrite !slice_from_app in Hs. cbn [obind] in Hs.
  opened Hs. rename r0 into cs. opened Hs. rename r0 into b.
  assert (Hcs : wf_node (Branch cs None)).
  { unfold put_extension in Hr0. destruct (Nibbles.is_empty e') eqn:Hem; cbn [negb] in Hr0; [simplify_eq; apply empty_branch_wf|].
    destruct e' as [|x e1]; [done|]. change (Nibbles.get (x :: e1) 0) with (Some x) in Hr0. cbn [unwrap obind] in Hr0.
    destruct (len (x :: e1) =? 1); [eapply set_child_wf; [apply empty_branch_wf|done|by intros ? [= <-]]|].
    rewrite (slice_from_app [x] e1 : lift_ok (Nibbles.slice_from (x :: e1) 1) = Ok e1) in Hr0.
    cbn [obind] in Hr0. opened Hr0. eapply set_child_wf; [apply empty_branch_wf|done|].
    intros r' [= <-]. eapply from_node_wf; [|done]. constructor; [|done]. by apply Forall_cons_iff in He' as [_ ?]. }
  apply (under_prefix_wf c b n'); [done..|]. by apply (put_leaf_wf [] q' v (cs, None) b).
Qed.

Lemma insert_wf d fuel n p q v n' : db_sound d -> len (p ++ q) < isize_max -> Forall Nibbles.nibble q ->
  wf_node n -> insert_at_node fuel d n (p ++ q) (len p) v = Ok n' -> wf_node n'.
Proof.
  intros Hd. revert n p q n'. induction fuel as [|fuel IH]; intros n p q n' Hl Hq Hn Hi; [done|].
  assert (Hql : len q < isize_max) by (rewrite len_app in Hl; pose proof (len_nonneg p); lia).
  destruct n as [|lk lv|ek r|cs bv]; cbn [insert_at_node] in Hi.
  1-3: rewrite slice_from_app in Hi; cbn [obind] in Hi.
  - simplify_eq. by constructor.
  - inversion Hn; subst. by eapply insert_at_leaf_wf.
  - inversion Hn as [| |? ? Hek Hr|]; subst.
    destruct (Z.eqb_spec (Nibbles.common_prefix_len ek q) (len ek)) as [Hc|Hc]; [|by apply (split_extension_wf ek r q v)].
    apply common_prefix_full in Hc as Hq'. destruct Hq' as [q' ->]. rewrite Hc in Hi.
    rewrite app_assoc in *. rewrite (next_index p q' ek) in Hi by (unfold isize_max in *; lia).
    opened Hi. cbn [obind] in Hi. opened Hi. opened Hi. simplify_eq. apply Forall_app in Hq as [_ Hq].
    constructor; [done|]. apply (from_node_wf r1); [|done].
    apply (IH r0 (p ++ ek) q'); [done..| |done]. by apply (resolve_wf d r).
  - destruct q as [|x q]; [rewrite at_end in Hi; simplify_eq; by eapply wf_branch_value|].
    rewrite not_at_end, get_app in Hi. cbn [unwrap obind] in Hi. apply Forall_cons_iff in Hq as [_ Hq].
    change (x :: q) with ([x] ++ q) in *. rewrite app_assoc in *. change 1 with (len [x]) in Hi.
    rewrite (next_index p q [x]) in Hi by (unfold isize_max in *; lia).
    opened Hi. opened Hi. cbn [obind] in Hi. opened Hi. opened Hi. opened Hi. simplify_eq.
    apply (set_child_wf cs x (Some r2) r3 bv); [done..|]. intros r' [= <-]. apply (from_node_wf r1); [|done].
    apply (IH r0 (p ++ [x]) q); [done..| |done]. destruct r; [|simplify_eq; constructor].
    eapply resolve_wf; [done| |done]. by eapply child_wf.
Qed.

(** * Deletion *)

Lemma non_empty_children_spec i cs x r : 0 <= i ->
  (x, r) ∈ non_empty_children i cs <-> i <= x /\ cs !! Z.to_nat (x - i) = Some (Some r).
Proof.
  revert i. induction cs as [|c cs IH]; intros i Hi; simpl.
  - rewrite lookup_nil. split; [by intros ?%elem_of_nil|by intros [_ ?]].
  - assert (Hstep : (x, r) ∈ non_empty_children (i + 1) cs <->
      i < x /\ (c :: cs) !! Z.to_nat (x - i) = Some (Some r)).
    { rewrite IH by lia. split; intros [Hx Hl]; (split; [lia|]).
      - replace (Z.to_nat (x - i)) with (S (Z.to_nat (x - (i + 1)))) by lia. done.
      - replace (Z.to_nat (x - i)) with (S (Z.to_nat (x - (i + 1)))) in Hl by lia. done. }
    destruct (decide (x = i)) as [->|Hne].
    + rewrite Z.sub_diag. simpl. destruct c as [r0|].
      * rewrite elem_of_cons, Hstep. naive_solver lia.
      * rewrite Hstep. naive_solver lia.
    + destruct c as [r0|]; rewrite ?elem_of_cons, Hstep; naive_solver lia.
Qed.
Lemma occupied cs x r : index (E := TrieError) cs x = Ok (Some r) <-> (x, r) ∈ non_empty_children 0 cs.
Proof. rewrite non_empty_children_spec, index_spec, Z.sub_0_r by lia. done. Qed.
Lemma slot_free cs x : 0 <= x < len cs -> (forall r, (x, r) ∉ non_empty_children 0 cs) ->
  index (E := TrieError) cs x = Ok None.
Proof.
  intros Hx Hno. destruct (lookup_lt_is_Some_2 cs (Z.to_nat x)) as [[r|] Hl]; [unfold len in Hx; lia| |].
  - destruct (Hno r). apply occupied, index_spec. split; [lia|done].
  - apply index_spec. split; [lia|done].
Qed.

(** A longer prefix of an extension. *)
Lemma reads_ext_app d ek ck r k a : reads d (Extension ck r) k a -> reads d (Extension (ek ++ ck) r) (ek ++ k) a.
Proof.
  intros [[Hno ->]|(k' & -> & Hk)]%reads_ext_inv.
  - constructor. intros k' Hk. apply (Hno k'). rewrite <- app_assoc in Hk. by simplify_list_eq.
  - rewrite app_assoc. by apply reads_ext_intro.
Qed.
Lemma reads_ext_apart d ek ck r k : (forall k', k <> ek ++ k') -> reads d (Extension (ek ++ ck) r) k (Found None).
Proof. intros Hno. constructor. intros k' ->. apply (Hno (ck ++ k')). by rewrite app_assoc. Qed.

(** What is put in the place of [ek] over [n1]: its answers are those of [n1],
    behind [ek]. *)
Definition stands_for d (ek : list Z) n1 n' : Prop :=
  (forall k a, reads d n1 k a -> exists a', reads d n' (ek ++ k) a' /\ a' ⪯ a) /\
  (forall k, (forall k', k <> ek ++ k') -> reads d n' k (Found None)).

Lemma stands_leaf d ek ck v : stands_for d ek (Leaf ck v) (Leaf (ek ++ ck) v).
Proof.
  split.
  - intros k a Ha. inversion Ha; subst. eexists. split; [constructor|].
    repeat case_bool_decide; simplify_list_eq; done.
  - intros k Hno. replace (@None (list Z)) with (if bool_decide (k = ek ++ ck) then Some v else None)
      by (by rewrite bool_decide_false). constructor.
Qed.
Lemma stands_ext d ek ck r : stands_for d ek (Extension ck r) (Extension (ek ++ ck) r).
Proof.
  split; [|apply reads_ext_apart]. intros k a Ha. exists a. split; [by apply reads_ext_app|done].
Qed.
Lemma stands_ref d ek r n1 : (forall k a, reads d n1 k a -> exists a', reads_ref d r k a' /\ a' ⪯ a) ->
  stands_for d ek n1 (Extension ek r).
Proof.
  intros Hr. split; [|intros k Hno; by constructor]. intros k a Ha.
  destruct (Hr k a Ha) as (a' & Ha' & Hle). exists a'. split; [by apply reads_ext_intro|done].
Qed.
Lemma collapse_stands d ek n1 n' b : honest d -> collapse_extension ek n1 = Ok (n', b) -> stands_for d ek n1 n'.
Proof.
  intros Hh Hc. unfold collapse_extension in Hc. destruct n1 as [|ck v|ck r|cs v].
  - simplify_eq. split; [|constructor]. intros k a Ha. inversion Ha; subst. by eexists; split; [constructor|].
  - simplify_eq. apply stands_leaf.
  - simplify_eq. apply stands_ext.
  - opened Hc. simplify_eq. apply stands_ref. intros k a. by apply from_node_reads.
Qed.
Lemma collapse_updates d ek r n q n1 n' b : honest d -> resolve_node_ref d r = Ok n ->
  updates d n q None n1 -> collapse_extension ek n1 = Ok (n', b) ->
  updates d (Extension ek r) (ek ++ q) None n'.
Proof.
  intros Hh Hr Hu Hc k a Hk Ha. destruct (collapse_stands d ek n1 n' b Hh Hc) as [Hin Hout].
  apply reads_ext_inv in Ha as [[Hno ->]|(k' & -> & Hk')].
  - exists (Found None). rewrite decide_False by (intros ->; by apply (Hno q)). split; [by apply Hout|done].
  - destruct Hk' as [(n0 & Hn0 & Ha)|[? _]]; [|congruence]. assert (n0 = n) as -> by congruence.
    apply Forall_app in Hk as [_ Hk]. destruct (Hu _ _ Hk Ha) as (a1 & Ha1 & Hle1).
    destruct (Hin _ _ Ha1) as (a2 & Ha2 & Hle2). exists a2. split; [done|]. etrans; [done|]. etrans; [done|].
    destruct (decide (k' = q)) as [->|Hne]; [by rewrite decide_True|].
    rewrite decide_False; [done|]. intros ?. by simplify_list_eq.
Qed.

(** [try_compact_branch] answers as the branch. *)
Lemma compact_reads d cs v n' k a : length cs = 16%nat -> Forall Nibbles.nibble k ->
  try_compact_branch d cs v = Ok n' -> reads d (Branch cs v) k a -> exists a', reads d n' k a' /\ a' ⪯ a.
Proof.
  intros Hlen Hk Hc Ha. unfold try_compact_branch in Hc.
  assert (Hfree : forall x k', k = x :: k' -> (forall r, (x, r) ∉ non_empty_children 0 cs) -> a = Found None).
  { intros x k' -> Hno. apply reads_child_inv in Ha as [[_ ->]|(r & Hi & _)]; [done|].
    by apply occupied, Hno in Hi. }
  destruct (non_empty_children 0 cs) as [|[x r] [|y l]] eqn:Hne.
  - destruct v as [v|]; simplify_eq.
    + destruct k as [|y k].
      * apply reads_value_inv in Ha as ->. eexists. split; [constructor|]. by rewrite bool_decide_true.
      * rewrite (Hfree y k); [|done|by intros r ?%elem_of_nil]. eexists. split; [constructor|]. by rewrite bool_decide_false.
    + exists a. split; [|done]. destruct k as [|y k].
      * apply reads_value_inv in Ha as ->. constructor.
      * rewrite (Hfree y k); [constructor|done|by intros r ?%elem_of_nil].
  - destruct v as [v|]; [simplify_eq; by exists a|]. opened Hc. rename r0 into n.
    assert (Hx : index (E := TrieError) cs x = Ok (Some r)) by (apply occupied; rewrite Hne; by left).
    assert (Hw : wrap 8 x = x).
    { apply index_spec in Hx as [H0x Hx]. apply lookup_lt_Some in Hx. apply wrap_small. lia. }
    rewrite Hw in Hc.
    assert (Hst : stands_for d [x] n n').
    { destruct n; simplify_eq; [|apply (stands_leaf d [x])|apply (stands_ext d [x])|];
        apply stands_ref; intros k1 a1 Ha1; (exists a1; split; [left; by eexists|done]). }
    destruct Hst as [Hin Hout]. destruct (decide ([x] `prefix_of` k)) as [[k' ->]|Hno].
    + apply reads_child_inv in Ha as [[Hi _]|(r' & Hi & Hr')]; [congruence|].
      assert (r' = r) as -> by congruence. destruct Hr' as [(n0 & ? & Hn0)|[? _]]; [|congruence].
      assert (n0 = n) as -> by congruence. by apply Hin.
    + exists (Found None). split; [apply Hout; intros k' ->; by apply Hno; exists k'|].
      destruct k as [|y k]; [apply reads_value_inv in Ha as ->; done|].
      rewrite (Hfree y k); [done|done|]. intros r' [=]%list_elem_of_singleton. subst. apply Hno. by exists k.
  - destruct v; simplify_eq; by exists a.
Qed.
Lemma compact_updates d n q o cs v n' : length cs = 16%nat ->
  updates d n q o (Branch cs v) -> try_compact_branch d cs v = Ok n' -> updates d n q o n'.
Proof.
  intros Hlen Hu Hc k a Hk Ha. destruct (Hu k a Hk Ha) as (a1 & Ha1 & Hle1).
  destruct (compact_reads d cs v n' k a1 Hlen Hk Hc Ha1) as (a2 & Ha2 & Hle2).
  exists a2. split; [done|]. by etrans.
Qed.

Lemma compact_wf d cs v n' : db_sound d -> wf_node (Branch cs v) -> try_compact_branch d cs v = Ok n' -> wf_node n'.
Proof.
  intros Hd Hb Hc. unfold try_compact_branch in Hc.
  destruct (non_empty_children 0 cs) as [|[x r] [|y l]] eqn:Hne.
  - destruct v; simplify_eq; by constructor.
  - destruct v as [v|]; [by simplify_eq|]. opened Hc.
    assert (Hx : index (E := TrieError) cs x = Ok (Some r)) by (apply occupied; rewrite Hne; by left).
    pose proof (child_wf _ _ _ _ Hb Hx) as Hr'. pose proof (resolve_wf _ _ _ Hd Hr' Hr) as Hn.
    assert (Hnib : Nibbles.nibble (wrap 8 x)).
    { apply index_spec in Hx as [H0x Hx]. apply lookup_lt_Some in Hx. inversion Hb; subst.
      unfold Nibbles.nibble. rewrite wrap_small; lia. }
    destruct r0 as [|ck w|ck r1|]; simplify_eq; inversion Hn; subst; constructor;
      repeat (apply Forall_cons; split); auto.
  - destruct v; by simplify_eq.
Qed.
Lemma collapse_wf ek n1 n' b : Forall Nibbles.nibble ek -> wf_node n1 -> collapse_extension ek n1 = Ok (n', b) -> wf_node n'.
Proof.
  intros Hek Hn Hc. unfold collapse_extension in Hc. destruct n1; [..|opened Hc]; simplify_eq; [constructor|..].
  - inversion Hn; subst. constructor. by apply Forall_app.
  - inversion Hn; subst. constructor; [by apply Forall_app|done].
  - constructor; [done|]. by eapply from_node_wf.
Qed.

(** What a deletion returns: the updated node, and whether the key had a
    value. *)
Record deletes d n q n' (b : bool) : Prop := {
  del_wf : wf_node n';
  del_same : b = false -> n' = n;
  del_updates : updates d n q None n';
  del_found a : reads d n q a -> exists o, a = Found o /\ b = bool_decide (is_Some o);
}.
Lemma deletes_nothing d n q : wf_node n -> (forall a, reads d n q a -> a = Found None) -> deletes d n q n false.
Proof.
  intros Hn Hq. split; [done..| |].
  - intros k a Hk Ha. exists a. split; [done|]. destruct (decide (k = q)) as [->|]; [|done]. by rewrite (Hq a Ha).
  - intros a Ha. exists None. by rewrite (Hq a Ha).
Qed.

Lemma deletes_ext d ek r n q n1 b1 n' b : honest d -> wf_node (Extension ek r) ->
  resolve_node_ref d r = Ok n -> deletes d n q n1 b1 ->
  (if b1 then collapse_extension ek n1 else Ok (Extension ek r, false)) = Ok (n', b) ->
  deletes d (Extension ek r) (ek ++ q) n' b.
Proof.
  intros Hh Hn Hr [Hw Hs Hu Hf] Hi. inversion Hn as [| |? ? Hek _|]; subst.
  assert (Hf' : forall a, reads d (Extension ek r) (ek ++ q) a -> exists o, a = Found o /\ b1 = bool_decide (is_Some o)).
  { intros a [[Hno _]|(k' & Hk & Hrr)]%reads_ext_inv; [by destruct (Hno q)|]. simplify_list_eq.
    destruct Hrr as [(n0 & ? & ?)|[? _]]; [|congruence]. assert (n0 = n) as -> by congruence. by apply Hf. }
  destruct b1.
  - assert (b = true) as ->.
    { unfold collapse_extension in Hi. destruct n1; [..|opened Hi]; by simplify_eq. }
    split; [by eapply collapse_wf|done|by eapply collapse_updates|done].
  - simplify_eq. apply deletes_nothing; [done|]. intros a Ha.
    destruct (Hf' a Ha) as ([v|] & -> & Hb); [|done]. by rewrite bool_decide_true in Hb.
Qed.
(** What the arm of a branch does with the result of the child. *)
Definition replace_child d cs v x n1 : outcome TrieError (Node * bool) :=
  let? slot :=
    if is_empty n1 then Ok None
    else let? r := lift_ok (from_node n1) in Ok (Some r) in
  let? cs := set_child cs x slot in
  let? compacted := try_compact_branch d cs v in
  Ok (compacted, true).
Lemma deletes_child d cs v x r n q n1 b1 n' b : db_sound d -> wf_node (Branch cs v) ->
  index (E := TrieError) cs x = Ok (Some r) -> resolve_node_ref d r = Ok n -> deletes d n q n1 b1 ->
  (if b1 then replace_child d cs v x n1 else Ok (Branch cs v, false)) = Ok (n', b) ->
  deletes d (Branch cs v) (x :: q) n' b.
Proof.
  intros Hd Hn Hx Hr [Hw Hs Hu Hf] Hi. pose proof (db_honest d Hd) as Hh.
  assert (Hf' : forall a, reads d (Branch cs v) (x :: q) a -> exists o, a = Found o /\ b1 = bool_decide (is_Some o)).
  { intros a [[Hno _]|(r' & Hr' & Hrr)]%reads_child_inv; [congruence|]. assert (r' = r) as -> by congruence.
    destruct Hrr as [(n0 & ? & ?)|[? _]]; [|congruence]. assert (n0 = n) as -> by congruence. by apply Hf. }
  destruct b1.
  - unfold replace_child in Hi. opened Hi. rename r0 into slot. opened Hi. rename r0 into cs'. opened Hi. simplify_eq.
    assert (Hslot : slot_of n1 slot).
    { destruct n1; cbn [is_empty] in Hr0; [by simplify_eq|..]; opened Hr0; by simplify_eq. }
    assert (Hb' : wf_node (Branch cs' v)).
    { eapply set_child_wf; [done..|]. intros r' ->. by eapply from_node_wf. }
    split; [by eapply compact_wf|done| |done].
    apply (compact_updates d _ _ _ cs' v); [by inversion Hb'| |done].
    apply (updates_child d cs cs' v x n q None n1 slot); [done|by exists (Some r)|done..].
  - simplify_eq. apply deletes_nothing; [done|]. intros a Ha.
    destruct (Hf' a Ha) as ([w|] & -> & Hb); [|done]. by rewrite bool_decide_true in Hb.
Qed.
Lemma deletes_value d cs v n' b : db_sound d -> wf_node (Branch cs v) ->
  match v with
  | Some _ => let? compacted := try_compact_branch d cs None in Ok (compacted, true)
  | None => Ok (Branch cs v, false)
  end = Ok (n', b) -> deletes d (Branch cs v) [] n' b.
Proof.
  intros Hd Hn Hi. destruct v as [v|].
  - opened Hi. simplify_eq. split; [|done| |].
    + apply (compact_wf d cs None); [done|by eapply wf_branch_value|done].
    + eapply compact_updates; [by inversion Hn|apply updates_value|done].
    + intros a ->%reads_value_inv. by eexists.
  - simplify_eq. apply deletes_nothing; [done|]. by intros a ->%reads_value_inv.
Qed.
Lemma deletes_leaf d lk lv q n' b : wf_node (Leaf lk lv) ->
  (if bool_decide (q = lk) then Ok (Empty, true) else Ok (Leaf lk lv, false)) = Ok (E := TrieError) (n', b) ->
  deletes d (Leaf lk lv) q n' b.
Proof.
  intros Hn Hi. case_bool_decide as Hk; simplify_eq.
  - split; [constructor|done| |].
    + intros k a Hk Ha. inversion Ha; subst. eexists. split; [constructor|].
      destruct (decide (k = lk)); [done|]. by rewrite bool_decide_false.
    + intros a Ha. inversion Ha; subst. rewrite bool_decide_true by done. by eexists.
  - apply deletes_nothing; [done|]. intros a Ha. inversion Ha; subst. by rewrite bool_decide_false.
Qed.

Lemma delete_spec d fuel n p q n' b : db_sound d -> len (p ++ q) < isize_max -> wf_node n ->
  delete_at_node fuel d n (p ++ q) (len p) = Ok (n', b) -> deletes d n q n' b.
Proof.
  intros Hd. pose proof (db_honest d Hd) as Hh. revert n p q n' b.
  induction fuel as [|fuel IH]; intros n p q n' b Hl Hn Hi; [done|].
  destruct n as [|lk lv|ek r|cs bv]; cbn [delete_at_node] in Hi.
  - simplify_eq. apply deletes_nothing; [done|]. by inversion 1.
  - rewrite slice_from_app in Hi. cbn [obind] in Hi. by apply deletes_leaf.
  - rewrite slice_from_app in Hi. cbn [obind] in Hi. inversion Hn as [| |? ? Hek Hr|]; subst.
    destruct (Z.eqb_spec (Nibbles.common_prefix_len ek q) (len ek)) as [Hc|Hc].
    2: { simplify_eq. apply deletes_nothing; [done|].
         intros a [[_ ->]|(k' & -> & _)]%reads_ext_inv; [done|]. destruct Hc. apply common_prefix_full. by eexists. }
    apply common_prefix_full in Hc as Hq'. destruct Hq' as [q' ->]. rewrite Hc in Hi.
    rewrite app_assoc in *. rewrite (next_index p q' ek) in Hi by (unfold isize_max in *; lia).
    opened Hi. cbn [obind] in Hi. opened Hi. destruct r1 as [n1 b1].
    apply (deletes_ext d ek r r0 q' n1 b1 n' b Hh Hn Hr0); [|done].
    apply (IH r0 (p ++ ek)); [done|by eapply resolve_wf|done].
  - destruct q as [|x q]; [rewrite at_end in Hi; by apply deletes_value|].
    rewrite not_at_end, get_app in Hi. cbn [unwrap obind] in Hi.
    change (x :: q) with ([x] ++ q) in *. rewrite app_assoc in *. change 1 with (len [x]) in Hi.
    rewrite (next_index p q [x]) in Hi by (unfold isize_max in *; lia).
    opened Hi. destruct r as [r|].
    2: { simplify_eq. apply deletes_nothing; [done|].
         intros a [[_ ->]|(r & Hr' & _)]%reads_child_inv; [done|congruence]. }
    opened Hi. cbn [obind] in Hi. opened Hi. destruct r1 as [n1 b1].
    apply (deletes_child d cs bv x r r0 q n1 b1 n' b Hd Hn Hr Hr0); [|done].
    apply (IH r0 (p ++ [x])); [done| |done]. eapply resolve_wf; [done| |done]. by eapply child_wf.
Qed.
End answers.
End TrieProofs.
