(* ===== verification/TrieProps.v ===== *)
(** The trie in memory: encodings of nodes, and the map an in-memory trie
    implements.  [RlpListLaws] says what the list methods of the encoder and the
    decoder do; [list_methods] are such methods, built from the codec of
    crates/rlp. *)
From stdpp Require Import base list numbers option gmap.
From Stdlib Require Import ZArith Lia.
From S2P Require Import Prelude U256 Rlp RlpProofs Storage Nibbles Trie TrieProofs.

Module TrieProps.
Import Trie TrieProofs.

(** * The list methods *)

Definition string_bytes (b : list Z) : list Z := string_header b ++ b.
Definition payload_of (items : list (list Z)) : list Z := concat (map string_bytes items).
Definition list_bytes (items : list (list Z)) : list Z :=
  list_header (len (payload_of items)) ++ payload_of items.

(** A closure that appends some bytes gives a list with these bytes; the header
    of a list of strings is read as the number of strings, and leaves the
    decoder in front of the first one; a string, such as the empty one, has no
    list header. *)
Class RlpListLaws `{RlpLists} : Prop := {
  list_writes n f payload e : (forall e, f e = Ok (extend_from_slice e payload)) ->
    encode_list_of n f e = Ok (extend_from_slice e (list_header (len payload) ++ payload));
  list_reads items : Forall bytes items -> len (list_bytes items) < 2 ^ 32 ->
    decode_list_header (decoder_new (list_bytes items)) =
    (Ok (len items), mkDecoder (list_bytes items) (len (list_header (len (payload_of items)))));
  string_is_no_list : exists e, (decode_list_header (decoder_new [0x80])).1 = Err e;
}.

(** The count of the strings, by reading them ahead. *)
Definition count_strings : DM Z := fun d =>
  match (decode_header (H := dev_profile) d).1, (decode_list_by (H := dev_profile) (decode_bytes (H := dev_profile)) d).1 with
  | Ok (offset, _, _), Ok items => (Ok (len items), mkDecoder (data d) (pos d + offset))
  | Err e, _ | _, Err e => (Err e, d)
  | Panic, _ | _, Panic => (Panic, d)
  | _, _ => (Diverge, d)
  end.
Definition list_methods : RlpLists := {|
  encode_list_of := fun _ f e => let? inner := f encoder_new in Ok (encode_list_payload e (finish inner));
  decode_list_header := count_strings;
|}.

Lemma strings_parse `{Profile} items : Forall bytes items -> len (payload_of items) < 2 ^ 32 ->
  Forall2 (good decode_bytes) items (map string_bytes items).
Proof.
  induction 1 as [|b items Hb _ IH]; intros Hl; [constructor|].
  unfold payload_of in *. simpl in *. rewrite len_app in Hl. unfold string_bytes in Hl at 1. rewrite len_app in Hl.
  pose proof (len_nonneg (string_header b)). pose proof (len_nonneg b). pose proof (len_nonneg (concat (map string_bytes items))).
  constructor; [|apply IH; lia]. split; [apply string_not_nil|]. apply decode_bytes_parses; [done|lia].
Qed.
Lemma list_methods_laws : @RlpListLaws list_methods.
Proof.
  split.
  - intros n f payload e Hf. simpl. rewrite Hf. simpl. rewrite encode_list_payload_eq. done.
  - intros items Hi Hl. simpl. unfold count_strings, list_bytes in *.
    set (p := payload_of items) in *. rewrite len_app in Hl. pose proof (len_nonneg p).
    pose proof (len_nonneg (list_header (len p))).
    assert (Hh : decode_header (H := dev_profile) (decoder_new (list_header (len p) ++ p)) =
                 (Ok (len (list_header (len p)), len p, false), decoder_new (list_header (len p) ++ p))).
    { apply (decode_header_list (H := dev_profile) (len p) [] p); [lia|].
      simpl. rewrite len_app. unfold isize_max. lia. }
    assert (Hs : decode_list_by (H := dev_profile) (decode_bytes (H := dev_profile))
                   (before [] (list_header (len p) ++ p) []) = (Ok items, after [] (list_header (len p) ++ p) [])).
    { apply (decode_list_by_parses (H := dev_profile) _ items (map string_bytes items)).
      - by apply (strings_parse (H := dev_profile)); [|fold p; lia].
      - change (len p < 2 ^ 32). lia.
      - rewrite app_nil_l, app_nil_r, len_app. unfold isize_max. change (concat (map string_bytes items)) with p. lia. }
    unfold before in Hs. simpl in Hs. rewrite app_nil_r in Hs. unfold decoder_new in *. change (len []) with 0 in Hs.
    rewrite Hh, Hs. done.
  - eexists. by vm_compute.
Qed.

(** * Encodings *)

(** Induction over a node and the nodes inside it. *)
Lemma node_ind' (P : Node -> Prop) :
  P Empty -> (forall k v, P (Leaf k v)) -> (forall k h, P (Extension k (Hash h))) ->
  (forall k n, P n -> P (Extension k (Inline n))) ->
  (forall cs v, (forall i n, cs !! i = Some (Some (Inline n)) -> P n) -> P (Branch cs v)) ->
  forall n, P n.
Proof.
  intros He Hl Hh Hx Hb. fix IH 1. intros [|k v|k [h|m]|cs v]; [exact He|apply Hl|apply Hh|apply Hx, IH|].
  apply Hb. induction cs as [|c cs IHcs]; intros i n Hi; [discriminate|].
  destruct i as [|i]; [|exact (IHcs i n Hi)]. simpl in Hi. destruct c as [[h|m]|]; [discriminate| |discriminate].
  injection Hi as <-. apply IH.
Qed.

Lemma encode_compact_ok n leaf : exists e, Nibbles.encode_compact n leaf = Ok e.
Proof.
  unfold Nibbles.encode_compact. destruct (Z.eqb_spec (len n mod 2) 0) as [He|Ho]; [by eexists|].
  destruct (Nibbles.odd_cons n Ho) as (x & m & -> & _). by eexists.
Qed.
(** The compact form of a path. *)
Definition compact (n : list Z) (leaf : bool) : list Z :=
  match Nibbles.encode_compact n leaf with Ok e => e | _ => [] end.
Lemma compact_eq n leaf : Nibbles.encode_compact n leaf = Ok (compact n leaf).
Proof. unfold compact. by destruct (encode_compact_ok n leaf) as [e ->]. Qed.

(** The bytes of a node: a list of strings, one of them for each reference. *)
Fixpoint node_bytes (n : Node) : list Z :=
  match n with
  | Empty => [0x80]
  | Leaf key value => list_bytes [compact key true; value]
  | Extension key r =>
      list_bytes [compact key false; match r with Hash h => h | Inline m => node_bytes m end]
  | Branch cs value =>
      list_bytes (map (fun c => match c with
                                | None => []
                                | Some (Hash h) => h
                                | Some (Inline m) => node_bytes m
                                end) cs ++ [default [] value])
  end.
Definition ref_bytes (r : NodeRef) : list Z := match r with Hash h => h | Inline m => node_bytes m end.
Definition child_bytes (c : option NodeRef) : list Z := default [] (ref_bytes <$> c).
Lemma node_bytes_branch cs v : node_bytes (Branch cs v) = list_bytes (map child_bytes cs ++ [default [] v]).
Proof. simpl. do 2 f_equal. apply map_ext. by intros [[]|]. Qed.

Lemma payload_snoc items b : payload_of (items ++ [b]) = payload_of items ++ string_bytes b.
Proof. unfold payload_of. rewrite map_app, concat_app. simpl. by rewrite app_nil_r. Qed.

Section codec.
Context `{RlpListLaws} `{KeccakOps}.

Lemma encode_children f cs e : (forall i c, cs !! i = Some c -> forall e, f c e = Ok (encode_bytes e (child_bytes c))) ->
  encode_items f cs e = Ok (extend_from_slice e (payload_of (map child_bytes cs))).
Proof.
  revert e. induction cs as [|c cs IH]; intros e Hf; simpl.
  - unfold extend_from_slice. rewrite app_nil_r. by destruct e.
  - rewrite (Hf 0%nat c) by done. simpl. rewrite IH by (intros i c' Hi; apply (Hf (S i) c' Hi)).
    rewrite encode_bytes_eq, extend_extend. done.
Qed.
Lemma encode_raw_eq n : encode_raw n = Ok (node_bytes n).
Proof.
  induction n as [|k v|k h|k m IH|cs v IH] using node_ind'.
  - done.
  - cbn [encode_raw]. rewrite (list_writes 2 _ (payload_of [compact k true; v])); [done|].
    intros e. rewrite compact_eq. cbn [obind]. rewrite !encode_bytes_eq, extend_extend. unfold payload_of, string_bytes.
    simpl. by rewrite app_nil_r.
  - cbn [encode_raw]. rewrite (list_writes 2 _ (payload_of [compact k false; h])); [done|].
    intros e. rewrite compact_eq. cbn [obind]. rewrite !encode_bytes_eq, extend_extend. unfold payload_of, string_bytes.
    simpl. by rewrite app_nil_r.
  - cbn [encode_raw]. rewrite (list_writes 2 _ (payload_of [compact k false; node_bytes m])); [done|].
    intros e. rewrite compact_eq. cbn [obind]. rewrite IH. cbn [obind].
    rewrite !encode_bytes_eq, extend_extend. unfold payload_of, string_bytes. simpl. by rewrite app_nil_r.
  - rewrite node_bytes_branch. cbn [encode_raw].
    rewrite (list_writes 17 _ (payload_of (map child_bytes cs ++ [default [] v]))); [done|].
    intros e. rewrite encode_children.
    + cbn [obind]. rewrite payload_snoc. destruct v; by rewrite encode_bytes_eq, extend_extend.
    + intros i [[h|m]|] Hi e'; [done| |done]. by rewrite (IH i m Hi).
Qed.

Lemma from_node_eq n : from_node n =
  Ok (if len (node_bytes n) <? 32 then Inline n else Hash (keccak256 (node_bytes n))).
Proof.
  unfold from_node, hash. rewrite encode_raw_eq. cbn [obind]. destruct (Z.ltb_spec (len (node_bytes n)) 32); done.
Qed.
Lemma small_eq n : small n <-> len (node_bytes n) < 32.
Proof. unfold small. rewrite encode_raw_eq. naive_solver. Qed.
End codec.

(** * Sizes *)

(** The bytes of a length header. *)
Definition prefix_len (n : Z) : Z := if n <? 56 then 1 else 1 + len (encode_length n).
Definition string_len (b : list Z) : Z := len (string_bytes b).
Definition framed (n : Z) : Z := prefix_len n + n.

Lemma encode_length_mono n m : n <= m -> len (encode_length n) <= len (encode_length m).
Proof. intros. unfold encode_length, len. case_bool; simpl; lia. Qed.
Lemma prefix_len_mono n m : n <= m -> 1 <= prefix_len n <= prefix_len m.
Proof.
  intros Hnm. unfold prefix_len. pose proof (encode_length_mono n m Hnm).
  pose proof (len_nonneg (encode_length n)). pose proof (len_nonneg (encode_length m)). case_bool; lia.
Qed.
Lemma prefix_len_max n : prefix_len n <= 5.
Proof. unfold prefix_len, encode_length, len. case_bool; simpl; lia. Qed.
(** A little longer string has at most one byte more of header. *)
Lemma prefix_len_step n m : n <= m <= n + 40 -> prefix_len m <= prefix_len n + 1.
Proof. intros. unfold prefix_len, encode_length, len. case_bool; simpl; lia. Qed.
Lemma framed_mono n m : n <= m -> framed n <= framed m.
Proof. intros Hnm. unfold framed. pose proof (prefix_len_mono n m Hnm). lia. Qed.

Lemma list_bytes_len items : len (list_bytes items) = framed (len (payload_of items)).
Proof.
  unfold list_bytes, framed, list_header, prefix_len. rewrite len_app. case_bool; rewrite ?len_cons; done.
Qed.
Lemma payload_len items : len (payload_of items) = foldr (fun b n => string_len b + n) 0 items.
Proof.
  induction items as [|b items IH]; [done|]. unfold payload_of in *. simpl. rewrite len_app. by rewrite IH.
Qed.
Lemma string_len_bounds b : len b <= string_len b <= framed (len b) /\ 1 <= string_len b.
Proof.
  unfold string_len, string_bytes, framed, string_header, prefix_len. rewrite len_app.
  pose proof (len_nonneg b). pose proof (encode_length_len (len b)).
  destruct b as [|x [|y b]]; [done| |]; case_bool; unfold len in *; simpl in *; lia.
Qed.
(** Every string but a single small byte has a header. *)
Lemma string_len_eq b : (forall x, b = [x] -> 0x80 <= x) -> string_len b = framed (len b).
Proof.
  intros Hb. unfold string_len, string_bytes, framed, string_header, prefix_len. rewrite len_app.
  destruct b as [|x [|y b]]; [done| |]; case_bool; rewrite ?len_cons; try lia.
  - specialize (Hb x eq_refl). lia.
  - done.
  - unfold len in *; simpl in *; lia.
Qed.
Lemma compact_len k leaf : len (compact k leaf) = 1 + len k / 2.
Proof.
  assert (Hp : forall n, len n mod 2 = 0 -> len (Nibbles.pack n) = len n / 2).
  { induction n as [|x|x y n IH] using Nibbles.pair_ind; intros He; [done|done|].
    rewrite Nibbles.even_cons2 in He. simpl. rewrite !len_cons, IH by done. zlia. }
  unfold compact, Nibbles.encode_compact. destruct (Z.eqb_spec (len k mod 2) 0) as [He|Ho]; simpl negb; cbv iota.
  - by rewrite len_cons, Hp.
  - destruct (Nibbles.odd_cons k Ho) as (x & m & -> & Hm).
    change (index (x :: m) 0) with (Ok (E := Empty_set) x). cbn [obind]. change (drop 1 (x :: m)) with m.
    rewrite !len_cons, Hp by done. zlia.
Qed.

Lemma node_bytes_first n : exists x l, node_bytes n = x :: l /\ 0x80 <= x.
Proof.
  assert (Hl : forall items, exists x l, list_bytes items = x :: l /\ 0x80 <= x).
  { intros items. unfold list_bytes. pose proof (len_nonneg (payload_of items)).
    destruct (list_first_byte (len (payload_of items))) as (x & l & -> & Hx); [done|].
    exists x, (l ++ payload_of items). split; [done|lia]. }
  destruct n; [by exists 0x80, []|apply Hl..].
Qed.
Lemma node_string_len n : string_len (node_bytes n) = framed (len (node_bytes n)).
Proof.
  apply string_len_eq. intros y Hy. destruct (node_bytes_first n) as (x & l & Hx & Hle).
  rewrite Hx in Hy. by simplify_eq.
Qed.
Lemma node_bytes_pos n : 1 <= len (node_bytes n).
Proof. destruct (node_bytes_first n) as (x & l & -> & _). rewrite len_cons. pose proof (len_nonneg l). lia. Qed.

(** The bytes of the strings a branch holds for its children. *)
Definition children_len (cs : Children) : Z := foldr (fun c n => string_len (child_bytes c) + n) 0 cs.
Lemma leaf_len k v : len (node_bytes (Leaf k v)) = framed (string_len (compact k true) + string_len v).
Proof. cbn [node_bytes]. rewrite list_bytes_len, payload_len. simpl. f_equal. lia. Qed.
Lemma ext_len k r : len (node_bytes (Extension k r)) = framed (string_len (compact k false) + string_len (ref_bytes r)).
Proof. cbn [node_bytes]. rewrite list_bytes_len, payload_len. simpl. f_equal. unfold ref_bytes. lia. Qed.
Lemma branch_len cs v : len (node_bytes (Branch cs v)) = framed (children_len cs + string_len (default [] v)).
Proof.
  rewrite node_bytes_branch, list_bytes_len, payload_len, foldr_app. f_equal. simpl. rewrite Z.add_0_r.
  unfold children_len. induction cs as [|c cs IH]; simpl; [lia|]. rewrite IH. lia.
Qed.
Lemma children_len_set cs i c c' : cs !! i = Some c ->
  children_len (<[i := c']> cs) = children_len cs - string_len (child_bytes c) + string_len (child_bytes c').
Proof.
  revert i. induction cs as [|c0 cs IH]; intros [|i] Hi; simplify_eq/=; [lia|].
  fold (children_len cs). fold (children_len (<[i := c']> cs)). rewrite (IH i Hi). lia.
Qed.
(** At least one byte per child. *)
Lemma children_len_min cs i c : cs !! i = Some c -> len cs - 1 + string_len (child_bytes c) <= children_len cs.
Proof.
  assert (Hmin : forall l, len l <= children_len l).
  { induction l as [|c0 l IH]; [done|]. rewrite len_cons. simpl. fold (children_len l).
    pose proof (string_len_bounds (child_bytes c0)). lia. }
  revert i. induction cs as [|c0 cs IH]; intros [|i] Hi; simplify_eq/=; rewrite len_cons; fold (children_len cs).
  - specialize (Hmin cs). lia.
  - specialize (IH i Hi). pose proof (string_len_bounds (child_bytes c0)). lia.
Qed.

(** * Tries in memory *)

(** No node behind a hash. *)
Fixpoint in_memory (n : Node) : bool :=
  match n with
  | Empty | Leaf _ _ => true
  | Extension _ (Inline m) => in_memory m
  | Extension _ (Hash _) => false
  | Branch cs _ =>
      forallb (fun c => match c with
                        | None => true
                        | Some (Inline m) => in_memory m
                        | Some (Hash _) => false
                        end) cs
  end.
(** The nodes on the longest path, the last one aside. *)
Fixpoint height (n : Node) : nat :=
  match n with
  | Empty | Leaf _ _ | Extension _ (Hash _) => 0
  | Extension _ (Inline m) => S (height m)
  | Branch cs _ =>
      S (foldr (fun c h => Nat.max (match c with Some (Inline m) => height m | _ => 0 end) h) 0%nat cs)
  end.

Definition slot_in_memory (c : option NodeRef) : Prop := forall r, c = Some r -> exists m, r = Inline m /\ in_memory m = true.
Lemma in_memory_branch cs v : in_memory (Branch cs v) = true <-> forall i c, cs !! i = Some c -> slot_in_memory c.
Proof.
  simpl. rewrite forallb_forall. split.
  - intros Hf i c Hi r ->. specialize (Hf _ (proj1 (list_elem_of_In _ _) (list_elem_of_lookup_2 _ _ _ Hi))).
    destruct r as [h|m]; [done|by exists m].
  - intros Hf c Hc. apply list_elem_of_In, list_elem_of_lookup in Hc as [i Hi].
    destruct c as [r|]; [|done]. destruct (Hf i _ Hi r eq_refl) as (m & -> & Hm). done.
Qed.
Lemma height_child cs v i m : cs !! i = Some (Some (Inline m)) -> (height m < height (Branch cs v))%nat.
Proof.
  intros Hi. simpl. apply Nat.lt_succ_r. revert i Hi.
  induction cs as [|c cs IH]; intros [|i] Hi; simplify_eq/=; [lia|]. specialize (IH i Hi). lia.
Qed.
Lemma in_memory_set cs v v' i c : in_memory (Branch cs v) = true -> slot_in_memory c ->
  in_memory (Branch (<[i := c]> cs) v') = true.
Proof.
  rewrite !in_memory_branch. intros Hcs Hc j c' Hj. apply list_lookup_insert_Some in Hj as [(_ & <- & _)|[_ Hj]]; [done|].
  by eapply Hcs.
Qed.

Section memory.
Context `{RlpListLaws} `{KeccakOps} `{Profile}.

(** What a method returns over every database. *)
Notation "'everywhere' d , P" := (forall (D : Type) (HD : Database D) (d : D), P)
  (at level 200, d name, right associativity).

(** A database without nodes is sound. *)
Lemma fresh_sound {D} `{Database D} (d : D) : (forall h, load_node d h = Err KeyNotFound) -> db_sound d.
Proof. intros Hd. split; [intros n e _ _; right; apply Hd|]. intros h n Hn. by rewrite Hd in Hn. Qed.
Lemma db_new_sound : db_sound db_new.
Proof. by apply fresh_sound. Qed.

(** [commit] of a node over a hash writes that node alone. *)
Lemma commit_by_hash k h : commit_node (Extension k (Hash h)) [] =
  let e := node_bytes (Extension k (Hash h)) in
  Ok (if 32 <=? len e then [Put (node_key (keccak256 e)) e] else []).
Proof.
  unfold commit_node, hash. rewrite !encode_raw_eq. cbn [obind]. cbv zeta.
  destruct (Z.leb_spec 32 (len (node_bytes (Extension k (Hash h))))); [|done].
  by rewrite (proj2 (Z.ltb_ge _ _)).
Qed.

(** The child at a nibble. *)
Lemma slot_cases cs v x : in_memory (Branch cs v) = true -> wf_node (Branch cs v) -> Nibbles.nibble x ->
  index (E := TrieError) cs x = Ok None \/
  exists m, index (E := TrieError) cs x = Ok (Some (Inline m)) /\ cs !! Z.to_nat x = Some (Some (Inline m)) /\
    in_memory m = true /\ wf_node m /\ len (node_bytes m) < 32.
Proof.
  intros Hm Hw Hx. unfold Nibbles.nibble in Hx. inversion Hw as [| | |? ? Hl Hc]; subst.
  destruct (lookup_lt_is_Some_2 cs (Z.to_nat x)) as [[r|] Hi]; [lia| |].
  - right. destruct (proj1 (in_memory_branch cs v) Hm _ _ Hi r eq_refl) as (m & -> & Hmm).
    exists m. destruct (Hc _ _ Hi) as [Hwm Hs%small_eq]. split_and!; try done. apply index_spec. split; [lia|done].
  - left. apply index_spec. split; [lia|done].
Qed.
Lemma ext_cases k r : in_memory (Extension k r) = true -> wf_node (Extension k r) ->
  exists m, r = Inline m /\ in_memory m = true /\ wf_node m /\ len (node_bytes m) < 32 /\ Forall Nibbles.nibble k.
Proof.
  intros Hm Hw. destruct r as [h|m]; [done|]. exists m. inversion Hw as [| |? ? Hk Hr|]; subst.
  destruct (Hr m eq_refl) as [Hwm Hs%small_eq]. done.
Qed.

Lemma get_total fuel n p q : wf_node n -> in_memory n = true -> (height n < fuel)%nat ->
  Forall Nibbles.nibble q -> len (p ++ q) < isize_max ->
  exists v, everywhere d, get_at_node fuel d n (p ++ q) (len p) = Ok v.
Proof.
  revert n p q. induction fuel as [|fuel IH]; intros n p q Hw Hm Hh Hq Hl; [lia|].
  assert (Hl' : len (p ++ q) < 2 ^ 64) by (unfold isize_max in *; lia).
  destruct n as [|lk v|ek r|cs v].
  - by exists None.
  - exists (if bool_decide (q = lk) then Some v else None). intros D HD d.
    cbn [get_at_node]. rewrite slice_from_app. simpl. by case_bool_decide.
  - destruct (ext_cases ek r Hm Hw) as (m & -> & Hmm & Hwm & _ & _).
    destruct (decide (ek `prefix_of` q)) as [[q' ->]|Hno].
    + apply Forall_app in Hq as [_ Hq]. pose proof Hl as Hl0. rewrite app_assoc in Hl.
      destruct (IH m (p ++ ek) q') as [v Hv]; [done..|simpl in Hh; lia|done|done|]. exists v. intros D HD d.
      destruct (get_ext fuel d ek (Inline m) p (ek ++ q') Hl') as [(q1 & Hq1 & ->)|[Hn _]]; [|by destruct (Hn q')].
      simplify_list_eq. apply Hv.
    + exists None. intros D HD d.
      destruct (get_ext fuel d ek (Inline m) p q Hl') as [(q' & -> & _)|[_ ->]]; [|done]. destruct Hno. by eexists.
  - destruct q as [|x q]; [exists v; intros D HD d; cbn [get_at_node]; by rewrite at_end|].
    apply Forall_cons_iff in Hq as [Hx Hq].
    destruct (slot_cases cs v x Hm Hw Hx) as [Hi|(m & Hi & Hi' & Hmm & Hwm & _)].
    + exists None. intros D HD d. rewrite get_branch by done. by rewrite Hi.
    + pose proof (height_child cs v _ m Hi'). pose proof Hl as Hl0.
      change (x :: q) with ([x] ++ q) in Hl. rewrite app_assoc in Hl.
      destruct (IH m (p ++ [x]) q) as [w Hv]; [done..|lia|done|done|]. exists w. intros D HD d.
      rewrite get_branch by done. rewrite Hi. apply Hv.
Qed.

(** ** Insertion succeeds *)

Lemma set_child_total cs x c : length cs = 16%nat -> Nibbles.nibble x ->
  set_child cs x c = Ok (<[Z.to_nat x := c]> cs).
Proof. intros Hl Hx. apply set_child_ok. unfold Nibbles.nibble, len in *. split; [lia|done]. Qed.
Lemma put_leaf_total c q v b : len c < isize_max -> Forall Nibbles.nibble q -> length b.1 = 16%nat ->
  exists b', put_leaf (c ++ q) (len c) v b = Ok b' /\ length b'.1 = 16%nat.
Proof.
  intros Hl Hq Hb. unfold put_leaf. destruct q as [|x q].
  - rewrite app_nil_r, Z.ltb_irrefl. by eexists.
  - rewrite (proj2 (Z.ltb_lt _ _)) by (rewrite len_app, len_cons; pose proof (len_nonneg q); lia).
    rewrite get_app. cbn [unwrap obind]. apply Forall_cons_iff in Hq as [Hx Hq].
    change (x :: q) with ([x] ++ q). rewrite app_assoc. unfold uadd.
    rewrite checked_arith_ok by (unfold uint, isize_max in *; pose proof (len_nonneg c); lia).
    cbn [obind]. change 1 with (len [x]). rewrite <- len_app, slice_from_app. cbn [obind].
    rewrite from_node_eq. cbn [lift_ok obind]. rewrite set_child_total by done. cbn [obind].
    eexists. split; [done|]. cbn [fst]. by rewrite length_insert.
Qed.
Lemma under_prefix_total c b : exists n', under_prefix (len c) c b = Ok n'.
Proof. unfold under_prefix. destruct (0 <? len c); [rewrite from_node_eq|]; by eexists. Qed.

Lemma insert_at_leaf_total lk lv q v : len q < isize_max -> Forall Nibbles.nibble lk -> Forall Nibbles.nibble q ->
  exists n', insert_at_leaf lk lv q v = Ok n'.
Proof.
  intros Hl Hlk Hq. unfold insert_at_leaf.
  destruct (common_prefix_split lk q) as (c & lk' & q' & -> & -> & Hc & _). rewrite Hc.
  assert (Hlc : len c < isize_max) by (rewrite len_app in Hl; pose proof (len_nonneg q'); lia).
  apply Forall_app in Hlk as [_ Hlk']. apply Forall_app in Hq as [_ Hq'].
  destruct (_ && _); [by eexists|].
  destruct (put_leaf_total c lk' lv (replicate 16 None, None)) as (b & Hb & Hbl); [done..|].
  destruct (put_leaf_total c q' v b) as (b' & Hb' & _); [done..|].
  destruct (Z.eqb_spec (len c) 0) as [Hc0|Hc0].
  - rewrite Hc0 in Hb, Hb'. rewrite Hb. cbn [obind]. rewrite Hb'. by eexists.
  - rewrite slice_prefix. cbn [obind]. rewrite Hb. cbn [obind]. rewrite Hb'. cbn [obind]. apply under_prefix_total.
Qed.
Lemma put_extension_total e r : Forall Nibbles.nibble e ->
  exists cs, length cs = 16%nat /\ put_extension e r (replicate 16 None) = Ok cs.
Proof.
  intros He. unfold put_extension, Nibbles.is_empty. destruct e as [|x e1]; [by exists (replicate 16 None)|].
  rewrite (proj2 (Z.eqb_neq _ 0)) by (rewrite len_cons; pose proof (len_nonneg e1); lia). cbn [negb].
  change (Nibbles.get (x :: e1) 0) with (Some x). cbn [unwrap obind]. apply Forall_cons_iff in He as [Hx _].
  assert (Hset : forall r', exists cs, length cs = 16%nat /\ set_child (replicate 16 None) x (Some r') = Ok cs).
  { intros r'. rewrite set_child_total by done. eexists. split; [|done]. by rewrite length_insert. }
  destruct (len (x :: e1) =? 1); [apply Hset|].
  rewrite (slice_from_app [x] e1 : lift_ok (Nibbles.slice_from (x :: e1) 1) = Ok e1). cbn [obind].
  rewrite from_node_eq. cbn [lift_ok obind]. apply Hset.
Qed.
Lemma split_extension_total ek r q v : Forall Nibbles.nibble ek -> Forall Nibbles.nibble q ->
  exists n', split_extension ek r q v (Nibbles.common_prefix_len ek q) = Ok n'.
Proof.
  intros Hek Hq. unfold split_extension.
  destruct (common_prefix_split ek q) as (c & e' & q' & -> & -> & -> & _).
  apply Forall_app in Hek as [_ He]. apply Forall_app in Hq as [_ Hq].
  rewrite slice_prefix. cbn [obind]. rewrite !slice_from_app. cbn [obind].
  destruct (put_extension_total e' r) as (cs & Hcs & ->); [done|].
  cbn [obind]. destruct (put_leaf_total [] q' v (cs, None)) as (b & Hb & _); [done..|].
  change ([] ++ q') with q' in Hb. change (len (@nil Z)) with 0 in Hb. rewrite Hb. cbn [obind]. apply under_prefix_total.
Qed.

Lemma insert_total fuel n p q v : wf_node n -> in_memory n = true -> (S (height n) < fuel)%nat ->
  Forall Nibbles.nibble q -> len (p ++ q) < isize_max ->
  exists n', everywhere d, insert_at_node fuel d n (p ++ q) (len p) v = Ok n'.
Proof.
  revert n p q. induction fuel as [|fuel IH]; intros n p q Hw Hm Hh Hq Hl; [lia|].
  assert (Hql : len q < isize_max) by (rewrite len_app in Hl; pose proof (len_nonneg p); lia).
  destruct n as [|lk lv|ek r|cs bv].
  - exists (Leaf q v). intros D HD d. cbn [insert_at_node]. by rewrite slice_from_app.
  - inversion Hw; subst. destruct (insert_at_leaf_total lk lv q v) as [n' Hn']; [done..|].
    exists n'. intros D HD d. cbn [insert_at_node]. by rewrite slice_from_app.
  - destruct (ext_cases ek r Hm Hw) as (m & -> & Hmm & Hwm & _ & Hek).
    destruct (decide (Nibbles.common_prefix_len ek q = len ek)) as [Hc|Hc].
    + apply common_prefix_full in Hc as Hq'. destruct Hq' as [q' ->]. rewrite app_assoc in Hl.
      apply Forall_app in Hq as [_ Hq]. destruct (IH m (p ++ ek) q') as [n' Hn']; [done..|simpl in Hh; lia|done|done|].
      eexists. intros D HD d. cbn [insert_at_node]. rewrite slice_from_app. cbn [obind].
      rewrite Hc, Z.eqb_refl. cbn [resolve_node_ref obind]. rewrite app_assoc.
      rewrite (next_index p q' ek) by (unfold isize_max in *; lia). cbn [obind].
      rewrite Hn'. cbn [obind]. by rewrite from_node_eq.
    + destruct (split_extension_total ek (Inline m) q v) as [n' Hn']; [done..|].
      exists n'. intros D HD d. cbn [insert_at_node]. rewrite slice_from_app. cbn [obind].
      by rewrite (proj2 (Z.eqb_neq _ _)).
  - destruct q as [|x q]; [eexists; intros D HD d; cbn [insert_at_node]; by rewrite at_end|].
    apply Forall_cons_iff in Hq as [Hx Hq]. change (x :: q) with ([x] ++ q) in Hl. rewrite app_assoc in Hl.
    assert (Hlen : length cs = 16%nat) by (by inversion Hw).
    assert (exists slot m, index (E := TrieError) cs x = Ok slot /\
      (everywhere d, match slot with None => Ok Empty | Some r => resolve_node_ref d r end = Ok m) /\
      wf_node m /\ in_memory m = true /\ (S (height m) < fuel)%nat) as (slot & m & Hi & Hres & Hwm & Hmm & Hhm).
    { destruct (slot_cases cs bv x Hm Hw Hx) as [Hi|(m & Hi & Hi' & Hmm & Hwm & _)].
      - exists None, Empty. split_and!; [done..|constructor|done|simpl in *; lia].
      - exists (Some (Inline m)), m. pose proof (height_child cs bv _ m Hi'). split_and!; try done. lia. }
    destruct (IH m (p ++ [x]) q) as [n' Hn']; [done..|]. eexists. intros D HD d. cbn [insert_at_node].
    rewrite not_at_end, get_app. cbn [unwrap obind]. change (x :: q) with ([x] ++ q).
    rewrite app_assoc. change 1 with (len [x]). rewrite (next_index p q [x]) by (unfold isize_max in *; lia).
    rewrite Hi. cbn [obind]. rewrite Hres. cbn [obind]. rewrite Hn'. cbn [obind]. rewrite from_node_eq.
    cbn [lift_ok obind]. by rewrite set_child_total.
Qed.

(** ** Deletion succeeds, and does not grow the trie *)

Lemma compact_single k leaf : 2 <= len (compact k leaf) -> string_len (compact k leaf) = framed (len (compact k leaf)).
Proof. intros Hl. apply string_len_eq. intros x Hx. rewrite Hx in Hl. done. Qed.
(** Two paths in one string take no more than the two strings and the header
    of the node between them. *)
Lemma merged_len ek ck l1 l2 l3 (s m : Z) : 0 <= s -> m < 32 ->
  framed (string_len (compact ck l2) + s) <= m ->
  string_len (compact (ek ++ ck) l3) + s <= string_len (compact ek l1) + framed m.
Proof.
  intros Hs Hm Hck. pose proof (compact_len ek l1) as HA. pose proof (compact_len ck l2) as HC.
  pose proof (compact_len (ek ++ ck) l3) as HM. rewrite len_app in HM.
  pose proof (len_nonneg ek). pose proof (len_nonneg ck).
  pose proof (proj1 (proj1 (string_len_bounds (compact ck l2)))).
  pose proof (proj1 (string_len_bounds (compact (ek ++ ck) l3))) as [_ HM'].
  unfold framed in Hck. pose proof (prefix_len_mono (string_len (compact ck l2) + s) _ (Z.le_refl _)).
  pose proof (prefix_len_mono m m (Z.le_refl _)). unfold framed at 1 in HM'. unfold framed.
  assert (Hd : len (compact (ek ++ ck) l3) <= len (compact ek l1) + len (compact ck l2)) by (rewrite HA, HC, HM; zlia).
  destruct (Z.le_gt_cases 2 (len (compact ek l1))) as [HA2|HA2].
  - rewrite (compact_single ek l1) by done. unfold framed.
    pose proof (prefix_len_step (len (compact ek l1)) (len (compact (ek ++ ck) l3))) as Hst.
    assert (len (compact ek l1) <= len (compact (ek ++ ck) l3)) by (rewrite HA, HM; zlia). lia.
  - assert (len (compact (ek ++ ck) l3) <= 1 + len (compact ck l2)) by (rewrite HM, HC; rewrite HA in HA2; zlia).
    assert (prefix_len (len (compact (ek ++ ck) l3)) = 1) by (unfold prefix_len; case_bool; lia).
    pose proof (string_len_bounds (compact ek l1)). lia.
Qed.

(** One nibble in front of a path. *)
Lemma lifted_len x ck l1 l2 (s m : Z) : framed (string_len (compact ck l1) + s) <= m ->
  string_len (compact ([x] ++ ck) l2) + s <= 6 + m.
Proof.
  unfold framed. intros Hm. pose proof (proj1 (string_len_bounds (compact ([x] ++ ck) l2))) as [_ Hs].
  pose proof (proj1 (string_len_bounds (compact ck l1))) as [Hc _]. unfold framed in Hs. rewrite compact_len in *.
  pose proof (prefix_len_max (1 + len ([x] ++ ck) / 2)). rewrite len_app in *. change (len [x]) with 1 in *.
  pose proof (prefix_len_mono (string_len (compact ck l1) + s) _ (Z.le_refl _)). pose proof (len_nonneg ck).
  assert ((1 + len ck) / 2 <= 1 + len ck / 2) by zlia. lia.
Qed.

Lemma collapse_total ek m n1 : len (node_bytes m) < 32 -> in_memory n1 = true ->
  len (node_bytes n1) <= len (node_bytes m) ->
  exists n', collapse_extension ek n1 = Ok (n', true) /\ in_memory n' = true /\
    len (node_bytes n') <= len (node_bytes (Extension ek (Inline m))).
Proof.
  intros Hm Hn1 Hle. destruct n1 as [|ck w|ck r|cs v]; cbn [collapse_extension].
  - exists Empty. split_and!; [done..|]. pose proof (node_bytes_pos (Extension ek (Inline m))).
    change (len (node_bytes Empty)) with 1. lia.
  - eexists. split_and!; [done..|]. rewrite leaf_len in Hle |- *. rewrite ext_len. cbn [ref_bytes]. rewrite node_string_len.
    apply framed_mono. eapply merged_len; [apply len_nonneg|done|]. done.
  - eexists. split_and!; [done..|]. rewrite ext_len in Hle |- *. rewrite ext_len. cbn [ref_bytes]. rewrite node_string_len.
    apply framed_mono. eapply merged_len; [apply len_nonneg|done|]. done.
  - rewrite from_node_eq, (proj2 (Z.ltb_lt _ _)) by lia. eexists. split_and!; [done..|].
    rewrite !ext_len. cbn [ref_bytes]. rewrite !node_string_len. apply framed_mono.
    pose proof (framed_mono _ _ Hle). lia.
Qed.

Lemma compact_total cs v : wf_node (Branch cs v) -> in_memory (Branch cs v) = true ->
  exists n', (everywhere d, try_compact_branch d cs v = Ok n') /\ in_memory n' = true /\
    len (node_bytes n') <= len (node_bytes (Branch cs v)).
Proof.
  intros Hw Hm. unfold try_compact_branch.
  assert (Hlen : length cs = 16%nat) by (by inversion Hw). assert (Hl : len cs = 16) by (unfold len; lia).
  destruct (lookup_lt_is_Some_2 cs 0) as [c0 Hc0]; [lia|].
  pose proof (children_len_min cs 0 c0 Hc0) as H0min. pose proof (string_len_bounds (child_bytes c0)).
  destruct (non_empty_children 0 cs) as [|[x r] [|y l]] eqn:Hne.
  - destruct v as [v|]; eexists; (split_and!; [done..|]).
    + rewrite leaf_len, branch_len. apply framed_mono. change (string_len (compact [] true)) with 1.
      cbn [from_option id]. lia.
    + pose proof (node_bytes_pos (Branch cs None)). change (len (node_bytes Empty)) with 1. lia.
  - destruct v as [v|]; [by eexists|].
    assert (Hx : index (E := TrieError) cs x = Ok (Some r)) by (apply occupied; rewrite Hne; by left).
    apply index_spec in Hx as [Hx0 Hx]. destruct (proj1 (in_memory_branch cs None) Hm _ _ Hx r eq_refl) as (m & -> & Hmm).
    pose proof (children_len_min cs _ _ Hx) as Hmin. change (child_bytes (Some (Inline m))) with (node_bytes m) in Hmin.
    rewrite node_string_len in Hmin. unfold framed in Hmin.
    pose proof (prefix_len_mono (len (node_bytes m)) _ (Z.le_refl _)). cbn [resolve_node_ref obind].
    destruct m as [|ck w|ck r|cs' v']; eexists; (split_and!; [done..|]).
    1, 4: rewrite ext_len, branch_len; apply framed_mono; cbn [ref_bytes]; rewrite node_string_len; unfold framed;
      pose proof (proj1 (string_len_bounds (compact [wrap 8 x] false))) as [_ Hs]; rewrite compact_len in Hs;
      change (framed (1 + len [wrap 8 x] / 2)) with 2 in Hs; change (string_len (default [] None)) with 1; lia.
    all: rewrite ?leaf_len, ?ext_len, branch_len; apply framed_mono; unfold Nibbles.extend;
      change (string_len (default [] None)) with 1.
    + pose proof (lifted_len (wrap 8 x) ck true true (string_len w) (len (node_bytes (Leaf ck w)))) as Hlift.
      rewrite leaf_len in *. lia.
    + pose proof (lifted_len (wrap 8 x) ck false false (string_len (ref_bytes r)) (len (node_bytes (Extension ck r)))) as Hlift.
      rewrite ext_len in *. lia.
  - destruct v; by eexists.
Qed.

(** The deletion of [q] below [n] succeeds, and the result is no longer. *)
Definition deletable fuel n p q : Prop :=
  exists n' b, (everywhere d, delete_at_node fuel d n (p ++ q) (len p) = Ok (n', b)) /\
    in_memory n' = true /\ wf_node n' /\ len (node_bytes n') <= len (node_bytes n).

Lemma delete_at_value fuel cs v p : wf_node (Branch cs v) -> in_memory (Branch cs v) = true ->
  deletable (S fuel) (Branch cs v) p [].
Proof.
  intros Hw Hm. destruct v as [v|].
  - destruct (compact_total cs None) as (n' & Hn' & Hm' & Hle); [by eapply wf_branch_value|done|].
    exists n', true. split_and!; [|done| |].
    + intros D HD d. cbn [delete_at_node]. rewrite at_end, Hn'. done.
    + apply (compact_wf db_new cs None); [apply db_new_sound|by eapply wf_branch_value|apply Hn'].
    + etrans; [done|]. rewrite !branch_len. apply framed_mono. change (string_len (default [] None)) with 1.
      pose proof (string_len_bounds v). simpl. lia.
  - exists (Branch cs None), false. split_and!; [|done..]. intros D HD d. cbn [delete_at_node]. by rewrite at_end.
Qed.
Lemma delete_at_child fuel cs v p x q : wf_node (Branch cs v) -> in_memory (Branch cs v) = true ->
  Nibbles.nibble x -> len (p ++ x :: q) < isize_max ->
  (forall m, cs !! Z.to_nat x = Some (Some (Inline m)) -> wf_node m -> in_memory m = true ->
     deletable fuel m (p ++ [x]) q) ->
  deletable (S fuel) (Branch cs v) p (x :: q).
Proof.
  intros Hw Hm Hx Hl Hrec. assert (Hlen : length cs = 16%nat) by (by inversion Hw).
  destruct (slot_cases cs v x Hm Hw Hx) as [Hi|(m & Hi & Hi' & Hmm & Hwm & Hs)].
  { exists (Branch cs v), false. split_and!; [|done..]. intros D HD d. cbn [delete_at_node].
    rewrite not_at_end, get_app. cbn [unwrap obind]. by rewrite Hi. }
  destruct (Hrec m Hi' Hwm Hmm) as (n1 & b1 & Hd & Hm1 & Hw1 & Hle).
  assert (Hstep : everywhere d, delete_at_node (S fuel) d (Branch cs v) (p ++ x :: q) (len p) =
    if b1 then replace_child d cs v x n1 else Ok (Branch cs v, false)).
  { intros D HD d. cbn [delete_at_node]. rewrite not_at_end, get_app. cbn [unwrap obind]. rewrite Hi.
    cbn [obind resolve_node_ref]. change (x :: q) with ([x] ++ q) in *. rewrite app_assoc in *.
    change 1 with (len [x]). rewrite (next_index p q [x]) by (unfold isize_max in *; lia).
    cbn [obind]. by rewrite Hd. }
  destruct b1; [|by exists (Branch cs v), false].
  set (slot := if is_empty n1 then None else Some (Inline n1)). set (cs' := <[Z.to_nat x := slot]> cs).
  assert (Hslot : (if is_empty n1 then Ok None else let? r := lift_ok (from_node n1) in Ok (Some r)) = Ok (E := TrieError) slot).
  { unfold slot. rewrite from_node_eq, (proj2 (Z.ltb_lt _ _)) by lia. by destruct (is_empty n1). }
  assert (Hset : set_child cs x slot = Ok cs') by (by apply set_child_total).
  assert (Hw' : wf_node (Branch cs' v)).
  { apply (set_child_wf cs x slot cs' v v Hw Hset). intros r Hr. unfold slot in Hr. destruct (is_empty n1); [done|].
    injection Hr as <-. intros m' [= <-]. split; [done|]. apply small_eq. lia. }
  assert (Hm' : in_memory (Branch cs' v) = true).
  { apply (in_memory_set cs v); [done|]. intros r Hr. unfold slot in Hr. destruct (is_empty n1); [done|].
    injection Hr as <-. by exists n1. }
  destruct (compact_total cs' v Hw' Hm') as (n' & Hn' & Hmn & Hlen').
  exists n', true. split_and!; [|done| |].
  - intros D HD d. rewrite Hstep. unfold replace_child. rewrite Hslot. cbn [obind]. rewrite Hset. cbn [obind]. by rewrite Hn'.
  - apply (compact_wf db_new cs' v); [apply db_new_sound|done|apply Hn'].
  - etrans; [done|]. rewrite !branch_len. apply framed_mono. unfold cs'. rewrite (children_len_set _ _ _ _ Hi').
    change (child_bytes (Some (Inline m))) with (node_bytes m). rewrite node_string_len.
    assert (string_len (child_bytes slot) <= framed (len (node_bytes m))); [|lia].
    unfold slot. destruct (is_empty n1).
    + change (string_len (child_bytes None)) with 1. pose proof (node_bytes_pos m). unfold framed.
      pose proof (prefix_len_mono (len (node_bytes m)) _ (Z.le_refl _)). lia.
    + change (child_bytes (Some (Inline n1))) with (node_bytes n1). rewrite node_string_len. by apply framed_mono.
Qed.

Lemma delete_total fuel n p q : wf_node n -> in_memory n = true -> (height n < fuel)%nat ->
  Forall Nibbles.nibble q -> len (p ++ q) < isize_max -> deletable fuel n p q.
Proof.
  revert n p q. induction fuel as [|fuel IH]; intros n p q Hw Hm Hh Hq Hl; [lia|].
  destruct n as [|lk lv|ek r|cs bv].
  - by exists Empty, false.
  - destruct (decide (q = lk)) as [->|Hne].
    + exists Empty, true. split_and!; [|done|constructor|pose proof (node_bytes_pos (Leaf lk lv)); done].
      intros D HD d. cbn [delete_at_node]. rewrite slice_from_app. cbn [obind]. by rewrite bool_decide_true.
    + exists (Leaf lk lv), false. split_and!; [|done..].
      intros D HD d. cbn [delete_at_node]. rewrite slice_from_app. cbn [obind]. by rewrite bool_decide_false.
  - destruct (ext_cases ek r Hm Hw) as (m & -> & Hmm & Hwm & Hsm & Hek).
    destruct (decide (Nibbles.common_prefix_len ek q = len ek)) as [Hc|Hc].
    2: { exists (Extension ek (Inline m)), false. split_and!; [|done..].
         intros D HD d. cbn [delete_at_node]. rewrite slice_from_app. cbn [obind]. by rewrite (proj2 (Z.eqb_neq _ _)). }
    apply common_prefix_full in Hc as Hq'. destruct Hq' as [q' ->]. rewrite app_assoc in Hl.
    apply Forall_app in Hq as [_ Hq].
    destruct (IH m (p ++ ek) q') as (n1 & b1 & Hd & Hm1 & Hw1 & Hle); [done..|simpl in Hh; lia|done|done|].
    assert (Hstep : everywhere d, delete_at_node (S fuel) d (Extension ek (Inline m)) (p ++ ek ++ q') (len p) =
      if b1 then collapse_extension ek n1 else Ok (Extension ek (Inline m), false)).
    { intros D HD d. cbn [delete_at_node]. rewrite slice_from_app. cbn [obind]. rewrite Hc, Z.eqb_refl.
      cbn [resolve_node_ref obind]. rewrite app_assoc. rewrite (next_index p q' ek) by (unfold isize_max in *; lia).
      cbn [obind]. by rewrite Hd. }
    destruct b1; [|by exists (Extension ek (Inline m)), false].
    destruct (collapse_total ek m n1) as (n' & Hn' & Hm' & Hle'); [done..|].
    exists n', true. split_and!; [|done|by apply (collapse_wf ek n1 n' true)|done]. intros D HD d. by rewrite Hstep.
  - destruct q as [|x q]; [by apply delete_at_value|]. apply Forall_cons_iff in Hq as [Hx Hq].
    apply delete_at_child; [done..|]. intros m Hi Hwm Hmm. pose proof (height_child cs bv _ m Hi).
    change (x :: q) with ([x] ++ q) in Hl. rewrite app_assoc in Hl. apply IH; [done..|lia|done|done].
Qed.

(** * Theorems *)

(** Keys of the API: byte strings, whose nibbles fit in a vector. *)
Definition key_ok (key : list Z) : Prop := bytes key /\ 2 * len key < isize_max.
Lemma key_nibbles key : key_ok key ->
  Forall Nibbles.nibble (Nibbles.from_bytes key) /\ len (Nibbles.from_bytes key) < isize_max.
Proof. intros [Hb Hl]. destruct (Nibbles.pack_unpack key Hb) as (_ & Hn & ->). done. Qed.
Lemma key_inj key key' : key_ok key -> key_ok key' ->
  Nibbles.from_bytes key = Nibbles.from_bytes key' <-> key = key'.
Proof.
  intros [Hb _] [Hb' _]. split; [|by intros ->]. intros He.
  destruct (Nibbles.pack_unpack key Hb) as (<- & _). destruct (Nibbles.pack_unpack key' Hb') as (<- & _). by rewrite He.
Qed.

(** A trie in memory, and the map it stores: what every lookup with enough
    fuel returns. *)
Definition trie_ok {D} (t : PatriciaTrie D) : Prop := wf_node (root t) /\ in_memory (root t) = true.
Definition stores {D} `{Database D} (t : PatriciaTrie D) (m : list Z -> option (list Z)) : Prop :=
  forall key fuel, key_ok key -> (height (root t) < fuel)%nat -> trie_get fuel key t = Ok (m key).

Lemma memory_reads n key : wf_node n -> in_memory n = true -> key_ok key ->
  exists v, reads db_new n (Nibbles.from_bytes key) (Found v) /\
    everywhere d, forall fuel, (height n < fuel)%nat -> get_at_node fuel d n (Nibbles.from_bytes key) 0 = Ok v.
Proof.
  intros Hw Hm Hk. destruct (key_nibbles key Hk) as [Hn Hl].
  destruct (get_total (S (height n)) n [] (Nibbles.from_bytes key)) as [v Hv]; [done..|lia|done|done|].
  exists v. assert (Hr : reads db_new n (Nibbles.from_bytes key) (Found v)).
  { apply (get_reads _ (S (height n)) _ _ [] (Found v)); [simpl; unfold isize_max in *; lia|]. apply Hv. }
  split; [done|]. intros D HD d fuel Hf.
  destruct (get_total fuel n [] (Nibbles.from_bytes key)) as [w Hw']; [done..|].
  assert (reads db_new n (Nibbles.from_bytes key) (Found w)) as Hr'.
  { apply (get_reads _ fuel _ _ [] (Found w)); [simpl; unfold isize_max in *; lia|]. apply Hw'. }
  pose proof (reads_fun _ _ _ _ _ Hr Hr') as [= <-]. apply (Hw' D HD d).
Qed.
(** An update of the answers is an update of the map. *)
Lemma updates_stores {D} `{Database D} (t : PatriciaTrie D) m key o n' c : trie_ok t -> stores t m -> key_ok key ->
  wf_node n' -> in_memory n' = true -> updates db_new (root t) (Nibbles.from_bytes key) o n' ->
  stores (mkTrie (db t) n' c) (fun k => if decide (k = key) then o else m k).
Proof.
  intros [Hw Hm] Hs Hk Hw' Hm' Hu key' fuel Hk' Hf. simpl in Hf. unfold trie_get. simpl.
  destruct (memory_reads (root t) key' Hw Hm Hk') as (v & Hv & Hget).
  assert (m key' = v) as Hmv.
  { specialize (Hs key' (S (height (root t))) Hk'). specialize (Hget D _ (db t) (S (height (root t)))).
    unfold trie_get in Hs. rewrite Hget in Hs by lia. assert (Ok (E := TrieError) v = Ok (m key')) by (apply Hs; lia). congruence. }
  destruct (memory_reads n' key' Hw' Hm' Hk') as (w & Hwr & Hget'). rewrite Hget' by done. f_equal.
  destruct (Hu _ _ (proj1 (key_nibbles key' Hk')) Hv) as (a' & Ha' & Hle).
  pose proof (reads_fun _ _ _ _ _ Hwr Ha') as <-. destruct Hle as [Hle|Hle]; [|done]. revert Hle.
  destruct (decide (Nibbles.from_bytes key' = Nibbles.from_bytes key)) as [He|He].
  - apply key_inj in He as ->; [|done..]. rewrite decide_True by done. by intros [= ->].
  - rewrite decide_False by (intros ->; done). intros [= ->]. done.
Qed.

(** The answers of a trie over any database, as [get] gives them. *)
Lemma trie_get_reads {D} `{Database D} (t : PatriciaTrie D) fuel key v : key_ok key ->
  trie_get fuel key t = Ok v -> reads (db t) (root t) (Nibbles.from_bytes key) (Found v).
Proof.
  intros Hk Hg. destruct (key_nibbles key Hk) as [_ Hl].
  apply (get_reads (db t) fuel _ _ [] (Found v)); [simpl; unfold isize_max in *; lia|done].
Qed.
Lemma updates_get {D} `{Database D} (t : PatriciaTrie D) n' c key o key' v : key_ok key -> key_ok key' ->
  updates (db t) (root t) (Nibbles.from_bytes key) o n' ->
  reads (db t) (root t) (Nibbles.from_bytes key') (Found v) ->
  exists N, forall fuel, (N <= fuel)%nat ->
    trie_get fuel key' (mkTrie (db t) n' c) = Ok (if decide (key' = key) then o else v) \/
    trie_get fuel key' (mkTrie (db t) n' c) = Err KeyNotFound.
Proof.
  intros Hk Hk' Hu Hr. destruct (key_nibbles key' Hk') as [Hn Hl].
  destruct (Hu _ _ Hn Hr) as (a & Ha & Hle). destruct (reads_get _ _ _ _ Ha) as [N HN].
  exists N. intros fuel Hf. unfold trie_get. simpl.
  specialize (HN fuel [] Hf). simpl in HN. change (len (@nil Z)) with 0 in HN. rewrite HN by (unfold isize_max in *; lia).
  destruct Hle as [->| ->]; [left|by right].
  destruct (decide (Nibbles.from_bytes key' = Nibbles.from_bytes key)) as [He|He].
  - apply key_inj in He as ->; [|done..]. by rewrite decide_True.
  - by rewrite decide_False by (intros ->; done).
Qed.

(** C15: a trie whose nodes are all in memory implements a map, up to the nodes
    its insertions lose.  A new trie is empty.  An insertion succeeds, keeps the
    trie well formed and, if no node of the result is replaced by its hash
    (which happens to every inner node of 32 encoded bytes or more), updates
    the map at its key and nowhere else; if one is, then over a database that
    holds honest nodes each lookup still gives what the map gives or fails with
    [KeyNotFound].  A deletion succeeds, returns whether the key had a value,
    removes it and nothing else, and keeps all nodes in memory: no node gets a
    longer encoding.  One unit of fuel per node of the longest path is enough. *)
Theorem memory_trie_refines_map {D} `{Database D} (t : PatriciaTrie D) m key value fuel :
  trie_ok t -> stores t m -> key_ok key -> (S (height (root t)) < fuel)%nat ->
  (trie_ok (trie_new (db t)) /\ stores (trie_new (db t)) (fun _ => None)) /\
  (exists t', trie_insert fuel key value t = (Ok tt, t') /\ db t' = db t /\ wf_node (root t') /\
     (in_memory (root t') = true -> stores t' (fun k => if decide (k = key) then Some value else m k)) /\
     (db_sound (db t) -> forall k, key_ok k -> exists N, forall f, (N <= f)%nat ->
        trie_get f k t' = Ok (if decide (k = key) then Some value else m k) \/ trie_get f k t' = Err KeyNotFound)) /\
  (exists t', trie_delete fuel key t = (Ok (bool_decide (is_Some (m key))), t') /\ db t' = db t /\ trie_ok t' /\
     stores t' (fun k => if decide (k = key) then None else m k)).
Proof.
  intros Hok Hs Hk Hf. pose proof Hok as [Hw Hm]. destruct (key_nibbles key Hk) as [Hn Hl]. split_and!.
  - split; [constructor|done].
  - intros k [|f] _ Hfuel; [simpl in Hfuel; lia|done].
  - destruct (insert_total fuel (root t) [] (Nibbles.from_bytes key) value) as [n' Hi]; [done..|].
    exists (mkTrie (db t) n' None). split_and!; [|done| | |].
    + unfold trie_insert, sbind, sget, slift, sput. simpl in Hi. change (len (@nil Z)) with 0 in Hi. by rewrite (Hi D _ (db t)).
    + apply (insert_wf db_new fuel (root t) [] (Nibbles.from_bytes key) value); [apply db_new_sound|done..|apply Hi].
    + simpl. intros Hm'. apply updates_stores; [done..| |done|].
      * apply (insert_wf db_new fuel (root t) [] (Nibbles.from_bytes key) value); [apply db_new_sound|done..|apply Hi].
      * apply (insert_updates db_new fuel (root t) [] _ value); [apply db_new_sound|done|apply Hi].
    + intros Hd k Hk'. apply updates_get; [done..| |].
      * apply (insert_updates (db t) fuel (root t) [] _ value); [apply Hd|done|apply Hi].
      * apply (trie_get_reads t (S (height (root t)))); [done|]. apply Hs; [done|lia].
  - destruct (delete_total fuel (root t) [] (Nibbles.from_bytes key)) as (n' & b & Hd & Hm' & Hw' & _); [done..|lia|done|done|].
    destruct (delete_spec db_new fuel (root t) [] (Nibbles.from_bytes key) n' b) as [_ _ Hu Hfound];
      [apply db_new_sound|done|done|apply Hd|].
    destruct (memory_reads (root t) key Hw Hm Hk) as (v & Hv & Hget).
    assert (m key = v) as Hmv.
    { specialize (Hs key fuel Hk). unfold trie_get in Hs. rewrite (Hget D _ (db t)) in Hs by lia.
      assert (Ok (E := TrieError) v = Ok (m key)) by (apply Hs; lia). congruence. }
    destruct (Hfound _ Hv) as (o & [= <-] & ->). rewrite Hmv.
    exists (mkTrie (db t) n' None). split_and!; [|done|done|by apply updates_stores].
    unfold trie_delete, sbind, sget, slift, sput, sret. simpl in Hd. change (len (@nil Z)) with 0 in Hd.
    by rewrite (Hd D _ (db t)).
Qed.

(** over any sound database a successful update never makes a lookup wrong.
    Where the trie answered before, it answers after an insertion or a deletion
    with the value the update gives the key, or with [KeyNotFound] when a node
    on the path is not in the database; a deletion reports whether the key had a
    value; a failed update leaves the trie as it was. *)
Theorem trie_updates_never_lie {D} `{Database D} (t t' : PatriciaTrie D) key key' value v fuel fuel' :
  db_sound (db t) -> wf_node (root t) -> key_ok key -> key_ok key' -> trie_get fuel' key' t = Ok v ->
  (trie_insert fuel key value t = (Ok tt, t') -> exists N, forall f, (N <= f)%nat ->
     trie_get f key' t' = Ok (if decide (key' = key) then Some value else v) \/
     trie_get f key' t' = Err KeyNotFound) /\
  (forall b, trie_delete fuel key t = (Ok b, t') ->
     (key' = key -> b = bool_decide (is_Some v)) /\
     exists N, forall f, (N <= f)%nat ->
       trie_get f key' t' = Ok (if decide (key' = key) then None else v) \/
       trie_get f key' t' = Err KeyNotFound) /\
  (forall e, trie_insert fuel key value t = (Err e, t') -> t' = t) /\
  (forall e, trie_delete fuel key t = (Err e, t') -> t' = t).
Proof.
  intros Hd Hw Hk Hk' Hg. pose proof (trie_get_reads t fuel' key' v Hk' Hg) as Hr.
  destruct (key_nibbles key Hk) as [Hn Hl].
  unfold trie_insert, trie_delete, sbind, sget, slift, sput, sret. split_and!.
  - intros Hi. destruct (insert_at_node _ _ _ _ _ _) as [n'| | |] eqn:Hn'; simplify_eq.
    apply (updates_get t n' None key (Some value) key' v); [done..| |done].
    by apply (insert_updates (db t) fuel (root t) [] (Nibbles.from_bytes key) value); [apply Hd|..].
  - intros b Hi. destruct (delete_at_node _ _ _ _ _) as [[n' b']| | |] eqn:Hn'; simplify_eq.
    destruct (delete_spec (db t) fuel (root t) [] (Nibbles.from_bytes key) n' b) as [_ _ Hu Hf]; [done..|]. split.
    + intros ->. destruct (Hf _ Hr) as (o & [= <-] & ->). done.
    + by apply (updates_get t n' None key None key' v).
  - intros e Hi. destruct (insert_at_node _ _ _ _ _ _); by simplify_eq.
  - intros e Hi. destruct (delete_at_node _ _ _ _ _) as [[]| | |]; by simplify_eq.
Qed.
End memory.

(** ** On concrete tries *)

#[local] Existing Instance list_methods.
#[local] Existing Instance list_methods_laws.

Lemma key_ok_byte b : byte b -> key_ok [b].
Proof. intros Hb. split; [by apply Forall_singleton|done]. Qed.
(** A trie with one key. *)
Definition one_key : PatriciaTrie MemoryDatabase := mkTrie db_new (Leaf [1; 2] [9]) None.
Definition one_map (k : list Z) : option (list Z) := if decide (k = [0x12]) then Some [9] else None.
Lemma one_key_ok : trie_ok one_key.
Proof. split; [|done]. constructor. repeat constructor; unfold Nibbles.nibble; lia. Qed.
Lemma one_key_stores (P : Profile) : stores one_key one_map.
Proof.
  intros key [|fuel] Hk Hf; [simpl in Hf; lia|]. unfold trie_get, one_key, one_map. cbn [root db get_at_node].
  rewrite slice_from_zero. cbn [obind].
  assert (Hb : key_ok [0x12]) by (apply key_ok_byte; unfold byte; lia).
  change [1; 2] with (Nibbles.from_bytes [0x12]). case_bool_decide as He; case_decide as Hd; try done.
  - destruct Hd. by apply key_inj.
  - by rewrite Hd in He.
Qed.

Lemma memory_trie_refines_map_witness :
  exists t', trie_insert (H1 := dev_profile) 3 [0x13] [7] one_key = (Ok tt, t') /\
    trie_get (H1 := dev_profile) 3 [0x12] t' = Ok (Some [9]) /\ trie_get (H1 := dev_profile) 3 [0x13] t' = Ok (Some [7]).
Proof.
  destruct (memory_trie_refines_map (H2 := dev_profile) one_key one_map [0x13] [7] 3 one_key_ok (one_key_stores _)
    (key_ok_byte 0x13 ltac:(unfold byte; lia)) ltac:(simpl; lia)) as (_ & (t' & Hi & _ & _ & Hs & _) & _).
  exists t'. split; [exact Hi|]. vm_compute in Hi. injection Hi as <-. specialize (Hs eq_refl).
  split; apply Hs; solve [apply key_ok_byte; unfold byte; lia|simpl; lia].
Defined.

Lemma trie_updates_never_lie_witness :
  exists t', trie_delete (H1 := dev_profile) 3 [0x12] one_key = (Ok true, t') /\
    exists N, forall f, (N <= f)%nat ->
      trie_get (H1 := dev_profile) f [0x13] t' = Ok None \/ trie_get (H1 := dev_profile) f [0x13] t' = Err KeyNotFound.
Proof.
  exists (mkTrie db_new Empty None). split; [by vm_compute|].
  destruct (trie_updates_never_lie (H2 := dev_profile) one_key (mkTrie db_new Empty None) [0x12] [0x13] [7] None 3 3
    db_new_sound (proj1 one_key_ok) (key_ok_byte 0x12 ltac:(unfold byte; lia)) (key_ok_byte 0x13 ltac:(unfold byte; lia)))
    as (_ & Hd & _); [by vm_compute|].
  exact (proj2 (Hd true ltac:(by vm_compute))).
Defined.

(** The keys and values of [test_multiple_inserts] in trie.rs: "test", "test2"
    and "test3". *)
Definition test_key : list Z := [116; 101; 115; 116].
Definition test_trie `{KeccakOps} `{Profile} : outcome TrieError unit * PatriciaTrie MemoryDatabase :=
  (trie_insert 20 test_key [1; 2; 3] ;;!
   trie_insert 20 (test_key ++ [50]) [4; 5; 6] ;;!
   trie_insert 20 (test_key ++ [51]) [7; 8; 9]) (trie_new db_new).

(** an insertion loses the nodes it replaces by a hash.  [from_node] keeps a
    node whose encoding has 32 bytes or more only by its hash, and nothing puts
    the node into the database: neither the insertion nor [commit], which walks
    inline children only.  With the three keys of the repository's own test every
    insertion succeeds, and then no lookup does; a commit writes the root alone. *)
Theorem trie_loses_large_nodes `{KeccakOps} `{Profile} :
  (forall k, k ∈ [test_key; test_key ++ [50]; test_key ++ [51]] ->
     trie_get 20 k (test_trie).2 = Err KeyNotFound) /\
  (test_trie).1 = Ok tt /\ in_memory (root (test_trie).2) = false /\
  exists e, encode_raw (root (test_trie).2) = Ok e /\
    commit_node (root (test_trie).2) [] = Ok (if 32 <=? len e then [Put (node_key (keccak256 e)) e] else []).
Proof.
  split_and!; [|by vm_compute|by vm_compute|].
  - intros k Hk. repeat (apply elem_of_cons in Hk as [->|Hk]; [by vm_compute|]). by apply elem_of_nil in Hk.
  - assert (exists k h, root (test_trie).2 = Extension k (Hash h)) as (k & h & ->) by (do 2 eexists; vm_compute; reflexivity).
    exists (node_bytes (Extension k (Hash h))). split; [apply encode_raw_eq|]. apply commit_by_hash.
Qed.
End TrieProps.
