(* ===== verification/TrieCodec.v ===== *)
(** Nodes as bytes, commits and Merkle proofs: what decoding makes of an encoded
    node, and for which nodes it is the node itself; a committed trie is read back by
    its root hash; a generated proof is accepted for the value of the key and
    for no other, and what the verifier accepts beyond that. *)
From stdpp Require Import base list numbers option gmap.
From Stdlib Require Import ZArith Lia.
From S2P Require Import Prelude U256 Rlp RlpProofs Storage Nibbles Trie TrieProofs TrieProps.

Module TrieCodec.
Import Trie TrieProofs TrieProps.

(** * Decoding *)

(** What decoding makes of a path: one of even length loses a last nibble 0,
    which is taken for padding. *)
Definition strip (k : list Z) : list Z :=
  if (len k mod 2 =? 0) && bool_decide (list.last k = Some 0) then take (length k - 1) k else k.
(** A path that the compact form keeps: not of even length with a last nibble 0. *)
Definition kept (k : list Z) : Prop :=
  Forall Nibbles.nibble k /\ (len k mod 2 = 0 -> list.last k <> Some 0).
Lemma compact_strip k leaf : Forall Nibbles.nibble k ->
  bytes (compact k leaf) /\ Nibbles.decode_compact (compact k leaf) = Ok (strip k, leaf).
Proof.
  intros Hk. destruct (Nibbles.compact_decodes k leaf Hk) as (e & He & Hb & Hd). unfold compact. by rewrite He.
Qed.
Lemma strip_kept k : Forall Nibbles.nibble k -> strip k = k <-> kept k.
Proof.
  intros Hk. unfold strip, kept. destruct (Z.eqb_spec (len k mod 2) 0) as [He|Ho]; cbn [andb]; [|naive_solver].
  case_bool_decide as Hz; [|naive_solver]. split; [|naive_solver]. intros Ht%(f_equal length).
  destruct k as [|x k]; [done|]. rewrite length_take in Ht. simpl in Ht. lia.
Qed.

(** Nodes with fields in range, none of them inside empty. *)
Inductive storable : Node -> Prop :=
| storable_leaf k v : Forall Nibbles.nibble k -> bytes v -> storable (Leaf k v)
| storable_extension k r : Forall Nibbles.nibble k -> (forall h, r = Hash h -> bytes h /\ len h = 32) ->
    (forall m, r = Inline m -> storable m /\ len (node_bytes m) < 32) -> storable (Extension k r)
| storable_branch cs v : length cs = 16%nat ->
    (forall i h, cs !! i = Some (Some (Hash h)) -> bytes h /\ len h = 32) ->
    (forall i m, cs !! i = Some (Some (Inline m)) -> storable m /\ len (node_bytes m) < 32) ->
    (forall w, v = Some w -> bytes w) -> storable (Branch cs v).
(** What a node is after it has been written and read: its paths are stripped,
    and an empty value in a branch is none. *)
Fixpoint reread (n : Node) : Node :=
  match n with
  | Empty => Empty
  | Leaf k v => Leaf (strip k) v
  | Extension k r => Extension (strip k) (match r with Hash h => Hash h | Inline m => Inline (reread m) end)
  | Branch cs v =>
      Branch (map (fun c => match c with Some (Inline m) => Some (Inline (reread m)) | c => c end) cs)
        (match v with Some [] => None | v => v end)
  end.
Definition reread_ref (r : NodeRef) : NodeRef := match r with Hash h => Hash h | Inline m => Inline (reread m) end.
Lemma reread_branch cs v :
  reread (Branch cs v) = Branch (map (fmap reread_ref) cs) (match v with Some [] => None | v => v end).
Proof. cbn [reread]. f_equal. apply map_ext. by intros [[]|]. Qed.
(** Nodes that come back as they were. *)
Inductive codable : Node -> Prop :=
| codable_leaf k v : kept k -> bytes v -> codable (Leaf k v)
| codable_extension k r : kept k -> (forall h, r = Hash h -> bytes h /\ len h = 32) ->
    (forall m, r = Inline m -> codable m /\ len (node_bytes m) < 32) -> codable (Extension k r)
| codable_branch cs v : length cs = 16%nat ->
    (forall i h, cs !! i = Some (Some (Hash h)) -> bytes h /\ len h = 32) ->
    (forall i m, cs !! i = Some (Some (Inline m)) -> codable m /\ len (node_bytes m) < 32) ->
    (forall w, v = Some w -> bytes w /\ w <> []) -> codable (Branch cs v).
Lemma codable_storable n : codable n -> storable n.
Proof.
  induction n as [|k v|k h|k m IH|cs v IH] using node_ind'; intros Hc; inversion Hc as [? ? [? ?]|? ? [? ?] ? Hm|? ? ? ? Hm Hv]; subst; constructor; try done.
  - intros m' [= <-]. destruct (Hm m eq_refl). auto.
  - intros i m Hi. destruct (Hm i m Hi). split; [by apply (IH i)|done].
  - intros w ->. by apply Hv.
Qed.
(** An equation of nodes is one of their fields. *)
Ltac fields := cbn [reread]; split; intros; destruct_and?; split_and?; congruence.
Lemma reread_codable n : storable n -> reread n = n <-> codable n.
Proof.
  induction n as [|k v|k h|k m IH|cs v IH] using node_ind'; intros Hs; inversion Hs as [? ? Hk|? ? Hk ? Hm|? ? Hlen Hh Hm Hv]; subst.
  - transitivity (strip k = k); [fields|]. rewrite strip_kept by done. split; [by constructor|by inversion 1].
  - transitivity (strip k = k); [fields|]. rewrite strip_kept by done. split; [by constructor|by inversion 1].
  - destruct (Hm m eq_refl) as [Hsm Hlm]. transitivity (strip k = k /\ reread m = m); [fields|]. rewrite strip_kept, IH by done.
    split; [intros []; constructor; [done|done|by intros ? [= <-]]|]. inversion 1 as [|? ? ? _ Hc|]. by destruct (Hc m eq_refl).
  - rewrite reread_branch. transitivity (map (fmap reread_ref) cs = cs /\ match v with Some [] => None | v => v end = v); [fields|]. split.
    + intros [Hcs Hval]. constructor; [done|done| |].
      * intros i m Hi. destruct (Hm i m Hi) as [Hsm ?]. split; [|done]. apply (IH i m Hi Hsm).
        apply (f_equal (.!! i)) in Hcs. rewrite list_lookup_fmap, Hi in Hcs. cbn in Hcs. congruence.
      * intros w ->. split; [by apply Hv|]. by intros ->.
    + inversion 1 as [| |? ? _ _ Hc Hv']; subst. split.
      * apply list_eq. intros i. rewrite list_lookup_fmap. destruct (cs !! i) as [[[h|m]|]|] eqn:Hi; try done.
        destruct (Hm i m Hi) as [Hsm _]. cbn. do 3 f_equal. apply (IH i m Hi Hsm). by apply (Hc i).
      * destruct v as [[|]|]; try done. by destruct (Hv' [] eq_refl).
Qed.

(** A decoder that has read [pre] and has [rest] in front of it. *)
Definition cut (pre rest : list Z) : Decoder := mkDecoder (pre ++ rest) (len pre).

Section decoding.
Context `{RlpListLaws} `{KeccakOps} `{Profile}.

Lemma read_string pre b rest : bytes b -> len (pre ++ string_bytes b ++ rest) < 2 ^ 32 ->
  dlift decode_bytes (cut pre (string_bytes b ++ rest)) = (Ok b, cut (pre ++ string_bytes b) rest).
Proof.
  intros Hb Hl. unfold dlift, cut. rewrite !len_app in Hl. pose proof (len_nonneg pre). pose proof (len_nonneg rest).
  pose proof (string_len_bounds b). unfold string_len in *.
  pose proof (decode_bytes_parses b Hb ltac:(lia) pre rest) as Hd. unfold before, after in Hd.
  fold (string_bytes b) in Hd. rewrite Hd by (rewrite !len_app; unfold isize_max; lia).
  simpl. by rewrite <- app_assoc, !len_app.
Qed.
Lemma decode_ref_eq decode r : (forall h, r = Hash h -> bytes h /\ len h = 32) ->
  (forall m, r = Inline m -> len (node_bytes m) < 32 /\ decode (node_bytes m) = Ok (reread m)) ->
  decode_ref decode (ref_bytes r) = Ok (reread_ref r) /\ ref_bytes r <> [].
Proof.
  intros Hh Hm. unfold decode_ref. destruct r as [h|m]; simpl.
  - destruct (Hh h eq_refl) as [_ ->]. split; [done|]. destruct (Hh h eq_refl) as [_ Hl]. by intros ->.
  - destruct (Hm m eq_refl) as [Hl ->]. rewrite (proj2 (Z.eqb_neq _ _)) by lia. split; [done|].
    destruct (node_bytes_first m) as (x & l & -> & _). done.
Qed.
Lemma read_children decode pre cs rest :
  (forall i c, cs !! i = Some c -> bytes (child_bytes c) /\
     forall r, c = Some r -> decode (ref_bytes r) = Ok (reread_ref r) /\ ref_bytes r <> []) ->
  len (pre ++ payload_of (map child_bytes cs) ++ rest) < 2 ^ 32 ->
  decode_children decode (length cs) (cut pre (payload_of (map child_bytes cs) ++ rest)) =
  (Ok (map (fmap reread_ref) cs), cut (pre ++ payload_of (map child_bytes cs)) rest).
Proof.
  revert pre. induction cs as [|c cs IH]; intros pre Hc Hl.
  - simpl. unfold sret, payload_of. simpl. by rewrite app_nil_r.
  - change (payload_of (map child_bytes (c :: cs))) with (string_bytes (child_bytes c) ++ payload_of (map child_bytes cs)) in *.
    rewrite <- app_assoc in *. cbn [length decode_children]. destruct (Hc 0%nat c eq_refl) as [Hb Hr].
    erewrite sbind_ok; [|by apply read_string].
    erewrite (sbind_ok _ _ _ (reread_ref <$> c)); [|destruct c as [r|]; [|done]].
    + erewrite sbind_ok; [|apply IH; [intros i c' Hi; by apply (Hc (S i))|by rewrite <- !app_assoc]].
      unfold sret. by rewrite <- app_assoc.
    + destruct (Hr r eq_refl) as [Hd Hne]. change (child_bytes (Some r)) with (ref_bytes r).
      destruct (ref_bytes r) as [|x l] eqn:He; [done|]. unfold slift. erewrite sbind_ok; [done|]. by rewrite Hd.
Qed.

(** After the header of a node. *)
Lemma read_header items : Forall bytes items -> len (list_bytes items) < 2 ^ 32 ->
  dlift decode_list_header (decoder_new (list_bytes items)) =
  (Ok (len items), cut (list_header (len (payload_of items))) (payload_of items)).
Proof. intros Hi Hl. unfold dlift. by rewrite list_reads. Qed.

Lemma node_bytes_are_bytes n : storable n -> len (node_bytes n) < 2 ^ 32 -> bytes (node_bytes n).
Proof.
  assert (Hlist : forall items, Forall bytes items -> len (list_bytes items) < 2 ^ 32 -> bytes (list_bytes items)).
  { intros items Hi Hl. unfold list_bytes in *. apply bytes_app. split; [apply list_header_bytes, len_nonneg|].
    assert (Hp : len (payload_of items) < 2 ^ 32)
      by (rewrite len_app in Hl; pose proof (len_nonneg (list_header (len (payload_of items)))); lia).
    clear Hl.
    induction Hi as [|b items Hb Hi IH]; [constructor|]. unfold payload_of in *. simpl in *.
    rewrite len_app in Hp. pose proof (len_nonneg (concat (map string_bytes items))).
    pose proof (len_nonneg (string_bytes b)). apply bytes_app. split; [|apply IH; lia].
    pose proof (string_len_bounds b). unfold string_len in *.
    apply bytes_app. split; [apply string_header_bytes; lia|done]. }
  intros Hc. induction n as [|k v|k h|k m IH|cs v IH] using node_ind'; intros Hl.
  - inversion Hc.
  - inversion Hc; subst. apply Hlist; [|done]. repeat (apply Forall_cons; split); [by apply compact_strip|done|done].
  - inversion Hc as [|? ? Hk Hh _|]; subst. apply Hlist; [|done].
    repeat (apply Forall_cons; split); [by apply compact_strip|by apply Hh|done].
  - inversion Hc as [|? ? Hk _ Hm|]; subst. destruct (Hm m eq_refl) as [Hcm Hlm]. apply Hlist; [|done].
    repeat (apply Forall_cons; split); [by apply compact_strip|apply IH; [done|lia]|done].
  - inversion Hc as [| |? ? Hlen Hh Hm Hv]; subst. rewrite node_bytes_branch in *. apply Hlist; [|done].
    apply Forall_app. split; [|apply Forall_singleton; destruct v as [w|]; [by apply (Hv w)|constructor]].
    apply Forall_forall. intros b Hb. apply list_elem_of_fmap in Hb as (c & -> & Hc').
    apply list_elem_of_lookup in Hc' as [i Hi]. destruct c as [[h|m]|]; [by apply (Hh i h)| |constructor].
    destruct (Hm i m Hi). apply (IH i m Hi); [done|lia].
Qed.

(** A node inside another is shorter. *)
Lemma inner_len_ext k m : len (node_bytes m) < len (node_bytes (Extension k (Inline m))).
Proof.
  rewrite ext_len. cbn [ref_bytes]. pose proof (string_len_bounds (node_bytes m)).
  pose proof (string_len_bounds (compact k false)). unfold framed.
  pose proof (prefix_len_mono (string_len (compact k false) + string_len (node_bytes m)) _ (Z.le_refl _)). lia.
Qed.
Lemma inner_len_branch cs v i m : cs !! i = Some (Some (Inline m)) -> len (node_bytes m) < len (node_bytes (Branch cs v)).
Proof.
  intros Hi. rewrite branch_len. pose proof (children_len_min cs i _ Hi) as Hmin. apply lookup_lt_Some in Hi.
  change (child_bytes (Some (Inline m))) with (node_bytes m) in Hmin.
  pose proof (string_len_bounds (node_bytes m)). pose proof (string_len_bounds (default [] v)). unfold framed.
  pose proof (prefix_len_mono (children_len cs + string_len (default [] v)) _ (Z.le_refl _)). unfold len in Hmin at 1. lia.
Qed.

(** The two shapes of a node, after the header. *)
Lemma read_pair decode pre k leaf b : Forall Nibbles.nibble k -> bytes b -> len (pre ++ payload_of [compact k leaf; b]) < 2 ^ 32 ->
  (decode_pair decode (cut pre (payload_of [compact k leaf; b]))).1 =
  if leaf then Ok (Leaf (strip k) b) else let? r := decode_ref decode b in Ok (Extension (strip k) r).
Proof.
  intros Hk Hb Hl. destruct (compact_strip k leaf Hk) as [Hcb Hcd]. unfold decode_pair.
  change (payload_of [compact k leaf; b]) with (string_bytes (compact k leaf) ++ string_bytes b ++ []) in *.
  erewrite sbind_ok; [|by apply read_string]. unfold slift. erewrite sbind_ok; [|by rewrite Hcd].
  assert (Hs : dlift decode_bytes (cut (pre ++ string_bytes (compact k leaf)) (string_bytes b ++ [])) =
    (Ok b, cut ((pre ++ string_bytes (compact k leaf)) ++ string_bytes b) [])).
  { apply read_string; [done|]. by rewrite <- app_assoc. }
  destruct leaf.
  - by erewrite sbind_ok.
  - erewrite sbind_ok; [|done]. unfold sbind. by destruct (decode_ref decode b).
Qed.
Lemma read_branch decode pre cs v : length cs = 16%nat ->
  (forall i c, cs !! i = Some c -> bytes (child_bytes c) /\
     forall r, c = Some r -> decode_ref decode (ref_bytes r) = Ok (reread_ref r) /\ ref_bytes r <> []) ->
  (forall w, v = Some w -> bytes w) ->
  len (pre ++ payload_of (map child_bytes cs ++ [default [] v])) < 2 ^ 32 ->
  (decode_branch decode (cut pre (payload_of (map child_bytes cs ++ [default [] v])))).1 = Ok (reread (Branch cs v)).
Proof.
  intros Hlen Hc Hv Hl. rewrite reread_branch. unfold decode_branch. rewrite payload_snoc in *. rewrite <- Hlen.
  erewrite sbind_ok; [|by apply read_children].
  erewrite sbind_ok; [|rewrite <- (app_nil_r (string_bytes _)); apply read_string].
  - by destruct v as [[|]|].
  - destruct v as [w|]; [by apply (Hv w)|constructor].
  - by rewrite app_nil_r, <- app_assoc.
Qed.

Lemma decode_raw_list fuel items : Forall bytes items -> len (list_bytes items) < 2 ^ 32 ->
  decode_raw (S fuel) (list_bytes items) =
  ((if len items =? 2 then decode_pair (decode_raw fuel)
    else if len items =? 17 then decode_branch (decode_raw fuel)
    else sfail InvalidNode) (cut (list_header (len (payload_of items))) (payload_of items))).1.
Proof.
  intros Hi Hl. cbn [decode_raw]. destruct (list_bytes items) as [|x l] eqn:He.
  - exfalso. unfold list_bytes in He. apply app_eq_nil in He as [He _]. unfold list_header in He. by revert He; case_bool.
  - rewrite <- He in *. by erewrite sbind_ok; [|by apply read_header].
Qed.

Lemma decode_raw_pair fuel k leaf b : Forall Nibbles.nibble k -> bytes b -> len (list_bytes [compact k leaf; b]) < 2 ^ 32 ->
  decode_raw (S fuel) (list_bytes [compact k leaf; b]) =
  if leaf then Ok (Leaf (strip k) b) else let? r := decode_ref (decode_raw fuel) b in Ok (Extension (strip k) r).
Proof.
  intros Hk Hb Hl. rewrite decode_raw_list; [|repeat (apply Forall_cons; split); [by apply compact_strip|done|done]|done].
  exact (read_pair (decode_raw fuel) _ k leaf b Hk Hb Hl).
Qed.

Lemma decode_encode n : storable n -> len (node_bytes n) < 2 ^ 32 -> forall fuel, (length (node_bytes n) < fuel)%nat ->
  decode_raw fuel (node_bytes n) = Ok (reread n).
Proof.
  intros Hc. induction n as [|k v|k h|k m IH|cs v IH] using node_ind'; intros Hl [|fuel] Hf; try lia;
    [by inversion Hc|..].
  - inversion Hc; subst. cbn [node_bytes] in *.
    by rewrite decode_raw_pair.
  - inversion Hc as [|? ? Hk Hh _|]; subst. destruct (Hh h eq_refl) as [Hb H32]. cbn [node_bytes] in *.
    rewrite decode_raw_pair by done. unfold decode_ref. by rewrite H32.
  - inversion Hc as [|? ? Hk _ Hm|]; subst. destruct (Hm m eq_refl) as [Hcm Hlm].
    pose proof (inner_len_ext k m). assert (Hbm : bytes (node_bytes m)) by (apply node_bytes_are_bytes; [done|lia]).
    pose proof (IH Hcm ltac:(lia) fuel ltac:(unfold len in *; lia)) as Hd. cbn [node_bytes] in *.
    rewrite decode_raw_pair by done.
    unfold decode_ref. rewrite (proj2 (Z.eqb_neq _ _)) by lia. by rewrite Hd.
  - inversion Hc as [| |? ? Hlen Hh Hm Hv]; subst. pose proof (node_bytes_are_bytes _ Hc Hl) as Hbn.
    assert (Hcs : forall i c, cs !! i = Some c -> bytes (child_bytes c) /\
      forall r, c = Some r -> decode_ref (decode_raw fuel) (ref_bytes r) = Ok (reread_ref r) /\ ref_bytes r <> []).
    { intros i c Hi. split.
      - destruct c as [[h|m]|]; [by apply (Hh i h)| |constructor]. destruct (Hm i m Hi).
        apply (node_bytes_are_bytes m); [done|lia].
      - intros r ->. apply decode_ref_eq; [intros h ->; by apply (Hh i)|]. intros m ->. destruct (Hm i m Hi) as [Hcm Hlm].
        split; [done|]. pose proof (inner_len_branch cs v i m Hi). apply (IH i m Hi Hcm); unfold len in *; lia. }
    rewrite node_bytes_branch in *. rewrite decode_raw_list; [|apply Forall_app; split|done].
    + replace (len (map child_bytes cs ++ [default [] v])) with 17 by (unfold len; rewrite length_app, length_map, Hlen; done).
      apply read_branch; [done..|]. unfold list_bytes in Hl. done.
    + apply Forall_forall. intros b Hb. apply list_elem_of_fmap in Hb as (c & -> & Hc').
      apply list_elem_of_lookup in Hc' as [i Hi]. by apply (Hcs i).
    + apply Forall_singleton. destruct v as [w|]; [by apply (Hv w)|constructor].
Qed.

Lemma decode_node_encode n : codable n -> len (node_bytes n) < 2 ^ 32 -> decode_node (node_bytes n) = Ok n.
Proof.
  intros Hc Hl. pose proof (codable_storable n Hc) as Hs.
  rewrite <- (proj2 (reread_codable n Hs) Hc) at 2. apply decode_encode; [done..|lia].
Qed.
Lemma empty_unreadable : exists e, decode_node (node_bytes Empty) = Err e.
Proof.
  destruct string_is_no_list as [e He]. change (node_bytes Empty) with [0x80] in *. unfold decode_node. cbn [length decode_raw].
  unfold sbind at 1, dlift at 1. destruct (decode_list_header _) as [r d]. cbn in He. subst r. by eexists.
Qed.

(** C16: what becomes of an encoded node.  For every node with fields in range
    and no empty node inside, whose encoding is below the longest length a
    header can hold, the encoding consists of bytes, and decoding gives the node
    back with every path of even length that ends in a nibble 0 cut by that
    nibble and an empty value of a branch turned into none: the same node
    exactly when it has neither.  The reference [from_node] makes of such a node
    resolves to it: an inline node directly, a hash by the bytes stored under
    it.  The encoding of the empty node cannot be decoded. *)
Theorem node_codec_roundtrip n :
  (exists e, encode_raw Empty = Ok (node_bytes Empty) /\ decode_node (node_bytes Empty) = Err e) /\
  (storable n -> len (node_bytes n) < 2 ^ 32 ->
    encode_raw n = Ok (node_bytes n) /\ bytes (node_bytes n) /\ decode_node (node_bytes n) = Ok (reread n) /\
    (reread n = n <-> codable n) /\
    (codable n -> exists r, from_node n = Ok r /\
      match r with
      | Inline m => m = n
      | Hash h => forall e, encode_raw n = Ok e -> h = keccak256 e /\ decode_node e = Ok n
      end)).
Proof.
  split; [destruct empty_unreadable as [e He]; by exists e|]. intros Hs Hl.
  split_and!; [apply encode_raw_eq|by apply node_bytes_are_bytes|by apply decode_encode; [..|lia]|by apply reread_codable|].
  intros Hc. rewrite from_node_eq. eexists. split; [done|]. destruct (len (node_bytes n) <? 32); [done|].
  intros e He. rewrite encode_raw_eq in He. simplify_eq. split; [done|by apply decode_node_encode].
Qed.

(** * Commits *)

Definition commit_ops (n : Node) : list BatchOp :=
  if 32 <=? len (node_bytes n) then [Put (node_key (keccak256 (node_bytes n))) (node_bytes n)] else [].
Lemma commit_node_step n batch : commit_node n batch =
  match n with
  | Extension _ (Inline child) => commit_node child (batch ++ commit_ops n)
  | Branch children _ => commit_children commit_node children (batch ++ commit_ops n)
  | _ => Ok (batch ++ commit_ops n)
  end.
Proof.
  assert (Hhead : (let? encoded := encode_raw n in
    if 32 <=? len encoded then let? h := hash n in Ok (batch ++ [Put (node_key h) encoded]) else Ok batch) = Ok (batch ++ commit_ops n)).
  { unfold commit_ops, hash. rewrite encode_raw_eq. cbn [obind].
    destruct (Z.leb_spec 32 (len (node_bytes n))); [|by rewrite app_nil_r]. by rewrite (proj2 (Z.ltb_ge _ _)). }
  rewrite encode_raw_eq in Hhead. cbn [obind] in Hhead.
  destruct n; unfold commit_node; fold commit_node; rewrite encode_raw_eq; cbn [obind]; by rewrite Hhead.
Qed.
Lemma small_commits_nothing n : small n -> commit_ops n = [].
Proof. intros Hs%small_eq. unfold commit_ops. by rewrite (proj2 (Z.leb_gt _ _)). Qed.
(** The nodes kept inline are small, so a commit writes the root alone. *)
Lemma commit_node_eq n batch : wf_node n -> commit_node n batch = Ok (batch ++ commit_ops n).
Proof.
  revert batch. induction n as [|k v|k h|k m IH|cs v IH] using node_ind'; intros batch Hw;
    rewrite commit_node_step; try done.
  - inversion Hw as [| |? ? _ Hm|]; subst. destruct (Hm m eq_refl) as [Hwm Hs]. rewrite IH by done.
    by rewrite (small_commits_nothing m), app_nil_r.
  - inversion Hw as [| | |? ? _ Hm]; subst. clear Hw.
    generalize (batch ++ commit_ops (Branch cs v)) as b. clear batch.
    induction cs as [|c cs IHcs]; intros b; [done|].
    assert (Hrest : forall b, commit_children commit_node cs b = Ok b).
    { apply IHcs; intros i m Hi; [apply (IH (S i))|apply (Hm (S i))]; done. }
    destruct c as [[h|m]|]; [apply Hrest| |apply Hrest]. cbn [commit_children].
    destruct (Hm 0%nat m eq_refl) as [Hwm Hs]. rewrite (IH 0%nat m eq_refl) by done.
    rewrite (small_commits_nothing m), app_nil_r by done. apply Hrest.
Qed.

(** what is committed is read back by its root hash.  The commit of a
    well-formed trie whose root encodes to 32 bytes or more adds the root under
    the returned hash to the database and nothing else, and a trie opened with
    that hash has the same root.  A root with a shorter encoding is never
    written: the returned value is its padded encoding, and a trie cannot be
    opened with it, unless the database held the key before. *)
Theorem commit_reload {D} `{Database D} (ok : D -> Prop) view `{!DatabaseLaws D ok view} (t : PatriciaTrie D) :
  ok (db t) -> wf_node (root t) -> root_hash_cache t = None ->
  exists h t', commit t = (Ok h, t') /\ root t' = root t /\ ok (db t') /\
    if 32 <=? len (node_bytes (root t)) then
      h = keccak256 (node_bytes (root t)) /\
      view (db t') = <[node_key h := node_bytes (root t)]> (view (db t)) /\
      (codable (root t) -> len (node_bytes (root t)) < 2 ^ 32 ->
       new_with_root (db t') h = Ok (mkTrie (db t') (root t) (Some h)))
    else
      view (db t') = view (db t) /\
      (view (db t) !! node_key h = None -> new_with_root (db t') h = Err KeyNotFound).
Proof.
  intros Hok Hw Hcache. unfold commit, sbind, sget, slift, sput, root_hash, sret.
  rewrite commit_node_eq by done. cbn [lift_ok app].
  destruct (write_ops_law (commit_ops (root t)) (db t) Hok) as (d' & Hd & Hok' & Hview). rewrite Hd. simpl.
  unfold sbind, sget, slift, sput, sret. simpl. rewrite Hcache. unfold hash. rewrite encode_raw_eq. cbn [obind lift_ok].
  unfold commit_ops in Hview. destruct (Z.leb_spec 32 (len (node_bytes (root t)))) as [Hl|Hl].
  - rewrite (proj2 (Z.ltb_ge _ _)) by done. do 2 eexists. split_and!; [done..|].
    simpl in *. intros Hc Hsz. unfold new_with_root, load_node.
    rewrite (get_law _ _ Hok'), Hview, lookup_insert_eq. cbn [from_storage obind]. by rewrite decode_node_encode.
  - rewrite (proj2 (Z.ltb_lt _ _)) by done. do 2 eexists. split_and!; [done..|].
    simpl in *. intros Hno. unfold new_with_root, load_node.
    rewrite (get_law _ _ Hok'), Hview, Hno. done.
Qed.

(** * Merkle proofs *)

(** The bytes stored under a hash. *)
Definition load_data {D} `{Database D} (d : D) (h : list Z) : outcome TrieError (list Z) :=
  let? found := from_storage (Storage.get (node_key h) d) in
  match found with None => Err KeyNotFound | Some data => Ok data end.
Lemma proof_child_eq {D} `{Database D} (d : D) r : proof_child (load_data d) r = resolve_node_ref d r.
Proof.
  destruct r as [h|m]; [|done]. unfold load_data. simpl. unfold load_node.
  destruct (from_storage _) as [[data|]| | |]; done.
Qed.

Definition codable_sized (n : Node) : Prop := codable n /\ len (node_bytes n) < 2 ^ 32.
Lemma codable_resolved {D} `{Database D} (d : D) r n : (forall h m, load_node d h = Ok m -> codable_sized m) ->
  (forall m, r = Inline m -> codable m /\ len (node_bytes m) < 32) -> resolve_node_ref d r = Ok n -> codable_sized n.
Proof.
  intros Hd Hr Hres. destruct r as [h|m]; [by apply (Hd h)|]. simpl in Hres. simplify_eq.
  destruct (Hr n eq_refl). split; [done|lia].
Qed.

(** What a proof of the path below [n] is: it is collected, and read back. *)
Definition proves {D} `{Database D} (d : D) fuel n p k v ns : Prop :=
  (length ns < fuel)%nat /\
  (forall prf, collect_proof_nodes (load_data d) fuel n (p ++ k) (len p) prf =
     (Ok tt, mkProof (nodes prf ++ map node_bytes (n :: ns)))) /\
  (forall prf i, 0 <= i -> drop (Z.to_nat i) (nodes prf) = map node_bytes ns -> len (nodes prf) < isize_max ->
     verify_at_node fuel prf n (p ++ k) (len p) i = Ok v).

(** Every visited node goes into the proof first. *)
Lemma collect_first n rest prf : (let! encoded := slift (lift_ok (encode_raw n)) in add_node encoded ;;! rest) prf =
  rest (mkProof (nodes prf ++ [node_bytes n])) :> (outcome TrieError unit * MerkleProof).
Proof. unfold sbind, slift. by rewrite encode_raw_eq. Qed.
(** The child a proof goes on to. *)
Lemma resolve_in_proof {D} `{Database D} (d : D) prf i r n ns : resolve_node_ref d r = Ok n -> codable_sized n -> 0 <= i ->
  drop (Z.to_nat i) (nodes prf) = map node_bytes (n :: ns) -> len (nodes prf) < isize_max ->
  resolve_proof_node prf r i = Ok n /\ uadd (E := TrieError) 64 i 1 = Ok (i + 1) /\
  drop (Z.to_nat (i + 1)) (nodes prf) = map node_bytes ns.
Proof.
  intros Hr [Hc Hl] Hi Hd Hsz. cbn [map] in Hd.
  assert (Hlk : nodes prf !! Z.to_nat i = Some (node_bytes n)).
  { rewrite <- (Nat.add_0_r (Z.to_nat i)), <- lookup_drop, Hd. done. }
  pose proof (lookup_lt_Some _ _ _ Hlk) as Hlt. split_and!.
  - destruct r as [h|m]; simpl in *; [|done]. rewrite (proj2 (Z.leb_gt _ _)) by (unfold len; lia).
    rewrite (proj2 (index_spec _ _ _) (conj Hi Hlk)). cbn [obind]. by apply decode_node_encode.
  - apply checked_arith_ok. unfold uint, isize_max, len in *. lia.
  - replace (Z.to_nat (i + 1)) with (Z.to_nat i + 1)%nat by lia. rewrite <- drop_drop, Hd. done.
Qed.

Section proving.
Context {D : Type} `{Database D} (d : D).

Lemma proves_ext fuel ek r n p k v ns : resolve_node_ref d r = Ok n -> codable_sized n ->
  len ((p ++ ek) ++ k) < isize_max -> proves d fuel n (p ++ ek) k v ns ->
  proves d (S fuel) (Extension ek r) p (ek ++ k) v (n :: ns).
Proof.
  intros Hr Hn Hl (Hlen & Hcl & Hv). split_and!; [simpl; lia| |].
  - intros prf. cbn [collect_proof_nodes]. rewrite collect_first. unfold sbind, slift.
    rewrite slice_from_app. cbn [obind]. rewrite (proj2 (common_prefix_full _ _)) by (by eexists).
    rewrite Z.eqb_refl, proof_child_eq, Hr. rewrite app_assoc, (next_index p k ek) by (unfold isize_max in *; lia).
    rewrite Hcl. simpl. by rewrite <- app_assoc.
  - intros prf i Hi Hdr Hsz'. cbn [verify_at_node]. rewrite slice_from_app. cbn [obind].
    rewrite (proj2 (common_prefix_full _ _)) by (by eexists). rewrite Z.eqb_refl.
    destruct (resolve_in_proof d prf i r n ns) as (-> & Hu & Hdr'); [done..|].
    cbn [obind]. rewrite app_assoc, (next_index p k ek) by (unfold isize_max in *; lia). cbn [obind]. rewrite Hu. cbn [obind].
    apply Hv; [lia|done|done].
Qed.
Lemma proves_ext_other fuel ek r p k : (forall k', k <> ek ++ k') -> proves d (S fuel) (Extension ek r) p k None [].
Proof.
  intros Hno. assert (Hc : (Nibbles.common_prefix_len ek k =? len ek) = false).
  { apply Z.eqb_neq. intros Hcp. apply common_prefix_full in Hcp as [k' ->]. by destruct (Hno k'). }
  split_and!; [simpl; lia| |].
  - intros prf. cbn [collect_proof_nodes]. rewrite collect_first. unfold sbind, slift. rewrite slice_from_app. by rewrite Hc.
  - intros prf i _ _ _. cbn [verify_at_node]. rewrite slice_from_app. cbn [obind]. by rewrite Hc.
Qed.
Lemma proves_value fuel cs v p : proves d (S fuel) (Branch cs v) p [] v [].
Proof.
  split_and!; [simpl; lia| |].
  - intros prf. cbn [collect_proof_nodes]. rewrite collect_first, app_nil_r. by rewrite Z.ltb_irrefl.
  - intros prf i _ _ _. cbn [verify_at_node]. by rewrite at_end.
Qed.
Lemma before_end (p k : list Z) x : (len p <? len (p ++ x :: k)) = true.
Proof. apply Z.ltb_lt. rewrite len_app, len_cons. pose proof (len_nonneg k). lia. Qed.
Lemma proves_none fuel cs v p x k : index (E := TrieError) cs x = Ok None -> proves d (S fuel) (Branch cs v) p (x :: k) None [].
Proof.
  intros Hi. split_and!; [simpl; lia| |].
  - intros prf. cbn [collect_proof_nodes]. rewrite collect_first, before_end. unfold sbind, slift. rewrite get_app. cbn [unwrap].
    by rewrite Hi.
  - intros prf i _ _ _. cbn [verify_at_node]. rewrite not_at_end, get_app. cbn [unwrap obind]. by rewrite Hi.
Qed.
Lemma proves_child fuel cs w x r n p k v ns : index (E := TrieError) cs x = Ok (Some r) ->
  resolve_node_ref d r = Ok n -> codable_sized n ->
  len ((p ++ [x]) ++ k) < isize_max -> proves d fuel n (p ++ [x]) k v ns ->
  proves d (S fuel) (Branch cs w) p (x :: k) v (n :: ns).
Proof.
  intros Hi Hr Hn Hl (Hlen & Hcl & Hv). split_and!; [simpl; lia| |].
  - intros prf. cbn [collect_proof_nodes]. rewrite collect_first, before_end. unfold sbind, slift. rewrite get_app.
    cbn [unwrap]. rewrite Hi, proof_child_eq, Hr. change (x :: k) with ([x] ++ k). rewrite app_assoc.
    change 1 with (len [x]). rewrite (next_index p k [x]) by (unfold isize_max in *; lia).
    rewrite Hcl. simpl. by rewrite <- app_assoc.
  - intros prf i Hi0 Hdr Hsz'. cbn [verify_at_node]. rewrite not_at_end, get_app. cbn [unwrap obind]. rewrite Hi. cbn [obind].
    destruct (resolve_in_proof d prf i r n ns) as (-> & Hu & Hdr'); [done..|]. rewrite Hu.
    change (x :: k) with ([x] ++ k). rewrite app_assoc. cbn [obind]. change 1 with (len [x]) at 1.
    rewrite (next_index p k [x]) by (unfold isize_max in *; lia). cbn [obind]. apply Hv; [lia|done|done].
Qed.

Lemma get_proves fuel n p k v : (forall h m, load_node d h = Ok m -> codable_sized m) ->
  codable_sized n -> len (p ++ k) < isize_max ->
  get_at_node fuel d n (p ++ k) (len p) = Ok v -> exists ns, proves d fuel n p k v ns.
Proof.
  intros Hd. revert n p k. induction fuel as [|fuel IH]; intros n p k [Hc Hsz] Hl Hg; [done|].
  assert (Hl' : len (p ++ k) < 2 ^ 64) by (unfold isize_max in *; lia).
  inversion Hc as [lk w Hk Hw|ek r Hk _ Hm|cs w Hlen _ Hm _]; subst.
  - exists []. cbn [get_at_node] in Hg. rewrite slice_from_app in Hg. cbn [obind] in Hg. split_and!; [simpl; lia| |].
    + intros prf. cbn [collect_proof_nodes]. by rewrite collect_first.
    + intros prf i _ _ _. cbn [verify_at_node]. by rewrite slice_from_app.
  - destruct (get_ext fuel d ek r p k Hl') as [(k' & -> & He)|[Hno He]]; rewrite He in Hg.
    + opened Hg. rewrite app_assoc in Hl. pose proof (codable_resolved d r r0 Hd Hm Hr) as Hc0.
      destruct (IH r0 (p ++ ek) k') as (ns & Hns); [done..|]. exists (r0 :: ns). by apply proves_ext.
    + simplify_eq. exists []. by apply proves_ext_other.
  - destruct k as [|x k].
    + cbn [get_at_node] in Hg. rewrite at_end in Hg. simplify_eq. exists []. apply proves_value.
    + rewrite get_branch in Hg by done. opened Hg. destruct r as [r|].
      * opened Hg. change (x :: k) with ([x] ++ k) in Hl. rewrite app_assoc in Hl.
        assert (Hc0 : codable_sized r0).
        { apply (codable_resolved d r r0 Hd); [|done]. intros m ->. apply index_spec in Hr as [_ Hx]. by apply (Hm _ m Hx). }
        destruct (IH r0 (p ++ [x]) k) as (ns & Hns); [done..|]. exists (r0 :: ns). by apply (proves_child fuel cs w x r).
      * simplify_eq. exists []. by apply proves_none.
Qed.
End proving.

Lemma empty_proof_fails {D} `{Database D} (d : D) fuel key : fuel <> O ->
  exists proof e, generate_proof (load_data d) fuel Empty key = Ok proof /\
    forall h expected, verify fuel proof h key expected = Err e.
Proof.
  intros Hf. destruct fuel as [|fuel]; [done|]. destruct empty_unreadable as [e He].
  exists (mkProof [node_bytes Empty]), e. split; [done|]. intros h expected. unfold verify. cbn [nodes]. by rewrite He.
Qed.

(** C17: proofs are complete for tries whose nodes survive their encoding: the
    root and the stored nodes are not empty, have no path of even length that
    ends in a nibble 0 and no empty value in a branch, and their encodings are
    below 2^32 bytes.  Where such a trie answers a lookup, a proof is generated,
    and the verifier accepts it for the hash of the root and the value of the
    key, absence included, and for no other root hash or value.  For the empty
    trie a proof is generated as well, and the verifier fails on it. *)
Theorem merkle_proof_complete {D} `{Database D} (t : PatriciaTrie D) key v fuel :
  (forall h n, load_node (db t) h = Ok n -> codable_sized n) -> codable_sized (root t) -> key_ok key ->
  Z.of_nat fuel < isize_max -> trie_get fuel key t = Ok v ->
  (exists proof root_hash, generate_proof (load_data (db t)) fuel (root t) key = Ok proof /\
    hash (root t) = Ok root_hash /\
    forall h expected, verify fuel proof h key expected =
      Ok (bool_decide (h = root_hash) && bool_decide (expected = v))) /\
  (exists proof e, generate_proof (load_data (db t)) fuel Empty key = Ok proof /\
    forall h expected, verify fuel proof h key expected = Err e).
Proof.
  intros Hd Hr Hk Hf Hg. split; [|apply empty_proof_fails; by destruct fuel]. destruct (key_nibbles key Hk) as [_ Hl].
  destruct (get_proves (db t) fuel (root t) [] (Nibbles.from_bytes key) v) as (ns & Hlen & Hc & Hv); [done..|].
  simpl in Hc, Hv. change (len (@nil Z)) with 0 in *. set (prf := mkProof (map node_bytes (root t :: ns))).
  assert (exists h0, hash (root t) = Ok h0) as [h0 Hh].
  { unfold hash. rewrite encode_raw_eq. cbn [obind]. destruct (_ <? _); by eexists. }
  exists prf, h0. split_and!; [unfold generate_proof; by rewrite Hc|done|]. intros h expected. unfold verify.
  cbn [nodes prf map]. destruct Hr as [Hcr Hlr]. rewrite decode_node_encode by done. cbn [obind]. rewrite Hh.
  cbn [lift_ok obind]. destruct (decide (h0 = h)) as [->|Hne].
  - rewrite !bool_decide_true by done. cbn [negb andb].
    rewrite (Hv prf 1); [|lia|done|unfold prf, len; simpl; rewrite length_map; lia]. cbn [obind].
    destruct v as [v|], expected as [e|]; simpl; try done. f_equal. apply bool_decide_ext. naive_solver.
  - by rewrite !bool_decide_false by congruence.
Qed.

(** C18: proofs are not sound.  The verifier never compares the hash in a
    reference with the node it reads for it, so below a reference by hash any
    value can be proved for any key: the root and a made-up leaf are accepted
    for the true root hash, whatever the hash in the reference and whatever the
    trie stores. *)
Theorem merkle_proof_forgeable cs w x h rest key forged root_hash :
  codable_sized (Branch cs w) -> cs !! Z.to_nat x = Some (Some (Hash h)) -> key_ok key ->
  Nibbles.from_bytes key = x :: rest -> codable_sized (Leaf rest forged) -> hash (Branch cs w) = Ok root_hash ->
  forall fuel, (2 <= fuel)%nat ->
    verify fuel (mkProof [node_bytes (Branch cs w); node_bytes (Leaf rest forged)]) root_hash key (Some forged) = Ok true.
Proof.
  intros [Hc Hs] Hx Hk Hn [Hcl Hsl] Hh [|[|fuel]] Hf; [lia|lia|]. destruct (key_nibbles key Hk) as [Hnib Hl].
  unfold verify. cbn [nodes]. rewrite decode_node_encode by done. cbn [obind]. rewrite Hh. cbn [lift_ok obind].
  rewrite bool_decide_true by done. cbn [negb]. rewrite Hn in *.
  assert (Hx0 : 0 <= x) by (apply Forall_cons_iff in Hnib as [[? _] _]; done).
  cbn [verify_at_node]. rewrite (not_at_end [] rest x : (0 =? len (x :: rest)) = false).
  change (Nibbles.get (x :: rest) 0) with (Some x). cbn [unwrap obind].
  rewrite (proj2 (index_spec cs x _) (conj Hx0 Hx)). cbn [obind resolve_proof_node nodes].
  change (index (E := TrieError) [node_bytes (Branch cs w); node_bytes (Leaf rest forged)] 1) with (Ok (E := TrieError) (node_bytes (Leaf rest forged))).
  change (len [node_bytes (Branch cs w); node_bytes (Leaf rest forged)] <=? 1) with false. cbn [obind].
  rewrite decode_node_encode by done. cbn [obind]. unfold uadd. rewrite !checked_arith_ok by (unfold uint; lia). cbn [obind].
  change (0 + 1) with (len [x]). rewrite (slice_from_app [x] rest : lift_ok (Nibbles.slice_from (x :: rest) (len [x])) = Ok rest).
  cbn [obind]. rewrite bool_decide_true by done. cbn [obind]. by rewrite bool_decide_true.
Qed.
End decoding.

(** ** On concrete nodes *)

#[local] Existing Instance list_methods.
#[local] Existing Instance list_methods_laws.

Lemma bytes_by_check l : forallb (fun b => (0 <=? b) && (b <? 256)) l = true -> bytes l.
Proof.
  intros Hl. apply Forall_forall. intros b Hb. rewrite forallb_forall in Hl.
  specialize (Hl b (proj1 (list_elem_of_In _ _) Hb)). unfold byte. lia.
Qed.
Lemma nibbles_by_check l : forallb (fun b => (0 <=? b) && (b <? 16)) l = true -> Forall Nibbles.nibble l.
Proof.
  intros Hl. apply Forall_forall. intros b Hb. rewrite forallb_forall in Hl.
  specialize (Hl b (proj1 (list_elem_of_In _ _) Hb)). unfold Nibbles.nibble. lia.
Qed.

(** A leaf that is hashed, and a trie with it. *)
Definition big_leaf : Node := Leaf [1; 2] (replicate 40 7).
Definition big_trie : PatriciaTrie MemoryDatabase := mkTrie db_new big_leaf None.
Lemma big_leaf_codable : codable_sized big_leaf.
Proof.
  split; [|by vm_compute]. constructor; [split; [by apply nibbles_by_check|done]|by apply bytes_by_check].
Qed.

Lemma node_codec_roundtrip_witness :
  decode_node (H1 := dev_profile) (node_bytes big_leaf) = Ok big_leaf.
Proof.
  destruct (node_codec_roundtrip (H2 := dev_profile) big_leaf) as (_ & Hn).
  destruct (Hn (codable_storable _ (proj1 big_leaf_codable)) (proj2 big_leaf_codable)) as (_ & _ & Hd & _). exact Hd.
Defined.
(** A branch with an empty value comes back without one. *)
Example empty_value_lost : decode_node (H1 := dev_profile) (node_bytes (Branch (replicate 16 None) (Some []))) =
  Ok (Branch (replicate 16 None) None).
Proof. by vm_compute. Qed.

Lemma commit_reload_witness :
  exists h t', commit big_trie = (Ok h, t') /\ h = keccak256 (node_bytes big_leaf) /\
    new_with_root (H1 := dev_profile) (db t') h = Ok (mkTrie (db t') big_leaf (Some h)).
Proof.
  destruct (commit_reload (H2 := dev_profile) db_ok contents big_trie) as (h & t' & Hc & _ & _ & Hif).
  - constructor.
  - constructor. by apply nibbles_by_check.
  - done.
  - destruct (32 <=? len (node_bytes (root big_trie))) eqn:E; [|by vm_compute in E]. destruct Hif as (Hh & _ & Hn).
    exists h, t'. split_and!; [done..|]. apply Hn; apply big_leaf_codable.
Defined.

Lemma no_nodes_codable h n : load_node (H1 := dev_profile) db_new h = Ok n -> codable_sized n.
Proof. done. Qed.
Lemma merkle_proof_complete_witness :
  exists proof h, generate_proof (H1 := dev_profile) (load_data db_new) 3 big_leaf [0x12] = Ok proof /\
    verify (H1 := dev_profile) 3 proof h [0x12] (Some (replicate 40 7)) = Ok true.
Proof.
  destruct (merkle_proof_complete (H2 := dev_profile) big_trie [0x12] (Some (replicate 40 7)) 3) as [(p & h & Hg & _ & Hv) _].
  - exact no_nodes_codable.
  - apply big_leaf_codable.
  - apply key_ok_byte. unfold byte. lia.
  - by vm_compute.
  - by vm_compute.
  - exists p, h. split; [exact Hg|]. rewrite Hv. by rewrite !bool_decide_true.
Defined.

(** The leaf of the key 0x10 is read back as another node: its proof is rejected. *)
Example zero_nibble_unprovable :
  match generate_proof (H1 := dev_profile) (load_data db_new) 3 (Leaf [1; 0] [9]) [0x10], hash (Leaf [1; 0] [9]) with
  | Ok proof, Ok h => verify (H1 := dev_profile) 3 proof h [0x10] (Some [9]) = Ok false
  | _, _ => False
  end.
Proof. by vm_compute. Qed.

(** A branch over a node that is only known by its hash. *)
Definition hash_children : list (option NodeRef) := <[1%nat := Some (Hash (replicate 32 0))]> (replicate 16 None).
Lemma merkle_proof_forgeable_witness : exists root_hash, hash (Branch hash_children None) = Ok root_hash /\
  forall fuel, (2 <= fuel)%nat ->
    verify (H1 := dev_profile) fuel (mkProof [node_bytes (Branch hash_children None); node_bytes (Leaf [5] [42])])
      root_hash [0x15] (Some [42]) = Ok true.
Proof.
  eexists. split; [unfold hash; rewrite encode_raw_eq; reflexivity|].
  apply (merkle_proof_forgeable (H2 := dev_profile) hash_children None 1 (replicate 32 0) [5] [0x15] [42]).
  - split; [|by vm_compute]. constructor; [done| | |done].
    + intros i h Hi. apply list_lookup_insert_Some in Hi as [(_ & Hh & _)|[_ Hi]];
        [|by apply lookup_replicate in Hi as [? _]]. simplify_eq. split; [by apply bytes_by_check|done].
    + intros i m Hi. apply list_lookup_insert_Some in Hi as [(_ & Hh & _)|[_ Hi]];
        [done|by apply lookup_replicate in Hi as [? _]].
  - done.
  - apply key_ok_byte. unfold byte. lia.
  - by vm_compute.
  - split; [|by vm_compute]. constructor; [split; [by apply nibbles_by_check|done]|by apply bytes_by_check].
  - unfold hash; rewrite encode_raw_eq; reflexivity.
Defined.

(** A leaf under the path 1,0 comes back under the path 1: the key 0x10 is
    gone after a commit. *)
Theorem reload_drops_zero_nibble `{Profile} :
  decode_node (node_bytes (Leaf (Nibbles.from_bytes [0x10]) (replicate 40 7))) = Ok (Leaf [1] (replicate 40 7)) /\
  trie_get 5 [0x10] (mkTrie db_new (Leaf [1] (replicate 40 7)) None) = Ok None.
Proof. split; by vm_compute. Qed.
End TrieCodec.
