(* ===== verification/Verkle.v ===== *)
(** Verkle trees: crates/verkle/src/node.rs, tree.rs, commitment.rs and
    proof.rs.

    A node is an extension (a stem of key bytes and a subtree), a branch of 256
    children or a leaf, with the commitment to its contents.  [VerkleTree] keeps
    the root, the commitment engine, a cache of values and counters; its locks
    are taken for a whole method, so a method is a function of the tree.
    Methods that walk down the tree take fuel, one unit per node on the path. *)
From stdpp Require Import base list numbers option strings pretty gmap.
From Stdlib Require Import ZArith Lia.
From S2P Require Import Prelude U256.

Module Verkle.

(** lib.rs *)
Inductive VerkleError :=
| InvalidKey (s : string)
| InvalidProof (s : string)
| NodeNotFound (s : string)
| MigrationFailed (s : string)
| CommitmentError (s : string)
| DatabaseError (s : string).

(** * node.rs and the data of commitment.rs *)

Inductive CommitmentType := IPA_commitment | KZG_commitment | Empty_commitment.
Record Commitment := mkCommitment { value : list Z; commitment_type : CommitmentType }.
Definition default_commitment : Commitment := mkCommitment [] Empty_commitment.

Inductive VerkleNode :=
| mkNode (node_type : NodeType) (commitment : Commitment) (depth : Z)
with NodeType :=
| Extension (stem : list Z) (suffix_tree : option VerkleNode)
| Branch (children : list (option VerkleNode)) (branch_value : option (list Z))
| Leaf (leaf_value : list Z).
Notation Children := (list (option VerkleNode)).

Definition node_type (n : VerkleNode) : NodeType := let '(mkNode t _ _) := n in t.
Definition commitment (n : VerkleNode) : Commitment := let '(mkNode _ c _) := n in c.
(** [node.node_type = ..] and [node.commitment = ..] *)
Definition set_type (t : NodeType) (n : VerkleNode) : VerkleNode := let '(mkNode _ c d) := n in mkNode t c d.
Definition set_commitment (c : Commitment) (n : VerkleNode) : VerkleNode := let '(mkNode t _ d) := n in mkNode t c d.

Definition new_extension (stem : list Z) : VerkleNode := mkNode (Extension stem None) default_commitment 0.
Definition new_branch : VerkleNode := mkNode (Branch (replicate 256 None) None) default_commitment 0.
Definition new_leaf (v : list Z) : VerkleNode := mkNode (Leaf v) default_commitment 0.
Definition is_leaf (n : VerkleNode) : bool := match node_type n with Leaf _ => true | _ => false end.
Definition is_branch (n : VerkleNode) : bool := match node_type n with Branch _ _ => true | _ => false end.
Definition is_extension (n : VerkleNode) : bool := match node_type n with Extension _ _ => true | _ => false end.

(** [impl Extension] and [impl Branch] *)
Definition with_suffix (suffix : VerkleNode) (n : NodeType) : NodeType :=
  match n with Extension stem _ => Extension stem (Some suffix) | n => n end.
Definition get_child {E} (children : Children) (i : Z) : outcome E (option VerkleNode) := index children i.
Definition remove_child {E} (children : Children) (i : Z) : outcome E (option VerkleNode * Children) :=
  let? child := index children i in Ok (child, <[Z.to_nat i := None]> children).
Definition child_count (children : Children) : Z := len (filter (fun c => is_Some c) children).
Definition branch_is_empty (children : Children) (v : option (list Z)) : bool :=
  bool_decide (v = None) && (child_count children =? 0).

Record NodePath := mkPath { path_nodes : list (VerkleNode * Z); path_key : list Z }.
Definition path_new (key : list Z) : NodePath := mkPath [] key.
Definition path_push (n : VerkleNode) (depth : Z) (p : NodePath) : NodePath :=
  mkPath (path_nodes p ++ [(n, depth)]) (path_key p).
Definition path_pop (p : NodePath) : option (VerkleNode * Z) * NodePath :=
  (last (path_nodes p), mkPath (take (length (path_nodes p) - 1) (path_nodes p)) (path_key p)).
Definition path_depth (p : NodePath) : Z := len (path_nodes p).
Definition path_is_empty (p : NodePath) : bool := path_depth p =? 0.

(** * commitment.rs *)

Inductive CommitmentScheme := IPA | KZG.
Record VerkleConfig := mkConfig {
  width : Z;
  key_length : Z;
  commitment_scheme : CommitmentScheme;
  enable_cache : bool;
  cache_size : Z;
}.
Definition default_config : VerkleConfig := mkConfig 256 32 IPA true 10000.

Record IPAParams := mkIPAParams { basis : list (list Z); ipa_domain_size : Z }.
Record KZGParams := mkKZGParams { g1_points : list (list Z); g2_points : list (list Z); kzg_domain_size : Z }.
Record VerkleCommitment := mkEngine {
  engine_config : VerkleConfig;
  ipa_params : option IPAParams;
  kzg_params : option KZGParams;
}.

Section engine.
Context `{Profile} `{KeccakOps}.

(** [vec[i % 32] = ((i / 32) as u8) + 1] *)
Definition basis_row (i : nat) : outcome VerkleError (list Z) :=
  let? x := uadd 8 (wrap 8 (Z.of_nat i / 32)) 1 in
  Ok (<[(i mod 32)%nat := x]> (replicate 32 0)).
Fixpoint basis_rows (l : list nat) : outcome VerkleError (list (list Z)) :=
  match l with
  | [] => Ok []
  | i :: l => let? row := basis_row i in let? rows := basis_rows l in Ok (row :: rows)
  end.
Definition ipa_params_new (w : Z) : outcome VerkleError IPAParams :=
  let? rows := basis_rows (seq 0 (Z.to_nat w)) in Ok (mkIPAParams rows w).
Definition kzg_params_new (w : Z) : outcome VerkleError KZGParams :=
  Ok (mkKZGParams (replicate (Z.to_nat w) (replicate 48 1)) (replicate (Z.to_nat w) (replicate 96 2)) w).
Definition engine_new (config : VerkleConfig) : outcome VerkleError VerkleCommitment :=
  match commitment_scheme config with
  | IPA => let? p := ipa_params_new (width config) in Ok (mkEngine config (Some p) None)
  | KZG => let? p := kzg_params_new (width config) in Ok (mkEngine config None (Some p))
  end.

(** [commitment_value[j] ^= basis[i][j].wrapping_mul(byte)] for every [j]. *)
Definition ipa_row (row : list Z) (b : Z) (acc : list Z) : list Z :=
  imap (fun j c => match row !! j with Some r => Z.lxor c (wrap 8 (r * b)) | None => c end) acc.
(** The loop over the bytes: one beyond the basis changes nothing. *)
Fixpoint ipa_loop (rows : list (list Z)) (data : list Z) (acc : list Z) : list Z :=
  match data, rows with
  | b :: data, row :: rows => ipa_loop rows data (ipa_row row b acc)
  | _, _ => acc
  end.
Definition compute_ipa_commitment (e : VerkleCommitment) (data : list Z) : outcome VerkleError Commitment :=
  match ipa_params e with
  | None => Err (CommitmentError "IPA params not initialized")
  | Some params => Ok (mkCommitment (ipa_loop (basis params) data (replicate 32 0)) IPA_commitment)
  end.
Definition compute_kzg_commitment (e : VerkleCommitment) (data : list Z) : outcome VerkleError Commitment :=
  match kzg_params e with
  | None => Err (CommitmentError "KZG params not initialized")
  | Some _ => Ok (mkCommitment (keccak256 data) KZG_commitment)
  end.
(** The [match] on the scheme every [compute_] method ends with. *)
Definition by_scheme (e : VerkleCommitment) (data : list Z) : outcome VerkleError Commitment :=
  match commitment_scheme (engine_config e) with
  | IPA => compute_ipa_commitment e data
  | KZG => compute_kzg_commitment e data
  end.
Definition compute_extension_commitment (e : VerkleCommitment) (stem : list Z) (suffix : option VerkleNode) :
    outcome VerkleError Commitment :=
  by_scheme e (stem ++ match suffix with Some n => value (commitment n) | None => [] end).
Definition compute_branch_commitment (e : VerkleCommitment) (children : list Commitment) (v : option (list Z)) :
    outcome VerkleError Commitment :=
  by_scheme e (concat (map value children) ++ default [] v).
Definition compute_leaf_commitment (e : VerkleCommitment) (v : list Z) : outcome VerkleError Commitment :=
  by_scheme e v.
Definition compute_node_commitment (e : VerkleCommitment) (n : VerkleNode) : outcome VerkleError Commitment :=
  match node_type n with
  | Extension stem suffix => compute_extension_commitment e stem suffix
  | Branch children v =>
      compute_branch_commitment e (map (fun c => default default_commitment (commitment <$> c)) children) v
  | Leaf v => compute_leaf_commitment e v
  end.

(** proof.rs *)
Record VerkleProof := mkProof {
  proof_key : list Z;
  proof_value : option (list Z);
  proof_nodes : list (list Z * Commitment);
  root_commitment_of : Commitment;
}.

Definition combine_commitments (e : VerkleCommitment) (left right : Commitment) : outcome VerkleError Commitment :=
  by_scheme e (value left ++ value right).
Fixpoint combine_all (e : VerkleCommitment) (nodes : list (list Z * Commitment)) (current : Commitment) :
    outcome VerkleError Commitment :=
  match nodes with
  | [] => Ok current
  | (_, sibling) :: nodes => let? c := combine_commitments e current sibling in combine_all e nodes c
  end.
Definition reconstruct_commitment_from_proof (e : VerkleCommitment) (p : VerkleProof) :
    outcome VerkleError Commitment :=
  let? current :=
    match proof_value p with
    | Some v => compute_leaf_commitment e v
    | None => Ok default_commitment
    end in
  combine_all e (rev (proof_nodes p)) current.
Definition engine_verify_proof (e : VerkleCommitment) (p : VerkleProof) : outcome VerkleError bool :=
  let? reconstructed := reconstruct_commitment_from_proof e p in
  Ok (bool_decide (value reconstructed = value (root_commitment_of p))).

(** * tree.rs *)

Record TreeMetrics := mkMetrics { reads : Z; writes : Z; cache_hits : Z; cache_misses : Z }.
Record VerkleTree := mkTree {
  config : VerkleConfig;
  tree_root : option VerkleNode;
  commitment_engine : VerkleCommitment;
  cache : gmap (list Z) (list Z);
  metrics : TreeMetrics;
}.
Definition metrics_new : TreeMetrics := mkMetrics 0 0 0 0.
Definition tree_new (c : VerkleConfig) : outcome VerkleError VerkleTree :=
  let? e := engine_new c in
  Ok (mkTree c None e ∅ metrics_new).

(** [fetch_add(1)] wraps around. *)
Definition bump (x : Z) : Z := wrap 64 (x + 1).
Definition count_read (m : TreeMetrics) : TreeMetrics := mkMetrics (bump (reads m)) (writes m) (cache_hits m) (cache_misses m).
Definition count_write (m : TreeMetrics) : TreeMetrics := mkMetrics (reads m) (bump (writes m)) (cache_hits m) (cache_misses m).
Definition count_hit (m : TreeMetrics) : TreeMetrics := mkMetrics (reads m) (writes m) (bump (cache_hits m)) (cache_misses m).
Definition count_miss (m : TreeMetrics) : TreeMetrics := mkMetrics (reads m) (writes m) (cache_hits m) (bump (cache_misses m)).
Definition set_root (r : option VerkleNode) (t : VerkleTree) : VerkleTree :=
  mkTree (config t) r (commitment_engine t) (cache t) (metrics t).
Definition set_cache (c : gmap (list Z) (list Z)) (t : VerkleTree) : VerkleTree :=
  mkTree (config t) (tree_root t) (commitment_engine t) c (metrics t).
Definition set_metrics (m : TreeMetrics) (t : VerkleTree) : VerkleTree :=
  mkTree (config t) (tree_root t) (commitment_engine t) (cache t) m.

Notation NM := (SM VerkleNode VerkleError).
Notation TM := (SM VerkleTree VerkleError).

(** A call on a part of the object: the part is put back whatever the call
    returns. *)
Definition on_part {S P E A} (part : P) (put : P -> S) (m : SM P E A) : SM S E A :=
  fun _ => let '(r, part') := m part in (r, put part').

Fixpoint common_prefix (a b : list Z) : Z :=
  match a, b with
  | x :: a, y :: b => if x =? y then 1 + common_prefix a b else 0
  | _, _ => 0
  end.
(** [children[i] = x] *)
Definition set_child (children : Children) (i : Z) (x : option VerkleNode) : outcome VerkleError Children :=
  if (0 <=? i) && (i <? len children) then Ok (<[Z.to_nat i := x]> children) else Panic.
(** [H256::from_slice] panics on any other length. *)
Definition h256_from_slice (b : list Z) : outcome VerkleError (list Z) := if len b =? 32 then Ok b else Panic.
(** The extension that leads to a new leaf. *)
Definition leaf_extension (stem v : list Z) : VerkleNode := set_type (Extension stem (Some (new_leaf v))) (new_extension stem).

Definition split_extension (key v : list Z) (depth cp : Z) : NM unit :=
  let! node := sget in
  match node_type node with
  | Extension old_stem old_suffix =>
      let! stem := slift (slice old_stem 0 cp) in
      let! children :=
        if cp <? len old_stem then
          let! old_index := slift (index old_stem cp) in
          let! next := slift (uadd 64 cp 1) in
          let! rest := slift (slice old_stem next (len old_stem)) in
          slift (set_child (replicate 256 None) old_index
                   (Some (set_type (Extension rest old_suffix) (new_extension rest))))
        else sret (replicate 256 None) in
      let! at_ := slift (uadd 64 depth cp) in
      let! new_index := slift (index key at_) in
      let! next := slift (uadd 64 at_ 1) in
      let! rest := slift (slice key next (len key)) in
      let! children := slift (set_child children new_index (Some (leaf_extension rest v))) in
      smodify (set_type (Extension stem (Some (set_type (Branch children None) new_branch))))
  | _ => sret tt
  end.

Section engine_of_tree.
Context (e : VerkleCommitment).

(** [node.commitment = self.commitment_engine.compute_node_commitment(node)?] *)
Definition recommit : NM unit :=
  let! node := sget in
  let! c := slift (compute_node_commitment e node) in
  smodify (set_commitment c).

Fixpoint insert_recursive (fuel : nat) (key v : list Z) (depth : Z) : NM unit :=
  match fuel with
  | O => slift Diverge
  | S fuel =>
      let! node := sget in
      match node_type node with
      | Extension stem suffix =>
          let! rest := slift (slice key depth (len key)) in
          let cp := common_prefix stem rest in
          if cp =? len stem then
            let! d := slift (uadd 64 depth cp) in
            on_part (default new_branch suffix) (fun s => set_type (Extension stem (Some s)) node)
              (insert_recursive fuel key v d)
          else split_extension key v depth cp
      | Branch children bv =>
          if len key <=? depth then smodify (set_type (Branch children (Some v)))
          else
            let! i := slift (index key depth) in
            let! slot := slift (index children i) in
            let! d := slift (uadd 64 depth 1) in
            match slot with
            | None =>
                let! rest := slift (slice key d (len key)) in
                let! children := slift (set_child children i (Some (leaf_extension rest v))) in
                smodify (set_type (Branch children bv))
            | Some child =>
                on_part child (fun c => set_type (Branch (<[Z.to_nat i := Some c]> children) bv) node)
                  (insert_recursive fuel key v d)
            end
      | Leaf _ => smodify (set_type (Leaf v))
      end ;;!
      recommit
  end.

Definition is_node_empty (n : VerkleNode) : bool :=
  match node_type n with
  | Extension _ suffix => bool_decide (suffix = None)
  | Branch children v => bool_decide (v = None) && forallb (fun c => bool_decide (c = None)) children
  | Leaf _ => false
  end.

(** [&key[depth..depth + stem.len().min(key.len() - depth)]] *)
Definition key_part {E} (key stem : list Z) (depth : Z) : outcome E (list Z) :=
  let? remaining := usub 64 (len key) depth in
  let? stop := uadd 64 depth (Z.min (len stem) remaining) in
  slice key depth stop.

Fixpoint delete_recursive (fuel : nat) (key : list Z) (depth : Z) : NM bool :=
  match fuel with
  | O => slift Diverge
  | S fuel =>
      let! node := sget in
      let! deleted :=
        match node_type node with
        | Extension stem suffix =>
            let! part := slift (key_part key stem depth) in
            if bool_decide (part = stem) then
              match suffix with
              | Some s =>
                  let! d := slift (uadd 64 depth (len stem)) in
                  on_part s (fun s => set_type (Extension stem (Some s)) node) (delete_recursive fuel key d)
              | None => sret false
              end
            else sret false
        | Branch children bv =>
            if len key <=? depth then
              match bv with
              | Some _ => smodify (set_type (Branch children None)) ;;! sret true
              | None => sret false
              end
            else
              let! i := slift (index key depth) in
              let! slot := slift (index children i) in
              match slot with
              | Some child =>
                  let! d := slift (uadd 64 depth 1) in
                  let! (deleted, child) :=
                    on_part child (fun c => set_type (Branch (<[Z.to_nat i := Some c]> children) bv) node)
                      (let! b := delete_recursive fuel key d in let! c := sget in sret (b, c)) in
                  (if deleted && is_node_empty child
                   then smodify (set_type (Branch (<[Z.to_nat i := None]> children) bv)) else sret tt) ;;!
                  sret deleted
              | None => sret false
              end
        | Leaf _ => sret true
        end in
      (if deleted : bool then recommit else sret tt) ;;!
      sret deleted
  end.
End engine_of_tree.

Fixpoint get_recursive (fuel : nat) (node : VerkleNode) (key : list Z) (depth : Z) :
    outcome VerkleError (option (list Z)) :=
  match fuel with
  | O => Diverge
  | S fuel =>
      match node_type node with
      | Extension stem suffix =>
          let? part := key_part key stem depth in
          if bool_decide (part = stem) then
            match suffix with
            | Some s => let? d := uadd 64 depth (len stem) in get_recursive fuel s key d
            | None => Ok None
            end
          else Ok None
      | Branch children bv =>
          if len key <=? depth then Ok bv
          else
            let? i := index key depth in
            let? slot := index children i in
            match slot with
            | Some child => let? d := uadd 64 depth 1 in get_recursive fuel child key d
            | None => Ok None
            end
      | Leaf v => Ok (Some v)
      end
  end.

(** The order in which a hash map gives its keys is not specified: [cache_keys]
    is that order. *)
Context (cache_keys : gmap (list Z) (list Z) -> list (list Z)).
Definition evict_cache_entries (c : gmap (list Z) (list Z)) : gmap (list Z) (list Z) :=
  let to_remove := (size c / 10)%nat in
  foldl (fun c k => delete k c) c (take to_remove (cache_keys c)).

Definition check_key (key : list Z) : TM unit :=
  let! t := sget in
  if negb (len key =? key_length (config t))
  then sfail (InvalidKey ("Key length must be " +:+ pretty (key_length (config t))))
  else sret tt.

Definition tree_insert (fuel : nat) (key v : list Z) : TM unit :=
  check_key key ;;!
  let! t := sget in
  sput (set_metrics (count_write (metrics t)) t) ;;!
  let! t := sget in
  let root := default (new_extension (replicate 31 0)) (tree_root t) in
  on_part root (fun r => set_root (Some r) t) (insert_recursive (commitment_engine t) fuel key v 0) ;;!
  let! t := sget in
  if enable_cache (config t) then
    let! h := slift (h256_from_slice key) in
    let c := <[h := v]> (cache t) in
    sput (set_cache (if cache_size (config t) <? Z.of_nat (size c) then evict_cache_entries c else c) t)
  else sret tt.

Definition tree_get (fuel : nat) (key : list Z) : TM (option (list Z)) :=
  check_key key ;;!
  let! t := sget in
  sput (set_metrics (count_read (metrics t)) t) ;;!
  let! t := sget in
  let! hit :=
    if enable_cache (config t) then
      let! h := slift (h256_from_slice key) in
      match cache t !! h with
      | Some v => sput (set_metrics (count_hit (metrics t)) t) ;;! sret (Some v)
      | None => sput (set_metrics (count_miss (metrics t)) t) ;;! sret None
      end
    else sret None in
  match hit with
  | Some v => sret (Some v)
  | None =>
      match tree_root t with
      | Some root => slift (get_recursive fuel root key 0)
      | None => sret None
      end
  end.

Definition tree_delete (fuel : nat) (key : list Z) : TM bool :=
  check_key key ;;!
  let! t := sget in
  match tree_root t with
  | Some root =>
      let! deleted := on_part root (fun r => set_root (Some r) t) (delete_recursive (commitment_engine t) fuel key 0) in
      let! t := sget in
      (if deleted && enable_cache (config t) then
         let! h := slift (h256_from_slice key) in
         sput (set_cache (delete h (cache t)) t)
       else sret tt) ;;!
      sret deleted
  | None => sret false
  end.

(** The commitments of the other children of a branch, with their index. *)
Fixpoint sibling_commitments (i index : Z) (children : Children) : list (list Z * Commitment) :=
  match children with
  | [] => []
  | c :: cs =>
      let rest := sibling_commitments (i + 1) index cs in
      match c with
      | Some sibling => if i =? index then rest else ([wrap 8 i], commitment sibling) :: rest
      | None => rest
      end
  end.
Fixpoint collect_proof_nodes (fuel : nat) (node : VerkleNode) (key : list Z) (depth : Z) :
    SM (list (list Z * Commitment)) VerkleError (option (list Z)) :=
  match fuel with
  | O => slift Diverge
  | S fuel =>
      let! path := slift (slice key 0 depth) in
      smodify (fun l => l ++ [(path, commitment node)]) ;;!
      match node_type node with
      | Extension stem suffix =>
          let! part := slift (key_part key stem depth) in
          if bool_decide (part = stem) then
            match suffix with
            | Some s => let! d := slift (uadd 64 depth (len stem)) in collect_proof_nodes fuel s key d
            | None => sret None
            end
          else sret None
      | Branch children bv =>
          if len key <=? depth then sret bv
          else
            let! i := slift (index key depth) in
            smodify (fun l => l ++ sibling_commitments 0 i children) ;;!
            let! slot := slift (index children i) in
            match slot with
            | Some child => let! d := slift (uadd 64 depth 1) in collect_proof_nodes fuel child key d
            | None => sret None
            end
      | Leaf v => sret (Some v)
      end
  end.
Definition generate_proof (fuel : nat) (key : list Z) (t : VerkleTree) : outcome VerkleError VerkleProof :=
  let? _ := (check_key key t).1 in
  match tree_root t with
  | Some root =>
      let '(r, nodes) := collect_proof_nodes fuel root key 0 [] in
      let? v := r in
      Ok (mkProof key v nodes (commitment root))
  | None => Err (NodeNotFound "Root node not found")
  end.
Definition tree_verify_proof (p : VerkleProof) (t : VerkleTree) : outcome VerkleError bool :=
  engine_verify_proof (commitment_engine t) p.
Record TreeStats := mkStats {
  stat_reads : Z; stat_writes : Z; stat_cache_hits : Z; stat_cache_misses : Z; stat_cache_size : Z;
}.
Definition get_stats (t : VerkleTree) : TreeStats :=
  mkStats (reads (metrics t)) (writes (metrics t)) (cache_hits (metrics t)) (cache_misses (metrics t))
    (Z.of_nat (size (cache t))).
Definition root_commitment (t : VerkleTree) : option Commitment := commitment <$> tree_root t.

(** ** Accounts in a tree *)

Definition account_key (address : list Z) : outcome VerkleError (list Z) :=
  if len address =? 20 then Ok ([0] ++ address ++ replicate 11 0) else Panic.
Definition storage_key (address slot : list Z) : outcome VerkleError (list Z) :=
  let h := keccak256 (address ++ slot) in
  let? first := slice h 0 31 in
  Ok ([1] ++ first).

(** [bincode] on an account state. *)
Context {S : Type} (serialize : S -> list Z + string) (deserialize : list Z -> S + string).
Definition encode_state (s : S) : outcome VerkleError (list Z) :=
  match serialize s with inl b => Ok b | inr e => Err (DatabaseError e) end.
Definition decode_state (b : list Z) : outcome VerkleError S :=
  match deserialize b with inl s => Ok s | inr e => Err (DatabaseError e) end.

Definition get_account (fuel : nat) (address : list Z) : TM (option S) :=
  let! key := slift (account_key address) in
  let! found := tree_get fuel key in
  match found with
  | Some data => let! s := slift (decode_state data) in sret (Some s)
  | None => sret None
  end.
Definition set_account (fuel : nat) (address : list Z) (s : S) : TM unit :=
  let! key := slift (account_key address) in
  let! data := slift (encode_state s) in
  tree_insert fuel key data.
Definition get_storage (fuel : nat) (address slot : list Z) : TM (option (list Z)) :=
  let! key := slift (storage_key address slot) in
  let! found := tree_get fuel key in
  match found with
  | Some data => let! h := slift (h256_from_slice data) in sret (Some h)
  | None => sret None
  end.
Definition set_storage (fuel : nat) (address slot v : list Z) : TM unit :=
  let! key := slift (storage_key address slot) in
  if bool_decide (v = replicate 32 0) then tree_delete fuel key ;;! sret tt
  else tree_insert fuel key v.
End engine.
End Verkle.
