(* ===== verification/VerkleProofs.v ===== *)
(** What the Verkle tree of crates/verkle stores: lookups, insertions and
    deletions of tree.rs against a finite map, and what its commitments and
    proofs are worth. *)
From stdpp Require Import base list numbers option gmap.
From Stdlib Require Import ZArith Lia.
From S2P Require Import Prelude U256 Nibbles TrieProofs Verkle.

Module VerkleProofs.
Import Verkle.

(** * What a node stores *)

(** The value under the rest of a key. *)
Fixpoint look (n : VerkleNode) (k : list Z) : option (list Z) :=
  match n with
  | mkNode (Leaf v) _ _ => Some v
  | mkNode (Extension _ None) _ _ => None
  | mkNode (Extension stem (Some s)) _ _ =>
      if bool_decide (take (length stem) k = stem) then look s (drop (length stem) k) else None
  | mkNode (Branch cs bv) _ _ =>
      match k with
      | [] => bv
      | x :: k => nth (Z.to_nat x) (map (fun c => match c with Some n => look n k | None => None end) cs) None
      end
  end.
Lemma look_branch cs bv c d x k :
  look (mkNode (Branch cs bv) c d) (x :: k) = match cs !! Z.to_nat x with Some (Some n) => look n k | _ => None end.
Proof.
  simpl. rewrite nth_lookup, list_lookup_fmap. by destruct (cs !! Z.to_nat x) as [[n|]|].
Qed.
Lemma look_ext stem s c d k : look (mkNode (Extension stem (Some s)) c d) (stem ++ k) = look s k.
Proof. simpl. by rewrite take_app_length, drop_app_length, bool_decide_true. Qed.
Lemma look_ext_other stem s c d k : (forall k', k <> stem ++ k') -> look (mkNode (Extension stem s) c d) k = None.
Proof.
  intros Hk. destruct s as [s|]; [|done]. simpl. case_bool_decide as Ht; [|done].
  destruct (Hk (drop (length stem) k)). rewrite <- Ht at 1. by rewrite take_drop.
Qed.

(** A node over keys of [r] more bytes: leaves where a key ends, branches of
    256 children and no value, no extension right below an extension. *)
Inductive wf : VerkleNode -> nat -> Prop :=
| wf_leaf v c d : wf (mkNode (Leaf v) c d) 0
| wf_ext stem s c d r : bytes stem -> (s = None -> (0 < r)%nat) ->
    (forall n, s = Some n -> is_extension n = false) -> (forall n, s = Some n -> wf n r) ->
    wf (mkNode (Extension stem s) c d) (length stem + r)
| wf_branch cs c d r : length cs = 256%nat -> (forall i n, cs !! i = Some (Some n) -> wf n r) ->
    wf (mkNode (Branch cs None) c d) (S r).

(** The nodes on a path, the fuel of a walk. *)
Definition need (n : VerkleNode) (r : nat) : nat := 2 * r + (if is_extension n then 2 else 1).
Lemma need_pos n r : (0 < need n r)%nat.
Proof. unfold need. destruct (is_extension n); lia. Qed.

Lemma wf_set_commitment n r c : wf n r -> wf (set_commitment c n) r.
Proof. inversion 1; subst; by constructor. Qed.
Lemma look_set_commitment n c k : look (set_commitment c n) k = look n k.
Proof. by destruct n as [[]]. Qed.
Lemma is_extension_set_commitment n c : is_extension (set_commitment c n) = is_extension n.
Proof. by destruct n. Qed.

Lemma common_prefix_nibbles a b : common_prefix a b = Nibbles.common_prefix_len a b.
Proof. revert b. induction a as [|x a IH]; intros [|y b]; simpl; [done..|]. by rewrite IH. Qed.

Section walks.
Context `{Profile} `{KeccakOps}.
Implicit Types (p k v : list Z) (n : VerkleNode).

(** Lengths a vector can have. *)
Definition fits (p k : list Z) : Prop := len (p ++ k) <= isize_max.
Lemma fits_sum {E} p k : fits p k -> uadd (E := E) 64 (len p) (len k) = Ok (len p + len k).
Proof.
  intros Hf. unfold fits in Hf. rewrite len_app in Hf. pose proof (len_nonneg p). pose proof (len_nonneg k).
  apply checked_arith_ok. unfold uint, isize_max in *. lia.
Qed.
Lemma fits_app p c k : fits p (c ++ k) -> fits (p ++ c) k.
Proof. unfold fits. by rewrite app_assoc. Qed.
Lemma fits_left p c k : fits p (c ++ k) -> fits p c.
Proof. unfold fits. rewrite !len_app. pose proof (len_nonneg k). lia. Qed.
Lemma fits_next {E} p x k : fits p (x :: k) -> uadd (E := E) 64 (len p) 1 = Ok (len (p ++ [x])).
Proof. intros Hf%(fits_left p [x] k). rewrite len_app. exact (fits_sum p [x] Hf). Qed.
Lemma fits_stem {E} p stem k : fits p (stem ++ k) -> uadd (E := E) 64 (len p) (len stem) = Ok (len (p ++ stem)).
Proof. intros Hf%fits_left. rewrite len_app. by apply fits_sum. Qed.
Lemma rest_of_key {E} p k : slice (E := E) (p ++ k) (len p) (len (p ++ k)) = Ok k.
Proof. pose proof (slice_mid (E := E) p k []) as Hs. by rewrite app_nil_r, <- len_app in Hs. Qed.
Lemma key_goes_on p x k : (len (p ++ x :: k) <=? len p) = false.
Proof. rewrite len_app, len_cons. pose proof (len_nonneg k). lia. Qed.

Lemma key_part_ok {E} p k stem : fits p k ->
  key_part (E := E) (p ++ k) stem (len p) = Ok (take (length stem) k).
Proof.
  intros Hf. unfold key_part. pose proof (len_nonneg p). pose proof (len_nonneg k).
  pose proof Hf as Hl. unfold fits, isize_max in Hl. rewrite len_app in Hl |- *.
  unfold usub. rewrite checked_arith_ok by (unfold uint; lia). simpl. unfold uadd.
  rewrite checked_arith_ok by (pose proof (len_nonneg stem); unfold uint; lia). simpl.
  pose proof (slice_mid (E := E) p (take (length stem) k) (drop (length stem) k)) as Hs.
  rewrite take_drop in Hs. rewrite <- Hs. f_equal. unfold len. rewrite length_take, Nat2Z.inj_min. lia.
Qed.

(** * Lookups *)

Lemma get_look n r : wf n r -> forall p k fuel, length k = r -> bytes k -> fits p k ->
  (need n r <= fuel)%nat -> get_recursive fuel n (p ++ k) (len p) = Ok (look n k).
Proof.
  induction 1 as [v c d|stem s c d r Hb Hr Hn Hs IH|cs c d r Hl Hc IH];
    intros p k fuel Hk Hbk Hf Hfuel; (destruct fuel as [|fuel]; [by destruct (Nat.lt_irrefl 0 (Nat.lt_le_trans _ _ _ (need_pos _ _) Hfuel))|]); simpl; [done|..].
  - rewrite key_part_ok by done. simpl. case_bool_decide as Hp.
    2:{ by destruct s. }
    destruct s as [s|]; [|done]. rewrite <- (take_drop (length stem) k), Hp in Hf.
    rewrite (fits_stem p stem _ Hf). simpl.
    replace (p ++ k) with ((p ++ stem) ++ drop (length stem) k)
      by (rewrite <- Hp at 1; by rewrite <- app_assoc, take_drop).
    apply (IH s eq_refl).
    + rewrite length_drop. lia.
    + by apply bytes_drop.
    + by apply fits_app.
    + unfold need in *. simpl in Hfuel. rewrite (Hn s eq_refl). lia.
  - destruct k as [|x k]; [done|]. rewrite key_goes_on. rewrite index_mid. cbn [obind].
    apply Forall_cons in Hbk as [[Hx ?] Hbk].
    destruct (lookup_lt_is_Some_2 cs (Z.to_nat x)) as [slot Hslot]; [lia|].
    rewrite (proj2 (index_spec cs x slot)) by done. cbn [obind].
    rewrite nth_lookup, list_lookup_fmap, Hslot. simpl. destruct slot as [n|]; [|done].
    rewrite (fits_next p x k) by done. simpl.
    replace (p ++ x :: k) with ((p ++ [x]) ++ k) by by rewrite <- app_assoc.
    apply (IH _ _ Hslot); [simpl in Hk; lia|done|by apply (fits_app p [x] k)|].
    unfold need in *. simpl in Hfuel. destruct (is_extension n); lia.
Qed.

(** * Insertions *)

Definition engine_ok (e : VerkleCommitment) : Prop := forall data, exists c, by_scheme e data = Ok c.
Lemma compute_node_commitment_ok e n : engine_ok e -> exists c, compute_node_commitment e n = Ok c.
Proof. intros He. destruct n as [[] ? ?]; apply He. Qed.
Lemma recommit_ok e n : engine_ok e ->
  exists c, compute_node_commitment e n = Ok c /\ recommit e n = (Ok tt, set_commitment c n).
Proof.
  intros He. destruct (compute_node_commitment_ok e n He) as [c Hc]. exists c. split; [done|].
  unfold recommit, sbind, sget, slift. by rewrite Hc.
Qed.

(** [n'] stores what [n] does, with [v] under [k]. *)
Definition stores (r : nat) n k v n' : Prop := wf n' r /\ is_extension n' = is_extension n /\
  forall k', length k' = r -> bytes k' -> look n' k' = if decide (k' = k) then Some v else look n k'.
Lemma stores_recommit r n k v n' c : stores r n k v n' -> stores r n k v (set_commitment c n').
Proof.
  intros (Hw & He & Hl). split_and!; [by apply wf_set_commitment|by rewrite is_extension_set_commitment|].
  intros. rewrite look_set_commitment. auto.
Qed.

Lemma leaf_extension_wf k v : bytes k -> wf (leaf_extension k v) (length k).
Proof.
  intros. replace (length k) with (length k + 0)%nat by lia. apply wf_ext; [done..| |].
  - by intros n [= <-].
  - intros n [= <-]. constructor.
Qed.
Lemma leaf_extension_look k v k' : length k' = length k ->
  look (leaf_extension k v) k' = if decide (k' = k) then Some v else None.
Proof.
  intros Hk. unfold leaf_extension. simpl. rewrite <- Hk, take_ge by lia.
  by case_bool_decide; case_decide.
Qed.

(** A leaf under a free slot. *)
Lemma free_slot_stores cs c d r x k v : length cs = 256%nat ->
  (forall i n, cs !! i = Some (Some n) -> wf n r) -> length k = r -> bytes (x :: k) ->
  cs !! Z.to_nat x = Some None ->
  stores (S r) (mkNode (Branch cs None) c d) (x :: k) v
    (mkNode (Branch (<[Z.to_nat x := Some (leaf_extension k v)]> cs) None) c d).
Proof.
  intros Hl Hc Hk [Hx Hb]%Forall_cons Hs. pose proof (lookup_lt_Some _ _ _ Hs). unfold byte in Hx.
  split_and!; [|done|].
  - constructor; [by rewrite length_insert|]. intros i n [(<- & [= <-] & _)|[_ ?]]%list_lookup_insert_Some; [|eauto].
    subst r. by apply leaf_extension_wf.
  - intros [|y k'] [= Hk'] [Hy Hb']%Forall_cons; unfold byte in Hy. rewrite !look_branch.
    destruct (decide (y = x)) as [->|Hne].
    + rewrite list_lookup_insert_eq, Hs by done. rewrite leaf_extension_look by lia. by repeat case_decide; simplify_eq.
    + rewrite list_lookup_insert_ne by lia. case_decide; [congruence|done].
Qed.

(** A change of one child. *)
Lemma child_stores cs c d r x k v n n' : length cs = 256%nat ->
  (forall i n, cs !! i = Some (Some n) -> wf n r) -> bytes (x :: k) ->
  cs !! Z.to_nat x = Some (Some n) -> stores r n k v n' ->
  stores (S r) (mkNode (Branch cs None) c d) (x :: k) v
    (mkNode (Branch (<[Z.to_nat x := Some n']> cs) None) c d).
Proof.
  intros Hl Hc [Hx Hb]%Forall_cons Hs (Hw & _ & Hlk). pose proof (lookup_lt_Some _ _ _ Hs). unfold byte in Hx.
  split_and!; [|done|].
  - constructor; [by rewrite length_insert|]. by intros i m [(<- & [= <-] & _)|[_ ?]]%list_lookup_insert_Some; eauto.
  - intros [|y k'] [= Hk'] [Hy Hb']%Forall_cons; unfold byte in Hy. rewrite !look_branch.
    destruct (decide (y = x)) as [->|Hne].
    + rewrite list_lookup_insert_eq, Hs by done. rewrite Hlk by done. by repeat case_decide; simplify_eq.
    + rewrite list_lookup_insert_ne by lia. case_decide; [congruence|done].
Qed.

(** A change below an extension. *)
Lemma suffix_stores stem s c d r k v n n' : bytes stem -> default new_branch s = n ->
  (s = None -> forall k, look n k = None) ->
  is_extension n = false -> stores r n k v n' ->
  stores (length stem + r) (mkNode (Extension stem s) c d) (stem ++ k) v
    (mkNode (Extension stem (Some n')) c d).
Proof.
  intros Hb Hd Hnone Hn (Hw & He & Hlk). split_and!; [|done|].
  - constructor; [done..| |]; intros ? [= <-]; congruence.
  - intros k' Hk' Hb'. destruct (decide (take (length stem) k' = stem)) as [Ht|Ht].
    + rewrite <- (take_drop (length stem) k'), Ht. rewrite look_ext, Hlk.
      2:{ rewrite length_drop. lia. }
      2:{ by apply bytes_drop. }
      destruct s as [s|]; simpl in Hd; subst n.
      * rewrite look_ext. by repeat case_decide; simplify_list_eq.
      * rewrite (Hnone eq_refl). by repeat case_decide; simplify_list_eq.
    + assert (forall k1, k' <> stem ++ k1) as Hne by (intros k1 ->; by rewrite take_app_length in Ht).
      rewrite !look_ext_other by done. by case_decide; [destruct (Hne k)|].
Qed.

(** ** Splits *)

(** An extension cut in two around one byte of its stem. *)
Definition cut_branch (x : Z) (st : list Z) (s : option VerkleNode) : VerkleNode :=
  mkNode (Branch (<[Z.to_nat x := Some (mkNode (Extension st s) default_commitment 0)]> (replicate 256 None)) None)
    default_commitment 0.
Lemma cut_look cm x st s c d c' d' k : bytes (cm ++ x :: st) -> bytes k ->
  look (mkNode (Extension (cm ++ x :: st) s) c d) k = look (mkNode (Extension cm (Some (cut_branch x st s))) c' d') k.
Proof.
  intros Hb Hk. apply Forall_app in Hb as [_ [Hx _]%Forall_cons]. unfold byte in Hx.
  destruct (decide (cm `prefix_of` k)) as [[k' ->]|Hne].
  2:{ rewrite !look_ext_other; [done|by intros k' ->; destruct Hne; exists k'|].
      intros k' ->. destruct Hne. exists (x :: st ++ k'). by rewrite <- app_assoc. }
  rewrite look_ext. apply Forall_app in Hk as [_ Hk]. destruct k' as [|y k'].
  { rewrite look_ext_other; [done|]. intros k' ?%(f_equal length). rewrite !length_app in *. simpl in *. lia. }
  apply Forall_cons in Hk as [Hy _]. unfold byte in Hy. unfold cut_branch. rewrite look_branch.
  destruct (decide (y = x)) as [->|Hne].
  - rewrite list_lookup_insert_eq by (rewrite length_replicate; lia). destruct s as [s|]; [|done]. simpl.
    replace (length (cm ++ x :: st)) with (length cm + S (length st))%nat by (rewrite length_app; simpl; lia).
    rewrite take_app_add, drop_app_add. simpl.
    rewrite (bool_decide_ext _ (take (length st) k' = st)); [done|].
    split; [by intros [= ?]%app_inv_head|by intros ->].
  - rewrite list_lookup_insert_ne by lia. rewrite lookup_replicate_2 by lia. apply look_ext_other.
    intros k1 Heq. rewrite <- app_assoc in Heq. simplify_list_eq.
Qed.
Lemma cut_wf x st s r : byte x -> bytes st -> (s = None -> (0 < r)%nat) ->
  (forall n, s = Some n -> is_extension n = false) -> (forall n, s = Some n -> wf n r) ->
  forall i n, <[Z.to_nat x := Some (mkNode (Extension st s) default_commitment 0)]> (replicate 256 None) !! i
      = Some (Some n) -> wf n (length st + r).
Proof.
  intros Hx Hb Hr He Hs i n [(_ & [= <-] & _)|[_ Hn]]%list_lookup_insert_Some.
  - by constructor.
  - by apply lookup_replicate in Hn as [? _].
Qed.
Lemma set_slot_ok (cs : Children) x slot : length cs = 256%nat -> byte x ->
  set_child cs x slot = Ok (<[Z.to_nat x := slot]> cs).
Proof. intros Hl [? ?]. unfold set_child, len. rewrite Hl. case_bool; first [done|lia]. Qed.

Lemma split_ok p cm x st y k s c d v : bytes (cm ++ x :: st) -> bytes (y :: k) -> fits p (cm ++ y :: k) ->
  split_extension (p ++ cm ++ y :: k) v (len p) (len cm) (mkNode (Extension (cm ++ x :: st) s) c d) =
  (Ok tt, mkNode (Extension cm (Some (mkNode (Branch
     (<[Z.to_nat y := Some (leaf_extension k v)]>
        (<[Z.to_nat x := Some (mkNode (Extension st s) default_commitment 0)]> (replicate 256 None))) None)
     default_commitment 0))) c d).
Proof.
  intros [_ [Hx _]%Forall_cons]%Forall_app [Hy _]%Forall_cons Hf.
  assert (fits cm [0]) as Hcm.
  { unfold fits in *. rewrite !len_app in *. rewrite !len_cons, ?len_nil in *.
    pose proof (len_nonneg p). pose proof (len_nonneg k). lia. }
  unfold split_extension, sbind, sget, slift, sret, smodify. cbn [node_type].
  rewrite (slice_mid [] cm (x :: st) : slice _ 0 (len cm) = _).
  rewrite (proj2 (Z.ltb_lt (len cm) (len (cm ++ x :: st))))
    by (rewrite len_app, len_cons; pose proof (len_nonneg st); lia).
  rewrite index_mid, (fits_next cm 0 [] Hcm), len_snoc, <- (len_snoc cm x).
  replace (cm ++ x :: st) with ((cm ++ [x]) ++ st) by by rewrite <- app_assoc.
  rewrite rest_of_key, set_slot_ok by (done || apply length_replicate).
  rewrite (fits_stem p cm _ Hf), app_assoc, index_mid, (fits_next (p ++ cm) y k) by by apply fits_app.
  replace ((p ++ cm) ++ y :: k) with (((p ++ cm) ++ [y]) ++ k) by by rewrite <- (app_assoc (p ++ cm)).
  rewrite rest_of_key, set_slot_ok by (done || by rewrite length_insert, length_replicate). done.
Qed.
Lemma split_stores cm x st y k s c d r v : bytes (cm ++ x :: st) -> bytes (y :: k) -> x <> y ->
  length k = (length st + r)%nat -> (s = None -> (0 < r)%nat) ->
  (forall n, s = Some n -> is_extension n = false) -> (forall n, s = Some n -> wf n r) ->
  stores (length (cm ++ x :: st) + r) (mkNode (Extension (cm ++ x :: st) s) c d) (cm ++ y :: k) v
    (mkNode (Extension cm (Some (mkNode (Branch
     (<[Z.to_nat y := Some (leaf_extension k v)]>
        (<[Z.to_nat x := Some (mkNode (Extension st s) default_commitment 0)]> (replicate 256 None))) None)
     default_commitment 0))) c d).
Proof.
  intros Hb Hk Hne Hl Hr He Hs. pose proof Hb as Hb'. apply Forall_app in Hb' as [Hcm [Hx Hst]%Forall_cons].
  pose proof (Forall_inv Hk) as Hy. unfold byte in Hx, Hy.
  assert (stores (S (length st + r)) (cut_branch x st s) (y :: k) v (mkNode (Branch
     (<[Z.to_nat y := Some (leaf_extension k v)]>
        (<[Z.to_nat x := Some (mkNode (Extension st s) default_commitment 0)]> (replicate 256 None))) None)
     default_commitment 0)) as Hst1.
  { apply free_slot_stores; [by rewrite length_insert, length_replicate|by apply cut_wf|done..|].
    rewrite list_lookup_insert_ne by lia. by apply lookup_replicate_2; lia. }
  apply (suffix_stores cm (Some (cut_branch x st s)) c d) in Hst1 as (Hw & _ & Hlk); [|done..].
  replace (length cm + S (length st + r))%nat with (length (cm ++ x :: st) + r)%nat in *
    by (rewrite length_app; simpl; lia).
  split_and!; [done..|]. intros k' Hk' Hb'. rewrite Hlk by done. by rewrite (cut_look _ _ _ _ _ _ c d k' Hb Hb').
Qed.

(** ** The whole walk *)

(** An insertion of any value, [m v], into [n]: what it stores, and the
    commitment to a key that was not there does not depend on the value. *)
Definition inserts (r : nat) n k (m : list Z -> SM VerkleNode VerkleError unit) : Prop :=
  exists f, (forall v, m v n = (Ok tt, f v) /\ stores r n k v (f v)) /\
    (look n k = None -> forall v v', commitment (f v) = commitment (f v')).
Lemma recommit_inserts e r n k m f : engine_ok e ->
  (forall v, stores r n k v (f v)) -> (forall v, m v n = (Ok tt, f v)) ->
  (look n k = None -> forall v v', compute_node_commitment e (f v) = compute_node_commitment e (f v')) ->
  inserts r n k (fun v => m v ;;! recommit e).
Proof.
  intros He Hn Hm Hc.
  exists (fun v => match compute_node_commitment e (f v) with Ok c => set_commitment c (f v) | _ => f v end). split.
  - intros v. destruct (recommit_ok e (f v) He) as (c & -> & Hr).
    rewrite (sbind_ok _ _ _ _ _ (Hm v)). split; [done|by apply stores_recommit].
  - intros Hk v v'. rewrite (Hc Hk v v').
    destruct (compute_node_commitment_ok e (f v') He) as (c & ->). by destruct (f v), (f v').
Qed.
Lemma branch_commitment_blind e (cs : Children) i a b bv c d : commitment a = commitment b ->
  compute_node_commitment e (mkNode (Branch (<[i := Some a]> cs) bv) c d) =
  compute_node_commitment e (mkNode (Branch (<[i := Some b]> cs) bv) c d).
Proof.
  intros Hab. unfold compute_node_commitment. cbn [node_type]. f_equal.
  change (map ?f ?l) with (f <$> l). rewrite !list_fmap_insert. simpl. by rewrite Hab.
Qed.
(** The step of a walk: the work at the node, then its commitment. *)
Ltac insert_step tac :=
  cbn [insert_recursive]; unfold inserts; setoid_rewrite (sbind_ok sget _ _ _ _ eq_refl);
  eapply recommit_inserts; [done|tac|cbn [node_type]..].
Lemma new_branch_look k : look new_branch k = None.
Proof.
  unfold new_branch. destruct k as [|x k]; [done|]. rewrite look_branch.
  destruct (replicate 256 None !! Z.to_nat x) as [[?|]|] eqn:Hx; [|done..].
  by apply lookup_replicate in Hx as [? _].
Qed.
Lemma new_branch_wf r : wf new_branch (S r).
Proof. constructor; [apply length_replicate|]. by intros i n [? _]%lookup_replicate. Qed.

(** The slot of a branch the next byte of the key selects. *)
Lemma next_slot (cs : Children) x : length cs = 256%nat -> byte x ->
  exists slot, cs !! Z.to_nat x = Some slot /\ index (E := VerkleError) cs x = Ok slot.
Proof.
  intros Hl [? ?]. destruct (lookup_lt_is_Some_2 cs (Z.to_nat x)) as [slot Hslot]; [lia|].
  exists slot. split; [done|]. by apply index_spec.
Qed.
Lemma insert_free_slot e fuel p x k cs c d r : engine_ok e -> length cs = 256%nat ->
  (forall i n, cs !! i = Some (Some n) -> wf n r) -> length k = r -> bytes (x :: k) -> fits p (x :: k) ->
  cs !! Z.to_nat x = Some None ->
  inserts (S r) (mkNode (Branch cs None) c d) (x :: k)
    (fun v => insert_recursive e (S fuel) (p ++ x :: k) v (len p)).
Proof.
  intros He Hl Hc Hk Hb Hf Hs. pose proof (Forall_inv Hb) as Hx.
  insert_step ltac:(by intros v; apply free_slot_stores); [intros v|by intros; apply branch_commitment_blind].
  rewrite key_goes_on. unfold sbind, slift, smodify. rewrite index_mid, (proj2 (index_spec cs x None)) by (destruct Hx; done).
  rewrite (fits_next p x k) by done. replace (p ++ x :: k) with ((p ++ [x]) ++ k) by by rewrite <- app_assoc.
  rewrite rest_of_key, set_slot_ok by done. done.
Qed.
Lemma insert_suffix e fuel p stem k s c d r : engine_ok e -> bytes stem -> fits p (stem ++ k) ->
  (forall n, s = Some n -> is_extension n = false) ->
  inserts r (default new_branch s) k (fun v => insert_recursive e fuel ((p ++ stem) ++ k) v (len (p ++ stem))) ->
  inserts (length stem + r) (mkNode (Extension stem s) c d) (stem ++ k)
    (fun v => insert_recursive e (S fuel) (p ++ stem ++ k) v (len p)).
Proof.
  intros He Hb Hf Hn (f & Hfv & Hblind).
  insert_step ltac:(intros v; apply (suffix_stores stem s c d r k v (default new_branch s) (f v)); try done).
  - intros ->. apply new_branch_look.
  - destruct s as [s|]; [by apply Hn|done].
  - apply Hfv.
  - intros v. unfold sbind at 1, slift. rewrite rest_of_key, common_prefix_nibbles.
    rewrite (proj2 (TrieProofs.common_prefix_full stem (stem ++ k))), Z.eqb_refl by by exists k.
    unfold sbind, slift. rewrite (fits_stem p stem _ Hf), app_assoc. unfold on_part. by rewrite (proj1 (Hfv v)).
  - intros Hk v v'. unfold compute_node_commitment, compute_extension_commitment. cbn [node_type].
    rewrite (Hblind) with v v'; [done|]. destruct s as [s|]; [|apply new_branch_look]. by rewrite look_ext in Hk.
Qed.

Lemma insert_stores e n r : engine_ok e -> wf n r -> forall p k fuel, length k = r -> bytes k -> fits p k ->
  (need n r <= fuel)%nat -> inserts r n k (fun v => insert_recursive e fuel (p ++ k) v (len p)).
Proof.
  intros He. induction 1 as [v0 c d|stem s c d r Hb Hr Hn Hs IH|cs c d r Hl Hc IH];
    intros p k fuel Hk Hbk Hf Hfuel;
    (destruct fuel as [|fuel]; [by destruct (Nat.lt_irrefl 0 (Nat.lt_le_trans _ _ _ (need_pos _ _) Hfuel))|]).
  - insert_step idtac; [intros v; split_and!; [apply (wf_leaf v c d)|done|]|done|done].
    intros k' Hk' _. apply nil_length_inv in Hk, Hk'. subst. by rewrite decide_True.
  - destruct (TrieProofs.common_prefix_split stem k) as (cm & st & k1 & -> & -> & Hcm & Hd).
    rewrite <- common_prefix_nibbles in Hcm. rewrite !length_app in Hk. destruct st as [|x st].
    + rewrite app_nil_r in *. simpl in Hk. apply insert_suffix; [done..|].
      apply Forall_app in Hbk as [_ Hbk]. apply fits_app in Hf. destruct s as [s|]; simpl.
      * apply (IH s eq_refl); [lia|done..|]. unfold need in *. simpl in Hfuel. rewrite (Hn s eq_refl). lia.
      * destruct k1 as [|x k1], r as [|r]; simpl in Hk; try (specialize (Hr eq_refl); lia).
        unfold need in Hfuel; simpl in Hfuel. destruct fuel as [|fuel]; [lia|].
        apply insert_free_slot; [done|apply length_replicate|by intros i n [? _]%lookup_replicate|lia|done..|].
        pose proof (Forall_inv Hbk) as [? ?]. apply lookup_replicate_2. lia.
    + destruct k1 as [|y k1]; simpl in Hk; [lia|]. pose proof Hbk as [_ Hy]%Forall_app.
      insert_step ltac:(intros v; apply split_stores; try done; [by apply (Hd _ _ st k1)|lia]); [intros v|done].
      unfold sbind, slift. rewrite rest_of_key, Hcm.
      rewrite (proj2 (Z.eqb_neq (len cm) (len (cm ++ x :: st))))
        by (rewrite len_app, len_cons; pose proof (len_nonneg st); lia).
      by apply split_ok.
  - destruct k as [|x k]; [done|]. pose proof (Forall_inv Hbk) as Hx.
    destruct (next_slot cs x Hl Hx) as ([n|] & Hs & Hi).
    2:{ apply insert_free_slot; try done. by injection Hk. }
    destruct (IH _ _ Hs (p ++ [x]) k fuel) as (f & Hfv & Hblind).
    { by injection Hk. } { by apply Forall_inv_tail in Hbk. } { by apply (fits_app p [x] k). }
    { unfold need in *. simpl in Hfuel. destruct (is_extension n); lia. }
    insert_step ltac:(intros v; apply (child_stores cs c d r x k v n (f v)); [done..|apply Hfv]); [intros v|].
    + rewrite key_goes_on. unfold sbind, slift. rewrite index_mid, Hi, (fits_next p x k) by done.
      unfold on_part. replace (p ++ x :: k) with ((p ++ [x]) ++ k) by by rewrite <- app_assoc.
      by rewrite (proj1 (Hfv v)).
    + rewrite look_branch, Hs. intros Hk' v v'. by apply branch_commitment_blind, Hblind.
Qed.

(** * Deletions *)

(** The same contents, with other commitments. *)
Definition same (r : nat) n n' : Prop := wf n' r /\ is_extension n' = is_extension n /\
  is_node_empty n' = is_node_empty n /\ forall k, look n' k = look n k.
Lemma same_recommit r n n' c : same r n n' -> same r n (set_commitment c n').
Proof.
  intros (Hw & He & Hm & Hl). split_and!; [by apply wf_set_commitment|by rewrite is_extension_set_commitment| |].
  - by rewrite <- Hm; destruct n'.
  - intros. by rewrite look_set_commitment.
Qed.
Lemma same_refl r n : wf n r -> same r n n.
Proof. done. Qed.
Lemma has_child (cs : Children) i n : cs !! i = Some (Some n) -> forallb (fun c => bool_decide (c = None)) cs = false.
Proof.
  intros Hi. apply not_true_is_false. rewrite forallb_forall. intros Hall.
  assert (In (Some n) cs) as Hin by by eapply list_elem_of_In, list_elem_of_lookup_2.
  specialize (Hall _ Hin). by rewrite bool_decide_false in Hall.
Qed.
Lemma look_not_empty n k : is_Some (look n k) -> is_node_empty n = false.
Proof.
  destruct n as [[stem [s|]|cs bv|v] c d]; [done|by intros [? ?]| |done].
  intros Hk. unfold is_node_empty. cbn [node_type]. destruct k as [|x k].
  { destruct bv; [done|by destruct Hk]. }
  rewrite look_branch in Hk. destruct (cs !! Z.to_nat x) as [[n|]|] eqn:Hx; [|by destruct Hk..].
  apply andb_false_iff. right. by eapply has_child.
Qed.
Lemma same_suffix stem s s' c d r : bytes stem -> is_extension s = false -> same r s s' ->
  same (length stem + r) (mkNode (Extension stem (Some s)) c d) (mkNode (Extension stem (Some s')) c d).
Proof.
  intros Hb Hn (Hw & He & _ & Hl). split_and!; [|done|done|].
  - constructor; [done..| |]; intros ? [= <-]; congruence.
  - intros k. simpl. by rewrite Hl.
Qed.
Lemma same_child cs i n n' c d r : length cs = 256%nat -> (forall i n, cs !! i = Some (Some n) -> wf n r) ->
  cs !! i = Some (Some n) -> same r n n' ->
  same (S r) (mkNode (Branch cs None) c d) (mkNode (Branch (<[i := Some n']> cs) None) c d).
Proof.
  intros Hl Hc Hi (Hw & _ & _ & Hlk). pose proof (lookup_lt_Some _ _ _ Hi) as Hlt. split_and!; [|done| |].
  - constructor; [by rewrite length_insert|]. by intros j m [(<- & [= <-] & _)|[_ ?]]%list_lookup_insert_Some; eauto.
  - unfold is_node_empty. cbn [node_type]. f_equal. rewrite (has_child cs i n Hi).
    apply (has_child _ i n'). by apply list_lookup_insert_eq.
  - intros [|y k]; [done|]. rewrite !look_branch. destruct (decide (Z.to_nat y = i)) as [->|Hne].
    + rewrite list_lookup_insert_eq, Hi by done. apply Hlk.
    + by rewrite list_lookup_insert_ne.
Qed.

(** The end of a deletion: a new commitment when something was deleted. *)
Lemma delete_finish e r n (m : SM VerkleNode VerkleError bool) n1 b : engine_ok e -> m n = (Ok b, n1) -> same r n n1 ->
  exists n', (let! deleted := m in (if deleted : bool then recommit e else sret tt) ;;! sret deleted) n = (Ok b, n') /\
    same r n n'.
Proof.
  intros He Hm Hn. rewrite (sbind_ok _ _ _ _ _ Hm). destruct b; [|by exists n1].
  destruct (recommit_ok e n1 He) as (c & _ & Hc). exists (set_commitment c n1).
  rewrite (sbind_ok _ _ _ _ _ Hc). split; [done|by apply same_recommit].
Qed.
Ltac delete_step :=
  cbn [delete_recursive]; setoid_rewrite (sbind_ok sget _ _ _ _ eq_refl);
  eapply delete_finish; [done|cbn [node_type]|].

Lemma delete_same e n r : engine_ok e -> wf n r -> forall p k fuel, length k = r -> bytes k -> fits p k ->
  (need n r <= fuel)%nat ->
  exists n', delete_recursive e fuel (p ++ k) (len p) n = (Ok (bool_decide (is_Some (look n k))), n') /\ same r n n'.
Proof.
  intros He. induction 1 as [v0 c d|stem s c d r Hb Hr Hn Hs IH|cs c d r Hl Hc IH];
    intros p k fuel Hk Hbk Hf Hfuel;
    (destruct fuel as [|fuel]; [by destruct (Nat.lt_irrefl 0 (Nat.lt_le_trans _ _ _ (need_pos _ _) Hfuel))|]).
  - delete_step; [done|]. apply same_refl. constructor.
  - assert (wf (mkNode (Extension stem s) c d) (length stem + r)) as Hw by by constructor.
    destruct (decide (take (length stem) k = stem)) as [Ht|Ht], s as [s|].
    2-4: delete_step; [|by apply same_refl]; unfold sbind, slift; rewrite key_part_ok by done; simpl;
         by (rewrite bool_decide_true by done) || (rewrite bool_decide_false by done).
    assert (k = stem ++ drop (length stem) k) as Hkd by (rewrite <- Ht at 1; by rewrite take_drop).
    set (k1 := drop (length stem) k) in *. rewrite Hkd in Hf, Hbk, Hk |- *. clearbody k1. clear Hkd Ht.
    rewrite length_app in Hk. pose proof Hbk as [_ Hb1]%Forall_app.
    destruct (IH s eq_refl (p ++ stem) k1 fuel) as (n' & Hd & Hsame).
    { lia. } { done. } { by apply fits_app. }
    { unfold need in *. simpl in Hfuel. rewrite (Hn s eq_refl). lia. }
    rewrite look_ext.
    delete_step; [|by apply (same_suffix stem s n'); [|apply Hn|]].
    unfold sbind, slift. rewrite key_part_ok, take_app_length, bool_decide_true, (fits_stem p stem _ Hf) by done.
    unfold on_part. by rewrite app_assoc, Hd.
  - assert (wf (mkNode (Branch cs None) c d) (S r)) as Hw by by constructor.
    destruct k as [|x k]; [done|]. pose proof (Forall_inv Hbk) as Hx. rewrite look_branch.
    destruct (next_slot cs x Hl Hx) as ([n|] & Hs & Hi); rewrite Hs.
    2:{ delete_step; [|by apply same_refl]. rewrite key_goes_on. unfold sbind, slift. by rewrite index_mid, Hi. }
    destruct (IH _ _ Hs (p ++ [x]) k fuel) as (n' & Hd & Hsame).
    { by injection Hk. } { by apply Forall_inv_tail in Hbk. } { by apply (fits_app p [x] k). }
    { unfold need in *. simpl in Hfuel. destruct (is_extension n); lia. }
    delete_step; [|by apply (same_child cs (Z.to_nat x) n n')].
    rewrite key_goes_on. unfold sbind, slift. rewrite index_mid, Hi, (fits_next p x k) by done.
    unfold on_part, sget, sret. replace (p ++ x :: k) with ((p ++ [x]) ++ k) by by rewrite <- app_assoc.
    rewrite Hd. case_bool_decide as Hk'; [|done]. destruct Hsame as (_ & _ & -> & _).
    by rewrite (look_not_empty n k Hk').
Qed.
End walks.
End VerkleProofs.
