(* ===== verification/VerkleProps.v ===== *)
(** The Verkle tree as its users see it: a sequence of operations against a
    finite map, the commitment to the root, the proofs, and the accounts and
    storage slots kept in a tree. *)
From stdpp Require Import base list numbers option strings pretty gmap.
From Stdlib Require Import ZArith Lia.
From S2P Require Import Prelude U256 Verkle VerkleProofs.

Module VerkleProps.
Import Verkle VerkleProofs.

(** * Trees and maps *)

Section trees.
Context `{Profile} `{KeccakOps} (cache_keys : gmap (list Z) (list Z) -> list (list Z)).
Implicit Types (k v : list Z) (t : VerkleTree) (m : gmap (list Z) (list Z)).

Definition is_key k : Prop := length k = 32%nat /\ bytes k.

(** The tree holds [m]: its root does, and its cache has no other value. *)
Record holds t m : Prop := {
  holds_engine : engine_ok (commitment_engine t);
  holds_length : key_length (config t) = 32;
  holds_root : match tree_root t with
               | None => m = ∅
               | Some n => wf n 32 /\ is_extension n = true /\ forall k, is_key k -> look n k = m !! k
               end;
  holds_cache : enable_cache (config t) = true -> cache t ⊆ m;
}.

Lemma engine_new_ok c e : engine_new c = Ok e -> engine_ok e.
Proof.
  unfold engine_new. intros He data. destruct (commitment_scheme c) eqn:Hs; opened He; simplify_eq;
    unfold by_scheme; simpl; rewrite Hs; by eexists.
Qed.
Lemma tree_new_holds c t : key_length c = 32 -> tree_new c = Ok t -> holds t ∅.
Proof.
  intros Hc Ht. unfold tree_new in Ht. opened Ht. simplify_eq. split; simpl; [by eapply engine_new_ok|done..].
Qed.

Lemma check_key_ok k t m : holds t m -> is_key k -> check_key k t = (Ok tt, t).
Proof.
  intros Ht [Hk _]. unfold check_key, sbind, sget. rewrite (holds_length t m Ht).
  unfold len. by rewrite Hk.
Qed.
Lemma h256_key k : is_key k -> h256_from_slice k = Ok k.
Proof. intros [Hk _]. unfold h256_from_slice, len. by rewrite Hk. Qed.
Lemma evict_subseteq c : evict_cache_entries cache_keys c ⊆ c.
Proof.
  unfold evict_cache_entries. generalize (take (size c / 10) (cache_keys c)) as l.
  intros l. revert c. induction l as [|k l IH]; intros c; simpl; [done|].
  transitivity (delete k c); [apply IH|apply delete_subseteq].
Qed.
Lemma holds_metrics t m x : holds t m -> holds (set_metrics x t) m.
Proof. intros []; by split. Qed.
Lemma key_fits k : is_key k -> fits [] k.
Proof. intros [Hk _]. unfold fits, len, isize_max. simpl. rewrite Hk. done. Qed.
Lemma root_need n fuel : is_extension n = true -> (66 <= fuel)%nat -> (need n 32 <= fuel)%nat.
Proof. unfold need. intros ->. lia. Qed.

Lemma root_default_wf : wf (new_extension (replicate 31 0)) 32.
Proof.
  apply (wf_ext (replicate 31 0) None default_commitment 0 1); [apply bytes_zeros|lia|done..].
Qed.
(** The node an insertion starts from. *)
Lemma holds_start t m : holds t m -> let n := default (new_extension (replicate 31 0)) (tree_root t) in
  wf n 32 /\ is_extension n = true /\ forall k, is_key k -> look n k = m !! k.
Proof.
  intros Ht. pose proof (holds_root t m Ht) as Hr. destruct (tree_root t) as [n|]; [done|]. subst m. simpl.
  split_and!; [apply root_default_wf|done|]. intros. by rewrite lookup_empty.
Qed.

Lemma insert_holds t m k v fuel : holds t m -> is_key k -> (66 <= fuel)%nat ->
  exists t', tree_insert cache_keys fuel k v t = (Ok tt, t') /\ holds t' (<[k := v]> m).
Proof.
  intros Ht Hk Hfuel. destruct (holds_start t m Ht) as (Hw & He & Hl).
  destruct (insert_stores _ _ _ (holds_engine t m Ht) Hw [] k fuel) as (f & Hf & _);
    [apply Hk..|by apply key_fits|by apply root_need|].
  destruct (Hf v) as [Hi (Hw' & He' & Hl')].
  unfold tree_insert. rewrite (sbind_ok _ _ _ _ _ (check_key_ok k t m Ht Hk)).
  unfold sbind, sget, sput, on_part. cbn [set_metrics tree_root commitment_engine].
  change (insert_recursive (commitment_engine t) fuel ([] ++ k) v (len [])) with
    (insert_recursive (commitment_engine t) fuel k v 0) in Hi. rewrite Hi. cbn [set_root set_metrics config].
  assert (forall k', is_key k' -> look (f v) k' = <[k := v]> m !! k') as Hlook.
  { intros k' [Hk' Hb']. rewrite Hl' by done. destruct (decide (k' = k)) as [->|Hne].
    - by rewrite lookup_insert_eq.
    - rewrite lookup_insert_ne by done. by apply Hl. }
  destruct (enable_cache (config t)) eqn:Hcache.
  - rewrite h256_key by done. unfold slift. eexists. split; [reflexivity|]. destruct Ht. split; simpl; [done..| |].
    + split_and!; [done|by rewrite He'|done].
    + intros _. assert (<[k := v]> (cache t) ⊆ <[k := v]> m) by (apply insert_mono; auto).
      destruct (_ <? _); [etransitivity; [apply evict_subseteq|]|]; done.
  - eexists. split; [reflexivity|]. destruct Ht. split; simpl; [done..| |by rewrite Hcache].
    split_and!; [done|by rewrite He'|done].
Qed.
Lemma get_holds t m k fuel : holds t m -> is_key k -> (66 <= fuel)%nat ->
  exists t', tree_get fuel k t = (Ok (m !! k), t') /\ holds t' m.
Proof.
  intros Ht Hk Hfuel. unfold tree_get. rewrite (sbind_ok _ _ _ _ _ (check_key_ok k t m Ht Hk)).
  unfold sbind at 1, sget at 1. unfold sbind at 1, sput at 1. unfold sbind at 1, sget at 1.
  set (t1 := set_metrics (count_read (metrics t)) t).
  assert (forall x, exists t', (match tree_root t1 with
      | Some root => slift (get_recursive fuel root k 0) | None => sret None end) (set_metrics x t1)
      = (Ok (m !! k), t') /\ holds t' m) as Hwalk.
  { intros x. exists (set_metrics x t1). split; [|by apply holds_metrics, holds_metrics].
    pose proof (holds_root t m Ht) as Hr. subst t1. cbn [set_metrics tree_root].
    destruct (tree_root t) as [n|]; [|subst m; by rewrite lookup_empty]. destruct Hr as (Hw & He & Hl).
    unfold slift. change k with ([] ++ k) at 1. change 0 with (len (@nil Z)).
    rewrite (get_look n 32 Hw [] k fuel), Hl; [done|done|apply Hk|apply Hk|by apply key_fits|by apply root_need]. }
  change (config t1) with (config t). destruct (enable_cache (config t)) eqn:Hcache.
  - rewrite h256_key by done. unfold sbind at 2, slift at 1. change (cache t1) with (cache t).
    destruct (cache t !! k) as [v|] eqn:Hv; unfold sbind, sput, sret at 1.
    + eexists. split; [|apply holds_metrics, holds_metrics, Ht].
      by rewrite (lookup_weaken _ _ _ _ Hv (holds_cache t m Ht Hcache)).
    + apply Hwalk.
  - unfold sbind, sret at 1. destruct (Hwalk (metrics t1)) as (t' & ? & ?). by exists t'.
Qed.
Lemma delete_holds t m k fuel : holds t m -> is_key k -> (66 <= fuel)%nat ->
  exists t', tree_delete fuel k t = (Ok (bool_decide (is_Some (m !! k))), t') /\ holds t' m.
Proof.
  intros Ht Hk Hfuel. unfold tree_delete. rewrite (sbind_ok _ _ _ _ _ (check_key_ok k t m Ht Hk)).
  unfold sbind, sget, on_part. pose proof (holds_root t m Ht) as Hr.
  destruct (tree_root t) as [n|] eqn:Hroot; [|subst m; by exists t]. destruct Hr as (Hw & He & Hl).
  destruct (delete_same _ _ _ (holds_engine t m Ht) Hw [] k fuel) as (n' & Hd & Hw' & He' & _ & Hl');
    [apply Hk..|by apply key_fits|by apply root_need|].
  change (delete_recursive (commitment_engine t) fuel ([] ++ k) (len [])) with
    (delete_recursive (commitment_engine t) fuel k 0) in Hd. rewrite Hd, Hl by done.
  assert (holds (set_root (Some n') t) m) as Ht'.
  { destruct Ht. split; simpl; [done..| |done]. split_and!; [done|congruence|]. intros. by rewrite Hl', Hl. }
  cbn [set_root config]. destruct (bool_decide (is_Some (m !! k)) && enable_cache (config t)).
  - rewrite h256_key by done. unfold slift, sput. eexists. split; [reflexivity|]. destruct Ht'. split; simpl; [done..|].
    intros Hc. etransitivity; [apply delete_subseteq|auto].
  - by eexists.
Qed.

(** ** Sequences of operations *)

Inductive op := InsertOp k v | GetOp k | DeleteOp k.
Inductive answer := Inserted | Value (v : option (list Z)) | Deleted (b : bool).
Definition op_key (o : op) : list Z := match o with InsertOp k _ | GetOp k | DeleteOp k => k end.
Definition tree_op (fuel : nat) (o : op) : SM VerkleTree VerkleError answer :=
  match o with
  | InsertOp k v => tree_insert cache_keys fuel k v ;;! sret Inserted
  | GetOp k => let! found := tree_get fuel k in sret (Value found)
  | DeleteOp k => let! b := tree_delete fuel k in sret (Deleted b)
  end.
(** A map whose deletions remove nothing. *)
Definition map_op (o : op) m : outcome VerkleError answer * gmap (list Z) (list Z) :=
  if negb (length (op_key o) =? 32)%nat then (Err (InvalidKey "Key length must be 32"), m)
  else match o with
  | InsertOp k v => (Ok Inserted, <[k := v]> m)
  | GetOp k => (Ok (Value (m !! k)), m)
  | DeleteOp k => (Ok (Deleted (bool_decide (is_Some (m !! k)))), m)
  end.
(** Every answer, errors included. *)
Fixpoint answers {S} (step : op -> S -> outcome VerkleError answer * S) (ops : list op) (s : S) :
    list (outcome VerkleError answer) :=
  match ops with
  | [] => []
  | o :: ops => (step o s).1 :: answers step ops (step o s).2
  end.
Fixpoint after {S} (step : op -> S -> outcome VerkleError answer * S) (ops : list op) (s : S) : S :=
  match ops with
  | [] => s
  | o :: ops => after step ops (step o s).2
  end.
(** The trees that operations lead to. *)
Definition reachable (c : VerkleConfig) (fuel : nat) t : Prop := exists t0 ops,
  tree_new c = Ok t0 /\ Forall (fun o => bytes (op_key o)) ops /\ t = after (tree_op fuel) ops t0.

Lemma check_key_err k t m : holds t m -> length k <> 32%nat ->
  check_key k t = (Err (InvalidKey "Key length must be 32"), t).
Proof.
  intros Ht Hk. unfold check_key, sbind, sget. rewrite (holds_length t m Ht).
  unfold len. rewrite (proj2 (Z.eqb_neq (Z.of_nat (length k)) 32)) by lia. done.
Qed.
Lemma op_holds t m o fuel : holds t m -> bytes (op_key o) -> (66 <= fuel)%nat ->
  (tree_op fuel o t).1 = (map_op o m).1 /\ holds (tree_op fuel o t).2 (map_op o m).2.
Proof.
  intros Ht Hb Hfuel. unfold map_op. destruct (Nat.eqb_spec (length (op_key o)) 32) as [Hk|Hk]; simpl.
  - destruct o as [k v|k|k]; simpl in *.
    + destruct (insert_holds t m k v fuel) as (t' & Hi & ?); [done..|]. by rewrite (sbind_ok _ _ _ _ _ Hi).
    + destruct (get_holds t m k fuel) as (t' & Hi & ?); [done..|]. by rewrite (sbind_ok _ _ _ _ _ Hi).
    + destruct (delete_holds t m k fuel) as (t' & Hi & ?); [done..|]. by rewrite (sbind_ok _ _ _ _ _ Hi).
  - pose proof (check_key_err _ t m Ht Hk) as Hc.
    destruct o as [k v|k|k]; simpl in *; unfold tree_insert, tree_get, tree_delete, sbind; by rewrite Hc.
Qed.
Lemma ops_hold ops t m fuel : holds t m -> Forall (fun o => bytes (op_key o)) ops -> (66 <= fuel)%nat ->
  answers (tree_op fuel) ops t = answers map_op ops m.
Proof.
  intros Ht Hops Hfuel. revert t m Ht. induction Hops as [|o ops Ho Hops IH]; intros t m Ht; simpl; [done|].
  destruct (op_holds t m o fuel Ht Ho Hfuel) as [-> Ht']. by rewrite (IH _ _ Ht').
Qed.
Lemma after_holds ops t m fuel : holds t m -> Forall (fun o => bytes (op_key o)) ops -> (66 <= fuel)%nat ->
  holds (after (tree_op fuel) ops t) (after map_op ops m).
Proof.
  intros Ht Hops Hfuel. revert t m Ht. induction Hops as [|o ops Ho Hops IH]; intros t m Ht; simpl; [done|].
  apply IH. by apply op_holds.
Qed.
Lemma reachable_holds c fuel t : key_length c = 32 -> (66 <= fuel)%nat -> reachable c fuel t -> exists m, holds t m.
Proof.
  intros Hc Hfuel (t0 & ops & Ht & Hops & ->). eexists. apply after_holds; [|done..].
  by eapply tree_new_holds.
Qed.

Lemma insert_commitment t m k fuel : holds t m -> is_key k -> (66 <= fuel)%nat -> m !! k = None ->
  exists c, forall v, root_commitment (tree_insert cache_keys fuel k v t).2 = Some c.
Proof.
  intros Ht Hk Hfuel Hm. destruct (holds_start t m Ht) as (Hw & He & Hl).
  destruct (insert_stores _ _ _ (holds_engine t m Ht) Hw [] k fuel) as (f & Hf & Hc);
    [apply Hk..|by apply key_fits|by apply root_need|].
  rewrite Hl in Hc by done. exists (commitment (f [])). intros v.
  unfold tree_insert. rewrite (sbind_ok _ _ _ _ _ (check_key_ok k t m Ht Hk)).
  unfold sbind, sget, sput, on_part. cbn [set_metrics tree_root commitment_engine].
  pose proof (proj1 (Hf v)) as Hi.
  change (insert_recursive (commitment_engine t) fuel ([] ++ k) v (len [])) with
    (insert_recursive (commitment_engine t) fuel k v 0) in Hi. rewrite Hi. cbn [set_root set_metrics config].
  destruct (enable_cache (config t)); [rewrite h256_key by done|]; unfold root_commitment; simpl; by rewrite (Hc Hm v []).
Qed.
End trees.

(** C19: a new Verkle tree with keys of 32 bytes answers every sequence of
    insertions, lookups and deletions, of well-sized and of other keys, as a
    finite map does whose deletions report the key and remove nothing; the
    cache and its eviction never show, and walks of 66 nodes are enough. *)
Theorem verkle_tree_refines_map `{Profile} `{KeccakOps} cache_keys c t ops fuel :
  key_length c = 32 -> tree_new c = Ok t -> Forall (fun o => bytes (op_key o)) ops -> (66 <= fuel)%nat ->
  answers (tree_op cache_keys fuel) ops t = answers map_op ops ∅.
Proof. intros Hc Ht ? ?. apply ops_hold; [|done..]. by eapply tree_new_holds. Qed.

(** the commitment of the root does not depend on the value stored under
    a key that was not in the tree: two trees that differ in that value have
    the same root. *)
Theorem root_ignores_new_value `{Profile} `{KeccakOps} cache_keys c fuel t k v v' :
  key_length c = 32 -> (66 <= fuel)%nat -> reachable cache_keys c fuel t -> is_key k ->
  (tree_get fuel k t).1 = Ok None ->
  root_commitment (tree_insert cache_keys fuel k v t).2 = root_commitment (tree_insert cache_keys fuel k v' t).2.
Proof.
  intros Hc Hfuel Ht Hk Hg. destruct (reachable_holds _ c fuel t Hc Hfuel Ht) as (m & Hm).
  destruct (get_holds t m k fuel Hm Hk Hfuel) as (t' & Hg' & _). rewrite Hg' in Hg. injection Hg as Hg.
  destruct (insert_commitment cache_keys t m k fuel Hm Hk Hfuel Hg) as (x & Hx). by rewrite !Hx.
Qed.

(** * Proofs *)

(** ** The inner-product commitment, a block of 32 bytes at a time *)

Lemma byte_lxor a b : byte a -> byte b -> byte (Z.lxor a b).
Proof.
  intros [? ?] [? ?]. assert (0 <= Z.lxor a b) by (apply Z.lxor_nonneg; lia). split; [done|].
  destruct (Z.eq_dec (Z.lxor a b) 0) as [->|]; [lia|].
  apply (Z.log2_lt_pow2 _ 8); [lia|]. pose proof (Z.log2_lxor a b ltac:(lia) ltac:(lia)).
  assert (forall x, 0 <= x < 256 -> Z.log2 x < 8) as Hlog.
  { intros x ?. destruct (Z.eq_dec x 0) as [->|]; [done|]. apply Z.log2_lt_pow2; lia. }
  pose proof (Hlog a ltac:(lia)). pose proof (Hlog b ltac:(lia)). lia.
Qed.
Lemma byte_wrap x : byte (wrap 8 x).
Proof. unfold wrap, byte. apply Z.mod_pos_bound. done. Qed.

Definition bytes32 (l : list Z) : Prop := length l = 32%nat /\ bytes l.
Lemma ipa_loop_bytes rows data acc : bytes32 acc -> bytes32 (ipa_loop rows data acc).
Proof.
  revert rows acc. induction data as [|b data IH]; intros [|row rows] acc Hacc; simpl; [done..|].
  apply IH. destruct Hacc as [Hl Hb]. unfold ipa_row. split; [by rewrite length_imap|].
  unfold bytes. rewrite Forall_lookup. intros j x. rewrite list_lookup_imap.
  destruct (acc !! j) as [c|] eqn:Hc; [|done]. intros [= <-].
  pose proof (Forall_lookup_1 _ _ _ _ Hb Hc). destruct (row !! j); [|done]. apply byte_lxor; [done|apply byte_wrap].
Qed.

(** The rows of one block: [a] at each place in turn. *)
Definition block (a : Z) (q n : nat) : list (list Z) := map (fun i => <[i := a]> (replicate 32 0)) (seq q n).
Definition xor_with (a c b : Z) : Z := Z.lxor c (wrap 8 (a * b)).
Lemma ipa_row_block a b done_ c rest : (length (done_ ++ c :: rest) = 32)%nat ->
  ipa_row (<[length done_ := a]> (replicate 32 0)) b (done_ ++ c :: rest) = done_ ++ xor_with a c b :: rest.
Proof.
  intros Hl. rewrite length_app in Hl. simpl in Hl.
  pose proof (length_replicate 32 0) as Hz. pose proof (fun i => lookup_replicate_2 32 0 i) as Hz0.
  set (zeros := replicate 32 0) in *. clearbody zeros. apply list_eq. intros j. unfold ipa_row. rewrite list_lookup_imap.
  destruct (decide (j = length done_)) as [->|Hne].
  - rewrite !list_lookup_middle by done. simpl. by rewrite list_lookup_insert_eq by lia.
  - rewrite list_lookup_insert_ne by done.
    transitivity ((done_ ++ c :: rest) !! j).
    + destruct ((done_ ++ c :: rest) !! j) as [x|] eqn:Hj; [|done]. simpl.
      apply lookup_lt_Some in Hj. rewrite length_app in Hj. simpl in Hj.
      rewrite Hz0 by lia. simpl. f_equal. apply Z.lxor_0_r.
    + destruct (decide (j < length done_)%nat); [by rewrite !lookup_app_l|].
      rewrite !lookup_app_r by lia. by destruct (j - length done_)%nat eqn:?; [lia|].
Qed.
Lemma ipa_loop_block a rows more done_ acc data : (length (done_ ++ acc) = 32)%nat -> length data = length acc ->
  ipa_loop (block a (length done_) (length acc) ++ rows) (data ++ more) (done_ ++ acc) =
  ipa_loop rows more (done_ ++ zip_with (xor_with a) acc data).
Proof.
  revert done_ data. induction acc as [|c acc IH]; intros done_ [|b data] Hl Hd; try done.
  cbn [length block seq map app ipa_loop]. rewrite ipa_row_block by done.
  assert (length (done_ ++ [xor_with a c b]) = S (length done_)) as Hs by (rewrite length_app; simpl; lia).
  specialize (IH (done_ ++ [xor_with a c b]) data). rewrite Hs, <- !app_assoc in IH.
  rewrite length_app in *. simpl in *. rewrite <- IH by lia. done.
Qed.
Lemma ipa_block a rows more acc data : length acc = 32%nat -> length data = 32%nat ->
  ipa_loop (block a 0 32 ++ rows) (data ++ more) acc = ipa_loop rows more (zip_with (xor_with a) acc data).
Proof. intros Ha Hd. rewrite <- Ha. apply (ipa_loop_block a rows more [] acc data); simpl; lia. Qed.

Section forging.
Context `{Profile} `{KeccakOps}.

Lemma basis_rows_app l k rows : basis_rows (l ++ k) = Ok rows -> exists rs ss,
  basis_rows l = Ok rs /\ basis_rows k = Ok ss /\ rows = rs ++ ss.
Proof.
  revert rows. induction l as [|i l IH]; intros rows Hr; simpl in *; [by exists [], rows|].
  opened Hr. opened Hr. destruct (IH _ Hr1) as (rs & ss & Hrs & Hss & ->). exists (r :: rs), ss.
  rewrite Hr0, Hrs. simplify_eq. done.
Qed.
(** The basis starts with the blocks of 1, of 2 and of 3. *)
Lemma basis_blocks w p : 96 <= w -> ipa_params_new w = Ok p ->
  exists rows, basis p = block 1 0 32 ++ block 2 0 32 ++ block 3 0 32 ++ rows.
Proof.
  intros Hw Hp. unfold ipa_params_new in Hp. opened Hp. simplify_eq. simpl.
  replace (Z.to_nat w) with (32 + (32 + (32 + (Z.to_nat w - 96))))%nat in Hr by lia.
  rewrite !seq_app in Hr.
  apply basis_rows_app in Hr as (r1 & s1 & H1 & (r2 & s2 & H2 & (r3 & s3 & H3 & _ & ->)%basis_rows_app & ->)%basis_rows_app & ->).
  vm_compute in H1, H2, H3. injection H1 as <-. injection H2 as <-. injection H3 as <-. by exists s3.
Qed.

Lemma xor_fresh n l : length l = n -> bytes l -> zip_with (xor_with 1) (replicate n 0) l = l.
Proof.
  intros <-. induction 1 as [|x l [? ?] Hl IH]; simpl; [done|]. rewrite IH. f_equal. unfold xor_with, wrap.
  rewrite Z.lxor_0_l, Z.mul_1_l. by apply Z.mod_small.
Qed.
Lemma xor_zeros n a l : length l = n -> zip_with (xor_with a) l (replicate n 0) = l.
Proof.
  intros <-. induction l as [|x l IH]; simpl; [done|]. rewrite IH. f_equal. unfold xor_with. rewrite Z.mul_0_r. apply Z.lxor_0_r.
Qed.
(** 3 times 171 is 1 modulo 256. *)
Definition solve (l r : list Z) : list Z := zip_with (fun x y => wrap 8 (171 * Z.lxor x y)) l r.
Lemma xor_solve l r : length l = length r -> bytes l -> bytes r -> zip_with (xor_with 3) l (solve l r) = r.
Proof.
  revert r. induction l as [|x l IH]; intros [|y r] Hlen Hl Hr; try done. injection Hlen as Hlen.
  apply Forall_cons in Hl as [Hx Hl], Hr as [Hy Hr]. simpl. rewrite IH by done. f_equal. unfold xor_with.
  pose proof (byte_lxor x y Hx Hy) as [? ?].
  replace (wrap 8 (3 * wrap 8 (171 * Z.lxor x y))) with (Z.lxor x y).
  { by rewrite <- Z.lxor_assoc, Z.lxor_nilpotent, Z.lxor_0_l. }
  unfold wrap. rewrite Z.mul_mod_idemp_r, Z.mul_assoc by done. symmetry.
  change (3 * 171) with (1 + 2 * 2 ^ 8). rewrite Z.mul_add_distr_r, Z.mul_1_l.
  replace (2 * 2 ^ 8 * Z.lxor x y) with (2 * Z.lxor x y * 2 ^ 8) by lia. rewrite Z.mod_add by done. by apply Z.mod_small.
Qed.

Definition forged (current root : list Z) : Commitment :=
  mkCommitment (replicate 32 0 ++ solve current root) IPA_commitment.
Lemma combine_forged e p ty current root : commitment_scheme (engine_config e) = IPA -> ipa_params e = Some p ->
  (exists rows, basis p = block 1 0 32 ++ block 2 0 32 ++ block 3 0 32 ++ rows) ->
  bytes32 current -> bytes32 root ->
  exists c, combine_commitments e (mkCommitment current ty) (forged current root) = Ok c /\ value c = root.
Proof.
  intros Hs Hp (rows & Hb) [Hc Hcb] [Hr Hrb]. unfold combine_commitments, by_scheme. rewrite Hs.
  unfold compute_ipa_commitment. rewrite Hp, Hb. eexists. split; [reflexivity|]. cbn [value forged].
  rewrite ipa_block; [|apply length_replicate|done].
  rewrite xor_fresh by done. rewrite ipa_block; [|done|apply length_replicate].
  rewrite xor_zeros by done. rewrite <- (app_nil_r (solve current root)).
  assert (length (solve current root) = 32%nat) by (unfold solve; rewrite length_zip_with; lia).
  rewrite ipa_block by done. rewrite xor_solve by (done || lia). by destruct rows.
Qed.
Lemma combine_default e p root : commitment_scheme (engine_config e) = IPA -> ipa_params e = Some p ->
  (exists rows, basis p = block 1 0 32 ++ block 2 0 32 ++ block 3 0 32 ++ rows) ->
  bytes32 root ->
  exists c, combine_commitments e default_commitment (mkCommitment root IPA_commitment) = Ok c /\ value c = root.
Proof.
  intros Hs Hp (rows & Hb) [Hr Hrb]. unfold combine_commitments, by_scheme. rewrite Hs.
  unfold compute_ipa_commitment. rewrite Hp, Hb. eexists. split; [reflexivity|]. cbn [value default_commitment app].
  rewrite <- (app_nil_r root) at 1. rewrite ipa_block; [|apply length_replicate|done].
  by rewrite xor_fresh.
Qed.
Lemma verify_one e key v path sibling root current c :
  match v with Some v => compute_leaf_commitment e v | None => Ok default_commitment end = Ok current ->
  combine_commitments e current sibling = Ok c -> value c = value root ->
  engine_verify_proof e (mkProof key v [(path, sibling)] root) = Ok true.
Proof.
  intros Hv Hc Hr. unfold engine_verify_proof, reconstruct_commitment_from_proof.
  cbn [proof_value proof_nodes rev app]. rewrite Hv. cbn [obind combine_all]. rewrite Hc. cbn [obind].
  by rewrite bool_decide_true.
Qed.
End forging.

(** with the inner-product scheme of the default configuration, a proof
    can be made for any value, or for the absence of a value, under any key
    and against any root commitment: one made-up sibling is enough for
    [verify_proof] to accept it. *)
Theorem verkle_proof_forgeable `{Profile} `{KeccakOps} c e key v root :
  commitment_scheme c = IPA -> 96 <= width c -> engine_new c = Ok e -> bytes32 (value root) ->
  exists sibling, engine_verify_proof e (mkProof key v [([], sibling)] root) = Ok true.
Proof.
  intros Hs Hw He Hr. unfold engine_new in He. rewrite Hs in He. opened He. injection He as <-.
  apply basis_blocks in Hr0; [|done]. set (e := mkEngine c (Some r) None).
  destruct v as [v|].
  - set (leaf := ipa_loop (basis r) v (replicate 32 0)).
    assert (bytes32 leaf) as Hleaf by (apply ipa_loop_bytes; split; [apply length_replicate|apply bytes_zeros]).
    destruct (combine_forged e r IPA_commitment leaf (value root) Hs eq_refl Hr0 Hleaf Hr) as (x & Hx & Hv).
    exists (forged leaf (value root)). eapply verify_one; [|exact Hx|exact Hv].
    unfold compute_leaf_commitment, by_scheme. cbn [engine_config e]. by rewrite Hs.
  - destruct (combine_default e r (value root) Hs eq_refl Hr0 Hr) as (x & Hx & Hv).
    exists (mkCommitment (value root) IPA_commitment). by eapply verify_one.
Qed.

(** * Accounts and storage *)

Section accounts.
Context `{Profile} `{KeccakOps} (cache_keys : gmap (list Z) (list Z) -> list (list Z)).
Context {S : Type} (serialize : S -> list Z + string) (deserialize : list Z -> S + string).
Implicit Types (a slot : list Z) (t : VerkleTree).

Definition is_address a : Prop := length a = 20%nat /\ bytes a.
Lemma account_key_ok a : is_address a -> exists k, account_key a = Ok k /\ is_key k /\ k = 0 :: a ++ replicate 11 0.
Proof.
  intros [Hl Hb]. unfold account_key, len. rewrite Hl. simpl. eexists. split_and!; [done| |done].
  split; [simpl; rewrite length_app, Hl; done|]. constructor; [done|]. apply bytes_app. split; [done|apply (bytes_zeros 11)].
Qed.
Lemma storage_key_ok `{!KeccakLaws} a slot : exists k, storage_key a slot = Ok k /\ is_key k /\
  k = 1 :: take 31 (keccak256 (a ++ slot)).
Proof.
  unfold storage_key, keccak256. pose proof (keccak_length (a ++ slot)) as Hl. pose proof (keccak_bytes (a ++ slot)) as Hb.
  unfold slice, len. cbv zeta. rewrite Hl. simpl. eexists. split_and!; [done| |done].
  split; [simpl; rewrite length_take, length_drop, Hl; done|]. constructor; [done|]. by apply bytes_take.
Qed.

(** What a read of an account or of a slot gives. *)
Definition account_at (data : option (list Z)) : outcome VerkleError (option S) :=
  match data with Some data => let? s := decode_state deserialize data in Ok (Some s) | None => Ok None end.
Definition slot_at (data : option (list Z)) : outcome VerkleError (option (list Z)) :=
  match data with Some data => let? h := h256_from_slice data in Ok (Some h) | None => Ok None end.
Lemma get_account_holds t m fuel a k : holds t m -> (66 <= fuel)%nat -> account_key a = Ok k -> is_key k ->
  (get_account deserialize fuel a t).1 = account_at (m !! k).
Proof.
  intros Ht Hfuel Ha Hk. destruct (get_holds t m k fuel Ht Hk Hfuel) as (t' & Hg & _).
  unfold get_account, sbind, slift. rewrite Ha, Hg. destruct (m !! k) as [d|]; [|done]. simpl.
  by destruct (decode_state deserialize d).
Qed.
Lemma get_storage_holds t m fuel a slot k : holds t m -> (66 <= fuel)%nat -> storage_key a slot = Ok k -> is_key k ->
  (get_storage fuel a slot t).1 = slot_at (m !! k).
Proof.
  intros Ht Hfuel Ha Hk. destruct (get_holds t m k fuel Ht Hk Hfuel) as (t' & Hg & _).
  unfold get_storage, sbind, slift. rewrite Ha, Hg. destruct (m !! k) as [d|]; [|done]. simpl.
  by destruct (h256_from_slice d).
Qed.
End accounts.

(** an account written to a reachable tree is read back, and the write
    changes no other account and no storage slot. *)
Theorem account_roundtrip `{Profile} `{!KeccakOps} `{!KeccakLaws} cache_keys {S}
    (serialize : S -> list Z + string) (deserialize : list Z -> S + string) c fuel t a s :
  (forall s b, serialize s = inl b -> deserialize b = inl s) ->
  key_length c = 32 -> (66 <= fuel)%nat -> reachable cache_keys c fuel t -> is_address a ->
  match serialize s with
  | inr msg => set_account cache_keys serialize fuel a s t = (Err (DatabaseError msg), t)
  | inl _ => exists t', set_account cache_keys serialize fuel a s t = (Ok tt, t') /\
      (get_account deserialize fuel a t').1 = Ok (Some s) /\
      (forall a', is_address a' -> a' <> a ->
         (get_account deserialize fuel a' t').1 = (get_account deserialize fuel a' t).1) /\
      forall a' slot, (get_storage fuel a' slot t').1 = (get_storage fuel a' slot t).1
  end.
Proof.
  intros Hser Hc Hfuel Ht Ha. destruct (reachable_holds _ c fuel t Hc Hfuel Ht) as (m & Hm).
  destruct (account_key_ok a Ha) as (k & Hk & Hkey & Hk').
  unfold set_account, sbind, slift. rewrite Hk. unfold encode_state.
  destruct (serialize s) as [b|msg] eqn:Hs; [|done].
  destruct (insert_holds cache_keys t m k b fuel Hm Hkey Hfuel) as (t' & Hi & Ht').
  exists t'. split; [done|]. split_and!.
  - erewrite get_account_holds by done. rewrite lookup_insert_eq. simpl. unfold decode_state. by rewrite (Hser s b).
  - intros a' Ha' Hne. destruct (account_key_ok a' Ha') as (k1 & Hk1 & Hkey1 & ->).
    erewrite !get_account_holds by done. rewrite lookup_insert_ne; [done|]. subst k.
    intros [= Heq%app_inj_1]; [by destruct Heq|]. destruct Ha, Ha'. congruence.
  - intros a' slot. destruct (storage_key_ok a' slot) as (k1 & Hk1 & Hkey1 & ->).
    erewrite !get_storage_holds by done. by rewrite lookup_insert_ne by (by subst k).
Qed.

(** in a reachable tree a nonzero value written to a slot is read back,
    and a write of zero succeeds and changes nothing: every slot and every
    account, the written slot included, reads as before. *)
Theorem zero_write_keeps_slot `{Profile} `{!KeccakOps} `{!KeccakLaws} cache_keys {S}
    (deserialize : list Z -> S + string) c fuel t a slot v :
  key_length c = 32 -> (66 <= fuel)%nat -> reachable cache_keys c fuel t -> length v = 32%nat ->
  exists t', set_storage cache_keys fuel a slot v t = (Ok tt, t') /\
    if bool_decide (v = replicate 32 0) then
      (forall a' slot', (get_storage fuel a' slot' t').1 = (get_storage fuel a' slot' t).1) /\
      forall a', is_address a' -> (get_account deserialize fuel a' t').1 = (get_account deserialize fuel a' t).1
    else (get_storage fuel a slot t').1 = Ok (Some v).
Proof.
  intros Hc Hfuel Ht Hv. destruct (reachable_holds _ c fuel t Hc Hfuel Ht) as (m & Hm).
  destruct (storage_key_ok a slot) as (k & Hk & Hkey & _).
  unfold set_storage, sbind, slift. rewrite Hk. case_bool_decide.
  - destruct (delete_holds t m k fuel Hm Hkey Hfuel) as (t' & -> & Ht'). exists t'. split_and!; [done|..].
    + intros a' slot'. destruct (storage_key_ok a' slot') as (k1 & Hk1 & Hkey1 & _).
      by erewrite !get_storage_holds by done.
    + intros a' Ha'. destruct (account_key_ok a' Ha') as (k1 & Hk1 & Hkey1 & _).
      by erewrite !get_account_holds by done.
  - destruct (insert_holds cache_keys t m k v fuel Hm Hkey Hfuel) as (t' & Hi & Ht'). exists t'. split; [done|].
    erewrite get_storage_holds by done. rewrite lookup_insert_eq. simpl. unfold h256_from_slice, len. by rewrite Hv.
Qed.

(** * Witnesses *)

Definition sample_engine : VerkleCommitment :=
  match engine_new (H := dev_profile) default_config with Ok e => e | _ => mkEngine default_config None None end.
Definition sample_tree : VerkleTree := mkTree default_config None sample_engine ∅ metrics_new.
Definition sample_key (x : Z) : list Z := replicate 10 7 ++ x :: replicate 21 0.
(** A hash map that gives its keys in the order of the model's map. *)
Definition sample_keys (c : gmap (list Z) (list Z)) : list (list Z) := map fst (map_to_list c).
Lemma sample_tree_new : tree_new (H := dev_profile) default_config = Ok sample_tree.
Proof. by vm_compute. Qed.
Lemma sample_key_ok x : byte x -> is_key (sample_key x).
Proof.
  intros Hx. split; [done|]. unfold sample_key. apply bytes_app. split; [by repeat constructor|].
  constructor; [done|]. apply (bytes_zeros 21).
Qed.
Lemma sample_reachable fuel : reachable (H := dev_profile) sample_keys default_config fuel sample_tree.
Proof. exists sample_tree, []. split_and!; [apply sample_tree_new|done|done]. Qed.

Definition sample_ops : list op :=
  [InsertOp (sample_key 1) [5]; InsertOp (sample_key 2) [6]; DeleteOp (sample_key 1); GetOp (sample_key 1);
   GetOp (sample_key 3); GetOp [1; 2]].
Lemma verkle_tree_refines_map_witness :
  answers (tree_op (H := dev_profile) sample_keys 66) sample_ops sample_tree =
  [Ok Inserted; Ok Inserted; Ok (Deleted true); Ok (Value (Some [5])); Ok (Value None);
   Err (InvalidKey "Key length must be 32")].
Proof.
  rewrite (verkle_tree_refines_map (H := dev_profile) sample_keys default_config sample_tree sample_ops 66
    eq_refl sample_tree_new); [by vm_compute|repeat constructor; done|lia].
Defined.

Lemma root_ignores_new_value_witness :
  root_commitment (tree_insert (H := dev_profile) sample_keys 66 (sample_key 1) [5] sample_tree).2 =
  root_commitment (tree_insert (H := dev_profile) sample_keys 66 (sample_key 1) [6; 7] sample_tree).2.
Proof.
  apply (root_ignores_new_value (H := dev_profile) sample_keys default_config 66 sample_tree (sample_key 1) [5] [6; 7]);
    [done|lia|apply sample_reachable|by apply sample_key_ok|by vm_compute].
Defined.

Lemma verkle_proof_forgeable_witness :
  exists sibling, engine_verify_proof sample_engine
    (mkProof (sample_key 1) (Some [99]) [([], sibling)] (mkCommitment (replicate 32 1) IPA_commitment)) = Ok true.
Proof.
  apply (verkle_proof_forgeable (H := dev_profile) default_config sample_engine);
    [done|done|by vm_compute|split; [done|by repeat constructor]].
Defined.

Lemma account_roundtrip_witness :
  exists t', set_account (H := dev_profile) sample_keys (fun n : Z => inl [n]) 66 (replicate 20 3) 42 sample_tree = (Ok tt, t') /\
    (get_account (H := dev_profile) (fun b => match b with [n] => inl n | _ => inr "length"%string end) 66
       (replicate 20 3) t').1 = Ok (Some 42).
Proof.
  destruct (account_roundtrip (H := dev_profile) sample_keys (fun n : Z => inl [n])
    (fun b => match b with [n] => inl n | _ => inr "length"%string end) default_config 66 sample_tree (replicate 20 3) 42)
    as (t' & Hs & Hg & _); [by intros s b [= <-]|done|lia|apply sample_reachable|split; [done|by repeat constructor]|].
  by exists t'.
Defined.

Lemma zero_write_keeps_slot_witness :
  let t := (set_storage (H := dev_profile) sample_keys 66 (replicate 20 3) (replicate 32 0) (replicate 32 9) sample_tree).2 in
  exists t', set_storage (H := dev_profile) sample_keys 66 (replicate 20 3) (replicate 32 0) (replicate 32 0) t = (Ok tt, t') /\
    (get_storage (H := dev_profile) 66 (replicate 20 3) (replicate 32 0) t').1 = Ok (Some (replicate 32 9)).
Proof.
  intros t. destruct (zero_write_keeps_slot (H := dev_profile) sample_keys (fun b => inl b) default_config 66 t
    (replicate 20 3) (replicate 32 0) (replicate 32 0)) as (t' & Hs & Hz); [done|lia| |done|].
  - exists sample_tree, [InsertOp (1 :: take 31 (keccak256 (replicate 20 3 ++ replicate 32 0))) (replicate 32 9)].
    split_and!; [apply sample_tree_new| |by vm_compute]. constructor; [|done]. by vm_compute; repeat constructor.
  - exists t'. split; [exact Hs|]. rewrite bool_decide_true in Hz by done.
    rewrite (proj1 Hz). by vm_compute.
Defined.

(** The proof the tree makes for a key it holds is rejected. *)
Example honest_proof_rejected :
  let t := (tree_insert (H := dev_profile) sample_keys 66 (sample_key 1) [5] sample_tree).2 in
  (let? p := generate_proof (H := dev_profile) 66 (sample_key 1) t in tree_verify_proof p t) = Ok false.
Proof. by vm_compute. Qed.
(** A commitment takes no account of the bytes past the width of the tree. *)
Lemma ipa_ignores_tail `{Profile} e p data more : ipa_params e = Some p -> length data = length (basis p) ->
  compute_ipa_commitment e (data ++ more) = compute_ipa_commitment e data.
Proof.
  intros Hp Hl. unfold compute_ipa_commitment. rewrite Hp. do 2 f_equal.
  generalize (replicate 32 0) as acc. revert Hl. generalize (basis p) as rows.
  induction data as [|b data IH]; intros [|row rows] Hl acc; try done; [by destruct more|]. simpl. apply IH. by injection Hl.
Qed.

End VerkleProps.
