(* ===== verification/VerkleWitness.v ===== *)
(** Proof objects and execution witnesses: crates/verkle/src/proof.rs, the
    batch proofs of commitment.rs, and witness.rs.  A witness lists the state
    an execution touched, with the gas charged for it; its builder keeps an
    access list so that state is charged once. *)
From stdpp Require Import base list numbers option strings gmap sets.
From Stdlib Require Import ZArith Lia.
From S2P Require Import Prelude U256 Verkle.

Module VerkleWitness.
Import Verkle.

(** * proof.rs *)

Definition is_inclusion_proof (p : VerkleProof) : bool := bool_decide (is_Some (proof_value p)).
Definition is_exclusion_proof (p : VerkleProof) : bool := bool_decide (proof_value p = None).
Definition proof_len (p : VerkleProof) : Z := len (proof_nodes p).

(** The trait [CommitmentVerifier]. *)
Class CommitmentVerifier := {
  verifier_leaf : list Z -> outcome VerkleError Commitment;
  verifier_combine : Commitment -> Commitment -> list Z -> outcome VerkleError Commitment;
}.
Section verifier.
Context `{CommitmentVerifier}.
Fixpoint verifier_climb (nodes : list (list Z * Commitment)) (current : Commitment) : outcome VerkleError Commitment :=
  match nodes with
  | [] => Ok current
  | (segment, sibling) :: nodes => let? c := verifier_combine current sibling segment in verifier_climb nodes c
  end.
Definition verifier_verify (p : VerkleProof) : outcome VerkleError bool :=
  let? current := match proof_value p with Some v => verifier_leaf v | None => Ok default_commitment end in
  let? root := verifier_climb (rev (proof_nodes p)) current in
  Ok (bool_decide (value root = value (root_commitment_of p))).
Fixpoint verify_batch (proofs : list VerkleProof) : outcome VerkleError (list bool) :=
  match proofs with
  | [] => Ok []
  | p :: proofs => let? b := verifier_verify p in let? bs := verify_batch proofs in Ok (b :: bs)
  end.
End verifier.

Record MultiProof := mkMulti {
  keys : list (list Z);
  values : list (option (list Z));
  commitments : gmap (list Z) Commitment;
  multi_root : Commitment;
}.
Definition multi_new (ks : list (list Z)) (vs : list (option (list Z))) (root : Commitment) : MultiProof :=
  mkMulti ks vs ∅ root.
Definition add_commitment (path : list Z) (c : Commitment) (p : MultiProof) : MultiProof :=
  mkMulti (keys p) (values p) (<[path := c]> (commitments p)) (multi_root p).
Definition multi_size (p : MultiProof) : Z := len (keys p).
Definition multi_proof_size (p : MultiProof) : Z := Z.of_nat (size (commitments p)).

Definition add_proof_to (p : VerkleProof) (proofs : list VerkleProof) : list VerkleProof := proofs ++ [p].
(** [ProofAggregator::aggregate] *)
Definition aggregate_proofs (proofs : list VerkleProof) : outcome VerkleError MultiProof :=
  match proofs with
  | [] => Err (InvalidProof "No proofs to aggregate")
  | first :: rest =>
      let root := root_commitment_of first in
      if forallb (fun p => bool_decide (value (root_commitment_of p) = value root)) rest then
        let multi := multi_new (map proof_key proofs) (map proof_value proofs) root in
        Ok (foldl (fun m p => foldl (fun m '(path, c) => add_commitment path c m) m (proof_nodes p)) multi proofs)
      else Err (InvalidProof "Proofs have different root commitments")
  end.

Record ProofBuilder := mkProofBuilder {
  pb_key : list Z; pb_value : option (list Z); pb_nodes : list (list Z * Commitment);
}.
Definition proof_builder_new (key : list Z) : ProofBuilder := mkProofBuilder key None [].
Definition set_value (v : list Z) (b : ProofBuilder) : ProofBuilder := mkProofBuilder (pb_key b) (Some v) (pb_nodes b).
Definition add_node (path : list Z) (c : Commitment) (b : ProofBuilder) : ProofBuilder :=
  mkProofBuilder (pb_key b) (pb_value b) (pb_nodes b ++ [(path, c)]).
Definition build_proof (root : Commitment) (b : ProofBuilder) : VerkleProof :=
  mkProof (pb_key b) (pb_value b) (pb_nodes b) root.

(** * The batch proofs of commitment.rs *)

Record IPAProof := mkIPAProof {
  ipa_commitments : list Commitment; evaluations : list (list Z); ipa_proof : list Z;
}.
Definition ipa_proof_new : IPAProof := mkIPAProof [] [] [].
Definition ipa_verify `{KeccakOps} (p : IPAProof) (c : Commitment) (point v : list Z) : bool :=
  bool_decide (keccak256 (value c ++ point ++ v) = ipa_proof p).
Record BatchProof := mkBatch {
  batch_keys : list (list Z);
  batch_values : list (option (list Z));
  batch_commitments : list Commitment;
  batch_proof : IPAProof;
}.
Definition batch_new (ks : list (list Z)) (vs : list (option (list Z))) : BatchProof := mkBatch ks vs [] ipa_proof_new.
(** The loop from key [i] on. *)
Fixpoint batch_loop `{KeccakOps} (p : BatchProof) (i : Z) (ks : list (list Z)) : outcome VerkleError bool :=
  match ks with
  | [] => Ok true
  | key :: ks =>
      let? v := index (batch_values p) i in
      match v with
      | Some v =>
          let? c := index (batch_commitments p) i in
          if ipa_verify (batch_proof p) c key v then batch_loop p (i + 1) ks else Ok false
      | None => batch_loop p (i + 1) ks
      end
  end.
(** The root commitment it is given is not looked at. *)
Definition batch_verify `{KeccakOps} (p : BatchProof) (root : Commitment) : outcome VerkleError bool :=
  batch_loop p 0 (batch_keys p).

(** * witness.rs *)

Record AccountWitness := mkAccountWitness { aw_nonce : Z; aw_balance : Z; aw_code_hash : list Z; aw_code_size : Z }.
Record CodeChunk := mkChunk { chunk_offset : Z; chunk_data : list Z }.
Record Witness := mkWitness {
  state_root : Commitment;
  accounts : gmap (list Z) AccountWitness;
  storage : gmap (list Z) (gmap (list Z) (list Z));
  code_chunks : gmap (list Z) (list CodeChunk);
  proofs : list VerkleProof;
  gas_used : Z;
}.
Definition WITNESS_ACCOUNT_COST : Z := 2500.
Definition WITNESS_STORAGE_COST : Z := 2100.
Definition WITNESS_CODE_CHUNK_COST : Z := 200.
Definition witness_new (root : Commitment) : Witness := mkWitness root ∅ ∅ ∅ [] 0.

Section witness.
Context `{Profile}.

Definition charge (cost : Z) (w : Witness) : outcome VerkleError Witness :=
  let? gas := uadd 64 (gas_used w) cost in
  Ok (mkWitness (state_root w) (accounts w) (storage w) (code_chunks w) (proofs w) gas).
Definition add_account (a : list Z) (x : AccountWitness) (w : Witness) : outcome VerkleError Witness :=
  charge WITNESS_ACCOUNT_COST
    (mkWitness (state_root w) (<[a := x]> (accounts w)) (storage w) (code_chunks w) (proofs w) (gas_used w)).
Definition put_slot (a slot v : list Z) (s : gmap (list Z) (gmap (list Z) (list Z))) :=
  <[a := <[slot := v]> (default ∅ (s !! a))]> s.
Definition add_storage (a slot v : list Z) (w : Witness) : outcome VerkleError Witness :=
  charge WITNESS_STORAGE_COST
    (mkWitness (state_root w) (accounts w) (put_slot a slot v (storage w)) (code_chunks w) (proofs w) (gas_used w)).
Definition put_chunks (h : list Z) (cs : list CodeChunk) (m : gmap (list Z) (list CodeChunk)) :=
  <[h := default [] (m !! h) ++ cs]> m.
Definition add_code_chunk (h : list Z) (c : CodeChunk) (w : Witness) : outcome VerkleError Witness :=
  charge WITNESS_CODE_CHUNK_COST
    (mkWitness (state_root w) (accounts w) (storage w) (put_chunks h [c] (code_chunks w)) (proofs w) (gas_used w)).
Definition add_proof (p : VerkleProof) (w : Witness) : Witness :=
  mkWitness (state_root w) (accounts w) (storage w) (code_chunks w) (proofs w ++ [p]) (gas_used w).
(** In bytes; a sum of the lengths of vectors and maps in memory. *)
Definition witness_size (w : Witness) : Z :=
  32 + Z.of_nat (size (accounts w)) * (20 + 32 * 3 + 8)
  + map_fold (fun _ slots n => n + Z.of_nat (size slots) * 64) 0 (storage w)
  + map_fold (fun _ cs n => foldl (fun n c => n + (8 + len (chunk_data c))) n cs) 0 (code_chunks w)
  + foldl (fun n p => n + (len (proof_key p) + from_option len 0 (proof_value p)) + len (proof_nodes p) * 64) 0 (proofs w).
Definition witness_verify (w : Witness) : bool :=
  forallb (fun p => bool_decide (value (root_commitment_of p) = value (state_root w))) (proofs w).

(** ** Access lists and the builder *)

Record AccessList := mkAccess {
  al_accounts : gset (list Z);
  al_storage : gmap (list Z) (gset (list Z));
  al_chunks : gmap (list Z) (gset Z);
}.
Definition access_new : AccessList := mkAccess ∅ ∅ ∅.
Definition al_add_account (a : list Z) (l : AccessList) : AccessList :=
  mkAccess ({[a]} ∪ al_accounts l) (al_storage l) (al_chunks l).
Definition has_account (a : list Z) (l : AccessList) : bool := bool_decide (a ∈ al_accounts l).
Definition al_add_storage (a slot : list Z) (l : AccessList) : AccessList :=
  mkAccess (al_accounts l) (<[a := {[slot]} ∪ default ∅ (al_storage l !! a)]> (al_storage l)) (al_chunks l).
Definition has_storage (a slot : list Z) (l : AccessList) : bool :=
  from_option (fun slots : gset (list Z) => bool_decide (slot ∈ slots)) false (al_storage l !! a).
Definition al_add_code_chunk (a : list Z) (i : Z) (l : AccessList) : AccessList :=
  mkAccess (al_accounts l) (al_storage l) (<[a := {[i]} ∪ default ∅ (al_chunks l !! a)]> (al_chunks l)).
Definition has_code_chunk (a : list Z) (i : Z) (l : AccessList) : bool :=
  from_option (fun chunks : gset Z => bool_decide (i ∈ chunks)) false (al_chunks l !! a).

(** [accessed_keys] is never read or written after construction. *)
Record WitnessBuilder := mkBuilder { witness : Witness; accessed_keys : gset (list Z); access_list : AccessList }.
Notation BM := (SM WitnessBuilder VerkleError).
Definition builder_new (root : Commitment) : WitnessBuilder := mkBuilder (witness_new root) ∅ access_new.
Definition mark (f : AccessList -> AccessList) : BM unit :=
  smodify (fun b => mkBuilder (witness b) (accessed_keys b) (f (access_list b))).
Definition on_witness (f : Witness -> outcome VerkleError Witness) : BM unit :=
  let! b := sget in
  let! w := slift (f (witness b)) in
  sput (mkBuilder w (accessed_keys b) (access_list b)).

Definition access_account (a : list Z) : BM unit :=
  let! b := sget in
  if has_account a (access_list b) then sret tt
  else
    mark (al_add_account a) ;;!
    on_witness (add_account a (mkAccountWitness 0 0 (replicate 32 0) 0)).
Definition access_storage (a slot : list Z) : BM unit :=
  let! b := sget in
  if has_storage a slot (access_list b) then sret tt
  else
    mark (al_add_storage a slot) ;;!
    on_witness (add_storage a slot (replicate 32 0)).
(** One chunk of the loop of [access_code]. *)
Definition access_chunk (a : list Z) (i : Z) : BM unit :=
  let! b := sget in
  if has_code_chunk a i (access_list b) then sret tt
  else
    mark (al_add_code_chunk a i) ;;!
    let! offset := slift (umul 64 i 31) in
    on_witness (add_code_chunk (replicate 32 0) (mkChunk offset (replicate 31 0))).
Fixpoint access_chunks (a : list Z) (indices : list Z) : BM unit :=
  match indices with
  | [] => sret tt
  | i :: indices => access_chunk a i ;;! access_chunks a indices
  end.
(** [start_chunk..=end_chunk] *)
Definition access_code (a : list Z) (offset size : Z) : BM unit :=
  let start_chunk := offset / 31 in
  let! stop := slift (uadd 64 offset size) in
  let! last := slift (usub 64 stop 1) in
  let end_chunk := last / 31 in
  access_chunks a (seqZ start_chunk (end_chunk - start_chunk + 1)).
Definition build (b : WitnessBuilder) : Witness := witness b.

(** ** Aggregation *)

(** The loops over the maps of [w]: an entry of a later witness replaces the
    one of an earlier. *)
Definition merge_witness (agg w : Witness) : outcome VerkleError Witness :=
  let? gas := uadd 64 (gas_used agg) (gas_used w) in
  Ok (mkWitness (state_root agg)
        (accounts w ∪ accounts agg)
        (union_with (fun new old => Some (new ∪ old)) (storage w) (storage agg))
        (union_with (fun new old => Some (old ++ new)) (code_chunks w) (code_chunks agg))
        (proofs agg ++ proofs w) gas).
Fixpoint merge_all (agg : Witness) (ws : list Witness) : outcome VerkleError Witness :=
  match ws with
  | [] => Ok agg
  | w :: ws => let? agg := merge_witness agg w in merge_all agg ws
  end.
Definition aggregate_witnesses (ws : list Witness) : outcome VerkleError Witness :=
  match ws with
  | [] => Err (InvalidProof "No witnesses to aggregate")
  | w :: _ => merge_all (witness_new (state_root w)) ws
  end.
End witness.

(** ** Validation *)

Record WitnessValidator := mkValidator {
  required_accounts : gset (list Z);
  required_storage : gmap (list Z) (gset (list Z));
  required_code : gset (list Z);
}.
Definition validator_new : WitnessValidator := mkValidator ∅ ∅ ∅.
Definition require_account (a : list Z) (v : WitnessValidator) : WitnessValidator :=
  mkValidator ({[a]} ∪ required_accounts v) (required_storage v) (required_code v).
Definition require_storage (a slot : list Z) (v : WitnessValidator) : WitnessValidator :=
  mkValidator (required_accounts v) (<[a := {[slot]} ∪ default ∅ (required_storage v !! a)]> (required_storage v))
    (required_code v).
Definition require_code (h : list Z) (v : WitnessValidator) : WitnessValidator :=
  mkValidator (required_accounts v) (required_storage v) ({[h]} ∪ required_code v).
Definition validate (v : WitnessValidator) (w : Witness) : bool :=
  forallb (fun a => bool_decide (is_Some (accounts w !! a))) (elements (required_accounts v)) &&
  forallb (fun '(a, slots) =>
             match storage w !! a with
             | Some present => forallb (fun slot => bool_decide (is_Some (present !! slot))) (elements slots)
             | None => false
             end) (map_to_list (required_storage v)) &&
  forallb (fun h => bool_decide (is_Some (code_chunks w !! h))) (elements (required_code v)).

(** * Accesses are charged once and recorded *)

Inductive access := AccountAccess (a : list Z) | StorageAccess (a slot : list Z) | CodeAccess (a : list Z) (offset size : Z).

(** The sum of a measure over a map. *)
Definition msum {A} (f : A -> Z) (m : gmap (list Z) A) : Z := map_fold (fun _ x n => n + f x) 0 m.
Lemma msum_insert {A} (f : A -> Z) m k x : m !! k = None -> msum f (<[k := x]> m) = msum f m + f x.
Proof. intros Hk. unfold msum. rewrite map_fold_insert_L; [done| |done]. intros. lia. Qed.
Lemma msum_update {A} (f : A -> Z) m k x : msum f (<[k := x]> m) = msum f m + f x - from_option f 0 (m !! k).
Proof.
  destruct (m !! k) as [y|] eqn:Hk; simpl; [|rewrite msum_insert by done; lia].
  rewrite <- insert_delete_eq, msum_insert by apply lookup_delete_eq.
  rewrite <- (insert_delete_id m k y Hk) at 2. rewrite msum_insert by apply lookup_delete_eq. lia.
Qed.

Definition slot_count (s : gmap (list Z) (gmap (list Z) (list Z))) : Z := msum (fun slots => Z.of_nat (size slots)) s.
Definition chunk_count (m : gmap (list Z) (list CodeChunk)) : Z := msum len m.
(** What the contents of a witness cost. *)
Definition content_cost (w : Witness) : Z :=
  2500 * Z.of_nat (size (accounts w)) + 2100 * slot_count (storage w) + 200 * chunk_count (code_chunks w).

Section builder.
Context `{Profile}.

Definition do_access (x : access) : SM WitnessBuilder VerkleError unit :=
  match x with
  | AccountAccess a => access_account a
  | StorageAccess a slot => access_storage a slot
  | CodeAccess a offset size => access_code a offset size
  end.
Fixpoint do_accesses (l : list access) : SM WitnessBuilder VerkleError unit :=
  match l with
  | [] => sret tt
  | x :: l => do_access x ;;! do_accesses l
  end.

(** The slots of an account in a map of slots. *)
Definition slots_of (a : list Z) (w : Witness) : gmap (list Z) (list Z) := default ∅ (storage w !! a).
(** The chunks the builder adds: they are all under the zero hash. *)
Definition chunks_of (w : Witness) : list CodeChunk := default [] (code_chunks w !! replicate 32 0).
Record consistent (b : WitnessBuilder) : Prop := {
  consistent_accounts a : a ∈ al_accounts (access_list b) <-> is_Some (accounts (witness b) !! a);
  consistent_slots a slot : has_storage a slot (access_list b) = true <-> is_Some (slots_of a (witness b) !! slot);
  consistent_chunks a i : has_code_chunk a i (access_list b) = true ->
    exists c, c ∈ chunks_of (witness b) /\ chunk_offset c = wrap 64 (i * 31);
  consistent_gas : gas_used (witness b) = wrap 64 (content_cost (witness b));
}.

Lemma uadd_wrap {E} w x y z : uadd (E := E) w (wrap w x) y = Ok z -> 0 <= w -> z = wrap w (x + y).
Proof.
  unfold uadd, checked_arith. intros Hz Hw.
  assert (wrap w (wrap w x + y) = wrap w (x + y)) as <- by (unfold wrap; apply Z.add_mod_idemp_l; pose proof (Z.pow_pos_nonneg 2 w); lia).
  destruct ((0 <=? wrap w x + y) && (wrap w x + y <? 2 ^ w)) eqn:Hr.
  - simplify_eq. symmetry. apply Z.mod_small. lia.
  - destruct overflow_checks; by simplify_eq.
Qed.
Lemma charge_inv cost w w' c : charge cost w = Ok w' -> gas_used w = wrap 64 c ->
  w' = mkWitness (state_root w) (accounts w) (storage w) (code_chunks w) (proofs w) (wrap 64 (c + cost)).
Proof.
  intros Hc Hg. unfold charge in Hc. opened Hc. rewrite Hg in Hr. apply uadd_wrap in Hr; [|done]. by simplify_eq.
Qed.
Lemma slots_put a slot v s a' : default ∅ (put_slot a slot v s !! a') =
  if decide (a' = a) then <[slot := v]> (default ∅ (s !! a)) else default ∅ (s !! a').
Proof.
  unfold put_slot. case_decide; [subst; by rewrite lookup_insert_eq|]. by rewrite lookup_insert_ne.
Qed.

Lemma put_chunk_count h c m : chunk_count (put_chunks h [c] m) = chunk_count m + 1.
Proof.
  unfold chunk_count, put_chunks. rewrite msum_update, len_snoc.
  destruct (m !! h); simpl; rewrite ?len_nil; lia.
Qed.

(** The witness has what [x] reads. *)
Definition records (w : Witness) (x : access) : Prop :=
  match x with
  | AccountAccess a => is_Some (accounts w !! a)
  | StorageAccess a slot => is_Some (slots_of a w !! slot)
  | CodeAccess a offset size => 0 <= offset -> 0 <= size -> offset + size < 2 ^ 64 ->
      forall q, offset <= q < offset + size ->
      exists c, c ∈ chunks_of w /\ chunk_offset c <= q < chunk_offset c + 31
  end.
Record grows (w w' : Witness) : Prop := {
  grows_accounts a : is_Some (accounts w !! a) -> is_Some (accounts w' !! a);
  grows_slots a slot : is_Some (slots_of a w !! slot) -> is_Some (slots_of a w' !! slot);
  grows_chunks c : c ∈ chunks_of w -> c ∈ chunks_of w';
}.
#[local] Instance grows_preorder : PreOrder grows.
Proof. split; [by split|]. intros w1 w2 w3 [] []. split; auto. Qed.
Lemma records_grows w w' x : grows w w' -> records w x -> records w' x.
Proof.
  intros []. destruct x; simpl; [auto..|]. intros Hr Ho Hs Hlt q Hq.
  destruct (Hr Ho Hs Hlt q Hq) as (c & ? & ?). exists c. auto.
Qed.

(** A step keeps the builder consistent and the witness growing. *)
Definition step_ok (b b' : WitnessBuilder) : Prop := consistent b -> consistent b' /\ grows (witness b) (witness b').
Lemma on_witness_inv f b b' : on_witness f b = (Ok tt, b') -> exists w, f (witness b) = Ok w /\
  b' = mkBuilder w (accessed_keys b) (access_list b).
Proof.
  unfold on_witness. intros (? & ? & [= <- <-] & Hb)%sbind_inv. apply sbind_inv in Hb as (w & ? & [= Hw <-] & [= <-]). eauto.
Qed.

Lemma access_account_ok a b b' : access_account a b = (Ok tt, b') ->
  consistent b -> (consistent b' /\ grows (witness b) (witness b')) /\ records (witness b') (AccountAccess a).
Proof.
  intros Ha Hb. unfold access_account in Ha. apply sbind_inv in Ha as (? & ? & [= <- <-] & Ha).
  unfold has_account in Ha. case_bool_decide as Hin.
  { injection Ha as <-. split; [by split|]. by apply Hb. }
  apply sbind_inv in Ha as ([] & b1 & [= <-] & (w & Hw & ->)%on_witness_inv).
  apply (charge_inv _ _ _ (content_cost (witness b))) in Hw; [|apply Hb]. subst w. destruct Hb as [Hacc Hst Hch Hg].
  assert (accounts (witness b) !! a = None) as Hnone by (apply eq_None_not_Some; by rewrite <- Hacc).
  split_and!; simpl; [split; simpl| |by rewrite lookup_insert_eq].
  - intros a'. rewrite lookup_insert_is_Some', elem_of_union, elem_of_singleton, Hacc. naive_solver.
  - apply Hst.
  - apply Hch.
  - unfold content_cost. simpl. rewrite map_size_insert_None by done. f_equal. unfold WITNESS_ACCOUNT_COST. lia.
  - split; simpl; [|done..]. intros a' ?. rewrite lookup_insert_is_Some'. auto.
Qed.
Lemma access_storage_ok a slot b b' : access_storage a slot b = (Ok tt, b') ->
  consistent b -> (consistent b' /\ grows (witness b) (witness b')) /\ records (witness b') (StorageAccess a slot).
Proof.
  intros Ha Hb. unfold access_storage in Ha. apply sbind_inv in Ha as (? & ? & [= <- <-] & Ha).
  destruct (has_storage a slot (access_list b)) eqn:Hin.
  { injection Ha as <-. split; [by split|]. by apply Hb. }
  apply sbind_inv in Ha as ([] & b1 & [= <-] & (w & Hw & ->)%on_witness_inv).
  apply (charge_inv _ _ _ (content_cost (witness b))) in Hw; [|apply Hb]. subst w. destruct Hb as [Hacc Hst Hch Hg].
  assert (slots_of a (witness b) !! slot = None) as Hnone by (apply eq_None_not_Some; by rewrite <- Hst, Hin).
  unfold slots_of in *. split_and!; simpl; [split; simpl| |].
  - apply Hacc.
  - intros a' slot'. unfold slots_of. simpl. rewrite slots_put. specialize (Hst a' slot').
    unfold has_storage in *. simpl. case_decide as Heq; [subst a'|by rewrite lookup_insert_ne].
    rewrite lookup_insert_eq, lookup_insert_is_Some'. simpl.
    rewrite bool_decide_eq_true, elem_of_union, elem_of_singleton, <- Hst.
    destruct (al_storage (access_list b) !! a); simpl; [rewrite bool_decide_eq_true|]; set_solver.
  - apply Hch.
  - unfold content_cost, slot_count. simpl. unfold put_slot. rewrite msum_update, map_size_insert_None by done.
    f_equal. unfold WITNESS_STORAGE_COST. destruct (storage (witness b) !! a) as [m|]; simpl; [|rewrite map_size_empty]; lia.
  - split; [done| |done]. intros a' slot'. unfold slots_of. simpl. rewrite slots_put. case_decide; [subst a'|done].
    intros ?. rewrite lookup_insert_is_Some'. auto.
  - unfold slots_of. simpl. rewrite slots_put, decide_True by done. by rewrite lookup_insert_eq.
Qed.
Lemma access_chunk_ok a i b b' : access_chunk a i b = (Ok tt, b') ->
  consistent b -> (consistent b' /\ grows (witness b) (witness b')) /\
    exists c, c ∈ chunks_of (witness b') /\ chunk_offset c = wrap 64 (i * 31).
Proof.
  intros Ha Hb. unfold access_chunk in Ha. apply sbind_inv in Ha as (? & ? & [= <- <-] & Ha).
  destruct (has_code_chunk a i (access_list b)) eqn:Hin.
  { injection Ha as <-. split; [by split|]. by eapply consistent_chunks. }
  apply sbind_inv in Ha as ([] & b1 & [= <-] & Ha). apply sbind_inv in Ha as (off & ? & [= Hoff <-] & (w & Hw & ->)%on_witness_inv).
  assert (off = wrap 64 (i * 31)) as ->.
  { unfold umul, checked_arith in Hoff. destruct (_ && _) eqn:Hr in Hoff.
    - simplify_eq. symmetry. apply Z.mod_small. lia.
    - destruct overflow_checks; by simplify_eq. }
  apply (charge_inv _ _ _ (content_cost (witness b))) in Hw; [|apply Hb]. subst w. destruct Hb as [Hacc Hst Hch Hg].
  set (c := mkChunk (wrap 64 (i * 31)) (replicate 31 0)).
  assert (forall w, default [] (put_chunks (replicate 32 0) [c] (code_chunks w) !! replicate 32 0) = chunks_of w ++ [c]) as Hput.
  { intros w. unfold put_chunks. by rewrite lookup_insert_eq. }
  split_and!; simpl; [split; simpl| |].
  - apply Hacc.
  - apply Hst.
  - intros a' i' Hi. unfold chunks_of. cbn [code_chunks]. rewrite Hput. unfold has_code_chunk in *. simpl in Hi.
    setoid_rewrite elem_of_app. setoid_rewrite list_elem_of_singleton.
    destruct (decide (a' = a /\ i' = i)) as [[-> ->]|Hne]; [exists c; naive_solver|].
    destruct (Hch a' i') as (c' & ? & ?); [|exists c'; naive_solver]. unfold has_code_chunk.
    destruct (decide (a' = a)) as [->|]; [|by rewrite lookup_insert_ne in Hi].
    rewrite lookup_insert_eq in Hi. simpl in Hi. rewrite bool_decide_eq_true in Hi.
    destruct (al_chunks (access_list b) !! a); simpl in *; [apply bool_decide_eq_true|]; set_solver.
  - unfold content_cost. cbn [accounts storage code_chunks]. rewrite put_chunk_count. f_equal.
    unfold WITNESS_CODE_CHUNK_COST. lia.
  - split; [done..|]. intros c'. unfold chunks_of at 2. cbn [code_chunks]. rewrite Hput. set_solver.
  - exists c. split; [|done]. unfold chunks_of. cbn [code_chunks]. rewrite Hput. set_solver.
Qed.
Lemma access_chunks_ok a l b b' : access_chunks a l b = (Ok tt, b') -> consistent b ->
  (consistent b' /\ grows (witness b) (witness b')) /\
  forall i, i ∈ l -> exists c, c ∈ chunks_of (witness b') /\ chunk_offset c = wrap 64 (i * 31).
Proof.
  revert b. induction l as [|i l IH]; intros b; simpl.
  { intros [= <-] Hb. split; [by split|]. intros i. set_solver. }
  intros ([] & b1 & Hi & Hl)%sbind_inv Hb. destruct (access_chunk_ok _ _ _ _ Hi Hb) as [[Hb1 Hg1] (c & Hc & Ho)].
  destruct (IH b1 Hl Hb1) as [[Hb' Hg'] Hall]. split; [split; [done|by etrans]|].
  intros j [->|Hj]%elem_of_cons; [|by apply Hall]. exists c. split; [by apply Hg'|done].
Qed.
Lemma access_code_ok a offset size b b' : access_code a offset size b = (Ok tt, b') -> consistent b ->
  (consistent b' /\ grows (witness b) (witness b')) /\ records (witness b') (CodeAccess a offset size).
Proof.
  intros Ha Hb. unfold access_code in Ha.
  apply sbind_inv in Ha as (stop & ? & [= Hstop <-] & Ha). apply sbind_inv in Ha as (last & ? & [= Hlast <-] & Ha).
  destruct (access_chunks_ok _ _ _ _ Ha Hb) as [? Hall]. split; [done|]. simpl. intros Ho Hs Hlt q Hq.
  unfold uadd in Hstop. rewrite checked_arith_ok in Hstop by (unfold uint; lia). simplify_eq.
  unfold usub in Hlast. rewrite checked_arith_ok in Hlast by (unfold uint; lia). simplify_eq.
  destruct (Hall (q / 31)) as (c & Hc & Hoff).
  { rewrite elem_of_seqZ. zlia. }
  exists c. split; [done|]. rewrite Hoff. unfold wrap. rewrite Z.mod_small by zlia. zlia.
Qed.
Lemma do_accesses_ok l b b' : do_accesses l b = (Ok tt, b') -> consistent b ->
  (consistent b' /\ grows (witness b) (witness b')) /\ Forall (records (witness b')) l.
Proof.
  revert b. induction l as [|x l IH]; intros b; simpl.
  { intros [= <-] Hb. split; [by split|constructor]. }
  intros ([] & b1 & Hx & Hl)%sbind_inv Hb.
  assert ((consistent b1 /\ grows (witness b) (witness b1)) /\ records (witness b1) x) as [[Hb1 Hg1] Hr].
  { destruct x; [by apply access_account_ok|by apply access_storage_ok|by eapply access_code_ok]. }
  destruct (IH b1 Hl Hb1) as [[Hb' Hg'] Hall]. split; [split; [done|by etrans]|].
  constructor; [by eapply records_grows|done].
Qed.
Lemma builder_new_consistent root : consistent (builder_new root).
Proof.
  split; simpl.
  - intros a. rewrite lookup_empty. unfold is_Some. set_solver.
  - intros a slot. unfold has_storage, slots_of. simpl. rewrite !lookup_empty. simpl. rewrite lookup_empty. unfold is_Some. naive_solver.
  - intros a i. unfold has_code_chunk. simpl. by rewrite lookup_empty.
  - by vm_compute.
Qed.

(** ** Repeated accesses *)

(** The access list already has [x]. *)
Definition marked (l : AccessList) (x : access) : Prop :=
  match x with
  | AccountAccess a => has_account a l = true
  | StorageAccess a slot => has_storage a slot l = true
  | CodeAccess a offset size => exists stop last, uadd (E := VerkleError) 64 offset size = Ok stop /\
      usub (E := VerkleError) 64 stop 1 = Ok last /\
      forall i, i ∈ seqZ (offset / 31) (last / 31 - offset / 31 + 1) -> has_code_chunk a i l = true
  end.
Record extends (l l' : AccessList) : Prop := {
  extends_accounts a : has_account a l = true -> has_account a l' = true;
  extends_slots a slot : has_storage a slot l = true -> has_storage a slot l' = true;
  extends_chunks a i : has_code_chunk a i l = true -> has_code_chunk a i l' = true;
}.
#[local] Instance extends_preorder : PreOrder extends.
Proof. split; [by split|]. intros l1 l2 l3 [] []. split; auto. Qed.
Lemma marked_extends l l' x : extends l l' -> marked l x -> marked l' x.
Proof. intros []. destruct x; simpl; [auto..|]. intros (stop & last & ? & ? & ?). exists stop, last. auto. Qed.
Lemma marked_quiet x b : marked (access_list b) x -> do_access x b = (Ok tt, b).
Proof.
  destruct x as [a|a slot|a offset size]; simpl.
  - intros Hm. unfold access_account, sbind, sget. by rewrite Hm.
  - intros Hm. unfold access_storage, sbind, sget. by rewrite Hm.
  - intros (stop & last & Hs & Hl & Hall). unfold access_code, sbind, slift. rewrite Hs, Hl.
    revert Hall. generalize (seqZ (offset / 31) (last / 31 - offset / 31 + 1)) as is_. intros is_.
    induction is_ as [|i is_ IH]; intros Hall; simpl; [done|].
    unfold access_chunk at 1, sbind at 1, sbind at 1, sget. rewrite Hall by left. apply IH. intros j ?. apply Hall. by right.
Qed.

Lemma on_witness_access_list f b b' : on_witness f b = (Ok tt, b') -> access_list b' = access_list b.
Proof. by intros (w & _ & ->)%on_witness_inv. Qed.
Lemma extends_add_account a l : extends l (al_add_account a l).
Proof. split; [|done..]. unfold has_account. simpl. intros a'. rewrite !bool_decide_eq_true. set_solver. Qed.
(** A set in a map of sets gains an element. *)
Lemma gain {A} `{Countable A} (m : gmap (list Z) (gset A)) a x a' x' :
  from_option (fun s : gset A => bool_decide (x' ∈ s)) false (<[a := {[x]} ∪ default ∅ (m !! a)]> m !! a') = true <->
  (a' = a /\ x' = x) \/ from_option (fun s : gset A => bool_decide (x' ∈ s)) false (m !! a') = true.
Proof.
  destruct (decide (a' = a)) as [->|Hne].
  - rewrite lookup_insert_eq. simpl. rewrite bool_decide_eq_true.
    destruct (m !! a); simpl; [rewrite bool_decide_eq_true|]; set_solver.
  - rewrite lookup_insert_ne by done. naive_solver.
Qed.
Lemma access_account_marks a b b' : access_account a b = (Ok tt, b') ->
  extends (access_list b) (access_list b') /\ marked (access_list b') (AccountAccess a).
Proof.
  intros Ha. unfold access_account in Ha. apply sbind_inv in Ha as (? & ? & [= <- <-] & Ha).
  destruct (has_account a (access_list b)) eqn:Hin; [by injection Ha as <-|].
  apply sbind_inv in Ha as ([] & b1 & [= <-] & ->%on_witness_access_list). split; [apply extends_add_account|].
  simpl. unfold has_account. simpl. apply bool_decide_eq_true. set_solver.
Qed.
Lemma access_storage_marks a slot b b' : access_storage a slot b = (Ok tt, b') ->
  extends (access_list b) (access_list b') /\ marked (access_list b') (StorageAccess a slot).
Proof.
  intros Ha. unfold access_storage in Ha. apply sbind_inv in Ha as (? & ? & [= <- <-] & Ha).
  destruct (has_storage a slot (access_list b)) eqn:Hin; [by injection Ha as <-|].
  apply sbind_inv in Ha as ([] & b1 & [= <-] & ->%on_witness_access_list).
  split; [split; [done| |done]; intros a' slot' ?|]; apply gain; auto.
Qed.
Lemma access_chunk_marks a i b b' : access_chunk a i b = (Ok tt, b') ->
  extends (access_list b) (access_list b') /\ has_code_chunk a i (access_list b') = true.
Proof.
  intros Ha. unfold access_chunk in Ha. apply sbind_inv in Ha as (? & ? & [= <- <-] & Ha).
  destruct (has_code_chunk a i (access_list b)) eqn:Hin; [by injection Ha as <-|].
  apply sbind_inv in Ha as ([] & b1 & [= <-] & Ha).
  apply sbind_inv in Ha as (off & ? & [= _ <-] & ->%on_witness_access_list).
  split; [split; [done..|]; intros a' i' ?|]; apply gain; auto.
Qed.
Lemma access_chunks_marks a l b b' : access_chunks a l b = (Ok tt, b') ->
  extends (access_list b) (access_list b') /\ forall i, i ∈ l -> has_code_chunk a i (access_list b') = true.
Proof.
  revert b. induction l as [|i l IH]; intros b; simpl.
  { intros [= <-]. split; [done|]. intros i. set_solver. }
  intros ([] & b1 & Hi & Hl)%sbind_inv. destruct (access_chunk_marks _ _ _ _ Hi) as [He Hi1].
  destruct (IH b1 Hl) as [He' Hall]. split; [by etrans|].
  intros j [->|Hj]%elem_of_cons; [by apply He'|by apply Hall].
Qed.
Lemma do_access_marks x b b' : do_access x b = (Ok tt, b') ->
  extends (access_list b) (access_list b') /\ marked (access_list b') x.
Proof.
  destruct x as [a|a slot|a offset size]; [apply access_account_marks|apply access_storage_marks|].
  simpl. intros Ha. unfold access_code in Ha.
  apply sbind_inv in Ha as (stop & ? & [= Hstop <-] & Ha). apply sbind_inv in Ha as (last & ? & [= Hlast <-] & Ha).
  destruct (access_chunks_marks _ _ _ _ Ha) as [? ?]. split; [done|]. by exists stop, last.
Qed.
Lemma do_accesses_marks l b b' : do_accesses l b = (Ok tt, b') ->
  extends (access_list b) (access_list b') /\ Forall (marked (access_list b')) l.
Proof.
  revert b. induction l as [|x l IH]; intros b; simpl; [by intros [= <-]|].
  intros ([] & b1 & Hx & Hl)%sbind_inv. destruct (do_access_marks _ _ _ Hx) as [He Hm].
  destruct (IH b1 Hl) as [He' Hall]. split; [by etrans|]. constructor; [by eapply marked_extends|done].
Qed.
Lemma all_marked_quiet l b : Forall (marked (access_list b)) l -> do_accesses l b = (Ok tt, b).
Proof.
  induction 1 as [|x l Hx _ IH]; simpl; [done|]. by rewrite (sbind_ok _ _ _ _ _ (marked_quiet x b Hx)).
Qed.
End builder.

(** a builder that was taken through any sequence of accesses holds
    everything they read (every byte of a code range is in a recorded chunk),
    has charged exactly the cost of its contents modulo [2^64], and repeating
    any of the accesses, in any order, changes nothing. *)
Theorem witness_complete_and_charged_once `{Profile} root l b :
  do_accesses l (builder_new root) = (Ok tt, b) ->
  Forall (records (build b)) l /\ gas_used (build b) = wrap 64 (content_cost (build b)) /\
  forall again, again ⊆ l -> do_accesses again b = (Ok tt, b).
Proof.
  intros Hl. destruct (do_accesses_ok _ _ _ Hl (builder_new_consistent root)) as [[Hb _] Hr].
  destruct (do_accesses_marks _ _ _ Hl) as [_ Hm]. split_and!; [done|apply Hb|].
  intros again Hsub. apply all_marked_quiet. rewrite Forall_forall in *. auto.
Qed.
Lemma witness_complete_and_charged_once_witness :
  let l := [AccountAccess [1]; StorageAccess [1] [2]; CodeAccess [1] 30 40; AccountAccess [1]] in
  exists b, do_accesses (H := dev_profile) l (builder_new default_commitment) = (Ok tt, b) /\
    gas_used (build b) = 2500 + 2100 + 3 * 200 /\ do_accesses (H := dev_profile) l b = (Ok tt, b).
Proof.
  intros l. destruct (do_accesses (H := dev_profile) l (builder_new default_commitment)) as [r b] eqn:Hl.
  vm_compute in Hl. injection Hl as <- Hb.
  assert (do_accesses (H := dev_profile) l (builder_new default_commitment) = (Ok tt, b)) as Hl by (subst b; by vm_compute).
  exists b. split; [done|].
  destruct (witness_complete_and_charged_once (H := dev_profile) default_commitment l b Hl) as (_ & -> & Hq).
  split; [subst b; by vm_compute|by apply Hq].
Defined.

(** ** What the validator checks *)

Lemma forallb_elements `{Countable A} (s : gset A) (P : A -> Prop) `{forall x, Decision (P x)} :
  forallb (fun x => bool_decide (P x)) (elements s) = true <-> forall x, x ∈ s -> P x.
Proof.
  rewrite forallb_forall. split; intros Hall x Hx.
  - eapply bool_decide_eq_true, Hall, list_elem_of_In, elem_of_elements, Hx.
  - eapply bool_decide_eq_true, Hall, elem_of_elements, list_elem_of_In, Hx.
Qed.
(** the validator accepts exactly the witnesses that have every required
    account, slot and code hash; an account with no required slot must still
    be in the storage of the witness. *)
Theorem validate_spec v w : validate v w = true <->
  (forall a, a ∈ required_accounts v -> is_Some (accounts w !! a)) /\
  (forall a slots, required_storage v !! a = Some slots -> exists present, storage w !! a = Some present /\
     forall slot, slot ∈ slots -> is_Some (present !! slot)) /\
  (forall h, h ∈ required_code v -> is_Some (code_chunks w !! h)).
Proof.
  unfold validate. rewrite !andb_true_iff, !forallb_elements.
  enough (forallb (fun '(a, slots) =>
             match storage w !! a with
             | Some present => forallb (fun slot => bool_decide (is_Some (present !! slot))) (elements slots)
             | None => false
             end) (map_to_list (required_storage v)) = true <->
    forall a slots, required_storage v !! a = Some slots -> exists present, storage w !! a = Some present /\
      forall slot, slot ∈ slots -> is_Some (present !! slot)) as -> by tauto.
  rewrite forallb_forall. split.
  - intros Hall a slots Hs. specialize (Hall (a, slots)).
    assert (In (a, slots) (map_to_list (required_storage v))) as Hin by by apply list_elem_of_In, elem_of_map_to_list.
    specialize (Hall Hin). simpl in Hall. destruct (storage w !! a) as [present|]; [|done].
    exists present. split; [done|]. by rewrite forallb_elements in Hall.
  - intros Hall [a slots] Hin%list_elem_of_In%elem_of_map_to_list. destruct (Hall a slots Hin) as (present & -> & Hp).
    by rewrite forallb_elements.
Qed.

End VerkleWitness.
