(* ===== verification/VerkleMigration.v ===== *)
(** Moving a state into a Verkle tree: crates/verkle/src/migration.rs.  The
    source of the state is a trait without an implementation in the
    repository, here the class [StateSource].  The migrator's state is its
    target tree, its status, its queue of accounts and its counters; the
    tracing, the sleeping and the handles of the workers are left out. *)
From stdpp Require Import base list numbers option strings gmap.
From Stdlib Require Import ZArith Lia.
From S2P Require Import Prelude U256 Verkle VerkleProofs VerkleProps.

Module VerkleMigration.
Import Verkle VerkleProofs VerkleProps.

Inductive MigrationStrategy :=
| Immediate
| Gradual (accounts_per_block storage_slots_per_account : Z)
| Overlay (transition_block : Z)
| CopyOnWrite.
Inductive MigrationPhase :=
| NotStarted | PreparingSnapshot | MigratingAccounts | MigratingStorage | VerifyingIntegrity | Completed.
Record MigrationStatus := mkStatus {
  total_accounts : Z;
  migrated_accounts : Z;
  total_storage_slots : Z;
  migrated_storage_slots : Z;
  started_at : Z;
  estimated_completion : option Z;
  current_phase : MigrationPhase;
}.
Record AccountData := mkAccountData { nonce : Z; balance : Z; code_hash : list Z; storage_root : list Z }.

(** The trait [StateSource]. *)
Class StateSource := {
  src_account : list Z -> outcome VerkleError (option AccountData);
  src_storage : list Z -> list Z -> outcome VerkleError (option (list Z));
  src_code : list Z -> outcome VerkleError (option (list Z));
  src_accounts : outcome VerkleError (list (list Z));
  src_storage_keys : list Z -> outcome VerkleError (list (list Z));
}.

Record MigrationQueue := mkQueue {
  queue_accounts : list (list Z);
  queue_storage : list (list Z * list Z);
  queue_code : list (list Z);
}.
Record MigrationMetrics := mkMigMetrics {
  accounts_processed : Z; storage_slots_processed : Z; errors_encountered : Z; bytes_migrated : Z;
}.
Record StateMigrator := mkMigrator {
  target_tree : VerkleTree;
  mig_status : MigrationStatus;
  migration_queue : MigrationQueue;
  mig_metrics : MigrationMetrics;
}.
Notation MM := (SM StateMigrator VerkleError).

Definition with_migrated (n : Z) (st : MigrationStatus) : MigrationStatus :=
  mkStatus (total_accounts st) n (total_storage_slots st) (migrated_storage_slots st) (started_at st)
    (estimated_completion st) (current_phase st).

Section migrator.
Context `{Profile} `{KeccakOps} `{StateSource} (cache_keys : gmap (list Z) (list Z) -> list (list Z)).
(** [bincode] on an account, [choose_multiple] of the rand crate, the clock and
    the text of an address. *)
Context (serialize : AccountData -> list Z + string) (deserialize : list Z -> AccountData + string).
Context (choose_multiple : list (list Z) -> Z -> list (list Z)) (now : Z) (show_address : list Z -> string).

Definition migrator_new (t : VerkleTree) : StateMigrator :=
  mkMigrator t (mkStatus 0 0 0 0 now None NotStarted) (mkQueue [] [] []) (mkMigMetrics 0 0 0 0).

Definition mig_account_key (address : list Z) : outcome VerkleError (list Z) :=
  if len address =? 20 then Ok ([0] ++ address ++ replicate 11 0) else Panic.
Definition mig_storage_key (address slot : list Z) : outcome VerkleError (list Z) :=
  let? first := slice (keccak256 (address ++ slot)) 0 31 in
  Ok ([1] ++ first).
Definition code_key (h : list Z) : outcome VerkleError (list Z) :=
  let? first := slice h 0 31 in
  Ok ([2] ++ first).
Definition encode_account (a : AccountData) : outcome VerkleError (list Z) :=
  match serialize a with inl b => Ok b | inr e => Err (MigrationFailed e) end.
Definition decode_account (b : list Z) : outcome VerkleError AccountData :=
  match deserialize b with inl a => Ok a | inr e => Err (MigrationFailed e) end.

(** ** Parts of the migrator *)
Definition on_status (f : MigrationStatus -> MigrationStatus) : MM unit :=
  smodify (fun s => mkMigrator (target_tree s) (f (mig_status s)) (migration_queue s) (mig_metrics s)).
Definition on_metrics (f : MigrationMetrics -> MigrationMetrics) : MM unit :=
  smodify (fun s => mkMigrator (target_tree s) (mig_status s) (migration_queue s) (f (mig_metrics s))).
Definition on_tree {A} (m : SM VerkleTree VerkleError A) : MM A :=
  fun s => let '(r, t) := m (target_tree s) in
           (r, mkMigrator t (mig_status s) (migration_queue s) (mig_metrics s)).
Definition set_phase (p : MigrationPhase) : MM unit :=
  on_status (fun st => mkStatus (total_accounts st) (migrated_accounts st) (total_storage_slots st)
    (migrated_storage_slots st) (started_at st) (estimated_completion st) p).
Definition count_account (m : MigrationMetrics) : MigrationMetrics :=
  mkMigMetrics (bump (accounts_processed m)) (storage_slots_processed m) (errors_encountered m) (bytes_migrated m).
Definition count_slot (m : MigrationMetrics) : MigrationMetrics :=
  mkMigMetrics (accounts_processed m) (bump (storage_slots_processed m)) (errors_encountered m) (bytes_migrated m).
Definition count_error (m : MigrationMetrics) : MigrationMetrics :=
  mkMigMetrics (accounts_processed m) (storage_slots_processed m) (bump (errors_encountered m)) (bytes_migrated m).

(** ** Accounts *)
Definition migrate_slot (fuel : nat) (address slot : list Z) : MM unit :=
  let! found := slift (src_storage address slot) in
  match found with
  | Some v =>
      let! key := slift (mig_storage_key address slot) in
      on_tree (tree_insert cache_keys fuel key v) ;;!
      on_metrics count_slot
  | None => sret tt
  end.
Fixpoint migrate_slots (fuel : nat) (address : list Z) (slots : list (list Z)) : MM unit :=
  match slots with
  | [] => sret tt
  | slot :: slots => migrate_slot fuel address slot ;;! migrate_slots fuel address slots
  end.
(** The code of an account, when it has any. *)
Definition migrate_code (fuel : nat) (h : list Z) : MM unit :=
  if negb (bool_decide (h = replicate 32 0)) then
    let! found := slift (src_code h) in
    match found with
    | Some code =>
        let! key := slift (code_key h) in
        on_tree (tree_insert cache_keys fuel key code)
    | None => sret tt
    end
  else sret tt.
Definition migrate_account (fuel : nat) (address : list Z) : MM unit :=
  let! found := slift (src_account address) in
  match found with
  | Some account =>
      let! key := slift (mig_account_key address) in
      let! v := slift (encode_account account) in
      on_tree (tree_insert cache_keys fuel key v) ;;!
      let! storage_keys := slift (src_storage_keys address) in
      migrate_slots fuel address storage_keys ;;!
      migrate_code fuel (code_hash account) ;;!
      on_metrics count_account ;;!
      let! s := sget in
      let! n := slift (uadd 64 (migrated_accounts (mig_status s)) 1) in
      on_status (with_migrated n)
  | None => sret tt
  end.
Fixpoint migrate_accounts (fuel : nat) (l : list (list Z)) : MM unit :=
  match l with
  | [] => sret tt
  | a :: l => migrate_account fuel a ;;! migrate_accounts fuel l
  end.

(** ** Verification *)
Definition verify_account (fuel : nat) (address : list Z) : MM unit :=
  let! source_account := slift (src_account address) in
  let! key := slift (mig_account_key address) in
  let! data := on_tree (tree_get fuel key) in
  match source_account, data with
  | Some source, Some target =>
      let! decoded := slift (decode_account target) in
      if negb (nonce decoded =? nonce source) || negb (balance decoded =? balance source)
      then sfail (MigrationFailed ("Account verification failed for " +:+ show_address address))
      else sret tt
  | _, _ => sret tt
  end.
Fixpoint verify_sample (fuel : nat) (l : list (list Z)) : MM unit :=
  match l with
  | [] => sret tt
  | a :: l => verify_account fuel a ;;! verify_sample fuel l
  end.
Definition verify_migration (fuel : nat) : MM unit :=
  set_phase VerifyingIntegrity ;;!
  let! accounts := slift src_accounts in
  let sample_size := Z.min (Z.max (len accounts / 100) 10) 1000 in
  verify_sample fuel (choose_multiple accounts sample_size).

Definition migrate_immediate (fuel : nat) : MM unit :=
  let! accounts := slift src_accounts in
  on_status (fun st => mkStatus (len accounts) (migrated_accounts st) (total_storage_slots st)
    (migrated_storage_slots st) (started_at st) (estimated_completion st) MigratingAccounts) ;;!
  migrate_accounts fuel accounts ;;!
  verify_migration fuel ;;!
  set_phase Completed.

(** ** Gradual migration *)

(** The four workers are spawned on the queue filled here. *)
Definition migrate_gradual : MM unit :=
  let! accounts := slift src_accounts in
  smodify (fun s => mkMigrator (target_tree s) (mig_status s)
    (mkQueue (queue_accounts (migration_queue s) ++ accounts) (queue_storage (migration_queue s)) (queue_code (migration_queue s)))
    (mig_metrics s)).
Definition take_batch (n : Z) : MM (list (list Z)) :=
  let! s := sget in
  let q := migration_queue s in
  let k := Z.to_nat n in
  sput (mkMigrator (target_tree s) (mig_status s)
    (mkQueue (drop k (queue_accounts q)) (queue_storage q) (queue_code q)) (mig_metrics s)) ;;!
  sret (take k (queue_accounts q)).
(** A failed account is counted, and the batch goes on. *)
Fixpoint migrate_batch (fuel : nat) (l : list (list Z)) : MM unit :=
  match l with
  | [] => sret tt
  | a :: l =>
      (fun s => match migrate_account fuel a s with
                | (Err _, s') => on_metrics count_error s'
                | r => r
                end) ;;!
      migrate_batch fuel l
  end.
(** The loop of a worker; [rounds] bounds its iterations. *)
Fixpoint migration_worker (rounds fuel : nat) (accounts_per_batch : Z) : MM unit :=
  match rounds with
  | O => slift Diverge
  | S rounds =>
      let! accounts := take_batch accounts_per_batch in
      if bool_decide (accounts = []) then sret tt
      else migrate_batch fuel accounts ;;! migration_worker rounds fuel accounts_per_batch
  end.

(** The handlers of the two other strategies only log. *)
Definition start_migration (fuel : nat) (strategy : MigrationStrategy) : MM unit :=
  on_status (fun st => mkStatus (total_accounts st) (migrated_accounts st) (total_storage_slots st)
    (migrated_storage_slots st) now (estimated_completion st) PreparingSnapshot) ;;!
  match strategy with
  | Immediate => migrate_immediate fuel
  | Gradual _ _ => migrate_gradual
  | Overlay _ | CopyOnWrite => sret tt
  end.
Definition get_status (s : StateMigrator) : MigrationStatus := mig_status s.
End migrator.

(** * A migration copies the source *)

Section complete.
Context `{Profile} `{KeccakOps} `{!KeccakLaws} `{StateSource} (cache_keys : gmap (list Z) (list Z) -> list (list Z)).
Context (serialize : AccountData -> list Z + string).
Implicit Types (a k v : list Z) (s : StateMigrator).

(** What the migration of account [a] writes under [k]. *)
Inductive entry a k v : Prop :=
| account_entry account : src_account a = Ok (Some account) -> mig_account_key a = Ok k ->
    serialize account = inl v -> entry a k v
| slot_entry account slots slot : src_account a = Ok (Some account) -> src_storage_keys a = Ok slots -> slot ∈ slots ->
    src_storage a slot = Ok (Some v) -> mig_storage_key a slot = Ok k -> entry a k v
| code_entry account : src_account a = Ok (Some account) -> code_hash account <> replicate 32 0 ->
    src_code (code_hash account) = Ok (Some v) -> code_key (code_hash account) = Ok k -> entry a k v.

(** A source that answers every question of the migration of [accounts], with
    no two slots and no two code hashes under the same key. *)
Record source_ok (accounts : list (list Z)) : Prop := {
  so_accounts : src_accounts = Ok accounts;
  so_address a : a ∈ accounts -> is_address a;
  so_account a : a ∈ accounts -> exists o, src_account a = Ok o;
  so_serialize a account : a ∈ accounts -> src_account a = Ok (Some account) -> exists b, serialize account = inl b;
  so_slots a account : a ∈ accounts -> src_account a = Ok (Some account) -> exists slots,
    src_storage_keys a = Ok slots /\ forall slot, slot ∈ slots -> exists o, src_storage a slot = Ok o;
  so_code a account : a ∈ accounts -> src_account a = Ok (Some account) ->
    is_key (code_hash account) /\ exists o, src_code (code_hash account) = Ok o;
  so_slot_keys a a' slots slots' slot slot' : a ∈ accounts -> a' ∈ accounts ->
    src_storage_keys a = Ok slots -> src_storage_keys a' = Ok slots' -> slot ∈ slots -> slot' ∈ slots' ->
    mig_storage_key a slot = mig_storage_key a' slot' -> a = a' /\ slot = slot';
  so_code_keys a a' account account' : a ∈ accounts -> a' ∈ accounts ->
    src_account a = Ok (Some account) -> src_account a' = Ok (Some account') ->
    code_key (code_hash account) = code_key (code_hash account') -> code_hash account = code_hash account';
}.

Lemma mig_account_key_ok a : is_address a -> exists k, mig_account_key a = Ok k /\ is_key k /\ k = 0 :: a ++ replicate 11 0.
Proof. exact (account_key_ok a). Qed.
Lemma mig_storage_key_ok a slot : exists k, mig_storage_key a slot = Ok k /\ is_key k /\
  k = 1 :: take 31 (keccak256 (a ++ slot)).
Proof. exact (storage_key_ok a slot). Qed.
Lemma code_key_ok h : is_key h -> exists k, code_key h = Ok k /\ is_key k /\ k = 2 :: take 31 h.
Proof.
  intros [Hl Hb]. unfold code_key, slice, len. rewrite Hl. simpl. eexists. split_and!; [done| |done].
  split; [simpl; by rewrite length_take, length_drop, Hl|]. constructor; [done|]. by apply bytes_take, bytes_drop.
Qed.

Section source.
Context (accounts : list (list Z)) (Hsrc : source_ok accounts) (fuel : nat) (Hfuel : (66 <= fuel)%nat).

Definition truth k v : Prop := exists a, a ∈ accounts /\ entry a k v.
Lemma truth_key k v : truth k v -> is_key k.
Proof.
  intros (a & Ha & [account _ Hk _|account slots slot _ _ _ _ Hk|account Hacc _ _ Hk]).
  - destruct (mig_account_key_ok a (so_address _ Hsrc a Ha)) as (k' & ? & ? & _). congruence.
  - destruct (mig_storage_key_ok a slot) as (k' & ? & ? & _). congruence.
  - destruct (so_code _ Hsrc a account Ha Hacc) as [Hh _]. destruct (code_key_ok _ Hh) as (k' & ? & ? & _). congruence.
Qed.
Lemma truth_functional k v v' : truth k v -> truth k v' -> v = v'.
Proof.
  intros (a & Ha & He) (a' & Ha' & He').
  assert (forall a, a ∈ accounts -> exists k, mig_account_key a = Ok k /\ k = 0 :: a ++ replicate 11 0) as Hak.
  { intros x Hx. destruct (mig_account_key_ok x (so_address _ Hsrc x Hx)) as (? & ? & _ & ?). eauto. }
  assert (forall x slot, exists k, mig_storage_key x slot = Ok k /\ k = 1 :: take 31 (keccak256 (x ++ slot))) as Hsk.
  { intros x slot. destruct (mig_storage_key_ok x slot) as (? & ? & _ & ?). eauto. }
  assert (forall x account, x ∈ accounts -> src_account x = Ok (Some account) ->
    exists k, code_key (code_hash account) = Ok k /\ k = 2 :: take 31 (code_hash account)) as Hck.
  { intros x account Hx Hacc. destruct (so_code _ Hsrc x account Hx Hacc) as [Hh _].
    destruct (code_key_ok _ Hh) as (? & ? & _ & ?). eauto. }
  destruct (Hak a Ha) as (ka & Hka & Eka), (Hak a' Ha') as (ka' & Hka' & Eka').
  destruct He as [acc Hacc Hk Hv|acc slots slot Hacc Hs Hin Hv Hk|acc Hacc Hne Hv Hk],
    He' as [acc' Hacc' Hk' Hv'|acc' slots' slot' Hacc' Hs' Hin' Hv' Hk'|acc' Hacc' Hne' Hv' Hk'];
    try (destruct (Hsk a slot) as (? & ? & ?)); try (destruct (Hsk a' slot') as (? & ? & ?));
    try (destruct (Hck a acc Ha Hacc) as (? & ? & ?)); try (destruct (Hck a' acc' Ha' Hacc') as (? & ? & ?)); try congruence.
  - assert (a ++ replicate 11 0 = a' ++ replicate 11 0) as E by congruence. apply app_inv_tail in E. congruence.
  - destruct (so_slot_keys _ Hsrc a a' slots slots' slot slot') as [<- <-]; congruence.
  - assert (code_hash acc = code_hash acc') as E by (apply (so_code_keys _ Hsrc a a'); congruence). congruence.
Qed.

(** The tree holds the entries written so far. *)
Definition wrote s (w : list (list Z * list Z)) : Prop := exists m, holds (target_tree s) m /\
  forall k v, (k, v) ∈ w -> truth k v /\ m !! k = Some v.
Lemma wrote_tree s s' w : target_tree s' = target_tree s -> wrote s w -> wrote s' w.
Proof. intros Ht (m & Hm & Hw). exists m. by rewrite Ht. Qed.

Lemma insert_wrote s w k v : wrote s w -> truth k v ->
  exists s', on_tree (tree_insert cache_keys fuel k v) s = (Ok tt, s') /\ wrote s' ((k, v) :: w) /\
    mig_status s' = mig_status s /\ migration_queue s' = migration_queue s.
Proof.
  intros (m & Hm & Hw) Hkv.
  destruct (insert_holds cache_keys (target_tree s) m k v fuel Hm (truth_key k v Hkv) Hfuel) as (t' & Hi & Ht').
  unfold on_tree. rewrite Hi. eexists. split; [done|]. split; [|done]. exists (<[k := v]> m). split; [done|].
  intros k1 v1 [[= -> ->]|Hin]%elem_of_cons; [split; [done|apply lookup_insert_eq]|].
  destruct (Hw k1 v1 Hin) as [Ht1 Hm1]. split; [done|]. destruct (decide (k1 = k)) as [->|Hne].
  - rewrite lookup_insert_eq. f_equal. by eapply truth_functional.
  - by rewrite lookup_insert_ne.
Qed.

(** A part of a migration: it succeeds and writes every entry of [P]. *)
Definition writes (m : SM StateMigrator VerkleError unit) (P : list Z -> list Z -> Prop) : Prop := forall s w, wrote s w ->
  exists s' w', m s = (Ok tt, s') /\ wrote s' w' /\ w ⊆ w' /\
    mig_status s' = mig_status s /\ migration_queue s' = migration_queue s /\ forall k v, P k v -> (k, v) ∈ w'.
Lemma writes_nothing : writes (sret tt) (fun _ _ => False).
Proof. intros s w Hw. exists s, w. by split_and!. Qed.
Lemma writes_mono m (P Q : list Z -> list Z -> Prop) : writes m P -> (forall k v, Q k v -> P k v) -> writes m Q.
Proof.
  intros Hm HQ s w Hw. destruct (Hm s w Hw) as (s' & w' & ? & ? & ? & ? & ? & ?). exists s', w'. split_and!; auto.
Qed.
Lemma writes_seq m m' P Q : writes m P -> writes m' Q -> writes (m ;;! m') (fun k v => P k v \/ Q k v).
Proof.
  intros Hm Hm' s w Hw. destruct (Hm s w Hw) as (s1 & w1 & Hs1 & Hw1 & Hsub1 & Hst1 & Hq1 & HP).
  destruct (Hm' s1 w1 Hw1) as (s2 & w2 & Hs2 & Hw2 & Hsub2 & Hst2 & Hq2 & HQ). exists s2, w2.
  rewrite (sbind_ok _ _ _ _ _ Hs1). split_and!; [done|done|by etrans|congruence|congruence|].
  intros k v [?|?]; [apply Hsub2|]; auto.
Qed.
Lemma writes_lift {A} (o : outcome VerkleError A) x m P : o = Ok x -> writes (m x) P -> writes (sbind (slift o) m) P.
Proof. intros -> Hm s w Hw. destruct (Hm s w Hw) as (s' & w' & ?). by exists s', w'. Qed.
Lemma writes_insert k v : truth k v ->
  writes (on_tree (tree_insert cache_keys fuel k v)) (fun k' v' => k' = k /\ v' = v).
Proof.
  intros Hkv s w Hw. destruct (insert_wrote s w k v Hw Hkv) as (s' & Hi & Hw' & Hst & Hq).
  exists s', ((k, v) :: w). split_and!; [done..|set_solver|done|done|]. intros k' v' [-> ->]. left.
Qed.
Lemma writes_metrics f : writes (on_metrics f) (fun _ _ => False).
Proof.
  intros s w Hw. eexists _, w. split; [reflexivity|]. split_and!; [by eapply wrote_tree, Hw|done..].
Qed.

Lemma migrate_slot_writes a account all slot : a ∈ accounts -> src_account a = Ok (Some account) ->
  src_storage_keys a = Ok all -> slot ∈ all ->
  writes (migrate_slot cache_keys fuel a slot)
    (fun k v => src_storage a slot = Ok (Some v) /\ mig_storage_key a slot = Ok k).
Proof.
  intros Ha Hacc Hall Hslot. destruct (so_slots _ Hsrc a account Ha Hacc) as (all' & Hall' & Hans).
  assert (all' = all) as -> by congruence. destruct (Hans slot Hslot) as (o & Ho).
  destruct (mig_storage_key_ok a slot) as (k & Hk & _). eapply writes_lift; [done|]. destruct o as [v|].
  - eapply writes_lift; [done|]. eapply writes_mono.
    + apply writes_seq; [|apply writes_metrics]. apply writes_insert. exists a. split; [done|]. by eapply slot_entry.
    + intros k' v' [? ?]. left. split; congruence.
  - eapply writes_mono; [apply writes_nothing|]. intros k' v' [? ?]. congruence.
Qed.
Lemma migrate_slots_writes a account all slots : a ∈ accounts -> src_account a = Ok (Some account) ->
  src_storage_keys a = Ok all -> slots ⊆ all ->
  writes (migrate_slots cache_keys fuel a slots)
    (fun k v => exists slot, slot ∈ slots /\ src_storage a slot = Ok (Some v) /\ mig_storage_key a slot = Ok k).
Proof.
  intros Ha Hacc Hall. induction slots as [|slot slots IH]; intros Hsub; simpl.
  { eapply writes_mono; [apply writes_nothing|]. intros k v (slot & ? & _). set_solver. }
  eapply writes_mono; [apply writes_seq; [eapply migrate_slot_writes; try done; set_solver|apply IH; set_solver]|].
  intros k v (slot' & [->|?]%elem_of_cons & ? & ?); [by left|]. right. by exists slot'.
Qed.
Lemma migrate_code_writes a account : a ∈ accounts -> src_account a = Ok (Some account) ->
  writes (migrate_code cache_keys fuel (code_hash account)) (fun k v => code_hash account <> replicate 32 0 /\
    src_code (code_hash account) = Ok (Some v) /\ code_key (code_hash account) = Ok k).
Proof.
  intros Ha Hacc. destruct (so_code _ Hsrc a account Ha Hacc) as [Hh (o & Ho)].
  destruct (code_key_ok _ Hh) as (k & Hk & _). unfold migrate_code. case_bool_decide as Hz; simpl.
  { eapply writes_mono; [apply writes_nothing|]. by intros k' v [? _]. }
  eapply writes_lift; [done|]. destruct o as [v|].
  - eapply writes_lift; [done|]. eapply writes_mono; [apply writes_insert|].
    + exists a. split; [done|]. by eapply code_entry.
    + intros k' v' (_ & ? & ?). split; congruence.
  - eapply writes_mono; [apply writes_nothing|]. intros k' v' (_ & ? & _). congruence.
Qed.

Definition found a : bool := match src_account a with Ok (Some _) => true | _ => false end.
Lemma with_migrated_same st n : n = migrated_accounts st -> with_migrated n st = st.
Proof. intros ->. by destruct st. Qed.
Lemma with_migrated_twice st n n' : with_migrated n (with_migrated n' st) = with_migrated n st.
Proof. done. Qed.
(** One more account: its entries are written and it is counted. *)
Definition migrated_to a s (w : list (list Z * list Z)) (r : outcome VerkleError unit * StateMigrator) : Prop :=
  exists s' w', r = (Ok tt, s') /\ wrote s' w' /\ w ⊆ w' /\ migration_queue s' = migration_queue s /\
    mig_status s' = with_migrated (migrated_accounts (mig_status s) + Z.b2z (found a)) (mig_status s) /\
    forall k v, entry a k v -> (k, v) ∈ w'.
Lemma writes_then {B} m P (k : SM StateMigrator VerkleError B) (G : outcome VerkleError B * StateMigrator -> Prop) s w :
  writes m P -> wrote s w ->
  (forall s1 w1, wrote s1 w1 -> w ⊆ w1 -> mig_status s1 = mig_status s -> migration_queue s1 = migration_queue s ->
     (forall k v, P k v -> (k, v) ∈ w1) -> G (k s1)) ->
  G ((m ;;! k) s).
Proof.
  intros Hm Hw Hk. destruct (Hm s w Hw) as (s1 & w1 & Hs1 & ? & ? & ? & ? & ?).
  rewrite (sbind_ok _ _ _ _ _ Hs1). by apply (Hk s1 w1).
Qed.
Lemma migrate_account_ok a s w : a ∈ accounts -> wrote s w -> 0 <= migrated_accounts (mig_status s) < 2 ^ 64 - 1 ->
  migrated_to a s w (migrate_account cache_keys serialize fuel a s).
Proof.
  intros Ha Hw Hn. destruct (so_account _ Hsrc a Ha) as (o & Ho). unfold migrate_account.
  rewrite Ho. destruct o as [account|].
  2:{ exists s, w. split_and!; [done..| |].
      - symmetry. apply with_migrated_same. unfold found. rewrite Ho. simpl. lia.
      - intros k v He. destruct He; congruence. }
  destruct (mig_account_key_ok a (so_address _ Hsrc a Ha)) as (k & Hk & _).
  destruct (so_serialize _ Hsrc a account Ha Ho) as (b & Hb).
  destruct (so_slots _ Hsrc a account Ha Ho) as (slots & Hslots & _).
  rewrite sbind_lift, Hk, sbind_lift.
  unfold encode_account. rewrite Hb, sbind_lift.
  eapply writes_then; [apply writes_insert; exists a; split; [done|by eapply account_entry]|done|].
  intros s1 w1 Hw1 Hsub1 Hst1 Hq1 Hin1. rewrite Hslots, sbind_lift.
  eapply writes_then; [by eapply migrate_slots_writes|done|]. intros s2 w2 Hw2 Hsub2 Hst2 Hq2 Hin2.
  eapply writes_then; [by eapply migrate_code_writes|done|]. intros s3 w3 Hw3 Hsub3 Hst3 Hq3 Hin3.
  eapply writes_then; [apply writes_metrics|done|]. intros s4 w4 Hw4 Hsub4 Hst4 Hq4 _.
  unfold sbind, sget, slift. rewrite Hst4, Hst3, Hst2, Hst1. unfold uadd.
  rewrite checked_arith_ok by (unfold uint; lia). eexists _, w4. split; [reflexivity|]. split_and!; simpl.
  - by eapply wrote_tree, Hw4.
  - set_solver.
  - congruence.
  - unfold found. rewrite Ho, Hst4, Hst3, Hst2, Hst1. done.
  - intros k1 v1 [account1 ? ? ?|account1 slots1 slot ? ? ? ? ?|account1 Hacc1 ? ? ?].
    + apply Hsub4, Hsub3, Hsub2, Hin1. split; congruence.
    + apply Hsub4, Hsub3, Hin2. exists slot. split_and!; congruence.
    + assert (account1 = account) as -> by congruence. by apply Hsub4, Hin3.
Qed.

Fixpoint count_found (l : list (list Z)) : Z :=
  match l with [] => 0 | a :: l => Z.b2z (found a) + count_found l end.
Lemma migrate_accounts_ok l s w : l ⊆ accounts -> wrote s w ->
  0 <= migrated_accounts (mig_status s) -> migrated_accounts (mig_status s) + len l < 2 ^ 64 ->
  exists s' w', migrate_accounts cache_keys serialize fuel l s = (Ok tt, s') /\ wrote s' w' /\ w ⊆ w' /\
    mig_status s' = with_migrated (migrated_accounts (mig_status s) + count_found l) (mig_status s) /\
    forall a k v, a ∈ l -> entry a k v -> (k, v) ∈ w'.
Proof.
  revert s w. induction l as [|a l IH]; intros s w Hsub Hw H0n Hn; simpl.
  { exists s, w. split_and!; [done..|symmetry; apply with_migrated_same; lia|]. intros a k v. set_solver. }
  rewrite len_cons in Hn. pose proof (len_nonneg l).
  destruct (migrate_account_ok a s w) as (s1 & w1 & Hs1 & Hw1 & Hsub1 & _ & Hm1 & Hin1); [set_solver|done|lia|].
  assert (0 <= Z.b2z (found a) <= 1) by (destruct (found a); simpl; lia).
  destruct (IH s1 w1) as (s2 & w2 & Hs2 & Hw2 & Hsub2 & Hm2 & Hin2); [set_solver|done|rewrite Hm1; simpl; lia..|].
  exists s2, w2. rewrite (sbind_ok _ _ _ _ _ Hs1).
  split_and!; [done|done|by etrans|rewrite Hm2, Hm1, with_migrated_twice; simpl; f_equal; lia|].
  intros a' k v [->|?]%elem_of_cons He; [by apply Hsub2, Hin1|by eapply Hin2].
Qed.

Lemma get_wrote s w k v : wrote s w -> (k, v) ∈ w ->
  exists s', on_tree (tree_get fuel k) s = (Ok (Some v), s') /\ wrote s' w /\ mig_status s' = mig_status s.
Proof.
  intros (m & Hm & Hw) Hin. destruct (Hw k v Hin) as [Ht Hk].
  destruct (get_holds (target_tree s) m k fuel Hm (truth_key k v Ht) Hfuel) as (t' & Hg & Ht').
  unfold on_tree. rewrite Hg, Hk. eexists. split; [reflexivity|]. split; [by exists m|done].
Qed.

Section verify.
Context (deserialize : list Z -> AccountData + string) (show_address : list Z -> string).
Context (Hbincode : forall account b, serialize account = inl b -> deserialize b = inl account).

Lemma verify_account_ok a s w : a ∈ accounts -> wrote s w -> (forall k v, entry a k v -> (k, v) ∈ w) ->
  exists s', verify_account deserialize show_address fuel a s = (Ok tt, s') /\ wrote s' w /\ mig_status s' = mig_status s.
Proof.
  intros Ha Hw Hin. destruct (so_account _ Hsrc a Ha) as (o & Ho).
  destruct (mig_account_key_ok a (so_address _ Hsrc a Ha)) as (k & Hk & Hkey & _).
  unfold verify_account. rewrite Ho, sbind_lift, Hk, sbind_lift. destruct o as [account|].
  - destruct (so_serialize _ Hsrc a account Ha Ho) as (b & Hb).
    destruct (get_wrote s w k b Hw) as (s' & Hs' & Hw' & Hst).
    { apply Hin. by eapply account_entry. }
    exists s'. rewrite (sbind_ok _ _ _ _ _ Hs'). unfold decode_account. rewrite (Hbincode account b Hb), sbind_lift.
    by rewrite !Z.eqb_refl.
  - destruct Hw as (m & Hm & Hw). destruct (get_holds (target_tree s) m k fuel Hm Hkey Hfuel) as (t' & Hg & Ht').
    eexists. unfold sbind, on_tree. rewrite Hg. split; [reflexivity|]. split; [by exists m|done].
Qed.
Lemma verify_sample_ok l s w : l ⊆ accounts -> wrote s w -> (forall a k v, a ∈ accounts -> entry a k v -> (k, v) ∈ w) ->
  exists s', verify_sample deserialize show_address fuel l s = (Ok tt, s') /\ wrote s' w /\ mig_status s' = mig_status s.
Proof.
  intros Hsub Hw Hin. revert s Hw. induction l as [|a l IH]; intros s Hw; simpl; [by exists s|].
  destruct (verify_account_ok a s w) as (s1 & Hs1 & Hw1 & Hst1); [set_solver|done|intros ? ?; apply Hin; set_solver|].
  destruct (IH ltac:(set_solver) s1 Hw1) as (s2 & Hs2 & Hw2 & Hst2). exists s2.
  rewrite (sbind_ok _ _ _ _ _ Hs1). split_and!; [done..|congruence].
Qed.
End verify.

(** ** A worker *)
Lemma migrate_batch_ok l s w : l ⊆ accounts -> wrote s w ->
  0 <= migrated_accounts (mig_status s) -> migrated_accounts (mig_status s) + len l < 2 ^ 64 ->
  exists s' w', migrate_batch cache_keys serialize fuel l s = (Ok tt, s') /\ wrote s' w' /\ w ⊆ w' /\
    migration_queue s' = migration_queue s /\
    mig_status s' = with_migrated (migrated_accounts (mig_status s) + count_found l) (mig_status s) /\
    forall a k v, a ∈ l -> entry a k v -> (k, v) ∈ w'.
Proof.
  revert s w. induction l as [|a l IH]; intros s w Hsub Hw H0n Hn; simpl.
  { exists s, w. split_and!; [done..|symmetry; apply with_migrated_same; lia|]. intros a k v. set_solver. }
  rewrite len_cons in Hn. pose proof (len_nonneg l).
  destruct (migrate_account_ok a s w) as (s1 & w1 & Hs1 & Hw1 & Hsub1 & Hq1 & Hm1 & Hin1); [set_solver|done|lia|].
  assert (0 <= Z.b2z (found a) <= 1) by (destruct (found a); simpl; lia).
  destruct (IH s1 w1) as (s2 & w2 & Hs2 & Hw2 & Hsub2 & Hq2 & Hm2 & Hin2); [set_solver|done|rewrite Hm1; simpl; lia..|].
  exists s2, w2. unfold sbind at 1. rewrite Hs1.
  split_and!; [done|done|by etrans|congruence|rewrite Hm2, Hm1, with_migrated_twice; simpl; f_equal; lia|].
  intros a' k v [->|?]%elem_of_cons He; [by apply Hsub2, Hin1|by eapply Hin2].
Qed.
Lemma count_found_app l l' : count_found (l ++ l') = count_found l + count_found l'.
Proof. induction l as [|a l IH]; simpl; lia. Qed.
Lemma count_found_bound l : 0 <= count_found l <= len l.
Proof.
  induction l as [|a l IH]; simpl; [done|]. rewrite len_cons.
  assert (0 <= Z.b2z (found a) <= 1) by (destruct (found a); simpl; lia). lia.
Qed.
Lemma worker_ok n rounds s w : 0 < n -> (length (queue_accounts (migration_queue s)) < rounds)%nat ->
  queue_accounts (migration_queue s) ⊆ accounts -> wrote s w ->
  0 <= migrated_accounts (mig_status s) ->
  migrated_accounts (mig_status s) + len (queue_accounts (migration_queue s)) < 2 ^ 64 ->
  exists s' w', migration_worker cache_keys serialize rounds fuel n s = (Ok tt, s') /\ wrote s' w' /\ w ⊆ w' /\
    queue_accounts (migration_queue s') = [] /\
    mig_status s' = with_migrated (migrated_accounts (mig_status s) + count_found (queue_accounts (migration_queue s))) (mig_status s) /\
    forall a k v, a ∈ queue_accounts (migration_queue s) -> entry a k v -> (k, v) ∈ w'.
Proof.
  intros Hn. revert s w. induction rounds as [|rounds IH]; intros s w Hr Hsub Hw H0n Hlt; [lia|].
  cbn [migration_worker]. unfold sbind at 1, take_batch, sbind, sget, sput, sret.
  remember (queue_accounts (migration_queue s)) as q eqn:Hq.
  assert (Z.to_nat n <> 0)%nat as Hn' by lia. destruct q as [|a q].
  { rewrite bool_decide_true by by rewrite take_nil. eexists _, w. split; [reflexivity|]. simpl.
    split_and!; [by eapply wrote_tree, Hw|done|by rewrite drop_nil|symmetry; apply with_migrated_same; lia|]. intros a k v. set_solver. }
  rewrite bool_decide_false by (destruct (Z.to_nat n); done). set (l := a :: q) in *.
  set (s1 := mkMigrator _ _ _ _). pose proof (take_drop (Z.to_nat n) l) as Htd.
  assert (len (take (Z.to_nat n) l) + len (drop (Z.to_nat n) l) = len l) as Hlen by (by rewrite <- len_app, Htd).
  pose proof (len_nonneg (drop (Z.to_nat n) l)). pose proof (count_found_bound (take (Z.to_nat n) l)).
  destruct (migrate_batch_ok (take (Z.to_nat n) l) s1 w) as (s2 & w2 & Hs2 & Hw2 & Hsub2 & Hq2 & Hm2 & Hin2).
  { etrans; [|done]. intros x Hx. rewrite <- Htd. set_solver. } { by eapply wrote_tree, Hw. } { done. } { simpl. lia. }
  rewrite Hs2. destruct (IH s2 w2) as (s3 & w3 & Hs3 & Hw3 & Hsub3 & Hq3 & Hm3 & Hin3); rewrite ?Hq2; simpl.
  { rewrite length_drop. subst l. simpl in *. lia. } { etrans; [|done]. intros x Hx. rewrite <- Htd. set_solver. }
  { done. } { rewrite Hm2. simpl. lia. } { rewrite Hm2. simpl. lia. }
  exists s3, w3. split_and!; [done|done|by etrans|done| |].
  - rewrite Hm3, Hm2, Hq2. pose proof (count_found_app (take (Z.to_nat n) l) (drop (Z.to_nat n) l)) as Hc.
    rewrite Htd in Hc. rewrite with_migrated_twice. simpl in *. f_equal. lia.
  - rewrite Hq2 in Hin3. simpl in Hin3. intros x k v Hx He. rewrite <- Htd in Hx. apply elem_of_app in Hx as [Hx|Hx].
    + by eapply Hsub3, Hin2.
    + by eapply Hin3.
Qed.
End source.
End complete.

(** The migrator that starts on a tree operations have led to. *)
Lemma migrator_new_wrote `{Profile} `{KeccakOps} `{!KeccakLaws} `{StateSource} cache_keys serialize accounts c fuel t now :
  key_length c = 32 -> (66 <= fuel)%nat -> reachable cache_keys c fuel t ->
  wrote serialize accounts (migrator_new now t) [].
Proof.
  intros Hc Hfuel Ht. destruct (reachable_holds _ c fuel t Hc Hfuel Ht) as (m & Hm). exists m. split; [done|].
  intros k v. set_solver.
Qed.

(** an immediate migration from a source that answers, into any reachable
    tree with keys of 32 bytes, completes: the sampled verification passes,
    every account found is counted, and the tree returns each migrated
    account, storage slot and code under its key. *)
Theorem immediate_migration_complete `{Profile} `{KeccakOps} `{!KeccakLaws} `{StateSource} cache_keys
    serialize deserialize choose_multiple now show_address accounts c fuel t :
  (forall account b, serialize account = inl b -> deserialize b = inl account) ->
  (forall l n, choose_multiple l n ⊆ l) ->
  source_ok serialize accounts -> len accounts < 2 ^ 64 ->
  key_length c = 32 -> (66 <= fuel)%nat -> reachable cache_keys c fuel t ->
  exists s', start_migration cache_keys serialize deserialize choose_multiple now show_address fuel Immediate
      (migrator_new now t) = (Ok tt, s') /\
    current_phase (mig_status s') = Completed /\
    total_accounts (mig_status s') = len accounts /\
    migrated_accounts (mig_status s') = count_found accounts /\
    forall a k v, a ∈ accounts -> entry serialize a k v -> (tree_get fuel k (target_tree s')).1 = Ok (Some v).
Proof.
  intros Hb Hchoose Hsrc Hlen Hc Hfuel Ht. pose proof (migrator_new_wrote cache_keys serialize accounts c fuel t now Hc Hfuel Ht) as Hw.
  unfold start_migration, migrate_immediate, verify_migration, set_phase, on_status.
  rewrite sbind_modify, (so_accounts _ _ Hsrc), sbind_lift, sbind_modify.
  set (s0 := mkMigrator _ _ _ _).
  destruct (migrate_accounts_ok cache_keys serialize accounts Hsrc fuel Hfuel accounts s0 []) as (s1 & w1 & Hs1 & Hw1 & _ & Hm1 & Hin1).
  { done. } { exact Hw. } { done. } { done. }
  rewrite (sbind_ok _ _ _ _ _ Hs1), sbind_assoc, sbind_modify, sbind_assoc, sbind_lift.
  set (s2 := mkMigrator _ _ _ _).
  destruct (verify_sample_ok serialize accounts Hsrc fuel Hfuel deserialize show_address Hb
    (choose_multiple accounts (Z.min (Z.max (len accounts / 100) 10) 1000)) s2 w1) as (s3 & Hs3 & (m & Hm & Hw3) & Hst3).
  { apply Hchoose. } { exact Hw1. } { done. }
  rewrite (sbind_ok _ _ _ _ _ Hs3). eexists. split; [reflexivity|]. simpl. rewrite Hst3. simpl. rewrite Hm1.
  split_and!; [done|done|done|]. intros a k v Ha He. destruct (Hw3 k v (Hin1 a k v Ha He)) as [Hkv Hmk].
  destruct (get_holds (target_tree s3) m k fuel Hm (truth_key serialize accounts Hsrc k v Hkv) Hfuel) as (t' & -> & _).
  by rewrite Hmk.
Qed.

(** in a gradual migration one worker with a positive batch size empties
    the queue, within as many rounds as there are accounts, and the tree then
    returns every migrated entry; with a batch size of zero it stops at once
    and migrates nothing.  Neither ever reports the phase [Completed]. *)
Theorem gradual_worker_drains_queue `{Profile} `{KeccakOps} `{!KeccakLaws} `{StateSource} cache_keys
    serialize deserialize choose_multiple now show_address accounts c fuel t per_block per_account :
  source_ok serialize accounts -> len accounts < 2 ^ 64 -> 0 <= per_block ->
  key_length c = 32 -> (66 <= fuel)%nat -> reachable cache_keys c fuel t ->
  exists s s', start_migration cache_keys serialize deserialize choose_multiple now show_address fuel
      (Gradual per_block per_account) (migrator_new now t) = (Ok tt, s) /\
    migration_worker cache_keys serialize (S (length accounts)) fuel per_block s = (Ok tt, s') /\
    current_phase (mig_status s') = PreparingSnapshot /\
    if per_block =? 0 then queue_accounts (migration_queue s') = accounts /\ target_tree s' = t
    else queue_accounts (migration_queue s') = [] /\ migrated_accounts (mig_status s') = count_found accounts /\
      forall a k v, a ∈ accounts -> entry serialize a k v -> (tree_get fuel k (target_tree s')).1 = Ok (Some v).
Proof.
  intros Hsrc Hlen Hn Hc Hfuel Ht. pose proof (migrator_new_wrote cache_keys serialize accounts c fuel t now Hc Hfuel Ht) as Hw.
  unfold start_migration, migrate_gradual, on_status. rewrite sbind_modify, (so_accounts _ _ Hsrc), sbind_lift.
  unfold smodify. set (s0 := mkMigrator _ _ _ _). exists s0. destruct (Z.eqb_spec per_block 0) as [->|Hne].
  - eexists. split_and!; [done|reflexivity|done|done|done].
  - destruct (worker_ok cache_keys serialize accounts Hsrc fuel Hfuel per_block (S (length accounts)) s0 [])
      as (s' & w' & Hs' & (m & Hm & Hw') & _ & Hq & Hst & Hin); [lia|simpl; lia|done|exact Hw|done|done|].
    exists s'. rewrite Hst. split_and!; [done..|].
    intros a k v Ha He. destruct (Hw' k v (Hin a k v Ha He)) as [Hkv Hmk].
    destruct (get_holds (target_tree s') m k fuel Hm (truth_key serialize accounts Hsrc k v Hkv) Hfuel) as (t' & -> & _).
    by rewrite Hmk.
Qed.

(** * Witnesses *)

(** One account with one slot and no code. *)
Definition sample_account : AccountData := mkAccountData 1 2 (replicate 32 0) (replicate 32 0).
Definition sample_source : StateSource := {|
  src_account a := Ok (if bool_decide (a = replicate 20 3) then Some sample_account else None);
  src_storage _ _ := Ok (Some (replicate 32 9));
  src_code _ := Ok None;
  src_accounts := Ok [replicate 20 3];
  src_storage_keys _ := Ok [replicate 32 4];
|}.
Definition sample_serialize (a : AccountData) : list Z + string :=
  inl ([nonce a; balance a] ++ [len (code_hash a)] ++ code_hash a ++ storage_root a).
Definition sample_deserialize (b : list Z) : AccountData + string :=
  match b with
  | n :: v :: l :: rest => inl (mkAccountData n v (take (Z.to_nat l) rest) (drop (Z.to_nat l) rest))
  | _ => inr "length"%string
  end.
Lemma sample_bincode account b : sample_serialize account = inl b -> sample_deserialize b = inl account.
Proof.
  intros [= <-]. destruct account as [n v h r]. simpl. unfold len. by rewrite Nat2Z.id, take_app_length, drop_app_length.
Qed.
Lemma sample_source_ok : source_ok (H2 := sample_source) sample_serialize [replicate 20 3].
Proof.
  split; simpl; [done|intros a ->%list_elem_of_singleton; split; [done|by repeat constructor]|by eexists|by eexists|..].
  - intros. exists [replicate 32 4]. split; [done|by eexists].
  - intros a account _ [= Ha]. case_bool_decide; [|done]. simplify_eq. split; [|by eexists].
    split; [done|apply (bytes_zeros 32)].
  - intros a a' slots slots' slot slot' ->%list_elem_of_singleton ->%list_elem_of_singleton [= <-] [= <-]
      ->%list_elem_of_singleton ->%list_elem_of_singleton _. done.
  - intros a a' account account' _ _ [= Ha] [= Ha'] _. case_bool_decide; [|done]. case_bool_decide; [|done]. by simplify_eq.
Qed.

Lemma immediate_migration_complete_witness :
  exists s', start_migration (H := dev_profile) (H1 := sample_source) sample_keys sample_serialize sample_deserialize
      (fun l n => take (Z.to_nat n) l) 0 (fun _ => "address"%string) 66 Immediate (migrator_new 0 sample_tree) = (Ok tt, s') /\
    current_phase (mig_status s') = Completed /\
    (tree_get (H := dev_profile) 66 (0 :: replicate 20 3 ++ replicate 11 0) (target_tree s')).1 =
      Ok (Some ([1; 2; 32] ++ replicate 64 0)).
Proof.
  destruct (immediate_migration_complete (H := dev_profile) (H2 := sample_source) sample_keys sample_serialize sample_deserialize
    (fun l n => take (Z.to_nat n) l) 0 (fun _ => "address"%string) [replicate 20 3] default_config 66 sample_tree)
    as (s' & Hs & Hp & _ & _ & He).
  - apply sample_bincode.
  - intros l n x Hx. rewrite <- (take_drop (Z.to_nat n) l). set_solver.
  - apply sample_source_ok.
  - done.
  - done.
  - lia.
  - apply sample_reachable.
  - exists s'. split_and!; [done|done|]. apply (He (replicate 20 3)); [left|]. by apply (account_entry _ _ _ _ sample_account).
Defined.
Lemma gradual_worker_drains_queue_witness :
  exists s s', start_migration (H := dev_profile) (H1 := sample_source) sample_keys sample_serialize sample_deserialize
      (fun l _ => l) 0 (fun _ => "address"%string) 66 (Gradual 5 1) (migrator_new 0 sample_tree) = (Ok tt, s) /\
    migration_worker (H := dev_profile) (H1 := sample_source) sample_keys sample_serialize 2 66 5 s = (Ok tt, s') /\
    migrated_accounts (mig_status s') = 1.
Proof.
  destruct (gradual_worker_drains_queue (H := dev_profile) (H2 := sample_source) sample_keys sample_serialize sample_deserialize
    (fun l _ => l) 0 (fun _ => "address"%string) [replicate 20 3] default_config 66 sample_tree 5 1)
    as (s & s' & Hs & Hw & _ & _ & Hm & _);
    [apply sample_source_ok|done|lia|done|lia|apply sample_reachable|].
  exists s, s'. split_and!; [done|done|]. rewrite Hm. by vm_compute.
Defined.

End VerkleMigration.
