(* ===== verification/Das.v ===== *)
(** Data availability sampling: crates/das/src/erasure.rs, reconstruction.rs
    and the columns and custody of peer_das.rs.

    Data is cut into shards, a Reed-Solomon code (the crate
    reed-solomon-erasure, here the class [ReedSolomon]) adds parity shards, and
    the data comes back from any [data_shards] of the columns.  Sampling over
    the network, KZG proofs and the timers are left out. *)
From stdpp Require Import base list numbers option strings pretty gmap sets.
From Stdlib Require Import ZArith Lia.
From S2P Require Import Prelude U256.

Module Das.

Inductive DASError :=
| SamplingFailed (s : string)
| ReconstructionFailed (s : string)
| InvalidData (s : string)
| InsufficientSamples (got need : Z)
| KzgError (s : string)
| NetworkError (s : string).

(** The code over the field of 256 elements, and the order in which a hash
    map gives its first value. *)
Class ReedSolomon := {
  rs_new : Z -> Z -> unit + string;
  rs_encode : Z -> Z -> list (list Z) -> list (list Z) + string;
  rs_reconstruct : Z -> Z -> list (list Z) -> list bool -> list (list Z) + string;
  rs_verify : Z -> Z -> list (list Z) -> bool + string;
  first_value : gmap Z (list Z) -> option (list Z);
}.

(** * erasure.rs *)

Record CodedData := mkCoded { columns : list (list Z); coded_data : Z; coded_parity : Z }.
Definition coded_new (d p : Z) : CodedData := mkCoded [] d p.
Definition total_shards `{Profile} {E} (c : CodedData) : outcome E Z := uadd 64 (coded_data c) (coded_parity c).
Definition get_column (i : Z) (c : CodedData) : option (list Z) := columns c !! Z.to_nat i.
(** [resize] pads with empty columns. *)
Definition set_column (i : Z) (data : list Z) (c : CodedData) : CodedData :=
  let k := Z.to_nat i in
  let cs := columns c ++ replicate (S k - length (columns c)) [] in
  mkCoded (<[k := data]> cs) (coded_data c) (coded_parity c).
Definition is_complete `{Profile} {E} (c : CodedData) : outcome E bool :=
  let? total := total_shards c in
  Ok ((len (columns c) =? total) && forallb (fun x => negb (bool_decide (x = []))) (columns c)).
Definition available_shards (c : CodedData) : list Z :=
  (filter (fun e : Z * list Z => e.2 <> []) (imap (fun i x => (Z.of_nat i, x)) (columns c))).*1.
Definition missing_shards `{Profile} {E} (c : CodedData) : outcome E (list Z) :=
  let? total := total_shards c in
  Ok (filter (fun i : Z => default [] (columns c !! Z.to_nat i) = []) (seqZ 0 total)).

Record ErasureCoding := mkCoder { data_shards : Z; parity_shards : Z; coder_shard_size : Z }.

Section coder.
Context `{Profile} `{ReedSolomon}.

Definition erasure_new (d p : Z) : outcome DASError ErasureCoding :=
  match rs_new d p with
  | inl _ => Ok (mkCoder d p 0)
  | inr e => Err (InvalidData ("Failed to create Reed-Solomon: " +:+ e))
  end.

(** The shard of [data] at [i], padded with zeros. *)
Definition data_shard (data : list Z) (shard_size i : Z) : outcome DASError (list Z) :=
  let? start := umul 64 i shard_size in
  let? next := uadd 64 i 1 in
  let? stop := umul 64 next shard_size in
  let? shard := if start <? len data then slice data start (Z.min stop (len data)) else Ok [] in
  vec_resize shard shard_size.
Fixpoint data_shards_loop (data : list Z) (shard_size : Z) (is_ : list Z) : outcome DASError (list (list Z)) :=
  match is_ with
  | [] => Ok []
  | i :: is_ =>
      let? shard := data_shard data shard_size i in
      let? shards := data_shards_loop data shard_size is_ in
      Ok (shard :: shards)
  end.
Definition encode (c : ErasureCoding) (data : list Z) : outcome DASError CodedData :=
  let? sum := uadd 64 (len data) (data_shards c) in
  let? sum := usub 64 sum 1 in
  let? shard_size := udiv sum (data_shards c) in
  let? shards := data_shards_loop data shard_size (seqZ 0 (data_shards c)) in
  let? parity := vec_zeros shard_size in
  match rs_encode (data_shards c) (parity_shards c) (shards ++ replicate (Z.to_nat (parity_shards c)) parity) with
  | inl shards => Ok (mkCoded shards (data_shards c) (parity_shards c))
  | inr e => Err (InvalidData ("Encoding failed: " +:+ e))
  end.

(** The shards in order, with zeros for those that are missing. *)
Fixpoint gather (cols : gmap Z (list Z)) (shard_size : Z) (is_ : list Z) :
    outcome DASError (list (list Z) * list bool) :=
  match is_ with
  | [] => Ok ([], [])
  | i :: is_ =>
      match cols !! i with
      | Some column =>
          if negb (len column =? shard_size)
          then Err (InvalidData ("Inconsistent shard size: expected " +:+ pretty shard_size +:+ ", got " +:+ pretty (len column)))
          else let? (shards, present) := gather cols shard_size is_ in Ok (column :: shards, true :: present)
      | None =>
          let? zeros := vec_zeros shard_size in
          let? (shards, present) := gather cols shard_size is_ in Ok (zeros :: shards, false :: present)
      end
  end.
(** [while reconstructed.last() == Some(&0) { reconstructed.pop(); }] *)
Fixpoint drop_zeros (l : list Z) : list Z :=
  match l with
  | x :: l' => if x =? 0 then drop_zeros l' else l
  | [] => []
  end.
Definition strip_zeros (l : list Z) : list Z := rev (drop_zeros (rev l)).
Definition reconstruct (c : ErasureCoding) (cols : gmap Z (list Z)) : outcome DASError (list Z) :=
  if Z.of_nat (size cols) <? data_shards c then Err (InsufficientSamples (Z.of_nat (size cols)) (data_shards c))
  else
    match first_value cols with
    | None => Err (InvalidData "No columns available")
    | Some v =>
        let shard_size := len v in
        let? total := uadd 64 (data_shards c) (parity_shards c) in
        let? (shards, present) := gather cols shard_size (seqZ 0 total) in
        match rs_reconstruct (data_shards c) (parity_shards c) shards present with
        | inl shards => Ok (strip_zeros (concat (take (Z.to_nat (data_shards c)) shards)))
        | inr e => Err (ReconstructionFailed ("Reed-Solomon reconstruction failed: " +:+ e))
        end
    end.

(** [Ok(_)] is accepted, whatever the answer. *)
Definition verify (c : ErasureCoding) (coded : CodedData) : outcome DASError bool :=
  let? total := uadd 64 (data_shards c) (parity_shards c) in
  if negb (len (columns coded) =? total) then Ok false
  else match rs_verify (data_shards c) (parity_shards c) (columns coded) with
       | inl _ => Ok true
       | inr _ => Ok false
       end.

(** The columns that are not empty, by index. *)
Definition columns_map (cs : list (list Z)) : gmap Z (list Z) :=
  list_to_map (filter (fun e : Z * list Z => e.2 <> []) (imap (fun i x => (Z.of_nat i, x)) cs)).
Definition repair (c : ErasureCoding) (coded : CodedData) : outcome DASError CodedData :=
  let available := len (available_shards coded) in
  if available <? data_shards c then Err (InsufficientSamples available (data_shards c))
  else
    let? reconstructed := reconstruct c (columns_map (columns coded)) in
    let? repaired := encode c reconstructed in
    let? missing := missing_shards coded in
    Ok (foldl (fun coded i => match get_column i repaired with Some col => set_column i col coded | None => coded end)
          coded missing).

(** [SystematicErasureCoding] *)
Definition encode_systematic (c : ErasureCoding) (data : list Z) : outcome DASError CodedData := encode c data.
Definition can_reconstruct_systematic (c : ErasureCoding) (available : list Z) : bool :=
  len (filter (fun i : Z => i < data_shards c) available) =? data_shards c.
Definition reconstruct_systematic (c : ErasureCoding) (cols : gmap Z (list Z)) : outcome DASError (list Z) :=
  if forallb (fun i => bool_decide (is_Some (cols !! i))) (seqZ 0 (data_shards c)) then
    Ok (strip_zeros (concat (map (fun i => default [] (cols !! i)) (seqZ 0 (data_shards c)))))
  else reconstruct c cols.
End coder.

(** * The round trip of the code *)

(** What the documentation of the code promises for [d] data and [p] parity
    shards of equal, positive length: encoding keeps the data shards, and
    reconstruction from [d] shards of a code word gives the word. *)
Definition shards_of (count n : Z) (shards : list (list Z)) : Prop :=
  len shards = count /\ Forall (fun s => len s = n) shards.
Class ReedSolomonLaws `{ReedSolomon} (d p : Z) : Prop := {
  rs_encode_law shards n : 0 < n -> shards_of (d + p) n shards ->
    exists parity, rs_encode d p shards = inl (take (Z.to_nat d) shards ++ parity) /\ shards_of p n parity;
  rs_reconstruct_law shards code damaged present n : 0 < n -> rs_encode d p shards = inl code ->
    shards_of (d + p) n code -> shards_of (d + p) n damaged -> len present = d + p ->
    (forall i, present !! i = Some true -> damaged !! i = code !! i) ->
    d <= len (filter (fun b : bool => b = true) present) ->
    rs_reconstruct d p damaged present = inl code;
  first_value_law m : match first_value m with None => m = ∅ | Some v => exists i, m !! i = Some v end;
}.

(** ** Shards *)

Definition padded (n : nat) (l : list Z) : list Z := l ++ replicate (n - length l) 0.
Definition chunk (n i : nat) (data : list Z) : list Z := padded n (take n (drop (i * n) data)).
Lemma chunk_S n i data : chunk n (S i) data = chunk n i (drop n data).
Proof. unfold chunk. by rewrite drop_drop. Qed.
Lemma length_chunk n i data : length (chunk n i data) = n.
Proof. unfold chunk, padded. rewrite length_app, length_replicate, length_take. lia. Qed.
Lemma concat_chunks n k data : (length data <= k * n)%nat ->
  concat (map (fun i => chunk n i data) (seq 0 k)) = data ++ replicate (k * n - length data) 0.
Proof.
  revert data. induction k as [|k IH]; intros data Hl; simpl.
  { by apply Nat.le_0_r, nil_length_inv in Hl as ->. }
  rewrite <- seq_shift, map_map. rewrite (map_ext _ (fun i => chunk n i (drop n data)) (fun i => chunk_S n i data)).
  rewrite IH by (rewrite length_drop; lia). unfold chunk, padded. simpl. rewrite drop_0, length_drop.
  destruct (decide (n <= length data)%nat).
  - rewrite length_take_le, Nat.sub_diag by done. simpl. rewrite app_nil_r, app_assoc, take_drop. do 2 f_equal. lia.
  - rewrite take_ge, drop_ge by lia. simpl. rewrite <- app_assoc, <- replicate_add. do 2 f_equal. lia.
Qed.

Lemma drop_zeros_replicate n l : drop_zeros (replicate n 0 ++ l) = drop_zeros l.
Proof. by induction n. Qed.
Lemma strip_zeros_pad l n : strip_zeros (l ++ replicate n 0) = strip_zeros l.
Proof.
  unfold strip_zeros. rewrite rev_app_distr. f_equal. rewrite <- (drop_zeros_replicate n (rev l)). do 2 f_equal.
  rewrite rev_alt. apply reverse_replicate.
Qed.
(** What is lost is zeros at the end. *)
Lemma strip_zeros_spec l : exists n, l = strip_zeros l ++ replicate n 0 /\ last (strip_zeros l) <> Some 0.
Proof.
  unfold strip_zeros. remember (rev l) as r eqn:Hr.
  assert (l = rev r) as -> by by rewrite Hr, rev_involutive. clear Hr.
  induction r as [|x r IH]; simpl; [by exists 0%nat|]. destruct (Z.eqb_spec x 0) as [->|Hx].
  - destruct IH as (n & -> & Hl). exists (S n). rewrite <- app_assoc, <- replicate_cons_app. done.
  - exists 0%nat. simpl. rewrite app_nil_r. split; [done|]. rewrite last_snoc. congruence.
Qed.

Section roundtrip.
Context `{Profile} `{ReedSolomon}.

Lemma data_shard_ok data (n i : nat) : Z.of_nat (S i * n) <= isize_max -> Z.of_nat (S i) <= isize_max -> len data <= isize_max ->
  data_shard data (Z.of_nat n) (Z.of_nat i) = Ok (chunk n i data).
Proof.
  intros Hm Hi Hd. unfold data_shard, umul, uadd, isize_max in *.
  rewrite !checked_arith_ok by (unfold uint; lia). cbn [obind].
  rewrite checked_arith_ok by (unfold uint; lia). cbn [obind].
  unfold chunk, padded, vec_resize, len in *. rewrite (proj2 (Z.leb_le (Z.of_nat n) isize_max)) by (unfold isize_max; lia).
  destruct (Z.ltb_spec (Z.of_nat i * Z.of_nat n) (Z.of_nat (length data))) as [Hlt|Hge].
  - unfold slice, len. case_bool; [|lia..]. cbn [obind]. rewrite Nat2Z.id.
    replace (Z.to_nat (Z.of_nat i * Z.of_nat n)) with (i * n)%nat by lia.
    assert (take (Z.to_nat (Z.min ((Z.of_nat i + 1) * Z.of_nat n) (Z.of_nat (length data)) - Z.of_nat i * Z.of_nat n)) (drop (i * n) data)
      = take n (drop (i * n) data)) as ->.
    { destruct (decide (S i * n <= length data)%nat).
      - f_equal. lia.
      - rewrite !take_ge by (rewrite length_drop; lia). done. }
    rewrite (take_ge (take n _)) by (rewrite length_take; lia). done.
  - cbn [obind]. rewrite drop_ge by lia. rewrite !take_nil, Nat2Z.id. done.
Qed.
Lemma data_shards_ok data (n k : nat) : Z.of_nat (k * n) <= isize_max -> Z.of_nat k <= isize_max -> len data <= isize_max ->
  data_shards_loop data (Z.of_nat n) (seqZ 0 (Z.of_nat k)) = Ok (map (fun i => chunk n i data) (seq 0 k)).
Proof.
  intros Hm Hk Hd. unfold seqZ. rewrite Nat2Z.id.
  assert (forall l, (forall i, i ∈ l -> (i < k)%nat) ->
    data_shards_loop data (Z.of_nat n) ((fun i : nat => Z.of_nat i + 0) <$> l) = Ok (map (fun i => chunk n i data) l)) as Hl.
  { induction l as [|i l IH]; intros Hl; csimpl; [done|]. rewrite Z.add_0_r.
    assert (i < k)%nat by (apply Hl; left). rewrite data_shard_ok by nia. cbn [obind].
    rewrite IH by (intros; apply Hl; by right). done. }
  apply Hl. intros i Hi%elem_of_seq. lia.
Qed.

Lemma encode_ok d p data : 0 < d -> 0 <= p -> ReedSolomonLaws d p -> data <> [] -> len data + d <= isize_max ->
  exists n parity code, encode (mkCoder d p 0) data = Ok (mkCoded code d p) /\ (0 < n)%nat /\
    code = map (fun i => chunk n i data) (seq 0 (Z.to_nat d)) ++ parity /\
    shards_of (d + p) (Z.of_nat n) code /\ (exists shards, rs_encode d p shards = inl code) /\
    (length data <= Z.to_nat d * n)%nat /\ Z.of_nat n <= len data.
Proof.
  intros Hd Hp Hlaws Hne Hl. unfold isize_max in Hl. unfold encode, uadd, usub, udiv. cbn [data_shards parity_shards].
  assert (0 < len data) as Hpos by (destruct data; [done|rewrite len_cons; pose proof (len_nonneg data); lia]).
  rewrite checked_arith_ok by (unfold uint; lia). cbn [obind]. rewrite checked_arith_ok by (unfold uint; lia). cbn [obind].
  rewrite (proj2 (Z.eqb_neq d 0)) by lia. cbn [obind]. set (n := (len data + d - 1) / d).
  assert (0 < n /\ len data <= d * n /\ d * n < len data + d) as (Hn & Hln & Hnl) by (unfold n; zlia).
  set (m := Z.to_nat n). assert (n = Z.of_nat m) as Hm by lia. rewrite Hm.
  pose proof (data_shards_ok data m (Z.to_nat d)) as Hsh. rewrite Z2Nat.id in Hsh by lia.
  rewrite Hsh by (unfold isize_max; nia). cbn [obind]. unfold vec_zeros. rewrite (proj2 (Z.leb_le _ _)) by (unfold isize_max; nia).
  cbn [obind]. rewrite Nat2Z.id. set (shards := map _ _).
  destruct (rs_encode_law (shards ++ replicate (Z.to_nat p) (replicate m 0)) (Z.of_nat m)) as (parity & He & Hpar); [lia| |].
  { unfold shards_of, shards. rewrite len_app. unfold len at 1 2. rewrite length_map, length_seq, length_replicate.
    split; [lia|]. apply Forall_app. split; [apply Forall_map, Forall_forall; intros; unfold len; by rewrite length_chunk|].
    apply Forall_replicate. unfold len. by rewrite length_replicate. }
  rewrite He. assert (length shards = Z.to_nat d) as Hls by (unfold shards; by rewrite length_map, length_seq).
  exists m, parity, (shards ++ parity). rewrite <- Hls, take_app_length. split_and!; [done|lia|by rewrite Hls| | | |].
  - destruct Hpar as [Hp1 Hp2]. split; [rewrite len_app, Hp1; unfold len; lia|]. apply Forall_app. split; [|done].
    apply Forall_map, Forall_forall. intros. unfold len. by rewrite length_chunk.
  - eexists. by rewrite He, <- Hls, take_app_length.
  - unfold len in *. nia.
  - nia.
Qed.

Lemma gather_ok (cols : gmap Z (list Z)) n is_ : 0 <= n <= isize_max -> (forall i v, cols !! i = Some v -> len v = n) ->
  gather cols n is_ = Ok (map (fun i => default (replicate (Z.to_nat n) 0) (cols !! i)) is_,
                          map (fun i => bool_decide (is_Some (cols !! i))) is_).
Proof.
  intros Hn Hc. induction is_ as [|i is_ IH]; simpl; [done|]. rewrite IH.
  destruct (cols !! i) as [v|] eqn:Hv; simpl.
  - rewrite (Hc i v Hv), Z.eqb_refl. done.
  - unfold vec_zeros. rewrite (proj2 (Z.leb_le _ _)) by lia. done.
Qed.
Lemma lookup_map {A B} (f : A -> B) (l : list A) i : map f l !! i = f <$> l !! i.
Proof. exact (list_lookup_fmap f l i). Qed.
Lemma count_true (A : Type) (f : A -> bool) l :
  length (filter (fun b : bool => b = true) (map f l)) = length (filter (fun x => f x = true) l).
Proof. induction l as [|x l IH]; [done|]. simpl. rewrite !filter_cons. destruct (f x); simpl; auto. Qed.
Lemma present_count (cols : gmap Z (list Z)) total : (forall i v, cols !! i = Some v -> 0 <= i < total) ->
  len (filter (fun b : bool => b = true) (map (fun i => bool_decide (is_Some (cols !! i))) (seqZ 0 total))) = Z.of_nat (size cols).
Proof.
  intros Hc. unfold len. rewrite count_true. f_equal. set (l := filter _ (seqZ 0 total)).
  assert (NoDup l) as Hnd by apply NoDup_filter, NoDup_seqZ.
  transitivity (size (list_to_set l : gset Z)); [by rewrite size_list_to_set|].
  rewrite <- size_dom. f_equal. apply leibniz_equiv. intros i. rewrite elem_of_list_to_set, elem_of_dom.
  unfold l. rewrite list_elem_of_filter, bool_decide_eq_true, elem_of_seqZ. split; [tauto|].
  intros [v Hv]. pose proof (Hc i v Hv). split; [by exists v|lia].
Qed.

(** The columns in a map are columns of the code word. *)
Definition columns_of (code : list (list Z)) (cols : gmap Z (list Z)) : Prop :=
  forall i v, cols !! i = Some v -> 0 <= i /\ code !! Z.to_nat i = Some v.
Lemma columns_of_bound code cols total : len code = total -> columns_of code cols ->
  forall i v, cols !! i = Some v -> 0 <= i < total.
Proof. intros <- Hc i v Hi. apply Hc in Hi as [? Hi%lookup_lt_Some]. unfold len. lia. Qed.

Lemma reconstruct_ok d p code cols n : 0 < d -> 0 <= p -> d + p <= isize_max -> ReedSolomonLaws d p ->
  0 < n <= isize_max -> shards_of (d + p) n code -> (exists shards, rs_encode d p shards = inl code) ->
  columns_of code cols -> d <= Z.of_nat (size cols) ->
  reconstruct (mkCoder d p 0) cols = Ok (strip_zeros (concat (take (Z.to_nat d) code))).
Proof.
  intros Hd Hp Htot Hlaws Hn [Hlen Hall] (shards & He) Hcols Hsize. unfold reconstruct. cbn [data_shards parity_shards].
  rewrite (proj2 (Z.ltb_ge _ _)) by lia.
  assert (forall i v, cols !! i = Some v -> len v = n) as Hn'.
  { intros i v Hi. apply Hcols in Hi as [_ Hi]. by eapply Forall_lookup_1 in Hall. }
  pose proof (first_value_law cols) as Hf. destruct (first_value cols) as [v|].
  2:{ subst cols. rewrite map_size_empty in Hsize. lia. }
  destruct Hf as [i Hi]. rewrite (Hn' i v Hi). unfold uadd. rewrite checked_arith_ok by (unfold uint, isize_max in *; lia).
  cbn [obind]. rewrite gather_ok by (done || lia). cbn [obind].
  pose proof (columns_of_bound code cols (d + p) Hlen Hcols) as Hb.
  rewrite (rs_reconstruct_law shards code _ _ n); [done|lia|done|done|..].
  - split; [unfold len; rewrite length_map, length_seqZ; lia|]. apply Forall_map, Forall_forall. intros j _.
    destruct (cols !! j) as [w|] eqn:Hj; simpl; [by eapply Hn'|]. unfold len. rewrite length_replicate. lia.
  - unfold len. rewrite length_map, length_seqZ. lia.
  - intros j Hj. rewrite lookup_map in Hj. rewrite lookup_map. destruct (seqZ 0 (d + p) !! j) as [x|] eqn:Hx; [|done].
    apply lookup_seqZ in Hx as [-> ?]. simpl in *. injection Hj as Hj. rewrite bool_decide_eq_true in Hj. destruct Hj as [w Hw].
    rewrite Hw. simpl. apply Hcols in Hw as [_ Hw]. rewrite <- Hw. f_equal. lia.
  - by rewrite present_count.
Qed.
End roundtrip.

(** C20: data encoded into columns comes back from any of its columns, as soon
    as there are as many as data shards: reconstruction returns the data
    without the zeros at its end, and the systematic path agrees with it. *)
Theorem erasure_roundtrip `{Profile} `{ReedSolomon} d p data :
  ReedSolomonLaws d p -> 0 < d -> 0 <= p -> data <> [] -> len data + d + p <= isize_max ->
  exists coded, encode (mkCoder d p 0) data = Ok coded /\ len (columns coded) = d + p /\
    forall cols, columns_of (columns coded) cols -> d <= Z.of_nat (size cols) ->
      reconstruct (mkCoder d p 0) cols = Ok (strip_zeros data) /\
      reconstruct_systematic (mkCoder d p 0) cols = Ok (strip_zeros data).
Proof.
  intros Hlaws Hd Hp Hne Hl.
  destruct (encode_ok d p data Hd Hp Hlaws Hne) as (n & parity & code & He & Hn & -> & Hsh & Hword & Hlen & Hnd); [lia|].
  set (shards := map (fun i => chunk n i data) (seq 0 (Z.to_nat d))) in *.
  assert (length shards = Z.to_nat d) as Hls by (unfold shards; by rewrite length_map, length_seq).
  assert (strip_zeros (concat shards) = strip_zeros data) as Hstrip.
  { unfold shards. rewrite concat_chunks by done. apply strip_zeros_pad. }
  eexists. split; [done|]. split; [apply Hsh|]. cbn [columns]. intros cols Hcols Hsize.
  assert (reconstruct (mkCoder d p 0) cols = Ok (strip_zeros data)) as Hrec.
  { rewrite (reconstruct_ok d p (shards ++ parity) cols (Z.of_nat n)); try done; [|lia|].
    - by rewrite <- Hls, take_app_length, Hstrip.
    - lia. }
  split; [done|]. unfold reconstruct_systematic. cbn [data_shards].
  destruct (forallb _ _) eqn:Hall; [|done]. f_equal. rewrite <- Hstrip. do 2 f_equal. unfold shards, seqZ.
  rewrite forallb_forall in Hall. rewrite map_map. apply map_ext_in. intros i Hi%in_seq. rewrite Z.add_0_r.
  assert (is_Some (cols !! Z.of_nat i)) as [v Hv].
  { eapply bool_decide_eq_true, Hall, list_elem_of_In, elem_of_seqZ. lia. }
  rewrite Hv. simpl. apply Hcols in Hv as [_ Hv]. rewrite Nat2Z.id, lookup_app_l in Hv by lia.
  unfold shards in Hv. rewrite lookup_map, lookup_seq_lt in Hv by lia. by injection Hv.
Qed.

(** * A code that meets the laws *)

Definition xor_bytes (a b : list Z) : list Z := zip_with Z.lxor a b.
Lemma xor_bytes_cancel a b : length a = length b -> xor_bytes a (xor_bytes a b) = b.
Proof.
  revert b. induction a as [|x a IH]; intros [|y b] Hl; try done. unfold xor_bytes in *. simpl.
  rewrite IH by by injection Hl. by rewrite <- Z.lxor_assoc, Z.lxor_nilpotent, Z.lxor_0_l.
Qed.
Lemma xor_bytes_comm a b : xor_bytes a b = xor_bytes b a.
Proof. unfold xor_bytes. revert b. induction a as [|x a IH]; intros [|y b]; simpl; [done..|]. by rewrite IH, Z.lxor_comm. Qed.

(** The first shard that is there. *)
Fixpoint first_present (shards : list (list Z)) (present : list bool) : list Z :=
  match shards, present with
  | s :: _, true :: _ => s
  | _ :: shards, _ :: present => first_present shards present
  | _, _ => []
  end.
(** Copies of one data shard, or two data shards and their sum. *)
#[export] Instance small_code : ReedSolomon := {|
  rs_new _ _ := inl tt;
  rs_encode d p shards :=
    if d =? 1 then inl (replicate (Z.to_nat (1 + p)) (default [] (head shards)))
    else match shards with
         | [a; b; _] => inl [a; b; xor_bytes a b]
         | _ => inr "shards"%string
         end;
  rs_reconstruct d p shards present :=
    if d =? 1 then inl (replicate (Z.to_nat (1 + p)) (first_present shards present))
    else match shards, present with
         | [a; b; _], [true; true; _] => inl [a; b; xor_bytes a b]
         | [a; _; c], [true; false; true] => inl [a; xor_bytes a c; c]
         | [_; b; c], [false; true; true] => inl [xor_bytes b c; b; c]
         | _, _ => inr "shards"%string
         end;
  rs_verify _ _ _ := inl true;
  first_value m := snd <$> head (map_to_list m);
|}.
Lemma small_first_value (m : gmap Z (list Z)) :
  match first_value m with None => m = ∅ | Some v => exists i, m !! i = Some v end.
Proof.
  simpl. destruct (map_to_list m) as [|[i v] l] eqn:Hm; simpl; [by apply map_to_list_empty_iff|].
  exists i. apply elem_of_map_to_list. rewrite Hm. left.
Qed.
#[export] Instance copies_laws p : 0 <= p -> ReedSolomonLaws 1 p.
Proof.
  intros Hp. split; [..|apply small_first_value].
  - intros shards n Hn [Hl Hall]. simpl. destruct shards as [|s shards]; [by unfold len in Hl; simpl in Hl; lia|].
    exists (replicate (Z.to_nat p) s). simpl. replace (Z.to_nat (1 + p)) with (S (Z.to_nat p)) by lia.
    split; [done|]. split; [unfold len; rewrite length_replicate; lia|]. apply Forall_replicate. by apply Forall_cons in Hall as [? _].
  - simpl. intros shards code damaged present n Hn [= <-] _ [Hdl _] Hpl Hag Hcount. f_equal. f_equal.
    set (s := default [] (head shards)) in *.
    assert (forall i x, replicate (Z.to_nat (1 + p)) s !! i = Some x -> x = s) as Hs.
    { intros i x Hi. by apply lookup_replicate in Hi as [-> _]. }
    revert Hag Hcount Hs. generalize (replicate (Z.to_nat (1 + p)) s) as code. intros code.
    assert (length damaged = length present) as Hlen by (unfold len in *; lia). clear Hdl Hpl.
    revert damaged code Hlen. induction present as [|b present IH]; intros damaged code Hlen Hag Hcount Hs.
    { rewrite filter_nil, len_nil in Hcount. lia. }
    destruct damaged as [|x damaged]; [done|]. destruct b.
    + specialize (Hag 0%nat eq_refl). simpl in Hag |- *. symmetry in Hag. by apply Hs in Hag.
    + simpl. apply (IH damaged (drop 1 code)); [by injection Hlen|..].
      * intros i Hi. specialize (Hag (S i) Hi). simpl in Hag. by rewrite lookup_drop.
      * by rewrite filter_cons_False in Hcount by done.
      * intros i y Hi. rewrite lookup_drop in Hi. by eapply Hs.
Qed.
#[export] Instance sum_laws : ReedSolomonLaws 2 1.
Proof.
  split; [..|apply small_first_value].
  - intros [|a [|b [|c [|? ?]]]] n Hn [Hl Hall]; try (unfold len in Hl; simpl in Hl; lia). exists [xor_bytes a b]. split; [done|].
    split; [done|]. repeat (apply Forall_cons in Hall as [? Hall]). constructor; [|done].
    unfold len, xor_bytes in *. rewrite length_zip_with. lia.
  - intros [|a [|b [|c [|? ?]]]] code [|x [|y [|z [|? ?]]]] [|p1 [|p2 [|p3 [|? ?]]]] n Hn He Hcode [Hdl Hall] Hpl Hag Hcount;
      simpl in He; try done; try (unfold len in Hdl, Hpl; simpl in Hdl, Hpl; lia).
    injection He as <-. destruct Hcode as [_ Hc]. repeat (apply Forall_cons in Hc as [? Hc]).
    assert (length a = length b) as Hab by (unfold len in *; lia).
    pose proof (Hag 0%nat) as H0'. pose proof (Hag 1%nat) as H1'. pose proof (Hag 2%nat) as H2'. simpl in H0', H1', H2'.
    destruct p1, p2, p3; try (by vm_compute in Hcount);
      repeat match goal with
             | E : Some true = Some true -> _ |- _ => specialize (E eq_refl); simplify_eq
             | E : Some false = Some true -> _ |- _ => clear E
             end; simpl; [done..|by rewrite xor_bytes_cancel|].
    by rewrite (xor_bytes_comm a b), xor_bytes_cancel.
Qed.

Lemma erasure_roundtrip_witness :
  exists coded, encode (H := dev_profile) (mkCoder 2 1 0) [1; 2; 3] = Ok coded /\
    reconstruct (H := dev_profile) (mkCoder 2 1 0) (<[0 := [1; 2]]> {[2 := [2; 2]]}) = Ok [1; 2; 3].
Proof.
  destruct (erasure_roundtrip (H := dev_profile) 2 1 [1; 2; 3] _) as (coded & He & _ & Hr); [lia|lia|done|done|].
  exists coded. split; [exact He|]. vm_compute in He. injection He as <-.
  apply Hr; [|done]. intros i v [[<- <-]|[_ [<- <-]%lookup_singleton_Some]]%lookup_insert_Some; done.
Defined.
(** Zeros at the end of the data are lost. *)
Example trailing_zero_lost :
  (let? coded := encode (H := dev_profile) (mkCoder 2 1 0) [1; 2; 0] in
   reconstruct (H := dev_profile) (mkCoder 2 1 0) (columns_map (columns coded))) = Ok [1; 2].
Proof. by vm_compute. Qed.
(** A repaired column has another length than the ones it joins. *)
Example repair_breaks_columns :
  (let? coded := encode (H := dev_profile) (mkCoder 2 1 0) [1; 2; 0; 0; 0; 0] in
   let? c := repair (H := dev_profile) (mkCoder 2 1 0) (set_column 1 [] coded) in Ok (columns c)) =
  Ok [[1; 2; 0]; [2]; [1; 2; 0]].
Proof. by vm_compute. Qed.

End Das.
