(* ===== verification/DasPeer.v ===== *)
(** Columns, their reconstruction and their custody:
    crates/das/src/reconstruction.rs and peer_das.rs over the erasure code of
    erasure.rs.  KZG commitments and proofs are opaque (their verification in
    the source accepts everything), the outcomes of the sampling requests and
    the shuffle of the rand crate are parameters. *)
From stdpp Require Import base list numbers option strings pretty gmap sets.
From Stdlib Require Import ZArith Lia.
From S2P Require Import Prelude U256 Das.

Module DasPeer.
Import Das.

Section columns.
Context {Kc Kp : Type}.

Record DataColumn := mkColumn {
  index : Z; column : list Z; kzg_commitments : list Kc; kzg_proofs : list Kp;
}.
Definition column_new (i : Z) (c : list Z) : DataColumn := mkColumn i c [] [].
(** The loop over the commitments only logs. *)
Definition column_verify (c : DataColumn) : outcome DASError bool := Ok true.

(** * reconstruction.rs *)

Record ReconstructionMetrics := mkRecMetrics {
  total_reconstructions : Z; successful_reconstructions : Z; failed_reconstructions : Z; avg_columns_used : Z;
}.
Definition rec_metrics_new : ReconstructionMetrics := mkRecMetrics 0 0 0 0.
Record DataReconstructor := mkReconstructor {
  rec_data_columns : Z; rec_coder : ErasureCoding; rec_metrics : ReconstructionMetrics;
}.
Definition set_rec_metrics (m : ReconstructionMetrics) (r : DataReconstructor) : DataReconstructor :=
  mkReconstructor (rec_data_columns r) (rec_coder r) m.
Definition bump (x : Z) : Z := wrap 64 (x + 1).
Definition count_total (m : ReconstructionMetrics) : ReconstructionMetrics :=
  mkRecMetrics (bump (total_reconstructions m)) (successful_reconstructions m) (failed_reconstructions m) (avg_columns_used m).
Definition count_failed (m : ReconstructionMetrics) : ReconstructionMetrics :=
  mkRecMetrics (total_reconstructions m) (successful_reconstructions m) (bump (failed_reconstructions m)) (avg_columns_used m).
Definition count_success (used : Z) (m : ReconstructionMetrics) : ReconstructionMetrics :=
  mkRecMetrics (total_reconstructions m) (bump (successful_reconstructions m)) (failed_reconstructions m) used.

Section reconstructor.
Context `{Profile} `{ReedSolomon}.

(** [expect] panics when the coder cannot be made. *)
Definition reconstructor_new (n : Z) : outcome DASError DataReconstructor :=
  match erasure_new n n with
  | Ok c => Ok (mkReconstructor n c rec_metrics_new)
  | Err _ => Panic
  | Panic => Panic
  | Diverge => Diverge
  end.
Notation RM := (SM DataReconstructor DASError).
Definition on_rec_metrics (f : ReconstructionMetrics -> ReconstructionMetrics) : RM unit :=
  smodify (fun r => set_rec_metrics (f (rec_metrics r)) r).
(** The columns by index; of two with one index the later in order stays. *)
Definition column_data (cs : list DataColumn) : gmap Z (list Z) :=
  foldl (fun m c => <[index c := column c]> m) ∅ (sort_by_key index cs).
Definition reconstruct_columns_data (cs : list DataColumn) : RM (list Z) :=
  on_rec_metrics count_total ;;!
  let! r := sget in
  if len cs <? rec_data_columns r then
    on_rec_metrics count_failed ;;!
    sfail (InsufficientSamples (len cs) (rec_data_columns r))
  else
    let! data := slift (reconstruct (rec_coder r) (column_data cs)) in
    on_rec_metrics (count_success (len cs)) ;;!
    sret data.

(** The requested columns of the re-encoded data. *)
Fixpoint extract (coded : CodedData) (available : list DataColumn) (targets : list Z) : outcome DASError (list DataColumn) :=
  match targets with
  | [] => Ok []
  | i :: targets =>
      match get_column i coded with
      | Some data =>
          let c := match list_find (fun c => index c = i) available with
                   | Some (_, a) => mkColumn i data (kzg_commitments a) (kzg_proofs a)
                   | None => column_new i data
                   end in
          let? cs := extract coded available targets in
          Ok (c :: cs)
      | None => Err (ReconstructionFailed ("Failed to reconstruct column " +:+ pretty i))
      end
  end.
Definition reconstruct_columns (available : list DataColumn) (targets : list Z) : RM (list DataColumn) :=
  let! data := reconstruct_columns_data available in
  let! r := sget in
  let! coded := slift (encode (rec_coder r) data) in
  slift (extract coded available targets).
Definition verify_reconstruction (r : DataReconstructor) (data : list Z) (known : list DataColumn) : outcome DASError bool :=
  let? coded := encode (rec_coder r) data in
  Ok (forallb (fun c => match get_column (index c) coded with
                        | Some col => bool_decide (col = column c)
                        | None => true
                        end) known).

Inductive ReconstructionStrategy := FirstK | PreferSystematic | LowestLatency | HighestReliability.
Definition select_columns (s : ReconstructionStrategy) (available : list DataColumn) (required : Z) : list DataColumn :=
  let k := Z.to_nat required in
  match s with
  | FirstK | LowestLatency | HighestReliability => take k available
  | PreferSystematic =>
      take k (filter (fun c => index c < required) available ++ filter (fun c => ~ index c < required) available)
  end.

(** [ParallelReconstructor]: one reconstructor per group of columns. *)
Record ParallelReconstructor := mkParallel { reconstructors : list DataReconstructor; par_shard_size : Z }.
Fixpoint reconstructors_new (k : nat) (n : Z) : outcome DASError (list DataReconstructor) :=
  match k with
  | O => Ok []
  | S k => let? r := reconstructor_new n in let? rs := reconstructors_new k n in Ok (r :: rs)
  end.
Definition parallel_new (num_shards n : Z) : outcome DASError ParallelReconstructor :=
  let? rs := reconstructors_new (Z.to_nat num_shards) n in
  let? size := udiv n num_shards in
  Ok (mkParallel rs size).
Definition shard_index (p : ParallelReconstructor) (c : DataColumn) : outcome DASError Z :=
  let? q := udiv (index c) (par_shard_size p) in
  let? last := usub 64 (len (reconstructors p)) 1 in
  Ok (Z.min q last).
Fixpoint shard_indices (p : ParallelReconstructor) (cs : list DataColumn) : outcome DASError (list (Z * DataColumn)) :=
  match cs with
  | [] => Ok []
  | c :: cs => let? i := shard_index p c in let? rest := shard_indices p cs in Ok ((i, c) :: rest)
  end.
(** Every group with a column is reconstructed; the results are joined in
    order, and the first error ends the collection. *)
Fixpoint reconstruct_groups (i : Z) (rs : list DataReconstructor) (tagged : list (Z * DataColumn)) : outcome DASError (list Z) :=
  match rs with
  | [] => Ok []
  | r :: rs =>
      let group := (filter (fun e : Z * DataColumn => e.1 = i) tagged).*2 in
      if bool_decide (len group = 0) then reconstruct_groups (i + 1) rs tagged
      else
        let? data := (reconstruct_columns_data group r).1 in
        let? rest := reconstruct_groups (i + 1) rs tagged in
        Ok (data ++ rest)
  end.
Definition reconstruct_parallel (p : ParallelReconstructor) (cs : list DataColumn) : outcome DASError (list Z) :=
  let? tagged := shard_indices p cs in
  reconstruct_groups 0 (reconstructors p) tagged.
End reconstructor.

(** * peer_das.rs *)

Record DASConfig := mkDASConfig {
  data_columns : Z; redundancy_columns : Z; samples_per_slot : Z; max_concurrent_samples : Z; custody_requirement : Z;
}.
Definition das_default : DASConfig := mkDASConfig 128 128 75 16 4.
(** The progress of a sampling is always 0. *)
Inductive DASStatus := Idle | Sampling (block_root : list Z) | Available | NotAvailable | Reconstructing.
Record CustodySubnet := mkSubnet { subnet_id : Z; node_ids : gset (list Z); subnet_columns : list Z }.
Record DASMetrics := mkDASMetrics {
  samples_requested : Z; samples_successful : Z; samples_failed : Z;
  reconstructions_attempted : Z; reconstructions_successful : Z;
}.
Record PeerDAS := mkPeer {
  das_config : DASConfig;
  das_status : DASStatus;
  local_columns : gmap (Z * list Z) DataColumn;
  reconstructor : DataReconstructor;
  erasure_coder : ErasureCoding;
  custody_subnets : list CustodySubnet;
  my_custody_columns : list Z;
  das_metrics : DASMetrics;
}.

Section peer.
Context `{Profile} `{ReedSolomon} `{KeccakOps}.
Notation PM := (SM PeerDAS DASError).

Definition peer_new (c : DASConfig) : outcome DASError PeerDAS :=
  let? _ := uadd 64 (data_columns c) (redundancy_columns c) in
  let? r := reconstructor_new (data_columns c) in
  let? e := erasure_new (data_columns c) (redundancy_columns c) in
  Ok (mkPeer c Idle ∅ r e [] [] (mkDASMetrics 0 0 0 0 0)).

(** ** Custody *)
Definition subnet_new (id per_subnet : Z) : outcome DASError CustodySubnet :=
  let? start := umul 64 id per_subnet in
  let? _ := uadd 64 start per_subnet in
  Ok (mkSubnet id ∅ (seqZ start per_subnet)).
Definition add_node (n : list Z) (s : CustodySubnet) : CustodySubnet :=
  mkSubnet (subnet_id s) ({[n]} ∪ node_ids s) (subnet_columns s).
Definition remove_node (n : list Z) (s : CustodySubnet) : CustodySubnet :=
  mkSubnet (subnet_id s) (node_ids s ∖ {[n]}) (subnet_columns s).
Definition is_responsible_for (i : Z) (s : CustodySubnet) : bool := bool_decide (i ∈ subnet_columns s).
Fixpoint next_subnets (count : nat) (id : Z) : list Z :=
  match count with
  | O => []
  | S count => id :: next_subnets count ((id + 1) mod 32)
  end.
Definition compute_custody_subnets (node_id : list Z) (requirement : Z) : outcome DASError (list Z) :=
  let? first := slice (keccak256 node_id) 0 8 in
  Ok (next_subnets (Z.to_nat requirement) (from_be first mod 32)).
Fixpoint make_subnets (node_id : list Z) (per_subnet : Z) (ids : list Z) : outcome DASError (list CustodySubnet) :=
  match ids with
  | [] => Ok []
  | id :: ids =>
      let? s := subnet_new id per_subnet in
      let? rest := make_subnets node_id per_subnet ids in
      Ok (add_node node_id s :: rest)
  end.
Definition initialize_custody (node_id : list Z) : PM unit :=
  let! p := sget in
  let per_subnet := data_columns (das_config p) / 32 in
  let! ids := slift (compute_custody_subnets node_id (custody_requirement (das_config p))) in
  let! subnets := slift (make_subnets node_id per_subnet ids) in
  sput (mkPeer (das_config p) (das_status p) (local_columns p) (reconstructor p) (erasure_coder p) subnets
          (concat (map subnet_columns subnets)) (das_metrics p)).
Definition is_custody_column (i : Z) (p : PeerDAS) : bool := bool_decide (i ∈ my_custody_columns p).
(** The columns of a block with these indices that are stored. *)
Definition stored (root : list Z) (indices : list Z) (p : PeerDAS) : list DataColumn :=
  omap (fun i => local_columns p !! (i, root)) indices.
Definition get_custody_columns (root : list Z) (p : PeerDAS) : list DataColumn := stored root (my_custody_columns p) p.

(** ** Columns *)
Definition set_status (s : DASStatus) : PM unit :=
  smodify (fun p => mkPeer (das_config p) s (local_columns p) (reconstructor p) (erasure_coder p) (custody_subnets p)
                      (my_custody_columns p) (das_metrics p)).
Definition on_das_metrics (f : DASMetrics -> DASMetrics) : PM unit :=
  smodify (fun p => mkPeer (das_config p) (das_status p) (local_columns p) (reconstructor p) (erasure_coder p)
                      (custody_subnets p) (my_custody_columns p) (f (das_metrics p))).
Definition store_column (id : Z * list Z) (c : DataColumn) : PM unit :=
  let! ok := slift (column_verify c) in
  if negb ok then sfail (InvalidData "Column verification failed")
  else smodify (fun p => mkPeer (das_config p) (das_status p) (<[id := c]> (local_columns p)) (reconstructor p)
                           (erasure_coder p) (custody_subnets p) (my_custody_columns p) (das_metrics p)).
Definition get_stored_column (id : Z * list Z) (p : PeerDAS) : option DataColumn := local_columns p !! id.
Definition collect_available_columns (root : list Z) (p : PeerDAS) : list DataColumn :=
  stored root (seqZ 0 (data_columns (das_config p))) p.
Definition reconstruct_data (root : list Z) : PM (list Z) :=
  set_status Reconstructing ;;!
  on_das_metrics (fun m => mkDASMetrics (samples_requested m) (samples_successful m) (samples_failed m)
    (bump (reconstructions_attempted m)) (reconstructions_successful m)) ;;!
  let! p := sget in
  let columns := collect_available_columns root p in
  if len columns <? data_columns (das_config p)
  then sfail (InsufficientSamples (len columns) (data_columns (das_config p)))
  else
    let! data := (fun p => let '(r, rc) := reconstruct_columns_data columns (reconstructor p) in
      (r, mkPeer (das_config p) (das_status p) (local_columns p) rc (erasure_coder p) (custody_subnets p)
            (my_custody_columns p) (das_metrics p))) in
    on_das_metrics (fun m => mkDASMetrics (samples_requested m) (samples_successful m) (samples_failed m)
      (reconstructions_attempted m) (bump (reconstructions_successful m))) ;;!
    set_status Available ;;!
    sret data.
Definition extend_data (data : list Z) (p : PeerDAS) : outcome DASError (list DataColumn) :=
  let? coded := encode (erasure_coder p) data in
  Ok (imap (fun i c => column_new (Z.of_nat i) c) (columns coded)).

(** ** Sampling *)

(** [sampled] are the answers to the requests, [shuffle] the random order. *)
Definition select_sample_columns (shuffle : list Z -> list Z) (count : Z) (p : PeerDAS) : outcome DASError (list Z) :=
  let? total := uadd 64 (data_columns (das_config p)) (redundancy_columns (das_config p)) in
  Ok (take (Z.to_nat count) (shuffle (seqZ 0 total))).
Definition sample_availability (shuffle : list Z -> list Z) (sampled : list Z -> list bool) (root : list Z) : PM bool :=
  set_status (Sampling root) ;;!
  let! p := sget in
  let count := samples_per_slot (das_config p) in
  on_das_metrics (fun m => mkDASMetrics (wrap 64 (samples_requested m + count)) (samples_successful m) (samples_failed m)
    (reconstructions_attempted m) (reconstructions_successful m)) ;;!
  let! indices := slift (select_sample_columns shuffle count p) in
  let successful := len (filter (fun b : bool => b = true) (sampled indices)) in
  let! twice := slift (umul 64 count 2) in
  let required := twice / 3 in
  on_das_metrics (fun m => mkDASMetrics (samples_requested m) (wrap 64 (samples_successful m + successful)) (samples_failed m)
    (reconstructions_attempted m) (reconstructions_successful m)) ;;!
  if required <=? successful then set_status Available ;;! sret true
  else set_status NotAvailable ;;! sret false.
End peer.
End columns.
Arguments DataColumn : clear implicits.
Arguments PeerDAS : clear implicits.

(** * Reconstruction from the local columns *)

Section local.
Context {Kc Kp : Type} `{Profile} `{ReedSolomon}.
Implicit Types (cs : list (DataColumn Kc Kp)) (p : PeerDAS Kc Kp) (root : list Z).

Lemma insert_columns cs (m : gmap Z (list Z)) i : NoDup (index <$> cs) ->
  foldl (fun m c => <[index c := column c]> m) m cs !! i =
  match list_find (fun c => index c = i) cs with Some (_, c) => Some (column c) | None => m !! i end.
Proof.
  revert m. induction cs as [|c cs IH]; intros m Hnd; csimpl; [done|].
  apply NoDup_cons in Hnd as [Hni Hnd]. rewrite IH by done. case_decide as Hi.
  - destruct (list_find (fun c => index c = i) cs) as [[j c']|] eqn:Hf; simpl.
    + apply list_find_Some in Hf as (Hj & Hc' & _). destruct Hni. apply list_elem_of_fmap. exists c'.
      split; [congruence|]. by eapply list_elem_of_lookup_2.
    + by rewrite <- Hi, lookup_insert_eq.
  - destruct (list_find (fun c => index c = i) cs) as [[j c']|]; simpl; [done|]. by rewrite lookup_insert_ne.
Qed.
Lemma column_data_lookup cs i v : NoDup (index <$> cs) ->
  column_data cs !! i = Some v <-> exists c, c ∈ cs /\ index c = i /\ column c = v.
Proof.
  intros Hnd. unfold column_data. pose proof (sort_by_key_perm index cs) as Hp.
  set (l := sort_by_key index cs) in *. clearbody l. rewrite <- Hp in Hnd.
  rewrite insert_columns by done. setoid_rewrite <- Hp. clear Hp cs. split.
  - destruct (list_find _ _) as [[j c]|] eqn:Hf; [|by rewrite lookup_empty]. intros [= <-].
    apply list_find_Some in Hf as (Hj & Hc & _). exists c. split; [by eapply list_elem_of_lookup_2|done].
  - intros (c & Hc & Hi & <-). destruct (list_find _ _) as [[j c']|] eqn:Hf.
    + apply list_find_Some in Hf as (Hj & Hc' & _). do 2 f_equal. apply list_elem_of_lookup_2 in Hj. clear j.
      induction l as [|x l IH]; [set_solver|]. csimpl in Hnd. apply NoDup_cons in Hnd as [Hx Hnd].
      apply elem_of_cons in Hc as [->|Hc], Hj as [->|Hj]; [done|..|auto].
      * destruct Hx. apply list_elem_of_fmap. exists c'. split; [congruence|done].
      * destruct Hx. apply list_elem_of_fmap. exists c. split; [congruence|done].
    + apply list_find_None in Hf. rewrite Forall_forall in Hf. by destruct (Hf c Hc).
Qed.

(** The columns [p] keeps for a block are columns of the list [cs]. *)
Definition keeps (p : PeerDAS Kc Kp) (root : list Z) cs : Prop := forall i c,
  local_columns p !! (i, root) = Some c -> 0 <= i /\ cs !! Z.to_nat i = Some c.
Lemma stored_spec p root indices (c : DataColumn Kc Kp) : c ∈ stored root indices p <->
  exists i, i ∈ indices /\ local_columns p !! (i, root) = Some c.
Proof. unfold stored. apply list_elem_of_omap. Qed.
Lemma stored_all p root indices : (forall i, i ∈ indices -> is_Some (local_columns p !! (i, root))) ->
  length (stored root indices p) = length indices.
Proof.
  induction indices as [|i indices IH]; intros Hall; [done|]. unfold stored. csimpl.
  destruct (Hall i) as [c ->]; [left|]. simpl. f_equal. apply IH. intros j ?. apply Hall. by right.
Qed.
Lemma stored_length p root indices : (length (stored root indices p) <= length indices)%nat.
Proof.
  induction indices as [|i indices IH]; [done|]. unfold stored in *. csimpl.
  destruct (local_columns p !! (i, root)); simpl; lia.
Qed.
Lemma stored_missing p root indices i : i ∈ indices -> local_columns p !! (i, root) = None ->
  (length (stored root indices p) < length indices)%nat.
Proof.
  intros Hi Hn. induction indices as [|j indices IH]; [set_solver|]. pose proof (stored_length p root indices).
  unfold stored in *. csimpl. apply elem_of_cons in Hi as [<-|Hi].
  - rewrite Hn. lia.
  - specialize (IH Hi). destruct (local_columns p !! (j, root)); simpl; lia.
Qed.
Lemma stored_indices p root indices cs : NoDup indices -> keeps p root cs ->
  (forall i c, cs !! i = Some c -> index c = Z.of_nat i) -> NoDup (index <$> stored root indices p).
Proof.
  intros Hnd Hk Hcs. induction Hnd as [|i indices Hi Hnd IH]; [constructor|]. unfold stored. csimpl.
  destruct (local_columns p !! (i, root)) as [c|] eqn:Hc; [|done]. csimpl. constructor; [|done].
  intros (c' & Heq & (j & Hj & Hj')%stored_spec)%list_elem_of_fmap. destruct Hi.
  apply Hk in Hc as [? Hc%Hcs], Hj' as [? Hj'%Hcs]. replace i with j by lia. done.
Qed.

(** A peer for [d] data columns and [r] redundant ones. *)
Definition peer_ok (d r : Z) p : Prop := data_columns (das_config p) = d /\ erasure_coder p = mkCoder d r 0 /\
  rec_data_columns (reconstructor p) = d /\ rec_coder (reconstructor p) = mkCoder d d 0.
Lemma peer_new_ok c p : peer_new c = Ok p -> peer_ok (data_columns c) (redundancy_columns c) p.
Proof.
  unfold peer_new, reconstructor_new, erasure_new. intros Hp. opened Hp.
  destruct (rs_new (data_columns c) (data_columns c)); [|done]. cbn [obind] in Hp.
  destruct (rs_new (data_columns c) (redundancy_columns c)); [|done]. cbn [obind] in Hp. by injection Hp as <-.
Qed.

(** The systematic columns alone are enough for the code with [d] parity
    shards, whatever code made them. *)
Lemma reconstruct_from_data d data (n : nat) (cols : gmap Z (list Z)) : 0 < d -> ReedSolomonLaws d d -> d + d <= isize_max ->
  (0 < n)%nat -> Z.of_nat n <= isize_max -> (length data <= Z.to_nat d * n)%nat ->
  (forall i v, cols !! i = Some v <-> 0 <= i < d /\ v = chunk n (Z.to_nat i) data) ->
  reconstruct (mkCoder d d 0) cols = Ok (strip_zeros data).
Proof.
  intros Hd Hlaws Hdd Hn Hni Hlen Hcols. set (shards := map (fun i => chunk n i data) (seq 0 (Z.to_nat d))).
  assert (shards_of d (Z.of_nat n) shards) as [Hls Hlc].
  { unfold shards_of, shards, len. rewrite length_map, length_seq. split; [lia|].
    apply Forall_map, Forall_forall. intros. by rewrite length_chunk. }
  destruct (rs_encode_law (shards ++ replicate (Z.to_nat d) (replicate n 0)) (Z.of_nat n)) as (parity & He & Hpl & Hpc); [lia| |].
  { split; [rewrite len_app, Hls; unfold len; rewrite length_replicate; lia|]. apply Forall_app. split; [done|].
    apply Forall_replicate. unfold len. by rewrite length_replicate. }
  assert (Z.to_nat d = length shards) as Hdl by (unfold len in Hls; lia). rewrite Hdl, take_app_length in He.
  rewrite (reconstruct_ok d d (shards ++ parity) cols (Z.of_nat n)); try done; try lia.
  - rewrite Hdl, take_app_length. unfold shards. rewrite concat_chunks by done. by rewrite strip_zeros_pad.
  - split; [rewrite len_app; lia|by apply Forall_app].
  - by eexists.
  - intros i v Hi. apply Hcols in Hi as [? ->]. split; [lia|]. rewrite lookup_app_l by lia. unfold shards.
    rewrite lookup_map, lookup_seq_lt by lia. done.
  - assert (dom cols = list_to_set (seqZ 0 d)) as Hdom.
    { apply leibniz_equiv. intros i. rewrite elem_of_dom, elem_of_list_to_set, elem_of_seqZ. unfold is_Some.
      setoid_rewrite Hcols. split; [intros (? & ? & _); lia|]. intros. eexists. split; [lia|done]. }
    rewrite <- size_dom, Hdom, size_list_to_set by apply NoDup_seqZ. rewrite length_seqZ. lia.
Qed.
Lemma collected_data d r p root data cs (n : nat) parity : peer_ok d r p -> 0 < d ->
  cs = imap (fun i c => column_new (Z.of_nat i) c) (map (fun i => chunk n i data) (seq 0 (Z.to_nat d)) ++ parity) ->
  keeps p root cs -> (forall i, i ∈ seqZ 0 d -> is_Some (local_columns p !! (i, root))) ->
  forall i v, column_data (collect_available_columns root p) !! i = Some v <-> 0 <= i < d /\ v = chunk n (Z.to_nat i) data.
Proof.
  intros (Hd & _) Hpos Hcs Hk Hall i v. unfold collect_available_columns. rewrite Hd.
  assert (forall j c, cs !! j = Some c -> index c = Z.of_nat j /\
    ((j < Z.to_nat d)%nat -> column c = chunk n j data)) as Hcol.
  { intros j c Hj. subst cs. rewrite list_lookup_imap in Hj. destruct (_ !! j) as [x|] eqn:Hx in Hj; [|done].
    injection Hj as <-. split; [done|]. intros Hlt. simpl.
    rewrite lookup_app_l in Hx by (rewrite length_map, length_seq; done).
    rewrite lookup_map, lookup_seq_lt in Hx by done. by injection Hx as <-. }
  rewrite column_data_lookup.
  2:{ apply (stored_indices p root _ cs); [apply NoDup_seqZ|done|]. intros j c Hj. by apply Hcol. }
  setoid_rewrite stored_spec. split.
  - intros (c & (j & Hj%elem_of_seqZ & Hc) & <- & <-). apply Hk in Hc as [? Hc]. destruct (Hcol _ _ Hc) as [Hi Hv].
    rewrite Hi. split; [lia|]. rewrite Nat2Z.id. apply Hv. lia.
  - intros [Hi ->]. destruct (Hall i) as [c Hc]; [apply elem_of_seqZ; lia|]. exists c. pose proof Hc as Hc'.
    apply Hk in Hc' as [? Hc']. destruct (Hcol _ _ Hc') as [Hix Hv]. split; [exists i; split; [apply elem_of_seqZ; lia|done]|].
    split; [lia|]. apply Hv. lia.
Qed.
Lemma reconstruct_columns_data_ok cs rc data : len cs = rec_data_columns rc ->
  reconstruct (rec_coder rc) (column_data cs) = Ok data ->
  exists rc', reconstruct_columns_data cs rc = (Ok data, rc').
Proof.
  intros Hl Hr. unfold reconstruct_columns_data, on_rec_metrics. rewrite sbind_modify, sbind_get.
  cbn [set_rec_metrics rec_data_columns rec_coder]. rewrite Hl, Z.ltb_irrefl, Hr. by eexists.
Qed.
End local.

(** a peer that stores columns of extended data gets the data back, up to
    the zeros at its end, when it has every data column of the block; when
    one is missing the reconstruction fails, however many redundant columns
    are stored. *)
Theorem local_reconstruction {Kc Kp} `{Profile} `{ReedSolomon} d r (p : PeerDAS Kc Kp) root data :
  ReedSolomonLaws d r -> ReedSolomonLaws d d -> 0 < d -> 0 <= r -> data <> [] -> len data + d + d + r <= isize_max ->
  peer_ok d r p ->
  exists cs, extend_data data p = Ok cs /\ len cs = d + r /\
    (keeps p root cs ->
     (reconstruct_data root p).1 =
       if forallb (fun i => bool_decide (is_Some (local_columns p !! (i, root)))) (seqZ 0 d)
       then Ok (strip_zeros data)
       else Err (InsufficientSamples (len (collect_available_columns root p)) d)).
Proof.
  intros Hlaws Hlaws' Hd Hr Hne Hl Hp. pose proof Hp as (Hdc & Hec & Hrd & Hrc).
  destruct (encode_ok d r data Hd Hr Hlaws Hne) as (n & parity & code & He & Hn & -> & [Hlen _] & _ & Hlc & Hnl); [lia|].
  unfold extend_data. rewrite Hec, He. eexists. split; [reflexivity|]. cbn [columns].
  split; [unfold len in *; by rewrite length_imap|]. intros Hk.
  unfold reconstruct_data, set_status, on_das_metrics. rewrite !sbind_modify, sbind_get. set (p2 := mkPeer _ _ _ _ _ _ _ _).
  change (collect_available_columns root p2) with (collect_available_columns root p).
  change (das_config p2) with (das_config p).
  destruct (forallb _ _) eqn:Hall.
  - rewrite forallb_forall in Hall.
    assert (forall i, i ∈ seqZ 0 d -> is_Some (local_columns p !! (i, root))) as Hall'.
    { intros i Hi. eapply bool_decide_eq_true, Hall. by apply list_elem_of_In. }
    pose proof (collected_data d r p root data _ n parity Hp Hd eq_refl Hk Hall') as Hcols.
    assert (len (collect_available_columns root p) = d) as Hcl.
    { unfold collect_available_columns, len. rewrite Hdc, stored_all, length_seqZ by done. lia. }
    rewrite Hcl, Hdc, Z.ltb_irrefl. destruct (reconstruct_columns_data_ok (collect_available_columns root p) (reconstructor p) (strip_zeros data))
      as (rc' & Hrec); [by rewrite Hcl|rewrite Hrc; by apply (reconstruct_from_data d data n _ Hd Hlaws'); [lia|done|lia|..]|].
    unfold sbind at 1. change (reconstructor p2) with (reconstructor p). by rewrite Hrec.
  - assert (exists i, i ∈ seqZ 0 d /\ local_columns p !! (i, root) = None) as (i & Hi & Hnone).
    { apply not_true_iff_false in Hall. rewrite forallb_forall in Hall.
      destruct (decide (Forall (fun i => is_Some (local_columns p !! (i, root))) (seqZ 0 d))) as [HF|HF].
      - destruct Hall. intros x Hx. apply bool_decide_eq_true. rewrite Forall_forall in HF. apply HF. by apply list_elem_of_In.
      - apply not_Forall_Exists in HF; [|apply _]. apply Exists_exists in HF as (i & ? & ?). exists i. split; [done|].
        by apply eq_None_not_Some. }
    rewrite (proj2 (Z.ltb_lt _ _)); [by rewrite Hdc|]. unfold collect_available_columns, len. rewrite Hdc.
    pose proof (stored_missing p root (seqZ 0 d) i Hi Hnone) as Hm. rewrite length_seqZ in Hm. lia.
Qed.

(** One data column and one redundant one, of the data [7]. *)
Definition small_peer (held : gmap (Z * list Z) (DataColumn unit unit)) : PeerDAS unit unit :=
  mkPeer (mkDASConfig 1 1 1 1 1) Idle held (mkReconstructor 1 (mkCoder 1 1 0) rec_metrics_new) (mkCoder 1 1 0) [] []
    (mkDASMetrics 0 0 0 0 0).
Lemma local_reconstruction_witness :
  (reconstruct_data (H := dev_profile) [1] (small_peer {[(0, [1]) := column_new 0 [7]]})).1 = Ok [7] /\
  (reconstruct_data (H := dev_profile) [1] (small_peer {[(1, [1]) := column_new 1 [7]]})).1 = Err (InsufficientSamples 0 1).
Proof.
  assert (0 <= 1) as Hp by done. pose proof (copies_laws 1 Hp) as Hlaws.
  assert (forall i, (i = 0 \/ i = 1) ->
    keeps (small_peer {[(i, [1]) := column_new i [7]]}) [1] [column_new 0 [7]; column_new 1 [7]]) as Hk.
  { intros i Hi j c. cbn [local_columns small_peer]. intros [[= <-] <-]%lookup_singleton_Some. by destruct Hi as [-> | ->]. }
  split;
    match goal with |- (reconstruct_data _ ?p).1 = _ =>
      destruct (local_reconstruction (H := dev_profile) 1 1 p [1] [7] Hlaws Hlaws) as (cs & He & _ & Hr); [done..|] end;
    vm_compute in He; injection He as <-; rewrite Hr by (apply Hk; auto); vm_compute; exact eq_refl.
Defined.

(** Groups of the parallel reconstruction are smaller than what each needs:
    with two groups of two columns each, all four data columns fail. *)
Example parallel_groups_too_small :
  (let? p := parallel_new 2 4 in
   reconstruct_parallel (H := dev_profile) p (map (fun i => column_new (Kc := unit) (Kp := unit) i [i]) [0; 1; 2; 3])) =
  Err (InsufficientSamples 2 4).
Proof. by vm_compute. Qed.

End DasPeer.
