(* ===== verification/Mev.v ===== *)
(** Bundles and auctions: crates/mev/src/bundle.rs, auction.rs and the block
    assembly of builder.rs.  A transaction is seen through the accessors of
    crates/core; the text of Debug forms is a parameter, and so is the clock:
    the predicate [late] says in which iteration the deadline has passed. *)
From stdpp Require Import base list numbers option strings gmap sets.
From Stdlib Require Import ZArith Lia Sorted.
From S2P Require Import Prelude U256 Precompiled Crypto Transaction.

Module Mev.

Inductive MevError :=
| InvalidBid (s : string) | InvalidBundle (s : string) | RelayError (s : string) | BuilderError (s : string)
| AuctionFailed (s : string) | NetworkError (s : string) | SignatureError (s : string).

(** What the crate uses of [ethereum_core::Transaction]; gas limit, price and
    priority fee are [U256] values. *)
Class TxOps (T : Type) := {
  tx_hash : T -> Infallible (list Z);
  tx_gas_limit : T -> Z;
  tx_gas_price : T -> Z;
  tx_priority_fee : T -> Z;
  tx_sender : T -> outcome TransactionError (list Z);
}.
(** The accessors of crates/core; [sender7702] is the sender of an EIP-7702
    transaction, which crates/core computes with functions the crypto crate
    does not have. *)
Definition calculate_priority_fee (t : Transaction) : Z :=
  match t with
  | TxLegacy t => Legacy.gas_price t
  | TxEip2930 t => Eip2930.gas_price t
  | TxEip1559 t => Eip1559.max_priority_fee_per_gas t
  | TxEip4844 t => Eip4844.max_priority_fee_per_gas t
  | TxEip7702 t => Eip7702.max_priority_fee_per_gas t
  end.
Definition core_tx_ops `{U256Ops} `{KeccakOps} `{CryptoOps} `{Profile}
    (sender7702 : Eip7702.tx -> outcome TransactionError (list Z)) : TxOps Transaction := {|
  tx_hash := tx_hash_of;
  tx_gas_limit := tx_gas_limit_of;
  tx_gas_price := tx_gas_price_of;
  tx_priority_fee := calculate_priority_fee;
  tx_sender t :=
    match t with
    | TxLegacy t => Legacy.sender t
    | TxEip2930 t => Eip2930.sender t
    | TxEip1559 t => Eip1559.sender t
    | TxEip4844 t => Eip4844.sender t
    | TxEip7702 t => match sender7702 t with Err _ => Err TxInvalidSignature | r => r end
    end;
|}.
(** The [{:?}] forms in error messages. *)
Class DebugForms := { show_hash : list Z -> string; show_error : TransactionError -> string }.

Section mev.
Context `{Profile} `{U256Ops} `{KeccakOps} `{ToBeBytes} `{DebugForms} {T : Type} `{!TxOps T}.

(** * bundle.rs *)

Record BundleTransaction := mkBundleTx { transaction : T; signer : option (list Z); bt_can_revert : bool }.
Definition bundle_tx_new (t : T) : BundleTransaction := mkBundleTx t None false.
Definition with_signer (a : list Z) (t : BundleTransaction) : BundleTransaction :=
  mkBundleTx (transaction t) (Some a) (bt_can_revert t).
Definition allow_revert (t : BundleTransaction) : BundleTransaction := mkBundleTx (transaction t) (signer t) true.
Definition bt_hash {E} (t : BundleTransaction) : outcome E (list Z) := lift_ok (tx_hash (transaction t)).
Definition bt_gas_limit {E} (t : BundleTransaction) : outcome E Z := unwrap (u_as_u64 (tx_gas_limit (transaction t))).
Definition effective_tip {E} (base_fee : Z) (t : BundleTransaction) : outcome E Z :=
  let max_fee := tx_gas_price (transaction t) in
  if base_fee <? max_fee then unwrap (u_sub max_fee base_fee) else Ok 0.
Definition bt_sender (t : BundleTransaction) : outcome MevError (list Z) :=
  match signer t with
  | Some a => Ok a
  | None =>
      match tx_sender (transaction t) with
      | Ok a => Ok a
      | Err e => Err (InvalidBundle ("Failed to recover sender: " +:+ show_error e))
      | Panic => Panic
      | Diverge => Diverge
      end
  end.

Record Bundle := mkBundle {
  transactions : list BundleTransaction;
  block_number : Z; min_block : Z; max_block : Z;
  reverting_tx_hashes : list (list Z);
  replacement_uuid : option string;
}.
Definition bundle_new {E} (txs : list BundleTransaction) (n : Z) : outcome E Bundle :=
  let? m := uadd 64 n 1 in Ok (mkBundle txs n n m [] None).
Fixpoint hash_data {E} (data : list Z) (txs : list BundleTransaction) : outcome E (list Z) :=
  match txs with
  | [] => Ok data
  | t :: txs => let? h := bt_hash t in hash_data (data ++ h) txs
  end.
Definition bundle_hash {E} (b : Bundle) : outcome E (list Z) :=
  let? data := hash_data [] (transactions b) in Ok (keccak256 data).
Fixpoint gas_sum {E} (acc : Z) (txs : list BundleTransaction) : outcome E Z :=
  match txs with
  | [] => Ok acc
  | t :: txs => let? g := bt_gas_limit t in let? acc := uadd 64 acc g in gas_sum acc txs
  end.
Definition total_gas {E} (b : Bundle) : outcome E Z := gas_sum 0 (transactions b).
Fixpoint value_sum {E} (base_fee acc : Z) (txs : list BundleTransaction) : outcome E Z :=
  match txs with
  | [] => Ok acc
  | t :: txs =>
      let? tip := effective_tip base_fee t in
      let? g := bt_gas_limit t in
      let? v := unwrap (u_mul tip g) in
      let? acc := unwrap (u_add acc v) in
      value_sum base_fee acc txs
  end.
Definition scoring_value {E} (base_fee : Z) (b : Bundle) : outcome E Z := value_sum base_fee 0 (transactions b).
Fixpoint check_duplicates (seen : gset (list Z)) (txs : list BundleTransaction) : outcome MevError unit :=
  match txs with
  | [] => Ok tt
  | t :: txs =>
      let? h := bt_hash t in
      if bool_decide (h ∈ seen) then Err (InvalidBundle ("Duplicate transaction: " +:+ show_hash h))
      else check_duplicates ({[h]} ∪ seen) txs
  end.
Definition bundle_validate (b : Bundle) : outcome MevError unit :=
  if bool_decide (transactions b = []) then Err (InvalidBundle "Bundle has no transactions")
  else if max_block b <? min_block b then Err (InvalidBundle "Invalid block range")
  else check_duplicates ∅ (transactions b).
Definition can_revert (h : list Z) (b : Bundle) : bool := bool_decide (h ∈ reverting_tx_hashes b).

(** [sort_by] on falling values: the comparison evaluates the values of both
    sides, so with two bundles or more every value is evaluated. *)
Fixpoint scored {E} (base_fee : Z) (bs : list Bundle) : outcome E (list (Z * Bundle)) :=
  match bs with
  | [] => Ok []
  | b :: bs => let? v := scoring_value base_fee b in let? r := scored base_fee bs in Ok ((v, b) :: r)
  end.
Definition sort_by_score {E} (base_fee : Z) (bs : list Bundle) : outcome E (list Bundle) :=
  match bs with
  | [] | [_] => Ok bs
  | _ => let? l := scored base_fee bs in Ok (sort_by_key (fun p : Z * Bundle => - p.1) l).*2
  end.

Record BundlePool := mkPool { bundles : list Bundle; max_bundles : Z }.
Definition pool_new : BundlePool := mkPool [] 1000.
Definition with_capacity (n : Z) : BundlePool := mkPool [] n.
Notation BM := (SM BundlePool MevError).
Fixpoint lowest {E} (base_fee min_value : Z) (min_index i : nat) (bs : list Bundle) : outcome E nat :=
  match bs with
  | [] => Ok min_index
  | b :: bs =>
      let? v := scoring_value base_fee b in
      if v <? min_value then lowest base_fee v i (S i) bs else lowest base_fee min_value min_index (S i) bs
  end.
Definition evict_lowest_value (base_fee : Z) : BM unit :=
  let! p := sget in
  if bool_decide (bundles p = []) then sret tt
  else
    let! i := slift (lowest base_fee U256_MAX 0 0 (bundles p)) in
    sput (mkPool (take i (bundles p) ++ drop (S i) (bundles p)) (max_bundles p)).
Definition pool_add (b : Bundle) : BM unit :=
  slift (bundle_validate b) ;;!
  let! p := sget in
  (if max_bundles p <=? len (bundles p) then evict_lowest_value 1000000000 else sret tt) ;;!
  smodify (fun p => mkPool (bundles p ++ [b]) (max_bundles p)).
Definition get_bundles_for_block (n : Z) (p : BundlePool) : list Bundle :=
  filter (fun b => min_block b <= n /\ n <= max_block b) (bundles p).
Definition remove_expired (current_block : Z) : BM unit :=
  smodify (fun p => mkPool (filter (fun b => current_block <= max_block b) (bundles p)) (max_bundles p)).
Definition sort_by_value (base_fee : Z) : BM unit :=
  let! p := sget in
  let! bs := slift (sort_by_score base_fee (bundles p)) in
  sput (mkPool bs (max_bundles p)).
Definition pool_clear : BM unit := smodify (fun p => mkPool [] (max_bundles p)).

(** * auction.rs *)

Record AuctionConfig := mkAuctionConfig {
  min_bid_increment : Z; max_bundles_per_block : Z; auction_gas_limit : Z;
}.
Definition auction_default : AuctionConfig := mkAuctionConfig 1000000000 5 30000000.
Inductive ExclusionReason := Conflict | InsufficientValue | GasLimit | Invalid.
Record AuctionResult := mkResult {
  winning_bundles : list Bundle; total_value : Z; gas_used : Z;
  excluded_bundles : list (Bundle * ExclusionReason);
}.
Fixpoint split_valid (bs : list Bundle) : outcome MevError (list Bundle * list (Bundle * ExclusionReason)) :=
  match bs with
  | [] => Ok ([], [])
  | b :: bs =>
      match bundle_validate b with
      | Ok _ => let? r := split_valid bs in Ok (b :: r.1, r.2)
      | Err _ => let? r := split_valid bs in Ok (r.1, (b, Invalid) :: r.2)
      | Panic => Panic
      | Diverge => Diverge
      end
  end.
Fixpoint has_conflict (used : gset (list Z)) (txs : list BundleTransaction) : outcome MevError bool :=
  match txs with
  | [] => Ok false
  | t :: txs =>
      match bt_sender t with
      | Ok a => if bool_decide (a ∈ used) then Ok true else has_conflict used txs
      | Err _ => has_conflict used txs
      | Panic => Panic
      | Diverge => Diverge
      end
  end.
Fixpoint update_used_addresses (used : gset (list Z)) (txs : list BundleTransaction) : outcome MevError (gset (list Z)) :=
  match txs with
  | [] => Ok used
  | t :: txs => let? a := bt_sender t in update_used_addresses ({[a]} ∪ used) txs
  end.
Definition BASE_FEE_ESTIMATE : Z := 30000000000.

(** The greedy loop; [late i] is [Instant::now() > deadline] in iteration [i]. *)
Fixpoint select (late : nat -> bool) (c : AuctionConfig) (gas_limit : Z) (i : nat) (used : gset (list Z))
    (r : AuctionResult) (bs : list Bundle) : outcome MevError AuctionResult :=
  match bs with
  | [] => Ok r
  | b :: bs =>
      if late i then Ok r
      else
        let exclude why := mkResult (winning_bundles r) (total_value r) (gas_used r) (excluded_bundles r ++ [(b, why)]) in
        let? bundle_gas := total_gas b in
        let? total := uadd 64 (gas_used r) bundle_gas in
        if gas_limit <? total then select late c gas_limit (S i) used (exclude GasLimit) bs
        else
          let? conflict := has_conflict used (transactions b) in
          if conflict then select late c gas_limit (S i) used (exclude Conflict) bs
          else
            let? value := scoring_value BASE_FEE_ESTIMATE b in
            if value <? min_bid_increment c then select late c gas_limit (S i) used (exclude InsufficientValue) bs
            else
              let? used := update_used_addresses used (transactions b) in
              let? total_value := unwrap (u_add (total_value r) value) in
              let r := mkResult (winning_bundles r ++ [b]) total_value total (excluded_bundles r) in
              if max_bundles_per_block c <=? len (winning_bundles r) then Ok r
              else select late c gas_limit (S i) used r bs
  end.
Definition run (late : nat -> bool) (c : AuctionConfig) (bs : list Bundle) (gas_limit : Z) : outcome MevError AuctionResult :=
  let? p := split_valid bs in
  let? valid := sort_by_score BASE_FEE_ESTIMATE p.1 in
  select late c gas_limit 0 ∅ (mkResult [] 0 0 p.2) valid.

Record Bid := mkBid { bidder : list Z; amount : Z; bid_bundle : Bundle }.
Definition value_per_gas {E} (b : Bid) : outcome E Z :=
  let? g := total_gas (bid_bundle b) in
  if g =? 0 then Ok 0 else unwrap (u_div (amount b) g).

(** The map of sealed bids holds each commitment under itself. *)
Record SealedBidAuction := mkSealed {
  sealed_config : AuctionConfig; sealed_bids : gset (list Z); revealed_bids : list Bid;
}.
Definition sealed_new (c : AuctionConfig) : SealedBidAuction := mkSealed c ∅ [].
Notation AM := (SM SealedBidAuction MevError).
Definition submit_sealed (commitment : list Z) : AM unit :=
  let! a := sget in
  if 1000 <=? Z.of_nat (size (sealed_bids a)) then sfail (AuctionFailed "Too many sealed bids")
  else sput (mkSealed (sealed_config a) ({[commitment]} ∪ sealed_bids a) (revealed_bids a)).
Definition compute_commitment {E} (b : Bid) (nonce : list Z) : outcome E (list Z) :=
  let? h := bundle_hash (bid_bundle b) in
  Ok (keccak256 (bidder b ++ u_to_be_bytes32 (amount b) ++ h ++ nonce)).
Definition reveal (b : Bid) (nonce : list Z) : AM unit :=
  let! commitment := slift (compute_commitment b nonce) in
  let! a := sget in
  if negb (bool_decide (commitment ∈ sealed_bids a)) then sfail (AuctionFailed "Invalid commitment")
  else sput (mkSealed (sealed_config a) (sealed_bids a ∖ {[commitment]}) (revealed_bids a ++ [b])).
Definition finalize (late : nat -> bool) (a : SealedBidAuction) : outcome MevError AuctionResult :=
  run late (sealed_config a) (map bid_bundle (revealed_bids a)) (auction_gas_limit (sealed_config a)).

(** * builder.rs *)

(** The parent header fields [calculate_base_fee] reads. *)
Definition calculate_base_fee {E} (base_fee_per_gas : option Z) (parent_gas_used parent_gas_limit : Z) : outcome E Z :=
  let parent_base_fee := default 1000000000 base_fee_per_gas in
  let? target := unwrap (u_div parent_gas_limit 2) in
  if parent_gas_used =? target then Ok parent_base_fee
  else if target <? parent_gas_used then
    let? delta := unwrap (u_sub parent_gas_used target) in
    let? x := unwrap (u_mul parent_base_fee delta) in
    let? x := unwrap (u_div x target) in
    let? x := unwrap (u_div x 8) in
    unwrap (u_add parent_base_fee (Z.max x 1))
  else
    let? delta := unwrap (u_sub target parent_gas_used) in
    let? x := unwrap (u_mul parent_base_fee delta) in
    let? x := unwrap (u_div x target) in
    let? x := unwrap (u_div x 8) in
    Ok (Z.max (u_saturating_sub parent_base_fee x) 1).
Definition estimate_transaction_gas {E} (t : T) : outcome E Z := unwrap (u_as_u64 (tx_gas_limit t)).
Fixpoint estimate_bundle_gas {E} (acc : Z) (txs : list BundleTransaction) : outcome E Z :=
  match txs with
  | [] => Ok acc
  | t :: txs =>
      let? g := estimate_transaction_gas (transaction t) in
      let? acc := uadd 64 acc g in
      estimate_bundle_gas acc txs
  end.
Definition sort_transactions_by_priority (txs : list T) : list T := sort_by_key (fun t => - tx_priority_fee t) txs.
(** Phase 1 and 2 of [build_optimal_block]: the transactions and the gas. *)
Fixpoint include_bundles {E} (gas_limit : Z) (txs : list T) (gas : Z) (bs : list Bundle) : outcome E (list T * Z) :=
  match bs with
  | [] => Ok (txs, gas)
  | b :: bs =>
      let? bundle_gas := estimate_bundle_gas 0 (transactions b) in
      let? total := uadd 64 gas bundle_gas in
      if total <=? gas_limit then include_bundles gas_limit (txs ++ map transaction (transactions b)) total bs
      else include_bundles gas_limit txs gas bs
  end.
Fixpoint include_transactions {E} (gas_limit : Z) (txs : list T) (gas : Z) (mempool : list T) : outcome E (list T * Z) :=
  match mempool with
  | [] => Ok (txs, gas)
  | t :: mempool =>
      let? tx_gas := estimate_transaction_gas t in
      let? total := uadd 64 gas tx_gas in
      if total <=? gas_limit then include_transactions gas_limit (txs ++ [t]) total mempool
      else include_transactions gas_limit txs gas mempool
  end.
(** No coinbase transfer is ever made: [calculate_coinbase_transfer] returns
    [None] on both branches. *)
Definition build_transactions (late : nat -> bool) (c : AuctionConfig) (max_gas_limit attr_gas_limit : Z)
    (pool : list Bundle) (mempool : list T) : outcome MevError (list T * Z) :=
  let? attr := unwrap (u_as_u64 attr_gas_limit) in
  let gas_limit := Z.min max_gas_limit attr in
  let? r := run late c pool gas_limit in
  let? p := include_bundles gas_limit [] 0 (winning_bundles r) in
  include_transactions gas_limit p.1 p.2 (sort_transactions_by_priority mempool).
End mev.

End Mev.
