(* ===== verification/MevProofs.v ===== *)
(** What auctions select and what bundle pools and sealed bids keep: the
    theorems on crates/mev. *)
From stdpp Require Import base list numbers option strings gmap sets.
From Stdlib Require Import ZArith Lia Sorted.
From S2P Require Import Prelude U256 Transaction Mev.

Module MevProofs.
Import Mev.

Section auction.
Context `{Profile} `{!U256Ops} `{!U256Laws} `{KeccakOps} `{ToBeBytes} `{DebugForms} {T : Type} `{!TxOps T}.
Notation BTx := (BundleTransaction (T := T)).
Notation Bundle := (Bundle (T := T)).
Implicit Types (t : BTx) (b : Bundle) (txs : list BTx) (bs w order : list Bundle).

(** * What the sums mean *)

(** A transaction in range whose hash and sender can be computed. *)
Record tx_ok (t : BTx) : Prop := {
  ok_gas : uint 64 (tx_gas_limit (transaction t));
  ok_price : U256 (tx_gas_price (transaction t));
  ok_hash : exists h, tx_hash (transaction t) = Ok h;
  ok_sender : exists a, bt_sender t = Ok a;
}.
Definition bundle_ok (b : Bundle) : Prop := Forall tx_ok (transactions b).
Definition gas_of_tx (t : BTx) : Z := tx_gas_limit (transaction t).
Definition gas (b : Bundle) : Z := zsum gas_of_tx (transactions b).
Definition value_of_tx (fee : Z) (t : BTx) : Z := Z.max (tx_gas_price (transaction t) - fee) 0 * gas_of_tx t.
Definition value (fee : Z) (b : Bundle) : Z := zsum (value_of_tx fee) (transactions b).
Definition sender (t : BTx) : list Z := match bt_sender t with Ok a => a | _ => [] end.
Definition senders (b : Bundle) : list (list Z) := map sender (transactions b).

Lemma gas_of_tx_nonneg txs : Forall tx_ok txs -> Forall (fun t => 0 <= gas_of_tx t) txs.
Proof. intros Hok. eapply Forall_impl; [exact Hok|]. intros t Ht. destruct (ok_gas t Ht). done. Qed.
Lemma value_of_tx_nonneg fee txs : Forall tx_ok txs -> Forall (fun t => 0 <= value_of_tx fee t) txs.
Proof. intros Hok. eapply Forall_impl; [exact Hok|]. intros t Ht. destruct (ok_gas t Ht). unfold value_of_tx, gas_of_tx. nia. Qed.
Lemma gas_nonneg b : bundle_ok b -> 0 <= gas b.
Proof. intros Hb. by apply zsum_nonneg, gas_of_tx_nonneg. Qed.
Lemma value_nonneg fee b : bundle_ok b -> 0 <= value fee b.
Proof. intros Hb. by apply zsum_nonneg, value_of_tx_nonneg. Qed.

Lemma bt_gas_limit_ok {E} t : tx_ok t -> bt_gas_limit (E := E) t = Ok (gas_of_tx t).
Proof.
  intros Ht. pose proof (ok_gas t Ht) as [? ?]. unfold bt_gas_limit.
  rewrite as_u64_law by (unfold uint; lia). by rewrite (proj2 (Z.ltb_lt _ _)).
Qed.
Lemma gas_sum_ok {E} acc txs : Forall tx_ok txs -> 0 <= acc -> acc + zsum gas_of_tx txs < 2 ^ 64 ->
  gas_sum (E := E) acc txs = Ok (acc + zsum gas_of_tx txs).
Proof.
  intros Hok. revert acc. induction Hok as [|t txs Ht Hok IH]; intros acc Hacc Hs; simpl in *; [f_equal; lia|].
  pose proof (zsum_nonneg _ _ (gas_of_tx_nonneg _ Hok)). assert (0 <= gas_of_tx t) by apply (ok_gas t Ht).
  rewrite bt_gas_limit_ok by done. simpl. unfold uadd. rewrite checked_arith_ok by (unfold uint; lia). simpl.
  rewrite IH by lia. f_equal. lia.
Qed.
Lemma total_gas_ok {E} b : bundle_ok b -> gas b < 2 ^ 64 -> total_gas (E := E) b = Ok (gas b).
Proof. intros Hb Hs. unfold total_gas. rewrite gas_sum_ok; [by rewrite Z.add_0_l|done|done|by rewrite Z.add_0_l]. Qed.

Lemma effective_tip_ok {E} fee t : U256 fee -> tx_ok t ->
  effective_tip (E := E) fee t = Ok (Z.max (tx_gas_price (transaction t) - fee) 0).
Proof.
  intros Hf Ht. pose proof (ok_price t Ht). unfold effective_tip. destruct (Z.ltb_spec fee (tx_gas_price (transaction t))).
  - rewrite sub_law by done. rewrite (proj2 (Z.leb_le _ _)) by lia. simpl. f_equal. lia.
  - f_equal. lia.
Qed.
Lemma value_sum_ok {E} fee acc txs : U256 fee -> Forall tx_ok txs -> 0 <= acc ->
  acc + zsum (value_of_tx fee) txs < 2 ^ 256 ->
  value_sum (E := E) fee acc txs = Ok (acc + zsum (value_of_tx fee) txs).
Proof.
  intros Hf Hok. revert acc. induction Hok as [|t txs Ht Hok IH]; intros acc Hacc Hs; simpl in *; [f_equal; lia|].
  pose proof (zsum_nonneg _ _ (value_of_tx_nonneg fee _ Hok)). pose proof (ok_gas t Ht) as [? ?]. pose proof (ok_price t Ht) as [? ?].
  rewrite effective_tip_ok, bt_gas_limit_ok by done. simpl. destruct Hf.
  assert (0 <= value_of_tx fee t) by (unfold value_of_tx, gas_of_tx; nia).
  assert (U256 (Z.max (tx_gas_price (transaction t) - fee) 0)) by (unfold uint; lia).
  assert (U256 (gas_of_tx t)) by (unfold gas_of_tx, uint in *; lia).
  rewrite mul_law by done. change (_ * gas_of_tx t) with (value_of_tx fee t).
  rewrite (proj2 (Z.ltb_lt _ _)) by lia. simpl. rewrite add_law by (unfold uint; lia).
  rewrite (proj2 (Z.ltb_lt _ _)) by lia. simpl. rewrite IH by lia. f_equal. lia.
Qed.
Lemma scoring_value_ok {E} fee b : U256 fee -> bundle_ok b -> value fee b < 2 ^ 256 ->
  scoring_value (E := E) fee b = Ok (value fee b).
Proof. intros Hf Hb Hs. unfold scoring_value. rewrite value_sum_ok; [by rewrite Z.add_0_l|done|done|done|by rewrite Z.add_0_l]. Qed.

(** * The steps of the auction *)

Definition valid (b : Bundle) : bool := match bundle_validate b with Ok _ => true | _ => false end.
Definition invalid (bs : list Bundle) : list (Bundle * ExclusionReason) :=
  map (fun b => (b, Invalid)) (filter (fun b => ~ valid b) bs).

Lemma check_duplicates_total seen txs : Forall tx_ok txs ->
  (exists e, check_duplicates seen txs = Err e) \/ check_duplicates seen txs = Ok tt.
Proof.
  intros Hok. revert seen. induction Hok as [|t txs Ht _ IH]; intros seen; simpl; [by right|].
  unfold bt_hash. destruct (ok_hash t Ht) as [h ->]. simpl. case_bool_decide; [left; by eexists|apply IH].
Qed.
Lemma validate_total b : bundle_ok b -> (exists e, bundle_validate b = Err e) \/ bundle_validate b = Ok tt.
Proof.
  intros Hb. unfold bundle_validate. case_bool_decide; [left; by eexists|].
  destruct (_ <? _); [left; by eexists|]. by apply check_duplicates_total.
Qed.
Lemma split_valid_ok bs : Forall bundle_ok bs -> split_valid bs = Ok (filter (fun b => valid b) bs, invalid bs).
Proof.
  induction 1 as [|b bs Hb _ IH]; [done|]. unfold invalid. rewrite !filter_cons. simpl.
  destruct (validate_total b Hb) as [[e He]|He].
  - assert (valid b = false) as Hv by (unfold valid; by rewrite He). by rewrite He, IH, Hv.
  - assert (valid b = true) as Hv by (unfold valid; by rewrite He). by rewrite He, IH, Hv.
Qed.

Lemma scored_ok {E} fee bs : U256 fee -> Forall bundle_ok bs -> Forall (fun b => value fee b < 2 ^ 256) bs ->
  scored (E := E) fee bs = Ok (map (fun b => (value fee b, b)) bs).
Proof.
  intros Hf. induction bs as [|b bs IH]; intros Hok Hv; [done|]. apply Forall_cons in Hok as [? ?], Hv as [? ?].
  simpl. rewrite scoring_value_ok by done. simpl. by rewrite IH.
Qed.
Definition falling (fee : Z) : Bundle -> Bundle -> Prop := fun b b' => value fee b' <= value fee b.
Lemma sort_by_score_ok {E} fee bs : U256 fee -> Forall bundle_ok bs -> Forall (fun b => value fee b < 2 ^ 256) bs ->
  exists order, sort_by_score (E := E) fee bs = Ok order /\ order ≡ₚ bs /\ StronglySorted (falling fee) order.
Proof.
  intros Hf Hok Hv. unfold sort_by_score. rewrite scored_ok by done. simpl.
  set (l := map (fun b => (value fee b, b)) bs). set (key := fun p : Z * Bundle => - p.1).
  assert (l.*2 = bs) as Hl by (unfold l; rewrite <- list_fmap_compose; apply list_fmap_id).
  assert ((sort_by_key key l).*2 ≡ₚ bs) as Hp by by rewrite (sort_by_key_perm key l), Hl.
  assert (Forall (fun p => p.1 = value fee p.2) (sort_by_key key l)) as Hkeys.
  { rewrite (sort_by_key_perm key l). unfold l. apply Forall_map, Forall_true. done. }
  pose proof (sort_by_key_sorted key l) as Hs.
  assert (StronglySorted (falling fee) (sort_by_key key l).*2) as Hs'.
  { clear Hp. induction Hs as [|p k Hk IH Hp]; csimpl; [constructor|]. apply Forall_cons in Hkeys as [Hk0 Hkeys].
    constructor; [by apply IH|]. apply Forall_map. rewrite Forall_forall in Hp, Hkeys |- *. intros q Hq.
    specialize (Hp q Hq). specialize (Hkeys q Hq). unfold key_le, key, falling in *. lia. }
  destruct bs as [|b1 [|b2 bs']]; [by exists []; repeat constructor|by exists [b1]; repeat constructor|]. eauto.
Qed.

Lemma sender_ok t : tx_ok t -> bt_sender t = Ok (sender t).
Proof. intros Ht. unfold sender. by destruct (ok_sender t Ht) as [a ->]. Qed.
Lemma has_conflict_ok used txs : Forall tx_ok txs ->
  has_conflict used txs = Ok (existsb (fun t => bool_decide (sender t ∈ used)) txs).
Proof.
  induction 1 as [|t txs Ht _ IH]; simpl; [done|]. rewrite sender_ok by done. by case_bool_decide.
Qed.
Lemma update_used_ok used txs : Forall tx_ok txs ->
  update_used_addresses used txs = Ok (list_to_set (map sender txs) ∪ used).
Proof.
  intros Hok. revert used. induction Hok as [|t txs Ht _ IH]; intros used; simpl; [f_equal; set_solver|].
  rewrite sender_ok by done. simpl. rewrite IH. f_equal. set_solver.
Qed.

(** * The greedy reference *)

(** What is decided of [b] once the bundles [w] have won. *)
Definition decide_bundle (c : AuctionConfig) (limit : Z) (w : list Bundle) (b : Bundle) : option ExclusionReason :=
  if limit <? zsum gas w + gas b then Some GasLimit
  else if existsb (fun a => bool_decide (a ∈ concat (map senders w))) (senders b) then Some Conflict
  else if value BASE_FEE_ESTIMATE b <? min_bid_increment c then Some InsufficientValue
  else None.
Definition greedy_step (c : AuctionConfig) (limit : Z) (s : list Bundle * list (Bundle * ExclusionReason)) (b : Bundle) :
    list Bundle * list (Bundle * ExclusionReason) :=
  match decide_bundle c limit s.1 b with
  | None => (s.1 ++ [b], s.2)
  | Some why => (s.1, s.2 ++ [(b, why)])
  end.
Definition greedy (c : AuctionConfig) (limit : Z) (l : list Bundle) : list Bundle * list (Bundle * ExclusionReason) :=
  foldl (greedy_step c limit) ([], []) l.

Definition disjoint_senders (w : list Bundle) : Prop := forall i j b b' a,
  w !! i = Some b -> w !! j = Some b' -> a ∈ senders b -> a ∈ senders b' -> i = j.
Record winners_ok (c : AuctionConfig) (limit : Z) (w : list Bundle) : Prop := {
  within_gas : 0 <= limit -> zsum gas w <= limit;
  no_shared_sender : disjoint_senders w;
  worth_it : Forall (fun b => min_bid_increment c <= value BASE_FEE_ESTIMATE b) w;
}.
Lemma disjoint_senders_snoc w b : disjoint_senders w ->
  existsb (fun a => bool_decide (a ∈ concat (map senders w))) (senders b) = false -> disjoint_senders (w ++ [b]).
Proof.
  intros Hw Hb. assert (forall i b' a, w !! i = Some b' -> a ∈ senders b' -> a ∉ senders b) as Hno.
  { intros i b' a Hi Ha Hab. apply not_true_iff_false in Hb. apply Hb. apply existsb_exists. exists a.
    split; [by apply list_elem_of_In|]. apply bool_decide_eq_true, list_elem_of_In, in_concat. exists (senders b').
    split; [apply in_map|]; apply list_elem_of_In; [by eapply list_elem_of_lookup_2|done]. }
  intros i j b1 b2 a Hi Hj Ha1 Ha2.
  apply lookup_app_Some in Hi as [Hi|[Hli Hi]], Hj as [Hj|[Hlj Hj]].
  - by eapply Hw.
  - apply list_lookup_singleton_Some in Hj as [? <-]. by destruct (Hno i b1 a).
  - apply list_lookup_singleton_Some in Hi as [? <-]. by destruct (Hno j b2 a).
  - apply list_lookup_singleton_Some in Hi as [? _], Hj as [? _]. lia.
Qed.
Lemma greedy_winners_ok c limit l : winners_ok c limit (greedy c limit l).1.
Proof.
  unfold greedy. assert (winners_ok c limit ([], [] : list (Bundle * ExclusionReason)).1) as Hw.
  { split; [done|by intros i j ? ? ? Hi|constructor]. }
  revert Hw. generalize ([] : list Bundle, [] : list (Bundle * ExclusionReason)) as s.
  induction l as [|b l IH]; intros [w e] Hw; [done|]. apply IH. clear IH l. simpl in Hw |- *.
  unfold greedy_step, decide_bundle. simpl. destruct (Z.ltb_spec limit (zsum gas w + gas b)) as [|Hgas]; [done|].
  destruct (existsb _ _) eqn:Hex; [done|]. destruct (Z.ltb_spec (value BASE_FEE_ESTIMATE b) (min_bid_increment c)) as [|Hval]; [done|].
  destruct Hw as [_ Hd Hv]. split; simpl.
  - intros _. rewrite zsum_snoc. lia.
  - by apply disjoint_senders_snoc.
  - apply Forall_app. split; [done|]. by constructor.
Qed.
Lemma greedy_snoc c limit l b : greedy c limit (l ++ [b]) = greedy_step c limit (greedy c limit l) b.
Proof. unfold greedy. by rewrite foldl_app. Qed.
Lemma greedy_sublist c limit l : sublist (greedy c limit l).1 l.
Proof.
  induction l as [|b l IH] using rev_ind; [constructor|]. rewrite greedy_snoc. unfold greedy_step.
  destruct (decide_bundle _ _ _ _); simpl; [by apply sublist_inserts_r|]. by apply sublist_app.
Qed.

(** * The loop of the auction is the greedy reference *)

Definition result_of (c : AuctionConfig) (limit : Z) (inv : list (Bundle * ExclusionReason)) (seen : list Bundle) : AuctionResult :=
  let g := greedy c limit seen in
  mkResult g.1 (zsum (value BASE_FEE_ESTIMATE) g.1) (zsum gas g.1) (inv ++ g.2).
Definition used_by (w : list Bundle) : gset (list Z) := list_to_set (concat (map senders w)).

Lemma conflict_decided w b : existsb (fun t => bool_decide (sender t ∈ used_by w)) (transactions b) =
  existsb (fun a => bool_decide (a ∈ concat (map senders w))) (senders b).
Proof.
  change (senders b) with (map sender (transactions b)). unfold used_by. induction (transactions b) as [|t txs IH]; simpl; [done|]. rewrite IH. f_equal.
  apply bool_decide_ext, elem_of_list_to_set.
Qed.
Lemma base_fee_u256 : U256 BASE_FEE_ESTIMATE.
Proof. unfold BASE_FEE_ESTIMATE, uint. lia. Qed.

Lemma step_excluded c limit inv seen b why : decide_bundle c limit (greedy c limit seen).1 b = Some why ->
  (greedy c limit (seen ++ [b])).1 = (greedy c limit seen).1 /\
  result_of c limit inv (seen ++ [b]) =
    mkResult (winning_bundles (result_of c limit inv seen)) (total_value (result_of c limit inv seen))
      (gas_used (result_of c limit inv seen)) (excluded_bundles (result_of c limit inv seen) ++ [(b, why)]).
Proof.
  intros Hd. unfold result_of. rewrite greedy_snoc. unfold greedy_step. rewrite Hd. simpl. by rewrite app_assoc.
Qed.
Lemma step_wins c limit inv seen b : decide_bundle c limit (greedy c limit seen).1 b = None ->
  (greedy c limit (seen ++ [b])).1 = (greedy c limit seen).1 ++ [b] /\
  result_of c limit inv (seen ++ [b]) =
    mkResult (winning_bundles (result_of c limit inv seen) ++ [b])
      (total_value (result_of c limit inv seen) + value BASE_FEE_ESTIMATE b)
      (gas_used (result_of c limit inv seen) + gas b) (excluded_bundles (result_of c limit inv seen)).
Proof.
  intros Hd. unfold result_of. rewrite greedy_snoc. unfold greedy_step. rewrite Hd. simpl. by rewrite !zsum_snoc.
Qed.
Lemma used_by_snoc w b : used_by (w ++ [b]) = list_to_set (map sender (transactions b)) ∪ used_by w.
Proof. unfold used_by. rewrite map_app, concat_app. simpl. rewrite app_nil_r, list_to_set_app_L. unfold senders. set_solver. Qed.

(** Sums over the winners and the next bundle are in range. *)
Lemma sum_fits (f : Bundle -> Z) w seen b bs : sublist w seen -> Forall (fun b => 0 <= f b) (seen ++ b :: bs) ->
  0 <= zsum f w /\ 0 <= f b /\ zsum f w + f b <= zsum f (seen ++ b :: bs).
Proof.
  intros Hw Hall. rewrite zsum_app. simpl. apply Forall_app in Hall as [Hs [Hb Hbs]%Forall_cons].
  pose proof (zsum_sublist f _ _ Hw Hs). pose proof (zsum_nonneg f _ Hbs).
  pose proof (zsum_nonneg f _ (sublist_Forall _ _ _ Hw Hs)). lia.
Qed.

(** From bundle [n] on the auction goes on to every bundle of [seen]: no
    deadline has passed and there is room for another winner. *)
Definition goes_on late c limit (n : nat) (seen : list Bundle) : Prop :=
  forall k, (n <= k < length seen)%nat ->
    late k = false /\ len (greedy c limit (take k seen)).1 < Z.max 1 (max_bundles_per_block c).
Lemma goes_on_step late c limit seen b more : late (length seen) = false ->
  len (greedy c limit seen).1 < Z.max 1 (max_bundles_per_block c) ->
  goes_on late c limit (S (length seen)) (seen ++ b :: more) -> goes_on late c limit (length seen) (seen ++ b :: more).
Proof.
  intros Hl Hw Hgo k Hk. destruct (decide (k = length seen)) as [->|]; [|apply Hgo; lia]. by rewrite take_app_length.
Qed.
Ltac excluded :=
  match goal with
  | Hex : forall why, _ -> _ /\ result_of _ _ _ (?seen ++ [?b]) = _, IH : exists more rest, ?bs = _ /\ _ |- exists _ _, ?b :: ?bs = _ /\ _ =>
      destruct (Hex _ eq_refl) as [Hw Hr]; rewrite Hw, Hr in IH; destruct IH as (more & rest & -> & IH);
      exists (b :: more), rest; rewrite <- (app_assoc seen [b] more) in IH; destruct IH as (Hs & Hstop & Hmax);
      split_and!; [done|done|done|]; intros Hroom; destruct (Hmax Hroom); split; [done|by apply goes_on_step]
  end.
Lemma select_ok late c limit inv seen bs :
  Forall bundle_ok (seen ++ bs) -> zsum gas (seen ++ bs) < 2 ^ 64 ->
  zsum (value BASE_FEE_ESTIMATE) (seen ++ bs) < 2 ^ 256 ->
  exists more rest, bs = more ++ rest /\
    select late c limit (length seen) (used_by (greedy c limit seen).1) (result_of c limit inv seen) bs =
      Ok (result_of c limit inv (seen ++ more)) /\
    (rest = [] \/ late (length (seen ++ more)) = true \/ max_bundles_per_block c <= len (greedy c limit (seen ++ more)).1) /\
    (len (greedy c limit seen).1 < Z.max 1 (max_bundles_per_block c) ->
     len (greedy c limit (seen ++ more)).1 <= Z.max 1 (max_bundles_per_block c) /\
     goes_on late c limit (length seen) (seen ++ more)).
Proof.
  revert seen. induction bs as [|b bs IH]; intros seen Hok Hg Hv.
  { exists [], []. rewrite (app_nil_r seen). split_and!; [done|done|by left|]. intros. split; [lia|intros k ?; lia]. }
  assert (Forall bundle_ok (seen ++ [b] ++ bs)) as Hok' by done.
  rewrite (app_assoc seen [b] bs) in Hok'. specialize (IH (seen ++ [b]) Hok').
  rewrite <- (app_assoc seen [b] bs), length_app, Nat.add_1_r in IH. specialize (IH Hg Hv).
  assert (bundle_ok b) as Hb by (by apply Forall_app in Hok as [_ [? _]%Forall_cons]).
  pose proof (greedy_sublist c limit seen) as Hsub. set (w := (greedy c limit seen).1) in *.
  destruct (sum_fits gas w seen b bs Hsub) as (Hg0 & Hg1 & Hg2).
  { eapply Forall_impl; [exact Hok|]. apply gas_nonneg. }
  destruct (sum_fits (value BASE_FEE_ESTIMATE) w seen b bs Hsub) as (Hv0 & Hv1 & Hv2).
  { eapply Forall_impl; [exact Hok|]. intros ? ?. by apply value_nonneg. }
  simpl select. destruct (late (length seen)) eqn:Hlate.
  { exists [], (b :: bs). rewrite (app_nil_r seen). fold w. split_and!; [done|done|by right; left|]. intros. split; [lia|intros k ?; lia]. }
  rewrite total_gas_ok by (done || lia). simpl. fold w.
  unfold uadd. rewrite checked_arith_ok by (unfold uint; lia). simpl.
  pose proof (step_excluded c limit inv seen b) as Hex. pose proof (step_wins c limit inv seen b) as Hwin.
  fold w in Hex, Hwin. unfold decide_bundle in Hex, Hwin.
  destruct (limit <? zsum gas w + gas b).
  { excluded. }
  rewrite has_conflict_ok by done. simpl. rewrite conflict_decided.
  destruct (existsb _ _).
  { excluded. }
  rewrite scoring_value_ok by (apply base_fee_u256 || done || lia). simpl.
  destruct (value BASE_FEE_ESTIMATE b <? min_bid_increment c).
  { excluded. }
  rewrite update_used_ok by done. simpl. destruct (Hwin eq_refl) as [Hw Hr].
  rewrite add_law by (unfold uint; lia). rewrite (proj2 (Z.ltb_lt _ _)) by lia. simpl.
  cbn [result_of winning_bundles total_value gas_used excluded_bundles] in Hr. fold w in Hr. rewrite <- Hr.
  destruct (Z.leb_spec (max_bundles_per_block c) (len (w ++ [b]))) as [Hfull|Hroom].
  { exists [b], bs. rewrite Hw. split_and!; [done|done|by right; right|].
    intros Hroom. split; [rewrite len_snoc; lia|]. apply goes_on_step; [done..|]. intros k Hk. rewrite length_app in Hk. simpl in Hk. lia. }
  rewrite <- used_by_snoc. rewrite <- Hw. destruct IH as (more & rest & -> & Hs & Hstop & Hmax).
  exists (b :: more), rest. rewrite <- (app_assoc seen [b] more) in *. split_and!; [done|done|done|].
  intros Hlt. destruct Hmax as [? Hgo]; [rewrite Hw; lia|]. split; [done|]. by apply goes_on_step.
Qed.

Lemma run_spec late c bs limit :
  Forall bundle_ok bs -> zsum gas bs < 2 ^ 64 -> zsum (value BASE_FEE_ESTIMATE) bs < 2 ^ 256 ->
  exists seen rest, seen ++ rest ≡ₚ filter (fun b => valid b) bs /\
    StronglySorted (falling BASE_FEE_ESTIMATE) (seen ++ rest) /\
    run late c bs limit = Ok (result_of c limit (invalid bs) seen) /\
    (rest = [] \/ late (length seen) = true \/ max_bundles_per_block c <= len (greedy c limit seen).1) /\
    len (greedy c limit seen).1 <= Z.max 1 (max_bundles_per_block c) /\ goes_on late c limit 0 seen.
Proof.
  intros Hok Hg Hv. set (l := filter (fun b => valid b) bs).
  assert (sublist l bs) as Hsub by apply sublist_filter.
  assert (Forall bundle_ok l) as Hok' by by eapply sublist_Forall.
  assert (Forall (fun b => 0 <= gas b) bs) as Hg0 by (eapply Forall_impl; [exact Hok|apply gas_nonneg]).
  assert (Forall (fun b => 0 <= value BASE_FEE_ESTIMATE b) bs) as Hv0.
  { eapply Forall_impl; [exact Hok|]. intros ? ?. by apply value_nonneg. }
  pose proof (zsum_sublist gas _ _ Hsub Hg0). pose proof (zsum_sublist (value BASE_FEE_ESTIMATE) _ _ Hsub Hv0).
  destruct (sort_by_score_ok (E := MevError) BASE_FEE_ESTIMATE l base_fee_u256 Hok') as (order & Hsort & Hperm & Hsorted).
  { apply Forall_forall. intros b Hb. pose proof (zsum_elem (value BASE_FEE_ESTIMATE) l b Hb (sublist_Forall _ _ _ Hsub Hv0)). lia. }
  destruct (select_ok late c limit (invalid bs) [] order) as (seen & rest & -> & Hsel & Hstop & Hmax).
  { by rewrite app_nil_l, Hperm. }
  { rewrite app_nil_l, Hperm. lia. }
  { rewrite app_nil_l, Hperm. lia. }
  destruct Hmax as [Hmax Hgo]; [unfold len; simpl; lia|]. exists seen, rest. split_and!; [done|done| |done|done|done].
  unfold run. rewrite split_valid_ok by done. simpl. fold l. rewrite Hsort. simpl. rewrite app_nil_l in Hsel. rewrite <- Hsel.
  unfold result_of. simpl. by rewrite app_nil_r.
Qed.

(** * The bundle pool *)

(** [bs] without its first bundle of the lowest value. *)
Definition without_lowest (fee : Z) (bs rest : list Bundle) : Prop := exists l b0 r, bs = l ++ b0 :: r /\ rest = l ++ r /\
  Forall (fun b => value fee b0 < value fee b) l /\ Forall (fun b => value fee b0 <= value fee b) r.
Lemma lowest_ok {E} fee (bs : list Bundle) l m r :
  U256 fee -> Forall bundle_ok bs -> Forall (fun b => value fee b < 2 ^ 256) bs ->
  Forall (fun b => value fee m < value fee b) l -> Forall (fun b => value fee m <= value fee b) r ->
  exists l' m' r', (l ++ m :: r) ++ bs = l' ++ m' :: r' /\
    lowest (E := E) fee (value fee m) (length l) (length (l ++ m :: r)) bs = Ok (length l') /\
    Forall (fun b => value fee m' < value fee b) l' /\ Forall (fun b => value fee m' <= value fee b) r'.
Proof.
  intros Hf. revert l m r. induction bs as [|b bs IH]; intros l m r Hok Hv Hl Hr.
  { exists l, m, r. by rewrite app_nil_r. }
  apply Forall_cons in Hok as [Hb Hok], Hv as [Hbv Hv]. simpl. rewrite scoring_value_ok by done. simpl.
  destruct (Z.ltb_spec (value fee b) (value fee m)).
  - destruct (IH (l ++ m :: r) b [] Hok Hv) as (l' & m' & r' & Heq & Hlow & ?); [|constructor|].
    { apply Forall_app. split; [|constructor; [done|]]; (eapply Forall_impl; [eassumption|]; simpl; lia). }
    exists l', m', r'. split; [by rewrite <- Heq, <- !app_assoc|]. split; [|done]. rewrite <- Hlow.
    f_equal. rewrite (length_app (l ++ m :: r) [b]). simpl. lia.
  - destruct (IH l m (r ++ [b]) Hok Hv Hl) as (l' & m' & r' & Heq & Hlow & ?).
    { apply Forall_app. split; [done|]. by constructor. }
    exists l', m', r'. split; [by rewrite <- Heq, <- !app_assoc; simpl; rewrite <- app_assoc|]. split; [|done]. rewrite <- Hlow. f_equal.
    rewrite !length_app. simpl. rewrite length_app. simpl. lia.
Qed.
Lemma evict_bundle_ok fee bs n : U256 fee -> bs <> [] -> Forall bundle_ok bs -> Forall (fun b => value fee b < 2 ^ 256) bs ->
  exists rest, without_lowest fee bs rest /\ evict_lowest_value fee (mkPool bs n) = (Ok tt, mkPool rest n).
Proof.
  intros Hf Hne Hok Hv. unfold evict_lowest_value. rewrite sbind_get. cbn [bundles max_bundles]. rewrite bool_decide_false by done.
  destruct bs as [|b bs]; [done|]. apply Forall_cons in Hok as [Hb Hok], Hv as [Hbv Hv]. simpl lowest.
  rewrite scoring_value_ok by done. cbn [obind].
  assert ((if value fee b <? U256_MAX then lowest fee (value fee b) 0 1 bs else lowest (E := MevError) fee U256_MAX 0 1 bs) =
    lowest fee (value fee b) 0 1 bs) as ->.
  { destruct (Z.ltb_spec (value fee b) U256_MAX); [done|]. by replace (value fee b) with U256_MAX by lia. }
  destruct (lowest_ok (E := MevError) fee bs [] b [] Hf Hok Hv) as (l & m & r & Heq & Hlow & ? & ?); [constructor..|].
  simpl in Heq, Hlow. rewrite Hlow, sbind_lift, Heq. exists (l ++ r). split; [by exists l, m, r|].
  unfold sput. rewrite take_app_length, drop_app_ge by lia. by replace (S (length l) - length l)%nat with 1%nat by lia.
Qed.

(** adding a bundle to a pool refuses an invalid one and leaves the pool
    as it was; it appends a valid one while there is room, and in a full pool
    replaces the first bundle of the lowest value at a base fee of 1 Gwei.
    Only a pool of capacity zero grows past its capacity. *)
Theorem pool_add_spec b bs n :
  bundle_ok b -> Forall bundle_ok bs -> Forall (fun b => value 1000000000 b < 2 ^ 256) bs ->
  if valid b then
    exists kept, pool_add b (mkPool bs n) = (Ok tt, mkPool (kept ++ [b]) n) /\
      if (len bs <? n) || bool_decide (bs = []) then kept = bs else without_lowest 1000000000 bs kept
  else exists e, pool_add b (mkPool bs n) = (Err e, mkPool bs n).
Proof.
  intros Hb Hok Hv. assert (U256 1000000000) as Hf by (unfold uint; lia). unfold valid, pool_add.
  destruct (validate_total b Hb) as [[e ->]| ->]; [by eexists|]. rewrite sbind_lift, sbind_get. cbn [max_bundles bundles].
  destruct (Z.ltb_spec (len bs) n); simpl.
  - rewrite (proj2 (Z.leb_gt _ _)) by lia. by eexists.
  - rewrite (proj2 (Z.leb_le _ _)) by lia. case_bool_decide as Hne; [subst; by eexists|].
    destruct (evict_bundle_ok 1000000000 bs n Hf Hne Hok Hv) as (rest & Hrest & He). exists rest. split; [|done].
    by rewrite (sbind_ok _ _ _ _ _ He).
Qed.

(** * Sealed bids *)

Notation Bid := (Bid (T := T)).
Inductive sealed_op := Submit (commitment : list Z) | Reveal (x : Bid) (nonce : list Z).
(** The accepted reveals of a sequence of calls, and the auction after it. *)
Fixpoint exec (ops : list sealed_op) (a : SealedBidAuction) : list (Bid * list Z) * SealedBidAuction :=
  match ops with
  | [] => ([], a)
  | Submit k :: ops => exec ops (submit_sealed k a).2
  | Reveal x nonce :: ops =>
      match reveal x nonce a with
      | (Ok _, a') => let r := exec ops a' in ((x, nonce) :: r.1, r.2)
      | (_, a') => exec ops a'
      end
  end.
Definition is_commitment (k : list Z) (p : Bid * list Z) : bool :=
  match compute_commitment (E := MevError) p.1 p.2 with Ok k' => bool_decide (k' = k) | _ => false end.
Definition submits (k : list Z) (ops : list sealed_op) : Z :=
  zsum (fun o => match o with Submit k' => if bool_decide (k' = k) then 1 else 0 | Reveal _ _ => 0 end) ops.
Definition reveals (k : list Z) (acc : list (Bid * list Z)) : Z := zsum (fun p => if is_commitment k p then 1 else 0) acc.
Definition pending (k : list Z) (a : SealedBidAuction (T := T)) : Z := if bool_decide (k ∈ sealed_bids a) then 1 else 0.

Lemma submit_step k a : revealed_bids (submit_sealed k a).2 = revealed_bids a /\
  forall k', pending k' (submit_sealed k a).2 <= pending k' a + if bool_decide (k = k') then 1 else 0.
Proof.
  unfold submit_sealed. rewrite sbind_get. destruct (_ <=? _); (split; [done|]); intros k'; simpl.
  - case_bool_decide; lia.
  - unfold pending. simpl. repeat case_bool_decide; try lia; set_solver.
Qed.
Lemma reveal_step (x : Bid) nonce a : match reveal x nonce a with
  | (Ok _, a') => (exists k, compute_commitment (E := MevError) x nonce = Ok k) /\ revealed_bids a' = revealed_bids a ++ [x] /\
      forall k, pending k a' + (if is_commitment k (x, nonce) then 1 else 0) <= pending k a
  | (_, a') => a' = a
  end.
Proof.
  unfold reveal, is_commitment, sbind, slift, sget. cbn [fst snd]. destruct (compute_commitment x nonce) as [k|e| |] eqn:Hk; try done.
  destruct (decide (k ∈ sealed_bids a)) as [Hin|Hin].
  - rewrite bool_decide_true by done. simpl. split; [by exists k|]. split; [done|].
    intros k'. unfold pending. simpl. repeat case_bool_decide; try lia; set_solver.
  - rewrite bool_decide_false by done. done.
Qed.
Lemma exec_ok ops a : let '(acc, a') := exec ops a in
  revealed_bids a' = revealed_bids a ++ acc.*1 /\
  (forall k, reveals k acc + pending k a' <= submits k ops + pending k a) /\
  Forall (fun p => Reveal p.1 p.2 ∈ ops /\ exists k, compute_commitment (E := MevError) p.1 p.2 = Ok k) acc.
Proof.
  assert (forall o ops acc, Forall (fun p : Bid * list Z => Reveal p.1 p.2 ∈ ops /\ exists k, compute_commitment (E := MevError) p.1 p.2 = Ok k) acc ->
    Forall (fun p : Bid * list Z => Reveal p.1 p.2 ∈ o :: ops /\ exists k, compute_commitment (E := MevError) p.1 p.2 = Ok k) acc) as Hmono.
  { intros o ops' acc Hacc. eapply Forall_impl; [exact Hacc|]. intros p [? ?]. split; [by right|done]. }
  revert a. induction ops as [|[k|x nonce] ops IH]; intros a; simpl.
  { rewrite app_nil_r. split_and!; [done|intros k; simpl; lia|constructor]. }
  - destruct (submit_step k a) as (Hr & Hp). specialize (IH (submit_sealed k a).2). destruct (exec ops _) as [acc a''].
    destruct IH as (IH1 & IH2 & IH3). split_and!; [by rewrite IH1, Hr| |by apply Hmono].
    intros k'. specialize (IH2 k'). specialize (Hp k'). unfold submits in *. simpl. lia.
  - pose proof (reveal_step x nonce a) as Hstep. destruct (reveal x nonce a) as [r a'].
    specialize (IH a'). destruct (exec ops a') as [acc a''] eqn:Hexec. destruct IH as (IH1 & IH2 & IH3).
    destruct r as [[]|e| |]; [|subst a'; split_and!; [done| |by apply Hmono]; intros k; specialize (IH2 k); unfold submits in *; simpl; lia..].
    destruct Hstep as (Hk & Hr & Hp). simpl. split_and!; [by rewrite IH1, Hr, <- app_assoc| |].
    + intros k'. specialize (IH2 k'). specialize (Hp k'). unfold submits, reveals in *. simpl. lia.
    + constructor; [split; [by left|done]|by apply Hmono].
Qed.

Context `{!KeccakLaws} `{!ToBeBytesLaws}.
(** A bid and a nonce as the types have them. *)
Definition bid_ok (x : Bid) (nonce : list Z) : Prop := length (bidder x) = 20%nat /\ U256 (amount x) /\ length nonce = 32%nat.
Lemma commitment_binding x nonce x' nonce' k : bid_ok x nonce -> bid_ok x' nonce' ->
  compute_commitment (E := MevError) x nonce = Ok k -> compute_commitment (E := MevError) x' nonce' = Ok k ->
  (bidder x = bidder x' /\ amount x = amount x' /\ nonce = nonce' /\
   bundle_hash (E := MevError) (bid_bundle x) = bundle_hash (bid_bundle x')) \/
  exists u v, u <> v /\ keccak256 u = keccak256 v.
Proof.
  intros (Hb & Ha & Hn) (Hb' & Ha' & Hn') (h & Hh & [= <-])%obind_ok (h' & Hh' & [= Heq])%obind_ok.
  destruct (decide (bidder x ++ u_to_be_bytes32 (amount x) ++ h ++ nonce = bidder x' ++ u_to_be_bytes32 (amount x') ++ h' ++ nonce'))
    as [Hd|Hd]; [left|right; by eexists _, _].
  assert (forall b : Bundle, forall h, bundle_hash (E := MevError) b = Ok h -> length h = 32%nat) as Hlen.
  { intros b' h0 (d & _ & [= <-])%obind_ok. apply keccak_length. }
  pose proof (Hlen _ _ Hh). pose proof (Hlen _ _ Hh'). rewrite !to_be_bytes32_law in Hd by done.
  apply app_inj_1 in Hd as [-> Hd]; [|lia]. apply app_inj_1 in Hd as [Hamt Hd]; [|by rewrite !length_to_be].
  apply app_inj_1 in Hd as [-> ->]; [|lia]. split_and!; [done| |done|by rewrite Hh, Hh'].
  apply (f_equal from_be) in Hamt. rewrite !from_be_to_be in Hamt. change (256 ^ Z.of_nat 32) with (2 ^ 256) in Hamt.
  destruct Ha, Ha'. by rewrite !Z.mod_small in Hamt by lia.
Qed.

(** whatever the order of the calls, the bids an auction holds are the
    accepted reveals, no commitment is revealed more often than it was
    submitted, and any bid that could have been revealed in place of an
    accepted one has its bidder, amount, nonce and bundle hash, unless two
    byte strings with the same keccak256 hash are at hand. *)
Theorem sealed_bids_bind c ops acc a :
  exec ops (sealed_new c) = (acc, a) ->
  revealed_bids a = acc.*1 /\ (forall k, reveals k acc <= submits k ops) /\
  forall x nonce x' nonce' k, (x, nonce) ∈ acc -> compute_commitment (E := MevError) x nonce = Ok k ->
    compute_commitment (E := MevError) x' nonce' = Ok k -> bid_ok x nonce -> bid_ok x' nonce' ->
    (bidder x = bidder x' /\ amount x = amount x' /\ nonce = nonce' /\
     bundle_hash (E := MevError) (bid_bundle x) = bundle_hash (bid_bundle x')) \/
    exists u v, u <> v /\ keccak256 u = keccak256 v.
Proof.
  intros He. pose proof (exec_ok ops (sealed_new c)) as Hok. rewrite He in Hok. destruct Hok as (Hr & Hc & _).
  split_and!; [done| |].
  - intros k. specialize (Hc k). unfold pending in Hc. simpl in Hc. rewrite (bool_decide_false (k ∈ ∅)) in Hc by set_solver.
    destruct (bool_decide _); lia.
  - intros x nonce x' nonce' k _ Hk Hk' ? ?. by eapply commitment_binding.
Qed.
(** The winners do not depend on the bids, only on the bundles. *)
Lemma finalize_ignores_amounts late a a' : sealed_config a = sealed_config a' ->
  map bid_bundle (revealed_bids a) = map bid_bundle (revealed_bids a') -> finalize late a = finalize late a'.
Proof. unfold finalize. by intros -> ->. Qed.

(** * The block builder *)

(** The base fee moves by at most an eighth, up after a block over the
    target and down after one below it, and never below 1. *)
Lemma base_fee_step {E} fee used limit : U256 fee -> U256 used -> U256 limit -> 0 < limit / 2 ->
  used <= 2 * (limit / 2) -> fee * (limit / 2) < 2 ^ 256 -> fee + Z.max (fee / 8) 1 < 2 ^ 256 ->
  exists new, calculate_base_fee (E := E) (Some fee) used limit = Ok new /\
    match Z.compare used (limit / 2) with
    | Eq => new = fee
    | Gt => fee < new <= fee + Z.max (fee / 8) 1
    | Lt => Z.max (fee - fee / 8) 1 <= new <= Z.max fee 1
    end.
Proof.
  intros Hf Hu Hl Ht Hle Hm Ha. unfold calculate_base_fee. simpl.
  rewrite div_law by (done || unfold uint; lia). simpl. set (t := limit / 2) in *.
  assert (U256 t) as Ht' by (unfold t, uint in *; zlia).
  assert (forall d, 0 <= d <= t -> exists x, u_mul fee d = Some (fee * d) /\ u_div (fee * d) t = Some (fee * d / t) /\
    u_div (fee * d / t) 8 = Some x /\ 0 <= x <= fee / 8) as Hstep.
  { intros d Hd. destruct Hf, Ht'. assert (0 <= fee * d < 2 ^ 256) by nia.
    assert (0 <= fee * d / t <= fee) by (split; [apply Z.div_pos; lia|apply Z.div_le_upper_bound; nia]).
    eexists. rewrite mul_law by (unfold uint; lia). rewrite (proj2 (Z.ltb_lt _ _)) by lia.
    rewrite div_law by (unfold uint; lia). rewrite (proj2 (Z.eqb_neq _ _)) by lia.
    rewrite div_law by (unfold uint; lia). simpl. split_and!; [done|done|done|zlia|apply Z.div_le_mono; lia]. }
  destruct (Z.compare_spec used t) as [-> |Hlt|Hgt].
  - rewrite Z.eqb_refl. by eexists.
  - rewrite (proj2 (Z.eqb_neq _ _)), (proj2 (Z.ltb_ge _ _)) by lia. rewrite sub_law by done. rewrite (proj2 (Z.leb_le _ _)) by lia.
    destruct Hu as [Hu0 Hu1]. destruct (Hstep (t - used)) as (x & H1' & H2' & H3' & Hx); [lia|]. simpl. rewrite H1'. simpl.
    rewrite H2'. simpl. rewrite H3'. simpl. rewrite saturating_sub_law by (unfold uint in *; zlia).
    eexists. split; [reflexivity|]. lia.
  - rewrite (proj2 (Z.eqb_neq _ _)), (proj2 (Z.ltb_lt _ _)) by lia. rewrite sub_law by done. rewrite (proj2 (Z.leb_le _ _)) by lia.
    destruct (Hstep (used - t)) as (x & H1' & H2' & H3' & Hx); [lia|]. simpl. rewrite H1'. simpl.
    rewrite H2'. simpl. rewrite H3'. simpl. destruct Hf. rewrite add_law by (unfold uint in *; zlia).
    rewrite (proj2 (Z.ltb_lt _ _)) by lia. eexists. split; [reflexivity|]. lia.
Qed.

Definition block_gas (txs : list T) : Z := zsum tx_gas_limit txs.
Definition bundle_txs (w : list Bundle) : list T := concat (map (fun b => map transaction (transactions b)) w).

Lemma estimate_is_total {E} acc txs : estimate_bundle_gas (E := E) acc txs = gas_sum acc txs.
Proof.
  revert acc. induction txs as [|t txs IH]; intros acc; simpl; [done|]. unfold estimate_transaction_gas, bt_gas_limit.
  destruct (unwrap _); simpl; [|done..]. destruct (uadd _ _ _); simpl; [|done..]. apply IH.
Qed.
Lemma include_bundles_ok {E} limit (txs : list T) g w : Forall bundle_ok w -> 0 <= g -> g + zsum gas w <= limit -> limit < 2 ^ 64 ->
  include_bundles (E := E) limit txs g w = Ok (txs ++ bundle_txs w, g + zsum gas w).
Proof.
  intros Hok. revert txs g. induction Hok as [|b w Hb Hok IH]; intros txs g Hg Hle Hlim; simpl in *.
  { unfold bundle_txs. simpl. by rewrite app_nil_r, Z.add_0_r. }
  assert (0 <= zsum gas w) by (apply zsum_nonneg; eapply Forall_impl; [exact Hok|apply gas_nonneg]).
  pose proof (gas_nonneg b Hb). rewrite estimate_is_total. change (gas_sum 0 (transactions b)) with (total_gas (E := E) b).
  rewrite total_gas_ok by (done || lia). simpl. unfold uadd. rewrite checked_arith_ok by (unfold uint; lia). simpl.
  rewrite (proj2 (Z.leb_le _ _)) by lia. rewrite IH by lia. unfold bundle_txs. simpl. rewrite app_assoc. do 2 f_equal. lia.
Qed.
Lemma include_transactions_ok {E} limit (txs : list T) g (pool : list T) :
  Forall (fun t : T => 0 <= tx_gas_limit t < 2 ^ 64 - limit) pool -> 0 <= g <= limit ->
  exists inc, include_transactions (E := E) limit txs g pool = Ok (txs ++ inc, g + block_gas inc) /\
    sublist inc pool /\ g + block_gas inc <= limit /\
    forall t : T, t ∈ pool -> t ∈ inc \/ limit < g + block_gas inc + tx_gas_limit t.
Proof.
  intros Hall. revert txs g. induction Hall as [|t pool Ht Hall IH]; intros txs g Hg; simpl.
  { exists []. unfold block_gas. simpl. rewrite app_nil_r, Z.add_0_r. split_and!; [done|constructor|lia|set_solver]. }
  unfold estimate_transaction_gas. rewrite as_u64_law by (unfold uint; lia). rewrite (proj2 (Z.ltb_lt _ _)) by lia. simpl.
  unfold uadd. rewrite checked_arith_ok by (unfold uint; lia). simpl.
  destruct (Z.leb_spec (g + tx_gas_limit t) limit).
  - destruct (IH (txs ++ [t]) (g + tx_gas_limit t)) as (inc & Hi & Hsub & Hle & Hmax); [lia|].
    exists (t :: inc). unfold block_gas in *. simpl. rewrite Hi, <- app_assoc. simpl. split_and!; [do 2 f_equal; lia|by constructor|lia|].
    intros t' [-> |Ht']%elem_of_cons; [left; by left|]. destruct (Hmax t' Ht'); [left; by right|right; lia].
  - destruct (IH txs g) as (inc & Hi & Hsub & Hle & Hmax); [lia|]. exists inc. split_and!; [done|by constructor|done|].
    intros t' [-> |Ht']%elem_of_cons; [right|by apply Hmax].
    assert (0 <= block_gas inc); [|lia]. apply zsum_nonneg. eapply sublist_Forall; [done|].
    eapply Forall_impl; [exact Hall|]. simpl. lia.
Qed.

(** a built block holds the transactions of every winning bundle, whole
    and in order, followed by transactions of the pool by falling priority
    fee; it stays within the smaller of the two gas limits, and no
    transaction left out would still fit. *)
Theorem built_block late c max_limit attr_limit pool (mempool : list T) :
  let limit := Z.min max_limit attr_limit in
  0 <= max_limit < 2 ^ 64 -> 0 <= attr_limit < 2 ^ 64 -> Forall bundle_ok pool ->
  zsum gas pool < 2 ^ 64 -> zsum (value BASE_FEE_ESTIMATE) pool < 2 ^ 256 ->
  Forall (fun t : T => 0 <= tx_gas_limit t < 2 ^ 64 - limit) mempool ->
  exists r inc, run late c pool limit = Ok r /\
    build_transactions late c max_limit attr_limit pool mempool =
      Ok (bundle_txs (winning_bundles r) ++ inc, gas_used r + block_gas inc) /\
    sublist inc (sort_transactions_by_priority mempool) /\ gas_used r + block_gas inc <= limit /\
    forall t : T, t ∈ mempool -> t ∈ inc \/ limit < gas_used r + block_gas inc + tx_gas_limit t.
Proof.
  intros limit Hm Ha Hok Hg Hv Hmem.
  destruct (run_spec late c pool limit) as (seen & rest & Hperm & _ & Hrun & _); [done..|].
  pose proof (greedy_winners_ok c limit seen) as Hw.
  set (w := (greedy c limit seen).1) in *.
  assert (Forall bundle_ok w) as Hokw.
  { eapply sublist_Forall; [apply greedy_sublist|].
    assert (Forall bundle_ok (seen ++ rest)) as Hall; [|by apply Forall_app in Hall as [? _]].
    rewrite Hperm. eapply sublist_Forall; [apply sublist_filter|done]. }
  pose proof (within_gas _ _ _ Hw ltac:(lia)) as Hwg.
  assert (0 <= zsum gas w) by (apply zsum_nonneg; eapply Forall_impl; [exact Hokw|apply gas_nonneg]).
  assert (sort_transactions_by_priority mempool ≡ₚ mempool) as Hsp by apply sort_by_key_perm.
  destruct (include_transactions_ok (E := MevError) limit (bundle_txs w) (zsum gas w) (sort_transactions_by_priority mempool))
    as (inc & Hinc & Hsub & Hle & Hmax); [by rewrite Hsp|lia|].
  eexists _, inc. split; [exact Hrun|]. split_and!; [|done|done|].
  - unfold build_transactions. rewrite as_u64_law by (unfold uint; lia). rewrite (proj2 (Z.ltb_lt _ _)) by lia. simpl.
    fold limit. rewrite Hrun. simpl. fold w. rewrite include_bundles_ok by (done || lia). simpl. exact Hinc.
  - intros t Ht. apply Hmax. by rewrite Hsp.
Qed.
End auction.

(** * Examples *)

Record SampleTx := mkSample { s_id : Z; s_gas : Z; s_price : Z; s_from : Z }.
#[local] Instance sample_ops : TxOps SampleTx := {|
  tx_hash t := Ok [s_id t]; tx_gas_limit := s_gas; tx_gas_price := s_price; tx_priority_fee := s_price;
  tx_sender t := if s_from t =? 0 then Err TxInvalidSignature else Ok [s_from t];
|}.
#[local] Instance sample_forms : DebugForms := {| show_hash _ := "0x"%string; show_error _ := "InvalidSignature"%string |}.
#[local] Existing Instance dev_profile.
Definition one (id gas gwei from : Z) : Bundle :=
  mkBundle [bundle_tx_new (mkSample id gas (gwei * 1000000000) from)] 1 1 2 [] None.
Ltac sample_ok := repeat constructor; vm_compute; try done; try (by eexists); try (split; [|reflexivity]; done).

(** The second bundle has the sender of the first, the third is worth less
    than the minimal bid, the fourth does not fit. *)
Definition sample_bundles : list Bundle := [one 1 21000 40 7; one 2 30000 35 7; one 3 21000 30 8; one 4 100000 31 9].
Example sample_auction : run (fun _ => false) auction_default sample_bundles 100000 =
  Ok (mkResult [one 1 21000 40 7] 210000000000000 21000
        [(one 2 30000 35 7, Conflict); (one 4 100000 31 9, GasLimit); (one 3 21000 30 8, InsufficientValue)]).
Proof. by vm_compute. Qed.
Lemma pool_add_spec_witness :
  exists kept, pool_add (one 3 21000 50 8) (mkPool [one 1 21000 40 7; one 2 30000 35 7] 2) = (Ok tt, mkPool (kept ++ [one 3 21000 50 8]) 2) /\
    without_lowest 1000000000 [one 1 21000 40 7; one 2 30000 35 7] kept.
Proof.
  assert (valid (one 3 21000 50 8) = true) as Hv by (vm_compute; reflexivity).
  pose proof (pool_add_spec (one 3 21000 50 8) [one 1 21000 40 7; one 2 30000 35 7] 2) as Hs. rewrite Hv in Hs.
  apply Hs; sample_ok.
Defined.
Lemma sealed_bids_bind_witness :
  let x := mkBid (replicate 20 1) 5 (one 1 21000 40 7) in
  exists k, compute_commitment (E := MevError) x (replicate 32 9) = Ok k /\
    reveals k (exec [Submit k; Reveal x (replicate 32 9); Reveal x (replicate 32 9)] (sealed_new auction_default)).1 <= 1.
Proof.
  intros x. eexists. split; [reflexivity|]. set (k := keccak256 _).
  destruct (exec [Submit k; Reveal x (replicate 32 9); Reveal x (replicate 32 9)] (sealed_new auction_default)) as [acc a] eqn:He.
  destruct (sealed_bids_bind _ _ acc a He) as (_ & Hc & _). specialize (Hc k). clear He. clearbody k.
  unfold submits in Hc. simpl in Hc. rewrite bool_decide_true in Hc by done. exact Hc.
Defined.
Lemma built_block_witness :
  exists r inc, run (fun _ => false) auction_default [one 1 21000 40 7] 60000 = Ok r /\
    build_transactions (fun _ => false) auction_default 60000 100000 [one 1 21000 40 7]
      [mkSample 5 21000 10 3; mkSample 6 30000 20 4; mkSample 1 9000 5 7] = Ok (bundle_txs (winning_bundles r) ++ inc, gas_used r + block_gas inc) /\
    inc = [mkSample 6 30000 20 4; mkSample 1 9000 5 7].
Proof.
  destruct (built_block (fun _ => false) auction_default 60000 100000 [one 1 21000 40 7]
    [mkSample 5 21000 10 3; mkSample 6 30000 20 4; mkSample 1 9000 5 7]) as (r & inc & Hr & Hb & _);
    [done|done|sample_ok|done|done|by repeat (constructor; [split; [done|by vm_compute]|]); constructor|].
  exists r, inc. split; [exact Hr|]. split; [exact Hb|]. vm_compute in Hr. injection Hr as <-. vm_compute in Hb. injection Hb as <- _. done.
Defined.

(** One bundle whose sender cannot be recovered ends the auction with an error. *)
Example bad_sender_aborts_auction :
  run (fun _ => false) auction_default [one 1 21000 40 7; one 2 21000 50 0] 100000 =
  Err (InvalidBundle "Failed to recover sender: InvalidSignature").
Proof. by vm_compute. Qed.
(** In the release profile the gas of a bundle wraps around: it wins with
    more gas than the block has. *)
Example wrapped_gas_wins :
  let b := mkBundle [bundle_tx_new (mkSample 1 (2 ^ 63) 40000000000 7); bundle_tx_new (mkSample 2 (2 ^ 63) 40000000000 7)] 1 1 2 [] None in
  run (H := release_profile) (fun _ => false) auction_default [b] 100 =
  Ok (mkResult [b] (10000000000 * 2 ^ 64) 0 []).
Proof. by vm_compute. Qed.
(** A transaction of a winning bundle that is in the pool too is included twice. *)
Example block_repeats_transaction :
  build_transactions (fun _ => false) auction_default 60000 60000 [one 1 21000 40 7] [mkSample 1 21000 40000000000 7] =
  Ok ([mkSample 1 21000 40000000000 7; mkSample 1 21000 40000000000 7], 42000).
Proof. by vm_compute. Qed.

End MevProofs.
