(* ===== verification/F64.v ===== *)
(** Binary64 floating-point numbers: the type [f64] of the language, with the
    operations the sources use.  The arithmetic is the one of the Standard
    Library's executable IEEE 754 model, with 53 bits of precision and
    rounding to nearest, ties to even. *)
From stdpp Require Import base list numbers option.
From Stdlib Require Import ZArith Lia SpecFloat.
From S2P Require Import Prelude.

Module F64.

Notation f64 := spec_float.
Definition add (x y : f64) : f64 := SFadd 53 1024 x y.
Definition mul (x y : f64) : f64 := SFmul 53 1024 x y.
Definition div (x y : f64) : f64 := SFdiv 53 1024 x y.
Definition lt (x y : f64) : bool := SFltb x y.
Definition le (x y : f64) : bool := SFleb x y.
Definition is_nan (x : f64) : bool := match x with S754_nan => true | _ => false end.
(** [as f64] of an unsigned integer. *)
Definition of_Z (n : Z) : f64 := binary_normalize 53 1024 n 0 false.
(** The literal [p / q], for [p] and the power of ten [q] exact in binary64. *)
Definition lit (p q : Z) : f64 := div (of_Z p) (of_Z q).
(** The remainder [%] is exact and has the sign of the dividend. *)
Definition rem (x y : f64) : f64 :=
  match x, y with
  | S754_nan, _ | _, S754_nan | S754_infinity _, _ | _, S754_zero _ => S754_nan
  | S754_zero _, _ | S754_finite _ _ _, S754_infinity _ => x
  | S754_finite sx mx ex, S754_finite _ my ey =>
      let e := Z.min ex ey in
      let r := (Zpos mx * 2 ^ (ex - e)) mod (Zpos my * 2 ^ (ey - e)) in
      binary_normalize 53 1024 (if sx then - r else r) e sx
  end.
(** [as u128] and the like: towards zero, saturating, a NaN gives zero. *)
Definition to_uint (w : Z) (x : f64) : Z :=
  match x with
  | S754_nan | S754_zero _ | S754_infinity true | S754_finite true _ _ => 0
  | S754_infinity false => 2 ^ w - 1
  | S754_finite false m e => Z.min (Z.shiftl (Zpos m) e) (2 ^ w - 1)
  end.
(** [f64::min] ignores a NaN. *)
Definition min (x y : f64) : f64 := if is_nan x then y else if is_nan y then x else if lt x y then x else y.

Section sort.
Context {A : Type} (key : A -> f64).
Fixpoint insert_falling (x : A) (l : list A) : list A :=
  match l with
  | [] => [x]
  | y :: rest => if lt (key x) (key y) then y :: insert_falling x rest else x :: l
  end.
(** [sort_by(|a, b| b.partial_cmp(a).unwrap())]: a NaN panics as soon as
    there is something to compare it with. *)
Definition sort_falling {E} (l : list A) : outcome E (list A) :=
  if (1 <? len l) && existsb (fun x => is_nan (key x)) l then Panic else Ok (foldr insert_falling [] l).

Lemma insert_falling_perm x l : insert_falling x l ≡ₚ x :: l.
Proof. induction l as [|y l IH]; simpl; [done|]. destruct (lt _ _); [|done]. rewrite IH. apply Permutation_swap. Qed.
Lemma sort_falling_perm {E} l l' : sort_falling (E := E) l = Ok l' -> l' ≡ₚ l.
Proof.
  unfold sort_falling. destruct (_ && _); [done|]. intros [= <-].
  induction l as [|x l IH]; simpl; [done|]. by rewrite insert_falling_perm, IH.
Qed.
End sort.

(** ** Positive numbers *)

(** The number with the significand [m] and the exponent [e] is at least [2 ^ b]. *)
Definition at_least (b m e : Z) : Prop := exists k, 0 <= k /\ 2 ^ k <= m /\ b <= k + e.
Lemma shr_1_bound k r : 1 <= k -> 2 ^ k <= shr_m r -> 2 ^ (k - 1) <= shr_m (shr_1 r).
Proof.
  intros Hk Hr. replace k with (Z.succ (k - 1)) in Hr by lia. rewrite Z.pow_succ_r in Hr by lia. pose proof (Z.pow_pos_nonneg 2 (k - 1)).
  destruct r as [[|[p|p|]|p] ? ?]; cbn in *; lia.
Qed.
Lemma shr_iter_bound p : forall k r, Zpos p <= k -> 2 ^ k <= shr_m r -> 2 ^ (k - Zpos p) <= shr_m (iter_pos shr_1 p r).
Proof.
  induction p as [p IH|p IH|]; intros k r Hk Hr; cbn [iter_pos].
  - replace (k - Zpos p~1) with (k - 1 - Zpos p - Zpos p) by lia. apply IH; [lia|]. apply IH; [lia|]. apply shr_1_bound; [lia|done].
  - replace (k - Zpos p~0) with (k - Zpos p - Zpos p) by lia. apply IH; [lia|]. apply IH; [lia|done].
  - by apply shr_1_bound.
Qed.
Lemma digits_bound p : 2 ^ (Zpos (digits2_pos p) - 1) <= Zpos p < 2 ^ Zpos (digits2_pos p).
Proof.
  induction p as [p IH|p IH|]; cbn [digits2_pos]; [| |cbn; lia]; rewrite Pos2Z.inj_succ;
  replace (Z.succ (Zpos (digits2_pos p)) - 1) with (Z.succ (Zpos (digits2_pos p) - 1)) by lia; rewrite !Z.pow_succ_r by lia; lia.
Qed.
Lemma shr_fexp_at_least b m e l : -1074 <= b -> at_least b m e ->
  at_least b (shr_m (shr_fexp 53 1024 m e l).1) (shr_fexp 53 1024 m e l).2.
Proof.
  intros Hb (k & Hk & Hm & He). destruct m as [|p|p]; [pose proof (Z.pow_pos_nonneg 2 k); lia| |pose proof (Z.pow_pos_nonneg 2 k); lia].
  pose proof (digits_bound p) as [Hd1 Hd2]. unfold shr_fexp, fexp, emin, Zdigits2. set (d := Zpos (digits2_pos p)) in *.
  assert (k < d) as Hkd by (apply (Z.pow_lt_mono_r_iff 2); lia).
  assert (shr_m (shr_record_of_loc (Zpos p) l) = Zpos p) as Hs by (by destruct l as [|[]]).
  destruct (Z.max (d + e - 53) (3 - 1024 - 53) - e) as [|n|n] eqn:Hn; cbn [shr fst snd].
  - exists k. rewrite Hs. auto.
  - exists (d - 1 - Zpos n). split; [lia|]. split; [|lia]. apply shr_iter_bound; [lia|]. by rewrite Hs.
  - exists k. rewrite Hs. auto.
Qed.
Lemma at_least_mono b m m' e : m <= m' -> at_least b m e -> at_least b m' e.
Proof. intros ? (k & ? & ? & ?). exists k. lia. Qed.
(** Infinite, or finite and at least [2 ^ b]. *)
Definition big (b : Z) (x : f64) : Prop := x = S754_infinity false \/ exists m e, x = S754_finite false m e /\ at_least b (Zpos m) e.
Lemma binary_round_aux_big b m e l : -1074 <= b -> at_least b m e -> big b (binary_round_aux 53 1024 false m e l).
Proof.
  intros Hb Hv. unfold binary_round_aux. pose proof (shr_fexp_at_least b m e l Hb Hv) as Hv'. destruct (shr_fexp 53 1024 m e l) as [r e']. cbn [fst snd] in Hv'.
  assert (shr_m r <= round_nearest_even (shr_m r) (loc_of_shr_record r)) as Hle.
  { unfold round_nearest_even. destruct (loc_of_shr_record r) as [|[]]; [lia| |lia..]. destruct (Z.even _); lia. }
  apply (at_least_mono _ _ _ _ Hle), (fun H => shr_fexp_at_least _ _ _ loc_Exact Hb H) in Hv'. destruct (shr_fexp 53 1024 _ e' loc_Exact) as [r' e'']. cbn [fst snd] in Hv'.
  destruct (shr_m r') as [|n|n]; [destruct Hv' as (k & ? & ? & _); pose proof (Z.pow_pos_nonneg 2 k); lia| |destruct Hv' as (k & ? & ? & _); pose proof (Z.pow_pos_nonneg 2 k); lia].
  destruct (e'' <=? 1024 - 53); [right; by exists n, e''|by left].
Qed.
Lemma iter_doubled p q : Zpos (Pos.iter xO p q) = Zpos p * 2 ^ Zpos q.
Proof.
  induction q as [|q IH] using Pos.peano_ind; [cbn; lia|]. rewrite Pos.iter_succ, Pos2Z.inj_xO, IH, Pos2Z.inj_succ, Z.pow_succ_r by lia. lia.
Qed.
(** An integer of at least [2 ^ b] is a number of at least [2 ^ b]. *)
Lemma of_Z_big b n : 0 <= b -> 2 ^ b <= n -> big b (of_Z n).
Proof.
  intros Hb Hn. pose proof (Z.pow_pos_nonneg 2 b). destruct n as [|p|p]; [lia| |lia]. unfold of_Z, binary_normalize, binary_round, shl_align, fexp, emin.
  assert (at_least b (Zpos p) 0) as Hp by (exists b; lia).
  destruct (Z.max (Zpos (digits2_pos p) + 0 - 53) (3 - 1024 - 53) - 0) as [|q|q] eqn:He; apply binary_round_aux_big; try lia; try done.
  exists (b + Zpos q). split; [lia|]. split; [|lia]. rewrite Z.pow_add_r, iter_doubled by lia. nia.
Qed.
(** A positive integer is a positive number. *)
Lemma of_Z_positive n : 0 < n -> of_Z n = S754_infinity false \/ exists m e, of_Z n = S754_finite false m e.
Proof. intros Hn. destruct (of_Z_big 0 n) as [?|(m & e & ? & _)]; [lia|cbn; lia|by left|right; by exists m, e]. Qed.
(** A quotient of positive numbers that are not too far apart is positive. *)
Lemma div_positive m1 e1 m2 e2 : -1000 <= Zpos (digits2_pos m1) + e1 - (Zpos (digits2_pos m2) + e2) -> -1100 <= e1 - e2 ->
  big (-1074) (div (S754_finite false m1 e1) (S754_finite false m2 e2)).
Proof.
  intros Hd He. unfold div, SFdiv, SFdiv_core_binary, fexp, emin, Zdigits2. set (d1 := Zpos (digits2_pos m1)) in *. set (d2 := Zpos (digits2_pos m2)) in *.
  set (e' := Z.min (Z.max (d1 + e1 - (d2 + e2) - 53) (3 - 1024 - 53)) (e1 - e2)). set (s := e1 - e2 - e').
  assert ((match s with Zpos _ => Z.shiftl (Zpos m1) s | Z0 => Zpos m1 | Zneg _ => 0 end) = Zpos m1 * 2 ^ s) as ->.
  { assert (0 <= s) by lia. destruct s as [|p|p]; [lia|by rewrite Z.shiftl_mul_pow2|lia]. }
  pose proof (Z_div_mod (Zpos m1 * 2 ^ s) (Zpos m2) ltac:(lia)) as Hq. destruct (Z.div_eucl (Zpos m1 * 2 ^ s) (Zpos m2)) as [q r]. destruct Hq as [Hq Hr].
  apply binary_round_aux_big; [lia|]. exists 52. split; [lia|]. split; [|lia].
  pose proof (digits_bound m1) as [H1 _]. pose proof (digits_bound m2) as [_ H2]. fold d1 in H1. fold d2 in H2.
  assert (2 ^ (d2 + 52) <= Zpos m1 * 2 ^ s) as Hbig.
  { transitivity (2 ^ (d1 - 1) * 2 ^ s); [|apply Z.mul_le_mono_nonneg_r; [apply Z.pow_nonneg; lia|done]]. rewrite <- Z.pow_add_r by lia. apply Z.pow_le_mono_r; lia. }
  rewrite Z.pow_add_r in Hbig by lia. assert (2 ^ 52 < q + 1); [|lia]. apply (Z.mul_lt_mono_pos_l (Zpos m2)); [lia|]. nia.
Qed.
Lemma to_uint_positive w x : 0 < w -> big 0 x -> 0 < to_uint w x.
Proof.
  intros Hw [-> |(m & e & -> & k & Hk & Hm & Hb)]; cbn; pose proof (Z.pow_gt_1 2 w); [lia|]. apply Z.min_glb_lt; [|lia].
  destruct (Z.leb_spec 0 e); [rewrite Z.shiftl_mul_pow2 by lia; pose proof (Z.pow_pos_nonneg 2 e); nia|].
  rewrite Z.shiftl_div_pow2 by lia. apply Z.div_str_pos. split; [apply Z.pow_pos_nonneg; lia|]. etrans; [|exact Hm]. apply Z.pow_le_mono_r; lia.
Qed.
(** Over zero, a positive number is infinite, and zero is not a number. *)
Lemma over_zero n : 0 < n -> div (of_Z n) (of_Z 0) = S754_infinity false.
Proof. intros Hn. destruct (of_Z_positive n Hn) as [-> | (m & e & ->)]; done. Qed.

(** [0.5 + 125 % 50 / 100 = 0.75], and [0.5 + 0.07] is not [0.57]. *)
Example half_and_a_quarter : add (lit 5 10) (div (rem (of_Z 125) (of_Z 50)) (of_Z 100)) = lit 75 100.
Proof. by vm_compute. Qed.
Example rounding_shows : lt (lit 57 100) (add (lit 5 10) (lit 7 100)) = true.
Proof. by vm_compute. Qed.

End F64.
