(* ===== verification/SsfValidator.v ===== *)
(** The validator set of single-slot finality: crates/ssf/src/validator.rs.
    The random numbers of the shuffle and the order in which the map of
    validators is summed up are parameters. *)
From stdpp Require Import base list numbers option strings gmap sets.
From Stdlib Require Import ZArith Lia.
From S2P Require Import Prelude U256 F64.

Module SsfValidator.
Import F64.

Inductive SSFError :=
| FinalityFailed (s : string) | AggregationError (s : string) | ValidatorError (s : string)
| CommitteeError (s : string) | SignatureError (s : string).

Inductive ValidatorStatus := Active | Pending | Exiting (exit_epoch : Z) | Slashed (slashed_at : Z) | Withdrawn.
#[export] Instance status_eq_dec : EqDecision ValidatorStatus.
Proof. solve_decision. Defined.
Record ValidatorPerformance := mkPerformance {
  attestations_included : Z; attestations_missed : Z; blocks_proposed : Z; blocks_missed : Z;
  participation_rate : f64; effectiveness : f64;
}.
Definition performance_default : ValidatorPerformance := mkPerformance 0 0 0 0 (of_Z 1) (of_Z 1).
Record SSFValidator := mkValidator {
  v_index : Z; v_pubkey : list Z; v_address : list Z; v_stake : Z;
  v_status : ValidatorStatus; v_performance : ValidatorPerformance;
}.
Definition validator_new (i : Z) (pubkey address : list Z) (stake : Z) : SSFValidator :=
  mkValidator i pubkey address stake Pending performance_default.
Definition sign_block (v : SSFValidator) (block_hash : list Z) : list Z := replicate 96 0.

Record ValidatorSet := mkSet {
  validators : gmap Z SSFValidator; active_validators : list Z; total_stake : Z; set_epoch : Z; shuffling_seed : list Z;
}.
Definition set_new : ValidatorSet := mkSet ∅ [] 0 0 (replicate 32 0).

Section set.
Context `{Profile} `{U256Ops}.
Notation VM := (SM ValidatorSet SSFError).

Definition is_active (s : ValidatorSet) (i : Z) : bool :=
  match validators s !! i with Some v => bool_decide (v_status v = Active) | None => false end.
Definition with_active (l : list Z) (total : Z) (s : ValidatorSet) : ValidatorSet :=
  mkSet (validators s) l total (set_epoch s) (shuffling_seed s).
Definition with_validator (i : Z) (v : SSFValidator) (s : ValidatorSet) : ValidatorSet :=
  mkSet (<[i := v]> (validators s)) (active_validators s) (total_stake s) (set_epoch s) (shuffling_seed s).
Definition add_validator (v : SSFValidator) : VM unit :=
  smodify (with_validator (v_index v) v) ;;!
  let! s := sget in
  if is_active s (v_index v) && negb (bool_decide (v_index v ∈ active_validators s)) then
    sput (with_active (active_validators s ++ [v_index v]) (total_stake s) s) ;;!
    let! total := slift (unwrap (u_add (total_stake s) (v_stake v))) in
    smodify (fun s => with_active (active_validators s) total s)
  else sret tt.
(** [active.remove(pos)] of the first position of [i]. *)
Fixpoint remove_first (i : Z) (l : list Z) : list Z :=
  match l with
  | [] => []
  | x :: l => if x =? i then l else x :: remove_first i l
  end.
Definition remove_validator (i : Z) : VM unit :=
  let! s := sget in
  match validators s !! i with
  | None => sfail (ValidatorError "Validator not found")
  | Some v =>
      sput (mkSet (delete i (validators s)) (active_validators s) (total_stake s) (set_epoch s) (shuffling_seed s)) ;;!
      if bool_decide (i ∈ active_validators s) then
        smodify (fun s => with_active (remove_first i (active_validators s)) (total_stake s) s) ;;!
        let! total := slift (unwrap (u_sub (total_stake s) (v_stake v))) in
        smodify (fun s => with_active (active_validators s) total s)
      else sret tt
  end.
Definition with_status (st : ValidatorStatus) (v : SSFValidator) : SSFValidator :=
  mkValidator (v_index v) (v_pubkey v) (v_address v) (v_stake v) st (v_performance v).
Definition update_validator_status (i : Z) (st : ValidatorStatus) : VM unit :=
  let! s := sget in
  match validators s !! i with
  | None => sfail (ValidatorError "Validator not found")
  | Some v =>
      let was_active := bool_decide (v_status v = Active) in
      let is_active_now := bool_decide (st = Active) in
      smodify (with_validator i (with_status st v)) ;;!
      if eqb was_active is_active_now then sret tt
      else if is_active_now then
        if bool_decide (i ∈ active_validators s) then sret tt
        else smodify (fun s => with_active (active_validators s ++ [i]) (total_stake s) s)
      else smodify (fun s => with_active (remove_first i (active_validators s)) (total_stake s) s)
  end.
Definition get_validator (i : Z) (s : ValidatorSet) : option SSFValidator := validators s !! i.
Definition get_active_validators (s : ValidatorSet) : list SSFValidator := omap (fun i => validators s !! i) (active_validators s).

(** Fisher-Yates; [draw i] is the random number of [0..=i]. *)
Definition swap (l : list Z) (i j : nat) : list Z :=
  match l !! i, l !! j with
  | Some x, Some y => <[j := x]> (<[i := y]> l)
  | _, _ => l
  end.
Fixpoint shuffle_loop (draw : nat -> nat) (i : nat) (l : list Z) : list Z :=
  match i with
  | O => l
  | S i' => shuffle_loop draw i' (swap l i (draw i))
  end.
Definition shuffle_validators (draw : list Z -> nat -> nat) (seed : list Z) : VM (list Z) :=
  let! s := sget in
  sput (mkSet (validators s) (active_validators s) (total_stake s) (set_epoch s) seed) ;;!
  sret (shuffle_loop (draw seed) (length (active_validators s) - 1) (active_validators s)).
Definition select_committee_validators {E} (committee_index committee_count : Z) (s : ValidatorSet) : outcome E (list SSFValidator) :=
  let active := get_active_validators s in
  let? per := udiv (len active) committee_count in
  let? start := umul 64 committee_index per in
  let? next := uadd 64 committee_index 1 in
  let? stop := umul 64 next per in
  slice active start (Z.min stop (len active)).

Definition with_performance (p : ValidatorPerformance) (v : SSFValidator) : SSFValidator :=
  mkValidator (v_index v) (v_pubkey v) (v_address v) (v_stake v) (v_status v) p.
(** The rate stays as it was while there is nothing to divide by. *)
Definition rate (good bad : Z) (old : f64) : outcome SSFError f64 :=
  let? total := uadd 64 good bad in
  Ok (if 0 <? total then div (of_Z good) (of_Z total) else old).
Definition updated_performance (included : bool) (proposed : option bool) (p : ValidatorPerformance) :
    outcome SSFError ValidatorPerformance :=
  let? inc := if included then uadd 64 (attestations_included p) 1 else Ok (attestations_included p) in
  let? mis := if included then Ok (attestations_missed p) else uadd 64 (attestations_missed p) 1 in
  let? prop := match proposed with Some true => uadd 64 (blocks_proposed p) 1 | _ => Ok (blocks_proposed p) end in
  let? bmis := match proposed with Some false => uadd 64 (blocks_missed p) 1 | _ => Ok (blocks_missed p) end in
  let? part := rate inc mis (participation_rate p) in
  let? eff := rate prop bmis (effectiveness p) in
  Ok (mkPerformance inc mis prop bmis part eff).
Definition update_performance (i : Z) (included : bool) (proposed : option bool) : VM unit :=
  let! s := sget in
  match validators s !! i with
  | None => sfail (ValidatorError "Validator not found")
  | Some v =>
      let! p := slift (updated_performance included proposed (v_performance v)) in
      smodify (with_validator i (with_performance p v))
  end.

Definition with_stake (x : Z) (v : SSFValidator) : SSFValidator :=
  mkValidator (v_index v) (v_pubkey v) (v_address v) x (v_status v) (v_performance v).
Definition slash_validator (i epoch : Z) : VM unit :=
  update_validator_status i (Slashed epoch) ;;!
  let! s := sget in
  match validators s !! i with
  | Some v =>
      let! penalty := slift (unwrap (u_div (v_stake v) 32)) in
      let! rest := slift (unwrap (u_sub (v_stake v) penalty)) in
      smodify (with_validator i (with_stake rest v)) ;;!
      let! total := slift (unwrap (u_sub (total_stake s) penalty)) in
      smodify (fun s => with_active (active_validators s) total s)
  | None => sret tt
  end.
Definition initiate_exit (i exit_epoch : Z) : VM unit := update_validator_status i (Exiting exit_epoch).

Definition exit_due (new_epoch : Z) (v : SSFValidator) : bool :=
  match v_status v with Exiting e => e <=? new_epoch | _ => false end.
Fixpoint withdraw_all (is_ : list Z) : VM unit :=
  match is_ with
  | [] => sret tt
  | i :: is_ => update_validator_status i Withdrawn ;;! withdraw_all is_
  end.
Definition process_epoch_transition (new_epoch : Z) : VM unit :=
  smodify (fun s => mkSet (validators s) (active_validators s) (total_stake s) new_epoch (shuffling_seed s)) ;;!
  let! s := sget in
  withdraw_all (map fst (filter (fun p : Z * SSFValidator => exit_due new_epoch p.2) (map_to_list (validators s)))).

Record ValidatorSetStats := mkStats {
  st_total_validators : Z; st_active_validators : Z; st_total_stake : Z; average_effectiveness : f64;
  average_participation : f64; slashed_validators : Z; exiting_validators : Z; current_epoch : Z;
}.
Definition is_slashed (v : SSFValidator) : bool := match v_status v with Slashed _ => true | _ => false end.
Definition is_exiting (v : SSFValidator) : bool := match v_status v with Exiting _ => true | _ => false end.
Definition average (total : f64) (n : Z) : f64 := if 0 <? n then div total (of_Z n) else of_Z 0.
(** [values] is the iteration over the map. *)
Definition get_statistics (values : gmap Z SSFValidator -> list SSFValidator) (s : ValidatorSet) : ValidatorSetStats :=
  let vs := values (validators s) in
  let act := filter (fun v => v_status v = Active) vs in
  let n := len (active_validators s) in
  mkStats (Z.of_nat (size (validators s))) n (total_stake s)
    (average (foldl (fun t v => add t (effectiveness (v_performance v))) (of_Z 0) act) n)
    (average (foldl (fun t v => add t (participation_rate (v_performance v))) (of_Z 0) act) n)
    (len (filter (fun v => is_slashed v) vs))
    (len (filter (fun v => is_exiting v) vs))
    (set_epoch s).

(** * Reachable sets *)

Inductive set_op :=
| OpAdd (v : SSFValidator) | OpRemove (i : Z) | OpStatus (i : Z) (st : ValidatorStatus)
| OpPerformance (i : Z) (included : bool) (proposed : option bool) | OpSlash (i epoch : Z) | OpExit (i epoch : Z)
| OpEpoch (e : Z) | OpShuffle (draw : list Z -> nat -> nat) (seed : list Z).
Definition run_op (o : set_op) : VM unit :=
  match o with
  | OpAdd v => add_validator v
  | OpRemove i => remove_validator i
  | OpStatus i st => update_validator_status i st
  | OpPerformance i a b => update_performance i a b
  | OpSlash i e => slash_validator i e
  | OpExit i e => initiate_exit i e
  | OpEpoch e => process_epoch_transition e
  | OpShuffle d seed => shuffle_validators d seed ;;! sret tt
  end.
(** Sets reached by calls that did not panic (a panic poisons the locks),
    where [ok] restricts the validators that are added. *)
Inductive reachable (ok : ValidatorSet -> SSFValidator -> Prop) : ValidatorSet -> Prop :=
| reach_new : reachable ok set_new
| reach_step s o r s' : reachable ok s -> match o with OpAdd v => ok s v | _ => True end ->
    run_op o s = (r, s') -> r <> Panic -> reachable ok s'.

Record exact (s : ValidatorSet) : Prop := {
  active_nodup : NoDup (active_validators s);
  active_iff i : i ∈ active_validators s <-> is_active s i = true;
}.

Lemma remove_first_sublist i l : sublist (remove_first i l) l.
Proof. induction l as [|x l IH]; simpl; [done|]. case_bool; by constructor. Qed.
Lemma remove_first_elem i l : NoDup l -> forall j, j ∈ remove_first i l <-> j ∈ l /\ j <> i.
Proof.
  induction 1 as [|x l Hx Hl IH]; intros j; simpl; [set_solver|]. case_bool.
  - subst. rewrite elem_of_cons. split; [intros Hj; split; [by right|by intros ->]|by intros [[->|] ?]].
  - rewrite !elem_of_cons, IH. naive_solver.
Qed.
Lemma NoDup_snoc {A} (l : list A) x : NoDup l -> x ∉ l -> NoDup (l ++ [x]).
Proof. intros Hl Hx. apply NoDup_app. split_and!; [done|set_solver|apply NoDup_singleton]. Qed.

Lemma is_active_insert s i v j : is_active (with_validator i v s) j =
  if bool_decide (i = j) then bool_decide (v_status v = Active) else is_active s j.
Proof.
  unfold is_active, with_validator. simpl. case_bool_decide as Hij; [subst; by rewrite lookup_insert_eq|by rewrite lookup_insert_ne].
Qed.
Lemma is_active_with_active l t s j : is_active (with_active l t s) j = is_active s j.
Proof. done. Qed.
(** Changing a validator without its activity. *)
Lemma exact_same_activity s i v v' : exact s -> validators s !! i = Some v -> (v_status v = Active <-> v_status v' = Active) ->
  exact (with_validator i v' s).
Proof.
  intros [Hnd Ha] Hi Hv. split; [done|]. intros j. rewrite is_active_insert. simpl. rewrite Ha.
  case_bool_decide as Hij; [subst|done]. unfold is_active. rewrite Hi, !bool_decide_eq_true. done.
Qed.
Lemma update_status_exact i st s : exact s -> exact (update_validator_status i st s).2.
Proof.
  intros Hs. pose proof Hs as [Hnd Ha]. unfold update_validator_status. rewrite sbind_get.
  destruct (validators s !! i) as [v|] eqn:Hi; [|done]. rewrite sbind_modify.
  assert (is_active s i = bool_decide (v_status v = Active)) as Hai by (unfold is_active; by rewrite Hi).
  destruct (eqb _ _) eqn:Heq.
  - apply eqb_prop in Heq. eapply exact_same_activity; [done..|]. simpl.
    rewrite <- (bool_decide_eq_true (v_status v = Active)), <- (bool_decide_eq_true (st = Active)). by rewrite Heq.
  - destruct (decide (st = Active)) as [Hst|Hst].
    + assert (is_active s i = false) as Hno.
      { rewrite (bool_decide_true (st = Active)) in Heq by done. rewrite Hai. by destruct (bool_decide (v_status v = Active)). }
      rewrite bool_decide_true by done. rewrite bool_decide_false by (rewrite Ha; congruence). split; simpl.
      * apply NoDup_snoc; [done|]. rewrite Ha. congruence.
      * intros j. rewrite is_active_with_active, is_active_insert, elem_of_app, list_elem_of_singleton, Ha. simpl. rewrite (bool_decide_true (st = Active)) by done.
        destruct (decide (i = j)) as [->|]; [rewrite bool_decide_true by done; tauto|]. rewrite bool_decide_false by done.
        split; [intros [?|?]; congruence|auto].
    + rewrite bool_decide_false by done. split; simpl.
      * eapply sublist_NoDup; [done|apply remove_first_sublist].
      * intros j. rewrite is_active_with_active, is_active_insert, remove_first_elem, Ha by done. simpl. rewrite (bool_decide_false (st = Active)) by done.
        destruct (decide (i = j)) as [->|]; [rewrite bool_decide_true by done|rewrite bool_decide_false by done].
        { split; [by intros [_ ?]|done]. }
        split; [by intros [? _]|auto].
Qed.

Lemma add_exact v s : exact s -> validators s !! v_index v = None -> exact (add_validator v s).2.
Proof.
  intros [Hnd Ha] Hi. unfold add_validator. rewrite sbind_modify, sbind_get. rewrite is_active_insert, bool_decide_true by done.
  assert (v_index v ∉ active_validators s) as Hni by (rewrite Ha; unfold is_active; by rewrite Hi).
  simpl active_validators. rewrite (bool_decide_false (_ ∈ _)), andb_true_r by done.
  destruct (decide (v_status v = Active)) as [Hv|Hv]; [rewrite bool_decide_true by done|rewrite bool_decide_false by done].
  - assert (exact (with_active (active_validators s ++ [v_index v]) (total_stake s) (with_validator (v_index v) v s))) as Hex.
    { split; [by apply NoDup_snoc|]. intros j.
      rewrite is_active_with_active, is_active_insert. simpl. rewrite elem_of_app, list_elem_of_singleton, Ha, (bool_decide_true (v_status v = Active)) by done.
      destruct (decide (v_index v = j)) as [->|]; [rewrite bool_decide_true by done; tauto|]. rewrite bool_decide_false by done.
      split; [intros [?|?]; congruence|auto]. }
    unfold sbind, sput, slift, smodify. destruct (unwrap _); [|exact Hex..]. destruct Hex as [Hnd' Ha']. by split.
  - split; [done|]. intros j. simpl. rewrite is_active_insert, Ha. rewrite (bool_decide_false (v_status v = Active)) by done.
    case_bool_decide; [|done]. subst. unfold is_active. by rewrite Hi.
Qed.
Lemma remove_exact i s : exact s -> exact (remove_validator i s).2.
Proof.
  intros [Hnd Ha]. unfold remove_validator. rewrite sbind_get. destruct (validators s !! i) as [v|] eqn:Hi; [|done].
  assert (forall j, is_active (mkSet (delete i (validators s)) (active_validators s) (total_stake s) (set_epoch s) (shuffling_seed s)) j =
    if bool_decide (i = j) then false else is_active s j) as Hdel.
  { intros j. unfold is_active. simpl. case_bool_decide; [subst; by rewrite lookup_delete_eq|by rewrite lookup_delete_ne]. }
  unfold sbind at 1. simpl. destruct (decide (i ∈ active_validators s)) as [Hin|Hin];
    [rewrite bool_decide_true by done|rewrite bool_decide_false by done].
  - assert (exact (with_active (remove_first i (active_validators s)) (total_stake s)
      (mkSet (delete i (validators s)) (active_validators s) (total_stake s) (set_epoch s) (shuffling_seed s)))) as Hex.
    { split; [eapply sublist_NoDup; [done|apply remove_first_sublist]|]. intros j.
      rewrite is_active_with_active, Hdel. simpl. rewrite remove_first_elem, Ha by done.
      case_bool_decide; naive_solver. }
    unfold sbind, slift, smodify. destruct (unwrap _); [|exact Hex..]. destruct Hex as [Hnd' Ha']. by split.
  - split; [done|]. intros j. rewrite Hdel. simpl. rewrite Ha. case_bool_decide; [subst|done]. rewrite <- Ha. done.
Qed.
Lemma slash_exact i e s : exact s -> exact (slash_validator i e s).2.
Proof.
  intros Hs. apply (update_status_exact i (Slashed e)) in Hs. unfold slash_validator, sbind at 1.
  destruct (update_validator_status i (Slashed e) s) as [[[]| | |] s1]; simpl in Hs |- *; [|done..].
  rewrite sbind_get. destruct (validators s1 !! i) as [v|] eqn:Hi; [|done]. unfold sbind, slift, smodify.
  destruct (unwrap (u_div _ _)) as [penalty| | |]; [|done..]. destruct (unwrap (u_sub (v_stake v) _)) as [rest| | |]; [|done..].
  assert (exact (with_validator i (with_stake rest v) s1)) as Hex by by eapply exact_same_activity.
  destruct (unwrap _); [|exact Hex..]. destruct Hex. by split.
Qed.
Lemma performance_exact i a b s : exact s -> exact (update_performance i a b s).2.
Proof.
  intros Hs. unfold update_performance. rewrite sbind_get. destruct (validators s !! i) as [v|] eqn:Hi; [|done].
  unfold sbind, slift, smodify. destruct (updated_performance a b (v_performance v)); [|done..]. by eapply exact_same_activity.
Qed.
Lemma withdraw_all_exact l s : exact s -> exact (withdraw_all l s).2.
Proof.
  revert s. induction l as [|i l IH]; intros s Hs; [done|]. simpl. apply (update_status_exact i Withdrawn) in Hs.
  unfold sbind. destruct (update_validator_status i Withdrawn s) as [[[]| | |] s1]; simpl in Hs |- *; auto.
Qed.
Definition fresh (s : ValidatorSet) (v : SSFValidator) : Prop := validators s !! v_index v = None.
Lemma run_op_exact o s : exact s -> match o with OpAdd v => fresh s v | _ => True end -> exact (run_op o s).2.
Proof.
  intros Hs Ho. destruct o as [v|i|i st|i a b|i e|i e|e|d seed]; simpl.
  - by apply add_exact.
  - by apply remove_exact.
  - by apply update_status_exact.
  - by apply performance_exact.
  - by apply slash_exact.
  - by apply update_status_exact.
  - unfold process_epoch_transition. rewrite sbind_modify, sbind_get. apply withdraw_all_exact. destruct Hs. by split.
  - destruct Hs. by split.
Qed.

(** * Theorems *)

Lemma is_active_spec s i : is_active s i = true <-> exists v, validators s !! i = Some v /\ v_status v = Active.
Proof.
  unfold is_active. destruct (validators s !! i) as [v|]; [|naive_solver]. rewrite bool_decide_eq_true. naive_solver.
Qed.
Lemma omap_all {A B} (f : A -> option B) l : (forall x, x ∈ l -> is_Some (f x)) -> length (omap f l) = length l.
Proof.
  induction l as [|x l IH]; intros Hall; csimpl; [done|]. destruct (Hall x) as [y ->]; [by left|]. simpl.
  f_equal. apply IH. intros z Hz. apply Hall. by right.
Qed.
Lemma swap_perm l i j : swap l i j ≡ₚ l.
Proof.
  unfold swap. destruct (l !! i) eqn:?; [|done]. destruct (l !! j) eqn:?; [|done]. by apply Permutation_insert_swap.
Qed.
Lemma shuffle_loop_perm draw i l : shuffle_loop draw i l ≡ₚ l.
Proof. revert l. induction i as [|i IH]; intros l; simpl; [done|]. by rewrite IH, swap_perm. Qed.

(** in every set reached by adding validators under new indices and by
    any other calls, the active list holds exactly the validators with the
    status Active, each once, and looking them up drops none; a shuffle
    returns the same validators and keeps the list. *)
Theorem active_set_exact s : reachable fresh s ->
  NoDup (active_validators s) /\
  (forall i, i ∈ active_validators s <-> exists v, validators s !! i = Some v /\ v_status v = Active) /\
  length (get_active_validators s) = length (active_validators s) /\
  forall draw seed, exists l s', shuffle_validators draw seed s = (Ok l, s') /\ l ≡ₚ active_validators s /\
    active_validators s' = active_validators s.
Proof.
  intros Hr. assert (exact s) as [Hnd Ha].
  { induction Hr as [|s o r s' _ IH Ho Hrun _]; [split; [constructor|intros i; split; [by intros ?%not_elem_of_nil|done]]|].
    pose proof (run_op_exact o s IH Ho) as Hex. by rewrite Hrun in Hex. }
  split_and!; [done|intros i; by rewrite Ha, is_active_spec| |].
  - apply omap_all. intros i [v [? _]]%Ha%is_active_spec. by exists v.
  - intros draw seed. unfold shuffle_validators. rewrite sbind_get. eexists _, _. split; [reflexivity|].
    split; [apply shuffle_loop_perm|done].
Qed.

(** ** The total stake *)

Context `{!U256Laws}.
Definition newly_made (s : ValidatorSet) (v : SSFValidator) : Prop := v_status v = Pending /\ U256 (v_stake v).
Definition stakes_ok (s : ValidatorSet) : Prop := total_stake s = 0 /\ map_Forall (fun _ v => U256 (v_stake v)) (validators s).

Lemma stakes_insert s i v : stakes_ok s -> U256 (v_stake v) -> stakes_ok (with_validator i v s).
Proof. intros [Ht Hs] Hv. split; [done|]. by apply map_Forall_insert_2. Qed.
Lemma update_status_stakes i st s : stakes_ok s -> stakes_ok (update_validator_status i st s).2.
Proof.
  intros Hs. unfold update_validator_status. rewrite sbind_get. destruct (validators s !! i) as [v|] eqn:Hi; [|done].
  rewrite sbind_modify. assert (stakes_ok (with_validator i (with_status st v) s)) as Hs' by (apply stakes_insert; [done|by apply (proj2 Hs i v Hi)]).
  destruct Hs'. by repeat case_match.
Qed.
Lemma zero_minus {E} x : U256 x -> unwrap (E := E) (u_sub 0 x) = if x =? 0 then Ok 0 else Panic.
Proof. intros Hx. rewrite sub_law by (done || unfold uint; lia). destruct Hx. case_bool; try lia; [f_equal; lia|done]. Qed.
Lemma withdraw_all_stakes l s : stakes_ok s -> stakes_ok (withdraw_all l s).2.
Proof.
  revert s. induction l as [|i l IH]; intros s Hs; [done|]. simpl. apply (update_status_stakes i Withdrawn) in Hs.
  unfold sbind. destruct (update_validator_status i Withdrawn s) as [[[]| | |] s1]; simpl in Hs |- *; auto.
Qed.
Lemma penalty_ok {E} x : U256 x -> unwrap (E := E) (u_div x 32) = Ok (x / 32) /\ unwrap (E := E) (u_sub x (x / 32)) = Ok (x - x / 32).
Proof.
  intros Hx. destruct Hx. rewrite div_law by (unfold uint; lia). rewrite sub_law by (unfold uint; zlia).
  rewrite (proj2 (Z.leb_le _ _)) by zlia. done.
Qed.
Lemma slash_stakes i e s : stakes_ok s ->
  let '(r, s') := slash_validator i e s in r = Panic \/ stakes_ok s'.
Proof.
  intros Hs. apply (update_status_stakes i (Slashed e)) in Hs. unfold slash_validator, sbind at 1.
  destruct (update_validator_status i (Slashed e) s) as [[[]| | |] s1]; simpl in Hs |- *; [|by right..].
  rewrite sbind_get. destruct (validators s1 !! i) as [v|] eqn:Hi; [|by right]. destruct Hs as [Ht Hs].
  pose proof (Hs i v Hi) as Hv. simpl in Hv. destruct (penalty_ok (E := SSFError) (v_stake v) Hv) as [Hd Hm].
  unfold sbind, slift, smodify. rewrite Hd, Hm, Ht, zero_minus by (destruct Hv; unfold uint; zlia).
  destruct (_ =? 0); [right|by left]. destruct (stakes_insert s1 i (with_stake (v_stake v - v_stake v / 32) v)) as [Ht' Hs']; [by split| |by split].
  simpl. destruct Hv. unfold uint. zlia.
Qed.
Lemma run_op_stakes o s r s' : stakes_ok s -> match o with OpAdd v => newly_made s v | _ => True end ->
  run_op o s = (r, s') -> r <> Panic -> stakes_ok s'.
Proof.
  intros Hs Ho Hrun Hr. assert (let '(r, s') := run_op o s in r = Panic \/ stakes_ok s') as Hok; [|rewrite Hrun in Hok; by destruct Hok].
  clear Hrun. destruct o as [v|i|i st|i a b|i e|i e|e|d seed]; simpl.
  - destruct Ho as [Hp Hv]. unfold add_validator. rewrite sbind_modify, sbind_get.
    rewrite is_active_insert, bool_decide_true, (bool_decide_false (v_status v = Active)) by (done || by rewrite Hp). right. by apply stakes_insert.
  - unfold remove_validator. rewrite sbind_get. destruct (validators s !! i) as [v|] eqn:Hi; [|by right]. destruct Hs as [Ht Hs].
    unfold sbind at 1. simpl. case_bool_decide; [|right; split; [done|by apply map_Forall_delete]].
    unfold sbind, slift, smodify. rewrite Ht, zero_minus by apply (Hs i v Hi).
    destruct (_ =? 0); [right|by left]. split; [done|by apply map_Forall_delete].
  - pose proof (update_status_stakes i st s Hs). destruct (update_validator_status i st s). by right.
  - unfold update_performance. rewrite sbind_get. destruct (validators s !! i) as [v|] eqn:Hi; [|by right].
    unfold sbind, slift, smodify. destruct (updated_performance a b _); [right|by right..]. apply stakes_insert; [done|exact (proj2 Hs i v Hi)].
  - by apply slash_stakes.
  - pose proof (update_status_stakes i (Exiting e) s Hs). unfold initiate_exit. destruct (update_validator_status _ _ s). by right.
  - unfold process_epoch_transition. rewrite sbind_modify, sbind_get. match goal with |- context [withdraw_all ?l ?s1] =>
      pose proof (withdraw_all_stakes l s1) as Hw; destruct (withdraw_all l s1) end. right. apply Hw. destruct Hs. by split.
  - right. destruct Hs. by split.
Qed.

Lemma update_status_keeps i st s v : validators s !! i = Some v ->
  exists s', update_validator_status i st s = (Ok tt, s') /\ validators s' !! i = Some (with_status st v).
Proof.
  intros Hi. unfold update_validator_status. rewrite sbind_get, Hi, sbind_modify.
  repeat case_match; eexists; (split; [reflexivity|]); simpl; by rewrite lookup_insert_eq.
Qed.

(** in every set whose validators came from the constructor the total
    stake is zero, since only an addition of an active validator counts it;
    so slashing a validator with a stake of 32 or more panics, and so does
    removing an active validator that has a stake. *)
Theorem total_stake_stays_zero s i v epoch :
  reachable newly_made s -> validators s !! i = Some v ->
  total_stake s = 0 /\
  (32 <= v_stake v -> (slash_validator i epoch s).1 = Panic) /\
  (i ∈ active_validators s -> 0 < v_stake v -> (remove_validator i s).1 = Panic).
Proof.
  intros Hr Hi. assert (stakes_ok s) as Hok.
  { clear Hi. induction Hr as [|s o r s' _ IH Ho Hrun Hp]; [by split|]. by eapply run_op_stakes. }
  pose proof (update_status_stakes i (Slashed epoch) s Hok) as Hup. destruct Hok as [Ht Hs]. pose proof (Hs i v Hi) as [Hv0 Hv1].
  split_and!; [done|intros H32|].
  - unfold slash_validator, sbind at 1. destruct (update_status_keeps i (Slashed epoch) s v Hi) as (s1 & Heq & Hi1). rewrite Heq in Hup |- *.
    destruct Hup as [Ht1 _]. cbn [snd] in Ht1. rewrite sbind_get, Hi1. destruct (penalty_ok (E := SSFError) (v_stake v)) as [Hd Hm]; [done|].
    unfold sbind, slift, smodify. cbn [v_stake with_status]. rewrite Hd, Hm, Ht1, zero_minus by (unfold uint; zlia).
    by rewrite (proj2 (Z.eqb_neq _ _)) by zlia.
  - intros Hin Hpos. unfold remove_validator. rewrite sbind_get, Hi. unfold sbind, sput, slift, smodify. rewrite bool_decide_true by done.
    rewrite Ht, zero_minus by done. by rewrite (proj2 (Z.eqb_neq _ _)) by lia.
Qed.

(** ** Epochs *)

Lemma sublist_map {A B} (f : A -> B) l k : sublist l k -> sublist (map f l) (map f k).
Proof. induction 1; simpl; by constructor. Qed.
Definition withdrawn (e : Z) (v : SSFValidator) : SSFValidator := if exit_due e v then with_status Withdrawn v else v.
Lemma withdraw_all_spec l s : NoDup l ->
  Forall (fun i => exists v, validators s !! i = Some v /\ v_status v <> Active) l ->
  exists m, withdraw_all l s = (Ok tt, mkSet m (active_validators s) (total_stake s) (set_epoch s) (shuffling_seed s)) /\
    forall j, m !! j = if bool_decide (j ∈ l) then with_status Withdrawn <$> validators s !! j else validators s !! j.
Proof.
  intros Hnd. revert s. induction Hnd as [|i l Hi Hnd IH]; intros s Hall.
  { exists (validators s). split; [by destruct s|done]. }
  apply Forall_cons in Hall as [(v & Hv & Ha) Hall]. simpl.
  assert (update_validator_status i Withdrawn s = (Ok tt, with_validator i (with_status Withdrawn v) s)) as Hup.
  { unfold update_validator_status. rewrite sbind_get, Hv, sbind_modify, bool_decide_false by done. done. }
  rewrite (sbind_ok _ _ _ _ _ Hup). destruct (IH (with_validator i (with_status Withdrawn v) s)) as (m & Hm & Hl).
  { rewrite Forall_forall in Hall |- *. intros j Hj. destruct (Hall j Hj) as (w & ? & ?). exists w. split; [|done].
    simpl. rewrite lookup_insert_ne; [done|]. by intros ->. }
  exists m. split; [done|]. intros j. rewrite Hl. simpl. destruct (decide (j = i)) as [-> |Hj].
  - rewrite lookup_insert_eq, bool_decide_false, bool_decide_true, Hv by (done || by left). done.
  - rewrite lookup_insert_ne by done. by rewrite (bool_decide_ext (j ∈ l) (j ∈ i :: l)) by set_solver.
Qed.

(** an epoch transition always succeeds, sets the epoch, turns exactly the
    exiting validators whose epoch has come into withdrawn ones, and changes
    nothing else. *)
Theorem epoch_withdraws_due e s :
  process_epoch_transition e s =
  (Ok tt, mkSet (withdrawn e <$> validators s) (active_validators s) (total_stake s) e (shuffling_seed s)).
Proof.
  unfold process_epoch_transition. rewrite sbind_modify, sbind_get. cbn [validators].
  set (due := filter _ _). set (s1 := mkSet _ _ _ _ _).
  assert (forall i v, (i, v) ∈ due <-> validators s !! i = Some v /\ exit_due e v = true) as Hdue.
  { intros i v. unfold due. rewrite list_elem_of_filter, elem_of_map_to_list. simpl. rewrite Is_true_true. tauto. }
  assert (forall i, i ∈ map fst due <-> exists v, validators s !! i = Some v /\ exit_due e v = true) as Hin.
  { intros i. rewrite list_elem_of_In, in_map_iff. split.
    - intros ([j v] & <- & ?%list_elem_of_In%Hdue). by exists v.
    - intros (v & Hv%Hdue). exists (i, v). split; [done|by apply list_elem_of_In]. }
  destruct (withdraw_all_spec (map fst due) s1) as (m & -> & Hm).
  { eapply sublist_NoDup; [apply (NoDup_fst_map_to_list (validators s))|]. apply (sublist_map fst), sublist_filter. }
  { apply Forall_forall. intros i (v & Hv & Hd)%Hin. exists v. split; [done|]. unfold exit_due in Hd. by destruct (v_status v). }
  unfold s1. simpl. do 2 f_equal. apply map_eq. intros j. rewrite Hm, lookup_fmap. simpl.
  destruct (validators s !! j) as [v|] eqn:Hj; [|by case_bool_decide]. simpl. unfold withdrawn.
  destruct (exit_due e v) eqn:He.
  - rewrite bool_decide_true; [done|]. apply Hin. by exists v.
  - rewrite bool_decide_false; [done|]. intros (w & Hw & Hd)%Hin. congruence.
Qed.
End set.

(** * Examples *)

Section examples.
#[local] Existing Instance dev_profile.
Definition sample_set : ValidatorSet :=
  mkSet {[1 := with_status Active (validator_new 1 [] [] 64)]} [1] 0 0 (replicate 32 0).
Lemma sample_set_reachable (ok : ValidatorSet -> SSFValidator -> Prop) :
  ok set_new (validator_new 1 [] [] 64) -> reachable ok sample_set.
Proof.
  intros Hok. apply (reach_step ok (run_op (OpAdd (validator_new 1 [] [] 64)) set_new).2 (OpStatus 1 Active) (Ok tt)); [|done|by vm_compute|done].
  by apply (reach_step ok set_new (OpAdd (validator_new 1 [] [] 64)) (Ok tt)); [constructor|..].
Qed.
Lemma active_set_exact_witness : NoDup (active_validators sample_set).
Proof. apply (active_set_exact sample_set). apply sample_set_reachable. vm_compute. reflexivity. Defined.
(** The validator is active with a stake of 64, the total stake is zero. *)
Lemma total_stake_stays_zero_witness :
  total_stake sample_set = 0 /\ (slash_validator 1 5 sample_set).1 = Panic /\ (remove_validator 1 sample_set).1 = Panic.
Proof.
  destruct (total_stake_stays_zero sample_set 1 (with_status Active (validator_new 1 [] [] 64)) 5) as (Ht & Hs & Hr);
    [apply sample_set_reachable; by split|by vm_compute|]. split; [exact Ht|]. split; [by apply Hs|].
  apply Hr; [by left|done].
Defined.
(** Adding a validator again under its index leaves an inactive validator in
    the active list. *)
Example readded_validator_stays_active :
  let s := (add_validator (validator_new 1 [] [] 64) sample_set).2 in
  active_validators s = [1] /\ is_active s 1 = false.
Proof. by vm_compute. Qed.
End examples.

End SsfValidator.
