(* ===== verification/SsfCommittee.v ===== *)
(** Committees of single-slot finality: crates/ssf/src/committee.rs over the
    validator set.  The shuffle of the rand crate, the random scores drawn for
    the validators in turn and [U256::as_u128] are parameters. *)
From stdpp Require Import base list numbers option strings gmap sets.
From Stdlib Require Import ZArith Lia.
From S2P Require Import Prelude U256 F64 SsfValidator.

Module SsfCommittee.
Import F64 SsfValidator.

Record ValidatorInfo := mkInfo { index : Z; pubkey : list Z; stake : Z; info_effectiveness : f64 }.
Inductive CommitteeSelection :=
| Random (seed : list Z)
| StakeWeighted (min_stake : Z)
| PerformanceBased (min_effectiveness : f64)
| Hybrid (stake_weight performance_weight randomness_weight : f64).
Definition selection_default : CommitteeSelection := Hybrid (lit 4 10) (lit 3 10) (lit 3 10).
Record Committee := mkCommittee {
  c_index : Z; members : list ValidatorInfo; c_epoch : Z; c_total_stake : Z; c_selection : CommitteeSelection;
}.
Record CommitteeConfig := mkConfig {
  target_committee_size : Z; max_committees : Z; shuffle_period : Z; selection_strategy : CommitteeSelection;
}.
Definition config_default : CommitteeConfig := mkConfig 128 64 256 selection_default.

(** Code outside the repository: [U256::as_u128] and the random choices that
    follow from a seed. *)
Class Randomness := {
  u_as_u128 : Z -> option Z;
  shuffle_with : list Z -> list SSFValidator -> list SSFValidator;
  random_score : list Z -> nat -> f64;
}.
Class RandomnessLaws `{Randomness} : Prop := {
  as_u128_law a : U256 a -> u_as_u128 a = if a <? 2 ^ 128 then Some a else None;
  shuffle_law seed l : shuffle_with seed l ≡ₚ l;
}.

Section committee.
Context `{Profile} `{U256Ops} `{Randomness}.

(** ** Committee *)

Fixpoint sum_stakes {E} (acc : Z) (l : list ValidatorInfo) : outcome E Z :=
  match l with
  | [] => Ok acc
  | v :: l => let? acc := unwrap (u_add acc (stake v)) in sum_stakes acc l
  end.
Definition committee_new {E} (i : Z) (vs : list ValidatorInfo) : outcome E Committee :=
  let? total := sum_stakes 0 vs in Ok (mkCommittee i vs 0 total selection_default).
Definition committee_size (c : Committee) : Z := len (members c).
Definition get_member (i : Z) (c : Committee) : option ValidatorInfo := snd <$> list_find (fun v => index v = i) (members c).
Definition sum_f64 (l : list f64) : f64 := foldl add (of_Z 0) l.
Definition average_of (c : Committee) : f64 := div (sum_f64 (map info_effectiveness (members c))) (of_Z (len (members c))).
Definition voting_power {E} (c : Committee) : outcome E f64 :=
  let? t := unwrap (u_as_u128 (c_total_stake c)) in
  Ok (mul (div (of_Z t) (of_Z (10 ^ 18))) (average_of c)).
Definition has_quorum {E} (c : Committee) (participating : list Z) : outcome E bool :=
  let? p := sum_stakes 0 (filter (fun v => index v ∈ participating) (members c)) in
  let? p3 := unwrap (u_mul p 3) in
  let? t2 := unwrap (u_mul (c_total_stake c) 2) in
  Ok (t2 <=? p3).
Record CommitteeStats := mkCommitteeStats {
  cs_index : Z; cs_size : Z; cs_total_stake : Z; average_stake : Z; min_stake_of : Z; max_stake_of : Z;
  cs_average_effectiveness : f64; cs_voting_power : f64;
}.
Definition extreme (f : Z -> Z -> Z) (l : list Z) : Z := match l with [] => 0 | x :: l => foldl f x l end.
Definition get_stats {E} (c : Committee) : outcome E CommitteeStats :=
  let? avg := unwrap (u_div (c_total_stake c) (len (members c))) in
  let? power := voting_power c in
  Ok (mkCommitteeStats (c_index c) (len (members c)) (c_total_stake c) avg (extreme Z.min (map stake (members c)))
        (extreme Z.max (map stake (members c))) (average_of c) power).

(** ** CommitteeManager *)

Record CommitteeManager := mkManager {
  committees : list Committee; config : CommitteeConfig; committee_assignments : gmap Z Z;
}.
Definition manager_new (c : CommitteeConfig) : CommitteeManager := mkManager [] c ∅.
Definition committee_count {E} (c : CommitteeConfig) (n : Z) : outcome E Z :=
  let? k := udiv n (target_committee_size c) in Ok (Z.min (Z.max k 1) (max_committees c)).
Definition info_of (eff : f64) (v : SSFValidator) : ValidatorInfo := mkInfo (v_index v) [] (v_stake v) eff.

(** The consecutive parts of the random and of the performance-based
    strategy; the last one takes what is left. *)
Fixpoint parts {E} (vs : list ValidatorInfo) (count per : Z) (is_ : list Z) : outcome E (list Committee) :=
  match is_ with
  | [] => Ok []
  | i :: is_ =>
      let? start := umul 64 i per in
      let? last := usub 64 count 1 in
      let? stop := if i =? last then Ok (len vs) else (let? n := uadd 64 i 1 in umul 64 n per) in
      let? part := slice vs start stop in
      let? c := committee_new i part in
      let? cs := parts vs count per is_ in
      Ok (c :: cs)
  end.
Definition form_parts {E} (c : CommitteeConfig) (vs : list ValidatorInfo) : outcome E (list Committee) :=
  let? count := committee_count c (len vs) in
  let? per := udiv (len vs) count in
  parts vs count per (seqZ 0 count).
Definition form_random_committees {E} (c : CommitteeConfig) (vs : list SSFValidator) (seed : list Z) : outcome E (list Committee) :=
  form_parts c (map (info_of (of_Z 1)) (shuffle_with seed vs)).
Definition mock_effectiveness (v : SSFValidator) : f64 :=
  add (lit 5 10) (div (rem (of_Z (v_index v)) (of_Z 50)) (of_Z 100)).
Definition form_performance_committees {E} (c : CommitteeConfig) (vs : list SSFValidator) (min_eff : f64) :
    outcome E (list Committee) :=
  let scored := filter (fun p : SSFValidator * f64 => le min_eff p.2) (map (fun v => (v, mock_effectiveness v)) vs) in
  let? sorted := sort_falling snd scored in
  form_parts c (map (fun p : SSFValidator * f64 => info_of p.2 p.1) sorted).

Fixpoint weighted_loop {E} (c : CommitteeConfig) (target_stake : Z) (done : list Committee) (current : list ValidatorInfo)
    (current_stake : Z) (vs : list SSFValidator) : outcome E (list Committee) :=
  match vs with
  | [] =>
      if bool_decide (current = []) then Ok done
      else let? k := committee_new (len done) current in Ok (done ++ [k])
  | v :: vs =>
      let current := current ++ [info_of (of_Z 1) v] in
      let? current_stake := unwrap (u_add current_stake (v_stake v)) in
      if (target_stake <=? current_stake) || (target_committee_size c <=? len current) then
        let? k := committee_new (len done) current in
        weighted_loop c target_stake (done ++ [k]) [] 0 vs
      else weighted_loop c target_stake done current current_stake vs
  end.
Definition form_stake_weighted_committees {E} (c : CommitteeConfig) (total : Z) (vs : list SSFValidator) (min_stake : Z) :
    outcome E (list Committee) :=
  let eligible := sort_by_key (fun v => - v_stake v) (filter (fun v => min_stake <= v_stake v) vs) in
  let? count := committee_count c (len eligible) in
  let? target_stake := unwrap (u_div total count) in
  weighted_loop c target_stake [] [] 0 eligible.

(** The score of the [i]-th validator. *)
Fixpoint hybrid_scores {E} (sw pw rw : f64) (seed : list Z) (i : nat) (vs : list SSFValidator) :
    outcome E (list (SSFValidator * f64 * f64)) :=
  match vs with
  | [] => Ok []
  | v :: vs =>
      let? s := unwrap (u_as_u128 (v_stake v)) in
      let stake_score := div (min (div (of_Z s) (of_Z (10 ^ 18))) (of_Z 100)) (of_Z 100) in
      let performance_score := mock_effectiveness v in
      let total := add (add (mul stake_score sw) (mul performance_score pw)) (mul (random_score seed i) rw) in
      let? rest := hybrid_scores sw pw rw seed (S i) vs in
      Ok ((v, total, performance_score) :: rest)
  end.
(** Round robin: the validator at position [i] joins committee [i % count]. *)
Fixpoint deal {A} (count : Z) (i : Z) (l : list A) (cs : list (list A)) : list (list A) :=
  match l with
  | [] => cs
  | x :: l => deal count (i + 1) l (alter (fun c => c ++ [x]) (Z.to_nat (i mod count)) cs)
  end.
Fixpoint number_committees {E} (i : Z) (parts : list (list ValidatorInfo)) : outcome E (list Committee) :=
  match parts with
  | [] => Ok []
  | p :: parts => let? c := committee_new i p in let? cs := number_committees (i + 1) parts in Ok (c :: cs)
  end.
Definition form_hybrid_committees {E} (c : CommitteeConfig) (vs : list SSFValidator) (sw pw rw : f64) (seed : list Z) :
    outcome E (list Committee) :=
  let? scored := hybrid_scores sw pw rw seed 0 vs in
  let? sorted := sort_falling (fun p : SSFValidator * f64 * f64 => p.1.2) scored in
  let? count := committee_count c (len sorted) in
  let infos := map (fun p : SSFValidator * f64 * f64 => info_of p.2 p.1.1) sorted in
  let? _ := if bool_decide (infos = []) then Ok 0 else urem 0 count in
  number_committees 0 (deal count 0 infos (replicate (Z.to_nat count) [])).

Definition assign (cs : list Committee) : gmap Z Z :=
  foldl (fun m p => foldl (fun (m : gmap Z Z) v => <[index v := Z.of_nat p.1]> m) m (members p.2)) ∅ (imap (fun i c => (i, c)) cs).
Notation CM := (SM CommitteeManager SSFError).
Definition form_committees (s : ValidatorSet) (seed : list Z) : CM (list Committee) :=
  let active := get_active_validators s in
  if bool_decide (length active = 0%nat) then sfail (CommitteeError "No active validators")
  else
    let! m := sget in
    let! cs := slift (match selection_strategy (config m) with
      | Random _ => form_random_committees (config m) active seed
      | StakeWeighted min_stake => form_stake_weighted_committees (config m) (total_stake s) active min_stake
      | PerformanceBased min_eff => form_performance_committees (config m) active min_eff
      | Hybrid sw pw rw => form_hybrid_committees (config m) active sw pw rw seed
      end) in
    sput (mkManager cs (config m) (assign cs)) ;;!
    sret cs.
Definition get_validator_committee (i : Z) (m : CommitteeManager) : option Z := committee_assignments m !! i.
Definition get_committee (i : Z) (m : CommitteeManager) : option Committee := committees m !! Z.to_nat i.
Definition needs_reshuffle {E} (current last : Z) (m : CommitteeManager) : outcome E bool :=
  let? d := usub 64 current last in Ok (shuffle_period (config m) <=? d).
End committee.

End SsfCommittee.
