(* ===== verification/SsfProofs.v ===== *)
(** Committees partition the validators and quorums intersect: the theorems on
    crates/ssf/src/committee.rs. *)
From stdpp Require Import base list numbers option strings gmap sets.
From Stdlib Require Import ZArith Lia.
From S2P Require Import Prelude U256 F64 SsfValidator SsfCommittee.

Module SsfProofs.
Import F64 SsfValidator SsfCommittee.

Section committees.
Context `{Profile} `{!U256Ops} `{!U256Laws} `{!Randomness} `{!RandomnessLaws}.
Implicit Types (vs : list ValidatorInfo) (c : Committee) (cs : list Committee).

(** * Stakes *)

Definition stakes_fit vs : Prop := Forall (fun v => 0 <= stake v) vs /\ zsum stake vs < 2 ^ 256.
Lemma stakes_fit_app vs vs' : stakes_fit (vs ++ vs') <-> Forall (fun v => 0 <= stake v) (vs ++ vs') /\ zsum stake vs + zsum stake vs' < 2 ^ 256.
Proof. unfold stakes_fit. by rewrite zsum_app. Qed.
Lemma stakes_fit_sublist vs vs' : sublist vs vs' -> stakes_fit vs' -> stakes_fit vs.
Proof.
  intros Hsub [Hn Hs]. split; [by eapply sublist_Forall|]. pose proof (zsum_sublist stake _ _ Hsub Hn). lia.
Qed.
Lemma sum_stakes_ok {E} acc vs : 0 <= acc -> Forall (fun v => 0 <= stake v) vs -> acc + zsum stake vs < 2 ^ 256 ->
  sum_stakes (E := E) acc vs = Ok (acc + zsum stake vs).
Proof.
  intros Hacc Hn. revert acc Hacc. induction Hn as [|v vs Hv Hn IH]; intros acc Hacc Hs; simpl in *; [f_equal; lia|].
  pose proof (zsum_nonneg stake _ Hn). rewrite add_law by (unfold uint; lia). rewrite (proj2 (Z.ltb_lt _ _)) by lia.
  simpl. rewrite IH by lia. f_equal. lia.
Qed.
Definition committee_of (i : Z) vs : Committee := mkCommittee i vs 0 (zsum stake vs) selection_default.
Lemma committee_new_ok {E} i vs : stakes_fit vs -> committee_new (E := E) i vs = Ok (committee_of i vs).
Proof. intros [Hn Hs]. unfold committee_new. rewrite sum_stakes_ok by (done || lia). by rewrite Z.add_0_l. Qed.

(** * Quorums *)

Definition present (a : list Z) (v : ValidatorInfo) : Prop := index v ∈ a.
#[export] Instance present_dec a v : Decision (present a v) := decide (index v ∈ a).
Lemma has_quorum_ok {E} i vs (a : list Z) : Forall (fun v => 0 <= stake v) vs -> 3 * zsum stake vs < 2 ^ 256 ->
  has_quorum (E := E) (committee_of i vs) a = Ok (2 * zsum stake vs <=? 3 * zsum stake (filter (present a) vs)).
Proof.
  intros Hn Hs. unfold has_quorum. cbn [members committee_of c_total_stake].
  change (filter (fun v => index v ∈ a) vs) with (filter (present a) vs).
  pose proof (zsum_filter stake (present a) vs Hn). pose proof (zsum_nonneg stake _ (sublist_Forall _ _ _ (sublist_filter (present a) vs) Hn)).
  rewrite sum_stakes_ok; [|done|eapply sublist_Forall; [apply sublist_filter|done]|lia]. rewrite Z.add_0_l. simpl.
  rewrite mul_law by (unfold uint; lia). rewrite (proj2 (Z.ltb_lt _ _)) by lia. simpl.
  rewrite mul_law by (unfold uint; lia). rewrite (proj2 (Z.ltb_lt _ _)) by lia. simpl. do 2 f_equal; lia.
Qed.
Lemma filter_both (f : ValidatorInfo -> Z) (a b : list Z) vs : Forall (fun v => 0 <= f v) vs ->
  zsum f (filter (present a) vs) + zsum f (filter (present b) vs) <=
  zsum f vs + zsum f (filter (fun v => present a v /\ present b v) vs).
Proof.
  induction 1 as [|v vs Hv _ IH]; [done|]. rewrite !filter_cons. simpl.
  destruct (decide (present a v)), (decide (present b v)), (decide (present a v /\ present b v)); simpl; try lia; naive_solver.
Qed.

(** C22: in a committee two groups of participants that both have a quorum
    share validators that hold at least a third of its stake; and whether a
    group has a quorum is decided without overflow as long as three times the
    stake fits 256 bits. *)
Theorem quorums_intersect {E} i vs c (a b : list Z) :
  Forall (fun v => 0 <= stake v) vs -> 3 * zsum stake vs < 2 ^ 256 -> committee_new (E := E) i vs = Ok c ->
  has_quorum (E := E) c a = Ok (2 * zsum stake vs <=? 3 * zsum stake (filter (present a) vs)) /\
  (has_quorum (E := E) c a = Ok true -> has_quorum (E := E) c b = Ok true ->
   zsum stake vs <= 3 * zsum stake (filter (fun v => present a v /\ present b v) vs) /\
   (0 < zsum stake vs -> exists v, v ∈ vs /\ index v ∈ a /\ index v ∈ b)).
Proof.
  intros Hn Hs Hc. assert (stakes_fit vs) as Hfit by (split; [done|pose proof (zsum_nonneg stake _ Hn); lia]).
  rewrite committee_new_ok in Hc by done. injection Hc as <-. split; [by apply has_quorum_ok|]. rewrite !has_quorum_ok by done.
  intros [= Ha%Z.leb_le] [= Hb%Z.leb_le]. pose proof (filter_both stake a b vs Hn) as Hab. split; [lia|]. intros Hpos.
  destruct (filter (fun v => present a v /\ present b v) vs) as [|v l] eqn:Hf; [simpl in Hab; lia|].
  assert (v ∈ filter (fun v => present a v /\ present b v) vs) as Hv by (rewrite Hf; left).
  apply list_elem_of_filter in Hv as [[? ?] ?]. by exists v.
Qed.

(** * Consecutive parts *)

Lemma slice_range {E A} (l : list A) a b : 0 <= a <= b -> b <= len l ->
  slice (E := E) l a b = Ok (take (Z.to_nat (b - a)) (drop (Z.to_nat a) l)).
Proof.
  intros Hab Hb. unfold slice. by rewrite (proj2 (Z.leb_le 0 a)), (proj2 (Z.leb_le a b)), (proj2 (Z.leb_le b (len l))) by lia.
Qed.
Definition counted cs : Prop := Forall (fun c => c_total_stake c = zsum stake (members c)) cs.
Definition all_members cs : list ValidatorInfo := concat (map members cs).

Lemma parts_ok {E} vs count per (k : nat) i :
  stakes_fit vs -> 0 < count -> 0 <= per -> count * per <= len vs -> len vs <= isize_max -> count <= isize_max ->
  0 <= i -> i + Z.of_nat (S k) = count ->
  exists cs, parts (E := E) vs count per (seqZ i (Z.of_nat (S k))) = Ok cs /\
    all_members cs = drop (Z.to_nat (i * per)) vs /\ counted cs.
Proof.
  intros Hfit Hc Hp Hcp Hl Hcm. revert i. unfold isize_max in *. induction k as [|k IH]; intros i Hi Hk.
  - rewrite seqZ_cons by lia. simpl parts. assert (0 <= i * per <= count * per) by nia.
    unfold umul, usub. exact_arith.
    rewrite (proj2 (Z.eqb_eq _ _)) by lia. simpl. rewrite slice_range by lia. simpl.
    rewrite committee_new_ok by (eapply stakes_fit_sublist; [|done]; etrans; [apply sublist_take|apply sublist_drop]).
    simpl. eexists. split; [reflexivity|]. split; [|by repeat constructor]. unfold all_members. simpl.
    rewrite app_nil_r. apply take_ge. rewrite length_drop. unfold len. lia.
  - rewrite seqZ_cons by lia. replace (Z.pred (Z.of_nat (S (S k)))) with (Z.of_nat (S k)) by lia.
    destruct (IH (Z.succ i)) as (cs & Hcs & Hm & Hcount); [lia..|]. simpl parts.
    assert (0 <= i * per <= (i + 1) * per /\ (i + 1) * per <= count * per) by nia.
    unfold umul, usub, uadd. exact_arith.
    rewrite (proj2 (Z.eqb_neq _ _)) by lia. exact_arith. simpl obind. rewrite slice_range by lia. cbn [obind].
    rewrite committee_new_ok by (eapply stakes_fit_sublist; [|done]; etrans; [apply sublist_take|apply sublist_drop]).
    cbn [obind]. rewrite Hcs. eexists. split; [reflexivity|]. split; [|by constructor].
    unfold all_members in *. simpl. rewrite Hm. replace (Z.to_nat (Z.succ i * per)) with (Z.to_nat (i * per) + Z.to_nat ((i + 1) * per - i * per))%nat by lia.
    rewrite <- drop_drop. apply take_drop.
Qed.
Definition good_config (g : CommitteeConfig) : Prop := 0 < target_committee_size g /\ 0 < max_committees g <= isize_max.
Lemma committee_count_ok {E} g n : good_config g -> 0 <= n ->
  exists k, committee_count (E := E) g n = Ok k /\ 0 < k <= isize_max.
Proof.
  intros [Ht Hm] Hn. unfold committee_count, udiv. rewrite (proj2 (Z.eqb_neq _ _)) by lia. simpl.
  eexists. split; [reflexivity|]. lia.
Qed.
Lemma form_parts_ok {E} g vs : good_config g -> stakes_fit vs -> len vs <= isize_max ->
  exists cs, form_parts (E := E) g vs = Ok cs /\ all_members cs = vs /\ counted cs.
Proof.
  intros Hg Hfit Hl. unfold form_parts. pose proof (len_nonneg vs).
  destruct (committee_count_ok (E := E) g (len vs) Hg) as (k & -> & Hk); [done|]. simpl.
  unfold udiv. rewrite (proj2 (Z.eqb_neq _ _)) by lia. simpl.
  destruct (parts_ok (E := E) vs k (len vs / k) (Z.to_nat (k - 1)) 0) as (cs & Hcs & Hm & Hc); try done; try lia.
  { apply Z.div_pos; lia. }
  { apply Z.mul_div_le. lia. }
  rewrite Nat2Z.inj_succ, Z2Nat.id in Hcs by lia. replace (Z.succ (k - 1)) with k in Hcs by lia. by exists cs.
Qed.

(** * Committees of weighted stake *)

Lemma weighted_loop_ok {E} g target done_ current (l : list SSFValidator) :
  stakes_fit (current ++ map (info_of (of_Z 1)) l) -> counted done_ ->
  exists cs, weighted_loop (E := E) g target done_ current (zsum stake current) l = Ok cs /\
    all_members cs = all_members done_ ++ current ++ map (info_of (of_Z 1)) l /\ counted cs.
Proof.
  assert (forall cs c, all_members (cs ++ [c]) = all_members cs ++ members c) as Hsnoc.
  { intros cs c. unfold all_members. rewrite map_app, concat_app. simpl. by rewrite app_nil_r. }
  assert (forall cs c, counted cs -> c_total_stake c = zsum stake (members c) -> counted (cs ++ [c])) as Hcs.
  { intros cs c ? ?. apply Forall_app. split; [done|]. by constructor. }
  revert done_ current. induction l as [|v l IH]; intros done_ current Hfit Hc; simpl in *.
  - rewrite app_nil_r in *. case_bool_decide as Hne; [subst; exists done_; by rewrite app_nil_r|].
    rewrite committee_new_ok by done. simpl. eexists. split; [reflexivity|]. rewrite Hsnoc. split; [done|]. by apply Hcs.
  - set (current' := current ++ [info_of (of_Z 1) v]).
    assert (stakes_fit (current' ++ map (info_of (of_Z 1)) l)) as Hfit' by (unfold current'; by rewrite <- app_assoc).
    assert (stakes_fit current') as Hcur by (eapply stakes_fit_sublist; [by apply sublist_inserts_r|exact Hfit']).
    pose proof Hcur as [Hn Hs]. unfold current' in Hn, Hs. rewrite zsum_snoc in Hs. apply Forall_app in Hn as [Hn Hv]. apply Forall_cons in Hv as [Hv _]. simpl in Hv, Hs.
    pose proof (zsum_nonneg stake _ Hn). rewrite add_law by (unfold uint; lia). rewrite (proj2 (Z.ltb_lt _ _)) by lia. simpl.
    replace (zsum stake current + v_stake v) with (zsum stake current') by (unfold current'; rewrite zsum_snoc; done).
    destruct (_ || _).
    + rewrite committee_new_ok by done. simpl. destruct (IH (done_ ++ [committee_of (len done_) current']) []) as (cs & Hcs' & Hm & Hc').
      { eapply stakes_fit_sublist; [|exact Hfit']. by apply sublist_inserts_l. }
      { by apply Hcs. }
      exists cs. split; [done|]. split; [|done]. rewrite Hm, Hsnoc. simpl. unfold current'. by rewrite <- !app_assoc.
    + destruct (IH done_ current' Hfit' Hc) as (cs & Hcs' & Hm & Hc'). exists cs. split; [done|]. split; [|done].
      rewrite Hm. unfold current'. by rewrite <- app_assoc.
Qed.

(** * Hybrid committees *)

Lemma hybrid_scores_keep {E} sw pw rw seed n l r : hybrid_scores (E := E) sw pw rw seed n l = Ok r -> map (fun p => p.1.1) r = l.
Proof.
  revert n r. induction l as [|v l IH]; intros n r; simpl; [by intros [= <-]|].
  intros (? & _ & (rest & Hrest & [= <-])%obind_ok)%obind_ok. simpl. f_equal. by eapply IH.
Qed.
Lemma concat_alter {A} (x : A) i (ps : list (list A)) : (i < length ps)%nat ->
  concat (alter (fun p : list A => p ++ [x]) i ps) ≡ₚ x :: concat ps.
Proof.
  revert i. induction ps as [|p ps IH]; intros [|i] Hi; simpl in *; try lia.
  - rewrite <- app_assoc. simpl. symmetry. apply Permutation_middle.
  - change (list_alter (fun p => p ++ [x]) i ps) with (alter (fun p => p ++ [x]) i ps). rewrite IH by lia. symmetry. apply Permutation_middle.
Qed.
Lemma deal_perm {A} count i (l : list A) ps : 0 < count -> length ps = Z.to_nat count ->
  concat (deal count i l ps) ≡ₚ l ++ concat ps.
Proof.
  intros Hc. revert i ps. induction l as [|x l IH]; intros i ps Hl; simpl; [done|].
  rewrite IH by by rewrite length_alter. pose proof (Z.mod_pos_bound i count Hc).
  rewrite concat_alter by lia. symmetry. apply Permutation_middle.
Qed.
Lemma number_committees_members {E} i ps cs : Forall stakes_fit ps -> number_committees (E := E) i ps = Ok cs ->
  map members cs = ps /\ counted cs.
Proof.
  revert i cs. induction ps as [|p ps IH]; intros i cs; simpl; [intros _ [= <-]; split; [done|constructor]|]. intros [Hp Hps]%Forall_cons.
  rewrite committee_new_ok by done. simpl. intros (cs' & Hcs & [= <-])%obind_ok.
  destruct (IH _ _ Hps Hcs) as [<- Hc]. split; [done|]. by constructor.
Qed.
Lemma fit_concat (ps : list (list ValidatorInfo)) : stakes_fit (concat ps) -> Forall stakes_fit ps.
Proof.
  induction ps as [|p ps IH]; intros Hfit; [done|]. simpl in Hfit. constructor.
  - eapply stakes_fit_sublist; [|exact Hfit]. by apply sublist_inserts_r.
  - apply IH. eapply stakes_fit_sublist; [|exact Hfit]. by apply sublist_inserts_l.
Qed.
#[export] Instance stakes_fit_perm : Proper ((≡ₚ) ==> iff) stakes_fit.
Proof. intros l k Hp. unfold stakes_fit. by rewrite Hp. Qed.

(** * Assignments *)

Definition assigned cs : list (Z * Z) := concat (imap (fun k c => map (fun v => (index v, Z.of_nat k)) (members c)) cs).
Lemma foldl_insert_pairs (l : list (Z * Z)) i k : NoDup l.*1 ->
  foldl (fun (m : gmap Z Z) p => <[p.1 := p.2]> m) ∅ l !! i = Some k <-> (i, k) ∈ l.
Proof.
  induction l as [|[j w] l IH] using rev_ind; [intros _; simpl; rewrite lookup_empty; set_solver|]. rewrite fmap_app. simpl.
  intros (Hnd & Hj & _)%NoDup_app. rewrite foldl_app. simpl. rewrite elem_of_app, list_elem_of_singleton.
  destruct (decide (j = i)) as [->|Hne].
  - rewrite lookup_insert_eq. split; [intros [= ->]; by right|]. intros [Hin|[= ->]]; [|done].
    destruct (Hj i); [|by left]. apply list_elem_of_fmap. by exists (i, k).
  - rewrite lookup_insert_ne, IH by done. split; [by left|]. intros [?|[= ? ?]]; [done|congruence].
Qed.
Lemma assign_pairs cs : assign cs = foldl (fun (m : gmap Z Z) p => <[p.1 := p.2]> m) ∅ (assigned cs).
Proof.
  unfold assign, assigned. generalize (∅ : gmap Z Z) as m.
  assert (forall (f : nat -> nat) m, foldl (fun m p => foldl (fun (m : gmap Z Z) v => <[index v := Z.of_nat p.1]> m) m (members p.2)) m (imap (fun k c => (f k, c)) cs) =
    foldl (fun (m : gmap Z Z) p => <[p.1 := p.2]> m) m (concat (imap (fun k c => map (fun v => (index v, Z.of_nat (f k))) (members c)) cs))) as Hgen.
  { induction cs as [|c cs IH]; intros f m; simpl; [done|]. rewrite foldl_app.
    rewrite (IH (fun k => f (S k))). f_equal. generalize m. induction (members c) as [|v vs IHv]; intros m'; simpl; [done|]. apply IHv. }
  intros m. apply (Hgen (fun k => k)).
Qed.
Lemma assigned_elem cs i k : (i, k) ∈ assigned cs <-> 0 <= k /\ exists c, cs !! Z.to_nat k = Some c /\ i ∈ map index (members c).
Proof.
  unfold assigned. rewrite list_elem_of_In, in_concat. split.
  - intros (l & Hl & Hin). apply list_elem_of_In, elem_of_lookup_imap in Hl as (n & c & -> & Hc).
    apply in_map_iff in Hin as (v & [= <- <-] & Hv). split; [lia|]. exists c. rewrite Nat2Z.id. split; [done|]. apply list_elem_of_In. by apply in_map.
  - intros (Hk & c & Hc & Hi). eexists. split.
    + apply list_elem_of_In, elem_of_lookup_imap. exists (Z.to_nat k), c. split; [reflexivity|done].
    + apply list_elem_of_In, in_map_iff in Hi as (v & <- & Hv). apply in_map_iff. exists v. split; [|done]. by rewrite Z2Nat.id.
Qed.
Lemma assigned_keys cs : (assigned cs).*1 = map index (all_members cs).
Proof.
  unfold assigned, all_members. assert (forall f : nat -> nat,
    (concat (imap (fun k c => map (fun v => (index v, Z.of_nat (f k))) (members c)) cs)).*1 = map index (concat (map members cs))) as Hgen.
  { induction cs as [|c cs IH]; intros f; simpl; [done|]. rewrite fmap_app, map_app. f_equal; [|apply (IH (fun k => f (S k)))].
    induction (members c) as [|v vs IHv]; simpl; [done|]. by f_equal. }
  apply (Hgen (fun k => k)).
Qed.

(** * Forming committees *)

(** Who takes part under a strategy. *)
Definition eligible (st : CommitteeSelection) (l : list SSFValidator) : list SSFValidator :=
  match st with
  | Random _ | Hybrid _ _ _ => l
  | StakeWeighted m => filter (fun v => m <= v_stake v) l
  | PerformanceBased e => filter (fun v => le e (mock_effectiveness v)) l
  end.
Definition info_key (v : ValidatorInfo) : Z * Z := (index v, stake v).
Definition validator_key (v : SSFValidator) : Z * Z := (v_index v, v_stake v).
Definition form_by (g : CommitteeConfig) (total : Z) (l : list SSFValidator) (seed : list Z) : outcome SSFError (list Committee) :=
  match selection_strategy g with
  | Random _ => form_random_committees g l seed
  | StakeWeighted m => form_stake_weighted_committees g total l m
  | PerformanceBased e => form_performance_committees g l e
  | Hybrid sw pw rw => form_hybrid_committees g l sw pw rw seed
  end.
Definition active_ok (l : list SSFValidator) : Prop :=
  Forall (fun v => 0 <= v_stake v) l /\ zsum v_stake l < 2 ^ 256 /\ len l <= isize_max.
#[export] Instance active_ok_perm : Proper ((≡ₚ) ==> iff) active_ok.
Proof. intros l k Hp. unfold active_ok, len. by rewrite Hp. Qed.
Lemma active_ok_sublist l k : sublist l k -> active_ok k -> active_ok l.
Proof.
  intros Hsub (Hn & Hs & Hl). split_and!; [by eapply sublist_Forall| |].
  - pose proof (zsum_sublist v_stake _ _ Hsub Hn). lia.
  - apply sublist_length in Hsub. unfold len in *. lia.
Qed.
(** [vs] are the infos of [l], each with some effectiveness. *)
Definition infos_of vs (l : list SSFValidator) : Prop := map info_key vs = map validator_key l.
Lemma infos_fit vs l : infos_of vs l -> active_ok l -> stakes_fit vs /\ len vs <= isize_max.
Proof.
  intros Hi (Hn & Hs & Hl). assert (map stake vs = map v_stake l) as Hst.
  { apply (f_equal (map snd)) in Hi. by rewrite !map_map in Hi. }
  assert (zsum stake vs = zsum v_stake l /\ (Forall (fun v => 0 <= stake v) vs <-> Forall (fun v => 0 <= v_stake v) l) /\ length vs = length l) as (Hz & Hf & Hlen).
  { clear Hi Hn Hs Hl. revert l Hst. induction vs as [|v vs IH]; intros [|w l] Hst; try done. injection Hst as Hv Hst.
    destruct (IH l Hst) as (? & ? & ?). simpl. rewrite !Forall_cons, Hv. split_and!; [lia|tauto|lia]. }
  unfold stakes_fit, len in *. rewrite Hz, Hf, Hlen. done.
Qed.
Lemma map_infos {A} (f : A -> ValidatorInfo) (g : A -> SSFValidator) l : (forall x, info_key (f x) = validator_key (g x)) ->
  infos_of (map f l) (map g l).
Proof. intros Hfg. unfold infos_of. rewrite !map_map. by apply map_ext. Qed.

Lemma form_random_ok g l seed : good_config g -> active_ok l ->
  exists cs, form_random_committees (E := SSFError) g l seed = Ok cs /\ counted cs /\
    map info_key (all_members cs) ≡ₚ map validator_key l.
Proof.
  intros Hg Hok. unfold form_random_committees. pose proof (shuffle_law seed l) as Hp.
  rewrite <- Hp in Hok. pose proof (map_infos (info_of (of_Z 1)) id (shuffle_with seed l) ltac:(done)) as Hi. rewrite map_id in Hi.
  destruct (infos_fit _ _ Hi Hok) as [Hfit Hl]. destruct (form_parts_ok (E := SSFError) g _ Hg Hfit Hl) as (cs & -> & Hm & Hc).
  exists cs. split_and!; [done|done|]. by rewrite Hm, Hi, Hp.
Qed.
Lemma form_weighted_ok g total l m : good_config g -> U256 total -> active_ok l ->
  exists cs, form_stake_weighted_committees (E := SSFError) g total l m = Ok cs /\ counted cs /\
    map info_key (all_members cs) ≡ₚ map validator_key (filter (fun v => m <= v_stake v) l).
Proof.
  intros Hg Ht Hok. unfold form_stake_weighted_committees. set (el := sort_by_key _ _).
  assert (el ≡ₚ filter (fun v => m <= v_stake v) l) as Hp by apply sort_by_key_perm.
  assert (active_ok el) as Hok' by (rewrite Hp; eapply active_ok_sublist; [apply sublist_filter|done]).
  destruct (committee_count_ok (E := SSFError) g (len el) Hg (len_nonneg _)) as (k & -> & Hk). simpl.
  rewrite div_law by (done || unfold isize_max, uint in *; lia). rewrite (proj2 (Z.eqb_neq _ _)) by lia. simpl.
  pose proof (map_infos (info_of (of_Z 1)) id el ltac:(done)) as Hi. rewrite map_id in Hi. destruct (infos_fit _ _ Hi Hok') as [Hfit _].
  destruct (weighted_loop_ok (E := SSFError) g (total / k) [] [] el Hfit) as (cs & Hcs & Hm & Hc); [constructor|].
  exists cs. split_and!; [done|done|]. by rewrite Hm, Hi, Hp.
Qed.
Lemma form_performance_keep g l e cs : good_config g -> active_ok l -> form_performance_committees (E := SSFError) g l e = Ok cs ->
  counted cs /\ map info_key (all_members cs) ≡ₚ map validator_key (filter (fun v => le e (mock_effectiveness v)) l).
Proof.
  intros Hg Hok (sorted & Hs%sort_falling_perm & Hf)%obind_ok.
  assert (map fst (filter (fun p : SSFValidator * f64 => le e p.2) (map (fun v => (v, mock_effectiveness v)) l)) =
    filter (fun v => le e (mock_effectiveness v)) l) as Hfst.
  { clear Hs Hok. induction l as [|v l IH]; [done|]. simpl. rewrite !filter_cons. simpl. destruct (decide _); simpl; by rewrite IH. }
  assert (map fst sorted ≡ₚ filter (fun v => le e (mock_effectiveness v)) l) as Hp by by rewrite <- Hfst, Hs.
  assert (active_ok (map fst sorted)) as Hok' by (rewrite Hp; eapply active_ok_sublist; [apply sublist_filter|done]).
  pose proof (map_infos (fun p : SSFValidator * f64 => info_of p.2 p.1) fst sorted ltac:(done)) as Hi.
  destruct (infos_fit _ _ Hi Hok') as [Hfit Hl]. destruct (form_parts_ok (E := SSFError) g _ Hg Hfit Hl) as (cs' & Hcs' & Hm & Hc).
  rewrite Hcs' in Hf. injection Hf as <-. split; [done|]. by rewrite Hm, Hi, Hp.
Qed.
Lemma form_hybrid_keep g l sw pw rw seed cs : good_config g -> active_ok l ->
  form_hybrid_committees (E := SSFError) g l sw pw rw seed = Ok cs ->
  counted cs /\ map info_key (all_members cs) ≡ₚ map validator_key l.
Proof.
  intros Hg Hok (scored & Hsc%hybrid_scores_keep & (sorted & Hs%sort_falling_perm & Hf)%obind_ok)%obind_ok.
  destruct (committee_count_ok (E := SSFError) g (len sorted) Hg (len_nonneg _)) as (k & Hk & Hkb). rewrite Hk in Hf. simpl in Hf.
  apply obind_ok in Hf as (? & _ & Hf). set (infos := map _ sorted) in *.
  assert (map (fun p : SSFValidator * f64 * f64 => p.1.1) sorted ≡ₚ l) as Hp by by rewrite <- Hsc, Hs.
  pose proof (map_infos (fun p : SSFValidator * f64 * f64 => info_of p.2 p.1.1) (fun p => p.1.1) sorted ltac:(done)) as Hi. fold infos in Hi.
  assert (active_ok (map (fun p : SSFValidator * f64 * f64 => p.1.1) sorted)) as Hok' by by rewrite Hp.
  destruct (infos_fit _ _ Hi Hok') as [Hfit _].
  assert (concat (deal k 0 infos (replicate (Z.to_nat k) [])) ≡ₚ infos) as Hdeal.
  { rewrite deal_perm by (lia || by rewrite length_replicate). rewrite <- (app_nil_r infos) at 2. f_equiv.
    clear. induction (Z.to_nat k); simpl; done. }
  apply number_committees_members in Hf as [Hm Hc]; [|apply fit_concat; by rewrite Hdeal].
  split; [done|]. unfold all_members. by rewrite Hm, Hdeal, Hi, Hp.
Qed.
Lemma form_by_keep g total l seed cs : good_config g -> U256 total -> active_ok l -> form_by g total l seed = Ok cs ->
  counted cs /\ map info_key (all_members cs) ≡ₚ map validator_key (eligible (selection_strategy g) l).
Proof.
  intros Hg Ht Hok. unfold form_by. destruct (selection_strategy g) as [?|m|e|sw pw rw]; simpl.
  - destruct (form_random_ok g l seed Hg Hok) as (cs' & -> & ? & ?). by intros [= <-].
  - destruct (form_weighted_ok g total l m Hg Ht Hok) as (cs' & -> & ? & ?). by intros [= <-].
  - by apply form_performance_keep.
  - by apply form_hybrid_keep.
Qed.

(** when committees are formed, every active validator the strategy admits
    is in exactly one of them with its stake and no one else is, each
    committee counts the stake of its members, and the assignments name the
    committee of each member and nothing else.  The random and the
    stake-weighted strategy always form committees. *)
Theorem committees_partition s seed m :
  good_config (config m) -> U256 (total_stake s) -> active_ok (get_active_validators s) ->
  get_active_validators s <> [] ->
  (match selection_strategy (config m) with Random _ | StakeWeighted _ => True | _ => False end ->
   exists cs m', form_committees s seed m = (Ok cs, m')) /\
  forall cs m', form_committees s seed m = (Ok cs, m') ->
    map info_key (all_members cs) ≡ₚ map validator_key (eligible (selection_strategy (config m)) (get_active_validators s)) /\
    counted cs /\ committees m' = cs /\
    (NoDup (map index (all_members cs)) -> forall i k, get_validator_committee i m' = Some k <->
      0 <= k /\ exists c, cs !! Z.to_nat k = Some c /\ i ∈ map index (members c)).
Proof.
  intros Hg Ht Hok Hne. set (l := get_active_validators s) in *.
  assert (form_committees s seed m = (let! cs := slift (form_by (config m) (total_stake s) l seed) in
    sput (mkManager cs (config m) (assign cs)) ;;! sret cs) m) as ->.
  { unfold form_committees. fold l. rewrite bool_decide_false by by destruct l. by rewrite sbind_get. }
  split.
  - intros Hst. assert (exists cs, form_by (config m) (total_stake s) l seed = Ok cs) as [cs Hcs].
    { unfold form_by. destruct (selection_strategy (config m)) as [?|mn| |]; try done.
      - destruct (form_random_ok (config m) l seed Hg Hok) as (cs & ? & _). by exists cs.
      - destruct (form_weighted_ok (config m) (total_stake s) l mn Hg Ht Hok) as (cs & ? & _). by exists cs. }
    rewrite Hcs. by eexists _, _.
  - intros cs m' Hrun. unfold sbind at 1, slift in Hrun. destruct (form_by _ _ _ _) as [cs0| | |] eqn:Hf; try done.
    injection Hrun as <- <-. destruct (form_by_keep _ _ _ _ _ Hg Ht Hok Hf) as [Hc Hp]. split_and!; [done|done|done|].
    intros Hnd i k. unfold get_validator_committee. simpl. rewrite assign_pairs, foldl_insert_pairs by by rewrite assigned_keys.
    apply assigned_elem.
Qed.
End committees.

(** * Examples *)

Section examples.
#[local] Existing Instance dev_profile.
#[local] Instance sample_randomness : Randomness := {|
  u_as_u128 a := if a <? 2 ^ 128 then Some a else None;
  shuffle_with _ l := rev l;
  random_score _ _ := lit 5 10;
|}.
#[local] Instance sample_randomness_laws : RandomnessLaws.
Proof. split; [done|]. intros seed l. symmetry. apply Permutation_rev. Qed.
Definition sample_validators (n : nat) : list SSFValidator :=
  map (fun i => with_status Active (validator_new (Z.of_nat i) [] [] 32)) (seq 0 n).
Definition sample_validator_set (n : nat) (total : Z) : ValidatorSet :=
  mkSet (list_to_map (map (fun v => (v_index v, v)) (sample_validators n))) (map v_index (sample_validators n)) total 0 (replicate 32 0).
Definition sample_manager (st : CommitteeSelection) : CommitteeManager := manager_new (mkConfig 2 2 256 st).
Lemma committees_partition_witness :
  exists cs m', form_committees (sample_validator_set 5 160) [] (sample_manager (Random [])) = (Ok cs, m') /\
    map info_key (all_members cs) ≡ₚ map validator_key (sample_validators 5).
Proof.
  destruct (committees_partition (sample_validator_set 5 160) [] (sample_manager (Random []))) as [Hex Hkeep];
    [split_and!; by vm_compute|split; by vm_compute|split_and!; [vm_compute; by repeat constructor|by vm_compute..]|by vm_compute|].
  destruct (Hex I) as (cs & m' & Hcs). exists cs, m'. split; [exact Hcs|]. apply (Hkeep cs m' Hcs).
Defined.
Example sample_committees :
  (let '(r, _) := form_committees (sample_validator_set 5 160) [] (sample_manager (Random [])) in
   match r with Ok cs => map (fun c => map index (members c)) cs | _ => [] end) = [[4; 3]; [2; 1; 0]].
Proof. by vm_compute. Qed.
(** With the total stake at zero every validator becomes a committee of its
    own, past the maximal number of committees. *)
Example zero_total_singletons :
  (let '(r, _) := form_committees (sample_validator_set 5 0) [] (sample_manager (StakeWeighted 1)) in
   match r with Ok cs => map (fun c => map index (members c)) cs | _ => [] end) = [[0]; [1]; [2]; [3]; [4]].
Proof. by vm_compute. Qed.
Example sample_hybrid :
  (let '(r, _) := form_committees (sample_validator_set 5 160) [] (sample_manager selection_default) in
   match r with Ok cs => map (fun c => map index (members c)) cs | _ => [] end) = [[4; 2; 0]; [3; 1]].
Proof. by vm_compute. Qed.

Definition sample_infos : list ValidatorInfo := map (fun i => mkInfo i [] 10 (of_Z 1)) [1; 2; 3].
Lemma quorums_intersect_witness :
  exists c, committee_new (E := SSFError) 0 sample_infos = Ok c /\ has_quorum (E := SSFError) c [1; 2] = Ok true /\
    exists v, v ∈ sample_infos /\ index v ∈ [1; 2] /\ index v ∈ [2; 3].
Proof.
  eexists. split; [vm_compute; reflexivity|]. split; [vm_compute; reflexivity|].
  apply (quorums_intersect (E := SSFError) 0 sample_infos (mkCommittee 0 sample_infos 0 30 selection_default) [1; 2] [2; 3]);
    [by vm_compute; repeat constructor|by vm_compute..].
Defined.
End examples.

End SsfProofs.
