(* ===== verification/HistoryExpiry.v ===== *)
(** History expiry: crates/history-expiry/src/pruning.rs and
    expiry_manager.rs.  The chain the [Storage] trait gives access to, the
    archive, the portal network, the cron crate and the clock are parameters;
    the sizes and the pruning of the storage are the ones of the blanket
    implementation in pruning.rs.  Times and durations are nanoseconds. *)
From stdpp Require Import base list numbers option strings gmap.
From Stdlib Require Import ZArith Lia Sorted.
From S2P Require Import Prelude.

Module HistoryExpiry.

Inductive HistoryExpiryError :=
| ExpiryFailed (s : string) | ArchivalError (s : string) | RetrievalError (s : string)
| PortalNetworkError (s : string) | PruningError (s : string).

(** * pruning.rs *)

(** ** The blanket implementation of [StoragePruning] *)

Definition storage_prune_blocks (blocks : list Z) : Z := len blocks.
Definition get_block_size (n : Z) : option Z := Some 2000000.
Definition get_total_size : Z := 100000000000.

Inductive PruningPolicy :=
| Conservative (verify_backup : bool) (batch_size : Z)
| Aggressive (parallel_workers : Z) (skip_verification : bool)
| Incremental (blocks_per_cycle cycle_delay_ms : Z)
| Smart (keep_frequently_accessed : bool) (access_threshold : Z).
Definition policy_default : PruningPolicy := Conservative true 100.
Record PruningOperation := mkOperation { blocks_to_prune : list Z; op_blocks_pruned : Z; estimated_size : Z }.
Record PruningMetrics := mkPruningMetrics { m_blocks_pruned : Z; m_bytes_freed : Z; pruning_operations : Z; pruning_failures : Z }.
Record PruningEngine := mkEngine {
  pruning_policy : PruningPolicy;
  is_pruning : bool; last_pruned_block : Z; total_pruned : Z; total_freed_bytes : Z;
  current_operation : option PruningOperation;
  block_access_count : gmap Z Z;
  pruning_metrics : PruningMetrics;
}.
Definition engine_new (p : PruningPolicy) : PruningEngine := mkEngine p false 0 0 0 None ∅ (mkPruningMetrics 0 0 0 0).
Record PruneResult := mkPruneResult { blocks_pruned : Z; bytes_freed : Z }.

(** [chunks(n)], which panics for [n = 0]. *)
Fixpoint chunks_fuel {A} (fuel n : nat) (l : list A) : list (list A) :=
  match fuel with
  | O => []
  | S fuel => match l with [] => [] | _ => take n l :: chunks_fuel fuel n (drop n l) end
  end.
Definition chunks {E A} (n : Z) (l : list A) : outcome E (list (list A)) :=
  if n =? 0 then Panic else Ok (chunks_fuel (length l) (Z.to_nat n) l).

Section history.
Context `{Profile} {B : Type}.

(** The chain behind [Storage]: the number of the latest block and the blocks;
    [None] is an error of the storage, [Some None] a missing block. *)
Class ChainStorage := {
  latest_block_number : Z + string;
  block_by_number : Z -> option (option B);
  block_timestamp : B -> Z;
}.
Context `{!ChainStorage}.

Notation PM := (SM PruningEngine HistoryExpiryError).
Fixpoint size_of_blocks {E} (acc : Z) (blocks : list Z) : outcome E Z :=
  match blocks with
  | [] => Ok acc
  | n :: blocks =>
      match get_block_size n with
      | Some size => let? acc := uadd 64 acc size in size_of_blocks acc blocks
      | None => size_of_blocks acc blocks
      end
  end.
Definition on_operation (f : PruningOperation -> outcome HistoryExpiryError PruningOperation) : PM unit :=
  let! e := sget in
  match current_operation e with
  | Some op =>
      let! op := slift (f op) in
      smodify (fun e => mkEngine (pruning_policy e) (is_pruning e) (last_pruned_block e) (total_pruned e) (total_freed_bytes e)
        (Some op) (block_access_count e) (pruning_metrics e))
  | None => sret tt
  end.
(** The backup of every block is verified ([verify_block_backed_up] answers
    yes), and a block without one would only be logged. *)
Fixpoint conservative_loop (r : PruneResult) (batches : list (list Z)) : PM PruneResult :=
  match batches with
  | [] => sret r
  | batch :: batches =>
      let! size := slift (size_of_blocks 0 batch) in
      let pruned := storage_prune_blocks batch in
      let! n := slift (uadd 64 (blocks_pruned r) pruned) in
      let! freed := slift (uadd 64 (bytes_freed r) size) in
      on_operation (fun op =>
        let? n := uadd 64 (op_blocks_pruned op) pruned in
        let? s := uadd 64 (estimated_size op) size in
        Ok (mkOperation (blocks_to_prune op) n s)) ;;!
      conservative_loop (mkPruneResult n freed) batches
  end.
Definition prune_conservative (blocks : list Z) (batch_size : Z) : PM PruneResult :=
  let! batches := slift (chunks batch_size blocks) in
  conservative_loop (mkPruneResult 0 0) batches.
(** One worker; [get_block_by_number] of a missing block is no error. *)
Definition prune_worker {E} (skip_verification : bool) (blocks : list Z) : outcome E (Z * Z) :=
  if negb skip_verification && existsb (fun n => bool_decide (block_by_number n = None)) blocks then Ok (0, 0)
  else let? size := size_of_blocks 0 blocks in Ok (storage_prune_blocks blocks, size).
(** A worker that panics is logged and left out. *)
Fixpoint join_workers {E} (r : PruneResult) (results : list (outcome HistoryExpiryError (Z * Z))) : outcome E PruneResult :=
  match results with
  | [] => Ok r
  | Ok (n, s) :: results =>
      let? n := uadd 64 (blocks_pruned r) n in
      let? s := uadd 64 (bytes_freed r) s in
      join_workers (mkPruneResult n s) results
  | _ :: results => join_workers r results
  end.
Definition prune_aggressive (blocks : list Z) (workers : Z) (skip_verification : bool) : PM PruneResult :=
  slift (
    let? n := uadd 64 (len blocks) workers in
    let? n := usub 64 n 1 in
    let? size := udiv n workers in
    let? cs := chunks size blocks in
    join_workers (mkPruneResult 0 0) (map (prune_worker skip_verification) cs)).
Fixpoint incremental_loop {E} (r : PruneResult) (cs : list (list Z)) : outcome E PruneResult :=
  match cs with
  | [] => Ok r
  | c :: cs =>
      let? size := size_of_blocks 0 c in
      let? n := uadd 64 (blocks_pruned r) (storage_prune_blocks c) in
      let? freed := uadd 64 (bytes_freed r) size in
      incremental_loop (mkPruneResult n freed) cs
  end.
Definition prune_incremental (blocks : list Z) (per_cycle : Z) : PM PruneResult :=
  slift (let? cs := chunks per_cycle blocks in incremental_loop (mkPruneResult 0 0) cs).
Definition rarely_accessed (threshold : Z) (e : PruningEngine) (n : Z) : bool := default 0 (block_access_count e !! n) <? threshold.
Definition prune_smart (blocks : list Z) (keep : bool) (threshold : Z) : PM PruneResult :=
  let! e := sget in
  prune_conservative (if keep then filter (fun n => rarely_accessed threshold e n) blocks else blocks) 100.
Definition prune_by_policy (p : PruningPolicy) (blocks : list Z) : PM PruneResult :=
  match p with
  | Conservative _ n => prune_conservative blocks n
  | Aggressive w skip => prune_aggressive blocks w skip
  | Incremental n _ => prune_incremental blocks n
  | Smart keep t => prune_smart blocks keep t
  end.

Definition set_pruning (b : bool) (op : option PruningOperation) (e : PruningEngine) : PruningEngine :=
  mkEngine (pruning_policy e) b (last_pruned_block e) (total_pruned e) (total_freed_bytes e) op (block_access_count e) (pruning_metrics e).
Definition bump (x y : Z) : Z := wrap 64 (x + y).
Definition largest (l : list Z) : Z := match l with [] => 0 | x :: l => foldl Z.max x l end.
(** [prune_blocks]: an error of a policy is counted and returned. *)
Definition prune_blocks (blocks : list Z) : PM PruneResult :=
  let! e := sget in
  if is_pruning e then sfail (PruningError "Pruning already in progress")
  else
    sput (set_pruning true (Some (mkOperation blocks 0 0)) e) ;;!
    fun e =>
      let '(r, e) := prune_by_policy (pruning_policy e) blocks e in
      match r with
      | Ok res =>
          (smodify (set_pruning false None) ;;!
           let! e := sget in
           let! n := slift (uadd 64 (total_pruned e) (blocks_pruned res)) in
           let! f := slift (uadd 64 (total_freed_bytes e) (bytes_freed res)) in
           smodify (fun e => mkEngine (pruning_policy e) (is_pruning e)
             (if 0 <? blocks_pruned res then largest blocks else last_pruned_block e) n f (current_operation e) (block_access_count e)
             (mkPruningMetrics (bump (m_blocks_pruned (pruning_metrics e)) (blocks_pruned res))
                (bump (m_bytes_freed (pruning_metrics e)) (bytes_freed res)) (bump (pruning_operations (pruning_metrics e)) 1)
                (pruning_failures (pruning_metrics e)))) ;;!
           sret res) e
      | Err x =>
          (Err x, mkEngine (pruning_policy e) false (last_pruned_block e) (total_pruned e) (total_freed_bytes e)
             None (block_access_count e)
             (mkPruningMetrics (m_blocks_pruned (pruning_metrics e)) (m_bytes_freed (pruning_metrics e))
                (pruning_operations (pruning_metrics e)) (bump (pruning_failures (pruning_metrics e)) 1)))
      | Panic => (Panic, e)
      | Diverge => (Diverge, e)
      end.
Definition record_access (n : Z) : PM unit :=
  let! e := sget in
  let! k := slift (uadd 64 (default 0 (block_access_count e !! n)) 1) in
  smodify (fun e => mkEngine (pruning_policy e) (is_pruning e) (last_pruned_block e) (total_pruned e) (total_freed_bytes e)
    (current_operation e) (<[n := k]> (block_access_count e)) (pruning_metrics e)).
Definition cleanup_access_patterns (pruned : list Z) : PM unit :=
  smodify (fun e => mkEngine (pruning_policy e) (is_pruning e) (last_pruned_block e) (total_pruned e) (total_freed_bytes e)
    (current_operation e) (foldl (fun m n => delete n m) (block_access_count e) pruned) (pruning_metrics e)).

(** ** What the engine reports, its times aside *)

Record OperationStatus := mkOperationStatus { os_total_blocks : Z; os_blocks_pruned : Z; os_estimated_size : Z }.
Record PruningStatus := mkPruningStatus {
  ps_is_pruning : bool; ps_last_pruned_block : Z; ps_total_pruned : Z; ps_total_freed_bytes : Z;
  ps_current_operation : option OperationStatus;
}.
Definition get_status (e : PruningEngine) : PruningStatus :=
  mkPruningStatus (is_pruning e) (last_pruned_block e) (total_pruned e) (total_freed_bytes e)
    ((fun op => mkOperationStatus (len (blocks_to_prune op)) (op_blocks_pruned op) (estimated_size op)) <$> current_operation e).
Definition pruning_get_stats (e : PruningEngine) : PruningMetrics := pruning_metrics e.

(** * expiry_manager.rs *)

Inductive ExpiryPolicy :=
| AgeBased (max_age : Z)
| BlockBased (blocks_to_keep : Z)
| SizeBased (max_size_gb : Z)
| HybridPolicy (max_age max_blocks max_size_gb : Z)
| Scheduled (cron_expression : string).
Definition year : Z := 365 * 24 * 60 * 60 * 10 ^ 9.
Definition expiry_policy_default : ExpiryPolicy := HybridPolicy year 1000000 100.
Record ExpiryConfig := mkExpiryConfig {
  expiry_period : Z; min_blocks_retained : Z; auto_expiry : bool; check_interval : Z;
  archive_before_expiry : bool; portal_distribution : bool; policy : ExpiryPolicy;
}.
Definition expiry_config_default : ExpiryConfig :=
  mkExpiryConfig year 128 true (3600 * 10 ^ 9) true true expiry_policy_default.

(** The archive and the portal network: each call answers and changes the
    world outside; [cron_due] says whether the next time of a schedule has
    come, or that the expression is invalid. *)
Class ExpiryBackend (W : Type) := {
  backend_archive_blocks : list B -> W -> bool * W;
  backend_distribute_block : B -> W -> bool * W;
  cron_due : string -> bool + string;
}.
Context {W : Type} `{!ExpiryBackend W}.

Record ExpiryMetrics := mkExpiryMetrics { em_blocks_expired : Z; em_bytes_freed : Z; archival_success : Z; archival_failures : Z }.
Record Manager := mkExpiryManager {
  expiry_config : ExpiryConfig; pruning_engine : PruningEngine;
  last_expired_block : Z; total_expired_blocks : Z; total_expired_size : Z; is_expiring : bool;
  expiry_metrics : ExpiryMetrics; world : W;
}.
Definition expiry_manager_new (c : ExpiryConfig) (w : W) : Manager :=
  mkExpiryManager c (engine_new policy_default) 0 0 0 false (mkExpiryMetrics 0 0 0 0) w.
Notation EM := (SM Manager HistoryExpiryError).

(** ** What expires *)

Definition get_latest {E'} (k : Z -> outcome HistoryExpiryError E') : outcome HistoryExpiryError E' :=
  match latest_block_number with
  | inl n => k n
  | inr e => Err (ExpiryFailed e)
  end.
(** [UNIX_EPOCH.checked_add]: the seconds of a system time are an [i64]. *)
Definition block_time (b : B) : option Z :=
  if block_timestamp b <? 2 ^ 63 then Some (block_timestamp b * 10 ^ 9) else None.
Fixpoint by_age_loop (cutoff : Z) (numbers : list Z) : list Z :=
  match numbers with
  | [] => []
  | n :: numbers =>
      match block_by_number n with
      | Some (Some b) =>
          match block_time b with
          | Some t => if t <? cutoff then n :: by_age_loop cutoff numbers else []
          | None => by_age_loop cutoff numbers
          end
      | _ => by_age_loop cutoff numbers
      end
  end.
(** [SystemTime - Duration], which panics below the least [i64] of seconds. *)
Definition time_sub {E} (now d : Z) : outcome E Z := if now - d <? - 2 ^ 63 * 10 ^ 9 then Panic else Ok (now - d).
Definition identify_by_age (c : ExpiryConfig) (now max_age : Z) : outcome HistoryExpiryError (list Z) :=
  let? cutoff := time_sub now max_age in
  get_latest (fun latest =>
    if min_blocks_retained c <? latest then Ok (by_age_loop cutoff (seqZ 0 (latest - min_blocks_retained c)))
    else Ok []).
Definition identify_by_block_count (c : ExpiryConfig) (blocks_to_keep : Z) : outcome HistoryExpiryError (list Z) :=
  get_latest (fun latest =>
    let keep := Z.max blocks_to_keep (min_blocks_retained c) in
    if latest <=? keep then Ok [] else Ok (seqZ 0 (latest - keep))).
Fixpoint by_size_loop (fuel : nat) (c : ExpiryConfig) (to_free freed n : Z) (acc : list Z) : outcome HistoryExpiryError (list Z) :=
  match fuel with
  | O => Diverge
  | S fuel =>
      if freed <? to_free then
        let? p := match get_block_size n with
                  | Some size => let? f := uadd 64 freed size in Ok (acc ++ [n], f)
                  | None => Ok (acc, freed)
                  end in
        let? n := uadd 64 n 1 in
        get_latest (fun latest =>
          let? d := usub 64 latest n in
          if d <? min_blocks_retained c then Ok p.1 else by_size_loop fuel c to_free p.2 n p.1)
      else Ok acc
  end.
Definition identify_by_size (fuel : nat) (c : ExpiryConfig) (max_size_gb : Z) : outcome HistoryExpiryError (list Z) :=
  let? max_size := umul 64 max_size_gb 1073741824 in
  if get_total_size <=? max_size then Ok []
  else by_size_loop fuel c (get_total_size - max_size) 0 0 [].
(** [sort_unstable] and [dedup]. *)
Fixpoint dedup (l : list Z) : list Z :=
  match l with
  | x :: (y :: _) as rest => if x =? y then dedup rest else x :: dedup rest
  | _ => l
  end.
Definition identify_hybrid (fuel : nat) (c : ExpiryConfig) (now max_age max_blocks max_size_gb : Z) :
    outcome HistoryExpiryError (list Z) :=
  let? by_age := identify_by_age c now max_age in
  let? by_count := identify_by_block_count c max_blocks in
  let? by_size := identify_by_size fuel c max_size_gb in
  Ok (dedup (sort_by_key id (by_age ++ by_count ++ by_size))).
Definition identify_by_schedule (c : ExpiryConfig) (now : Z) (cron : string) : outcome HistoryExpiryError (list Z) :=
  match cron_due cron with
  | inl true => identify_by_age c now (expiry_period c)
  | inl false => Ok []
  | inr e => Err (ExpiryFailed ("Invalid cron: " +:+ e))
  end.
Definition identify_blocks_to_expire (fuel : nat) (c : ExpiryConfig) (now : Z) : outcome HistoryExpiryError (list Z) :=
  match policy c with
  | AgeBased a => identify_by_age c now a
  | BlockBased k => identify_by_block_count c k
  | SizeBased g => identify_by_size fuel c g
  | HybridPolicy a k g => identify_hybrid fuel c now a k g
  | Scheduled cron => identify_by_schedule c now cron
  end.

(** ** Expiring *)

Definition set_expiring (b : bool) (m : Manager) : Manager :=
  mkExpiryManager (expiry_config m) (pruning_engine m) (last_expired_block m) (total_expired_blocks m) (total_expired_size m)
    b (expiry_metrics m) (world m).
Definition with_world (f : ExpiryMetrics -> ExpiryMetrics) (w : W) (m : Manager) : Manager :=
  mkExpiryManager (expiry_config m) (pruning_engine m) (last_expired_block m) (total_expired_blocks m) (total_expired_size m)
    (is_expiring m) (f (expiry_metrics m)) w.
Definition count_archived (ok : bool) (n : Z) (x : ExpiryMetrics) : ExpiryMetrics :=
  if ok then mkExpiryMetrics (em_blocks_expired x) (em_bytes_freed x) (bump (archival_success x) n) (archival_failures x)
  else mkExpiryMetrics (em_blocks_expired x) (em_bytes_freed x) (archival_success x) (bump (archival_failures x) n).
Definition stored_blocks (numbers : list Z) : list B :=
  omap (fun n => match block_by_number n with Some (Some b) => Some b | _ => None end) numbers.
Fixpoint archive_chunks (cs : list (list Z)) : EM unit :=
  match cs with
  | [] => sret tt
  | c :: cs =>
      let! m := sget in
      (let '(ok, w) := backend_archive_blocks (stored_blocks c) (world m) in
       sput (with_world (count_archived ok (len c)) w m)) ;;!
      archive_chunks cs
  end.
Definition archive_blocks (numbers : list Z) : EM unit :=
  let! cs := slift (chunks 100 numbers) in archive_chunks cs.
Fixpoint distribute_to_portal (numbers : list Z) : EM unit :=
  match numbers with
  | [] => sret tt
  | n :: numbers =>
      (match block_by_number n with
       | Some (Some b) => smodify (fun m => with_world id (backend_distribute_block b (world m)).2 m)
       | _ => sret tt
       end) ;;!
      distribute_to_portal numbers
  end.
Definition manager_prune_blocks (numbers : list Z) : EM PruneResult := fun m =>
  let '(r, e) := prune_blocks numbers (pruning_engine m) in
  (r, mkExpiryManager (expiry_config m) e (last_expired_block m) (total_expired_blocks m) (total_expired_size m)
        (is_expiring m) (expiry_metrics m) (world m)).
Definition perform_expiry (fuel : nat) (now : Z) : EM unit :=
  let! m := sget in
  let! numbers := slift (identify_blocks_to_expire fuel (expiry_config m) now) in
  match last numbers with
  | None => sret tt
  | Some latest_expired =>
      (if archive_before_expiry (expiry_config m) then archive_blocks numbers else sret tt) ;;!
      (if portal_distribution (expiry_config m) then distribute_to_portal numbers else sret tt) ;;!
      let! pruned := manager_prune_blocks numbers in
      smodify (fun m => mkExpiryManager (expiry_config m) (pruning_engine m) (last_expired_block m) (total_expired_blocks m)
        (total_expired_size m) (is_expiring m)
        (mkExpiryMetrics (bump (em_blocks_expired (expiry_metrics m)) (blocks_pruned pruned))
           (bump (em_bytes_freed (expiry_metrics m)) (bytes_freed pruned)) (archival_success (expiry_metrics m))
           (archival_failures (expiry_metrics m))) (world m)) ;;!
      let! m := sget in
      let! n := slift (uadd 64 (total_expired_blocks m) (blocks_pruned pruned)) in
      let! f := slift (uadd 64 (total_expired_size m) (bytes_freed pruned)) in
      smodify (fun m => mkExpiryManager (expiry_config m) (pruning_engine m) latest_expired n f (is_expiring m)
        (expiry_metrics m) (world m))
  end.
Definition check_and_expire (fuel : nat) (now : Z) : EM unit :=
  let! m := sget in
  if is_expiring m then sret tt
  else
    smodify (set_expiring true) ;;!
    fun m =>
      let '(r, m) := perform_expiry fuel now m in
      match r with
      | Ok _ | Err _ => (r, set_expiring false m)
      | _ => (r, m)
      end.
Record ExpiryStats := mkExpiryStats {
  st_last_expired_block : Z; st_total_expired_blocks : Z; st_total_expired_size : Z; st_blocks_expired : Z;
  st_bytes_freed : Z; st_archival_success : Z; st_archival_failures : Z;
}.
Definition expiry_get_stats (m : Manager) : ExpiryStats :=
  mkExpiryStats (last_expired_block m) (total_expired_blocks m) (total_expired_size m) (em_blocks_expired (expiry_metrics m))
    (em_bytes_freed (expiry_metrics m)) (archival_success (expiry_metrics m)) (archival_failures (expiry_metrics m)).
End history.

End HistoryExpiry.
