(* ===== verification/HistoryProofs.v ===== *)
(** What expires and what pruning reports: the theorems on
    crates/history-expiry. *)
From stdpp Require Import base list numbers option strings gmap.
From Stdlib Require Import ZArith Lia Sorted.
From S2P Require Import Prelude HistoryExpiry.

Module HistoryProofs.
Import HistoryExpiry.

Section history.
Context `{Profile} {B : Type} `{!ChainStorage (B := B)}.

(** * Pruning *)

Definition BLOCK_SIZE : Z := 2000000.
Lemma chunks_concat {A} fuel n (l : list A) : (0 < n)%nat -> (length l <= fuel)%nat -> concat (chunks_fuel fuel n l) = l.
Proof.
  intros Hn. revert l. induction fuel as [|fuel IH]; intros l Hl; simpl; [destruct l; [done|simpl in Hl; lia]|].
  destruct l as [|x l]; [done|]. change (concat (take n (x :: l) :: chunks_fuel fuel n (drop n (x :: l))) = x :: l). simpl concat.
  rewrite IH; [apply take_drop|]. rewrite length_drop. simpl in *. lia.
Qed.
Lemma chunks_ok {E A} n (l : list A) : 0 < n -> exists cs, chunks (E := E) n l = Ok cs /\ concat cs = l.
Proof.
  intros Hn. unfold chunks. rewrite (proj2 (Z.eqb_neq _ _)) by lia. eexists. split; [reflexivity|].
  apply chunks_concat; [lia|done].
Qed.
Lemma size_of_blocks_ok {E} acc l : 0 <= acc -> acc + BLOCK_SIZE * len l < 2 ^ 64 ->
  size_of_blocks (E := E) acc l = Ok (acc + BLOCK_SIZE * len l).
Proof.
  revert acc. induction l as [|n l IH]; intros acc Ha Hs; simpl; [f_equal; unfold len; simpl; lia|].
  rewrite len_cons in *. pose proof (len_nonneg l). unfold BLOCK_SIZE in *. unfold uadd. rewrite checked_arith_ok by (unfold uint; lia). simpl.
  rewrite IH by lia. f_equal. lia.
Qed.
(** The result of pruning [k] blocks. *)
Definition pruned (k : Z) : PruneResult := mkPruneResult k (BLOCK_SIZE * k).
Lemma incremental_ok {E} k cs : 0 <= k -> BLOCK_SIZE * (k + len (concat cs)) < 2 ^ 64 ->
  incremental_loop (E := E) (pruned k) cs = Ok (pruned (k + len (concat cs))).
Proof.
  revert k. induction cs as [|c cs IH]; intros k Hk Hs; simpl; [unfold len; simpl; by rewrite Z.add_0_r|].
  simpl in Hs. rewrite len_app in *. pose proof (len_nonneg c). pose proof (len_nonneg (concat cs)). unfold BLOCK_SIZE in *.
  rewrite size_of_blocks_ok by (unfold BLOCK_SIZE; lia). simpl. unfold uadd, storage_prune_blocks.
  cbn [pruned blocks_pruned bytes_freed]. unfold BLOCK_SIZE. exact_arith. cbn [obind].
  replace (mkPruneResult _ _) with (pruned (k + len c)) by (unfold pruned, BLOCK_SIZE; f_equal; lia).
  rewrite IH by lia. do 2 f_equal. lia.
Qed.
Lemma conservative_ok k cs e op : current_operation e = Some op -> 0 <= k -> BLOCK_SIZE * (k + len (concat cs)) < 2 ^ 64 ->
  op_blocks_pruned op = k -> estimated_size op = BLOCK_SIZE * k ->
  conservative_loop (pruned k) cs e =
    (Ok (pruned (k + len (concat cs))),
     set_pruning (is_pruning e) (Some (mkOperation (blocks_to_prune op) (k + len (concat cs)) (BLOCK_SIZE * (k + len (concat cs))))) e).
Proof.
  revert k e op. induction cs as [|c cs IH]; intros k e op Hop Hk Hs Hn He.
  { simpl. unfold len. simpl. rewrite Z.add_0_r. rewrite <- He, <- Hn. destruct e, op. simpl in *. by subst. }
  simpl in Hs |- *. rewrite len_app in *. pose proof (len_nonneg c). pose proof (len_nonneg (concat cs)). unfold BLOCK_SIZE in *.
  rewrite size_of_blocks_ok by (unfold BLOCK_SIZE; lia). rewrite sbind_lift. unfold uadd, storage_prune_blocks, BLOCK_SIZE.
  rewrite !checked_arith_ok by (unfold uint; simpl; lia). rewrite !sbind_lift.
  unfold on_operation at 1. rewrite sbind_assoc, sbind_get, Hop, Hn, He. unfold uadd. unfold BLOCK_SIZE. exact_arith. cbn [obind].
  rewrite sbind_assoc, sbind_lift, sbind_modify.
  rewrite Z.add_0_l, <- (Z.mul_add_distr_l 2000000 k (len c)). fold BLOCK_SIZE. change (mkPruneResult (k + len c) (BLOCK_SIZE * (k + len c))) with (pruned (k + len c)).
  unfold BLOCK_SIZE in *. erewrite IH; [|reflexivity|lia|lia|reflexivity|reflexivity]. simpl. rewrite !Z.add_assoc. done.
Qed.

Definition readable (l : list Z) : Prop := Forall (fun n => block_by_number n <> None) l.
Lemma workers_ok {E} k skip cs : 0 <= k -> BLOCK_SIZE * (k + len (concat cs)) < 2 ^ 64 -> skip = true \/ readable (concat cs) ->
  join_workers (E := E) (pruned k) (map (prune_worker skip) cs) = Ok (pruned (k + len (concat cs))).
Proof.
  revert k. induction cs as [|c cs IH]; intros k Hk Hs Hr; simpl; [unfold len; simpl; by rewrite Z.add_0_r|].
  simpl in Hs, Hr. rewrite len_app in *. pose proof (len_nonneg c). pose proof (len_nonneg (concat cs)). unfold BLOCK_SIZE in *.
  assert (negb skip && existsb (fun n => bool_decide (block_by_number n = None)) c = false) as Hskip.
  { destruct Hr as [->|Hr]; [done|]. apply andb_false_intro2. apply Forall_app in Hr as [Hr _].
    apply not_true_iff_false. intros (n & Hn & Hb%bool_decide_eq_true)%existsb_exists. rewrite Forall_forall in Hr.
    by apply (Hr n); [apply list_elem_of_In|]. }
  unfold prune_worker at 1. rewrite Hskip, size_of_blocks_ok by (unfold BLOCK_SIZE; lia). cbn [obind].
  unfold uadd, storage_prune_blocks. cbn [pruned blocks_pruned bytes_freed]. unfold BLOCK_SIZE. exact_arith. cbn [obind].
  replace (mkPruneResult _ _) with (pruned (k + len c)) by (unfold pruned, BLOCK_SIZE; f_equal; lia).
  rewrite IH; [do 2 f_equal; lia|lia|lia|]. destruct Hr as [?|[_ ?]%Forall_app]; auto.
Qed.

(** The blocks a policy prunes, and when it can. *)
Definition selected (p : PruningPolicy) (e : PruningEngine) (l : list Z) : list Z :=
  match p with
  | Smart true t => filter (fun n => rarely_accessed t e n) l
  | _ => l
  end.
Definition can_prune (p : PruningPolicy) (l : list Z) : Prop :=
  match p with
  | Conservative _ n | Incremental n _ => 0 < n
  | Aggressive w skip => 0 < w /\ len l + w < 2 ^ 64 /\ l <> [] /\ (skip = true \/ readable l)
  | Smart _ _ => True
  end.
Lemma prune_conservative_ok l n e op : 0 < n -> BLOCK_SIZE * len l < 2 ^ 64 -> current_operation e = Some op ->
  op_blocks_pruned op = 0 -> estimated_size op = 0 ->
  exists op', prune_conservative l n e = (Ok (pruned (len l)), set_pruning (is_pruning e) op' e).
Proof.
  intros Hn Hs Hop H0 He. unfold prune_conservative.
  destruct (chunks_ok (E := HistoryExpiryError) n l Hn) as (cs & -> & Hc). rewrite sbind_lift.
  change (mkPruneResult 0 0) with (pruned 0). rewrite (conservative_ok 0 cs e op) by (done || by rewrite Hc, Z.add_0_l).
  rewrite Hc, Z.add_0_l. by eexists.
Qed.
Lemma prune_by_policy_ok p l e op : can_prune p l -> BLOCK_SIZE * len l < 2 ^ 64 -> current_operation e = Some op ->
  op_blocks_pruned op = 0 -> estimated_size op = 0 ->
  exists op', prune_by_policy p l e = (Ok (pruned (len (selected p e l))), set_pruning (is_pruning e) op' e).
Proof.
  intros Hp Hs Hop H0 He. assert (exists op', e = set_pruning (is_pruning e) op' e) as [op1 Hid] by (exists (current_operation e); by destruct e).
  destruct p as [v n|w skip|n d|keep t]; cbn [prune_by_policy selected can_prune] in *.
  - by eapply prune_conservative_ok.
  - destruct Hp as (Hw & Hlw & Hne & Hr). unfold prune_aggressive, slift, uadd, usub. pose proof (len_nonneg l).
    assert (0 < len l) by (destruct l; [done|rewrite len_cons; pose proof (len_nonneg l); lia]).
    exact_arith. cbn [obind]. unfold udiv. rewrite (proj2 (Z.eqb_neq _ _)) by lia. cbn [obind].
    destruct (chunks_ok (E := HistoryExpiryError) ((len l + w - 1) / w) l) as (cs & -> & Hc); [zlia|]. cbn [obind].
    change (mkPruneResult 0 0) with (pruned 0). rewrite workers_ok by (done || rewrite Hc; done || rewrite Hc, Z.add_0_l; done).
    rewrite Hc, Z.add_0_l. exists op1. by rewrite <- Hid.
  - unfold prune_incremental, slift. destruct (chunks_ok (E := HistoryExpiryError) n l Hp) as (cs & -> & Hc). cbn [obind].
    change (mkPruneResult 0 0) with (pruned 0). rewrite incremental_ok by (done || by rewrite Hc, Z.add_0_l).
    rewrite Hc, Z.add_0_l. exists op1. by rewrite <- Hid.
  - unfold prune_smart. rewrite sbind_get. destruct keep; [|by eapply prune_conservative_ok].
    eapply prune_conservative_ok; [done| |done..]. pose proof (length_filter (fun n => rarely_accessed t e n) l).
    unfold len, BLOCK_SIZE in *. lia.
Qed.

(** The totals have room for what is pruned. *)
Definition room (k : Z) (e : PruningEngine) : Prop :=
  0 <= total_pruned e /\ total_pruned e + k < 2 ^ 64 /\ 0 <= total_freed_bytes e /\ total_freed_bytes e + BLOCK_SIZE * k < 2 ^ 64.
(** The engine after [k] of the blocks [l] were pruned. *)
Definition after_pruning (k : Z) (l : list Z) (e : PruningEngine) : PruningEngine :=
  mkEngine (pruning_policy e) false (if 0 <? k then largest l else last_pruned_block e)
    (total_pruned e + k) (total_freed_bytes e + BLOCK_SIZE * k) None (block_access_count e)
    (mkPruningMetrics (bump (m_blocks_pruned (pruning_metrics e)) k) (bump (m_bytes_freed (pruning_metrics e)) (BLOCK_SIZE * k))
       (bump (pruning_operations (pruning_metrics e)) 1) (pruning_failures (pruning_metrics e))).
Lemma prune_blocks_ok l e k : k = len (selected (pruning_policy e) e l) ->
  is_pruning e = false -> can_prune (pruning_policy e) l -> BLOCK_SIZE * len l < 2 ^ 64 -> room k e ->
  prune_blocks l e = (Ok (pruned k), after_pruning k l e).
Proof.
  intros Hk Hi Hc Hs (Hp0 & Hp1 & Hf0 & Hf1). unfold prune_blocks. rewrite sbind_get, Hi. unfold sbind at 1, sput.
  set (e1 := set_pruning _ _ e). assert (0 <= k) by (subst; apply len_nonneg).
  destruct (prune_by_policy_ok (pruning_policy e) l e1 (mkOperation l 0 0)) as (op' & Heq); [done..|].
  change (pruning_policy e1) with (pruning_policy e). rewrite Heq.
  assert (selected (pruning_policy e) e1 l = selected (pruning_policy e) e l) as -> by done. rewrite <- Hk.
  rewrite sbind_modify, sbind_get. unfold uadd. unfold BLOCK_SIZE in *.
  rewrite !checked_arith_ok by (unfold uint; simpl; unfold BLOCK_SIZE; lia). rewrite !sbind_lift, sbind_modify. done.
Qed.

Definition with_policy (p : PruningPolicy) (e : PruningEngine) : PruningEngine :=
  mkEngine p (is_pruning e) (last_pruned_block e) (total_pruned e) (total_freed_bytes e) (current_operation e)
    (block_access_count e) (pruning_metrics e).
(** two pruning policies that select the same blocks of a request, in
    whatever batches and with however many workers, leave the engine the same
    and report the same: every selected block pruned, two million bytes freed
    for each, and the engine idle with its totals raised by exactly that. *)
Theorem pruning_policies_agree l e p q :
  let k := len (selected p e l) in
  is_pruning e = false -> selected q e l = selected p e l -> can_prune p l -> can_prune q l ->
  BLOCK_SIZE * len l < 2 ^ 64 -> room k e ->
  exists e', prune_blocks l (with_policy p e) = (Ok (mkPruneResult k (BLOCK_SIZE * k)), with_policy p e') /\
    prune_blocks l (with_policy q e) = (Ok (mkPruneResult k (BLOCK_SIZE * k)), with_policy q e') /\
    is_pruning e' = false /\ current_operation e' = None /\
    total_pruned e' = total_pruned e + k /\ total_freed_bytes e' = total_freed_bytes e + BLOCK_SIZE * k /\
    last_pruned_block e' = (if 0 <? k then largest l else last_pruned_block e) /\
    block_access_count e' = block_access_count e.
Proof.
  intros k Hi Hq Hp Hq' Hs Hr. exists (after_pruning k l e).
  split; [by apply prune_blocks_ok|]. split; [|done]. apply prune_blocks_ok; [|done..]. unfold k. by rewrite <- Hq.
Qed.

(** * What expires *)

Lemma seqZ_sorted n m : StronglySorted Z.lt (seqZ n m).
Proof.
  destruct (Z.le_gt_cases m 0); [rewrite seqZ_nil by lia; constructor|]. rewrite <- (Z2Nat.id m) by lia. generalize (Z.to_nat m) as k.
  clear. intros k. revert n. induction k as [|k IH]; intros n; [constructor|]. rewrite seqZ_cons by lia.
  replace (Z.pred (Z.of_nat (S k))) with (Z.of_nat k) by lia. constructor; [apply IH|]. apply Forall_seqZ. lia.
Qed.
Lemma seqZ_snoc n : 0 <= n -> seqZ 0 (n + 1) = seqZ 0 n ++ [n].
Proof. intros Hn. rewrite <- (Z2Nat.id n), Z.add_1_r, <- Nat2Z.inj_succ by done. apply (seqZ_S 0). Qed.
Lemma sublist_lt_sorted l k : sublist l k -> StronglySorted Z.lt k -> StronglySorted Z.lt l.
Proof.
  induction 1 as [|x l k Hsub IH|x l k Hsub IH]; intros Hk; [done|..]; inversion Hk as [|? ? Hk' Hx]; subst; auto.
  constructor; [auto|]. by eapply sublist_Forall.
Qed.
(** A block that is stored and older than [cutoff]. *)
Definition older (cutoff n : Z) : Prop := exists b t, block_by_number n = Some (Some b) /\ block_time b = Some t /\ t < cutoff.
Lemma by_age_ok cutoff l : sublist (by_age_loop cutoff l) l /\ Forall (older cutoff) (by_age_loop cutoff l).
Proof.
  induction l as [|n l [IH1 IH2]]; simpl; [by repeat constructor|].
  destruct (block_by_number n) as [[b|]|] eqn:Hb; [|by split; [constructor|]..].
  destruct (block_time b) as [t|] eqn:Ht; [|by split; [constructor|]]. case_bool; [|split; [apply sublist_nil_l|constructor]].
  split; [by constructor|]. constructor; [by exists b, t|done].
Qed.
Lemma dedup_elem l n : n ∈ dedup l <-> n ∈ l.
Proof.
  induction l as [|x [|y l] IH]; [done|done|]. cbn [dedup]. destruct (Z.eqb_spec x y).
  - subst. rewrite IH. set_solver.
  - rewrite elem_of_cons, IH. set_solver.
Qed.
Lemma dedup_sorted l : StronglySorted (key_le id) l -> StronglySorted Z.lt (dedup l).
Proof.
  induction l as [|x [|y l] IH]; intros Hs; [constructor|by repeat constructor|].
  change (dedup (x :: y :: l)) with (if x =? y then dedup (y :: l) else x :: dedup (y :: l)).
  inversion Hs as [|? ? Hs' Hx]; subst. destruct (Z.eqb_spec x y); [by apply IH|]. constructor; [by apply IH|].
  apply Forall_forall. intros z Hz. rewrite dedup_elem in Hz. inversion Hs' as [|? ? _ Hy]; subst.
  apply Forall_cons in Hx as [Hxy _]. unfold key_le, id in *. apply elem_of_cons in Hz as [->|Hz]; [lia|].
  rewrite Forall_forall in Hy. specialize (Hy z Hz). simpl in Hy. lia.
Qed.

Section identify.
Context {W : Type} `{!ExpiryBackend (B := B) W} (latest : Z) (Hlatest : latest_block_number = inl latest).
Implicit Types (c : ExpiryConfig).

Lemma get_latest_ok {A} (k : Z -> outcome HistoryExpiryError A) : get_latest k = k latest.
Proof. unfold get_latest. by rewrite Hlatest. Qed.
(** A block number the retained blocks allow, or the first block. *)
Definition may_expire (c : ExpiryConfig) (n : Z) : Prop := 0 <= n /\ (n + min_blocks_retained c <= latest \/ n = 0).
Definition well_kept (c : ExpiryConfig) (l : list Z) : Prop :=
  StronglySorted Z.lt l /\ Forall (fun n => 0 <= n /\ n + min_blocks_retained c < latest) l.
Lemma well_kept_may c l : well_kept c l -> Forall (may_expire c) l.
Proof. intros [_ Hl]. eapply Forall_impl; [exact Hl|]. unfold may_expire. lia. Qed.

(** [now - a] is a time. *)
Definition is_time (now a : Z) : Prop := - 2 ^ 63 * 10 ^ 9 <= now - a.
Lemma identify_by_age_ok c now a : is_time now a ->
  exists l, identify_by_age c now a = Ok l /\ well_kept c l /\ Forall (older (now - a)) l.
Proof.
  unfold identify_by_age, time_sub, is_time. intros ?. rewrite (proj2 (Z.ltb_ge _ _)) by done. cbn [obind]. rewrite get_latest_ok. destruct (_ <? latest); [|exists []; by repeat constructor].
  set (nums := seqZ _ _). destruct (by_age_ok (now - a) nums) as [Hsub Hold]. eexists. split; [reflexivity|]. split; [|done].
  split; [eapply sublist_lt_sorted; [exact Hsub|apply seqZ_sorted]|]. eapply sublist_Forall; [exact Hsub|].
  apply Forall_seqZ. lia.
Qed.
Lemma identify_by_count_ok c k : exists l, identify_by_block_count c k = Ok l /\ well_kept c l.
Proof.
  unfold identify_by_block_count. rewrite get_latest_ok. destruct (latest <=? _); [exists []; by repeat constructor|].
  eexists. split; [reflexivity|]. split; [apply seqZ_sorted|]. apply Forall_seqZ. lia.
Qed.
Lemma by_size_ok fuel c to_free n : 0 < latest < 2 ^ 64 -> 0 < min_blocks_retained c -> to_free <= get_total_size ->
  may_expire c n -> to_free - BLOCK_SIZE * n < BLOCK_SIZE * Z.of_nat fuel ->
  exists k, by_size_loop (S fuel) c to_free (BLOCK_SIZE * n) n (seqZ 0 n) = Ok (seqZ 0 k) /\ forall i, 0 <= i < k -> i < n \/ may_expire c i.
Proof.
  intros Hl Hm Hfree. revert n. induction fuel as [|fuel IH]; intros n [Hn0 Hn] Hf; unfold BLOCK_SIZE, get_total_size in *.
  { exists n. simpl. rewrite (proj2 (Z.ltb_ge _ _)) by lia. split; [done|]. lia. }
  remember (S fuel) as f eqn:Hf'. cbn [by_size_loop]. destruct (Z.ltb_spec (2000000 * n) to_free); [|exists n; split; [done|lia]].
  cbn [get_block_size]. unfold uadd, usub. exact_arith. cbn [obind]. exact_arith. cbn [obind]. rewrite get_latest_ok. exact_arith. cbn [obind fst snd].
  rewrite <- seqZ_snoc by done. destruct (Z.ltb_spec (latest - (n + 1)) (min_blocks_retained c)).
  - exists (n + 1). split; [done|]. intros i Hi. destruct (decide (i = n)) as [->|]; [right; split; [lia|done]|left; lia].
  - subst f. destruct (IH (n + 1)) as (k & Hk & Hi); [split; lia|lia|]. replace (2000000 * n + 2000000) with (2000000 * (n + 1)) by lia.
    exists k. split; [done|]. intros i Hik. destruct (Hi i Hik) as [?|?]; [|by right].
    destruct (decide (i = n)) as [->|]; [right; split; [lia|done]|left; lia].
Qed.
Lemma identify_by_size_ok fuel c g : 0 < latest < 2 ^ 64 -> 0 < min_blocks_retained c -> 0 <= g -> g * 1073741824 < 2 ^ 64 ->
  50001 <= Z.of_nat fuel -> exists l, identify_by_size (S fuel) c g = Ok l /\ StronglySorted Z.lt l /\ Forall (may_expire c) l.
Proof.
  intros Hl Hm Hg Hg' Hf. unfold identify_by_size, umul. rewrite checked_arith_ok by (unfold uint; lia). cbn [obind].
  destruct (_ <=? _); [exists []; by repeat constructor|].
  destruct (by_size_ok fuel c (get_total_size - g * 1073741824) 0) as (k & Hk & Hi); [done|done|lia|split; lia| |].
  { unfold BLOCK_SIZE, get_total_size. lia. }
  exists (seqZ 0 k). split; [exact Hk|]. split; [apply seqZ_sorted|]. apply Forall_seqZ. intros i Hik. destruct (Hi i); [lia|lia|done].
Qed.

(** The schedule can be read, the size limit fits 64 bits and the age limit
    reaches back to a time. *)
Definition policy_ok (c : ExpiryConfig) (now : Z) : Prop :=
  match policy c with
  | AgeBased a => is_time now a
  | BlockBased _ => True
  | SizeBased g => 0 <= g /\ g * 1073741824 < 2 ^ 64
  | HybridPolicy a _ g => is_time now a /\ 0 <= g /\ g * 1073741824 < 2 ^ 64
  | Scheduled cron => is_time now (expiry_period c) /\ exists b, cron_due cron = inl b
  end.
(** identifying the blocks to expire ends for every policy, within 50002
    rounds of the size loop, and lists increasing numbers of blocks.  By age,
    count or schedule the blocks that must be retained are never among them,
    and what expires by age is stored and older than the limit; by size the
    list may hold the first block even when it must be retained. *)
Theorem expired_blocks_are_old fuel c now :
  0 < latest < 2 ^ 64 -> 0 < min_blocks_retained c -> policy_ok c now -> 50001 <= Z.of_nat fuel ->
  exists l, identify_blocks_to_expire (S fuel) c now = Ok l /\ StronglySorted Z.lt l /\
    match policy c with
    | AgeBased a => Forall (fun n => 0 <= n /\ n + min_blocks_retained c < latest) l /\ Forall (older (now - a)) l
    | BlockBased _ | Scheduled _ => Forall (fun n => 0 <= n /\ n + min_blocks_retained c < latest) l
    | SizeBased _ | HybridPolicy _ _ _ => Forall (may_expire c) l
    end.
Proof.
  intros Hl Hm Hp Hf. unfold identify_blocks_to_expire. unfold policy_ok in Hp. destruct (policy c) as [a|k|g|a k g|cron].
  - destruct (identify_by_age_ok c now a Hp) as (l & ? & [? ?] & ?). by exists l.
  - destruct (identify_by_count_ok c k) as (l & ? & ? & ?). by exists l.
  - destruct Hp. by apply identify_by_size_ok.
  - unfold identify_hybrid. destruct (identify_by_age_ok c now a (proj1 Hp)) as (l1 & -> & H1 & _). cbn [obind].
    destruct (identify_by_count_ok c k) as (l2 & -> & H2). cbn [obind].
    destruct (identify_by_size_ok fuel c g) as (l3 & -> & _ & H3); [naive_solver..|]. cbn [obind].
    eexists. split; [reflexivity|]. split; [apply dedup_sorted, sort_by_key_sorted|].
    apply Forall_forall. intros n Hn. rewrite dedup_elem, (sort_by_key_perm id) in Hn.
    apply well_kept_may in H1, H2. rewrite Forall_forall in H1, H2, H3. rewrite !elem_of_app in Hn. naive_solver.
  - unfold identify_by_schedule. destruct Hp as [Ht [[] ->]]; [|exists []; by repeat constructor].
    destruct (identify_by_age_ok c now (expiry_period c) Ht) as (l & ? & [? ?] & _). by exists l.
Qed.

(** * Expiring *)

Implicit Types (m : Manager (W := W)) (x : ExpiryMetrics).
(** What archiving and distributing may change: the world outside, and
    together [k] more blocks counted as archived or as failed. *)
Definition archived (k : Z) m m' : Prop :=
  exists x w, m' = with_world (fun _ => x) w m /\
    em_blocks_expired x = em_blocks_expired (expiry_metrics m) /\ em_bytes_freed x = em_bytes_freed (expiry_metrics m) /\
    (archival_success x + archival_failures x) mod 2 ^ 64 =
      (archival_success (expiry_metrics m) + archival_failures (expiry_metrics m) + k) mod 2 ^ 64.
Lemma archived_refl m : archived 0 m m.
Proof. exists (expiry_metrics m), (world m). rewrite Z.add_0_r. by destruct m. Qed.
Lemma archived_trans i j m m1 m2 : archived i m m1 -> archived j m1 m2 -> archived (i + j) m m2.
Proof.
  intros (x & w & -> & H1 & H2 & H3) (x' & w' & -> & H1' & H2' & H3'). exists x', w'. simpl in *.
  split; [done|]. split; [congruence|]. split; [congruence|].
  rewrite H3', Z.add_assoc, <- Z.add_mod_idemp_l, H3, Z.add_mod_idemp_l by done. done.
Qed.
Lemma count_archived_ok ok k w m : archived k m (with_world (count_archived ok k) w m).
Proof.
  exists (count_archived ok k (expiry_metrics m)), w. split; [done|]. destruct ok; simpl; unfold bump, wrap; (split; [done|]; split; [done|]).
  - rewrite Z.add_mod_idemp_l by done. f_equal. lia.
  - rewrite Z.add_mod_idemp_r by done. f_equal. lia.
Qed.
Lemma archive_chunks_ok cs m : exists m', archive_chunks cs m = (Ok tt, m') /\ archived (len (concat cs)) m m'.
Proof.
  revert m. induction cs as [|c cs IH]; intros m; [exists m; split; [done|apply archived_refl]|]. cbn [archive_chunks].
  rewrite sbind_get. destruct (backend_archive_blocks _ _) as [ok w]. unfold sbind at 1, sput.
  destruct (IH (with_world (count_archived ok (len c)) w m)) as (m' & -> & Hm'). exists m'. split; [done|].
  simpl concat. rewrite len_app. eapply archived_trans; [apply count_archived_ok|done].
Qed.
Lemma archive_blocks_ok l m : exists m', archive_blocks l m = (Ok tt, m') /\ archived (len l) m m'.
Proof.
  unfold archive_blocks. destruct (chunks_ok (E := HistoryExpiryError) 100 l) as (cs & -> & <-); [done|]. rewrite sbind_lift.
  apply archive_chunks_ok.
Qed.
Lemma distribute_ok l m : exists m', distribute_to_portal l m = (Ok tt, m') /\ archived 0 m m'.
Proof.
  revert m. induction l as [|n l IH]; intros m; [exists m; split; [done|apply archived_refl]|]. cbn [distribute_to_portal].
  destruct (block_by_number n) as [[b|]|]; [|apply IH..]. rewrite sbind_modify.
  set (m1 := with_world _ _ m). destruct (IH m1) as (m' & -> & Hm'). exists m'. split; [done|].
  change 0 with (0 + 0). eapply archived_trans; [|done]. eexists (expiry_metrics m), _. split; [reflexivity|]. by rewrite Z.add_0_r.
Qed.
Lemma preparation_ok c l m : exists m',
  ((if archive_before_expiry c then archive_blocks l else sret tt) ;;!
   (if portal_distribution c then distribute_to_portal l else sret tt)) m = (Ok tt, m') /\
  archived (if archive_before_expiry c then len l else 0) m m'.
Proof.
  assert (exists m1, (if archive_before_expiry c then archive_blocks l else sret tt) m = (Ok tt, m1) /\
    archived (if archive_before_expiry c then len l else 0) m m1) as (m1 & H1 & Ha).
  { destruct (archive_before_expiry c); [apply archive_blocks_ok|]. exists m. split; [done|apply archived_refl]. }
  assert (exists m2, (if portal_distribution c then distribute_to_portal l else sret tt) m1 = (Ok tt, m2) /\ archived 0 m1 m2) as (m2 & H2 & Hb).
  { destruct (portal_distribution c); [apply distribute_ok|]. exists m1. split; [done|apply archived_refl]. }
  exists m2. unfold sbind. rewrite H1. split; [done|]. rewrite <- (Z.add_0_r (if archive_before_expiry c then _ else _)). by eapply archived_trans.
Qed.

(** C23: an expiry round on an idle manager that has blocks to expire always
    completes, whatever the archive and the portal network answer: the blocks
    are pruned and counted, also when archiving every one of them failed, the
    archiving counters together grow by the number of blocks, and the manager
    is idle again. *)
Theorem expiry_completes fuel now m l lst :
  let e := pruning_engine m in
  let k := len (selected (pruning_policy e) e l) in
  is_expiring m = false -> is_pruning e = false ->
  identify_blocks_to_expire fuel (expiry_config m) now = Ok l -> last l = Some lst ->
  can_prune (pruning_policy e) l -> BLOCK_SIZE * len l < 2 ^ 64 -> room k e ->
  0 <= total_expired_blocks m -> total_expired_blocks m + k < 2 ^ 64 ->
  0 <= total_expired_size m -> total_expired_size m + BLOCK_SIZE * k < 2 ^ 64 ->
  exists m', check_and_expire fuel now m = (Ok tt, m') /\
    is_expiring m' = false /\ pruning_engine m' = after_pruning k l e /\
    last_expired_block m' = lst /\ total_expired_blocks m' = total_expired_blocks m + k /\
    total_expired_size m' = total_expired_size m + BLOCK_SIZE * k /\
    (archival_success (expiry_metrics m') + archival_failures (expiry_metrics m')) mod 2 ^ 64 =
      (archival_success (expiry_metrics m) + archival_failures (expiry_metrics m) +
       (if archive_before_expiry (expiry_config m) then len l else 0)) mod 2 ^ 64.
Proof.
  intros e k Hi Hp Hl Hlst Hc Hs Hr He0 He1 Hz0 Hz1. unfold check_and_expire. rewrite sbind_get, Hi, sbind_modify.
  set (m1 := set_expiring true m). unfold perform_expiry. rewrite sbind_get. change (expiry_config m1) with (expiry_config m).
  rewrite Hl, sbind_lift, Hlst.
  destruct (preparation_ok (expiry_config m) l m1) as (m2 & Hprep & (x & w & -> & _ & _ & Hx)).
  rewrite <- sbind_assoc, (sbind_ok _ _ _ _ _ Hprep). clear Hprep. set (m2 := with_world _ w m1).
  assert (manager_prune_blocks l m2 = (Ok (pruned k), mkExpiryManager (expiry_config m) (after_pruning k l e)
    (last_expired_block m) (total_expired_blocks m) (total_expired_size m) true x w)) as Hprune.
  { unfold manager_prune_blocks. change (pruning_engine m2) with e. by rewrite (prune_blocks_ok l e k). }
  assert (0 <= k) by apply len_nonneg. unfold BLOCK_SIZE in *.
  rewrite (sbind_ok _ _ _ _ _ Hprune), sbind_modify, sbind_get. unfold uadd.
  rewrite !checked_arith_ok by (unfold uint; simpl; unfold BLOCK_SIZE; lia). rewrite !sbind_lift.
  eexists. split; [reflexivity|]. done.
Qed.
End identify.
End history.

(** * A chain of 201 blocks, one a second, and an archive that always fails *)

Definition toy_chain : ChainStorage (B := Z) := {|
  latest_block_number := inl 200;
  block_by_number n := Some (if (0 <=? n) && (n <=? 200) then Some n else None);
  block_timestamp n := n |}.
Definition toy_backend : ExpiryBackend (B := Z) unit := {|
  backend_archive_blocks _ w := (false, w); backend_distribute_block _ w := (true, w); cron_due _ := inl true |}.
#[local] Existing Instance release_profile.
#[local] Existing Instance toy_chain.
#[local] Existing Instance toy_backend.
Definition toy_config (p : ExpiryPolicy) : ExpiryConfig := mkExpiryConfig year 128 true 0 true true p.
Definition toy_manager (p : ExpiryPolicy) : Manager (W := unit) := expiry_manager_new (toy_config p) tt.

Lemma pruning_policies_agree_witness : exists e',
  prune_blocks [0; 1; 2] (with_policy (Conservative true 2) (engine_new policy_default)) =
    (Ok (mkPruneResult 3 (BLOCK_SIZE * 3)), with_policy (Conservative true 2) e') /\
  prune_blocks [0; 1; 2] (with_policy (Aggressive 2 false) (engine_new policy_default)) =
    (Ok (mkPruneResult 3 (BLOCK_SIZE * 3)), with_policy (Aggressive 2 false) e') /\ total_pruned e' = 3.
Proof.
  destruct (pruning_policies_agree [0; 1; 2] (engine_new policy_default) (Conservative true 2) (Aggressive 2 false))
    as (e' & H1 & H2 & _ & _ & H3 & _); [done|done|done| |done|done|by exists e'].
  split; [done|]. split; [done|]. split; [done|]. right. by repeat constructor.
Defined.
Lemma expired_blocks_are_old_witness :
  exists l, identify_blocks_to_expire (S (Z.to_nat 50001)) (toy_config expiry_policy_default) (2 * year) = Ok l /\
    StronglySorted Z.lt l /\ Forall (may_expire 200 (toy_config expiry_policy_default)) l.
Proof.
  refine (expired_blocks_are_old 200 _ (Z.to_nat 50001) (toy_config expiry_policy_default) (2 * year) _ _ _ _); [done..|].
  by rewrite Z2Nat.id.
Defined.
Lemma expiry_completes_witness : exists m',
  check_and_expire 0 0 (toy_manager (BlockBased 190)) = (Ok tt, m') /\
    is_expiring m' = false /\ last_expired_block m' = 9 /\ total_expired_blocks m' = 10.
Proof.
  destruct (expiry_completes 0 0 (toy_manager (BlockBased 190)) (seqZ 0 10) 9) as (m' & H1 & H2 & _ & H3 & H4 & _);
    [by vm_compute..|by exists m'].
Defined.

(** Archiving failed for all ten blocks, and they are pruned nevertheless. *)
Example pruned_without_archive :
  let m := (check_and_expire 0 0 (toy_manager (BlockBased 190))).2 in
  archival_failures (expiry_metrics m) = 10 /\ archival_success (expiry_metrics m) = 0 /\
  total_pruned (pruning_engine m) = 10 /\ total_expired_blocks m = 10.
Proof. by vm_compute. Qed.
(** The hybrid policy lists no number twice, where the ages and the count
    overlap. *)
Example hybrid_merges :
  identify_hybrid 1 (toy_config expiry_policy_default) (4 * 10 ^ 9) 0 198 100 = Ok [0; 1; 2; 3].
Proof. by vm_compute. Qed.

Definition short_chain (latest : Z) : ChainStorage (B := Z) := {|
  latest_block_number := inl latest; block_by_number n := Some (Some n); block_timestamp n := n |}.
(** The size policy decides after it took a block: on a chain of which every
    block is to be retained it expires the first one, and on a chain with only
    the first block the subtraction underflows. *)
Example first_block_expires_by_size : identify_by_size (H0 := short_chain 5) 3 (toy_config (SizeBased 1)) 1 = Ok [0].
Proof. by vm_compute. Qed.
Example empty_chain_underflows :
  identify_by_size (H := dev_profile) (H0 := short_chain 0) 3 (toy_config (SizeBased 1)) 1 = Panic.
Proof. by vm_compute. Qed.
(** An aggressive engine panics on an empty request, and stays busy. *)
Example aggressive_panics_on_nothing :
  let '(r, e) := prune_blocks (H0 := short_chain 5) [] (engine_new (Aggressive 4 true)) in
  r = Panic /\ is_pruning e = true.
Proof. by vm_compute. Qed.

End HistoryProofs.
