(* ===== verification/DasNet.v ===== *)
(** Sampling and distribution of columns: crates/das/src/sampling.rs and
    distribution.rs.  The two network traits are records of functions, instants
    nanoseconds, and the iteration order of hash maps, shuffles and simulated
    outcomes parameters.  The tasks of a call run one after the other in the
    order in which they are spawned.  The numbers printed into error messages
    are left out. *)
From stdpp Require Import base list numbers option strings gmap.
From Stdlib Require Import ZArith Lia.
From S2P Require Import Prelude U256 F64 Das DasPeer HistoryExpiry.

Module DasNet.
Import Das F64.

(** [fetch_add(1)] wraps around. *)
Definition bump (x : Z) : Z := wrap 64 (x + 1).
Definition SECOND : Z := 10 ^ 9.
Definition MILLISECOND : Z := 10 ^ 6.

(** The order in which a hash map is iterated. *)
Class HashOrder := { iter : forall {K V} `{Countable K}, gmap K V -> list (K * V) }.
Class HashOrderLaws `{HashOrder} : Prop := { iter_all {K V} `{Countable K} (m : gmap K V) : iter m ≡ₚ map_to_list m }.
(** [min_by_key]: the first of the smallest. *)
Fixpoint min_by_key {A} (key : A -> Z) (l : list A) : option A :=
  match l with
  | [] => None
  | x :: l => match min_by_key key l with Some y => if key y <? key x then Some y else Some x | None => Some x end
  end.

(** What a network answers. *)
Definition answer {A} (r : A + DASError) : outcome DASError A := match r with inl x => Ok x | inr e => Err e end.

(** * sampling.rs *)

Record SampleRequest := mkRequest { block_root : list Z; column_index : Z }.
Record SampleResponse := mkResponse {
  resp_column_index : Z; is_available : bool; resp_data : option (list Z); resp_proof : option (list Z); latency : Z;
}.
(** A request that fails or takes longer than five seconds is [None]. *)
Record SamplingNetwork := mkSamplingNetwork {
  request_column : list Z -> Z -> list Z -> option (list Z);
  find_column_custodians : Z -> list (list Z) + DASError;
}.
Record CachedSample := mkCached { c_data : list Z; c_proof : list Z; cached_at : Z; ttl : Z }.
Notation Key := (list Z * Z)%type.
Record SampleCache := mkCache { entries : gmap Key CachedSample; max_entries : Z }.
Record SamplingMetrics := mkSamplingMetrics {
  total_requests : Z; successful_samples : Z; failed_samples : Z; cache_hits : Z; cache_misses : Z;
}.
Record DataSampler := mkSampler {
  max_concurrent : Z; network : option SamplingNetwork; cache : SampleCache; metrics : SamplingMetrics;
}.
Definition cache_new (max : Z) : SampleCache := mkCache ∅ max.
Definition sampling_metrics_new : SamplingMetrics := mkSamplingMetrics 0 0 0 0 0.
Definition sampler_new (max_concurrent : Z) : DataSampler := mkSampler max_concurrent None (cache_new 1000) sampling_metrics_new.
Definition with_network (n : SamplingNetwork) (s : DataSampler) : DataSampler := mkSampler (max_concurrent s) (Some n) (cache s) (metrics s).
Definition cache_get (now : Z) (k : Key) (c : SampleCache) : option CachedSample :=
  match entries c !! k with
  | Some x => if Z.max 0 (now - cached_at x) <? ttl x then Some x else None
  | None => None
  end.
Definition set_metrics (f : SamplingMetrics -> SamplingMetrics) (s : DataSampler) : DataSampler :=
  mkSampler (max_concurrent s) (network s) (cache s) (f (metrics s)).
Definition count_total (m : SamplingMetrics) : SamplingMetrics :=
  mkSamplingMetrics (bump (total_requests m)) (successful_samples m) (failed_samples m) (cache_hits m) (cache_misses m).
Definition count_success (m : SamplingMetrics) : SamplingMetrics :=
  mkSamplingMetrics (total_requests m) (bump (successful_samples m)) (failed_samples m) (cache_hits m) (cache_misses m).
Definition count_failed (m : SamplingMetrics) : SamplingMetrics :=
  mkSamplingMetrics (total_requests m) (successful_samples m) (bump (failed_samples m)) (cache_hits m) (cache_misses m).
Definition count_hit (m : SamplingMetrics) : SamplingMetrics :=
  mkSamplingMetrics (total_requests m) (successful_samples m) (failed_samples m) (bump (cache_hits m)) (cache_misses m).
Definition count_miss (m : SamplingMetrics) : SamplingMetrics :=
  mkSamplingMetrics (total_requests m) (successful_samples m) (failed_samples m) (cache_hits m) (bump (cache_misses m)).
(** The loop over the first custodians. *)
Fixpoint try_custodians (n : SamplingNetwork) (block_root : list Z) (i : Z) (l : list (list Z)) : option (list Z) :=
  match l with
  | [] => None
  | p :: l => match request_column n p i block_root with Some d => Some d | None => try_custodians n block_root i l end
  end.
Definition fetch_from_network (n : SamplingNetwork) (block_root : list Z) (i : Z) : outcome DASError (list Z * list Z) :=
  let? custodians := answer (find_column_custodians n i) in
  if bool_decide (custodians = []) then Err (SamplingFailed "No custodians found for column")
  else match try_custodians n block_root i (take 3 custodians) with
       | Some d => Ok (d, replicate 48 0)
       | None => Err (SamplingFailed "Failed to fetch column from any custodian")
       end.
(** [lucky] is the outcome of the simulated draw. *)
Definition simulate_sampling (lucky : bool) : outcome DASError (list Z * list Z) :=
  if lucky then Ok (replicate 512 0, replicate 48 0) else Err (SamplingFailed "Simulated failure for column").
Definition success_rate (m : SamplingMetrics) : f64 :=
  if F64.lt (F64.of_Z 0) (F64.of_Z (total_requests m)) then F64.div (F64.of_Z (successful_samples m)) (F64.of_Z (total_requests m))
  else F64.of_Z 0.
Record SamplingMetricsSnapshot := mkSamplingSnapshot {
  snap_total : Z; snap_successful : Z; snap_failed : Z; snap_hits : Z; snap_misses : Z; snap_rate : f64;
}.
Definition sampler_get_metrics (s : DataSampler) : SamplingMetricsSnapshot :=
  let m := metrics s in
  mkSamplingSnapshot (total_requests m) (successful_samples m) (failed_samples m) (cache_hits m) (cache_misses m) (success_rate m).

Section sampling.
Context `{HashOrder}.
Notation DM := (SM DataSampler DASError).
Definition evict_oldest (c : SampleCache) : SampleCache :=
  match min_by_key (fun p : Key * CachedSample => cached_at p.2) (iter (entries c)) with
  | Some (k, _) => mkCache (delete k (entries c)) (max_entries c)
  | None => c
  end.
Definition cache_insert (k : Key) (x : CachedSample) (c : SampleCache) : SampleCache :=
  let c := if max_entries c <=? Z.of_nat (size (entries c)) then evict_oldest c else c in
  mkCache (<[k := x]> (entries c)) (max_entries c).
(** [now] is the time of the lookup, [later] the time of the insertion. *)
Definition sample_single (now later : Z) (lucky : bool) (r : SampleRequest) : DM (list Z * list Z) :=
  smodify (set_metrics count_total) ;;!
  let key := (block_root r, column_index r) in
  let! s := sget in
  match cache_get now key (cache s) with
  | Some c => smodify (set_metrics count_hit) ;;! sret (c_data c, c_proof c)
  | None =>
      smodify (set_metrics count_miss) ;;!
      let result := match network s with
                    | Some n => fetch_from_network n (block_root r) (column_index r)
                    | None => simulate_sampling lucky
                    end in
      match result with
      | Ok (data, proof) =>
          smodify (set_metrics count_success) ;;!
          smodify (fun s => mkSampler (max_concurrent s) (network s) (cache_insert key (mkCached data proof later (60 * SECOND)) (cache s)) (metrics s)) ;;!
          sret (data, proof)
      | Err e => smodify (set_metrics count_failed) ;;! sfail e
      | Panic => slift Panic
      | Diverge => slift Diverge
      end
  end.
Definition response (now later : Z) (r : SampleRequest) (result : outcome DASError (list Z * list Z)) : SampleResponse :=
  match result with
  | Ok (d, p) => mkResponse (column_index r) true (Some d) (Some p) (later - now)
  | _ => mkResponse (column_index r) false None None (later - now)
  end.
(** Each request with its start, its end and its draw; a task that panics
    gives no response. *)
Fixpoint sample_loop (l : list (Z * Z * bool * SampleRequest)) : DM (list SampleResponse) := fun s =>
  match l with
  | [] => (Ok [], s)
  | (now, later, lucky, r) :: l =>
      let '(result, s) := sample_single now later lucky r s in
      match sample_loop l s with
      | (Ok rs, s) => (Ok (match result with Ok _ | Err _ => response now later r result :: rs | _ => rs end), s)
      | (e, s) => (e, s)
      end
  end.
(** Without permits the first request waits for ever. *)
Definition sample_columns (l : list (Z * Z * bool * SampleRequest)) : DM (list SampleResponse) :=
  let! s := sget in
  if (max_concurrent s =? 0) && negb (bool_decide (length l = O)) then slift Diverge else sample_loop l.

Inductive SamplingStrategy := Random | CustodyBased | Adaptive.
(** [shuffle] permutes the columns. *)
Definition select_random (shuffle : list Z -> list Z) (total sample_count : Z) : list Z :=
  take (Z.to_nat sample_count) (shuffle (seqZ 0 total)).
Definition select_columns (shuffle : list Z -> list Z) (strategy : SamplingStrategy) (total sample_count : Z) (custody : list Z) : list Z :=
  match strategy with
  | Random | Adaptive => select_random shuffle total sample_count
  | CustodyBased =>
      let selected := take (Z.to_nat (sample_count / 2)) custody in
      let non_custody := shuffle (filter (fun c => c ∉ custody) (seqZ 0 total)) in
      selected ++ take (Z.to_nat (sample_count - len selected)) non_custody
  end.
End sampling.

(** * distribution.rs *)

Inductive DistributionStrategy := Broadcast | Minimal | ReliabilityBased | GeoDiverse.
Record PeerInfo := mkPeerInfo {
  peer_id : list Z; latency_ms : Z; reliability_score : f64; location : option string; custody_columns : list Z;
}.
Record TrackedPeer := mkTracked { info : PeerInfo; last_seen : Z; successful_sends : Z; failed_sends : Z }.
Record PeerTracker := mkTracker { peers : gmap (list Z) TrackedPeer; column_custodians : gmap Z (gset (list Z)) }.
Definition tracker_new : PeerTracker := mkTracker ∅ ∅.
Record DistributionMetrics := mkDistMetrics {
  total_distributions : Z; successful_distributions : Z; failed_distributions : Z; avg_distribution_time_ms : Z;
}.
Definition dist_metrics_new : DistributionMetrics := mkDistMetrics 0 0 0 0.

(** A bounded queue. *)
Section queue.
Context {C : Type}.
Record PendingDistribution := mkPending { pd_column : C; target_peers : list (list Z); created_at : Z; attempts : Z }.
Record DistributionQueue := mkQueue { pending : list PendingDistribution; max_queue_size : Z }.
Definition queue_new (max : Z) : DistributionQueue := mkQueue [] max.
Definition queue_add (d : PendingDistribution) : SM DistributionQueue DASError unit :=
  let! q := sget in
  if max_queue_size q <=? len (pending q) then sfail (NetworkError "Distribution queue full")
  else sput (mkQueue (pending q ++ [d]) (max_queue_size q)).
Definition get_next : SM DistributionQueue DASError (option PendingDistribution) :=
  let! q := sget in
  match pending q with
  | [] => sret None
  | d :: rest => sput (mkQueue rest (max_queue_size q)) ;;! sret (Some d)
  end.
Definition cleanup_expired (now max_age : Z) (q : DistributionQueue) : DistributionQueue :=
  mkQueue (filter (fun d => Z.max 0 (now - created_at d) < max_age) (pending q)) (max_queue_size q).
End queue.

Section distribution.
Context `{Profile} `{HashOrder} {Kc Kp : Type}.
Notation Column := (DasPeer.DataColumn Kc Kp).
(** A column that cannot be sent, or not within five seconds, is [false]. *)
Record DistributionNetwork := mkDistNetwork {
  send_column : list Z -> Column -> bool;
  find_custody_peers : Z -> list (list Z) + DASError;
}.
Record DataDistributor := mkDistributor {
  strategy : DistributionStrategy; dist_network : option DistributionNetwork; tracker : PeerTracker;
  queue : DistributionQueue (C := Column); dist_metrics : DistributionMetrics;
}.
Notation DM := (SM DataDistributor DASError).
Definition distributor_new (st : DistributionStrategy) : DataDistributor := mkDistributor st None tracker_new (queue_new 1000) dist_metrics_new.
Definition dist_with_network (n : DistributionNetwork) (s : DataDistributor) : DataDistributor :=
  mkDistributor (strategy s) (Some n) (tracker s) (queue s) (dist_metrics s).
Definition set_tracker (t : PeerTracker) (s : DataDistributor) : DataDistributor :=
  mkDistributor (strategy s) (dist_network s) t (queue s) (dist_metrics s).
Definition on_dist_metrics (f : DistributionMetrics -> DistributionMetrics) (s : DataDistributor) : DataDistributor :=
  mkDistributor (strategy s) (dist_network s) (tracker s) (queue s) (f (dist_metrics s)).
Definition dist_total (m : DistributionMetrics) : DistributionMetrics :=
  mkDistMetrics (bump (total_distributions m)) (successful_distributions m) (failed_distributions m) (avg_distribution_time_ms m).
Definition dist_success (m : DistributionMetrics) : DistributionMetrics :=
  mkDistMetrics (total_distributions m) (bump (successful_distributions m)) (failed_distributions m) (avg_distribution_time_ms m).
Definition dist_failed (m : DistributionMetrics) : DistributionMetrics :=
  mkDistMetrics (total_distributions m) (successful_distributions m) (bump (failed_distributions m)) (avg_distribution_time_ms m).
Definition dist_time (t : Z) (m : DistributionMetrics) : DistributionMetrics :=
  mkDistMetrics (total_distributions m) (successful_distributions m) (failed_distributions m) t.

Definition select_broadcast_peers (s : DataDistributor) (i : Z) : outcome DASError (list (list Z)) :=
  match dist_network s with
  | Some n => answer (find_custody_peers n i)
  | None => Ok [replicate 32 1; replicate 32 2; replicate 32 3]
  end.
Definition select_minimal_peers (s : DataDistributor) (i : Z) : outcome DASError (list (list Z)) :=
  let? all_peers := select_broadcast_peers s i in Ok (take 3 all_peers).
Definition peer_score (t : PeerTracker) (p : list Z) : f64 :=
  match peers t !! p with Some x => reliability_score (info x) | None => F64.lit 5 10 end.
Definition select_reliable_peers (s : DataDistributor) (i : Z) : outcome DASError (list (list Z)) :=
  let? all_peers := select_broadcast_peers s i in
  let? scored := F64.sort_falling snd (map (fun p => (p, peer_score (tracker s) p)) all_peers) in
  Ok (map fst (take 5 scored)).
Definition peer_location (t : PeerTracker) (p : list Z) : string :=
  default "unknown" (match peers t !! p with Some x => location (info x) | None => None end).
Definition add_to_group (t : PeerTracker) (m : gmap string (list (list Z))) (p : list Z) : gmap string (list (list Z)) :=
  <[peer_location t p := default [] (m !! peer_location t p) ++ [p]]> m.
Definition select_geo_diverse_peers (s : DataDistributor) (i : Z) : outcome DASError (list (list Z)) :=
  let? all_peers := select_broadcast_peers s i in
  let groups := foldl (add_to_group (tracker s)) ∅ all_peers in
  Ok (omap (fun g : string * list (list Z) => head g.2) (iter groups)).
Definition select_target_peers (s : DataDistributor) (i : Z) : outcome DASError (list (list Z)) :=
  match strategy s with
  | Broadcast => select_broadcast_peers s i
  | Minimal => select_minimal_peers s i
  | ReliabilityBased => select_reliable_peers s i
  | GeoDiverse => select_geo_diverse_peers s i
  end.
(** [lucky] are the simulated outcomes, by peer. *)
Definition send_to_peers (s : DataDistributor) (lucky : list Z -> bool) (c : Column) (ps : list (list Z)) : list (list Z * bool) :=
  match dist_network s with
  | Some n => map (fun p => (p, send_column n p c)) ps
  | None => map (fun p => (p, lucky p)) ps
  end.
(** The reliability is the share of the successful sends. *)
Definition rate {E} (ok failed : Z) : outcome E f64 := let? total := uadd 64 ok failed in Ok (F64.div (F64.of_Z ok) (F64.of_Z total)).
Definition set_score (r : f64) (i : PeerInfo) : PeerInfo := mkPeerInfo (peer_id i) (latency_ms i) r (location i) (custody_columns i).
Definition count_sent (now : Z) (x : TrackedPeer) : outcome DASError TrackedPeer :=
  let? ok := uadd 64 (successful_sends x) 1 in
  let? r := rate ok (failed_sends x) in
  Ok (mkTracked (set_score r (info x)) now ok (failed_sends x)).
Definition count_unsent (x : TrackedPeer) : outcome DASError TrackedPeer :=
  let? failed := uadd 64 (failed_sends x) 1 in
  let? r := rate (successful_sends x) failed in
  Ok (mkTracked (set_score r (info x)) (last_seen x) (successful_sends x) failed).
Fixpoint update_each (f : TrackedPeer -> outcome DASError TrackedPeer) (ps : list (list Z)) (m : gmap (list Z) TrackedPeer) :
    outcome DASError (gmap (list Z) TrackedPeer) :=
  match ps with
  | [] => Ok m
  | p :: ps =>
      match m !! p with
      | Some x => let? x := f x in update_each f ps (<[p := x]> m)
      | None => update_each f ps m
      end
  end.
Definition update_peer_stats (now : Z) (successful failed : list (list Z)) (t : PeerTracker) : outcome DASError PeerTracker :=
  let? m := update_each (count_sent now) successful (peers t) in
  let? m := update_each count_unsent failed m in
  Ok (mkTracker m (column_custodians t)).
Record DistributionResult := mkResult { res_column_index : Z; successful_peers : list (list Z); failed_peers : list (list Z); distribution_time : Z }.
Definition distribute_column (start stop : Z) (lucky : list Z -> bool) (c : Column) : DM DistributionResult :=
  smodify (on_dist_metrics dist_total) ;;!
  let! s := sget in
  let! targets := slift (select_target_peers s (DasPeer.index c)) in
  if bool_decide (targets = []) then
    smodify (on_dist_metrics dist_failed) ;;!
    sfail (NetworkError "No suitable peers found for distribution")
  else
    let results := send_to_peers s lucky c targets in
    let successful := map fst (filter (fun r : list Z * bool => r.2 = true) results) in
    let failed := map fst (filter (fun r : list Z * bool => r.2 = false) results) in
    smodify (on_dist_metrics (if bool_decide (successful = []) then dist_failed else dist_success)) ;;!
    smodify (on_dist_metrics (dist_time (wrap 64 ((stop - start) / MILLISECOND)))) ;;!
    let! s := sget in
    let! t := slift (update_peer_stats stop successful failed (tracker s)) in
    sput (set_tracker t s) ;;!
    sret (mkResult (DasPeer.index c) successful failed (stop - start)).
(** Errors, and tasks that panic, give no result. *)
Fixpoint distribute_columns (l : list (Z * Z * (list Z -> bool) * Column)) : DM (list DistributionResult) := fun s =>
  match l with
  | [] => (Ok [], s)
  | (start, stop, lucky, c) :: l =>
      let '(result, s) := distribute_column start stop lucky c s in
      match distribute_columns l s with
      | (Ok rs, s) => (Ok (match result with Ok r => r :: rs | _ => rs end), s)
      | (e, s) => (e, s)
      end
  end.
Definition add_custodian (p : list Z) (m : gmap Z (gset (list Z))) (c : Z) : gmap Z (gset (list Z)) := <[c := {[p]} ∪ default ∅ (m !! c)]> m.
Definition add_peer (now : Z) (i : PeerInfo) (t : PeerTracker) : PeerTracker :=
  mkTracker (<[peer_id i := mkTracked i now 0 0]> (peers t)) (foldl (add_custodian (peer_id i)) (column_custodians t) (custody_columns i)).
Definition drop_custodian (p : list Z) (m : gmap Z (gset (list Z))) (c : Z) : gmap Z (gset (list Z)) :=
  match m !! c with Some s => <[c := s ∖ {[p]}]> m | None => m end.
Definition remove_peer (p : list Z) (t : PeerTracker) : PeerTracker :=
  match peers t !! p with
  | Some x => mkTracker (delete p (peers t)) (foldl (drop_custodian p) (column_custodians t) (custody_columns (info x)))
  | None => t
  end.
Definition dist_get_metrics (s : DataDistributor) : DistributionMetrics := dist_metrics s.
(** [BatchDistributor]: the columns in chunks of [batch_size]. *)
Fixpoint run_batches (bs : list (list (Z * Z * (list Z -> bool) * Column))) : DM (list DistributionResult) :=
  match bs with
  | [] => sret []
  | b :: bs =>
      let! r := distribute_columns b in
      let! rs := run_batches bs in
      sret (r ++ rs)
  end.
Definition distribute_batch (batch_size : Z) (l : list (Z * Z * (list Z -> bool) * Column)) : DM (list DistributionResult) :=
  let! bs := slift (HistoryExpiry.chunks batch_size l) in
  run_batches bs.
End distribution.

End DasNet.
