(* ===== verification/DasNetProofs.v ===== *)
(** What sampling and distribution keep: the theorems on
    crates/das/src/sampling.rs and distribution.rs. *)
From stdpp Require Import base list numbers option strings gmap.
From Stdlib Require Import ZArith Lia.
From S2P Require Import Prelude U256 F64 Das DasPeer HistoryExpiry HistoryProofs DasNet.

Module DasNetProofs.
Import Das F64 DasNet.

(** * Sampling *)

Section sampling.
Context `{HashOrder} `{!HashOrderLaws}.
Implicit Types (s : DataSampler) (c : SampleCache).

Lemma min_by_key_elem {A} (key : A -> Z) l x : min_by_key key l = Some x -> x ∈ l /\ Forall (fun y => key x <= key y) l.
Proof.
  revert x. induction l as [|y l IH]; intros x Hx; [done|]. cbn in Hx. destruct (min_by_key key l) as [z|] eqn:Hm.
  - destruct (IH z eq_refl) as [Hz Hl]. destruct (Z.ltb_spec (key z) (key y)); injection Hx as <-.
    + split; [by apply list_elem_of_further|]. constructor; [lia|done].
    + split; [apply list_elem_of_here|]. constructor; [lia|]. eapply Forall_impl; [exact Hl|]. cbn. lia.
  - injection Hx as <-. destruct l as [|z l]; [|exfalso; cbn in Hm; by destruct (min_by_key key l); [destruct (_ <? _)|]].
    split; [apply list_elem_of_here|]. by repeat constructor.
Qed.
Lemma min_by_key_none {A} (key : A -> Z) l : min_by_key key l = None -> l = [].
Proof. destruct l as [|y l]; [done|]. cbn. by destruct (min_by_key key l); [destruct (_ <? _)|]. Qed.
(** The oldest entry makes room. *)
Lemma evict_oldest_spec c : entries c <> ∅ ->
  exists k x, entries c !! k = Some x /\ entries (evict_oldest c) = delete k (entries c) /\ max_entries (evict_oldest c) = max_entries c /\
    map_Forall (fun _ y => cached_at x <= cached_at y) (entries c).
Proof.
  intros Hne. unfold evict_oldest. destruct (min_by_key _ _) as [[k x]|] eqn:Hm.
  - apply min_by_key_elem in Hm as [Hin Hall]. rewrite iter_all in Hin, Hall. exists k, x. split_and!; [by apply elem_of_map_to_list|done|done|].
    intros k' y Hy. apply elem_of_map_to_list in Hy. exact (proj1 (list.Forall_forall _ _) Hall _ Hy).
  - exfalso. apply min_by_key_none in Hm. pose proof (iter_all (entries c)) as Hp. rewrite Hm in Hp. apply Permutation_nil_l in Hp. symmetry in Hp. by apply map_to_list_empty_iff in Hp.
Qed.
Definition bounded c : Prop := Z.of_nat (size (entries c)) <= 1000 /\ max_entries c = 1000.
Lemma cache_insert_bounded k x c : bounded c -> bounded (cache_insert k x c).
Proof.
  intros [Hb Hmax]. unfold cache_insert, bounded. cbn [entries max_entries]. rewrite <- Hmax in Hb |- *.
  destruct (Z.leb_spec (max_entries c) (Z.of_nat (size (entries c)))) as [Hle|Hlt].
  - assert (entries c <> ∅) as Hne by (intros He; rewrite He, map_size_empty in Hle; lia).
    destruct (evict_oldest_spec c Hne) as (k' & x' & Hk & -> & -> & _). split; [|done].
    rewrite map_size_insert, map_size_delete, Hk. destruct (delete k' (entries c) !! k); cbn; lia.
  - split; [|done]. rewrite map_size_insert. destruct (entries c !! k); cbn; lia.
Qed.
(** Entries are old ones or the new one. *)
Lemma cache_insert_lookup k x c k' y : entries (cache_insert k x c) !! k' = Some y -> (k' = k /\ y = x) \/ entries c !! k' = Some y.
Proof.
  unfold cache_insert. cbn [entries]. destruct (decide (k' = k)) as [-> |Hne]; [rewrite lookup_insert_eq; naive_solver|].
  rewrite lookup_insert_ne by done. intros Hy. right. destruct (_ <=? _); [|done]. unfold evict_oldest in Hy.
  destruct (min_by_key _ _) as [[k'' ?]|]; [|done]. cbn in Hy. by apply lookup_delete_Some in Hy as [_ ?].
Qed.

Lemma fetch_returns n root i : (exists r, fetch_from_network n root i = Ok r) \/ exists e, fetch_from_network n root i = Err e.
Proof.
  unfold fetch_from_network. destruct (find_column_custodians n i) as [l|e]; cbn [answer obind]; [|right; by eexists].
  destruct (bool_decide _); [right; by eexists|]. destruct (try_custodians _ _ _ _); [left|right]; by eexists.
Qed.
(** What a sampler over [n] has: bounded entries that hold what [n] answers,
    and metrics that add up. *)
Definition sampler_inv (n : SamplingNetwork) (total : Z) s : Prop :=
  network s = Some n /\ bounded (cache s) /\
  (forall k x, entries (cache s) !! k = Some x -> fetch_from_network n k.1 k.2 = Ok (c_data x, c_proof x)) /\
  let m := metrics s in
  total_requests m = total /\ cache_hits m + cache_misses m = total /\ successful_samples m + failed_samples m = cache_misses m /\
  0 <= cache_hits m /\ 0 <= successful_samples m /\ 0 <= failed_samples m.
Lemma bump_small x : 0 <= x -> x + 1 < 2 ^ 64 -> bump x = x + 1.
Proof. intros. unfold bump, wrap. apply Z.mod_small. lia. Qed.
Lemma sample_single_ok n total now later lucky r s :
  sampler_inv n total s -> 0 <= total -> total + 1 <= 2 ^ 64 - 1 ->
  (sample_single now later lucky r s).1 = fetch_from_network n (block_root r) (column_index r) /\
  sampler_inv n (total + 1) (sample_single now later lucky r s).2.
Proof.
  intros (Hnet & Hb & Hc & Ht & Hm & Hsf & Hh & Hsu & Hf) Htot Hlt. cbn zeta in *. unfold sample_single. rewrite sbind_modify, sbind_get.
  cbn [cache set_metrics network]. destruct (cache_get now (block_root r, column_index r) (cache s)) as [x|] eqn:Hget.
  - unfold cache_get in Hget. destruct (entries (cache s) !! (block_root r, column_index r)) as [y|] eqn:Hy; [|done].
    destruct (_ <? _); [|done]. injection Hget as ->. rewrite sbind_modify. unfold sret. cbn [fst snd]. split; [symmetry; by apply Hc in Hy|].
    split; [done|]. split; [exact Hb|]. split; [exact Hc|]. cbn. rewrite ?bump_small by lia. lia.
  - rewrite sbind_modify, Hnet. destruct (fetch_returns n (block_root r) (column_index r)) as [([d p] & He)|(e & He)]; rewrite He; rewrite sbind_modify.
    + rewrite sbind_modify. unfold sret. cbn [fst snd]. split; [done|].
      assert (bounded (cache_insert (block_root r, column_index r) (mkCached d p later (60 * SECOND)) (cache s))) as Hb' by by apply cache_insert_bounded.
      split; [done|]. split; [exact Hb'|]. split; [intros k y [[-> ->]|Hy]%cache_insert_lookup; [done|by apply Hc]|].
      cbn. rewrite ?bump_small by lia. lia.
    + unfold sfail. cbn [fst snd]. split; [done|]. split; [done|]. split; [exact Hb|]. split; [exact Hc|]. cbn. rewrite ?bump_small by lia. lia.
Qed.
(** over a network that answers the same question the same way, sampling
    with the cache gives every request the answer of the network, whatever was
    asked before and whenever; the cache never holds more than its 1000
    entries, and the counters add up to the requests. *)
Theorem cache_is_transparent n k l :
  len l < 2 ^ 64 ->
  exists s', sample_loop l (with_network n (sampler_new k)) =
    (Ok (map (fun x => response x.1.1.1 x.1.1.2 x.2 (fetch_from_network n (block_root x.2) (column_index x.2))) l), s') /\
    Z.of_nat (size (entries (cache s'))) <= 1000 /\
    total_requests (metrics s') = len l /\ cache_hits (metrics s') + successful_samples (metrics s') + failed_samples (metrics s') = len l.
Proof.
  intros Hl. assert (forall total s, sampler_inv n total s -> 0 <= total -> total + len l < 2 ^ 64 ->
    exists s', sample_loop l s =
    (Ok (map (fun x => response x.1.1.1 x.1.1.2 x.2 (fetch_from_network n (block_root x.2) (column_index x.2))) l), s') /\
    sampler_inv n (total + len l) s') as Hind.
  { clear Hl. induction l as [|[[[now later] lucky] r] l IH]; intros total s Hs H0' Hlt.
    { exists s. rewrite len_nil, Z.add_0_r. done. }
    rewrite len_cons in *. pose proof (len_nonneg l). cbn [sample_loop map].
    destruct (sample_single_ok n total now later lucky r s Hs) as [Hr Hs']; [lia|lia|].
    destruct (sample_single now later lucky r s) as [res s1]. cbn [fst snd] in *.
    destruct (IH (total + 1) s1 Hs') as (s' & -> & Hs''); [lia|lia|]. exists s'. replace (total + (1 + len l)) with (total + 1 + len l) by lia.
    split; [|done]. rewrite Hr. by destruct (fetch_returns n (block_root r) (column_index r)) as [(x & ->)|(e & ->)]. }
  destruct (Hind 0 (with_network n (sampler_new k))) as (s' & Hr & (_ & [Hb _] & _ & Ht & Hm & Hsf & _)).
  - by split_and!.
  - done.
  - lia.
  - exists s'. cbn zeta in *. split_and!; [done|lia|lia|lia].
Qed.

(** ** Columns to sample *)

Lemma selection_random shuffle total count :
  (forall l, shuffle l ≡ₚ l) -> 0 <= count -> 0 <= total ->
  let l := select_random shuffle total count in
  NoDup l /\ Forall (fun i => 0 <= i < total) l /\ len l = Z.min count total.
Proof.
  intros Hs Hc Ht l. assert (l ⊆+ seqZ 0 total) as Hsub.
  { unfold l, select_random. rewrite <- (Hs (seqZ 0 total)) at 2. apply submseteq_take. }
  split_and!.
  - unfold l, select_random. apply (sublist_NoDup _ (shuffle (seqZ 0 total))); [rewrite Hs; apply NoDup_seqZ|apply sublist_take].
  - apply list.Forall_forall. intros x Hx. apply (elem_of_submseteq _ _ _ Hx), elem_of_seqZ in Hsub. lia.
  - unfold l, select_random, len. rewrite length_take, Hs, length_seqZ. lia.
Qed.
End sampling.

(** * Distribution *)

Section distribution.
Context `{Profile} `{HashOrder} {Kc Kp : Type}.
Notation Column := (DasPeer.DataColumn Kc Kp).
Notation Distributor := (DataDistributor (Kc := Kc) (Kp := Kp)).

Lemma distribute_columns_app (l l' : list (Z * Z * (list Z -> bool) * Column)) (s : Distributor) :
  distribute_columns (l ++ l') s = (let! r := distribute_columns l in let! r' := distribute_columns l' in sret (r ++ r')) s.
Proof.
  revert s. induction l as [|[[[a b] f] c] l IH]; intros s.
  - cbn [app distribute_columns]. unfold sbind. cbn. by destruct (distribute_columns l' s) as [[| | |] ?].
  - cbn [app distribute_columns]. unfold sbind at 1. cbn [distribute_columns]. destruct (distribute_column a b f c s) as [res s1]. rewrite IH.
    unfold sbind. destruct (distribute_columns l s1) as [[rs| | |] s2]; try done. destruct (distribute_columns l' s2) as [[rs'| | |] s3]; try done.
    unfold sret. by destruct res.
Qed.
(** distributing columns in batches does exactly what distributing them at
    once does, for every positive size of the batches: the same results in the
    same order and the same state; a size of zero panics. *)
Theorem batches_change_nothing n (l : list (Z * Z * (list Z -> bool) * Column)) (s : Distributor) :
  0 <= n -> distribute_batch n l s = if n =? 0 then (Panic, s) else distribute_columns l s.
Proof.
  intros Hn. unfold distribute_batch. destruct (Z.eqb_spec n 0) as [-> |Hne]; [done|].
  destruct (HistoryProofs.chunks_ok (E := DASError) n l) as (cs & -> & Hcat); [lia|]. rewrite sbind_lift, <- Hcat. clear.
  revert s. induction cs as [|b cs IH]; intros s; [done|]. cbn [run_batches concat]. rewrite distribute_columns_app. unfold sbind at 1 3.
  destruct (distribute_columns b s) as [[r| | |] s1]; try done. unfold sbind. by rewrite IH.
Qed.

(** ** Custodians *)

Implicit Types (t : PeerTracker) (p : list Z) (c : Z).
Definition custodians t c : gset (list Z) := default ∅ (column_custodians t !! c).
Definition keeps_column t p c : Prop := exists x, peers t !! p = Some x /\ c ∈ custody_columns (info x).
(** The index of custodians is the one the tracked peers define. *)
Definition index_exact t : Prop := forall p c, p ∈ custodians t c <-> keeps_column t p c.
Lemma add_custodians_spec q cs m p c :
  p ∈ default ∅ (foldl (add_custodian q) m cs !! c) <-> p ∈ default ∅ (m !! c) \/ (p = q /\ c ∈ cs).
Proof.
  revert m. induction cs as [|d cs IH]; intros m; cbn [foldl]; [set_solver|]. rewrite IH. unfold add_custodian.
  destruct (decide (c = d)) as [-> |Hne]; [rewrite lookup_insert_eq; set_solver|]. rewrite lookup_insert_ne by done. set_solver.
Qed.
Lemma drop_custodians_spec q cs m p c :
  p ∈ default ∅ (foldl (drop_custodian q) m cs !! c) <-> p ∈ default ∅ (m !! c) /\ ~ (p = q /\ c ∈ cs).
Proof.
  revert m. induction cs as [|d cs IH]; intros m; cbn [foldl]; [set_solver|]. rewrite IH. unfold drop_custodian.
  destruct (decide (c = d)) as [-> |Hne].
  - destruct (m !! d) as [s|] eqn:Hd; [rewrite lookup_insert_eq|rewrite Hd]; set_solver.
  - destruct (m !! d) as [s|] eqn:Hd; [rewrite lookup_insert_ne by done|]; set_solver.
Qed.
(** Updates of statistics keep what a peer has in custody. *)
Definition same_custody (m m' : gmap (list Z) TrackedPeer) : Prop :=
  forall p, custody_columns ∘ info <$> m' !! p = custody_columns ∘ info <$> m !! p.
Lemma update_each_custody f ps m m' : (forall x x', f x = Ok x' -> custody_columns (info x') = custody_columns (info x)) ->
  update_each f ps m = Ok m' -> same_custody m m'.
Proof.
  intros Hf. revert m. induction ps as [|q ps IH]; intros m Hu; cbn in Hu; [injection Hu as <-; by intros p|].
  destruct (m !! q) as [x|] eqn:Hq; [|by apply IH]. opened Hu. apply IH in Hu. apply Hf in Hr. intros p. rewrite Hu.
  destruct (decide (p = q)) as [-> |Hne]; [rewrite lookup_insert_eq, Hq; cbn; by rewrite Hr|by rewrite lookup_insert_ne].
Qed.
Lemma counted_custody now x x' : count_sent now x = Ok x' \/ count_unsent x = Ok x' -> custody_columns (info x') = custody_columns (info x).
Proof. unfold count_sent, count_unsent. intros [Hc|Hc]; opened Hc; opened Hc; by injection Hc as <-. Qed.
Lemma update_stats_index now ok failed t t' : update_peer_stats now ok failed t = Ok t' -> index_exact t -> index_exact t'.
Proof.
  intros Hu Ht. unfold update_peer_stats in Hu. opened Hu. opened Hu. injection Hu as <-.
  assert (same_custody (peers t) r0) as Hsame.
  { intros p. etrans; [refine (update_each_custody _ _ _ _ _ Hr0 p)|refine (update_each_custody _ _ _ _ _ Hr p)];
      intros x x' Hx; apply (counted_custody now); auto. }
  intros p c. specialize (Ht p c). unfold custodians, keeps_column in *. cbn [column_custodians peers]. rewrite Ht. specialize (Hsame p).
  destruct (r0 !! p) as [x|], (peers t !! p) as [y|]; cbn in Hsame; try done.
  injection Hsame as Heq. split; intros (z & [= <-] & Hc); eexists; (split; [done|]); [by rewrite Heq|by rewrite <- Heq].
Qed.
Lemma add_peer_index now i t : peers t !! peer_id i = None -> index_exact t -> index_exact (add_peer now i t).
Proof.
  intros Hnew Ht p c. unfold custodians, keeps_column, add_peer. cbn [column_custodians peers]. rewrite add_custodians_spec, (Ht p c).
  unfold keeps_column. destruct (decide (p = peer_id i)) as [-> |Hne].
  - rewrite Hnew, lookup_insert_eq. split; [intros [(x & ? & _)|[_ Hc]]; [done|by eexists]|]. intros (x & [= <-] & Hc). by right.
  - rewrite lookup_insert_ne by done. naive_solver.
Qed.
Lemma remove_peer_index q t : index_exact t -> index_exact (remove_peer q t).
Proof.
  intros Ht. unfold remove_peer. destruct (peers t !! q) as [y|] eqn:Hq; [|done]. intros p c. unfold custodians, keeps_column. cbn [column_custodians peers].
  rewrite drop_custodians_spec, (Ht p c). unfold keeps_column. destruct (decide (p = q)) as [-> |Hne].
  - rewrite Hq, lookup_delete_eq. split; [intros [(x & [= <-] & Hc) Hno]; by destruct Hno|by intros (x & ? & _)].
  - rewrite lookup_delete_ne by done. naive_solver.
Qed.

(** What happens to the tracker of a distributor. *)
Inductive TrackerEvent := AddPeer (now : Z) (i : PeerInfo) | RemovePeer (p : list Z) | Distribute (start stop : Z) (lucky : list Z -> bool) (c : Column).
Definition happen (s : Distributor) (e : TrackerEvent) : Distributor :=
  match e with
  | AddPeer now i => set_tracker (add_peer now i (tracker s)) s
  | RemovePeer p => set_tracker (remove_peer p (tracker s)) s
  | Distribute start stop lucky c => (distribute_column start stop lucky c s).2
  end.
(** Peers are added when they are not tracked. *)
Fixpoint added_once (s : Distributor) (es : list TrackerEvent) : Prop :=
  match es with
  | [] => True
  | e :: es => match e with AddPeer _ i => peers (tracker s) !! peer_id i = None | _ => True end /\ added_once (happen s e) es
  end.
Lemma distribute_column_tracker start stop lucky (c : Column) (s : Distributor) :
  tracker (distribute_column start stop lucky c s).2 = tracker s \/
  exists ok failed, update_peer_stats stop ok failed (tracker s) = Ok (tracker (distribute_column start stop lucky c s).2).
Proof.
  unfold distribute_column. rewrite sbind_modify, sbind_get.
  destruct (select_target_peers (on_dist_metrics dist_total s) (DasPeer.index c)) as [ts| | |]; [|by left..]. rewrite sbind_lift.
  destruct (bool_decide (ts = [])); [by left|]. rewrite !sbind_modify, sbind_get.
  change (tracker (on_dist_metrics _ _)) with (tracker s).
  match goal with |- context [update_peer_stats stop ?a ?b (tracker s)] => destruct (update_peer_stats stop a b (tracker s)) as [t| | |] eqn:Hu end; [|by left..].
  right. do 2 eexists. exact Hu.
Qed.
(** as long as a peer is added only while it is not tracked, the index of
    custodians is exact whatever is distributed: a peer is listed for a column
    exactly when it is tracked and has the column in custody. *)
Theorem custodians_exact st es : added_once (distributor_new st) es ->
  index_exact (tracker (foldl happen (distributor_new st) es)).
Proof.
  assert (forall s, index_exact (tracker s) -> added_once s es -> index_exact (tracker (foldl happen s es))) as Hind.
  { induction es as [|e es IH]; intros s Hs Ha; [done|]. cbn [foldl]. destruct Ha as [He Ha]. apply IH; [|done].
    destruct e as [now i|p|start stop lucky c]; cbn [happen].
    - by apply add_peer_index.
    - by apply remove_peer_index.
    - destruct (distribute_column_tracker start stop lucky c s) as [-> |(ok & failed & Hu)]; [done|]. by eapply update_stats_index. }
  apply Hind. intros p c. unfold custodians, keeps_column. cbn. rewrite !lookup_empty. split; [done|by intros (x & ? & _)].
Qed.

(** ** The queue *)

(** What is queued comes out first in, first out, up to the size. *)
Lemma queue_fifo {C} (d : PendingDistribution (C := C)) q : len (pending q) < max_queue_size q ->
  exists q', queue_add d q = (Ok tt, q') /\ pending q' = pending q ++ [d] /\
    forall x rest, pending q = x :: rest -> exists q'', get_next q' = (Ok (Some x), q'') /\ pending q'' = rest ++ [d].
Proof.
  intros Hl. unfold queue_add. rewrite sbind_get, (proj2 (Z.leb_gt _ _)) by done. eexists. split; [done|]. split; [done|].
  intros x rest Hq. unfold get_next. rewrite sbind_get. cbn [pending]. rewrite Hq. by eexists.
Qed.
End distribution.

(** * Witnesses and examples *)

#[local] Existing Instance dev_profile.
#[local] Instance toy_order : HashOrder := {| iter K V _ _ m := map_to_list m |}.
#[local] Instance toy_order_laws : HashOrderLaws.
Proof. by split. Qed.
Definition peer (n : Z) : list Z := replicate 32 n.
Definition toy_network : SamplingNetwork := mkSamplingNetwork
  (fun p i root => if bool_decide (p = peer 2) then Some [i; i] else None)
  (fun i => if i <? 100 then inl [peer 1; peer 2; peer 3] else inr (NetworkError "unreachable")).
Lemma cache_is_transparent_witness : exists s',
  (sample_loop [(0, 5, true, mkRequest [] 7); (9, 9, true, mkRequest [] 7); (10, 11, true, mkRequest [] 200)] (with_network toy_network (sampler_new 4))) =
  (Ok [mkResponse 7 true (Some [7; 7]) (Some (replicate 48 0)) 5; mkResponse 7 true (Some [7; 7]) (Some (replicate 48 0)) 0; mkResponse 200 false None None 1], s') /\
  Z.of_nat (size (entries (cache s'))) <= 1000.
Proof.
  destruct (cache_is_transparent toy_network 4 [(0, 5, true, mkRequest [] 7); (9, 9, true, mkRequest [] 7); (10, 11, true, mkRequest [] 200)])
    as (s' & Hr & Hb & _).
  - done.
  - exists s'. split; [exact Hr|done].
Defined.
Definition toy_peer (n : Z) (cols : list Z) : PeerInfo := mkPeerInfo (peer n) 10 (F64.lit 5 10) None cols.
Lemma custodians_exact_witness :
  index_exact (tracker (foldl happen (distributor_new (Kc := unit) (Kp := unit) Broadcast)
    [AddPeer 0 (toy_peer 1 [3; 4]); AddPeer 1 (toy_peer 2 [4]); Distribute 2 3 (fun _ => true) (DasPeer.mkColumn 4 [] [] []); RemovePeer (peer 1)])).
Proof. apply (custodians_exact Broadcast). by vm_compute. Defined.
Lemma batches_change_nothing_witness :
  let l := [(0, 1, (fun _ => true), DasPeer.mkColumn (Kc := unit) (Kp := unit) 4 [] [] []); (1, 2, (fun _ => false), DasPeer.mkColumn 5 [] [] [])] in
  distribute_batch 1 l (distributor_new Minimal) = distribute_columns l (distributor_new Minimal).
Proof. intros l. apply (batches_change_nothing 1 l). lia. Defined.
(** A peer that comes back with other columns stays listed for the old ones. *)
Example stale_custodian :
  peer 1 ∈ custodians (add_peer 1 (toy_peer 1 [5]) (add_peer 0 (toy_peer 1 [3]) tracker_new)) 3 /\
  ~ keeps_column (add_peer 1 (toy_peer 1 [5]) (add_peer 0 (toy_peer 1 [3]) tracker_new)) (peer 1) 3.
Proof.
  split; [by apply (bool_decide_unpack _); vm_compute|]. intros (x & Hx & Hc). vm_compute in Hx. injection Hx as <-.
  by apply (bool_decide_pack _) in Hc; vm_compute in Hc.
Qed.
(** Custody columns may be chosen twice, and columns beyond the total too. *)
Example custody_repeats : select_columns id CustodyBased 4 4 [9; 9] = [9; 9; 0; 1].
Proof. by vm_compute. Qed.
(** Without permits no sample is ever taken. *)
Example no_permits_hang : (sample_columns [(0, 0, true, mkRequest [] 1)] (sampler_new 0)).1 = Diverge.
Proof. by vm_compute. Qed.

End DasNetProofs.
