(* ===== verification/HistoryArchive.v ===== *)
(** Archives of expired history: crates/history-expiry/src/archival.rs,
    portal_integration.rs and retrieval.rs.  The file system is a finite map
    from paths to contents; what a system call answers, the clock, the answers
    simulated for the peers and the winner of a race are arguments.  The
    compression crates, bincode and the IPFS client are parameters.  What the
    libraries say about a failure is left out of the error messages, and tasks
    run in the order in which they are spawned. *)
From stdpp Require Import base list numbers option strings gmap pretty.
From Stdlib Require Import ZArith Lia.
From S2P Require Import Prelude U256 F64 HistoryExpiry DasNet.

Module HistoryArchive.
Import F64 HistoryExpiry DasNet.
Notation H256 := (list Z).
Notation R := (outcome HistoryExpiryError).

(** What the archives use of a block: the number and the hash of its header. *)
Class ChainBlock (B : Type) := { block_number : B -> Z; header_hash : B -> H256 }.
(** The compression crates and bincode; [None] is an error. *)
Class Codecs (B : Type) := {
  zstd_encode_all : Z -> list Z -> option (list Z); zstd_decode_all : list Z -> option (list Z);
  lz4_compress : list Z -> option (list Z); lz4_decompress : list Z -> option (list Z);
  snap_compress : list Z -> option (list Z); snap_decompress : list Z -> option (list Z);
  serialize_blocks : list B -> option (list Z); deserialize_blocks : list Z -> option (list B);
  serialize_block : B -> option (list Z); deserialize_block : list Z -> option B;
}.
(** The trait [ArchivalBackend] as its readers see it. *)
Class ArchivalBackend (B S : Type) := {
  backend_retrieve : string -> Z -> Z -> S -> R (list B);
  backend_verify : string -> S -> R bool;
}.
Definition or_err {A} (e : HistoryExpiryError) (o : option A) : R A := match o with Some a => Ok a | None => Err e end.

(** * archival.rs: files *)

Inductive CompressionType := NoCompression | Zstd (level : Z) | Lz4 | Snappy.
Inductive ArchivalStrategy :=
| FileSystem (base_path : string) (compression : CompressionType)
| IPFS (gateway : string) (pinning_service : option string)
| Arweave (gateway wallet_path : string)
| Cloud (endpoint bucket region : string)
| Torrent (tracker_url : string) (seed_after_upload : bool)
| Multi (primary : ArchivalStrategy) (secondary : list ArchivalStrategy).
Notation Path := (list string).
Record ArchiveEntry := mkEntry { e_id : string; path : Path; range_start : Z; range_end : Z; e_size : Z; created_at : Z; checksum : H256 }.
Record FileSystemBackend := mkFs {
  base_path : string; compression : CompressionType; archives : list ArchiveEntry; total_size : Z; total_blocks : Z;
  (** the disk *)
  files : gmap Path (list Z);
}.
Definition fs_new (base : string) (c : CompressionType) (disk : gmap Path (list Z)) : R FileSystemBackend := Ok (mkFs base c [] 0 0 disk).
Record ArchivalStats := mkArchivalStats {
  total_archives : Z; s_total_blocks : Z; s_total_size : Z; compression_ratio : f64; oldest_archive : option Z; newest_archive : option Z;
}.
(** What [fs::write] does: a failure may leave something behind. *)
Inductive WriteResult := Written | WriteFailed (left_behind : option (list Z)).

Section files.
Context `{Profile} `{KeccakOps} {B : Type} `{ChainBlock B} `{Codecs B}.

Definition compress_data (data : list Z) (s : FileSystemBackend) : R (list Z) :=
  match compression s with
  | NoCompression => Ok data
  | Zstd level => or_err (ArchivalError "Compression failed") (zstd_encode_all level data)
  | Lz4 => or_err (ArchivalError "LZ4 compression failed") (lz4_compress data)
  | Snappy => or_err (ArchivalError "Snappy compression failed") (snap_compress data)
  end.
Definition decompress_data (data : list Z) (s : FileSystemBackend) : R (list Z) :=
  match compression s with
  | NoCompression => Ok data
  | Zstd _ => or_err (ArchivalError "Decompression failed") (zstd_decode_all data)
  | Lz4 => or_err (ArchivalError "LZ4 decompression failed") (lz4_decompress data)
  | Snappy => or_err (ArchivalError "Snappy decompression failed") (snap_decompress data)
  end.
Definition archive_name (first last : Z) : string := "blocks_" +:+ pretty first +:+ "-" +:+ pretty last.
Definition archive_path (base id : string) : Path := [base; "archives"; id +:+ ".dat"].
Definition set_files (f : gmap Path (list Z)) (s : FileSystemBackend) : FileSystemBackend :=
  mkFs (base_path s) (compression s) (archives s) (total_size s) (total_blocks s) f.
Definition write_file (w : WriteResult) (p : Path) (data : list Z) : SM FileSystemBackend HistoryExpiryError unit :=
  match w with
  | Written => smodify (fun s => set_files (<[p := data]> (files s)) s)
  | WriteFailed (Some rest) => smodify (fun s => set_files (<[p := rest]> (files s)) s) ;;! sfail (ArchivalError "Failed to write archive")
  | WriteFailed None => sfail (ArchivalError "Failed to write archive")
  end.
Definition fs_archive_blocks (mkdir_ok : bool) (w : WriteResult) (now : Z) (blocks : list B) : SM FileSystemBackend HistoryExpiryError string :=
  match head blocks, last blocks with
  | Some f, Some l =>
      let id := archive_name (block_number f) (block_number l) in
      let! s := sget in
      (if mkdir_ok then sret tt else sfail (ArchivalError "Failed to create directory")) ;;!
      let! serialized := slift (or_err (ArchivalError "Serialization failed") (serialize_blocks blocks)) in
      let! compressed := slift (compress_data serialized s) in
      let p := archive_path (base_path s) id in
      write_file w p compressed ;;!
      let! e := slift (uadd 64 (block_number l) 1) in
      smodify (fun s => mkFs (base_path s) (compression s)
        (archives s ++ [mkEntry id p (block_number f) e (len compressed) now (keccak256 compressed)]) (total_size s) (total_blocks s) (files s)) ;;!
      let! size := slift (uadd 64 (total_size s) (len compressed)) in
      smodify (fun s => mkFs (base_path s) (compression s) (archives s) size (total_blocks s) (files s)) ;;!
      let! n := slift (uadd 64 (total_blocks s) (len blocks)) in
      smodify (fun s => mkFs (base_path s) (compression s) (archives s) (total_size s) n (files s)) ;;!
      sret id
  | _, _ => sfail (ArchivalError "No blocks to archive")
  end.
Definition find_archive (id : string) (s : FileSystemBackend) : option ArchiveEntry := snd <$> list_find (fun e => e_id e = id) (archives s).
Definition in_range (a b : Z) (x : B) : Prop := a <= block_number x < b.
#[export] Instance in_range_dec a b x : Decision (in_range a b x).
Proof. unfold in_range. apply _. Defined.
Definition fs_retrieve_blocks (id : string) (a b : Z) (s : FileSystemBackend) : R (list B) :=
  let? entry := or_err (RetrievalError "Archive not found") (find_archive id s) in
  let? compressed := or_err (RetrievalError "Failed to read archive") (files s !! path entry) in
  if negb (bool_decide (keccak256 compressed = checksum entry)) then Err (RetrievalError "Checksum mismatch") else
  let? decompressed := decompress_data compressed s in
  let? blocks := or_err (RetrievalError "Deserialization failed") (deserialize_blocks decompressed) in
  Ok (filter (in_range a b) blocks).
Definition fs_get_stats (s : FileSystemBackend) : R ArchivalStats :=
  let? ratio := (if 0 <? total_blocks s then let? u := umul 64 (total_blocks s) 2000000 in Ok (div (of_Z (total_size s)) (of_Z u)) else Ok (of_Z 1)) in
  Ok (mkArchivalStats (len (archives s)) (total_blocks s) (total_size s) ratio (created_at <$> head (archives s)) (created_at <$> last (archives s))).
Definition fs_verify_archive (id : string) (s : FileSystemBackend) : R bool :=
  let? entry := or_err (ArchivalError "Archive not found") (find_archive id s) in
  let? data := or_err (ArchivalError "Failed to read archive") (files s !! path entry) in
  Ok (bool_decide (keccak256 data = checksum entry)).
#[export] Instance fs_backend : ArchivalBackend B FileSystemBackend := {| backend_retrieve := fs_retrieve_blocks; backend_verify := fs_verify_archive |}.

(** ** archival.rs: IPFS *)

(** The client: the hash and the parsed size of what was added, whether it was
    pinned, and the stream of a hash, which may break off. *)
Record IpfsClient := mkIpfs { ipfs_add : list Z -> option (string * option Z); ipfs_pin_add : string -> bool; ipfs_cat : string -> option (option (list Z)) }.
Record IPFSArchiveEntry := mkIpfsEntry { cid : string; i_start : Z; i_end : Z; i_size : Z; i_created_at : Z }.
Record IPFSBackend := mkIpfsBackend { client : IpfsClient; pinning_service : option string; ipfs_metadata : gmap string IPFSArchiveEntry }.
Definition ipfs_new (c : option IpfsClient) (pinning : option string) : R IPFSBackend :=
  let? c := or_err (ArchivalError "Failed to create IPFS client") c in Ok (mkIpfsBackend c pinning ∅).
Definition ipfs_archive_blocks (now : Z) (blocks : list B) : SM IPFSBackend HistoryExpiryError string :=
  match head blocks, last blocks with
  | Some f, Some l =>
      let! s := sget in
      let! serialized := slift (or_err (ArchivalError "Serialization failed") (serialize_blocks blocks)) in
      let! res := slift (or_err (ArchivalError "Failed to add to IPFS") (ipfs_add (client s) serialized)) in
      (if bool_decide (pinning_service s = None) || ipfs_pin_add (client s) res.1 then sret tt else sfail (ArchivalError "Failed to pin")) ;;!
      let! e := slift (uadd 64 (block_number l) 1) in
      smodify (fun s => mkIpfsBackend (client s) (pinning_service s) (<[res.1 := mkIpfsEntry res.1 (block_number f) e (default 0 res.2) now]> (ipfs_metadata s))) ;;!
      sret res.1
  | _, _ => sfail (ArchivalError "No blocks to archive")
  end.
Definition ipfs_retrieve_blocks (id : string) (a b : Z) (s : IPFSBackend) : R (list B) :=
  let? data := or_err (RetrievalError "Failed to retrieve from IPFS") (ipfs_cat (client s) id) in
  let? bytes := or_err (RetrievalError "Failed to read IPFS data") data in
  let? blocks := or_err (RetrievalError "Deserialization failed") (deserialize_blocks bytes) in
  Ok (filter (in_range a b) blocks).
Fixpoint sum_u64 (acc : Z) (l : list (R Z)) : R Z :=
  match l with [] => Ok acc | x :: l => let? x := x in let? acc := uadd 64 acc x in sum_u64 acc l end.
Definition extreme (f : Z -> Z -> Z) (l : list Z) : option Z := match l with [] => None | x :: l => Some (foldl f x l) end.
Definition ipfs_get_stats `{HashOrder} (s : IPFSBackend) : R ArchivalStats :=
  let es := (iter (ipfs_metadata s)).*2 in
  let? blocks := sum_u64 0 (map (fun e => usub 64 (i_end e) (i_start e)) es) in
  let? size := sum_u64 0 (map (fun e => Ok (i_size e)) es) in
  Ok (mkArchivalStats (Z.of_nat (base.size (ipfs_metadata s))) blocks size (of_Z 1) (extreme Z.min (map i_created_at es)) (extreme Z.max (map i_created_at es))).
Definition ipfs_verify_archive (id : string) (s : IPFSBackend) : R bool := Ok (bool_decide (is_Some (ipfs_cat (client s) id))).
#[export] Instance ipfs_backend : ArchivalBackend B IPFSBackend := {| backend_retrieve := ipfs_retrieve_blocks; backend_verify := ipfs_verify_archive |}.
End files.
End HistoryArchive.
