(* ===== verification/HistoryPortal.v ===== *)
(** Distribution and retrieval of expired history:
    crates/history-expiry/src/portal_integration.rs and retrieval.rs.  The
    discovery service of the portal client is started and never asked, so it is
    left out; the peers are simulated in the source, and their coin flips are
    arguments here, as are the clock and the winner of the race of two
    sources. *)
From stdpp Require Import base list numbers option strings gmap.
From Stdlib Require Import ZArith Lia.
From S2P Require Import Prelude U256 F64 HistoryExpiry DasNet HistoryArchive.

Module HistoryPortal.
Import F64 HistoryExpiry DasNet HistoryArchive.

(** * portal_integration.rs *)

Inductive DistributionStrategy := Broadcast | Radius (target_radius : Z) | ContentAddressed | Redundant (replication_factor : Z).
Record HistoryDistribution := mkDistribution { hd_strategy : DistributionStrategy; batch_size : Z; parallel_transfers : Z; retry_attempts : Z }.
Definition distribution_default : HistoryDistribution := mkDistribution ContentAddressed 100 8 3.
Inductive TransferStatus := Pending | InProgress | Completed | Failed (reason : string).
Record Transfer := mkTransfer { content_id : H256; target_nodes : list H256; started_at : Z; t_bytes_transferred : Z; status : TransferStatus }.
Record PNodeInfo := mkPNode { pn_id : H256; pn_radius : Z; pn_last_seen : Z }.
Record PortalMetrics := mkPortalMetrics { blocks_distributed : Z; bytes_transferred : Z; distribution_failures : Z; active_peers : Z }.
Record PortalStats := mkPortalStats {
  connected_peers : Z; ps_blocks_distributed : Z; ps_bytes_transferred : Z; ps_distribution_failures : Z; ps_active_transfers : Z; ps_content_radius : Z;
}.
Definition portal_metrics_new : PortalMetrics := mkPortalMetrics 0 0 0 0.

Section portal.
Context `{Profile} `{U256Ops} `{KeccakOps} `{HashOrder} {B : Type} `{ChainBlock B} `{Codecs B}.

Record HistoryNetwork := mkNetwork { blocks : gmap H256 B; max_size : Z; peers : list PNodeInfo; content_radius : Z; active_transfers : gmap H256 Transfer }.
Record PortalNetworkClient := mkPortal { history_network : HistoryNetwork; distribution_strategy : DistributionStrategy; p_metrics : PortalMetrics }.
Definition network_new : HistoryNetwork := mkNetwork ∅ 10000 [] U256_MAX ∅.
Definition portal_new (strategy : DistributionStrategy) : PortalNetworkClient := mkPortal network_new strategy portal_metrics_new.
Notation PM := (SM PortalNetworkClient HistoryExpiryError).
Definition on_network (f : HistoryNetwork -> HistoryNetwork) (c : PortalNetworkClient) : PortalNetworkClient := mkPortal (f (history_network c)) (distribution_strategy c) (p_metrics c).
Definition on_metrics (f : PortalMetrics -> PortalMetrics) (c : PortalNetworkClient) : PortalNetworkClient := mkPortal (history_network c) (distribution_strategy c) (f (p_metrics c)).
Definition store_block (b : B) (n : HistoryNetwork) : HistoryNetwork :=
  let m := if max_size n <=? Z.of_nat (size (blocks n)) then match iter (blocks n) with (k, _) :: _ => delete k (blocks n) | [] => blocks n end else blocks n in
  mkNetwork (<[header_hash b := b]> m) (max_size n) (peers n) (content_radius n) (active_transfers n).
Definition get_block (id : H256) (n : HistoryNetwork) : option B := blocks n !! id.
Definition register_transfer (id : H256) (t : Transfer) (n : HistoryNetwork) : HistoryNetwork :=
  mkNetwork (blocks n) (max_size n) (peers n) (content_radius n) (<[id := t]> (active_transfers n)).
Definition set_status (st : TransferStatus) (id : H256) (n : HistoryNetwork) : HistoryNetwork :=
  mkNetwork (blocks n) (max_size n) (peers n) (content_radius n)
    (alter (fun t => mkTransfer (content_id t) (target_nodes t) (started_at t) (t_bytes_transferred t) st) id (active_transfers n)).
Definition mark_transfer_complete (id : H256) (n : HistoryNetwork) : HistoryNetwork := set_status Completed id n.
Definition mark_transfer_failed (id : H256) (reason : string) (n : HistoryNetwork) : HistoryNetwork := set_status (Failed reason) id n.
Definition calculate_content_id (b : B) : H256 := keccak256 (header_hash b).
Definition calculate_distance (a b : H256) : R Z := unwrap (u_from_big_endian (zip_with Z.lxor a b)).
Fixpoint with_distances (id : H256) (l : list PNodeInfo) : R (list (H256 * Z)) :=
  match l with
  | [] => Ok []
  | n :: l => let? d := calculate_distance (pn_id n) id in let? r := with_distances id l in Ok ((pn_id n, d) :: r)
  end.
Definition find_all_nodes (c : PortalNetworkClient) : R (list H256) := Ok (map pn_id (peers (history_network c))).
Definition find_nodes_in_radius (id : H256) (radius : Z) (c : PortalNetworkClient) : R (list H256) :=
  let? l := with_distances id (peers (history_network c)) in Ok (filter (fun p => p.2 <= radius) l).*1.
Definition find_closest_nodes (id : H256) (count : Z) (c : PortalNetworkClient) : R (list H256) :=
  let? l := with_distances id (peers (history_network c)) in Ok (take (Z.to_nat count) (sort_by_key snd l)).*1.
Definition find_target_nodes (id : H256) (c : PortalNetworkClient) : R (list H256) :=
  match distribution_strategy c with
  | Broadcast => find_all_nodes c
  | Radius r => find_nodes_in_radius id r c
  | ContentAddressed => find_closest_nodes id 16 c
  | Redundant n => find_closest_nodes id n c
  end.
(** The transfer is simulated and never fails. *)
Definition send_to_node (node id data : list Z) : R unit := Ok tt.
Definition count_bytes (n : Z) (m : PortalMetrics) : PortalMetrics := mkPortalMetrics (blocks_distributed m) (wrap 64 (bytes_transferred m + n)) (distribution_failures m) (active_peers m).
Definition count_failure (m : PortalMetrics) : PortalMetrics := mkPortalMetrics (blocks_distributed m) (bytes_transferred m) (bump (distribution_failures m)) (active_peers m).
Definition count_block (m : PortalMetrics) : PortalMetrics := mkPortalMetrics (bump (blocks_distributed m)) (bytes_transferred m) (distribution_failures m) (active_peers m).
Fixpoint send_to_all (nodes : list H256) (id data : list Z) (successes : Z) : PM Z :=
  match nodes with
  | [] => sret successes
  | n :: nodes =>
      match send_to_node n id data with
      | Ok _ => let! s := slift (uadd 31 successes 1) in smodify (on_metrics (count_bytes (len data))) ;;! send_to_all nodes id data s
      | Err _ => smodify (on_metrics count_failure) ;;! send_to_all nodes id data successes
      | Panic => slift Panic
      | Diverge => slift Diverge
      end
  end.
Definition distribute_block (now : Z) (b : B) : PM unit :=
  let id := calculate_content_id b in
  smodify (on_network (store_block b)) ;;!
  let! c := sget in
  let! targets := slift (find_target_nodes id c) in
  if bool_decide (targets = []) then sret tt else
  smodify (on_network (register_transfer id (mkTransfer id targets now 0 Pending))) ;;!
  let! data := slift (or_err (PortalNetworkError "Serialization failed") (serialize_block b)) in
  let! successes := send_to_all targets id data 0 in
  if 0 <? successes then smodify (on_metrics count_block) ;;! smodify (on_network (mark_transfer_complete id))
  else smodify (on_network (mark_transfer_failed id "No successful transfers")) ;;! sfail (PortalNetworkError "Distribution failed").
(** A simulated peer answers with a thousand zeros or not at all. *)
Definition query_node (coin : bool) (node id : list Z) : R (option (list Z)) := Ok (if coin then Some (replicate 1000 0) else None).
Fixpoint query_nodes (coins : nat -> bool) (nodes : list H256) (id : H256) : PM (option B) :=
  match nodes with
  | [] => sret None
  | n :: nodes =>
      match query_node (coins 0%nat) n id with
      | Ok (Some data) =>
          let! b := slift (or_err (RetrievalError "Deserialization failed") (deserialize_block data)) in
          smodify (on_network (store_block b)) ;;! sret (Some b)
      | Ok None | Err _ => query_nodes (fun i => coins (S i)) nodes id
      | Panic => slift Panic
      | Diverge => slift Diverge
      end
  end.
Definition portal_retrieve_block (coins : nat -> bool) (h : H256) : PM (option B) :=
  let id := keccak256 h in
  let! c := sget in
  match get_block id (history_network c) with
  | Some b => sret (Some b)
  | None => let! closest := slift (find_closest_nodes id 8 c) in query_nodes coins closest id
  end.
Definition portal_get_stats (c : PortalNetworkClient) : PortalStats :=
  mkPortalStats (len (peers (history_network c))) (blocks_distributed (p_metrics c)) (bytes_transferred (p_metrics c)) (distribution_failures (p_metrics c))
    (Z.of_nat (size (active_transfers (history_network c)))) (content_radius (history_network c)).

(** * retrieval.rs *)

Inductive RetrievalStrategy := LocalFirst | NetworkFirst | ParallelSources | Adaptive (recent_threshold archive_after : Z).
Definition retrieval_default : RetrievalStrategy := Adaptive 10000 100000.
Inductive RetrievalSource := LocalArchive | PortalNetwork | FromCache.
Record CachedBlock := mkCachedBlock { cb_block : B; retrieved_at : Z; source : RetrievalSource }.
Record RetrievalCache := mkRCache { rc_blocks : gmap H256 CachedBlock; rc_max_size : Z; hit_count : Z; miss_count : Z }.
Record RetrievalMetrics := mkRMetrics {
  blocks_retrieved : Z; archive_retrievals : Z; network_retrievals : Z; rm_cache_hits : Z; retrieval_failures : Z; average_retrieval_time_ms : Z;
}.
Record RetrievalStats := mkRStats {
  rs_blocks_retrieved : Z; rs_archive_retrievals : Z; rs_network_retrievals : Z; rs_cache_hits : Z; cache_size : Z; cache_hit_rate : f64;
  rs_retrieval_failures : Z; rs_average_time_ms : Z;
}.

Section retrieval.
Context {S : Type} `{ArchivalBackend B S}.
Record HistoryRetriever := mkRetriever {
  r_strategy : RetrievalStrategy; archival_backend : S; portal_client : PortalNetworkClient; r_cache : RetrievalCache; r_metrics : RetrievalMetrics;
}.
Definition retriever_new (st : RetrievalStrategy) (a : S) (p : PortalNetworkClient) : R HistoryRetriever :=
  Ok (mkRetriever st a p (mkRCache ∅ 1000 0 0) (mkRMetrics 0 0 0 0 0 0)).
Notation RM := (SM HistoryRetriever HistoryExpiryError).
Definition on_rcache (f : RetrievalCache -> RetrievalCache) (r : HistoryRetriever) : HistoryRetriever := mkRetriever (r_strategy r) (archival_backend r) (portal_client r) (f (r_cache r)) (r_metrics r).
Definition on_rmetrics (f : RetrievalMetrics -> RetrievalMetrics) (r : HistoryRetriever) : HistoryRetriever := mkRetriever (r_strategy r) (archival_backend r) (portal_client r) (r_cache r) (f (r_metrics r)).
Definition count_retrieved (m : RetrievalMetrics) := mkRMetrics (bump (blocks_retrieved m)) (archive_retrievals m) (network_retrievals m) (rm_cache_hits m) (retrieval_failures m) (average_retrieval_time_ms m).
Definition count_archive (m : RetrievalMetrics) := mkRMetrics (blocks_retrieved m) (bump (archive_retrievals m)) (network_retrievals m) (rm_cache_hits m) (retrieval_failures m) (average_retrieval_time_ms m).
Definition count_network (m : RetrievalMetrics) := mkRMetrics (blocks_retrieved m) (archive_retrievals m) (bump (network_retrievals m)) (rm_cache_hits m) (retrieval_failures m) (average_retrieval_time_ms m).
Definition count_cache_hit (m : RetrievalMetrics) := mkRMetrics (blocks_retrieved m) (archive_retrievals m) (network_retrievals m) (bump (rm_cache_hits m)) (retrieval_failures m) (average_retrieval_time_ms m).
Definition count_failed_retrieval (m : RetrievalMetrics) := mkRMetrics (blocks_retrieved m) (archive_retrievals m) (network_retrievals m) (rm_cache_hits m) (bump (retrieval_failures m)) (average_retrieval_time_ms m).
Definition set_time (t : Z) (m : RetrievalMetrics) := mkRMetrics (blocks_retrieved m) (archive_retrievals m) (network_retrievals m) (rm_cache_hits m) (retrieval_failures m) t.
Definition set_counts (h m : Z) (c : RetrievalCache) : RetrievalCache := mkRCache (rc_blocks c) (rc_max_size c) h m.
Definition get_from_cache (now : Z) (h : H256) : RM (option B) :=
  let! r := sget in
  match rc_blocks (r_cache r) !! h with
  | Some x =>
      let! n := slift (uadd 64 (hit_count (r_cache r)) 1) in
      smodify (on_rcache (fun c => set_counts n (miss_count c) c)) ;;!
      if Z.max 0 (now - retrieved_at x) <? 300 * SECOND then sret (Some (cb_block x)) else
      smodify (on_rcache (fun c => mkRCache (delete h (rc_blocks c)) (rc_max_size c) (hit_count c) (miss_count c))) ;;!
      let! n := slift (uadd 64 (miss_count (r_cache r)) 1) in
      smodify (on_rcache (fun c => set_counts (hit_count c) n c)) ;;! sret None
  | None =>
      let! n := slift (uadd 64 (miss_count (r_cache r)) 1) in
      smodify (on_rcache (fun c => set_counts (hit_count c) n c)) ;;! sret None
  end.
Definition cache_block (now : Z) (h : H256) (b : B) (src : RetrievalSource) (r : HistoryRetriever) : HistoryRetriever :=
  on_rcache (fun c =>
    let m := if rc_max_size c <=? Z.of_nat (size (rc_blocks c))
      then match min_by_key (fun p : H256 * CachedBlock => retrieved_at p.2) (iter (rc_blocks c)) with Some (k, _) => delete k (rc_blocks c) | None => rc_blocks c end
      else rc_blocks c in
    mkRCache (<[h := mkCachedBlock b now src]> m) (rc_max_size c) (hit_count c) (miss_count c)) r.
(** The hash is not used. *)
Definition retrieve_from_archive (h : H256) : RM (option B) :=
  let! r := sget in let! l := slift (backend_retrieve "archive_id" 0 1 (archival_backend r)) in sret (head l).
Definition retrieve_from_network (coins : nat -> bool) (h : H256) : RM (option B) := fun r =>
  let (res, p) := portal_retrieve_block coins h (portal_client r) in (res, mkRetriever (r_strategy r) (archival_backend r) p (r_cache r) (r_metrics r)).
(** [match m { .. }] on a [Result]. *)
Definition try_ {A C} (m : RM A) (ok : A -> RM C) (err : HistoryExpiryError -> RM C) : RM C := fun r =>
  match m r with (Ok a, r) => ok a r | (Err e, r) => err e r | (Panic, r) => (Panic, r) | (Diverge, r) => (Diverge, r) end.
Definition found (count : RetrievalMetrics -> RetrievalMetrics) (b : B) : RM (option B) := smodify (on_rmetrics count) ;;! sret (Some b).
Definition retrieve_local_first (coins : nat -> bool) (h : H256) : RM (option B) :=
  let network := let! o := retrieve_from_network coins h in match o with Some b => found count_network b | None => sret None end in
  try_ (retrieve_from_archive h) (fun o => match o with Some b => found count_archive b | None => network end) (fun _ => network).
Definition retrieve_network_first (coins : nat -> bool) (h : H256) : RM (option B) :=
  let archive := let! o := retrieve_from_archive h in match o with Some b => found count_archive b | None => sret None end in
  try_ (retrieve_from_network coins h) (fun o => match o with Some b => found count_network b | None => archive end) (fun _ => archive).
(** [tokio::spawn]: a task that panics is an error of the handle. *)
Definition spawned {A} (m : RM A) : RM (option A) := fun r =>
  match m r with (Ok a, r) => (Ok (Some a), r) | (Err _, r) | (Panic, r) => (Ok None, r) | (Diverge, r) => (Diverge, r) end.
Definition retrieve_parallel (archive_first : bool) (coins : nat -> bool) (h : H256) : RM (option B) :=
  let archive := spawned (retrieve_from_archive h) in
  let network := spawned (retrieve_from_network coins h) in
  if archive_first then
    let! a := archive in
    match a with
    | Some (Some b) => network ;;! found count_archive b
    | _ => let! n := network in match n with Some o => smodify (on_rmetrics count_network) ;;! sret o | None => sret None end
    end
  else
    let! n := network in
    match n with
    | Some (Some b) => archive ;;! found count_network b
    | _ => let! a := archive in match a with Some (Some b) => found count_archive b | _ => sret None end
    end.
Definition retrieve_adaptive (coins : nat -> bool) (h : H256) (recent_threshold archive_after : Z) : RM (option B) :=
  let archive := try_ (retrieve_from_archive h) (fun o => match o with Some b => found count_archive b | None => sret None end) (fun _ => sret None) in
  try_ (retrieve_from_network coins h) (fun o => match o with Some b => found count_network b | None => archive end) (fun _ => archive).
(** [elapsed] is the time the retrieval takes, [done] the time it is cached. *)
Definition retrieve_block (now elapsed done : Z) (archive_first : bool) (coins : nat -> bool) (h : H256) : RM (option B) :=
  let! c := get_from_cache now h in
  match c with
  | Some b => smodify (on_rmetrics count_cache_hit) ;;! sret (Some b)
  | None =>
      let! r := sget in
      let m := match r_strategy r with
        | LocalFirst => retrieve_local_first coins h
        | NetworkFirst => retrieve_network_first coins h
        | ParallelSources => retrieve_parallel archive_first coins h
        | Adaptive t a => retrieve_adaptive coins h t a
        end in
      let timed := smodify (on_rmetrics (set_time (wrap 64 (elapsed / MILLISECOND)))) in
      try_ m
        (fun o => timed ;;!
           match o with
           | Some b => smodify (on_rmetrics count_retrieved) ;;! smodify (cache_block done h b LocalArchive) ;;! sret (Some b)
           | None => sret None
           end)
        (fun e => timed ;;! smodify (on_rmetrics count_failed_retrieval) ;;! sfail e)
  end.
Record Query := mkQuery { q_hash : H256; q_now : Z; q_elapsed : Z; q_done : Z; q_archive_first : bool; q_coins : nat -> bool }.
Definition ask_one (q : Query) : RM (option B) := retrieve_block (q_now q) (q_elapsed q) (q_done q) (q_archive_first q) (q_coins q) (q_hash q).
Fixpoint retrieve_each (qs : list Query) : RM (list B) :=
  match qs with
  | [] => sret []
  | q :: qs => let! o := spawned (ask_one q) in let! l := retrieve_each qs in sret (match o with Some (Some b) => b :: l | _ => l end)
  end.
Fixpoint retrieve_chunks (cs : list (list Query)) : RM (list B) :=
  match cs with [] => sret [] | c :: cs => let! l := retrieve_each c in let! k := retrieve_chunks cs in sret (l ++ k) end.
Definition retrieve_blocks (qs : list Query) : RM (list B) := let! cs := slift (chunks 10 qs) in retrieve_chunks cs.
Definition retrieve_range_from_archive (a b : Z) : RM (list B) := let! r := sget in slift (backend_retrieve "archive_id" a b (archival_backend r)).
Definition retrieve_block_range (a b : Z) : RM (list B) :=
  try_ (retrieve_range_from_archive a b) (fun l => match l with [] => sret [] | _ => sret l end) (fun _ => sret []).
Definition retriever_get_stats (r : HistoryRetriever) : R RetrievalStats :=
  let c := r_cache r in let m := r_metrics r in
  let? n := uadd 64 (hit_count c) (miss_count c) in
  Ok (mkRStats (blocks_retrieved m) (archive_retrievals m) (network_retrievals m) (rm_cache_hits m) (Z.of_nat (size (rc_blocks c)))
    (if 0 <? n then div (of_Z (hit_count c)) (of_Z n) else of_Z 0) (retrieval_failures m) (average_retrieval_time_ms m)).
End retrieval.
End portal.
End HistoryPortal.
