(* ===== verification/HistoryArchiveProofs.v ===== *)
(** What archives give back: the theorems on archival.rs, portal_integration.rs
    and retrieval.rs of crates/history-expiry. *)
From stdpp Require Import base list numbers option strings gmap pretty.
From Stdlib Require Import ZArith Lia.
From S2P Require Import Prelude U256 F64 HistoryExpiry HistoryProofs DasNet HistoryArchive HistoryPortal.

Module HistoryArchiveProofs.
Import HistoryExpiry DasNet HistoryArchive HistoryPortal.

(** The crates give back what they were given. *)
Class CodecsLaws {B} `{Codecs B} : Prop := {
  zstd_law level data x : zstd_encode_all level data = Some x -> zstd_decode_all x = Some data;
  lz4_law data x : lz4_compress data = Some x -> lz4_decompress x = Some data;
  snap_law data x : snap_compress data = Some x -> snap_decompress x = Some data;
  blocks_law bs x : serialize_blocks bs = Some x -> deserialize_blocks x = Some bs;
}.

Section archives.
Context `{Profile} `{KeccakOps} {B : Type} `{ChainBlock B} `{Codecs B} `{!CodecsLaws}.
Implicit Types (s : FileSystemBackend).

Lemma or_err_ok {A} e (o : option A) a : or_err e o = Ok a <-> o = Some a.
Proof. destruct o; cbn; naive_solver. Qed.
Lemma decompress_compress data x s s' : compression s' = compression s -> compress_data data s = Ok x -> decompress_data x s' = Ok data.
Proof.
  unfold compress_data, decompress_data. intros ->. destruct (compression s); [by intros [= ->]|..]; rewrite !or_err_ok; [apply zstd_law|apply lz4_law|apply snap_law].
Qed.
Lemma string_length_app (a b : string) : String.length (a +:+ b) = (String.length a + String.length b)%nat.
Proof. induction a as [|x a IH]; [done|]. simpl. by rewrite IH. Qed.
Lemma dat_inj (a b : string) : a +:+ ".dat" = b +:+ ".dat" -> a = b.
Proof.
  revert b. induction a as [|x a IH]; intros [|y b] He; [done| | |].
  - exfalso. apply (f_equal String.length) in He. rewrite !string_length_app in He. cbn in He. lia.
  - exfalso. apply (f_equal String.length) in He. rewrite !string_length_app in He. cbn in He. lia.
  - injection He as -> He. f_equal. by apply IH.
Qed.
Lemma archive_path_inj base a b : archive_path base a = archive_path base b -> a = b.
Proof. intros [= He]. by apply dat_inj. Qed.

(** Archiving batches one after the other. *)
Fixpoint archive_all (l : list (Z * list B)) : SM FileSystemBackend HistoryExpiryError (list string) :=
  match l with
  | [] => sret []
  | (now, bs) :: l => let! id := fs_archive_blocks true Written now bs in let! ids := archive_all l in sret (id :: ids)
  end.
(** The archive [id] of [bs] is on the disk. *)
Definition on_disk (s : FileSystemBackend) (id : string) (bs : list B) : Prop :=
  exists raw data e, serialize_blocks bs = Some raw /\ compress_data raw s = Ok data /\ files s !! archive_path (base_path s) id = Some data /\
    e ∈ archives s /\ e_id e = id /\ path e = archive_path (base_path s) id /\ checksum e = keccak256 data.
(** What one call does when it returns. *)
Lemma fs_archive_spec now bs s id s' : fs_archive_blocks true Written now bs s = (Ok id, s') ->
  base_path s' = base_path s /\ compression s' = compression s /\ on_disk s' id bs /\
  (exists e, archives s' = archives s ++ [e] /\ e_id e = id) /\ (exists f l, id = archive_name f l) /\
  (forall p, p <> archive_path (base_path s) id -> files s' !! p = files s !! p).
Proof.
  unfold fs_archive_blocks. destruct (head bs) as [f|]; [|done]. destruct (last bs) as [l|]; [|done]. rewrite sbind_get.
  intros Hr. apply sbind_inv in Hr as (? & s1 & H1' & Hr). injection H1' as <- <-. apply sbind_inv in Hr as (raw & s1 & [Hraw <-]%pair_equal_spec & Hr). apply or_err_ok in Hraw.
  apply sbind_inv in Hr as (data & s1 & [Hdata <-]%pair_equal_spec & Hr). cbn [write_file] in Hr. rewrite sbind_modify in Hr.
  apply sbind_inv in Hr as (e & s1 & [He <-]%pair_equal_spec & Hr). rewrite sbind_modify in Hr. apply sbind_inv in Hr as (size & s1 & [Hsize <-]%pair_equal_spec & Hr).
  rewrite sbind_modify in Hr. apply sbind_inv in Hr as (n & s1 & [Hn <-]%pair_equal_spec & Hr). rewrite sbind_modify in Hr. injection Hr as <- <-.
  cbn [base_path compression archives files set_files]. split_and!; [done|done| |by eexists|by do 2 eexists|].
  - exists raw, data. eexists. split_and!; [done|done|cbn; apply lookup_insert_eq|cbn; apply elem_of_app; right; apply list_elem_of_here|done|done|done].
  - intros p Hp. by rewrite lookup_insert_ne.
Qed.
Lemma archive_all_spec l s ids s' : archive_all l s = (Ok ids, s') -> NoDup (map e_id (archives s) ++ ids) ->
  base_path s' = base_path s /\ compression s' = compression s /\ map e_id (archives s') = map e_id (archives s) ++ ids /\
  (forall id bs, id ∈ map e_id (archives s) -> on_disk s id bs -> on_disk s' id bs) /\
  Forall2 (fun id p => on_disk s' id p.2) ids l /\ Forall (fun id => exists f k, id = archive_name f k) ids.
Proof.
  revert s ids. induction l as [|[now bs] l IH]; intros s ids Hr Hnd.
  { injection Hr as <- <-. rewrite app_nil_r. split_and!; auto. }
  cbn [archive_all] in Hr. apply sbind_inv in Hr as (id & s1 & H1' & Hr). apply sbind_inv in Hr as (ids' & s2 & H2' & [= <- <-]).
  apply fs_archive_spec in H1' as (Hb & Hc & Hon & (e & He & Hid) & Hname & Hfiles). rewrite cons_middle, app_assoc in Hnd.
  assert (map e_id (archives s1) = map e_id (archives s) ++ [id]) as Hids by (rewrite He, map_app; cbn; by rewrite Hid).
  rewrite <- Hids in Hnd. destruct (IH s1 ids' H2' Hnd) as (Hb2 & Hc2 & Ha2 & Hkeep & Hall & Hnames).
  split_and!; [congruence|congruence|rewrite Ha2, Hids, <- app_assoc; done| | |by constructor].
  - intros id' bs' Hin (raw & data & e' & Hraw & Hdata & Hf & Hein & He' & Hp & Hck). apply Hkeep; [rewrite Hids; set_solver|].
    exists raw, data, e'. rewrite Hb. split_and!; [done|unfold compress_data in *; by rewrite Hc| |rewrite He; set_solver|done|done|done].
    rewrite Hfiles; [done|]. intros Heq%archive_path_inj. rewrite Heq in Hin. rewrite Hids, NoDup_app in Hnd. destruct Hnd as (Hnd & _). apply NoDup_app in Hnd as (_ & Hnd & _).
    apply (Hnd id Hin), list_elem_of_here.
  - constructor; [|done]. apply Hkeep; [rewrite Hids; set_solver|done].
Qed.
Lemma find_unique s e : NoDup (map e_id (archives s)) -> e ∈ archives s -> find_archive (e_id e) s = Some e.
Proof.
  intros Hnd Hin. unfold find_archive. destruct (list_find _ _) as [[i e']|] eqn:Hf.
  - apply list_find_Some in Hf as (Hi & He & _). cbn. f_equal. apply list_elem_of_lookup in Hin as [j Hj].
    assert (i = j) as ->; [|congruence]. eapply (NoDup_lookup (map e_id (archives s))); [done|by rewrite list_lookup_fmap, Hi|rewrite list_lookup_fmap, Hj; cbn; by rewrite He].
  - apply list_find_None in Hf. rewrite list.Forall_forall in Hf. exfalso. by apply (Hf e Hin).
Qed.
Lemma on_disk_retrieved s id bs a b : NoDup (map e_id (archives s)) -> on_disk s id bs ->
  fs_retrieve_blocks id a b s = Ok (filter (in_range a b) bs) /\ fs_verify_archive id s = Ok true.
Proof.
  intros Hnd (raw & data & e & Hraw & Hdata & Hf & Hin & <- & Hp & Hck). unfold fs_retrieve_blocks, fs_verify_archive. rewrite (find_unique s e Hnd Hin). cbn [or_err obind].
  rewrite Hp, Hf. cbn [or_err obind]. rewrite Hck, bool_decide_true by done. cbn [negb]. split; [|done].
  rewrite (decompress_compress raw data s s) by done. cbn [obind]. by rewrite (blocks_law bs raw Hraw).
Qed.
(** C39: batches of blocks archived under different names come back: every
    archive verifies, and asked for a range of numbers it gives exactly the
    blocks of its batch with these numbers, in their order, whatever is
    archived before and after it and whichever compression is set. *)
Theorem archives_come_back base c disk l ids s :
  archive_all l (mkFs base c [] 0 0 disk) = (Ok ids, s) -> NoDup ids ->
  forall i id now bs, ids !! i = Some id -> l !! i = Some (now, bs) ->
    fs_verify_archive id s = Ok true /\ forall a b, fs_retrieve_blocks id a b s = Ok (filter (in_range a b) bs).
Proof.
  intros Hr Hnd i id now bs Hi Hl. destruct (archive_all_spec l _ ids s Hr Hnd) as (_ & _ & Ha & _ & Hall & _). cbn in Ha. rewrite <- Ha in Hnd.
  pose proof (Forall2_lookup_lr _ _ _ _ _ _ Hall Hi Hl) as Hon. split; [by eapply (on_disk_retrieved s id bs 0 0)|]. intros a b. by apply on_disk_retrieved.
Qed.
End archives.

Section lost.
Context `{Profile} `{U256Ops} `{KeccakOps} `{HashOrder} {B : Type} `{ChainBlock B} `{Codecs B} `{!CodecsLaws}.

(** * The portal network *)


(** * The retriever over files and the portal network *)

Notation Retriever := (HistoryRetriever (B := B) (S := FileSystemBackend)).
End lost.

(** * Witnesses and examples *)

#[local] Existing Instance dev_profile.
#[local] Instance map_order : HashOrder := {| iter K V _ _ m := map_to_list m |}.
(** A block is its number, and its hash starts with it. *)
#[local] Instance number_block : ChainBlock Z := {| block_number b := b; header_hash b := b :: replicate 31 0 |}.
#[local] Instance plain_codecs : Codecs Z := {|
  zstd_encode_all _ d := Some (1 :: d); zstd_decode_all d := match d with 1 :: d => Some d | _ => None end;
  lz4_compress := Some; lz4_decompress := Some; snap_compress := Some; snap_decompress := Some;
  serialize_blocks := Some; deserialize_blocks := Some; serialize_block b := Some [b]; deserialize_block := head;
|}.
#[local] Instance plain_codecs_laws : CodecsLaws.
Proof. split; cbn; naive_solver. Qed.
Definition toy_batches : list (Z * list Z) := [(1, [10; 11; 12]); (2, [13; 14])].
Definition toy_ids : list string := ["blocks_10-12"; "blocks_13-14"].
Lemma toy_archived : exists s, archive_all toy_batches (mkFs "data" (Zstd 3) [] 0 0 ∅) = (Ok toy_ids, s).
Proof. eexists. vm_compute. reflexivity. Defined.
Lemma toy_ids_nodup : NoDup toy_ids.
Proof. by apply (bool_decide_unpack _); vm_compute. Qed.
Lemma archives_come_back_witness : exists s, archive_all toy_batches (mkFs "data" (Zstd 3) [] 0 0 ∅) = (Ok toy_ids, s) /\
  fs_retrieve_blocks "blocks_10-12" 11 20 s = Ok [11; 12].
Proof.
  destruct toy_archived as [s Hs]. exists s. split; [exact Hs|].
  destruct (archives_come_back "data" (Zstd 3) ∅ toy_batches toy_ids s Hs toy_ids_nodup 0 "blocks_10-12" 1 [10; 11; 12] eq_refl eq_refl) as [_ Hr].
  rewrite (Hr 11 20). by vm_compute.
Defined.
(** A second archive of the same first and last block overwrites the file, and
    neither of the two can be read again. *)
Example same_name_destroys : let s := (archive_all [(1, [10; 11; 12]); (2, [10; 13; 12])] (mkFs "data" Lz4 [] 0 0 ∅)).2 in
  fs_retrieve_blocks (B := Z) "blocks_10-12" 0 99 s = Err (RetrievalError "Checksum mismatch") /\ len (archives s) = 2.
Proof. by vm_compute. Qed.
(** An empty batch is an error. *)
Example empty_batch : (fs_archive_blocks true Written 1 [] (mkFs "data" Lz4 [] 0 0 ∅)).1 = Err (ArchivalError "No blocks to archive").
Proof. by vm_compute. Qed.
(** A node that is known answers with mock data, which fails to decode. *)
Example mock_answer : (portal_retrieve_block (B := Z) (H4 := {|
    zstd_encode_all _ d := Some d; zstd_decode_all := Some; lz4_compress := Some; lz4_decompress := Some; snap_compress := Some; snap_decompress := Some;
    serialize_blocks := Some; deserialize_blocks := Some; serialize_block b := Some [b]; deserialize_block d := match d with [b] => Some b | _ => None end |})
  (fun _ => true) (replicate 32 1) (mkPortal (mkNetwork ∅ 10000 [mkPNode (replicate 32 2) 0 0] 0 ∅) Broadcast portal_metrics_new)).1 = Err (RetrievalError "Deserialization failed").
Proof. by vm_compute. Qed.
End HistoryArchiveProofs.
