(* ===== verification/Discv5.v ===== *)
(** Node discovery: crates/network/src/discovery_v5.rs.  A [NodeId] is the 32
    bytes of its [H256], an instant a number of nanoseconds, [NodeInfo] and the
    hash maps are records and finite maps.  Random numbers, shuffles and the
    clock are arguments of the operations that draw them.  The bincode crate is
    the class [Bincode], and the key derivation the file calls but the crypto
    crate does not have is the argument [public_key_from_private] of [new].
    The datagrams handed to the socket are kept in [sent], oldest first. *)
From stdpp Require Import base list numbers option strings gmap.
From Stdlib Require Import ZArith Lia.
From S2P Require Import Prelude U256 Precompiled Crypto DasNet.

(** [U256::leading_zeros] of the primitive-types crate. *)
Class LeadingZeros := { u_leading_zeros : Z -> Z }.
Class LeadingZerosLaws `{LeadingZeros} : Prop := {
  leading_zeros_law a : U256 a -> u_leading_zeros a = if a =? 0 then 256 else 255 - Z.log2 a
}.
#[export] Instance leading_zeros_model : LeadingZeros := {| u_leading_zeros a := if a =? 0 then 256 else 255 - Z.log2 a |}.
#[export] Instance leading_zeros_model_laws : LeadingZerosLaws.
Proof. by split. Qed.

Module Discv5.
Import DasNet.

Inductive DiscoveryError := InvalidEnr | InvalidSignature | NodeNotFound | BucketFull | NetworkError | DecodingError.
Notation R := (outcome DiscoveryError).
Notation NodeId := (list Z).
Notation H256 := (list Z).

(** * Node records *)

Inductive IpAddr := V4 (octets : list Z) | V6 (octets : list Z).
Record SocketAddr := mkAddr { addr_ip : IpAddr; addr_port : Z }.
Record Eth2Data := mkEth2 { fork_digest : list Z; next_fork_version : list Z; next_fork_epoch : Z }.
Record Enr := mkEnr {
  seq : Z; node_id : NodeId;
  ip : option IpAddr; tcp : option Z; udp : option Z;
  ip6 : option IpAddr; tcp6 : option Z; udp6 : option Z;
  id : string; secp256k1 : option (list Z); eth2 : option Eth2Data;
  attnets : option (list Z); syncnets : option (list Z);
  signature : list Z; custom_fields : gmap string (list Z);
}.
Record NodeAddress := mkNodeAddress { na_id : NodeId; na_ip : IpAddr; udp_port : Z; tcp_port : Z }.
Inductive Message :=
| Ping (request_id enr_seq : Z)
| Pong (request_id enr_seq : Z) (ip : IpAddr) (port : Z)
| FindNode (request_id : Z) (distances : list Z)
| Nodes (request_id total : Z) (enrs : list Enr)
| TalkRequest (request_id : Z) (protocol request : list Z)
| TalkResponse (request_id : Z) (response : list Z)
| RegisterTopic (request_id : Z) (topic : H256) (enr : Enr) (ticket : list Z)
| Ticket (request_id : Z) (ticket : list Z) (wait_time : Z)
| RegistrationConfirmation (request_id : Z) (topic : H256)
| TopicQuery (request_id : Z) (topic : H256).

(** [bincode::serialize] and [deserialize]; [None] is an error. *)
Class Bincode := {
  serialize_enr : Enr -> option (list Z); deserialize_enr : list Z -> option Enr;
  serialize_message : Message -> option (list Z); deserialize_message : list Z -> option Message;
}.

Definition enr_new (n : NodeId) (s : Z) : Enr := mkEnr s n None None None None None None "v5" None None None None [] ∅.
Definition with_ip (a : IpAddr) (t u : Z) (e : Enr) : Enr :=
  match a with
  | V4 _ => mkEnr (seq e) (node_id e) (Some a) (Some t) (Some u) (ip6 e) (tcp6 e) (udp6 e) (id e) (secp256k1 e) (eth2 e) (attnets e) (syncnets e) (signature e) (custom_fields e)
  | V6 _ => mkEnr (seq e) (node_id e) (ip e) (tcp e) (udp e) (Some a) (Some t) (Some u) (id e) (secp256k1 e) (eth2 e) (attnets e) (syncnets e) (signature e) (custom_fields e)
  end.
Definition content_to_sign (e : Enr) : list Z :=
  to_be 8 (seq e) ++ node_id e ++
  match ip e with Some (V4 o) | Some (V6 o) => [105; 112] ++ o | None => [] end.
(** The record is only checked to carry some signature. *)
Definition verify (e : Enr) : R bool := Ok (negb (bool_decide (signature e = []))).
Definition set_signature (s : list Z) (e : Enr) : Enr :=
  mkEnr (seq e) (node_id e) (ip e) (tcp e) (udp e) (ip6 e) (tcp6 e) (udp6 e) (id e) (secp256k1 e) (eth2 e) (attnets e) (syncnets e) s (custom_fields e).
Definition or_else {A} (a b : option A) : option A := match a with Some _ => a | None => b end.
Definition node_address (e : Enr) : option NodeAddress :=
  match or_else (ip e) (ip6 e), or_else (udp e) (udp6 e) with
  | Some a, Some u => Some (mkNodeAddress (node_id e) a u (default u (or_else (tcp e) (tcp6 e))))
  | _, _ => None
  end.
Definition socket_addr (a : NodeAddress) : SocketAddr := mkAddr (na_ip a) (udp_port a).

Section enr.
Context `{KeccakOps} `{CryptoOps} `{SignOps} `{Profile} `{Bincode}.
Definition sign (private_key : list Z) (e : Enr) : R Enr :=
  match sign_message (keccak256 (content_to_sign e)) private_key with
  | Ok s => Ok (set_signature (sig_to_bytes s) e)
  | Err _ => Err InvalidSignature
  | Panic => Panic
  | Diverge => Diverge
  end.
Definition enr_encode (e : Enr) : list Z := default [] (serialize_enr e).
Definition enr_decode (data : list Z) : R Enr := match deserialize_enr data with Some e => Ok e | None => Err DecodingError end.
Definition from_public_key (pubkey : list Z) : NodeId := keccak256 pubkey.
End enr.

(** * Distances *)

Section distance.
Context `{U256Ops} `{LeadingZeros} `{Profile}.
Definition distance (a b : NodeId) : R Z := unwrap (u_from_big_endian (zip_with Z.lxor a b)).
Definition log_distance (a b : NodeId) : R (option Z) :=
  let? dist := distance a b in
  if dist =? 0 then Ok None else let? d := usub 64 256 (u_leading_zeros dist) in Ok (Some d).
End distance.

(** * The routing table *)

Record KBucket := mkBucket { nodes : list NodeId; capacity : Z; last_updated : Z }.
Record NodeInfo := mkInfo { enr : Enr; last_seen : Z; failures : Z }.
Record RoutingTable := mkTable { local_id : NodeId; buckets : list KBucket; node_info : gmap NodeId NodeInfo }.
Definition table_new (now : Z) (n : NodeId) : RoutingTable := mkTable n (replicate 256 (mkBucket [] 16 now)) ∅.

Section table.
Context `{U256Ops} `{LeadingZeros} `{Profile} `{HashOrder}.

Definition bucket_index (n : NodeId) (t : RoutingTable) : R Z :=
  let? d := log_distance (local_id t) n in
  match d with None => Err NodeNotFound | Some d => Ok (Z.min d 255) end.
(** [remove(pos)] of a position that was just found. *)
Definition remove_at {A} (i : nat) (l : list A) : list A := take i l ++ drop (S i) l.
Definition touch (n : NodeId) (b : KBucket) : R (list NodeId) :=
  match position (fun i => bool_decide (i = n)) (nodes b) with
  | Some pos => Ok (remove_at pos (nodes b) ++ [n])
  | None => if len (nodes b) <? capacity b then Ok (nodes b ++ [n]) else Err BucketFull
  end.
(** [updated] and [seen] are the two readings of the clock. *)
Definition add_node (updated seen : Z) (e : Enr) : SM RoutingTable DiscoveryError unit :=
  let! t := sget in
  if bool_decide (node_id e = local_id t) then sret tt else
  let! i := slift (bucket_index (node_id e) t) in
  let! b := slift (index (buckets t) i) in
  let! ns := slift (touch (node_id e) b) in
  smodify (fun t => mkTable (local_id t) (<[Z.to_nat i := mkBucket ns (capacity b) updated]> (buckets t)) (<[node_id e := mkInfo e seen 0]> (node_info t))).
Definition remove_node (n : NodeId) : SM RoutingTable DiscoveryError unit :=
  let! t := sget in
  match bucket_index n t with
  | Ok i =>
      let! b := slift (index (buckets t) i) in
      smodify (fun t => mkTable (local_id t)
        (<[Z.to_nat i := mkBucket (filter (fun m => m <> n) (nodes b)) (capacity b) (last_updated b)]> (buckets t)) (delete n (node_info t)))
  | Err _ => sret tt
  | Panic => slift Panic
  | Diverge => slift Diverge
  end.
Definition get_node (n : NodeId) (t : RoutingTable) : option Enr := enr <$> node_info t !! n.
Fixpoint with_distance (target : NodeId) (l : list NodeId) : R (list (NodeId * Z)) :=
  match l with
  | [] => Ok []
  | n :: l => let? d := distance n target in let? r := with_distance target l in Ok ((n, d) :: r)
  end.
Definition closest_nodes (target : NodeId) (limit : Z) (t : RoutingTable) : R (list Enr) :=
  let? l := with_distance target (concat (map nodes (buckets t))) in
  Ok (omap (fun p : NodeId * Z => enr <$> node_info t !! p.1) (take (Z.to_nat limit) (sort_by_key snd l))).
Definition random_nodes (shuffle : list Enr -> list Enr) (count : Z) (t : RoutingTable) : list Enr :=
  take (Z.to_nat count) (shuffle (map (fun p => enr p.2) (iter (node_info t)))).
End table.

(** * Topics *)

Record TopicRegistration := mkRegistration { reg_node_id : NodeId; reg_enr : Enr; registered_at : Z; expires_at : Z }.
Record TicketInfo := mkTicketInfo { t_topic : H256; t_node_id : NodeId; created_at : Z; t_wait_time : Z }.
Record TopicTable := mkTopics { registrations : gmap H256 (list TopicRegistration); tickets : gmap (list Z) TicketInfo }.
Definition topics_new : TopicTable := mkTopics ∅ ∅.
Definition register (now now' : Z) (topic : H256) (e : Enr) (duration : Z) (t : TopicTable) : TopicTable :=
  mkTopics (<[topic := default [] (registrations t !! topic) ++ [mkRegistration (node_id e) e now (now' + duration)]]> (registrations t)) (tickets t).
Definition query (now : Z) (topic : H256) (limit : Z) (t : TopicTable) : list Enr :=
  match registrations t !! topic with
  | Some regs => map reg_enr (take (Z.to_nat limit) (filter (fun r => now < expires_at r) regs))
  | None => []
  end.
Definition create_ticket (random : list Z) (now : Z) (topic : H256) (n : NodeId) (t : TopicTable) : list Z * TopicTable :=
  (random, mkTopics (registrations t) (<[random := mkTicketInfo topic n now (5 * SECOND)]> (tickets t))).
Definition verify_ticket (ticket : list Z) (t : TopicTable) : option (H256 * NodeId) :=
  (fun i => (t_topic i, t_node_id i)) <$> tickets t !! ticket.
(** [duration_since] is zero for a later instant. *)
Definition since (now t : Z) : Z := Z.max 0 (now - t).
Definition cleanup_expired (now : Z) (t : TopicTable) : TopicTable :=
  mkTopics (filter (fun r => now < expires_at r) <$> registrations t)
    (filter (fun p => since now (created_at p.2) < 300 * SECOND) (tickets t)).

(** * The service *)

Record PendingRequest := mkPending { p_message : Message; p_node_id : NodeId; sent_at : Z; p_timeout : Z }.
Record Discovery := mkDiscovery {
  d_local_id : NodeId; local_enr : Enr; routing_table : RoutingTable; topic_table : TopicTable;
  pending_requests : gmap Z PendingRequest; sent : list (list Z * SocketAddr);
}.
Notation M := (SM Discovery DiscoveryError).
Definition set_table (t : RoutingTable) (d : Discovery) : Discovery :=
  mkDiscovery (d_local_id d) (local_enr d) t (topic_table d) (pending_requests d) (sent d).
Definition set_topics (t : TopicTable) (d : Discovery) : Discovery :=
  mkDiscovery (d_local_id d) (local_enr d) (routing_table d) t (pending_requests d) (sent d).
Definition set_pending (p : gmap Z PendingRequest) (d : Discovery) : Discovery :=
  mkDiscovery (d_local_id d) (local_enr d) (routing_table d) (topic_table d) p (sent d).
Definition emit (p : list Z * SocketAddr) (d : Discovery) : Discovery :=
  mkDiscovery (d_local_id d) (local_enr d) (routing_table d) (topic_table d) (pending_requests d) (sent d ++ [p]).
(** The instants a handler reads, in order. *)
Definition Clock := nat -> Z.

Section service.
Context `{U256Ops} `{LeadingZeros} `{Profile} `{HashOrder} `{KeccakOps} `{CryptoOps} `{SignOps} `{Bincode} `{Relock}.

Definition new (public_key_from_private : list Z -> list Z) (now : Z) (bind_addr : SocketAddr) (private_key : list Z) : R Discovery :=
  let n := from_public_key (public_key_from_private private_key) in
  let? e := sign private_key (with_ip (addr_ip bind_addr) (addr_port bind_addr) (addr_port bind_addr) (enr_new n 1)) in
  Ok (mkDiscovery n e (table_new now n) topics_new ∅ []).
Definition encode_message (m : Message) : list Z := default [] (serialize_message m).
Definition decode_message (data : list Z) : R Message := match deserialize_message data with Some m => Ok m | None => Err DecodingError end.
(** A failed send is only logged. *)
Definition send_message (m : Message) (a : SocketAddr) : M unit := smodify (emit (encode_message m, a)).
Definition handle_ping (request_id enr_seq : Z) (a : SocketAddr) : M unit :=
  let! d := sget in send_message (Pong request_id (seq (local_enr d)) (addr_ip a) (addr_port a)) a.
Definition handle_pong (request_id enr_seq : Z) : M unit := smodify (fun d => set_pending (delete request_id (pending_requests d)) d).
Fixpoint collect_nodes (shuffles : nat -> list Enr -> list Enr) (d : Discovery) (distances : list Z) : list Enr :=
  match distances with
  | [] => []
  | x :: l => (if x =? 0 then [local_enr d] else random_nodes (shuffles 0%nat) 3 (routing_table d)) ++ collect_nodes (fun i => shuffles (S i)) d l
  end.
(** [chunks(3)] *)
Fixpoint threes {A} (l : list A) : list (list A) :=
  match l with
  | a :: b :: c :: l => [a; b; c] :: threes l
  | [] => []
  | _ => [l]
  end.
Fixpoint send_all (ms : list Message) (a : SocketAddr) : M unit :=
  match ms with [] => sret tt | m :: ms => send_message m a ;;! send_all ms a end.
Definition handle_find_node (shuffles : nat -> list Enr -> list Enr) (request_id : Z) (distances : list Z) (a : SocketAddr) : M unit :=
  let! d := sget in
  let all_nodes := collect_nodes shuffles d distances in
  send_all (map (fun chunk => Nodes request_id (wrap 8 (len all_nodes / 3 + 1)) chunk) (threes all_nodes)) a.
(** A record that is not added is skipped; a panic is not. *)
Fixpoint add_verified (clock : Clock) (es : list Enr) : M unit :=
  match es with
  | [] => sret tt
  | e :: es =>
      (if match verify e with Ok b => b | _ => false end then
         let! d := sget in
         let (r, t) := add_node (clock 0%nat) (clock 1%nat) e (routing_table d) in
         smodify (set_table t) ;;! match r with Ok _ | Err _ => sret tt | Panic => slift Panic | Diverge => slift Diverge end
       else sret tt) ;;!
      add_verified (fun i => clock (S (S i))) es
  end.
Definition handle_nodes (clock : Clock) (request_id total : Z) (es : list Enr) : M unit :=
  add_verified clock es ;;! smodify (fun d => set_pending (delete request_id (pending_requests d)) d).
Definition handle_register_topic (clock : Clock) (request_id : Z) (topic : H256) (e : Enr) (ticket : list Z) (a : SocketAddr) : M unit :=
  let! d := sget in
  match verify_ticket ticket (topic_table d) with
  | Some _ =>
      smodify (fun d => set_topics (register (clock 0%nat) (clock 1%nat) topic e (3600 * SECOND) (topic_table d)) d) ;;!
      send_message (RegistrationConfirmation request_id topic) a
  | None => sret tt
  end.
Definition handle_topic_query (clock : Clock) (request_id : Z) (topic : H256) (a : SocketAddr) : M unit :=
  let! d := sget in send_message (Nodes request_id 1 (query (clock 0%nat) topic 5 (topic_table d))) a.
(** One turn of the loop of [message_handler]. *)
Definition handle_message (clock : Clock) (shuffles : nat -> list Enr -> list Enr) (m : Message) (a : SocketAddr) : M unit :=
  match m with
  | Ping request_id enr_seq => handle_ping request_id enr_seq a
  | Pong request_id enr_seq _ _ => handle_pong request_id enr_seq
  | FindNode request_id distances => handle_find_node shuffles request_id distances a
  | Nodes request_id total enrs => handle_nodes clock request_id total enrs
  | RegisterTopic request_id topic enr ticket => handle_register_topic clock request_id topic enr ticket a
  | TopicQuery request_id topic => handle_topic_query clock request_id topic a
  | _ => sret tt
  end.
(** [network_listener] queues what decodes, and the handler takes it. *)
Definition receive (clock : Clock) (shuffles : nat -> list Enr -> list Enr) (data : list Z) (a : SocketAddr) : M unit :=
  match decode_message data with Ok m => handle_message clock shuffles m a | _ => sret tt end.
(** [pending_requests.write()] by the task that holds the guard. *)
Definition lock_pending (held : bool) : M unit := if held then slift relocked else sret tt.
Fixpoint ask (held : bool) (ids : nat -> Z) (clock : Clock) (es : list Enr) : M unit :=
  match es with
  | [] => sret tt
  | e :: es =>
      match node_address e with
      | Some a =>
          let find_node := FindNode (ids 0%nat) [0; 1; 2] in
          send_message find_node (socket_addr a) ;;!
          lock_pending held ;;!
          smodify (fun d => set_pending (<[ids 0%nat := mkPending find_node (node_id e) (clock 0%nat) (5 * SECOND)]> (pending_requests d)) d)
      | None => sret tt
      end ;;!
      ask held (fun i => ids (S i)) (fun i => clock (S i)) es
  end.
Definition find_node (held : bool) (ids : nat -> Z) (clock : Clock) (target : NodeId) : M (list Enr) :=
  let! d := sget in
  let! closest := slift (closest_nodes target 3 (routing_table d)) in
  ask held ids clock closest ;;! sret closest.
Definition refresh_buckets (held : bool) (random_target : NodeId) (ids : nat -> Z) (clock : Clock) : M unit :=
  find_node held ids clock random_target ;;! sret tt.
(** One turn of [maintenance_loop]: the guard of the pending requests lives
    until the end of the turn. *)
Definition maintenance_tick (clock : Clock) (random_target : NodeId) (ids : nat -> Z) : M unit :=
  smodify (fun d => set_topics (cleanup_expired (clock 0%nat) (topic_table d)) d) ;;!
  smodify (fun d => set_pending (filter (fun p => since (clock 1%nat) (sent_at p.2) < p_timeout p.2) (pending_requests d)) d) ;;!
  refresh_buckets true random_target ids (fun i => clock (S (S i))).
Definition register_topic (clock : Clock) (topic : H256) (e : Enr) : M unit :=
  smodify (fun d => set_topics (register (clock 0%nat) (clock 1%nat) topic e (3600 * SECOND) (topic_table d)) d).
Definition query_topic (now : Z) (topic : H256) (d : Discovery) : list Enr := query now topic 10 (topic_table d).
End service.
End Discv5.
