(* ===== verification/Discv5Proofs.v ===== *)
(** The routing table of node discovery: the theorems on
    crates/network/src/discovery_v5.rs. *)
From stdpp Require Import base list numbers option strings gmap sorting.
From Stdlib Require Import ZArith Lia Sorted.
From S2P Require Import Prelude U256 Precompiled Crypto DasNet Discv5.

Module Discv5Proofs.
Import DasNet Discv5.

(** * The exclusive-or metric *)

(** A number split at bit [k]. *)
Lemma testbit_split a r k n : 0 <= k -> 0 <= r < 2 ^ k -> 0 <= n ->
  Z.testbit (a * 2 ^ k + r) n = if n <? k then Z.testbit r n else Z.testbit a (n - k).
Proof.
  intros Hk Hr Hn. destruct (Z.ltb_spec n k).
  - rewrite <- (Z.mod_pow2_bits_low _ k n) by lia. rewrite Z.add_comm, Z.mod_add, Z.mod_small by lia. done.
  - replace n with ((n - k) + k) at 1 by lia. rewrite <- Z.div_pow2_bits by lia.
    rewrite Z.div_add_l, Z.div_small, Z.add_0_r by lia. done.
Qed.
Lemma lxor_split a b r s k : 0 <= k -> 0 <= r < 2 ^ k -> 0 <= s < 2 ^ k -> 0 <= Z.lxor r s < 2 ^ k ->
  Z.lxor (a * 2 ^ k + r) (b * 2 ^ k + s) = Z.lxor a b * 2 ^ k + Z.lxor r s.
Proof.
  intros Hk Hr Hs Hx. apply Z.bits_inj'. intros n Hn. rewrite Z.lxor_spec, !testbit_split by done.
  destruct (n <? k); by rewrite Z.lxor_spec.
Qed.
Lemma lxor_bound a b k : 0 <= k -> 0 <= a < 2 ^ k -> 0 <= b < 2 ^ k -> 0 <= Z.lxor a b < 2 ^ k.
Proof.
  intros Hk Ha Hb. assert (0 <= Z.lxor a b) as H0 by (apply Z.lxor_nonneg; lia). split; [done|].
  destruct (Z.eq_dec (Z.lxor a b) 0) as [->|]; [lia|]. apply Z.log2_lt_pow2; [lia|].
  destruct (Z.eq_dec k 0) as [-> |]; [assert (a = 0 /\ b = 0) as [-> ->] by lia; by cbn in *|].
  assert (forall x, 0 <= x < 2 ^ k -> Z.log2 x < k) as Hlog.
  { intros x Hx. destruct (Z.eq_dec x 0) as [-> |]; [cbn; lia|]. apply Z.log2_lt_pow2; lia. }
  pose proof (Z.log2_lxor a b). pose proof (Hlog a Ha). pose proof (Hlog b Hb). lia.
Qed.
Lemma from_be_lxor a b : bytes a -> bytes b -> length a = length b ->
  from_be (zip_with Z.lxor a b) = Z.lxor (from_be a) (from_be b) /\ bytes (zip_with Z.lxor a b).
Proof.
  intros Ha. revert b. induction Ha as [|x a Hx Ha IH]; intros [|y b] Hb Hl; try done.
  apply Forall_cons in Hb as [Hy Hb]. injection Hl as Hl. destruct (IH b Hb Hl) as [IH1 IH2]. unfold byte in *.
  pose proof (from_be_bound a Ha) as Ba. pose proof (from_be_bound b Hb) as Bb.
  assert (256 ^ len a = 2 ^ (8 * len a)) as Hp by (rewrite Z.pow_mul_r; [done|lia|apply len_nonneg]).
  assert (len b = len a) as Hlen by (unfold len; lia). pose proof (len_nonneg a).
  assert (len (zip_with Z.lxor a b) = len a) as Hz by (unfold len; rewrite length_zip_with; lia).
  cbn [zip_with]. split.
  - rewrite !from_be_cons, Hz, Hlen, IH1, Hp. rewrite Hlen, Hp in Bb. rewrite Hp in Ba. symmetry.
    apply lxor_split; [lia|done|done|]. apply lxor_bound; [lia|done|done].
  - constructor; [|done]. apply (lxor_bound x y 8); lia.
Qed.

(** What every [H256] is. *)
Definition node_ok (n : NodeId) : Prop := bytes n /\ length n = 32%nat.
Definition dist (a b : NodeId) : Z := Z.lxor (from_be a) (from_be b).
(** The bucket of [n] in the table of [a]: the length of the distance in bits,
    where 256 shares the bucket of 255. *)
Definition bucket_of (a n : NodeId) : nat := Z.to_nat (Z.min (Z.log2 (dist a n) + 1) 255).

Lemma node_32 k : node_ok (to_be 32 k).
Proof. split; [apply bytes_to_be|apply length_to_be]. Qed.
Lemma node_bound n : node_ok n -> 0 <= from_be n < 2 ^ 256.
Proof. intros [Hb Hl]. pose proof (from_be_bound n Hb) as Hn. unfold len in Hn. by rewrite Hl in Hn. Qed.
Lemma dist_bound a b : node_ok a -> node_ok b -> U256 (dist a b).
Proof. intros Ha Hb. apply lxor_bound; [lia|by apply node_bound|by apply node_bound]. Qed.
Lemma dist_zero a b : node_ok a -> node_ok b -> dist a b = 0 <-> a = b.
Proof.
  intros [Ba La] [Bb Lb]. unfold dist. rewrite Z.lxor_eq_0_iff. split; [|by intros ->].
  intros He. rewrite <- (to_be_from_be a Ba), <- (to_be_from_be b Bb), La, Lb. by rewrite He.
Qed.
(** One node is at each distance. *)
Lemma dist_inj a b t : node_ok a -> node_ok b -> dist a t = dist b t -> a = b.
Proof.
  intros Ha Hb He. apply dist_zero; [done|done|]. unfold dist in *.
  replace (Z.lxor (from_be a) (from_be b)) with (Z.lxor (Z.lxor (from_be a) (from_be t)) (Z.lxor (from_be b) (from_be t))).
  - rewrite He. apply Z.lxor_nilpotent.
  - rewrite (Z.lxor_comm (from_be b)), Z.lxor_assoc, <- (Z.lxor_assoc (from_be t)). by rewrite Z.lxor_nilpotent, Z.lxor_0_l.
Qed.

Section table.
Context `{U256Laws} `{LeadingZerosLaws} `{Profile}.
Implicit Types (t : RoutingTable) (n m : NodeId).

Lemma distance_ok a b : node_ok a -> node_ok b -> distance a b = Ok (dist a b).
Proof.
  intros [Ba La] [Bb Lb]. destruct (from_be_lxor a b Ba Bb) as [He Hb]; [lia|]. unfold distance.
  rewrite from_big_endian_law by done. unfold len. rewrite length_zip_with, La, Lb. cbn. by rewrite He.
Qed.
Lemma log_distance_ok a b : node_ok a -> node_ok b -> a <> b -> log_distance a b = Ok (Some (Z.log2 (dist a b) + 1)).
Proof.
  intros Ha Hb Hne. unfold log_distance. rewrite distance_ok by done. cbn [obind].
  pose proof (dist_bound a b Ha Hb) as Hd. pose proof (dist_zero a b Ha Hb) as Hz. unfold uint in Hd.
  destruct (Z.eqb_spec (dist a b) 0) as [|Hnz]; [naive_solver|]. rewrite leading_zeros_law by done.
  rewrite (proj2 (Z.eqb_neq _ _)) by done. assert (Z.log2 (dist a b) < 256) by (apply Z.log2_lt_pow2; lia).
  pose proof (Z.log2_nonneg (dist a b)). unfold usub. exact_arith. do 2 f_equal. lia.
Qed.
Lemma bucket_of_bound a n : (bucket_of a n <= 255)%nat /\ (1 <= bucket_of a n)%nat.
Proof. unfold bucket_of. pose proof (Z.log2_nonneg (dist a n)). lia. Qed.
Lemma bucket_index_ok n t : node_ok (local_id t) -> node_ok n -> n <> local_id t ->
  bucket_index n t = Ok (Z.of_nat (bucket_of (local_id t) n)).
Proof.
  intros Hl Hn Hne. unfold bucket_index. rewrite log_distance_ok by done. cbn [obind]. unfold bucket_of.
  pose proof (Z.log2_nonneg (dist (local_id t) n)). f_equal. lia.
Qed.
Lemma bucket_index_local n t : node_ok n -> n = local_id t -> bucket_index n t = Err NodeNotFound.
Proof.
  intros Hn He. unfold bucket_index, log_distance. rewrite <- He, distance_ok by done. cbn [obind].
  by rewrite (proj2 (dist_zero n n Hn Hn) eq_refl).
Qed.

(** * The invariant of the table *)

Definition bucket_ok (local : NodeId) (i : nat) (b : KBucket) : Prop :=
  capacity b = 16 /\ len (nodes b) <= 16 /\ NoDup (nodes b) /\
  Forall (fun n => node_ok n /\ n <> local /\ bucket_of local n = i) (nodes b).
Definition table_ok t : Prop :=
  node_ok (local_id t) /\ length (buckets t) = 256%nat /\
  (forall i b, buckets t !! i = Some b -> bucket_ok (local_id t) i b) /\
  (forall n, is_Some (node_info t !! n) <-> exists i b, buckets t !! i = Some b /\ n ∈ nodes b) /\
  (forall n x, node_info t !! n = Some x -> node_id (enr x) = n).

Lemma table_new_ok now n : node_ok n -> table_ok (table_new now n).
Proof.
  intros Hn. split_and!; cbn [table_new local_id buckets node_info]; [done|by rewrite length_replicate| | |].
  - intros i b Hb. apply lookup_replicate in Hb as [-> _]. split_and!; cbn; [done|done|constructor|constructor].
  - intros m. rewrite lookup_empty. split; [by intros []|]. intros (i & b & Hb & Hin). apply lookup_replicate in Hb as [-> _]. by apply not_elem_of_nil in Hin.
  - by intros m x Hx.
Qed.
(** A node is only in its own bucket. *)
Lemma in_bucket t n i b : table_ok t -> buckets t !! i = Some b -> n ∈ nodes b -> i = bucket_of (local_id t) n /\ node_ok n /\ n <> local_id t.
Proof.
  intros (_ & _ & Hb & _) Hi Hin. destruct (Hb i b Hi) as (_ & _ & _ & Hf). rewrite list.Forall_forall in Hf. destruct (Hf n Hin) as (? & ? & ?). done.
Qed.
Lemma the_bucket t n : table_ok t -> exists b, buckets t !! bucket_of (local_id t) n = Some b.
Proof. intros (_ & Hl & _). apply lookup_lt_is_Some_2. rewrite Hl. pose proof (bucket_of_bound (local_id t) n). lia. Qed.
Lemma known_iff t n b : table_ok t -> buckets t !! bucket_of (local_id t) n = Some b -> is_Some (node_info t !! n) <-> n ∈ nodes b.
Proof.
  intros Ht Hb. destruct Ht as (? & ? & ? & Hinfo & ?) eqn:He. rewrite Hinfo. split; [|by eauto].
  intros (i & b' & Hi & Hin). destruct (in_bucket t n i b' Ht Hi Hin) as (-> & _). naive_solver.
Qed.
(** Replacing a bucket by one whose nodes differ in [n] at most. *)
Lemma replace_bucket_ok t n (b : KBucket) (ns : list NodeId) (up : Z) (info : gmap NodeId NodeInfo) :
  table_ok t -> node_ok n -> n <> local_id t -> buckets t !! bucket_of (local_id t) n = Some b ->
  len ns <= 16 -> NoDup ns -> (forall m, m <> n -> m ∈ ns <-> m ∈ nodes b) -> (n ∈ ns <-> is_Some (info !! n)) ->
  (forall m, m <> n -> info !! m = node_info t !! m) -> (forall x, info !! n = Some x -> node_id (enr x) = n) ->
  table_ok (mkTable (local_id t) (<[bucket_of (local_id t) n := mkBucket ns (capacity b) up]> (buckets t)) info).
Proof.
  intros Ht Hn Hne Hb Hlen Hnd Hns Hin Hinfo Hid. pose proof Ht as (Hloc & Hl & Hbs & Hk & Hids).
  pose proof (lookup_lt_Some _ _ _ Hb) as Hlt. split_and!; cbn [local_id buckets node_info]; [done|by rewrite length_insert| | |].
  - intros i b' Hi. destruct (decide (i = bucket_of (local_id t) n)) as [-> |Hni].
    + rewrite list_lookup_insert_eq in Hi by done. injection Hi as <-. destruct (Hbs _ _ Hb) as (Hc & _ & _ & Hf).
      split_and!; cbn [capacity nodes]; [done|done|done|]. apply list.Forall_forall. intros m Hm. destruct (decide (m = n)) as [-> |Hmn]; [done|].
      rewrite list.Forall_forall in Hf. by apply Hf, Hns.
    + rewrite list_lookup_insert_ne in Hi by done. by apply Hbs.
  - intros m. destruct (decide (m = n)) as [-> |Hmn].
    + rewrite <- Hin. split; [intros Hi; exists (bucket_of (local_id t) n), (mkBucket ns (capacity b) up); split; [by apply list_lookup_insert_eq|done]|].
      intros (i & b' & Hi & Hm). destruct (decide (i = bucket_of (local_id t) n)) as [-> |Hni].
      { rewrite list_lookup_insert_eq in Hi by done. by injection Hi as <-. }
      rewrite list_lookup_insert_ne in Hi by done. by destruct (in_bucket t n i b' Ht Hi Hm).
    + rewrite Hinfo, Hk by done. split; intros (i & b' & Hi & Hm).
      * destruct (decide (i = bucket_of (local_id t) n)) as [-> |Hni].
        { exists (bucket_of (local_id t) n), (mkBucket ns (capacity b) up). split; [by apply list_lookup_insert_eq|]. apply Hns; [done|]. naive_solver. }
        exists i, b'. by rewrite list_lookup_insert_ne.
      * destruct (decide (i = bucket_of (local_id t) n)) as [-> |Hni].
        { rewrite list_lookup_insert_eq in Hi by done. injection Hi as <-. exists (bucket_of (local_id t) n), b. split; [done|]. by apply Hns. }
        rewrite list_lookup_insert_ne in Hi by done. by exists i, b'.
  - intros m x Hx. destruct (decide (m = n)) as [-> |Hmn]; [by apply Hid|]. rewrite Hinfo in Hx by done. by apply Hids.
Qed.

(** * Adding and removing *)

Lemma touch_new n b : n ∉ nodes b -> touch n b = if len (nodes b) <? capacity b then Ok (nodes b ++ [n]) else Err BucketFull.
Proof.
  intros Hn. unfold touch, position. destruct (list_find _ _) as [[i x]|] eqn:Hf; [|done]. exfalso.
  apply list_find_Some in Hf as (Hx & He & _). apply bool_decide_eq_true in He as ->. by apply Hn, list_elem_of_lookup_2 with i.
Qed.
Lemma touch_known n b : n ∈ nodes b -> NoDup (nodes b) ->
  exists ns, touch n b = Ok (ns ++ [n]) /\ ns ++ [n] ≡ₚ nodes b.
Proof.
  intros Hn Hnd. unfold touch, position. destruct (list_find _ _) as [[i x]|] eqn:Hf.
  - apply list_find_Some in Hf as (Hx & He & _). apply bool_decide_eq_true in He as ->. cbn. eexists. split; [done|].
    unfold remove_at. rewrite <- (take_drop_middle (nodes b) i n Hx) at 3. rewrite <- app_assoc. apply Permutation_app_head. symmetry. apply Permutation_cons_append.
  - exfalso. apply list_find_None in Hf. rewrite list.Forall_forall in Hf. by apply (Hf n Hn), bool_decide_eq_true.
Qed.

(** What adding a record of another node does: the node becomes the last of
    its bucket, or the bucket is full of other nodes and nothing changes. *)
Lemma add_node_spec up seen e t b :
  table_ok t -> node_ok (node_id e) -> node_id e <> local_id t -> buckets t !! bucket_of (local_id t) (node_id e) = Some b ->
  (exists ns t', add_node up seen e t = (Ok tt, t') /\ table_ok t' /\ local_id t' = local_id t /\
     buckets t' = <[bucket_of (local_id t) (node_id e) := mkBucket (ns ++ [node_id e]) 16 up]> (buckets t) /\
     node_info t' = <[node_id e := mkInfo e seen 0]> (node_info t) /\
     (node_id e ∈ nodes b -> ns ++ [node_id e] ≡ₚ nodes b) /\ (node_id e ∉ nodes b -> ns = nodes b)) \/
  (add_node up seen e t = (Err BucketFull, t) /\ len (nodes b) = 16 /\ node_info t !! node_id e = None).
Proof.
  intros Ht Hn Hne Hb. pose proof Ht as (Hloc & Hl & Hbs & Hk & Hids). destruct (Hbs _ _ Hb) as (Hcap & Hlen & Hnd & Hf).
  assert (index (E := DiscoveryError) (buckets t) (Z.of_nat (bucket_of (local_id t) (node_id e))) = Ok b) as Hix.
  { apply index_spec. rewrite Nat2Z.id. split; [lia|done]. }
  assert (forall r, touch (node_id e) b = r -> add_node up seen e t =
    match r with
    | Ok ns => (Ok tt, mkTable (local_id t) (<[bucket_of (local_id t) (node_id e) := mkBucket ns (capacity b) up]> (buckets t)) (<[node_id e := mkInfo e seen 0]> (node_info t)))
    | Err x => (Err x, t) | Panic => (Panic, t) | Diverge => (Diverge, t) end) as Hadd.
  { intros r Hr. unfold add_node. rewrite sbind_get, bool_decide_false by done. rewrite bucket_index_ok, sbind_lift, Hix, sbind_lift, Hr by done.
    unfold sbind, slift, smodify. destruct r; [by rewrite Nat2Z.id|done|done|done]. }
  assert (forall ns, len (ns ++ [node_id e]) <= 16 -> NoDup (ns ++ [node_id e]) -> (forall m, m <> node_id e -> m ∈ ns ++ [node_id e] <-> m ∈ nodes b) ->
    table_ok (mkTable (local_id t) (<[bucket_of (local_id t) (node_id e) := mkBucket (ns ++ [node_id e]) 16 up]> (buckets t)) (<[node_id e := mkInfo e seen 0]> (node_info t)))) as Hok.
  { intros ns Hl' Hnd' Hm. rewrite <- Hcap. apply replace_bucket_ok; [done|done|done|done|done|done|done| | |].
    - rewrite lookup_insert_eq. split; [by eauto|]. intros _. apply elem_of_app. right. apply list_elem_of_here.
    - intros m Hmn. by rewrite lookup_insert_ne.
    - intros x. rewrite lookup_insert_eq. by intros [= <-]. }
  destruct (decide (node_id e ∈ nodes b)) as [Hin|Hnin].
  - left. destruct (touch_known (node_id e) b Hin Hnd) as (ns & Ht' & Hp). rewrite (Hadd _ Ht'), Hcap. do 2 eexists. split; [done|].
    split; [|by split_and!]. apply Hok; [unfold len in *; by rewrite Hp|by rewrite Hp|]. intros m _. by rewrite Hp.
  - rewrite (Hadd _ (touch_new _ _ Hnin)), Hcap. destruct (Z.ltb_spec (len (nodes b)) 16).
    + left. exists (nodes b). eexists. split; [done|]. split; [|by split_and!]. apply Hok.
      * rewrite len_snoc. lia.
      * apply NoDup_app. split_and!; [done| |apply NoDup_singleton]. intros m Hm ->%list_elem_of_singleton. done.
      * intros m Hm. rewrite elem_of_app, list_elem_of_singleton. naive_solver.
    + right. split_and!; [done|lia|]. apply eq_None_not_Some. intros Hs. by apply Hnin, (known_iff t).
Qed.
Lemma add_node_local up seen e t : node_id e = local_id t -> add_node up seen e t = (Ok tt, t).
Proof. intros He. unfold add_node. rewrite sbind_get. by rewrite bool_decide_true. Qed.
(** Adding never panics and keeps the invariant. *)
Lemma add_node_ok up seen e t : table_ok t -> node_ok (node_id e) ->
  table_ok (add_node up seen e t).2 /\ ((add_node up seen e t).1 = Ok tt \/ ((add_node up seen e t).1 = Err BucketFull /\ (add_node up seen e t).2 = t)).
Proof.
  intros Ht Hn. destruct (decide (node_id e = local_id t)) as [He|Hne]; [rewrite add_node_local by done; auto|].
  destruct (the_bucket t (node_id e) Ht) as [b Hb]. destruct (add_node_spec up seen e t b Ht Hn Hne Hb) as [(ns & t' & -> & Ht' & _)|(-> & _)]; auto.
Qed.
Lemma remove_node_spec n t : table_ok t -> node_ok n ->
  exists t', remove_node n t = (Ok tt, t') /\ table_ok t' /\ local_id t' = local_id t /\ node_info t' = delete n (node_info t).
Proof.
  intros Ht Hn. pose proof Ht as (Hloc & Hl & Hbs & Hk & Hids). unfold remove_node. rewrite sbind_get. destruct (decide (n = local_id t)) as [He|Hne].
  - rewrite bucket_index_local by done. exists t. split_and!; [done|done|done|]. symmetry. apply delete_id, eq_None_not_Some.
    rewrite Hk. intros (i & b & Hi & Hin). by destruct (in_bucket t n i b Ht Hi Hin) as (_ & _ & ?).
  - destruct (the_bucket t n Ht) as [b Hb]. rewrite bucket_index_ok by done.
    assert (index (E := DiscoveryError) (buckets t) (Z.of_nat (bucket_of (local_id t) n)) = Ok b) as ->.
    { apply index_spec. rewrite Nat2Z.id. split; [lia|done]. }
    rewrite sbind_lift. eexists. split; [done|]. split; [|done]. rewrite Nat2Z.id. destruct (Hbs _ _ Hb) as (_ & Hlen & Hnd & _).
    apply replace_bucket_ok; [done|done|done|done| | | | | |].
    + pose proof (length_filter (fun m => m <> n) (nodes b)). unfold len in *. lia.
    + by apply NoDup_filter.
    + intros m Hm. rewrite list_elem_of_filter. naive_solver.
    + rewrite list_elem_of_filter, lookup_delete_eq. split; [by intros [? _]|by intros []].
    + intros m Hm. by rewrite lookup_delete_ne.
    + intros x. by rewrite lookup_delete_eq.
Qed.

(** * Reachable tables *)

(** What callers do with a table: the records are those of nodes, and a call
    that reports a full bucket is a step too. *)
Inductive reachable (local : NodeId) : RoutingTable -> Prop :=
| reach_new now : reachable local (table_new now local)
| reach_add up seen e t : reachable local t -> node_ok (node_id e) -> reachable local (add_node up seen e t).2
| reach_remove n t : reachable local t -> node_ok n -> reachable local (remove_node n t).2.

Lemma add_node_id up seen e t : table_ok t -> node_ok (node_id e) -> local_id (add_node up seen e t).2 = local_id t.
Proof.
  intros Ht Hn. destruct (decide (node_id e = local_id t)) as [He|Hne]; [by rewrite add_node_local|].
  destruct (the_bucket t (node_id e) Ht) as [b Hb]. by destruct (add_node_spec up seen e t b Ht Hn Hne Hb) as [(ns & t' & -> & _ & ? & _)|(-> & _)].
Qed.
Lemma reachable_ok local t : node_ok local -> reachable local t -> table_ok t /\ local_id t = local.
Proof.
  intros Hl. induction 1 as [now|up seen e t _ [IH He] Hn|n t _ [IH He] Hn].
  - split; [by apply table_new_ok|done].
  - split; [by apply add_node_ok|rewrite add_node_id by done; congruence].
  - destruct (remove_node_spec n t IH Hn) as (t' & -> & ? & ? & _). cbn. split; [done|congruence].
Qed.

(** All nodes, in the order of the buckets. *)
Definition all_nodes t : list NodeId := concat (map nodes (buckets t)).
Lemma elem_of_all_nodes t n : n ∈ all_nodes t <-> exists i b, buckets t !! i = Some b /\ n ∈ nodes b.
Proof.
  unfold all_nodes. rewrite list_elem_of_In, in_concat. split.
  - intros (l & (b & <- & Hb)%in_map_iff & Hn). apply list_elem_of_In, list_elem_of_lookup in Hb as [i Hi]. exists i, b. split; [done|]. by apply list_elem_of_In.
  - intros (i & b & Hi & Hn). exists (nodes b). split; [apply in_map, list_elem_of_In; by apply list_elem_of_lookup_2 with i|by apply list_elem_of_In].
Qed.
Lemma concat_nodup (g : NodeId -> nat) k (bs : list KBucket) :
  (forall i b, bs !! i = Some b -> NoDup (nodes b) /\ Forall (fun n => g n = (k + i)%nat) (nodes b)) -> NoDup (concat (map nodes bs)).
Proof.
  revert k. induction bs as [|b bs IH]; intros k Hb; [constructor|]. cbn. apply NoDup_app.
  destruct (Hb 0%nat b eq_refl) as [Hnd Hg]. split_and!; [done| |].
  - intros n Hn Hin. rewrite list.Forall_forall in Hg. specialize (Hg n Hn). apply list_elem_of_In, in_concat in Hin as (l & (b' & <- & Hb')%in_map_iff & Hin).
    apply list_elem_of_In, list_elem_of_lookup in Hb' as [i Hi]. destruct (Hb (S i) b' Hi) as [_ Hg']. rewrite list.Forall_forall in Hg'.
    apply list_elem_of_In, Hg' in Hin. lia.
  - apply (IH (S k)). intros i b' Hi. destruct (Hb (S i) b' Hi) as [? Hg']. split; [done|]. by replace (S k + i)%nat with (k + S i)%nat by lia.
Qed.
Lemma all_nodes_nodup t : table_ok t -> NoDup (all_nodes t).
Proof.
  intros (_ & _ & Hb & _). apply (concat_nodup (bucket_of (local_id t)) 0). intros i b Hi. destruct (Hb i b Hi) as (_ & _ & Hnd & Hf).
  split; [done|]. eapply Forall_impl; [exact Hf|]. naive_solver.
Qed.
Lemma all_nodes_known t : table_ok t -> all_nodes t ≡ₚ (map_to_list (node_info t)).*1.
Proof.
  intros Ht. apply NoDup_Permutation; [by apply all_nodes_nodup|apply NoDup_fst_map_to_list|]. intros n. rewrite elem_of_all_nodes.
  destruct Ht as (_ & _ & _ & <- & _). rewrite list_elem_of_fmap. split.
  - intros [x Hx]. exists (n, x). split; [done|]. by apply elem_of_map_to_list.
  - intros ([m x] & -> & Hx). apply elem_of_map_to_list in Hx. by exists x.
Qed.
Lemma size_all_nodes t : table_ok t -> Z.of_nat (size (node_info t)) = len (all_nodes t).
Proof. intros Ht. unfold len. by rewrite all_nodes_known, length_fmap, length_map_to_list. Qed.
Lemma concat_len (bs : list KBucket) : Forall (fun b => len (nodes b) <= 16) bs -> len (concat (map nodes bs)) <= 16 * len bs.
Proof. induction 1 as [|b bs Hb _ IH]; [done|]. cbn. rewrite len_app, len_cons. lia. Qed.
Lemma size_bound t : table_ok t -> Z.of_nat (size (node_info t)) <= 255 * 16.
Proof.
  intros Ht. rewrite size_all_nodes by done. pose proof Ht as (_ & Hl & Hbs & _). unfold all_nodes.
  destruct (buckets t) as [|b bs] eqn:Hb; [done|]. cbn. assert (nodes b = []) as ->.
  { destruct (nodes b) as [|n ns] eqn:Hn; [done|]. exfalso.
    destruct (in_bucket t n 0 b Ht) as (H0' & _); [by rewrite Hb|rewrite Hn; apply list_elem_of_here|]. pose proof (bucket_of_bound (local_id t) n). lia. }
  cbn in *. assert (len (concat (map nodes bs)) <= 16 * len bs) as Hle.
  { apply concat_len, Forall_lookup_2. intros i b' Hi. destruct (Hbs (S i) b' Hi) as (_ & ? & _). done. }
  assert (len bs = 255) as Hl' by (unfold len; lia). lia.
Qed.

(** C33: whatever records are added and nodes removed, the table of a node
    keeps its shape: 256 buckets of at most 16 distinct nodes; each node lies in
    the one bucket that the leading bit of its distance selects, so bucket 0
    stays empty and at most 4080 nodes are known; the node itself is never one
    of them; and the records kept are exactly those of the nodes in the
    buckets. *)
Theorem routing_table_invariant local t :
  node_ok local -> reachable local t ->
  local_id t = local /\ length (buckets t) = 256%nat /\
  (forall i b, buckets t !! i = Some b ->
     len (nodes b) <= 16 /\ NoDup (nodes b) /\
     forall n, n ∈ nodes b -> n <> local /\ (0 < i)%nat /\ 2 ^ Z.of_nat (i - 1) <= dist local n /\ (dist local n < 2 ^ Z.of_nat i \/ i = 255%nat)) /\
  (forall n, is_Some (get_node n t) <-> exists i b, buckets t !! i = Some b /\ n ∈ nodes b) /\
  (forall n e, get_node n t = Some e -> node_id e = n) /\
  Z.of_nat (size (node_info t)) <= 4080.
Proof.
  intros Hl Hr. destruct (reachable_ok local t Hl Hr) as [Ht He]. pose proof Ht as (_ & Hlen & Hbs & Hk & Hids). split_and!; [done|done| | | |].
  - intros i b Hi. destruct (Hbs i b Hi) as (_ & Hb & Hnd & Hf). split_and!; [done|done|]. rewrite He in Hf. intros n Hn. rewrite list.Forall_forall in Hf.
    destruct (Hf n Hn) as (Hok & Hne & Hi'). pose proof (bucket_of_bound local n) as Hb'. pose proof (dist_bound local n Hl Hok) as Hd. unfold uint in Hd.
    assert (dist local n <> 0) as Hnz by (rewrite dist_zero by done; congruence). destruct (Z.log2_spec (dist local n)) as [Hlo Hhi]; [lia|].
    pose proof (Z.log2_nonneg (dist local n)). unfold bucket_of in *. split_and!; [done|lia| |].
    + apply Z.le_trans with (2 ^ Z.log2 (dist local n)); [|done]. apply Z.pow_le_mono_r; lia.
    + destruct (decide (i = 255%nat)); [by right|left]. replace (Z.of_nat i) with (Z.succ (Z.log2 (dist local n))) by lia. done.
  - intros n. unfold get_node. rewrite fmap_is_Some. apply Hk.
  - intros n e. unfold get_node. intros (x & Hx & ->)%fmap_Some. by apply Hids.
  - by apply size_bound.
Qed.

(** * The closest nodes *)

Lemma with_distance_ok target l : node_ok target -> Forall node_ok l -> with_distance target l = Ok (map (fun n => (n, dist n target)) l).
Proof. intros Ht. induction 1 as [|n l Hn _ IH]; [done|]. cbn. by rewrite distance_ok, IH. Qed.
(** Distances that do not fall rise strictly, since the nodes differ. *)
Lemma strictly_sorted target (l : list (NodeId * Z)) :
  Forall (fun p => p.2 = dist p.1 target /\ node_ok p.1) l -> NoDup l.*1 -> StronglySorted (key_le snd) l ->
  StronglySorted (fun a b => dist a target < dist b target) l.*1.
Proof.
  intros Hd Hnd Hs. induction Hs as [|[n d] l Hs IH Hf]; [constructor|]. apply Forall_cons in Hd as [[Hd Hok] Hall]. apply NoDup_cons in Hnd as [Hn Hnd].
  cbn in *. constructor; [by apply IH|]. apply Forall_fmap. rewrite list.Forall_forall in *. intros [m d'] Hm. specialize (Hf _ Hm). destruct (Hall _ Hm) as [Hd' Hok'].
  unfold key_le in Hf. cbn in *. destruct (Z.eq_dec (dist n target) (dist m target)) as [He|]; [|lia].
  apply dist_inj in He as ->; [|done|done]. destruct Hn. apply list_elem_of_fmap. by exists (m, d').
Qed.
Lemma omap_records t (l : list (NodeId * Z)) : table_ok t -> Forall (fun p => is_Some (node_info t !! p.1)) l ->
  let es := omap (fun p : NodeId * Z => enr <$> node_info t !! p.1) l in map node_id es = l.*1 /\ Forall (fun e => get_node (node_id e) t = Some e) es.
Proof.
  intros (_ & _ & _ & _ & Hids). induction 1 as [|[n d] l [x Hx] _ [IH1 IH2]]; [done|]. cbn in *. rewrite Hx. cbn. rewrite (Hids _ _ Hx).
  split; [by f_equal|]. constructor; [|done]. unfold get_node. by rewrite (Hids _ _ Hx), Hx.
Qed.
Lemma sorted_by_id (P : NodeId -> NodeId -> Prop) es : StronglySorted P (map node_id es) -> StronglySorted (fun a b => P (node_id a) (node_id b)) es.
Proof. induction es as [|e es IH]; cbn; inversion_clear 1; constructor; [by apply IH|]. by apply Forall_fmap. Qed.

(** The closest nodes of a table. *)
Lemma closest_lookup local t target limit :
  node_ok local -> reachable local t -> node_ok target -> 0 <= limit ->
  exists es, closest_nodes target limit t = Ok es /\
    len es = Z.min limit (Z.of_nat (size (node_info t))) /\
    StronglySorted (fun a b => dist (node_id a) target < dist (node_id b) target) es /\
    Forall (fun e => get_node (node_id e) t = Some e) es /\
    (forall n e, is_Some (get_node n t) -> n ∉ map node_id es -> e ∈ es -> dist (node_id e) target < dist n target).
Proof.
  intros Hl Hr Htg Hlim. destruct (reachable_ok local t Hl Hr) as [Ht _]. pose proof Ht as (_ & _ & _ & Hk & _).
  assert (Forall node_ok (all_nodes t)) as Hok.
  { apply list.Forall_forall. intros n (i & b & Hi & Hn)%elem_of_all_nodes. by destruct (in_bucket t n i b Ht Hi Hn) as (_ & ? & _). }
  set (f := fun n => (n, dist n target)). set (S := sort_by_key snd (map f (all_nodes t))).
  assert (S ≡ₚ map f (all_nodes t)) as Hp by apply sort_by_key_perm.
  assert (S.*1 ≡ₚ all_nodes t) as Hp1 by (rewrite Hp, <- list_fmap_compose; by rewrite list_fmap_id).
  assert (StronglySorted (fun a b => dist a target < dist b target) S.*1) as Hs.
  { apply strictly_sorted; [|rewrite Hp1; by apply all_nodes_nodup|apply sort_by_key_sorted]. rewrite Hp. apply Forall_fmap. eapply Forall_impl; [exact Hok|]. done. }
  assert (Forall (fun p => is_Some (node_info t !! p.1)) S) as Hkn.
  { apply list.Forall_forall. intros p Hin. apply Hk, elem_of_all_nodes. rewrite <- Hp1. by apply list_elem_of_fmap_2. }
  set (k := Z.to_nat limit). destruct (omap_records t (take k S) Ht) as [Hids Hget]; [by apply Forall_take|].
  set (es := omap _ (take k S)) in *. rewrite fmap_take in Hids.
  assert (StronglySorted (fun a b => dist a target < dist b target) (take k S.*1 ++ drop k S.*1)) as Hs' by by rewrite take_drop.
  exists es. split_and!.
  - unfold closest_nodes. fold (all_nodes t). by rewrite with_distance_ok.
  - rewrite size_all_nodes by done. unfold len. rewrite <- (length_map node_id es), Hids, length_take, Hp1. lia.
  - apply (sorted_by_id (fun a b => dist a target < dist b target)). rewrite Hids. exact (StronglySorted_app_1_l _ _ _ Hs').
  - done.
  - intros n e Hn Hout He. rewrite Hids in Hout. assert (n ∈ drop k S.*1) as Hd.
    { unfold get_node in Hn. apply fmap_is_Some, Hk, elem_of_all_nodes in Hn. rewrite <- Hp1, <- (take_drop k S.*1), elem_of_app in Hn. naive_solver. }
    apply (StronglySorted_app_1_elem_of _ _ _ _ _ Hs'); [|done].
    rewrite <- Hids. by apply list_elem_of_fmap_2.
Qed.
(** a lookup gives the records of the nodes closest to the target: as many
    as asked for or all there are, from the closest on, and every known node
    that is left out is farther from the target than each one returned. *)
Theorem closest_nodes_exact local t target limit :
  node_ok local -> reachable local t -> node_ok target -> 0 <= limit ->
  exists es, closest_nodes target limit t = Ok es /\
    len es = Z.min limit (Z.of_nat (size (node_info t))) /\
    StronglySorted (fun a b => dist (node_id a) target < dist (node_id b) target) es /\
    Forall (fun e => get_node (node_id e) t = Some e) es /\
    (forall n e, is_Some (get_node n t) -> n ∉ map node_id es -> e ∈ es -> dist (node_id e) target < dist n target).
Proof. apply closest_lookup. Qed.
End table.

(** * The service *)

(** A decoded [NodeId] has the 32 bytes of its type. *)
Definition message_ok (m : Message) : Prop :=
  match m with Nodes _ _ es => Forall (fun e => node_ok (node_id e)) es | _ => True end.
Class BincodeLaws `{Bincode} : Prop := { decoded_ok data m : deserialize_message data = Some m -> message_ok m }.

Section service.
Context `{U256Laws} `{LeadingZerosLaws} `{Profile} `{HashOrder} `{KeccakLaws} `{CryptoOps} `{SignOps} `{BincodeLaws} `{Relock}.
Implicit Types (d : Discovery).

(** What reaches a running service: a datagram, a lookup and a registration by
    its own node. *)
Inductive event :=
| Datagram (clock : Clock) (shuffles : nat -> list Enr -> list Enr) (data : list Z) (from : SocketAddr)
| Lookup (ids : nat -> Z) (clock : Clock) (target : NodeId)
| Advertise (clock : Clock) (topic : list Z) (e : Enr).
Definition event_ok (ev : event) : Prop := match ev with Lookup _ _ target => node_ok target | _ => True end.
Definition serve_one (ev : event) : SM Discovery DiscoveryError unit :=
  match ev with
  | Datagram clock shuffles data from => receive clock shuffles data from
  | Lookup ids clock target => find_node false ids clock target ;;! sret tt
  | Advertise clock topic e => register_topic clock topic e
  end.
Fixpoint serve (evs : list event) : SM Discovery DiscoveryError unit :=
  match evs with [] => sret tt | ev :: evs => serve_one ev ;;! serve evs end.

Definition service_ok d : Prop := reachable (d_local_id d) (routing_table d) /\ node_ok (d_local_id d) /\ tickets (topic_table d) = ∅.
(** A step that returns and keeps the service well formed. *)
Definition fine (m : SM Discovery DiscoveryError unit) : Prop := forall d, service_ok d -> exists d', m d = (Ok tt, d') /\ service_ok d' /\ d_local_id d' = d_local_id d.
Lemma fine_bind (m k : SM Discovery DiscoveryError unit) : fine m -> fine k -> fine (m ;;! k).
Proof. intros Hm Hk d Hd. destruct (Hm d Hd) as (d1 & H1' & Hd1 & He1). destruct (Hk d1 Hd1) as (d2 & ? & ? & ?). exists d2. unfold sbind. rewrite H1'. split_and!; [done..|congruence]. Qed.
Lemma fine_get (k : Discovery -> SM Discovery DiscoveryError unit) : (forall d, fine (k d)) -> fine (let! d := sget in k d).
Proof. intros Hk d Hd. rewrite sbind_get. by apply Hk. Qed.
Lemma fine_modify f : (forall d, service_ok d -> service_ok (f d) /\ d_local_id (f d) = d_local_id d) -> fine (smodify f).
Proof. intros Hf d Hd. exists (f d). split; [done|]. by apply Hf. Qed.
Lemma fine_ret : fine (sret tt).
Proof. intros d Hd. by exists d. Qed.
Lemma fine_send m a : fine (send_message m a).
Proof. by apply fine_modify. Qed.
Lemma fine_send_all ms a : fine (send_all ms a).
Proof. induction ms as [|m ms IH]; [apply fine_ret|]. cbn. apply fine_bind; [apply fine_send|done]. Qed.
Lemma fine_pending f : fine (smodify (fun d => set_pending (f d) d)).
Proof. by apply fine_modify. Qed.
Lemma fine_add_verified clock es : Forall (fun e => node_ok (node_id e)) es -> fine (add_verified clock es).
Proof.
  intros Hes. revert clock. induction Hes as [|e es He _ IH]; intros clock; [apply fine_ret|]. cbn [add_verified]. apply fine_bind; [|done].
  destruct (match verify e with Ok b => b | _ => false end); [|apply fine_ret]. intros d (Hr & Hn & Ht). rewrite sbind_get.
  destruct (reachable_ok _ _ Hn Hr) as [Hok _]. pose proof (reach_add _ (clock 0%nat) (clock 1%nat) e _ Hr He) as Hr'.
  destruct (add_node_ok (clock 0%nat) (clock 1%nat) e _ Hok He) as [_ Hres]. destruct (add_node _ _ _ _) as [r t] eqn:Ha. cbn [fst snd] in *. rewrite sbind_modify.
  exists (set_table t d). split; [|done]. by destruct Hres as [-> |[-> _]].
Qed.
Lemma fine_register clock request_id topic e ticket a : fine (handle_register_topic clock request_id topic e ticket a).
Proof. intros d (Hr & Hn & Ht). exists d. unfold handle_register_topic, verify_ticket. rewrite sbind_get, Ht, lookup_empty. done. Qed.
Lemma fine_receive clock shuffles data a : fine (receive clock shuffles data a).
Proof.
  unfold receive, decode_message. destruct (deserialize_message data) as [m|] eqn:Hm; [|apply fine_ret]. apply decoded_ok in Hm.
  destruct m; cbn [handle_message]; try apply fine_ret.
  - apply fine_get. intros d. apply fine_send.
  - apply fine_pending.
  - apply fine_get. intros d. apply fine_send_all.
  - apply fine_bind; [by apply fine_add_verified|apply fine_pending].
  - apply fine_register.
  - apply fine_get. intros d. apply fine_send.
Qed.
Lemma fine_ask ids clock es : fine (ask false ids clock es).
Proof.
  revert ids clock. induction es as [|e es IH]; intros ids clock; [apply fine_ret|]. cbn [ask]. apply fine_bind; [|done]. destruct (node_address e); [|apply fine_ret].
  apply fine_bind; [apply fine_send|]. apply fine_bind; [apply fine_ret|apply fine_pending].
Qed.
Lemma service_closest d target : service_ok d -> node_ok target -> exists es, closest_nodes target 3 (routing_table d) = Ok es.
Proof. intros (Hr & Hn & _) Ht. destruct (closest_lookup _ _ target 3 Hn Hr Ht) as (es & ? & _); [lia|]. by exists es. Qed.
Lemma fine_serve_one ev : event_ok ev -> fine (serve_one ev).
Proof.
  destruct ev as [clock shuffles data a|ids clock target|clock topic e]; intros Hev; cbn [serve_one].
  - apply fine_receive.
  - intros d Hd. unfold find_node. rewrite !sbind_assoc, sbind_get. destruct (service_closest d target Hd Hev) as [es He]. rewrite sbind_assoc, He, sbind_lift.
    destruct (fine_ask ids clock es d Hd) as (d' & Ha & Hd'). exists d'. split; [|done]. unfold sbind. by rewrite Ha.
  - by apply fine_modify.
Qed.
Lemma fine_serve evs : Forall event_ok evs -> fine (serve evs).
Proof. induction 1; [apply fine_ret|]. apply fine_bind; [by apply fine_serve_one|done]. Qed.
Lemma new_ok pk now a key d : new pk now a key = Ok d -> service_ok d.
Proof.
  unfold new. intros (e & _ & [= <-])%obind_ok. split_and!; cbn; [constructor| |done]. split; [apply keccak_bytes|apply keccak_length].
Qed.

(** whatever datagrams arrive, in any order and with any content, and
    whatever the node looks up or advertises itself, the service answers
    without a panic, and its table is one that adding and removing records
    builds; and as no ticket is ever handed out, no message registers a topic:
    every registration request is dropped without an answer. *)
Theorem datagrams_never_register pk now bind_addr key d evs :
  new pk now bind_addr key = Ok d -> Forall event_ok evs ->
  exists d', serve evs d = (Ok tt, d') /\ reachable (d_local_id d) (routing_table d') /\
    forall clock request_id topic e ticket a, handle_register_topic clock request_id topic e ticket a d' = (Ok tt, d').
Proof.
  intros Hnew Hev. destruct (fine_serve evs Hev d (new_ok _ _ _ _ _ Hnew)) as (d' & Hs & Hd' & He). exists d'. split; [done|].
  pose proof Hd' as (Hr & _ & Ht). split; [by rewrite <- He|]. intros. unfold handle_register_topic, verify_ticket. by rewrite sbind_get, Ht, lookup_empty.
Qed.

(** ** Maintenance *)

Definition reachable_by_udp (e : Enr) : bool := bool_decide (is_Some (node_address e)).
Lemma ask_held ids clock es d : (ask true ids clock es d).1 = if existsb reachable_by_udp es then relocked else Ok tt.
Proof.
  revert ids clock d. induction es as [|e es IH]; intros ids clock d; [done|]. cbn [ask existsb]. unfold reachable_by_udp at 1.
  destruct (node_address e) as [a|]; [rewrite bool_decide_true by done; cbn; unfold relocked; by destruct relock_panics|]. rewrite bool_decide_false by (by intros []). apply IH.
Qed.
(** C34: maintenance takes the guard of the pending requests and then asks
    the three closest nodes for more, which takes the same guard again: as soon
    as one of the three has an address the turn waits for itself for ever (or
    panics, where the lock does so), and it returns when none has. *)
Theorem maintenance_blocks pk now bind_addr key d0 evs d clock target ids :
  new pk now bind_addr key = Ok d0 -> Forall event_ok evs -> serve evs d0 = (Ok tt, d) -> node_ok target ->
  exists es, closest_nodes target 3 (routing_table d) = Ok es /\
    (maintenance_tick clock target ids d).1 = if existsb reachable_by_udp es then relocked else Ok tt.
Proof.
  intros Hnew Hev Hs Ht. destruct (fine_serve evs Hev d0 (new_ok _ _ _ _ _ Hnew)) as (d' & Hs' & Hd' & _). rewrite Hs in Hs'. injection Hs' as <-.
  destruct (service_closest d target Hd' Ht) as [es He]. exists es. split; [done|]. unfold maintenance_tick, refresh_buckets, find_node.
  rewrite !sbind_modify, !sbind_assoc, sbind_get, sbind_assoc. cbn [routing_table set_pending set_topics]. rewrite He, sbind_lift.
  set (d1 := set_pending _ _). pose proof (ask_held ids (fun i => clock (S (S i))) es d1) as Ha. unfold sbind.
  destruct (ask true ids _ es d1) as [r d2]. cbn in *. rewrite Ha. unfold relocked. destruct (existsb _ es); [|done]. by destruct relock_panics.
Qed.
End service.

(** * Witnesses and examples *)

#[local] Existing Instance dev_profile.
#[local] Instance waiting_lock : Relock := {| relock_panics := false |}.
#[local] Instance list_order : HashOrder := {| iter K V _ _ m := map_to_list m |}.
Definition node (k : Z) : NodeId := to_be 32 k.
Definition record (k : Z) : Enr := set_signature [1] (with_ip (V4 [10; 0; 0; k]) 30303 30303 (enr_new (node k) 1)).
Lemma record_ok k : node_ok (node_id (record k)).
Proof. apply (node_32 k). Qed.
(** A datagram of one byte carries the record of the node with that number. *)
#[local] Instance byte_codec : Bincode := {|
  serialize_enr e := Some (node_id e); deserialize_enr data := None;
  serialize_message m := Some []; deserialize_message data := match data with [k] => Some (Nodes 7 1 [record k]) | _ => None end;
|}.
#[local] Instance byte_codec_laws : BincodeLaws.
Proof. split. intros [|k [|? ?]] m [= <-]. constructor; [apply record_ok|done]. Qed.
Definition home : NodeId := node 0.
Definition toy_table : RoutingTable := (remove_node (node 6) (add_node 5 5 (record 3) (add_node 4 4 (record 6) (add_node 3 3 (record 2) (add_node 2 2 (record 3) (table_new 1 home)).2).2).2).2).2.
Lemma toy_table_reachable : reachable home toy_table.
Proof. unfold toy_table. apply reach_remove; [|apply node_32]. do 4 (apply reach_add; [|apply record_ok]). apply reach_new. Qed.
(** Nodes 2 and 3 share bucket 2, and the one seen last comes last. *)
Example toy_bucket : nodes <$> buckets toy_table !! 2%nat = Some [node 2; node 3].
Proof. by vm_compute. Qed.
Lemma routing_table_invariant_witness : local_id toy_table = home /\ length (buckets toy_table) = 256%nat.
Proof. destruct (routing_table_invariant home toy_table) as (Hl & Hb & _); [apply node_32|apply toy_table_reachable|exact (conj Hl Hb)]. Defined.
Lemma closest_nodes_exact_witness : exists es, closest_nodes (node 7) 1 toy_table = Ok es /\ map node_id es = [node 3].
Proof.
  destruct (closest_nodes_exact home toy_table (node 7) 1) as (es & Hc & _); [apply node_32|apply toy_table_reachable|apply node_32|lia|].
  exists es. split; [exact Hc|]. vm_compute in Hc. injection Hc as <-. by vm_compute.
Defined.
Definition here : SocketAddr := mkAddr (V4 [127; 0; 0; 1]) 30303.
Definition traffic : list event := [Datagram (fun _ => 1) (fun _ l => l) [2] here; Datagram (fun _ => 2) (fun _ l => l) [5] here; Lookup (fun _ => 9) (fun _ => 3) (node 4)].
Lemma traffic_ok : Forall event_ok traffic.
Proof. repeat (apply Forall_cons_2; [first [exact I | apply (node_32 4)]|]). constructor. Qed.
Lemma new_service : exists d, new (fun k => k) 0 here [1] = Ok d.
Proof. unfold new. eexists. vm_compute. reflexivity. Defined.
Lemma datagrams_never_register_witness : exists d d', new (fun k => k) 0 here [1] = Ok d /\ serve traffic d = (Ok tt, d').
Proof.
  destruct new_service as [d Hd]. destruct (datagrams_never_register (fun k => k) 0 here [1] d traffic Hd) as (d' & Hs & _).
  - apply traffic_ok.
  - exists d, d'. exact (conj Hd Hs).
Defined.
Lemma maintenance_blocks_witness : exists d, (maintenance_tick (fun _ => 9) (node 4) (fun _ => 1) d).1 = Diverge.
Proof.
  destruct new_service as [d Hd]. destruct (serve traffic d) as [r d'] eqn:Hs. assert (r = Ok tt) as ->.
  { destruct (fine_serve traffic traffic_ok d (new_ok _ _ _ _ _ Hd)) as (x & Hx & _). congruence. }
  destruct (maintenance_blocks (fun k => k) 0 here [1] d traffic d' (fun _ => 9) (node 4) (fun _ => 1) Hd) as (es & He & Hm).
  - apply traffic_ok.
  - exact Hs.
  - apply node_32.
  - exists d'. rewrite Hm. vm_compute in Hd. injection Hd as <-. vm_compute in Hs. injection Hs as <-. vm_compute in He. injection He as <-. by vm_compute.
Defined.
(** A ticket counts for any topic and any node. *)
Example any_ticket_registers : let d := set_topics (create_ticket [9] 0 (node 1) (node 2) topics_new).2 (mkDiscovery home (record 1) (table_new 0 home) topics_new ∅ []) in
  registrations (topic_table (handle_register_topic (fun _ => 1) 5 (node 8) (record 4) [9] here d).2) !! node 8 = Some [mkRegistration (node 4) (record 4) 1 (1 + 3600 * SECOND)].
Proof. by vm_compute. Qed.
(** Three records in one message are announced as two messages. *)
Example total_is_one_too_many : let d := mkDiscovery home (record 1) (table_new 0 home) topics_new ∅ [] in
  (handle_find_node (fun _ l => l) 5 [0; 0; 0] here d).2 = emit (encode_message (Nodes 5 2 [record 1; record 1; record 1]), here) d.
Proof. by vm_compute. Qed.
End Discv5Proofs.
