(* ===== verification/SsfBls.v ===== *)
(** Aggregation of BLS signatures: crates/ssf/src/signature_aggregation.rs over
    the blst crate as the class [Bls].  The order in which the results of the
    worker threads arrive is an argument.  The reasons blst gives are left out
    of the error messages, and so are the timestamps, which nothing reads. *)
From stdpp Require Import base list numbers option strings gmap.
From Stdlib Require Import ZArith Lia.
From S2P Require Import Prelude U256 SsfValidator HistoryExpiry DasNet.

Module SsfBls.
Import SsfValidator DasNet.
Notation R := (outcome SSFError).

(** [blst::min_pk]: signatures, public keys and their aggregates; [None] is an
    error, and [bls_verify sig sig_groupcheck msg dst aug pk pk_validate] tells
    whether [verify] gives [BLST_SUCCESS]. *)
Class Bls := {
  BSig : Type; BPk : Type; BAggSig : Type; BAggPk : Type;
  sig_validate : list Z -> bool -> option BSig;
  sig_from_bytes : list Z -> option BSig;
  sig_compress : BSig -> list Z;
  key_validate : list Z -> option BPk;
  pk_to_bytes : BPk -> list Z;
  agg_from_signature : BSig -> BAggSig;
  agg_add_signature : BAggSig -> BSig -> bool -> option BAggSig;
  agg_to_signature : BAggSig -> BSig;
  aggpk_from_public_key : BPk -> BAggPk;
  aggpk_add_public_key : BAggPk -> BPk -> bool -> option BAggPk;
  aggpk_to_public_key : BAggPk -> BPk;
  bls_verify : BSig -> bool -> list Z -> list Z -> list Z -> BPk -> bool -> bool;
}.

Inductive AggregationStrategy := Sequential | Parallel (workers : Z) | Batched (batch_size : Z) | Tree (depth : Z).
Definition strategy_default : AggregationStrategy := Parallel 4.
Record AggregatedSignature := mkAggregated {
  a_signature : list Z; a_public_keys : list (list Z); a_message : list Z; a_participants : list Z; a_total_stake : Z;
}.
Record SignatureData := mkData { validator_index : Z; signature : list Z; stake : Z }.

Section bls.
Context `{Bls} `{Profile} `{U256Ops}.

Record IndividualSignature := mkIndividual { i_signature : BSig; i_public_key : BPk; i_stake : Z }.
Record SignatureCache := mkSigCache {
  aggregated : gmap (list Z) AggregatedSignature; individual : gmap (Z * list Z) IndividualSignature; max_size : Z;
}.
Record BLSAggregation := mkBls { domain : list Z; public_keys : gmap Z BPk; signature_cache : SignatureCache; aggregation_strategy : AggregationStrategy }.
Record PartialAggregate := mkPartial { p_signature : option BAggSig; p_participants : list Z; p_total_stake : Z }.
Definition bls_new (dom : list Z) : R BLSAggregation := Ok (mkBls dom ∅ (mkSigCache ∅ ∅ 10000) strategy_default).

Definition register_public_key (i : Z) (b : list Z) : SM BLSAggregation SSFError unit :=
  match key_validate b with
  | None => sfail (SignatureError "Invalid public key")
  | Some pk => smodify (fun s => mkBls (domain s) (<[i := pk]> (public_keys s)) (signature_cache s) (aggregation_strategy s))
  end.
Definition get_public_key (i : Z) (s : BLSAggregation) : R BPk :=
  match public_keys s !! i with Some pk => Ok pk | None => Err (SignatureError "Public key not found for validator") end.
Definition verify_signature (sg : BSig) (pk : BPk) (message : list Z) (s : BLSAggregation) : R bool :=
  Ok (bls_verify sg true message (domain s) [] pk true).

(** ** One after the other *)

Record Running := mkRunning {
  aggregate_signature : option BAggSig; aggregate_pubkey : option BAggPk;
  participants : list Z; total_stake : Z; keys : list (list Z);
}.
(** The end of a turn of the loop. *)
Definition counted (sg : option BAggSig) (agg_pk : option BAggPk) (d : SignatureData) (pk : BPk) (r : Running) : R Running :=
  let? total := unwrap (u_add (total_stake r) (stake d)) in
  Ok (mkRunning sg agg_pk (participants r ++ [validator_index d]) total (keys r ++ [pk_to_bytes pk])).
Definition add_one (s : BLSAggregation) (message : list Z) (d : SignatureData) (r : Running) : R Running :=
  match sig_validate (signature d) false with
  | None => Err (SignatureError "Invalid signature")
  | Some sg =>
      let? pk := get_public_key (validator_index d) s in
      let? good := verify_signature sg pk message s in
      if negb good then Ok r else
      match aggregate_signature r with
      | None => counted (Some (agg_from_signature sg)) (Some (aggpk_from_public_key pk)) d pk r
      | Some agg =>
          match agg_add_signature agg sg false with
          | None => Ok r
          | Some agg =>
              match aggregate_pubkey r with
              | Some agg_pk =>
                  match aggpk_add_public_key agg_pk pk false with
                  | None => Err (SignatureError "Aggregation failed")
                  | Some agg_pk => counted (Some agg) (Some agg_pk) d pk r
                  end
              | None => counted (Some agg) None d pk r
              end
          end
      end
  end.
Fixpoint sequential_loop (s : BLSAggregation) (message : list Z) (l : list SignatureData) (r : Running) : R Running :=
  match l with
  | [] => Ok r
  | d :: l => let? r := add_one s message d r in sequential_loop s message l r
  end.
Definition aggregate_sequential (l : list SignatureData) (message : list Z) (s : BLSAggregation) : R AggregatedSignature :=
  match l with
  | [] => Err (SignatureError "No signatures to aggregate")
  | _ =>
      let? r := sequential_loop s message l (mkRunning None None [] 0 []) in
      match aggregate_signature r with
      | None => Err (SignatureError "Failed to create aggregate")
      | Some agg => Ok (mkAggregated (sig_compress (agg_to_signature agg)) (keys r) message (participants r) (total_stake r))
      end
  end.

(** ** In worker threads *)

Fixpoint chunk_loop (s : gmap Z BPk) (l : list SignatureData) (p : PartialAggregate) : R PartialAggregate :=
  match l with
  | [] => Ok p
  | d :: l =>
      match sig_validate (signature d) false with
      | None => Err (SignatureError "Invalid signature")
      | Some sg =>
          match s !! validator_index d with
          | None => Err (SignatureError "Public key not found")
          | Some _ =>
              let? agg := match p_signature p with
                | None => Ok (agg_from_signature sg)
                | Some agg => match agg_add_signature agg sg false with Some agg => Ok agg | None => Err (SignatureError "Failed to add") end
                end in
              let? total := unwrap (u_add (p_total_stake p) (stake d)) in
              chunk_loop s l (mkPartial (Some agg) (p_participants p ++ [validator_index d]) total)
          end
      end
  end.
Definition aggregate_chunk (l : list SignatureData) (s : gmap Z BPk) : R PartialAggregate := chunk_loop s l (mkPartial None [] 0).
Fixpoint merge_partials (l : list PartialAggregate) (p : PartialAggregate) : R PartialAggregate :=
  match l with
  | [] => Ok p
  | x :: l =>
      let? agg := match p_signature x, p_signature p with
        | None, agg => Ok agg
        | Some sg, None => Ok (Some sg)
        | Some sg, Some agg =>
            match sig_from_bytes (sig_compress (agg_to_signature sg)) with
            | None => Err (SignatureError "Merge failed")
            | Some temp => match agg_add_signature agg temp false with Some agg => Ok (Some agg) | None => Err (SignatureError "Merge failed") end
            end
        end in
      let? total := unwrap (u_add (p_total_stake p) (p_total_stake x)) in
      merge_partials l (mkPartial agg (p_participants p ++ p_participants x) total)
  end.
Definition merge_partial_aggregates (l : list PartialAggregate) (message : list Z) : R AggregatedSignature :=
  let? p := merge_partials l (mkPartial None [] 0) in
  match p_signature p with
  | None => Err (SignatureError "No signatures aggregated")
  | Some agg => Ok (mkAggregated (sig_compress (agg_to_signature agg)) [] message (p_participants p) (p_total_stake p))
  end.
(** A thread that panics sends nothing; the first error received is returned. *)
Fixpoint received (l : list (R PartialAggregate)) : R (list PartialAggregate) :=
  match l with
  | [] => Ok []
  | Ok p :: l => let? ps := received l in Ok (p :: ps)
  | Err e :: _ => Err e
  | _ :: l => received l
  end.
Definition aggregate_parallel (arrive : list (R PartialAggregate) -> list (R PartialAggregate)) (l : list SignatureData) (message : list Z)
    (workers : Z) (s : BLSAggregation) : R AggregatedSignature :=
  match l with
  | [] => Err (SignatureError "No signatures to aggregate")
  | _ =>
      let? n := uadd 64 (len l) workers in
      let? n := usub 64 n 1 in
      let? chunk_size := udiv n workers in
      let? cs := HistoryExpiry.chunks chunk_size l in
      let? ps := received (arrive (map (fun c => aggregate_chunk c (public_keys s)) cs)) in
      merge_partial_aggregates ps message
  end.

(** ** In batches and in a tree *)

Fixpoint merge_loop (l : list AggregatedSignature) (agg : BAggSig) (a : AggregatedSignature) : R (BAggSig * AggregatedSignature) :=
  match l with
  | [] => Ok (agg, a)
  | x :: l =>
      match sig_from_bytes (a_signature x) with
      | None => Err (SignatureError "Invalid aggregate")
      | Some sg =>
          match agg_add_signature agg sg false with
          | None => Err (SignatureError "Merge failed")
          | Some agg =>
              let? total := unwrap (u_add (a_total_stake a) (a_total_stake x)) in
              merge_loop l agg (mkAggregated (a_signature a) (a_public_keys a ++ a_public_keys x) (a_message a) (a_participants a ++ a_participants x) total)
          end
      end
  end.
Definition merge_aggregated_signatures (l : list AggregatedSignature) : R AggregatedSignature :=
  match l with
  | [] => Err (SignatureError "No signatures to merge")
  | [a] => Ok a
  | a :: l =>
      match sig_from_bytes (a_signature a) with
      | None => Err (SignatureError "Invalid aggregate")
      | Some sg =>
          let? (agg, r) := merge_loop l (agg_from_signature sg) a in
          Ok (mkAggregated (sig_compress (agg_to_signature agg)) (a_public_keys r) (a_message r) (a_participants r) (a_total_stake r))
      end
  end.
Fixpoint each_batch (cs : list (list SignatureData)) (message : list Z) (s : BLSAggregation) : R (list AggregatedSignature) :=
  match cs with
  | [] => Ok []
  | c :: cs => let? a := aggregate_sequential c message s in let? l := each_batch cs message s in Ok (a :: l)
  end.
Definition aggregate_batched (l : list SignatureData) (message : list Z) (batch_size : Z) (s : BLSAggregation) : R AggregatedSignature :=
  let? cs := HistoryExpiry.chunks batch_size l in
  let? batches := each_batch cs message s in
  merge_aggregated_signatures batches.
Fixpoint aggregate_tree (l : list SignatureData) (message : list Z) (depth : nat) (s : BLSAggregation) : R AggregatedSignature :=
  match depth with
  | O => aggregate_sequential l message s
  | S depth =>
      if len l <=? 2 then aggregate_sequential l message s else
      let mid := Nat.div (length l) 2 in
      let? left_agg := aggregate_tree (take mid l) message depth s in
      let? right_agg := aggregate_tree (drop mid l) message depth s in
      merge_aggregated_signatures [left_agg; right_agg]
  end.
Definition aggregate (arrive : list (R PartialAggregate) -> list (R PartialAggregate)) (l : list SignatureData) (message : list Z) (s : BLSAggregation) : R AggregatedSignature :=
  match aggregation_strategy s with
  | Sequential => aggregate_sequential l message s
  | Parallel workers => aggregate_parallel arrive l message workers s
  | Batched batch_size => aggregate_batched l message batch_size s
  | Tree depth => aggregate_tree l message (Z.to_nat depth) s
  end.

(** ** Verification and the cache *)

Fixpoint sum_keys (l : list (list Z)) (agg : option BAggPk) : R (option BAggPk) :=
  match l with
  | [] => Ok agg
  | b :: l =>
      match key_validate b with
      | None => Err (SignatureError "Invalid pubkey")
      | Some pk =>
          match agg with
          | None => sum_keys l (Some (aggpk_from_public_key pk))
          | Some agg => match aggpk_add_public_key agg pk false with Some agg => sum_keys l (Some agg) | None => Err (SignatureError "Aggregation failed") end
          end
      end
  end.
Definition verify_aggregate (a : AggregatedSignature) (s : BLSAggregation) : R bool :=
  match sig_from_bytes (a_signature a) with
  | None => Err (SignatureError "Invalid aggregate")
  | Some sg =>
      let? agg := sum_keys (a_public_keys a) None in
      match agg with
      | None => Err (SignatureError "No public keys")
      | Some agg => Ok (bls_verify sg true (a_message a) (domain s) [] (aggpk_to_public_key agg) true)
      end
  end.
Definition cache_aggregate `{HashOrder} (block_hash : list Z) (a : AggregatedSignature) (s : BLSAggregation) : BLSAggregation :=
  let c := signature_cache s in
  let m := <[block_hash := a]> (aggregated c) in
  let m := if max_size c <? Z.of_nat (size m) then match iter m with (k, _) :: _ => delete k m | [] => m end else m in
  mkBls (domain s) (public_keys s) (mkSigCache m (individual c) (max_size c)) (aggregation_strategy s).
Definition get_cached_aggregate (block_hash : list Z) (s : BLSAggregation) : option AggregatedSignature := aggregated (signature_cache s) !! block_hash.
End bls.
End SsfBls.
