(* ===== verification/SsfBlsProofs.v ===== *)
(** The strategies of aggregation against each other: the theorems on
    crates/ssf/src/signature_aggregation.rs. *)
From stdpp Require Import base list numbers option strings gmap.
From Stdlib Require Import ZArith Lia.
From S2P Require Import Prelude U256 SsfValidator HistoryExpiry HistoryProofs DasNet SsfBls.

Module SsfBlsProofs.
Import SsfValidator DasNet SsfBls.

(** The groups behind blst: signatures and keys add up commutatively, the
    check of a pairing is additive in both, and [verify] is that check with a
    signature in its subgroup and a key other than the point at infinity. *)
Class BlsGroup `{Bls} := {
  sig_add : BSig -> BSig -> BSig; pk_add : BPk -> BPk -> BPk;
  in_group : BSig -> Prop; key_ok : BPk -> Prop; pairing : BSig -> BPk -> list Z -> list Z -> Prop;
}.
Class BlsLaws `{BlsGroup} : Prop := {
  sig_assoc a b c : sig_add (sig_add a b) c = sig_add a (sig_add b c);
  sig_comm a b : sig_add a b = sig_add b a;
  compressed s : sig_from_bytes (sig_compress s) = Some s;
  agg_one s : agg_to_signature (agg_from_signature s) = s;
  agg_more a s : exists a', agg_add_signature a s false = Some a' /\ agg_to_signature a' = sig_add (agg_to_signature a) s;
  aggpk_one p : aggpk_to_public_key (aggpk_from_public_key p) = p;
  aggpk_more a p : exists a', aggpk_add_public_key a p false = Some a' /\ aggpk_to_public_key a' = pk_add (aggpk_to_public_key a) p;
  verify_law s m dst p : bls_verify s true m dst [] p true = true <-> in_group s /\ key_ok p /\ pairing s p m dst;
  group_add a b : in_group a -> in_group b -> in_group (sig_add a b);
  validated b p : key_validate b = Some p -> key_validate (pk_to_bytes p) = Some p;
  pairing_add a b p q m dst : pairing a p m dst -> pairing b q m dst -> pairing (sig_add a b) (pk_add p q) m dst;
}.

Section aggregate.
Context `{BlsLaws} `{Profile} `{U256Laws}.

(** * Sums *)

(** The sum of a list, if there is one. *)
Definition plus {A} (f : A -> A -> A) (x y : option A) : option A :=
  match x, y with Some a, Some b => Some (f a b) | None, _ => y | _, None => x end.
Definition total {A} (f : A -> A -> A) (l : list A) : option A := foldl (fun o a => plus f o (Some a)) None l.
Lemma total_snoc {A} (f : A -> A -> A) l a : total f (l ++ [a]) = plus f (total f l) (Some a).
Proof. unfold total. by rewrite foldl_app. Qed.
Lemma plus_none {A} (f : A -> A -> A) x : plus f x None = x.
Proof. by destruct x. Qed.
Lemma total_app (l k : list BSig) : total sig_add (l ++ k) = plus sig_add (total sig_add l) (total sig_add k).
Proof.
  induction k as [|a k IH] using rev_ind; [rewrite app_nil_r; symmetry; apply plus_none|]. rewrite app_assoc, !total_snoc, IH.
  destruct (total sig_add l), (total sig_add k); cbn; by rewrite ?sig_assoc.
Qed.
Lemma total_perm (l k : list BSig) : l ≡ₚ k -> total sig_add l = total sig_add k.
Proof.
  assert (forall x y, plus sig_add x y = plus sig_add y x) as Hc by (intros [] []; cbn; by rewrite 1?sig_comm).
  assert (forall x y z, plus sig_add (plus sig_add x y) z = plus sig_add x (plus sig_add y z)) as Ha by (intros [] [] []; cbn; by rewrite ?sig_assoc).
  induction 1 as [|a l k _ IH|a b l|l k m _ IH1 _ IH2]; [done| | |congruence].
  - change (a :: l) with ([a] ++ l). change (a :: k) with ([a] ++ k). by rewrite !total_app, IH.
  - change (a :: b :: l) with ([a] ++ [b] ++ l). change (b :: a :: l) with ([b] ++ [a] ++ l). rewrite !total_app, <- !Ha. by rewrite (Hc (total _ [a])).
Qed.
Lemma total_some {A} (f : A -> A -> A) l : l <> [] -> exists x, total f l = Some x.
Proof. destruct l as [|a l _] using rev_ind; [done|]. rewrite total_snoc. destruct (total f l); by eexists. Qed.
Lemma total_none {A} (f : A -> A -> A) l : total f l = None -> l = [].
Proof. intros Hn. destruct l as [|a l]; [done|]. destruct (total_some f (a :: l)) as [x Hx]; [done|]. congruence. Qed.

(** * What is aggregated *)

(** A signature that decodes, of a validator whose key is registered. *)
Notation item := (SignatureData * (BSig * BPk))%type.
Definition known (s : BLSAggregation) (i : item) : Prop :=
  sig_validate (signature i.1) false = Some i.2.1 /\ public_keys s !! validator_index i.1 = Some i.2.2.
Definition valid (s : BLSAggregation) (message : list Z) (i : item) : bool := bls_verify i.2.1 true message (domain s) [] i.2.2 true.
Definition stakes (l : list item) : Z := zsum (fun i => stake i.1) l.
(** The aggregate of [l], whose signatures sum up to [x]. *)
Definition aggregate_of (x : BSig) (message : list Z) (l : list item) : AggregatedSignature :=
  mkAggregated (sig_compress x) (map (fun i => pk_to_bytes i.2.2) l) message (map (fun i => validator_index i.1) l) (stakes l).

(** The loop after the items [l]. *)
Definition runs (l : list item) (r : Running) : Prop :=
  agg_to_signature <$> aggregate_signature r = total sig_add (map (fun i => i.2.1) l) /\
  aggpk_to_public_key <$> aggregate_pubkey r = total pk_add (map (fun i => i.2.2) l) /\
  participants r = map (fun i => validator_index i.1) l /\ SsfBls.total_stake r = stakes l /\ keys r = map (fun i => pk_to_bytes i.2.2) l.
Lemma stakes_app l k : stakes (l ++ k) = stakes l + stakes k.
Proof. apply zsum_app. Qed.
Lemma stakes_nonneg l : Forall (fun i => U256 (stake i.1)) l -> 0 <= stakes l.
Proof. intros Hl. apply zsum_nonneg. eapply Forall_impl; [exact Hl|]. intros i Hi. apply Hi. Qed.
Lemma u_add_ok a b : 0 <= a -> 0 <= b -> a + b < 2 ^ 256 -> unwrap (E := SSFError) (u_add a b) = Ok (a + b).
Proof. intros. rewrite add_law by (unfold uint; lia). by rewrite (proj2 (Z.ltb_lt _ _)). Qed.
Lemma counted_ok l r i sg pk : runs l r -> 0 <= stakes l -> U256 (stake i.1) -> stakes l + stake i.1 < 2 ^ 256 ->
  agg_to_signature sg = default (i.2.1) (plus sig_add (total sig_add (map (fun i => i.2.1) l)) (Some i.2.1)) ->
  aggpk_to_public_key pk = default (i.2.2) (plus pk_add (total pk_add (map (fun i => i.2.2) l)) (Some i.2.2)) ->
  exists r', counted (Some sg) (Some pk) i.1 i.2.2 r = Ok r' /\ runs (l ++ [i]) r'.
Proof.
  intros (_ & _ & Hp & Ht & Hk) H0' Hi Hlt Hs Hpk. unfold counted. unfold uint in Hi. rewrite Ht, u_add_ok by lia. cbn [obind]. eexists. split; [done|].
  split_and!; cbn; rewrite ?map_app; cbn; [rewrite total_snoc, Hs; by destruct (total sig_add (map _ l))|rewrite total_snoc, Hpk; by destruct (total pk_add (map _ l))|by rewrite Hp| |by rewrite Hk].
  rewrite stakes_app. cbn. lia.
Qed.
Lemma add_one_ok s message l r i :
  known s i -> runs l r -> 0 <= stakes l -> U256 (stake i.1) -> stakes l + stake i.1 < 2 ^ 256 ->
  exists r', add_one s message i.1 r = Ok r' /\ runs (l ++ (if valid s message i then [i] else [])) r'.
Proof.
  intros [Hsig Hkey] Hr H0' Hi Hlt. pose proof Hr as (Hagg & Hapk & _). unfold add_one, get_public_key, verify_signature.
  rewrite Hsig, Hkey. cbn [obind]. fold (valid s message i). destruct (valid s message i); cbn [negb]; [|rewrite app_nil_r; by exists r].
  destruct (aggregate_signature r) as [a|]; cbn in Hagg.
  - destruct (agg_more a i.2.1) as (a' & -> & Ha'). destruct (aggregate_pubkey r) as [p|]; cbn in Hapk.
    + destruct (aggpk_more p i.2.2) as (p' & -> & Hp'). apply counted_ok; [done..|rewrite <- Hagg; exact Ha'|rewrite <- Hapk; exact Hp'].
    + exfalso. symmetry in Hapk. apply total_none, map_eq_nil in Hapk as ->. done.
  - apply counted_ok; [done..| |]; [by rewrite agg_one, <- Hagg|]. symmetry in Hagg. apply total_none, map_eq_nil in Hagg as ->. by rewrite aggpk_one.
Qed.
Lemma sequential_loop_ok s message k l r :
  Forall (known s) k -> Forall (fun i => U256 (stake i.1)) k -> runs l r -> 0 <= stakes l -> stakes l + stakes k < 2 ^ 256 ->
  exists r', sequential_loop s message (map fst k) r = Ok r' /\ runs (l ++ filter (fun i => valid s message i = true) k) r'.
Proof.
  intros Hk Hu. revert l r. induction Hk as [|i k Hi Hk IH]; intros l r Hr H0' Hlt; [exists r; by rewrite filter_nil, app_nil_r|].
  apply Forall_cons in Hu as [Hui Hu]. pose proof (stakes_nonneg k Hu) as Hk0. change (stakes (i :: k)) with (stake i.1 + stakes k) in Hlt.
  destruct (add_one_ok s message l r i Hi Hr H0' Hui) as (r1 & Ha & Hr1); [lia|]. cbn [map sequential_loop]. rewrite Ha. cbn [obind].
  rewrite filter_cons. unfold uint in Hui. destruct (valid s message i) eqn:Hv; cbn [decide].
  - destruct (IH Hu (l ++ [i]) r1 Hr1) as (r2 & Hs & Hr2); [rewrite stakes_app; cbn; lia..|]. exists r2. split; [done|].
    rewrite decide_True by done. by rewrite <- app_assoc in Hr2.
  - rewrite app_nil_r in Hr1. destruct (IH Hu l r1 Hr1) as (r2 & Hs & Hr2); [lia..|]. exists r2. by rewrite decide_False.
Qed.

(** Aggregating one after the other sums up the signatures that verify. *)
Lemma sequential_spec s message k :
  k <> [] -> Forall (known s) k -> Forall (fun i => U256 (stake i.1)) k -> stakes k < 2 ^ 256 ->
  let good := filter (fun i => valid s message i = true) k in
  aggregate_sequential (map fst k) message s =
    match total sig_add (map (fun i => i.2.1) good) with
    | Some x => Ok (aggregate_of x message good)
    | None => Err (SignatureError "Failed to create aggregate")
    end.
Proof.
  intros Hne Hk Hu Hlt good. destruct (sequential_loop_ok s message k [] (mkRunning None None [] 0 []) Hk Hu) as (r & Hr & Hagg & _ & Hp & Ht & Hks); [by split_and!|done|done|].
  cbn [app] in *. fold good in Hagg, Hp, Ht, Hks. unfold aggregate_sequential. destruct k as [|i k]; [done|]. cbn [map] in *. rewrite Hr. cbn [obind].
  rewrite <- Hagg, Hp, Ht, Hks. by destruct (aggregate_signature r) as [a|].
Qed.

(** A signature that verifies and whose stake is one. *)
Definition good (s : BLSAggregation) (message : list Z) (i : item) : Prop := known s i /\ U256 (stake i.1) /\ valid s message i = true.
Notation sum l := (total sig_add (map (fun i : item => i.2.1) l)).
Lemma sequential_good s message k x :
  Forall (good s message) k -> stakes k < 2 ^ 256 -> sum k = Some x -> aggregate_sequential (map fst k) message s = Ok (aggregate_of x message k).
Proof.
  intros Hg Hlt Hx. assert (k <> []) as Hne by (by intros ->). assert (filter (fun i => valid s message i = true) k = k) as Hf.
  { clear -Hg. induction Hg as [|i k (_ & _ & Hv) _ IH]; [done|]. by rewrite filter_cons, decide_True, IH. }
  rewrite sequential_spec; [by rewrite Hf, Hx|done| | |done]; (eapply Forall_impl; [exact Hg|]); by intros i (? & ? & ?).
Qed.
Lemma good_stakes s message k : Forall (good s message) k -> 0 <= stakes k.
Proof. intros Hg. apply stakes_nonneg. eapply Forall_impl; [exact Hg|]. by intros i (_ & ? & _). Qed.
Lemma sum_app l k : sum (l ++ k) = plus sig_add (sum l) (sum k).
Proof. rewrite map_app. apply total_app. Qed.
Lemma sum_some (l : list item) : l <> [] -> exists x, sum l = Some x.
Proof. intros Hl. apply total_some. by destruct l. Qed.

(** * Merging *)

Lemma merge_loop_ok s message parts l x agg a :
  Forall (fun p : BSig * list item => sum p.2 = Some p.1 /\ Forall (good s message) p.2) parts ->
  0 <= stakes l -> stakes l + stakes (concat parts.*2) < 2 ^ 256 -> sum l = Some x -> agg_to_signature agg = x ->
  a_public_keys a = a_public_keys (aggregate_of x message l) -> a_participants a = a_participants (aggregate_of x message l) -> a_total_stake a = stakes l ->
  exists agg' a' y, merge_loop (map (fun p => aggregate_of p.1 message p.2) parts) agg a = Ok (agg', a') /\
    sum (l ++ concat parts.*2) = Some y /\ agg_to_signature agg' = y /\ a_message a' = a_message a /\
    a_public_keys a' = a_public_keys (aggregate_of y message (l ++ concat parts.*2)) /\
    a_participants a' = a_participants (aggregate_of y message (l ++ concat parts.*2)) /\ a_total_stake a' = stakes (l ++ concat parts.*2).
Proof.
  intros Hp. revert l x agg a. induction Hp as [|[y k] parts [Hy Hg] Hp IH]; intros l x agg a H0' Hlt Hx Hagg Hks Hpart Hst.
  { exists agg, a, x. cbn. by rewrite app_nil_r. }
  cbn [fmap list_fmap concat fst snd map merge_loop a_signature aggregate_of] in *. rewrite compressed. destruct (agg_more agg y) as (agg' & -> & Hagg').
  rewrite stakes_app in Hlt. pose proof (good_stakes s message k Hg). pose proof (good_stakes s message (concat parts.*2)) as Hrest.
  assert (Forall (good s message) (concat parts.*2)) as Hgr.
  { clear -Hp. induction Hp as [|p parts [_ ?] _ IH]; [constructor|]. cbn. by apply Forall_app. }
  specialize (Hrest Hgr). rewrite Hst, u_add_ok by (cbn; lia). cbn [obind a_total_stake].
  destruct (IH (l ++ k) (sig_add x y) agg' (mkAggregated (a_signature a) (a_public_keys a ++ map (fun i => pk_to_bytes i.2.2) k) (a_message a)
    (a_participants a ++ map (fun i => validator_index i.1) k) (stakes l + stakes k))) as (agg2 & a2 & z & Hm & Hz & ? & ? & ? & ? & ?).
  - rewrite stakes_app. lia.
  - rewrite stakes_app. lia.
  - by rewrite sum_app, Hx, Hy.
  - by rewrite Hagg', Hagg.
  - cbn. by rewrite Hks, map_app.
  - cbn. by rewrite Hpart, map_app.
  - cbn. by rewrite stakes_app.
  - exists agg2, a2, z. rewrite <- app_assoc in *. by split_and!.
Qed.
Lemma merge_ok s message parts :
  parts <> [] -> Forall (fun p : BSig * list item => sum p.2 = Some p.1 /\ Forall (good s message) p.2) parts -> stakes (concat parts.*2) < 2 ^ 256 ->
  exists x, sum (concat parts.*2) = Some x /\
    merge_aggregated_signatures (map (fun p => aggregate_of p.1 message p.2) parts) = Ok (aggregate_of x message (concat parts.*2)).
Proof.
  intros Hne Hp Hlt. destruct parts as [|[x k] parts]; [done|]. apply Forall_cons in Hp as [[Hx Hg] Hp]. cbn [fmap list_fmap concat fst snd] in *.
  destruct parts as [|p parts]; [exists x; cbn; by rewrite app_nil_r|]. rewrite stakes_app in Hlt. pose proof (good_stakes s message k Hg) as H0'.
  destruct (merge_loop_ok s message (p :: parts) k x (agg_from_signature x) (aggregate_of x message k) Hp H0' Hlt Hx (agg_one x)) as (agg & a & y & Hm & Hy & Hagg & Hmsg & Hks & Hpart & Hst); [done..|].
  exists y. split; [exact Hy|]. unfold merge_aggregated_signatures. cbn [map] in *. cbn [a_signature aggregate_of fst snd] in *. rewrite compressed, Hm. cbn [obind].
  by rewrite Hagg, Hmsg, Hks, Hpart, Hst.
Qed.

(** * The strategies *)

Lemma chunks_fuel_map {A B} (f : A -> B) fuel n l : HistoryExpiry.chunks_fuel fuel n (map f l) = map (map f) (HistoryExpiry.chunks_fuel fuel n l).
Proof.
  revert l. induction fuel as [|fuel IH]; intros l; [done|]. destruct l as [|x l]; [done|].
  change (take n (map f (x :: l)) :: HistoryExpiry.chunks_fuel fuel n (drop n (map f (x :: l))) = map f (take n (x :: l)) :: map (map f) (HistoryExpiry.chunks_fuel fuel n (drop n (x :: l)))).
  rewrite <- IH. f_equal; [apply firstn_map|]. f_equal. apply skipn_map.
Qed.
Lemma chunks_nonempty {A} fuel n (l : list A) : (0 < n)%nat -> Forall (fun c => c <> []) (HistoryExpiry.chunks_fuel fuel n l).
Proof.
  intros Hn. revert l. induction fuel as [|fuel IH]; intros l; [constructor|]. destruct l as [|x l]; [constructor|].
  change (HistoryExpiry.chunks_fuel (S fuel) n (x :: l)) with (take n (x :: l) :: HistoryExpiry.chunks_fuel fuel n (drop n (x :: l))).
  constructor; [destruct n; [lia|done]|apply IH].
Qed.
(** The chunks of the items, and what each sums up to. *)
Lemma chunks_items s message n k : 0 < n -> Forall (good s message) k ->
  exists parts, HistoryExpiry.chunks (E := SSFError) n (map fst k) = Ok (map (fun p : BSig * list item => map fst p.2) parts) /\ concat parts.*2 = k /\
    Forall (fun p => sum p.2 = Some p.1 /\ Forall (good s message) p.2) parts /\ (k <> [] -> parts <> []).
Proof.
  intros Hn Hg. unfold HistoryExpiry.chunks. rewrite (proj2 (Z.eqb_neq _ _)) by lia. rewrite chunks_fuel_map, length_map.
  pose proof (HistoryProofs.chunks_concat (length k) (Z.to_nat n) k ltac:(lia) ltac:(lia)) as Hc.
  pose proof (chunks_nonempty (length k) (Z.to_nat n) k ltac:(lia)) as Hne. set (cs := HistoryExpiry.chunks_fuel (length k) (Z.to_nat n) k) in *. clearbody cs.
  assert (exists parts : list (BSig * list item), parts.*2 = cs /\ Forall (fun p => sum p.2 = Some p.1) parts) as (parts & <- & Hs).
  { clear -Hne. induction Hne as [|c cs Hc _ (parts & <- & IH)]; [exists []; by split|]. destruct (sum_some c Hc) as [x Hx]. exists ((x, c) :: parts). split; [done|]. by constructor. }
  exists parts. split_and!; [by rewrite map_map|done| |by intros Hk ->].
  rewrite <- Hc in Hg. clear -Hs Hg. induction Hs as [|p parts Hp _ IH]; [constructor|]. cbn in Hg. apply Forall_app in Hg as [Hg Hr]. constructor; [done|by apply IH].
Qed.
Lemma parts_stakes s message parts : Forall (fun p : BSig * list item => sum p.2 = Some p.1 /\ Forall (good s message) p.2) parts ->
  Forall (fun p => 0 <= stakes p.2 <= stakes (concat parts.*2)) parts /\ 0 <= stakes (concat parts.*2).
Proof.
  induction 1 as [|p parts [_ Hg] _ [IH1 IH2]]; [done|]. cbn. rewrite stakes_app. pose proof (good_stakes s message p.2 Hg). split; [|lia].
  constructor; [lia|]. eapply Forall_impl; [exact IH1|]. cbn. lia.
Qed.
Lemma each_batch_ok s message parts : Forall (fun p : BSig * list item => sum p.2 = Some p.1 /\ Forall (good s message) p.2) parts ->
  Forall (fun p => stakes p.2 < 2 ^ 256) parts ->
  each_batch (map (fun p : BSig * list item => map fst p.2) parts) message s = Ok (map (fun p => aggregate_of p.1 message p.2) parts).
Proof.
  induction 1 as [|p parts [Hx Hg] _ IH]; intros Hlt; [done|]. apply Forall_cons in Hlt as [Hl Hlt]. cbn [map each_batch].
  rewrite (sequential_good s message p.2 p.1) by done. cbn [obind]. by rewrite IH.
Qed.
Lemma batched_ok s message n k x :
  Forall (good s message) k -> stakes k < 2 ^ 256 -> 0 < n -> sum k = Some x -> aggregate_batched (map fst k) message n s = Ok (aggregate_of x message k).
Proof.
  intros Hg Hlt Hn Hx. destruct (chunks_items s message n k Hn Hg) as (parts & Hc & <- & Hp & Hne). unfold aggregate_batched. rewrite Hc. cbn [obind].
  assert (each_batch (map (fun p : BSig * list item => map fst p.2) parts) message s = Ok (map (fun p => aggregate_of p.1 message p.2) parts)) as ->.
  { apply each_batch_ok; [done|]. destruct (parts_stakes s message parts Hp) as [Hs _]. eapply Forall_impl; [exact Hs|]. cbn. lia. }
  cbn [obind]. destruct (merge_ok s message parts) as (y & Hy & ->); [|done|done|congruence]. apply Hne. by intros He; rewrite He in Hx.
Qed.
Lemma tree_ok s message depth k x :
  Forall (good s message) k -> stakes k < 2 ^ 256 -> sum k = Some x -> aggregate_tree (map fst k) message depth s = Ok (aggregate_of x message k).
Proof.
  revert k x. induction depth as [|depth IH]; intros k x Hg Hlt Hx; [by apply sequential_good|]. cbn [aggregate_tree].
  destruct (Z.leb_spec (len (map fst k)) 2) as [|Hl]; [by apply sequential_good|]. unfold len in Hl. rewrite length_map in *. set (mid := Nat.div (length k) 2).
  assert (0 < mid < length k)%nat as Hmid by (unfold mid; split; [apply Nat.div_str_pos; lia|apply Nat.div_lt; lia]).
  rewrite firstn_map, skipn_map. rewrite <- (take_drop mid k) in Hg, Hlt. rewrite stakes_app in Hlt. apply Forall_app in Hg as [Hgl Hgr].
  pose proof (good_stakes _ _ _ Hgl). pose proof (good_stakes _ _ _ Hgr).
  destruct (sum_some (take mid k)) as [xl Hxl]; [intros He; apply (f_equal length) in He; rewrite length_take in He; change (Nat.min mid (length k) = 0%nat) in He; lia|].
  destruct (sum_some (drop mid k)) as [xr Hxr]; [intros He; apply (f_equal length) in He; rewrite length_drop in He; change (length k - mid = 0)%nat in He; lia|].
  rewrite (IH (take mid k) xl), (IH (drop mid k) xr) by (done || lia). cbn [obind].
  destruct (merge_ok s message [(xl, take mid k); (xr, drop mid k)]) as (y & Hy & Hm); [done|by apply Forall_cons_2, Forall_singleton|cbn [fmap list_fmap concat fst snd]; rewrite app_nil_r, stakes_app; lia|].
  cbn [fmap list_fmap concat map fst snd] in *. rewrite app_nil_r, take_drop in *. rewrite Hm. congruence.
Qed.

(** ** Threads *)

(** A partial aggregate of the items [l]. *)
Definition partial_of (l : list item) (p : PartialAggregate) : Prop :=
  agg_to_signature <$> p_signature p = sum l /\ p_participants p = map (fun i => validator_index i.1) l /\ p_total_stake p = stakes l.
Lemma chunk_loop_ok s message k l p :
  Forall (good s message) k -> partial_of l p -> 0 <= stakes l -> stakes l + stakes k < 2 ^ 256 ->
  exists p', chunk_loop (public_keys s) (map fst k) p = Ok p' /\ partial_of (l ++ k) p'.
Proof.
  intros Hg. revert l p. induction Hg as [|i k ([Hsig Hkey] & Hu & _) Hg IH]; intros l p (Hs & Hp & Ht) H0' Hlt; [exists p; by rewrite app_nil_r|].
  unfold uint in Hu. pose proof (good_stakes _ _ _ Hg). change (stakes (i :: k)) with (stake i.1 + stakes k) in Hlt. cbn [map chunk_loop]. rewrite Hsig, Hkey.
  assert (exists agg, match p_signature p with
    | None => Ok (agg_from_signature i.2.1)
    | Some agg => match agg_add_signature agg i.2.1 false with Some agg => Ok agg | None => Err (SignatureError "Failed to add") end
    end = Ok agg /\ Some (agg_to_signature agg) = sum (l ++ [i])) as (agg & -> & Hagg).
  { rewrite sum_app, <- Hs. destruct (p_signature p) as [a|].
    - destruct (agg_more a i.2.1) as (a' & -> & Ha'). exists a'. split; [done|]. cbn. by rewrite Ha'.
    - eexists. split; [done|]. cbn. by rewrite agg_one. }
  cbn [obind]. rewrite Ht, u_add_ok by lia. cbn [obind].
  destruct (IH (l ++ [i]) (mkPartial (Some agg) (p_participants p ++ [validator_index i.1]) (stakes l + stake i.1))) as (p' & Hc & Hp').
  - split_and!; cbn; [done|by rewrite Hp, map_app|rewrite stakes_app; cbn; lia].
  - rewrite stakes_app. cbn. lia.
  - rewrite stakes_app. cbn. lia.
  - exists p'. rewrite <- app_assoc in Hp'. done.
Qed.
Lemma merge_partials_ok ps ls l p :
  Forall2 partial_of ls ps -> Forall (fun k => 0 <= stakes k) ls -> partial_of l p -> 0 <= stakes l -> stakes l + stakes (concat ls) < 2 ^ 256 ->
  exists p', merge_partials ps p = Ok p' /\ partial_of (l ++ concat ls) p'.
Proof.
  intros Hps. revert l p. induction Hps as [|k x ls ps (Hks & Hkp & Hkt) Hps IH]; intros l p Hnn (Hs & Hp & Ht) H0' Hlt; [exists p; cbn; by rewrite app_nil_r|].
  apply Forall_cons in Hnn as [Hk Hnn]. cbn [concat] in *. rewrite stakes_app in Hlt.
  assert (0 <= stakes (concat ls)) as Hrest by (clear -Hnn; induction Hnn; [done|]; cbn; rewrite stakes_app; lia).
  cbn [merge_partials].
  assert (exists agg, match p_signature x, p_signature p with
    | None, agg => Ok agg
    | Some sg, None => Ok (Some sg)
    | Some sg, Some agg =>
        match sig_from_bytes (sig_compress (agg_to_signature sg)) with
        | None => Err (SignatureError "Merge failed")
        | Some temp => match agg_add_signature agg temp false with Some agg => Ok (Some agg) | None => Err (SignatureError "Merge failed") end
        end
    end = Ok agg /\ agg_to_signature <$> agg = sum (l ++ k)) as (agg & -> & Hagg).
  { rewrite sum_app, <- Hs, <- Hks. destruct (p_signature x) as [b|], (p_signature p) as [a|]; try (eexists; by split).
    rewrite compressed. destruct (agg_more a (agg_to_signature b)) as (a' & -> & Ha'). exists (Some a'). split; [done|]. cbn. by rewrite Ha'. }
  cbn [obind]. rewrite Ht, Hkt, u_add_ok by lia. cbn [obind].
  destruct (IH (l ++ k) (mkPartial agg (p_participants p ++ p_participants x) (stakes l + stakes k)) Hnn) as (p' & Hm & Hp').
  - split_and!; cbn; [done|by rewrite Hp, Hkp, map_app|by rewrite stakes_app].
  - rewrite stakes_app. lia.
  - rewrite stakes_app. lia.
  - exists p'. rewrite <- app_assoc in Hp'. done.
Qed.
Lemma received_ok (zs : list (list item * PartialAggregate)) : received (map (fun z => Ok z.2) zs) = Ok zs.*2.
Proof. induction zs as [|z zs IH]; [done|]. cbn. by rewrite IH. Qed.
Lemma stakes_perm l k : l ≡ₚ k -> stakes l = stakes k.
Proof. unfold stakes, zsum. induction 1 as [|x l k _ IH|x y l|l k m _ IH1 _ IH2]; cbn [foldr]; [done|by rewrite IH|lia|congruence]. Qed.
Lemma concat_perm {A} (l k : list (list A)) : l ≡ₚ k -> concat l ≡ₚ concat k.
Proof. induction 1 as [|x l k _ IH|x y l|l k m _ IH1 _ IH2]; cbn; [done|by rewrite IH|by rewrite !app_assoc, (Permutation_app_comm y x)|by etrans]. Qed.
Lemma chunk_results s message parts : Forall (fun p : BSig * list item => sum p.2 = Some p.1 /\ Forall (good s message) p.2) parts ->
  Forall (fun p => stakes p.2 < 2 ^ 256) parts ->
  exists zs : list (list item * PartialAggregate), map (fun c => aggregate_chunk c (public_keys s)) (map (fun p : BSig * list item => map fst p.2) parts) = map (fun z => Ok z.2) zs /\
    zs.*1 = parts.*2 /\ Forall (fun z => partial_of z.1 z.2) zs.
Proof.
  induction 1 as [|p parts [Hx Hg] _ IH]; intros Hlt; [exists []; by split_and!|]. apply Forall_cons in Hlt as [Hl Hlt]. destruct (IH Hlt) as (zs & Hzs & Hz1 & Hz).
  destruct (chunk_loop_ok s message p.2 [] (mkPartial None [] 0) Hg) as (x & Hc & Hp); [by split_and!|done|done|].
  exists ((p.2, x) :: zs). cbn [map fmap list_fmap fst snd]. rewrite <- Hzs. unfold aggregate_chunk at 1. rewrite Hc. split_and!; [done|by f_equal|]. by constructor.
Qed.
Lemma parallel_ok s message w arrive k :
  k <> [] -> Forall (good s message) k -> stakes k < 2 ^ 256 -> 0 < w -> len k + w < 2 ^ 64 -> (forall l, arrive l ≡ₚ l) ->
  exists k' x, k' ≡ₚ k /\ sum k' = Some x /\
    aggregate_parallel arrive (map fst k) message w s = Ok (mkAggregated (sig_compress x) [] message (map (fun i => validator_index i.1) k') (stakes k')).
Proof.
  intros Hne Hg Hlt Hw Hlen Harr. assert (0 < len k) as Hk by (destruct k; [done|rewrite len_cons; pose proof (len_nonneg k); lia]).
  assert (0 < (len k + w - 1) / w) as Hsize by (apply Z.div_str_pos; lia).
  destruct (chunks_items s message ((len k + w - 1) / w) k Hsize Hg) as (parts & Hc & Hcat & Hp & _).
  destruct (parts_stakes s message parts Hp) as [Hst _]. rewrite Hcat in Hst.
  destruct (chunk_results s message parts Hp) as (zs & Hzs & Hz1 & Hz); [eapply Forall_impl; [exact Hst|]; cbn; lia|].
  pose proof (Harr (map (fun z : list item * PartialAggregate => Ok z.2) zs)) as Hperm. apply Permutation_map_inv in Hperm as (zs' & Harr' & Hzz).
  assert (concat zs'.*1 ≡ₚ k) as Hk' by (rewrite <- Hcat, <- Hz1; apply concat_perm; by rewrite Hzz).
  exists (concat zs'.*1). destruct (sum_some (concat zs'.*1)) as [x Hx]; [intros He; rewrite He in Hk'; by apply Permutation_nil_l in Hk'|].
  exists x. split_and!; [done|done|]. destruct (merge_partials_ok zs'.*2 zs'.*1 [] (mkPartial None [] 0)) as (p & Hm & Hps & Hpp & Hpt).
  { rewrite <- Hzz in Hz || (rewrite Hzz in Hz). clear -Hz. induction Hz as [|z zs ? _ IH]; cbn; by constructor. }
  { rewrite <- Hzz, Hz1. apply Forall_fmap. eapply Forall_impl; [exact Hst|]. cbn. lia. }
  { by split_and!. }
  { done. }
  { cbn. rewrite (stakes_perm _ _ Hk'). done. }
  unfold aggregate_parallel. destruct k as [|i k]; [done|]. cbn [map]. change (fst i :: map fst k) with (map fst (i :: k)).
  unfold uadd, usub, udiv. unfold len at 1. rewrite length_map. fold (len (i :: k)). exact_arith. rewrite (proj2 (Z.eqb_neq _ _)) by lia. cbn [obind].
  rewrite Hc. cbn [obind]. rewrite Hzs, Harr', received_ok. cbn [obind]. unfold merge_partial_aggregates. rewrite Hm. cbn [obind app] in *.
  destruct (p_signature p) as [agg|]; cbn in Hps; [|congruence]. rewrite Hx in Hps. injection Hps as ->. by rewrite Hpp, Hpt.
Qed.

(** C35: on signatures that verify, the strategies agree: batches of any size
    and trees of any depth give exactly the aggregate that adding one signature
    after the other gives, of all participants and all their stake; worker
    threads give the same signature and the same stake in whatever order their
    results arrive, with the participants in that order and without their
    keys. *)
Theorem strategies_agree s message k batch_size depth workers arrive :
  k <> [] -> Forall (good s message) k -> stakes k < 2 ^ 256 -> 0 < batch_size -> 0 < workers -> len k + workers < 2 ^ 64 -> (forall l, arrive l ≡ₚ l) ->
  exists a a', aggregate_sequential (map fst k) message s = Ok a /\
    a_participants a = map (fun i => validator_index i.1) k /\ a_total_stake a = stakes k /\
    aggregate_batched (map fst k) message batch_size s = Ok a /\ aggregate_tree (map fst k) message depth s = Ok a /\
    aggregate_parallel arrive (map fst k) message workers s = Ok a' /\
    a_signature a' = a_signature a /\ a_total_stake a' = a_total_stake a /\ a_participants a' ≡ₚ a_participants a /\ a_public_keys a' = [].
Proof.
  intros Hne Hg Hlt Hb Hw Hlen Harr. destruct (sum_some k Hne) as [x Hx]. destruct (parallel_ok s message workers arrive k Hne Hg Hlt Hw Hlen Harr) as (k' & y & Hp & Hy & Hpar).
  assert (y = x) as ->. { rewrite (total_perm _ (map (fun i : item => i.2.1) k)) in Hy by by apply Permutation_map. congruence. }
  exists (aggregate_of x message k). eexists. split; [by apply sequential_good|]. split; [done|]. split; [done|]. split; [by apply batched_ok|]. split; [by apply tree_ok|].
  split; [exact Hpar|]. cbn. split_and!; [done|by apply stakes_perm|by apply Permutation_map|done].
Qed.

(** * Verification *)

(** The keys are registered ones. *)
Inductive registered : BLSAggregation -> Prop :=
| reg_new dom s : bls_new dom = Ok s -> registered s
| reg_key i b s : registered s -> registered (register_public_key i b s).2.
Lemma registered_keys s i p : registered s -> public_keys s !! i = Some p -> key_validate (pk_to_bytes p) = Some p.
Proof.
  intros Hs. revert i p. induction Hs as [dom s Hn|j b s _ IH]; intros i p; [by injection Hn as <-|].
  unfold register_public_key. destruct (key_validate b) as [q|] eqn:Hq; [|apply IH]. cbn. destruct (decide (i = j)) as [-> |Hne].
  - rewrite lookup_insert_eq. intros [= <-]. by eapply validated.
  - rewrite lookup_insert_ne by done. apply IH.
Qed.
Lemma sum_keys_ok (l : list BPk) agg :
  Forall (fun p => key_validate (pk_to_bytes p) = Some p) l ->
  exists agg', sum_keys (map pk_to_bytes l) agg = Ok agg' /\ aggpk_to_public_key <$> agg' = foldl (fun o a => plus pk_add o (Some a)) (aggpk_to_public_key <$> agg) l.
Proof.
  intros Hl. revert agg. induction Hl as [|p l Hp _ IH]; intros agg; [by exists agg|]. cbn [map sum_keys foldl]. rewrite Hp. destruct agg as [a|].
  - destruct (aggpk_more a p) as (a' & -> & Ha'). destruct (IH (Some a')) as (r & -> & Hr). exists r. split; [done|]. rewrite Hr. cbn. by rewrite Ha'.
  - destruct (IH (Some (aggpk_from_public_key p))) as (r & -> & Hr). exists r. split; [done|]. rewrite Hr. cbn. by rewrite aggpk_one.
Qed.
(** Sums of signatures and of keys pair as their parts do. *)
Lemma sums_pair s message k x p :
  Forall (good s message) k -> sum k = Some x -> total pk_add (map (fun i => i.2.2) k) = Some p -> in_group x /\ pairing x p message (domain s).
Proof.
  intros Hg. revert x p. induction k as [|i k IH] using rev_ind; intros x p Hx Hp; [done|]. apply Forall_app in Hg as [Hg Hi]. apply Forall_inv in Hi.
  destruct Hi as (_ & _ & Hv). apply verify_law in Hv as (Hin & _ & Hpair). rewrite map_app in Hx, Hp. cbn in Hx, Hp. rewrite total_snoc in Hx. rewrite total_snoc in Hp.
  destruct (sum k) as [x'|] eqn:Hx', (total pk_add (map _ k)) as [p'|] eqn:Hp'; cbn in Hx, Hp; injection Hx as <-; injection Hp as <-.
  - destruct (IH Hg x' p' eq_refl eq_refl). split; [by apply group_add|by apply pairing_add].
  - apply total_none, map_eq_nil in Hp' as ->. done.
  - apply total_none, map_eq_nil in Hx' as ->. done.
  - done.
Qed.
(** what is aggregated one after the other, in batches or in a tree from
    signatures that verify does verify, if the sum of the keys is a key; and
    what the default strategy gives never does, from whatever signatures: it
    carries no keys, and verification fails with an error. *)
Theorem aggregates_verify s message k p :
  registered s -> k <> [] -> Forall (good s message) k -> stakes k < 2 ^ 256 -> total pk_add (map (fun i => i.2.2) k) = Some p -> key_ok p ->
  (exists a, aggregate_sequential (map fst k) message s = Ok a /\ verify_aggregate a s = Ok true) /\
  (forall batch_size, 0 < batch_size -> exists a, aggregate_batched (map fst k) message batch_size s = Ok a /\ verify_aggregate a s = Ok true) /\
  (forall depth, exists a, aggregate_tree (map fst k) message depth s = Ok a /\ verify_aggregate a s = Ok true) /\
  (forall arrive l m workers a, aggregate_parallel arrive l m workers s = Ok a -> verify_aggregate a s = Err (SignatureError "No public keys")).
Proof.
  intros Hreg Hne Hg Hlt Hp Hok. destruct (sum_some k Hne) as [x Hx]. assert (verify_aggregate (aggregate_of x message k) s = Ok true) as Hv.
  { unfold verify_aggregate, aggregate_of. cbn [a_signature a_public_keys a_message]. rewrite compressed.
    destruct (sum_keys_ok (map (fun i => i.2.2) k) None) as (agg & Hs & Hagg).
    { apply Forall_fmap. eapply Forall_impl; [exact Hg|]. intros i ([_ Hkey] & _). by eapply registered_keys. }
    rewrite map_map in Hs. rewrite Hs. cbn [obind]. change (foldl _ _ _) with (total pk_add (map (fun i : item => i.2.2) k)) in Hagg. rewrite Hp in Hagg.
    destruct agg as [agg|]; [|done]. injection Hagg as ->. f_equal. apply verify_law. by destruct (sums_pair s message k x p Hg Hx Hp). }
  split_and!.
  - exists (aggregate_of x message k). split; [by apply sequential_good|done].
  - intros n Hn. exists (aggregate_of x message k). split; [by apply batched_ok|done].
  - intros depth. exists (aggregate_of x message k). split; [by apply tree_ok|done].
  - intros arrive l m w a Ha. unfold aggregate_parallel in Ha. destruct l; [done|]. repeat opened Ha.
    destruct (p_signature _); [|done]. injection Ha as <-. unfold verify_aggregate. cbn. by rewrite compressed.
Qed.
End aggregate.

(** * Witnesses and examples *)

(** Signatures and keys as integers under addition: the key [p] signs a message
    with the product of [p] and the number of the message, and 0 is the point
    at infinity. *)
Definition message_number (m : list Z) : Z := from_be m + 1.
Definition one_number (l : list Z) : option Z := match l with [x] => Some x | _ => None end.
#[local] Instance bls_numbers : Bls := {|
  BSig := Z; BPk := Z; BAggSig := Z; BAggPk := Z;
  sig_validate l _ := one_number l; sig_from_bytes := one_number; sig_compress s := [s];
  key_validate l := match one_number l with Some p => if p =? 0 then None else Some p | None => None end; pk_to_bytes p := [p];
  agg_from_signature s := s; agg_add_signature a s _ := Some (a + s); agg_to_signature a := a;
  aggpk_from_public_key p := p; aggpk_add_public_key a p _ := Some (a + p); aggpk_to_public_key a := a;
  bls_verify s _ m dst _ p _ := negb (p =? 0) && (s =? p * message_number (dst ++ m));
|}.
#[local] Instance numbers_group : BlsGroup := {|
  sig_add := Z.add; pk_add := Z.add; in_group _ := True; key_ok p := p <> 0; pairing s p m dst := s = p * message_number (dst ++ m);
|}.
#[local] Instance numbers_laws : BlsLaws.
Proof.
  split; cbn; try done; try (intros; lia).
  - intros a s. by exists (a + s).
  - intros a p. by exists (a + p).
  - intros [|b [|? ?]] p Hp; try done. cbn in Hp. destruct (Z.eqb_spec b 0); [done|]. injection Hp as <-. by rewrite (proj2 (Z.eqb_neq _ _)).
Qed.
#[local] Existing Instance dev_profile.
Definition registry : BLSAggregation := (register_public_key 3 [30] (register_public_key 2 [20] (register_public_key 1 [10] (mkBls [] ∅ (mkSigCache ∅ ∅ 10000) strategy_default)).2).2).2.
Lemma registry_registered : registered registry.
Proof. unfold registry. do 3 apply reg_key. by apply (reg_new []). Qed.
Definition voter (i : Z) : SignatureData * (Z * Z) := (mkData i [i * 10 * 8] 32, (i * 10 * 8, i * 10)).
Definition voters : list (SignatureData * (Z * Z)) := [voter 1; voter 2; voter 3].
Lemma voters_good : Forall (good registry [7]) voters.
Proof. repeat (apply Forall_cons_2; [split_and!; by vm_compute|]). constructor. Qed.
Lemma strategies_agree_witness : exists a a',
  aggregate_sequential (map fst voters) [7] registry = Ok a /\ aggregate_batched (map fst voters) [7] 2 registry = Ok a /\
  aggregate_parallel (@reverse _) (map fst voters) [7] 2 registry = Ok a' /\ a_signature a' = a_signature a.
Proof.
  destruct (strategies_agree registry [7] voters 2 3 2 (@reverse _)) as (a & a' & Hs & _ & _ & Hb & _ & Hp & Hsig & _).
  - done.
  - apply voters_good.
  - by vm_compute.
  - done.
  - done.
  - by vm_compute.
  - intros l. apply reverse_Permutation.
  - by exists a, a'.
Defined.
Lemma aggregates_verify_witness : exists a, aggregate_sequential (map fst voters) [7] registry = Ok a /\ verify_aggregate a registry = Ok true.
Proof.
  destruct (aggregates_verify registry [7] voters 60) as [Hs _]; [apply registry_registered|done|apply voters_good|by vm_compute|by vm_compute|by vm_compute|exact Hs].
Defined.
(** Worker threads do not look at the message: a forged signature counts, and
    its stake with it; one after the other it is left out. *)
Example forged_signature_counts : let forged := [mkData 1 [80] 32; mkData 2 [5] 1000] in
  a_total_stake <$> match aggregate_parallel id forged [7] 4 registry with Ok a => Some a | _ => None end = Some 1032 /\
  a_total_stake <$> match aggregate_sequential forged [7] registry with Ok a => Some a | _ => None end = Some 32.
Proof. by vm_compute. Qed.
(** One batch without a signature that verifies fails the aggregation. *)
Example bad_batch_fails : aggregate_batched [mkData 1 [80] 32; mkData 2 [5] 1000] [7] 1 registry = Err (SignatureError "Failed to create aggregate").
Proof. by vm_compute. Qed.
(** No workers and empty batches panic. *)
Example no_workers_panic : aggregate_parallel id [mkData 1 [80] 32] [7] 0 registry = Panic /\ aggregate_batched [mkData 1 [80] 32] [7] 0 registry = Panic.
Proof. by vm_compute. Qed.
(** A thread whose stakes overflow is forgotten, and the rest is aggregated. *)
Example overflowing_thread_is_dropped :
  a_participants <$> match aggregate_parallel id [mkData 1 [80] (2 ^ 256 - 1); mkData 2 [160] 1; mkData 3 [240] 5] [7] 2 registry with Ok a => Some a | _ => None end = Some [3].
Proof. by vm_compute. Qed.
End SsfBlsProofs.
