(* ===== verification/SsfAggregator.v ===== *)
(** The signature aggregator of single-slot finality:
    crates/ssf/src/aggregator.rs over the blst crate.  Its question marks on
    blst errors and on options have no conversion to the error of the crate, so
    the error they give is a parameter; [f64::log2], whose precision Rust
    leaves open, is another, with the class [LogarithmLaws].  The recursion takes fuel.  The reasons blst gives
    are left out of the error messages, and so are the timestamps, which
    nothing reads. *)
From stdpp Require Import base list numbers option strings gmap.
From Stdlib Require Import ZArith Lia SpecFloat.
From S2P Require Import Prelude U256 F64 SsfValidator SsfCommittee HistoryExpiry DasNet SsfBls.

Module SsfAggregator.
Import F64 SsfValidator SsfCommittee DasNet SsfBls.
Notation R := (outcome SSFError).

Inductive AggregationStrategy := TreeBased (branching_factor : Z) | Direct | Optimistic (threshold : f64) | Adaptive.
Definition strategy_default : AggregationStrategy := TreeBased 8.
Record ValidatorSignature := mkSignature { vs_validator_index : Z; vs_signature : list Z; vs_stake : Z }.

(** [f64::ceil]: exact, and keeps the sign of a zero. *)
Definition ceil (x : f64) : f64 :=
  match x with
  | S754_finite s m e =>
      if 0 <=? e then x else
      let q := Z.shiftr (Zpos m) (- e) in
      let up := negb s && negb (Z.shiftl q (- e) =? Zpos m) in
      let n := if up then q + 1 else q in
      binary_normalize 53 1024 (if s then - n else n) 0 s
  | _ => x
  end.
Class Logarithm := { log2 : f64 -> f64 }.
(** What is relied on of its precision: exact at eight, and not less above. *)
Class LogarithmLaws `{Logarithm} : Prop := {
  log2_eight : log2 (of_Z 8) = of_Z 3;
  log2_above n : 8 <= n < 2 ^ 64 -> le (of_Z 3) (log2 (of_Z n)) = true;
}.

Section aggregator.
Context `{Bls} `{Profile} `{U256Ops} `{Randomness} `{HashOrder} `{Logarithm} (no_conversion : SSFError).

Inductive AggregationNode := mkNode (n_signatures : list BSig) (n_aggregated : option BAggSig) (n_children : list AggregationNode) (n_weight : Z).
Definition n_aggregated (n : AggregationNode) : option BAggSig := let '(mkNode _ a _ _) := n in a.
Definition n_weight (n : AggregationNode) : Z := let '(mkNode _ _ _ w) := n in w.
Record AggregationTree := mkTree { root : AggregationNode; height : Z; total_signatures : Z }.
Record SignatureCache := mkCache { recent_signatures : gmap (list Z) (list ValidatorSignature); cache_size : Z }.
Record SignatureAggregator := mkAggregator {
  strategy : AggregationStrategy; committee_count : Z; max_committee_size : Z;
  aggregation_trees : gmap (list Z) AggregationTree; signature_cache : SignatureCache;
}.
Notation M := (SM SignatureAggregator SSFError).
Definition aggregator_new (count max_size : Z) : R SignatureAggregator := Ok (mkAggregator strategy_default count max_size ∅ (mkCache ∅ 10000)).
Definition with_trees (m : gmap (list Z) AggregationTree) (a : SignatureAggregator) : SignatureAggregator :=
  mkAggregator (strategy a) (committee_count a) (max_committee_size a) m (signature_cache a).
Definition with_cache (c : SignatureCache) (a : SignatureAggregator) : SignatureAggregator :=
  mkAggregator (strategy a) (committee_count a) (max_committee_size a) (aggregation_trees a) c.

Definition to_signature (s : ValidatorSignature) : R BSig :=
  match sig_from_bytes (vs_signature s) with Some x => Ok x | None => Err (SignatureError "Invalid signature") end.
(** [agg.add_signature(sig, false)?] *)
Definition add_signature (agg : BAggSig) (x : BSig) : R BAggSig := match agg_add_signature agg x false with Some agg => Ok agg | None => Err no_conversion end.
Fixpoint total_of (acc : Z) (l : list ValidatorSignature) : R Z :=
  match l with [] => Ok acc | s :: l => let? acc := unwrap (u_add acc (vs_stake s)) in total_of acc l end.

(** ** One after the other *)

(** A signature that cannot be added is only reported. *)
Fixpoint direct_loop (l : list ValidatorSignature) (agg : BAggSig) : R BAggSig :=
  match l with
  | [] => Ok agg
  | s :: l => let? x := to_signature s in direct_loop l (default agg (agg_add_signature agg x false))
  end.
Definition aggregate_direct (l : list ValidatorSignature) : R (list Z) :=
  match l with
  | [] => Panic
  | s :: l =>
      let? x := to_signature s in
      let? agg := direct_loop l (agg_from_signature x) in
      Ok (sig_compress (agg_to_signature agg))
  end.
Fixpoint optimistic_loop (threshold : f64) (total_stake : Z) (l : list ValidatorSignature) (accumulated : Z) (agg : option BAggSig) : R (option BAggSig) :=
  match l with
  | [] => Ok agg
  | s :: l =>
      let? accumulated := unwrap (u_add accumulated (vs_stake s)) in
      let? x := to_signature s in
      let? agg := match agg with None => Ok (agg_from_signature x) | Some agg => add_signature agg x end in
      let? a := unwrap (u_as_u128 accumulated) in
      let? t := unwrap (u_as_u128 total_stake) in
      if le threshold (div (of_Z a) (of_Z t)) then Ok (Some agg) else optimistic_loop threshold total_stake l accumulated (Some agg)
  end.
Definition aggregate_optimistic (l : list ValidatorSignature) (threshold : f64) : R (list Z) :=
  let? total_stake := total_of 0 l in
  let? agg := optimistic_loop threshold total_stake l 0 None in
  match agg with
  | None => Err (AggregationError "No signatures to aggregate")
  | Some agg => Ok (sig_compress (agg_to_signature agg))
  end.

(** ** In a tree *)

Fixpoint add_all (l : list BSig) (agg : BAggSig) : R BAggSig :=
  match l with [] => Ok agg | x :: l => let? agg := add_signature agg x in add_all l agg end.
Definition decoded (s : ValidatorSignature) : option BSig := sig_from_bytes (vs_signature s).
Definition leaf (l : list ValidatorSignature) : R AggregationNode :=
  let sigs := omap decoded l in
  let? agg := match sigs with [] => Ok None | x :: rest => let? agg := add_all rest (agg_from_signature x) in Ok (Some agg) end in
  let? weight := total_of 0 l in
  Ok (mkNode sigs agg [] weight).
Fixpoint build_children (build : list ValidatorSignature -> R AggregationNode) (cs : list (list ValidatorSignature)) (total_weight : Z) : R (list AggregationNode * Z) :=
  match cs with
  | [] => Ok ([], total_weight)
  | c :: cs =>
      let? child := build c in
      let? total_weight := unwrap (u_add total_weight (n_weight child)) in
      let? (children, w) := build_children build cs total_weight in
      Ok (child :: children, w)
  end.
(** The first aggregate of the children; the others are not added to it. *)
Definition aggregate_children (children : list AggregationNode) : option BAggSig := head (omap n_aggregated children).
Fixpoint build_tree_node (fuel : nat) (l : list ValidatorSignature) (branching_factor level max_height : Z) : R AggregationNode :=
  match fuel with
  | O => Diverge
  | S fuel =>
      match l with
      | [] => Ok (mkNode [] None [] 0)
      | _ =>
          if (max_height <=? level) || (len l <=? branching_factor) then leaf l else
          let? n := uadd 64 (len l) branching_factor in
          let? n := usub 64 n 1 in
          let? chunk_size := udiv n branching_factor in
          let? cs := HistoryExpiry.chunks chunk_size l in
          let? (children, w) := build_children (fun c => let? level := uadd 64 level 1 in build_tree_node fuel c branching_factor level max_height) cs 0 in
          Ok (mkNode [] (aggregate_children children) children w)
      end
  end.
Definition tree_height (n branching_factor : Z) : Z := to_uint 64 (ceil (div (log2 (of_Z n)) (log2 (of_Z branching_factor)))).
Definition build_aggregation_tree (fuel : nat) (l : list ValidatorSignature) (branching_factor : Z) : R AggregationTree :=
  let h := tree_height (len l) branching_factor in
  let? r := build_tree_node fuel l branching_factor 0 h in
  Ok (mkTree r h (len l)).
Definition aggregate_from_tree (block_hash : list Z) (a : SignatureAggregator) : R (list Z) :=
  match aggregation_trees a !! block_hash with
  | None => Err (AggregationError "Tree not found")
  | Some t =>
      match n_aggregated (root t) with
      | None => Err (AggregationError "No aggregated signature")
      | Some agg => Ok (sig_compress (agg_to_signature agg))
      end
  end.
(** A map one entry too large loses the first that its iteration meets. *)
Definition evict {V} (limit : Z) (m : gmap (list Z) V) : gmap (list Z) V :=
  if limit <? Z.of_nat (size m) then match iter m with (k, _) :: _ => delete k m | [] => m end else m.
Definition aggregate_tree_based (fuel : nat) (l : list ValidatorSignature) (block_hash : list Z) (branching_factor : Z) : M (list Z) :=
  let! tree := slift (build_aggregation_tree fuel l branching_factor) in
  smodify (fun a => with_trees (evict 100 (<[block_hash := tree]> (aggregation_trees a))) a) ;;!
  let! a := sget in
  slift (aggregate_from_tree block_hash a).

Fixpoint sum_u128 (acc : Z) (l : list ValidatorSignature) : R Z :=
  match l with
  | [] => Ok acc
  | s :: l => let? x := unwrap (u_as_u128 (vs_stake s)) in let? acc := uadd 128 acc x in sum_u128 acc l
  end.
Definition aggregate_adaptive (fuel : nat) (l : list ValidatorSignature) (block_hash : list Z) : M (list Z) :=
  let! sum := slift (sum_u128 0 l) in
  let! avg_stake := slift (udiv sum (len l)) in
  if 1000 <? len l then aggregate_tree_based fuel l block_hash 16
  else if 100000000000000000000 <? avg_stake then slift (aggregate_optimistic l (lit 67 100))
  else slift (aggregate_direct l).
Definition aggregate_signatures (fuel : nat) (l : list ValidatorSignature) (block_hash : list Z) : M (list Z) :=
  let! a := sget in
  match strategy a with
  | TreeBased branching_factor => aggregate_tree_based fuel l block_hash branching_factor
  | Direct => slift (aggregate_direct l)
  | Optimistic threshold => slift (aggregate_optimistic l threshold)
  | Adaptive => aggregate_adaptive fuel l block_hash
  end.

(** ** The cache *)

Definition cache_signatures (block_hash : list Z) (l : list ValidatorSignature) (a : SignatureAggregator) : SignatureAggregator :=
  let c := signature_cache a in
  with_cache (mkCache (evict (cache_size c) (<[block_hash := l]> (recent_signatures c))) (cache_size c)) a.
Definition get_cached_signatures (block_hash : list Z) (a : SignatureAggregator) : option (list ValidatorSignature) := recent_signatures (signature_cache a) !! block_hash.
Definition clear_cache (a : SignatureAggregator) : SignatureAggregator := with_cache (mkCache ∅ (cache_size (signature_cache a))) (with_trees ∅ a).
End aggregator.
End SsfAggregator.
