(* ===== verification/SsfFinality.v ===== *)
(** Single-slot finality: crates/ssf/src/finality.rs over the aggregator, the
    committees and the validator set.  The number and the hash of a block are
    parameters, and so is the signature a member of a committee gives, for
    which the members have no method; which committees answer in time is an
    argument, as are the readings of the clock (in milliseconds). *)
From stdpp Require Import base list numbers option strings gmap.
From Stdlib Require Import ZArith Lia SpecFloat.
From S2P Require Import Prelude U256 F64 SsfValidator SsfCommittee HistoryExpiry DasNet SsfBls SsfAggregator.

Module SsfFinality.
Import F64 SsfValidator SsfCommittee DasNet SsfBls SsfAggregator.
Notation R := (outcome SSFError).

(** Durations are in milliseconds. *)
Record FinalityConfig := mkFinalityConfig {
  slot_duration : Z; finality_threshold : f64; f_committee_count : Z; optimistic_finality : bool;
  f_max_committee_size : Z; aggregation_timeout : Z;
}.
Definition finality_config_default : FinalityConfig := mkFinalityConfig 12000 (lit 67 100) 64 true 128 4000.
(** The reason of a failure shows the ratio in percent. *)
Inductive FinalityStatus := StatusPending | StatusOptimistic (confidence : f64) | Finalized (slot : Z) (block_hash : list Z) | Failed (percent : f64).
Record FinalizedBlock := mkFinalized { fb_slot : Z; fb_block_hash : list Z; finalized_at : Z; fb_signatures : list (list Z) }.
Record PendingBlock := mkPending { pb_slot : Z; pb_block_hash : list Z; received_at : Z; signature_count : Z; pb_total_stake : Z }.
Record FinalityCache := mkFinalityCache { finalized_blocks : list FinalizedBlock; pending_blocks : list PendingBlock }.
Record FinalityMetrics := mkMetrics { blocks_finalized : Z; average_finality_time : Z; failed_finalizations : Z; signature_aggregation_time : Z }.
Definition metrics_new : FinalityMetrics := mkMetrics 0 0 0 0.

Section finality.
Context `{Bls} `{Profile} `{U256Ops} `{Randomness} `{HashOrder} `{Logarithm} (no_conversion : SSFError).
Context {Blk : Type} (block_number : Blk -> Z) (block_hash : Blk -> list Z) (sign_with : ValidatorInfo -> list Z -> option (list Z)).

Record SingleSlotFinality := mkSsf {
  f_config : FinalityConfig; f_validator_set : ValidatorSet; f_aggregator : SignatureAggregator; f_committees : list Committee;
  finality_cache : FinalityCache; metrics : FinalityMetrics;
}.
Notation M := (SM SingleSlotFinality SSFError).
Definition finality_new (c : FinalityConfig) : R SingleSlotFinality :=
  let? a := aggregator_new (f_committee_count c) (f_max_committee_size c) in
  Ok (mkSsf c set_new a [] (mkFinalityCache [] []) metrics_new).
Definition with_aggregator (a : SignatureAggregator) (s : SingleSlotFinality) : SingleSlotFinality :=
  mkSsf (f_config s) (f_validator_set s) a (f_committees s) (finality_cache s) (metrics s).
Definition with_committees (l : list Committee) (s : SingleSlotFinality) : SingleSlotFinality :=
  mkSsf (f_config s) (f_validator_set s) (f_aggregator s) l (finality_cache s) (metrics s).
Definition with_finality_cache (c : FinalityCache) (s : SingleSlotFinality) : SingleSlotFinality :=
  mkSsf (f_config s) (f_validator_set s) (f_aggregator s) (f_committees s) c (metrics s).
Definition with_metrics (m : FinalityMetrics) (s : SingleSlotFinality) : SingleSlotFinality :=
  mkSsf (f_config s) (f_validator_set s) (f_aggregator s) (f_committees s) (finality_cache s) m.

(** [elapsed()] at the time [now] of an instant [t]. *)
Definition elapsed (now t : Z) : Z := Z.max 0 (now - t).
(** [retain], which reads the clock for each block in turn. *)
Fixpoint retain_recent (reads : nat -> Z) (l : list PendingBlock) : list PendingBlock :=
  match l with
  | [] => []
  | b :: l => (if elapsed (reads O) (received_at b) <? 60000 then [b] else []) ++ retain_recent (fun i => reads (S i)) l
  end.
Definition add_pending_block (received : Z) (reads : nat -> Z) (b : Blk) : M unit :=
  smodify (fun s => let c := finality_cache s in
    with_finality_cache (mkFinalityCache (finalized_blocks c)
      (retain_recent reads (pending_blocks c ++ [mkPending (block_number b) (block_hash b) received 0 0]))) s).
Definition collect_committee_signatures (c : Committee) (h : list Z) : list ValidatorSignature :=
  omap (fun v => (fun sg => mkSignature (SsfCommittee.index v) sg (SsfCommittee.stake v)) <$> sign_with v h) (members c).
(** [in_time i]: the task of the [i]-th committee ends before its timeout. *)
Fixpoint collect_from (in_time : nat -> bool) (l : list Committee) (h : list Z) : list ValidatorSignature :=
  match l with
  | [] => []
  | c :: l => (if in_time O then collect_committee_signatures c h else []) ++ collect_from (fun i => in_time (S i)) l h
  end.
Definition collect_signatures_parallel (in_time : nat -> bool) (b : Blk) (s : SingleSlotFinality) : list ValidatorSignature :=
  collect_from in_time (f_committees s) (block_hash b).
Definition finalize_block (now : Z) (b : Blk) (sg : list Z) : M unit :=
  smodify (fun s =>
    let c := finality_cache s in let m := metrics s in
    let l := finalized_blocks c ++ [mkFinalized (block_number b) (block_hash b) now [sg]] in
    with_metrics (mkMetrics (wrap 64 (blocks_finalized m + 1)) (average_finality_time m) (failed_finalizations m) (signature_aggregation_time m))
      (with_finality_cache (mkFinalityCache (if 1000 <? len l then drop 100 l else l) (filter (fun p => pb_block_hash p <> block_hash b) (pending_blocks c))) s)).
Definition calculate_total_stake (l : list ValidatorSignature) : R Z := total_of 0 l.
Definition half : f64 := lit 5 10.
(** The aggregator works on its own part of the object. *)
Definition aggregated_by {A} (m : SM SignatureAggregator SSFError A) : M A :=
  fun s => let '(r, a) := m (f_aggregator s) in (r, with_aggregator a s).
(** The readings of the clock: the start, the pending block, the clean-up, the
    finalized block and the end. *)
Record Times := mkTimes { t_start : Z; t_received : Z; t_reads : nat -> Z; t_finalized : Z; t_end : Z }.
Definition process_block (fuel : nat) (in_time : nat -> bool) (t : Times) (b : Blk) : M FinalityStatus :=
  add_pending_block (t_received t) (t_reads t) b ;;!
  let! s := sget in
  let signatures := collect_signatures_parallel in_time b s in
  let! agg := aggregated_by (aggregate_signatures no_conversion fuel signatures (block_hash b)) in
  let! total := slift (calculate_total_stake signatures) in
  let! x := slift (unwrap (u_as_u128 total)) in
  let! y := slift (unwrap (u_as_u128 (SsfValidator.total_stake (f_validator_set s)))) in
  let stake_ratio := div (of_Z x) (of_Z y) in
  if le (finality_threshold (f_config s)) stake_ratio then
    finalize_block (t_finalized t) b agg ;;!
    smodify (fun s => let m := metrics s in
      with_metrics (mkMetrics (blocks_finalized m) (wrap 64 (elapsed (t_end t) (t_start t))) (failed_finalizations m) (signature_aggregation_time m)) s) ;;!
    sret (Finalized (block_number b) (block_hash b))
  else if optimistic_finality (f_config s) && lt half stake_ratio then sret (StatusOptimistic stake_ratio)
  else
    smodify (fun s => let m := metrics s in
      with_metrics (mkMetrics (blocks_finalized m) (average_finality_time m) (wrap 64 (failed_finalizations m + 1)) (signature_aggregation_time m)) s) ;;!
    sret (Failed (mul stake_ratio (of_Z 100))).

Fixpoint make_committees (per : Z) (vs : list ValidatorInfo) (idx : list Z) : R (list Committee) :=
  match idx with
  | [] => Ok []
  | i :: idx =>
      let? start := umul 64 i per in
      let? next := uadd 64 i 1 in
      let? stop := umul 64 next per in
      let? part := slice vs start (Z.min stop (len vs)) in
      let? c := committee_new i part in
      let? cs := make_committees per vs idx in
      Ok (c :: cs)
  end.
Definition initialize_committees (vs : list ValidatorInfo) : M unit :=
  let! s := sget in
  let n := f_committee_count (f_config s) in
  let! per := slift (udiv (len vs) n) in
  let! cs := slift (make_committees per vs (map Z.of_nat (seq 0 (Z.to_nat n)))) in
  smodify (with_committees cs).

Definition get_status (s : SingleSlotFinality) : R FinalityStatus :=
  match last (finalized_blocks (finality_cache s)) with
  | Some latest => Ok (Finalized (fb_slot latest) (fb_block_hash latest))
  | None =>
      match last (pending_blocks (finality_cache s)) with
      | Some pending =>
          let? x := unwrap (u_as_u128 (pb_total_stake pending)) in
          let? y := unwrap (u_as_u128 (SsfValidator.total_stake (f_validator_set s))) in
          let confidence := div (of_Z x) (of_Z y) in
          Ok (if lt half confidence then StatusOptimistic confidence else StatusPending)
      | None => Ok StatusPending
      end
  end.
Definition get_metrics (s : SingleSlotFinality) : FinalityMetrics := metrics s.
End finality.
End SsfFinality.
