(* ===== verification/SsfFinalityProofs.v ===== *)
(** What the aggregate of a tree covers, when a block becomes final and who is
    in a committee: the theorems on crates/ssf/src/aggregator.rs and
    crates/ssf/src/finality.rs. *)
From stdpp Require Import base list numbers option strings gmap.
From Stdlib Require Import ZArith Lia SpecFloat.
From S2P Require Import Prelude U256 F64 SsfValidator SsfCommittee SsfProofs HistoryExpiry HistoryProofs DasNet SsfBls SsfBlsProofs SsfAggregator SsfFinality.

Module SsfFinalityProofs.
Import F64 SsfValidator SsfCommittee DasNet SsfBls SsfBlsProofs SsfAggregator SsfFinality.

Section tree.
Context `{BlsLaws} `{Profile} `{U256Laws} `{Randomness} `{HashOrder} `{Logarithm} `{!LogarithmLaws} (no_conversion : SSFError).

Lemma uadd_fits {E} w a b : uint w (a + b) -> uadd (E := E) w a b = Ok (a + b).
Proof. apply checked_arith_ok. Qed.
Lemma usub_fits {E} w a b : uint w (a - b) -> usub (E := E) w a b = Ok (a - b).
Proof. apply checked_arith_ok. Qed.
Lemma umul_fits {E} w a b : uint w (a * b) -> umul (E := E) w a b = Ok (a * b).
Proof. apply checked_arith_ok. Qed.

(** * What a tree aggregates *)

(** A signature with what it decodes to. *)
Notation item := (ValidatorSignature * BSig)%type.
Definition decodes (i : item) : Prop := sig_from_bytes (vs_signature i.1) = Some i.2 /\ U256 (vs_stake i.1).
Definition signed_stake (l : list item) : Z := zsum (fun i => vs_stake i.1) l.
Lemma signed_app l k : signed_stake (l ++ k) = signed_stake l + signed_stake k.
Proof. apply zsum_app. Qed.
Lemma signed_nonneg l : Forall decodes l -> 0 <= signed_stake l.
Proof. intros Hl. apply zsum_nonneg. eapply Forall_impl; [exact Hl|]. intros i [_ Hi]. apply Hi. Qed.
Lemma total_of_ok l acc : Forall decodes l -> 0 <= acc -> acc + signed_stake l < 2 ^ 256 -> total_of acc (map fst l) = Ok (acc + signed_stake l).
Proof.
  intros Hl. revert acc. induction Hl as [|i l [_ Hi] Hl IH]; intros acc Ha Hlt; cbn [map total_of]; [cbn; by rewrite Z.add_0_r|].
  pose proof (signed_nonneg l Hl). change (signed_stake (i :: l)) with (vs_stake i.1 + signed_stake l) in *. unfold uint in Hi.
  rewrite u_add_ok by lia. cbn [obind]. rewrite IH by lia. f_equal. lia.
Qed.
Lemma decoded_all l : Forall decodes l -> omap decoded (map fst l) = map snd l.
Proof. induction 1 as [|i l [Hi _] _ IH]; [done|]. cbn. unfold decoded at 1. by rewrite Hi, IH. Qed.
Lemma add_sigs_ok (l : list BSig) pre agg : total sig_add pre = Some (agg_to_signature agg) ->
  exists agg', add_all no_conversion l agg = Ok agg' /\ total sig_add (pre ++ l) = Some (agg_to_signature agg').
Proof.
  revert pre agg. induction l as [|x l IH]; intros pre agg Hp; cbn [add_all]; [exists agg; by rewrite app_nil_r|].
  destruct (agg_more agg x) as (agg1 & Ha & Hs). unfold add_signature. rewrite Ha. cbn [obind].
  destruct (IH (pre ++ [x]) agg1) as (agg2 & Hr & Ht); [by rewrite total_snoc, Hp, Hs|]. exists agg2. split; [done|]. by rewrite <- app_assoc in Ht.
Qed.
(** The node [n] weighs all of [l] and aggregates its first [k] signatures. *)
Definition signs_for (l : list item) (k : nat) (n : AggregationNode) : Prop :=
  n_weight n = signed_stake l /\ (1 <= k <= length l)%nat /\ exists agg, n_aggregated n = Some agg /\ total sig_add (take k (map snd l)) = Some (agg_to_signature agg).
Lemma leaf_ok l : l <> [] -> Forall decodes l -> signed_stake l < 2 ^ 256 ->
  exists n, leaf no_conversion (map fst l) = Ok n /\ signs_for l (length l) n.
Proof.
  intros Hne Hl Hlt. unfold leaf. rewrite decoded_all, total_of_ok by (done || lia). destruct l as [|i l]; [done|]. cbn [map].
  destruct (add_sigs_ok (map snd l) [i.2] (agg_from_signature i.2)) as (agg & Ha & Ht); [cbn; by rewrite agg_one|].
  rewrite Ha. cbn [obind]. eexists. split; [done|]. split_and!; [done|cbn; lia|done|]. exists agg. split; [done|].
  change (i.2 :: map snd l) with ([i.2] ++ map snd l). rewrite take_ge by (cbn; rewrite length_map; lia). exact Ht.
Qed.

(** Children that all weigh what they should weigh their sum. *)
Lemma build_children_ok build (cs : list (list item)) w :
  Forall (fun c => Forall decodes c /\ exists k n, build (map fst c) = Ok n /\ signs_for c k n) cs ->
  0 <= w -> w + signed_stake (concat cs) < 2 ^ 256 ->
  exists children, build_children build (map (map fst) cs) w = Ok (children, w + signed_stake (concat cs)) /\ Forall2 (fun c n => build (map fst c) = Ok n) cs children.
Proof.
  intros Hc. revert w. induction Hc as [|c cs [Hd (k & n & Hb & Hw & _)] Hc IH]; intros w H0' Hlt; cbn [map build_children concat] in *; [exists []; split; [cbn; by rewrite Z.add_0_r|constructor]|].
  rewrite signed_app in Hlt |- *. pose proof (signed_nonneg c Hd). assert (Forall decodes (concat cs)) as Hds.
  { clear -Hc. induction Hc as [|c cs [? _] _ IH]; [constructor|]. cbn. by apply Forall_app. }
  pose proof (signed_nonneg _ Hds). rewrite Hb. cbn [obind]. rewrite Hw, u_add_ok by lia. cbn [obind].
  destruct (IH (w + signed_stake c)) as (children & -> & Hf); [lia..|]. exists (n :: children). split; [cbn [obind]; do 2 f_equal; lia|by constructor].
Qed.
Lemma chunks_short {A} fuel n (l : list A) : Forall (fun c => (length c <= n)%nat) (HistoryExpiry.chunks_fuel fuel n l).
Proof.
  revert l. induction fuel as [|fuel IH]; intros l; [constructor|]. destruct l as [|x l]; [constructor|].
  change (HistoryExpiry.chunks_fuel (S fuel) n (x :: l)) with (take n (x :: l) :: HistoryExpiry.chunks_fuel fuel n (drop n (x :: l))).
  constructor; [rewrite length_take; lia|apply IH].
Qed.
Definition chunk_of (n branching_factor : Z) : Z := (n + branching_factor - 1) / branching_factor.
Lemma chunk_of_bounds n b : 2 <= b -> b < n -> 1 <= chunk_of n b < n.
Proof. intros. unfold chunk_of. split; [apply Z.div_le_lower_bound; lia|apply Z.div_lt_upper_bound; nia]. Qed.
(** The chunks of a list that is too long for a leaf. *)
Lemma chunks_of_items b (l : list item) : 2 <= b -> b < len l -> Forall decodes l ->
  exists c cs, HistoryExpiry.chunks (E := SSFError) (chunk_of (len l) b) (map fst l) = Ok (map (map fst) (c :: cs)) /\ c ++ concat cs = l /\
    Forall (fun c => c <> [] /\ len c <= chunk_of (len l) b /\ Forall decodes c) (c :: cs).
Proof.
  intros Hb Hlen Hl. pose proof (chunk_of_bounds (len l) b Hb Hlen) as [Hn1 Hn2]. set (n := chunk_of (len l) b) in *. unfold HistoryExpiry.chunks.
  rewrite (proj2 (Z.eqb_neq _ _)) by lia. rewrite chunks_fuel_map, length_map.
  pose proof (HistoryProofs.chunks_concat (length l) (Z.to_nat n) l ltac:(lia) ltac:(lia)) as Hc.
  pose proof (chunks_nonempty (length l) (Z.to_nat n) l ltac:(lia)) as Hne. pose proof (chunks_short (length l) (Z.to_nat n) l) as Hs.
  set (cs := HistoryExpiry.chunks_fuel _ _ l) in *. clearbody cs.
  destruct cs as [|c cs]; [exfalso; rewrite <- Hc in Hlen; change (len (concat (@nil (list item)))) with 0 in Hlen; lia|]. exists c, cs. split; [done|]. split; [exact Hc|].
  rewrite <- Hc in Hl. clear -Hne Hs Hl Hn1. revert Hs Hl. induction Hne as [|d ds Hd _ IH]; intros Hs Hl; [constructor|].
  apply Forall_cons in Hs as [Hs1 Hs]. cbn in Hl. apply Forall_app in Hl as [Hl1 Hl]. constructor; [split_and!; [done|unfold len; lia|done]|by apply IH].
Qed.

(** A tree weighs every signature and aggregates those of its leftmost leaf. *)
Lemma tree_prefix fuel l b level h :
  2 <= b < 2 ^ 62 -> len l < 2 ^ 62 -> 0 <= level -> h < 2 ^ 64 -> l <> [] -> Forall decodes l -> signed_stake l < 2 ^ 256 -> (length l <= fuel)%nat ->
  exists n k, build_tree_node no_conversion fuel (map fst l) b level h = Ok n /\ signs_for l k n /\
    (len l <= b \/ h <= level -> k = length l) /\ (b < len l -> level < h -> Z.of_nat k <= chunk_of (len l) b).
Proof.
  intros Hb. revert l level. induction fuel as [|fuel IH]; intros l level Hlen Hlev Hh Hne Hl Hlt Hf; [destruct l; [done|cbn in Hf; lia]|].
  cbn [build_tree_node]. destruct l as [|i0 l0] eqn:El; [done|]. rewrite <- El in *. destruct (map fst l) as [|v0 vs] eqn:Em; [by rewrite El in Em|].
  rewrite <- Em. unfold len at 1. rewrite length_map. fold (len l). destruct (Z.leb_spec h level) as [Hhl|Hhl]; cbn [orb].
  { destruct (leaf_ok l Hne Hl Hlt) as (n & -> & Hn). exists n, (length l). split_and!; [done..|lia]. }
  destruct (Z.leb_spec (len l) b) as [Hlb|Hlb].
  { destruct (leaf_ok l Hne Hl Hlt) as (n & -> & Hn). exists n, (length l). split_and!; [done..|lia]. }
  unfold len at 1. rewrite length_map. fold (len l). rewrite uadd_fits by (unfold uint; lia). cbn [obind]. rewrite usub_fits by (unfold uint; lia). cbn [obind].
  unfold udiv. rewrite (proj2 (Z.eqb_neq _ _)) by lia. cbn [obind]. fold (chunk_of (len l) b).
  destruct (chunks_of_items b l ltac:(lia) Hlb Hl) as (c & cs & -> & Hcat & Hcs). cbn [obind]. pose proof (chunk_of_bounds (len l) b ltac:(lia) Hlb) as [Hc1 Hc2].
  set (build := fun c => obind (uadd 64 level 1) (fun level => build_tree_node no_conversion fuel c b level h)).
  assert (forall c, c <> [] -> len c <= chunk_of (len l) b -> Forall decodes c -> signed_stake c < 2 ^ 256 -> exists n k, build (map fst c) = Ok n /\ signs_for c k n) as Hbuild.
  { intros c' Hc' Hlc Hd Hs. destruct (IH c' (level + 1)) as (n & k & Hn & Hk & _); [unfold len in *; lia|lia|done|done|done|done|unfold len in *; lia|].
    exists n, k. split; [|exact Hk]. unfold build. rewrite uadd_fits by (unfold uint; lia). exact Hn. }
  assert (signed_stake (concat (c :: cs)) = signed_stake l) as Hsum by (cbn [concat]; by rewrite Hcat).
  assert (Forall (fun c => signed_stake c < 2 ^ 256) (c :: cs)) as Hsm.
  { clear -Hcs Hsum Hlt. rewrite <- Hsum in Hlt. clear Hsum. induction Hcs as [|d ds (_ & _ & Hd) Hds IHd]; [constructor|]. cbn [concat] in Hlt. rewrite signed_app in Hlt.
    assert (Forall decodes (concat ds)) as Hdd by (clear -Hds; induction Hds as [|e es (_ & _ & ?) _ ?]; [constructor|cbn; by apply Forall_app]).
    pose proof (signed_nonneg d Hd). pose proof (signed_nonneg _ Hdd). constructor; [lia|apply IHd; lia]. }
  destruct (build_children_ok build (c :: cs) 0) as (children & Hch & Hf2); [|lia|lia|].
  { clear -Hcs Hsm Hbuild. induction Hcs as [|d ds (Hd & Hdl & Hdd) Hds IHd]; [constructor|]. apply Forall_cons in Hsm as [Hd1 Hsm]. constructor; [|by apply IHd].
    split; [done|]. destruct (Hbuild d) as (n & k & ? & ?); [done..|]. by exists k, n. }
  rewrite Hch. cbn [obind]. apply Forall2_cons_inv_l in Hf2 as (n1 & ns & Hn1 & _ & ->). apply Forall_cons in Hcs as [(Hc & Hcl & Hcd) _]. apply Forall_cons in Hsm as [Hcs1 _].
  destruct (Hbuild c Hc Hcl Hcd Hcs1) as (n1' & k & Hn1' & _ & Hk & agg & Hagg & Ht). rewrite Hn1 in Hn1'. injection Hn1' as <-.
  eexists. exists k. split; [done|]. split; [|split; [lia|intros _ _; change (len c) with (Z.of_nat (length c)) in Hcl; lia]]. split; [cbn [n_weight]; rewrite Hsum; lia|].
  split; [rewrite <- Hcat, length_app; lia|]. exists agg. split; [unfold n_aggregated at 1, aggregate_children; cbn [omap list_omap]; by rewrite Hagg|].
  rewrite <- Hcat, map_app, take_app_le by (rewrite length_map; lia). exact Ht.
Qed.
Lemma to_uint_bound w x : 0 <= w -> 0 <= to_uint w x < 2 ^ w.
Proof.
  intros Hw. pose proof (Z.pow_pos_nonneg 2 w). destruct x as [?|[]|?|[] m e]; cbn; try lia.
  split; [apply Z.min_glb; [apply Z.shiftl_nonneg; lia|lia]|lia].
Qed.

(** The height of a tree over more than eight signatures is positive. *)
Lemma ceil_big b x : big b x -> big 0 (ceil x).
Proof.
  intros [-> |(m & e & -> & _)]; [by left|]. cbn [ceil negb andb]. destruct (Z.leb_spec 0 e); [right; exists m, e; split; [done|]; exists 0; change (2 ^ 0) with 1; lia|].
  apply of_Z_big; [lia|]. change (2 ^ 0) with 1. destruct (Z.eqb_spec (Z.shiftl (Z.shiftr (Zpos m) (- e)) (- e)) (Zpos m)) as [Hq|Hq]; cbn [negb].
  - assert (0 <= Z.shiftr (Zpos m) (- e)) by (apply Z.shiftr_nonneg; lia). destruct (decide (Z.shiftr (Zpos m) (- e) = 0)) as [Hz|]; [|lia]. by rewrite Hz, Z.shiftl_0_l in Hq.
  - assert (0 <= Z.shiftr (Zpos m) (- e)) by (apply Z.shiftr_nonneg; lia). lia.
Qed.
Lemma tree_height_positive n : 8 <= n < 2 ^ 64 -> 0 < tree_height n 8.
Proof.
  intros Hn. unfold tree_height. rewrite log2_eight. pose proof (log2_above n Hn) as Hle.
  assert (of_Z 3 = S754_finite false 6755399441055744 (-51)) as He by (vm_compute; reflexivity). rewrite He in *. apply to_uint_positive; [lia|].
  destruct (log2 (of_Z n)) as [s|s| |s m e]; [by destruct s| |done|]; [destruct s; [done|by left]|]. destruct s; [done|].
  apply (ceil_big (-1074)), div_positive; unfold le, SFleb, SFcompare in Hle; destruct (Z.compare_spec (-51) e); try done; change (Zpos (digits2_pos 6755399441055744)) with 53; lia.
Qed.

(** C37: the tree that is the default strategy of the aggregator weighs all the
    signatures of a block, but its aggregate is the sum of the signatures in its
    leftmost leaf alone: all of them up to eight, and of more than eight at most
    the first eighth, rounded up.  The signatures decode, their stake fits 256
    bits and fewer than 100 trees are cached. *)
Theorem tree_signs_for_first_chunk fuel l block_hash a :
  strategy a = strategy_default -> l <> [] -> Forall decodes l -> signed_stake l < 2 ^ 256 -> len l < 2 ^ 62 -> (length l <= fuel)%nat ->
  Z.of_nat (size (aggregation_trees a)) < 100 ->
  exists k x a' t, aggregate_signatures no_conversion fuel (map fst l) block_hash a = (Ok (sig_compress x), a') /\
    total sig_add (take k (map snd l)) = Some x /\ (1 <= k <= length l)%nat /\
    (len l <= 8 -> k = length l) /\ (8 < len l -> Z.of_nat k <= (len l + 7) / 8) /\
    aggregation_trees a' !! block_hash = Some t /\ n_weight (root t) = signed_stake l.
Proof.
  intros Hst Hne Hl Hlt Hlen Hf Hsz. unfold aggregate_signatures. rewrite sbind_get, Hst. cbn [strategy_default]. unfold aggregate_tree_based, build_aggregation_tree.
  unfold len at 1. rewrite length_map. fold (len l).
  destruct (tree_prefix fuel l 8 0 (tree_height (len l) 8)) as (n & k & Hn & (Hw & Hk & agg & Ha & Ht) & Hall & Hfew); [lia|done|lia|apply (to_uint_bound 64); lia|done|done|done|done|].
  rewrite Hn. cbn [obind]. rewrite sbind_lift, sbind_modify, sbind_get. unfold evict.
  match goal with |- context [<[block_hash := ?t]> _] => set (t0 := t) end.
  assert (size (<[block_hash := t0]> (aggregation_trees a)) <= S (size (aggregation_trees a)))%nat as Hs.
  { rewrite map_size_insert. by destruct (aggregation_trees a !! block_hash); cbn; lia. }
  rewrite (proj2 (Z.ltb_ge _ _)) by lia. exists k, (agg_to_signature agg). eexists. exists t0. unfold slift, aggregate_from_tree. cbn [aggregation_trees with_trees].
  rewrite lookup_insert_eq. subst t0. cbn [root]. rewrite Ha. split_and!; [done|done|lia|lia|intros Hmore; apply Hall; by left| |apply lookup_insert_eq|done].
  intros Hmore. specialize (Hfew Hmore (tree_height_positive (len l) ltac:(lia))). unfold chunk_of in Hfew. by replace (len l + 7) with (len l + 8 - 1) by lia.
Qed.
End tree.

(** * Methods that keep a property of their object *)

Definition keeps {S E A} (I : S -> Prop) (m : SM S E A) : Prop := forall s, I s -> I (m s).2.
Lemma keeps_then {S E A B} (I : S -> Prop) (m : SM S E A) (k : A -> SM S E B) : keeps I m -> (forall a, keeps I (k a)) -> keeps I (sbind m k).
Proof. intros Hm Hk s Hs. unfold sbind. specialize (Hm s Hs). destruct (m s) as [[a|e| |] s']; [by apply Hk|done..]. Qed.
Lemma keeps_modify {S E} (I : S -> Prop) (f : S -> S) : (forall s, I s -> I (f s)) -> keeps (E := E) I (smodify f).
Proof. intros Hf s Hs. by apply Hf. Qed.
Lemma keeps_lift {S E A} (I : S -> Prop) (m : outcome E A) : keeps I (slift m).
Proof. by intros s Hs. Qed.
Lemma keeps_get {S E A} (I : S -> Prop) (k : S -> SM S E A) : (forall s, I s -> I (k s s).2) -> keeps I (sbind sget k).
Proof. intros Hk s Hs. rewrite sbind_get. by apply Hk. Qed.

Section finality.
Context `{Bls} `{Profile} `{U256Laws} `{!Randomness} `{!RandomnessLaws} `{HashOrderLaws} `{Logarithm} (no_conversion : SSFError).
Context {Blk : Type} (block_number : Blk -> Z) (block_hash : Blk -> list Z) (sign_with : ValidatorInfo -> list Z -> option (list Z)).
Notation process_block := (process_block no_conversion block_number block_hash sign_with).
Notation collect := (collect_signatures_parallel block_hash sign_with).

(** What the public methods make of a new object. *)
Inductive reachable (c : FinalityConfig) : SingleSlotFinality -> Prop :=
| reach_new s : finality_new c = Ok s -> reachable c s
| reach_committees s vs : reachable c s -> Forall (fun v => U256 (SsfCommittee.stake v)) vs -> reachable c (initialize_committees vs s).2
| reach_block s fuel in_time t b : reachable c s -> reachable c (process_block fuel in_time t b s).2.

Definition aggregator_ok (a : SignatureAggregator) : Prop := strategy a = strategy_default /\ Z.of_nat (size (aggregation_trees a)) <= 100.
Definition member_ok (v : ValidatorInfo) : Prop := U256 (SsfCommittee.stake v).
Record ssf_ok (c : FinalityConfig) (s : SingleSlotFinality) : Prop := {
  ok_config : f_config s = c;
  ok_set : f_validator_set s = set_new;
  ok_aggregator : aggregator_ok (f_aggregator s);
  ok_committees : Forall (fun k => Forall member_ok (members k)) (f_committees s);
  ok_length : len (finalized_blocks (finality_cache s)) <= 1000;
  ok_signatures : Forall (fun b => exists sg, fb_signatures b = [sg]) (finalized_blocks (finality_cache s));
  ok_pending : Forall (fun p => pb_total_stake p = 0) (pending_blocks (finality_cache s));
}.
Lemma evict_size {V} (limit : Z) (m : gmap (list Z) V) : 0 <= limit -> Z.of_nat (size m) <= limit + 1 -> Z.of_nat (size (evict limit m)) <= limit.
Proof.
  intros Hl Hm. unfold evict. destruct (Z.ltb_spec limit (Z.of_nat (size m))) as [Hlt|]; [|done]. pose proof (iter_all m) as Hp.
  destruct (iter m) as [|[k v] rest]; [apply Permutation_nil_l in Hp; symmetry in Hp; apply map_to_list_empty_iff in Hp as ->; rewrite map_size_empty in Hlt; lia|].
  assert (m !! k = Some v) as Hk by (apply elem_of_map_to_list; rewrite <- Hp; left). rewrite map_size_delete, Hk. cbn. lia.
Qed.
Lemma tree_keeps fuel l h b : keeps aggregator_ok (aggregate_tree_based no_conversion fuel l h b).
Proof.
  apply keeps_then; [apply keeps_lift|]. intros t. apply keeps_then; [|intros []; apply keeps_get; intros a Ha; exact Ha].
  apply keeps_modify. intros a [Hst Hsz]. split; [done|]. apply evict_size; [lia|].
  rewrite map_size_insert. destruct (aggregation_trees a !! h); cbn; lia.
Qed.
Lemma aggregate_keeps fuel l h : keeps aggregator_ok (aggregate_signatures no_conversion fuel l h).
Proof. apply keeps_get. intros a Ha. rewrite (proj1 Ha). by apply tree_keeps. Qed.

(** ** The object stays well formed *)

Lemma make_committees_members per vs idx cs : Forall member_ok vs -> make_committees per vs idx = Ok cs -> Forall (fun k => Forall member_ok (members k)) cs.
Proof.
  intros Hvs. revert cs. induction idx as [|i idx IH]; intros cs Hm; cbn [make_committees] in Hm; [by injection Hm as <-|].
  opened Hm. opened Hm. opened Hm. opened Hm. opened Hm. opened Hm. injection Hm as <-. constructor; [|by apply IH].
  unfold committee_new in Hr3. opened Hr3. injection Hr3 as <-. unfold slice in Hr2. destruct (_ && _) in Hr2; [|done]. injection Hr2 as <-. by apply Forall_take, Forall_drop.
Qed.
Lemma initialize_keeps c vs : Forall member_ok vs -> keeps (ssf_ok c) (initialize_committees vs).
Proof.
  intros Hvs. apply keeps_get. intros s Hs. cut (forall per, keeps (ssf_ok c) (let! cs := slift (make_committees per vs (map Z.of_nat (seq 0 (Z.to_nat (f_committee_count (f_config s)))))) in smodify (with_committees cs))).
  { intros Hk. unfold sbind at 1, slift at 1. destruct (udiv _ _); [by apply Hk|done..]. }
  intros per s' Hs'. unfold sbind, slift. destruct (make_committees _ _ _) as [cs|e| |] eqn:Hm; [|done..].
  destruct Hs'. split; [done..| |done|done|done]. by eapply make_committees_members.
Qed.
Lemma retain_sub reads l : sublist (retain_recent reads l) l.
Proof. revert reads. induction l as [|b l IH]; intros reads; [constructor|]. cbn. destruct (_ <? _); cbn; [by apply sublist_skip|by apply sublist_cons]. Qed.
Lemma pending_keeps c r reads b : keeps (ssf_ok c) (add_pending_block block_number block_hash r reads b).
Proof.
  apply keeps_modify. intros s []. split; try done. cbn. eapply sublist_Forall; [apply retain_sub|]. apply Forall_app. split; [done|]. by repeat constructor.
Qed.
Lemma finalize_keeps c now b sg : keeps (ssf_ok c) (finalize_block block_number block_hash now b sg).
Proof.
  apply keeps_modify. intros s []. split; try done; cbn.
  - destruct (Z.ltb_spec 1000 (len (finalized_blocks (finality_cache s) ++ [mkFinalized (block_number b) (block_hash b) now [sg]]))) as [Hlt|]; [|lia].
    rewrite len_snoc in Hlt. unfold len in *. rewrite length_drop, length_app. cbn [length]. lia.
  - assert (Forall (fun b => exists sg, fb_signatures b = [sg]) (finalized_blocks (finality_cache s) ++ [mkFinalized (block_number b) (block_hash b) now [sg]])).
    { apply Forall_app. split; [done|]. constructor; [by exists sg|constructor]. }
    destruct (_ <? _); [by apply Forall_drop|done].
  - eapply sublist_Forall; [apply sublist_filter|done].
Qed.
Lemma aggregated_keeps {A} c (m : SM SignatureAggregator SSFError A) : keeps aggregator_ok m -> keeps (ssf_ok c) (aggregated_by m).
Proof.
  intros Hm s []. unfold aggregated_by. specialize (Hm (f_aggregator s) ok_aggregator0). destruct (m (f_aggregator s)) as [r a]. by split.
Qed.
Lemma process_keeps c fuel in_time t b : keeps (ssf_ok c) (process_block fuel in_time t b).
Proof.
  apply keeps_then; [apply pending_keeps|]. intros []. apply keeps_then; [by intros s Hs|]. intros s.
  apply keeps_then; [apply aggregated_keeps, aggregate_keeps|]. intros agg. do 3 (apply keeps_then; [apply keeps_lift|]; intros ?).
  cbv zeta. destruct (le _ _); [|destruct (_ && _)].
  - apply keeps_then; [apply finalize_keeps|]. intros []. apply keeps_then; [|by intros [] ? ?]. apply keeps_modify. by intros s' [].
  - by intros s' Hs'.
  - apply keeps_then; [|by intros [] ? ?]. apply keeps_modify. by intros s' [].
Qed.
Lemma reachable_ssf_ok c s : reachable c s -> ssf_ok c s.
Proof.
  induction 1 as [s Hs|s vs _ IH Hvs|s fuel in_time t b _ IH].
  - cbn in Hs. injection Hs as <-. split; try done; constructor.
  - by apply initialize_keeps.
  - by apply process_keeps.
Qed.

(** whatever happens to it, an object for single-slot finality has at most
    1000 finalized blocks and at most 100 trees, one aggregate for each finalized
    block, and no validators in its validator set; and its status is the last
    finalized block if there is one, and pending if not: never optimistic. *)
Theorem finality_stays_bounded c s : reachable c s ->
  len (finalized_blocks (finality_cache s)) <= 1000 /\ Z.of_nat (size (aggregation_trees (f_aggregator s))) <= 100 /\
  Forall (fun b => exists sg, fb_signatures b = [sg]) (finalized_blocks (finality_cache s)) /\
  validators (f_validator_set s) = ∅ /\
  get_status s = Ok (match last (finalized_blocks (finality_cache s)) with Some b => Finalized (fb_slot b) (fb_block_hash b) | None => StatusPending end).
Proof.
  intros Hr. destruct (reachable_ssf_ok c s Hr) as [Hc Hset [Hst Hsz] _ Hlen Hsg Hp]. split_and!; [done..|by rewrite Hset|]. unfold get_status.
  destruct (last (finalized_blocks _)); [done|]. destruct (last (pending_blocks _)) as [p|] eqn:Hlast; [|done]. rewrite Hset. cbn [SsfValidator.total_stake set_new].
  rewrite Forall_forall in Hp. rewrite (Hp p) by (by apply last_Some_elem_of). by rewrite (as_u128_law 0).
Qed.

(** ** When a block is final *)

Lemma total_of_range l acc t : U256 acc -> Forall (fun s => U256 (vs_stake s)) l -> total_of acc l = Ok t -> U256 t.
Proof.
  intros Ha Hl. revert acc Ha. induction Hl as [|s l Hs _ IH]; intros acc Ha Ht; cbn [total_of] in Ht; [by injection Ht as <-|].
  rewrite add_law in Ht by done. destruct (Z.ltb_spec (acc + vs_stake s) (2 ^ 256)); [|done]. cbn [unwrap obind] in Ht. eapply IH; [|done]. unfold uint in *. lia.
Qed.
Lemma collect_stakes in_time cs h : Forall (fun k => Forall member_ok (members k)) cs -> Forall (fun s => U256 (vs_stake s)) (collect_from sign_with in_time cs h).
Proof.
  intros Hc. revert in_time. induction Hc as [|k cs Hk _ IH]; intros in_time; cbn [collect_from]; [constructor|]. apply Forall_app. split; [|apply IH].
  destruct (in_time O); [|constructor]. unfold collect_committee_signatures. induction Hk as [|v vs Hv _ IHv]; [constructor|].
  cbn [omap list_omap]. destruct (sign_with v h); [|done]. by constructor.
Qed.
Lemma at_infinity x : is_nan x = false -> le x (S754_infinity false) = true.
Proof. by destruct x as [|[]| |]. Qed.
Lemma not_comparable x : le x S754_nan = false /\ lt x S754_nan = false.
Proof. by destruct x as [|[]| |[]]. Qed.

(** C36: the validator set a block is measured against is empty, so the
    threshold does not matter: once its signatures aggregate, a block is final
    if they carry any stake at all, and fails with a ratio that is not a number
    if they carry none.  No block is ever optimistic. *)
Theorem any_stake_finalizes c s fuel in_time t b :
  reachable c s -> is_nan (finality_threshold c) = false ->
  (process_block fuel in_time t b s).1 =
    (let? _ := (aggregate_signatures no_conversion fuel (collect in_time b s) (block_hash b) (f_aggregator s)).1 in
     let? total := calculate_total_stake (collect in_time b s) in
     let? _ := unwrap (u_as_u128 total) in
     Ok (if 0 <? total then Finalized (block_number b) (block_hash b) else Failed S754_nan)).
Proof.
  intros Hr Hn. destruct (reachable_ssf_ok c s Hr) as [Hc Hset _ Hcs _ _ _]. unfold SsfFinality.process_block, add_pending_block. rewrite sbind_modify, sbind_get. cbv zeta.
  unfold sbind at 1, aggregated_by. cbn [f_aggregator with_finality_cache f_config f_validator_set].
  change (collect in_time b (with_finality_cache _ s)) with (collect in_time b s).
  destruct (aggregate_signatures _ _ _ _ _) as [[agg|e| |] a]; [|done..]. cbn [fst obind].
  pose proof (collect_stakes in_time (f_committees s) (block_hash b) Hcs) as Hst. fold (collect in_time b s) in Hst.
  unfold sbind at 1, slift at 1. destruct (calculate_total_stake _) as [total|e| |] eqn:Ht; [|done..]. cbn [obind].
  assert (U256 total) as Hu by (eapply total_of_range; [|exact Hst|exact Ht]; unfold uint; lia).
  unfold sbind at 1, slift at 1. rewrite as_u128_law by done. destruct (Z.ltb_spec total (2 ^ 128)); [|done]. cbn [unwrap obind].
  rewrite Hset, as_u128_law by done. cbn [SsfValidator.total_stake set_new]. change (0 <? 2 ^ 128) with true. cbn [unwrap]. rewrite sbind_lift, Hc.
  destruct (Z.ltb_spec 0 total) as [Hp|Hp]; [by rewrite over_zero, at_infinity|].
  replace total with 0 by (unfold uint in Hu; lia). change (div (of_Z 0) (of_Z 0)) with S754_nan.
  rewrite (proj1 (not_comparable _)), (proj2 (not_comparable _)), andb_false_r. done.
Qed.

(** ** Who is in a committee *)

Lemma zseq_app k : map Z.of_nat (seq 0 (S k)) = map Z.of_nat (seq 0 k) ++ [Z.of_nat k].
Proof. by rewrite seq_S, map_app. Qed.
Definition part (per : Z) (vs : list ValidatorInfo) (i : Z) : list ValidatorInfo := take (Z.to_nat per) (drop (Z.to_nat (i * per)) vs).
Lemma part_sub per vs i : sublist (part per vs i) vs.
Proof. unfold part. etrans; [apply sublist_take|apply sublist_drop]. Qed.
Lemma make_committees_ok per vs n idx :
  0 <= per -> SsfProofs.stakes_fit vs -> 0 <= n -> n * per <= len vs -> n < 2 ^ 64 -> n * per < 2 ^ 64 -> Forall (fun i => 0 <= i < n) idx ->
  exists cs, make_committees per vs idx = Ok cs /\ map members cs = map (part per vs) idx.
Proof.
  intros Hp Hfit Hn Hlen Hn64 Hnp. induction 1 as [|i idx Hi _ (cs & IH & Hm)]; [by exists []|]. cbn [make_committees map].
  assert (0 <= i * per <= (i + 1) * per) by nia. assert ((i + 1) * per <= n * per) by nia. rewrite umul_fits by (unfold uint; lia). cbn [obind]. rewrite uadd_fits by (unfold uint; lia). cbn [obind].
  rewrite umul_fits by (unfold uint; lia). cbn [obind]. unfold slice. rewrite Z.min_l by lia.
  rewrite !(proj2 (Z.leb_le _ _)) by lia. cbn [andb obind]. replace ((i + 1) * per - i * per) with per by lia. fold (part per vs i).
  rewrite SsfProofs.committee_new_ok by (by eapply SsfProofs.stakes_fit_sublist; [apply part_sub|]). cbn [obind]. rewrite IH. cbn [obind].
  eexists. split; [done|]. cbn. by rewrite Hm.
Qed.
Lemma parts_concat per vs k : 0 <= per -> concat (map (part per vs) (map Z.of_nat (seq 0 k))) = take (k * Z.to_nat per) vs.
Proof.
  intros Hp. induction k as [|k IH]; [done|]. rewrite zseq_app, map_app, concat_app, IH. cbn [map concat]. rewrite app_nil_r. unfold part.
  replace (Z.to_nat (Z.of_nat k * per)) with (k * Z.to_nat per)%nat by lia. rewrite take_take_drop. f_equal. lia.
Qed.
Lemma part_length per vs n i : 0 <= per -> n * per <= len vs -> 0 <= i < n -> len (part per vs i) = per.
Proof. intros Hp Hn Hi. assert (0 <= i * per /\ i * per + per <= n * per) by nia. unfold part, len in *. rewrite length_take, length_drop. lia. Qed.
Lemma evict_lookup {V} (limit : Z) (m : gmap (list Z) V) k v : evict limit m !! k = Some v -> m !! k = Some v.
Proof. unfold evict. destruct (_ <? _); [|done]. destruct (iter m) as [|[k' v'] rest]; [done|]. by intros [_ ?]%lookup_delete_Some. Qed.
Lemma no_signature_fails fuel h a : strategy a = strategy_default -> (0 < fuel)%nat ->
  exists e a', aggregate_signatures no_conversion fuel [] h a = (Err (AggregationError e), a').
Proof.
  intros Hst Hf. unfold aggregate_signatures. rewrite sbind_get, Hst. cbn [strategy_default]. unfold aggregate_tree_based, build_aggregation_tree.
  destruct fuel as [|fuel]; [lia|]. cbn [build_tree_node obind]. rewrite sbind_lift, sbind_modify, sbind_get. unfold slift, aggregate_from_tree. cbn [aggregation_trees with_trees].
  match goal with |- context [evict 100 ?m !! h] => destruct (evict 100 m !! h) as [t|] eqn:Ht end; [|by do 2 eexists].
  apply evict_lookup in Ht. rewrite lookup_insert_eq in Ht. injection Ht as <-. by do 2 eexists.
Qed.
Lemma collect_empty in_time cs h : Forall (fun k => members k = []) cs -> collect_from sign_with in_time cs h = [].
Proof.
  intros Hc. revert in_time. induction Hc as [|k cs Hk _ IH]; intros in_time; [done|]. cbn [collect_from]. rewrite IH, app_nil_r. unfold collect_committee_signatures. rewrite Hk. by destruct (in_time O).
Qed.
Lemma empty_committees_fail s fuel in_time t b : strategy (f_aggregator s) = strategy_default -> Forall (fun k => members k = []) (f_committees s) -> (0 < fuel)%nat ->
  exists e, (process_block fuel in_time t b s).1 = Err (AggregationError e).
Proof.
  intros Hst Hk Hf. unfold SsfFinality.process_block, add_pending_block. rewrite sbind_modify, sbind_get. cbv zeta. unfold sbind at 1, aggregated_by.
  unfold collect_signatures_parallel at 1. cbn [f_committees f_aggregator with_finality_cache]. rewrite collect_empty by done.
  destruct (no_signature_fails fuel (block_hash b) (f_aggregator s) Hst Hf) as (e & a & ->). by exists e.
Qed.

(** dividing the validators among the committees rounds down: every
    committee gets the same number of members, the members of the committees in
    turn are the first validators, and the validators that are left over, fewer
    than there are committees, belong to none.  With fewer validators than
    committees every committee is empty, and then no block is ever processed
    without an error. *)
Theorem leftover_validators_never_sign c s vs : reachable c s -> 0 < f_committee_count c < 2 ^ 32 -> len vs < 2 ^ 32 -> SsfProofs.stakes_fit vs ->
  let per := len vs / f_committee_count c in
  exists s' left_over, initialize_committees vs s = (Ok tt, s') /\
    len (f_committees s') = f_committee_count c /\ Forall (fun k => len (members k) = per) (f_committees s') /\
    vs = concat (map members (f_committees s')) ++ left_over /\ len left_over < f_committee_count c /\
    (len vs < f_committee_count c -> forall fuel in_time t b, (0 < fuel)%nat ->
       exists e, (process_block fuel in_time t b s').1 = Err (AggregationError e)).
Proof.
  intros Hr Hn Hvs Hfit per. destruct (reachable_ssf_ok c s Hr) as [Hc _ [Hst _] _ _ _ _]. set (n := f_committee_count c) in *.
  pose proof (len_nonneg vs). assert (0 <= per) as Hp by (apply Z.div_pos; lia). assert (n * per <= len vs < n * per + n) as Hnp by (unfold per; zlia).
  assert (Forall (fun i => 0 <= i < n) (map Z.of_nat (seq 0 (Z.to_nat n)))) as Hidx.
  { apply Forall_map, Forall_forall. intros j Hj. apply elem_of_seq in Hj. lia. }
  destruct (make_committees_ok per vs n (map Z.of_nat (seq 0 (Z.to_nat n)))) as (cs & Hcs & Hm); [done|done|lia|lia|lia|lia|done|].
  exists (with_committees cs s), (drop (Z.to_nat n * Z.to_nat per) vs). unfold initialize_committees. rewrite sbind_get. cbv zeta. rewrite Hc. fold n.
  unfold udiv. rewrite (proj2 (Z.eqb_neq _ _)) by lia. rewrite sbind_lift. fold per. rewrite Hcs, sbind_lift. split; [done|]. cbn [f_committees with_committees].
  assert (Forall (fun k => len (members k) = per) cs) as Hper.
  { enough (Forall (fun m => len m = per) (map members cs)) as Hf by (by apply Forall_map in Hf). rewrite Hm. apply Forall_map. eapply Forall_impl; [exact Hidx|]. intros i Hi. cbn beta in *. apply (part_length per vs n); [done|lia|exact Hi]. }
  split_and!; [|done| | |].
  - unfold len. rewrite <- (length_map members cs), Hm, !length_map, length_seq. lia.
  - rewrite Hm, parts_concat by done. by rewrite take_drop.
  - unfold len in *. rewrite length_drop. nia.
  - intros Hfew fuel in_time t b Hf. apply empty_committees_fail; [done| |done]. eapply Forall_impl; [exact Hper|]. intros k Hk.
    assert (per = 0) as Hz by (apply Z.div_small; lia). rewrite Hz in Hk. unfold len in Hk. destruct (members k); [done|cbn in Hk; lia].
Qed.
End finality.

(** * Witnesses and examples *)

Section examples.
#[local] Existing Instances dev_profile SsfBlsProofs.bls_numbers SsfBlsProofs.numbers_group SsfBlsProofs.numbers_laws SsfProofs.sample_randomness SsfProofs.sample_randomness_laws.
#[local] Instance listed_order : HashOrder := {| iter K V _ _ m := map_to_list m |}.
#[local] Instance listed_order_laws : HashOrderLaws.
Proof. by split. Qed.
(** The integral part of the logarithm, up to 64. *)
#[local] Instance integral_log : Logarithm := {| log2 x := match x with S754_finite false m e => of_Z (Z.min 64 (Z.log2 (Zpos m) + e)) | x => x end |}.
#[local] Instance integral_log_laws : LogarithmLaws.
Proof.
  split; [by vm_compute|]. intros n Hn. destruct (of_Z_big 3 n) as [-> |(m & e & -> & k & Hk & Hm & Hb)]; [lia|lia|by vm_compute|]. cbn [log2 integral_log].
  assert (k <= Z.log2 (Zpos m)) by (by apply Z.log2_le_pow2). set (x := Z.min 64 (Z.log2 (Zpos m) + e)). assert (3 <= x <= 64) as Hx by lia. clearbody x.
  assert (forallb (fun x => le (of_Z 3) (of_Z x)) (seqZ 3 62) = true) as Hall by (by vm_compute). rewrite forallb_forall in Hall. apply Hall, list_elem_of_In, elem_of_seqZ. lia.
Qed.
Definition odd_error : SSFError := AggregationError "blst".
(** Validator [i] signs with the number [i + 1], unless its key is empty. *)
Definition signs (v : ValidatorInfo) (h : list Z) : option (list Z) := match pubkey v with [] => None | _ => Some [SsfCommittee.index v + 1] end.
Definition signer (i : nat) : ValidatorInfo := SsfCommittee.mkInfo (Z.of_nat i) [1] 32 (of_Z 1).
Definition silent (i : nat) : ValidatorInfo := SsfCommittee.mkInfo (Z.of_nat i) [] 1000000 (of_Z 1).
Definition signatures_of (n : nat) : list (ValidatorSignature * BSig) := map (fun i => (mkSignature (Z.of_nat i) [Z.of_nat i + 1] 32, Z.of_nat i + 1)) (seq 0 n).
Definition fresh_aggregator : SignatureAggregator := mkAggregator strategy_default 64 128 ∅ (mkCache ∅ 10000).
Lemma tree_signs_for_first_chunk_witness : exists k x a' t,
  aggregate_signatures odd_error 10 (map fst (signatures_of 10)) [7] fresh_aggregator = (Ok (sig_compress x), a') /\
  Z.of_nat k <= 2 /\ aggregation_trees a' !! [7] = Some t /\ n_weight (root t) = 320.
Proof.
  destruct (tree_signs_for_first_chunk odd_error 10 (signatures_of 10) [7] fresh_aggregator) as (k & x & a' & t & Ha & _ & _ & _ & Hk & Ht & Hw).
  - reflexivity.
  - discriminate.
  - repeat (apply Forall_cons_2; [split; [reflexivity|split; vm_compute; congruence]|]). apply Forall_nil_2.
  - vm_compute. reflexivity.
  - vm_compute. reflexivity.
  - apply Nat.le_refl.
  - vm_compute. reflexivity.
  - exists k, x, a', t. split; [exact Ha|]. split; [apply Hk; vm_compute; reflexivity|]. split; [exact Ht|]. exact Hw.
Defined.
Definition quick_config (n : Z) : FinalityConfig := mkFinalityConfig 12000 (lit 67 100) n true 128 4000.
Definition started (n : Z) (vs : list ValidatorInfo) : SingleSlotFinality :=
  (initialize_committees vs (mkSsf (quick_config n) set_new (mkAggregator strategy_default n 128 ∅ (mkCache ∅ 10000)) [] (mkFinalityCache [] []) metrics_new)).2.
Notation reach := (reachable odd_error id (fun n : Z => [n]) signs).
Notation process := (SsfFinality.process_block odd_error id (fun n : Z => [n]) signs).
Lemma started_reachable n vs : Forall (fun v => U256 (SsfCommittee.stake v)) vs -> reach (quick_config n) (started n vs).
Proof. intros Hvs. apply reach_committees; [by apply reach_new|done]. Qed.
Definition minority : list ValidatorInfo := signer 0 :: map silent [1; 2; 3]%nat.
Lemma minority_stakes : Forall (fun v => U256 (SsfCommittee.stake v)) minority.
Proof. repeat (apply Forall_cons_2; [split; vm_compute; congruence|]). apply Forall_nil_2. Qed.
Definition at_once : Times := mkTimes 0 0 (fun _ => 0) 0 0.
(** A validator with 32 of 3000032 tokens makes a block final. *)
Lemma any_stake_finalizes_witness : (process 5 (fun _ => true) at_once 9 (started 1 minority)).1 = Ok (Finalized 9 [9]).
Proof.
  rewrite (any_stake_finalizes odd_error id (fun n : Z => [n]) signs (quick_config 1) (started 1 minority) 5 (fun _ => true) at_once 9);
    [vm_compute; reflexivity|apply started_reachable, minority_stakes|vm_compute; reflexivity].
Defined.
Lemma finality_stays_bounded_witness : let s := (process 5 (fun _ => true) at_once 9 (started 1 minority)).2 in
  len (finalized_blocks (finality_cache s)) <= 1000 /\ get_status s = Ok (Finalized 9 [9]).
Proof.
  intros s. destruct (finality_stays_bounded odd_error id (fun n : Z => [n]) signs (quick_config 1) s) as (Hl & _ & _ & _ & Hs).
  - apply reach_block, started_reachable, minority_stakes.
  - split; [exact Hl|]. rewrite Hs. vm_compute. reflexivity.
Defined.
Definition fresh_ssf (n : Z) : SingleSlotFinality := mkSsf (quick_config n) set_new (mkAggregator strategy_default n 128 ∅ (mkCache ∅ 10000)) [] (mkFinalityCache [] []) metrics_new.
Lemma leftover_validators_never_sign_witness : exists s', initialize_committees (map signer [0; 1; 2; 3; 4]%nat) (fresh_ssf 2) = (Ok tt, s') /\
  exists left_over, map signer [0; 1; 2; 3; 4]%nat = concat (map members (f_committees s')) ++ left_over /\ len left_over < 2.
Proof.
  destruct (leftover_validators_never_sign odd_error id (fun n : Z => [n]) signs (quick_config 2) (fresh_ssf 2) (map signer [0; 1; 2; 3; 4]%nat)) as (s' & lo & Hi & _ & _ & Hv & Hlo & _).
  - by apply reach_new.
  - vm_compute. split; congruence.
  - vm_compute. reflexivity.
  - split; [|vm_compute; reflexivity]. repeat (apply Forall_cons_2; [vm_compute; congruence|]). apply Forall_nil_2.
  - exists s'. split; [exact Hi|]. exists lo. exact (conj Hv Hlo).
Defined.
(** Of five validators in two committees, the last one signs nothing. *)
Example fifth_never_signs : map (fun k => map SsfCommittee.index (members k)) (f_committees (started 2 (map signer [0; 1; 2; 3; 4]%nat))) = [[0; 1]; [2; 3]].
Proof. by vm_compute. Qed.
(** Ten signatures, of which the aggregate holds the first two: 1 + 2. *)
Example two_of_ten : (aggregate_signatures odd_error 10 (map fst (signatures_of 10)) [7] fresh_aggregator).1 = Ok [3] /\
  aggregate_direct (map fst (signatures_of 10)) = Ok [55].
Proof. by vm_compute. Qed.
(** With one branch the tree never splits, and an empty list panics. *)
Example one_branch_diverges : build_tree_node odd_error 100 (map fst (signatures_of 3)) 1 0 (tree_height 3 1) = Diverge /\ tree_height 3 1 = 2 ^ 64 - 1.
Proof. by vm_compute. Qed.
Example nothing_to_aggregate : aggregate_direct [] = Panic /\ (aggregate_adaptive odd_error 5 [] [7] fresh_aggregator).1 = Panic /\
  aggregate_optimistic odd_error [] (lit 67 100) = Err (AggregationError "No signatures to aggregate").
Proof. by vm_compute. Qed.
(** No committees at all: the division panics. *)
Example no_committees_panic : (initialize_committees minority (fresh_ssf 0)).1 = Panic.
Proof. by vm_compute. Qed.
End examples.
End SsfFinalityProofs.
