(* ===== verification/Filter.v ===== *)
(** Filters and subscriptions: crates/filter (lib.rs, log_filter.rs,
    block_filter.rs, pending_tx_filter.rs, subscription.rs).  The database is
    the interface of [Storage]; logs, blocks, transactions, their serialised
    forms and the text of numbers and hashes are parameters. *)
From stdpp Require Import base list numbers option strings gmap.
From Stdlib Require Import ZArith Lia.
From S2P Require Import Prelude U256 Types Storage.

Module Filter.

Inductive FilterError :=
| FilterNotFound | InvalidCriteria | StorageErr (e : StorageError) | SubscriptionError (s : string) | FilterExpired.

Inductive BlockNumber := Number (n : Z) | Latest | Earliest | Pending.
Record FilterCriteria := mkCriteria {
  from_block : option BlockNumber; to_block : option BlockNumber;
  address : option (list (list Z)); topics : list (option (list (list Z)));
}.

(** [s.as_bytes()] of a text. *)
Definition text (s : string) : list Z := map (fun a => Z.of_N (Ascii.N_of_ascii a)) (String.list_ascii_of_string s).

(** ** The builder of criteria *)

Record LogFilterBuilder := mkBuilder {
  b_from_block : option BlockNumber; b_to_block : option BlockNumber;
  b_addresses : list (list Z); b_topics : list (option (list (list Z)));
}.
Definition builder_new : LogFilterBuilder := mkBuilder None None [] [None; None; None; None].
Definition b_set_from_block (n : BlockNumber) (b : LogFilterBuilder) : LogFilterBuilder :=
  mkBuilder (Some n) (b_to_block b) (b_addresses b) (b_topics b).
Definition b_set_to_block (n : BlockNumber) (b : LogFilterBuilder) : LogFilterBuilder :=
  mkBuilder (b_from_block b) (Some n) (b_addresses b) (b_topics b).
Definition b_add_address (a : list Z) (b : LogFilterBuilder) : LogFilterBuilder :=
  mkBuilder (b_from_block b) (b_to_block b) (b_addresses b ++ [a]) (b_topics b).
Definition b_set_addresses (l : list (list Z)) (b : LogFilterBuilder) : LogFilterBuilder :=
  mkBuilder (b_from_block b) (b_to_block b) l (b_topics b).
Definition b_add_topic (i : nat) (t : list Z) (b : LogFilterBuilder) : LogFilterBuilder :=
  if (i <? 4)%nat then
    mkBuilder (b_from_block b) (b_to_block b) (b_addresses b)
      (alter (fun o => Some (default [] o ++ [t])) i (b_topics b))
  else b.
Definition b_set_topics (i : nat) (l : list (list Z)) (b : LogFilterBuilder) : LogFilterBuilder :=
  if (i <? 4)%nat then mkBuilder (b_from_block b) (b_to_block b) (b_addresses b) (<[i := Some l]> (b_topics b)) else b.
Definition build (b : LogFilterBuilder) : FilterCriteria :=
  mkCriteria (b_from_block b) (b_to_block b) (match b_addresses b with [] => None | l => Some l end) (b_topics b).

(** ** [BloomFilter] *)

Section bloom.
Context `{KeccakOps}.
Definition bit_index (hash : list Z) (i : nat) : Z :=
  Z.lor (nth (2 * i) hash 0) (Z.shiftl (nth (2 * i + 1) hash 0) 8).
Definition contains_bit (bloom hash : list Z) (i : nat) : bool :=
  let b := bit_index hash i in
  negb ((b / 8 <? len bloom) && (Z.land (nth (Z.to_nat (b / 8)) bloom 0) (Z.shiftl 1 (b mod 8)) =? 0)).
Definition contains_hash (bloom hash : list Z) : bool := forallb (contains_bit bloom hash) [0; 1; 2]%nat.
Definition contains_address (bloom addr : list Z) : bool := contains_hash bloom (keccak256 addr).
Definition contains_topic (bloom topic : list Z) : bool := contains_hash bloom topic.
Definition add_bit (hash : list Z) (bloom : list Z) (i : nat) : list Z :=
  let b := bit_index hash i in
  if b / 8 <? len bloom then alter (fun x => Z.lor x (Z.shiftl 1 (b mod 8))) (Z.to_nat (b / 8)) bloom else bloom.
Definition add_to_bloom (bloom data : list Z) : list Z := foldl (add_bit (keccak256 data)) bloom [0; 1; 2]%nat.
End bloom.

Section filter.
Context `{Profile} `{U256Ops} `{KeccakOps} {D : Type} `{Database D} {L B T : Type}.

(** What the crate reads of logs, blocks and transactions, and their texts and
    serialised forms. *)
Class FilterTypes := {
  log_address : L -> list Z;
  log_topics : L -> list (list Z);
  with_position : (list Z * Z) -> (list Z * Z) -> Z -> L -> L;
  block_bloom : B -> list Z;
  block_hash : B -> list Z;
  block_number : B -> Z;
  block_transactions : B -> list T;
  tx_hash : T -> list Z;
  show_number : Z -> list Z;
  hex_encode : list Z -> list Z;
  deserialize_block : list Z -> option B;
  deserialize_receipts : list Z -> option (list (list L));
}.
Context `{!FilterTypes}.
Definition bloom_matches (bloom : list Z) (log : L) : bool :=
  contains_address bloom (log_address log) && forallb (contains_topic bloom) (log_topics log).

(** ** log_filter.rs *)

Fixpoint match_topics (filters : list (option (list (list Z)))) (i : nat) (log : L) : bool :=
  match filters with
  | [] => true
  | topic_filter :: filters =>
      let passes := match topic_filter with
                    | Some ((_ :: _) as l) => match log_topics log !! i with Some t => bool_decide (t ∈ l) | None => false end
                    | _ => true
                    end in
      if passes then match_topics filters (S i) log else false
  end.
Definition matches (c : FilterCriteria) (log : L) : bool :=
  let passes := match address c with
                | Some ((_ :: _) as l) => bool_decide (log_address log ∈ l)
                | _ => true
                end in
  if passes then match_topics (topics c) 0 log else false.

Definition db_read (k : list Z) (d : D) : outcome FilterError (option (list Z)) :=
  match get k d with Ok v => Ok v | Err e => Err (StorageErr e) | Panic => Panic | Diverge => Diverge end.
Definition ok_or_invalid {A} (o : option A) : outcome FilterError A :=
  match o with Some x => Ok x | None => Err InvalidCriteria end.
Definition get_latest_block_number (d : D) : outcome FilterError Z :=
  let? r := db_read (text "latest_block") d in
  match r with
  | Some data => if len data =? 32 then unwrap (u_from_big_endian data) else Err InvalidCriteria
  | None => Ok 0
  end.
Definition get_block (d : D) (n : Z) : outcome FilterError B :=
  let? r := db_read (text "block:number:" ++ show_number n) d in
  let? hash := ok_or_invalid r in
  let? r := db_read (text "block:" ++ hex_encode hash) d in
  let? data := ok_or_invalid r in
  ok_or_invalid (deserialize_block data).
Definition get_receipts (d : D) (hash : list Z) : outcome FilterError (list (list L)) :=
  let? r := db_read (text "receipts:" ++ hex_encode hash) d in
  match r with
  | Some data => ok_or_invalid (deserialize_receipts data)
  | None => Ok []
  end.
Definition resolve_block_number (d : D) (n : option BlockNumber) : outcome FilterError Z :=
  match n with
  | Some (Number n) => Ok n
  | Some Earliest => Ok 0
  | Some Latest | Some Pending | None => get_latest_block_number d
  end.

(** The loops over the receipts of a block and over the logs of one push onto
    a list. *)
Notation LM := (SM (list L) FilterError).
Fixpoint scan_logs (c : FilterCriteria) (b : B) (tx_index log_index : nat) (logs : list L) : LM unit :=
  match logs with
  | [] => sret tt
  | log :: logs =>
      (if matches c log then
         let! tx := slift (unwrap (block_transactions b !! tx_index)) in
         smodify (fun acc => acc ++ [with_position (block_hash b, block_number b) (tx_hash tx, Z.of_nat tx_index) (Z.of_nat log_index) log])
       else sret tt) ;;!
      scan_logs c b tx_index (S log_index) logs
  end.
Fixpoint scan_receipts (c : FilterCriteria) (b : B) (tx_index : nat) (receipts : list (list L)) : LM unit :=
  match receipts with
  | [] => sret tt
  | logs :: receipts => scan_logs c b tx_index 0 logs ;;! scan_receipts c b (S tx_index) receipts
  end.
Definition scan_block (d : D) (c : FilterCriteria) (b : B) : LM unit :=
  let! receipts := slift (get_receipts d (block_hash b)) in
  scan_receipts c b 0 receipts.
(** The check of the bloom filter of a block. *)
Definition may_match (c : FilterCriteria) (b : B) : bool :=
  match address c with
  | Some addresses => existsb (contains_address (block_bloom b)) addresses
  | None => true
  end.
Fixpoint all_logs_loop (d : D) (c : FilterCriteria) (numbers : list Z) : LM unit :=
  match numbers with
  | [] => sret tt
  | n :: numbers =>
      let! b := slift (get_block d n) in
      (if may_match c b then scan_block d c b else sret tt) ;;!
      all_logs_loop d c numbers
  end.
Definition get_all_logs (d : D) (c : FilterCriteria) : outcome FilterError (list L) :=
  let? from := resolve_block_number d (from_block c) in
  let? to := resolve_block_number d (to_block c) in
  let? from := unwrap (u_as_u64 from) in
  let? to := unwrap (u_as_u64 to) in
  match all_logs_loop d c (seqZ from (to - from + 1)) [] with
  | (Ok _, logs) => Ok logs
  | (Err e, _) => Err e
  | (Panic, _) => Panic
  | (Diverge, _) => Diverge
  end.

Record LogFilter := mkLogFilter { criteria : FilterCriteria; pending_logs : list L; log_last_poll : Z; log_created_at : Z }.
Definition log_filter_new (c : FilterCriteria) (now : Z) : LogFilter := mkLogFilter c [] 0 now.
Definition add_log (log : L) (f : LogFilter) : LogFilter :=
  mkLogFilter (criteria f) (pending_logs f ++ [log]) (log_last_poll f) (log_created_at f).
Definition on_pending {A} (m : LM A) : SM LogFilter FilterError A := fun f =>
  let '(r, l) := m (pending_logs f) in (r, mkLogFilter (criteria f) l (log_last_poll f) (log_created_at f)).
Definition log_get_changes : SM LogFilter FilterError (list L) :=
  let! f := sget in
  sput (mkLogFilter (criteria f) [] (log_last_poll f) (log_created_at f)) ;;!
  sret (pending_logs f).
Fixpoint poll_loop (d : D) (c : FilterCriteria) (numbers : list Z) : LM unit :=
  match numbers with
  | [] => sret tt
  | n :: numbers => (let! b := slift (get_block d n) in scan_block d c b) ;;! poll_loop d c numbers
  end.
(** The numbers of the blocks after the last poll. *)
Definition poll_range (last_poll current : Z) : outcome FilterError (list Z) :=
  let? last := unwrap (u_as_u64 last_poll) in
  let? start := uadd 64 last 1 in
  let? stop := unwrap (u_as_u64 current) in
  Ok (seqZ start (stop - start + 1)).
Definition log_poll_for_changes (d : D) : SM LogFilter FilterError unit :=
  let! current := slift (get_latest_block_number d) in
  let! f := sget in
  if current <=? log_last_poll f then sret tt
  else
    let! numbers := slift (poll_range (log_last_poll f) current) in
    on_pending (poll_loop d (criteria f) numbers) ;;!
    smodify (fun f => mkLogFilter (criteria f) (pending_logs f) current (log_created_at f)).

(** ** block_filter.rs and pending_tx_filter.rs *)

Record BlockFilter := mkBlockFilter { pending_blocks : list (list Z); block_last_poll : Z; block_created_at : Z }.
Definition block_filter_new (now : Z) : BlockFilter := mkBlockFilter [] 0 now.
Definition add_block (hash : list Z) (f : BlockFilter) : BlockFilter :=
  mkBlockFilter (pending_blocks f ++ [hash]) (block_last_poll f) (block_created_at f).
Definition block_get_changes : SM BlockFilter FilterError (list (list Z)) :=
  let! f := sget in
  sput (mkBlockFilter [] (block_last_poll f) (block_created_at f)) ;;!
  sret (pending_blocks f).
Definition get_block_hash (d : D) (n : Z) : outcome FilterError (list Z) :=
  let? r := db_read (text "block:number:" ++ show_number n) d in
  match r with
  | Some data => if len data =? 32 then Ok data else Err InvalidCriteria
  | None => Err InvalidCriteria
  end.
Fixpoint block_poll_loop (d : D) (numbers : list Z) : SM BlockFilter FilterError unit :=
  match numbers with
  | [] => sret tt
  | n :: numbers =>
      let! hash := slift (get_block_hash d n) in
      smodify (add_block hash) ;;!
      block_poll_loop d numbers
  end.
Definition block_poll_for_changes (d : D) : SM BlockFilter FilterError unit :=
  let! current := slift (get_latest_block_number d) in
  let! f := sget in
  if current <=? block_last_poll f then sret tt
  else
    let! numbers := slift (poll_range (block_last_poll f) current) in
    block_poll_loop d numbers ;;!
    smodify (fun f => mkBlockFilter (pending_blocks f) current (block_created_at f)).

Record PendingTransactionFilter := mkPendingFilter { pending_transactions : list (list Z); tx_created_at : Z }.
Definition pending_filter_new (now : Z) : PendingTransactionFilter := mkPendingFilter [] now.
Definition add_transaction (hash : list Z) (f : PendingTransactionFilter) : PendingTransactionFilter :=
  mkPendingFilter (pending_transactions f ++ [hash]) (tx_created_at f).
Definition tx_get_changes : SM PendingTransactionFilter FilterError (list (list Z)) :=
  let! f := sget in
  sput (mkPendingFilter [] (tx_created_at f)) ;;!
  sret (pending_transactions f).
(** ** subscription.rs *)

(** The header a subscriber gets, and the parts of a block it is made of. *)
Record BlockHeader := mkBlockHeader {
  h_hash : list Z; h_parent_hash : list Z; h_uncles_hash : list Z; h_author : list Z; h_state_root : list Z;
  h_transactions_root : list Z; h_receipts_root : list Z; h_number : Z; h_gas_used : Z; h_gas_limit : Z;
  h_extra_data : list Z; h_logs_bloom : list Z; h_timestamp : Z; h_difficulty : Z; h_mix_hash : list Z; h_nonce : Z;
}.
Class HeaderFields := {
  parent_hash : B -> list Z; uncles_hash : B -> list Z; author : B -> list Z; state_root : B -> list Z;
  transactions_root : B -> list Z; receipts_root : B -> list Z; gas_used : B -> Z; gas_limit : B -> Z;
  extra_data : B -> list Z; timestamp : B -> Z; difficulty : B -> Z; mix_hash : B -> list Z; nonce : B -> Z;
}.
Context `{!HeaderFields}.
Definition header_from (b : B) : BlockHeader :=
  mkBlockHeader (block_hash b) (parent_hash b) (uncles_hash b) (author b) (state_root b) (transactions_root b)
    (receipts_root b) (block_number b) (gas_used b) (gas_limit b) (extra_data b) (block_bloom b) (timestamp b)
    (difficulty b) (mix_hash b) (nonce b).

Inductive SubscriptionType := NewHeads | NewPendingTransactions | Logs (c : FilterCriteria) | Syncing.
Record SyncStatus := mkSyncStatus {
  syncing : bool; starting_block : option Z; current_block : option Z; highest_block : option Z }.
Inductive SubscriptionNotification :=
| NewHead (h : BlockHeader) | NewPendingTransaction (hash : list Z) | LogNotification (log : L) | SyncingNotification (s : SyncStatus).
(** A subscription with what was sent to its subscriber; the subscriber may
    have gone. *)
Record Subscription := mkSubscription {
  sub_id : Z; subscription_type : SubscriptionType; sent : list SubscriptionNotification; is_closed : bool;
}.

(** [tokio::sync::broadcast]: a receiver keeps at most [capacity] unread
    messages, and has lagged when one was overwritten; [None] is a receiver
    that was dropped. *)
Record Receiver (M : Type) := mkReceiver { unread : list M; lagged : bool }.
Arguments mkReceiver {M} unread lagged.
Arguments unread {M} _.
Arguments lagged {M} _.
Definition push {M} (capacity : Z) (msg : M) (r : Receiver M) : Receiver M :=
  let q := unread r ++ [msg] in
  if capacity <? len q then mkReceiver (drop 1 q) true else mkReceiver q (lagged r).
Definition broadcast_send {M} (capacity : Z) (msg : M) (c : list (option (Receiver M))) : list (option (Receiver M)) :=
  map (fmap (push capacity msg)) c.
Definition broadcast_subscribe {M} (c : list (option (Receiver M))) : list (option (Receiver M)) := c ++ [Some (mkReceiver [] false)].
(** A round of [while let Ok(msg) = receiver.recv().await]: the loop ends, and
    with it the receiver, when the receiver has lagged; it waits while there is
    nothing to read. *)
Definition recv {M} (i : nat) (c : list (option (Receiver M))) : option M * list (option (Receiver M)) :=
  match c !! i with
  | Some (Some r) =>
      if lagged r then (None, <[i := None]> c)
      else match unread r with
           | msg :: q => (Some msg, <[i := Some (mkReceiver q false)]> c)
           | [] => (None, c)
           end
  | _ => (None, c)
  end.

Record SubscriptionManager := mkSubscriptions {
  subscriptions : gmap Z Subscription; next_id : Z;
  new_heads : list (option (Receiver B)); new_pending_tx : list (option (Receiver T)); new_logs : list (option (Receiver (list L)));
}.
Definition subscriptions_new : SubscriptionManager := mkSubscriptions ∅ 1 [] [] [].
Definition start (m : SubscriptionManager) : SubscriptionManager :=
  mkSubscriptions (subscriptions m) (next_id m) (broadcast_subscribe (new_heads m)) (broadcast_subscribe (new_pending_tx m))
    (broadcast_subscribe (new_logs m)).
Definition set_subscriptions (f : gmap Z Subscription -> gmap Z Subscription) (m : SubscriptionManager) : SubscriptionManager :=
  mkSubscriptions (f (subscriptions m)) (next_id m) (new_heads m) (new_pending_tx m) (new_logs m).
Definition next_subscription_id : SM SubscriptionManager FilterError Z :=
  let! m := sget in
  let! n := slift (unwrap (u_add (next_id m) 1)) in
  sput (mkSubscriptions (subscriptions m) n (new_heads m) (new_pending_tx m) (new_logs m)) ;;!
  sret (next_id m).
(** The number and type of the subscription; its receiver is what was sent. *)
Definition subscribe (ty : SubscriptionType) : SM SubscriptionManager FilterError (Z * SubscriptionType) :=
  let! id := next_subscription_id in
  smodify (set_subscriptions (insert id (mkSubscription id ty [] false))) ;;!
  sret (id, ty).
Definition unsubscribe (id : Z) : SM SubscriptionManager FilterError bool :=
  let! m := sget in
  smodify (set_subscriptions (delete id)) ;;!
  sret (bool_decide (is_Some (subscriptions m !! id))).
Definition manager_notify_block (capacity : Z) (b : B) (m : SubscriptionManager) : SubscriptionManager :=
  mkSubscriptions (subscriptions m) (next_id m) (broadcast_send capacity b (new_heads m)) (new_pending_tx m) (new_logs m).
Definition manager_notify_transaction (capacity : Z) (t : T) (m : SubscriptionManager) : SubscriptionManager :=
  mkSubscriptions (subscriptions m) (next_id m) (new_heads m) (broadcast_send capacity t (new_pending_tx m)) (new_logs m).
Definition manager_notify_logs (capacity : Z) (l : list L) (m : SubscriptionManager) : SubscriptionManager :=
  mkSubscriptions (subscriptions m) (next_id m) (new_heads m) (new_pending_tx m) (broadcast_send capacity l (new_logs m)).
(** Sending to a subscriber that has gone fails and is logged. *)
Definition send (l : list SubscriptionNotification) (s : Subscription) : Subscription :=
  if is_closed s then s else mkSubscription (sub_id s) (subscription_type s) (sent s ++ l) (is_closed s).
Definition deliver (f : SubscriptionType -> list SubscriptionNotification) (subs : gmap Z Subscription) : gmap Z Subscription :=
  (fun s => send (f (subscription_type s)) s) <$> subs.
Definition head_notifications (b : B) (ty : SubscriptionType) : list SubscriptionNotification :=
  match ty with NewHeads => [NewHead (header_from b)] | _ => [] end.
Definition tx_notifications (t : T) (ty : SubscriptionType) : list SubscriptionNotification :=
  match ty with NewPendingTransactions => [NewPendingTransaction (tx_hash t)] | _ => [] end.
Definition log_matches_criteria (log : L) (c : FilterCriteria) : bool :=
  let passes := match address c with
                | Some l => bool_decide (l = []) || bool_decide (log_address log ∈ l)
                | None => true
                end in
  passes && forallb (fun '(i, topic_filter) =>
    match topic_filter with
    | Some l => bool_decide (l = []) || match log_topics log !! i with Some t => bool_decide (t ∈ l) | None => false end
    | None => true
    end) (imap pair (topics c)).
Definition log_notifications (logs : list L) (ty : SubscriptionType) : list SubscriptionNotification :=
  match ty with
  | Logs c => LogNotification <$> filter (fun log => log_matches_criteria log c) logs
  | _ => []
  end.
(** A round of the [i]-th handler of each channel. *)
Definition new_heads_round (i : nat) (m : SubscriptionManager) : SubscriptionManager :=
  let '(msg, c) := recv i (new_heads m) in
  mkSubscriptions (match msg with Some b => deliver (head_notifications b) (subscriptions m) | None => subscriptions m end)
    (next_id m) c (new_pending_tx m) (new_logs m).
Definition new_pending_tx_round (i : nat) (m : SubscriptionManager) : SubscriptionManager :=
  let '(msg, c) := recv i (new_pending_tx m) in
  mkSubscriptions (match msg with Some t => deliver (tx_notifications t) (subscriptions m) | None => subscriptions m end)
    (next_id m) (new_heads m) c (new_logs m).
Definition new_logs_round (i : nat) (m : SubscriptionManager) : SubscriptionManager :=
  let '(msg, c) := recv i (new_logs m) in
  mkSubscriptions (match msg with Some l => deliver (log_notifications l) (subscriptions m) | None => subscriptions m end)
    (next_id m) (new_heads m) (new_pending_tx m) c.
Definition active_subscriptions (m : SubscriptionManager) : Z := Z.of_nat (size (subscriptions m)).
Definition cleanup_closed_subscriptions : SubscriptionManager -> SubscriptionManager :=
  set_subscriptions (filter (fun p => is_closed p.2 = false)).

(** ** [FilterSystem] *)

Inductive FilterKind := LogKind (f : LogFilter) | BlockKind (f : BlockFilter) | PendingTransactionKind (f : PendingTransactionFilter).
Record FilterSystem := mkSystem { filters : gmap Z FilterKind; next_filter : Z; manager : SubscriptionManager }.
Definition system_new : FilterSystem := mkSystem ∅ 1 subscriptions_new.
Notation FM := (SM FilterSystem FilterError).
Definition next_filter_id : FM Z :=
  let! s := sget in
  let! n := slift (unwrap (u_add (next_filter s) 1)) in
  sput (mkSystem (filters s) n (manager s)) ;;!
  sret (next_filter s).
Definition set_filters (f : gmap Z FilterKind -> gmap Z FilterKind) (s : FilterSystem) : FilterSystem :=
  mkSystem (f (filters s)) (next_filter s) (manager s).
Definition install (k : FilterKind) : FM Z :=
  let! id := next_filter_id in smodify (set_filters (insert id k)) ;;! sret id.
Definition new_log_filter (c : FilterCriteria) (now : Z) : FM Z := install (LogKind (log_filter_new c now)).
Definition new_block_filter (now : Z) : FM Z := install (BlockKind (block_filter_new now)).
Definition new_pending_transaction_filter (now : Z) : FM Z := install (PendingTransactionKind (pending_filter_new now)).

Inductive FilterChanges := LogChanges (l : list L) | HashChanges (l : list (list Z)).
Definition kind_changes (k : FilterKind) : outcome FilterError FilterChanges * FilterKind :=
  match k with
  | LogKind f => let '(r, f) := log_get_changes f in (let? l := r in Ok (LogChanges l), LogKind f)
  | BlockKind f => let '(r, f) := block_get_changes f in (let? l := r in Ok (HashChanges l), BlockKind f)
  | PendingTransactionKind f => let '(r, f) := tx_get_changes f in (let? l := r in Ok (HashChanges l), PendingTransactionKind f)
  end.
Definition get_filter_changes (id : Z) : FM FilterChanges := fun s =>
  match filters s !! id with
  | None => (Err FilterNotFound, s)
  | Some k => let '(r, k) := kind_changes k in (r, set_filters (insert id k) s)
  end.
Definition get_filter_logs (d : D) (id : Z) (s : FilterSystem) : outcome FilterError (list L) :=
  match filters s !! id with
  | None => Err FilterNotFound
  | Some (LogKind f) => get_all_logs d (criteria f)
  | Some _ => Err InvalidCriteria
  end.
Definition get_logs (d : D) (c : FilterCriteria) : outcome FilterError (list L) := get_all_logs d c.
Definition uninstall_filter (id : Z) : FM bool :=
  let! s := sget in
  smodify (set_filters (delete id)) ;;!
  sret (bool_decide (is_Some (filters s !! id))).
(** [show] is [to_string] of an error. *)
Definition on_manager {A} (show : FilterError -> string) (m : SM SubscriptionManager FilterError A) : FM A := fun s =>
  let '(r, x) := m (manager s) in
  (match r with Ok a => Ok a | Err e => Err (SubscriptionError (show e)) | Panic => Panic | Diverge => Diverge end,
   mkSystem (filters s) (next_filter s) x).
Definition system_subscribe (show : FilterError -> string) (ty : SubscriptionType) : FM (Z * SubscriptionType) :=
  on_manager show (subscribe ty).
Definition system_unsubscribe (show : FilterError -> string) (id : Z) : FM bool := on_manager show (unsubscribe id).
Definition notify_new_block (capacity : Z) (b : B) (s : FilterSystem) : FilterSystem :=
  mkSystem ((fun k => match k with BlockKind f => BlockKind (add_block (block_hash b) f) | _ => k end) <$> filters s)
    (next_filter s) (manager_notify_block capacity b (manager s)).
Definition notify_new_pending_transaction (capacity : Z) (t : T) (s : FilterSystem) : FilterSystem :=
  mkSystem ((fun k => match k with PendingTransactionKind f => PendingTransactionKind (add_transaction (tx_hash t) f) | _ => k end) <$> filters s)
    (next_filter s) (manager_notify_transaction capacity t (manager s)).
Definition take_logs (logs : list L) (f : LogFilter) : LogFilter :=
  foldl (fun f log => if matches (criteria f) log then add_log log f else f) f logs.
Definition notify_new_logs (capacity : Z) (logs : list L) (s : FilterSystem) : FilterSystem :=
  mkSystem ((fun k => match k with LogKind f => LogKind (take_logs logs f) | _ => k end) <$> filters s)
    (next_filter s) (manager_notify_logs capacity logs (manager s)).
(** A tick of the polling task; an error is logged, a panic ends the task. *)
Definition poll_kind (d : D) (k : FilterKind) : outcome FilterError unit * FilterKind :=
  match k with
  | LogKind f => let '(r, f) := log_poll_for_changes d f in (r, LogKind f)
  | BlockKind f => let '(r, f) := block_poll_for_changes d f in (r, BlockKind f)
  | _ => (Ok tt, k)
  end.
Fixpoint poll_all (d : D) (l : list (Z * FilterKind)) (s : FilterSystem) : outcome FilterError unit * FilterSystem :=
  match l with
  | [] => (Ok tt, s)
  | (id, k) :: l =>
      let '(r, k) := poll_kind d k in
      let s := set_filters (insert id k) s in
      match r with
      | Panic => (Panic, s)
      | Diverge => (Diverge, s)
      | _ => poll_all d l s
      end
  end.
Definition poll_tick (d : D) (s : FilterSystem) : outcome FilterError unit * FilterSystem := poll_all d (map_to_list (filters s)) s.
Definition FILTER_TIMEOUT : Z := 300.
Definition kind_created_at (k : FilterKind) : Z :=
  match k with LogKind f => log_created_at f | BlockKind f => block_created_at f | PendingTransactionKind f => tx_created_at f end.
Fixpoint retain_fresh {E} (now : Z) (l : list (Z * FilterKind)) : outcome E (list (Z * FilterKind)) :=
  match l with
  | [] => Ok []
  | (id, k) :: l =>
      let? age := usub 64 now (kind_created_at k) in
      let? rest := retain_fresh now l in
      Ok (if age <? FILTER_TIMEOUT then (id, k) :: rest else rest)
  end.
Definition cleanup_expired_filters (now : Z) : FM unit :=
  let! s := sget in
  let! l := slift (retain_fresh now (map_to_list (filters s))) in
  smodify (set_filters (fun _ => list_to_map l)).
End filter.
Arguments mkReceiver {M} unread lagged.
Arguments unread {M} _.
Arguments lagged {M} _.

End Filter.
