(* ===== verification/FilterProofs.v ===== *)
(** What filters find and what subscribers get: the theorems on
    crates/filter. *)
From stdpp Require Import base list numbers option strings gmap.
From Stdlib Require Import ZArith Lia.
From S2P Require Import Prelude U256 Types Storage Filter.

Module FilterProofs.
Import Filter.

(** * Bloom filters *)

Section bloom.
Context `{KeccakOps}.
Lemma bit_index_nonneg hash i : bytes hash -> 0 <= bit_index hash i.
Proof.
  intros Hh. assert (forall k, 0 <= nth k hash 0) as Hk.
  { intros k. unfold bytes in Hh. destruct (nth_in_or_default k hash 0) as [Hin| ->]; [|done]. apply list_elem_of_In in Hin.
    rewrite Forall_forall in Hh. by destruct (Hh _ Hin). }
  apply Z.lor_nonneg. split; [apply Hk|]. by apply Z.shiftl_nonneg.
Qed.
Lemma length_add_bit hash b i : length (add_bit hash b i) = length b.
Proof. unfold add_bit. destruct (_ <? _); [apply length_alter|done]. Qed.
Lemma add_bit_set hash b i : bytes hash -> length b = 256%nat -> add_bit hash b i = Bloom.set (bit_index hash i) b.
Proof.
  intros Hh Hb. pose proof (bit_index_nonneg hash i Hh). unfold add_bit, Bloom.set, len. rewrite Hb.
  set (k := bit_index hash i) in *. destruct (Z.ltb_spec (k / 8) (Z.of_nat 256)), (Z.ltb_spec k 2048); try (exfalso; zlia); try done.
  destruct (Bloom.byte_of b k Hb) as [x Hx]; [lia|]. rewrite Hx.
  apply list_eq. intros j. destruct (decide (Z.to_nat (k / 8) = j)) as [<-|].
  - rewrite list_lookup_alter_eq, Hx, list_lookup_insert_eq; [done|]. by eapply lookup_lt_Some.
  - by rewrite list_lookup_alter_ne, list_lookup_insert_ne.
Qed.
Lemma contains_bit_set hash b i : bytes hash -> length b = 256%nat ->
  contains_bit b hash i = (2048 <=? bit_index hash i) || Bloom.is_set b (bit_index hash i).
Proof.
  intros Hh Hb. pose proof (bit_index_nonneg hash i Hh). unfold contains_bit, Bloom.is_set, len. rewrite Hb.
  set (k := bit_index hash i) in *. destruct (Z.ltb_spec (k / 8) (Z.of_nat 256)), (Z.ltb_spec k 2048), (Z.leb_spec 2048 k); try (exfalso; zlia); try done.
  destruct (Bloom.byte_of b k Hb) as [x Hx]; [lia|]. rewrite Hx. by erewrite nth_lookup_Some by done.
Qed.
Context `{!KeccakLaws}.
Lemma add_to_bloom_set b d : length b = 256%nat ->
  add_to_bloom b d = foldl (fun b i => Bloom.set (bit_index (keccak256 d) i) b) b [0; 1; 2]%nat.
Proof.
  intros Hb. unfold add_to_bloom. simpl. pose proof (keccak_bytes d : bytes (keccak256 d)).
  by rewrite !add_bit_set by (rewrite ?length_add_bit; done).
Qed.
Lemma length_add_to_bloom b d : length b = 256%nat -> length (add_to_bloom b d) = 256%nat.
Proof. intros Hb. rewrite add_to_bloom_set by done. simpl. by rewrite !Bloom.length_set. Qed.
Lemma add_to_bloom_is_set b d j : length b = 256%nat -> 0 <= j < 2048 ->
  Bloom.is_set (add_to_bloom b d) j =
    bool_decide (j ∈ map (bit_index (keccak256 d)) [0; 1; 2]%nat) || Bloom.is_set b j.
Proof.
  intros Hb Hj. pose proof (keccak_bytes d : bytes (keccak256 d)). rewrite add_to_bloom_set by done. simpl.
  rewrite !Bloom.set_is_set by (rewrite ?Bloom.length_set; auto using bit_index_nonneg).
  rewrite (bool_decide_ext _ (j = bit_index (keccak256 d) 0 \/ j = bit_index (keccak256 d) 1 \/ j = bit_index (keccak256 d) 2)) by set_solver.
  generalize (bit_index (keccak256 d) 0), (bit_index (keccak256 d) 1), (bit_index (keccak256 d) 2). intros x y z.
  destruct (Z.eqb_spec z j), (Z.eqb_spec y j), (Z.eqb_spec x j); first [by rewrite bool_decide_true by lia | by rewrite bool_decide_false by lia].
Qed.
Lemma bloom_contains_added b ds a : length b = 256%nat -> a ∈ ds -> contains_address (foldl add_to_bloom b ds) a = true.
Proof.
  intros Hb Ha. apply forallb_forall. intros i Hi%list_elem_of_In.
  assert (length (foldl add_to_bloom b ds) = 256%nat) as Hl.
  { clear Ha. revert b Hb. induction ds; simpl; intros; auto using length_add_to_bloom. }
  rewrite contains_bit_set by (done || apply keccak_bytes). apply orb_true_iff.
  pose proof (bit_index_nonneg (keccak256 a) i (keccak_bytes a)). destruct (Z.leb_spec 2048 (bit_index (keccak256 a) i)); [by left|right].
  set (j := bit_index (keccak256 a) i) in *. assert (0 <= j < 2048) as Hj by lia. clear Hl.
  assert (forall b, length b = 256%nat -> (Bloom.is_set b j = true \/ a ∈ ds) -> Bloom.is_set (foldl add_to_bloom b ds) j = true) as Hind; [|by eauto].
  clear b Hb Ha. induction ds as [|d ds IH]; intros b Hb [Hs|Hs]; simpl; [done|by apply not_elem_of_nil in Hs|..].
  - apply IH; [by apply length_add_to_bloom|]. left. rewrite add_to_bloom_is_set by done. by rewrite Hs, orb_true_r.
  - apply IH; [by apply length_add_to_bloom|]. apply elem_of_cons in Hs as [<- |Hs]; [left|by right].
    rewrite add_to_bloom_is_set, bool_decide_true by (done || by apply list_elem_of_In, in_map, list_elem_of_In). done.
Qed.
End bloom.

Section filter.
Context `{Profile} `{U256Ops} `{!U256Laws} `{KeccakOps} {D : Type} `{Database D} {L B T : Type} `{!FilterTypes (L := L) (B := B) (T := T)}.
Implicit Types (c : FilterCriteria) (log : L) (b : B) (d : D).

(** * Which logs match *)

(** The meaning of criteria: empty lists and missing entries select all. *)
Definition selects c log : Prop :=
  (forall l, address c = Some l -> l <> [] -> log_address log ∈ l) /\
  (forall i l, topics c !! i = Some (Some l) -> l <> [] -> exists t, log_topics log !! i = Some t /\ t ∈ l).
Definition topic_passes (log : L) (i : nat) (o : option (list (list Z))) : Prop :=
  forall l, o = Some l -> l <> [] -> exists t, log_topics log !! i = Some t /\ t ∈ l.
Lemma match_topics_spec fs k log :
  match_topics fs k log = true <-> forall i o, fs !! i = Some o -> topic_passes log (k + i) o.
Proof.
  revert k. induction fs as [|o fs IH]; intros k; [simpl; split; [|done]; by intros _ i o ?|]. cbn [match_topics].
  assert (match o with Some ((_ :: _) as l) => match log_topics log !! k with Some t => bool_decide (t ∈ l) | None => false end | _ => true end = true
    <-> topic_passes log k o) as Ho.
  { unfold topic_passes. destruct o as [[|x l]|]; [split; [|done]; by intros _ ? [= <-]| |by split].
    destruct (log_topics log !! k) as [t|]; rewrite ?bool_decide_eq_true; split.
    - intros Ht l' [= <-] _. by exists t.
    - intros Hl. destruct (Hl _ eq_refl) as (t' & [= <-] & ?); done.
    - done.
    - intros Hl. destruct (Hl _ eq_refl) as (? & ? & _); done. }
  transitivity (topic_passes log k o /\ match_topics fs (S k) log = true).
  { rewrite <- Ho. by destruct (match o with Some _ => _ | None => _ end) as [] eqn:?; intuition. }
  rewrite IH. split.
  - intros [Hz Hs] [|i] o' Ho'; simpl in Ho'; [injection Ho' as <-; by rewrite Nat.add_0_r|].
    replace (k + S i)%nat with (S k + i)%nat by lia. by apply Hs.
  - intros Hall. split; [rewrite <- (Nat.add_0_r k); by apply Hall|]. intros i o' Ho'.
    replace (S k + i)%nat with (k + S i)%nat by lia. by apply Hall.
Qed.
Lemma matches_spec c log : matches c log = true <-> selects c log.
Proof.
  unfold matches, selects. assert (forall P : bool, match address c with Some ((_ :: _) as l) => bool_decide (log_address log ∈ l) | _ => true end = P ->
    (P = true <-> forall l, address c = Some l -> l <> [] -> log_address log ∈ l)) as Ha.
  { intros P <-. destruct (address c) as [[|x l]|]; [split; [|done]; by intros _ ? [= <-]| |by split].
    rewrite bool_decide_eq_true. split; [by intros ? ? [= <-]|by intros Hl; apply Hl]. }
  specialize (Ha _ eq_refl). rewrite <- Ha. destruct (match address c with Some _ => _ | None => _ end); [|naive_solver].
  rewrite match_topics_spec. unfold topic_passes. naive_solver.
Qed.
Lemma log_matches_criteria_spec c log : log_matches_criteria log c = true <-> selects c log.
Proof.
  unfold log_matches_criteria, selects. rewrite andb_true_iff, forallb_forall. f_equiv.
  - destruct (address c) as [l|]; [|by split]. rewrite orb_true_iff, !bool_decide_eq_true. split.
    + intros Hl l' [= <-] ?. by destruct Hl.
    + intros Hl. destruct (decide (l = [])); [by left|right; by apply Hl].
  - split.
    + intros Hall i l Hi Hl. specialize (Hall (i, Some l)). simpl in Hall. rewrite bool_decide_false in Hall by done. simpl in Hall.
      destruct (log_topics log !! i) as [t|] eqn:Ht.
      * exists t. split; [done|]. apply (bool_decide_eq_true_1 (t ∈ l)), Hall, list_elem_of_In, elem_of_lookup_imap. by exists i, (Some l).
      * exfalso. assert (false = true); [|done]. apply Hall, list_elem_of_In, elem_of_lookup_imap. by exists i, (Some l).
    + intros Hall [i o] Hin%list_elem_of_In. apply elem_of_lookup_imap in Hin as (i' & o' & [= <- <-] & Hi).
      destruct o as [l|]; [|done]. destruct (decide (l = [])); [by rewrite bool_decide_true|].
      destruct (Hall i l) as (t & -> & ?); [done..|]. rewrite (bool_decide_true (t ∈ l)) by done. apply orb_true_r.
Qed.
(** The two copies of the test agree. *)
Lemma matchers_agree c log : log_matches_criteria log c = matches c log.
Proof. apply eq_true_iff_eq. by rewrite log_matches_criteria_spec, matches_spec. Qed.
(** * Logs of past blocks *)

(** A log of the block [b] with its position, as it is returned. *)
Definition positioned b (tx_index log_index : nat) log : L :=
  match block_transactions b !! tx_index with
  | Some tx => with_position (block_hash b, block_number b) (tx_hash tx, Z.of_nat tx_index) (Z.of_nat log_index) log
  | None => log
  end.
Definition receipt_logs c b (tx_index : nat) (logs : list L) : list L :=
  concat (imap (fun i log => if matches c log then [positioned b tx_index i log] else []) logs).
Definition block_logs c b (receipts : list (list L)) : list L := concat (imap (receipt_logs c b) receipts).

Lemma scan_logs_ok c b t k logs acc : is_Some (block_transactions b !! t) ->
  scan_logs c b t k logs acc =
    (Ok tt, acc ++ concat (imap (fun i log => if matches c log then [positioned b t (k + i) log] else []) logs)).
Proof.
  intros [tx Htx]. revert k acc. induction logs as [|log logs IH]; intros k acc; [simpl; by rewrite app_nil_r|].
  cbn [scan_logs imap concat]. rewrite (imap_ext _ (fun i log => if matches c log then [positioned b t (S k + i) log] else []) logs)
    by (intros i x _; unfold compose; by rewrite Nat.add_succ_r).
  rewrite Nat.add_0_r. destruct (matches c log).
  - rewrite Htx. cbn [unwrap]. rewrite sbind_assoc, sbind_lift, sbind_modify, IH, <- app_assoc.
    assert (positioned b t k log = with_position (block_hash b, block_number b) (tx_hash tx, Z.of_nat t) (Z.of_nat k) log) as -> by by unfold positioned; rewrite Htx.
    done.
  - unfold sbind, sret. by rewrite IH.
Qed.
Lemma scan_receipts_ok c b k receipts acc : (k + length receipts <= length (block_transactions b))%nat ->
  scan_receipts c b k receipts acc = (Ok tt, acc ++ concat (imap (fun i => receipt_logs c b (k + i)) receipts)).
Proof.
  revert k acc. induction receipts as [|logs receipts IH]; intros k acc Hl; [simpl; by rewrite app_nil_r|].
  simpl in Hl. cbn [scan_receipts imap concat]. rewrite (imap_ext _ (fun i => receipt_logs c b (S k + i)) receipts)
    by (intros i x _; unfold compose; by rewrite Nat.add_succ_r).
  erewrite sbind_ok by (apply scan_logs_ok; apply lookup_lt_is_Some_2; lia).
  rewrite IH, <- app_assoc, Nat.add_0_r by lia. done.
Qed.

(** A chain of blocks with their receipts, and databases that serve it. *)
Implicit Types (chain : Z -> B * list (list L)).
Definition serves d chain (lo hi : Z) : Prop := forall n, lo <= n <= hi ->
  get_block d n = Ok (chain n).1 /\ get_receipts d (block_hash (chain n).1) = Ok (chain n).2 /\
  (length (chain n).2 <= length (block_transactions (chain n).1))%nat.
Definition chain_logs c chain (numbers : list Z) : list L :=
  concat (map (fun n => block_logs c (chain n).1 (chain n).2) numbers).
(** The bloom filter of a block was made with [add_to_bloom] from the
    addresses of its logs and possibly other data. *)
Definition bloom_built (p : B * list (list L)) : Prop :=
  exists ds, block_bloom p.1 = foldl add_to_bloom Bloom.new ds /\
    forall logs log, logs ∈ p.2 -> log ∈ logs -> log_address log ∈ ds.

Lemma scan_block_ok d c chain lo hi n acc : serves d chain lo hi -> lo <= n <= hi ->
  scan_block d c (chain n).1 acc = (Ok tt, acc ++ block_logs c (chain n).1 (chain n).2).
Proof.
  intros Hs Hn. destruct (Hs n Hn) as (_ & Hr & Hl). unfold scan_block. rewrite Hr, sbind_lift. by rewrite scan_receipts_ok by lia.
Qed.
Lemma poll_loop_ok d c chain lo hi numbers acc : serves d chain lo hi -> Forall (fun n => lo <= n <= hi) numbers ->
  poll_loop d c numbers acc = (Ok tt, acc ++ chain_logs c chain numbers).
Proof.
  intros Hs Hn. revert acc. induction Hn as [|n numbers Hn _ IH]; intros acc; [simpl; by rewrite app_nil_r|]. cbn [poll_loop].
  rewrite sbind_assoc. destruct (Hs n Hn) as (-> & _). rewrite sbind_lift. erewrite sbind_ok by by eapply scan_block_ok.
  rewrite IH, <- app_assoc. done.
Qed.
(** A block whose bloom filter excludes the addresses has no matching log. *)
Lemma excluded_block `{!KeccakLaws} c p l : address c = Some l -> l <> [] -> bloom_built p -> may_match c p.1 = false ->
  block_logs c p.1 p.2 = [].
Proof.
  intros Ha Hl (ds & Hb & Hin) Hm. unfold may_match in Hm. rewrite Ha in Hm. unfold block_logs, receipt_logs.
  apply concat_nil_Forall, Forall_lookup. intros i x Hx. apply list_lookup_imap_Some in Hx as (logs & Hlogs & ->).
  apply concat_nil_Forall, Forall_lookup. intros j y Hy. apply list_lookup_imap_Some in Hy as (log & Hlog & ->).
  destruct (matches c log) eqn:Hmatch; [|done]. exfalso. apply matches_spec in Hmatch as [Haddr _]. specialize (Haddr l Ha Hl).
  apply not_true_iff_false in Hm. apply Hm, existsb_exists. exists (log_address log). split; [by apply list_elem_of_In|].
  rewrite Hb. apply bloom_contains_added; [done|]. eapply Hin; by eapply list_elem_of_lookup_2.
Qed.
(** The blocks of a range that the bloom check lets through. *)
Definition through_bloom c chain (numbers : list Z) : list Z := filter (fun n => may_match c (chain n).1 = true) numbers.
Lemma all_logs_loop_ok d c chain lo hi numbers acc : serves d chain lo hi -> Forall (fun n => lo <= n <= hi) numbers ->
  all_logs_loop d c numbers acc = (Ok tt, acc ++ chain_logs c chain (through_bloom c chain numbers)).
Proof.
  intros Hs Hn. revert acc. induction Hn as [|n numbers Hn _ IH]; intros acc; [by rewrite app_nil_r|].
  cbn [all_logs_loop]. destruct (Hs n Hn) as (-> & _). rewrite sbind_lift. unfold through_bloom. rewrite filter_cons.
  destruct (may_match c (chain n).1) eqn:Hm.
  - rewrite decide_True by done. erewrite sbind_ok by by eapply scan_block_ok. rewrite IH, <- app_assoc. done.
  - rewrite decide_False by done. erewrite sbind_ok by done. by rewrite IH.
Qed.
Lemma bloom_loses_nothing `{!KeccakLaws} c chain numbers : (address c <> None -> Forall (fun n => bloom_built (chain n)) numbers) ->
  chain_logs c chain (through_bloom c chain numbers) = if decide (address c = Some []) then [] else chain_logs c chain numbers.
Proof.
  intros Hb. induction numbers as [|n numbers IH]; [by destruct (decide _)|].
  specialize (IH ltac:(intros Ha; by apply Hb, Forall_cons in Ha as [_ ?])). unfold through_bloom in *. rewrite filter_cons.
  destruct (may_match c (chain n).1) eqn:Hm; [rewrite decide_True by done|rewrite decide_False by done]; unfold chain_logs in *; cbn [map concat].
  - rewrite IH. destruct (decide (address c = Some [])) as [He|]; [|done]. unfold may_match in Hm. by rewrite He in Hm.
  - rewrite IH. destruct (decide (address c = Some [])) as [|Hne]; [done|]. destruct (address c) as [l|] eqn:Ha; [|by unfold may_match in Hm; rewrite Ha in Hm].
    rewrite (excluded_block c (chain n) l); [done|done|by intros ->| |done]. assert (Some l <> None) as Hsome by done. by apply Hb, Forall_cons in Hsome as [? _].
Qed.

(** C31: get_logs returns, block by block in order and with their positions, the
    logs that meet the criteria of those blocks of the resolved range that its
    bloom check lets through: without addresses all of them, otherwise those
    whose header seems to hold one of the addresses.  Where the headers' bloom
    filters were made with add_to_bloom from the addresses of the logs, this is
    exactly what a full scan returns, but for criteria with an empty list of
    addresses, which select every log and for which it returns none; other
    headers, such as those with a zero bloom filter, can lose logs. *)
Theorem get_logs_complete `{!KeccakLaws} d c chain from to :
  resolve_block_number d (from_block c) = Ok from -> resolve_block_number d (to_block c) = Ok to ->
  0 <= from < 2 ^ 64 -> 0 <= to < 2 ^ 64 -> serves d chain from to ->
  let range := seqZ from (to - from + 1) in
  get_logs d c = Ok (chain_logs c chain (through_bloom c chain range)) /\
  (forall log, matches c log = true <-> selects c log) /\
  (address c = None -> through_bloom c chain range = range) /\
  ((forall n, from <= n <= to -> bloom_built (chain n)) ->
   get_logs d c = Ok (if decide (address c = Some []) then [] else chain_logs c chain range)).
Proof.
  intros Hf Ht Hf0 Ht0 Hs range.
  assert (get_logs d c = Ok (chain_logs c chain (through_bloom c chain range))) as Hget.
  { unfold get_logs, get_all_logs. rewrite Hf, Ht. cbn [obind].
    rewrite !as_u64_law, !(proj2 (Z.ltb_lt _ _)) by (unfold uint; lia). cbn [unwrap obind].
    by rewrite (all_logs_loop_ok d c chain from to); [|done|apply Forall_seqZ; lia]. }
  split_and!; [done|intros; apply matches_spec| |].
  - intros Ha. unfold through_bloom. clear -Ha. induction range as [|n l IH]; [done|]. rewrite filter_cons_True, IH; [done|]. unfold may_match. by rewrite Ha.
  - intros Hb. rewrite Hget. f_equal. apply bloom_loses_nothing. intros _. apply Forall_seqZ. intros n Hn. apply Hb. lia.
Qed.

(** * Polling *)

(** A client that polls (on a database) and fetches changes (without one). *)
Fixpoint observe (evs : list (option D)) (out : list L) : SM LogFilter FilterError (list L) :=
  match evs with
  | [] => sret out
  | Some d :: evs => log_poll_for_changes d ;;! observe evs out
  | None :: evs => let! l := log_get_changes in observe evs (out ++ l)
  end.
Definition fully_served chain d : Prop :=
  exists head, get_latest_block_number d = Ok head /\ 0 <= head < 2 ^ 64 /\ serves d chain 1 head.
Definition seen c chain (out : list L) (f : LogFilter) : Prop :=
  criteria f = c /\ 0 <= log_last_poll f < 2 ^ 64 /\ out ++ pending_logs f = chain_logs c chain (seqZ 1 (log_last_poll f)).
Lemma poll_ok c chain d out f : fully_served chain d -> seen c chain out f ->
  exists f', log_poll_for_changes d f = (Ok tt, f') /\ seen c chain out f' /\ log_last_poll f <= log_last_poll f' /\
    exists head, get_latest_block_number d = Ok head /\ head <= log_last_poll f'.
Proof.
  intros (head & Hh & Hr & Hs) Hseen. pose proof Hseen as (Hc & Hlp & Hout). unfold log_poll_for_changes. rewrite Hh, sbind_lift, sbind_get.
  destruct (Z.leb_spec head (log_last_poll f)); [exists f; split_and!; [done|done|lia|by exists head]|].
  unfold poll_range, uadd. rewrite !as_u64_law, !(proj2 (Z.ltb_lt _ _)) by (unfold uint; lia). cbn [unwrap obind]. exact_arith.
  rewrite sbind_lift. unfold on_pending, sbind at 1. rewrite (poll_loop_ok d (criteria f) chain 1 head); [|done|apply Forall_seqZ; lia].
  eexists. split; [reflexivity|]. cbn [log_last_poll smodify snd]. split; [|split; [lia|by exists head]].
  split_and!; simpl; [done|lia|lia|]. rewrite app_assoc, Hout, Hc. unfold chain_logs. rewrite <- concat_app, <- map_app.
  do 2 f_equal. replace (head - (log_last_poll f + 1) + 1) with (head - log_last_poll f) by lia.
  rewrite (Z.add_comm _ 1), <- seqZ_app by lia. f_equal. lia.
Qed.

(** C32: a log filter polled in any order with calls for its changes, over
    databases that serve a growing chain, never fails, and its client is given
    every matching log of the blocks after the genesis block exactly once and
    in order: what was handed out followed by what is pending are the logs up
    to the last polled block. *)
Theorem polls_deliver_exactly_once c chain now evs :
  Forall (fun o => match o with Some d => fully_served chain d | None => True end) evs ->
  exists out f, observe evs [] (log_filter_new c now) = (Ok out, f) /\
    out ++ pending_logs f = chain_logs c chain (seqZ 1 (log_last_poll f)) /\
    forall d, Some d ∈ evs -> exists head, get_latest_block_number d = Ok head /\ head <= log_last_poll f.
Proof.
  intros Hevs. assert (forall out f, seen c chain out f -> exists out' f', observe evs out f = (Ok out', f') /\ seen c chain out' f' /\
    log_last_poll f <= log_last_poll f' /\
    forall d, Some d ∈ evs -> exists head, get_latest_block_number d = Ok head /\ head <= log_last_poll f') as Hind.
  { induction Hevs as [|o evs Ho _ IH]; intros out f Hseen.
    { exists out, f. split_and!; [done..|]. by intros d ?%not_elem_of_nil. }
    destruct o as [d|]; cbn [observe].
    - destruct (poll_ok c chain d out f Ho Hseen) as (f1 & Hp & Hseen1 & Hle & head & Hhead & Hh). rewrite (sbind_ok _ _ _ _ _ Hp).
      destruct (IH out f1 Hseen1) as (out' & f' & Hr & Hs' & Hle' & Hd). exists out', f'. split_and!; [done..|lia|].
      intros d' [[= ->] |Hd']%elem_of_cons; [exists head; split; [done|lia]|by apply Hd].
    - destruct (IH (out ++ pending_logs f) (mkLogFilter (criteria f) [] (log_last_poll f) (log_created_at f))) as (out' & f' & Hr & Hs' & Hle & Hd).
      { destruct Hseen as (? & ? & ?). split_and!; simpl; [done|lia|lia|]. by rewrite app_nil_r. }
      exists out', f'. split_and!; [done..|]. intros d' [?|?]%elem_of_cons; [done|by apply Hd]. }
  destruct (Hind [] (log_filter_new c now)) as (out & f & Hr & (_ & _ & Hs) & _ & Hd); [split_and!; done|]. by exists out, f.
Qed.
(** * Subscriptions *)

Section subscriptions.
Context `{!HeaderFields (B := B)}.
Notation Manager := (SubscriptionManager (L := L) (B := B) (T := T)).
Implicit Types (m : Manager).

Inductive event :=
| PublishLogs (l : list L) | LogsRound | PublishBlock (b : B) | HeadsRound (i : nat) | PublishTransaction (t : T) | TxRound (i : nat)
| Subscribe (ty : SubscriptionType) | Unsubscribe (id : Z) | Cleanup.
Definition run_event (capacity : Z) (e : event) m : Manager :=
  match e with
  | PublishLogs l => manager_notify_logs capacity l m
  | LogsRound => new_logs_round 0 m
  | PublishBlock b => manager_notify_block capacity b m
  | HeadsRound i => new_heads_round i m
  | PublishTransaction t => manager_notify_transaction capacity t m
  | TxRound i => new_pending_tx_round i m
  | Subscribe ty => (subscribe ty m).2
  | Unsubscribe id => (unsubscribe id m).2
  | Cleanup => cleanup_closed_subscriptions m
  end.
Definition run_events (capacity : Z) (evs : list event) m : Manager := foldl (fun m e => run_event capacity e m) m evs.
Definition published (e : event) : list (list L) := match e with PublishLogs l => [l] | _ => [] end.
(** The handler reads soon enough: never more than [capacity] unread. *)
Fixpoint keeps_up (capacity : Z) (unread : nat) (evs : list event) : Prop :=
  match evs with
  | [] => True
  | PublishLogs _ :: evs => Z.of_nat (S unread) <= capacity /\ keeps_up capacity (S unread) evs
  | LogsRound :: evs => keeps_up capacity (pred unread) evs
  | _ :: evs => keeps_up capacity unread evs
  end.
Definition not_ended (id : Z) (e : event) : Prop := match e with Unsubscribe id' => id' <> id | _ => True end.

(** An open subscription to logs that was sent [l]. *)
Definition subscribed (id : Z) c (l : list SubscriptionNotification) m : Prop :=
  subscriptions m !! id = Some (mkSubscription id (Logs c) l false) /\ 0 <= id < next_id m /\ U256 (next_id m).
Definition selected_logs c (ls : list (list L)) : list (SubscriptionNotification (L := L)) :=
  LogNotification <$> filter (fun log => matches c log) (concat ls).
Lemma selected_app c k l : selected_logs c (k ++ l) = selected_logs c k ++ selected_logs c l.
Proof. unfold selected_logs. by rewrite concat_app, filter_app, fmap_app. Qed.
Lemma log_notifications_logs c l : log_notifications l (Logs c) = selected_logs c [l].
Proof.
  unfold log_notifications, selected_logs. f_equal. simpl. rewrite app_nil_r. apply list_filter_iff. intros x. by rewrite matchers_agree.
Qed.
Lemma deliver_subscribed id c l k m f chans1 chans2 chans3 : f (Logs c) = k -> subscribed id c l m ->
  subscribed id c (l ++ k) (mkSubscriptions (deliver f (subscriptions m)) (next_id m) chans1 chans2 chans3).
Proof. intros <- [Hs Hn]. split; [|done]. unfold deliver. simpl. by rewrite lookup_fmap, Hs. Qed.
Lemma subscribe_eq ty m : subscribe ty m =
  match u_add (next_id m) 1 with
  | Some n => (Ok (next_id m, ty), mkSubscriptions (<[next_id m := mkSubscription (next_id m) ty [] false]> (subscriptions m)) n
      (new_heads m) (new_pending_tx m) (new_logs m))
  | None => (Panic, m)
  end.
Proof. unfold subscribe, next_subscription_id, sbind, sget, slift. by destruct (u_add (next_id m) 1). Qed.
(** Events on other channels and other subscriptions change nothing for this
    one. *)
Lemma other_event capacity id c l m e : subscribed id c l m -> not_ended id e -> published e = [] -> e <> LogsRound ->
  subscribed id c l (run_event capacity e m) /\ new_logs (run_event capacity e m) = new_logs m.
Proof.
  intros Hs He Hp Hr. pose proof Hs as (Hl & Hn & Hu). destruct e; simpl in *; try done.
  - unfold new_heads_round. destruct (recv i _) as [[]]; (split; [|done]); [|done]. rewrite <- (app_nil_r l). by apply deliver_subscribed.
  - unfold new_pending_tx_round. destruct (recv i _) as [[]]; (split; [|done]); [|done]. rewrite <- (app_nil_r l). by apply deliver_subscribed.
  - rewrite subscribe_eq. destruct (u_add (next_id m) 1) as [n|] eqn:Hadd; [|done]. simpl.
    split; [|done]. split; simpl; [by rewrite lookup_insert_ne by lia|].
    rewrite add_law in Hadd by (done || unfold uint; lia). destruct (Z.ltb_spec (next_id m + 1) (2 ^ 256)); [|done].
    injection Hadd as <-. unfold uint in *. lia.
  - split; [|done]. split; simpl; [by rewrite lookup_delete_ne|done].
  - split; [|done]. split; simpl; [|done]. by apply map_lookup_filter_Some.
Qed.

(** as long as the log handler keeps up with the channel, a subscriber
    to logs is sent every published log that meets its criteria exactly once
    and in order, whatever else happens to the manager: what was sent followed
    by what is still unread is what was there before followed by the matching
    logs published since. *)
Theorem subscribers_get_every_log capacity id c l q m evs :
  subscribed id c l m -> new_logs m = [Some (mkReceiver q false)] -> Forall (not_ended id) evs ->
  keeps_up capacity (length q) evs ->
  exists l' q', subscribed id c l' (run_events capacity evs m) /\
    new_logs (run_events capacity evs m) = [Some (mkReceiver q' false)] /\
    l' ++ selected_logs c q' = l ++ selected_logs c (q ++ concat (map published evs)).
Proof.
  revert l q m. induction evs as [|e evs IH]; intros l q m Hs Hq He Hk.
  { exists l, q. simpl. by rewrite app_nil_r. }
  apply Forall_cons in He as [He Hes]. simpl run_events. cbn [map concat].
  assert (published e = [] -> e <> LogsRound -> keeps_up capacity (length q) evs -> exists l' q',
    subscribed id c l' (run_events capacity evs (run_event capacity e m)) /\
    new_logs (run_events capacity evs (run_event capacity e m)) = [Some (mkReceiver q' false)] /\
    l' ++ selected_logs c q' = l ++ selected_logs c (q ++ published e ++ concat (map published evs))) as Hother.
  { intros Hp Hr Hk'. destruct (other_event capacity id c l m e) as [Hs' Hq']; [done..|]. rewrite Hp. apply IH; [done|by rewrite Hq'|done|done]. }
  destruct e as [ls| | | | | | | |]; try (by apply Hother); clear Hother.
  - destruct Hk as [Hcap Hk]. destruct (IH l (q ++ [ls]) (manager_notify_logs capacity ls m)) as (l' & q' & H1' & H2' & H3').
    + by destruct Hs.
    + simpl. rewrite Hq. simpl. unfold push. simpl. rewrite (proj2 (Z.ltb_ge _ _)); [done|]. unfold len. rewrite length_app. simpl. lia.
    + done.
    + rewrite length_app, Nat.add_1_r. done.
    + exists l', q'. split_and!; [done..|]. by rewrite H3', <- app_assoc.
  - simpl run_event. unfold new_logs_round. rewrite Hq. simpl recv. destruct q as [|ls q]; simpl in Hk |- *.
    + by apply (IH l []).
    + destruct (IH (l ++ selected_logs c [ls]) q (mkSubscriptions (deliver (log_notifications ls) (subscriptions m)) (next_id m)
        (new_heads m) (new_pending_tx m) [Some (mkReceiver q false)])) as (l' & q' & H1' & H2' & H3'); [|done..|].
      * apply deliver_subscribed; [apply log_notifications_logs|done].
      * exists l', q'. split_and!; [done..|]. by rewrite H3', <- app_assoc, <- selected_app.
Qed.
(** Once the handler has lagged it ends, and no subscriber is sent a log any
    more. *)
Lemma lagged_handler_ends capacity id c l q m evs :
  subscribed id c l m -> new_logs m = [Some (mkReceiver q true)] -> Forall (not_ended id) evs ->
  subscribed id c l (run_events capacity (LogsRound :: evs) m).
Proof.
  intros Hs Hq He. simpl. assert (subscribed id c l (new_logs_round 0 m) /\ new_logs (new_logs_round 0 m) = [None]) as [Hs1 Hq1].
  { unfold new_logs_round. rewrite Hq. simpl. by destruct Hs. }
  clear Hs Hq. revert Hs1 Hq1. generalize (new_logs_round 0 m). clear m. induction He as [|e evs He _ IH]; intros m Hs Hq; [done|].
  simpl. assert (subscribed id c l (run_event capacity e m) /\ new_logs (run_event capacity e m) = [None]) as [? ?]; [|by apply IH].
  assert (published e = [] -> e <> LogsRound -> subscribed id c l (run_event capacity e m) /\ new_logs (run_event capacity e m) = [None]) as Hother.
  { intros ? ?. rewrite <- Hq. by apply other_event. }
  destruct e; try (by apply Hother); clear Hother; simpl.
  - rewrite Hq. by destruct Hs.
  - unfold new_logs_round. rewrite Hq. simpl. by destruct Hs.
Qed.
End subscriptions.

(** * The filter system *)

Section system.
Notation System := (FilterSystem (L := L) (B := B) (T := T)).
Implicit Types (s : System).

(** A new filter gets a number no filter has. *)
Definition numbered s : Prop := U256 (next_filter s) /\ forall id, is_Some (filters s !! id) -> id < next_filter s.
Lemma install_fresh k s : numbered s -> next_filter s + 1 < 2 ^ 256 ->
  install k s = (Ok (next_filter s), mkSystem (<[next_filter s := k]> (filters s)) (next_filter s + 1) (manager s)) /\
  filters s !! next_filter s = None /\ numbered (mkSystem (<[next_filter s := k]> (filters s)) (next_filter s + 1) (manager s)).
Proof.
  intros [Hu Hn] Hlt. split; [|split].
  - unfold install, next_filter_id, sbind, sget, slift. rewrite add_law by (done || unfold uint; lia).
    by rewrite (proj2 (Z.ltb_lt _ _)) by done.
  - destruct (filters s !! next_filter s) eqn:Hs; [|done]. assert (next_filter s < next_filter s); [|lia]. by apply Hn.
  - split; simpl; [unfold uint in *; lia|]. intros id Hid. destruct (decide (id = next_filter s)) as [-> |]; [lia|].
    rewrite lookup_insert_ne in Hid by done. specialize (Hn id Hid). lia.
Qed.
(** With a clock that has not gone back, the cleanup keeps exactly the filters
    younger than five minutes. *)
Lemma retain_fresh_ok {E} now (l : list (Z * FilterKind (L := L))) :
  Forall (fun p : Z * FilterKind (L := L) => 0 <= kind_created_at p.2 <= now) l -> now < 2 ^ 64 ->
  retain_fresh (E := E) now l = Ok (filter (fun p : Z * FilterKind (L := L) => now - kind_created_at p.2 < FILTER_TIMEOUT) l).
Proof.
  intros Hl Hn. induction Hl as [|[id k] l Hk _ IH]; [done|]. cbn [retain_fresh]. simpl in Hk. unfold usub.
  rewrite checked_arith_ok by (unfold uint; lia). cbn [obind]. rewrite IH. cbn [obind]. rewrite filter_cons. simpl.
  destruct (Z.ltb_spec (now - kind_created_at k) FILTER_TIMEOUT); destruct (decide _); done || lia.
Qed.
Lemma cleanup_keeps_fresh now s : now < 2 ^ 64 -> (forall id k, filters s !! id = Some k -> 0 <= kind_created_at k <= now) ->
  exists s', cleanup_expired_filters now s = (Ok tt, s') /\ next_filter s' = next_filter s /\ manager s' = manager s /\
    forall id k, filters s' !! id = Some k <-> filters s !! id = Some k /\ now - kind_created_at k < FILTER_TIMEOUT.
Proof.
  intros Hn Hk. unfold cleanup_expired_filters. rewrite sbind_get, retain_fresh_ok; [|apply Forall_forall|done].
  2:{ intros [id k] Hin%elem_of_map_to_list. by apply (Hk id). }
  rewrite sbind_lift. eexists. split_and!; [done..|]. intros id k. cbn [smodify snd set_filters filters].
  rewrite <- elem_of_list_to_map, list_elem_of_filter, elem_of_map_to_list; [tauto|].
  apply (sublist_NoDup _ (map_to_list (filters s)).*1); [apply NoDup_fst_map_to_list|apply fmap_sublist, sublist_filter].
Qed.
End system.
End filter.

(** * A chain of three blocks with one log each *)

(** The log of block [n] is its number, emitted by the address [[n mod 2]];
    block and receipts are stored under the number. *)
#[local] Existing Instance dev_profile.
#[local] Instance toy_types : FilterTypes (L := Z * Z) (B := Z) (T := unit) := {|
  log_address log := [log.1 mod 2]; log_topics _ := []; with_position p _ _ log := (log.1, p.2);
  block_bloom n := foldl add_to_bloom Bloom.new [[n mod 2]]; block_hash n := [n]; block_number n := n;
  block_transactions _ := [tt]; tx_hash _ := []; show_number n := [n]; hex_encode l := l;
  deserialize_block := head; deserialize_receipts l := (fun n => [[(n, 0)]]) <$> head l |}.
#[local] Instance toy_header : HeaderFields (B := Z) := {|
  parent_hash _ := []; uncles_hash _ := []; author _ := []; state_root _ := []; transactions_root _ := []; receipts_root _ := [];
  gas_used _ := 0; gas_limit _ := 0; extra_data _ := []; timestamp _ := 0; difficulty _ := 0; mix_hash _ := []; nonce _ := 0 |}.
Definition toy_entries (n : Z) : list (list Z * list Z) :=
  [(text "block:number:" ++ [n], [n]); (text "block:" ++ [n], [n]); (text "receipts:" ++ [n], [n])].
Definition toy_db (n : Z) : MemoryDatabase :=
  mkMemoryDatabase ((text "latest_block", to_be 32 n) :: concat (map toy_entries (seqZ 0 (n + 1)))).
Definition toy_chain (n : Z) : Z * list (list (Z * Z)) := (n, [[(n, 0)]]).
Definition odd : FilterCriteria := mkCriteria None None (Some [[1]]) [].

Lemma toy_serves k : 0 <= k <= 3 -> serves (toy_db k) toy_chain 0 k.
Proof.
  intros Hk n Hn. assert (k = 0 \/ k = 1 \/ k = 2 \/ k = 3) as Hk' by lia. assert (n = 0 \/ n = 1 \/ n = 2 \/ n = 3) as Hn' by lia.
  destruct Hk' as [-> |[-> |[-> | ->]]], Hn' as [-> |[-> |[-> | ->]]]; try lia; vm_compute; auto.
Qed.
Lemma get_logs_complete_witness :
  get_logs (toy_db 3) (mkCriteria (Some (Number 1)) None (Some [[1]]) []) = Ok [(1, 1); (3, 3)].
Proof.
  destruct (get_logs_complete (toy_db 3) (mkCriteria (Some (Number 1)) None (Some [[1]]) []) toy_chain 1 3) as (_ & _ & _ & Hall); [done|done|done|done| |].
  - intros n Hn. apply toy_serves; lia.
  - rewrite Hall; [reflexivity|]. intros n Hn. exists [[n mod 2]]. split; [done|].
    intros logs log ->%list_elem_of_singleton ->%list_elem_of_singleton. by left.
Defined.
(** The same chain with zero bloom filters in its headers: the logs of the
    address are not found. *)
Definition zero_types : FilterTypes (L := Z * Z) (B := Z) (T := unit) := {|
  log_address log := [log.1 mod 2]; log_topics _ := []; with_position p _ _ log := (log.1, p.2);
  block_bloom n := Bloom.new; block_hash n := [n]; block_number n := n;
  block_transactions _ := [tt]; tx_hash _ := []; show_number n := [n]; hex_encode l := l;
  deserialize_block := head; deserialize_receipts l := (fun n => [[(n, 0)]]) <$> head l |}.
Example zero_bloom_hides_logs :
  let c := mkCriteria (Some (Number 1)) None (Some [[1]]) [] in
  get_logs (H3 := zero_types) (toy_db 3) c = Ok [] /\ matches (H3 := zero_types) c (1, 1) = true.
Proof. by vm_compute. Qed.
(** The same range with an empty list of addresses, which selects every log. *)
Example empty_addresses_find_nothing :
  get_logs (toy_db 3) (mkCriteria (Some (Number 1)) None (Some []) []) = Ok [] /\
  matches (L := Z * Z) (mkCriteria (Some (Number 1)) None (Some []) []) (1, 1) = true /\
  get_logs (toy_db 3) (mkCriteria (Some (Number 1)) None None []) = Ok [(1, 1); (2, 2); (3, 3)].
Proof. by vm_compute. Qed.
Lemma polls_deliver_exactly_once_witness : exists out f,
  observe [Some (toy_db 1); None; Some (toy_db 3); Some (toy_db 3); None] [] (log_filter_new odd 0) = (Ok out, f) /\
  out ++ pending_logs f = chain_logs odd toy_chain (seqZ 1 (log_last_poll f)).
Proof.
  destruct (polls_deliver_exactly_once odd toy_chain 0 [Some (toy_db 1); None; Some (toy_db 3); Some (toy_db 3); None]) as (out & f & H1 & H2 & _); [|by exists out, f].
  assert (forall k, 0 <= k <= 3 -> get_latest_block_number (toy_db k) = Ok k -> fully_served toy_chain (toy_db k)) as Hk.
  { intros k Hk Hl. exists k. split_and!; [done|lia|lia|]. intros n Hn. apply toy_serves; lia. }
  repeat constructor; apply Hk; lia || done.
Defined.
(** A poll that fails half-way keeps what it found but not how far it came:
    the logs are found again. *)
Definition torn_db : MemoryDatabase :=
  mkMemoryDatabase ((text "latest_block", to_be 32 3) :: concat (map toy_entries (seqZ 0 3))).
Example failed_poll_repeats_logs :
  let p := log_poll_for_changes torn_db (log_filter_new odd 0) in
  let p' := log_poll_for_changes (toy_db 3) p.2 in
  p.1 = Err InvalidCriteria /\ p'.1 = Ok tt /\ pending_logs p'.2 = [(1, 1); (1, 1); (3, 3)].
Proof. vm_compute. auto. Qed.
(** A topic is added to a bloom filter under its hash and looked up under
    itself. *)
Example added_topic_not_found : contains_topic (add_to_bloom Bloom.new (1 :: replicate 31 0)) (1 :: replicate 31 0) = false.
Proof. by vm_compute. Qed.

Definition toy_manager : SubscriptionManager (L := Z * Z) (B := Z) (T := unit) := (subscribe (Logs odd) (start subscriptions_new)).2.
Lemma subscribers_get_every_log_witness : exists l' q',
  subscribed 1 odd l' (run_events 100 [PublishLogs [(1, 0); (2, 0)]; HeadsRound 0; LogsRound; PublishLogs [(3, 0)]; Subscribe NewHeads] toy_manager) /\
  l' ++ selected_logs odd q' = [LogNotification (1, 0); LogNotification (3, 0)].
Proof.
  destruct (subscribers_get_every_log 100 1 odd [] [] toy_manager [PublishLogs [(1, 0); (2, 0)]; HeadsRound 0; LogsRound; PublishLogs [(3, 0)]; Subscribe NewHeads])
    as (l' & q' & H1 & _ & H2); [done|done|by repeat constructor|done|]. exists l', q'. split; [done|]. rewrite H2. by vm_compute.
Defined.

End FilterProofs.
