(* ===== verification/Verification.v ===== *)
(** Block verification: crates/verification (header.rs, transaction.rs,
    block.rs, state.rs, lib.rs).  The records hold the fields of headers,
    transactions, blocks and accounts the crate reads; the hash of a header,
    the serialised forms, the consensus engine and the execution of
    transactions are parameters, the database, the trie and the signatures the
    ones of the other files. *)
From stdpp Require Import base list numbers option strings gmap.
From Stdlib Require Import ZArith Lia.
From S2P Require Import Prelude U256 Precompiled Crypto Rlp Storage Trie.

Module Verification.

(** [format!]: a text with the numbers printed into it. *)
Inductive part := Txt (s : string) | Num (z : Z).
Notation Message := (list part).
Inductive VerificationError :=
| InvalidBlock (m : Message) | InvalidTransaction (m : Message) | InvalidHeader (m : Message) | InvalidState (m : Message)
| ParentNotFound | StateRootMismatch | GasLimitExceeded | ConsensusError (s : string) | StorageErr (e : StorageError).
Notation R A := (outcome VerificationError A).

Record VHeader := mkHeader {
  number : Z; parent_hash : list Z; timestamp : Z; gas_limit : Z; gas_used : Z; extra_data : list Z; author : list Z;
  transactions_root : list Z; uncles_hash : list Z; state_root : list Z; receipts_root : list Z; difficulty : Z;
}.
Record VTransaction := mkTransaction {
  transaction_type : Z; nonce : Z; gas_price : option Z; max_fee_per_gas : option Z; max_priority_fee_per_gas : option Z;
  tx_gas_limit : Z; to : option (list Z); value : Z; input : list Z; chain_id : option Z;
  access_list : option (list (list Z)); signature : Signature;
}.
Record VBlock := mkBlock { header : VHeader; transactions : list VTransaction; uncles : list VHeader }.

(** [if cond { return Err(e) }] *)
Definition reject_if (cond : bool) (e : VerificationError) : R unit := if cond then Err e else Ok tt.
(** [?] on the storage. *)
Definition stored {A} (r : outcome StorageError A) : R A :=
  match r with Ok v => Ok v | Err e => Err (StorageErr e) | Panic => Panic | Diverge => Diverge end.
(** [map_err] with a fixed message. *)
Definition or_state {E A} (msg : string) (r : outcome E A) : R A :=
  match r with Ok v => Ok v | Err _ => Err (InvalidState [Txt msg]) | Panic => Panic | Diverge => Diverge end.

Section verification.
Context `{Profile} `{U256Ops} `{KeccakOps} `{CryptoOps} {D : Type} `{Database D}.

(** The hash of a header, its text form and serialised form, the form of
    [U256] in little endian, the validity check of signatures and the size of
    serialised blocks and transactions. *)
Class VerifierOps := {
  header_hash : VHeader -> list Z;
  header_key : list Z -> list Z;
  deserialize_header : list Z -> option VHeader;
  u_to_le_bytes : Z -> list Z;
  sig_is_valid : Signature -> bool;
  transaction_hash : VTransaction -> list Z;
  block_size : VBlock -> option Z;
  transaction_size : VTransaction -> option Z;
}.
Context `{!VerifierOps}.

(** * header.rs *)

Definition verify_basic_constraints (h : VHeader) : R unit :=
  let? _ := reject_if (gas_limit h <? gas_used h)
    (InvalidHeader [Txt "Gas used "; Num (gas_used h); Txt " exceeds gas limit "; Num (gas_limit h)]) in
  reject_if (number h =? U256_MAX) (InvalidHeader [Txt "Block number overflow"]).
Definition verify_parent_exists (d : D) (h : VHeader) : R unit :=
  let? r := stored (Storage.get (header_key (parent_hash h)) d) in
  reject_if (bool_decide (r = None)) ParentNotFound.
Definition get_parent_header (d : D) (h : VHeader) : R VHeader :=
  let? r := stored (Storage.get (header_key (parent_hash h)) d) in
  match r with
  | None => Err ParentNotFound
  | Some data =>
      match deserialize_header data with
      | Some parent => Ok parent
      | None => Err (InvalidHeader [Txt "Failed to deserialize parent header"])
      end
  end.
Definition verify_gas_limit_adjustment (h parent : VHeader) : R unit :=
  let? parent_gas := unwrap (u_as_u64 (gas_limit parent)) in
  let adjustment_limit := parent_gas / 1024 in
  let? current_gas := unwrap (u_as_u64 (gas_limit h)) in
  if parent_gas <? current_gas then
    reject_if (adjustment_limit <? current_gas - parent_gas)
      (InvalidHeader [Txt "Gas limit increase too large: "; Num (current_gas - parent_gas); Txt " > "; Num adjustment_limit])
  else
    reject_if (adjustment_limit <? parent_gas - current_gas)
      (InvalidHeader [Txt "Gas limit decrease too large: "; Num (parent_gas - current_gas); Txt " > "; Num adjustment_limit]).
Definition verify_against_parent (d : D) (h : VHeader) : R unit :=
  let? parent := get_parent_header d h in
  let? next := unwrap (u_add (number parent) 1) in
  let? _ := reject_if (negb (number h =? next))
    (InvalidHeader [Txt "Invalid block number: expected "; Num next; Txt ", got "; Num (number h)]) in
  let? _ := reject_if (timestamp h <=? timestamp parent) (InvalidHeader [Txt "Timestamp not greater than parent"]) in
  verify_gas_limit_adjustment h parent.
Definition MAX_FUTURE_TIME : Z := 900.
(** [now] is the clock in seconds. *)
Definition verify_timestamp (now : Z) (h : VHeader) : R unit :=
  let? _ := reject_if (timestamp h =? 0) (InvalidHeader [Txt "Timestamp cannot be zero"]) in
  let? limit := uadd 64 now MAX_FUTURE_TIME in
  reject_if (limit <? timestamp h) (InvalidHeader [Txt "Timestamp too far in future: "; Num (timestamp h); Txt " > "; Num limit]).
Definition MIN_GAS_LIMIT : Z := 5000.
Definition MAX_GAS_LIMIT : Z := 0x7fffffffffffffff.
Definition verify_gas_limit (h : VHeader) : R unit :=
  let? _ := reject_if (gas_limit h <? MIN_GAS_LIMIT)
    (InvalidHeader [Txt "Gas limit too low: "; Num (gas_limit h); Txt " < "; Num MIN_GAS_LIMIT]) in
  reject_if (MAX_GAS_LIMIT <? gas_limit h)
    (InvalidHeader [Txt "Gas limit too high: "; Num (gas_limit h); Txt " > "; Num MAX_GAS_LIMIT]).
Definition MAX_EXTRA_DATA_SIZE : Z := 32.
Definition extra_size (h : VHeader) : Z := if 65 <? len (extra_data h) then len (extra_data h) - 65 else len (extra_data h).
Definition verify_extra_data (h : VHeader) : R unit :=
  reject_if (MAX_EXTRA_DATA_SIZE <? extra_size h)
    (InvalidHeader [Txt "Extra data too large: "; Num (extra_size h); Txt " > "; Num MAX_EXTRA_DATA_SIZE]).
Definition verify_header (d : D) (now : Z) (h : VHeader) : R unit :=
  let? _ := verify_basic_constraints h in
  let? _ := (if 0 <? number h then
               let? _ := verify_parent_exists d h in verify_against_parent d h
             else Ok tt) in
  let? _ := verify_timestamp now h in
  let? _ := verify_gas_limit h in
  verify_extra_data h.
(** The headers after the first, [prev] being the one before. *)
Fixpoint verify_rest (d : D) (now : Z) (prev : VHeader) (headers : list VHeader) : R unit :=
  match headers with
  | [] => Ok tt
  | h :: headers =>
      let? _ := verify_header d now h in
      let? _ := reject_if (negb (bool_decide (parent_hash h = header_hash prev)))
        (InvalidHeader [Txt "Headers do not form a chain"]) in
      verify_rest d now h headers
  end.
Definition verify_chain (d : D) (now : Z) (headers : list VHeader) : R unit :=
  match headers with
  | [] => Ok tt
  | h :: headers => let? _ := verify_header d now h in verify_rest d now h headers
  end.

(** * transaction.rs *)

Definition optional_le (o : option Z) : list Z := match o with Some x => u_to_le_bytes x | None => [] end.
(** The nonce and the chain id are [u64]s. *)
Definition le64 (z : Z) : list Z := rev (to_be 8 z).
Definition signing_data (tx : VTransaction) : list Z :=
  le64 (nonce tx) ++
  (match gas_price tx with
   | Some p => u_to_le_bytes p
   | None => match max_fee_per_gas tx with
             | Some f => u_to_le_bytes f ++ optional_le (max_priority_fee_per_gas tx)
             | None => []
             end
   end) ++
  u_to_le_bytes (tx_gas_limit tx) ++ default [] (to tx) ++ u_to_le_bytes (value tx) ++ input tx ++
  (match chain_id tx with Some c => le64 c | None => [] end).
Definition signing_hash (tx : VTransaction) : list Z := keccak256 (signing_data tx).
Definition recover_sender (tx : VTransaction) : R (list Z) :=
  match recover_address (signing_hash tx) (signature tx) with
  | Ok a => Ok a
  | Err _ => Err (InvalidTransaction [Txt "Failed to recover sender"])
  | Panic => Panic
  | Diverge => Diverge
  end.
Definition verify_signature (tx : VTransaction) : R unit :=
  let? _ := reject_if (negb (sig_is_valid (signature tx))) (InvalidTransaction [Txt "Invalid signature"]) in
  let? sender := recover_sender tx in
  reject_if (bool_decide (sender = replicate 20 0)) (InvalidTransaction [Txt "Sender is zero address"]).
Definition verify_chain_id (chain : Z) (tx : VTransaction) : R unit :=
  if transaction_type tx =? 0 then Ok tt
  else match chain_id tx with
       | Some c => reject_if (negb (c =? chain))
           (InvalidTransaction [Txt "Wrong chain ID: expected "; Num chain; Txt ", got "; Num c])
       | None => reject_if (0 <? transaction_type tx) (InvalidTransaction [Txt "Missing chain ID for typed transaction"])
       end.
Definition MIN_GAS : Z := 21000.
Definition MAX_GAS : Z := 30000000.
Definition verify_gas_parameters (tx : VTransaction) : R unit :=
  let? _ := reject_if (tx_gas_limit tx <? MIN_GAS)
    (InvalidTransaction [Txt "Gas limit too low: "; Num (tx_gas_limit tx); Txt " < "; Num MIN_GAS]) in
  let? _ := reject_if (MAX_GAS <? tx_gas_limit tx)
    (InvalidTransaction [Txt "Gas limit too high: "; Num (tx_gas_limit tx); Txt " > "; Num MAX_GAS]) in
  if (transaction_type tx =? 0) || (transaction_type tx =? 1) then
    reject_if (bool_decide (gas_price tx = None) || bool_decide (gas_price tx = Some 0))
      (InvalidTransaction [Txt "Gas price cannot be zero"])
  else if transaction_type tx =? 2 then
    match max_fee_per_gas tx, max_priority_fee_per_gas tx with
    | Some max_fee, Some priority_fee =>
        reject_if (max_fee <? priority_fee) (InvalidTransaction [Txt "Max fee less than priority fee"])
    | _, _ => Err (InvalidTransaction [Txt "Missing EIP-1559 gas parameters"])
    end
  else Err (InvalidTransaction [Txt "Unknown transaction type: "; Num (transaction_type tx)]).
Definition verify_transaction_type (tx : VTransaction) : R unit :=
  let? _ := reject_if (2 <? transaction_type tx)
    (InvalidTransaction [Txt "Unsupported transaction type: "; Num (transaction_type tx)]) in
  reject_if ((1 <=? transaction_type tx) && bool_decide (access_list tx = None))
    (InvalidTransaction [Txt "Missing access list for typed transaction"]).
Definition MAX_NONCE : Z := (2 ^ 64 - 1) / 2.
Definition verify_tx_nonce (tx : VTransaction) : R unit :=
  reject_if (MAX_NONCE <? nonce tx) (InvalidTransaction [Txt "Nonce too high: "; Num (nonce tx); Txt " > "; Num MAX_NONCE]).
Definition verify_transaction (chain : Z) (tx : VTransaction) : R unit :=
  let? _ := verify_signature tx in
  let? _ := verify_chain_id chain tx in
  let? _ := verify_gas_parameters tx in
  let? _ := verify_transaction_type tx in
  verify_tx_nonce tx.
Definition MAX_TX_SIZE : Z := 128 * 1024.
Definition verify_for_mempool (chain : Z) (tx : VTransaction) : R unit :=
  let? _ := verify_transaction chain tx in
  match transaction_size tx with
  | None => Err (InvalidTransaction [Txt "Failed to serialize"])
  | Some size => reject_if (MAX_TX_SIZE <? size)
      (InvalidTransaction [Txt "Transaction too large: "; Num size; Txt " > "; Num MAX_TX_SIZE])
  end.

(** * block.rs *)

Definition EMPTY_ROOT : list Z :=
  [0x56; 0xe8; 0x1f; 0x17; 0x1b; 0xcc; 0x55; 0xa6; 0xff; 0x83; 0x45; 0xe6; 0x92; 0xc0; 0xf8; 0x6e;
   0x5b; 0x48; 0xe0; 0x1b; 0x99; 0x6c; 0xad; 0xc0; 0x01; 0x62; 0x2f; 0xb5; 0xe3; 0x63; 0xb4; 0x21].
Definition EMPTY_UNCLES : list Z :=
  [0x1d; 0xcc; 0x4d; 0xe8; 0xde; 0xc7; 0x5d; 0x7a; 0xab; 0x85; 0xb5; 0x67; 0xb6; 0xcc; 0xd4; 0x1a;
   0xd3; 0x12; 0x45; 0x1b; 0x94; 0x8a; 0x74; 0x13; 0xf0; 0xa1; 0x42; 0xfd; 0x40; 0xd4; 0x93; 0x47].
Definition compute_transaction_root (txs : list VTransaction) : list Z :=
  match txs with [] => EMPTY_ROOT | _ => keccak256 (concat (map transaction_hash txs)) end.
Definition compute_uncles_hash (l : list VHeader) : list Z :=
  match l with [] => EMPTY_UNCLES | _ => keccak256 (concat (map header_hash l)) end.
Definition MAX_BLOCK_SIZE : Z := 1000000.
Definition MAX_UNCLES : Z := 2.
Definition verify_structure (b : VBlock) : R unit :=
  let? _ := reject_if (negb (bool_decide (compute_transaction_root (transactions b) = transactions_root (header b))))
    (InvalidBlock [Txt "Transaction root mismatch"]) in
  let? _ := reject_if (negb (bool_decide (compute_uncles_hash (uncles b) = uncles_hash (header b))))
    (InvalidBlock [Txt "Uncles hash mismatch"]) in
  match block_size b with
  | None => Err (InvalidBlock [Txt "Failed to serialize block"])
  | Some size =>
      let? _ := reject_if (MAX_BLOCK_SIZE <? size)
        (InvalidBlock [Txt "Block size "; Num size; Txt " exceeds limit "; Num MAX_BLOCK_SIZE]) in
      reject_if (MAX_UNCLES <? len (uncles b))
        (InvalidBlock [Txt "Too many uncles: "; Num (len (uncles b)); Txt " > "; Num MAX_UNCLES])
  end.
(** The walk from [current] towards the first block. *)
Fixpoint ancestor_loop (fuel : nat) (d : D) (ancestor_hash current : list Z) : R bool :=
  match fuel with
  | O => Diverge
  | S fuel =>
      if bool_decide (current = replicate 32 0) then Ok false
      else if bool_decide (current = ancestor_hash) then Ok true
      else
        let? r := stored (Storage.get (header_key current) d) in
        match r with
        | None => Ok false
        | Some data =>
            match deserialize_header data with
            | None => Err (InvalidHeader [Txt "Failed to deserialize"])
            | Some h => ancestor_loop fuel d ancestor_hash (parent_hash h)
            end
        end
  end.
Definition is_ancestor (fuel : nat) (d : D) (potential_ancestor descendant : VHeader) : R bool :=
  ancestor_loop fuel d (header_hash potential_ancestor) (parent_hash descendant).
Definition MAX_UNCLE_DEPTH : Z := 7.
Definition verify_uncle (fuel : nat) (d : D) (parent uncle : VHeader) : R unit :=
  let? _ := reject_if (number parent <=? number uncle) (InvalidBlock [Txt "Uncle number >= parent number"]) in
  let? p := unwrap (u_as_u64 (number parent)) in
  let? u := unwrap (u_as_u64 (number uncle)) in
  let? depth := usub 64 p u in
  let? _ := reject_if (MAX_UNCLE_DEPTH <? depth) (InvalidBlock [Txt "Uncle too old: depth > "; Num MAX_UNCLE_DEPTH]) in
  let? anc := is_ancestor fuel d uncle parent in
  reject_if anc (InvalidBlock [Txt "Uncle is direct ancestor"]).
Fixpoint each {A} (f : A -> R unit) (l : list A) : R unit :=
  match l with [] => Ok tt | x :: l => let? _ := f x in each f l end.
Fixpoint no_duplicates (seen : list (list Z)) (l : list VHeader) : R unit :=
  match l with
  | [] => Ok tt
  | h :: l =>
      let? _ := reject_if (bool_decide (header_hash h ∈ seen)) (InvalidBlock [Txt "Duplicate uncle"]) in
      no_duplicates (seen ++ [header_hash h]) l
  end.
Definition verify_uncles (fuel : nat) (d : D) (b : VBlock) : R unit :=
  let? _ := each (verify_uncle fuel d (header b)) (uncles b) in
  no_duplicates [] (uncles b).
(** * state.rs *)

Section state.
Context {X : Type} `{EqDecision X}.
(** An account: the balance and nonce the crate changes, and the rest. *)
Record Account := mkAccount { balance : Z; acc_nonce : Z; acc_rest : X }.
#[global] Instance account_eq_dec : EqDecision Account.
Proof. solve_decision. Defined.
Context (default_rest : X).
Definition account_default : Account := mkAccount 0 0 default_rest.
Notation Accounts := (gmap (list Z) Account).

(** The trie a state root is compared with; [serialize] is the form of an
    account, [order] the accounts in the order of the hash map. *)
Section tries.
Import Trie.Trie.
Context `{RlpLists} (fuel : nat) (serialize : Account -> option (list Z)).
Fixpoint insert_accounts (l : list (list Z * Account)) : SM (PatriciaTrie D) VerificationError unit :=
  match l with
  | [] => sret tt
  | (a, x) :: l =>
      match serialize x with
      | None => sfail (InvalidState [Txt "Failed to serialize account"])
      | Some v => fun t =>
          let '(r, t) := trie_insert fuel a v t in
          (slift (or_state "Failed to insert account" r) ;;! insert_accounts l) t
      end
  end.
Definition verify_state_root (d : D) (root : list Z) (order : list (list Z * Account)) : R unit :=
  match insert_accounts order (trie_new d) with
  | (Ok _, t) =>
      let? computed := or_state "Failed to commit trie" (commit t).1 in
      reject_if (negb (bool_decide (computed = root))) StateRootMismatch
  | (Err e, _) => Err e
  | (Panic, _) => Panic
  | (Diverge, _) => Diverge
  end.
Definition verify_account_proof (root address : list Z) (x : Account) (p : MerkleProof) : R unit :=
  match serialize x with
  | None => Err (InvalidState [Txt "Failed to serialize account"])
  | Some v =>
      let? valid := or_state "Failed to verify proof" (Trie.verify fuel p root address (Some v)) in
      reject_if (negb valid) (InvalidState [Txt "Invalid account proof"])
  end.
Definition verify_storage_proof (root key val : list Z) (p : MerkleProof) : R unit :=
  let? valid := or_state "Failed to verify storage proof" (Trie.verify fuel p root key (Some val)) in
  reject_if (negb valid) (InvalidState [Txt "Invalid storage proof"]).
End tries.

(** The sender of every transaction. *)
Definition state_recover_sender (tx : VTransaction) : R (list Z) := Ok (replicate 20 1).
Definition or_default (a : list Z) (st : Accounts) : Account := default account_default (st !! a).
Definition add_balance (a : list Z) (v : Z) (st : Accounts) : R Accounts :=
  let acc := or_default a st in
  let? b := unwrap (u_add (balance acc) v) in
  Ok (<[a := mkAccount b (acc_nonce acc) (acc_rest acc)]> st).
Definition apply_transaction (st : Accounts) (tx : VTransaction) : R Accounts :=
  let? sender := state_recover_sender tx in
  match st !! sender with
  | None => Err (InvalidState [Txt "Sender account not found"])
  | Some acc =>
      let? gas_cost := unwrap (u_mul (tx_gas_limit tx) (default 0 (gas_price tx))) in
      let? cost := unwrap (u_add gas_cost (value tx)) in
      let? _ := reject_if (balance acc <? cost) (InvalidState [Txt "Insufficient balance"]) in
      let? b := unwrap (u_sub (balance acc) gas_cost) in
      let? b := unwrap (u_sub b (value tx)) in
      let? n := uadd 64 (acc_nonce acc) 1 in
      let st := <[sender := mkAccount b n (acc_rest acc)]> st in
      match to tx with
      | Some a => add_balance a (value tx) st
      | None => Ok st
      end
  end.
Definition BASE_REWARD : Z := 2000000000000000000.
Fixpoint uncle_rewards (st : Accounts) (l : list VHeader) : R Accounts :=
  match l with
  | [] => Ok st
  | u :: l =>
      let? reward := unwrap (u_div BASE_REWARD 8) in
      let? st := add_balance (author u) reward st in
      uncle_rewards st l
  end.
Definition apply_block_rewards (st : Accounts) (b : VBlock) : R Accounts :=
  let? st := add_balance (author (header b)) BASE_REWARD st in
  uncle_rewards st (uncles b).
Fixpoint apply_transactions (st : Accounts) (l : list VTransaction) : R Accounts :=
  match l with
  | [] => Ok st
  | tx :: l => let? st := apply_transaction st tx in apply_transactions st l
  end.
Definition verify_state_transition (pre post : Accounts) (b : VBlock) : R unit :=
  let? st := apply_transactions pre (transactions b) in
  let? st := apply_block_rewards st b in
  reject_if (negb (bool_decide (st = post))) (InvalidState [Txt "State transition mismatch"]).
Definition verify_balance (x : Account) (expected : Z) : R unit :=
  reject_if (negb (balance x =? expected)) (InvalidState [Txt "Balance mismatch: "; Num (balance x); Txt " != "; Num expected]).
Definition verify_account_nonce (x : Account) (expected : Z) : R unit :=
  reject_if (negb (acc_nonce x =? expected)) (InvalidState [Txt "Nonce mismatch: "; Num (acc_nonce x); Txt " != "; Num expected]).
End state.

(** * lib.rs *)

Record VerificationConfig := mkConfig {
  max_block_gas : Z; min_gas_price : Z; config_chain_id : Z; validate_state_root : bool; validate_receipts_root : bool;
}.
Definition verification_config_default : VerificationConfig := mkConfig 30000000 1000000000 1 true true.
(** What the EVM returns of a transaction, and the receipt made of it. *)
Record ExecutionResult := mkResult {
  success : bool; result_gas_used : Z; result_logs_bloom : list Z; result_logs : list (list Z); result_contract : option (list Z);
}.
Record Receipt := mkReceipt {
  status : Z; cumulative_gas_used : Z; logs_bloom : list Z; logs : list (list Z); receipt_gas_used : Z; contract_address : option (list Z);
}.
Record EvmContext := mkContext {
  ctx_block_number : Z; ctx_timestamp : Z; ctx_gas_limit : Z; ctx_coinbase : list Z; ctx_difficulty : Z; ctx_chain_id : Z;
}.

(** The consensus engine, the EVM, the state trie [S] and the serialised
    receipts. *)
Class Execution (S : Type) := {
  validate_block : VBlock -> unit + string;
  open_state : list Z -> R S;
  execute : VTransaction -> EvmContext -> S -> (ExecutionResult + Message) * S;
  block_reward : Z -> Z;
  coinbase_balance : list Z -> S -> R Z;
  set_coinbase_balance : list Z -> Z -> S -> R S;
  commit_state : S -> R (list Z);
  serialize_receipt : Receipt -> list Z;
}.
Section engine.
Context {S : Type} `{!Execution S}.
Definition get_parent_state_root (d : D) (h : VHeader) : R (list Z) :=
  if number h =? 0 then Ok (replicate 32 0)
  else
    let? r := stored (Storage.get (header_key (parent_hash h)) d) in
    match r with
    | None => Err ParentNotFound
    | Some data =>
        match deserialize_header data with
        | None => Err (InvalidHeader [Txt "Failed to deserialize parent"])
        | Some parent => Ok (state_root parent)
        end
    end.
Definition compute_receipts_root (l : list Receipt) : list Z :=
  match l with [] => EMPTY_ROOT | _ => keccak256 (concat (map (fun r => keccak256 (serialize_receipt r)) l)) end.
Definition execute_transaction (c : VerificationConfig) (h : VHeader) (cumulative : Z) (tx : VTransaction) (st : S) : R (Receipt * S) :=
  match execute tx (mkContext (number h) (timestamp h) (gas_limit h) (author h) (difficulty h) (config_chain_id c)) st with
  | (inr e, _) => Err (InvalidTransaction e)
  | (inl r, st) =>
      let? total := unwrap (u_add cumulative (result_gas_used r)) in
      Ok (mkReceipt (if success r then 1 else 0) total (result_logs_bloom r) (result_logs r) (result_gas_used r) (result_contract r), st)
  end.
Fixpoint execute_all (c : VerificationConfig) (h : VHeader) (cumulative : Z) (receipts : list Receipt) (l : list VTransaction) (st : S) :
    R (Z * list Receipt * S) :=
  match l with
  | [] => Ok (cumulative, receipts, st)
  | tx :: l =>
      let? p := execute_transaction c h cumulative tx st in
      let? total := unwrap (u_add cumulative (receipt_gas_used p.1)) in
      execute_all c h total (receipts ++ [p.1]) l p.2
  end.
Definition apply_engine_rewards (h : VHeader) (st : S) : R S :=
  let? b := coinbase_balance (author h) st in
  let? b := unwrap (u_add b (block_reward (number h))) in
  set_coinbase_balance (author h) b st.
Definition verify_execution (c : VerificationConfig) (d : D) (b : VBlock) : R unit :=
  let? root := get_parent_state_root d (header b) in
  let? st := open_state root in
  let? p := execute_all c (header b) 0 [] (transactions b) st in
  let '(total, receipts, st) := p in
  let? st := apply_engine_rewards (header b) st in
  let? computed := commit_state st in
  let? _ := reject_if (negb (bool_decide (computed = state_root (header b)))) StateRootMismatch in
  let? _ := (if validate_receipts_root c then
               reject_if (negb (bool_decide (compute_receipts_root receipts = receipts_root (header b))))
                 (InvalidBlock [Txt "Receipts root mismatch"])
             else Ok tt) in
  reject_if (negb (total =? gas_used (header b)))
    (InvalidBlock [Txt "Gas used mismatch: expected "; Num (gas_used (header b)); Txt ", got "; Num total]).
Definition verify_block (c : VerificationConfig) (d : D) (now : Z) (b : VBlock) : R unit :=
  let? _ := verify_header d now (header b) in
  let? _ := (match validate_block b with inl _ => Ok tt | inr e => Err (ConsensusError e) end) in
  let? _ := each (verify_transaction (config_chain_id c)) (transactions b) in
  let? _ := verify_structure b in
  if validate_state_root c then verify_execution c d b else Ok tt.
Fixpoint verify_blocks (c : VerificationConfig) (d : D) (now : Z) (l : list VBlock) : R (list VBlock) :=
  match l with
  | [] => Ok []
  | b :: l =>
      match verify_block c d now b with
      | Ok _ => let? rest := verify_blocks c d now l in Ok (b :: rest)
      | Err _ => verify_blocks c d now l
      | Panic => Panic
      | Diverge => Diverge
      end
  end.
Definition validate_block_header (d : D) (now : Z) (h : VHeader) : R unit := verify_header d now h.
End engine.
End verification.

End Verification.
