(* ===== verification/VerificationProofs.v ===== *)
(** What a verified header, transaction and state transition promise: the
    theorems on crates/verification. *)
From stdpp Require Import base list numbers option strings gmap.
From Stdlib Require Import ZArith Lia.
From S2P Require Import Prelude U256 Precompiled Crypto Storage Verification.

Module VerificationProofs.
Import Verification.

#[export] Instance signature_eq_dec : EqDecision Signature.
Proof. solve_decision. Defined.
#[export] Instance header_eq_dec : EqDecision VHeader.
Proof. solve_decision. Defined.
#[export] Instance transaction_eq_dec : EqDecision VTransaction.
Proof. solve_decision. Defined.

Lemma reject_ok c e : reject_if c e = Ok tt <-> c = false.
Proof. destruct c; naive_solver. Qed.
(** One step of a sequence of checks. *)
Lemma check_ok {A} (m : R A) (k : A -> R unit) : obind m k = Ok tt <-> exists a, m = Ok a /\ k a = Ok tt.
Proof. destruct m; naive_solver. Qed.
Lemma check_unit (m : R unit) (k : R unit) : obind m (fun _ => k) = Ok tt <-> m = Ok tt /\ k = Ok tt.
Proof. rewrite check_ok. split; [intros ([] & ? & ?); done|intros []; by exists tt]. Qed.

Section verification.
Context `{Profile} `{U256Ops} `{!U256Laws} `{KeccakOps} `{CryptoOps} {D : Type} `{Database D} `{!VerifierOps}.
Implicit Types (h : VHeader) (d : D) (tx : VTransaction).

(** * Headers *)

Definition header_range h : Prop := U256 (number h) /\ U256 (gas_limit h) /\ 0 <= timestamp h.
(** The header stored under a hash. *)
Definition stored_header d (hash : list Z) (p : VHeader) : Prop :=
  exists data, Storage.get (header_key hash) d = Ok (Some data) /\ deserialize_header data = Some p.
Definition follows h p : Prop :=
  number h = number p + 1 /\ timestamp p < timestamp h /\ Z.abs (gas_limit h - gas_limit p) <= gas_limit p / 1024.
Definition header_rules d (now : Z) h : Prop :=
  gas_used h <= gas_limit h /\ number h <> U256_MAX /\
  (0 < number h -> exists p, stored_header d (parent_hash h) p /\ follows h p) /\
  0 < timestamp h <= now + 900 /\ 5000 <= gas_limit h <= MAX_GAS_LIMIT /\ extra_size h <= 32.

Lemma gas_limit_adjustment_ok h p : U256 (gas_limit h) -> U256 (gas_limit p) -> gas_limit h <= MAX_GAS_LIMIT ->
  verify_gas_limit_adjustment h p = Ok tt <-> Z.abs (gas_limit h - gas_limit p) <= gas_limit p / 1024.
Proof.
  unfold MAX_GAS_LIMIT. intros Hh Hp Hm. unfold verify_gas_limit_adjustment. rewrite !as_u64_law by done. unfold uint in *.
  rewrite (proj2 (Z.ltb_lt (gas_limit h) _)) by lia. destruct (Z.ltb_spec (gas_limit p) (2 ^ 64)); cbn [unwrap obind].
  - destruct (Z.ltb_spec (gas_limit p) (gas_limit h)); rewrite reject_ok, Z.ltb_ge; lia.
  - split; [done|]. intros Ha. exfalso. zlia.
Qed.
Lemma against_parent_ok d h : header_range h -> gas_limit h <= MAX_GAS_LIMIT -> number h <> U256_MAX ->
  (forall p, stored_header d (parent_hash h) p -> header_range p) ->
  verify_against_parent d h = Ok tt <-> exists p, stored_header d (parent_hash h) p /\ follows h p.
Proof.
  intros (Hn & Hg & Ht) Hm Hmax Hp. unfold verify_against_parent, get_parent_header, stored_header, follows in *.
  destruct (Storage.get (header_key (parent_hash h)) d) as [[data|]| | |] eqn:Hget; cbn [stored obind]; [|naive_solver..].
  destruct (deserialize_header data) as [p|] eqn:Hd; cbn [obind]; [|naive_solver].
  assert (header_range p) as (Hpn & Hpg & _) by (apply Hp; eauto). rewrite add_law by (done || unfold uint; lia).
  destruct (Z.ltb_spec (number p + 1) (2 ^ 256)); cbn [unwrap obind].
  - rewrite !check_unit, !reject_ok, gas_limit_adjustment_ok, negb_false_iff, Z.eqb_eq, Z.leb_gt by done. naive_solver.
  - split; [done|]. intros (p' & (data' & [= <-] & Hd') & Hf & _). exfalso. rewrite Hd in Hd'. injection Hd' as ->. unfold uint in *. lia.
Qed.

Lemma header_accepted d now h :
  header_range h -> 0 <= now -> now + 900 < 2 ^ 64 -> (forall p, stored_header d (parent_hash h) p -> header_range p) ->
  verify_header d now h = Ok tt <-> header_rules d now h.
Proof.
  intros Hh Hnow Hn64 Hp. pose proof Hh as (Hn & Hg & Ht). unfold verify_header, header_rules.
  rewrite !check_unit. unfold verify_basic_constraints, verify_timestamp, verify_gas_limit, verify_extra_data, uadd, MAX_FUTURE_TIME.
  rewrite checked_arith_ok by (unfold uint; lia). cbn [obind]. rewrite !check_unit, !reject_ok, !Z.ltb_ge, !Z.eqb_neq.
  unfold MIN_GAS_LIMIT, MAX_EXTRA_DATA_SIZE.
  assert (gas_limit h <= MAX_GAS_LIMIT -> number h <> U256_MAX ->
    (if 0 <? number h then let? _ := verify_parent_exists d h in verify_against_parent d h else Ok tt) = Ok tt <->
    (0 < number h -> exists p, stored_header d (parent_hash h) p /\ follows h p)) as Hpar.
  { intros Hm Hmax. destruct (Z.ltb_spec 0 (number h)); [|naive_solver lia]. rewrite check_unit, against_parent_ok by done.
    split; [naive_solver|]. intros Hex. split; [|by apply Hex]. destruct (Hex ltac:(done)) as (p & (data & Hget & _) & _).
    unfold verify_parent_exists. by rewrite Hget. }
  split.
  - intros ((Hu & Hm) & Hpa & (Ht0 & Htf) & (Hlo & Hhi) & Hex). split_and!; [done|done|by apply Hpar|lia|lia|done|done|done].
  - intros (Hu & Hm & Hpa & (Ht0 & Htf) & (Hlo & Hhi) & Hex). split_and!; [done|done|by apply Hpar|lia|lia|done|done|done].
Qed.
(** C24: a header passes verification exactly when it obeys the rules: gas
    used within the limit, a parent stored under its parent hash whose number,
    timestamp and gas limit it follows, a timestamp that is not zero and not
    more than fifteen minutes ahead, the bounds of the gas limit and of the
    extra data; the header of number zero needs no parent. *)
Theorem header_accepted_iff d now h :
  header_range h -> 0 <= now -> now + 900 < 2 ^ 64 -> (forall p, stored_header d (parent_hash h) p -> header_range p) ->
  verify_header d now h = Ok tt <-> header_rules d now h.
Proof. apply header_accepted. Qed.
(** A header whose gas limit does not fit 64 bits makes the verification
    panic, since the adjustment is computed before the limit is checked. *)
Lemma oversized_gas_limit_panics d now h p : header_range h -> gas_used h <= gas_limit h -> number h <> U256_MAX -> 0 < number h ->
  stored_header d (parent_hash h) p -> header_range p -> number h = number p + 1 -> timestamp p < timestamp h ->
  2 ^ 64 <= gas_limit h -> verify_header d now h = Panic.
Proof.
  intros (Hn & Hg & _) Hu Hmax Hpos (data & Hget & Hd) (Hpn & Hpg & _) Hnum Hts Hbig. unfold verify_header, verify_basic_constraints.
  rewrite (proj2 (Z.ltb_ge _ _)), (proj2 (Z.eqb_neq _ _)), (proj2 (Z.ltb_lt 0 _)) by done. cbn [reject_if obind].
  unfold verify_parent_exists. rewrite Hget. cbn [stored obind]. rewrite bool_decide_false by done. cbn [reject_if obind].
  unfold verify_against_parent, get_parent_header. rewrite Hget. cbn [stored obind]. rewrite Hd. cbn [obind].
  rewrite add_law by (done || unfold uint; lia). rewrite (proj2 (Z.ltb_lt (number p + 1) _)) by (unfold uint in *; lia). cbn [unwrap obind].
  rewrite (proj2 (Z.eqb_eq _ _)), (proj2 (Z.leb_gt _ _)) by lia. cbn [negb reject_if obind].
  unfold verify_gas_limit_adjustment. rewrite !as_u64_law by done. rewrite (proj2 (Z.ltb_ge (gas_limit h) _)) by done. by destruct (_ <? _).
Qed.

(** Consecutive headers of a list. *)
Definition consecutive (l : list VHeader) (a b : VHeader) : Prop := exists i, l !! i = Some a /\ l !! S i = Some b.
Lemma verify_rest_ok d now prev l : verify_rest d now prev l = Ok tt ->
  Forall (fun h => verify_header d now h = Ok tt) l /\ forall a b, consecutive (prev :: l) a b -> parent_hash b = header_hash a.
Proof.
  revert prev. induction l as [|h l IH]; intros prev; simpl.
  - intros _. split; [constructor|]. intros a b ([|i] & _ & ?); done.
  - rewrite !check_unit, reject_ok, negb_false_iff, bool_decide_eq_true. intros (Hv & Hl & [Hvs Hc]%IH). split; [by constructor|].
    intros a b ([|i] & Ha & Hb); [simpl in *; by simplify_eq|]. apply Hc. by exists i.
Qed.
(** in a verified list of headers every header obeys the rules and is
    linked to the one before by hash; over a database that files headers under
    their hashes each follows the one before in number, timestamp and gas
    limit, unless it claims to be the first block or two headers with the same
    hash are at hand. *)
Theorem verified_chain_follows d now l :
  Forall header_range l -> 0 <= now -> now + 900 < 2 ^ 64 ->
  (forall k p, stored_header d k p -> header_range p /\ header_hash p = k) ->
  verify_chain d now l = Ok tt ->
  Forall (header_rules d now) l /\
  forall a b, consecutive l a b -> parent_hash b = header_hash a /\
    (number b = 0 \/ follows b a \/ exists p, p <> a /\ header_hash p = header_hash a).
Proof.
  intros Hr Hnow Hn64 Hdb Hv. assert (Forall (fun h => verify_header d now h = Ok tt) l /\
    forall a b, consecutive l a b -> parent_hash b = header_hash a) as [Hall Hlink].
  { destruct l as [|h l]; [split; [constructor|]; by intros a b (i & ? & _)|]. simpl in Hv. apply check_unit in Hv as [Hh Hv].
    apply verify_rest_ok in Hv as [Hl Hc]. split; [by constructor|done]. }
  assert (Forall (header_rules d now) l) as Hrules.
  { rewrite !Forall_forall in *. intros h Hh. apply header_accepted; [by apply Hr|done|done| |by apply Hall]. intros p Hp. by apply (Hdb _ _ Hp). }
  split; [done|]. intros a b Hab. split; [by apply Hlink|]. pose proof (Hlink a b Hab) as Hpar.
  destruct Hab as (i & Ha & Hb). rewrite Forall_forall in Hrules, Hr. destruct (Hrules b) as (_ & _ & Hp & _); [by eapply list_elem_of_lookup_2|].
  destruct (Hr b) as ([Hb0 _] & _ & _); [by eapply list_elem_of_lookup_2|]. destruct (decide (number b = 0)); [by left|right].
  destruct Hp as (p & Hst & Hf); [lia|]. destruct (Hdb _ _ Hst) as [_ Hhash]. destruct (decide (p = a)) as [-> |]; [by left|right].
  exists p. split; [done|]. by rewrite Hhash.
Qed.

(** * Signatures *)

Class LittleEndian : Prop := { to_le_bytes_law x : U256 x -> u_to_le_bytes x = rev (to_be 32 x) }.
Context `{!LittleEndian}.
(** A call of [a] read as the creation of a contract: the bytes of the
    recipient move into the value and those of the value into the code. *)
Definition as_creation tx (a : list Z) : VTransaction :=
  let data := a ++ rev (to_be 32 (value tx)) in
  mkTransaction (transaction_type tx) (nonce tx) (gas_price tx) (max_fee_per_gas tx) (max_priority_fee_per_gas tx) (tx_gas_limit tx)
    None (from_be (rev (take 32 data))) (drop 32 data ++ input tx) (chain_id tx) (access_list tx) (signature tx).
Lemma from_be_u256 l : bytes l -> length l = 32%nat -> U256 (from_be l).
Proof. intros Hb Hl. apply from_be_in_range; [done|unfold len; lia]. Qed.
Lemma bytes_rev l : bytes l -> bytes (rev l).
Proof. unfold bytes. by rewrite !Forall_forall; intros Hl x Hx%list_elem_of_In%in_rev%list_elem_of_In; apply Hl. Qed.
Lemma le_of_bytes l : bytes l -> length l = 32%nat -> u_to_le_bytes (from_be (rev l)) = l.
Proof.
  intros Hb Hl. rewrite to_le_bytes_law by (apply from_be_u256; [by apply bytes_rev|by rewrite length_rev]).
  rewrite <- Hl, <- (length_rev l), to_be_from_be by by apply bytes_rev. apply rev_involutive.
Qed.

(** what is signed does not say whether there is a recipient: every
    transaction with a recipient has the signing hash of a contract creation
    made of the same bytes, and verification answers the same for both, so a
    signature for the one is accepted for the other. *)
Theorem signature_fits_creation tx a :
  to tx = Some a -> length a = 20%nat -> bytes a -> U256 (value tx) ->
  to (as_creation tx a) = None /\ U256 (value (as_creation tx a)) /\
  signing_hash (as_creation tx a) = signing_hash tx /\
  forall chain, verify_transaction chain (as_creation tx a) = verify_transaction chain tx.
Proof.
  intros Hto Ha Hab Hv. set (data := a ++ rev (to_be 32 (value tx))).
  assert (length data = 52%nat) as Hlen by (unfold data; rewrite length_app, length_rev, length_to_be; lia).
  assert (bytes data) as Hb by (apply bytes_app; split; [done|apply bytes_rev, bytes_to_be]).
  assert (bytes (take 32 data) /\ length (take 32 data) = 32%nat) as [Htb Htl].
  { split; [by apply Forall_take|]. rewrite length_take. lia. }
  assert (signing_hash (as_creation tx a) = signing_hash tx) as Hsign.
  { unfold signing_hash, signing_data, as_creation. cbn [nonce gas_price max_fee_per_gas max_priority_fee_per_gas tx_gas_limit to value input chain_id].
    fold data. rewrite le_of_bytes, Hto, (to_le_bytes_law (value tx)) by done. cbn [default]. f_equal. do 3 f_equal.
    rewrite app_nil_l, <- !app_assoc, !(app_assoc (take 32 data)), take_drop. unfold data. by rewrite <- !app_assoc. }
  split_and!; [done|apply from_be_u256; [by apply bytes_rev|by rewrite length_rev]|done|]. intros chain.
  unfold verify_transaction, verify_signature, recover_sender. rewrite Hsign. done.
Qed.

(** * Roots *)

Class HashLengths : Prop := { header_hash_len h : length (header_hash h) = 32%nat; transaction_hash_len tx : length (transaction_hash tx) = 32%nat }.
Lemma concat_words_inj (l k : list (list Z)) : Forall (fun x => length x = 32%nat) l -> Forall (fun x => length x = 32%nat) k ->
  concat l = concat k -> l = k.
Proof.
  intros Hl. revert k. induction Hl as [|x l Hx Hl IH]; intros k Hk Heq; destruct Hk as [|y k Hy Hk]; [done|..]; simpl in Heq.
  - destruct y; [done|by simpl in Heq].
  - destruct x; [done|by simpl in Heq].
  - apply app_inj_1 in Heq as [-> Heq]; [|lia]. f_equal. by apply IH.
Qed.
(** Bodies that pass the structure check under the same header have the same
    transactions and uncles by hash, or keccak256 has a collision or meets one
    of the two constants. *)
Lemma structure_binds `{!HashLengths} b b' : verify_structure b = Ok tt -> verify_structure b' = Ok tt -> header b = header b' ->
  (map transaction_hash (transactions b) = map transaction_hash (transactions b') /\
   map header_hash (uncles b) = map header_hash (uncles b') /\ len (uncles b) <= 2) \/
  (exists u v, u <> v /\ keccak256 u = keccak256 v) \/ exists u, keccak256 u = EMPTY_ROOT \/ keccak256 u = EMPTY_UNCLES.
Proof.
  unfold verify_structure. rewrite !check_unit, !reject_ok, !negb_false_iff, !bool_decide_eq_true.
  intros (Ht & Hu & Hs) (Ht' & Hu' & _) Hh. rewrite <- Hh in Ht', Hu'.
  destruct (block_size b) as [sz|]; [|done]. apply check_unit in Hs as [_ Hs]. apply reject_ok, Z.ltb_ge in Hs. unfold MAX_UNCLES in Hs.
  assert (forall l k : list (list Z), Forall (fun x => length x = 32%nat) l -> Forall (fun x => length x = 32%nat) k ->
    keccak256 (concat l) = keccak256 (concat k) -> l = k \/ exists u v, u <> v /\ keccak256 u = keccak256 v) as Hbind.
  { intros l k Hl Hk Heq. destruct (decide (concat l = concat k)); [left; by apply concat_words_inj|right; by eexists _, _]. }
  assert (map transaction_hash (transactions b) = map transaction_hash (transactions b') \/
    (exists u v, u <> v /\ keccak256 u = keccak256 v) \/ exists u, keccak256 u = EMPTY_ROOT \/ keccak256 u = EMPTY_UNCLES) as HT.
  { rewrite <- Ht' in Ht. unfold compute_transaction_root in Ht. destruct (transactions b), (transactions b'); [by left|naive_solver..|].
    destruct (Hbind (map transaction_hash (v :: l)) (map transaction_hash (v0 :: l0))); [..|done|by left|by right; left];
      apply Forall_fmap, Forall_true; intros; apply transaction_hash_len. }
  assert (map header_hash (uncles b) = map header_hash (uncles b') \/
    (exists u v, u <> v /\ keccak256 u = keccak256 v) \/ exists u, keccak256 u = EMPTY_ROOT \/ keccak256 u = EMPTY_UNCLES) as HU.
  { rewrite <- Hu' in Hu. unfold compute_uncles_hash in Hu. destruct (uncles b), (uncles b'); [by left|naive_solver..|].
    destruct (Hbind (map header_hash (v :: l)) (map header_hash (v0 :: l0))); [..|done|by left|by right; left];
      apply Forall_fmap, Forall_true; intros; apply header_hash_len. }
  destruct HT as [HT|]; [|by right]. destruct HU as [HU|]; [|by right]. by left.
Qed.

(** * The state transition *)

Section state.
Context {X : Type} `{EqDecision X} (dr : X).
Notation Accounts := (gmap (list Z) (Account (X := X))).
Implicit Types (st : Accounts).
Definition total st : Z := zsum (fun p => balance p.2) (map_to_list st).
Definition balances_ok st : Prop := map_Forall (fun _ x => U256 (balance x)) st.
Lemma total_insert a x st : total (<[a := x]> st) = total st - balance (or_default dr a st) + balance x.
Proof.
  unfold total, or_default. assert (forall m : Accounts, m !! a = None ->
    zsum (fun p => balance p.2) (map_to_list (<[a := x]> m)) = balance x + zsum (fun p => balance p.2) (map_to_list m)) as Hnew.
  { intros m Hm. by rewrite map_to_list_insert by done. }
  destruct (st !! a) as [y|] eqn:Hy; cbn [default].
  - rewrite <- insert_delete_eq, Hnew by apply lookup_delete_eq.
    rewrite <- (insert_delete_id st a y Hy) at 2. rewrite map_to_list_insert by apply lookup_delete_eq. simpl. lia.
  - rewrite Hnew by done. simpl. lia.
Qed.
Lemma balances_insert a x st : balances_ok st -> U256 (balance x) -> balances_ok (<[a := x]> st).
Proof. intros. by apply map_Forall_insert_2. Qed.
Lemma or_default_ok a st : balances_ok st -> U256 (balance (or_default dr a st)).
Proof. intros Hst. unfold or_default. destruct (st !! a) eqn:Ha; [by apply (Hst a)|done]. Qed.
(** [add_balance], when it succeeds, adds to the total. *)
Lemma add_balance_total a v st st' : balances_ok st -> U256 v -> add_balance dr a v st = Ok st' ->
  balances_ok st' /\ total st' = total st + v.
Proof.
  intros Hst Hv. unfold add_balance. pose proof (or_default_ok a st Hst) as Hu. rewrite add_law by done.
  destruct (Z.ltb_spec (balance (or_default dr a st) + v) (2 ^ 256)); [|done]. cbn [unwrap obind]. intros [= <-]. split.
  - apply balances_insert; [done|]. simpl. unfold uint in *. lia.
  - rewrite total_insert. simpl. lia.
Qed.
Definition gas_cost tx : Z := tx_gas_limit tx * default 0 (gas_price tx).
(** What a transaction takes out of circulation: its gas, and its value when
    it creates a contract. *)
Definition burned tx : Z := gas_cost tx + match to tx with Some _ => 0 | None => value tx end.
Definition tx_range tx : Prop := U256 (tx_gas_limit tx) /\ U256 (default 0 (gas_price tx)) /\ U256 (value tx).
Lemma apply_transaction_total tx st st' : balances_ok st -> tx_range tx -> apply_transaction dr st tx = Ok st' ->
  balances_ok st' /\ total st' = total st - burned tx.
Proof.
  intros Hst (Hg & Hp & Hv) Hap. unfold apply_transaction in Hap. cbn [state_recover_sender obind] in Hap.
  set (k := replicate 20 1) in Hap. clearbody k.
  destruct (st !! k) as [acc|] eqn:Ha; [|done]. pose proof (Hst _ _ Ha : U256 (balance acc)) as Hb. fold (gas_cost tx) in *.
  rewrite mul_law in Hap by done. fold (gas_cost tx) in Hap. destruct (Z.ltb_spec (gas_cost tx) (2 ^ 256)); [|done]. cbn [unwrap obind] in Hap.
  assert (U256 (gas_cost tx)) as Hgc by (unfold gas_cost, uint in *; nia). rewrite add_law in Hap by done.
  destruct (Z.ltb_spec (gas_cost tx + value tx) (2 ^ 256)); [|done]. cbn [unwrap obind] in Hap.
  destruct (Z.ltb_spec (balance acc) (gas_cost tx + value tx)); [done|]. cbn [reject_if obind] in Hap. unfold uint in *.
  rewrite sub_law, (proj2 (Z.leb_le _ _)) in Hap by (done || lia). cbn [unwrap obind] in Hap.
  rewrite sub_law, (proj2 (Z.leb_le _ _)) in Hap by (unfold uint; lia). cbn [unwrap obind] in Hap.
  destruct (uadd 64 (acc_nonce acc) 1) as [n| | |]; [|done..]. cbn [obind] in Hap. set (x := mkAccount _ n _) in Hap.
  assert (balances_ok (<[k := x]> st) /\ total (<[k := x]> st) = total st - gas_cost tx - value tx) as [Hok Htot].
  { split; [apply balances_insert; [done|simpl; unfold uint; lia]|]. rewrite total_insert. unfold or_default. rewrite Ha. simpl. lia. }
  unfold burned. destruct (to tx) as [a|].
  - apply add_balance_total in Hap as [? ->]; [|done|unfold uint; lia]. split; [done|lia].
  - injection Hap as <-. split; [done|lia].
Qed.
Lemma apply_transactions_total txs st st' : balances_ok st -> Forall tx_range txs -> apply_transactions dr st txs = Ok st' ->
  balances_ok st' /\ total st' = total st - zsum burned txs.
Proof.
  intros Hst Htx. revert st Hst. induction Htx as [|tx txs Htx _ IH]; intros st Hst Hap; simpl in Hap.
  - injection Hap as <-. split; [done|]. simpl. lia.
  - destruct (apply_transaction dr st tx) as [st1| | |] eqn:Happ; [|done..]. apply apply_transaction_total in Happ as [Hok Ht]; [|done..].
    destruct (IH st1 Hok Hap) as [? ->]. split; [done|]. rewrite Ht. simpl. lia.
Qed.
Lemma uncle_rewards_total l st st' : balances_ok st -> uncle_rewards dr st l = Ok st' ->
  balances_ok st' /\ total st' = total st + BASE_REWARD / 8 * len l.
Proof.
  revert st. induction l as [|u l IH]; intros st Hst Hap; simpl in Hap.
  - injection Hap as <-. split; [done|]. unfold len. simpl. lia.
  - rewrite div_law in Hap by done. cbn [unwrap obind] in Hap. change (if 8 =? 0 then None else Some (BASE_REWARD / 8)) with (Some (BASE_REWARD / 8)) in Hap.
    cbn [unwrap obind] in Hap. destruct (add_balance dr (author u) (BASE_REWARD / 8) st) as [st1| | |] eqn:Happ; [|done..].
    apply add_balance_total in Happ as [Hok Ht]; [|done|done]. destruct (IH st1 Hok Hap) as [? ->]. split; [done|]. rewrite Ht, len_cons. lia.
Qed.

(** a state transition that verifies changes the total balance by exactly
    the rewards of the block minus what its transactions take out of
    circulation: the gas of each, and the value of those without recipient. *)
Theorem state_transition_supply pre post b :
  balances_ok pre -> Forall tx_range (transactions b) -> verify_state_transition dr pre post b = Ok tt ->
  balances_ok post /\
  total post = total pre - zsum burned (transactions b) + BASE_REWARD + BASE_REWARD / 8 * len (uncles b).
Proof.
  intros Hpre Htx Hv. unfold verify_state_transition in Hv. apply check_ok in Hv as (st1 & H1' & Hv). apply check_ok in Hv as (st2 & H2' & Hv).
  apply reject_ok, negb_false_iff, bool_decide_eq_true in Hv as ->. apply apply_transactions_total in H1' as [Hok1 Ht1]; [|done..].
  unfold apply_block_rewards in H2'. destruct (add_balance dr (author (header b)) BASE_REWARD st1) as [st| | |] eqn:Hr; [|done..].
  apply add_balance_total in Hr as [Hok2 Ht2]; [|done|done]. apply uncle_rewards_total in H2' as [Hok3 Ht3]; [|done]. split; [done|]. lia.
Qed.
End state.

(** * Blocks *)

Section engine.
Context {S : Type} `{!Execution S}.
(** The EVM reports gas in range. *)
Class GasInRange : Prop := { execute_gas tx c (st : S) r st' : execute tx c st = (inl r, st') -> U256 (result_gas_used r) }.
Context `{!GasInRange}.
(** Receipts whose cumulative gas counts the ones before them, from [g]. *)
Fixpoint cumulates (g : Z) (l : list Receipt) : Prop :=
  match l with
  | [] => True
  | r :: l => cumulative_gas_used r = g + receipt_gas_used r /\ cumulates (g + receipt_gas_used r) l
  end.
Lemma cumulates_snoc g l r : cumulates g l -> cumulative_gas_used r = g + zsum receipt_gas_used l + receipt_gas_used r -> cumulates g (l ++ [r]).
Proof.
  revert g. induction l as [|x l IH]; intros g Hl Hr; simpl in *; [split; [lia|done]|]. destruct Hl as [Hx Hl]. split; [done|].
  apply IH; [done|]. lia.
Qed.
Lemma execute_all_ok c h txs total receipts (st : S) g' l' st' :
  U256 total -> total = zsum receipt_gas_used receipts -> cumulates 0 receipts ->
  execute_all c h total receipts txs st = Ok (g', l', st') ->
  g' = zsum receipt_gas_used l' /\ cumulates 0 l' /\ length l' = (length receipts + length txs)%nat.
Proof.
  revert total receipts st. induction txs as [|tx txs IH]; intros total receipts st Hu Ht Hc Hex; cbn [execute_all] in Hex.
  - injection Hex as <- <- <-. split_and!; [done..|]. simpl. lia.
  - unfold execute_transaction in Hex at 1. destruct (execute tx _ st) as [[r|e] st1] eqn:Hr; [|done]. apply execute_gas in Hr.
    rewrite add_law in Hex by done. destruct (Z.ltb_spec (total + result_gas_used r) (2 ^ 256)); [|done]. cbn [unwrap obind fst snd receipt_gas_used] in Hex.
    rewrite add_law in Hex by done. rewrite (proj2 (Z.ltb_lt _ _)) in Hex by done. cbn [unwrap obind] in Hex.
    apply IH in Hex as (? & ? & Hlen).
    + split_and!; [done..|]. rewrite Hlen, length_app. simpl. lia.
    + unfold uint in *. lia.
    + rewrite zsum_snoc. simpl. lia.
    + apply cumulates_snoc; [done|]. simpl. lia.
Qed.
(** in a block that verifies with re-execution the header obeys the
    rules, every transaction verifies, and executing the transactions gives
    one receipt each, whose cumulative gas adds up to the gas used of the
    header, which is within its gas limit. *)
Theorem verified_block_gas c d now b :
  header_range (header b) -> 0 <= now -> now + 900 < 2 ^ 64 ->
  (forall p, stored_header d (parent_hash (header b)) p -> header_range p) ->
  validate_state_root c = true -> verify_block c d now b = Ok tt ->
  header_rules d now (header b) /\ Forall (fun tx => verify_transaction (config_chain_id c) tx = Ok tt) (transactions b) /\
  exists root (st st' : S) receipts, open_state root = Ok st /\
    execute_all c (header b) 0 [] (transactions b) st = Ok (gas_used (header b), receipts, st') /\
    length receipts = length (transactions b) /\ cumulates 0 receipts /\
    zsum receipt_gas_used receipts = gas_used (header b) /\ gas_used (header b) <= gas_limit (header b).
Proof.
  intros Hr Hn Hn64 Hp Hc Hv. unfold verify_block in Hv. rewrite !check_unit in Hv. destruct Hv as (Hh & _ & Htx & _ & Hex).
  apply header_accepted in Hh; [|done..]. split; [done|]. split.
  { clear -Htx. induction (transactions b) as [|tx txs IH]; [constructor|]. simpl in Htx. apply check_unit in Htx as [? ?]. constructor; auto. }
  rewrite Hc in Hex. unfold verify_execution in Hex. apply check_ok in Hex as (root & _ & Hex). apply check_ok in Hex as (st & Hopen & Hex).
  apply check_ok in Hex as ([[g receipts] st'] & Hall & Hex). exists root, st, st', receipts. split; [done|].
  apply check_ok in Hex as (st2 & _ & Hex). apply check_ok in Hex as (comp & _ & Hex). rewrite !check_unit in Hex. destruct Hex as (_ & _ & Hg).
  apply reject_ok, negb_false_iff, Z.eqb_eq in Hg as ->. pose proof Hall as Hall'. apply execute_all_ok in Hall' as (Hs & Hcum & Hlen); [|done..].
  split_and!; [done|done|done|by rewrite <- Hs|]. by destruct Hh.
Qed.
End engine.
End verification.

(** * A database with one header *)

#[local] Existing Instance dev_profile.
Definition toy_header (n t g : Z) : VHeader := mkHeader n (to_be 32 (n - 1)) t g 0 [] [] EMPTY_ROOT EMPTY_UNCLES [] [] 0.
#[local] Instance toy_ops : VerifierOps := {|
  header_hash h := to_be 32 (number h); header_key k := k;
  deserialize_header data := match data with [n; t; g] => Some (toy_header n t g) | _ => None end;
  u_to_le_bytes x := rev (to_be 32 x); sig_is_valid _ := true; transaction_hash _ := replicate 32 0;
  block_size _ := Some 0; transaction_size _ := Some 0 |}.
#[local] Instance toy_little_endian : LittleEndian.
Proof. done. Qed.
Definition toy_db : MemoryDatabase := mkMemoryDatabase [(to_be 32 4, [4; 100; 20000])].
Lemma toy_stored k p : stored_header toy_db k p -> k = to_be 32 4 /\ p = toy_header 4 100 20000.
Proof.
  intros (data & Hg & Hd). unfold toy_db in Hg. cbn [Storage.get memory_database db_get db_data bt_get] in Hg.
  unfold db_get in Hg. cbn [db_data bt_get] in Hg. destruct (decide (k = to_be 32 4)) as [-> |Hne].
  - rewrite bool_decide_true in Hg by done. injection Hg as <-. split; [done|]. simpl in Hd. congruence.
  - by rewrite bool_decide_false in Hg by done.
Qed.
Lemma toy_stored_ok k p : stored_header toy_db k p -> header_range p /\ header_hash p = k.
Proof. by intros [-> ->]%toy_stored. Qed.
Lemma toy_rules : header_rules toy_db 1000 (toy_header 5 110 20010).
Proof.
  split_and!; try done. intros _. exists (toy_header 4 100 20000). split; [by exists [4; 100; 20000]|]. by split_and!.
Qed.
Lemma header_accepted_iff_witness : verify_header toy_db 1000 (toy_header 5 110 20010) = Ok tt.
Proof.
  apply (header_accepted_iff toy_db 1000 (toy_header 5 110 20010)); [done|done|done| |apply toy_rules].
  intros p Hp. by apply (toy_stored_ok _ _ Hp).
Defined.
Lemma verified_chain_follows_witness : Forall (header_rules toy_db 1000) [toy_header 5 110 20010].
Proof.
  destruct (verified_chain_follows toy_db 1000 [toy_header 5 110 20010]) as [Hr _]; [by repeat constructor|done|done|apply toy_stored_ok|done|].
  exact Hr.
Defined.
(** Headers are looked up in the database only, so a list of two new headers
    that follow each other does not pass. *)
Example new_headers_fail : verify_chain toy_db 1000 [toy_header 5 110 20010; toy_header 6 120 20010] = Err ParentNotFound.
Proof. by vm_compute. Qed.
(** A header that claims to be the first block passes behind any other. *)
Example first_block_anywhere :
  let h := mkHeader 0 (to_be 32 5) 1 5000 0 [] [] [] [] [] [] 0 in
  verify_chain toy_db 1000 [toy_header 5 110 20010; h] = Ok tt.
Proof. by vm_compute. Qed.

Definition toy_call : VTransaction :=
  mkTransaction 0 7 (Some 1) None None 21000 (Some (replicate 20 9)) 5 [1; 2; 3] (Some 1) None (mkSignature (replicate 32 1) (replicate 32 2) 27).
Lemma signature_fits_creation_witness :
  signing_hash (as_creation toy_call (replicate 20 9)) = signing_hash toy_call /\
  verify_transaction 1 (as_creation toy_call (replicate 20 9)) = verify_transaction 1 toy_call.
Proof.
  destruct (signature_fits_creation toy_call (replicate 20 9)) as (_ & _ & H1 & H2); [done|done|by repeat constructor|done|].
  split; [exact H1|apply H2].
Defined.

Definition toy_accounts : gmap (list Z) (Account (X := unit)) := {[ replicate 20 1 := mkAccount 1000000 0 tt ]}.
Definition toy_block : VBlock := mkBlock (toy_header 5 110 20010) [toy_call] [].
Definition toy_post : gmap (list Z) (Account (X := unit)) :=
  {[ [] := mkAccount BASE_REWARD 0 tt; replicate 20 1 := mkAccount 978995 1 tt; replicate 20 9 := mkAccount 5 0 tt ]}.
Lemma state_transition_supply_witness : total toy_post = total toy_accounts - 21000 + BASE_REWARD.
Proof.
  destruct (state_transition_supply tt toy_accounts toy_post toy_block) as [_ ->]; [..|done].
  - intros a x. unfold toy_accounts. rewrite lookup_singleton_Some. by intros [_ <-].
  - by repeat constructor.
  - by vm_compute.
Defined.

#[local] Instance toy_execution : Execution unit := {|
  validate_block _ := inl tt; open_state _ := Ok tt; execute _ _ st := (inl (mkResult true 21000 [] [] None), st);
  block_reward _ := 0; coinbase_balance _ _ := Ok 0; set_coinbase_balance _ _ st := Ok st; commit_state _ := Ok [];
  serialize_receipt _ := [] |}.
#[local] Instance toy_gas : GasInRange.
Proof. split. by intros tx c st r st' [= <- <-]. Qed.
Definition empty_block : VBlock := mkBlock (toy_header 5 110 20010) [] [].
Lemma verified_block_gas_witness : header_rules toy_db 1000 (header empty_block) /\ gas_used (header empty_block) <= gas_limit (header empty_block).
Proof.
  destruct (verified_block_gas (mkConfig 0 0 1 true false) toy_db 1000 empty_block) as (H1 & _ & root & st & st' & l & _ & _ & _ & _ & H2);
    [done|done|done|intros p Hp; by apply (toy_stored_ok _ _ Hp)|done|by vm_compute|].
  split; [exact H1|apply H2].
Defined.

End VerificationProofs.
