(* ===== verification/Engine.v ===== *)
(** The engine API: crates/engine (types.rs, forkchoice.rs, payload.rs,
    api.rs).  The storage, the consensus engine, the hash of a header and the
    codec of transactions are parameters, as are the random payload ids, the
    clock and the pending transactions.  Hashes and addresses are their bytes,
    [U64] and [U256] the numbers they denote. *)
From stdpp Require Import base list numbers option strings gmap.
From Stdlib Require Import ZArith Lia.
From S2P Require Import Prelude U256.

Module Engine.

Inductive EngineError :=
| InvalidJwt | Unauthorized | InvalidPayload (s : string) | UnknownPayload | InvalidForkChoiceState (s : string)
| Syncing | InvalidTerminalBlock | Internal (s : string).

(** * types.rs *)

Record Withdrawal := mkWithdrawal { w_index : Z; w_validator_index : Z; w_address : list Z; w_amount : Z }.
Record ExecutionPayloadV1 := mkPayloadV1 {
  p1_parent_hash : list Z; p1_fee_recipient : list Z; p1_state_root : list Z; p1_receipts_root : list Z; p1_logs_bloom : list Z;
  p1_prev_randao : list Z; p1_block_number : Z; p1_gas_limit : Z; p1_gas_used : Z; p1_timestamp : Z; p1_extra_data : list Z;
  p1_base_fee_per_gas : Z; p1_block_hash : list Z; p1_transactions : list (list Z);
}.
(** Every field of the version before, and the withdrawals. *)
Record ExecutionPayloadV2 := mkPayloadV2 { p2_v1 : ExecutionPayloadV1; p2_withdrawals : list Withdrawal }.
Record ExecutionPayloadV3 := mkPayloadV3 { p3_v2 : ExecutionPayloadV2; p3_blob_gas_used : Z; p3_excess_blob_gas : Z }.
Inductive PayloadStatus := Valid | Invalid | SyncingStatus | Accepted | InvalidBlockHash.
Record PayloadStatusV1 := mkStatus { status : PayloadStatus; latest_valid_hash : option (list Z); validation_error : option string }.
Record ForkchoiceStateV1 := mkForkchoice { head_block_hash : list Z; safe_block_hash : list Z; finalized_block_hash : list Z }.
Record ForkchoiceUpdatedResponseV1 := mkUpdated { payload_status : PayloadStatusV1; payload_id : option (list Z) }.
Record PayloadAttributes := mkAttributes {
  a_timestamp : Z; a_prev_randao : list Z; a_suggested_fee_recipient : list Z; a_withdrawals : option (list Withdrawal);
  a_parent_beacon_block_root : option (list Z);
}.
(** The attributes of the three versions, by [From]. *)
Definition attributes_v1 (timestamp : Z) (prev_randao fee_recipient : list Z) : PayloadAttributes :=
  mkAttributes timestamp prev_randao fee_recipient None None.
Definition attributes_v2 (timestamp : Z) (prev_randao fee_recipient : list Z) (w : list Withdrawal) : PayloadAttributes :=
  mkAttributes timestamp prev_randao fee_recipient (Some w) None.
Definition attributes_v3 (timestamp : Z) (prev_randao fee_recipient : list Z) (w : list Withdrawal) (root : list Z) : PayloadAttributes :=
  mkAttributes timestamp prev_randao fee_recipient (Some w) (Some root).

Definition H256_zero : list Z := replicate 32 0.

(** * forkchoice.rs *)

Record BlockInfo := mkInfo { i_hash : list Z; i_parent_hash : list Z; i_number : Z; i_total_difficulty : Z; validated : bool }.
Record ForkChoiceStore := mkStore {
  head : list Z; safe : list Z; finalized : list Z; blocks : gmap (list Z) BlockInfo;
}.
Definition store_new : ForkChoiceStore := mkStore H256_zero H256_zero H256_zero ∅.
Definition is_valid_block (hash : list Z) (s : ForkChoiceStore) : bool :=
  if bool_decide (hash = H256_zero) then true
  else match blocks s !! hash with Some b => validated b | None => false end.
Definition update_forkchoice (st : ForkchoiceStateV1) : SM ForkChoiceStore EngineError PayloadStatusV1 :=
  let! s := sget in
  let refuse msg := sret (mkStatus Invalid (Some (finalized s)) (Some msg)) in
  if negb (is_valid_block (head_block_hash st) s) then refuse "Invalid head block"
  else if negb (bool_decide (safe_block_hash st = H256_zero)) && negb (is_valid_block (safe_block_hash st) s)
  then refuse "Invalid safe block"
  else if negb (bool_decide (finalized_block_hash st = H256_zero)) && negb (is_valid_block (finalized_block_hash st) s)
  then refuse "Invalid finalized block"
  else
    sput (mkStore (head_block_hash st) (safe_block_hash st) (finalized_block_hash st) (blocks s)) ;;!
    sret (mkStatus Valid (Some (head_block_hash st)) None).
Definition set_blocks (f : gmap (list Z) BlockInfo -> gmap (list Z) BlockInfo) (s : ForkChoiceStore) : ForkChoiceStore :=
  mkStore (head s) (safe s) (finalized s) (f (blocks s)).
Definition store_add_block (hash parent_hash : list Z) (number total_difficulty : Z) : ForkChoiceStore -> ForkChoiceStore :=
  set_blocks (insert hash (mkInfo hash parent_hash number total_difficulty false)).
Definition store_validate_block (hash : list Z) : SM ForkChoiceStore EngineError unit :=
  let! s := sget in
  match blocks s !! hash with
  | Some b => sput (set_blocks (insert hash (mkInfo (i_hash b) (i_parent_hash b) (i_number b) (i_total_difficulty b) true)) s)
  | None => sfail (InvalidForkChoiceState "Block not found")
  end.
(** The walk of [is_canonical] from [current] towards the first block. *)
Fixpoint canonical_loop (fuel : nat) (s : ForkChoiceStore) (current : list Z) : outcome EngineError bool :=
  match fuel with
  | O => Diverge
  | S fuel =>
      if bool_decide (current = H256_zero) then Ok false
      else if bool_decide (current = head s) then Ok true
      else match blocks s !! current with
           | Some b => canonical_loop fuel s (i_parent_hash b)
           | None => Ok false
           end
  end.
Definition is_canonical (fuel : nat) (hash : list Z) (s : ForkChoiceStore) : outcome EngineError bool := canonical_loop fuel s hash.
Definition prune_finalized (s : ForkChoiceStore) : ForkChoiceStore :=
  if bool_decide (finalized s = H256_zero) then s
  else match blocks s !! finalized s with
       | Some f => set_blocks (filter (fun p : list Z * BlockInfo => i_number f <= i_number p.2)) s
       | None => s
       end.

(** * payload.rs *)

Record Header := mkHeader {
  parent_hash : list Z; uncles_hash : list Z; beneficiary : list Z; state_root : list Z; transactions_root : list Z;
  receipts_root : list Z; logs_bloom : list Z; difficulty : Z; number : Z; gas_limit : Z; gas_used : Z; timestamp : Z;
  extra_data : list Z; mix_hash : list Z; nonce : list Z; base_fee_per_gas : option Z; withdrawals_root : option (list Z);
  blob_gas_used : option Z; excess_blob_gas : option Z; parent_beacon_block_root : option (list Z);
}.

Section engine.
Context `{Profile} `{U256Ops} `{Relock} {T : Type}.
Record Block := mkBlock { header : Header; transactions : list T; uncles : list Header; withdrawals : option (list Withdrawal) }.

(** What the crate uses of transactions, headers, the storage [W] and the
    consensus engine. *)
Class EngineOps (W : Type) := {
  tx_gas_limit : T -> Z;
  tx_max_fee : T -> Z;
  rlp_encode_tx : T -> list Z;
  rlp_decode_tx : list Z -> option T;
  header_hash : Header -> list Z;
  insert_block : Block -> W -> W + string;
  block_by_hash : list Z -> W -> option (option Block);
  block_by_number : Z -> W -> option (option Block);
  consensus_validate : Block -> unit + string;
}.
Context {W : Type} `{!EngineOps W}.
Definition block_hash (b : Block) : list Z := header_hash (header b).

Record BuildingPayload := mkBuilding {
  bp_parent_hash : list Z; attributes : PayloadAttributes; block : Block; bp_value : Z; started_at : Z;
}.
Definition DEFAULT_BASE_FEE : Z := 1000000000.
(** The header fields are [U256]s: each operation panics out of range. *)
Definition calculate_base_fee (parent : Block) : outcome EngineError Z :=
  let parent_base_fee := default DEFAULT_BASE_FEE (base_fee_per_gas (header parent)) in
  let parent_gas_used := gas_used (header parent) in
  let? parent_gas_target := unwrap (u_div (gas_limit (header parent)) 2) in
  if parent_gas_used =? parent_gas_target then Ok parent_base_fee
  else
    let? gas_used_delta := (if parent_gas_target <? parent_gas_used then unwrap (u_sub parent_gas_used parent_gas_target)
                            else unwrap (u_sub parent_gas_target parent_gas_used)) in
    let? x := unwrap (u_mul parent_base_fee gas_used_delta) in
    let? x := unwrap (u_div x parent_gas_target) in
    let? base_fee_delta := unwrap (u_div x 8) in
    if parent_gas_target <? parent_gas_used then unwrap (u_add parent_base_fee base_fee_delta)
    else if base_fee_delta <? parent_base_fee then unwrap (u_sub parent_base_fee base_fee_delta)
    else Ok 1.
Definition EXTRA_DATA : list Z := [101; 116; 104; 101; 114; 101; 117; 109; 45; 114; 117; 115; 116].
Definition create_block (parent_hash : list Z) (parent : Block) (a : PayloadAttributes) : outcome EngineError Block :=
  let? base_fee := calculate_base_fee parent in
  let? n := uadd 64 (number (header parent)) 1 in
  let blob := match a_withdrawals a with Some _ => Some 0 | None => None end in
  Ok (mkBlock
    (mkHeader parent_hash H256_zero (a_suggested_fee_recipient a) H256_zero H256_zero H256_zero (replicate 256 0) 0 n
       (gas_limit (header parent)) 0 (a_timestamp a) EXTRA_DATA (a_prev_randao a) (replicate 8 0) (Some base_fee)
       (match a_withdrawals a with Some _ => Some H256_zero | None => None end) blob blob (a_parent_beacon_block_root a))
    [] [] (a_withdrawals a)).
Notation Payloads := (gmap (list Z) BuildingPayload).
(** [id] is the random [PayloadId::new()]. *)
Definition build_payload (id : list Z) (now : Z) (parent_hash : list Z) (parent : Block) (a : PayloadAttributes) :
    SM Payloads EngineError (list Z) :=
  let! b := slift (create_block parent_hash parent a) in
  smodify (insert id (mkBuilding parent_hash a b 0 now)) ;;!
  sret id.
(** The loop of [update_payload] over the pending transactions: for the first
    that fits it calls [get_payload_v3], which asks for the lock the method
    itself holds. *)
Fixpoint update_loop (gas_limit gas_used value : Z) (txs : list T) : outcome EngineError Z :=
  match txs with
  | [] => Ok value
  | tx :: txs =>
      let? total := unwrap (u_add gas_used (tx_gas_limit tx)) in
      if gas_limit <? total then update_loop gas_limit gas_used value txs
      else
        let? value := unwrap (u_add value (tx_max_fee tx)) in
        relocked
  end.
Definition update_payload (id : list Z) (now : Z) (pending : list T) : SM Payloads EngineError bool :=
  let! m := sget in
  match m !! id with
  | None => sret false
  | Some p =>
      if 12 <=? Z.max 0 (now - started_at p) then sret false
      else
        let! value := slift (update_loop (gas_limit (header (block p))) (gas_used (header (block p))) (bp_value p) pending) in
        smodify (insert id (mkBuilding (bp_parent_hash p) (attributes p) (block p) value (started_at p))) ;;!
        sret true
  end.
Definition payload_v1 (b : Block) : outcome EngineError ExecutionPayloadV1 :=
  let h := header b in
  let? limit := unwrap (u_as_u64 (gas_limit h)) in
  let? used := unwrap (u_as_u64 (gas_used h)) in
  Ok (mkPayloadV1 (parent_hash h) (beneficiary h) (state_root h) (receipts_root h) (logs_bloom h) (mix_hash h) (number h) limit used
    (timestamp h) (extra_data h) (default 0 (base_fee_per_gas h)) (block_hash b) (map rlp_encode_tx (transactions b))).
Definition get_building (id : list Z) (m : Payloads) : outcome EngineError BuildingPayload :=
  match m !! id with Some p => Ok p | None => Err UnknownPayload end.
Definition get_payload_v1 (id : list Z) (m : Payloads) : outcome EngineError ExecutionPayloadV1 :=
  let? p := get_building id m in payload_v1 (block p).
Definition get_payload_v2 (id : list Z) (m : Payloads) : outcome EngineError ExecutionPayloadV2 :=
  let? p := get_building id m in
  let? v1 := get_payload_v1 id m in
  Ok (mkPayloadV2 v1 (default [] (withdrawals (block p)))).
Definition get_payload_v3 (id : list Z) (m : Payloads) : outcome EngineError ExecutionPayloadV3 :=
  let? p := get_building id m in
  let? v2 := get_payload_v2 id m in
  Ok (mkPayloadV3 v2 (default 0 (blob_gas_used (header (block p)))) (default 0 (excess_blob_gas (header (block p))))).
Definition remove_payload (id : list Z) (m : Payloads) : Payloads := delete id m.

(** * api.rs *)

Record EngineApiServer := mkServer { forkchoice : ForkChoiceStore; payloads : Payloads; storage : W }.
Definition server_new (w : W) : EngineApiServer := mkServer store_new ∅ w.
Notation AM := (SM EngineApiServer EngineError).
Definition on_forkchoice {A} (m : SM ForkChoiceStore EngineError A) : AM A := fun s =>
  let '(r, f) := m (forkchoice s) in (r, mkServer f (payloads s) (storage s)).
Definition on_payloads {A} (m : SM Payloads EngineError A) : AM A := fun s =>
  let '(r, p) := m (payloads s) in (r, mkServer (forkchoice s) p (storage s)).
(** [show] is the [Debug] text of a storage error in its message. *)
Definition validate_and_import_payload (show : string -> string) (b : Block) : AM PayloadStatusV1 :=
  match consensus_validate b with
  | inr e => sret (mkStatus Invalid None (Some e))
  | inl _ =>
      let! s := sget in
      (match insert_block b (storage s) with
       | inr e => sfail (Internal (show e))
       | inl w => sput (mkServer (forkchoice s) (payloads s) w)
       end) ;;!
      on_forkchoice (smodify (store_add_block (block_hash b) (parent_hash (header b)) (number (header b)) (difficulty (header b)))) ;;!
      on_forkchoice (store_validate_block (block_hash b)) ;;!
      sret (mkStatus Valid (Some (block_hash b)) None)
  end.
Definition payload_to_block (p : ExecutionPayloadV1) : Block :=
  mkBlock
    (mkHeader (p1_parent_hash p) H256_zero (p1_fee_recipient p) (p1_state_root p) H256_zero (p1_receipts_root p) (p1_logs_bloom p) 0
       (p1_block_number p) (p1_gas_limit p) (p1_gas_used p) (p1_timestamp p) (p1_extra_data p) (p1_prev_randao p) (replicate 8 0)
       (Some (p1_base_fee_per_gas p)) None None None None)
    (omap rlp_decode_tx (p1_transactions p)) [] None.
Definition set_header (f : Header -> Header) (b : Block) : Block := mkBlock (f (header b)) (transactions b) (uncles b) (withdrawals b).
Definition payload_v2_to_block (p : ExecutionPayloadV2) : Block :=
  let b := payload_to_block (p2_v1 p) in
  mkBlock (mkHeader (parent_hash (header b)) (uncles_hash (header b)) (beneficiary (header b)) (state_root (header b))
      (transactions_root (header b)) (receipts_root (header b)) (logs_bloom (header b)) (difficulty (header b)) (number (header b))
      (gas_limit (header b)) (gas_used (header b)) (timestamp (header b)) (extra_data (header b)) (mix_hash (header b))
      (nonce (header b)) (base_fee_per_gas (header b)) (Some H256_zero) (blob_gas_used (header b)) (excess_blob_gas (header b))
      (parent_beacon_block_root (header b)))
    (transactions b) (uncles b) (Some (p2_withdrawals p)).
Definition with_blobs (used excess : option Z) (root : option (list Z)) (h : Header) : Header :=
  mkHeader (parent_hash h) (uncles_hash h) (beneficiary h) (state_root h) (transactions_root h) (receipts_root h) (logs_bloom h)
    (difficulty h) (number h) (gas_limit h) (gas_used h) (timestamp h) (extra_data h) (mix_hash h) (nonce h) (base_fee_per_gas h)
    (withdrawals_root h) used excess root.
Definition payload_v3_to_block (p : ExecutionPayloadV3) : Block :=
  let b := payload_v2_to_block (p3_v2 p) in
  set_header (with_blobs (Some (p3_blob_gas_used p)) (Some (p3_excess_blob_gas p)) (parent_beacon_block_root (header b))) b.
Definition new_payload_v1 (show : string -> string) (p : ExecutionPayloadV1) : AM PayloadStatusV1 :=
  validate_and_import_payload show (payload_to_block p).
Definition new_payload_v2 (show : string -> string) (p : ExecutionPayloadV2) : AM PayloadStatusV1 :=
  validate_and_import_payload show (payload_v2_to_block p).
(** The versioned hashes are not looked at. *)
Definition new_payload_v3 (show : string -> string) (p : ExecutionPayloadV3) (versioned_hashes : list (list Z)) (root : list Z) : AM PayloadStatusV1 :=
  let b := payload_v3_to_block p in
  validate_and_import_payload show
    (set_header (with_blobs (blob_gas_used (header b)) (excess_blob_gas (header b)) (Some root)) b).
(** The three versions of forkchoiceUpdated, which differ in the attributes;
    [id] and [now] are the random payload id and the clock. *)
Definition forkchoice_updated (id : list Z) (now : Z) (st : ForkchoiceStateV1) (attrs : option PayloadAttributes) :
    AM ForkchoiceUpdatedResponseV1 :=
  let! stat := on_forkchoice (update_forkchoice st) in
  let! pid := (match attrs with
               | None => sret None
               | Some a =>
                   let! s := sget in
                   match block_by_hash (head_block_hash st) (storage s) with
                   | Some (Some parent) =>
                       let! pid := on_payloads (build_payload id now (head_block_hash st) parent a) in sret (Some pid)
                   | _ => sfail (InvalidForkChoiceState "Parent block not found")
                   end
               end) in
  sret (mkUpdated stat pid).
Record ExecutionPayloadBody := mkBody { body_transactions : list (list Z); body_withdrawals : option (list Withdrawal) }.
Definition body_of (r : option (option Block)) : option ExecutionPayloadBody :=
  match r with
  | Some (Some b) => Some (mkBody (map rlp_encode_tx (transactions b)) (withdrawals b))
  | _ => None
  end.
Definition get_payload_bodies_by_hash_v1 (hashes : list (list Z)) (s : EngineApiServer) : list (option ExecutionPayloadBody) :=
  map (fun h => body_of (block_by_hash h (storage s))) hashes.
Definition get_payload_bodies_by_range_v1 (start count : Z) (s : EngineApiServer) : outcome EngineError (list (option ExecutionPayloadBody)) :=
  let? stop := uadd 64 start count in
  Ok (map (fun n => body_of (block_by_number n (storage s))) (seqZ start (stop - start))).
End engine.

Definition SUPPORTED : list string :=
  ["engine_newPayloadV1"; "engine_newPayloadV2"; "engine_newPayloadV3"; "engine_forkchoiceUpdatedV1"; "engine_forkchoiceUpdatedV2";
   "engine_forkchoiceUpdatedV3"; "engine_getPayloadV1"; "engine_getPayloadV2"; "engine_getPayloadV3"; "engine_getPayloadBodiesByHashV1";
   "engine_getPayloadBodiesByRangeV1"; "engine_exchangeTransitionConfigurationV1"; "engine_getClientVersionV1";
   "engine_exchangeCapabilities"].
Definition exchange_capabilities (methods : list string) : list string := filter (fun m => m ∈ SUPPORTED) methods.

End Engine.
