(* ===== verification/EngineProofs.v ===== *)
(** What the engine API promises: the theorems on crates/engine. *)
From stdpp Require Import base list numbers option strings gmap.
From Stdlib Require Import ZArith Lia.
From S2P Require Import Prelude U256 Engine.

Module EngineProofs.
Import Engine.

(** * The fork-choice store *)


(** The walk towards the first block. *)
Inductive leads (s : ForkChoiceStore) : list Z -> list Z -> Prop :=
| leads_refl h : leads s h h
| leads_step h b a : blocks s !! h = Some b -> h <> H256_zero -> leads s (i_parent_hash b) a -> leads s h a.
(** Parents have smaller numbers. *)
Definition decreasing (s : ForkChoiceStore) : Prop := forall h b p, blocks s !! h = Some b -> 0 <= i_number b /\
  (blocks s !! i_parent_hash b = Some p -> i_number p < i_number b).
Lemma canonical_loop_ok s fuel h : decreasing s -> head s <> H256_zero ->
  (forall b, blocks s !! h = Some b -> i_number b + 2 <= Z.of_nat fuel) -> (1 <= fuel)%nat ->
  exists r, canonical_loop fuel s h = Ok r /\ (r = true <-> leads s h (head s)).
Proof.
  intros Hd Hh. revert h. induction fuel as [|fuel IH]; intros h Hb Hf; [lia|]. cbn [canonical_loop].
  destruct (decide (h = H256_zero)) as [-> |Hz].
  { rewrite bool_decide_true by done. exists false. split; [done|]. split; [done|]. intros Hl. inversion Hl; subst; done. }
  rewrite bool_decide_false by done. destruct (decide (h = head s)) as [-> |Hne].
  { rewrite bool_decide_true by done. exists true. split; [done|]. split; [intros _; constructor|done]. }
  rewrite bool_decide_false by done. destruct (blocks s !! h) as [b|] eqn:Hbh.
  - destruct (Hd h b b Hbh) as [Hb0 _]. specialize (Hb b eq_refl). destruct (IH (i_parent_hash b)) as (r & Hr & Hiff); [|lia|].
    + intros p Hp. destruct (Hd h b p Hbh) as [_ Hlt]. specialize (Hlt Hp). lia.
    + exists r. split; [done|]. rewrite Hiff. split; [by econstructor|]. intros Hl. inversion Hl; subst; [done|]. by simplify_eq.
  - exists false. split; [done|]. split; [done|]. intros Hl. inversion Hl; subst; [done|congruence].
Qed.
(** over blocks whose numbers exceed those of their parents, is_canonical
    ends within as many rounds as the number of the block and two, and answers
    whether the head is the block itself or an ancestor of it: it finds the
    descendants of the head, not the chain below it. *)
Theorem canonical_means_above_head s h fuel :
  decreasing s -> head s <> H256_zero -> (1 <= fuel)%nat ->
  (forall b, blocks s !! h = Some b -> i_number b + 2 <= Z.of_nat fuel) ->
  exists r, is_canonical fuel h s = Ok r /\ (r = true <-> leads s h (head s)) /\
    forall b hb, blocks s !! h = Some b -> blocks s !! head s = Some hb -> h <> head s -> i_number b <= i_number hb -> r = false.
Proof.
  intros Hd Hh Hf Hb. destruct (canonical_loop_ok s fuel h Hd Hh Hb Hf) as (r & Hr & Hiff). exists r. split; [done|]. split; [done|].
  intros b hb Hbh Hhb Hne Hle. destruct r; [|done]. exfalso.
  assert (forall a, leads s h a -> h <> a -> forall b hb, blocks s !! h = Some b -> blocks s !! a = Some hb -> i_number hb < i_number b) as Hlt.
  { clear -Hd. intros a Hl. induction Hl as [h|h b a Hbh Hz Hl IH]; intros Hne b' hb Hb' Ha; [done|]. simplify_eq.
    destruct (decide (i_parent_hash b = a)) as [<- |Hpa]; [by destruct (Hd h b hb Hbh) as [_ ?]; auto|].
    inversion Hl as [|? pb ? Hpb]; subst; [done|]. destruct (Hd h b pb Hbh) as [_ Hlt]. specialize (IH Hpa pb hb Hpb Ha). specialize (Hlt Hpb). lia. }
  pose proof (Hlt _ (proj1 Hiff eq_refl) Hne b hb Hbh Hhb). lia.
Qed.

(** * Payloads *)

Section engine.
Context `{Profile} `{U256Ops} `{!U256Laws} `{Relock} {T W : Type} `{!EngineOps (T := T) W}.
Notation Server := (EngineApiServer (T := T) (W := W)).
Implicit Types (b parent : Block (T := T)) (a : PayloadAttributes) (s : Server).

Definition block_range b : Prop :=
  U256 (gas_limit (header b)) /\ U256 (gas_used (header b)) /\ U256 (default DEFAULT_BASE_FEE (base_fee_per_gas (header b))).
(** The base fee as integer arithmetic: unchanged at the target, otherwise
    moved by the share of an eighth that the deviation is of the target, and
    when the computation does not fit 256 bits or divides by a target of zero. *)
Definition fee_move (f0 target used : Z) : Z := f0 * Z.abs (used - target) / target / 8.
Definition next_fee (f0 target used : Z) : Z :=
  if used =? target then f0
  else if target <? used then f0 + fee_move f0 target used
  else Z.max 1 (f0 - fee_move f0 target used).
Definition fee_panics (f0 target used : Z) : bool :=
  negb (used =? target) &&
  ((target =? 0) || (2 ^ 256 <=? f0 * Z.abs (used - target)) ||
   ((target <? used) && (2 ^ 256 <=? f0 + fee_move f0 target used))).

Lemma fee_move_bounds f0 target used : 0 <= f0 -> 0 < target -> 0 <= used <= 2 * target + 1 ->
  0 <= fee_move f0 target used <= (f0 + f0 / target) / 8 /\
  (used <= 2 * target -> fee_move f0 target used <= f0 / 8).
Proof.
  intros Hf Ht Hu. unfold fee_move. set (d := Z.abs (used - target)). assert (0 <= d <= target + 1) as Hd by lia.
  assert (f0 * (target + 1) / target = f0 + f0 / target) as Hodd.
  { rewrite Z.mul_add_distr_l, Z.mul_1_r, Z.div_add_l by lia. done. }
  split; [split|].
  - apply Z.div_pos; [apply Z.div_pos; nia|lia].
  - rewrite <- Hodd. apply Z.div_le_mono; [lia|]. apply Z.div_le_mono; nia.
  - intros Hle. apply Z.div_le_mono; [lia|]. apply Z.div_le_upper_bound; nia.
Qed.
Lemma calculate_base_fee_eq parent :
  let f0 := default DEFAULT_BASE_FEE (base_fee_per_gas (header parent)) in
  let target := gas_limit (header parent) / 2 in
  let used := gas_used (header parent) in
  block_range parent -> used <= gas_limit (header parent) ->
  calculate_base_fee parent = if fee_panics f0 target used then Panic else Ok (next_fee f0 target used).
Proof.
  intros f0 target used (Hl & Hu & Hf) Hle. fold f0 in Hf. fold used in Hu. unfold uint in *.
  assert (0 <= target < 2 ^ 256 /\ used <= 2 * target + 1) as [Ht Hlim] by (unfold target; zlia).
  unfold calculate_base_fee, fee_panics, next_fee. fold f0 used. rewrite div_law by done. change (2 =? 0) with false. cbn [unwrap obind]. fold target.
  destruct (Z.eqb_spec used target) as [He|Hne]; [done|]. cbn [negb andb].
  assert ((if target <? used then unwrap (u_sub used target) else unwrap (u_sub target used)) = @Ok EngineError _ (Z.abs (used - target))) as ->.
  { destruct (Z.ltb_spec target used); rewrite sub_law, (proj2 (Z.leb_le _ _)) by (unfold uint; lia); cbn [unwrap]; f_equal; lia. }
  cbn [obind]. rewrite mul_law by (unfold uint; lia).
  destruct (Z.ltb_spec (f0 * Z.abs (used - target)) (2 ^ 256)) as [Hfit|Hbig]; cbn [unwrap obind].
  2: { rewrite (proj2 (Z.leb_le _ _)), orb_true_r by lia. done. }
  rewrite (proj2 (Z.leb_gt _ _)), orb_false_r by lia. rewrite div_law by (unfold uint; nia).
  destruct (Z.eqb_spec target 0) as [Hz|Hnz]; cbn [unwrap obind orb]; [done|].
  destruct (fee_move_bounds f0 target used) as [[Hm0 Hm1] _]; [lia|lia|lia|].
  assert (0 <= f0 * Z.abs (used - target) / target < 2 ^ 256) as Hq by (split; [apply Z.div_pos|apply Z.div_lt_upper_bound]; nia).
  rewrite div_law by (unfold uint; lia). change (8 =? 0) with false. cbn [unwrap obind]. fold (fee_move f0 target used).
  destruct (Z.ltb_spec target used) as [Hlt|Hge]; cbn [andb].
  - assert (fee_move f0 target used < 2 ^ 256) by (unfold fee_move; apply Z.div_lt_upper_bound; lia).
    rewrite add_law by (unfold uint; lia). destruct (Z.ltb_spec (f0 + fee_move f0 target used) (2 ^ 256)).
    + by rewrite (proj2 (Z.leb_gt _ _)).
    + by rewrite (proj2 (Z.leb_le _ _)).
  - destruct (Z.ltb_spec (fee_move f0 target used) f0); [|by rewrite Z.max_l by lia].
    rewrite sub_law, (proj2 (Z.leb_le _ _)) by (unfold uint; lia). cbn [unwrap]. by rewrite Z.max_r by lia.
Qed.

(** C30: the base fee after any block with fields in range that used no more
    than its gas limit.  It panics exactly when the gas used is off a target of
    zero (a limit of one), or when the fee times the deviation, or the raised
    fee, exceeds 256 bits.  Otherwise the fee stays at the target, moves by the
    share of an eighth the deviation is of the target and does not fall below
    one: it falls by at most an eighth, rises by at most an eighth unless the
    block is full and its limit odd, by at most an eighth of the fee and its
    quotient by the target then, and is positive if it was. *)
Theorem base_fee_moves_by_an_eighth parent :
  let f0 := default DEFAULT_BASE_FEE (base_fee_per_gas (header parent)) in
  let target := gas_limit (header parent) / 2 in
  let used := gas_used (header parent) in
  block_range parent -> used <= gas_limit (header parent) ->
  calculate_base_fee parent = (if fee_panics f0 target used then Panic else Ok (next_fee f0 target used)) /\
  (fee_panics f0 target used = false ->
    f0 - f0 / 8 <= next_fee f0 target used /\
    next_fee f0 target used <= Z.max 1 (f0 + (if used <=? 2 * target then f0 / 8 else (f0 + f0 / target) / 8)) /\
    (0 < f0 -> 0 < next_fee f0 target used)).
Proof.
  intros f0 target used Hr Hle. split; [by apply calculate_base_fee_eq|]. intros Hp.
  destruct Hr as (Hl & Hu & Hf). fold f0 in Hf. fold used in Hu. unfold uint in *.
  assert (0 <= f0 / 8) by (apply Z.div_pos; lia). assert (0 <= target /\ used <= 2 * target + 1) as [Ht Hlim] by (unfold target; zlia).
  unfold next_fee. destruct (Z.eqb_spec used target) as [He|Hne].
  { rewrite (proj2 (Z.leb_le used (2 * target))) by lia. lia. }
  unfold fee_panics in Hp. rewrite (proj2 (Z.eqb_neq used target)) in Hp by done. cbn [negb andb] in Hp.
  destruct (Z.eqb_spec target 0); [done|]. destruct (fee_move_bounds f0 target used) as [[Hm0 Hm1] Hm2]; [lia|lia|lia|].
  destruct (Z.ltb_spec target used) as [Hlt|Hge]; [|specialize (Hm2 ltac:(lia))]; destruct (Z.leb_spec used (2 * target)); try specialize (Hm2 ltac:(lia)); lia.
Qed.

Lemma create_block_payload ph parent a b : create_block ph parent a = Ok b -> 0 <= gas_limit (header parent) < 2 ^ 64 ->
  exists p, payload_v1 b = Ok p /\ p1_block_hash p = block_hash b /\
    payload_to_block p = mkBlock (with_blobs None None None (mkHeader ph H256_zero (a_suggested_fee_recipient a) H256_zero H256_zero H256_zero
      (replicate 256 0) 0 (number (header b)) (gas_limit (header parent)) 0 (a_timestamp a) EXTRA_DATA (a_prev_randao a) (replicate 8 0)
      (base_fee_per_gas (header b)) None None None None)) [] [] None.
Proof.
  intros Hc Hg. unfold create_block in Hc. destruct (calculate_base_fee parent) as [f| | |]; [|done..]. cbn [obind] in Hc.
  destruct (uadd 64 (number (header parent)) 1) as [n| | |]; [|done..]. cbn [obind] in Hc. injection Hc as <-.
  unfold payload_v1. cbn [header gas_limit gas_used]. rewrite !as_u64_law, !(proj2 (Z.ltb_lt _ _)) by (unfold uint; lia).
  cbn [unwrap obind]. eexists. by split_and!.
Qed.
(** C29: a payload built for attributes of version 1 or 3 comes back: the
    payload that can be fetched under its id is read as exactly the block that
    was built, whose hash it announces, and submitting it imports that block.
    With attributes of version 2 the block gets blob fields the payload does
    not carry, and what is read back is another block. *)
Theorem built_payload_comes_back show id now ph parent a m m' :
  build_payload id now ph parent a m = (Ok id, m') -> 0 <= gas_limit (header parent) < 2 ^ 64 ->
  exists b, create_block ph parent a = Ok b /\
  match a_withdrawals a, a_parent_beacon_block_root a with
  | None, None => exists p, get_payload_v1 id m' = Ok p /\ p1_block_hash p = block_hash b /\
      forall s, new_payload_v1 show p s = validate_and_import_payload show b s
  | Some _, Some root => exists p, get_payload_v3 id m' = Ok p /\ p1_block_hash (p2_v1 (p3_v2 p)) = block_hash b /\
      forall hashes s, new_payload_v3 show p hashes root s = validate_and_import_payload show b s
  | Some _, None => exists p, get_payload_v2 id m' = Ok p /\ payload_v2_to_block p <> b
  | None, Some _ => True
  end.
Proof.
  intros Hb Hg. unfold build_payload in Hb. destruct (create_block ph parent a) as [b| | |] eqn:Hc; [|done..].
  rewrite sbind_lift, sbind_modify in Hb. injection Hb as Hm. exists b. split; [done|].
  destruct (create_block_payload ph parent a b Hc Hg) as (p & Hp & Hhash & Hback).
  assert (get_building id m' = Ok (mkBuilding ph a b 0 now)) as Hget by (unfold get_building; by rewrite <- Hm, lookup_insert_eq).
  assert (get_payload_v1 id m' = Ok p) as H1' by (unfold get_payload_v1; by rewrite Hget).
  assert (get_payload_v2 id m' = Ok (mkPayloadV2 p (default [] (withdrawals b)))) as H2' by (unfold get_payload_v2; by rewrite Hget, H1').
  assert (exists f n, b = mkBlock (mkHeader ph H256_zero (a_suggested_fee_recipient a) H256_zero H256_zero H256_zero (replicate 256 0) 0 n
    (gas_limit (header parent)) 0 (a_timestamp a) EXTRA_DATA (a_prev_randao a) (replicate 8 0) (Some f)
    (match a_withdrawals a with Some _ => Some H256_zero | None => None end) (match a_withdrawals a with Some _ => Some 0 | None => None end)
    (match a_withdrawals a with Some _ => Some 0 | None => None end) (a_parent_beacon_block_root a)) [] [] (a_withdrawals a)) as (f & n & Hbeq).
  { unfold create_block in Hc. destruct (calculate_base_fee parent) as [f| | |]; [|done..]. cbn [obind] in Hc.
    destruct (uadd 64 (number (header parent)) 1) as [n| | |]; [|done..]. injection Hc as <-. by exists f, n. }
  destruct (a_withdrawals a) as [ws|], (a_parent_beacon_block_root a) as [root|]; [| |done|].
  - eexists. split; [unfold get_payload_v3; rewrite Hget, H2'; reflexivity|]. split; [done|]. intros hashes s.
    unfold new_payload_v3. f_equal. unfold payload_v3_to_block, payload_v2_to_block. cbn [p3_v2 p2_v1 p2_withdrawals]. rewrite Hback, Hbeq. done.
  - eexists. split; [exact H2'|]. unfold payload_v2_to_block. cbn [p2_v1 p2_withdrawals]. rewrite Hback, Hbeq. done.
  - exists p. split; [done|]. split; [done|]. intros s. unfold new_payload_v1. rewrite Hback, Hbeq. done.
Qed.

(** * The server *)

(** What reaches the server: the calls of the consensus client and the rounds
    of the payload builder. *)
Inductive Request :=
| NewPayloadV1 (p : ExecutionPayloadV1) | NewPayloadV2 (p : ExecutionPayloadV2)
| NewPayloadV3 (p : ExecutionPayloadV3) (hashes : list (list Z)) (root : list Z)
| ForkchoiceUpdated (id : list Z) (now : Z) (st : ForkchoiceStateV1) (attrs : option PayloadAttributes)
| UpdatePayload (id : list Z) (now : Z) (pending : list T).
(** The state a request leaves, whatever it answers. *)
Definition serve (show : string -> string) (r : Request) (s : Server) : Server :=
  match r with
  | NewPayloadV1 p => (new_payload_v1 show p s).2
  | NewPayloadV2 p => (new_payload_v2 show p s).2
  | NewPayloadV3 p hashes root => (new_payload_v3 show p hashes root s).2
  | ForkchoiceUpdated id now st attrs => (forkchoice_updated id now st attrs s).2
  | UpdatePayload id now pending => (on_payloads (update_payload id now pending) s).2
  end.
(** What the server relies on: a block that was stored is found under its
    hash, and the others stay. *)
Class StorageLaws : Prop := {
  insert_found b w w' : insert_block b w = inl w' -> block_by_hash (block_hash b) w' = Some (Some b);
  insert_other b w w' h : insert_block b w = inl w' -> h <> block_hash b -> block_by_hash h w' = block_by_hash h w;
}.
Context `{!StorageLaws}.
End engine.

(** * Witnesses *)

#[local] Existing Instance dev_profile.
#[local] Instance waiting_lock : Relock := {| relock_panics := false |}.
Definition hash_of (n : Z) : list Z := replicate 32 n.
(** A store of blocks, newest first, a transaction as its gas and its fee. *)
Definition lookup_block (h : list Z) (f : Header -> list Z) (w : list (Block (T := Z * Z))) : option Block :=
  List.find (fun b => bool_decide (f (header b) = h)) w.
Definition toy_hash (h : Header) : list Z := hash_of (number h).
#[local] Instance toy_engine : EngineOps (T := Z * Z) (list Block) := {|
  tx_gas_limit := fst; tx_max_fee := snd; rlp_encode_tx tx := [tx.1; tx.2];
  rlp_decode_tx bs := match bs with [g; f] => Some (g, f) | _ => None end;
  header_hash := toy_hash;
  insert_block b w := inl (b :: w);
  block_by_hash h w := Some (lookup_block h toy_hash w);
  block_by_number n w := Some (lookup_block (hash_of n) toy_hash w);
  consensus_validate b := if 0 <? number (header b) then inl tt else inr "InvalidBlock"%string;
|}.
#[local] Instance toy_storage : StorageLaws (T := Z * Z) (W := list Block).
Proof.
  split.
  - intros b w w' [= <-]. unfold block_by_hash, block_hash. cbn -[bool_decide]. unfold lookup_block. cbn -[bool_decide]. by rewrite bool_decide_true.
  - intros b w w' h [= <-] Hne. unfold block_by_hash, block_hash in *. cbn -[bool_decide] in *. unfold lookup_block. cbn -[bool_decide].
    by rewrite bool_decide_false.
Qed.
Definition toy_payload (n : Z) : ExecutionPayloadV1 :=
  mkPayloadV1 (hash_of (n - 1)) (replicate 20 7) H256_zero H256_zero [] H256_zero n 30000000 20000000 (12 * n) [] 800 (hash_of n) [[21000; 5]].
Notation ToyServer := (EngineApiServer (T := Z * Z) (W := list Block)).
Definition toy_requests : list (Request (T := Z * Z)) :=
  [NewPayloadV1 (toy_payload 1); NewPayloadV1 (toy_payload 2); NewPayloadV1 (toy_payload 3);
   ForkchoiceUpdated (hash_of 50) 100 (mkForkchoice (hash_of 3) (hash_of 2) (hash_of 1)) None].
Definition toy_server : ToyServer := foldl (fun s r => serve id r s) (server_new []) toy_requests.
Definition toy_parent : Block (T := Z * Z) := payload_to_block (toy_payload 3).
Lemma base_fee_moves_by_an_eighth_witness : calculate_base_fee toy_parent = Ok 833.
Proof.
  destruct (base_fee_moves_by_an_eighth toy_parent) as [He _]; [done|by vm_compute|]. rewrite He. by vm_compute.
Defined.
Definition toy_attributes : PayloadAttributes := attributes_v3 48 H256_zero (replicate 20 8) [] (hash_of 9).
Definition toy_built : outcome EngineError (list Z) * gmap (list Z) (BuildingPayload (T := Z * Z)) :=
  build_payload (hash_of 50) 100 (hash_of 3) toy_parent toy_attributes ∅.
Lemma built_payload_comes_back_witness : exists b p, create_block (hash_of 3) toy_parent toy_attributes = Ok b /\
  get_payload_v3 (hash_of 50) toy_built.2 = Ok p /\ p1_block_hash (p2_v1 (p3_v2 p)) = block_hash b.
Proof.
  destruct (built_payload_comes_back id (hash_of 50) 100 (hash_of 3) toy_parent toy_attributes ∅ toy_built.2) as (b & Hb & p & Hp & Hh & _);
    [by vm_compute|done|]. by exists b, p.
Defined.
(** The store of test_canonical_chain in forkchoice.rs. *)
Definition toy_info (n p num : Z) : list Z * BlockInfo := (hash_of n, mkInfo (hash_of n) (hash_of p) num (100 * num) true).
Definition toy_store : ForkChoiceStore :=
  mkStore (hash_of 3) (hash_of 2) (hash_of 1) (list_to_map [toy_info 1 0 1; toy_info 2 1 2; toy_info 3 2 3; toy_info 4 1 2; toy_info 5 3 4]).
Lemma toy_decreasing : decreasing toy_store.
Proof.
  assert (map_Forall (fun (_ : list Z) b => 0 <= i_number b /\
    match blocks toy_store !! i_parent_hash b with Some p => i_number p <? i_number b | None => true end = true) (blocks toy_store)) as Ha
    by (apply (bool_decide_unpack _); by vm_compute).
  intros h b p Hb. destruct (Ha h b Hb) as [? Hp]. split; [done|]. intros Hpp. rewrite Hpp in Hp. lia.
Qed.
Lemma canonical_means_above_head_witness : is_canonical 6 (hash_of 5) toy_store = Ok true /\ is_canonical 6 (hash_of 2) toy_store = Ok false.
Proof.
  split.
  - destruct (canonical_means_above_head toy_store (hash_of 5) 6 toy_decreasing) as (r & Hr & Hiff & _); [done|lia| |].
    + intros b Hb. vm_compute in Hb. injection Hb as <-. by vm_compute.
    + rewrite Hr. f_equal. apply Hiff. econstructor; [reflexivity|done|]. apply leads_refl.
  - destruct (canonical_means_above_head toy_store (hash_of 2) 6 toy_decreasing) as (r & Hr & _ & Hno); [done|lia| |].
    + intros b Hb. vm_compute in Hb. injection Hb as <-. by vm_compute.
    + rewrite Hr. f_equal. eapply Hno; [reflexivity|reflexivity|done|by cbn].
Defined.

(** * Behaviours to know of *)

(** The chain below the head is not canonical, against test_canonical_chain. *)
Example ancestors_not_canonical : is_canonical 9 (hash_of 3) toy_store = Ok true /\ is_canonical 9 (hash_of 2) toy_store = Ok false /\
  is_canonical 9 (hash_of 1) toy_store = Ok false.
Proof. by vm_compute. Qed.
(** The finalized block can be moved back, to an older block or to none. *)
Example finalized_moves_back :
  finalized (update_forkchoice (mkForkchoice (hash_of 3) (hash_of 3) H256_zero) toy_store).2 = H256_zero.
Proof. by vm_compute. Qed.
(** Nothing relates the three blocks, and pruning below a finalized block above
    the head drops the head. *)
Example pruning_drops_head :
  blocks (prune_finalized (update_forkchoice (mkForkchoice (hash_of 1) (hash_of 1) (hash_of 5)) toy_store).2) !! hash_of 1 = None.
Proof. by vm_compute. Qed.
(** With a pending transaction that fits, update_payload waits for its own lock. *)
Example update_waits_for_itself : (update_payload (hash_of 50) 101 [(21000, 5)] toy_built.2).1 = Diverge.
Proof. by vm_compute. Qed.
(** An update that is refused still starts a payload on the head it names. *)
Example refused_update_builds :
  (forkchoice_updated (hash_of 51) 100 (mkForkchoice (hash_of 3) (hash_of 40) H256_zero) (Some toy_attributes) toy_server).1 =
  Ok (mkUpdated (mkStatus Invalid (Some (hash_of 1)) (Some "Invalid safe block"%string)) (Some (hash_of 51))).
Proof. by vm_compute. Qed.
(** The hash a payload announces is not compared, and a transaction that does
    not decode is left out. *)
Example payload_not_checked :
  let p := mkPayloadV1 (hash_of 3) [] [] [] [] [] 4 1 1 48 [] 1 (hash_of 77) [[1; 2; 3]] in
  (new_payload_v1 id p toy_server).1 = Ok (mkStatus Valid (Some (hash_of 4)) None) /\ transactions (T := Z * Z) (payload_to_block p) = [].
Proof. by vm_compute. Qed.
(** A base fee below eight never rises. *)
Example small_fee_stays :
  calculate_base_fee (set_header (fun h => mkHeader (parent_hash h) [] [] [] [] [] [] 0 3 30000000 30000000 36 [] [] [] (Some 7) None None None None) toy_parent) = Ok 7.
Proof. by vm_compute. Qed.

End EngineProofs.
