(* ===== verification/Eip7251.v ===== *)
(** Validator balances after EIP-7251: crates/consensus/src/eip7251.rs.  The
    three constants are class members: their literals, 32 and 2048 ETH in wei,
    exceed the [u64] they are written as, so the file is compiled only where
    the lint on overflowing literals is off, and then with other values
    ([wrapped_caps]) than the comments give ([documented_caps]). *)
From stdpp Require Import base list numbers option strings.
From Stdlib Require Import ZArith Lia.
From S2P Require Import Prelude U256.

Module Eip7251.

Inductive Eip7251Error :=
| InvalidBalance (s : string) | BelowMinimumBalance | ExceedsMaximumBalance | InvalidWithdrawalCredential | ValidatorNotFound.

Class Caps := { MIN_ACTIVATION_BALANCE : Z; MAX_EFFECTIVE_BALANCE_EIP7251 : Z; OLD_MAX_EFFECTIVE_BALANCE : Z }.
Definition ETH : Z := 10 ^ 18.
Definition documented_caps : Caps :=
  {| MIN_ACTIVATION_BALANCE := 32 * ETH; MAX_EFFECTIVE_BALANCE_EIP7251 := 2048 * ETH; OLD_MAX_EFFECTIVE_BALANCE := 32 * ETH |}.
Definition wrapped_caps : Caps :=
  {| MIN_ACTIVATION_BALANCE := wrap 64 (32 * ETH); MAX_EFFECTIVE_BALANCE_EIP7251 := wrap 64 (2048 * ETH);
     OLD_MAX_EFFECTIVE_BALANCE := wrap 64 (32 * ETH) |}.

Inductive WithdrawalCredentialType := Bls | Eth1 | Compounding.
#[export] Instance credential_eq_dec : EqDecision WithdrawalCredentialType.
Proof. solve_decision. Defined.
Definition from_byte (byte : Z) : option WithdrawalCredentialType :=
  if byte =? 0 then Some Bls else if byte =? 1 then Some Eth1 else if byte =? 2 then Some Compounding else None.
Definition to_byte (t : WithdrawalCredentialType) : Z := match t with Bls => 0 | Eth1 => 1 | Compounding => 2 end.

Record ValidatorEip7251 := mkValidator {
  pubkey : list Z; withdrawal_credentials : list Z; effective_balance : Z; slashed : bool; activation_eligibility_epoch : Z;
  activation_epoch : Z; exit_epoch : Z; withdrawable_epoch : Z; pending_balance_to_deposit : Z;
}.
Definition u64_max : Z := 2 ^ 64 - 1.
(** Assignments to fields. *)
Definition set_effective (e p : Z) (v : ValidatorEip7251) : ValidatorEip7251 :=
  mkValidator (pubkey v) (withdrawal_credentials v) e (slashed v) (activation_eligibility_epoch v) (activation_epoch v) (exit_epoch v)
    (withdrawable_epoch v) p.
Definition set_credential (b : Z) (v : ValidatorEip7251) : ValidatorEip7251 :=
  mkValidator (pubkey v) (<[0%nat := b]> (withdrawal_credentials v)) (effective_balance v) (slashed v) (activation_eligibility_epoch v)
    (activation_epoch v) (exit_epoch v) (withdrawable_epoch v) (pending_balance_to_deposit v).
Definition set_exit_epoch (e : Z) (v : ValidatorEip7251) : ValidatorEip7251 :=
  mkValidator (pubkey v) (withdrawal_credentials v) (effective_balance v) (slashed v) (activation_eligibility_epoch v)
    (activation_epoch v) e (withdrawable_epoch v) (pending_balance_to_deposit v).

Record ValidatorRegistry := mkRegistry { validators : list ValidatorEip7251; balances : list Z }.
Definition registry_new : ValidatorRegistry := mkRegistry [] [].

Section registry.
Context `{U256Ops} `{Caps}.
Notation VM := (SM ValidatorEip7251 Eip7251Error).
Notation RM := (SM ValidatorRegistry Eip7251Error).

(** The credentials are an array of 32 bytes: the first exists. *)
Definition credential_type (wc : list Z) : option WithdrawalCredentialType := from_byte (default 0 (wc !! 0%nat)).
Definition max_effective (t : WithdrawalCredentialType) : Z :=
  match t with Compounding => MAX_EFFECTIVE_BALANCE_EIP7251 | _ => OLD_MAX_EFFECTIVE_BALANCE end.
Definition validator_new (pubkey withdrawal_credentials : list Z) (initial_balance : Z) : outcome Eip7251Error ValidatorEip7251 :=
  if initial_balance <? MIN_ACTIVATION_BALANCE then Err BelowMinimumBalance
  else match credential_type withdrawal_credentials with
       | None => Err InvalidWithdrawalCredential
       | Some t =>
           let effective := if max_effective t <? initial_balance then max_effective t else initial_balance in
           Ok (mkValidator pubkey withdrawal_credentials effective false u64_max u64_max u64_max u64_max 0)
       end.
Definition get_withdrawal_credential_type (v : ValidatorEip7251) : option WithdrawalCredentialType :=
  credential_type (withdrawal_credentials v).
Definition is_compounding (v : ValidatorEip7251) : bool := bool_decide (get_withdrawal_credential_type v = Some Compounding).
Definition get_max_effective_balance (v : ValidatorEip7251) : Z :=
  if is_compounding v then MAX_EFFECTIVE_BALANCE_EIP7251 else OLD_MAX_EFFECTIVE_BALANCE.
Definition add_balance (amount : Z) : VM unit :=
  let! v := sget in
  let! new_balance := slift (unwrap (u_add (effective_balance v) amount)) in
  let max := get_max_effective_balance v in
  if max <? new_balance then
    let! rest := slift (unwrap (u_sub new_balance max)) in
    sput (set_effective max rest v)
  else sput (set_effective new_balance (pending_balance_to_deposit v) v).
Definition consolidate_balance : VM Z :=
  let! v := sget in
  let consolidatable := pending_balance_to_deposit v in
  let max := get_max_effective_balance v in
  let! new_effective := slift (unwrap (u_add (effective_balance v) consolidatable)) in
  (if max <? new_effective then
     let! rest := slift (unwrap (u_sub new_effective max)) in
     sput (set_effective max rest v)
   else sput (set_effective new_effective 0 v)) ;;!
  sret consolidatable.
Definition switch_to_compounding_validator : VM unit :=
  let! v := sget in
  if bool_decide (get_withdrawal_credential_type v = Some Eth1) then
    smodify (set_credential (to_byte Compounding)) ;;!
    consolidate_balance ;;!
    sret tt
  else sfail InvalidWithdrawalCredential.
Definition is_active (epoch : Z) (v : ValidatorEip7251) : bool := (activation_epoch v <=? epoch) && (epoch <? exit_epoch v).
Definition is_eligible_for_activation (finalized_epoch : Z) (v : ValidatorEip7251) : bool :=
  (activation_eligibility_epoch v <=? finalized_epoch) && (activation_epoch v =? u64_max).
Definition initiate_exit (current_epoch : Z) (v : ValidatorEip7251) : ValidatorEip7251 :=
  if exit_epoch v =? u64_max then set_exit_epoch current_epoch v else v.

(** ** The registry *)

Definition add_validator (v : ValidatorEip7251) (balance : Z) : RM nat :=
  let! r := sget in
  sput (mkRegistry (validators r ++ [v]) (balances r ++ [balance])) ;;!
  sret (length (validators r)).
Definition get_validator (index : nat) (r : ValidatorRegistry) : option ValidatorEip7251 := validators r !! index.
Definition get_balance (index : nat) (r : ValidatorRegistry) : option Z := balances r !! index.
(** [if let Some(v) = validators.get_mut(index)]: a method on one validator. *)
Definition on_validator (index : nat) (m : VM unit) : RM unit := fun r =>
  match validators r !! index with
  | None => (Ok tt, r)
  | Some v => let '(res, v') := m v in (res, mkRegistry (<[index := v']> (validators r)) (balances r))
  end.
Definition put_balance (index : nat) (b : Z) : RM unit := smodify (fun r => mkRegistry (validators r) (<[index := b]> (balances r))).
Definition set_balance (index : nat) (b : Z) : RM unit :=
  let! r := sget in
  if bool_decide (index < length (balances r))%nat then put_balance index b else sfail ValidatorNotFound.
Definition increase_balance (index : nat) (delta : Z) : RM unit :=
  let! r := sget in
  match balances r !! index with
  | None => sfail ValidatorNotFound
  | Some b =>
      let! b' := slift (unwrap (u_add b delta)) in
      put_balance index b' ;;!
      on_validator index (add_balance delta)
  end.
Definition decrease_balance (index : nat) (delta : Z) : RM unit :=
  let! r := sget in
  match balances r !! index with
  | None => sfail ValidatorNotFound
  | Some b =>
      let! b' := (if b <? delta then sret 0 else slift (unwrap (u_sub b delta))) in
      put_balance index b' ;;!
      on_validator index
        (smodify (fun v => if b' <? effective_balance v then set_effective b' (pending_balance_to_deposit v) v else v))
  end.
Definition get_active_validator_indices (epoch : Z) (r : ValidatorRegistry) : list nat :=
  map fst (filter (fun p : nat * ValidatorEip7251 => is_active epoch p.2 = true) (imap pair (validators r))).
Fixpoint fold_balances (acc : Z) (l : list Z) : outcome Eip7251Error Z :=
  match l with
  | [] => Ok acc
  | b :: l => let? acc := unwrap (u_add acc b) in fold_balances acc l
  end.
Definition get_total_active_balance (epoch : Z) (r : ValidatorRegistry) : outcome Eip7251Error Z :=
  fold_balances 0 (map effective_balance (omap (fun i => get_validator i r) (get_active_validator_indices epoch r))).
(** The loop over the validators from [index] on, after [count] deposits. *)
Fixpoint deposits_loop (max_deposits count : Z) (index : nat) (vs : list ValidatorEip7251) :
    outcome Eip7251Error (list (nat * Z) * list ValidatorEip7251) :=
  match vs with
  | [] => Ok ([], [])
  | v :: vs =>
      if max_deposits <=? count then Ok ([], v :: vs)
      else if 0 <? pending_balance_to_deposit v then
        let '(res, v') := consolidate_balance v in
        let? amount := res in
        let taken := 0 <? amount in
        let? (processed, vs') := deposits_loop max_deposits (if taken then count + 1 else count) (S index) vs in
        Ok (if taken then (index, amount) :: processed else processed, v' :: vs')
      else
        let? (processed, vs') := deposits_loop max_deposits count (S index) vs in
        Ok (processed, v :: vs')
  end.
(** A panic inside leaves the registry of the model as it was. *)
Definition process_pending_balance_deposits (max_deposits : Z) : RM (list (nat * Z)) :=
  let! r := sget in
  let! (processed, vs) := slift (deposits_loop max_deposits 0 0 (validators r)) in
  sput (mkRegistry vs (balances r)) ;;!
  sret processed.

Record ConsolidationRequest := mkRequest { source_address : list Z; source_pubkey : list Z; target_pubkey : list Z }.
Definition find_pubkey (pk : list Z) (r : ValidatorRegistry) : outcome Eip7251Error nat :=
  match position (fun v => bool_decide (pubkey v = pk)) (validators r) with Some i => Ok i | None => Err ValidatorNotFound end.
Definition ensure_compounding : VM unit :=
  let! v := sget in if is_compounding v then sret tt else switch_to_compounding_validator.
Definition process (req : ConsolidationRequest) : RM unit :=
  let! r := sget in
  let! source_index := slift (find_pubkey (source_pubkey req) r) in
  let! target_index := slift (find_pubkey (target_pubkey req) r) in
  let! source_balance := (match get_balance source_index r with Some b => sret b | None => sfail ValidatorNotFound end) in
  on_validator source_index (smodify (initiate_exit 0)) ;;!
  increase_balance target_index source_balance ;;!
  on_validator target_index ensure_compounding.
End registry.

End Eip7251.
