(* ===== verification/Eip7251Proofs.v ===== *)
(** What the balances of EIP-7251 keep: the theorems on
    crates/consensus/src/eip7251.rs. *)
From stdpp Require Import base list numbers option strings.
From Stdlib Require Import ZArith Lia.
From S2P Require Import Prelude U256 Eip7251.

Module Eip7251Proofs.
Import Eip7251.

(** The constants are 256-bit numbers, whichever way their literals are read. *)
Class CapsOk `{Caps} : Prop := {
  caps_min : U256 MIN_ACTIVATION_BALANCE;
  caps_old : U256 OLD_MAX_EFFECTIVE_BALANCE;
  caps_new : U256 MAX_EFFECTIVE_BALANCE_EIP7251;
}.
#[export] Instance documented_caps_ok : CapsOk (H := documented_caps).
Proof. by split; vm_compute. Qed.
#[export] Instance wrapped_caps_ok : CapsOk (H := wrapped_caps).
Proof. by split; vm_compute. Qed.
(** Wrapped, the cap of compounding validators is below the least deposit and
    below the old cap. *)
Lemma wrapped_caps_reversed : let c := wrapped_caps in
  MAX_EFFECTIVE_BALANCE_EIP7251 < MIN_ACTIVATION_BALANCE /\ MAX_EFFECTIVE_BALANCE_EIP7251 < OLD_MAX_EFFECTIVE_BALANCE.
Proof. by vm_compute. Qed.

Section registry.
Context `{U256Ops} `{!U256Laws} `{Caps} `{!CapsOk}.
Implicit Types (v : ValidatorEip7251) (r : ValidatorRegistry).
Notation cap := get_max_effective_balance.
Notation eff := effective_balance.
Notation pend := pending_balance_to_deposit.

(** The effective balance is capped, and the pending one leaves room for it. *)
Definition validator_ok v : Prop :=
  0 <= eff v <= cap v /\ (0 <= pend v /\ cap v + pend v < 2 ^ 256) /\ length (withdrawal_credentials v) = 32%nat /\
  is_Some (get_withdrawal_credential_type v) /\ activation_epoch v = u64_max.
Definition registry_ok r : Prop :=
  length (validators r) = length (balances r) /\ Forall validator_ok (validators r) /\ Forall U256 (balances r).

Lemma cap_u256 v : U256 (cap v).
Proof. unfold cap. destruct (is_compounding v); [apply caps_new|apply caps_old]. Qed.
Lemma eff_u256 v : validator_ok v -> U256 (eff v).
Proof. intros (? & _). pose proof (cap_u256 v). unfold uint in *. lia. Qed.
Lemma pend_u256 v : validator_ok v -> U256 (pend v).
Proof. intros (_ & ? & _). pose proof (cap_u256 v). unfold uint in *. lia. Qed.
Lemma set_effective_ok e p v : validator_ok v -> 0 <= e <= cap v -> 0 <= p -> cap v + p < 2 ^ 256 -> validator_ok (set_effective e p v).
Proof. intros (_ & _ & ? & ? & ?) [? ?] ? ?. by split_and!. Qed.

(** ** One validator *)

(** A deposit: what exceeds the cap replaces what was pending. *)
Lemma add_balance_spec amount v : validator_ok v -> U256 amount ->
  add_balance amount v =
  if eff v + amount <? 2 ^ 256 then
    (Ok tt, set_effective (Z.min (cap v) (eff v + amount)) (if cap v <? eff v + amount then eff v + amount - cap v else pend v) v)
  else (Panic, v).
Proof.
  intros Hv Ha. pose proof (eff_u256 v Hv) as He. pose proof (cap_u256 v) as Hc. unfold add_balance. rewrite sbind_get.
  rewrite add_law by done. destruct (Z.ltb_spec (eff v + amount) (2 ^ 256)); [|done]. cbn [unwrap]. rewrite sbind_lift.
  destruct (Z.ltb_spec (cap v) (eff v + amount)).
  - rewrite sub_law, (proj2 (Z.leb_le _ _)) by (done || unfold uint in *; lia). cbn [unwrap]. rewrite sbind_lift. by rewrite Z.min_l by lia.
  - by rewrite Z.min_r by lia.
Qed.
(** A consolidation moves as much as fits below the cap. *)
Lemma consolidate_balance_spec v : U256 (eff v) -> U256 (pend v) ->
  consolidate_balance v =
  if eff v + pend v <? 2 ^ 256 then
    (Ok (pend v), set_effective (Z.min (cap v) (eff v + pend v)) (Z.max 0 (eff v + pend v - cap v)) v)
  else (Panic, v).
Proof.
  intros He Hp. pose proof (cap_u256 v) as Hc. unfold consolidate_balance. rewrite sbind_get.
  rewrite add_law by done. destruct (Z.ltb_spec (eff v + pend v) (2 ^ 256)); [|done]. cbn [unwrap]. rewrite sbind_lift.
  destruct (Z.ltb_spec (cap v) (eff v + pend v)).
  - rewrite sub_law, (proj2 (Z.leb_le _ _)) by (done || unfold uint in *; lia). cbn [unwrap]. unfold sbind at 1. rewrite sbind_lift.
    by rewrite Z.min_l, Z.max_r by lia.
  - unfold sbind, sput, sret. by rewrite Z.min_r, Z.max_l by lia.
Qed.
Definition keeps {A} (m : SM ValidatorEip7251 Eip7251Error A) : Prop := forall v, validator_ok v -> validator_ok (m v).2.
Lemma add_balance_keeps amount : U256 amount -> keeps (add_balance amount).
Proof.
  intros Ha v Hv. rewrite add_balance_spec by done. destruct (Z.ltb_spec (eff v + amount) (2 ^ 256)); [|done].
  pose proof Hv as (? & ? & _). apply set_effective_ok; [done|..]; destruct (Z.ltb_spec (cap v) (eff v + amount)); unfold uint in *; lia.
Qed.
(** Wherever the balances stand, a consolidation brings them under the cap. *)
Lemma consolidate_caps v : U256 (eff v) -> U256 (pend v) -> eff v + pend v < 2 ^ 256 ->
  length (withdrawal_credentials v) = 32%nat -> is_Some (get_withdrawal_credential_type v) -> activation_epoch v = u64_max ->
  validator_ok (consolidate_balance v).2.
Proof.
  intros He Hp Hs Hl Ht Ha. rewrite consolidate_balance_spec by done. rewrite (proj2 (Z.ltb_lt _ _)) by done.
  pose proof (cap_u256 v). unfold uint in *. assert (cap (set_effective (Z.min (cap v) (eff v + pend v)) (Z.max 0 (eff v + pend v - cap v)) v) = cap v) as Hc by done.
  split_and!; cbn [snd]; rewrite ?Hc; cbn; try done; lia.
Qed.
Lemma consolidate_keeps : keeps consolidate_balance.
Proof.
  intros v Hv. pose proof (eff_u256 v Hv). pose proof (pend_u256 v Hv). destruct Hv as (? & ? & ? & ? & ?).
  apply consolidate_caps; try done. lia.
Qed.
Lemma set_compounding_type v : length (withdrawal_credentials v) = 32%nat ->
  get_withdrawal_credential_type (set_credential (to_byte Compounding) v) = Some Compounding.
Proof.
  intros Hl. unfold get_withdrawal_credential_type, credential_type. cbn [set_credential withdrawal_credentials].
  by rewrite list_lookup_insert_eq by lia.
Qed.
Lemma switch_keeps : keeps switch_to_compounding_validator.
Proof.
  intros v Hv. unfold switch_to_compounding_validator. rewrite sbind_get. destruct (bool_decide _); [|done]. rewrite sbind_modify.
  assert (validator_ok (consolidate_balance (set_credential (to_byte Compounding) v)).2) as Hc.
  { pose proof (eff_u256 v Hv). pose proof (pend_u256 v Hv). destruct Hv as (? & ? & ? & ? & ?).
    apply consolidate_caps; [done|done|cbn; lia|cbn; by rewrite length_insert|by rewrite set_compounding_type|done]. }
  unfold sbind. by destruct (consolidate_balance (set_credential (to_byte Compounding) v)) as [[| | |] v'].
Qed.
Lemma ensure_compounding_keeps : keeps ensure_compounding.
Proof. intros v Hv. unfold ensure_compounding. rewrite sbind_get. destruct (is_compounding v); [done|]. by apply switch_keeps. Qed.
Lemma initiate_exit_keeps e : keeps (smodify (initiate_exit e)).
Proof. intros v Hv. cbn [smodify snd]. unfold initiate_exit. by destruct (_ =? _). Qed.

(** ** The registry *)

Lemma on_validator_ok i (m : SM ValidatorEip7251 Eip7251Error unit) r : keeps m -> registry_ok r -> registry_ok (on_validator i m r).2.
Proof.
  intros Hm (Hl & Hv & Hb). unfold on_validator. destruct (validators r !! i) as [v|] eqn:Hi; [|by split_and!].
  pose proof (Hm v (Forall_lookup_1 _ _ _ _ Hv Hi)) as Hk. destruct (m v) as [res v']. split_and!; cbn; [by rewrite length_insert| |done].
  by apply Forall_insert.
Qed.
Lemma put_balance_ok i b r : U256 b -> registry_ok r -> registry_ok (put_balance i b r).2.
Proof. intros Hu (Hl & Hv & Hb). split_and!; cbn; [by rewrite length_insert|done|by apply Forall_insert]. Qed.
Lemma increase_balance_ok i delta r : U256 delta -> registry_ok r -> registry_ok (increase_balance i delta r).2.
Proof.
  intros Hd Hr. unfold increase_balance. rewrite sbind_get. destruct (balances r !! i) as [b|] eqn:Hi; [|done].
  assert (U256 b) as Hb by (destruct Hr as (_ & _ & Hb); by apply (Forall_lookup_1 _ _ _ _ Hb Hi)).
  rewrite add_law by done. destruct (Z.ltb_spec (b + delta) (2 ^ 256)); [|done]. cbn [unwrap]. rewrite sbind_lift.
  unfold put_balance. rewrite sbind_modify. apply on_validator_ok; [by apply add_balance_keeps|].
  apply (put_balance_ok i (b + delta) r); [unfold uint in *; lia|done].
Qed.
Lemma decrease_balance_ok i delta r : U256 delta -> registry_ok r -> registry_ok (decrease_balance i delta r).2.
Proof.
  intros Hd Hr. unfold decrease_balance. rewrite sbind_get. destruct (balances r !! i) as [b|] eqn:Hi; [|done].
  assert (U256 b) as Hb by (destruct Hr as (_ & _ & Hb); by apply (Forall_lookup_1 _ _ _ _ Hb Hi)).
  assert (exists b', U256 b' /\ (if b <? delta then sret 0 else slift (unwrap (u_sub b delta))) r = (@Ok Eip7251Error _ b', r)) as (b' & Hb' & He).
  { destruct (Z.ltb_spec b delta); [by exists 0|]. exists (b - delta). rewrite sub_law, (proj2 (Z.leb_le _ _)) by done. unfold uint in *. split; [lia|done]. }
  rewrite (sbind_ok _ _ _ _ _ He). unfold put_balance. rewrite sbind_modify. apply on_validator_ok; [|by apply (put_balance_ok i b' r)].
  intros v Hv. cbn [smodify snd]. destruct (Z.ltb_spec b' (eff v)); [|done].
  pose proof Hv as (? & ? & _). apply set_effective_ok; [done|..]; unfold uint in *; lia.
Qed.
Lemma deposits_loop_ok m c i vs p vs' : Forall validator_ok vs -> deposits_loop m c i vs = Ok (p, vs') ->
  Forall validator_ok vs' /\ length vs' = length vs /\
  Forall (fun x => exists v, vs !! (x.1 - i)%nat = Some v /\ (i <= x.1)%nat /\ pend v = x.2 /\ 0 < x.2) p.
Proof.
  revert c i p vs'. induction vs as [|v vs IH]; intros c i p vs' Hv Hd; cbn [deposits_loop] in Hd.
  { injection Hd as <- <-. split_and!; constructor. }
  apply Forall_cons in Hv as [Hv Hvs]. destruct (m <=? c); [injection Hd as <- <-; split_and!; [by constructor|done|constructor]|].
  assert (forall p, Forall (fun x : nat * Z => exists v, vs !! (x.1 - S i)%nat = Some v /\ (S i <= x.1)%nat /\ pend v = x.2 /\ 0 < x.2) p ->
    Forall (fun x : nat * Z => exists w, (v :: vs) !! (x.1 - i)%nat = Some w /\ (i <= x.1)%nat /\ pend w = x.2 /\ 0 < x.2) p) as Hshift.
  { intros q Hq. eapply Forall_impl; [exact Hq|]. intros x (w & Hw & Hi & ?). exists w. split_and!; [|lia|tauto..].
    by replace (x.1 - i)%nat with (S (x.1 - S i)) by lia. }
  destruct (Z.ltb_spec 0 (pend v)) as [Hpos|_].
  - pose proof (consolidate_keeps v Hv) as Hk. rewrite consolidate_balance_spec in Hd, Hk by (by apply eff_u256 || by apply pend_u256). destruct (_ <? 2 ^ 256); [|done].
    cbn [obind] in Hd. rewrite (proj2 (Z.ltb_lt _ _)) in Hd by done. opened Hd. destruct r as [q ws]. injection Hd as <- <-.
    apply IH in Hr as (? & Hlen & Hq); [|done]. split_and!; [by constructor|by cbn; rewrite Hlen|]. constructor; [|by apply Hshift].
    exists v. cbn. rewrite Nat.sub_diag. split_and!; [done|lia|done|done].
  - opened Hd. destruct r as [q ws]. injection Hd as <- <-. apply IH in Hr as (? & Hlen & Hq); [|done].
    split_and!; [by constructor|by cbn; rewrite Hlen|]. by apply Hshift.
Qed.
Lemma deposits_ok m r : registry_ok r -> registry_ok (process_pending_balance_deposits m r).2.
Proof.
  intros (Hl & Hv & Hb). unfold process_pending_balance_deposits. rewrite sbind_get.
  destruct (deposits_loop m 0 0 (validators r)) as [[p vs]| | |] eqn:Hd; [|by split_and!..].
  apply deposits_loop_ok in Hd as (? & Hlen & _); [|done]. split_and!; cbn; [congruence|done|done].
Qed.
Lemma process_ok req r : registry_ok r -> registry_ok (process req r).2.
Proof.
  intros Hr. unfold process. rewrite sbind_get. destruct (find_pubkey (source_pubkey req) r) as [s| | |]; [|done..]. rewrite sbind_lift.
  destruct (find_pubkey (target_pubkey req) r) as [t| | |]; [|done..]. rewrite sbind_lift.
  destruct (get_balance s r) as [b|] eqn:Hs; [|done]. unfold sret at 1. unfold sbind at 1.
  assert (U256 b) as Hb by (destruct Hr as (_ & _ & Hb); by apply (Forall_lookup_1 _ _ _ _ Hb Hs)).
  pose proof (on_validator_ok s (smodify (initiate_exit 0)) r (initiate_exit_keeps 0) Hr) as H1'. unfold sbind at 1.
  destruct (on_validator s (smodify (initiate_exit 0)) r) as [[| | |] r1]; try done. cbn [snd] in H1'.
  pose proof (increase_balance_ok t b r1 Hb H1') as H2'. unfold sbind at 1.
  destruct (increase_balance t b r1) as [[| | |] r2]; try done. apply on_validator_ok; [apply ensure_compounding_keeps|done].
Qed.

(** What can be done with a registry; a new validator is made with
    ValidatorEip7251::new, and the methods of a validator are reached through
    get_validator_mut. *)
Inductive RegistryOp :=
| AddValidator (pk wc : list Z) (initial balance : Z) | SetBalance (i : nat) (b : Z) | IncreaseBalance (i : nat) (d : Z)
| DecreaseBalance (i : nat) (d : Z) | ProcessDeposits (m : Z) | Consolidate (req : ConsolidationRequest)
| AddBalance (i : nat) (a : Z) | ConsolidateBalance (i : nat) | SwitchToCompounding (i : nat) | InitiateExit (i : nat) (e : Z).
Definition perform (r : ValidatorRegistry) (op : RegistryOp) : ValidatorRegistry :=
  match op with
  | AddValidator pk wc initial balance =>
      match validator_new pk wc initial with Ok v => (add_validator v balance r).2 | _ => r end
  | SetBalance i b => (set_balance i b r).2
  | IncreaseBalance i d => (increase_balance i d r).2
  | DecreaseBalance i d => (decrease_balance i d r).2
  | ProcessDeposits m => (process_pending_balance_deposits m r).2
  | Consolidate req => (process req r).2
  | AddBalance i a => (on_validator i (add_balance a) r).2
  | ConsolidateBalance i => (on_validator i (consolidate_balance ;;! sret tt) r).2
  | SwitchToCompounding i => (on_validator i switch_to_compounding_validator r).2
  | InitiateExit i e => (on_validator i (smodify (initiate_exit e)) r).2
  end.
(** The arguments are 256-bit numbers and credentials of 32 bytes. *)
Definition op_range (op : RegistryOp) : Prop :=
  match op with
  | AddValidator _ wc initial balance => length wc = 32%nat /\ U256 initial /\ U256 balance
  | SetBalance _ b => U256 b
  | IncreaseBalance _ d | DecreaseBalance _ d => U256 d
  | AddBalance _ a => U256 a
  | _ => True
  end.
Lemma perform_ok r op : op_range op -> registry_ok r -> registry_ok (perform r op).
Proof.
  intros Ho Hr. destruct op; cbn [perform op_range] in *.
  - destruct Ho as (Hl & Hi & Hb). unfold validator_new. destruct (Z.ltb_spec initial MIN_ACTIVATION_BALANCE); [done|].
    destruct (credential_type wc) as [t|] eqn:Ht; [|done]. destruct Hr as (Hrl & Hv & Hbs).
    assert (cap (mkValidator pk wc (if max_effective t <? initial then max_effective t else initial) false u64_max u64_max u64_max u64_max 0)
      = max_effective t) as Hcap.
    { unfold get_max_effective_balance, is_compounding, get_withdrawal_credential_type. cbn. rewrite Ht. by destruct t. }
    pose proof (cap_u256 (mkValidator pk wc (if max_effective t <? initial then max_effective t else initial) false u64_max u64_max u64_max u64_max 0)) as Hcu.
    rewrite Hcap in Hcu. split_and!; cbn [add_validator sbind sget sput sret snd validators balances].
    + rewrite !length_app. simpl. lia.
    + apply Forall_app_2; [done|]. constructor; [|constructor]. split; [rewrite Hcap; cbn; destruct (Z.ltb_spec (max_effective t) initial); unfold uint in *; lia|].
      split; [rewrite Hcap; cbn; unfold uint in *; lia|]. split; [done|]. split; [|done]. unfold get_withdrawal_credential_type. cbn. by rewrite Ht.
    + apply Forall_app_2; [done|]. by apply Forall_singleton.
  - unfold set_balance. rewrite sbind_get. destruct (bool_decide _); [by apply put_balance_ok|done].
  - by apply increase_balance_ok.
  - by apply decrease_balance_ok.
  - by apply deposits_ok.
  - by apply process_ok.
  - apply on_validator_ok; [by apply add_balance_keeps|done].
  - apply on_validator_ok; [|done]. intros v Hv. pose proof (consolidate_keeps v Hv). unfold sbind. by destruct (consolidate_balance v) as [[| | |] ?].
  - apply on_validator_ok; [apply switch_keeps|done].
  - apply on_validator_ok; [apply initiate_exit_keeps|done].
Qed.
(** ** The active balance *)

Lemma active_validators e pre l :
  omap (fun i => (pre ++ l) !! i) (map fst (filter (fun p : nat * ValidatorEip7251 => is_active e p.2 = true) (imap (fun i w => ((length pre + i)%nat, w)) l))) =
  filter (fun v => is_active e v = true) l.
Proof.
  revert pre. induction l as [|v l IH]; intros pre; [done|]. cbn [imap]. rewrite !filter_cons. cbn [snd].
  assert (imap ((fun i w => ((length pre + i)%nat, w)) ∘ S) l = imap (fun i w => ((length (pre ++ [v]) + i)%nat, w)) l) as ->.
  { apply imap_ext. intros i x _. simpl. f_equal. rewrite length_app. simpl. lia. }
  specialize (IH (pre ++ [v])). rewrite <- app_assoc in IH. destruct (decide (is_active e v = true)) as [Ha|Ha]; cbn [map omap list_omap fst].
  - rewrite Nat.add_0_r, list_lookup_middle by done. f_equal. apply IH.
  - apply IH.
Qed.
Lemma fold_balances_ok acc l : 0 <= acc -> Forall (fun b => 0 <= b) l -> acc + zsum id l < 2 ^ 256 -> fold_balances acc l = Ok (acc + zsum id l).
Proof.
  intros Ha Hl. revert acc Ha. induction Hl as [|b l Hb Hl IH]; intros acc Ha Hs; cbn [fold_balances zsum foldr] in *; [by rewrite Z.add_0_r|].
  change (foldr _ 0 l) with (zsum id l) in *. pose proof (zsum_nonneg id l Hl). unfold id in Hs at 1.
  rewrite add_law, (proj2 (Z.ltb_lt _ _)) by (unfold uint; lia). cbn [unwrap obind]. rewrite IH by lia. unfold id at 2. f_equal. lia.
Qed.
Lemma zsum_map_id {A} (g : A -> Z) l : zsum id (map g l) = zsum g l.
Proof. induction l as [|x l IH]; [done|]. cbn [map zsum foldr]. change (foldr _ 0 (map g l)) with (zsum id (map g l)). by rewrite IH. Qed.
(** The active balance is the sum over the active validators, where it fits. *)
Lemma active_balance_sum e r : registry_ok r -> zsum eff (validators r) < 2 ^ 256 ->
  get_total_active_balance e r = Ok (zsum eff (filter (fun v => is_active e v = true) (validators r))).
Proof.
  intros (_ & Hv & _) Hfit. unfold get_total_active_balance, get_active_validator_indices, get_validator.
  pose proof (active_validators e [] (validators r)) as Hact. cbn [app length Nat.add] in Hact.
  change (imap pair (validators r)) with (imap (fun i w => (i, w)) (validators r)). rewrite Hact. clear Hact.
  assert (Forall (fun v => 0 <= eff v) (validators r)) as Hnn by (eapply Forall_impl; [exact Hv|]; intros v [? _]; lia).
  pose proof (zsum_filter eff (fun v => is_active e v = true) (validators r) Hnn).
  rewrite fold_balances_ok, zsum_map_id; [done|done| |rewrite zsum_map_id; lia]. apply Forall_map, list.Forall_forall.
  intros v [_ Hin]%list_elem_of_filter. by apply (proj1 (list.Forall_forall _ _) Hnn).
Qed.
Lemma nobody_active e r : registry_ok r -> e < u64_max -> get_active_validator_indices e r = [].
Proof.
  intros (_ & Hv & _) He. unfold get_active_validator_indices.
  assert (forall (f : nat -> nat) l, Forall validator_ok l ->
    filter (fun p : nat * ValidatorEip7251 => is_active e p.2 = true) (imap (fun i v => (f i, v)) l) = []) as Hnone.
  { intros f l Hl. revert f. induction Hl as [|v l (_ & _ & _ & _ & Ha) _ IH]; intros f; [done|]. cbn [imap]. rewrite filter_cons_False.
    - apply (IH (f ∘ S)).
    - unfold is_active. cbn [snd]. rewrite Ha. by rewrite (proj2 (Z.leb_gt _ _)). }
  by rewrite (Hnone id).
Qed.

(** C27: in every registry reached through its methods, with the constants read
    either way, there are as many balances as validators, no effective balance
    exceeds the cap of its kind of credentials and the pending balance always
    fits beside it, so no consolidation of a validator overflows; no method
    activates a validator, so none is active and the active balance is zero in
    every epoch before the last. *)
Theorem registry_stays_capped ops e : Forall op_range ops -> e < u64_max ->
  let r := foldl perform registry_new ops in
  registry_ok r /\ get_active_validator_indices e r = [] /\ get_total_active_balance e r = Ok 0 /\
  (forall i v, validators r !! i = Some v -> exists v', consolidate_balance v = (Ok (pend v), v') /\ eff v' <= cap v').
Proof.
  intros Ho He r. assert (registry_ok r) as Hr.
  { subst r. assert (registry_ok registry_new) as Hn by (by split_and!; constructor). revert Hn. generalize registry_new.
    induction Ho as [|op ops Hop _ IH]; intros r Hr; [done|]. by apply IH, perform_ok. }
  pose proof (nobody_active e r Hr He) as Hn. split_and!; [done|done|unfold get_total_active_balance; by rewrite Hn|].
  intros i v Hi. assert (validator_ok v) as Hv by (destruct Hr as (_ & Hv & _); by apply (Forall_lookup_1 _ _ _ _ Hv Hi)).
  pose proof (consolidate_keeps v Hv) as [Hcap _]. rewrite consolidate_balance_spec in * by (by apply eff_u256 || by apply pend_u256).
  destruct Hv as (? & ? & _). rewrite (proj2 (Z.ltb_lt _ _)) in * by lia. eexists. split; [done|apply Hcap].
Qed.

(** ** Consolidations *)

Lemma zsum_insert (l : list Z) i (x y : Z) : l !! i = Some x -> zsum id (<[i := y]> l) = zsum id l - x + y.
Proof.
  revert i. induction l as [|z l IH]; intros [|i] Hi; try done; cbn in *; [injection Hi as ->; change (foldr _ 0 l) with (zsum id l); unfold id; lia|].
  change (foldr _ 0 (<[i := y]> l)) with (zsum id (<[i := y]> l)). rewrite IH by done. change (foldr _ 0 l) with (zsum id l). unfold id. lia.
Qed.
(** The target after its deposit. *)
Definition deposited (amount : Z) v : ValidatorEip7251 :=
  set_effective (Z.min (cap v) (eff v + amount)) (if cap v <? eff v + amount then eff v + amount - cap v else pend v) v.
Lemma ensure_compounding_spec v : validator_ok v -> eff v + pend v < 2 ^ 256 ->
  match get_withdrawal_credential_type v with
  | Some Bls => ensure_compounding v = (Err InvalidWithdrawalCredential, v)
  | _ => exists v', ensure_compounding v = (Ok tt, v') /\ is_compounding v' = true /\ eff v' + pend v' = eff v + pend v /\ exit_epoch v' = exit_epoch v
  end.
Proof.
  intros Hv Hfit. unfold ensure_compounding, switch_to_compounding_validator. rewrite sbind_get.
  assert (is_compounding v = bool_decide (get_withdrawal_credential_type v = Some Compounding)) as -> by done.
  destruct (get_withdrawal_credential_type v) as [[| |]|] eqn:Ht.
  - rewrite bool_decide_false by done. rewrite sbind_get, Ht. by rewrite bool_decide_false.
  - rewrite bool_decide_false by done. rewrite sbind_get, Ht, bool_decide_true by done. rewrite sbind_modify.
    pose proof (consolidate_balance_spec (set_credential (to_byte Compounding) v) (eff_u256 v Hv) (pend_u256 v Hv)) as Hc.
    cbn [set_credential effective_balance pending_balance_to_deposit] in Hc.
    rewrite (proj2 (Z.ltb_lt _ _)) in Hc by done. rewrite (sbind_ok _ _ _ _ _ Hc). eexists. split; [done|].
    destruct Hv as (_ & _ & Hl & _). split; [by apply bool_decide_true, (set_compounding_type v Hl)|]. cbn. lia.
  - rewrite bool_decide_true by done. exists v. split_and!; [done| |done|done]. unfold is_compounding. by rewrite bool_decide_true.
  - destruct Hv as (_ & _ & _ & Hs). rewrite Ht in Hs. by destruct Hs.
Qed.
(** The target of a consolidation, once credited and made compounding. *)
Lemma credit_spec sb w : validator_ok w -> U256 sb -> eff w + pend w + sb < 2 ^ 256 ->
  add_balance sb w = (Ok tt, deposited sb w) /\
  exists res v', ensure_compounding (deposited sb w) = (res, v') /\
    eff v' + pend v' = eff w + sb + (if cap w <? eff w + sb then 0 else pend w) /\ exit_epoch v' = exit_epoch w /\
    res = (if decide (get_withdrawal_credential_type w = Some Bls) then Err InvalidWithdrawalCredential else Ok tt) /\
    (res = Ok tt -> is_compounding v' = true).
Proof.
  intros Hw Hsu Hfit. assert (0 <= pend w) as Hp by (destruct Hw as (_ & ? & _); unfold uint in *; lia).
  pose proof (add_balance_spec sb w Hw Hsu) as Hadd. rewrite (proj2 (Z.ltb_lt _ _)) in Hadd by lia. fold (deposited sb w) in Hadd.
  split; [done|]. pose proof (add_balance_keeps sb Hsu w Hw) as Hdok. rewrite Hadd in Hdok. cbn [snd] in Hdok.
  assert (eff (deposited sb w) + pend (deposited sb w) = eff w + sb + (if cap w <? eff w + sb then 0 else pend w)) as Hsum.
  { unfold deposited. cbn. destruct (Z.ltb_spec (cap w) (eff w + sb)); lia. }
  pose proof (ensure_compounding_spec (deposited sb w) Hdok) as He.
  change (get_withdrawal_credential_type (deposited sb w)) with (get_withdrawal_credential_type w) in He.
  specialize (He ltac:(rewrite Hsum; destruct (_ <? _); lia)). destruct (get_withdrawal_credential_type w) as [[| |]|].
  1: do 2 eexists; by split_and!.
  all: destruct He as (v' & He & ? & ? & ?); exists (Ok tt), v'; split_and!; [done|congruence|done|done|done].
Qed.
(** a consolidation request over known validators, whoever sends it, makes
    the source exit and credits its balance to the target without taking it
    from the source, so the sum of the balances grows by it; the target becomes
    compounding and keeps the credit as effective and pending balance, less
    what was pending before when the credit exceeds the cap; for a target with
    BLS credentials all this stays done and an error is returned.  A request
    with an unknown key changes nothing. *)
Theorem consolidation_effects req r :
  registry_ok r ->
  match find_pubkey (source_pubkey req) r, find_pubkey (target_pubkey req) r with
  | Ok s, Ok t => forall vs vt sb tb, validators r !! s = Some vs -> validators r !! t = Some vt ->
      balances r !! s = Some sb -> balances r !! t = Some tb -> tb + sb < 2 ^ 256 -> eff vt + pend vt + sb < 2 ^ 256 ->
      exists res r' vs' vt', process req r = (res, r') /\
        balances r' = <[t := tb + sb]> (balances r) /\ zsum id (balances r') = zsum id (balances r) + sb /\
        validators r' !! s = Some vs' /\ exit_epoch vs' = exit_epoch (initiate_exit 0 vs) /\ validators r' !! t = Some vt' /\
        eff vt' + pend vt' = eff vt + sb + (if cap vt <? eff vt + sb then 0 else pend vt) /\
        res = (if decide (get_withdrawal_credential_type vt = Some Bls) then Err InvalidWithdrawalCredential else Ok tt) /\
        (res = Ok tt -> is_compounding vt' = true)
  | _, _ => process req r = (Err ValidatorNotFound, r)
  end.
Proof.
  intros Hr. unfold process. rewrite sbind_get.
  assert (forall pk, (exists i, find_pubkey pk r = Ok i) \/ find_pubkey pk r = Err ValidatorNotFound) as Hfind.
  { intros pk. unfold find_pubkey. destruct (position _ _); [left; by eexists|by right]. }
  destruct (Hfind (source_pubkey req)) as [(s & ->)| ->]; [|done]. destruct (Hfind (target_pubkey req)) as [(t & ->)| ->]; [|done].
  intros vs vt sb tb Hs Ht Hsb Htb Hfit Hfit'. rewrite !sbind_lift. unfold get_balance. rewrite Hsb. unfold sret at 1. unfold sbind at 1.
  set (exits := <[s := initiate_exit 0 vs]> (validators r)).
  assert (on_validator s (smodify (initiate_exit 0)) r = (Ok tt, mkRegistry exits (balances r))) as Hexit by (unfold on_validator; by rewrite Hs).
  rewrite (sbind_ok _ _ _ _ _ Hexit). set (w := if decide (s = t) then initiate_exit 0 vt else vt).
  assert (exits !! t = Some w) as Hw.
  { unfold exits, w. destruct (decide (s = t)) as [<- |Hne]; [|by rewrite list_lookup_insert_ne].
    rewrite list_lookup_insert_eq by (by eapply lookup_lt_Some). congruence. }
  destruct Hr as (Hl & Hv & Hb). assert (validator_ok vt) as Hvt by (by apply (Forall_lookup_1 _ _ _ _ Hv Ht)).
  assert (validator_ok w /\ eff w = eff vt /\ pend w = pend vt /\ cap w = cap vt /\ get_withdrawal_credential_type w = get_withdrawal_credential_type vt)
    as (Hwok & Hweff & Hwpend & Hwcap & Hwty).
  { unfold w. destruct (decide (s = t)); [|done]. unfold initiate_exit. by destruct (exit_epoch vt =? u64_max). }
  assert (U256 sb /\ U256 tb) as [Hsu Htu] by (by split; eapply Forall_lookup_1).
  destruct (credit_spec sb w Hwok Hsu) as (Hadd & res & vt' & Hens & Hsum & Hex & Hres & Hcomp); [lia|].
  rewrite Hweff, Hwpend, Hwcap in Hsum. rewrite Hwty in Hres.
  assert (increase_balance t sb (mkRegistry exits (balances r)) =
    (Ok tt, mkRegistry (<[t := deposited sb w]> exits) (<[t := tb + sb]> (balances r)))) as Hinc.
  { unfold increase_balance. rewrite sbind_get. cbn [balances]. rewrite Htb, add_law, (proj2 (Z.ltb_lt _ _)) by done. cbn [unwrap].
    rewrite sbind_lift. unfold put_balance. rewrite sbind_modify. unfold on_validator. cbn [validators balances]. by rewrite Hw, Hadd. }
  rewrite (sbind_ok _ _ _ _ _ Hinc). assert (t < length exits)%nat as Htl by (by eapply lookup_lt_Some).
  assert (on_validator t ensure_compounding (mkRegistry (<[t := deposited sb w]> exits) (<[t := tb + sb]> (balances r))) =
    (res, mkRegistry (<[t := vt']> exits) (<[t := tb + sb]> (balances r)))) as Hlast.
  { unfold on_validator. cbn [validators balances]. rewrite list_lookup_insert_eq, Hens by done. by rewrite list_insert_insert_eq. }
  rewrite Hlast. exists res. eexists. exists (if decide (s = t) then vt' else initiate_exit 0 vs), vt'. split; [done|]. cbn [validators balances].
  split; [done|]. split; [by rewrite (zsum_insert _ _ tb _ Htb); lia|]. split.
  { destruct (decide (s = t)) as [-> |Hne]; [by rewrite list_lookup_insert_eq|]. rewrite list_lookup_insert_ne by done. unfold exits.
    by rewrite list_lookup_insert_eq by (by eapply lookup_lt_Some). }
  split; [|split; [by rewrite list_lookup_insert_eq|done]].
  destruct (decide (s = t)) as [-> |Hne]; [|done]. rewrite Hex. unfold w. by replace vs with vt by congruence.
Qed.
End registry.


(** * Witnesses and examples *)

#[local] Existing Instance documented_caps.
Definition credentials (b : Z) : list Z := b :: replicate 31 0.
Definition pk (n : Z) : list Z := replicate 48 n.
Definition toy_ops : list RegistryOp :=
  [AddValidator (pk 1) (credentials 1) (40 * ETH) (40 * ETH); AddValidator (pk 2) (credentials 2) (1000 * ETH) (1000 * ETH);
   AddValidator (pk 3) (credentials 0) (32 * ETH) (32 * ETH); IncreaseBalance 1 (1500 * ETH); DecreaseBalance 0 (10 * ETH);
   ProcessDeposits 10; Consolidate (mkRequest [] (pk 1) (pk 2))].
Definition toy_registry : ValidatorRegistry := foldl perform registry_new toy_ops.
Lemma registry_stays_capped_witness : get_total_active_balance 0 toy_registry = Ok 0 /\ registry_ok toy_registry.
Proof.
  destruct (registry_stays_capped toy_ops 0) as (Hok & _ & Ht & _); [by repeat constructor; vm_compute|by vm_compute|].
  split; [exact Ht|exact Hok].
Defined.
Definition two_validators : ValidatorRegistry := foldl perform registry_new (take 2 toy_ops).
Lemma two_validators_ok : registry_ok two_validators.
Proof.
  unfold two_validators. cbn [take toy_ops foldl]. apply perform_ok; [by vm_compute|]. apply perform_ok; [by vm_compute|]. by split_and!; constructor.
Qed.
Lemma two_validators_keys : find_pubkey (pk 1) two_validators = Ok 0%nat /\ find_pubkey (pk 2) two_validators = Ok 1%nat.
Proof. by vm_compute. Qed.
Definition first_validator : ValidatorEip7251 := mkValidator (pk 1) (credentials 1) (32 * ETH) false u64_max u64_max u64_max u64_max 0.
Definition second_validator : ValidatorEip7251 := mkValidator (pk 2) (credentials 2) (1000 * ETH) false u64_max u64_max u64_max u64_max 0.
Lemma two_validators_eq : two_validators = mkRegistry [first_validator; second_validator] [40 * ETH; 1000 * ETH].
Proof. by vm_compute. Qed.
Lemma consolidation_effects_witness :
  zsum id (balances (process (mkRequest [] (pk 1) (pk 2)) two_validators).2) = zsum id (balances two_validators) + 40 * ETH.
Proof.
  pose proof (consolidation_effects (mkRequest [] (pk 1) (pk 2)) two_validators two_validators_ok) as He. cbn [source_pubkey target_pubkey] in He.
  destruct two_validators_keys as [Hs Ht]. rewrite Hs, Ht in He. rewrite two_validators_eq in *. cbn [validators balances] in He.
  destruct (He first_validator second_validator (40 * ETH) (1000 * ETH)) as (res & r' & vs' & vt' & Hp & _ & Hz & _); [done..|by vm_compute|by vm_compute|].
  rewrite Hp. exact Hz.
Defined.
(** A deposit above the cap replaces what was pending before. *)
Example pending_deposit_lost :
  pending_balance_to_deposit (add_balance (3 * ETH) (add_balance (5 * ETH) first_validator).2).2 = 3 * ETH.
Proof. by vm_compute. Qed.
(** A validator at its cap is reported with its pending balance at every call,
    and nothing moves. *)
Example deposit_reported_forever :
  let r := mkRegistry [(add_balance (5 * ETH) first_validator).2] [37 * ETH] in
  process_pending_balance_deposits 10 r = (Ok [(0%nat, 5 * ETH)], r).
Proof. by vm_compute. Qed.
(** A validator consolidated into itself doubles its balance. *)
Example self_consolidation_doubles :
  balances (process (mkRequest [] (pk 1) (pk 1)) two_validators).2 = [80 * ETH; 1000 * ETH].
Proof. by vm_compute. Qed.

End Eip7251Proofs.
