(* ===== verification/ConsensusEngine.v ===== *)
(** The consensus engines: crates/consensus/src/lib.rs (errors and
    configuration), engine.rs (the trait of the engines), clique.rs and pos.rs,
    with the fields of headers, transactions and blocks they read and write. *)
From stdpp Require Import base list numbers option strings gmap.
From Stdlib Require Import ZArith Lia.
From S2P Require Import Prelude U256 Precompiled Crypto Storage F64.

(** * What the engines share *)
Module ConsensusTypes.

(** [format!]: a text with numbers and addresses printed into it. *)
Inductive part := Txt (s : string) | Num (z : Z) | Addr (a : list Z).
Notation Message := (list part).
Inductive EngineError :=
| InvalidSeal (s : string) | InvalidDifficulty (s : string) | InvalidTimestamp (s : string) | UnauthorizedProducer | NotReady.
Inductive ConsensusError :=
| InvalidBlock (m : Message) | InvalidSignature (m : Message) | InvalidValidator (m : Message) | ForkChoiceError (m : Message)
| EngineFailure (e : EngineError) | StorageFailure (e : StorageError).
Notation R A := (outcome ConsensusError A).

Inductive EngineType := ProofOfStakeType | ProofOfAuthorityType | CliqueType.
Record ConsensusConfig := mkConfig {
  engine_type : EngineType; epoch_length : Z; block_period : Z; cfg_validators : list (list Z); genesis_validators : list (list Z);
}.
Record Header := mkHeader {
  parent_hash : list Z; uncles_hash : list Z; author : list Z; state_root : list Z; transactions_root : list Z; receipts_root : list Z;
  bloom : list Z; difficulty : Z; number : Z; gas_limit : Z; gas_used : Z; timestamp : Z; extra_data : list Z; mix_hash : list Z;
  nonce : Z;
}.
Record Transaction := mkTransaction {
  signature : Signature; gas_price : Z; max_fee_per_gas : option Z; tx_gas_limit : Z; chain_id : option Z;
}.
Record Block := mkBlock { header : Header; transactions : list Transaction; uncles : list Header }.

Definition H256_zero : list Z := replicate 32 0.
Definition Address_zero : list Z := replicate 20 0.
(** The hash of an empty list of uncles, as the crate spells it out. *)
Definition EMPTY_UNCLES : list Z :=
  [29; 204; 77; 232; 222; 199; 93; 122; 171; 133; 181; 103; 182; 204; 212; 26;
   211; 18; 69; 27; 148; 138; 116; 19; 240; 161; 66; 253; 64; 212; 147; 71].
(** The root of an empty trie. *)
Definition EMPTY_ROOT : list Z :=
  [86; 232; 31; 23; 27; 204; 85; 166; 255; 131; 69; 230; 146; 192; 248; 110;
   91; 72; 224; 27; 153; 108; 173; 192; 1; 98; 47; 181; 227; 99; 180; 33].

(** The hash and the serialised form of a header, the hash of a transaction,
    the default signature and its validity check, the database keys. *)
Class ConsensusOps := {
  header_hash : Header -> list Z;
  serialize_header : Header -> option (list Z);
  serialize_block : Block -> option (list Z);
  transaction_hash : Transaction -> list Z;
  default_signature : Signature;
  sig_is_valid : Signature -> bool;
  header_key : list Z -> list Z;
  finalized_key : list Z -> list Z;
}.

(** The trait [ConsensusEngine]; the asynchronous methods await nothing. *)
Record ConsensusEngine := mkEngine {
  validate_block : Block -> R unit;
  verify_seal : Header -> R unit;
  produce_block : Header -> list Transaction -> list Z -> R Block;
  seal_block : Block -> R Block;
  get_validators : list (list Z);
  is_validator : list Z -> bool;
  finalize : Block -> R unit;
  block_reward : Z -> R Z;
  is_ready : bool;
  engine_extra_data : list Z;
  calculate_difficulty : Header -> Z -> R Z;
}.

(** [if cond { return Err(e) }] *)
Definition reject_if (cond : bool) (e : ConsensusError) : R unit := if cond then Err e else Ok tt.
(** [map_err] with a fixed message, and [?] on the storage. *)
Definition or_signature {E A} (msg : string) (r : outcome E A) : R A :=
  match r with Ok v => Ok v | Err _ => Err (InvalidSignature [Txt msg]) | Panic => Panic | Diverge => Diverge end.
Definition stored {A} (r : outcome StorageError A) : R A :=
  match r with Ok v => Ok v | Err e => Err (StorageFailure e) | Panic => Panic | Diverge => Diverge end.
Definition set_extra (x : list Z) (h : Header) : Header :=
  mkHeader (parent_hash h) (uncles_hash h) (author h) (state_root h) (transactions_root h) (receipts_root h) (bloom h) (difficulty h)
    (number h) (gas_limit h) (gas_used h) (timestamp h) x (mix_hash h) (nonce h).
(** [extra_data.extend_from_slice(&Signature::default().to_bytes())] *)
Definition append_default_signature `{ConsensusOps} (b : Block) : Block :=
  mkBlock (set_extra (extra_data (header b) ++ sig_to_bytes default_signature) (header b)) (transactions b) (uncles b).
(** The last 65 bytes of the extra data. *)
Definition seal_bytes {E} (x : list Z) : outcome E (list Z) := slice x (len x - 65) (len x).

(** ** engine.rs *)

Record ChainSpec := mkSpec {
  spec_chain_id : Z; genesis_hash : list Z; byzantium_block : option Z; constantinople_block : option Z; petersburg_block : option Z;
  istanbul_block : option Z; berlin_block : option Z; london_block : option Z; merge_block : option Z; shanghai_block : option Z;
}.
Definition chain_spec_default : ChainSpec :=
  mkSpec 1 H256_zero (Some 4370000) (Some 7280000) (Some 7280000) (Some 9069000) (Some 12244000) (Some 12965000) (Some 15537394)
    (Some 17034870).
Definition is_fork_active (fork_block : option Z) (block_number : Z) : bool :=
  match fork_block with Some fork => fork <=? block_number | None => false end.

End ConsensusTypes.

(** The proof-of-authority engine: crates/consensus/src/clique.rs.  The methods
    on [&mut self] are stateful, the methods of the trait the functions of
    [clique_engine]. *)
Module Clique.
Import ConsensusTypes.

Record Clique := mkClique {
  config : ConsensusConfig; signers : list (list Z); recent_signers : list (Z * list Z); proposals : gmap (list Z) bool;
  votes : gmap (list Z) (gmap (list Z) bool);
}.
Definition clique_new (c : ConsensusConfig) : Clique := mkClique c (cfg_validators c) [] ∅ ∅.

Section clique.
Context `{Profile} `{U256Ops} `{KeccakOps} `{CryptoOps} `{ConsensusOps}.
Notation CM := (SM Clique ConsensusError).

Definition is_authorized (s : Clique) (signer : list Z) : bool := bool_decide (signer ∈ signers s).
Definition signing_hash (h : Header) : R (list Z) :=
  let x := extra_data h in
  let h := if 65 <=? len x then set_extra (take (Z.to_nat (len x - 65)) x) h else h in
  let? bs := unwrap (serialize_header h) in
  Ok (keccak256 bs).
Definition get_signer (h : Header) : R (list Z) :=
  if len (extra_data h) <? 65 then Err (InvalidSignature [Txt "Missing signature in extra data"])
  else
    let? sig_bytes := seal_bytes (extra_data h) in
    let? sg := or_signature "Invalid signature format" (sig_from_bytes sig_bytes) in
    let? hash := signing_hash h in
    or_signature "Failed to recover signer" (recover_address hash sg).
Definition window (s : Clique) : Z := len (signers s) / 2.
Fixpoint recent_loop (limit : Z) (signer : list Z) (block_number : Z) (l : list (Z * list Z)) : R bool :=
  match l with
  | [] => Ok false
  | (num, recent_signer) :: l =>
      let? age := unwrap (u_sub block_number num) in
      if (age <=? limit) && bool_decide (recent_signer = signer) then Ok true else recent_loop limit signer block_number l
  end.
Definition has_signed_recently (s : Clique) (signer : list Z) (block_number : Z) : R bool :=
  recent_loop (window s) signer block_number (recent_signers s).
Fixpoint pop_old (limit block_number : Z) (l : list (Z * list Z)) : R (list (Z * list Z)) :=
  match l with
  | [] => Ok []
  | (num, _) :: rest =>
      let? age := unwrap (u_sub block_number num) in
      if limit <? age then pop_old limit block_number rest else Ok l
  end.
Definition set_recent (l : list (Z * list Z)) (s : Clique) : Clique := mkClique (config s) (signers s) l (proposals s) (votes s).
(** A panic inside leaves the list of the model as it was. *)
Definition update_recent_signers (block_number : Z) (signer : list Z) : CM unit :=
  let! s := sget in
  let! l := slift (pop_old (window s) block_number (recent_signers s ++ [(block_number, signer)])) in
  sput (set_recent l s).
Definition set_votes (v : gmap (list Z) (gmap (list Z) bool)) (s : Clique) : Clique :=
  mkClique (config s) (signers s) (recent_signers s) (proposals s) v.
Definition set_signers (l : list (list Z)) (s : Clique) : Clique := mkClique (config s) l (recent_signers s) (proposals s) (votes s).
Definition clear_votes_for (address : list Z) (s : Clique) : Clique := set_votes (delete address <$> votes s) s.
Definition count_votes (v : bool) (proposal : list Z) (m : gmap (list Z) (gmap (list Z) bool)) : nat :=
  size (filter (fun p : list Z * gmap (list Z) bool => p.2 !! proposal = Some v) m).
Definition process_vote (h : Header) (signer : list Z) : CM unit :=
  if bool_decide (author h = Address_zero) then sret tt
  else
    let proposal := author h in
    let vote := negb (nonce h =? 0) in
    smodify (fun s => set_votes (<[signer := <[proposal := vote]> (default ∅ (votes s !! signer))]> (votes s)) s) ;;!
    let! s := sget in
    let threshold := (length (signers s) / 2 + 1)%nat in
    let add_votes := count_votes true proposal (votes s) in
    let remove_votes := count_votes false proposal (votes s) in
    if bool_decide (threshold <= add_votes)%nat && negb (is_authorized s proposal) then
      sput (clear_votes_for proposal (set_signers (signers s ++ [proposal]) s))
    else if bool_decide (threshold <= remove_votes)%nat && is_authorized s proposal then
      sput (clear_votes_for proposal (set_signers (filter (fun a => a <> proposal) (signers s)) s))
    else sret tt.
Definition calculate_next_timestamp (s : Clique) (parent : Header) (signer : list Z) : R Z :=
  let period := block_period (config s) in
  let signer_index := default 0%nat (position (fun a => bool_decide (a = signer)) (signers s)) in
  let? n := unwrap (u_as_u64 (number parent)) in
  let? n := uadd 64 n 1 in
  let? turn := urem n (len (signers s)) in
  let? t := uadd 64 (timestamp parent) period in
  if Z.of_nat signer_index =? turn then Ok t
  else uadd 64 t (period / 2).
(** The parent is made up: its time is the period before the header's. *)
Definition get_parent_timestamp (s : Clique) (h : Header) : Z := saturating_sub (timestamp h) (block_period (config s)).
Definition clique_validate_block (s : Clique) (b : Block) : R unit :=
  let h := header b in
  let? signer := get_signer h in
  let? _ := reject_if (negb (is_authorized s signer)) (InvalidBlock [Txt "Unauthorized signer: "; Addr signer]) in
  let? recently := has_signed_recently s signer (number h) in
  let? _ := reject_if recently (InvalidBlock [Txt "Signer has signed too recently"]) in
  let? _ := (if 0 <? number h then
               let? earliest := uadd 64 (get_parent_timestamp s h) (block_period (config s)) in
               reject_if (timestamp h <? earliest) (InvalidBlock [Txt "Block too early"])
             else Ok tt) in
  reject_if (negb (difficulty h =? 1) && negb (difficulty h =? 2)) (InvalidBlock [Txt "Invalid difficulty for Clique"]).
Definition clique_verify_seal (h : Header) : R unit := let? _ := get_signer h in Ok tt.
Definition clique_extra_data : list Z := replicate 32 0.
Definition clique_produce_block (s : Clique) (parent : Header) (txs : list Transaction) (beneficiary : list Z) : R Block :=
  let? block_number := unwrap (u_add (number parent) 1) in
  let? n := unwrap (u_as_u64 block_number) in
  let? turn := urem n (len (signers s)) in
  let? in_turn := index (signers s) turn in
  let difficulty := if bool_decide (in_turn = beneficiary) then 2 else 1 in
  let? t := calculate_next_timestamp s parent beneficiary in
  Ok (mkBlock
    (mkHeader (header_hash parent) EMPTY_UNCLES beneficiary H256_zero H256_zero H256_zero (replicate 256 0) difficulty block_number
       (gas_limit parent) 0 t clique_extra_data H256_zero 0)
    txs []).
(** The signature is the default one; the hash to sign is computed and dropped. *)
Definition clique_seal_block (b : Block) : R Block :=
  let? _ := signing_hash (header b) in
  Ok (append_default_signature b).
Definition clique_calculate_difficulty (s : Clique) (parent : Header) (timestamp : Z) : R Z :=
  let? block_number := unwrap (u_add (number parent) 1) in
  let? n := unwrap (u_as_u64 block_number) in
  let? _ := urem n (len (signers s)) in
  Ok 1.
Definition clique_engine (s : Clique) : ConsensusEngine := {|
  validate_block := clique_validate_block s;
  verify_seal := clique_verify_seal;
  produce_block := clique_produce_block s;
  seal_block := clique_seal_block;
  get_validators := signers s;
  is_validator := is_authorized s;
  finalize _ := Ok tt;
  block_reward _ := Ok 0;
  is_ready := negb (bool_decide (signers s = []));
  engine_extra_data := clique_extra_data;
  calculate_difficulty := clique_calculate_difficulty s;
|}.
End clique.

End Clique.

(** The proof-of-stake engine: crates/consensus/src/pos.rs.  The draws of the
    seeded generator are a parameter.  What check_finality only logs, the
    justified roots, is the result of the model. *)
Module Pos.
Import ConsensusTypes.

Record Checkpoint := mkCheckpoint { cp_epoch : Z; cp_root : list Z }.
Record Attestation := mkAttestation {
  att_slot : Z; att_validator : list Z; beacon_block_root : list Z; source_checkpoint : Checkpoint; target_checkpoint : Checkpoint;
  att_signature : Signature;
}.
Record ProofOfStake := mkPos {
  config : ConsensusConfig; validators : list (list Z); validator_stakes : gmap (list Z) Z; epoch : Z; slot : Z;
  attestations : list Attestation;
}.
Definition INITIAL_STAKE : Z := 32000000000000000000.
Definition pos_new (c : ConsensusConfig) : ProofOfStake :=
  mkPos c (cfg_validators c) (foldl (fun m v => <[v := INITIAL_STAKE]> m) ∅ (cfg_validators c)) 0 0 [].

(** The draw [k] of the generator seeded with [seed] below [n]. *)
Class Rng := { gen_range : Z -> nat -> Z -> Z; }.
Class RngLaws `{Rng} : Prop := { gen_range_bound seed k n : 0 < n -> 0 <= gen_range seed k n < n }.

(** [swap_remove]: the last element takes the place of the removed one. *)
Definition swap_remove {E A} (i : Z) (l : list A) : outcome E (A * list A) :=
  let? x := index l i in
  let? z := unwrap (last l) in
  Ok (x, take (length l - 1) (<[Z.to_nat i := z]> l)).

Section pos.
Context `{Profile} `{U256Ops} `{KeccakOps} `{CryptoOps} `{ConsensusOps} `{Rng}.
Notation PM := (SM ProofOfStake ConsensusError).

Definition get_proposer (s : ProofOfStake) (slot : Z) : R (list Z) :=
  if bool_decide (validators s = []) then Ok Address_zero
  else index (validators s) (slot mod len (validators s)).
(** The draws from [k] on, [n] of them. *)
Fixpoint draw_members (seed : Z) (n k : nat) (vs : list (list Z)) (indices : list Z) : R (list (list Z)) :=
  match n with
  | O => Ok []
  | S n =>
      if len indices =? 0 then Panic
      else
        let? p := swap_remove (gen_range seed k (len indices)) indices in
        let? member := index vs p.1 in
        let? rest := draw_members seed n (S k) vs p.2 in
        Ok (member :: rest)
  end.
Definition get_committee (s : ProofOfStake) (slot : Z) : R (list (list Z)) :=
  let n := len (validators s) in
  if n <=? 128 then Ok (validators s)
  else draw_members slot (Z.to_nat (Z.min 128 (n / 2))) 0 (validators s) (seqZ 0 n).
Definition verify_proposer_signature (s : ProofOfStake) (b : Block) : R unit :=
  let? expected := get_proposer s (slot s) in
  if len (extra_data (header b)) <? 65 then Err (InvalidSignature [Txt "Missing proposer signature"])
  else
    let? sig_bytes := seal_bytes (extra_data (header b)) in
    let? sg := or_signature "Invalid signature format" (sig_from_bytes sig_bytes) in
    let? recovered := or_signature "Failed to recover address" (recover_address (header_hash (header b)) sg) in
    reject_if (negb (bool_decide (recovered = expected)))
      (InvalidSignature [Txt "Invalid proposer: expected "; Addr expected; Txt ", got "; Addr recovered]).
Definition le64 (z : Z) : list Z := rev (to_be 8 z).
Definition attestation_message (a : Attestation) : list Z :=
  keccak256 (le64 (att_slot a) ++ beacon_block_root a ++ le64 (cp_epoch (source_checkpoint a)) ++ cp_root (source_checkpoint a) ++
    le64 (cp_epoch (target_checkpoint a)) ++ cp_root (target_checkpoint a)).
Definition verify_attestation (s : ProofOfStake) (a : Attestation) : R unit :=
  let? committee := get_committee s (att_slot a) in
  let? _ := reject_if (negb (bool_decide (att_validator a ∈ committee))) (InvalidValidator [Txt "Validator not in committee"]) in
  let? recovered := or_signature "Failed to recover attestation signer" (recover_address (attestation_message a) (att_signature a)) in
  reject_if (negb (bool_decide (recovered = att_validator a))) (InvalidSignature [Txt "Invalid attestation signature"]).
Definition set_attestations (l : list Attestation) (s : ProofOfStake) : ProofOfStake :=
  mkPos (config s) (validators s) (validator_stakes s) (epoch s) (slot s) l.
(** The loop over the new attestations. *)
Fixpoint take_attestations (l : list Attestation) : PM unit :=
  match l with
  | [] => sret tt
  | a :: l =>
      let! s := sget in
      (match verify_attestation s a with
       | Ok _ => sput (set_attestations (attestations s ++ [a]) s)
       | Err _ => sret tt
       | Panic => slift Panic
       | Diverge => slift Diverge
       end) ;;!
      take_attestations l
  end.
Definition count_root (m : gmap (list Z) nat) (root : list Z) : gmap (list Z) nat := <[root := S (default O (m !! root))]> m.
Definition targets (current_epoch : Z) (l : list Attestation) : list (list Z) :=
  map (fun a => cp_root (target_checkpoint a)) (filter (fun a => cp_epoch (target_checkpoint a) = current_epoch) l).
(** The roots logged as justified, with the order of the map. *)
Definition check_finality (s : ProofOfStake) : R (list (list Z)) :=
  let? current_epoch := udiv (slot s) (epoch_length (config s)) in
  let counts := foldl count_root ∅ (targets current_epoch (attestations s)) in
  let? doubled := umul 64 (len (validators s)) 2 in
  let threshold := doubled / 3 in
  Ok (map fst (filter (fun p : list Z * nat => threshold <= Z.of_nat p.2) (map_to_list counts))).
Definition process_attestations (l : list Attestation) : PM (list (list Z)) :=
  take_attestations l ;;!
  let! s := sget in
  slift (check_finality s).
Definition calculate_reward (participation_rate : F64.f64) : Z := F64.to_uint 128 (F64.mul (F64.of_Z 2000000000000000000) participation_rate).
Definition pos_validate_block (s : ProofOfStake) (b : Block) : R unit :=
  let? _ := verify_proposer_signature s b in
  let? expected_slot := udiv (timestamp (header b)) (block_period (config s)) in
  reject_if (negb (expected_slot =? slot s)) (InvalidBlock [Txt "Invalid slot: expected "; Num (slot s); Txt ", got "; Num expected_slot]).
Definition pos_verify_seal (h : Header) : R unit := reject_if (len (extra_data h) <? 65) (InvalidBlock [Txt "Missing seal"]).
Definition pos_extra_data (s : ProofOfStake) : list Z := le64 (slot s).
Definition pos_produce_block (s : ProofOfStake) (parent : Header) (txs : list Transaction) (beneficiary : list Z) : R Block :=
  let? n := unwrap (u_add (number parent) 1) in
  let? t := umul 64 (slot s) (block_period (config s)) in
  Ok (mkBlock
    (mkHeader (header_hash parent) EMPTY_UNCLES beneficiary H256_zero H256_zero H256_zero (replicate 256 0) 0 n (gas_limit parent) 0 t
       (pos_extra_data s) H256_zero 0)
    txs []).
Definition pos_seal_block (b : Block) : R Block := Ok (append_default_signature b).
Definition pos_block_reward (block_number : Z) : R Z := Ok (calculate_reward (F64.lit 95 100)).
Definition pos_engine (s : ProofOfStake) : ConsensusEngine := {|
  validate_block := pos_validate_block s;
  verify_seal := pos_verify_seal;
  produce_block := pos_produce_block s;
  seal_block := pos_seal_block;
  get_validators := validators s;
  is_validator a := bool_decide (a ∈ validators s);
  finalize _ := Ok tt;
  block_reward := pos_block_reward;
  is_ready := negb (bool_decide (validators s = []));
  engine_extra_data := pos_extra_data s;
  calculate_difficulty _ _ := Ok 0;
|}.
End pos.

End Pos.
