(* ===== verification/Consensus.v ===== *)
(** Block validation and the consensus interface: crates/consensus/src/
    validator.rs and the [Consensus] of lib.rs, over any database and over the
    engines of ConsensusEngine.v. *)
From stdpp Require Import base list numbers option strings gmap.
From Stdlib Require Import ZArith Lia.
From S2P Require Import Prelude U256 Precompiled Crypto Storage ConsensusEngine.

Module Consensus.
Import ConsensusTypes.

Inductive ValidationResult := Valid | Invalid (s : string) | Unknown.

Section consensus.
Context `{Profile} `{U256Ops} `{KeccakOps} `{CryptoOps} `{ConsensusOps} `{Pos.Rng} {D : Type} `{Database D}.

(** * validator.rs *)

Definition validate_header (d : D) (h : Header) : R unit :=
  let? _ := reject_if (timestamp h =? 0) (InvalidBlock [Txt "Invalid timestamp"]) in
  let? _ := reject_if (gas_limit h =? 0) (InvalidBlock [Txt "Gas limit cannot be zero"]) in
  let? _ := reject_if (gas_limit h <? gas_used h) (InvalidBlock [Txt "Gas used exceeds gas limit"]) in
  let? _ := reject_if (32 <? len (extra_data h)) (InvalidBlock [Txt "Extra data too large"]) in
  if 0 <? number h then
    let? r := stored (Storage.get (header_key (parent_hash h)) d) in
    reject_if (bool_decide (r = None)) (InvalidBlock [Txt "Parent block not found"])
  else Ok tt.
Definition calculate_transaction_root (txs : list Transaction) : list Z :=
  if bool_decide (length txs = O) then EMPTY_ROOT else keccak256 (concat (map transaction_hash txs)).
Definition calculate_uncle_hash (us : list Header) : list Z :=
  if bool_decide (length us = O) then EMPTY_UNCLES else keccak256 (concat (map header_hash us)).
Definition validate_transaction (tx : Transaction) : R unit :=
  let? _ := reject_if (negb (sig_is_valid (signature tx))) (InvalidBlock [Txt "Invalid transaction signature"]) in
  let? _ := reject_if ((gas_price tx =? 0) && bool_decide (max_fee_per_gas tx = None)) (InvalidBlock [Txt "Transaction must have gas price"]) in
  reject_if (tx_gas_limit tx =? 0) (InvalidBlock [Txt "Transaction gas limit cannot be zero"]).
Definition validate_uncle (uncle parent : Header) : R unit :=
  let? _ := reject_if (number parent <=? number uncle) (InvalidBlock [Txt "Uncle block number too high"]) in
  let? depth := unwrap (u_sub (number parent) (number uncle)) in
  reject_if (7 <? depth) (InvalidBlock [Txt "Uncle too old"]).
Fixpoint each {A} (f : A -> R unit) (l : list A) : R unit :=
  match l with [] => Ok tt | x :: l => let? _ := f x in each f l end.
Definition validate_body (b : Block) : R unit :=
  let? _ := reject_if (negb (bool_decide (calculate_transaction_root (transactions b) = transactions_root (header b))))
    (InvalidBlock [Txt "Transaction root mismatch"]) in
  let? _ := reject_if (negb (bool_decide (calculate_uncle_hash (uncles b) = uncles_hash (header b)))) (InvalidBlock [Txt "Uncle hash mismatch"]) in
  let? _ := each validate_transaction (transactions b) in
  each (fun u => validate_uncle u (header b)) (uncles b).
(** The comparison of the receipts root has an empty branch: nothing is checked. *)
Definition validate_state_transition (b : Block) : R unit := Ok tt.
Definition validate (d : D) (b : Block) : R ValidationResult :=
  let? _ := validate_header d (header b) in
  let? _ := validate_body b in
  let? _ := validate_state_transition b in
  Ok Valid.
Definition check_block_import (d : D) (b : Block) : R bool :=
  let? r := stored (Storage.get (header_key (header_hash (header b))) d) in
  match r with
  | Some _ => Ok false
  | None =>
      let? result := validate d b in
      Ok (match result with Valid => true | _ => false end)
  end.
Definition validate_for_mempool (own_chain_id : Z) (tx : Transaction) : R unit :=
  let? _ := reject_if (negb (sig_is_valid (signature tx))) (InvalidBlock [Txt "Invalid signature"]) in
  let? _ := (match chain_id tx with
             | Some c => reject_if (negb (c =? own_chain_id))
                 (InvalidBlock [Txt "Wrong chain ID: expected "; Num own_chain_id; Txt ", got "; Num c])
             | None => Ok tt
             end) in
  reject_if (30000000 <? tx_gas_limit tx) (InvalidBlock [Txt "Gas limit too high"]).

(** * lib.rs *)

Record Consensus := mkConsensus { engine : ConsensusEngine; config : ConsensusConfig; db : D }.
Definition consensus_new (c : ConsensusConfig) (d : D) : Consensus :=
  mkConsensus
    (match engine_type c with
     | ProofOfStakeType => Pos.pos_engine (Pos.pos_new c)
     | CliqueType | ProofOfAuthorityType => Clique.clique_engine (Clique.clique_new c)
     end) c d.
Definition consensus_validate_block (s : Consensus) (b : Block) : R ValidationResult :=
  let? _ := validate_block (engine s) b in
  validate (db s) b.
Definition consensus_produce_block (s : Consensus) (parent : Header) (txs : list Transaction) (beneficiary : list Z) : R Block :=
  produce_block (engine s) parent txs beneficiary.
(** [select_head] is the fork choice. *)
Definition apply_fork_choice (select_head : list Block -> R Block) (blocks : list Block) : R Block := select_head blocks.
Definition consensus_get_validators (s : Consensus) : list (list Z) := get_validators (engine s).
Definition consensus_is_validator (s : Consensus) (a : list Z) : bool := is_validator (engine s) a.
Definition finalize_block (b : Block) : SM Consensus ConsensusError unit :=
  let! s := sget in
  slift (finalize (engine s) b) ;;!
  let! data := slift (unwrap (serialize_block b)) in
  let! d := slift (stored (Storage.put (finalized_key (header_hash (header b))) data (db s))) in
  sput (mkConsensus (engine s) (config s) d).
Definition calculate_epoch (s : Consensus) (block_number : Z) : R Z :=
  let? e := unwrap (u_div block_number (epoch_length (config s))) in
  unwrap (u_as_u64 e).
Record FinalityInfo := mkFinality { finalized_block : Block; justified_block : Block; finalized_epoch : Z; justified_epoch : Z }.
(** Both blocks are [Block::default()], passed in. *)
Definition get_finality_info (default_block : Block) (s : Consensus) : R FinalityInfo :=
  let? fe := calculate_epoch s (number (header default_block)) in
  let? je := calculate_epoch s (number (header default_block)) in
  Ok (mkFinality default_block default_block fe je).
End consensus.

End Consensus.
