(* ===== verification/ConsensusProofs.v ===== *)
(** What the engines promise: the theorems on crates/consensus/src/clique.rs,
    pos.rs, validator.rs and lib.rs. *)
From stdpp Require Import base list numbers option strings gmap sorting.
From Stdlib Require Import ZArith Lia.
From S2P Require Import Prelude U256 Precompiled Crypto Storage F64 ConsensusEngine Consensus.

Module ConsensusProofs.
Import ConsensusTypes.

Lemma engine_reject_ok b e : reject_if b e = Ok tt <-> b = false.
Proof. by destruct b. Qed.
Lemma engine_check_unit {A} (m : R unit) (k : R A) a : (let? _ := m in k) = Ok a <-> m = Ok tt /\ k = Ok a.
Proof. destruct m as [[]| | |]; cbn; naive_solver. Qed.

Lemma filter_keeps_all {A} (P : A -> Prop) `{!forall x, Decision (P x)} l : Forall P l -> filter P l = l.
Proof. induction 1 as [|x l Hx _ IH]; [done|]. by rewrite filter_cons_True, IH. Qed.

Section clique.
Context `{Profile} `{U256Ops} `{!U256Laws} `{KeccakOps} `{CryptoOps} `{ConsensusOps}.
Import Clique.
Implicit Types (s : Clique.Clique) (a : list Z).

(** * Recent signers *)

Lemma recent_loop_ok limit a n l : Forall (fun p => 0 <= p.1 <= n) l -> n < 2 ^ 256 ->
  recent_loop limit a n l = Ok (existsb (fun p => (n - p.1 <=? limit) && bool_decide (p.2 = a)) l).
Proof.
  intros Hl Hn. induction Hl as [|[m b] l Hm Hl IH]; [done|]. cbn [recent_loop existsb fst snd] in *.
  rewrite sub_law, (proj2 (Z.leb_le _ _)) by (unfold uint; lia). cbn [unwrap obind]. by destruct (_ && _).
Qed.
(** The numbers of a list with growing numbers: what is too old is at its front. *)
Lemma pop_old_ok limit n l : Forall (fun p => 0 <= p.1 <= n) l -> StronglySorted (fun p q : Z * list Z => p.1 < q.1) l -> n < 2 ^ 256 ->
  pop_old limit n l = Ok (filter (fun p : Z * list Z => n - p.1 <= limit) l).
Proof.
  intros Hl Hs Hn. induction Hl as [|[m b] l Hm Hl IH]; [done|]. apply StronglySorted_inv in Hs as [Hs Hlt]. cbn [pop_old fst] in *.
  rewrite sub_law, (proj2 (Z.leb_le _ _)) by (unfold uint; lia). cbn [unwrap obind]. rewrite filter_cons. cbn [fst].
  destruct (Z.ltb_spec limit (n - m)); [by rewrite decide_False by lia; apply IH|]. rewrite decide_True by lia. do 2 f_equal. symmetry.
  apply filter_keeps_all. eapply Forall_impl; [exact Hlt|]. intros [m' b']. cbn. lia.
Qed.

(** The blocks [n], [n + 1], ... signed by [l]: each signer is checked and then
    remembered; [false] when one is refused. *)
Fixpoint sign_all (n : Z) (l : list (list Z)) : SM Clique.Clique ConsensusError bool :=
  match l with
  | [] => sret true
  | a :: l =>
      let! s := sget in
      let! recently := slift (has_signed_recently s a n) in
      if recently then sret false else update_recent_signers n a ;;! sign_all (n + 1) l
  end.
(** No signer signs two of [w + 1] consecutive blocks. *)
Definition rotates (w : Z) (l : list (list Z)) : Prop :=
  forall i j a, (i < j)%nat -> Z.of_nat j - Z.of_nat i <= w -> l !! i = Some a -> l !! j = Some a -> False.
(** The signed blocks with their numbers. *)
Definition numbered (n : Z) (l : list (list Z)) : list (Z * list Z) := zip (seqZ n (len l)) l.

Lemma numbered_snoc n l a : numbered n (l ++ [a]) = numbered n l ++ [(n + len l, a)].
Proof.
  unfold numbered. rewrite len_snoc. rewrite seqZ_app by (try apply len_nonneg; lia). rewrite zip_with_app by (rewrite length_seqZ; unfold len; lia). done.
Qed.
Lemma elem_numbered n l m a : (m, a) ∈ numbered n l <-> exists i, l !! i = Some a /\ m = n + Z.of_nat i.
Proof.
  unfold numbered. rewrite list_elem_of_lookup. setoid_rewrite lookup_zip_with_Some. split.
  - intros (i & x & y & [= -> ->] & Hx & Hy). exists i. split; [done|]. apply lookup_seqZ in Hx. lia.
  - intros (i & Hi & ->). exists i, (n + Z.of_nat i), a. split_and!; [done| |done]. apply lookup_seqZ.
    pose proof (lookup_lt_Some _ _ _ Hi). unfold len. lia.
Qed.
Lemma numbered_bound n l : 0 <= n -> Forall (fun p => 0 <= p.1 <= n + len l - 1) (numbered n l).
Proof.
  intros Hn. apply list.Forall_forall. intros [m a] (i & Hi & ->)%elem_numbered. pose proof (lookup_lt_Some _ _ _ Hi). unfold len. cbn. lia.
Qed.
Lemma numbered_sorted n l : StronglySorted (fun p q : Z * list Z => p.1 < q.1) (numbered n l).
Proof.
  induction l as [|a l IH] using rev_ind; [constructor|]. rewrite numbered_snoc. apply StronglySorted_app_2; [|done|by repeat constructor].
  intros p q Hp Hq%list_elem_of_singleton. subst q. destruct p as [m b]. apply elem_numbered in Hp as (i & Hi & ->).
  pose proof (lookup_lt_Some _ _ _ Hi). unfold len. cbn. lia.
Qed.

(** What is remembered after the blocks [h] signed from [n0] on. *)
Definition remembered (w n0 : Z) (h : list (list Z)) : list (Z * list Z) :=
  filter (fun p : Z * list Z => n0 + len h - 1 - p.1 <= w) (numbered n0 h).
Lemma remembered_bound w n0 h : 0 <= n0 -> Forall (fun p => 0 <= p.1 <= n0 + len h) (remembered w n0 h).
Proof.
  intros Hn. apply list.Forall_forall. intros p [_ Hp]%list_elem_of_filter. pose proof (proj1 (list.Forall_forall _ _) (numbered_bound n0 h Hn) p Hp).
  cbn in *. lia.
Qed.
Lemma remembered_push w n0 h a : 0 <= w -> 0 <= n0 -> n0 + len h < 2 ^ 256 ->
  pop_old w (n0 + len h) (remembered w n0 h ++ [(n0 + len h, a)]) = Ok (remembered w n0 (h ++ [a])).
Proof.
  intros Hw Hn Hlt. rewrite pop_old_ok; [| | |done].
  - f_equal. unfold remembered. rewrite numbered_snoc, len_snoc, !filter_app. replace (n0 + (len h + 1) - 1) with (n0 + len h) by lia. f_equal.
    apply list_filter_filter_l. intros [m b]. cbn. lia.
  - apply Forall_app_2; [by apply remembered_bound|]. apply Forall_singleton. cbn. pose proof (len_nonneg h). lia.
  - apply StronglySorted_app_2; [| |by repeat constructor].
    + intros p q Hp ->%list_elem_of_singleton. apply list_elem_of_filter in Hp as [_ Hp].
      pose proof (proj1 (list.Forall_forall _ _) (numbered_bound n0 h Hn) p Hp). cbn in *. lia.
    + pose proof (numbered_sorted n0 h) as Hs. clear -Hs. unfold remembered. generalize (n0 + len h - 1). intros k.
      induction Hs as [|p l Hs IH Hp]; [constructor|]. rewrite filter_cons. destruct (decide _); [|done]. constructor; [done|].
      apply list.Forall_forall. intros q [_ Hq]%list_elem_of_filter. by apply (proj1 (list.Forall_forall _ _) Hp).
Qed.
Lemma rotates_snoc w h a : rotates w (h ++ [a]) <-> rotates w h /\ forall i, h !! i = Some a -> len h - Z.of_nat i <= w -> False.
Proof.
  split.
  - intros Hr. split.
    + intros i j b Hij Hw Hi Hj. apply (Hr i j b Hij Hw); by apply lookup_app_l_Some.
    + intros i Hi Hw. pose proof (lookup_lt_Some _ _ _ Hi) as Hlt. apply (Hr i (length h) a Hlt); [unfold len in *; lia|by apply lookup_app_l_Some|].
      by apply list_lookup_middle.
  - intros [Hr Ha] i j b Hij Hw Hi Hj. destruct (decide (j < length h)%nat) as [Hlt|Hge].
    + rewrite lookup_app_l in Hi, Hj by lia. by apply (Hr i j b).
    + pose proof (lookup_lt_Some _ _ _ Hj) as Hjl. rewrite length_app in Hjl. simpl in Hjl. assert (j = length h) as -> by lia.
      rewrite lookup_app_l in Hi by lia. rewrite list_lookup_middle in Hj by done. injection Hj as ->. apply (Ha i Hi). unfold len. lia.
Qed.
Lemma signed_recently_iff w n0 h a :
  existsb (fun p => (n0 + len h - p.1 <=? w) && bool_decide (p.2 = a)) (remembered w n0 h) = true <->
  exists i, h !! i = Some a /\ len h - Z.of_nat i <= w.
Proof.
  rewrite existsb_exists. setoid_rewrite <- list_elem_of_In. setoid_rewrite andb_true_iff. setoid_rewrite bool_decide_eq_true. setoid_rewrite Z.leb_le.
  unfold remembered. setoid_rewrite list_elem_of_filter. split.
  - intros ([m b] & [_ Hin] & Hw & Hb). cbn in *. subst b. apply elem_numbered in Hin as (i & Hi & ->). exists i. split; [done|lia].
  - intros (i & Hi & Hw). exists (n0 + Z.of_nat i, a). cbn. split; [|split; [lia|done]]. split; [lia|]. apply elem_numbered. eauto.
Qed.
Lemma sign_all_ok n0 h l s : 0 <= n0 -> n0 + len h + len l < 2 ^ 256 -> recent_signers s = remembered (window s) n0 h -> rotates (window s) h ->
  exists r s', sign_all (n0 + len h) l s = (Ok r, s') /\ (r = true <-> rotates (window s) (h ++ l)).
Proof.
  intros Hn. assert (0 <= window s) as Hw by (unfold window; apply Z.div_pos; [apply len_nonneg|lia]).
  revert h s Hw. induction l as [|a l IH]; intros h s Hw Hlt Hrec Hrot.
  { exists true, s. rewrite app_nil_r. done. }
  rewrite len_cons in Hlt. pose proof (len_nonneg l). pose proof (len_nonneg h). cbn [sign_all]. rewrite sbind_get. unfold has_signed_recently.
  rewrite Hrec, recent_loop_ok by (by apply remembered_bound || lia). rewrite sbind_lift.
  pose proof (signed_recently_iff (window s) n0 h a) as Hiff. destruct (existsb _ _).
  - exists false, s. split; [done|]. split; [done|]. intros Hr. exfalso. destruct (proj1 Hiff eq_refl) as (i & Hi & Hle).
    apply (Hr i (length h) a); [by eapply lookup_lt_Some|unfold len in *; lia|by apply lookup_app_l_Some|by apply list_lookup_middle].
  - assert (update_recent_signers (n0 + len h) a s = (Ok tt, set_recent (remembered (window s) n0 (h ++ [a])) s)) as Hu.
    { unfold update_recent_signers. rewrite sbind_get, Hrec, remembered_push by lia. done. }
    rewrite (sbind_ok _ _ _ _ _ Hu). destruct (IH (h ++ [a]) (set_recent (remembered (window s) n0 (h ++ [a])) s)) as (r & s' & Hr & Hri).
    + done.
    + rewrite len_snoc. lia.
    + done.
    + apply rotates_snoc. split; [done|]. intros i Hi Hle. discriminate (proj2 Hiff (ex_intro _ i (conj Hi Hle))).
    + exists r, s'. replace (n0 + len h + 1) with (n0 + len (h ++ [a])) by (rewrite len_snoc; lia). split; [done|].
      rewrite Hri. rewrite <- app_assoc. done.
Qed.
(** C25: checking each signer of consecutive blocks against the remembered ones
    and then remembering it accepts a sequence of signers exactly when no one
    signs two out of any n / 2 + 1 consecutive blocks, n the number of signers;
    it never fails, and what is forgotten is never missed. *)
Theorem signers_rotate c n l :
  0 <= n -> n + len l < 2 ^ 256 ->
  exists r s', sign_all n l (clique_new c) = (Ok r, s') /\ (r = true <-> rotates (len (cfg_validators c) / 2) l).
Proof.
  intros Hn Hlt. destruct (sign_all_ok n [] l (clique_new c) Hn) as (r & s' & Hr & Hiff); [by rewrite len_nil, Z.add_0_r|done|by intros i j a _ _|].
  exists r, s'. rewrite len_nil, Z.add_0_r in Hr. done.
Qed.

(** * Votes *)

Notation Vote := (Header * list Z)%type.
Definition vote_of (h : Header) : bool := negb (nonce h =? 0).
Definition cast (s : Clique.Clique) (x : Vote) : Clique.Clique := (process_vote x.1 x.2 s).2.
Definition recorded (m : gmap (list Z) (gmap (list Z) bool)) (x p : list Z) (v : bool) : Prop := exists b, m !! x = Some b /\ b !! p = Some v.
(** The voters on record with [v] on [p]. *)
Definition voters (v : bool) (p : list Z) (m : gmap (list Z) (gmap (list Z) bool)) : gset (list Z) :=
  dom (filter (fun q : list Z * gmap (list Z) bool => q.2 !! p = Some v) m).
Lemma elem_voters v p m x : x ∈ voters v p m <-> recorded m x p v.
Proof.
  unfold voters, recorded. rewrite elem_of_dom. split.
  - intros [b [Hm Hb]%map_lookup_filter_Some]. by exists b.
  - intros (b & Hm & Hb). exists b. by apply map_lookup_filter_Some.
Qed.
Lemma count_votes_size v p m : count_votes v p m = size (voters v p m).
Proof. unfold voters. by rewrite size_dom. Qed.
(** The votes after a new one is entered. *)
Definition entered (h : Header) a s : gmap (list Z) (gmap (list Z) bool) :=
  <[a := <[author h := vote_of h]> (default ∅ (votes s !! a))]> (votes s).
Lemma process_vote_spec h a s :
  let p := author h in let m := entered h a s in let half := (length (signers s) / 2)%nat in
  (p = Address_zero /\ cast s (h, a) = s) \/
  (p <> Address_zero /\
   ((exists v, (half < size (voters v p m))%nat /\ (p ∈ signers s <-> v = false) /\
     cast s (h, a) = clear_votes_for p (set_signers (if v : bool then signers s ++ [p] else filter (fun a => a <> p) (signers s)) (set_votes m s)))
   \/ cast s (h, a) = set_votes m s)).
Proof.
  intros p m half. unfold cast, process_vote. cbn [fst snd]. destruct (decide (p = Address_zero)) as [Hz|Hz].
  { left. by rewrite bool_decide_true. }
  right. rewrite bool_decide_false by done. split; [done|]. rewrite sbind_modify, sbind_get.
  change (signers (set_votes _ s)) with (signers s). change (votes (set_votes _ s)) with m. change (author h) with p.
  rewrite !count_votes_size. change (is_authorized (set_votes _ s) p) with (is_authorized s p). unfold is_authorized.
  destruct (bool_decide (_ <= size (voters true p m))%nat) eqn:Ht; destruct (decide (p ∈ signers s)) as [Hp|Hp];
    rewrite ?(bool_decide_true (p ∈ signers s)), ?(bool_decide_false (p ∈ signers s)) by done; cbn [andb negb].
  - rewrite andb_true_r. destruct (bool_decide (_ <= size (voters false p m))%nat) eqn:Hf; [|by right].
    apply bool_decide_eq_true in Hf. left. exists false. split; [lia|]. done.
  - apply bool_decide_eq_true in Ht. left. exists true. split; [lia|]. done.
  - rewrite andb_true_r. destruct (bool_decide (_ <= size (voters false p m))%nat) eqn:Hf; [|by right].
    apply bool_decide_eq_true in Hf. left. exists false. split; [lia|]. done.
  - rewrite andb_false_r. by right.
Qed.
(** What is on record was cast. *)
Definition on_file (l : list Vote) s : Prop :=
  forall x p v, recorded (votes s) x p v -> exists h, (h, x) ∈ l /\ author h = p /\ vote_of h = v.
Lemma entered_on_file l s h a x p v : on_file l s -> recorded (entered h a s) x p v ->
  exists h', (h', x) ∈ l ++ [(h, a)] /\ author h' = p /\ vote_of h' = v.
Proof.
  intros Hl (b & Hb & Hp). unfold entered in Hb. destruct (decide (x = a)) as [-> |Hne].
  - rewrite lookup_insert_eq in Hb. injection Hb as <-. destruct (decide (p = author h)) as [-> |Hne].
    + rewrite lookup_insert_eq in Hp. injection Hp as <-. exists h. split; [set_solver|done].
    + rewrite lookup_insert_ne in Hp by done. destruct (votes s !! a) as [b|] eqn:Ha; [|done].
      destruct (Hl a p v) as (h' & ? & ?); [by exists b|]. exists h'. split; [set_solver|done].
  - rewrite lookup_insert_ne in Hb by done. destruct (Hl x p v) as (h' & ? & ?); [by exists b|]. exists h'. split; [set_solver|done].
Qed.
Lemma cast_on_file l s h a : on_file l s -> on_file (l ++ [(h, a)]) (cast s (h, a)).
Proof.
  intros Hl x p v Hr. destruct (process_vote_spec h a s) as [[_ Hc]|[_ [(w & _ & _ & Hc)|Hc]]]; rewrite Hc in Hr.
  - destruct (Hl x p v Hr) as (h' & ? & ?). exists h'. split; [set_solver|done].
  - destruct Hr as (b & Hb & Hp). cbn [clear_votes_for votes set_votes set_signers] in Hb. rewrite lookup_fmap in Hb.
    destruct (entered h a s !! x) as [b'|] eqn:Hb'; [|done]. injection Hb as <-. apply lookup_delete_Some in Hp as [_ Hp].
    apply (entered_on_file l s h a x p v Hl). by exists b'.
  - by apply (entered_on_file l s h a x p v Hl).
Qed.
Lemma cast_nodup s x : NoDup (signers s) -> NoDup (signers (cast s x)).
Proof.
  destruct x as [h a]. intros Hn. destruct (process_vote_spec h a s) as [[_ ->]|[_ [(w & _ & Hw & ->)| ->]]]; [done| |done].
  cbn [clear_votes_for signers set_votes set_signers]. destruct w; [|by apply NoDup_filter].
  apply NoDup_app. split_and!; [done| |apply NoDup_singleton]. intros b Hb ->%list_elem_of_singleton. by apply Hw in Hb.
Qed.
(** C26: however the votes arrive, no signer is listed twice, and one vote
    changes the signers only by adding an address that was none or by removing
    one that was, and only when more than half as many distinct voters as there
    are signers have cast that vote on it. *)
Theorem signers_change_by_majority c l h a :
  NoDup (cfg_validators c) ->
  let s := foldl cast (clique_new c) l in
  let s' := cast s (h, a) in
  NoDup (signers s') /\
  (signers s' = signers s \/
   exists v (vs : gset (list Z)), (length (signers s) / 2 < size vs)%nat /\
     (forall x, x ∈ vs -> exists h', (h', x) ∈ l ++ [(h, a)] /\ author h' = author h /\ vote_of h' = v) /\
     (author h ∈ signers s <-> v = false) /\
     signers s' = if v : bool then signers s ++ [author h] else filter (fun b => b <> author h) (signers s)).
Proof.
  intros Hn s s'. assert (NoDup (signers s) /\ on_file l s) as [Hs Hf].
  { subst s s'. clear h a. induction l as [|[h a] l [IH1 IH2]] using rev_ind; [split; [done|]; intros x p v (b & Hb & _); cbn in Hb; by rewrite lookup_empty in Hb|].
    rewrite foldl_snoc. split; [by apply cast_nodup|by apply cast_on_file]. }
  split; [by apply cast_nodup|]. subst s'. destruct (process_vote_spec h a s) as [[_ ->]|[_ [(v & Hv & Hp & ->)| ->]]]; [by left| |by left].
  right. exists v, (voters v (author h) (entered h a s)). split_and!; [done| |done|done].
  intros x Hx%elem_voters. by apply (entered_on_file l s h a x).
Qed.

(** * Blocks *)

(** A block is accepted exactly when an authorised signer that has not signed
    recently sealed it with difficulty one or two; of the time between blocks
    only that it is not before the period since the epoch is checked. *)
Lemma clique_accepts_iff s b : 0 <= timestamp (header b) -> 0 <= block_period (config s) < 2 ^ 64 -> timestamp (header b) < 2 ^ 64 ->
  Forall (fun p => 0 <= p.1 <= number (header b)) (recent_signers s) -> number (header b) < 2 ^ 256 ->
  clique_validate_block s b = Ok tt <->
  exists a, get_signer (header b) = Ok a /\ a ∈ signers s /\
    (forall m, (m, a) ∈ recent_signers s -> window s < number (header b) - m) /\
    (0 < number (header b) -> block_period (config s) <= timestamp (header b)) /\
    (difficulty (header b) = 1 \/ difficulty (header b) = 2).
Proof.
  intros Ht Hp Ht' Hr Hn. unfold clique_validate_block, has_signed_recently.
  destruct (get_signer (header b)) as [a| | |] eqn:Hs; cbn [obind]; [|naive_solver..].
  rewrite recent_loop_ok by done. cbn [obind]. unfold get_parent_timestamp, saturating_sub, uadd.
  rewrite checked_arith_ok by (unfold uint; lia). cbn [obind]. rewrite engine_check_unit, engine_reject_ok, negb_false_iff. unfold is_authorized.
  rewrite bool_decide_eq_true, engine_check_unit, engine_reject_ok, engine_check_unit, engine_reject_ok.
  assert ((if 0 <? number (header b) then
      reject_if (timestamp (header b) <? Z.max (timestamp (header b) - block_period (config s)) 0 + block_period (config s)) (InvalidBlock [Txt "Block too early"])
      else Ok tt) = Ok tt <-> (0 < number (header b) -> block_period (config s) <= timestamp (header b))) as ->.
  { destruct (Z.ltb_spec 0 (number (header b))); [rewrite engine_reject_ok, Z.ltb_ge|]; naive_solver lia. }
  assert (existsb (fun p => (number (header b) - p.1 <=? window s) && bool_decide (p.2 = a)) (recent_signers s) = false <->
    forall m, (m, a) ∈ recent_signers s -> window s < number (header b) - m) as ->.
  { rewrite <- not_true_iff_false, existsb_exists. setoid_rewrite <- list_elem_of_In. setoid_rewrite andb_true_iff.
    setoid_rewrite bool_decide_eq_true. setoid_rewrite Z.leb_le. split.
    - intros Hno m Hm. destruct (Z.lt_ge_cases (window s) (number (header b) - m)); [done|]. exfalso. apply Hno. by exists (m, a).
    - intros Hall ([m a'] & Hm & Hle & Heq). cbn in *. subst a'. specialize (Hall m Hm). lia. }
  assert (negb (difficulty (header b) =? 1) && negb (difficulty (header b) =? 2) = false <-> (difficulty (header b) = 1 \/ difficulty (header b) = 2)) as ->.
  { rewrite andb_false_iff, !negb_false_iff, !Z.eqb_eq. done. }
  naive_solver.
Qed.
(** Sealing does not change what is signed, for the extra data of new blocks. *)
Lemma seal_keeps_signing_hash b b' : len (sig_to_bytes default_signature) = 65 -> len (extra_data (header b)) < 65 ->
  clique_seal_block b = Ok b' -> signing_hash (header b') = signing_hash (header b).
Proof.
  intros Hl Hx Hs. unfold clique_seal_block in Hs. opened Hs. injection Hs as <-. unfold signing_hash. cbn [append_default_signature header extra_data set_extra].
  rewrite len_app, Hl, (proj2 (Z.leb_le _ _)), (proj2 (Z.leb_gt _ _)) by (pose proof (len_nonneg (extra_data (header b))); lia).
  replace (len (extra_data (header b)) + 65 - 65) with (len (extra_data (header b))) by lia. unfold len. rewrite Nat2Z.id, take_app_length. by destruct (header b).
Qed.
End clique.

(** * Proof of stake *)

Section pos.
Context `{Profile} `{U256Ops} `{KeccakOps} `{CryptoOps} `{ConsensusOps} `{Pos.Rng}.
Import Pos.

(** over as many consecutive slots as there are validators, from whatever
    slot on, every validator is the proposer exactly once. *)
Theorem proposers_take_turns s start :
  0 <= start ->
  exists l, mapM (fun k => match get_proposer s k with Ok a => Some a | _ => None end) (seqZ start (len (validators s))) = Some l /\
    l ≡ₚ validators s.
Proof.
  intros Hs. set (vs := validators s). set (n := len vs). destruct (decide (vs = [])) as [He|Hne].
  { unfold n. rewrite He. exists []. done. }
  assert (0 < n) as Hn by (unfold n, len; destruct vs; [done|simpl; lia]). set (k := start mod n).
  assert (0 <= k < n) as Hk by (apply Z.mod_pos_bound; lia). exists (drop (Z.to_nat k) vs ++ take (Z.to_nat k) vs).
  split; [|by rewrite Permutation_app_comm, take_drop].
  apply mapM_Some. apply Forall2_same_length_lookup. split.
  { rewrite length_app, length_drop, length_take, length_seqZ. unfold n, len in *. lia. }
  intros i x y Hx Hy. apply lookup_seqZ in Hx as [-> Hi]. unfold get_proposer. fold vs. rewrite bool_decide_false by done. unfold index. fold n.
  rewrite (proj2 (Z.leb_le 0 _)) by (apply Z.mod_pos_bound; lia).
  assert (vs !! Z.to_nat ((start + Z.of_nat i) mod n) = Some y) as ->; [|done]. rewrite <- Hy.
  assert ((start + Z.of_nat i) mod n = if decide (k + Z.of_nat i < n) then k + Z.of_nat i else k + Z.of_nat i - n) as ->.
  { unfold k. rewrite <- Zplus_mod_idemp_l. fold k. destruct (decide _); [by apply Z.mod_small; lia|].
    symmetry. apply (Z.mod_unique_pos _ _ 1); lia. }
  unfold n, len in *. destruct (decide _).
  - rewrite lookup_app_l, lookup_drop by (rewrite length_drop; lia). f_equal. lia.
  - rewrite lookup_app_r, length_drop, lookup_take_lt by (rewrite ?length_drop; lia). f_equal. lia.
Qed.

(** ** Committees *)

Lemma swap_remove_ok {A} i (l : list A) : 0 <= i < len l -> exists x l', swap_remove (E := ConsensusError) i l = Ok (x, l') /\ x :: l' ≡ₚ l.
Proof.
  intros Hi. destruct (exists_last (l := l)) as (l' & z & ->); [intros ->; unfold len in Hi; cbn in Hi; lia|].
  rewrite len_snoc in Hi. unfold swap_remove, index. rewrite last_snoc. cbn [unwrap]. unfold len in Hi.
  destruct ((l' ++ [z]) !! Z.to_nat i) as [x|] eqn:Hx; [|apply lookup_ge_None in Hx; rewrite length_app in Hx; simpl in Hx; lia].
  rewrite (proj2 (Z.leb_le _ _)) by lia. cbn [obind]. do 2 eexists. split; [done|]. rewrite length_app. simpl. rewrite Nat.add_sub.
  destruct (decide (Z.to_nat i < length l')%nat) as [Hlt|Hge].
  - rewrite insert_app_l by done. rewrite take_app_length' by by rewrite length_insert. rewrite lookup_app_l in Hx by done.
    rewrite (insert_take_drop _ _ _ Hlt). rewrite <- (take_drop_middle l' _ x Hx) at 3.
    rewrite <- Permutation_cons_append, <- !Permutation_middle. apply Permutation_swap.
  - assert (Z.to_nat i = length l') as Heq by lia. rewrite Heq in Hx |- *. rewrite list_lookup_middle in Hx by done. injection Hx as ->.
    rewrite insert_app_r_alt, Nat.sub_diag by lia. cbn. rewrite take_app_length. by rewrite Permutation_cons_append.
Qed.
Context `{!Pos.RngLaws}.
Lemma draw_members_ok seed n k vs l : (n <= length l)%nat -> Forall (fun i => 0 <= i < len vs) l ->
  exists c, draw_members seed n k vs l = Ok c /\ length c = n /\ c ⊆+ omap (fun i => vs !! Z.to_nat i) l.
Proof.
  revert k l. induction n as [|n IH]; intros k l Hn Hl; [exists []; split_and!; [done|done|apply submseteq_nil_l]|].
  cbn [draw_members]. rewrite (proj2 (Z.eqb_neq _ _)) by (unfold len; lia).
  destruct (swap_remove_ok (gen_range seed k (len l)) l) as (i & l' & -> & Hp); [apply gen_range_bound; unfold len; lia|]. cbn [obind fst snd].
  rewrite <- Hp in Hl. apply Forall_cons in Hl as [Hi Hl'].
  assert (is_Some (vs !! Z.to_nat i)) as [a Ha] by (apply lookup_lt_is_Some; unfold len in *; lia).
  unfold index. rewrite Ha, (proj2 (Z.leb_le _ _)) by lia. cbn [obind]. pose proof (Permutation_length Hp) as Hlen. simpl in Hlen.
  destruct (IH (S k) l') as (c & -> & Hc & Hsub); [lia|done|]. cbn [obind]. exists (a :: c). split; [done|]. split; [by simpl; rewrite Hc|].
  rewrite <- Hp. cbn [omap list_omap]. rewrite Ha. by apply submseteq_skip.
Qed.
Lemma all_members (vs : list (list Z)) : omap (fun i => vs !! Z.to_nat i) (seqZ 0 (len vs)) = vs.
Proof.
  induction vs as [|v vs IH] using rev_ind; [done|]. rewrite len_snoc, seqZ_app by (try apply len_nonneg; lia). rewrite omap_app.
  change (seqZ (0 + len vs) 1) with [0 + len vs]. cbn [omap list_omap]. unfold len at 2. rewrite Z.add_0_l, Nat2Z.id, list_lookup_middle by done.
  f_equal. rewrite <- IH at 2. apply list_omap_ext, Forall_Forall2_diag, Forall_seqZ. intros i Hi. cbn.
  unfold len in Hi. by rewrite lookup_app_l by lia.
Qed.
Lemma committee_drawn s k :
  exists c, get_committee s k = Ok c /\ c ⊆+ validators s /\
    len c = (if len (validators s) <=? 128 then len (validators s) else Z.min 128 (len (validators s) / 2)).
Proof.
  unfold get_committee. destruct (Z.leb_spec (len (validators s)) 128); [by exists (validators s)|].
  destruct (draw_members_ok k (Z.to_nat (Z.min 128 (len (validators s) / 2))) 0 (validators s) (seqZ 0 (len (validators s)))) as (c & Hc & Hl & Hsub).
  - rewrite length_seqZ. zlia.
  - apply Forall_seqZ. lia.
  - rewrite all_members in Hsub. exists c. split_and!; [done|done|]. unfold len at 1. rewrite Hl. zlia.
Qed.
(** a committee always exists: it is the whole validator set up to 128
    validators, and otherwise as many validators as the smaller of 128 and half
    the set, no position drawn twice, whatever the generator draws. *)
Theorem committee_is_drawn s k :
  exists c, get_committee s k = Ok c /\ c ⊆+ validators s /\
    len c = (if len (validators s) <=? 128 then len (validators s) else Z.min 128 (len (validators s) / 2)).
Proof.
  apply committee_drawn.
Qed.

(** ** Finality *)

Implicit Types (st : ProofOfStake).
Definition verified st : Prop := Forall (fun a => verify_attestation st a = Ok tt) (attestations st).
(** Verification looks at the validators only. *)
Lemma verify_attestation_set l st a : verify_attestation (set_attestations l st) a = verify_attestation st a.
Proof. done. Qed.
Lemma take_attestations_keeps l st : verified st ->
  verified (take_attestations l st).2 /\ validators (take_attestations l st).2 = validators st.
Proof.
  revert st. induction l as [|a l IH]; intros st Hv; [done|]. cbn [take_attestations]. rewrite sbind_get.
  destruct (verify_attestation st a) as [[]| | |] eqn:Ha; unfold sbind at 1; cbn [sput sret slift].
  - destruct (IH (set_attestations (attestations st ++ [a]) st)) as [? ?]; [|done].
    apply Forall_app_2; [|by apply Forall_singleton]. eapply Forall_impl; [exact Hv|]. by intros x.
  - by apply IH.
  - done.
  - done.
Qed.
Lemma verified_members st : verified st -> Forall (fun a => att_validator a ∈ validators st) (attestations st).
Proof.
  intros Hv. eapply Forall_impl; [exact Hv|]. intros a Ha. unfold verify_attestation in Ha. cbn in Ha.
  destruct (committee_drawn st (att_slot a)) as (c & Hc & Hsub & _). rewrite Hc in Ha. cbn [obind] in Ha.
  apply engine_check_unit in Ha as [Ha _]. apply engine_reject_ok, negb_false_iff, bool_decide_eq_true in Ha. by eapply elem_of_submseteq.
Qed.
(** The counts of check_finality. *)
Lemma count_roots l r : default O (foldl count_root ∅ l !! r) = length (filter (fun x => x = r) l) /\
  (is_Some (foldl count_root ∅ l !! r) -> r ∈ l).
Proof.
  induction l as [|x l [IH IH']] using rev_ind; [cbn [foldl]; rewrite lookup_empty; split; [done|by intros []]|]. rewrite foldl_snoc, filter_app, length_app.
  unfold count_root at 1 3. destruct (decide (x = r)) as [-> |Hne].
  - rewrite lookup_insert_eq, filter_cons_True by done. simpl. split; [rewrite IH; lia|set_solver].
  - rewrite lookup_insert_ne, filter_cons_False by done. simpl. split; [rewrite IH; lia|intros ?%IH'; set_solver].
Qed.
Lemma disjoint_counts (l : list (list Z)) r r' : r <> r' ->
  (length (filter (fun x => x = r) l) + length (filter (fun x => x = r') l) <= length l)%nat.
Proof.
  intros Hne. induction l as [|x l IH]; [done|]. rewrite !filter_cons. destruct (decide (x = r)), (decide (x = r')); simpl; (lia || congruence).
Qed.
(** The validators that attested to the epoch, once per attestation. *)
Definition attesters (e : Z) (l : list Attestation) : list (list Z) :=
  map att_validator (filter (fun a => cp_epoch (target_checkpoint a) = e) l).
(** when no validator attests twice to an epoch and there are three or at
    least five validators, at most one root is justified.  Only attestations of
    committee members with their signature are counted. *)
Theorem one_justified_root l st roots st' :
  verified st -> len (validators st) < 2 ^ 62 -> len (validators st) = 3 \/ 5 <= len (validators st) ->
  process_attestations l st = (Ok roots, st') ->
  NoDup (attesters (slot st' / epoch_length (config st')) (attestations st')) ->
  verified st' /\ forall r r', r ∈ roots -> r' ∈ roots -> r = r'.
Proof.
  intros Hv Hfit Hn Hp Hd. unfold process_attestations in Hp. destruct (take_attestations_keeps l st Hv) as [Hv' Hvs].
  unfold sbind at 1 in Hp. destruct (take_attestations l st) as [[[]| | |] st1]; [|done..]. cbn [snd] in *. rewrite sbind_get in Hp.
  unfold slift in Hp. injection Hp as Hc <-. split; [done|]. intros r r' Hr Hr'. destruct (decide (r = r')) as [|Hne]; [done|]. exfalso.
  unfold check_finality, udiv, umul in Hc. destruct (_ =? 0); [done|]. cbn [obind] in Hc.
  rewrite Hvs, checked_arith_ok in Hc by (unfold uint; pose proof (len_nonneg (validators st)); lia). cbn [obind] in Hc. injection Hc as <-.
  set (tg := targets (slot st1 / epoch_length (config st1)) (attestations st1)) in *.
  assert (forall x, x ∈ map fst (filter (fun p : list Z * nat => len (validators st) * 2 / 3 <= Z.of_nat p.2) (map_to_list (foldl count_root ∅ tg))) ->
    len (validators st) * 2 / 3 <= Z.of_nat (length (filter (fun y => y = x) tg))) as Hcount.
  { intros x ([k c] & -> & [Hle Hin]%list_elem_of_filter)%list_elem_of_fmap. apply elem_of_map_to_list in Hin. cbn in *.
    destruct (count_roots tg k) as [Hk _]. rewrite Hin in Hk. cbn in Hk. by rewrite <- Hk. }
  pose proof (Hcount r Hr). pose proof (Hcount r' Hr'). pose proof (disjoint_counts tg r r' Hne).
  assert (length tg <= length (validators st))%nat as Hlen.
  { unfold tg, targets. rewrite length_map. rewrite <- (length_map att_validator). apply submseteq_length, NoDup_submseteq; [exact Hd|].
    intros x (a & -> & [_ Ha]%list_elem_of_filter)%list_elem_of_fmap. rewrite <- Hvs.
    by apply (proj1 (list.Forall_forall _ _) (verified_members st1 Hv')). }
  unfold len in *. zlia.
Qed.
End pos.

(** * Composition *)

Section consensus.
Context `{Profile} `{U256Ops} `{KeccakOps} `{CryptoOps} `{ConsensusOps} `{Pos.Rng} {D : Type} `{Database D}.
(** no block passes validation, for whatever configuration, database and
    block: both engines demand a seal of 65 bytes in the extra data, and the
    block validator refuses extra data of more than 32. *)
Theorem no_block_passes (c : ConsensusConfig) (d : D) (b : Block) r :
  Consensus.consensus_validate_block (Consensus.consensus_new c d) b <> Ok r.
Proof.
  intros Hv. unfold Consensus.consensus_validate_block in Hv. opened Hv. rename r0 into u, Hr into He.
  assert (65 <= len (extra_data (header b))) as Hlong.
  { unfold Consensus.consensus_new in He. cbn [Consensus.engine] in He. destruct (engine_type c); cbn in He.
    - unfold Pos.pos_validate_block, Pos.verify_proposer_signature in He. opened He. opened Hr. by destruct (Z.ltb_spec (len (extra_data (header b))) 65).
    - unfold Clique.clique_validate_block, Clique.get_signer in He. by destruct (Z.ltb_spec (len (extra_data (header b))) 65).
    - unfold Clique.clique_validate_block, Clique.get_signer in He. by destruct (Z.ltb_spec (len (extra_data (header b))) 65). }
  unfold Consensus.validate, Consensus.validate_header in Hv. rewrite !engine_check_unit in Hv. destruct Hv as ((_ & _ & _ & Hx & _) & _).
  apply engine_reject_ok, Z.ltb_ge in Hx. lia.
Qed.
End consensus.

(** * Witnesses and examples *)

#[local] Existing Instance dev_profile.
Definition addr (n : Z) : list Z := replicate 20 n.
#[local] Instance toy_consensus : ConsensusOps := {|
  header_hash h := to_be 32 (number h); serialize_header h := Some (extra_data h); serialize_block b := Some [number (header b)];
  transaction_hash tx := to_be 32 (gas_price tx); default_signature := mkSignature (replicate 32 0) (replicate 32 0) 0;
  sig_is_valid _ := true; header_key k := k; finalized_key k := k;
|}.
#[local] Instance toy_rng : Pos.Rng := {| Pos.gen_range seed k n := (seed + Z.of_nat k) mod n |}.
#[local] Instance toy_rng_laws : Pos.RngLaws.
Proof. split. intros. cbn. apply Z.mod_pos_bound. lia. Qed.
Definition toy_config (vs : list (list Z)) : ConsensusConfig := mkConfig CliqueType 32 12 vs [].
Lemma signers_rotate_witness : exists s', sign_all 5 [addr 1; addr 2; addr 3; addr 1] (Clique.clique_new (toy_config [addr 1; addr 2; addr 3])) = (Ok true, s').
Proof.
  destruct (signers_rotate (toy_config [addr 1; addr 2; addr 3]) 5 [addr 1; addr 2; addr 3; addr 1]) as (r & s' & Hr & Hiff); [done|done|].
  exists s'. rewrite Hr. do 2 f_equal. apply Hiff. intros i j a Hij Hw Hi Hj. change (len _ / 2) with 1 in Hw.
  destruct i as [|[|[|[|i]]]], j as [|[|[|[|j]]]]; cbn [lookup list_lookup] in *;
    try lia; try done; rewrite <- Hj in Hi; by vm_compute in Hi.
Defined.
Definition vote (a : list Z) (add : bool) : Header :=
  mkHeader [] [] a [] [] [] [] 1 5 0 0 0 [] [] (if add then 1 else 0).
Lemma signers_change_by_majority_witness :
  NoDup (Clique.signers (cast (foldl cast (Clique.clique_new (toy_config [addr 1; addr 2])) [(vote (addr 3) true, addr 1)]) (vote (addr 3) true, addr 2))).
Proof.
  apply (signers_change_by_majority (toy_config [addr 1; addr 2]) [(vote (addr 3) true, addr 1)] (vote (addr 3) true) (addr 2)).
  apply (bool_decide_unpack _). by vm_compute.
Defined.
Lemma proposers_take_turns_witness : exists l,
  mapM (fun k => match Pos.get_proposer (Pos.pos_new (toy_config [addr 1; addr 2; addr 3])) k with Ok a => Some a | _ => None end) (seqZ 7 3) = Some l /\
  l ≡ₚ [addr 1; addr 2; addr 3].
Proof. apply (proposers_take_turns (Pos.pos_new (toy_config [addr 1; addr 2; addr 3])) 7). lia. Defined.
Lemma committee_is_drawn_witness : exists c, Pos.get_committee (Pos.pos_new (toy_config (map addr (seqZ 0 200)))) 7 = Ok c /\ len c = 100.
Proof.
  destruct (committee_is_drawn (Pos.pos_new (toy_config (map addr (seqZ 0 200)))) 7) as (c & Hc & _ & Hl).
  exists c. split; [done|]. rewrite Hl. by vm_compute.
Defined.
(** Signatures of the example keys, and the addresses they recover to. *)
Definition signed_by (k : Z) : Signature := mkSignature (replicate 32 0) (to_be 32 k) 27.
Definition account (k : Z) : list Z := drop 12 (keccak256 (replicate 32 0 ++ to_be 32 k)).
Definition attest (k : Z) (root : list Z) : Pos.Attestation :=
  Pos.mkAttestation 3 (account k) root (Pos.mkCheckpoint 0 []) (Pos.mkCheckpoint 0 root) (signed_by k).
Definition toy_pos (n : Z) : Pos.ProofOfStake := Pos.pos_new (toy_config (map account (seqZ 1 n))).
Lemma one_justified_root_witness : exists st', Pos.process_attestations [attest 1 (addr 7); attest 2 (addr 7); attest 3 (addr 8)] (toy_pos 3) = (Ok [addr 7], st') /\
  verified st'.
Proof.
  exists (Pos.process_attestations [attest 1 (addr 7); attest 2 (addr 7); attest 3 (addr 8)] (toy_pos 3)).2.
  assert (Pos.process_attestations [attest 1 (addr 7); attest 2 (addr 7); attest 3 (addr 8)] (toy_pos 3) =
    (Ok [addr 7], (Pos.process_attestations [attest 1 (addr 7); attest 2 (addr 7); attest 3 (addr 8)] (toy_pos 3)).2)) as Hp by (by vm_compute).
  split; [exact Hp|]. eapply (one_justified_root [attest 1 (addr 7); attest 2 (addr 7); attest 3 (addr 8)] (toy_pos 3)); [constructor|done|by left|exact Hp|].
  apply (bool_decide_unpack _). by vm_compute.
Defined.
(** With four validators, two roots are justified by two votes each. *)
Example four_validators_two_roots :
  (Pos.process_attestations [attest 1 (addr 7); attest 2 (addr 7); attest 3 (addr 8); attest 4 (addr 8)] (toy_pos 4)).1 = Ok [addr 7; addr 8] \/
  (Pos.process_attestations [attest 1 (addr 7); attest 2 (addr 7); attest 3 (addr 8); attest 4 (addr 8)] (toy_pos 4)).1 = Ok [addr 8; addr 7].
Proof. vm_compute. auto. Qed.
(** An attestation that is sent again counts again. *)
Example repeated_attestation_justifies :
  (Pos.process_attestations (replicate 6 (attest 1 (addr 7))) (toy_pos 9)).1 = Ok [addr 7].
Proof. by vm_compute. Qed.
(** A signature with a recovery byte below 27 makes the node panic. *)
Example bad_recovery_byte_panics :
  (Pos.process_attestations [Pos.mkAttestation 3 (account 1) [] (Pos.mkCheckpoint 0 []) (Pos.mkCheckpoint 0 []) (mkSignature [] [] 0)] (toy_pos 3)).1 = Panic.
Proof. by vm_compute. Qed.
(** The last signer can vote itself out, after which no block can be made. *)
Example last_signer_removed :
  let s := cast (Clique.clique_new (toy_config [addr 1])) (vote (addr 1) false, addr 1) in
  Clique.signers s = [] /\ Clique.clique_produce_block s (vote (addr 1) false) [] (addr 1) = Panic.
Proof. by vm_compute. Qed.
(** The votes of a removed signer, and of anyone else, still count. *)
Example outsiders_votes_count :
  Clique.signers (foldl cast (Clique.clique_new (toy_config [addr 1; addr 2; addr 3])) [(vote (addr 9) true, addr 7); (vote (addr 9) true, addr 8)]) =
  [addr 1; addr 2; addr 3; addr 9].
Proof. by vm_compute. Qed.
(** 95 percent of 2 ETH, as the floating-point product gives it. *)
Example block_reward_is : Pos.pos_block_reward 0 = Ok 1900000000000000000.
Proof. by vm_compute. Qed.

End ConsensusProofs.
