(* ===== verification/Scheduler.v ===== *)
(** Scheduling of transactions for parallel execution:
    crates/parallel-execution/src/dependency_graph.rs, scheduler.rs, the
    transaction analysis of conflict_detector.rs and the graph construction of
    executor.rs.

    The crate reads [from], [to], [nonce] and the hash of a transaction (class
    [TxView]).  The graph algorithms are those of the petgraph crate, parameters
    with their documented behaviour ([GraphOps], [GraphLaws]).  A [usize] index
    into the transactions is a [nat]. *)
From stdpp Require Import base list numbers option strings gmap sorting.
From Stdlib Require Import ZArith Lia.
From S2P Require Import Prelude U256.

Inductive ParallelExecutionError :=
  | ExecutionFailed (s : string) | ConflictDetected (s : string) | SchedulingError (s : string)
  | StateError (s : string) | ValidationFailed (s : string).
Notation PM := (outcome ParallelExecutionError).

Class TxView (T : Type) := {
  view_from : T -> list Z;
  view_to : T -> option (list Z);
  view_nonce : T -> Z;
  view_hash : T -> list Z;
}.

(** [DiGraph<usize, ()>]: the weights of the nodes and the edges; a
    [NodeIndex] is a position. *)
Record DiGraph := mkDiGraph { graph_nodes : list nat; graph_edges : list (nat * nat) }.
(** [petgraph::algo], on the number of nodes and the edges. *)
Class GraphOps := {
  toposort : nat -> list (nat * nat) -> option (list nat);
  has_path_connecting : nat -> list (nat * nat) -> nat -> nat -> bool;
}.

(** ** The conflict detector *)

Record ConflictDetector := mkConflictDetector { conflict_cache : gmap (list Z * list Z) bool }.
Definition detector_new : ConflictDetector := mkConflictDetector ∅.
Definition clear_cache (c : ConflictDetector) : ConflictDetector := mkConflictDetector ∅.

Section conflicts.
Context {T : Type} `{TxView T}.
Definition may_interact (addr1 addr2 : list Z) : bool := false.
Definition analyze_conflict (tx1 tx2 : T) : bool :=
  if bool_decide (view_from tx1 = view_from tx2) then true
  else match view_to tx1, view_to tx2 with
       | Some to1, Some to2 => bool_decide (to1 = to2) || may_interact to1 to2
       | _, _ => false
       end.
Definition check_conflict (tx1 tx2 : T) : SM ConflictDetector ParallelExecutionError bool :=
  let! c := sget in
  let key := (view_hash tx1, view_hash tx2) in
  match conflict_cache c !! key with
  | Some result => sret result
  | None =>
      let has_conflict := analyze_conflict tx1 tx2 in
      sput (mkConflictDetector (<[key := has_conflict]> (conflict_cache c))) ;;!
      sret has_conflict
  end.
(** executor.rs: tx2 depends on tx1. *)
Definition has_dependency (tx1 tx2 : T) : SM ConflictDetector ParallelExecutionError bool :=
  if bool_decide (view_from tx1 = view_from tx2) then sret true
  else match view_to tx1, view_to tx2 with
       | Some to1, Some to2 =>
           if bool_decide (to1 = to2) then check_conflict tx1 tx2 else sret false
       | _, _ => sret false
       end.
End conflicts.

(** ** The dependency graph *)

Record DependencyGraph := mkDependencyGraph {
  dg_graph : DiGraph;
  tx_to_node : gmap nat nat;
  dependencies : gmap nat (gset nat);
}.
Definition graph_new : DependencyGraph := mkDependencyGraph (mkDiGraph [] []) ∅ ∅.
Definition graph_add_transaction (index : nat) (g : DependencyGraph) : DependencyGraph :=
  let node := length (graph_nodes (dg_graph g)) in
  mkDependencyGraph (mkDiGraph (graph_nodes (dg_graph g) ++ [index]) (graph_edges (dg_graph g)))
    (<[index := node]> (tx_to_node g)) (<[index := ∅]> (dependencies g)).
Definition add_dependency (from to : nat) (g : DependencyGraph) : PM DependencyGraph :=
  match tx_to_node g !! from, tx_to_node g !! to with
  | Some from_node, Some to_node =>
      let? deps := unwrap (dependencies g !! to) in
      Ok (mkDependencyGraph
            (mkDiGraph (graph_nodes (dg_graph g)) (graph_edges (dg_graph g) ++ [(from_node, to_node)]))
            (tx_to_node g) (<[to := {[from]} ∪ deps]> (dependencies g)))
  | _, _ => Ok g
  end.
Definition get_dependencies (index : nat) (g : DependencyGraph) : list nat :=
  elements (default ∅ (dependencies g !! index)).
Definition get_dependents (index : nat) (g : DependencyGraph) : list nat :=
  fst <$> filter (fun kv : nat * gset nat => index ∈ kv.2) (map_to_list (dependencies g)).

Section graphs.
Context `{GraphOps}.
Definition graph_toposort (g : DependencyGraph) : option (list nat) :=
  toposort (length (graph_nodes (dg_graph g))) (graph_edges (dg_graph g)).
Definition cycle_error : ParallelExecutionError := SchedulingError "Cycle detected in dependency graph".
(** [graph[n]] *)
Definition node_weight (g : DependencyGraph) (n : nat) : PM nat :=
  unwrap (graph_nodes (dg_graph g) !! n).
Fixpoint node_weights (g : DependencyGraph) (l : list nat) : PM (list nat) :=
  match l with
  | [] => Ok []
  | n :: rest => let? x := node_weight g n in let? xs := node_weights g rest in Ok (x :: xs)
  end.
Definition topological_order (g : DependencyGraph) : PM (list nat) :=
  match graph_toposort g with
  | Some nodes => node_weights g nodes
  | None => Err cycle_error
  end.
Definition has_path (from to : nat) (g : DependencyGraph) : bool :=
  match tx_to_node g !! from, tx_to_node g !! to with
  | Some a, Some b =>
      has_path_connecting (length (graph_nodes (dg_graph g))) (graph_edges (dg_graph g)) a b
  | _, _ => false
  end.
(** The inner loop of [find_parallel_groups], over the order again. *)
Fixpoint extend_group (g : DependencyGraph) (tx_idx : nat) (order : list nat) (group : list nat)
    (processed : gset nat) : list nat * gset nat :=
  match order with
  | [] => (group, processed)
  | other :: rest =>
      if bool_decide (other ∈ processed) then extend_group g tx_idx rest group processed
      else if negb (has_path tx_idx other g) && negb (has_path other tx_idx g) then
        extend_group g tx_idx rest (group ++ [other]) ({[other]} ∪ processed)
      else extend_group g tx_idx rest group processed
  end.
Fixpoint group_loop (g : DependencyGraph) (order l : list nat) (groups : list (list nat))
    (processed : gset nat) : list (list nat) :=
  match l with
  | [] => groups
  | tx_idx :: rest =>
      if bool_decide (tx_idx ∈ processed) then group_loop g order rest groups processed
      else
        let r := extend_group g tx_idx order [tx_idx] ({[tx_idx]} ∪ processed) in
        group_loop g order rest (groups ++ [r.1]) r.2
  end.
Definition find_parallel_groups (g : DependencyGraph) : PM (list (list nat)) :=
  match topological_order g with
  | Ok order => Ok (group_loop g order order [] ∅)
  | Err _ => Ok []
  | Panic => Panic
  | Diverge => Diverge
  end.
End graphs.

(** executor.rs: [build_dependency_graph] *)
Section build.
Context {T : Type} `{TxView T}.
Fixpoint add_dependencies (i : nat) (tx : T) (earlier : list T) (j : nat) (g : DependencyGraph) :
    SM ConflictDetector ParallelExecutionError DependencyGraph :=
  match earlier with
  | [] => sret g
  | t :: rest =>
      let! d := has_dependency t tx in
      let! g := (if d then slift (add_dependency j i g) else sret g) in
      add_dependencies i tx rest (S j) g
  end.
Fixpoint build_loop (done txs : list T) (g : DependencyGraph) :
    SM ConflictDetector ParallelExecutionError DependencyGraph :=
  match txs with
  | [] => sret g
  | tx :: rest =>
      let i := length done in
      let! g := add_dependencies i tx done 0 (graph_add_transaction i g) in
      build_loop (done ++ [tx]) rest g
  end.
Definition build_dependency_graph (txs : list T) : SM ConflictDetector ParallelExecutionError DependencyGraph :=
  build_loop [] txs graph_new.
End build.

(** ** Schedules *)

Record Schedule := mkSchedule { batches : list (list nat); current_batch : list nat }.
Definition schedule_new : Schedule := mkSchedule [] [].
Definition add_batch (batch : list nat) (s : Schedule) : Schedule :=
  match batch with
  | [] => s
  | _ => mkSchedule (batches s ++ [batch]) (current_batch s)
  end.
Definition add_to_current_batch (i : nat) (s : Schedule) : Schedule :=
  mkSchedule (batches s) (current_batch s ++ [i]).
Definition finalize_current_batch (s : Schedule) : Schedule :=
  match current_batch s with
  | [] => s
  | b => mkSchedule (batches s ++ [b]) []
  end.
Definition num_batches (s : Schedule) : Z := len (batches s).
Definition total_transactions (s : Schedule) : nat := sum_list (length <$> batches s).

Inductive SchedulingStrategy :=
  | OptimisticConcurrency | PessimisticLocking | TimestampOrdering | MVCC | Deterministic.
Record TransactionScheduler := mkScheduler { strategy : SchedulingStrategy; max_parallel : nat }.

Section schedulers.
Context {T : Type} `{TxView T} `{GraphOps} `{U256Ops}.

(** *** Optimistic *)
Fixpoint optimistic_loop (max : nat) (g : DependencyGraph) (sorted : list nat) (s : Schedule)
    (current : list nat) (processed : gset nat) : PM (Schedule * list nat) :=
  match sorted with
  | [] => Ok (s, current)
  | node :: rest =>
      let? tx_index := node_weight g node in
      let deps_satisfied := forallb (fun dep => bool_decide (dep ∈ processed)) (get_dependencies tx_index g) in
      if deps_satisfied && (length current <? max)%nat then
        optimistic_loop max g rest s (current ++ [tx_index]) processed
      else
        optimistic_loop max g rest (add_batch current s) [tx_index] (list_to_set current ∪ processed)
  end.
Definition schedule_optimistic (max : nat) (g : DependencyGraph) : PM Schedule :=
  match graph_toposort g with
  | None => Err cycle_error
  | Some sorted =>
      let? r := optimistic_loop max g sorted schedule_new [] ∅ in
      Ok (add_batch r.2 r.1)
  end.

(** *** Pessimistic *)
Definition may_conflict (tx1 tx2 : T) : bool :=
  if bool_decide (view_from tx1 = view_from tx2) then true
  else match view_to tx1, view_to tx2 with
       | Some to1, Some to2 => bool_decide (to1 = to2)
       | _, _ => false
       end.
(** The indices from [j] on that may conflict with [tx]. *)
Fixpoint conflicting_after (tx : T) (j : nat) (later : list T) : list nat :=
  match later with
  | [] => []
  | t :: rest => (if may_conflict tx t then [j] else []) ++ conflicting_after tx (S j) rest
  end.
Fixpoint analyze_loop (i : nat) (txs : list T) (groups : list (list nat)) (processed : gset nat) :
    list (list nat) :=
  match txs with
  | [] => groups
  | tx :: rest =>
      if bool_decide (i ∈ processed) then analyze_loop (S i) rest groups processed
      else
        let js := conflicting_after tx (S i) rest in
        analyze_loop (S i) rest (groups ++ [i :: js]) (list_to_set (i :: js) ∪ processed)
  end.
Definition analyze_conflicts (txs : list T) : list (list nat) := analyze_loop 0 txs [] ∅.
Definition schedule_group (s : Schedule) (group : list nat) : Schedule :=
  match group with
  | [i] => add_to_current_batch i s
  | _ => fold_left (fun s i => add_batch [i] s) group (finalize_current_batch s)
  end.
Definition schedule_pessimistic (txs : list T) : Schedule :=
  finalize_current_batch (fold_left schedule_group (analyze_conflicts txs) schedule_new).

(** *** Timestamp *)
Fixpoint timestamps (i : nat) (txs : list T) : PM (list (nat * Z)) :=
  match txs with
  | [] => Ok []
  | tx :: rest =>
      let? ts := unwrap (u_as_u64 (view_nonce tx)) in
      let? l := timestamps (S i) rest in
      Ok ((i, ts) :: l)
  end.
Fixpoint timestamp_loop (max : nat) (l : list (nat * Z)) (s : Schedule) (current : list nat)
    (last_timestamp : Z) : Schedule * list nat :=
  match l with
  | [] => (s, current)
  | (tx_index, timestamp) :: rest =>
      if (last_timestamp <? timestamp) || (max <=? length current)%nat then
        timestamp_loop max rest (add_batch current s) [tx_index] timestamp
      else timestamp_loop max rest s (current ++ [tx_index]) timestamp
  end.
Definition schedule_timestamp (max : nat) (txs : list T) : PM Schedule :=
  let? l := timestamps 0 txs in
  let r := timestamp_loop max (sort_by_key snd l) schedule_new [] 0 in
  Ok (add_batch r.2 r.1).

(** *** Multi-version *)
Definition extract_addresses (tx : T) : list (list Z) :=
  view_from tx :: match view_to tx with Some to => [to] | None => [] end.
Definition note_address (i : nat) (m : gmap (list Z) (list nat)) (addr : list Z) : gmap (list Z) (list nat) :=
  <[addr := default [] (m !! addr) ++ [i]]> m.
Fixpoint version_loop (i : nat) (txs : list T) (m : gmap (list Z) (list nat)) : gmap (list Z) (list nat) :=
  match txs with
  | [] => m
  | tx :: rest => version_loop (S i) rest (fold_left (note_address i) (extract_addresses tx) m)
  end.
Definition has_version_conflict (tx1 tx2 : nat) (m : gmap (list Z) (list nat)) : bool :=
  existsb (fun kv : list Z * list nat => bool_decide (tx1 ∈ kv.2) && bool_decide (tx2 ∈ kv.2)) (map_to_list m).
Fixpoint mvcc_loop (max : nat) (m : gmap (list Z) (list nat)) (l : list nat) (s : Schedule)
    (current : list nat) (scheduled : gset nat) : Schedule * list nat :=
  match l with
  | [] => (s, current)
  | i :: rest =>
      if bool_decide (i ∈ scheduled) then mvcc_loop max m rest s current scheduled
      else
        let compatible := forallb (fun j => negb (has_version_conflict i j m)) current in
        if compatible && (length current <? max)%nat then
          mvcc_loop max m rest s (current ++ [i]) ({[i]} ∪ scheduled)
        else mvcc_loop max m rest (add_batch current s) [i] ({[i]} ∪ scheduled)
  end.
Definition schedule_mvcc (max : nat) (txs : list T) : Schedule :=
  let r := mvcc_loop max (version_loop 0 txs ∅) (seq 0 (length txs)) schedule_new [] ∅ in
  add_batch r.2 r.1.

(** *** Deterministic *)
(** [slice.chunks(n)]; the fuel is the length, each chunk takes one at least. *)
Fixpoint chunks_loop (fuel n : nat) (l : list nat) : list (list nat) :=
  match fuel, l with
  | _, [] => []
  | O, _ => []
  | S fuel, _ => take n l :: chunks_loop fuel n (drop n l)
  end.
Definition chunks (n : nat) (l : list nat) : PM (list (list nat)) :=
  match n with O => Panic | _ => Ok (chunks_loop (length l) n l) end.
(** [H256]s compare as their bytes, 32 each: as big-endian numbers. *)
Definition hash_key (txs : list T) (i : nat) : Z :=
  match txs !! i with Some tx => from_be (view_hash tx) | None => 0 end.
Definition schedule_deterministic (max : nat) (txs : list T) : PM Schedule :=
  let tx_indices := sort_by_key (hash_key txs) (seq 0 (length txs)) in
  let? cs := chunks max tx_indices in
  Ok (fold_left (fun s c => add_batch c s) cs schedule_new).

Definition schedule (sch : TransactionScheduler) (g : DependencyGraph) (txs : list T) : PM Schedule :=
  match strategy sch with
  | OptimisticConcurrency => schedule_optimistic (max_parallel sch) g
  | PessimisticLocking => Ok (schedule_pessimistic txs)
  | TimestampOrdering => schedule_timestamp (max_parallel sch) txs
  | MVCC => Ok (schedule_mvcc (max_parallel sch) txs)
  | Deterministic => schedule_deterministic (max_parallel sch) txs
  end.
End schedulers.
