(* ===== verification/SchedulerProofs.v ===== *)
(** What the schedules promise: the dependency graph records the conflicts of
    the transactions in block order, the optimistic schedule runs every
    transaction once, after all it depends on, and the multi-version schedule
    never puts transactions with a common address into one batch. *)
From stdpp Require Import base list numbers option strings gmap sorting.
From Stdlib Require Import ZArith Lia.
From S2P Require Import Prelude U256 Scheduler.

(** * Assumptions *)

(** Equal hashes stand for equal senders and recipients. *)
Class TxViewLaws (T : Type) `{TxView T} : Prop := {
  view_hash_binds (t t' : T) : view_hash t = view_hash t' -> view_from t = view_from t' /\ view_to t = view_to t';
}.

(** [a] comes before [b] in the list. *)
Definition before (l : list nat) (a b : nat) : Prop := exists l1 l2, l = l1 ++ b :: l2 /\ a ∈ l1.
(** The documented behaviour of [toposort]: an acyclic graph (here: one whose
    edges raise some rank) is put in an order with each node before its
    successors. *)
Class GraphLaws `{GraphOps} : Prop := {
  toposort_acyclic n es (rank : nat -> nat) :
    (forall a b, (a, b) ∈ es -> (a < n /\ b < n)%nat /\ (rank a < rank b)%nat) ->
    exists order, toposort n es = Some order /\ order ≡ₚ seq 0 n /\
      forall a b, (a, b) ∈ es -> before order a b;
}.

(** * The dependency graph *)

Section graphs.
Context {T : Type} `{TxViewLaws T}.

(** Cached answers are the ones [analyze_conflict] gives. *)
Definition cache_ok (c : ConflictDetector) : Prop :=
  forall (t1 t2 : T) r, conflict_cache c !! (view_hash t1, view_hash t2) = Some r -> r = analyze_conflict t1 t2.
Lemma detector_new_ok : cache_ok detector_new.
Proof using Type. intros t1 t2 r Hr. cbn [detector_new conflict_cache] in Hr. by rewrite lookup_empty in Hr. Qed.

Lemma analyze_hash (t1 t2 u1 u2 : T) : view_hash t1 = view_hash u1 -> view_hash t2 = view_hash u2 ->
  analyze_conflict t1 t2 = analyze_conflict u1 u2.
Proof.
  intros Hh1 Hh2. apply view_hash_binds in Hh1 as [Hf1 Ht1]. apply view_hash_binds in Hh2 as [Hf2 Ht2].
  unfold analyze_conflict. by rewrite Hf1, Ht1, Hf2, Ht2.
Qed.
Lemma check_conflict_ok (t1 t2 : T) c : cache_ok c ->
  exists c', check_conflict t1 t2 c = (Ok (analyze_conflict t1 t2), c') /\ cache_ok c'.
Proof.
  intros Hc. unfold check_conflict, sbind, sget. simpl.
  destruct (conflict_cache c !! (view_hash t1, view_hash t2)) as [r|] eqn:Hl.
  - exists c. by rewrite (Hc t1 t2 r Hl).
  - eexists. split; [done|]. intros u1 u2 r. simpl.
    destruct (decide ((view_hash t1, view_hash t2) = (view_hash u1, view_hash u2))) as [Heq|Hne].
    + rewrite Heq, lookup_insert_eq. intros [= <-]. injection Heq as Hh1 Hh2. by apply analyze_hash.
    + rewrite lookup_insert_ne by done. apply Hc.
Qed.
Lemma has_dependency_ok (t1 t2 : T) c : cache_ok c ->
  exists c', has_dependency t1 t2 c = (Ok (may_conflict t1 t2), c') /\ cache_ok c'.
Proof.
  intros Hc. unfold has_dependency, may_conflict.
  destruct (bool_decide (view_from t1 = view_from t2)) eqn:Hfrom; [by exists c|].
  destruct (view_to t1) as [a|] eqn:Ht1; [|by exists c]. destruct (view_to t2) as [b|] eqn:Ht2; [|by exists c].
  destruct (bool_decide (a = b)) eqn:Hto; [|by exists c].
  destruct (check_conflict_ok t1 t2 c Hc) as (c' & -> & Hc'). exists c'. split; [|done].
  unfold analyze_conflict. by rewrite Hfrom, Ht1, Ht2, Hto.
Qed.

(** A graph over the transactions 0 to n-1 in which [x] depends on [a] when
    [dep x a]. *)
Record graph_is (g : DependencyGraph) (n : nat) (dep : nat -> nat -> Prop) : Prop := {
  is_nodes : graph_nodes (dg_graph g) = seq 0 n;
  is_index i : (i < n)%nat -> tx_to_node g !! i = Some i;
  is_deps i : (i < n)%nat -> exists D, dependencies g !! i = Some D /\ forall a, a ∈ D <-> dep i a;
  is_edges a b : (a, b) ∈ graph_edges (dg_graph g) <-> (b < n)%nat /\ dep b a;
}.
Lemma graph_is_ext g n dep dep' : (forall b a, (b < n)%nat -> dep b a <-> dep' b a) ->
  graph_is g n dep -> graph_is g n dep'.
Proof using Type.
  intros Hext [Hn Hi Hd He]. split; [done|done| |].
  - intros i Hlt. destruct (Hd i Hlt) as (D & HD & Hin). exists D. split; [done|].
    intros a. rewrite Hin. by apply Hext.
  - intros a b. rewrite He. split; intros [Hlt Hdep]; (split; [done|]); by apply Hext.
Qed.
Lemma graph_new_is dep : graph_is graph_new 0 dep.
Proof using Type. split; [done|lia|lia|]. intros a b. simpl. split; [intros Hin; by apply elem_of_nil in Hin|lia]. Qed.
Lemma add_transaction_is g n dep : (forall a, ~ dep n a) -> graph_is g n dep ->
  graph_is (graph_add_transaction n g) (S n) dep.
Proof using Type.
  intros Hno [Hn Hi Hd He]. split; simpl.
  - rewrite Hn. by rewrite <- seq_S.
  - intros i Hlt. destruct (decide (n = i)) as [<-|Hne].
    + rewrite lookup_insert_eq, Hn, length_seq. done.
    + rewrite lookup_insert_ne by done. apply Hi. lia.
  - intros i Hlt. destruct (decide (n = i)) as [<-|Hne].
    + exists ∅. rewrite lookup_insert_eq. split; [done|]. intros a.
      split; [intros Ha; by apply elem_of_empty in Ha|intros Ha; by destruct (Hno a)].
    + rewrite lookup_insert_ne by done. apply Hd. lia.
  - intros a b. rewrite He. split; intros [Hlt Hdep]; (split; [|done]); [lia|].
    destruct (decide (b = n)) as [->|]; [by destruct (Hno a)|lia].
Qed.
Lemma add_dependency_is g n dep i j : (i < n)%nat -> (j < n)%nat -> graph_is g n dep ->
  exists g', add_dependency j i g = Ok g' /\ graph_is g' n (fun b a => dep b a \/ (b = i /\ a = j)).
Proof using Type.
  intros Hin Hjn [Hn Hi Hd He]. unfold add_dependency. rewrite !Hi by done.
  destruct (Hd i Hin) as (D & HD & HinD). rewrite HD. simpl. eexists. split; [done|]. split; simpl.
  - done.
  - done.
  - intros k Hk. destruct (decide (i = k)) as [<-|Hne].
    + exists ({[j]} ∪ D). rewrite lookup_insert_eq. split; [done|]. intros a.
      rewrite elem_of_union, elem_of_singleton, HinD. naive_solver.
    + rewrite lookup_insert_ne by done. destruct (Hd k Hk) as (D' & HD' & HinD'). exists D'.
      split; [done|]. intros a. rewrite HinD'. naive_solver.
  - intros a b. rewrite elem_of_app, list_elem_of_singleton, He. naive_solver.
Qed.

(** [txs[j]] and [txs[i]] conflict, [j] first. *)
Definition conflict_at (txs : list T) (i j : nat) : Prop :=
  (j < i)%nat /\ exists tj ti, txs !! j = Some tj /\ txs !! i = Some ti /\ may_conflict tj ti = true.

Lemma add_dependencies_ok i tx earlier j g dep c : graph_is g (S i) dep -> cache_ok c ->
  (j + length earlier = i)%nat ->
  exists g' c', add_dependencies i tx earlier j g c = (Ok g', c') /\ cache_ok c' /\
    graph_is g' (S i) (fun b a => dep b a \/
      (b = i /\ exists t, earlier !! (a - j)%nat = Some t /\ (j <= a)%nat /\ may_conflict t tx = true)).
Proof.
  revert j g dep c. induction earlier as [|t earlier IH]; intros j g dep c Hg Hc Hlen; simpl.
  { exists g, c. split_and!; [done|done|]. eapply graph_is_ext; [|exact Hg]. naive_solver. }
  unfold sbind. destruct (has_dependency_ok t tx c Hc) as (c1 & -> & Hc1). simpl in Hlen.
  assert (Hstep : exists g1, (if may_conflict t tx then slift (add_dependency j i g) else sret g) c1 = (Ok g1, c1) /\
    graph_is g1 (S i) (fun b a => dep b a \/ (b = i /\ a = j /\ may_conflict t tx = true))).
  { destruct (may_conflict t tx).
    - destruct (add_dependency_is g (S i) dep i j) as (g1 & Hadd & Hg1); [lia|lia|done|].
      exists g1. unfold slift. rewrite Hadd. split; [done|]. eapply graph_is_ext; [|exact Hg1]. naive_solver.
    - exists g. split; [done|]. eapply graph_is_ext; [|exact Hg]. naive_solver. }
  destruct Hstep as (g1 & Hs & Hg1). rewrite Hs.
  destruct (IH (S j) g1 _ c1 Hg1 Hc1) as (g' & c' & Hrun & Hc' & Hg'); [lia|].
  exists g', c'. split_and!; [done|done|]. eapply graph_is_ext; [|exact Hg'].
  intros b a _. split.
  - intros [[?|(-> & -> & Hm)]|(-> & t' & Hl & Hle & Hm)]; [by left| |].
    + right. split; [done|]. exists t. rewrite Nat.sub_diag. split_and!; [done|lia|done].
    + right. split; [done|]. exists t'. split_and!; [|lia|done].
      destruct (a - j)%nat as [|k] eqn:Hk; [lia|]. simpl. by replace k with (a - S j)%nat by lia.
  - intros [?|(-> & t' & Hl & Hle & Hm)]; [by left; left|].
    destruct (a - j)%nat as [|k] eqn:Hk; simpl in Hl.
    + left. right. injection Hl as <-. split_and!; [done|lia|done].
    + right. split; [done|]. exists t'. split_and!; [|lia|done]. by replace (a - S j)%nat with k by lia.
Qed.

Lemma build_loop_ok txs done_ g c : graph_is g (length done_) (conflict_at done_) -> cache_ok c ->
  exists g' c', build_loop done_ txs g c = (Ok g', c') /\ cache_ok c' /\
    graph_is g' (length (done_ ++ txs)) (conflict_at (done_ ++ txs)).
Proof.
  revert done_ g c. induction txs as [|tx txs IH]; intros done_ g c Hg Hc; simpl.
  { exists g, c. by rewrite app_nil_r. }
  unfold sbind. set (n := length done_) in *.
  assert (Hg0 : graph_is (graph_add_transaction n g) (S n) (conflict_at done_)).
  { apply add_transaction_is; [|done]. intros a (_ & tj & ti & _ & Hi & _).
    apply lookup_lt_Some in Hi. unfold n in Hi. lia. }
  destruct (add_dependencies_ok n tx done_ 0 _ _ c Hg0 Hc) as (g1 & c1 & -> & Hc1 & Hg1); [done|].
  destruct (IH (done_ ++ [tx]) g1 c1) as (g' & c' & Hrun & Hc' & Hg').
  - rewrite length_app. simpl. fold n. rewrite Nat.add_1_r. eapply graph_is_ext; [|exact Hg1].
    intros b a Hb. unfold conflict_at. split.
    + intros [(Hlt & tj & ti & Hj & Hi & Hm)|(-> & t & Hl & _ & Hm)].
      * split; [done|]. exists tj, ti. split_and!; [by apply lookup_app_l_Some..|done].
      * rewrite Nat.sub_0_r in Hl. pose proof (lookup_lt_Some _ _ _ Hl).
        split; [done|]. exists t, tx. split_and!; [by apply lookup_app_l_Some| |done].
        by apply list_lookup_middle.
    + intros (Hlt & tj & ti & Hj & Hi & Hm). destruct (decide (b = n)) as [->|Hne].
      * right. split; [done|]. rewrite list_lookup_middle in Hi by done. injection Hi as <-.
        rewrite Nat.sub_0_r. exists tj. rewrite lookup_app_l in Hj by done. split_and!; [done|lia|done].
      * left. split; [done|]. exists tj, ti. fold n in Hb. rewrite lookup_app_l in Hj by (fold n; lia).
        rewrite lookup_app_l in Hi by (fold n; lia). done.
  - done.
  - exists g', c'. split_and!; [done|done|]. by rewrite <- app_assoc in Hg'.
Qed.

Lemma build_graph_ok txs c : cache_ok c ->
  exists g c', build_dependency_graph txs c = (Ok g, c') /\ cache_ok c' /\
    graph_is g (length txs) (conflict_at txs).
Proof.
  intros Hc. apply (build_loop_ok txs [] graph_new c); [|done]. apply graph_new_is.
Qed.
End graphs.

(** * Batches *)

(** Everything a transaction of a batch depends on is in an earlier batch. *)
Definition respects (dep : nat -> nat -> Prop) (bs : list (list nat)) : Prop :=
  forall k b, bs !! k = Some b -> forall x a, x ∈ b -> dep x a -> a ∈ concat (take k bs).
Definition batch_sizes (max : nat) (bs : list (list nat)) : Prop :=
  Forall (fun b => (1 <= length b <= Nat.max 1 max)%nat) bs.

Lemma batches_add b s : concat (batches (add_batch b s)) = concat (batches s) ++ b.
Proof. destruct b; simpl; [by rewrite app_nil_r|]. rewrite concat_app. simpl. by rewrite app_nil_r. Qed.
Lemma respects_snoc dep bs b : respects dep bs ->
  (forall x a, x ∈ b -> dep x a -> a ∈ concat bs) -> respects dep (bs ++ [b]).
Proof.
  intros Hr Hb k b' Hk x a Hx Hd. destruct (decide (k < length bs)%nat).
  - rewrite lookup_app_l in Hk by done. rewrite take_app_le by lia. by apply (Hr k b' Hk x).
  - apply lookup_snoc_Some in Hk as [[? _]|[-> <-]]; [lia|]. rewrite take_app_length. by apply (Hb x).
Qed.
Lemma add_batch_respects dep b s : respects dep (batches s) ->
  (forall x a, x ∈ b -> dep x a -> a ∈ concat (batches s)) -> respects dep (batches (add_batch b s)).
Proof. destruct b as [|i b]; [done|]. apply respects_snoc. Qed.
Lemma add_batch_sizes max b s : batch_sizes max (batches s) -> (length b <= Nat.max 1 max)%nat ->
  batch_sizes max (batches (add_batch b s)).
Proof.
  intros Hs Hl. destruct b as [|i b]; [done|]. apply Forall_app. split; [done|].
  constructor; [simpl in *; lia|constructor].
Qed.

Lemma before_prefix (l1 l2 : list nat) a b : NoDup (l1 ++ b :: l2) -> before (l1 ++ b :: l2) a b -> a ∈ l1.
Proof.
  intros Hnd (k1 & k2 & Heq & Ha).
  assert (Hk : forall l k : list nat, l ++ b :: l2 = k ++ b :: k2 -> NoDup (l ++ b :: l2) -> l = k).
  { induction l as [|x l IH]; intros [|y k] Hlk Hn; simplify_eq/=; [done| | |].
    - exfalso. apply NoDup_cons in Hn as [Hx _]. apply Hx. apply elem_of_app. right. by left.
    - exfalso. apply NoDup_cons in Hn as [Hx _]. apply Hx. apply elem_of_app. right. by left.
    - f_equal. apply IH; [done|]. by apply NoDup_cons in Hn as [_ ?]. }
  by rewrite (Hk l1 k1).
Qed.

Section schedules.
Context {T : Type} `{TxViewLaws T} `{GraphLaws} `{U256Laws}.

(** ** Optimistic *)

Lemma deps_satisfied_spec g n dep i (processed : gset nat) : graph_is g n dep -> (i < n)%nat ->
  forallb (fun d => bool_decide (d ∈ processed)) (get_dependencies i g) = true <->
  forall a, dep i a -> a ∈ processed.
Proof using Type.
  intros Hg Hi. destruct (is_deps _ _ _ Hg i Hi) as (D & HD & Hin). unfold get_dependencies.
  rewrite HD. simpl. rewrite forallb_forall. setoid_rewrite bool_decide_eq_true.
  split; intros Hall a Ha; apply Hall.
  - apply list_elem_of_In, elem_of_elements. by apply Hin.
  - apply Hin, elem_of_elements. by apply list_elem_of_In.
Qed.

Lemma optimistic_loop_ok max g n dep order : graph_is g n dep -> NoDup order ->
  (forall i, i ∈ order -> (i < n)%nat) -> (forall b a, (b < n)%nat -> dep b a -> before order a b) ->
  forall rest s current processed, order = (concat (batches s) ++ current) ++ rest ->
  (forall a, a ∈ processed <-> a ∈ concat (batches s)) ->
  respects dep (batches s) -> batch_sizes max (batches s) -> (length current <= Nat.max 1 max)%nat ->
  (forall x a, x ∈ current -> dep x a -> a ∈ concat (batches s)) ->
  exists s' current', optimistic_loop max g rest s current processed = Ok (s', current') /\
    concat (batches s') ++ current' = order /\ respects dep (batches s') /\
    batch_sizes max (batches s') /\ (length current' <= Nat.max 1 max)%nat /\
    (forall x a, x ∈ current' -> dep x a -> a ∈ concat (batches s')).
Proof using Type.
  intros Hg Hnd Hlt Hbef. induction rest as [|i rest IH]; intros s current processed Horder Hp Hr Hs Hl Hc.
  { exists s, current. rewrite app_nil_r in Horder. by split_and!. }
  assert (Hi : (i < n)%nat) by (apply Hlt; rewrite Horder, elem_of_app; right; by left).
  assert (Hdone : forall a, dep i a -> a ∈ concat (batches s) ++ current).
  { intros a Ha. apply (before_prefix _ rest _ i); [by rewrite <- Horder|]. rewrite <- Horder. by apply Hbef. }
  simpl. unfold node_weight. rewrite (is_nodes _ _ _ Hg), (lookup_seq_lt 0 n i Hi). simpl.
  destruct (forallb _ _ && _) eqn:Hsat.
  - apply andb_true_iff in Hsat as [Hsat Hmax]. apply Nat.ltb_lt in Hmax.
    rewrite (deps_satisfied_spec g n dep) in Hsat by done.
    apply IH; [by rewrite Horder, <- !app_assoc|done|done|done| |].
    + rewrite length_app. simpl. lia.
    + intros x a Hx Hd. apply elem_of_app in Hx as [Hx|Hx]; [by apply (Hc x)|].
      apply list_elem_of_singleton in Hx as ->. by apply Hp, Hsat.
  - apply IH.
    + by rewrite batches_add, Horder, <- !app_assoc.
    + intros a. rewrite batches_add, elem_of_union, elem_of_list_to_set, elem_of_app, Hp. tauto.
    + by apply add_batch_respects.
    + by apply add_batch_sizes.
    + simpl. lia.
    + intros x a Hx Hd. apply list_elem_of_singleton in Hx as ->. rewrite batches_add. by apply Hdone.
Qed.

Lemma schedule_optimistic_ok max g n dep : graph_is g n dep ->
  (forall b a, (b < n)%nat -> dep b a -> (a < b)%nat) ->
  exists s, schedule_optimistic max g = Ok s /\ concat (batches s) ≡ₚ seq 0 n /\
    respects dep (batches s) /\ batch_sizes max (batches s).
Proof.
  intros Hg Hlt. unfold schedule_optimistic, graph_toposort. rewrite (is_nodes _ _ _ Hg), length_seq.
  destruct (toposort_acyclic n (graph_edges (dg_graph g)) (fun x => x)) as (order & Ht & Hperm & Hbef).
  { intros a b Hab. apply (is_edges _ _ _ Hg) in Hab as [Hb Hd]. pose proof (Hlt b a Hb Hd). lia. }
  rewrite Ht.
  destruct (optimistic_loop_ok max g n dep order Hg) with
    (rest := order) (s := schedule_new) (current := @nil nat) (processed := (∅ : gset nat))
    as (s & current & Hrun & Horder & Hr & Hs & Hl & Hc).
  - rewrite Hperm. apply NoDup_seq.
  - intros i Hi. rewrite Hperm in Hi. apply elem_of_seq in Hi. lia.
  - intros b a Hb Hd. apply Hbef. by apply (is_edges _ _ _ Hg).
  - done.
  - intros a. simpl. split; [intros Ha; by apply elem_of_empty in Ha|intros Ha; by apply elem_of_nil in Ha].
  - intros k b Hk. done.
  - constructor.
  - simpl. lia.
  - intros x a Hx. by apply elem_of_nil in Hx.
  - rewrite Hrun. simpl. exists (add_batch current s). split_and!; [done| | |].
    + by rewrite batches_add, Horder.
    + by apply add_batch_respects.
    + by apply add_batch_sizes.
Qed.

(** C11: The optimistic schedule keeps the order of dependent transactions.  The
    dependency graph built from the transactions of a block and the schedule
    computed from it exist (no cycle is reported), every transaction is in
    exactly one batch, no batch is empty or larger than [max_parallel] (or one),
    and whenever two transactions have the same sender or recipient, the one
    that comes first in the block is in an earlier batch. *)
Theorem optimistic_schedule_serializes max (txs : list T) c : cache_ok c ->
  exists g c' s, build_dependency_graph txs c = (Ok g, c') /\ cache_ok c' /\
    schedule (mkScheduler OptimisticConcurrency max) g txs = Ok s /\
    concat (batches s) ≡ₚ seq 0 (length txs) /\ batch_sizes max (batches s) /\
    forall i j ti tj k b, (i < j)%nat -> txs !! i = Some ti -> txs !! j = Some tj ->
      view_from ti = view_from tj \/ (is_Some (view_to ti) /\ view_to ti = view_to tj) ->
      batches s !! k = Some b -> j ∈ b -> i ∈ concat (take k (batches s)).
Proof.
  intros Hc. destruct (build_graph_ok txs c Hc) as (g & c' & Hb & Hc' & Hg).
  destruct (schedule_optimistic_ok max g _ _ Hg) as (s & Hs & Hperm & Hr & Hsz).
  { by intros b a _ [? _]. }
  exists g, c', s. split_and!; [done..|].
  intros i j ti tj k b Hij Hti Htj Hconf Hk Hj. apply (Hr k b Hk j i Hj). split; [done|].
  exists ti, tj. split_and!; [done..|]. unfold may_conflict. case_bool_decide; [done|].
  destruct Hconf as [?|[[a Ha] Heq]]; [done|]. rewrite <- Heq, Ha. by apply bool_decide_eq_true.
Qed.

(** ** Multi-version *)

Lemma note_address_spec i l m addr k :
  k ∈ default [] (fold_left (note_address i) l m !! addr) <->
  k ∈ default [] (m !! addr) \/ (k = i /\ addr ∈ l).
Proof using Type.
  revert m. induction l as [|a l IH]; intros m; simpl.
  { split; [by left|]. intros [?|[_ Hn]]; [done|by apply elem_of_nil in Hn]. }
  rewrite IH, elem_of_cons. unfold note_address. destruct (decide (a = addr)) as [->|Hne].
  - rewrite lookup_insert_eq. simpl. rewrite elem_of_app, list_elem_of_singleton. naive_solver.
  - rewrite lookup_insert_ne by done. naive_solver.
Qed.
Lemma version_loop_spec (txs : list T) i m addr k :
  k ∈ default [] (version_loop i txs m !! addr) <->
  k ∈ default [] (m !! addr) \/ exists t, (i <= k)%nat /\ txs !! (k - i)%nat = Some t /\ addr ∈ extract_addresses t.
Proof using Type.
  revert i m. induction txs as [|tx txs IH]; intros i m; cbn [version_loop].
  { split; [by left|]. by intros [?|(t & _ & Hl & _)]. }
  rewrite IH, note_address_spec. split.
  - intros [[?|[-> Ha]]|(t & Hle & Hl & Ha)]; [by left| |].
    + right. exists tx. rewrite Nat.sub_diag. by split_and!.
    + right. exists t. split_and!; [lia| |done]. destruct (k - i)%nat as [|d] eqn:Hd; [lia|].
      simpl. by replace d with (k - S i)%nat by lia.
  - intros [?|(t & Hle & Hl & Ha)]; [by left; left|].
    destruct (k - i)%nat as [|d] eqn:Hd; simpl in Hl.
    + injection Hl as ->. left. right. split; [lia|done].
    + right. exists t. split_and!; [lia| |done]. by replace (k - S i)%nat with d by lia.
Qed.

(** The transactions have an address in common, as sender or recipient. *)
Definition share_address (txs : list T) (i j : nat) : Prop :=
  exists ti tj addr, txs !! i = Some ti /\ txs !! j = Some tj /\
    addr ∈ extract_addresses ti /\ addr ∈ extract_addresses tj.
Lemma version_conflict_spec (txs : list T) i j :
  has_version_conflict i j (version_loop 0 txs ∅) = true <-> share_address txs i j.
Proof using Type.
  unfold has_version_conflict. rewrite existsb_exists. set (m := version_loop 0 txs ∅).
  assert (Hm : forall addr k, k ∈ default [] (m !! addr) <-> exists t, txs !! k = Some t /\ addr ∈ extract_addresses t).
  { intros addr k. unfold m. rewrite version_loop_spec, lookup_empty. simpl. rewrite Nat.sub_0_r. split.
    - intros [Hn|(t & _ & ? & ?)]; [by apply elem_of_nil in Hn|eauto].
    - intros (t & ? & ?). right. exists t. split_and!; [lia|done|done]. }
  split.
  - intros ([addr l] & Hin & Hb). apply list_elem_of_In, elem_of_map_to_list in Hin.
    apply andb_true_iff in Hb as [Hi Hj]. apply bool_decide_eq_true in Hi, Hj. simpl in *.
    pose proof (proj1 (Hm addr i)) as Mi. pose proof (proj1 (Hm addr j)) as Mj. rewrite Hin in Mi, Mj.
    destruct (Mi Hi) as (ti & ? & ?), (Mj Hj) as (tj & ? & ?). exists ti, tj, addr. done.
  - intros (ti & tj & addr & Hti & Htj & Hai & Haj).
    assert (Hi : i ∈ default [] (m !! addr)) by (apply Hm; eauto).
    assert (Hj : j ∈ default [] (m !! addr)) by (apply Hm; eauto).
    destruct (m !! addr) as [l|] eqn:Hl; simpl in Hi, Hj; [|by apply elem_of_nil in Hi].
    exists (addr, l). split; [by apply list_elem_of_In, elem_of_map_to_list|]. simpl.
    by rewrite !bool_decide_eq_true_2.
Qed.

Definition independent (txs : list T) (b : list nat) : Prop :=
  forall i j, i ∈ b -> j ∈ b -> i <> j -> ~ share_address txs i j.
Lemma share_address_sym txs i j : share_address txs i j -> share_address txs j i.
Proof using Type. intros (ti & tj & a & ? & ? & ? & ?). by exists tj, ti, a. Qed.

Lemma mvcc_loop_ok max (txs : list T) k n s current scheduled :
  (forall x, x ∈ scheduled -> (x < k)%nat) -> concat (batches s) ++ current = seq 0 k ->
  batch_sizes max (batches s) -> (length current <= Nat.max 1 max)%nat ->
  Forall (independent txs) (batches s) -> independent txs current ->
  exists s' current', mvcc_loop max (version_loop 0 txs ∅) (seq k n) s current scheduled = (s', current') /\
    concat (batches s') ++ current' = seq 0 (k + n) /\ batch_sizes max (batches s') /\
    (length current' <= Nat.max 1 max)%nat /\ Forall (independent txs) (batches s') /\ independent txs current'.
Proof using Type.
  revert k s current scheduled. induction n as [|n IH]; intros k s current scheduled Hsch Hcat Hsz Hl Hind Hcur; simpl.
  { exists s, current. rewrite Nat.add_0_r. by split_and!. }
  rewrite bool_decide_eq_false_2 by (intros Hk; apply Hsch in Hk; lia).
  assert (Hsch' : forall x, x ∈ {[k]} ∪ scheduled -> (x < S k)%nat).
  { intros x Hx. apply elem_of_union in Hx as [Hx|Hx]; [apply elem_of_singleton in Hx as ->; lia|].
    apply Hsch in Hx. lia. }
  rewrite <- Nat.add_succ_comm. destruct (forallb _ _ && _) eqn:Hc; apply IH; try done.
  - rewrite app_assoc, Hcat. by rewrite seq_S.
  - apply andb_true_iff in Hc as [_ Hc]. apply Nat.ltb_lt in Hc. rewrite length_app. simpl. lia.
  - apply andb_true_iff in Hc as [Hc _]. rewrite forallb_forall in Hc.
    assert (Hk : forall j, j ∈ current -> ~ share_address txs k j).
    { intros j Hj Hs. apply list_elem_of_In in Hj. specialize (Hc j Hj).
      apply version_conflict_spec in Hs. by rewrite Hs in Hc. }
    intros i j Hi Hj Hne Hs.
    apply elem_of_app in Hi as [Hi|Hi]; apply elem_of_app in Hj as [Hj|Hj];
      rewrite ?list_elem_of_singleton in *; subst.
    + by apply (Hcur i j).
    + by apply (Hk i Hi), share_address_sym.
    + by apply (Hk j Hj).
    + done.
  - rewrite batches_add, Hcat. by rewrite seq_S.
  - by apply add_batch_sizes.
  - simpl. lia.
  - destruct current; [done|]. apply Forall_app. split; [done|by constructor].
  - intros i j Hi Hj. apply list_elem_of_singleton in Hi, Hj. by subst.
Qed.

Lemma schedule_mvcc_ok max (txs : list T) : let s := schedule_mvcc max txs in
  concat (batches s) = seq 0 (length txs) /\ batch_sizes max (batches s) /\
  Forall (independent txs) (batches s).
Proof using Type.
  destruct (mvcc_loop_ok max txs 0 (length txs) schedule_new [] ∅) as (s & cur & Hrun & Hcat & Hsz & Hl & Hind & Hc).
  - intros x Hx. by apply elem_of_empty in Hx.
  - done.
  - constructor.
  - simpl. lia.
  - constructor.
  - intros i j Hi. by apply elem_of_nil in Hi.
  - unfold schedule_mvcc. rewrite Hrun. simpl.
    split_and!; [by rewrite batches_add|by apply add_batch_sizes|].
    destruct cur; [done|]. apply Forall_app. split; [done|by constructor].
Qed.

(** The multi-version schedule is free of conflicts.  It contains every
    transaction exactly once and in block order, in batches of one to
    [max_parallel] transactions, and no two transactions of a batch have an
    address in common, as sender or recipient. *)
Theorem mvcc_schedule_conflict_free max g (txs : list T) :
  exists s, schedule (mkScheduler MVCC max) g txs = Ok s /\
    concat (batches s) = seq 0 (length txs) /\ batch_sizes max (batches s) /\
    Forall (independent txs) (batches s).
Proof using Type. eexists. split; [done|]. apply schedule_mvcc_ok. Qed.

(** ** Timestamp *)

Lemma timestamps_ok (txs : list T) i : Forall (fun t => uint 64 (view_nonce t)) txs ->
  exists l, timestamps i txs = Ok l /\ l.*1 = seq i (length txs).
Proof.
  revert i. induction txs as [|t txs IH]; intros i Hn; simpl; [by exists []|].
  apply Forall_cons in Hn as [Ht Hn]. unfold uint in Ht.
  rewrite as_u64_law by (unfold uint; lia). rewrite (proj2 (Z.ltb_lt _ _)) by lia. simpl.
  destruct (IH (S i) Hn) as (l & -> & Hl). exists ((i, view_nonce t) :: l).
  split; [done|]. by rewrite fmap_cons, Hl.
Qed.
Lemma timestamp_loop_ok max l s current last s' current' :
  timestamp_loop max l s current last = (s', current') ->
  batch_sizes max (batches s) -> (length current <= Nat.max 1 max)%nat ->
  concat (batches s') ++ current' = concat (batches s) ++ current ++ l.*1 /\
  batch_sizes max (batches s') /\ (length current' <= Nat.max 1 max)%nat.
Proof using Type.
  revert s current last. induction l as [|[i ts] l IH]; intros s current last Hrun Hsz Hl; simpl in *.
  { injection Hrun as <- <-. by rewrite app_nil_r. }
  destruct ((last <? ts) || (max <=? length current)%nat) eqn:Hc; apply IH in Hrun as (Hcat & ? & ?); try done.
  - split; [|done]. rewrite Hcat, batches_add, <- app_assoc. done.
  - by apply add_batch_sizes.
  - simpl. lia.
  - split; [|done]. by rewrite Hcat, <- app_assoc.
  - apply orb_false_iff in Hc as [_ Hc]. apply Nat.leb_gt in Hc. rewrite length_app. simpl. lia.
Qed.

(** ** Deterministic *)

Lemma chunks_loop_ok n fuel l : (0 < n)%nat -> (length l <= fuel)%nat ->
  concat (chunks_loop fuel n l) = l /\ Forall (fun c => (1 <= length c <= n)%nat) (chunks_loop fuel n l).
Proof using Type.
  intros Hn. revert l. induction fuel as [|fuel IH]; intros l Hl; destruct l as [|x l]; simpl in *; try lia.
  - by split.
  - by split.
  - destruct (IH (drop n (x :: l))) as [Hcat Hsz]; [rewrite length_drop; simpl; lia|].
    split; [rewrite Hcat; apply take_drop|]. constructor; [|done]. rewrite length_take. simpl. lia.
Qed.
Lemma add_batches_ok max cs s : Forall (fun c => (1 <= length c <= max)%nat) cs ->
  batch_sizes max (batches s) ->
  let s' := fold_left (fun s c => add_batch c s) cs s in
  concat (batches s') = concat (batches s) ++ concat cs /\ batch_sizes max (batches s').
Proof using Type.
  intros Hcs. revert s. induction Hcs as [|c cs Hc _ IH]; intros s Hs; simpl; [by rewrite app_nil_r|].
  destruct (IH (add_batch c s)) as [Hcat Hsz]; [apply add_batch_sizes; [done|lia]|].
  split; [|done]. by rewrite Hcat, batches_add, <- app_assoc.
Qed.

(** No transaction is lost or repeated.  Every strategy but the pessimistic
    one returns, for a graph built from the transactions, a schedule whose
    batches hold each transaction exactly once, with one to [max_parallel] of
    them per batch; timestamps need nonces of 64 bits, and the deterministic
    chunks a [max_parallel] above 0. *)
Theorem schedules_are_complete strat max (txs : list T) c g c' :
  strat <> PessimisticLocking -> (0 < max)%nat -> Forall (fun t => uint 64 (view_nonce t)) txs ->
  cache_ok c -> build_dependency_graph txs c = (Ok g, c') ->
  exists s, schedule (mkScheduler strat max) g txs = Ok s /\
    concat (batches s) ≡ₚ seq 0 (length txs) /\ batch_sizes max (batches s).
Proof.
  intros Hstrat Hmax Hn Hc Hb. destruct strat; [|done| | |].
  - destruct (build_graph_ok txs c Hc) as (g' & c'' & Hb' & _ & Hg). rewrite Hb in Hb'. injection Hb' as <- <-.
    destruct (schedule_optimistic_ok max g _ _ Hg) as (s & Hs & Hperm & _ & Hsz); [by intros b a _ [? _]|].
    by exists s.
  - destruct (timestamps_ok txs 0 Hn) as (l & Hl & Hfst). unfold schedule, schedule_timestamp. simpl.
    rewrite Hl. simpl. destruct (timestamp_loop max (sort_by_key snd l) schedule_new [] 0) as [s cur] eqn:Hrun.
    apply timestamp_loop_ok in Hrun as (Hcat & Hsz & Hl'); [|constructor|simpl; lia].
    exists (add_batch cur s). split_and!; [done| |by apply add_batch_sizes].
    rewrite batches_add, Hcat, <- Hfst. apply fmap_Permutation, sort_by_key_perm.
  - destruct (schedule_mvcc_ok max txs) as (Hcat & Hsz & _). exists (schedule_mvcc max txs).
    split_and!; [done|by rewrite Hcat|done].
  - unfold schedule, schedule_deterministic. simpl. set (l := sort_by_key _ _).
    destruct max as [|max]; [lia|]. simpl.
    destruct (chunks_loop_ok (S max) (length l) l) as [Hcat Hsz]; [lia|done|].
    destruct (add_batches_ok (S max) (chunks_loop (length l) (S max) l) schedule_new Hsz) as [Hc1 Hs1]; [constructor|].
    eexists. split_and!; [done| |done]. rewrite Hc1, Hcat. simpl. apply sort_by_key_perm.
Qed.
End schedules.

(** * A concrete graph library *)

(** The first node that is not yet listed and all of whose predecessors are. *)
Definition ready (n : nat) (es : list (nat * nat)) (emitted : list nat) (x : nat) : Prop :=
  x ∉ emitted /\ Forall (fun e => e.2 = x -> e.1 ∈ emitted) es.
#[export] Instance ready_dec n es emitted x : Decision (ready n es emitted x).
Proof. unfold ready. apply _. Defined.
Fixpoint topo_loop (fuel n : nat) (es : list (nat * nat)) (emitted : list nat) : option (list nat) :=
  match fuel with
  | O => Some emitted
  | S fuel =>
      match list_find (ready n es emitted) (seq 0 n) with
      | Some (_, x) => topo_loop fuel n es (emitted ++ [x])
      | None => None
      end
  end.
Fixpoint path_within (fuel : nat) (es : list (nat * nat)) (a b : nat) : bool :=
  (a =? b)%nat ||
  match fuel with
  | O => false
  | S fuel => existsb (fun e => (e.1 =? a)%nat && path_within fuel es e.2 b) es
  end.
#[export] Instance graph_model : GraphOps := {|
  toposort n es := topo_loop n n es [];
  has_path_connecting n es a b := path_within n es a b;
|}.

Lemma before_snoc l x a b : before l a b -> before (l ++ [x]) a b.
Proof. intros (l1 & l2 & -> & Ha). exists l1, (l2 ++ [x]). split; [by rewrite <- app_assoc|done]. Qed.

(** Some node is ready as long as some is missing. *)
Lemma some_ready n es (rank : nat -> nat) emitted :
  (forall a b, (a, b) ∈ es -> (a < n /\ b < n)%nat /\ (rank a < rank b)%nat) ->
  NoDup emitted -> (length emitted < n)%nat -> exists x, (x < n)%nat /\ ready n es emitted x.
Proof.
  intros Hes Hnd Hlen.
  assert (Hmiss : exists y, (y < n)%nat /\ y ∉ emitted).
  { destruct (decide (Exists (fun y => y ∉ emitted) (seq 0 n))) as [Hex|Hno].
    - apply Exists_exists in Hex as (y & Hy & Hout). apply elem_of_seq in Hy. exists y. split; [lia|done].
    - exfalso. apply not_Exists_Forall in Hno; [|apply _].
      assert (Hle : (length (seq 0 n) <= length emitted)%nat).
      { apply submseteq_length, NoDup_submseteq; [apply NoDup_seq|]. intros x Hx.
        rewrite Forall_forall in Hno. specialize (Hno x Hx). destruct (decide (x ∈ emitted)); [done|].
        by destruct Hno. }
      rewrite length_seq in Hle. lia. }
  destruct Hmiss as (y & Hy & Hout). remember (rank y) as r eqn:Hr. revert y Hr Hy Hout.
  induction r as [r IH] using lt_wf_ind. intros y -> Hy Hout.
  destruct (decide (Forall (fun e : nat * nat => e.2 = y -> e.1 ∈ emitted) es)) as [Hall|Hno].
  { exists y. by split. }
  apply not_Forall_Exists in Hno; [|apply _]. apply Exists_exists in Hno as ([a b] & Hin & Hbad).
  destruct (Hes a b Hin) as [[Ha Hb] Hrank]. simpl in Hbad.
  destruct (decide (b = y)) as [->|Hne]; [|by destruct Hbad].
  apply (IH (rank a) Hrank a eq_refl Ha). intros Hin'. by apply Hbad.
Qed.

Lemma topo_loop_ok n es (rank : nat -> nat) fuel emitted :
  (forall a b, (a, b) ∈ es -> (a < n /\ b < n)%nat /\ (rank a < rank b)%nat) ->
  NoDup emitted -> (forall x, x ∈ emitted -> (x < n)%nat) -> (length emitted + fuel = n)%nat ->
  (forall a b, (a, b) ∈ es -> b ∈ emitted -> before emitted a b) ->
  exists order, topo_loop fuel n es emitted = Some order /\ order ≡ₚ seq 0 n /\
    forall a b, (a, b) ∈ es -> before order a b.
Proof.
  intros Hes. revert emitted. induction fuel as [|fuel IH]; intros emitted Hnd Hlt Hlen Hbef; simpl.
  { exists emitted. assert (Hperm : emitted ≡ₚ seq 0 n).
    { apply submseteq_length_Permutation; [|rewrite length_seq; lia].
      apply NoDup_submseteq; [done|]. intros x Hx. apply elem_of_seq. specialize (Hlt x Hx). lia. }
    split_and!; [done|done|]. intros a b Hab. apply Hbef; [done|]. rewrite Hperm. apply elem_of_seq.
    destruct (Hes a b Hab). lia. }
  destruct (some_ready n es rank emitted Hes Hnd) as (x & Hx & Hready); [lia|].
  destruct (list_find (ready n es emitted) (seq 0 n)) as [[i y]|] eqn:Hf.
  2:{ apply list_find_None in Hf. rewrite Forall_forall in Hf.
      destruct (Hf x); [|done]. apply elem_of_seq. lia. }
  apply list_find_Some in Hf as (Hi & [Hout Hpre] & _). rewrite Forall_forall in Hpre. apply IH.
  - apply NoDup_app. split_and!; [done| |apply NoDup_singleton].
    intros z Hz Hz'. apply list_elem_of_singleton in Hz' as ->. done.
  - intros z Hz. apply elem_of_app in Hz as [Hz|Hz]; [by apply Hlt|].
    apply list_elem_of_singleton in Hz as ->. apply lookup_seq in Hi. lia.
  - rewrite length_app. simpl. lia.
  - intros a b Hab Hb. apply elem_of_app in Hb as [Hb|Hb]; [by apply before_snoc, Hbef|].
    apply list_elem_of_singleton in Hb as ->. exists emitted, []. split; [done|]. by apply (Hpre (a, y)).
Qed.
#[export] Instance graph_model_laws : GraphLaws.
Proof.
  split. intros n es rank Hes. apply (topo_loop_ok n es rank n []); [done|constructor| |done|].
  - intros x Hx. by apply elem_of_nil in Hx.
  - intros a b _ Hb. by apply elem_of_nil in Hb.
Qed.

(** * Witnesses *)

(** A transaction as sender, recipient, nonce; the hash is all of it. *)
Record PlainTx := mkPlainTx { pt_from : list Z; pt_to : option (list Z); pt_nonce : Z }.
#[export] Instance plain_view : TxView PlainTx := {|
  view_from := pt_from;
  view_to := pt_to;
  view_nonce := pt_nonce;
  view_hash t := pt_nonce t :: len (pt_from t) :: pt_from t ++
    match pt_to t with Some a => 1 :: a | None => [] end;
|}.
#[export] Instance plain_view_laws : TxViewLaws PlainTx.
Proof.
  split. intros [f1 t1 n1] [f2 t2 n2]. simpl. intros [= _ Hlen Heq].
  apply app_inj_1 in Heq as [-> Heq]; [|unfold len in Hlen; lia]. split; [done|].
  destruct t1, t2; by simplify_eq.
Qed.
Definition sample_txs : list PlainTx :=
  [mkPlainTx [1] (Some [9]) 0; mkPlainTx [2] (Some [8]) 0; mkPlainTx [1] (Some [7]) 1; mkPlainTx [3] (Some [8]) 5].

Lemma optimistic_schedule_serializes_witness :
  exists g c' s, build_dependency_graph sample_txs detector_new = (Ok g, c') /\ cache_ok (T := PlainTx) c' /\
    schedule (mkScheduler OptimisticConcurrency 4) g sample_txs = Ok s /\
    concat (batches s) ≡ₚ seq 0 4 /\ batch_sizes 4 (batches s) /\
    forall i j ti tj k b, (i < j)%nat -> sample_txs !! i = Some ti -> sample_txs !! j = Some tj ->
      view_from ti = view_from tj \/ (is_Some (view_to ti) /\ view_to ti = view_to tj) ->
      batches s !! k = Some b -> j ∈ b -> i ∈ concat (take k (batches s)).
Proof. apply (optimistic_schedule_serializes 4 sample_txs detector_new), detector_new_ok. Defined.

Lemma schedules_are_complete_witness :
  exists s, schedule (mkScheduler TimestampOrdering 2)
      (match (build_dependency_graph sample_txs detector_new).1 with Ok g => g | _ => graph_new end) sample_txs = Ok s /\
    concat (batches s) ≡ₚ seq 0 4 /\ batch_sizes 2 (batches s).
Proof.
  eapply (schedules_are_complete TimestampOrdering 2 sample_txs detector_new).
  - discriminate.
  - lia.
  - repeat constructor; simpl; lia.
  - apply detector_new_ok.
  - vm_compute. reflexivity.
Defined.

(** The pessimistic strategy repeats transactions: the third of these conflicts
    with both others and ends up in two groups. *)
Definition star_txs : list PlainTx :=
  [mkPlainTx [1] (Some [9]) 0; mkPlainTx [2] (Some [8]) 0; mkPlainTx [1] (Some [8]) 1].
Theorem pessimistic_repeats_transactions :
  batches (schedule_pessimistic star_txs) = [[0%nat]; [2%nat]; [1%nat]; [2%nat]] /\
  total_transactions (schedule_pessimistic star_txs) = 4%nat.
Proof. split; vm_compute; reflexivity. Qed.

(** [find_parallel_groups] compares the members of a group with its first
    transaction only: here the second and third are in one group, although the
    third depends on the second. *)
Definition chain_txs : list PlainTx :=
  [mkPlainTx [1] None 0; mkPlainTx [2] None 0; mkPlainTx [2] None 1].
Theorem parallel_groups_mix_dependents :
  exists g, (build_dependency_graph chain_txs detector_new).1 = Ok g /\
    find_parallel_groups g = Ok [[0%nat; 1%nat; 2%nat]] /\ get_dependencies 2 g = [1%nat].
Proof. eexists. split_and!; vm_compute; reflexivity. Qed.
