(* ===== verification/ParallelState.v ===== *)
(** The state side of parallel execution: the access sets and their conflicts
    (crates/parallel-execution/src/conflict_detector.rs) and the state manager
    with its snapshots (state_manager.rs).

    A [DashMap] or [HashMap] is a finite map, its iteration the list of its
    entries; the time stamps of snapshots are left out.  [StateManager] is
    behind locks taken for the duration of a method. *)
From stdpp Require Import base list numbers option strings gmap pretty sorting.
From Stdlib Require Import ZArith Lia.
From S2P Require Import Prelude U256 Scheduler.

(** ** Access sets *)

Record AccessSet := mkAccessSet {
  reads : gmap (list Z) (gset (list Z));
  writes : gmap (list Z) (gmap (list Z) (list Z));
  creates : gset (list Z);
  deletes : gset (list Z);
}.
Definition access_new : AccessSet := mkAccessSet ∅ ∅ ∅ ∅.
Definition add_read (address slot : list Z) (a : AccessSet) : AccessSet :=
  mkAccessSet (<[address := {[slot]} ∪ default ∅ (reads a !! address)]> (reads a))
    (writes a) (creates a) (deletes a).
Definition add_write (address slot value : list Z) (a : AccessSet) : AccessSet :=
  mkAccessSet (reads a) (<[address := <[slot := value]> (default ∅ (writes a !! address))]> (writes a))
    (creates a) (deletes a).
Definition add_create (address : list Z) (a : AccessSet) : AccessSet :=
  mkAccessSet (reads a) (writes a) ({[address]} ∪ creates a) (deletes a).
Definition add_delete (address : list Z) (a : AccessSet) : AccessSet :=
  mkAccessSet (reads a) (writes a) (creates a) ({[address]} ∪ deletes a).
Definition merge_reads (m : gmap (list Z) (gset (list Z))) (kv : list Z * gset (list Z)) :
    gmap (list Z) (gset (list Z)) :=
  <[kv.1 := default ∅ (m !! kv.1) ∪ kv.2]> m.
Definition merge_writes (m : gmap (list Z) (gmap (list Z) (list Z))) (kv : list Z * gmap (list Z) (list Z)) :
    gmap (list Z) (gmap (list Z) (list Z)) :=
  <[kv.1 := kv.2 ∪ default ∅ (m !! kv.1)]> m.
Definition access_merge (other a : AccessSet) : AccessSet :=
  mkAccessSet (fold_left merge_reads (map_to_list (reads other)) (reads a))
    (fold_left merge_writes (map_to_list (writes other)) (writes a))
    (creates a ∪ creates other) (deletes a ∪ deletes other).

(** The loops of [conflicts], each of which returns true at a hit. *)
Definition reads_hit (r : gmap (list Z) (gset (list Z))) (w : gmap (list Z) (gmap (list Z) (list Z))) : bool :=
  existsb (fun kv : list Z * gset (list Z) =>
    match w !! kv.1 with
    | Some ws => existsb (fun slot => bool_decide (is_Some (ws !! slot))) (elements kv.2)
    | None => false
    end) (map_to_list r).
Definition writes_hit_reads (w : gmap (list Z) (gmap (list Z) (list Z))) (r : gmap (list Z) (gset (list Z))) : bool :=
  existsb (fun kv : list Z * gmap (list Z) (list Z) =>
    match r !! kv.1 with
    | Some slots => existsb (fun e : list Z * list Z => bool_decide (e.1 ∈ slots)) (map_to_list kv.2)
    | None => false
    end) (map_to_list w).
Definition writes_hit_writes (w w' : gmap (list Z) (gmap (list Z) (list Z))) : bool :=
  existsb (fun kv : list Z * gmap (list Z) (list Z) =>
    match w' !! kv.1 with
    | Some ws => existsb (fun e : list Z * list Z => bool_decide (is_Some (ws !! e.1))) (map_to_list kv.2)
    | None => false
    end) (map_to_list w).
Definition is_disjoint (a b : gset (list Z)) : bool := bool_decide (a ∩ b = ∅).
Definition conflicts (set1 set2 : AccessSet) : bool :=
  if reads_hit (reads set1) (writes set2) then true
  else if writes_hit_reads (writes set1) (reads set2) then true
  else if writes_hit_writes (writes set1) (writes set2) then true
  else if negb (is_disjoint (creates set1) (deletes set2)) || negb (is_disjoint (deletes set1) (creates set2)) then true
  else if negb (is_disjoint (creates set1) (creates set2)) then true
  else false.

(** ** The state manager *)

Record AccountState := mkAccountState {
  acc_nonce : Z;
  acc_balance : Z;
  code_hash : list Z;
  acc_storage : gmap (list Z) (list Z);
}.
Definition account_state_default : AccountState := mkAccountState 0 0 (replicate 32 0) ∅.
Record StateSnapshot := mkStateSnapshot { snap_id : Z; snap_state : gmap (list Z) AccountState }.
Record StateManager := mkStateManager { sm_state : gmap (list Z) AccountState; snapshots : list StateSnapshot }.
Definition manager_new : StateManager := mkStateManager ∅ [].
Definition from_snapshot (s : StateSnapshot) : StateManager := mkStateManager (snap_state s) [s].

Definition manager_snapshot (m : StateManager) : StateSnapshot * StateManager :=
  let s := mkStateSnapshot (wrap 64 (len (snapshots m))) (sm_state m) in
  (s, mkStateManager (sm_state m) (snapshots m ++ [s])).
Definition not_found (id : Z) : ParallelExecutionError :=
  StateError ("Snapshot " +:+ pretty id +:+ " not found").
Definition restore (snapshot_id : Z) (m : StateManager) : outcome ParallelExecutionError StateManager :=
  match list_find (fun s => snap_id s = snapshot_id) (snapshots m) with
  | Some (_, s) => Ok (mkStateManager (snap_state s) (snapshots m))
  | None => Err (not_found snapshot_id)
  end.
Definition get_account (address : list Z) (m : StateManager) : option AccountState := sm_state m !! address.
Definition set_account (address : list Z) (a : AccountState) (m : StateManager) : StateManager :=
  mkStateManager (<[address := a]> (sm_state m)) (snapshots m).
Definition get_storage (address slot : list Z) (m : StateManager) : option (list Z) :=
  match sm_state m !! address with
  | Some account => acc_storage account !! slot
  | None => None
  end.
Definition with_storage (f : gmap (list Z) (list Z) -> gmap (list Z) (list Z)) (a : AccountState) : AccountState :=
  mkAccountState (acc_nonce a) (acc_balance a) (code_hash a) (f (acc_storage a)).
Definition set_storage (address slot value : list Z) (m : StateManager) : StateManager :=
  mkStateManager (<[address := with_storage (insert slot value) (default account_state_default (sm_state m !! address))]> (sm_state m))
    (snapshots m).

Record BalanceChange := mkBalanceChange { amount : Z; is_decrease : bool }.
Record StateChanges := mkStateChanges {
  new_nonce : option Z;
  balance_change : option BalanceChange;
  new_storage : gmap (list Z) (list Z);
}.
Definition can_apply (address : list Z) (c : StateChanges) (m : StateManager) : bool :=
  match get_account address m with
  | Some account =>
      if match new_nonce c with Some n => n <? acc_nonce account | None => false end then false
      else if match balance_change c with
              | Some b => is_decrease b && (acc_balance account <? amount b)
              | None => false
              end then false
      else true
  | None => true
  end.

Section changes.
Context `{U256Ops}.
Definition change_account (c : StateChanges) (account : AccountState) : AccountState :=
  let nonce := match new_nonce c with Some n => n | None => acc_nonce account end in
  let balance := match balance_change c with
                 | Some b => if is_decrease b then u_saturating_sub (acc_balance account) (amount b)
                             else u_saturating_add (acc_balance account) (amount b)
                 | None => acc_balance account
                 end in
  mkAccountState nonce balance (code_hash account)
    (fold_left (fun st e => <[e.1 := e.2]> st) (map_to_list (new_storage c)) (acc_storage account)).
Definition apply_change (m : StateManager) (e : list Z * StateChanges) : StateManager :=
  set_account e.1 (change_account e.2 (default account_state_default (get_account e.1 m))) m.
Definition apply_changes (changes : gmap (list Z) StateChanges) (m : StateManager) : StateManager :=
  fold_left apply_change (map_to_list changes) m.
End changes.

(** [H160]s compare as their bytes, 20 each. *)
Definition compute_state_root `{ToBeBytes} `{KeccakOps} (m : StateManager) : list Z :=
  let accounts := sort_by_key (fun e : list Z * AccountState => from_be e.1) (map_to_list (sm_state m)) in
  keccak256 (concat (map (fun e : list Z * AccountState =>
    e.1 ++ u_to_be_bytes32 (acc_nonce e.2) ++ u_to_be_bytes32 (acc_balance e.2) ++ code_hash e.2) accounts)).

(** * What a conflict is *)

Definition reads_slot (a : AccessSet) (addr slot : list Z) : Prop :=
  exists slots, reads a !! addr = Some slots /\ slot ∈ slots.
Definition writes_slot (a : AccessSet) (addr slot : list Z) : Prop :=
  exists ws, writes a !! addr = Some ws /\ is_Some (ws !! slot).

Lemma existsb_map_to_list {A} (f : list Z * A -> bool) (m : gmap (list Z) A) :
  existsb f (map_to_list m) = true <-> exists k x, m !! k = Some x /\ f (k, x) = true.
Proof.
  rewrite existsb_exists. split.
  - intros ([k x] & Hin & Hf). apply list_elem_of_In, elem_of_map_to_list in Hin. eauto.
  - intros (k & x & Hl & Hf). exists (k, x). split; [by apply list_elem_of_In, elem_of_map_to_list|done].
Qed.
Lemma existsb_elements (f : list Z -> bool) (X : gset (list Z)) :
  existsb f (elements X) = true <-> exists x, x ∈ X /\ f x = true.
Proof.
  rewrite existsb_exists. setoid_rewrite <- list_elem_of_In. by setoid_rewrite elem_of_elements.
Qed.

Lemma reads_hit_spec a b : reads_hit (reads a) (writes b) = true <->
  exists addr slot, reads_slot a addr slot /\ writes_slot b addr slot.
Proof.
  unfold reads_hit. rewrite existsb_map_to_list. split.
  - intros (addr & slots & Hl & Hf). simpl in Hf. destruct (writes b !! addr) as [ws|] eqn:Hw; [|done].
    apply existsb_elements in Hf as (slot & Hs & Hb). apply bool_decide_eq_true in Hb.
    exists addr, slot. split; [by exists slots|by exists ws].
  - intros (addr & slot & (slots & Hl & Hs) & (ws & Hw & Hi)). exists addr, slots. split; [done|].
    simpl. rewrite Hw. apply existsb_elements. exists slot. split; [done|]. by apply bool_decide_eq_true.
Qed.
Lemma writes_hit_reads_spec a b : writes_hit_reads (writes a) (reads b) = true <->
  exists addr slot, writes_slot a addr slot /\ reads_slot b addr slot.
Proof.
  unfold writes_hit_reads. rewrite existsb_map_to_list. split.
  - intros (addr & ws & Hl & Hf). simpl in Hf. destruct (reads b !! addr) as [slots|] eqn:Hr; [|done].
    apply existsb_map_to_list in Hf as (slot & v & Hs & Hb). apply bool_decide_eq_true in Hb.
    exists addr, slot. split; [by exists ws; rewrite Hs|by exists slots].
  - intros (addr & slot & (ws & Hw & [v Hv]) & (slots & Hl & Hs)). exists addr, ws. split; [done|].
    simpl. rewrite Hl. apply existsb_map_to_list. exists slot, v. split; [done|]. by apply bool_decide_eq_true.
Qed.
Lemma writes_hit_writes_spec a b : writes_hit_writes (writes a) (writes b) = true <->
  exists addr slot, writes_slot a addr slot /\ writes_slot b addr slot.
Proof.
  unfold writes_hit_writes. rewrite existsb_map_to_list. split.
  - intros (addr & ws & Hl & Hf). simpl in Hf. destruct (writes b !! addr) as [ws'|] eqn:Hr; [|done].
    apply existsb_map_to_list in Hf as (slot & v & Hs & Hb). apply bool_decide_eq_true in Hb.
    exists addr, slot. split; [by exists ws; rewrite Hs|by exists ws'].
  - intros (addr & slot & (ws & Hw & [v Hv]) & (ws' & Hl & Hs)). exists addr, ws. split; [done|].
    simpl. rewrite Hl. apply existsb_map_to_list. exists slot, v. split; [done|]. by apply bool_decide_eq_true.
Qed.

(** Two transactions race on storage: one writes a slot the other reads or
    writes. *)
Definition storage_race (a b : AccessSet) : Prop :=
  exists addr slot, (writes_slot a addr slot /\ (reads_slot b addr slot \/ writes_slot b addr slot)) \/
                    (writes_slot b addr slot /\ reads_slot a addr slot).
(** One creates an account the other creates or deletes. *)
Definition creation_clash (a b : AccessSet) : Prop :=
  exists addr, (addr ∈ creates a /\ (addr ∈ deletes b \/ addr ∈ creates b)) \/
               (addr ∈ deletes a /\ addr ∈ creates b).
Lemma is_disjoint_spec (X Y : gset (list Z)) : is_disjoint X Y = false <-> exists x, x ∈ X /\ x ∈ Y.
Proof.
  unfold is_disjoint. rewrite bool_decide_eq_false. split.
  - intros Hne. apply set_choose_L in Hne as [x Hx]. exists x. by apply elem_of_intersection in Hx.
  - intros (x & Hx & Hy) Heq. apply (not_elem_of_empty x (C := gset (list Z))). rewrite <- Heq.
    by apply elem_of_intersection.
Qed.
Lemma conflicts_spec a b : conflicts a b = true <-> storage_race a b \/ creation_clash a b.
Proof.
  assert (Hor : conflicts a b = reads_hit (reads a) (writes b) || writes_hit_reads (writes a) (reads b) ||
    writes_hit_writes (writes a) (writes b) || negb (is_disjoint (creates a) (deletes b)) ||
    negb (is_disjoint (deletes a) (creates b)) || negb (is_disjoint (creates a) (creates b))).
  { unfold conflicts. destruct (reads_hit _ _), (writes_hit_reads _ _), (writes_hit_writes _ _),
      (is_disjoint (creates a) (deletes b)), (is_disjoint (deletes a) (creates b)),
      (is_disjoint (creates a) (creates b)); reflexivity. }
  rewrite Hor, !orb_true_iff, !negb_true_iff, !is_disjoint_spec, reads_hit_spec, writes_hit_reads_spec,
    writes_hit_writes_spec. clear Hor. unfold storage_race, creation_clash. naive_solver.
Qed.

Lemma races_sym a b : storage_race a b \/ creation_clash a b -> storage_race b a \/ creation_clash b a.
Proof. unfold storage_race, creation_clash. naive_solver. Qed.
Lemma conflicts_sym a b : conflicts a b = conflicts b a.
Proof. apply eq_true_iff_eq. rewrite !conflicts_spec. split; apply races_sym. Qed.

(** A deleted account may still be read and written: that is no conflict. *)
Theorem delete_write_is_no_conflict addr slot value :
  conflicts (add_delete addr access_new) (add_write addr slot value access_new) = false.
Proof.
  destruct (conflicts _ _) eqn:Hc; [|done]. exfalso. apply conflicts_spec in Hc.
  unfold storage_race, creation_clash, reads_slot, writes_slot in Hc. simpl in Hc.
  setoid_rewrite lookup_empty in Hc. setoid_rewrite elem_of_empty in Hc. naive_solver.
Qed.

(** * Snapshots *)

(** The methods that change a state manager. *)
Inductive manager_op :=
  | OpSnapshot | OpRestore (id : Z) | OpSetAccount (addr : list Z) (a : AccountState)
  | OpSetStorage (addr slot value : list Z) | OpApply (changes : gmap (list Z) StateChanges).

Section manager.
Context `{U256Laws}.

(** A failed [restore] leaves the manager as it is. *)
Definition manager_step (m : StateManager) (op : manager_op) : StateManager :=
  match op with
  | OpSnapshot => (manager_snapshot m).2
  | OpRestore id => match restore id m with Ok m' => m' | _ => m end
  | OpSetAccount addr a => set_account addr a m
  | OpSetStorage addr slot v => set_storage addr slot v m
  | OpApply changes => apply_changes changes m
  end.
Definition manager_run (ops : list manager_op) (m : StateManager) : StateManager :=
  fold_left manager_step ops m.

(** Snapshots are numbered as they come. *)
Definition ids_ok (m : StateManager) : Prop :=
  forall i s, snapshots m !! i = Some s -> snap_id s = wrap 64 (Z.of_nat i).

Lemma apply_changes_snapshots changes m : snapshots (apply_changes changes m) = snapshots m.
Proof using Type.
  unfold apply_changes. revert m. induction (map_to_list changes) as [|e l IH]; intros m; [done|].
  simpl. by rewrite IH.
Qed.
Lemma step_snapshots m op : exists l, snapshots (manager_step m op) = snapshots m ++ l /\
  (ids_ok m -> ids_ok (manager_step m op)).
Proof using Type.
  destruct op; simpl.
  - eexists. split; [done|]. intros Hids i s Hi. cbn [snapshots] in Hi.
    apply lookup_snoc_Some in Hi as [[_ Hi]|[-> <-]]; [by apply Hids|]. done.
  - exists []. rewrite app_nil_r. unfold restore. by destruct (list_find _ (snapshots m)) as [[? ?]|].
  - exists []. by rewrite app_nil_r.
  - exists []. by rewrite app_nil_r.
  - exists []. rewrite app_nil_r, apply_changes_snapshots. split; [done|]. unfold ids_ok.
    by rewrite apply_changes_snapshots.
Qed.
Lemma run_snapshots ops m : exists l, snapshots (manager_run ops m) = snapshots m ++ l /\
  (ids_ok m -> ids_ok (manager_run ops m)).
Proof using Type.
  revert m. induction ops as [|op ops IH]; intros m; simpl; [exists []; by rewrite app_nil_r|].
  destruct (step_snapshots m op) as (l1 & Hl1 & Hi1). destruct (IH (manager_step m op)) as (l2 & Hl2 & Hi2).
  exists (l1 ++ l2). rewrite Hl2, Hl1, app_assoc. split; [done|]. eauto.
Qed.

(** A snapshot can be restored whatever happened since.  In a state manager
    used through its methods from [new] on, below 2^64 snapshots, restoring the
    snapshot taken at some point, after any further sequence of snapshots,
    restores (failed ones included), account and storage writes and applied
    changes, brings back exactly the accounts of that point. *)
Theorem snapshot_restore_roundtrip before after m s m1 :
  m = manager_run before manager_new -> manager_snapshot m = (s, m1) ->
  len (snapshots (manager_run after m1)) < 2 ^ 64 ->
  exists m2, restore (snap_id s) (manager_run after m1) = Ok m2 /\
    sm_state m2 = sm_state m /\ snapshots m2 = snapshots (manager_run after m1).
Proof using Type.
  intros -> Hsnap Hlen. set (m := manager_run before manager_new) in *.
  assert (Hids : ids_ok m).
  { destruct (run_snapshots before manager_new) as (_ & _ & Hi). apply Hi. intros i x Hx. done. }
  unfold manager_snapshot in Hsnap. injection Hsnap as <- <-. cbn [snap_id].
  set (s := mkStateSnapshot _ _) in *. set (m1 := mkStateManager (sm_state m) (snapshots m ++ [s])) in *.
  destruct (run_snapshots after m1) as (l & Hl & Hi).
  assert (Hids2 : ids_ok (manager_run after m1)).
  { apply Hi. intros i x Hx. unfold m1 in Hx. cbn [snapshots] in Hx.
    apply lookup_snoc_Some in Hx as [[_ Hx]|[-> <-]]; [by apply Hids|done]. }
  unfold restore. rewrite (proj2 (list_find_Some _ _ (length (snapshots m)) s)).
  - eexists. split; [done|]. done.
  - rewrite Hl. cbn [snapshots m1]. rewrite <- app_assoc. simpl. split_and!; [by apply list_lookup_middle|done|].
    intros j y Hj Hlt Heq. pose proof (Hids2 j y) as Hid. rewrite Hl in Hid. cbn [snapshots m1] in Hid.
    rewrite <- app_assoc in Hid. specialize (Hid Hj). rewrite Hid in Heq.
    unfold wrap, len in *. rewrite Hl, length_app in Hlen. cbn [snapshots m1] in Hlen. rewrite length_app in Hlen. simpl in Hlen.
    rewrite !Z.mod_small in Heq by lia. lia.
Qed.

(** * Applying changes *)

Lemma insert_all_storage (l : list (list Z * list Z)) (st : gmap (list Z) (list Z)) : NoDup l.*1 ->
  fold_left (fun st e => <[e.1 := e.2]> st) l st = list_to_map l ∪ st.
Proof using Type.
  revert st. induction l as [|[k v] l IH]; intros st Hnd; simpl; [by rewrite (left_id_L ∅ (∪))|].
  apply NoDup_cons in Hnd as [Hk Hnd]. rewrite IH by done. simpl.
  rewrite <- insert_union_r; [by rewrite insert_union_l|]. by apply not_elem_of_list_to_map_1.
Qed.
Lemma apply_list_lookup (l : list (list Z * StateChanges)) m addr : NoDup l.*1 ->
  sm_state (fold_left apply_change l m) !! addr =
  match (list_to_map l : gmap (list Z) StateChanges) !! addr with
  | Some c => Some (change_account c (default account_state_default (sm_state m !! addr)))
  | None => sm_state m !! addr
  end.
Proof using Type.
  revert m. induction l as [|[k c] l IH]; intros m Hnd; simpl; [by rewrite lookup_empty|].
  apply NoDup_cons in Hnd as [Hk Hnd]. rewrite IH by done. simpl in *.
  destruct (decide (k = addr)) as [->|Hne].
  - rewrite lookup_insert_eq, not_elem_of_list_to_map_1 by done. simpl. by rewrite lookup_insert_eq.
  - by rewrite !lookup_insert_ne.
Qed.

Lemma apply_changes_lookup changes m addr : sm_state (apply_changes changes m) !! addr =
  match changes !! addr with
  | Some c => Some (change_account c (default account_state_default (sm_state m !! addr)))
  | None => sm_state m !! addr
  end.
Proof using Type.
  unfold apply_changes. rewrite apply_list_lookup by apply NoDup_fst_map_to_list. by rewrite list_to_map_to_list.
Qed.
Lemma changed_storage c account : acc_storage (change_account c account) = new_storage c ∪ acc_storage account.
Proof using Type.
  cbn [acc_storage change_account]. rewrite insert_all_storage by apply NoDup_fst_map_to_list.
  by rewrite list_to_map_to_list.
Qed.

(** ** Commuting changes *)

(** The access set records the slots the changes write. *)
Definition records (a : AccessSet) (changes : gmap (list Z) StateChanges) : Prop :=
  forall addr c slot, changes !! addr = Some c -> is_Some (new_storage c !! slot) -> writes_slot a addr slot.
(** No account has its nonce, or its balance, changed by both; access sets do
    not record those. *)
Definition scalars_apart (c d : gmap (list Z) StateChanges) : Prop :=
  forall addr x y, c !! addr = Some x -> d !! addr = Some y ->
    (new_nonce x = None \/ new_nonce y = None) /\ (balance_change x = None \/ balance_change y = None).

Lemma change_account_comm x y account :
  new_nonce x = None \/ new_nonce y = None -> balance_change x = None \/ balance_change y = None ->
  (forall slot, is_Some (new_storage x !! slot) -> is_Some (new_storage y !! slot) -> False) ->
  change_account y (change_account x account) = change_account x (change_account y account).
Proof using Type.
  intros Hn Hb Hs.
  assert (Hst : acc_storage (change_account y (change_account x account)) =
                acc_storage (change_account x (change_account y account))).
  { rewrite !changed_storage, !(assoc_L (∪)). f_equal. apply map_union_comm, map_disjoint_spec.
    intros slot v w Hv Hw. by apply (Hs slot); [rewrite Hw|rewrite Hv]. }
  unfold change_account in *. cbn [acc_storage acc_nonce acc_balance code_hash] in *. f_equal; [| |exact Hst].
  - by destruct Hn as [-> | ->].
  - by destruct Hb as [-> | ->].
Qed.
Lemma apply_changes_comm c d m : scalars_apart c d ->
  (forall addr x y slot, c !! addr = Some x -> d !! addr = Some y ->
     is_Some (new_storage x !! slot) -> is_Some (new_storage y !! slot) -> False) ->
  apply_changes d (apply_changes c m) = apply_changes c (apply_changes d m).
Proof using Type.
  intros Hsc Hst. assert (forall m m', sm_state m = sm_state m' -> snapshots m = snapshots m' -> m = m') as Heq.
  { intros [] []. simpl. by intros -> ->. }
  apply Heq; [|by rewrite !apply_changes_snapshots].
  apply map_eq. intros addr. rewrite !apply_changes_lookup.
  destruct (c !! addr) as [x|] eqn:Hc, (d !! addr) as [y|] eqn:Hd; [|done..]. cbn [default from_option id]. f_equal.
  destruct (Hsc addr x y Hc Hd). apply change_account_comm; [done..|]. intros slot. by apply (Hst addr x y).
Qed.
Lemma unwritten_slot changes m addr slot :
  (forall c, changes !! addr = Some c -> new_storage c !! slot = None) ->
  get_storage addr slot (apply_changes changes m) = get_storage addr slot m.
Proof using Type.
  intros Hno. unfold get_storage. rewrite apply_changes_lookup. destruct (changes !! addr) as [c|]; [|done].
  rewrite changed_storage, lookup_union_r by (by apply Hno). by destruct (sm_state m !! addr).
Qed.
Lemma unread_slot a b changes m addr slot : records a changes -> ~ storage_race a b -> reads_slot b addr slot ->
  get_storage addr slot (apply_changes changes m) = get_storage addr slot m.
Proof using Type.
  intros Hrec Hno Hr. apply unwritten_slot. intros c Hc. destruct (new_storage c !! slot) eqn:Hs; [|done].
  destruct Hno. exists addr, slot. left. split; [|by left]. by apply (Hrec addr c); [|rewrite Hs].
Qed.

(** C12: Transactions whose access sets do not conflict commute.  [conflicts] is
    symmetric and answers true exactly when one set writes a slot the other
    reads or writes, or creates an account the other creates or deletes;
    deletions are not compared with reads, writes or other deletions.  Where it
    answers false, [apply_changes] leads to the same state whichever of two sets
    of changes comes first, and leaves the slots the other transaction reads as
    they were, provided that the access sets record every slot the changes
    write and that no nonce or balance is changed by both, which access sets do
    not show. *)
Theorem conflict_free_sets_commute a b :
  conflicts a b = conflicts b a /\
  (conflicts a b = true <-> storage_race a b \/ creation_clash a b) /\
  (forall c d m, records a c -> records b d -> scalars_apart c d -> conflicts a b = false ->
    apply_changes d (apply_changes c m) = apply_changes c (apply_changes d m) /\
    (forall addr slot, reads_slot b addr slot ->
       get_storage addr slot (apply_changes c m) = get_storage addr slot m) /\
    (forall addr slot, reads_slot a addr slot ->
       get_storage addr slot (apply_changes d m) = get_storage addr slot m)).
Proof using Type.
  split_and!; [apply conflicts_sym|apply conflicts_spec|]. intros c d m Hc Hd Hsc Hno.
  assert (Hn : ~ storage_race a b) by (intros Hr; assert (conflicts a b = true) by (apply conflicts_spec; auto); congruence).
  assert (Hn' : ~ storage_race b a) by (unfold storage_race in *; naive_solver).
  split_and!; [|intros; by eapply unread_slot..]. apply apply_changes_comm; [done|].
  intros addr x y slot Hx Hy Hxs Hys. apply Hn. exists addr, slot. left. eauto.
Qed.

Definition account_ok (a : AccountState) : Prop := uint 256 (acc_nonce a) /\ uint 256 (acc_balance a).
Definition change_ok (c : StateChanges) : Prop :=
  match new_nonce c with Some n => uint 256 n | None => True end /\
  match balance_change c with Some b => uint 256 (amount b) | None => True end.

(** Validated changes move an account exactly.  [apply_changes] touches the
    accounts it names and no other.  If [can_apply] accepted the change of an
    existing account, its nonce does not fall, a decrease takes exactly the
    amount from the balance, an increase adds it (up to the largest 256-bit
    value), the storage slots named get their new values, the others and the
    code stay as they are. *)
Theorem validated_changes_are_exact changes m addr c a :
  changes !! addr = Some c -> sm_state m !! addr = Some a -> account_ok a -> change_ok c ->
  can_apply addr c m = true ->
  exists a', sm_state (apply_changes changes m) !! addr = Some a' /\
    acc_nonce a <= acc_nonce a' /\ acc_nonce a' = default (acc_nonce a) (new_nonce c) /\
    acc_balance a' = match balance_change c with
                     | Some b => if is_decrease b then acc_balance a - amount b
                                 else Z.min (acc_balance a + amount b) U256_MAX
                     | None => acc_balance a
                     end /\ 0 <= acc_balance a' /\
    code_hash a' = code_hash a /\
    (forall slot, acc_storage a' !! slot = match new_storage c !! slot with
                                         | Some v => Some v
                                         | None => acc_storage a !! slot
                                         end) /\
    forall other, changes !! other = None ->
      sm_state (apply_changes changes m) !! other = sm_state m !! other.
Proof.
  intros Hc Ha [Hn Hb] [Hcn Hcb] Hcan.
  exists (change_account c a). rewrite apply_changes_lookup, Hc, Ha. unfold can_apply, get_account in Hcan. rewrite Ha in Hcan. unfold uint in *.
  split_and!; try done; cbn [change_account acc_nonce acc_balance].
  - destruct (new_nonce c) as [n|]; [|lia]. destruct (Z.ltb_spec n (acc_nonce a)); [done|lia].
  - destruct (new_nonce c) as [n|]; [destruct (n <? acc_nonce a); [done|]|];
      (destruct (balance_change c) as [[am dec]|]; [|done]); simpl in *;
      (destruct dec; simpl in *; [|by rewrite saturating_add_law]);
      (destruct (Z.ltb_spec (acc_balance a) am); [done|]);
      (rewrite saturating_sub_law by done; lia).
  - destruct (balance_change c) as [[am dec]|]; [|lia]. simpl in *.
    destruct dec; [rewrite saturating_sub_law by done|rewrite saturating_add_law by done]; lia.
  - intros slot. rewrite changed_storage, lookup_union. destruct (new_storage c !! slot), (acc_storage a !! slot); done.
  - intros other Ho. by rewrite apply_changes_lookup, Ho.
Qed.

(** The change of an account that does not exist is always accepted, also a
    decrease, which then has no effect on the balance. *)
Theorem missing_account_decrease addr amt m : sm_state m !! addr = None -> uint 256 amt ->
  let c := mkStateChanges None (Some (mkBalanceChange amt true)) ∅ in
  can_apply addr c m = true /\
  option_map acc_balance (sm_state (apply_changes {[addr := c]} m) !! addr) = Some 0.
Proof.
  intros Hm Hamt c. split; [unfold can_apply, get_account; by rewrite Hm|].
  rewrite apply_changes_lookup, lookup_singleton_eq, Hm. simpl.
  rewrite saturating_sub_law by (unfold uint in *; lia). unfold uint in *. f_equal. lia.
Qed.
End manager.

(** * The state root *)

Lemma sort_by_key_map {A B} (k : A -> Z) (k' : B -> Z) (g : A -> B) l : (forall x, k' (g x) = k x) ->
  map g (sort_by_key k l) = sort_by_key k' (map g l).
Proof.
  intros Hk. induction l as [|x l IH]; [done|]. cbn [map sort_by_key foldr] in *.
  fold (sort_by_key k l). fold (sort_by_key k' (map g l)). rewrite <- IH. clear IH.
  induction (sort_by_key k l) as [|y s IHs]; [done|]. simpl. rewrite !Hk.
  destruct (k y <? k x); simpl; [by rewrite IHs|done].
Qed.
Lemma sort_by_key_unique {A} (k : A -> Z) l l' : l ≡ₚ l' ->
  (forall x y, x ∈ l -> y ∈ l -> k x = k y -> x = y) -> sort_by_key k l = sort_by_key k l'.
Proof.
  intros Hp Hk. apply (StronglySorted_unique_strong (key_le k)).
  - intros x y Hx Hy Hxy Hyx. rewrite sort_by_key_perm in Hx, Hy. rewrite <- Hp in Hy.
    unfold key_le in *. apply Hk; [done..|lia].
  - apply sort_by_key_sorted.
  - apply sort_by_key_sorted.
  - by rewrite !sort_by_key_perm.
Qed.
Lemma from_be_inj (a b : list Z) : bytes a -> bytes b -> length a = length b -> from_be a = from_be b -> a = b.
Proof.
  intros Ha Hb Hl Heq. rewrite <- (to_be_from_be a), <- (to_be_from_be b) by done. by rewrite Hl, Heq.
Qed.

(** The state root does not depend on storage: writing a slot of an existing
    account leaves it the same. *)
Theorem state_root_ignores_storage `{ToBeBytes} `{KeccakOps} m addr slot value :
  is_Some (sm_state m !! addr) ->
  (forall a, is_Some (sm_state m !! a) -> bytes a /\ length a = 20%nat) ->
  compute_state_root (set_storage addr slot value m) = compute_state_root m.
Proof.
  intros [acc Hacc] Hok.
  set (g (e : list Z * AccountState) := (e.1, with_storage (fun _ => ∅) e.2)).
  assert (Hroot : forall s : gmap (list Z) AccountState, compute_state_root (mkStateManager s []) =
    keccak256 (concat (map (fun e : list Z * AccountState =>
      e.1 ++ u_to_be_bytes32 (acc_nonce e.2) ++ u_to_be_bytes32 (acc_balance e.2) ++ code_hash e.2)
      (sort_by_key (fun e : list Z * AccountState => from_be e.1) (map g (map_to_list s)))))).
  { intros s. unfold compute_state_root. simpl. do 2 f_equal.
    rewrite <- (sort_by_key_map (fun e : list Z * AccountState => from_be e.1)) by done.
    by rewrite map_map. }
  assert (Hsame : forall m : StateManager, compute_state_root m = compute_state_root (mkStateManager (sm_state m) []))
    by done.
  rewrite (Hsame m), (Hsame (set_storage _ _ _ _)), !Hroot. do 3 f_equal. apply sort_by_key_unique.
  - assert (Hg : forall s : gmap (list Z) AccountState,
      map g (map_to_list s) ≡ₚ map_to_list (with_storage (fun _ => ∅) <$> s)).
    { intros s. rewrite map_to_list_fmap. done. }
    rewrite !Hg. cbn [sm_state set_storage]. rewrite Hacc. simpl. rewrite fmap_insert.
    unfold with_storage at 1. simpl. rewrite insert_id; [done|]. rewrite lookup_fmap, Hacc. done.
  - assert (Hin : forall x, x ∈ map g (map_to_list (sm_state (set_storage addr slot value m))) ->
      exists a c, x = (a, with_storage (fun _ => ∅) c) /\ sm_state (set_storage addr slot value m) !! a = Some c).
    { intros x Hx. apply list_elem_of_In, in_map_iff in Hx as ([a c] & <- & Hx).
      apply list_elem_of_In, elem_of_map_to_list in Hx. by exists a, c. }
    intros x y Hx Hy Heq. destruct (Hin x Hx) as (a & c & -> & Ha), (Hin y Hy) as (a' & c' & -> & Ha').
    simpl in Heq. assert (Hdom : forall b d, sm_state (set_storage addr slot value m) !! b = Some d -> bytes b /\ length b = 20%nat).
    { intros b d Hb. apply Hok. cbn [sm_state set_storage] in Hb. destruct (decide (addr = b)) as [<-|Hne]; [by rewrite Hacc|].
      rewrite lookup_insert_ne in Hb by done. by rewrite Hb. }
    destruct (Hdom a c Ha), (Hdom a' c' Ha').
    assert (a = a') as -> by (apply from_be_inj; [done..|congruence|done]). by rewrite Ha in Ha'; injection Ha' as ->.
Qed.

(** * Witnesses *)

(** The first pays and writes a slot, the second moves the nonce of the same
    account and writes another. *)
Lemma conflict_free_sets_commute_witness :
  let a := add_write [1] [5] [50] access_new in
  let b := add_read [1] [6] (add_write [1] [7] [70] access_new) in
  let c := {[ [1] := mkStateChanges None (Some (mkBalanceChange 30 false)) {[ [5] := [50] ]} ]} in
  let d := {[ [1] := mkStateChanges (Some 4) None {[ [7] := [70] ]} ]} in
  apply_changes d (apply_changes c manager_new) = apply_changes c (apply_changes d manager_new).
Proof.
  intros a b c d. destruct (conflict_free_sets_commute a b) as (_ & _ & Hc). apply Hc; [| | |vm_compute; reflexivity].
  - intros addr x slot [<- <-]%lookup_singleton_Some Hs. cbn in Hs. apply lookup_singleton_is_Some in Hs as <-.
    exists {[ [5] := [50] ]}. split; [reflexivity|]. vm_compute. eauto.
  - intros addr x slot [<- <-]%lookup_singleton_Some Hs. cbn in Hs. apply lookup_singleton_is_Some in Hs as <-.
    exists {[ [7] := [70] ]}. split; [reflexivity|]. vm_compute. eauto.
  - intros addr x y [<- <-]%lookup_singleton_Some [_ <-]%lookup_singleton_Some. cbn. auto.
Defined.

Lemma snapshot_restore_roundtrip_witness :
  let m := manager_run [OpSetStorage [1] [5] [50]] manager_new in
  exists m2, restore 0 (manager_run [OpSetStorage [1] [5] [60]; OpSnapshot; OpRestore 9] (manager_snapshot m).2) = Ok m2 /\
    sm_state m2 = sm_state m.
Proof.
  intros m.
  destruct (snapshot_restore_roundtrip [OpSetStorage [1] [5] [50]]
    [OpSetStorage [1] [5] [60]; OpSnapshot; OpRestore 9] m (manager_snapshot m).1 (manager_snapshot m).2)
    as (m2 & Hr & Hs & _); [reflexivity|reflexivity|reflexivity|].
  exists m2. split; [exact Hr|exact Hs].
Defined.

Lemma validated_changes_are_exact_witness :
  let acc := mkAccountState 3 100 (replicate 32 0) ∅ in
  let c := mkStateChanges (Some 4) (Some (mkBalanceChange 30 true)) {[ [5] := [1] ]} in
  exists a', sm_state (apply_changes {[ [9] := c ]} (mkStateManager {[ [9] := acc ]} [])) !! [9] = Some a' /\
    acc_balance a' = 70.
Proof.
  intros acc c.
  destruct (validated_changes_are_exact {[ [9] := c ]} (mkStateManager {[ [9] := acc ]} []) [9] c acc)
    as (a' & Ha' & _ & _ & Hb & _).
  - reflexivity.
  - reflexivity.
  - split; unfold uint; simpl; lia.
  - split; unfold uint; simpl; lia.
  - reflexivity.
  - exists a'. split; [exact Ha'|exact Hb].
Defined.
