(* ===== verification/ParallelExecutor.v ===== *)
(** The parallel executor and its validator:
    crates/parallel-execution/src/executor.rs and validator.rs over the
    scheduler, the conflict detector and the state manager.

    The simulated execution of a transaction draws its addresses, slots and
    hashes at random: the draws are arguments, as are the order in which the
    worker threads finish, whether a thread pool could be built and the clock.
    A [Receipt] holds the fields the executor fills in; the changes of a
    transaction are those of the state manager, which the executor declares
    again under the same name. *)
From stdpp Require Import base list numbers option strings gmap.
From Stdlib Require Import ZArith Lia.
From S2P Require Import Prelude U256 F64 Scheduler ParallelState.

Module ParallelExecutor.

Inductive ConflictResolution := Retry | Abort_ | Merge.
Record ExecutorConfig := mkExecutorConfig {
  num_workers : Z; batch_size : Z; speculative_execution : bool;
  conflict_resolution : ConflictResolution; scheduling_strategy : SchedulingStrategy;
}.
Definition executor_config_default (cpus : Z) : ExecutorConfig := mkExecutorConfig cpus 100 true Retry OptimisticConcurrency.
Record Receipt := mkReceipt {
  transaction_hash : list Z; transaction_index : Z; r_block_hash : list Z; r_block_number : Z; r_from : list Z; r_to : option (list Z);
  cumulative_gas_used : Z; gas_used : option Z; contract_address : option (list Z); logs : list (list Z); logs_bloom : list Z;
  status : option Z; r_state_root : option (list Z);
}.
Record ExecutedTransaction := mkExecuted { e_tx_hash : list Z; e_receipt : Receipt; e_access_set : AccessSet }.
Record FailedTransaction := mkFailed { f_tx_hash : list Z; f_error : string; can_retry : bool }.
Record ExecutionResult := mkExecution {
  executed_txs : list ExecutedTransaction; failed_txs : list FailedTransaction; x_state_root : list Z; x_gas_used : Z; execution_time_ms : Z;
}.
Record TransactionResult := mkResult { tx_index : nat; receipt : Receipt; access_set : AccessSet; state_changes : gmap (list Z) StateChanges }.
Record ExecutionContext := mkContext { context_manager : StateManager; context_changes : gmap (list Z) StateChanges }.
Record ExecutorMetrics := mkExecutorMetrics { total_executed : Z; conflicts_detected : Z; retries : Z; parallel_speedup : F64.f64 }.
Definition executor_metrics_new : ExecutorMetrics := mkExecutorMetrics 0 0 0 (F64.of_Z 1).
Record ParallelExecutor := mkExecutor {
  scheduler : TransactionScheduler; conflict_detector : ConflictDetector; state_manager : StateManager; x_config : ExecutorConfig; x_metrics : ExecutorMetrics;
}.
Notation M := (SM ParallelExecutor ParallelExecutionError).
(** [cpus] is [num_cpus::get()]. *)
Definition executor_new (cpus : nat) (c : ExecutorConfig) : ParallelExecutor :=
  mkExecutor (mkScheduler (scheduling_strategy c) cpus) detector_new manager_new c executor_metrics_new.
Definition with_manager (m : StateManager) (e : ParallelExecutor) : ParallelExecutor := mkExecutor (scheduler e) (conflict_detector e) m (x_config e) (x_metrics e).
Definition with_detector (c : ConflictDetector) (e : ParallelExecutor) : ParallelExecutor := mkExecutor (scheduler e) c (state_manager e) (x_config e) (x_metrics e).
Definition with_executor_metrics (m : ExecutorMetrics) (e : ParallelExecutor) : ParallelExecutor := mkExecutor (scheduler e) (conflict_detector e) (state_manager e) (x_config e) m.
(** [fetch_add], which wraps. *)
Definition count_executed (e : ParallelExecutor) : ParallelExecutor :=
  let m := x_metrics e in with_executor_metrics (mkExecutorMetrics (wrap 64 (total_executed m + 1)) (conflicts_detected m) (retries m) (parallel_speedup m)) e.
Definition count_conflict (e : ParallelExecutor) : ParallelExecutor :=
  let m := x_metrics e in with_executor_metrics (mkExecutorMetrics (total_executed m) (wrap 64 (conflicts_detected m + 1)) (retries m) (parallel_speedup m)) e.
Definition count_retries (n : Z) (e : ParallelExecutor) : ParallelExecutor :=
  let m := x_metrics e in with_executor_metrics (mkExecutorMetrics (total_executed m) (conflicts_detected m) (wrap 64 (retries m + wrap 64 n)) (parallel_speedup m)) e.

(** ** One transaction *)

Definition context_new (m : StateManager) : ExecutionContext := mkContext m ∅.
Definition context_from_snapshot (s : StateSnapshot) : ExecutionContext := mkContext (from_snapshot s) ∅.
Definition get_changes (c : ExecutionContext) : gmap (list Z) StateChanges := context_changes c.
(** What is drawn for one of the two addresses, and for the transaction. *)
Record Touch := mkTouch { t_address : list Z; t_read : list Z; t_write : list Z; t_value : list Z }.
Record Draws := mkDraws { first_touch : Touch; second_touch : Touch; d_hash : list Z; d_from : list Z; d_to : list Z }.
Definition touch_account (t : Touch) (a : AccessSet) : AccessSet := add_write (t_address t) (t_write t) (t_value t) (add_read (t_address t) (t_read t) a).
(** The context is not touched. *)
Definition simulate_execution (d : Draws) (i : nat) (c : ExecutionContext) (a : AccessSet) : Receipt * ExecutionContext * AccessSet :=
  (mkReceipt (d_hash d) (Z.of_nat i) (replicate 32 0) 0 (d_from d) (Some (d_to d)) 21000 (Some 21000) None [] (replicate 256 0) (Some 1) None,
   c, touch_account (second_touch d) (touch_account (first_touch d) a)).
Definition execute_single_transaction (d : Draws) (i : nat) (snapshot : option StateSnapshot) (e : ParallelExecutor) : TransactionResult :=
  let c := match snapshot with Some s => context_from_snapshot s | None => context_new (state_manager e) end in
  let '(r, c, a) := simulate_execution d i c access_new in
  mkResult i r a (get_changes c).
(** The worker threads send their results in the order [arrive]. *)
Definition execute_parallel_batch (pool_built : bool) (draws : nat -> Draws) (arrive : list TransactionResult -> list TransactionResult) (batch : list nat) : M (list TransactionResult) :=
  (if pool_built then sret tt else sfail (ExecutionFailed "The thread pool could not be built")) ;;!
  let! e := sget in
  let! snapshot := (if speculative_execution (x_config e) then
      let '(s, m) := manager_snapshot (state_manager e) in sput (with_manager m e) ;;! sret (Some s)
    else sret None) in
  let! e := sget in
  sret (arrive (map (fun i => execute_single_transaction (draws i) i snapshot e) batch)).

(** ** Conflicts *)

Section group.
Context {A : Type} (conflict : A -> A -> bool).
(** The results from position [j] on that conflict with the leader [x]: those
    that are already in a group are taken again. *)
Fixpoint conflicting (x : A) (j : nat) (l : list A) (processed : gset nat) : list A * gset nat :=
  match l with
  | [] => ([], processed)
  | y :: l =>
      if conflict x y then let '(group, processed) := conflicting x (S j) l ({[j]} ∪ processed) in (y :: group, processed)
      else conflicting x (S j) l processed
  end.
Fixpoint group_from (i : nat) (l : list A) (processed : gset nat) : list (list A) :=
  match l with
  | [] => []
  | x :: l =>
      if bool_decide (i ∈ processed) then group_from (S i) l processed else
      let '(group, processed) := conflicting x (S i) l ({[i]} ∪ processed) in
      (x :: group) :: group_from (S i) l processed
  end.
End group.
Definition results_conflict (r r' : TransactionResult) : bool := conflicts (access_set r) (access_set r').
Definition groups_of (results : list TransactionResult) : list (list TransactionResult) := group_from results_conflict 0 results ∅.
Definition group_by_conflicts (results : list TransactionResult) : M (list (list TransactionResult)) :=
  let groups := groups_of results in
  smodify (Nat.iter (sum_list (map (fun g => length g - 1)%nat groups)) count_conflict) ;;!
  sret groups.

Section commit.
Context `{U256Ops}.
Definition validate_result (r : TransactionResult) (e : ParallelExecutor) : bool :=
  forallb (fun c : list Z * StateChanges => can_apply c.1 c.2 (state_manager e)) (map_to_list (state_changes r)).
Definition commit_result (r : TransactionResult) : M unit :=
  smodify (fun e => with_manager (apply_changes (state_changes r) (state_manager e)) e) ;;!
  smodify count_executed.
Definition to_executed_tx (r : TransactionResult) : ExecutedTransaction := mkExecuted (transaction_hash (receipt r)) (receipt r) (access_set r).
Definition to_failed_tx (r : TransactionResult) (error : string) : FailedTransaction := mkFailed (transaction_hash (receipt r)) error true.
Definition retry_transaction (d : Draws) (r : TransactionResult) : M ExecutedTransaction :=
  let! e := sget in
  let new_result := execute_single_transaction d (tx_index r) None e in
  if validate_result new_result e then commit_result new_result ;;! sret (to_executed_tx new_result)
  else sfail (ExecutionFailed "Retry failed").
Definition merge_results (results : list TransactionResult) : option TransactionResult := match results with [r] => Some r | _ => None end.

(** What has been executed, has failed and is to be retried. *)
Record Outcome := mkOutcome { o_executed : list ExecutedTransaction; o_failed : list FailedTransaction; retry_queue : list TransactionResult }.
Definition push_executed (r : TransactionResult) (o : Outcome) : Outcome := mkOutcome (o_executed o ++ [to_executed_tx r]) (o_failed o) (retry_queue o).
Definition push_failed (r : TransactionResult) (o : Outcome) : Outcome := mkOutcome (o_executed o) (o_failed o ++ [to_failed_tx r "Conflict detected"]) (retry_queue o).
Definition push_retry (r : TransactionResult) (o : Outcome) : Outcome := mkOutcome (o_executed o) (o_failed o) (retry_queue o ++ [r]).
Fixpoint commit_each (g : list TransactionResult) (o : Outcome) : M Outcome :=
  match g with
  | [] => sret o
  | r :: g => commit_result r ;;! commit_each g (push_executed r o)
  end.
Fixpoint retry_each (g : list TransactionResult) (o : Outcome) : M Outcome :=
  match g with
  | [] => sret o
  | r :: g =>
      let! e := sget in
      if validate_result r e then commit_result r ;;! retry_each g (push_executed r o) else retry_each g (push_retry r o)
  end.
Definition resolve_group (how : ConflictResolution) (g : list TransactionResult) (o : Outcome) : M Outcome :=
  match how with
  | Retry => retry_each g o
  | Abort_ =>
      let! e := sget in
      if forallb (fun r => validate_result r e) g then commit_each g o else sret (fold_left (fun o r => push_failed r o) g o)
  | Merge => match merge_results g with Some r => commit_each [r] o | None => sret o end
  end.
Fixpoint resolve_groups (how : ConflictResolution) (gs : list (list TransactionResult)) (o : Outcome) : M Outcome :=
  match gs with
  | [] => sret o
  | g :: gs => let! o := resolve_group how g o in resolve_groups how gs o
  end.
(** The text of an error. *)
Definition error_text (e : ParallelExecutionError) : string :=
  match e with
  | ExecutionFailed s => "Execution failed: " +:+ s
  | ConflictDetected s => "Conflict detected: " +:+ s
  | SchedulingError s => "Scheduling error: " +:+ s
  | StateError s => "State error: " +:+ s
  | ValidationFailed s => "Validation failed: " +:+ s
  end.
(** [redraws k] is drawn for the [k]-th retry, and the hash for its failure. *)
Fixpoint retry_queued (redraws : nat -> Draws * list Z) (l : list TransactionResult) (x : list ExecutedTransaction * list FailedTransaction) : M (list ExecutedTransaction * list FailedTransaction) :=
  match l with
  | [] => sret x
  | r :: l => fun e =>
      let '(d, h) := redraws O in
      match retry_transaction d r e with
      | (Ok retried, e) => retry_queued (fun k => redraws (S k)) l (x.1 ++ [retried], x.2) e
      | (Err err, e) => retry_queued (fun k => redraws (S k)) l (x.1, x.2 ++ [mkFailed h (error_text err) false]) e
      | (Panic, e) => (Panic, e)
      | (Diverge, e) => (Diverge, e)
      end
  end.
Definition validate_and_commit (redraws : nat -> Draws * list Z) (results : list TransactionResult) : M (list ExecutedTransaction * list FailedTransaction) :=
  let! groups := group_by_conflicts results in
  let! e := sget in
  let how := conflict_resolution (x_config e) in
  let! o := resolve_groups how groups (mkOutcome [] [] []) in
  match retry_queue o, how with
  | _ :: _, Retry => smodify (count_retries (len (retry_queue o))) ;;! retry_queued redraws (retry_queue o) (o_executed o, o_failed o)
  | _, _ => sret (o_executed o, o_failed o)
  end.
Fixpoint total_gas (acc : Z) (l : list ExecutedTransaction) : PM Z :=
  match l with
  | [] => Ok acc
  | t :: l => let? acc := unwrap (u_add acc (default 0 (gas_used (e_receipt t)))) in total_gas acc l
  end.
Definition calculate_total_gas (l : list ExecutedTransaction) : PM Z := total_gas 0 l.
End commit.

(** ** Batches *)

Section batches.
Context {T : Type} `{TxView T} `{GraphOps} `{U256Ops} `{ToBeBytes} `{KeccakOps}.

Fixpoint execute_batches (pools : nat -> bool) (draws : nat -> nat -> Draws) (arrive : list TransactionResult -> list TransactionResult) (bs : list (list nat)) : M (list TransactionResult) :=
  match bs with
  | [] => sret []
  | b :: bs =>
      let! rs := execute_parallel_batch (pools O) (draws O) arrive b in
      let! rest := execute_batches (fun k => pools (S k)) (fun k => draws (S k)) arrive bs in
      sret (rs ++ rest)
  end.
(** The scheduler and the conflict detector work on their own parts. *)
Definition on_detector {A} (m : SM ConflictDetector ParallelExecutionError A) : M A :=
  fun e => let '(r, c) := m (conflict_detector e) in (r, with_detector c e).
Definition execute_batch (pools : nat -> bool) (draws : nat -> nat -> Draws) (arrive : list TransactionResult -> list TransactionResult)
    (redraws : nat -> Draws * list Z) (elapsed_ms : Z) (txs : list T) : M ExecutionResult :=
  let! g := on_detector (build_dependency_graph txs) in
  let! e := sget in
  let! s := slift (schedule (scheduler e) g txs) in
  let! all := execute_batches pools draws arrive (batches s) in
  let! final := validate_and_commit redraws all in
  let! e := sget in
  let! gas := slift (calculate_total_gas final.1) in
  sret (mkExecution final.1 final.2 (compute_state_root (state_manager e)) gas (wrap 64 elapsed_ms)).
Definition get_executor_metrics (e : ParallelExecutor) : ExecutorMetrics := x_metrics e.
End batches.

(** ** validator.rs *)

Inductive ValidationMismatch :=
| CountMismatch (parallel sequential : Z)
| TransactionMismatch (parallel_hash sequential_hash : list Z)
| StatusMismatch (tx_hash : list Z) (parallel_status sequential_status : option Z)
| GasMismatch (tx_hash : list Z) (parallel_gas sequential_gas : option Z)
| LogMismatch (tx_hash : list Z) (parallel_logs sequential_logs : Z).
Record ValidationResult := mkValidation { is_valid : bool; mismatches : list ValidationMismatch }.
Record ParallelValidator := mkValidator { sequential_results : gmap (list Z) Receipt }.
Definition validator_new : ParallelValidator := mkValidator ∅.
Definition compare_pair (p s : ExecutedTransaction) : list ValidationMismatch :=
  (if bool_decide (e_tx_hash p = e_tx_hash s) then [] else [TransactionMismatch (e_tx_hash p) (e_tx_hash s)]) ++
  (if bool_decide (status (e_receipt p) = status (e_receipt s)) then [] else [StatusMismatch (e_tx_hash p) (status (e_receipt p)) (status (e_receipt s))]) ++
  (if bool_decide (gas_used (e_receipt p) = gas_used (e_receipt s)) then [] else [GasMismatch (e_tx_hash p) (gas_used (e_receipt p)) (gas_used (e_receipt s))]) ++
  (if len (logs (e_receipt p)) =? len (logs (e_receipt s)) then [] else [LogMismatch (e_tx_hash p) (len (logs (e_receipt p))) (len (logs (e_receipt s)))]).
Definition validate (parallel sequential : list ExecutedTransaction) : ValidationResult :=
  if negb (len parallel =? len sequential) then mkValidation false [CountMismatch (len parallel) (len sequential)] else
  let ms := concat (zip_with compare_pair parallel sequential) in
  mkValidation (bool_decide (ms = [])) ms.
Definition add_sequential_result (h : list Z) (r : Receipt) (v : ParallelValidator) : ParallelValidator := mkValidator (<[h := r]> (sequential_results v)).
Definition receipts_match (r1 r2 : Receipt) : bool :=
  bool_decide (status r1 = status r2) && bool_decide (gas_used r1 = gas_used r2) && (len (logs r1) =? len (logs r2)) && bool_decide (logs_bloom r1 = logs_bloom r2).
(** The text shows the hash. *)
Definition validate_transaction (shown : list Z -> string) (h : list Z) (r : Receipt) (v : ParallelValidator) : PM bool :=
  match sequential_results v !! h with
  | Some s => Ok (receipts_match r s)
  | None => Err (ValidationFailed ("No sequential result for transaction " +:+ shown h))
  end.
End ParallelExecutor.
