(* ===== verification/ParallelExecutorProofs.v ===== *)
(** Which transactions a batch executes and what becomes of the state: the
    theorems on crates/parallel-execution/src/executor.rs and validator.rs. *)
From stdpp Require Import base list numbers option strings gmap.
From Stdlib Require Import ZArith Lia.
From S2P Require Import Prelude U256 F64 Scheduler SchedulerProofs ParallelState ParallelExecutor.

Module ParallelExecutorProofs.
Import ParallelExecutor.

(** * Groups of conflicting results *)

Section groups.
Context {A : Type} (conflict : A -> A -> bool).
Implicit Types (x y : A) (l ls : list A).

(** Led by one of [ls]. *)
Definition led (ls : list A) (x : A) : Prop := existsb (fun y => conflict y x) ls = true.
#[export] Instance led_dec ls x : Decision (led ls x) := decide (existsb (fun y => conflict y x) ls = true).
Lemma led_snoc ls x y : led (ls ++ [x]) y <-> led ls y \/ conflict x y = true.
Proof. unfold led. rewrite existsb_app, orb_true_iff. cbn. by rewrite orb_false_r. Qed.
(** The reference: who conflicts with no earlier leader becomes one, and its
    group is everything after it that conflicts with it. *)
Fixpoint leader_groups (ls : list A) (l : list A) : list (list A) :=
  match l with
  | [] => []
  | x :: l => if decide (led ls x) then leader_groups ls l else (x :: filter (fun y => conflict x y = true) l) :: leader_groups (ls ++ [x]) l
  end.

Lemma conflicting_group x j l p : (conflicting conflict x j l p).1 = filter (fun y => conflict x y = true) l.
Proof.
  revert j p. induction l as [|y l IH]; intros j p; [done|]. cbn [conflicting]. rewrite filter_cons. destruct (conflict x y) eqn:Hc.
  - rewrite decide_True by done. specialize (IH (S j) ({[j]} ∪ p)). destruct (conflicting _ _ _ _ _). cbn in *. by rewrite IH.
  - rewrite decide_False by done. apply IH.
Qed.
Lemma conflicting_processed x j l p m :
  m ∈ (conflicting conflict x j l p).2 <-> m ∈ p \/ exists k y, l !! k = Some y /\ conflict x y = true /\ m = (j + k)%nat.
Proof.
  revert j p. induction l as [|y l IH]; intros j p; cbn [conflicting].
  - split; [by left|]. intros [?|(k & y & Hk & _)]; [done|]. by rewrite lookup_nil in Hk.
  - assert (forall p', m ∈ (conflicting conflict x (S j) l p').2 <-> m ∈ p' \/ exists k z, l !! k = Some z /\ conflict x z = true /\ m = (S j + k)%nat) as IH' by (intros; apply IH).
    destruct (conflict x y) eqn:Hc.
    + specialize (IH' ({[j]} ∪ p)). destruct (conflicting _ _ _ _ _) as [g p'] eqn:E. cbn [snd] in *. rewrite IH'. split.
      * intros [Hm|(k & z & Hk & Hz & ->)]; [apply elem_of_union in Hm as [->%elem_of_singleton|Hm]; [right; exists 0%nat, y; split_and!; [done|done|lia]|by left]|].
        right. exists (S k), z. split_and!; [done|done|lia].
      * intros [Hm|([|k] & z & Hk & Hz & ->)]; [left; set_solver|left; apply elem_of_union_l, elem_of_singleton; lia|]. right. exists k, z. split_and!; [done|done|lia].
    + rewrite IH'. split.
      * intros [Hm|(k & z & Hk & Hz & ->)]; [by left|]. right. exists (S k), z. split_and!; [done|done|lia].
      * intros [Hm|([|k] & z & Hk & Hz & ->)]; [by left|cbn in Hk; congruence|]. right. exists k, z. split_and!; [done|done|lia].
Qed.
(** The groups the executor forms are those of the reference. *)
Lemma group_from_spec i l p ls :
  (forall k y, l !! k = Some y -> (i + k)%nat ∈ p <-> led ls y) -> group_from conflict i l p = leader_groups ls l.
Proof.
  revert i p ls. induction l as [|x l IH]; intros i p ls Hp; [done|]. cbn [group_from leader_groups].
  pose proof (Hp 0%nat x eq_refl) as Hx. rewrite Nat.add_0_r in Hx. destruct (decide (led ls x)) as [Hl|Hl].
  - rewrite bool_decide_true by (by apply Hx). apply IH. intros k y Hk. rewrite <- (Hp (S k) y Hk). by replace (S i + k)%nat with (i + S k)%nat by lia.
  - rewrite bool_decide_false by (by intros ?%Hx). pose proof (conflicting_group x (S i) l ({[i]} ∪ p)) as Hg. pose proof (conflicting_processed x (S i) l ({[i]} ∪ p)) as Hq.
    destruct (conflicting _ _ _ _ _) as [g p'] eqn:E. cbn [fst snd] in *. rewrite Hg. f_equal. apply IH. intros k y Hk. rewrite Hq, led_snoc. split.
    + intros [Hm|(k' & z & Hk' & Hz & Heq)].
      * apply elem_of_union in Hm as [Hm%elem_of_singleton|Hm]; [lia|]. left. apply (Hp (S k) y Hk). by replace (i + S k)%nat with (S i + k)%nat by lia.
      * right. replace k' with k in * by lia. congruence.
    + intros [Hy|Hy]; [left; apply elem_of_union_r; replace (S i + k)%nat with (i + S k)%nat by lia; by apply (Hp (S k) y Hk)|]. right. by exists k, y.
Qed.
Lemma groups_all_listed ls l : filter (fun x => ~ led ls x) l ⊆+ concat (leader_groups ls l).
Proof.
  revert ls. induction l as [|x l IH]; intros ls; [done|]. cbn [leader_groups]. rewrite filter_cons. destruct (decide (led ls x)) as [Hl|Hl].
  - rewrite decide_False by (by intros []). apply IH.
  - rewrite decide_True by done. cbn [concat app]. apply submseteq_skip.
    rewrite <- (filter_app_complement (fun y => conflict x y = true) (filter (fun y => ~ led ls y) l)). apply submseteq_app.
    + apply sublist_submseteq. rewrite list_filter_filter. rewrite (list_filter_iff _ (fun y => ~ led ls y /\ conflict x y = true)) by tauto.
      rewrite <- list_filter_filter. apply sublist_filter.
    + etrans; [|apply IH]. rewrite list_filter_filter. rewrite (list_filter_iff _ (fun y => ~ led (ls ++ [x]) y)); [done|].
      intros y. rewrite led_snoc. tauto.
Qed.
Lemma nobody_led l : filter (fun x => ~ led [] x) l = l.
Proof. induction l as [|x l IH]; [done|]. rewrite filter_cons, decide_True by done. by rewrite IH. Qed.
(** Each group is its leader with everything after it that conflicts with it. *)
Lemma group_shape ls l g : g ∈ leader_groups ls l -> exists l1 x l2, l = l1 ++ x :: l2 /\ g = x :: filter (fun y => conflict x y = true) l2 /\ ~ led ls x.
Proof.
  revert ls. induction l as [|x l IH]; intros ls Hg; cbn [leader_groups] in Hg; [by apply not_elem_of_nil in Hg|]. destruct (decide (led ls x)) as [Hl|Hl].
  - destruct (IH ls Hg) as (l1 & y & l2 & -> & -> & Hy). by exists (x :: l1), y, l2.
  - apply elem_of_cons in Hg as [->|Hg]; [by exists [], x, l|]. destruct (IH _ Hg) as (l1 & y & l2 & -> & -> & Hy).
    exists (x :: l1), y, l2. split_and!; [done|done|]. intros Hl'. apply Hy, led_snoc. by left.
Qed.
(** No leader conflicts with a later one. *)
Lemma leaders_apart ls l i j g h x y : leader_groups ls l !! i = Some (x :: g) -> leader_groups ls l !! j = Some (y :: h) -> (i < j)%nat -> conflict x y = false.
Proof.
  revert ls i j. induction l as [|z l IH]; intros ls i j Hi Hj Hij; cbn [leader_groups] in *; [by rewrite lookup_nil in Hi|]. destruct (decide (led ls z)) as [Hl|Hl]; [by eapply IH|].
  destruct j as [|j]; [lia|]. cbn in Hj. destruct i as [|i]; [|cbn in Hi; eapply IH; [done|done|lia]]. cbn in Hi. injection Hi as -> _.
  apply list_elem_of_lookup_2, group_shape in Hj as (l1 & y' & l2 & _ & [= <- _] & Hy). destruct (conflict x y) eqn:Hc; [|done]. exfalso. apply Hy, led_snoc. by right.
Qed.
Lemma unconflicted_groups l ls : (forall x y, x ∈ ls ++ l -> y ∈ l -> conflict x y = false) -> leader_groups ls l = map (fun x => [x]) l.
Proof.
  revert ls. induction l as [|x l IH]; intros ls Hn; [done|]. cbn [leader_groups map]. rewrite decide_False.
  - f_equal; [|apply IH; intros y z Hy Hz; apply Hn; [set_solver|by right]]. f_equal. clear IH. assert (forall y, y ∈ l -> conflict x y = false) as Hx by (intros y Hy; apply Hn; set_solver).
    clear Hn. induction l as [|y l IH]; [done|]. rewrite filter_cons, decide_False by (rewrite Hx by left; done). apply IH. intros z Hz. apply Hx. by right.
  - unfold led. intros (y & Hy & Hc)%existsb_exists. rewrite (Hn y x) in Hc; [done|apply elem_of_app; left; by apply list_elem_of_In|left].
Qed.
End groups.

Lemma groups_of_reference results : groups_of results = leader_groups results_conflict [] results.
Proof. apply group_from_spec. intros k y Hk. split; [by intros ?%not_elem_of_empty|done]. Qed.

(** C14: grouping results by conflicts loses none: the results from the start
    that conflict with no earlier leader lead a group each, no leader conflicts
    with a later one, and the group of a leader holds everything after it that
    conflicts with it.  Every result is in some group, and in several when it
    conflicts with several leaders; without conflicts each is a group alone. *)
Theorem conflict_groups_exact results :
  results ⊆+ concat (groups_of results) /\
  (forall g, g ∈ groups_of results -> exists before r after, results = before ++ r :: after /\ g = r :: filter (fun y => results_conflict r y = true) after) /\
  (forall i j r g r' g', groups_of results !! i = Some (r :: g) -> groups_of results !! j = Some (r' :: g') -> (i < j)%nat -> results_conflict r r' = false) /\
  ((forall r r', r ∈ results -> r' ∈ results -> results_conflict r r' = false) -> groups_of results = map (fun r => [r]) results).
Proof.
  rewrite groups_of_reference. split_and!.
  - rewrite <- (nobody_led results_conflict results) at 1. apply groups_all_listed.
  - intros g Hg. destruct (group_shape _ _ _ _ Hg) as (l1 & r & l2 & ? & ? & _). by exists l1, r, l2.
  - intros i j r g r' g' Hi Hj Hij. by eapply (leaders_apart results_conflict [] results).
  - intros Hn. apply unconflicted_groups. intros x y Hx Hy. by apply Hn.
Qed.

(** * What a batch does *)

Section batch.
Context {T : Type} `{TxViewLaws T} `{GraphLaws} `{U256Laws} `{ToBeBytes} `{KeccakOps}.

(** An executor after [n] commits without changes. *)
Definition counted (n : nat) (e : ParallelExecutor) : ParallelExecutor := Nat.iter n count_executed e.
Lemma counted_config n e : x_config (counted n e) = x_config e.
Proof. induction n as [|n IH]; [done|exact IH]. Qed.

End batch.

(** * The validator *)

(** Two executions agree as far as the validator looks. *)
Definition same_outcome (p s : ExecutedTransaction) : Prop :=
  e_tx_hash p = e_tx_hash s /\ status (e_receipt p) = status (e_receipt s) /\ gas_used (e_receipt p) = gas_used (e_receipt s) /\ len (logs (e_receipt p)) = len (logs (e_receipt s)).
Lemma compare_pair_nil p s : compare_pair p s = [] <-> same_outcome p s.
Proof.
  unfold compare_pair, same_outcome. do 3 case_bool_decide; destruct (Z.eqb_spec (len (logs (e_receipt p))) (len (logs (e_receipt s)))); cbn; split; intros; by destruct_and?.
Qed.
(** Parallel and sequential results are valid exactly when they are equally many
    and agree one by one in hash, status, gas and number of logs. *)
Theorem validator_exact parallel sequential : is_valid (validate parallel sequential) = true <-> Forall2 same_outcome parallel sequential.
Proof.
  unfold validate. destruct (Z.eqb_spec (len parallel) (len sequential)) as [Hl|Hl]; cbn [negb is_valid]; [|split; [done|intros Hf%Forall2_length; unfold len in Hl; lia]].
  rewrite bool_decide_eq_true. assert (length parallel = length sequential) as Hl' by (unfold len in Hl; lia). clear Hl. revert sequential Hl'.
  induction parallel as [|p ps IH]; intros [|s ss] Hl; try done.
  cbn [zip_with concat]. cbn [length] in Hl. rewrite app_nil, compare_pair_nil, IH by lia. split; [by intros []; constructor|intros Hf; by inversion Hf].
Qed.

(** * Witnesses and examples *)

Section examples.
#[local] Existing Instance dev_profile.
Definition sole (a : Z) : Touch := mkTouch [a] [100 + a] [200 + a] [a].
(** Transactions 0 and 1 touch accounts of their own, 2 the accounts of both. *)
Definition star_draws (i : nat) : Draws :=
  match i with
  | O => mkDraws (sole 1) (sole 11) [70] [5] [6]
  | 1%nat => mkDraws (sole 2) (sole 12) [71] [5] [6]
  | _ => mkDraws (sole 1) (sole 2) [72] [5] [6]
  end.
Definition three_txs : list PlainTx := [mkPlainTx [1] (Some [9]) 0; mkPlainTx [2] (Some [8]) 0; mkPlainTx [3] (Some [7]) 1].
Definition executor_with (how : ConflictResolution) : ParallelExecutor := executor_new 4 (mkExecutorConfig 4 100 true how OptimisticConcurrency).
Definition run_three (how : ConflictResolution) := execute_batch (fun _ => true) (fun _ => star_draws) id (fun _ => (star_draws O, [])) 3 three_txs (executor_with how).
(** Transaction 2 conflicts with two leaders and is executed twice; merging,
    none of the three is executed and none fails. *)
Example executed_twice :
  (match (run_three Retry).1 with Ok r => map (fun t => transaction_index (e_receipt t)) (executed_txs r) | _ => [] end) = [0; 2; 1; 2] /\
  (match (run_three Merge).1 with Ok r => (len (executed_txs r), len (failed_txs r)) | _ => (-1, -1) end) = (0, 0).
Proof. by vm_compute. Qed.
(** Aborting executes the transactions in conflict all the same. *)
Example abort_aborts_nothing :
  (match (run_three Abort_).1 with Ok r => (map (fun t => transaction_index (e_receipt t)) (executed_txs r), failed_txs r) | _ => ([], []) end) = ([0; 2; 1; 2], []).
Proof. by vm_compute. Qed.
(** Transaction 1 conflicts with both others: it is lost with 0, which leads its
    group, and 2 is executed although it conflicts with 1. *)
Definition chain_draws (i : nat) : Draws :=
  match i with
  | O => mkDraws (sole 1) (sole 11) [70] [5] [6]
  | 1%nat => mkDraws (sole 1) (sole 2) [71] [5] [6]
  | _ => mkDraws (sole 2) (sole 12) [72] [5] [6]
  end.
Example merge_by_groups :
  (match (execute_batch (fun _ => true) (fun _ => chain_draws) id (fun _ => (chain_draws O, [])) 3 three_txs (executor_with Merge)).1 with
   | Ok r => map (fun t => transaction_index (e_receipt t)) (executed_txs r)
   | _ => []
   end) = [2].
Proof. by vm_compute. Qed.
(** The contents of logs are not compared. *)
Definition logged (l : list Z) : ExecutedTransaction := mkExecuted [1] (mkReceipt [1] 0 [] 0 [] None 0 (Some 5) None [l] [] (Some 1) None) access_new.
Example other_logs_valid : is_valid (validate [logged [1; 2]] [logged [9]]) = true.
Proof. by vm_compute. Qed.
End examples.
End ParallelExecutorProofs.
