(* ===== verification/Authorization.v ===== *)
(** Authorizations of EIP-7702: the signing and checking of
    crates/core/src/eip7702.rs, whose data and codecs are in Transaction.v.
    The crate calls a [recover_address] with a recovery id and the two halves of
    the signature, which crates/crypto does not have: it is the class
    [RecoverParts]. *)
From stdpp Require Import base list numbers option strings.
From Stdlib Require Import ZArith Lia.
From S2P Require Import Prelude U256 Rlp Precompiled Crypto Transaction.

Module Authorization.

Inductive Eip7702Error := InvalidSignature | InvalidChainId | NonceMismatch | Expired | InvalidAuthority.
Notation R := (outcome Eip7702Error).
Class RecoverParts := { recover_parts : list Z -> Z -> list Z -> list Z -> option (list Z) }.

Section authorization.
Context `{U256Ops} `{KeccakOps} `{CryptoOps} `{SignOps} `{RecoverParts} `{Profile}.

Definition authorization_new (chain_id : Z) (address : list Z) (nonce : Z) : Authorization := mkAuthorization chain_id address nonce false 0 0.
(** The fields one after the other, with no list around them. *)
Definition authorization_signing_hash (a : Authorization) : Infallible (list Z) :=
  let? e := encode impl_u64 (auth_chain_id a) encoder_new in
  let? e := encode impl_Address (auth_address a) e in
  let? e := encode impl_U256 (auth_nonce a) e in
  Ok (keccak256 ([0x05] ++ finish e)).
Definition signature_error {A} (m : outcome CryptoError A) : R A :=
  match m with Ok a => Ok a | Err _ => Err InvalidSignature | Panic => Panic | Diverge => Diverge end.
Definition authorization_sign (private_key : list Z) : SM Authorization Eip7702Error unit :=
  let! a := sget in
  let! message := slift (lift_ok (authorization_signing_hash a)) in
  let! sg := slift (signature_error (sign_message message private_key)) in
  let! r := slift (unwrap (u_from_big_endian (sig_r sg))) in
  let! s := slift (unwrap (u_from_big_endian (sig_s sg))) in
  sput (mkAuthorization (auth_chain_id a) (auth_address a) (auth_nonce a) (sig_v sg =? 1) r s).
(** The end of [verify] and of [sender]. *)
Definition recover_signer (message : list Z) (y_parity : bool) (r s : Z) : R (list Z) :=
  match recover_parts message (if y_parity then 1 else 0) (u_to_big_endian r) (u_to_big_endian s) with
  | Some a => Ok a
  | None => Err InvalidSignature
  end.
Definition authorization_verify (a : Authorization) : R (list Z) :=
  let? message := lift_ok (authorization_signing_hash a) in
  recover_signer message (auth_y_parity a) (auth_r a) (auth_s a).
Definition eip7702_sender (t : Eip7702.tx) : R (list Z) :=
  let? message := lift_ok (Eip7702.signing_hash t) in
  recover_signer message (Eip7702.y_parity t) (Eip7702.r t) (Eip7702.s t).
Fixpoint validate_loop (chain_id : Z) (l : list Authorization) (delegations : list (list Z * list Z)) : R (list (list Z * list Z)) :=
  match l with
  | [] => Ok delegations
  | auth :: l =>
      if negb (is_valid_for_chain chain_id auth) then Err InvalidChainId else
      let? authority := authorization_verify auth in
      validate_loop chain_id l (delegations ++ [(authority, auth_address auth)])
  end.
Definition validate_authorizations (chain_id : Z) (t : Eip7702.tx) : R (list (list Z * list Z)) := validate_loop chain_id (Eip7702.authorization_list t) [].
Definition delegation_new (authority implementation : list Z) (nonce : Z) : DelegatedAccount := mkDelegatedAccount authority implementation nonce.
End authorization.

(** * What a signature and a list of authorizations give *)

(** What the missing function is called for: the address of the key that
    secp256k1 recovers. *)
Class RecoverPartsLaws `{RecoverParts} `{KeccakOps} `{CryptoOps} : Prop := {
  recover_parts_law message id r s key a : secp_recover message id (r ++ s) = Some key -> public_key_to_address (E := CryptoError) key = Ok a ->
    recover_parts message id r s = Some a;
}.

Section proofs.
Context `{U256Laws} `{KeccakLaws} `{SignLaws} `{!RecoverParts} `{!RecoverPartsLaws} `{Profile}.

Lemma half_roundtrip b : bytes b -> len b = 32 -> u_from_big_endian b = Some (from_be b) /\ u_to_big_endian (from_be b) = b.
Proof.
  intros Hb Hl. rewrite from_big_endian_law by done. rewrite Hl. split; [done|]. pose proof (from_be_bound b Hb) as Hf. rewrite Hl in Hf.
  rewrite to_big_endian_law by exact Hf. replace 32%nat with (length b) by (unfold len in Hl; lia). by apply to_be_from_be.
Qed.
(** The hash does not look at the signature. *)
Lemma signing_hash_of_signed a y r s : authorization_signing_hash (mkAuthorization (auth_chain_id a) (auth_address a) (auth_nonce a) y r s) = authorization_signing_hash a.
Proof. done. Qed.

(** An authorization signed with a key is verified as one of that key when the
    recovery id of the signature is 0; the other ids are lost, since the parity
    bit is compared with 1 where the signature holds 27 or more, and the
    signature is then checked against id 0. *)
Theorem signed_authorization_verifies a k h : authorization_signing_hash a = Ok h ->
  exists a' signer, authorization_sign k a = (Ok tt, a') /\ auth_y_parity a' = false /\ public_key_to_address (E := CryptoError) (secp_public_key k) = Ok signer /\
    ((secp_sign h k).1 = 0 -> authorization_verify a' = Ok signer) /\
    authorization_verify a' = match recover_parts h 0 (take 32 (secp_sign h k).2) (drop 32 (secp_sign h k).2) with Some x => Ok x | None => Err InvalidSignature end.
Proof.
  intros Hh. destruct (sign_message_ok h k) as (v & Hs & Hv). pose proof (sign_recovery_id h k) as Hid. pose proof (sign_bytes h k) as [Hb Hl].
  destruct (half_roundtrip (take 32 (secp_sign h k).2)) as [Hr Hr']; [by apply Forall_take|unfold len in *; rewrite length_take; lia|].
  destruct (half_roundtrip (drop 32 (secp_sign h k).2)) as [Hs1 Hs2]; [by apply Forall_drop|unfold len in *; rewrite length_drop; lia|].
  destruct (address_of_key (E := CryptoError) k) as (signer & Ha & _). unfold authorization_sign. rewrite sbind_get, Hh. cbn [lift_ok]. rewrite sbind_lift, Hs. cbn [signature_error].
  rewrite sbind_lift. cbn [sig_r sig_s sig_v]. rewrite Hr; cbn [unwrap]; rewrite sbind_lift, Hs1; cbn [unwrap]; rewrite sbind_lift. rewrite (proj2 (Z.eqb_neq _ _)) by lia. exists (mkAuthorization (auth_chain_id a) (auth_address a) (auth_nonce a) false (from_be (take 32 (secp_sign h k).2)) (from_be (drop 32 (secp_sign h k).2))), signer.
  assert (forall id, id = (secp_sign h k).1 -> recover_parts h id (take 32 (secp_sign h k).2) (drop 32 (secp_sign h k).2) = Some signer) as Hrec.
  { intros id ->. eapply recover_parts_law; [|exact Ha]. by rewrite take_drop, recover_sign. }
  split_and!; [done|done|done| |]; unfold authorization_verify, recover_signer; rewrite signing_hash_of_signed, Hh; cbn [lift_ok obind auth_y_parity auth_r auth_s]; rewrite Hr', Hs2; [|done].
  intros Hz. by rewrite (Hrec 0).
Qed.

(** The authorizations of a transaction are all for the chain and verify, and
    then give the delegations in their order, or the first that is not decides
    the error; nonces are not looked at. *)
Theorem delegations_exact chain_id t ds :
  validate_authorizations chain_id t = Ok ds <->
  Forall2 (fun auth d => auth_chain_id auth = chain_id /\ authorization_verify auth = Ok d.1 /\ d.2 = auth_address auth) (Eip7702.authorization_list t) ds.
Proof.
  unfold validate_authorizations. enough (forall l acc, validate_loop chain_id l acc = Ok ds <->
    exists rest, ds = acc ++ rest /\ Forall2 (fun auth d => auth_chain_id auth = chain_id /\ authorization_verify auth = Ok d.1 /\ d.2 = auth_address auth) l rest) as Hl.
  { rewrite Hl. split; [by intros (rest & -> & ?)|]. intros Hf. by exists ds. }
  induction l as [|auth l IH]; intros acc; cbn [validate_loop].
  - split; [intros [= ->]; exists []; by rewrite app_nil_r|]. intros (rest & -> & Hf%Forall2_nil_inv_l). by rewrite Hf, app_nil_r.
  - unfold is_valid_for_chain. destruct (Z.eqb_spec (auth_chain_id auth) chain_id) as [Hc|Hc]; cbn [negb].
    + destruct (authorization_verify auth) as [a|e| |] eqn:Hv; cbn [obind];
        [|split; [done|intros (rest & _ & (d & rest' & (_ & ? & _) & _ & _)%Forall2_cons_inv_l); congruence]..].
      rewrite IH. split.
      * intros (rest & -> & Hf). exists ((a, auth_address auth) :: rest). rewrite <- app_assoc. split; [done|]. by constructor.
      * intros (rest & -> & ([x y] & rest' & (_ & Hx & Hy) & Hf & ->)%Forall2_cons_inv_l). cbn in Hx, Hy. rewrite Hv in Hx. injection Hx as <-. subst y. exists rest'. by rewrite <- app_assoc.
    + split; [done|]. intros (rest & _ & (d & rest' & (? & _) & _)%Forall2_cons_inv_l). done.
Qed.
End proofs.

(** * A concrete instance *)

(** Recovery by the id and the halves, as the address of what secp256k1 finds. *)
#[export] Instance parts_model `{KeccakOps} `{CryptoOps} : RecoverParts := {|
  recover_parts message id r s := match secp_recover message id (r ++ s) with
    | Some key => match public_key_to_address (E := CryptoError) key with Ok a => Some a | _ => None end
    | None => None
    end;
|}.
#[export] Instance parts_model_laws `{KeccakOps} `{CryptoOps} : RecoverPartsLaws.
Proof. split. cbn. intros message id r s key a -> ->. done. Qed.
(** Chain 1, an address and nonce 0, signed with a key. *)
Example one_authorization : let a := (authorization_sign (H4 := dev_profile) [7] (authorization_new 1 (replicate 20 1) 0)).2 in
  is_valid_for_chain 1 a = true /\ is_valid_for_chain 2 a = false /\ exists signer, authorization_verify a = Ok signer /\ len signer = 20.
Proof. split; [by vm_compute|]. split; [by vm_compute|]. eexists. split; by vm_compute. Qed.
End Authorization.
