(* ===== verification/Sync.v ===== *)
(** Synchronisation: crates/sync (lib.rs, block_downloader.rs, fast_sync.rs,
    snap_sync.rs, state_sync.rs) over the database, the trie and its proofs.

    A header has the fields the crate sets, its hash, serialised form and
    default are parameters, and so are the text forms of hashes and numbers and
    the errors of the trie as errors of this crate, for which it has no
    conversion.  The body of a block is its serialised default.  What the tasks
    see at each turn (a cancellation, peers, times) is an argument; the loops
    take fuel.  The requests to peers are a record, and [simulated_requests] are
    those of the source, which answer with nothing. *)
From stdpp Require Import base list numbers option strings gmap.
From Stdlib Require Import ZArith Lia.
From S2P Require Import Prelude U256 Storage Trie Filter HistoryExpiry.

Module Sync.
Import Trie.

Inductive SyncError :=
| Timeout | InvalidBlock (s : string) | InvalidState (s : string) | NetworkError (s : string) | SyncStorage (e : StorageError)
| PeerDisconnected | NoPeers | Cancelled.
Notation R := (outcome SyncError).
Inductive SyncMode := Fast | Full | Snap | Light.
Inductive SyncStatus := Idle | Downloading | Processing | Synced | StatusError.
Record SyncProgress := mkProgress { starting_block : Z; current_block : Z; highest_block : Z; pulled_states : Z; known_states : Z }.
(** Durations are in milliseconds. *)
Record SyncConfig := mkSyncConfig {
  mode : SyncMode; max_peers : Z; max_block_request : Z; max_header_request : Z; max_body_request : Z; max_receipt_request : Z;
  max_state_request : Z; timeout : Z; retry_limit : Z;
}.
Definition sync_config_default : SyncConfig := mkSyncConfig Fast 25 128 192 128 256 384 10000 3.
Definition zero_hash : list Z := replicate 32 0.
Record Header := mkHeader { parent_hash : list Z; state_root : list Z; number : Z; gas_limit : Z; gas_used : Z; timestamp : Z }.
Inductive SyncEvent := Started | Progress (p : SyncProgress) | BlockImported (h : list Z) | StateImported (h : list Z) | Completed | EventError (s : string).

(** What the crate takes from elsewhere: hashes, serialised forms, texts. *)
Class SyncForms := {
  header_hash : Header -> list Z;
  serialize_header : Header -> option (list Z);
  default_state_root : list Z;
  default_body : option (list Z);
  hex : list Z -> list Z;
  show : Z -> list Z;
  of_trie : TrieError -> SyncError;
}.

Section sync.
Context `{SyncForms} `{U256Ops} `{KeccakOps} `{RlpLists} `{Profile} {D : Type} `{Database D}.

Definition from_db {A} (m : outcome StorageError A) : R A :=
  match m with Ok a => Ok a | Err e => Err (SyncStorage e) | Panic => Panic | Diverge => Diverge end.
Definition from_trie {A} (m : outcome TrieError A) : R A :=
  match m with Ok a => Ok a | Err e => Err (of_trie e) | Panic => Panic | Diverge => Diverge end.
Definition put_text (prefix : string) (k v : list Z) (d : D) : R D := from_db (put (Filter.text prefix ++ k) v d).

(** ** block_downloader.rs *)

Record DownloadTask := mkTask { block_number : Z; peer_id : list Z; attempts : Z; started_at : Z }.
Record BlockDownloader := mkDownloader { dl_config : SyncConfig; download_queue : list Z; downloading : gmap Z DownloadTask; downloaded : gmap Z Header }.
Definition downloader_new (c : SyncConfig) : BlockDownloader := mkDownloader c [] ∅ ∅.
Notation DL := (SM BlockDownloader SyncError).
Definition set_queue (q : list Z) (b : BlockDownloader) : BlockDownloader := mkDownloader (dl_config b) q (downloading b) (downloaded b).
Definition get_local_head : R Z := Ok 0.
Definition remote_head : Z := 1000.
Fixpoint queue_loop (start stop : Z) (idx : list Z) (q : list Z) : R (list Z) :=
  match idx with
  | [] => Ok q
  | i :: rest => let? n := unwrap (u_add start i) in queue_loop start stop rest (if n <=? stop then q ++ [n] else q)
  end.
(** [as_usize] panics above [usize::MAX]. *)
Definition queue_blocks (start stop : Z) : DL unit :=
  let! b := sget in
  let! d := slift (unwrap (u_sub stop start)) in
  let! d := slift (if d <? 2 ^ 64 then Ok d else Panic) in
  let! n := slift (uadd 64 d 1) in
  let! q := slift (queue_loop start stop (map Z.of_nat (seq 0 (Z.to_nat (Z.min (max_block_request (dl_config b)) n)))) (download_queue b)) in
  smodify (set_queue q).
(** The tasks that are started: the front of the queue, at least one. *)
Definition start_count (b : BlockDownloader) : nat := Z.to_nat (Z.max 1 (max_peers (dl_config b))).
Definition mock_header (n : Z) : Header := mkHeader zero_hash default_state_root n 8000000 0 0.
Definition download_block (peers : bool) (now : Z) (n : Z) : DL Header :=
  if negb peers then sfail NoPeers else
  smodify (fun b => mkDownloader (dl_config b) (download_queue b) (<[n := mkTask n zero_hash 1 now]> (downloading b)) (downloaded b)) ;;!
  let block := mock_header n in
  smodify (fun b => mkDownloader (dl_config b) (download_queue b) (delete n (downloading b)) (<[n := block]> (downloaded b))) ;;!
  sret block.
(** A failed download is only reported. *)
Fixpoint await_all (peers : nat -> bool) (now : Z) (ns : list Z) : DL (list Header) :=
  match ns with
  | [] => sret []
  | n :: ns => fun b =>
      match download_block (peers O) now n b with
      | (Ok block, b) => (let! rest := await_all (fun k => peers (S k)) now ns in sret (block :: rest)) b
      | (Err _, b) => await_all (fun k => peers (S k)) now ns b
      | (Panic, b) => (Panic, b)
      | (Diverge, b) => (Diverge, b)
      end
  end.
Definition download_blocks (peers : nat -> bool) (now : Z) : DL (list Header) :=
  let! b := sget in
  let k := start_count b in
  sput (set_queue (drop k (download_queue b)) b) ;;!
  await_all peers now (take k (download_queue b)).
(** One turn: whether it is cancelled, whether there are peers when it starts
    and for each task, and the time. *)
Record Turn := mkTurn { cancelled : bool; some_peers : bool; task_peers : nat -> bool; turn_time : Z }.
Definition download_next_batch (t : Turn) : DL (list Header) :=
  let! local_head := slift get_local_head in
  if negb (some_peers t) then sfail NoPeers else
  if remote_head <=? local_head then sret [] else
  let! start := slift (unwrap (u_add local_head 1)) in
  queue_blocks start remote_head ;;!
  let! blocks := download_blocks (task_peers t) (turn_time t) in
  sret (sort_by_key number blocks).
Definition cleanup_stale_downloads (order : gmap Z DownloadTask -> list (Z * DownloadTask)) (now : Z) (b : BlockDownloader) : BlockDownloader :=
  let stale (kv : Z * DownloadTask) := timeout (dl_config b) <? Z.max 0 (now - started_at kv.2) in
  let to_retry := map fst (filter (fun kv => stale kv = true /\ attempts kv.2 < retry_limit (dl_config b)) (order (downloading b))) in
  mkDownloader (dl_config b) (download_queue b ++ to_retry) (filter (fun kv => stale kv = false) (downloading b)) (downloaded b).
Record DownloadStats := mkStats { st_queued : Z; st_downloading : Z; st_downloaded : Z }.
Definition get_download_stats (b : BlockDownloader) : DownloadStats :=
  mkStats (len (download_queue b)) (Z.of_nat (size (downloading b))) (Z.of_nat (size (downloaded b))).

(** ** lib.rs: blocks *)

Record Synchronizer := mkSynchronizer { config : SyncConfig; db : D; status : SyncStatus; progress : SyncProgress; events : list SyncEvent; cancel_tx : bool }.
Notation M := (SM Synchronizer SyncError).
Definition synchronizer_new (c : SyncConfig) (d : D) : Synchronizer := mkSynchronizer c d Idle (mkProgress 0 0 0 0 0) [] false.
Definition set_status (x : SyncStatus) (s : Synchronizer) : Synchronizer := mkSynchronizer (config s) (db s) x (progress s) (events s) (cancel_tx s).
Definition set_db (d : D) (s : Synchronizer) : Synchronizer := mkSynchronizer (config s) d (status s) (progress s) (events s) (cancel_tx s).
(** The events that are sent; nobody holds the other end of the channel. *)
Definition send_event (e : SyncEvent) (s : Synchronizer) : Synchronizer := mkSynchronizer (config s) (db s) (status s) (progress s) (events s ++ [e]) (cancel_tx s).
Definition on_db {A} (m : D -> R (A * D)) : M A :=
  fun s => match m (db s) with Ok (a, d) => (Ok a, set_db d s) | Err e => (Err e, s) | Panic => (Panic, s) | Diverge => (Diverge, s) end.
Definition put_record (prefix : string) (k v : list Z) : M unit := on_db (fun d => let? d := put_text prefix k v d in Ok (tt, d)).
Definition validate_block (h : Header) : R unit := if gas_limit h <? gas_used h then Err (InvalidBlock "Gas used exceeds gas limit") else Ok tt.
Definition import_block (h : Header) : M unit :=
  let hash := header_hash h in
  let! header := slift (unwrap (serialize_header h)) in
  put_record "header:" (hex hash) header ;;!
  let! body := slift (unwrap default_body) in
  put_record "body:" (hex hash) body ;;!
  put_record "number:" (show (number h)) hash ;;!
  smodify (send_event (BlockImported hash)).
Fixpoint process_blocks (l : list Header) : M unit :=
  match l with
  | [] => sret tt
  | h :: l => slift (validate_block h) ;;! import_block h ;;! process_blocks l
  end.
Definition update_progress : M unit := smodify (fun s => send_event (Progress (progress s)) s).
(** The loop: the downloader is its own, the synchronizer imports. *)
Fixpoint full_loop (fuel : nat) (turns : nat -> Turn) (b : BlockDownloader) : M unit :=
  match fuel with
  | O => slift Diverge
  | S fuel =>
      if cancelled (turns O) then sfail Cancelled else
      match download_next_batch (turns O) b with
      | (Ok [], _) => sret tt
      | (Ok blocks, b) => process_blocks blocks ;;! update_progress ;;! full_loop fuel (fun k => turns (S k)) b
      | (Err e, _) => sfail e
      | (Panic, _) => slift Panic
      | (Diverge, _) => slift Diverge
      end
  end.
Definition run_full_sync (fuel : nat) (turns : nat -> Turn) : M unit :=
  let! s := sget in full_loop fuel turns (downloader_new (config s)).

(** ** fast_sync.rs *)

Fixpoint header_batch (n : nat) (current : Z) (headers : list Header) : R (Z * list Header) :=
  match n with
  | O => Ok (current, headers)
  | S n =>
      let parent := if current =? 0 then zero_hash else match last headers with Some h => header_hash h | None => zero_hash end in
      let? next := unwrap (u_add current 1) in
      header_batch n next (headers ++ [mkHeader parent default_state_root current 8000000 0 0])
  end.
(** [cancels k]: the cancellation arrives in turn [k]. *)
Fixpoint header_loop (fuel : nat) (cancels : nat -> bool) (batch_size current : Z) (headers : list Header) : R (list Header) :=
  match fuel with
  | O => Diverge
  | S fuel =>
      if cancels O then Err Cancelled else
      if 1000 <? current then Ok headers else
      let? (current, headers) := header_batch (Z.to_nat batch_size) current headers in
      header_loop fuel (fun k => cancels (S k)) batch_size current headers
  end.
Fixpoint store_headers (l : list Header) : M unit :=
  match l with
  | [] => sret tt
  | h :: l => let! v := slift (unwrap (serialize_header h)) in put_record "header:" (hex (header_hash h)) v ;;! store_headers l
  end.
Definition download_headers (fuel : nat) (peers : bool) (cancels : nat -> bool) : M Header :=
  let! s := sget in
  if negb peers then sfail NoPeers else
  let! headers := slift (header_loop fuel cancels (max_header_request (config s)) 0 []) in
  let! pivot := slift (index headers (Z.max 0 (len headers - 64))) in
  store_headers headers ;;!
  sret pivot.
Definition fast_download_accounts : list (list Z * list Z) := [].
Fixpoint insert_accounts (fuel : nat) (l : list (list Z * list Z)) (t : PatriciaTrie D) : R (PatriciaTrie D) :=
  match l with
  | [] => Ok t
  | (k, v) :: l => match trie_insert fuel k v t with (Ok _, t) => insert_accounts fuel l t | (Err e, _) => Err (of_trie e) | (Panic, _) => Panic | (Diverge, _) => Diverge end
  end.
Definition download_state (fuel : nat) (pivot : Header) : M unit :=
  let! root := on_db (fun d =>
    let? t := insert_accounts fuel fast_download_accounts (trie_new d) in
    let '(root, t) := commit t in
    let? root := from_trie root in
    Ok (root, Trie.db t)) in
  if bool_decide (root = state_root pivot) then sret tt else sfail (InvalidState "State root mismatch").
Record FastSync := mkFastSync { headers : list Header; pivot_block : option Z }.
Definition fast_sync_new : FastSync := mkFastSync [] None.
Definition store_block (h : Header) (body : list Z) : M unit :=
  let! v := slift (unwrap (serialize_header h)) in
  put_record "header:" (hex (header_hash h)) v ;;!
  put_record "body:" (hex (header_hash h)) body ;;!
  put_record "number:" (show (number h)) (header_hash h).
Definition store_receipts (hash receipts : list Z) : M unit := put_record "receipts:" (hex hash) receipts.
(** The bodies and the receipts that are downloaded, by the hash of a block. *)
Fixpoint fetch_bodies (cancels : nat -> bool) (l : list Header) (m : gmap (list Z) (list Z)) : R (gmap (list Z) (list Z)) :=
  match l with
  | [] => Ok m
  | h :: l => if cancels O then Err Cancelled else fetch_bodies (fun k => cancels (S k)) l (<[header_hash h := []]> m)
  end.
Fixpoint store_fetched (bodies receipts : gmap (list Z) (list Z)) (l : list Header) : M unit :=
  match l with
  | [] => sret tt
  | h :: l =>
      match bodies !! header_hash h with Some body => store_block h body | None => sret tt end ;;!
      match receipts !! header_hash h with Some r => store_receipts (header_hash h) r | None => sret tt end ;;!
      store_fetched bodies receipts l
  end.
Definition fast_download_blocks (cancels : nat -> bool) (f : FastSync) : M unit :=
  let! fetched := slift (fetch_bodies cancels (headers f) ∅) in
  store_fetched fetched fetched (headers f).
(** What the turns of the three phases and of the full sync see. *)
Record Phases := mkPhases { ph_peers : bool; ph_first : nat -> bool; ph_second : nat -> bool; ph_third : nat -> bool; ph_fourth : nat -> bool; ph_turns : nat -> Turn }.
Definition run_fast_sync (fuel : nat) (p : Phases) : M unit :=
  let f := fast_sync_new in
  let! pivot := download_headers fuel (ph_peers p) (ph_first p) in
  download_state fuel pivot ;;!
  fast_download_blocks (ph_third p) f ;;!
  run_full_sync fuel (ph_turns p).

(** ** snap_sync.rs *)

Record Account := mkAccount { a_address : list Z; a_nonce : Z; a_balance : Z; a_storage_root : list Z; a_code_hash : list Z }.
Record AccountRange := mkAccountRange { ar_start : list Z; ar_end : list Z; accounts : list Account }.
Record StorageRange := mkStorageRange { sr_account : list Z; sr_start : list Z; sr_end : list Z; slots : list (list Z * list Z) }.
Record SnapSync := mkSnapSync { account_ranges : gmap (list Z) AccountRange; storage_ranges : gmap (list Z) StorageRange; bytecodes : gmap (list Z) (list Z); missing_nodes : gset (list Z) }.
Definition snap_sync_new : SnapSync := mkSnapSync ∅ ∅ ∅ ∅.
(** The requests to peers, the form of a stored account and the order in which
    maps and sets are iterated. *)
Record Requests := mkRequests {
  request_account_range : list Z -> list Z -> Z -> R AccountRange;
  request_storage_range : list Z -> list Z -> list Z -> Z -> R StorageRange;
  request_bytecodes : list (list Z) -> R (list (list Z * list Z));
  request_trie_nodes : list (list Z) -> R (list (list Z * list Z));
}.
Definition simulated_requests : Requests := mkRequests
  (fun start stop limit => Ok (mkAccountRange start stop []))
  (fun account start stop limit => Ok (mkStorageRange account start stop []))
  (fun hashes => Ok []) (fun hashes => Ok []).
Context (serialize_account : Account -> option (list Z)) (range_order : gmap (list Z) AccountRange -> list (list Z * AccountRange)) (node_order : gset (list Z) -> list (list Z)).
Notation SS := (SM (SnapSync * Synchronizer) SyncError).
Definition on_sync {A} (m : M A) : SS A := fun '(x, s) => let '(r, s) := m s in (r, (x, s)).
Definition on_snap (f : SnapSync -> SnapSync) : SS unit := smodify (fun '(x, s) => (f x, s)).
Definition store_account (a : Account) : M unit := let! v := slift (unwrap (serialize_account a)) in put_record "account:" (hex (a_address a)) v.
Definition store_storage_slot (account key value : list Z) : M unit := put_record "storage:" (hex account ++ Filter.text ":" ++ hex key) value.
Definition store_bytecode (hash code : list Z) : M unit := put_record "code:" (hex hash) code.
Definition store_trie_node (hash data : list Z) : M unit := put_record "trie:" (hex hash) data.
Definition end_hash : list Z := replicate 32 255.
Definition miss (h : list Z) (x : SnapSync) : SnapSync :=
  if bool_decide (h = zero_hash) then x else mkSnapSync (account_ranges x) (storage_ranges x) (bytecodes x) ({[h]} ∪ missing_nodes x).
Fixpoint keep_accounts (l : list Account) : SS unit :=
  match l with
  | [] => sret tt
  | a :: l => on_sync (store_account a) ;;! on_snap (fun x => miss (a_code_hash a) (miss (a_storage_root a) x)) ;;! keep_accounts l
  end.
Fixpoint accounts_loop (fuel : nat) (net : Requests) (cancels : nat -> bool) (start : list Z) : SS unit :=
  match fuel with
  | O => slift Diverge
  | S fuel =>
      if negb (bytes_lt start end_hash) then sret tt else
      if cancels O then sfail Cancelled else
      let! (_, s) := sget in
      let! range := slift (request_account_range net start end_hash (max_state_request (config s))) in
      match last (accounts range) with
      | None => sret tt
      | Some a =>
          keep_accounts (accounts range) ;;!
          on_snap (fun x => mkSnapSync (<[ar_start range := range]> (account_ranges x)) (storage_ranges x) (bytecodes x) (missing_nodes x)) ;;!
          accounts_loop fuel net (fun k => cancels (S k)) (a_address a)
      end
  end.
Definition download_accounts (fuel : nat) (net : Requests) (cancels : nat -> bool) : SS unit := accounts_loop fuel net cancels zero_hash.
Fixpoint keep_slots (account : list Z) (l : list (list Z * list Z)) : M unit :=
  match l with [] => sret tt | (k, v) :: l => store_storage_slot account k v ;;! keep_slots account l end.
(** [cancels i k]: in turn [k] of the [i]-th account. *)
Fixpoint slots_loop (fuel : nat) (net : Requests) (cancels : nat -> bool) (account start : list Z) : SS unit :=
  match fuel with
  | O => slift Diverge
  | S fuel =>
      if negb (bytes_lt start end_hash) then sret tt else
      if cancels O then sfail Cancelled else
      let! (_, s) := sget in
      let! range := slift (request_storage_range net account start end_hash (max_state_request (config s))) in
      match last (slots range) with
      | None => sret tt
      | Some kv =>
          on_sync (keep_slots account (slots range)) ;;!
          on_snap (fun x => mkSnapSync (account_ranges x) (<[account := range]> (storage_ranges x)) (bytecodes x) (missing_nodes x)) ;;!
          slots_loop fuel net (fun k => cancels (S k)) account kv.1
      end
  end.
Definition all_accounts (x : SnapSync) : list Account := concat (map (fun r => accounts r.2) (range_order (account_ranges x))).
Fixpoint storage_of_each (fuel : nat) (net : Requests) (cancels : nat -> nat -> bool) (l : list Account) : SS unit :=
  match l with
  | [] => sret tt
  | a :: l =>
      (if bool_decide (a_storage_root a = zero_hash) then sret tt else slots_loop fuel net (cancels O) (a_address a) zero_hash) ;;!
      storage_of_each fuel net (fun i => cancels (S i)) l
  end.
Definition download_storage (fuel : nat) (net : Requests) (cancels : nat -> nat -> bool) : SS unit :=
  let! (x, _) := sget in storage_of_each fuel net cancels (all_accounts x).
Fixpoint keep_codes (l : list (list Z * list Z)) : SS unit :=
  match l with
  | [] => sret tt
  | (h, c) :: l =>
      on_sync (store_bytecode h c) ;;!
      on_snap (fun x => mkSnapSync (account_ranges x) (storage_ranges x) (<[h := c]> (bytecodes x)) (missing_nodes x)) ;;!
      keep_codes l
  end.
Fixpoint codes_loop (net : Requests) (cancels : nat -> bool) (cs : list (list (list Z))) : SS unit :=
  match cs with
  | [] => sret tt
  | c :: cs =>
      if cancels O then sfail Cancelled else
      let! found := slift (request_bytecodes net c) in
      keep_codes found ;;!
      codes_loop net (fun k => cancels (S k)) cs
  end.
Definition download_bytecodes (net : Requests) (cancels : nat -> bool) : SS unit :=
  let! (x, s) := sget in
  let hashes := filter (fun h => h <> zero_hash) (map a_code_hash (all_accounts x)) in
  let! cs := slift (HistoryExpiry.chunks (max_state_request (config s)) hashes) in
  codes_loop net cancels cs.
Fixpoint keep_nodes (l : list (list Z * list Z)) : SS unit :=
  match l with
  | [] => sret tt
  | (h, data) :: l =>
      on_sync (store_trie_node h data) ;;!
      on_snap (fun x => mkSnapSync (account_ranges x) (storage_ranges x) (bytecodes x) (missing_nodes x ∖ {[h]})) ;;!
      keep_nodes l
  end.
Fixpoint heal_trie (fuel : nat) (net : Requests) (cancels : nat -> bool) : SS unit :=
  match fuel with
  | O => slift Diverge
  | S fuel =>
      let! (x, s) := sget in
      if bool_decide (missing_nodes x = ∅) then sret tt else
      if cancels O then sfail Cancelled else
      let! found := slift (request_trie_nodes net (take (Z.to_nat (max_state_request (config s))) (node_order (missing_nodes x)))) in
      keep_nodes found ;;!
      heal_trie fuel net (fun k => cancels (S k))
  end.
Definition snap_phases (fuel : nat) (net : Requests) (p : Phases) : SS unit :=
  download_accounts fuel net (ph_first p) ;;!
  download_storage fuel net (fun _ => ph_second p) ;;!
  download_bytecodes net (ph_third p) ;;!
  heal_trie fuel net (ph_fourth p).
Definition run_snap_sync (fuel : nat) (p : Phases) : M unit :=
  (fun s => let '(r, (_, s)) := snap_phases fuel simulated_requests p (snap_sync_new, s) in (r, s)) ;;!
  run_full_sync fuel (ph_turns p).

(** ** lib.rs: the modes *)

Definition run_light_sync : M unit := sret tt.
Definition start (fuel : nat) (p : Phases) : M unit :=
  smodify (set_status Downloading) ;;!
  smodify (send_event Started) ;;!
  smodify (fun s => mkSynchronizer (config s) (db s) (status s) (progress s) (events s) true) ;;!
  let! s := sget in
  match mode (config s) with
  | Fast => run_fast_sync fuel p
  | Full => run_full_sync fuel (ph_turns p)
  | Snap => run_snap_sync fuel p
  | Light => run_light_sync
  end ;;!
  smodify (set_status Synced) ;;!
  smodify (send_event Completed).
Definition stop (s : Synchronizer) : Synchronizer := mkSynchronizer (config s) (db s) Idle (progress s) (events s) false.

(** ** state_sync.rs *)

Record StateSync := mkStateSync { ss_db : D; pending_nodes : list (list Z); downloaded_nodes : gmap (list Z) (list Z) }.
Notation ST := (SM StateSync SyncError).
Definition state_sync_new (d : D) : StateSync := mkStateSync d [] ∅.
Definition download_node (hash : list Z) : R (list Z) := Ok [].
Definition download_code (hash : list Z) : R (list Z) := Ok [].
Definition process_node (data : list Z) : R unit := Ok tt.
Definition verify_state (root : list Z) : R unit := Ok tt.
Definition set_pending (l : list (list Z)) (s : StateSync) : StateSync := mkStateSync (ss_db s) l (downloaded_nodes s).
Fixpoint state_loop (fuel : nat) : ST unit :=
  match fuel with
  | O => slift Diverge
  | S fuel =>
      let! s := sget in
      match pending_nodes s with
      | [] => sret tt
      | h :: rest =>
          smodify (set_pending rest) ;;!
          if bool_decide (is_Some (downloaded_nodes s !! h)) then state_loop fuel else
          let! data := slift (download_node h) in
          slift (process_node data) ;;!
          smodify (fun s => mkStateSync (ss_db s) (pending_nodes s) (<[h := data]> (downloaded_nodes s))) ;;!
          state_loop fuel
      end
  end.
Definition sync_state_root (fuel : nat) (root : list Z) : ST unit :=
  smodify (fun s => set_pending (pending_nodes s ++ [root]) s) ;;!
  state_loop fuel ;;!
  slift (verify_state root).
Definition verify_account_proof (fuel : nat) (root address : list Z) (proof : MerkleProof) : R bool := from_trie (verify fuel proof root address None).
Definition state_put (prefix : string) (k v : list Z) : ST unit :=
  fun s => match put_text prefix k v (ss_db s) with
    | Ok d => (Ok tt, mkStateSync d (pending_nodes s) (downloaded_nodes s))
    | Err e => (Err e, s) | Panic => (Panic, s) | Diverge => (Diverge, s)
    end.
Fixpoint storage_nodes (fuel : nat) (account : list Z) : ST unit :=
  match fuel with
  | O => slift Diverge
  | S fuel =>
      let! s := sget in
      match pending_nodes s with
      | [] => sret tt
      | h :: rest =>
          smodify (set_pending rest) ;;!
          let! data := slift (download_node h) in
          slift (process_node data) ;;!
          state_put "storage:" (hex account ++ Filter.text ":" ++ hex h) data ;;!
          storage_nodes fuel account
      end
  end.
Definition sync_storage (fuel : nat) (account root : list Z) : ST unit := smodify (set_pending [root]) ;;! storage_nodes fuel account.
Definition sync_code (hash : list Z) : ST unit :=
  let! code := slift (download_code hash) in
  if negb (bool_decide (keccak256 code = hash)) then sfail (InvalidState "Code hash mismatch") else state_put "code:" (hex hash) code.
Record AccountState := mkAccountState { s_nonce : Z; s_balance : Z; s_storage_root : list Z; s_code_hash : list Z }.
Definition sync_account (serialize_state : AccountState -> option (list Z)) (fuel : nat) (address : list Z) (a : AccountState) : ST unit :=
  let! v := slift (unwrap (serialize_state a)) in
  state_put "account:" (hex address) v ;;!
  (if bool_decide (s_storage_root a = zero_hash) then sret tt else sync_storage fuel address (s_storage_root a)) ;;!
  (if bool_decide (s_code_hash a = zero_hash) then sret tt else sync_code (s_code_hash a)).
End sync.
End Sync.
