(* ===== verification/SyncProofs.v ===== *)
(** Which modes of synchronisation end, and how: the theorems on crates/sync. *)
From stdpp Require Import base list numbers option strings gmap.
From Stdlib Require Import ZArith Lia.
From S2P Require Import Prelude U256 Storage Trie TrieProps Filter HistoryExpiry Sync.

Module SyncProofs.
Import Trie Sync.

(** Serialising does not fail, and a default state root is zero. *)
Class SyncFormsLaws `{SyncForms} : Prop := {
  header_serializes h : is_Some (serialize_header h);
  body_serializes : is_Some default_body;
  default_root_zero : default_state_root = zero_hash;
}.

Section sync.
Context `{SyncFormsLaws} `{U256Laws} `{KeccakOps} `{RlpLists} `{Profile} {D : Type} `{DatabaseLaws D ok view}.
Implicit Types (s : Synchronizer (D := D)) (b : BlockDownloader).

(** * The downloader *)

(** A turn that is not cancelled and sees peers all along. *)
Definition steady (t : Turn) : Prop := cancelled t = false /\ some_peers t = true /\ forall k, task_peers t k = true.
(** How far a batch reaches. *)
Definition reach (c : SyncConfig) : Z := Z.min (max_block_request c) 1000.
Definition in_reach (c : SyncConfig) (n : Z) : Prop := 1 <= n <= reach c.
Lemma queue_loop_ok start stop idx q : Forall (fun i => 0 <= i /\ start + i < 2 ^ 256) idx -> 0 <= start ->
  queue_loop start stop idx q = Ok (q ++ filter (fun n => n <= stop) (map (Z.add start) idx)).
Proof.
  intros Hi Hs. revert q. induction Hi as [|i idx [H0' Hi] _ IH]; intros q; cbn [queue_loop map]; [by rewrite filter_nil, app_nil_r|].
  rewrite add_law by (unfold uint; lia). rewrite (proj2 (Z.ltb_lt _ _)) by lia. cbn [unwrap obind]. rewrite IH, filter_cons.
  destruct (Z.leb_spec (start + i) stop); [rewrite decide_True by done; by rewrite <- app_assoc|by rewrite decide_False by lia].
Qed.
Definition batch_numbers (c : SyncConfig) : list Z := filter (fun n => n <= 1000) (map (Z.add 1) (map Z.of_nat (seq 0 (Z.to_nat (reach c))))).
Lemma batch_numbers_in c : Forall (in_reach c) (batch_numbers c).
Proof.
  apply Forall_forall. intros n [Hn Hin]%list_elem_of_filter. rewrite map_map in Hin. apply list_elem_of_In, in_map_iff in Hin as (i & <- & Hi). apply in_seq in Hi. split; [lia|unfold reach in *; lia].
Qed.
Lemma batch_numbers_some c : 0 < max_block_request c -> exists l, batch_numbers c = 1 :: l.
Proof. intros Hc. unfold batch_numbers, reach. destruct (Z.to_nat _) as [|n] eqn:E; [lia|]. cbn [seq map]. rewrite filter_cons, decide_True by lia. by eexists. Qed.
Lemma await_all_ok peers now ns b : (forall k, peers k = true) ->
  exists b', await_all peers now ns b = (Ok (map mock_header ns), b') /\ dl_config b' = dl_config b /\ download_queue b' = download_queue b.
Proof.
  intros Hp. revert peers b Hp. induction ns as [|n ns IH]; intros peers b Hp; cbn [await_all]; [by exists b|]. unfold download_block. rewrite Hp. cbn [negb]. rewrite !sbind_modify. cbn [sret].
  unfold sret at 1.
  match goal with |- context [sbind (await_all ?p ?t ns) ?k ?b1] => destruct (IH p b1) as (b' & Hb & Hc & Hq); [intros k'; apply Hp|] end.
  rewrite (sbind_ok _ _ _ _ _ Hb). exists b'. by rewrite Hc, Hq.
Qed.
Lemma queue_blocks_ok b : 0 <= max_block_request (dl_config b) -> queue_blocks 1 remote_head b = (Ok tt, set_queue (download_queue b ++ batch_numbers (dl_config b)) b).
Proof.
  intros Hm. unfold queue_blocks, remote_head. rewrite sbind_get, sub_law by (unfold uint; lia). change (1 <=? 1000) with true. cbn [unwrap]. rewrite sbind_lift.
  change (1000 - 1 <? 2 ^ 64) with true. cbn match. rewrite sbind_lift. unfold uadd. rewrite checked_arith_ok by (unfold uint; lia). rewrite sbind_lift. change (1000 - 1 + 1) with 1000. fold (reach (dl_config b)).
  rewrite queue_loop_ok; [by rewrite sbind_lift| |lia]. apply Forall_map, Forall_forall. intros i Hi. apply elem_of_seq in Hi. unfold reach in Hi. lia.
Qed.
Lemma download_next_batch_ok t b : steady t -> 0 <= max_block_request (dl_config b) ->
  exists b', download_next_batch t b = (Ok (sort_by_key number (map mock_header (take (start_count b) (download_queue b ++ batch_numbers (dl_config b))))), b') /\
    dl_config b' = dl_config b /\ download_queue b' = drop (start_count b) (download_queue b ++ batch_numbers (dl_config b)).
Proof.
  intros (_ & Hp & Hps) Hm. unfold download_next_batch, get_local_head. rewrite sbind_lift, Hp. cbn [negb]. change (remote_head <=? 0) with false. cbn match.
  rewrite add_law by (unfold uint; lia). change (0 + 1 <? 2 ^ 256) with true. cbn [unwrap]. rewrite sbind_lift. rewrite (sbind_ok _ _ _ _ _ (queue_blocks_ok b Hm)).
  set (q := download_queue b ++ batch_numbers (dl_config b)). unfold download_blocks. rewrite sbind_assoc, sbind_get. cbv zeta. rewrite sbind_assoc. unfold sbind at 1, sput at 1.
  change (start_count (set_queue q b)) with (start_count b). change (download_queue (set_queue q b)) with q.
  destruct (await_all_ok (task_peers t) (turn_time t) (take (start_count b) q) (set_queue (drop (start_count b) q) (set_queue q b)) Hps) as (b' & Hb & Hc & Hq).
  rewrite (sbind_ok _ _ _ _ _ Hb). by exists b'.
Qed.

(** * Importing *)

(** What stays as it is while blocks are imported. *)
Record kept (s s' : Synchronizer (D := D)) : Prop := {
  kept_config : config s' = config s; kept_status : status s' = status s; kept_ok : ok (Sync.db s) -> ok (Sync.db s');
}.
Lemma kept_refl s : kept s s.
Proof. by split. Qed.
Lemma kept_trans s1 s2 s3 : kept s1 s2 -> kept s2 s3 -> kept s1 s3.
Proof. intros [] []. split; [congruence|congruence|auto]. Qed.
Lemma put_record_ok prefix k v s : ok (Sync.db s) -> exists s', put_record prefix k v s = (Ok tt, s') /\ kept s s' /\ events s' = events s.
Proof.
  intros Hok. unfold put_record, on_db, put_text. destruct (put_law (Filter.text prefix ++ k) v (Sync.db s) Hok) as (d & Hd & Hokd & _). rewrite Hd. cbn. eexists. split; [done|]. by split.
Qed.
(** A block the downloader makes up, within reach. *)
Definition made_up (c : SyncConfig) (h : Header) : Prop := exists n, in_reach c n /\ h = mock_header n.
(** The events of a full sync: blocks within reach, and no end. *)
Definition full_event (c : SyncConfig) (e : SyncEvent) : Prop :=
  match e with BlockImported x => exists h, made_up c h /\ x = header_hash h | Progress _ => True | _ => False end.
Lemma import_block_ok c h s : ok (Sync.db s) -> made_up c h -> exists s' es, import_block h s = (Ok tt, s') /\ kept s s' /\ events s' = events s ++ es /\ Forall (full_event c) es.
Proof.
  intros Hok Hm. unfold import_block. cbv zeta. destruct (header_serializes h) as [v ->]. cbn [unwrap]. rewrite sbind_lift.
  destruct (put_record_ok "header:" (hex (header_hash h)) v s Hok) as (s1 & H1' & K1 & E1). rewrite (sbind_ok _ _ _ _ _ H1'). destruct body_serializes as [body ->]. cbn [unwrap]. rewrite sbind_lift.
  destruct (put_record_ok "body:" (hex (header_hash h)) body s1) as (s2 & H2' & K2 & E2); [by apply K1|]. rewrite (sbind_ok _ _ _ _ _ H2').
  destruct (put_record_ok "number:" (show (number h)) (header_hash h) s2) as (s3 & H3' & K3 & E3); [by apply K2, K1|]. rewrite (sbind_ok _ _ _ _ _ H3').
  eexists. exists [BlockImported (header_hash h)]. split; [done|]. split_and!.
  - pose proof (kept_trans _ _ _ (kept_trans _ _ _ K1 K2) K3) as []. by split.
  - cbn. by rewrite E3, E2, E1.
  - constructor; [by exists h|constructor].
Qed.
Lemma process_blocks_ok c l s : ok (Sync.db s) -> Forall (made_up c) l -> exists s' es, process_blocks l s = (Ok tt, s') /\ kept s s' /\ events s' = events s ++ es /\ Forall (full_event c) es.
Proof.
  intros Hok Hl. revert s Hok. induction Hl as [|h l Hh _ IH]; intros s Hok; cbn [process_blocks]; [exists s, []; rewrite app_nil_r; split_and!; [done|apply kept_refl|done|constructor]|].
  assert (validate_block h = Ok tt) as -> by (by destruct Hh as (n & _ & ->)). rewrite sbind_lift. destruct (import_block_ok c h s Hok Hh) as (s1 & es1 & H1' & K1 & E1 & F1).
  rewrite (sbind_ok _ _ _ _ _ H1'). destruct (IH s1) as (s2 & es2 & H2' & K2 & E2 & F2); [by apply K1|]. exists s2, (es1 ++ es2). split_and!; [done|by eapply kept_trans|by rewrite E2, E1, app_assoc|by apply Forall_app].
Qed.

(** * Full sync *)

Lemma full_loop_diverges fuel turns b s : (forall k, steady (turns k)) -> 0 < max_block_request (dl_config b) -> Forall (in_reach (dl_config b)) (download_queue b) -> ok (Sync.db s) ->
  exists s' es, full_loop fuel turns b s = (Diverge, s') /\ kept s s' /\ events s' = events s ++ es /\ Forall (full_event (dl_config b)) es.
Proof.
  revert turns b s. induction fuel as [|fuel IH]; intros turns b s Ht Hm Hq Hok; cbn [full_loop]; [exists s, []; rewrite app_nil_r; split_and!; [done|apply kept_refl|done|constructor]|].
  destruct (Ht 0%nat) as (Hc & _). rewrite Hc. destruct (download_next_batch_ok (turns 0%nat) b (Ht 0%nat)) as (b' & Hb & Hcfg & Hq'); [lia|]. rewrite Hb.
  set (q := download_queue b ++ batch_numbers (dl_config b)) in *. assert (Forall (in_reach (dl_config b)) q) as Hin by (apply Forall_app; split; [done|apply batch_numbers_in]).
  assert (take (start_count b) q <> []) as Hne.
  { destruct (batch_numbers_some (dl_config b) Hm) as [l Hl]. unfold start_count, q. rewrite Hl. destruct (Z.to_nat _) as [|k] eqn:E; [lia|]. by destruct (download_queue b). }
  set (blocks := sort_by_key number (map mock_header (take (start_count b) q))).
  assert (Forall (made_up (dl_config b)) blocks) as Hmade.
  { unfold blocks. rewrite sort_by_key_perm. apply Forall_map. eapply Forall_impl; [apply Forall_take, Hin|]. intros n Hn. by exists n. }
  assert (blocks <> []) as Hbl.
  { intros E. assert (length blocks = length (take (start_count b) q)) as Hlen by (unfold blocks; rewrite sort_by_key_perm; apply length_map). rewrite E in Hlen. by destruct (take _ q). }
  clearbody blocks. destruct blocks as [|h0 hs] eqn:Eb; [done|]. rewrite <- Eb in *.
  destruct (process_blocks_ok (dl_config b) blocks s Hok Hmade) as (s1 & es1 & H1' & K1 & E1 & F1). rewrite (sbind_ok _ _ _ _ _ H1'). unfold update_progress. rewrite sbind_modify.
  destruct (IH (fun k => turns (S k)) b' (send_event (Progress (progress s1)) s1)) as (s2 & es2 & H2' & K2 & E2 & F2); [intros k; apply Ht|by rewrite Hcfg|rewrite Hcfg, Hq'; by apply Forall_drop|by apply K1|].
  exists s2, (es1 ++ [Progress (progress s1)] ++ es2). split_and!; [done| | |].
  - eapply kept_trans; [exact K1|]. destruct K2. by split.
  - rewrite E2. cbn. by rewrite E1, <- !app_assoc.
  - rewrite Hcfg in F2. apply Forall_app. split; [done|]. by constructor.
Qed.

(** * Fast sync *)

Lemma header_batch_ok n current hs : 0 <= current -> current + Z.of_nat n < 2 ^ 256 ->
  exists new, header_batch n current hs = Ok (current + Z.of_nat n, hs ++ new) /\ length new = n /\ Forall (fun h => state_root h = default_state_root) new.
Proof.
  revert current hs. induction n as [|n IH]; intros current hs H0' Hlt; cbn [header_batch]; [exists []; split_and!; [by rewrite Z.add_0_r, app_nil_r|done|constructor]|].
  rewrite add_law by (unfold uint; lia). rewrite (proj2 (Z.ltb_lt _ _)) by lia. cbn [unwrap obind].
  match goal with |- context [header_batch n _ (hs ++ [?h])] => destruct (IH (current + 1) (hs ++ [h])) as (new & Hb & Hl & Hf); [lia..|]; exists (h :: new) end.
  rewrite Hb, <- app_assoc. split_and!; [do 2 f_equal; lia|cbn; lia|by constructor].
Qed.
Lemma header_loop_ok fuel cancels size current hs : (forall k, cancels k = false) -> 0 < size < 2 ^ 64 -> 0 <= current <= 1000 + size -> len hs = current ->
  Forall (fun h => state_root h = default_state_root) hs -> Z.max 0 (1001 - current) < Z.of_nat fuel ->
  exists out, header_loop fuel cancels size current hs = Ok out /\ 1000 < len out /\ Forall (fun h => state_root h = default_state_root) out.
Proof.
  intros Hc Hs. revert cancels current hs Hc. induction fuel as [|fuel IH]; intros cancels current hs Hc Hcur Hlen Hf Hfuel; cbn [header_loop].
  - lia.
  - rewrite Hc. destruct (Z.ltb_spec 1000 current); [exists hs; split_and!; [done|lia|done]|]. destruct (header_batch_ok (Z.to_nat size) current hs) as (new & Hb & Hl & Hn); [lia..|]. rewrite Hb. cbn [obind].
    apply IH; [intros k; apply Hc|lia|rewrite len_app; unfold len in *; lia|by apply Forall_app|lia].
Qed.
Lemma store_headers_ok l s : ok (Sync.db s) -> exists s', store_headers l s = (Ok tt, s') /\ kept s s'.
Proof.
  revert s. induction l as [|h l IH]; intros s Hok; cbn [store_headers]; [exists s; split; [done|apply kept_refl]|]. destruct (header_serializes h) as [v ->]. cbn [unwrap]. rewrite sbind_lift.
  destruct (put_record_ok "header:" (hex (header_hash h)) v s Hok) as (s1 & H1' & K1 & _). rewrite (sbind_ok _ _ _ _ _ H1'). destruct (IH s1) as (s2 & H2' & K2); [by apply K1|]. exists s2. split; [done|by eapply kept_trans].
Qed.
Lemma download_headers_ok fuel cancels s : (forall k, cancels k = false) -> 0 < max_header_request (config s) < 2 ^ 64 -> (1002 <= fuel)%nat -> ok (Sync.db s) ->
  exists pivot s', download_headers fuel true cancels s = (Ok pivot, s') /\ state_root pivot = default_state_root /\ kept s s'.
Proof.
  intros Hc Hm Hf Hok. unfold download_headers. rewrite sbind_get. cbn [negb]. destruct (header_loop_ok fuel cancels (max_header_request (config s)) 0 []) as (out & Ho & Hl & Hr); [done|done|lia|done|constructor|lia|].
  rewrite Ho, sbind_lift. assert (exists pivot, out !! Z.to_nat (Z.max 0 (len out - 64)) = Some pivot) as [pivot Hp] by (apply lookup_lt_is_Some_2; unfold len in *; lia).
  assert (index (E := SyncError) out (Z.max 0 (len out - 64)) = Ok pivot) as -> by (unfold index; rewrite Hp, (proj2 (Z.leb_le _ _)); [done|lia]). rewrite sbind_lift.
  destruct (store_headers_ok out s Hok) as (s1 & H1' & K1). rewrite (sbind_ok _ _ _ _ _ H1'). exists pivot, s1. split_and!; [done| |done]. by apply (Forall_lookup_1 _ _ _ _ Hr Hp).
Qed.
(** The root of an empty trie is its padded encoding. *)
Lemma commit_empty d : ok d -> exists t, commit (trie_new d) = (Ok (128 :: replicate 31 0), t) /\ ok (Trie.db t).
Proof.
  intros Hok. unfold commit. rewrite sbind_get. change (commit_node (root (trie_new d)) []) with (Ok (E := Empty_set) (@nil BatchOp)). cbn [lift_ok]. rewrite sbind_lift.
  destruct (write_ops_law [] d Hok) as (d' & Hd & Hok' & _). cbn [Trie.db trie_new]. rewrite Hd. cbn [from_storage]. rewrite sbind_lift. unfold sbind at 1, sput at 1. eexists. split; [reflexivity|done].
Qed.
Lemma download_state_fails fuel pivot s : state_root pivot = default_state_root -> ok (Sync.db s) ->
  exists s', download_state fuel pivot s = (Err (InvalidState "State root mismatch"), s') /\ kept s s'.
Proof.
  intros Hr Hok. unfold download_state, on_db. destruct (commit_empty (Sync.db s) Hok) as (t & Ht & Hokt). unfold sbind at 1. cbn [insert_accounts fast_download_accounts obind].
  rewrite Ht. cbn [from_trie obind]. rewrite bool_decide_false by (by rewrite Hr, default_root_zero). eexists. split; [done|]. by split.
Qed.

(** * Snap sync *)

Context (serialize_account : Account -> option (list Z)) (range_order : gmap (list Z) AccountRange -> list (list Z * AccountRange)) (node_order : gset (list Z) -> list (list Z)).
Context (empty_order : range_order ∅ = []).
(** Turns without a cancellation, with peers. *)
Definition undisturbed (p : Phases) : Prop :=
  ph_peers p = true /\ (forall k, ph_first p k = false) /\ (forall k, ph_second p k = false) /\ (forall k, ph_third p k = false) /\ (forall k, ph_fourth p k = false) /\ forall k, steady (ph_turns p k).
Lemma snap_phases_nothing fuel p s : undisturbed p -> (0 < fuel)%nat -> 0 < max_state_request (config s) ->
  snap_phases serialize_account range_order node_order fuel simulated_requests p (snap_sync_new, s) = (Ok tt, (snap_sync_new, s)).
Proof.
  intros (_ & H1' & _) Hf Hm. destruct fuel as [|fuel]; [lia|]. unfold snap_phases.
  assert (download_accounts serialize_account (S fuel) simulated_requests (ph_first p) (snap_sync_new, s) = (Ok tt, (snap_sync_new, s))) as Ha.
  { unfold download_accounts. cbn [accounts_loop]. change (bytes_lt zero_hash end_hash) with true. cbn [negb]. rewrite H1', sbind_get. done. }
  rewrite (sbind_ok _ _ _ _ _ Ha). unfold download_storage at 1. rewrite sbind_assoc, sbind_get. unfold all_accounts at 1. cbn [account_ranges snap_sync_new]. rewrite empty_order. cbn [map concat storage_of_each].
  unfold sbind at 1, sret at 1. unfold download_bytecodes. rewrite sbind_assoc, sbind_get. cbv zeta. unfold all_accounts. cbn [account_ranges snap_sync_new]. rewrite empty_order. cbn [map concat].
  rewrite sbind_assoc. unfold HistoryExpiry.chunks. rewrite (proj2 (Z.eqb_neq _ _)) by lia. cbn [filter list_filter]. rewrite sbind_lift. cbn [length HistoryExpiry.chunks_fuel codes_loop]. unfold sbind at 1, sret at 1.
  cbn [heal_trie]. rewrite sbind_get. cbn [missing_nodes snap_sync_new]. by rewrite bool_decide_true.
Qed.

(** C38: with peers and without a cancellation, of the four modes of
    synchronisation only the light one ends as synced, and it has done nothing.
    Full and snap sync never return however long they run, fast sync fails on
    the state root of its pivot, and all three leave the status at downloading. *)
Theorem only_light_sync_completes fuel p s :
  undisturbed p -> ok (Sync.db s) -> 0 < max_block_request (config s) -> 0 < max_header_request (config s) < 2 ^ 64 -> 0 < max_state_request (config s) -> (1002 <= fuel)%nat ->
  exists r s', start serialize_account range_order node_order fuel p s = (r, s') /\
    match mode (config s) with
    | Light => r = Ok tt /\ status s' = Synced /\ Sync.db s' = Sync.db s
    | Fast => r = Err (InvalidState "State root mismatch") /\ status s' = Downloading
    | Full | Snap => r = Diverge /\ status s' = Downloading
    end.
Proof.
  intros Hp Hok Hb Hh Hst Hf. unfold start. rewrite !sbind_modify. rewrite sbind_get. set (s0 := mkSynchronizer _ _ _ _ _ true). change (config s0) with (config s). pose proof Hp as (Hpeers & H1' & _ & _ & _ & Ht).
  assert (ok (Sync.db s0)) as Hok0 by exact Hok. assert (forall s1, kept s0 s1 -> exists s2, run_full_sync fuel (ph_turns p) s1 = (Diverge, s2) /\ status s2 = Downloading) as Hfull.
  { intros s1 K1. unfold run_full_sync. rewrite sbind_get. destruct (full_loop_diverges fuel (ph_turns p) (downloader_new (config s1)) s1 Ht) as (s2 & _ & H2' & K2 & _).
    - cbn. rewrite (kept_config _ _ K1). exact Hb.
    - constructor.
    - by apply K1.
    - exists s2. split; [done|]. by rewrite (kept_status _ _ K2), (kept_status _ _ K1). }
  destruct (mode (config s)).
  - unfold run_fast_sync. cbv zeta. rewrite sbind_assoc, Hpeers. destruct (download_headers_ok fuel (ph_first p) s0 H1' Hh Hf Hok0) as (pivot & s1 & Hd & Hr & K1). rewrite (sbind_ok _ _ _ _ _ Hd), sbind_assoc.
    destruct (download_state_fails fuel pivot s1 Hr) as (s2 & Hs & K2); [by apply K1|]. unfold sbind at 1. rewrite Hs. do 2 eexists. split; [done|]. split; [done|]. by rewrite (kept_status _ _ K2), (kept_status _ _ K1).
  - destruct (Hfull s0 (kept_refl s0)) as (s2 & Hr & Hs). unfold sbind at 1. rewrite Hr. by do 2 eexists.
  - unfold run_snap_sync. rewrite sbind_assoc. unfold sbind at 1. rewrite snap_phases_nothing by (done || lia). destruct (Hfull s0 (kept_refl s0)) as (s2 & Hr & Hs). unfold sbind at 1. rewrite Hr. by do 2 eexists.
  - unfold run_light_sync. unfold sbind at 1, sret at 1. rewrite sbind_modify. by do 2 eexists.
Qed.
(** A full sync imports the blocks 1 to 128, or to the largest request, over and
    over, and never reports that it is complete. *)
Theorem full_sync_repeats fuel turns s : (forall k, steady (turns k)) -> 0 < max_block_request (config s) -> ok (Sync.db s) ->
  exists s' es, run_full_sync fuel turns s = (Diverge, s') /\ events s' = events s ++ es /\ Forall (full_event (config s)) es.
Proof.
  intros Ht Hm Hok. unfold run_full_sync. rewrite sbind_get. destruct (full_loop_diverges fuel turns (downloader_new (config s)) s Ht) as (s' & es & Hr & _ & He & Hf); [done|constructor|done|]. by exists s', es.
Qed.

(** * Healing and state sync *)

(** With nodes missing, healing asks for them for ever. *)
Theorem healing_hangs fuel cancels x s : (forall k, cancels k = false) -> missing_nodes x <> ∅ -> heal_trie node_order fuel simulated_requests cancels (x, s) = (Diverge, (x, s)).
Proof.
  intros Hc Hm. revert cancels Hc. induction fuel as [|fuel IH]; intros cancels Hc; cbn [heal_trie]; [done|]. rewrite sbind_get, bool_decide_false by done. rewrite Hc. cbn [request_trie_nodes simulated_requests].
  rewrite sbind_lift. cbn [keep_nodes]. unfold sbind at 1, sret at 1. apply IH. intros k. apply Hc.
Qed.
(** A state root is synced with one empty node, whatever it is. *)
Theorem any_state_root_syncs fuel root d : (2 <= fuel)%nat ->
  exists st, sync_state_root fuel root (state_sync_new (D := D) d) = (Ok tt, st) /\ downloaded_nodes st = {[root := []]}.
Proof.
  intros Hf. destruct fuel as [|[|fuel]]; [lia|lia|]. unfold sync_state_root. rewrite sbind_modify. cbn [state_loop]. rewrite sbind_assoc, sbind_get. cbn [pending_nodes set_pending state_sync_new app downloaded_nodes].
  rewrite sbind_assoc, sbind_modify. rewrite bool_decide_false by (rewrite lookup_empty; by intros []). rewrite sbind_assoc. unfold download_node. rewrite sbind_lift. rewrite sbind_assoc. unfold process_node. rewrite sbind_lift.
  rewrite sbind_assoc, sbind_modify. rewrite sbind_assoc, sbind_get. cbn [pending_nodes]. unfold sbind at 1, sret at 1. unfold slift, verify_state. eexists. split; [done|]. cbn. by rewrite insert_empty.
Qed.
(** An account with code fails after it is stored, unless its code is empty. *)
Theorem account_with_code_fails serialize_state fuel address a d v : ok d -> serialize_state a = Some v -> s_storage_root a = zero_hash -> s_code_hash a <> zero_hash -> s_code_hash a <> keccak256 [] ->
  exists st, sync_account serialize_state fuel address a (state_sync_new d) = (Err (InvalidState "Code hash mismatch"), st) /\ view (ss_db st) = <[Filter.text "account:" ++ hex address := v]> (view d).
Proof.
  intros Hok Hs Hr Hc Hk. unfold sync_account. rewrite Hs. cbn [unwrap]. rewrite sbind_lift. unfold sbind at 1, state_put, put_text. destruct (put_law (Filter.text "account:" ++ hex address) v d Hok) as (d' & Hd & _ & Hv). cbn [ss_db state_sync_new]. rewrite Hd. cbn [from_db].
  rewrite bool_decide_true by done. unfold sbind at 1, sret at 1. rewrite bool_decide_false by done. unfold sync_code, download_code. rewrite sbind_lift. rewrite bool_decide_false by (intros E; by apply Hk). by eexists.
Qed.
End sync.

(** * Witnesses and examples *)

Section examples.
#[local] Existing Instances dev_profile TrieProps.list_methods.
#[local] Instance plain_forms : SyncForms := {|
  header_hash h := [number h]; serialize_header h := Some [number h; gas_limit h]; default_state_root := zero_hash; default_body := Some [];
  hex l := l; show n := [n]; of_trie _ := Timeout;
|}.
#[local] Instance plain_forms_laws : SyncFormsLaws.
Proof. split; [by intros; eexists|by eexists|done]. Qed.
Definition no_account (a : Account) : option (list Z) := None.
Definition calm : Turn := mkTurn false true (fun _ => true) 0.
Definition calm_phases : Phases := mkPhases true (fun _ => false) (fun _ => false) (fun _ => false) (fun _ => false) (fun _ => calm).
Lemma calm_undisturbed : undisturbed calm_phases.
Proof. by split_and!. Qed.
Definition fresh (m : SyncMode) : Synchronizer (D := MemoryDatabase) := synchronizer_new (mkSyncConfig m 25 128 192 128 256 384 10000 3) db_new.
Notation begin fuel m := (start no_account map_to_list elements fuel calm_phases (fresh m)).
Lemma only_light_sync_completes_witness : exists r s', begin 1002 Fast = (r, s') /\ r = Err (InvalidState "State root mismatch") /\ status s' = Downloading.
Proof.
  destruct (only_light_sync_completes no_account map_to_list elements (map_to_list_empty (M := gmap (list Z))) 1002 calm_phases (fresh Fast)) as (r & s' & Hr & Hs).
  - apply calm_undisturbed.
  - apply Sorted.SSorted_nil.
  - reflexivity.
  - split; reflexivity.
  - reflexivity.
  - apply Nat.le_refl.
  - exists r, s'. exact (conj Hr Hs).
Defined.
(** Two turns of a full sync: block 25 comes from the first and 50 from the
    second, and 206 numbers wait in the queue, which grows by 103 each turn. *)
Example two_turns : let s := (run_full_sync 2 (fun _ => calm) (fresh Full)).2 in
  last (omap (fun e => match e with BlockImported [n] => Some n | _ => None end) (events s)) = Some 50 /\
  len (download_queue (download_next_batch calm (download_next_batch calm (downloader_new (config s))).2).2) = 206.
Proof. by vm_compute. Qed.
End examples.
End SyncProofs.
